(* ===== verification/_CoqProject ===== *)
-Q . S2P
Prelude.v
IntArith.v
Ram.v
Machine.v
Registers.v
Devices.v
Peripherals.v
Bus.v
IoSpec.v
Console.v
Tc.v
Cache.v
Mmu.v
Paging.v
RegStack.v
RegRing.v
Float.v
FloatSpec.v
FloatOps.v
FloatAdd.v
InstrArith.v
InstrBits.v
InstrMem.v
Decoder.v
Intrpts.v
Cpu.v
Frames.v
Isolation.v
Exceptions.v
CMem.v
MemOps.v
Heap.v
HeapInv.v
HeapSpec.v
HeapFree.v
HeapRealloc.v
Alloc.v
HeapProps.v
Sll.v
SllSpec.v
SllProps.v
Sort.v
Time.v
CString.v
Stdio.v
CStringSpec.v
StdioProps.v
Number.v
Printf.v
PrintfSpec.v
PrintfProps.v
Scanf.v
CStringProps.v
CopySpec.v
Env.v
EnvSpec.v
EnvNames.v
EnvProps.v
Path.v
PathSpec.v
PathProps.v
DirName.v
Strftime.v
StrftimeSpec.v
StrftimeProps.v
RwLock.v
