(* ===== verification/Prelude.v ===== *)
(** * The GIMMIX simulator and the C library of Escape, verified

    GIMMIX (gimmix/ in this repository) simulates a computer with the processor GIMMIX, a
    variant of Knuth's MMIX, on which the operating system Escape runs; the programs of Escape
    use its own C library (source/lib/basic, source/lib/c).  This library models both,
    function by function, and proves what makes them correct.  Of the simulator: that caches,
    translation caches and the register ring are invisible to the program that runs, that
    arithmetic is exact, that user programs are confined, that exceptions can be resumed,
    that the devices keep their promises.  Of the C library: that the heap hands out memory
    and takes it back without damage, that lists, sorting, strings, numbers, dates, paths, the
    environment and formatted output do what they should, that the locks exclude.  Where the code does
    not do what its documentation says, the theorems leave the case out and say so, and most of
    the differences have a theorem or an example of their own.

    ** How the code is represented

    In the simulator, a [byte], [wyde], [tetra] or [octa] is a [Z] in range, with the wrap-around of C's
    unsigned arithmetic written out ([+o], [wrap64]).  The static variables of all modules
    are the fields of one record, [machine] (Machine.v), grouped by the module that declares
    them; arrays are functions from indices.  A C function that touches them is a value of
    the state monad [M]: it returns ([Ret]), throws ([Throw]: [ex_throw], a [longjmp] that
    keeps every assignment made so far; [catch] is [setjmp]) or stops the simulator
    ([Stop]: [sim_error], a failed assertion, behaviour that C leaves undefined, or the fuel
    of a loop has run out).  Events for the observers are a log.  The definitions are
    executable and have the names of the C functions; a part of a long function that has a
    definition of its own says so.

    The C library runs in a [process] (CMem.v): a memory of bytes, a part of which is mapped,
    the static variables of the modeled modules, and the answers of the kernel to the system
    calls, which are parameters of the state.  A function is a value of the monad [C]: it
    returns ([Done]) or the process ends badly ([Bad]: an access to unmapped memory, a failed
    assertion, exit, a semaphore nobody raises, a loop without end).  Structures that the code
    allocates (areas of the heap, nodes of a list) lie in the memory, field by field; only the
    streams of stdio are records in a table.  The readers-writer lock runs in many threads at once; it is a step relation (RwLock.v).

    ** The files

    - Prelude.v: words, arrays, loops, the tactics and the lemmas the others share.
    - IntArith.v (core/arith/int.c): multiplication and division on 16-bit digits, shifts.
    - Ram.v (dev/ram.c): the memory, a treap of nodes of 2048 bytes.
    - Machine.v: the state, the monad, its rules, and the frame tactics ([keeps]).
    - Registers.v (core/register.h, parts of core/cpu.c): special registers, interrupts.
    - Devices.v (dev/ram.c, dev/rom.c, dev/timer.c); Peripherals.v (dev/disk.c, dev/term.c,
      dev/output.c, dev/dspkbd.c); Bus.v (core/bus.c): the devices and the bus that finds
      them by address.  IoSpec.v and Console.v: the theorems about timers, disk, terminals,
      keyboard and display.
    - Tc.v (core/tc.c), Cache.v (core/cache.c), Mmu.v (core/mmu.c), Paging.v: translation
      caches, caches, accesses to memory, and address translation.
    - RegStack.v (core/register.c), RegRing.v: the ring of registers and its stack.
    - Float.v (core/arith/float.c), FloatSpec.v, FloatOps.v, FloatAdd.v: floating point
      numbers, their values, and correct rounding.
    - InstrArith.v, InstrBits.v, InstrMem.v, Intrpts.v (core/instr/): the instructions.
    - Decoder.v (core/decoder.c), Cpu.v (core/cpu.c, sim.c): decoding, the instruction
      cycle, exceptions, the start of the simulator.
    - Frames.v, Isolation.v, Exceptions.v: theorems about the whole machine.
    - CMem.v: processes, the monad [C], memory, loops.  MemOps.v (lib/basic/arch/x86/mem*.c,
      lib/basic/string/mem*.c): blocks of memory.
    - Heap.v (lib/c/stdlib/heap.c): the heap; HeapInv.v: its invariant; HeapSpec.v,
      HeapFree.v, HeapRealloc.v: what each operation does to it; Alloc.v: the promise of an
      allocator to its clients, a type class, and its instance; HeapProps.v: the theorems.
    - Sll.v (lib/basic/sllist.c), SllSpec.v, SllProps.v: singly linked lists.
    - Sort.v (lib/c/stdlib/qsort.c, bsearch.c), Time.v (lib/basic/time, parts of lib/c/time),
      CString.v (lib/basic/string, lib/basic/ctype), CStringSpec.v, Number.v (the conversions
      of lib/basic/string and lib/basic/width), CStringProps.v.
    - Stdio.v (lib/c/stdio): buffered streams; StdioProps.v: what they deliver.  Printf.v
      (vbprintf.c and the functions it calls), PrintfSpec.v, PrintfProps.v: formatted output,
      the text a format stands for.  Scanf.v (vbscanf.c, breadn.c, breads.c): formatted input.
    - Env.v (lib/c/stdlib/*env*.c): the environment variables, an array of strings on the heap;
      CopySpec.v: what the functions that copy strings write; EnvSpec.v, EnvNames.v: what each
      operation does; EnvProps.v: the theorem, against the interface of the allocator.
    - Path.v (lib/c/dirent): the functions on paths; PathSpec.v: their loops on the list of
      components; PathProps.v ([abspath], [cleanpath]) and DirName.v ([basename], [dirname]).
    - Strftime.v (lib/c/time/strftime.c, asctime.c, ctime.c): dates as text; StrftimeSpec.v, StrftimeProps.v:
      what the formats stand for, and that it is written.
    - RwLock.v (lib/c/sys/sync.c): the readers-writer lock.

    A device answers the bus through the functions of its record [sDevice], as in C; here
    [dev_read], [dev_write] and [dev_reset] select them by [dev_id].  The cache reads and
    writes blocks through the bus, the memory management unit reads page tables through the
    data cache, the register ring spills through the memory management unit, instructions
    use all of these; the files follow this order.

    ** What the theorems show

    - Memory: RAM is a flat memory (Ram.v); the data cache shows it unchanged and writes it
      back (Cache.v); translation implements the page tables whatever is cached, accesses of
      each width change exactly their bytes, user code reaches no privileged memory (Mmu.v,
      Paging.v); translation caches are maps (Tc.v); devices do not overlap (Bus.v).
    - Registers: each is a cell of its own, however far the ring has been spilled, and calls
      return what they should (RegRing.v).
    - Arithmetic: multiplication, division and their overflows are exact (IntArith.v,
      InstrArith.v); parallel bit operations work lane by lane (InstrBits.v); sums, products
      and quotients of floating point numbers are correctly rounded and comparisons order
      the values (FloatOps.v, FloatAdd.v), with the one exception that FloatAdd.v proves.
    - Control: decoding is total (Decoder.v); user code keeps the privileged registers, its
      jumps are guarded, inconsistent modes trap (Isolation.v); a trap can be resumed, enabled
      interrupts are taken, [cpu_run] repeats [cpu_step] (Exceptions.v).
    - Devices: a tick runs exactly the timers that are due and loses none, the disk gives
      back what it was given (IoSpec.v); the buffer of the keyboard is a queue, the window
      shows the text (Console.v).
    - The heap: [malloc] gives a new block that overlaps no other, [free] returns it, merged with
      the usable areas that touch it, [realloc] keeps the contents, and freeing a new block restores
      the space (HeapProps.v).
    - The C library: a list behaves as the mathematical one, against the interface of the
      allocator only (SllProps.v); [qsort] sorts, [bsearch] finds (Sort.v); dates are those of
      the calendar, but for the day of the month, which counts from 0, and convert back (Time.v); tokens, comparisons, searches, and numbers that
      are printed and read back (CStringProps.v); blocks move as wholes (MemOps.v).
    - Input and output: buffering is invisible (StdioProps.v); [snprintf] writes the text of
      its format as far as it fits ([snprintf_text]), which is the documented one for the conversions
      that [snprintf_formats] names (PrintfProps.v); a printed number is scanned (Scanf.v).
    - The environment, from [initenv] on and through any calls of [setenv], is a list of names and
      values, in which [getenvto] finds the last value set; calls fail only if the allocator
      refuses memory (EnvProps.v).
    - Paths: [cleanpath] gives the components that the path leads to, within the bounds of the
      target (PathProps.v); [basename] gives the last component and [dirname] those before it (DirName.v).
    - Dates as text: [strftime] writes what its format stands for ([strftime_done]), and for the
      dates of timestamps and the directives that follow their documentation this is the text of the
      calendar ([strftime_formats]); [ctime] shows the date of every timestamp in its 25 bytes,
      without the newline that is documented (StrftimeProps.v).
    - Concurrency: the readers-writer lock excludes and does not deadlock, for any number of
      threads (RwLock.v).
    - Errors of the simulator, each with a theorem: the first write to RAM can be lost (Ram.v), an
      access to missing memory leaves a block in the cache (Cache.v), a nested RESUME never
      ends (Exceptions.v), UNSAVE and LDVTS let user code change privileged state
      (Isolation.v), a sum is rounded wrongly (FloatAdd.v), a reset starts too many timers
      for the terminals (IoSpec.v).
    - Errors of the C library, each with a theorem: [malloc] loses an area and takes sizes that
      overflow (HeapProps.v), [memset] extends the sign (MemOps.v), an index behind the end of
      a list is accepted (SllProps.v), [bsearch] wraps (Sort.v), [gmtime] fails where [long] has
      32 bits (Time.v), [strncmp], [strstr], [strmatch] and [getnwidth] are wrong in special
      cases (CStringProps.v), and so are [snprintf], which also returns EOF for a text that is too long (PrintfProps.v),
      and [scanf] (Scanf.v); a string stream that grows damages the heap (StdioProps.v); [abspath] writes outside of its
      buffer (PathProps.v), and so does [strftime] (StrftimeProps.v); [cleanpath] may leave its target
      without a terminating zero (PathProps.v); [basename] loses the root (DirName.v).

    ** Fuel

    A loop whose bound is not evident from its counter takes fuel.  The constants are
    enough: the correction of a quotient digit ends after at most 2 steps (3); the search
    for the highest exception bit looks at 8 bits (9); normalising a fraction shifts by at
    most 63 places (64), a denormal number by 52 (55); the loops that make room in the ring
    or reload it run at most 256 times (257), those that move the whole ring too (512); SAVE
    and UNSAVE go through at most 240 registers (300); [check_pages] takes at most one step per
    byte of a saved frame, which has less than 8192; a floating point remainder takes one
    step per bit of the difference of the exponents (2600).  The binary search for a key code
    has the length of the table.  Two bounds are not constants of the code and stay parameters: [tick_fuel],
    the number of timers that may expire in one tick (more than the 20 timers that exist
    suffices, [timer_tick_expires]), and [resume_fuel], the depth to which RESUME may insert
    RESUME (no depth is enough for [nested_resume_diverges]; a single RESUME needs 2).
    Loops of the C library may run 2^64 rounds, more than there are addresses; the recursion
    of [qsort] is at most as deep as there are elements, [strftime] calls itself once; [gmtime] counts at most 137 years;
    printing a number takes a level of recursion per digit (10 and 19 decimal digits, 32 and
    64 binary ones).

    ** Not modelled

    The host: files, pseudo terminals, xterm, the X11 window and its threads appear as the
    bytes of the disk image, streams of characters, key events and colored pixels.  Functions
    that only free memory or print.  The command line interface and the debugger stub
    (gimmix/src/cli, gdbstub.c, main.c), which inspect the machine from outside.  Of the C
    library: files by name, reading directories, floating point (in [printf] a parameter), and
    the wrappers of system calls.  The other trees of the repository: the kernel and the drivers of Escape
    (source/kernel, source/drivers: C++ and assembler), its programs (source/user), the ECO32
    tool chain (eco32/, third-party). *)

From Stdlib Require Import ZArith Lia Bool Btauto.
From stdpp Require Import base list numbers option.

#[global] Open Scope Z_scope.

(** ** Machine words

    [octa] is [uint64_t], [tetra] is [uint32_t], [wyde] is [uint16_t] and
    [byte] is [uint8_t] (include/common.h).  A word is a [Z] in range; the
    wrap-around of C's unsigned arithmetic is written out. *)

Declare Scope word_scope.
Delimit Scope word_scope with word.

Notation "x .& y" := (Z.land x y) (at level 47, left associativity) : word_scope.
Notation "x .| y" := (Z.lor x y) (at level 49, left associativity) : word_scope.
Notation "x .^ y" := (Z.lxor x y) (at level 48, left associativity) : word_scope.
Notation "x .>> n" := (Z.shiftr x n) (at level 45, left associativity) : word_scope.
#[global] Open Scope word_scope.

(** Reduction of an intermediate result to the width of its C type. *)
Definition wrap (w x : Z) : Z := x mod 2 ^ w.
Abbreviation wrap64 := (wrap 64).
Abbreviation wrap32 := (wrap 32).
Abbreviation wrap8 := (wrap 8).

(** The interpretation of a [w]-bit word as a two's complement number. *)
Definition signed (w x : Z) : Z :=
  if x <? 2 ^ (w - 1) then x else x - 2 ^ w.
Abbreviation socta := (signed 64).

(** [~x] and [x << n] of an unsigned [w]-bit word. *)
Definition wnot (w x : Z) : Z := 2 ^ w - 1 - x.
Definition shl (w x n : Z) : Z := wrap w (Z.shiftl x n).
Abbreviation not64 := (wnot 64).
Abbreviation shl64 := (shl 64).
Abbreviation shl32 := (shl 32).
Notation "x +o y" := (wrap64 (x + y)) (at level 50, left associativity) : word_scope.
Notation "x -o y" := (wrap64 (x - y)) (at level 50, left associativity) : word_scope.
Notation "x *o y" := (wrap64 (x * y)) (at level 40, left associativity) : word_scope.

Definition is_word (w x : Z) : Prop := 0 <= x < 2 ^ w.
Abbreviation is_octa := (is_word 64).
Abbreviation is_tetra := (is_word 32).
Abbreviation is_wyde := (is_word 16).
Abbreviation is_byte := (is_word 8).

(** [MASK(n)] and [MSB(n)] of include/core/cpu.h. *)
Definition MASK (n : Z) : Z := 2 ^ n - 1.
Definition MSB (n : Z) : Z := 2 ^ (n - 1).

(** C's truth value of an integer. *)
Definition truth (x : Z) : bool := negb (x =? 0).

(** ** Arrays

    A C array is a function from the index; every index the code computes is
    in range, which the theorems of the components show where it matters. *)

Abbreviation arr := (Z -> Z).
Definition upd {A} (a : Z -> A) (i : Z) (v : A) : Z -> A :=
  fun j => if j =? i then v else a j.

(** ** Counted loops *)

(** [for(i = lo; i < lo + n; i++) s = f(i,s)] *)
Fixpoint for_up {A} (n : nat) (lo : Z) (f : Z -> A -> A) (s : A) : A :=
  match n with
  | O => s
  | S n' => for_up n' (lo + 1) f (f lo s)
  end.

(** [for(i = n - 1; i >= 0; i--) s = f(i,s)] *)
Fixpoint for_down {A} (n : nat) (f : Z -> A -> A) (s : A) : A :=
  match n with
  | O => s
  | S n' => for_down n' f (f (Z.of_nat n') s)
  end.

(** ** Hint databases and tactics *)

Create HintDb word.
Create Rewrite HintDb word_rw.
Create Rewrite HintDb bits.

(** [lia] with the words' ranges unfolded and divisions turned into equations. *)
(** Splits the conjunctions of the goal, without unfolding definitions. *)
Ltac csplit := repeat match goal with |- _ /\ _ => split end.

Ltac wordlia := unfold is_word in *; lia.
(** The range of a concrete word. *)
Ltac concrete_word := cbn; split; vm_compute; congruence.
Ltac dmlia := unfold wrap, is_word in *; Z.div_mod_to_equations; lia.

(** ** Lemmas on words *)

Lemma pow2_pos n : 0 <= n -> 0 < 2 ^ n.
Proof. intros; apply Z.pow_pos_nonneg; lia. Qed.

Lemma wrap_range w x : 0 <= w -> is_word w (wrap w x).
Proof. intros; apply Z.mod_pos_bound, pow2_pos; lia. Qed.

Lemma wrap_small w x : is_word w x -> wrap w x = x.
Proof. apply Z.mod_small. Qed.

Lemma wrap_small_eq w x y : x = y /\ is_word w y -> wrap w x = y.
Proof. intros [-> H]. apply wrap_small, H. Qed.

Lemma wrap_wrap w x : 0 <= w -> wrap w (wrap w x) = wrap w x.
Proof. intros; apply wrap_small, wrap_range; lia. Qed.

Lemma wrap_add_l w x y : wrap w (wrap w x + y) = wrap w (x + y).
Proof. apply Zplus_mod_idemp_l. Qed.

Lemma wrap_add_r w x y : wrap w (x + wrap w y) = wrap w (x + y).
Proof. apply Zplus_mod_idemp_r. Qed.

Lemma wrap_sub_l w x y : wrap w (wrap w x - y) = wrap w (x - y).
Proof. apply Zminus_mod_idemp_l. Qed.

Lemma wrap_sub_r w x y : wrap w (x - wrap w y) = wrap w (x - y).
Proof. apply Zminus_mod_idemp_r. Qed.

Lemma wrap_add_mult w x k : 0 <= w -> wrap w (x + k * 2 ^ w) = wrap w x.
Proof. intros; apply Z.mod_add. pose proof (pow2_pos w); lia. Qed.

#[export] Hint Rewrite wrap_add_l wrap_add_r wrap_sub_l wrap_sub_r : word_rw.
#[export] Hint Rewrite wrap_wrap using lia : word_rw.
#[export] Hint Resolve wrap_range : word.
#[export] Hint Extern 1 (_ <= _) => lia : word.

Lemma is_word_mono w w' x : 0 <= w <= w' -> is_word w x -> is_word w' x.
Proof.
  unfold is_word; intros ? ?. pose proof (Z.pow_le_mono_r 2 w w'). lia.
Qed.

(** Masks and shifts are remainders and quotients. *)
Lemma land_mask x n : 0 <= n -> x .& (2 ^ n - 1) = x mod 2 ^ n.
Proof. intros; rewrite <- Z.land_ones, Z.ones_equiv, <- Z.sub_1_r by lia; reflexivity. Qed.

Lemma land_mask_eq x n m : 0 <= n -> m = 2 ^ n - 1 -> x .& m = x mod 2 ^ n.
Proof. intros ? ->; apply land_mask; lia. Qed.

Lemma shiftr_div x n : 0 <= n -> x .>> n = x / 2 ^ n.
Proof. apply Z.shiftr_div_pow2. Qed.

Lemma shl_mul w x n : 0 <= n -> shl w x n = wrap w (x * 2 ^ n).
Proof. intros; unfold shl; rewrite Z.shiftl_mul_pow2 by lia; reflexivity. Qed.

Lemma shl_exact w x n : 0 <= n -> is_word w (x * 2 ^ n) -> shl w x n = x * 2 ^ n.
Proof. intros; rewrite shl_mul by lia; apply wrap_small; trivial. Qed.

Lemma shl_range w x n : 0 <= w -> is_word w (shl w x n).
Proof. apply wrap_range. Qed.
#[export] Hint Resolve shl_range : word.

Lemma shiftr_range w x n : 0 <= n -> is_word w x -> is_word w (x .>> n).
Proof.
  intros Hn [H1 H2]; rewrite shiftr_div by lia.
  pose proof (pow2_pos n Hn). split.
  - apply Z.div_pos; lia.
  - apply Z.div_lt_upper_bound; nia.
Qed.

Lemma land_nonneg_le x y : 0 <= x -> 0 <= y -> 0 <= x .& y <= x.
Proof.
  intros Hx Hy; split; [apply Z.land_nonneg; lia|].
  assert (x = (x .& y) + Z.ldiff x y) as E.
  { rewrite Z.add_nocarry_lxor.
    - apply Z.bits_inj'; intros i Hi.
      rewrite Z.lxor_spec, Z.land_spec, Z.ldiff_spec; btauto.
    - apply Z.bits_inj'; intros i Hi.
      rewrite !Z.land_spec, Z.ldiff_spec, Z.bits_0; btauto. }
  assert (0 <= Z.ldiff x y) by (apply Z.ldiff_nonneg; lia). lia.
Qed.

Lemma land_range w x y : is_word w x -> 0 <= y -> is_word w (x .& y).
Proof. intros [? ?] ?. pose proof (land_nonneg_le x y). wordlia. Qed.

Lemma testbit_high w x i : 0 <= w -> is_word w x -> w <= i -> Z.testbit x i = false.
Proof.
  intros Hw Hx Hi. rewrite <- (wrap_small w x Hx). unfold wrap.
  apply Z.mod_pow2_bits_high; lia.
Qed.

Lemma word_of_bits w x :
  0 <= w -> 0 <= x -> (forall i, w <= i -> Z.testbit x i = false) -> is_word w x.
Proof.
  intros Hw Hx Hi. split; [lia|].
  destruct (Z.eq_dec x 0) as [->|]; [apply pow2_pos; lia|].
  apply Z.log2_lt_pow2; [lia|].
  destruct (Z_lt_le_dec (Z.log2 x) w); [lia|].
  specialize (Hi _ l). rewrite Z.bit_log2 in Hi by lia. discriminate.
Qed.

Lemma lor_range w x y : 0 <= w -> is_word w x -> is_word w y -> is_word w (x .| y).
Proof.
  intros Hw Hx Hy. apply word_of_bits; [lia|apply Z.lor_nonneg; wordlia|].
  intros i Hi. rewrite Z.lor_spec, !(testbit_high w) by auto. reflexivity.
Qed.

Lemma lxor_range w x y : 0 <= w -> is_word w x -> is_word w y -> is_word w (x .^ y).
Proof.
  intros Hw Hx Hy. apply word_of_bits; [lia|apply Z.lxor_nonneg; wordlia|].
  intros i Hi. rewrite Z.lxor_spec, !(testbit_high w) by auto. reflexivity.
Qed.

Lemma wnot_range w x : is_word w x -> is_word w (wnot w x).
Proof. unfold wnot; wordlia. Qed.

Lemma testbit_wnot w x i :
  0 <= w -> is_word w x -> 0 <= i < w -> Z.testbit (wnot w x) i = negb (Z.testbit x i).
Proof.
  intros Hw Hx Hi. unfold wnot.
  assert (2 ^ w - 1 - x = Z.lnot x + 2 ^ w) as -> by (unfold Z.lnot; lia).
  rewrite <- (Z.mod_pow2_bits_low _ w) by lia.
  rewrite <- Z.lnot_spec by lia.
  replace (Z.lnot x + 2 ^ w) with (Z.lnot x + 1 * 2 ^ w) by lia.
  rewrite Z.mod_add by (pose proof (pow2_pos w); lia).
  apply Z.mod_pow2_bits_low; lia.
Qed.

#[export] Hint Resolve shiftr_range land_range lor_range lxor_range wnot_range : word.

(** Clearing the low bits of a word. *)
Lemma land_not_mask w n x :
  0 <= n <= w -> is_word w x -> x .& wnot w (2 ^ n - 1) = x - x mod 2 ^ n.
Proof.
  intros Hn Hx. assert (E : x = (x .& wnot w (2 ^ n - 1)) + (x .& (2 ^ n - 1))).
  { assert (Hw : is_word w (2 ^ n - 1)).
    { pose proof (pow2_pos n). pose proof (Z.pow_le_mono_r 2 n w). wordlia. }
    rewrite Z.add_nocarry_lxor; apply Z.bits_inj'; intros i Hi;
      rewrite ?Z.lxor_spec, ?Z.land_spec, ?Z.bits_0.
    - destruct (Z_lt_le_dec i w).
      + rewrite testbit_wnot by (trivial; lia). btauto.
      + rewrite (testbit_high w x) by (trivial; lia). btauto.
    - destruct (Z_lt_le_dec i w).
      + rewrite testbit_wnot by (trivial; lia). btauto.
      + rewrite (testbit_high w x) by (trivial; lia). btauto. }
  rewrite land_mask in E by lia. lia.
Qed.

(** Disjoint words: [|] is [+]. *)
Lemma lor_disjoint x y n :
  0 <= n -> 0 <= x < 2 ^ n -> (y * 2 ^ n) .| x = y * 2 ^ n + x.
Proof.
  intros Hn Hx. rewrite Z.add_nocarry_lxor.
  - apply Z.bits_inj'; intros i Hi. rewrite Z.lor_spec, Z.lxor_spec.
    destruct (Z_lt_le_dec i n).
    + rewrite Z.mul_pow2_bits_low by lia. btauto.
    + rewrite (testbit_high n x i) by (unfold is_word; lia). btauto.
  - apply Z.bits_inj'; intros i Hi. rewrite Z.land_spec, Z.bits_0.
    destruct (Z_lt_le_dec i n).
    + rewrite Z.mul_pow2_bits_low by lia. btauto.
    + rewrite (testbit_high n x i) by (unfold is_word; lia). btauto.
Qed.

(** Signed interpretation. *)
Lemma signed_wrap w z :
  1 <= w -> - 2 ^ (w - 1) <= z < 2 ^ (w - 1) -> signed w (wrap w z) = z.
Proof.
  intros Hw Hz. unfold signed.
  assert (E : 2 ^ w = 2 * 2 ^ (w - 1)).
  { rewrite <- Z.pow_succ_r by lia. f_equal; lia. }
  destruct (Z_lt_le_dec z 0).
  - unfold wrap. rewrite <- (Z.mod_add z 1 (2 ^ w)), Z.mod_small by lia.
    destruct (Z.ltb_spec (z + 1 * 2 ^ w) (2 ^ (w - 1))); lia.
  - rewrite wrap_small by wordlia.
    destruct (Z.ltb_spec z (2 ^ (w - 1))); lia.
Qed.

Lemma signed_range w x : 1 <= w -> is_word w x -> - 2 ^ (w - 1) <= signed w x < 2 ^ (w - 1).
Proof.
  intros Hw Hx. unfold signed, is_word in *.
  assert (E : 2 ^ w = 2 * 2 ^ (w - 1)).
  { rewrite <- Z.pow_succ_r by lia. f_equal; lia. }
  destruct (Z.ltb_spec x (2 ^ (w - 1))); lia.
Qed.

Lemma wrap_signed w x : 1 <= w -> is_word w x -> wrap w (signed w x) = x.
Proof.
  intros Hw Hx. unfold signed. destruct (Z.ltb_spec x (2 ^ (w - 1))).
  - apply wrap_small; trivial.
  - unfold wrap. rewrite <- (Z.mod_add _ 1) by (pose proof (pow2_pos w); lia).
    rewrite Z.mod_small; wordlia.
Qed.

(** The sign bit. *)
Lemma land_msb x : is_octa x -> (x .& 2 ^ 63) = if x <? 2 ^ 63 then 0 else 2 ^ 63.
Proof.
  intros [H1 H2]. apply Z.bits_inj'; intros i Hi.
  rewrite Z.land_spec, Z.pow2_bits_eqb by lia.
  destruct (Z.eqb_spec 63 i) as [<-|].
  - destruct (Z.ltb_spec x (2 ^ 63)).
    + rewrite (testbit_high 63 x), Z.bits_0 by (unfold is_word; lia). reflexivity.
    + rewrite Z.pow2_bits_true, andb_true_r by lia. apply Z.testbit_true; [lia|].
      replace (x / 2 ^ 63) with 1; [reflexivity|].
      apply Z.div_unique with (x - 2 ^ 63); lia.
  - rewrite andb_false_r. destruct (Z.ltb_spec x (2 ^ 63)).
    + rewrite Z.bits_0; reflexivity.
    + rewrite Z.pow2_bits_eqb by lia. symmetry; apply Z.eqb_neq; lia.
Qed.

Lemma truth_msb x : is_octa x -> truth (x .& MSB 64) = negb (x <? 2 ^ 63).
Proof.
  intros Hx. unfold MSB, truth. change (64 - 1) with 63. rewrite land_msb by trivial.
  destruct (x <? 2 ^ 63); reflexivity.
Qed.

(** ** Lemmas on arrays and loops *)

Lemma upd_same {A} (a : Z -> A) i v : upd a i v i = v.
Proof. unfold upd; rewrite Z.eqb_refl; reflexivity. Qed.

Lemma upd_other {A} (a : Z -> A) i j v : j <> i -> upd a i v j = a j.
Proof. unfold upd; intros H; apply Z.eqb_neq in H; rewrite H; reflexivity. Qed.

#[export] Hint Rewrite @upd_same : word_rw.
#[export] Hint Rewrite @upd_other using lia : word_rw.

Section Loops.
Context {A : Type} (P : Z -> A -> Prop) (f : Z -> A -> A).

(** The invariant rule of an ascending loop. *)
Lemma for_up_inv n lo s :
  P lo s ->
  (forall i s, lo <= i < lo + Z.of_nat n -> P i s -> P (i + 1) (f i s)) ->
  P (lo + Z.of_nat n) (for_up n lo f s).
Proof.
  revert lo s; induction n as [|n IH]; cbn [for_up]; intros lo s H Hf.
  - replace (lo + Z.of_nat 0) with lo by lia; trivial.
  - replace (lo + Z.of_nat (S n)) with (lo + 1 + Z.of_nat n) by lia.
    apply IH; [apply Hf; [lia|trivial]|]. intros; apply Hf; [lia|trivial].
Qed.

(** The invariant rule of a descending loop: [P i] holds when [i] digits are left. *)
Lemma for_down_inv n s :
  P (Z.of_nat n) s ->
  (forall i s, 0 <= i < Z.of_nat n -> P (i + 1) s -> P i (f i s)) ->
  P 0 (for_down n f s).
Proof.
  revert s; induction n as [|n IH]; cbn [for_down]; intros s H Hf; trivial.
  apply IH; [apply Hf; [lia|]|intros; apply Hf; [lia|trivial]].
  replace (Z.of_nat n + 1) with (Z.of_nat (S n)) by lia; trivial.
Qed.
End Loops.

(** ** Single bits *)

Lemma land_pow2_eqb x n : 0 <= n -> (x .& 2 ^ n =? 0) = negb (Z.testbit x n).
Proof.
  intros Hn. destruct (Z.testbit x n) eqn:E; cbn [negb].
  - apply Z.eqb_neq. intros H. apply (f_equal (fun v => Z.testbit v n)) in H.
    rewrite Z.land_spec, Z.pow2_bits_true, Z.bits_0, E in H by lia. discriminate.
  - apply Z.eqb_eq. apply Z.bits_inj'; intros i Hi.
    rewrite Z.land_spec, Z.pow2_bits_eqb, Z.bits_0 by lia.
    destruct (Z.eqb_spec n i) as [<-|]; rewrite ?E, ?andb_false_r; reflexivity.
Qed.

Lemma land_pow2 x n : 0 <= n -> x .& 2 ^ n = if Z.testbit x n then 2 ^ n else 0.
Proof.
  intros Hn. apply Z.bits_inj'. intros i Hi. rewrite Z.land_spec, Z.pow2_bits_eqb by lia.
  destruct (Z.eqb_spec n i) as [<-|H].
  - destruct (Z.testbit x n); [rewrite Z.pow2_bits_true by lia|rewrite Z.bits_0]; reflexivity.
  - rewrite andb_false_r. destruct (Z.testbit x n); [|rewrite Z.bits_0; reflexivity].
    rewrite Z.pow2_bits_false by lia. reflexivity.
Qed.

Lemma truth_pow2 x n : 0 <= n -> truth (x .& 2 ^ n) = Z.testbit x n.
Proof. intros. unfold truth. rewrite land_pow2_eqb, negb_involutive by lia. reflexivity. Qed.

Lemma testbit_msb x : is_octa x -> Z.testbit x 63 = negb (x <? 2 ^ 63).
Proof. intros Hx. rewrite <- truth_msb by trivial. symmetry. apply (truth_pow2 x 63). lia. Qed.

Lemma xor_msb x y :
  is_octa x -> is_octa y ->
  ((x .^ y) .& MSB 64 =? 0) = Bool.eqb (x <? 2 ^ 63) (y <? 2 ^ 63).
Proof.
  intros Hx Hy. change (MSB 64) with (2 ^ 63).
  rewrite land_pow2_eqb, Z.lxor_spec, !testbit_msb by (trivial; lia).
  destruct (x <? 2 ^ 63), (y <? 2 ^ 63); reflexivity.
Qed.

(** [v] is a signed [w]-bit number. *)
Definition fits (w v : Z) : bool := (- 2 ^ (w - 1) <=? v) && (v <? 2 ^ (w - 1)).

Lemma fits_spec w v : fits w v = true <-> - 2 ^ (w - 1) <= v < 2 ^ (w - 1).
Proof. unfold fits. rewrite andb_true_iff, Z.leb_le, Z.ltb_lt. tauto. Qed.

Lemma fits_signed w v : 1 <= w -> fits w v = (signed w (wrap w v) =? v).
Proof.
  intros Hw. apply eq_true_iff_eq. rewrite fits_spec, Z.eqb_eq. split.
  - apply signed_wrap; trivial.
  - intros <-. apply signed_range; [trivial|apply wrap_range; lia].
Qed.

(** A property of all bytes, by evaluation. *)
Lemma byte_cases (P : Z -> bool) b :
  forallb P (seqZ 0 256) = true -> is_byte b -> P b = true.
Proof.
  intros H Hb. rewrite forallb_forall in H. apply H, list_elem_of_In, elem_of_seqZ. wordlia.
Qed.
