(* ===== verification/IntArith.v ===== *)
(** * 64-bit integer arithmetic (gimmix/src/core/arith/int.c)

    The multiple-precision routines of the simulator on wydes (16-bit digits):
    the schoolbook product, Knuth's Algorithm D, the signed variants and the
    shifts. *)

From Stdlib Require Import ZArith Lia Bool.
From stdpp Require Import base list numbers.
From S2P Require Import Prelude.

(** ** The code *)

(** The four assignments that spread an octa over wydes, and the sum that packs
    four wydes into an octa ([w[k+1] << 16] is computed in 32 bits). *)
Definition unpack (a : arr) (o x : Z) : arr :=
  upd (upd (upd (upd a (o + 3) (x .>> 48))
                (o + 2) ((x .>> 32) .& 0xFFFF))
           (o + 1) ((x .>> 16) .& 0xFFFF))
      o ((x .>> 0) .& 0xFFFF).

Definition pack (a : arr) (o : Z) : Z :=
  wrap64 (shl64 (a (o + 3)) 48 + shl64 (a (o + 2)) 32 + shl32 (a (o + 1)) 16 + a o).

(** An array whose elements have not been assigned yet. *)
Definition fresh : arr := fun _ => 0.

Definition umult_digit (u v : arr) (j i : Z) (s : arr * Z) : arr * Z :=
  let '(w, k) := s in
  let t := wrap32 (u i * v j + w (i + j) + k) in
  (upd w (i + j) (t .& 0xFFFF), t .>> 16).

Definition umult_row (u v : arr) (j : Z) (w : arr) : arr :=
  if v j =? 0 then upd w (j + 4) 0
  else
    let '(w, k) := for_up 4 0 (umult_digit u v j) (w, 0) in
    upd w (j + 4) k.

(** [octa int_umult(octa x,octa y,octa *aux)]: the result and [*aux]. *)
Definition int_umult (x y : Z) : Z * Z :=
  let u := unpack fresh 0 x in
  let v := unpack fresh 0 y in
  let w := for_up 4 0 (fun j w => upd w j 0) fresh in
  let w := for_up 4 0 (umult_row u v) w in
  (pack w 0, pack w 4).

Definition int_smult (x y : Z) : Z * Z :=
  let '(res, aux) := int_umult x y in
  let aux := if truth (x .& MSB 64) then aux -o y else aux in
  let aux := if truth (y .& MSB 64) then aux -o x else aux in
  (res, aux).

(** [for(n = 4; v[n - 1] == 0; n--)] *)
Fixpoint udiv_places (v : arr) (n : nat) : nat :=
  match n with
  | O => O
  | S n' => if v (Z.of_nat n') =? 0 then udiv_places v n' else n
  end.

(** [for(d = 0; vh < 0x8000; d++) vh <<= 1] *)
Fixpoint udiv_norm (fuel : nat) (vh d : Z) : Z :=
  match fuel with
  | O => d
  | S fuel => if vh <? 0x8000 then udiv_norm fuel (shl32 vh 1) (d + 1) else d
  end.

Definition shift_digit (d j : Z) (s : arr * Z) : arr * Z :=
  let '(u, k) := s in
  let t := wrap32 (shl32 (u j) d + k) in
  (upd u j (t .& 0xFFFF), t .>> 16).

(** The loop that corrects the trial quotient: [c] is [u[j + n - 2]]. *)
Fixpoint udiv_correct (fuel : nat) (vh vmh c qhat rhat : Z) : Z :=
  match fuel with
  | O => qhat
  | S fuel =>
    if (qhat =? 0x10000) || (wrap32 (shl32 rhat 16 + c) <? wrap32 (qhat * vmh)) then
      let qhat := wrap32 (qhat - 1) in
      let rhat := wrap32 (rhat + vh) in
      if 0x10000 <=? rhat then qhat else udiv_correct fuel vh vmh c qhat rhat
    else qhat
  end.

(** [u -= (qhat * v) << j], the borrow in [k]. *)
Definition sub_digit (v : arr) (qhat j i : Z) (s : arr * Z) : arr * Z :=
  let '(u, k) := s in
  let t := wrap32 (u (i + j) + 0xFFFF0000 - k - qhat * v i) in
  (upd u (i + j) (t .& 0xFFFF), wrap32 (0xFFFF - (t .>> 16))).

Definition addback_digit (v : arr) (j i : Z) (s : arr * Z) : arr * Z :=
  let '(u, k) := s in
  let t := wrap32 (u (i + j) + v i + k) in
  (upd u (i + j) (t .& 0xFFFF), t .>> 16).

(** The trial quotient of digit [j]. *)
Definition udiv_qhat (n : nat) (u : arr) (vh vmh j : Z) : Z :=
  let t := wrap32 (shl32 (u (j + Z.of_nat n)) 16 + u (j + Z.of_nat n - 1)) in
  let qhat := t / vh in
  let rhat := wrap32 (t - vh * qhat) in
  if (1 <? n)%nat then udiv_correct 3 vh vmh (u (j + Z.of_nat n - 2)) qhat rhat
  else qhat.

(** One iteration of the loop that computes the quotient digits. *)
Definition udiv_step (n : nat) (v : arr) (vh vmh j : Z) (s : arr * arr) : arr * arr :=
  let '(u, q) := s in
  let qhat := udiv_qhat n u vh vmh j in
  let '(u, k) := for_up n 0 (sub_digit v qhat j) (u, 0) in
  if negb (u (j + Z.of_nat n) =? k) then
    let '(u, _) := for_up n 0 (addback_digit v j) (u, 0) in
    (u, upd q j (wrap32 (qhat - 1)))
  else (u, upd q j qhat).

Definition unshift_digit (d j : Z) (s : arr * Z) : arr * Z :=
  let '(u, k) := s in
  let t := wrap32 (shl32 k 16 + u j) in
  (upd u j (t .>> d), t .& (2 ^ d - 1)).

(** [octa int_udiv(octa x,octa y,octa z,octa *rem)]: the quotient and [*rem]. *)
Definition int_udiv (x y z : Z) : Z * Z :=
  if z <=? x then (x, y)
  else
    let u := unpack (unpack fresh 4 x) 0 y in
    let v := unpack fresh 0 z in
    let n := udiv_places v 4 in
    let d := udiv_norm 16 (v (Z.of_nat n - 1)) 0 in
    let '(u, _) := for_up (n + 4) 0 (shift_digit d) (u, 0) in
    let '(v, _) := for_up n 0 (shift_digit d) (v, 0) in
    let vh := v (Z.of_nat n - 1) in
    let vmh := if (1 <? n)%nat then v (Z.of_nat n - 2) else 0 in
    let '(u, q) := for_down 4 (udiv_step n v vh vmh) (u, fresh) in
    let u := for_up (4 - n) (Z.of_nat n) (fun j u => upd u j 0) u in
    let '(u, _) := for_down n (unshift_digit d) (u, 0) in
    (pack q 0, pack u 0).

Definition int_sdiv (x y : Z) : Z * Z :=
  if y =? 0 then (0, x)
  else
    let '(sx, xx) := if truth (x .& MSB 64) then (2, wrap64 (- x)) else (0, x) in
    let '(sy, yy) := if truth (y .& MSB 64) then (1, wrap64 (- y)) else (0, y) in
    let '(q, r) := int_udiv 0 xx yy in
    match sx + sy with
    | 1 =>
      let r := if truth r then r -o yy else r in
      (if truth r then wrap64 (-1 - q) else wrap64 (- q), r)
    | 2 =>
      let r := if truth r then yy -o r else r in
      (if truth r then wrap64 (-1 - q) else wrap64 (- q), r)
    | 3 => (q, wrap64 (- r))
    | _ => (q, r)
    end.

Definition int_shiftLeft (y z : Z) : Z := if 63 <? z then 0 else shl64 y z.

Definition int_shiftRightArith (y z : Z) : Z :=
  if 63 <? z then (if truth (y .& MSB 64) then wrap64 (-1) else 0)
  else wrap64 (socta y .>> z).

Definition int_shiftRightLog (y z : Z) : Z := if 63 <? z then 0 else y .>> z.

(** ** Digit sequences *)

(** The number whose [n] wydes are [a lo], [a (lo + 1)], ..., the least
    significant one first. *)
Fixpoint val (n : nat) (lo : Z) (a : arr) : Z :=
  match n with
  | O => 0
  | S n' => a lo + 2 ^ 16 * val n' (lo + 1) a
  end.

Definition digits (n : nat) (lo : Z) (a : arr) : Prop :=
  forall i, lo <= i < lo + Z.of_nat n -> is_wyde (a i).

Lemma digits_at n lo a i : digits n lo a -> lo <= i < lo + Z.of_nat n -> 0 <= a i < 2 ^ 16.
Proof. intros H Hi; apply H in Hi; exact Hi. Qed.

Lemma digits_sub n m lo lo' a :
  digits n lo a -> lo <= lo' -> lo' + Z.of_nat m <= lo + Z.of_nat n -> digits m lo' a.
Proof. intros H ? ? i Hi; apply H; lia. Qed.

Lemma val_ext n lo a b :
  (forall i, lo <= i < lo + Z.of_nat n -> a i = b i) -> val n lo a = val n lo b.
Proof.
  revert lo; induction n as [|n IH]; intros lo H; cbn [val]; trivial.
  rewrite H by lia. rewrite (IH (lo + 1)); trivial. intros; apply H; lia.
Qed.

Lemma val_upd_out n lo a i v :
  i < lo \/ lo + Z.of_nat n <= i -> val n lo (upd a i v) = val n lo a.
Proof. intros; apply val_ext; intros; apply upd_other; lia. Qed.

Lemma val_snoc n lo a :
  val (S n) lo a = val n lo a + 2 ^ (16 * Z.of_nat n) * a (lo + Z.of_nat n).
Proof.
  revert lo; induction n as [|n IH]; intros lo.
  - cbn [val]. replace (lo + Z.of_nat 0) with lo by lia. change (2 ^ (16 * Z.of_nat 0)) with 1. lia.
  - remember (S n) as m. cbn [val]. rewrite IH; subst m. cbn [val].
    replace (lo + 1 + Z.of_nat n) with (lo + Z.of_nat (S n)) by lia.
    replace (16 * Z.of_nat (S n)) with (16 + 16 * Z.of_nat n) by lia.
    rewrite Z.pow_add_r by lia. ring.
Qed.

Lemma val_app n m lo a :
  val (n + m) lo a = val n lo a + 2 ^ (16 * Z.of_nat n) * val m (lo + Z.of_nat n) a.
Proof.
  revert lo; induction n as [|n IH]; intros lo.
  - cbn [Nat.add val]. replace (lo + Z.of_nat 0) with lo by lia. change (2 ^ (16 * Z.of_nat 0)) with 1. lia.
  - cbn [Nat.add val]. rewrite IH.
    replace (lo + 1 + Z.of_nat n) with (lo + Z.of_nat (S n)) by lia.
    replace (16 * Z.of_nat (S n)) with (16 + 16 * Z.of_nat n) by lia.
    rewrite Z.pow_add_r by lia. ring.
Qed.

Lemma val_bound n lo a : digits n lo a -> 0 <= val n lo a < 2 ^ (16 * Z.of_nat n).
Proof.
  revert lo; induction n as [|n IH]; intros lo H; cbn [val].
  - change (2 ^ (16 * Z.of_nat 0)) with 1; lia.
  - pose proof (digits_at _ _ _ lo H ltac:(lia)).
    specialize (IH (lo + 1) (digits_sub _ n _ (lo + 1) _ H ltac:(lia) ltac:(lia))).
    replace (16 * Z.of_nat (S n)) with (16 + 16 * Z.of_nat n) by lia.
    rewrite Z.pow_add_r by lia. nia.
Qed.

Lemma val_zero n lo a : (forall i, lo <= i < lo + Z.of_nat n -> a i = 0) -> val n lo a = 0.
Proof.
  revert lo; induction n as [|n IH]; intros lo H; cbn [val]; trivial.
  rewrite H, IH by (intros; try apply H; lia). lia.
Qed.

Lemma digits_upd n lo a i v : digits n lo a -> is_wyde v -> digits n lo (upd a i v).
Proof.
  intros H Hv j Hj. unfold upd. destruct (Z.eqb_spec j i); [trivial|apply H; lia].
Qed.

Lemma low_wyde t : t .& 0xFFFF = t mod 2 ^ 16.
Proof. apply (land_mask_eq t 16); lia. Qed.

Lemma low_wyde_range t : is_wyde (t .& 0xFFFF).
Proof. rewrite low_wyde. apply Z.mod_pos_bound; lia. Qed.

Lemma high_wyde t : t .>> 16 = t / 2 ^ 16.
Proof. apply shiftr_div; lia. Qed.

#[export] Hint Resolve low_wyde_range digits_upd : word.

(** [unpack] writes the four digits of its argument ... *)
Lemma unpack_digits a o x : is_octa x -> digits 4 o (unpack a o x).
Proof.
  intros [Hx1 Hx2] i Hi. unfold unpack, upd.
  repeat match goal with |- context [?a =? ?b] => destruct (Z.eqb_spec a b) end;
    try lia; try apply low_wyde_range.
  rewrite shiftr_div by lia. split; [apply Z.div_pos|apply Z.div_lt_upper_bound]; lia.
Qed.

Lemma unpack_val a o x : is_octa x -> val 4 o (unpack a o x) = x.
Proof.
  intros [Hx1 Hx2]. unfold unpack; cbn [val].
  rewrite !(Z.add_0_r), <- !Z.add_assoc. cbn [Z.add Pos.add].
  rewrite ?upd_same; repeat first [rewrite upd_same | rewrite upd_other by lia].
  rewrite !low_wyde, !shiftr_div by lia. change (2 ^ 0) with 1. rewrite Z.div_1_r.
  Z.div_mod_to_equations; lia.
Qed.

(** ... and touches nothing else. *)
Lemma unpack_other a o x i : i < o \/ o + 4 <= i -> unpack a o x i = a i.
Proof. intros; unfold unpack; rewrite !upd_other by lia; reflexivity. Qed.

Lemma pack_val a o : digits 4 o a -> pack a o = val 4 o a.
Proof.
  intros H. unfold pack; cbn [val].
  replace (o + 1 + 1) with (o + 2) by lia. replace (o + 2 + 1) with (o + 3) by lia.
  pose proof (digits_at _ _ _ o H ltac:(lia)). pose proof (digits_at _ _ _ (o + 1) H ltac:(lia)).
  pose proof (digits_at _ _ _ (o + 2) H ltac:(lia)).
  pose proof (digits_at _ _ _ (o + 3) H ltac:(lia)).
  rewrite !shl_exact by (unfold is_word; lia). rewrite wrap_small by (unfold is_word; lia). lia.
Qed.

(** ** The product *)

(** Digit [i] of row [j]: nothing overflows 32 bits. *)
Lemma umult_digit_spec u v j i w k :
  is_wyde (u i) -> is_wyde (v j) -> is_wyde (w (i + j)) -> is_wyde k ->
  exists lo k', umult_digit u v j i (w, k) = (upd w (i + j) lo, k') /\
    is_wyde lo /\ is_wyde k' /\ lo + 2 ^ 16 * k' = u i * v j + w (i + j) + k.
Proof.
  unfold is_word; intros. unfold umult_digit.
  assert (u i * v j <= (2 ^ 16 - 1) * (2 ^ 16 - 1)) by nia.
  rewrite wrap_small by (unfold is_word; nia).
  rewrite low_wyde, high_wyde. eexists _, _; split; [reflexivity|].
  assert (0 <= u i * v j) by nia. unfold is_word; Z.div_mod_to_equations; lia.
Qed.

Definition row_inv (u v w0 : arr) (j i : Z) (s : arr * Z) : Prop :=
  let '(w, k) := s in
  is_wyde k /\ digits (Z.to_nat (j + 4)) 0 w /\
  (forall m, m < j \/ i + j <= m -> w m = w0 m) /\
  val (Z.to_nat i) j w + 2 ^ (16 * i) * k
  = val (Z.to_nat i) 0 u * v j + val (Z.to_nat i) j w0.

Lemma umult_row_step u v w0 j i s :
  0 <= j -> 0 <= i < 4 -> digits 4 0 u -> is_wyde (v j) ->
  row_inv u v w0 j i s -> row_inv u v w0 j (i + 1) (umult_digit u v j i s).
Proof.
  destruct s as [w k]. intros Hj Hi Hu Hv (Hk & Hd & Hout & E).
  destruct (umult_digit_spec u v j i w k) as (lo & k' & -> & Hlo & Hk' & Ed);
    [apply Hu; lia|trivial|apply Hd; lia|trivial|].
  unfold row_inv; csplit; auto with word.
  - intros m Hm. rewrite upd_other by lia. apply Hout; lia.
  - replace (Z.to_nat (i + 1)) with (S (Z.to_nat i)) by lia.
    rewrite !val_snoc, Z2Nat.id, val_upd_out by lia.
    replace (j + i) with (i + j) by lia. rewrite upd_same.
    replace (16 * (i + 1)) with (16 * i + 16) by lia. rewrite Z.pow_add_r by lia.
    rewrite Hout in Ed by lia. rewrite Z.add_0_l. nia.
Qed.

Definition mult_inv (u v : arr) (j : Z) (w : arr) : Prop :=
  digits (Z.to_nat (j + 4)) 0 w /\
  val (Z.to_nat (j + 4)) 0 w = val 4 0 u * val (Z.to_nat j) 0 v.

Lemma umult_row_inv u v j w :
  0 <= j < 4 -> digits 4 0 u -> digits 4 0 v ->
  mult_inv u v j w -> mult_inv u v (j + 1) (umult_row u v j w).
Proof.
  intros Hj Hu Hv [Hd E]. unfold mult_inv.
  replace (Z.to_nat (j + 1 + 4)) with (S (Z.to_nat (j + 4))) by lia.
  replace (Z.to_nat (j + 1)) with (S (Z.to_nat j)) by lia.
  rewrite (val_snoc (Z.to_nat (j + 4))), (val_snoc (Z.to_nat j)), !Z2Nat.id, !Z.add_0_l by lia.
  assert (Hs : forall w' x, digits (Z.to_nat (j + 4)) 0 w' -> is_wyde x ->
                 digits (S (Z.to_nat (j + 4))) 0 (upd w' (j + 4) x)).
  { intros w' x Hw' Hx i Hi. unfold upd. destruct (Z.eqb_spec i (j + 4)); [trivial|].
    apply Hw'; lia. }
  unfold umult_row. destruct (Z.eqb_spec (v j) 0) as [E0|E0].
  - split; [apply Hs; [trivial|unfold is_word; lia]|].
    rewrite upd_same, val_upd_out, E, E0 by lia. ring.
  - destruct (for_up 4 0 (umult_digit u v j) (w, 0)) as [w' k] eqn:Ew.
    assert (row_inv u v w j 4 (w', k)) as (Hk & Hd' & Hout & Er).
    { rewrite <- Ew. change 4 with (0 + Z.of_nat 4) at 1.
      apply (for_up_inv (row_inv u v w j)).
      - unfold row_inv; csplit; auto; unfold is_word; cbn; lia.
      - intros; apply umult_row_step; auto; try lia; apply Hv; lia. }
    split; [auto|]. rewrite upd_same, val_upd_out by lia.
    replace (Z.to_nat (j + 4)) with (Z.to_nat j + 4)%nat in * by lia.
    rewrite val_app, Z2Nat.id, Z.add_0_l in * by lia.
    change (Z.to_nat 4) with 4%nat in Er.
    rewrite (val_ext _ 0 w' w) by (intros; apply Hout; lia).
    replace (16 * (j + 4)) with (16 * j + 16 * 4) by lia. rewrite Z.pow_add_r by lia. nia.
Qed.

Lemma int_umult_spec x y :
  is_octa x -> is_octa y ->
  let '(res, aux) := int_umult x y in
  is_octa res /\ is_octa aux /\ res + 2 ^ 64 * aux = x * y.
Proof.
  intros Hx Hy. unfold int_umult.
  set (u := unpack fresh 0 x). set (v := unpack fresh 0 y).
  set (w0 := for_up 4 0 (fun j w => upd w j 0) fresh).
  assert (Hu : digits 4 0 u) by apply (unpack_digits _ _ _ Hx).
  assert (Hv : digits 4 0 v) by apply (unpack_digits _ _ _ Hy).
  assert (mult_inv u v (0 + Z.of_nat 4) (for_up 4 0 (umult_row u v) w0)) as [Hd E].
  { apply (for_up_inv (mult_inv u v)).
    - assert (forall i, 0 <= i < 4 -> w0 i = 0) as Z0.
      { intros i Hi. unfold w0; cbn [for_up]. unfold upd.
        repeat match goal with |- context [?a =? ?b] => destruct (Z.eqb_spec a b) end;
        try reflexivity. }
      split; [intros i Hi; rewrite Z0 by lia; unfold is_word; lia|].
      rewrite val_zero by (intros; apply Z0; lia). symmetry; apply Z.mul_0_r.
    - intros; apply umult_row_inv; auto; lia. }
  revert Hd E. generalize (for_up 4 0 (umult_row u v) w0); intros w Hd E.
  change (Z.to_nat (0 + Z.of_nat 4 + 4)) with (4 + 4)%nat in *.
  change (Z.to_nat (0 + Z.of_nat 4)) with 4%nat in E.
  unfold u, v in E. rewrite (val_app 4 4 0 w), (unpack_val fresh 0 x), (unpack_val fresh 0 y) in E by trivial.
  assert (D0 : digits 4 0 w) by (eapply digits_sub; [exact Hd|lia|lia]).
  assert (D4 : digits 4 4 w) by (eapply digits_sub; [exact Hd|lia|lia]).
  rewrite !pack_val by trivial.
  pose proof (val_bound _ _ _ D0). pose proof (val_bound _ _ _ D4).
  csplit; unfold is_word; try lia. exact E.
Qed.

Lemma signed_eq x : socta x = x - 2 ^ 64 * (if x <? 2 ^ 63 then 0 else 1).
Proof. unfold signed; change (64 - 1) with 63; destruct (x <? 2 ^ 63); lia. Qed.

(** The high half of a signed product is determined modulo [2 ^ 64]. *)
Lemma smult_high x y res aux z :
  is_octa x -> is_octa y -> is_octa res ->
  socta x * socta y - res = z * 2 ^ 64 -> aux = wrap64 z ->
  socta aux * 2 ^ 64 + res = socta x * socta y.
Proof.
  intros Hx Hy Hr Hz ->.
  pose proof (signed_range 64 x ltac:(lia) Hx) as Sx.
  pose proof (signed_range 64 y ltac:(lia) Hy) as Sy.
  change (64 - 1) with 63 in *.
  assert (- (2 ^ 63 * 2 ^ 63) <= socta x * socta y <= 2 ^ 63 * 2 ^ 63) by nia.
  rewrite signed_wrap; change (64 - 1) with 63; wordlia.
Qed.

Lemma int_smult_spec x y :
  is_octa x -> is_octa y ->
  let '(res, aux) := int_smult x y in
  is_octa res /\ is_octa aux /\ socta aux * 2 ^ 64 + res = socta x * socta y.
Proof.
  intros Hx Hy. pose proof (int_umult_spec x y Hx Hy) as H. unfold int_smult.
  destruct (int_umult x y) as [res aux]. destruct H as (Hr & Ha & E).
  rewrite !truth_msb by trivial.
  pose proof (signed_eq x) as Ex. pose proof (signed_eq y) as Ey.
  destruct (x <? 2 ^ 63), (y <? 2 ^ 63); cbn [negb]; csplit; auto with word.
  - apply (smult_high x y res _ aux); trivial; [nia|]. symmetry; apply wrap_small; trivial.
  - apply (smult_high x y res _ (aux - x)); trivial; nia.
  - apply (smult_high x y res _ (aux - y)); trivial; nia.
  - rewrite wrap_sub_l. apply (smult_high x y res _ (aux - y - x + 1 * 2 ^ 64)); trivial;
      [nia|]. rewrite wrap_add_mult by lia; reflexivity.
Qed.

(** ** Algorithm D: normalisation *)

Lemma udiv_places_spec v n :
  (forall i, 0 <= i -> 0 <= v i) -> val n 0 v <> 0 ->
  let m := udiv_places v n in
  (1 <= m <= n)%nat /\ v (Z.of_nat m - 1) <> 0 /\
  (forall i, Z.of_nat m <= i < Z.of_nat n -> v i = 0).
Proof.
  intros Hp. induction n as [|n IH]; [cbn; lia|]. rewrite val_snoc, Z.add_0_l.
  cbn [udiv_places]. destruct (Z.eqb_spec (v (Z.of_nat n)) 0) as [E|E]; intros H.
  - rewrite E in H. destruct (IH ltac:(lia)) as (H1 & H2 & H3). csplit; trivial; try lia.
    intros i Hi. destruct (Z.eq_dec i (Z.of_nat n)); [congruence|]. apply H3; lia.
  - csplit; try lia. replace (Z.of_nat (S n) - 1) with (Z.of_nat n) by lia; trivial.
Qed.

Lemma udiv_norm_spec fuel vh d :
  0 < vh < 2 ^ 16 -> 2 ^ 15 <= vh * 2 ^ Z.of_nat fuel ->
  exists e, udiv_norm fuel vh d = d + e /\ 0 <= e <= 15 /\ 2 ^ 15 <= vh * 2 ^ e < 2 ^ 16.
Proof.
  revert vh d; induction fuel as [|fuel IH]; intros vh d Hv Hf; cbn [udiv_norm].
  - exists 0. change (2 ^ Z.of_nat 0) with 1 in Hf. change (2 ^ 0) with 1. lia.
  - destruct (Z.ltb_spec vh 0x8000) as [Hlt|Hge].
    + rewrite shl_exact by (unfold is_word; lia). change (2 ^ 1) with 2.
      destruct (IH (vh * 2) (d + 1)) as (e & -> & He & Hb); [lia| |].
      { rewrite Nat2Z.inj_succ, Z.pow_succ_r in Hf by lia. lia. }
      exists (e + 1). rewrite Z.pow_add_r by lia. change (2 ^ 1) with 2.
      assert (e <> 15) by (intros ->; lia). lia.
    + exists 0. change (2 ^ 0) with 1. lia.
Qed.

Definition shift_inv (d : Z) (a0 : arr) (i : Z) (s : arr * Z) : Prop :=
  let '(a, k) := s in
  0 <= k < 2 ^ d /\ digits (Z.to_nat i) 0 a /\ (forall m, i <= m -> a m = a0 m) /\
  val (Z.to_nat i) 0 a + 2 ^ (16 * i) * k = val (Z.to_nat i) 0 a0 * 2 ^ d.

Lemma shift_step d a0 i s :
  0 <= d <= 15 -> 0 <= i -> is_wyde (a0 i) ->
  shift_inv d a0 i s -> shift_inv d a0 (i + 1) (shift_digit d i s).
Proof.
  destruct s as [a k]. intros Hd Hi Ha (Hk & Hg & Hout & E). unfold shift_digit.
  assert (2 ^ d <= 2 ^ 15) by (apply Z.pow_le_mono_r; lia).
  pose proof (Hout i ltac:(lia)) as Ei. unfold is_word in Ha.
  rewrite shl_exact, wrap_small by (unfold is_word; nia).
  rewrite low_wyde, high_wyde. set (t := a i * 2 ^ d + k).
  assert (Ht : 0 <= t < 2 ^ 16 * 2 ^ d) by nia.
  unfold shift_inv. csplit.
  - apply Z.div_pos; lia.
  - apply Z.div_lt_upper_bound; lia.
  - intros m Hm. unfold upd. destruct (Z.eqb_spec m i); [apply Z.mod_pos_bound; lia|].
    apply Hg; lia.
  - intros m Hm. rewrite upd_other by lia. apply Hout; lia.
  - replace (Z.to_nat (i + 1)) with (S (Z.to_nat i)) by lia.
    rewrite !val_snoc, val_upd_out, Z2Nat.id, Z.add_0_l, upd_same by lia.
    replace (16 * (i + 1)) with (16 * i + 16) by lia. rewrite Z.pow_add_r by lia.
    pose proof (Z.div_mod t (2 ^ 16) ltac:(lia)) as Em. rewrite <- Ei.
    transitivity (val (Z.to_nat i) 0 a + 2 ^ (16 * i) * t); [rewrite Em at 3; ring|].
    unfold t. rewrite Z.mul_add_distr_r, <- E. ring.
Qed.

Lemma shift_spec d a n :
  0 <= d <= 15 -> digits n 0 a ->
  let '(a', k) := for_up n 0 (shift_digit d) (a, 0) in
  0 <= k < 2 ^ d /\ digits n 0 a' /\ (forall m, Z.of_nat n <= m -> a' m = a m) /\
  val n 0 a' + 2 ^ (16 * Z.of_nat n) * k = val n 0 a * 2 ^ d.
Proof.
  intros Hd Ha.
  assert (shift_inv d a (0 + Z.of_nat n) (for_up n 0 (shift_digit d) (a, 0))) as H.
  { apply (for_up_inv (shift_inv d a)).
    - unfold shift_inv. csplit; try lia; [intros i Hi; lia|reflexivity..].
    - intros i s Hi. apply shift_step; trivial; [lia|apply Ha; lia]. }
  revert H. rewrite Z.add_0_l. destruct (for_up n 0 (shift_digit d) (a, 0)) as [a' k].
  unfold shift_inv. rewrite Nat2Z.id. tauto.
Qed.

(** ** Algorithm D: the trial quotient *)

(** The correction loop: whatever number [q < 2 ^ 16] satisfies [q * V2 <= U3],
    where [V2] holds the two leading digits of the divisor and [U3] the three
    leading ones of the dividend, is at most the corrected quotient, which
    satisfies [q' * V2 <= U3] itself. *)
Lemma udiv_correct_spec vh vmh ab c q :
  2 ^ 15 <= vh < 2 ^ 16 -> is_wyde vmh -> is_wyde c ->
  0 <= ab <= vh * 2 ^ 16 + vmh -> q < 2 ^ 16 ->
  q * (vh * 2 ^ 16 + vmh) <= ab * 2 ^ 16 + c ->
  forall fuel qhat rhat,
    rhat = ab - vh * qhat -> 0 <= rhat < 2 ^ 16 -> 0 <= qhat <= 2 ^ 16 + 1 ->
    q <= qhat -> 2 ^ 16 <= rhat + Z.of_nat fuel * 2 ^ 15 ->
    let q' := udiv_correct fuel vh vmh c qhat rhat in
    q <= q' /\ 0 <= q' < 2 ^ 16 /\ q' * (vh * 2 ^ 16 + vmh) <= ab * 2 ^ 16 + c.
Proof.
  intros Hvh Hvm Hc Hab Hq HqV fuel; unfold is_word in *.
  induction fuel as [|fuel IH]; intros qhat rhat Er Hr Hqh Hle Hf; [lia|].
  cbn [udiv_correct]. rewrite shl_exact by (unfold is_word; lia).
  assert (0 <= qhat * vmh <= (2 ^ 16 + 1) * (2 ^ 16 - 1)) by nia.
  rewrite !(wrap_small 32 (_ + _)), (wrap_small 32 (_ * _)) by (unfold is_word; nia).
  destruct (Z.eqb_spec qhat 0x10000) as [Eb|Eb]; cbn [orb].
  2: destruct (Z.ltb_spec (rhat * 2 ^ 16 + c) (qhat * vmh)) as [Ht|Ht].
  3: { (* the test fails *)
    assert (qhat * (vh * 2 ^ 16 + vmh) <= ab * 2 ^ 16 + c) by nia.
    csplit; try lia. destruct (Z.eq_dec qhat (2 ^ 16 + 1)) as [->|]; nia. }
  all: rewrite !wrap_small by (unfold is_word; nia).
  all: assert (q <= qhat - 1) by nia.
  all: destruct (Z.leb_spec 0x10000 (rhat + vh)).
  all: try (apply IH; nia).
  all: csplit; try lia; nia.
Qed.

Lemma val_pair lo a : val 2 lo a = a lo + 2 ^ 16 * a (lo + 1).
Proof. cbn [val]; lia. Qed.

(** [val] of the [n] digits from [j], split after the two leading ones. *)
Lemma val_lead2 n j a :
  (2 <= n)%nat ->
  val n j a = val (n - 2) j a + 2 ^ (16 * (Z.of_nat n - 2)) *
    (a (j + Z.of_nat n - 1) * 2 ^ 16 + a (j + Z.of_nat n - 2)).
Proof.
  intros Hn. replace n with (n - 2 + 2)%nat at 1 by lia.
  rewrite val_app, val_pair. replace (Z.of_nat (n - 2)) with (Z.of_nat n - 2) by lia.
  replace (j + (Z.of_nat n - 2) + 1) with (j + Z.of_nat n - 1) by lia.
  replace (j + (Z.of_nat n - 2)) with (j + Z.of_nat n - 2) by lia. ring.
Qed.

(** The arithmetic of the estimate (Knuth, TAOCP 4.3.1, theorem B): [ab] and [c]
    are the three leading digits of the dividend [U], [V2] the two leading ones
    of the divisor [V], and [R] the weight of the digits that are left out. *)
Section Estimate.
Context (vh vmh ab c R vr ur : Z).
Let V2 := vh * 2 ^ 16 + vmh.
Let V := vr + R * V2.
Let U := ur + R * (ab * 2 ^ 16 + c).
Context (Hv : 2 ^ 15 <= vh < 2 ^ 16) (Hvm : is_wyde vmh) (Hc : is_wyde c).
Context (Hvr : 0 <= vr < R) (Hur : 0 <= ur < R) (Hab : 0 <= ab <= V2).
Context (Hql : U / V < 2 ^ 16).

Lemma estimate_V : 2 ^ 31 <= V2 /\ 0 < V /\ R * 2 ^ 31 <= V.
Proof. unfold V, V2, is_word in *; nia. Qed.

Lemma estimate_q : 0 <= U / V /\ U / V * V <= U < (U / V + 1) * V.
Proof.
  destruct estimate_V as (H1 & H2 & H3). unfold is_word in Hc.
  split; [apply Z.div_pos; [unfold U; nia|lia]|].
  pose proof (Z.div_mod U V ltac:(lia)). pose proof (Z.mod_pos_bound U V ltac:(lia)). nia.
Qed.

Lemma estimate_low : U / V * V2 <= ab * 2 ^ 16 + c.
Proof.
  destruct estimate_V as (H1 & H2 & H3), estimate_q as (Q0 & Q1 & Q2).
  set (q := U / V) in *. clearbody q.
  apply Z.lt_succ_r. apply (Z.mul_lt_mono_pos_r R); [lia|].
  assert (q * (R * V2) <= q * V) by (apply Z.mul_le_mono_nonneg_l; unfold V; lia).
  unfold U in Q1. lia.
Qed.

Lemma estimate_first : U / V <= ab / vh <= 2 ^ 16 + 1.
Proof.
  destruct estimate_q as (Q0 & _). pose proof estimate_low as L. unfold V2, is_word in *.
  split.
  - apply Z.div_le_lower_bound; [lia|]. set (q := U / V) in *.
    clearbody q. assert (0 <= q * vmh) by nia. lia.
  - apply Z.lt_succ_r, Z.div_lt_upper_bound; [lia|]. nia.
Qed.

(** The corrected trial quotient exceeds the quotient by at most one. *)
Lemma estimate_corrected :
  let q' := udiv_correct 3 vh vmh c (ab / vh) (ab - vh * (ab / vh)) in
  U / V <= q' <= U / V + 1 /\ 0 <= q' < 2 ^ 16.
Proof.
  pose proof estimate_q as (Q0 & Q1 & Q2). pose proof estimate_first as (F1 & F2).
  pose proof (Z.div_mod ab vh ltac:(lia)). pose proof (Z.mod_pos_bound ab vh ltac:(lia)).
  destruct (udiv_correct_spec vh vmh ab c (U / V) Hv Hvm Hc Hab Hql estimate_low
              3 (ab / vh) (ab - vh * (ab / vh))) as (C1 & C2 & C3); try lia.
  cbv zeta. set (q' := udiv_correct _ _ _ _ _ _) in *. fold V2 in C3. csplit; try lia.
  destruct estimate_V as (H1 & H2 & H3).
  assert (q' * vr <= 2 ^ 16 * R) by (apply Z.mul_le_mono_nonneg; lia).
  assert (R * (q' * V2) <= R * (ab * 2 ^ 16 + c)) by (apply Z.mul_le_mono_nonneg_l; lia).
  assert (q' * V = q' * vr + R * (q' * V2)) by (unfold V; ring).
  assert ((q' - 1) * V < (U / V + 1) * V) by nia. nia.
Qed.
End Estimate.

Section QuotientDigit.
Context (n : nat) (u v : arr) (j : Z).
Let V := val n 0 v.
Let U := val (S n) j u.
Let vh := v (Z.of_nat n - 1).
Context (Hn : (1 <= n <= 4)%nat) (Hj : 0 <= j).
Context (Du : digits (S n) j u) (Dv : digits n 0 v).
Context (Hvh : 2 ^ 15 <= vh) (HP : val n (j + 1) u < V).

Lemma vh_range : 2 ^ 15 <= vh < 2 ^ 16.
Proof. pose proof (digits_at _ _ _ (Z.of_nat n - 1) Dv ltac:(lia)); unfold vh in *; lia. Qed.

Lemma quotient_small : 0 <= U / V < 2 ^ 16.
Proof.
  pose proof (val_bound _ _ _ Du). pose proof (digits_at _ _ _ j Du ltac:(lia)).
  assert (0 <= val n (j + 1) u).
  { apply val_bound. eapply digits_sub; [exact Du|lia|lia]. }
  split; [apply Z.div_pos; unfold U; lia|].
  apply Z.div_lt_upper_bound; [lia|]. unfold U; cbn [val]. lia.
Qed.

(** A single-digit divisor: the trial quotient is exact. *)
Lemma udiv_qhat_one : n = 1%nat -> udiv_qhat n u vh 0 j = U / V.
Proof.
  intros E. pose proof vh_range as Hv. unfold V, U, vh, udiv_qhat in *. rewrite E in *.
  change (Z.of_nat 1) with 1 in *. change (1 <? 1)%nat with false.
  cbn [val] in *. replace (j + 1 - 1) with j by lia. change (1 - 1) with 0 in *.
  pose proof (digits_at _ _ _ j Du ltac:(lia)). pose proof (digits_at _ _ _ (j + 1) Du ltac:(lia)).
  rewrite shl_exact, wrap_small by (unfold is_word; lia). f_equal; lia.
Qed.

(** At least two digits: the estimate is exact or one too large. *)
Lemma udiv_qhat_two :
  (2 <= n)%nat ->
  let qhat := udiv_qhat n u vh (v (Z.of_nat n - 2)) j in
  U / V <= qhat <= U / V + 1 /\ 0 <= qhat < 2 ^ 16.
Proof.
  intros H2. pose proof vh_range as Hv. pose proof quotient_small as Hq.
  unfold udiv_qhat. replace (1 <? n)%nat with true by (symmetry; apply Nat.ltb_lt; lia).
  pose proof (digits_at _ _ _ (j + Z.of_nat n) Du ltac:(lia)) as Ha.
  pose proof (digits_at _ _ _ (j + Z.of_nat n - 1) Du ltac:(lia)) as Hb.
  pose proof (digits_at _ _ _ (j + Z.of_nat n - 2) Du ltac:(lia)) as Hc.
  rewrite shl_exact, (wrap_small 32 (_ + _)) by (unfold is_word; lia).
  set (ab := u (j + Z.of_nat n) * 2 ^ 16 + _). set (R := 2 ^ (16 * (Z.of_nat n - 2))).
  assert (LR : forall lo a, digits n lo a -> 0 <= val (n - 2) lo a < R).
  { intros lo a Da. unfold R. replace (Z.of_nat n - 2) with (Z.of_nat (n - 2)) by lia.
    apply val_bound. eapply digits_sub; [exact Da|lia|lia]. }
  assert (EV : V = val (n - 2) 0 v + R * (vh * 2 ^ 16 + v (Z.of_nat n - 2))).
  { unfold V. rewrite val_lead2 by lia. reflexivity. }
  assert (EU : U = val (n - 2) j u + R * (ab * 2 ^ 16 + u (j + Z.of_nat n - 2))).
  { unfold U. rewrite val_snoc, val_lead2 by lia. unfold ab, R.
    replace (16 * Z.of_nat n) with (16 * (Z.of_nat n - 2) + 32) by lia.
    rewrite Z.pow_add_r by lia. ring. }
  assert (Hab : 0 <= ab <= vh * 2 ^ 16 + v (Z.of_nat n - 2)).
  { split; [unfold ab; lia|]. rewrite EV, val_lead2 in HP by lia.
    replace (j + 1 + Z.of_nat n - 1) with (j + Z.of_nat n) in HP by lia.
    replace (j + 1 + Z.of_nat n - 2) with (j + Z.of_nat n - 1) in HP by lia.
    fold ab R in HP. pose proof (LR 0 v Dv).
    pose proof (LR (j + 1) u ltac:(eapply digits_sub; [exact Du|lia|lia])). nia. }
  pose proof (Z.div_mod ab vh ltac:(lia)). pose proof (Z.mod_pos_bound ab vh ltac:(lia)).
  rewrite (wrap_small 32) by (unfold is_word; lia).
  rewrite EV, EU in *. apply estimate_corrected; trivial; try lia.
  - apply Dv; lia.
  - apply LR; trivial.
  - apply LR. eapply digits_sub; [exact Du|lia|lia].
Qed.
End QuotientDigit.

(** ** Algorithm D: multiply, subtract and add back *)

Definition sub_inv (v u0 : arr) (qhat j i : Z) (s : arr * Z) : Prop :=
  let '(u, k) := s in
  is_wyde k /\ (forall m, j <= m < i + j -> is_wyde (u m)) /\
  (forall m, m < j \/ i + j <= m -> u m = u0 m) /\
  val (Z.to_nat i) j u - 2 ^ (16 * i) * k
  = val (Z.to_nat i) j u0 - qhat * val (Z.to_nat i) 0 v.

Lemma sub_step v u0 qhat j i s :
  0 <= i -> is_wyde qhat -> is_wyde (v i) -> is_wyde (u0 (i + j)) ->
  sub_inv v u0 qhat j i s -> sub_inv v u0 qhat j (i + 1) (sub_digit v qhat j i s).
Proof.
  destruct s as [u k]. intros Hi Hq Hv Hu (Hk & Hd & Hout & E).
  pose proof (Hout (i + j) ltac:(lia)) as Ei. unfold sub_digit, is_word in *.
  assert (0 <= qhat * v i <= (2 ^ 16 - 1) * (2 ^ 16 - 1)) by nia.
  rewrite (wrap_small 32 (_ - _ - _)) by (unfold is_word; lia).
  rewrite low_wyde, high_wyde. set (t := u (i + j) + 0xFFFF0000 - k - qhat * v i).
  assert (Ht : 0 <= t < 2 ^ 32) by lia.
  pose proof (Z.div_mod t (2 ^ 16) ltac:(lia)) as Em.
  pose proof (Z.mod_pos_bound t (2 ^ 16) ltac:(lia)) as Mb.
  assert (0 <= t / 2 ^ 16 < 2 ^ 16) by lia.
  rewrite wrap_small by (unfold is_word; lia).
  unfold sub_inv, is_word. csplit; try lia.
  - intros m Hm. unfold upd. destruct (Z.eqb_spec m (i + j)); [lia|]. apply Hd; lia.
  - intros m Hm. rewrite upd_other by lia. apply Hout; lia.
  - replace (Z.to_nat (i + 1)) with (S (Z.to_nat i)) by lia.
    rewrite !val_snoc, val_upd_out, Z2Nat.id, Z.add_0_l by lia.
    replace (j + i) with (i + j) by lia. rewrite upd_same, <- Ei.
    replace (16 * (i + 1)) with (16 * i + 16) by lia. rewrite Z.pow_add_r by lia.
    transitivity (val (Z.to_nat i) j u + 2 ^ (16 * i) * (t - 0xFFFF0000));
      [rewrite Em at 3; ring|].
    unfold t. nia.
Qed.

Lemma sub_spec n v u qhat j :
  is_wyde qhat -> digits n 0 v -> digits n j u ->
  let '(u', k) := for_up n 0 (sub_digit v qhat j) (u, 0) in
  is_wyde k /\ digits n j u' /\
  (forall m, m < j \/ Z.of_nat n + j <= m -> u' m = u m) /\
  val n j u' - 2 ^ (16 * Z.of_nat n) * k = val n j u - qhat * val n 0 v.
Proof.
  intros Hq Dv Du.
  assert (sub_inv v u qhat j (0 + Z.of_nat n) (for_up n 0 (sub_digit v qhat j) (u, 0))) as H.
  { apply (for_up_inv (sub_inv v u qhat j)).
    - unfold sub_inv, is_word. csplit; try lia; change (Z.to_nat 0) with 0%nat; cbn [val]; rewrite !Z.mul_0_r; reflexivity.
    - intros i s Hi. apply sub_step; trivial; [lia|apply Dv; lia|apply Du; lia]. }
  revert H. rewrite Z.add_0_l. destruct (for_up n 0 _ (u, 0)) as [u' k].
  unfold sub_inv. rewrite Nat2Z.id. intros (? & Hd & ? & ?). csplit; trivial; try lia.
  intros m Hm. apply Hd; lia.
Qed.

Definition add_inv (v u0 : arr) (j i : Z) (s : arr * Z) : Prop :=
  let '(u, k) := s in
  0 <= k <= 1 /\ (forall m, j <= m < i + j -> is_wyde (u m)) /\
  (forall m, m < j \/ i + j <= m -> u m = u0 m) /\
  val (Z.to_nat i) j u + 2 ^ (16 * i) * k
  = val (Z.to_nat i) j u0 + val (Z.to_nat i) 0 v.

Lemma add_step v u0 j i s :
  0 <= i -> is_wyde (v i) -> is_wyde (u0 (i + j)) ->
  add_inv v u0 j i s -> add_inv v u0 j (i + 1) (addback_digit v j i s).
Proof.
  destruct s as [u k]. intros Hi Hv Hu (Hk & Hd & Hout & E).
  pose proof (Hout (i + j) ltac:(lia)) as Ei. unfold addback_digit, is_word in *.
  rewrite wrap_small by (unfold is_word; lia).
  rewrite low_wyde, high_wyde. set (t := u (i + j) + v i + k).
  pose proof (Z.div_mod t (2 ^ 16) ltac:(lia)) as Em.
  pose proof (Z.mod_pos_bound t (2 ^ 16) ltac:(lia)) as Mb.
  assert (0 <= t / 2 ^ 16 <= 1) by lia.
  unfold add_inv, is_word. csplit; try lia.
  - intros m Hm. unfold upd. destruct (Z.eqb_spec m (i + j)); [lia|]. apply Hd; lia.
  - intros m Hm. rewrite upd_other by lia. apply Hout; lia.
  - replace (Z.to_nat (i + 1)) with (S (Z.to_nat i)) by lia.
    rewrite !val_snoc, val_upd_out, Z2Nat.id, Z.add_0_l by lia.
    replace (j + i) with (i + j) by lia. rewrite upd_same, <- Ei.
    replace (16 * (i + 1)) with (16 * i + 16) by lia. rewrite Z.pow_add_r by lia.
    transitivity (val (Z.to_nat i) j u + 2 ^ (16 * i) * t); [rewrite Em at 3; ring|].
    unfold t. nia.
Qed.

Lemma add_spec n v u j :
  digits n 0 v -> digits n j u ->
  let '(u', k) := for_up n 0 (addback_digit v j) (u, 0) in
  0 <= k <= 1 /\ digits n j u' /\
  (forall m, m < j \/ Z.of_nat n + j <= m -> u' m = u m) /\
  val n j u' + 2 ^ (16 * Z.of_nat n) * k = val n j u + val n 0 v.
Proof.
  intros Dv Du.
  assert (add_inv v u j (0 + Z.of_nat n) (for_up n 0 (addback_digit v j) (u, 0))) as H.
  { apply (for_up_inv (add_inv v u j)).
    - unfold add_inv, is_word. csplit; try lia; reflexivity.
    - intros i s Hi. apply add_step; [lia|apply Dv; lia|apply Du; lia]. }
  revert H. rewrite Z.add_0_l. destruct (for_up n 0 _ (u, 0)) as [u' k].
  unfold add_inv. rewrite Nat2Z.id. intros (? & Hd & ? & ?). csplit; trivial; try lia.
  intros m Hm. apply Hd; lia.
Qed.

(** ** Algorithm D: one quotient digit *)

Section Division.
Context (n : nat) (v : arr) (X : Z).
Let V := val n 0 v.
Let vh := v (Z.of_nat n - 1).
Let vmh := if (1 <? n)%nat then v (Z.of_nat n - 2) else 0.
Context (Hn : (1 <= n <= 4)%nat) (Dv : digits n 0 v) (Hvh : 2 ^ 15 <= vh).

Lemma qhat_estimate u j :
  0 <= j -> digits (S n) j u -> val n (j + 1) u < V ->
  let qhat := udiv_qhat n u vh vmh j in
  let q := val (S n) j u / V in q <= qhat <= q + 1 /\ is_wyde qhat.
Proof.
  intros Hj Du HP. destruct (Nat.eq_dec n 1%nat) as [E1|E1].
  - pose proof (quotient_small n u v j Hn Du HP).
    pose proof (udiv_qhat_one n u v j Hn Du Dv Hvh HP E1) as E.
    unfold vmh. replace (1 <? n)%nat with false by (symmetry; apply Nat.ltb_ge; lia).
    cbv zeta. unfold V, vh in *. rewrite E. unfold is_word; lia.
  - assert (H2 : (2 <= n)%nat) by lia.
    pose proof (udiv_qhat_two n u v j Hn Du Dv Hvh HP H2) as E.
    unfold vmh. replace (1 <? n)%nat with true by (symmetry; apply Nat.ltb_lt; lia). exact E.
Qed.

(** The digit written, and what is left of the dividend. *)
Lemma udiv_step_digit u q j :
  0 <= j -> digits (S n) j u -> val n (j + 1) u < V ->
  let U := val (S n) j u in
  exists u' qj, udiv_step n v vh vmh j (u, q) = (u', upd q j qj) /\
    is_wyde qj /\ digits n j u' /\ (forall m, m < j \/ Z.of_nat n + j <= m -> u' m = u m) /\
    val n j u' = U mod V /\ qj = U / V.
Proof.
  intros Hj Du HP U. destruct (qhat_estimate u j Hj Du HP) as [He Hw]. fold U in He.
  unfold udiv_step. set (qhat := udiv_qhat n u vh vmh j) in *.
  assert (Du' : digits n j u) by (eapply digits_sub; [exact Du|lia|lia]).
  pose proof (sub_spec n v u qhat j Hw Dv Du') as HS.
  destruct (for_up n 0 (sub_digit v qhat j) (u, 0)) as [u1 k].
  destruct HS as (Hk & Du1 & Ho1 & E1). rewrite Ho1 by lia.
  set (W := 2 ^ (16 * Z.of_nat n)) in *. fold V in E1.
  assert (EU : U = val n j u + W * u (j + Z.of_nat n)) by apply val_snoc.
  pose proof (val_bound _ _ _ Dv) as BV. fold V W in BV.
  pose proof (val_bound _ _ _ Du1) as B1. fold W in B1.
  assert (0 <= val n (j + 1) u).
  { apply val_bound. eapply digits_sub; [exact Du|lia|lia]. }
  pose proof (Z.div_mod U V ltac:(lia)) as Em. pose proof (Z.mod_pos_bound U V ltac:(lia)) as Mb.
  assert (ED : val n j u1 + W * (u (j + Z.of_nat n) - k) = U - qhat * V) by lia.
  destruct (Z.eqb_spec (u (j + Z.of_nat n)) k) as [Ek|Ek]; cbn [negb].
  - exists u1, qhat. assert (qhat = U / V) by nia. csplit; trivial. nia.
  - pose proof (add_spec n v u1 j Dv Du1) as HA.
    destruct (for_up n 0 (addback_digit v j) (u1, 0)) as [u2 k2].
    destruct HA as (Hk2 & Du2 & Ho2 & E2). fold V W in E2.
    assert (Hq : qhat = U / V + 1) by nia.
    assert (Hq0 : 0 <= U / V) by (pose proof (val_bound _ _ _ Du); apply Z.div_pos; unfold U; lia).
    pose proof (val_bound _ _ _ Du2) as B2. fold W in B2.
    exists u2, (U / V). rewrite Hq in *. unfold is_word in Hw.
    replace (U / V + 1 - 1) with (U / V) by lia. rewrite wrap_small by (unfold is_word; lia).
    csplit; trivial; try (unfold is_word; lia).
    + intros m Hm. rewrite Ho2, Ho1 by lia. reflexivity.
    + assert (val n j u2 + W * (k2 + (u (j + Z.of_nat n) - k)) = U mod V) as E by lia.
      assert (k2 + (u (j + Z.of_nat n) - k) = 0) as E0 by nia. rewrite E0 in E. lia.
Qed.

Definition div_inv (i : Z) (s : arr * arr) : Prop :=
  let '(u, q) := s in
  digits (n + 4) 0 u /\ (forall m, i <= m < 4 -> is_wyde (q m)) /\
  val n i u < V /\
  val (n + Z.to_nat i) 0 u + V * (2 ^ (16 * i) * val (4 - Z.to_nat i) i q) = X.

Lemma udiv_step_inv i s :
  0 <= i < 4 -> div_inv (i + 1) s -> div_inv i (udiv_step n v vh vmh i s).
Proof.
  destruct s as [u q]. intros Hi (Du & Dq & HP & E).
  assert (Dui : digits (S n) i u) by (eapply digits_sub; [exact Du|lia|lia]).
  destruct (udiv_step_digit u q i ltac:(lia) Dui HP) as (u' & qj & -> & Hqj & Du' & Ho & Er & Eq).
  set (U := val (S n) i u) in *.
  assert (0 <= val n (i + 1) u).
  { apply val_bound. eapply digits_sub; [exact Du|lia|lia]. }
  pose proof (Z.div_mod U V ltac:(lia)) as Em. pose proof (Z.mod_pos_bound U V ltac:(lia)) as Mb.
  unfold div_inv. csplit.
  - intros m Hm. destruct (Z_lt_le_dec m i); [rewrite Ho by lia; apply Du; lia|].
    destruct (Z_lt_le_dec m (Z.of_nat n + i)); [apply Du'; lia|rewrite Ho by lia; apply Du; lia].
  - intros m Hm. unfold upd. destruct (Z.eqb_spec m i); [trivial|apply Dq; lia].
  - lia.
  - replace (4 - Z.to_nat i)%nat with (S (4 - Z.to_nat (i + 1))) by lia. cbn [val].
    rewrite upd_same, val_upd_out by lia. rewrite <- E.
    replace (n + Z.to_nat (i + 1))%nat with (Z.to_nat i + S n)%nat by lia.
    replace (n + Z.to_nat i)%nat with (Z.to_nat i + n)%nat by lia.
    rewrite !val_app, Z2Nat.id, !Z.add_0_l by lia. fold U.
    rewrite (val_ext (Z.to_nat i) 0 u' u) by (intros; apply Ho; lia).
    replace (16 * (i + 1)) with (16 * i + 16) by lia. rewrite Z.pow_add_r by lia.
    rewrite Er, Eq. set (Q := val (4 - Z.to_nat (i + 1)) (i + 1) q).
    transitivity (val (Z.to_nat i) 0 u + 2 ^ (16 * i) * (V * (U / V) + U mod V) +
                  V * (2 ^ (16 * i) * 2 ^ 16 * Q)); [ring|]. rewrite <- Em. reflexivity.
Qed.
End Division.

(** ** Algorithm D: the remainder *)

Definition unshift_inv (d : Z) (n : nat) (u0 : arr) (i : Z) (s : arr * Z) : Prop :=
  let '(u, k) := s in
  let H := val (n - Z.to_nat i) i u0 in
  k = H mod 2 ^ d /\ digits (n - Z.to_nat i) i u /\
  (forall m, m < i \/ Z.of_nat n <= m -> u m = u0 m) /\
  val (n - Z.to_nat i) i u = H / 2 ^ d.

Lemma unshift_step d n u0 i s :
  0 <= d <= 15 -> 0 <= i < Z.of_nat n -> is_wyde (u0 i) ->
  unshift_inv d n u0 (i + 1) s -> unshift_inv d n u0 i (unshift_digit d i s).
Proof.
  destruct s as [u k]. intros Hd Hi Hu (Ek & Dg & Hout & E). unfold unshift_digit.
  assert (HD : 0 < 2 ^ d <= 2 ^ 15)
    by (split; [apply pow2_pos|apply Z.pow_le_mono_r]; lia).
  unfold unshift_inv. replace (n - Z.to_nat i)%nat with (S (n - Z.to_nat (i + 1))) by lia.
  cbn [val]. rewrite Hout by lia. set (H := val _ (i + 1) u0) in *.
  pose proof (Z.mod_pos_bound H (2 ^ d) ltac:(lia)) as Mk. unfold is_word in Hu.
  rewrite shl_exact, wrap_small by (unfold is_word; lia).
  rewrite land_mask, shiftr_div by lia. set (t := k * 2 ^ 16 + u0 i).
  assert (EH : u0 i + 2 ^ 16 * H = t + 2 ^ 16 * (H / 2 ^ d) * 2 ^ d).
  { unfold t. rewrite Ek. pose proof (Z.div_mod H (2 ^ d) ltac:(lia)) as Em.
    rewrite Em at 1. ring. }
  rewrite EH, Z.mod_add, Z.div_add by lia. csplit; trivial.
  - intros m Hm. unfold upd. destruct (Z.eqb_spec m i); [|apply Dg; lia].
    split; [apply Z.div_pos; lia|apply Z.div_lt_upper_bound; [lia|]]. unfold t; nia.
  - intros m Hm. rewrite upd_other by lia. apply Hout; lia.
  - rewrite upd_same, val_upd_out, E by lia. reflexivity.
Qed.

Lemma unshift_spec d n u :
  0 <= d <= 15 -> digits n 0 u ->
  let '(u', _) := for_down n (unshift_digit d) (u, 0) in
  digits n 0 u' /\ (forall m, Z.of_nat n <= m -> u' m = u m) /\
  val n 0 u' = val n 0 u / 2 ^ d.
Proof.
  intros Hd Du.
  assert (unshift_inv d n u 0 (for_down n (unshift_digit d) (u, 0))) as H.
  { apply (for_down_inv (unshift_inv d n u)).
    - unfold unshift_inv. rewrite Nat2Z.id, Nat.sub_diag. cbn [val].
      rewrite Z.mod_0_l, Z.div_0_l by (pose proof (pow2_pos d); lia).
      csplit; trivial. intros i Hi; lia.
    - intros i s Hi. apply unshift_step; trivial. apply Du; lia. }
  revert H. destruct (for_down n (unshift_digit d) (u, 0)) as [u' k]. unfold unshift_inv.
  change (Z.to_nat 0) with 0%nat. rewrite Nat.sub_0_r.
  intros (_ & ? & Ho & ?). csplit; trivial. intros; apply Ho; lia.
Qed.

(** Clearing the digits above the divisor's places. *)
Lemma clear_spec n u :
  (n <= 4)%nat ->
  let u' := for_up (4 - n) (Z.of_nat n) (fun j u => upd u j 0) u in
  (forall m, m < Z.of_nat n -> u' m = u m) /\
  (forall m, Z.of_nat n <= m < 4 -> u' m = 0).
Proof.
  intros Hn.
  assert ((fun i a => (forall m, m < Z.of_nat n -> a m = u m) /\
                      (forall m, Z.of_nat n <= m < i -> a m = 0))
            (Z.of_nat n + Z.of_nat (4 - n))
            (for_up (4 - n) (Z.of_nat n) (fun j u => upd u j 0) u)) as [H1 H2].
  { apply (for_up_inv (fun i a => (forall m, m < Z.of_nat n -> a m = u m) /\
                      (forall m, Z.of_nat n <= m < i -> a m = 0))).
    - split; [reflexivity|lia].
    - intros i a Hi [Ha Hb]. split; intros m Hm; unfold upd;
        destruct (Z.eqb_spec m i); auto; try lia. apply Hb; lia. }
  split; [exact H1|]. intros; apply H2; lia.
Qed.

Lemma val_clear n a : (n <= 4)%nat -> (forall m, Z.of_nat n <= m < 4 -> a m = 0) ->
  val 4 0 a = val n 0 a.
Proof.
  intros Hn H. replace 4%nat with (n + (4 - n))%nat by lia.
  rewrite val_app, (val_zero (4 - n)) by (intros; apply H; lia). lia.
Qed.

(** ** The quotient and the remainder *)

Lemma int_udiv_trivial x y z : z <= x -> int_udiv x y z = (x, y).
Proof. intros H. unfold int_udiv. apply Z.leb_le in H. rewrite H. reflexivity. Qed.

(** The number of places of a nonzero divisor. *)
Lemma places_spec z :
  is_octa z -> 0 < z ->
  let v := unpack fresh 0 z in
  let n := udiv_places v 4 in
  (1 <= n <= 4)%nat /\ digits n 0 v /\ 0 < v (Z.of_nat n - 1) < 2 ^ 16 /\ val n 0 v = z.
Proof.
  intros Hz Hpos v n. pose proof (unpack_digits fresh 0 z Hz) as Dv.
  pose proof (unpack_val fresh 0 z Hz) as Ev. fold v in Dv, Ev.
  destruct (udiv_places_spec v 4) as (H1 & H2 & H3); [|lia|].
  { intros i Hi. destruct (Z_lt_le_dec i 4); [apply Dv; lia|].
    unfold v; rewrite unpack_other by lia. unfold fresh; lia. }
  fold n in H1, H2, H3. pose proof (digits_at _ _ _ (Z.of_nat n - 1) Dv ltac:(lia)).
  csplit; try lia; [eapply digits_sub; [exact Dv|lia|lia]|].
  rewrite <- Ev. symmetry. apply val_clear; [lia|]. intros; apply H3; lia.
Qed.

(** Normalising the divisor sets the top bit of its leading digit. *)
Lemma divisor_spec n v d :
  (1 <= n)%nat -> digits n 0 v -> 0 <= d <= 15 ->
  2 ^ 15 <= v (Z.of_nat n - 1) * 2 ^ d < 2 ^ 16 ->
  let '(v', _) := for_up n 0 (shift_digit d) (v, 0) in
  digits n 0 v' /\ val n 0 v' = val n 0 v * 2 ^ d /\ 2 ^ 15 <= v' (Z.of_nat n - 1) /\
  val n 0 v * 2 ^ d < 2 ^ (16 * Z.of_nat n).
Proof.
  intros Hn Dv Hd Hvh. pose proof (shift_spec d v n Hd Dv) as HS.
  destruct (for_up n 0 (shift_digit d) (v, 0)) as [v' k]. destruct HS as (Hk & Dv' & _ & E).
  destruct n as [|m]; [lia|].
  replace (Z.of_nat (S m) - 1) with (Z.of_nat m) in * by lia.
  replace (16 * Z.of_nat (S m)) with (16 * Z.of_nat m + 16) in * by lia.
  rewrite Z.pow_add_r in * by lia. rewrite !val_snoc, !Z.add_0_l in *.
  set (W := 2 ^ (16 * Z.of_nat m)) in *.
  assert (B : forall a, digits (S m) 0 a -> 0 <= val m 0 a < W).
  { intros a Da. apply val_bound. eapply digits_sub; [exact Da|lia|lia]. }
  pose proof (B v Dv) as Bv. pose proof (B v' Dv') as Bv'.
  pose proof (digits_at _ _ _ (Z.of_nat m) Dv' ltac:(lia)) as Hv'.
  assert (HD : 0 < 2 ^ d) by (apply pow2_pos; lia).
  assert (E16 : 2 ^ 16 = 2 ^ (16 - d) * 2 ^ d) by (rewrite <- Z.pow_add_r by lia; f_equal; lia).
  assert (v (Z.of_nat m) + 1 <= 2 ^ (16 - d)) by nia.
  assert (Hz : (val m 0 v + W * v (Z.of_nat m)) * 2 ^ d < W * 2 ^ 16) by (rewrite E16; nia).
  assert (k = 0) by nia. csplit; trivial; nia.
Qed.

(** The dividend occupies [n + 4] places. *)
Lemma dividend_spec x y z n :
  is_octa x -> is_octa y -> x < z -> z < 2 ^ (16 * Z.of_nat n) -> (n <= 4)%nat ->
  let u := unpack (unpack fresh 4 x) 0 y in
  digits (n + 4) 0 u /\ val (n + 4) 0 u = x * 2 ^ 64 + y.
Proof.
  intros Hx Hy Hlt Hz Hn u.
  assert (D4 : digits 4 4 u).
  { intros i Hi. unfold u; rewrite unpack_other by lia. apply (unpack_digits fresh 4 x Hx); lia. }
  assert (E4 : val 4 4 u = x).
  { rewrite <- (unpack_val fresh 4 x Hx). apply val_ext; intros; apply unpack_other; lia. }
  assert (D0 : digits 4 0 u) by apply (unpack_digits _ 0 y Hy).
  assert (E0 : val 4 0 u = y) by apply (unpack_val _ 0 y Hy).
  split.
  - intros i Hi. destruct (Z_lt_le_dec i 4); [apply D0; lia|apply D4; lia].
  - rewrite Nat.add_comm, val_app, E0.
    change (2 ^ (16 * Z.of_nat 4)) with (2 ^ 64). rewrite Z.add_0_l.
    change (Z.of_nat 4) with 4. enough (val n 4 u = x) by lia.
    replace 4%nat with (n + (4 - n))%nat in E4 by lia. rewrite val_app in E4.
    pose proof (val_bound (4 - n) (4 + Z.of_nat n) u
                  ltac:(eapply digits_sub; [exact D4|lia|lia])).
    pose proof (val_bound n 4 u ltac:(eapply digits_sub; [exact D4|lia|lia])).
    set (H1 := val (4 - n) _ u) in *. set (W := 2 ^ (16 * Z.of_nat n)) in *.
    assert (H1 = 0) by nia. nia.
Qed.

(** The digit loop divides a normalised dividend. *)
Lemma udiv_loop_spec n v u X :
  (1 <= n <= 4)%nat -> digits n 0 v -> 2 ^ 15 <= v (Z.of_nat n - 1) ->
  digits (n + 4) 0 u -> val (n + 4) 0 u = X -> X < val n 0 v * 2 ^ 64 ->
  let V := val n 0 v in
  let vmh := if (1 <? n)%nat then v (Z.of_nat n - 2) else 0 in
  let '(u', q) := for_down 4 (udiv_step n v (v (Z.of_nat n - 1)) vmh) (u, fresh) in
  digits (n + 4) 0 u' /\ digits 4 0 q /\ val n 0 u' = X mod V /\ val 4 0 q = X / V.
Proof.
  intros Hn Dv Hvh Du EX HX V vmh. pose proof (val_bound _ _ _ Du) as BX.
  assert (HI : div_inv n v X 0
                 (for_down 4 (udiv_step n v (v (Z.of_nat n - 1)) vmh) (u, fresh))).
  { apply (for_down_inv (div_inv n v X)).
    - unfold div_inv. csplit; trivial; try lia.
      + rewrite Nat.add_comm, val_app, Z.add_0_l in EX.
        pose proof (val_bound 4 0 u ltac:(eapply digits_sub; [exact Du|lia|lia])). fold V in HX |- *.
        change (2 ^ (16 * Z.of_nat 4)) with (2 ^ 64) in *. nia.
      + change (Z.to_nat (Z.of_nat 4)) with 4%nat. cbn [val Nat.sub]. lia.
    - intros i s Hi. apply udiv_step_inv; trivial. }
  destruct (for_down 4 _ _) as [u' q]. destruct HI as (Du' & Dq & Hr & E).
  change (Z.to_nat 0) with 0%nat in E. rewrite Nat.add_0_r in E. cbn [Nat.sub] in E.
  change (2 ^ (16 * 0)) with 1 in E. fold V in Hr, E.
  pose proof (val_bound n 0 u' ltac:(eapply digits_sub; [exact Du'|lia|lia])).
  csplit; trivial.
  - apply Z.mod_unique_pos with (val 4 0 q); lia.
  - apply Z.div_unique_pos with (val n 0 u'); lia.
Qed.

(** The digits above the divisor's places are cleared and the rest is shifted back. *)
Lemma remainder_spec n u d :
  (n <= 4)%nat -> digits (n + 4) 0 u -> 0 <= d <= 15 ->
  let u1 := for_up (4 - n) (Z.of_nat n) (fun j u => upd u j 0) u in
  let '(u2, _) := for_down n (unshift_digit d) (u1, 0) in
  digits 4 0 u2 /\ val 4 0 u2 = val n 0 u / 2 ^ d.
Proof.
  intros Hn Du Hd u1. destruct (clear_spec n u Hn) as [Hlo Hhi]. fold u1 in Hlo, Hhi.
  assert (D1 : digits n 0 u1) by (intros i Hi; rewrite Hlo by lia; apply Du; lia).
  pose proof (unshift_spec d n u1 Hd D1) as HU.
  destruct (for_down n (unshift_digit d) (u1, 0)) as [u2 k]. destruct HU as (D2 & Ho & E2).
  assert (Hz : forall m, Z.of_nat n <= m < 4 -> u2 m = 0) by (intros; rewrite Ho, Hhi by lia; trivial).
  split.
  - intros i Hi. destruct (Z_lt_le_dec i (Z.of_nat n)); [apply D2; lia|].
    rewrite Hz by lia. wordlia.
  - rewrite (val_clear n u2 Hn Hz), E2. f_equal. apply val_ext; intros; apply Hlo; lia.
Qed.

Lemma int_udiv_spec x y z :
  is_octa x -> is_octa y -> is_octa z -> x < z ->
  int_udiv x y z = ((x * 2 ^ 64 + y) / z, (x * 2 ^ 64 + y) mod z).
Proof.
  intros Hx Hy Hz Hlt. unfold int_udiv.
  replace (z <=? x) with false by (symmetry; apply Z.leb_gt; lia).
  destruct (places_spec z Hz ltac:(wordlia)) as (Hn & Dv0 & Hvh0 & Ev0).
  set (v0 := unpack fresh 0 z) in *. set (n := udiv_places v0 4) in *.
  destruct (udiv_norm_spec 16 (v0 (Z.of_nat n - 1)) 0 Hvh0
              ltac:(change (2 ^ Z.of_nat 16) with (2 ^ 16); lia)) as (d & -> & Hd & Hvd).
  rewrite Z.add_0_l. assert (HD : 0 < 2 ^ d) by (apply pow2_pos; lia).
  pose proof (divisor_spec n v0 d ltac:(lia) Dv0 Hd Hvd) as HV.
  destruct (for_up n 0 (shift_digit d) (v0, 0)) as [v ?].
  destruct HV as (Dv & Ev & Hvh & Bz). rewrite Ev0 in *.
  destruct (dividend_spec x y z n Hx Hy Hlt ltac:(nia) ltac:(lia)) as (Du0 & Eu0).
  set (u0 := unpack (unpack fresh 4 x) 0 y) in *.
  pose proof (shift_spec d u0 (n + 4) Hd Du0) as HU.
  destruct (for_up (n + 4) 0 (shift_digit d) (u0, 0)) as [u1 k].
  destruct HU as (Hk & Du1 & _ & Eu1). rewrite Eu0 in Eu1. set (X := x * 2 ^ 64 + y) in *.
  replace (16 * Z.of_nat (n + 4)) with (64 + 16 * Z.of_nat n) in Eu1 by lia.
  rewrite Z.pow_add_r in Eu1 by lia. pose proof (val_bound _ _ _ Du1) as Bu1.
  assert (HX : 0 <= X < z * 2 ^ 64) by (unfold X; wordlia).
  set (W := 2 ^ (16 * Z.of_nat n)) in *.
  assert (HXd : X * 2 ^ d < z * 2 ^ d * 2 ^ 64) by nia.
  assert (EX : val (n + 4) 0 u1 = X * 2 ^ d) by (assert (k = 0) by nia; nia).
  pose proof (udiv_loop_spec n v u1 _ Hn Dv Hvh Du1 EX ltac:(rewrite Ev; exact HXd)) as HL.
  cbv zeta in HL. destruct (for_down 4 _ _) as [u2 q]. destruct HL as (Du2 & Dq & Er & Eq).
  pose proof (remainder_spec n u2 d ltac:(lia) Du2 Hd) as HR.
  cbv zeta in HR. destruct (for_down n _ _) as [u3 ?]. destruct HR as (Du3 & Er3).
  rewrite (pack_val q), (pack_val u3), Er3, Er, Eq, Ev by trivial.
  rewrite Z.div_mul_cancel_r, Z.mul_mod_distr_r, Z.div_mul by lia. reflexivity.
Qed.

(** ** Signed division *)

(** The magnitude that the code computes before it divides. *)
Lemma magnitude x :
  is_octa x ->
  (if truth (x .& MSB 64) then (2, wrap64 (- x)) else (0, x))
  = (if socta x <? 0 then 2 else 0, Z.abs (socta x)).
Proof.
  intros Hx. rewrite truth_msb by trivial. unfold signed. change (64 - 1) with 63.
  unfold is_word in Hx. destruct (Z.ltb_spec x (2 ^ 63)); cbn [negb].
  - destruct (Z.ltb_spec x 0); [lia|]. rewrite Z.abs_eq by lia. reflexivity.
  - destruct (Z.ltb_spec (x - 2 ^ 64) 0); [|lia]. rewrite Z.abs_neq by lia.
    f_equal. unfold wrap. symmetry. apply Z.mod_unique_pos with (-1); lia.
Qed.

Lemma magnitude' x :
  is_octa x ->
  (if truth (x .& MSB 64) then (1, wrap64 (- x)) else (0, x))
  = (if socta x <? 0 then 1 else 0, Z.abs (socta x)).
Proof.
  intros Hx. pose proof (magnitude x Hx) as H. destruct (truth _), (socta x <? 0); congruence.
Qed.

Lemma socta_range x : is_octa x -> - 2 ^ 63 <= socta x < 2 ^ 63.
Proof. apply (signed_range 64); lia. Qed.

Lemma socta_zero x : is_octa x -> (x =? 0) = (socta x =? 0).
Proof.
  intros Hx. unfold signed, is_word in *. change (64 - 1) with 63.
  destruct (Z.ltb_spec x (2 ^ 63)); trivial.
  destruct (Z.eqb_spec x 0), (Z.eqb_spec (x - 2 ^ 64) 0); trivial; lia.
Qed.

(** The quotient and remainder of the magnitudes, adjusted by the signs. *)
Lemma floor_adjust (a b : Z) :
  b <> 0 ->
  let q := Z.abs a / Z.abs b in
  let r := Z.abs a mod Z.abs b in
  a / b = (if Bool.eqb (a <? 0) (b <? 0) then q else if r =? 0 then - q else -1 - q) /\
  a mod b = (if b <? 0 then (if a <? 0 then - r else if r =? 0 then 0 else r - Z.abs b)
             else if a <? 0 then (if r =? 0 then 0 else Z.abs b - r) else r).
Proof.
  intros Hb q r. pose proof (Z.div_mod (Z.abs a) (Z.abs b) ltac:(lia)) as E.
  pose proof (Z.mod_pos_bound (Z.abs a) (Z.abs b) ltac:(lia)) as B.
  fold q r in E, B.
  enough (H : forall s t, a = b * s + t -> (0 <= t < b \/ b < t <= 0) -> a / b = s /\ a mod b = t).
  { destruct (Z.ltb_spec a 0), (Z.ltb_spec b 0); cbn [Bool.eqb];
      try (destruct (Z.eqb_spec r 0)); apply H; nia. }
  intros s t Est Ht. split; symmetry; [apply Z.div_unique with t|apply Z.mod_unique with s]; lia.
Qed.

Lemma int_sdiv_spec x y :
  is_octa x -> is_octa y -> y <> 0 ->
  int_sdiv x y = (wrap64 (socta x / socta y), wrap64 (socta x mod socta y)).
Proof.
  intros Hx Hy Hnz. pose proof (socta_zero y Hy) as Hz. unfold int_sdiv.
  apply Z.eqb_neq in Hnz. rewrite Hnz in *. symmetry in Hz. apply Z.eqb_neq in Hz.
  rewrite magnitude, magnitude' by trivial.
  pose proof (socta_range x Hx). pose proof (socta_range y Hy).
  set (a := socta x) in *. set (b := socta y) in *.
  rewrite int_udiv_spec by (unfold is_word; lia). rewrite Z.mul_0_l, Z.add_0_l.
  destruct (floor_adjust a b Hz) as [Eq Er]. rewrite Eq, Er. clear Eq Er.
  pose proof (Z.mod_pos_bound (Z.abs a) (Z.abs b) ltac:(lia)).
  assert (0 <= Z.abs a / Z.abs b <= Z.abs a).
  { split; [apply Z.div_pos; lia|apply Z.div_le_upper_bound; nia]. }
  set (q := Z.abs a / Z.abs b) in *. set (r := Z.abs a mod Z.abs b) in *.
  unfold truth. destruct (a <? 0), (b <? 0); cbn [Z.add Pos.add Pos.succ Bool.eqb];
    destruct (Z.eqb_spec r 0) as [->|Hr]; cbn [negb Z.eqb Z.opp];
    rewrite ?(proj2 (Z.eqb_neq _ 0)) by (unfold wrap; dmlia); cbn [negb];
    rewrite ?(wrap_small 64 q), ?(wrap_small 64 r), ?(wrap_small 64 0) by (unfold is_word; lia);
    reflexivity.
Qed.

(** ** Shifts *)

Lemma int_shiftLeft_spec y z :
  is_octa y -> 0 <= z -> int_shiftLeft y z = wrap64 (y * 2 ^ z).
Proof.
  intros Hy Hz. unfold int_shiftLeft. destruct (Z.ltb_spec 63 z); [|apply shl_mul; lia].
  unfold wrap. replace z with (64 + (z - 64)) by lia. rewrite Z.pow_add_r by lia.
  replace (y * (2 ^ 64 * 2 ^ (z - 64))) with (y * 2 ^ (z - 64) * 2 ^ 64) by ring.
  rewrite Z.mod_mul by lia. reflexivity.
Qed.

Lemma int_shiftRightLog_spec y z :
  is_octa y -> 0 <= z -> int_shiftRightLog y z = y / 2 ^ z.
Proof.
  intros Hy Hz. unfold int_shiftRightLog. destruct (Z.ltb_spec 63 z); [|apply shiftr_div; lia].
  symmetry. apply Z.div_small. pose proof (Z.pow_le_mono_r 2 64 z). wordlia.
Qed.

Lemma int_shiftRightArith_spec y z :
  is_octa y -> 0 <= z -> int_shiftRightArith y z = wrap64 (socta y / 2 ^ z).
Proof.
  intros Hy Hz. unfold int_shiftRightArith.
  destruct (Z.ltb_spec 63 z); [|rewrite shiftr_div by lia; reflexivity].
  rewrite truth_msb by trivial. pose proof (Z.pow_le_mono_r 2 64 z ltac:(lia) ltac:(lia)).
  unfold signed, is_word in *. change (64 - 1) with 63.
  destruct (Z.ltb_spec y (2 ^ 63)); cbn [negb]; f_equal.
  - rewrite Z.div_small by lia. reflexivity.
  - apply Z.div_unique with (y - 2 ^ 64 + 2 ^ z); lia.
Qed.

(** ** Properties *)

(** the product of two octas is exact: the result is its low octa and [aux] its
    high octa. *)
Theorem umult_exact x y :
  is_octa x -> is_octa y ->
  int_umult x y = ((x * y) mod 2 ^ 64, (x * y) / 2 ^ 64).
Proof.
  intros Hx Hy. pose proof (int_umult_spec x y Hx Hy) as H.
  destruct (int_umult x y) as [res aux]. destruct H as (Hr & Ha & <-).
  rewrite (Z.mul_comm (2 ^ 64)), Z.mod_add, Z.div_add, Z.mod_small, Z.div_small by wordlia.
  reflexivity.
Qed.

(** C18: the division of the octa pair [(x, y)] by [z] (Knuth's Algorithm D on wydes)
    gives the quotient and the remainder if the quotient fits into an octa, and
    returns [(x, y)] unchanged otherwise, in particular for [z = 0]. *)
Theorem udiv_exact x y z :
  is_octa x -> is_octa y -> is_octa z ->
  int_udiv x y z = if x <? z then ((x * 2 ^ 64 + y) / z, (x * 2 ^ 64 + y) mod z) else (x, y).
Proof.
  intros Hx Hy Hz. destruct (Z.ltb_spec x z); [apply int_udiv_spec|apply int_udiv_trivial]; trivial.
Qed.

Lemma udiv_exact_witness :
  int_udiv 0x123456789ABCDEF 0xFEDCBA9876543210 0x8000000000000001
  = (163971058432973791, 8977415449205315121).
Proof.
  rewrite (udiv_exact 0x123456789ABCDEF 0xFEDCBA9876543210 0x8000000000000001); [|wordlia..].
  reflexivity.
Defined.

(** the signed division rounds towards minus infinity: the quotient is the floor
    of the exact quotient and the remainder has the sign of the divisor; a zero
    divisor gives the quotient 0 and the dividend as remainder. *)
Theorem sdiv_floors x y :
  is_octa x -> is_octa y ->
  int_sdiv x y =
    if y =? 0 then (0, x) else (wrap64 (socta x / socta y), wrap64 (socta x mod socta y)).
Proof.
  intros Hx Hy. destruct (Z.eqb_spec y 0) as [->|]; [reflexivity|].
  apply int_sdiv_spec; trivial.
Qed.

(** the shift routines are multiplication and flooring division by powers of two,
    for every shift count, including those beyond the width. *)
Theorem shifts_exact y z :
  is_octa y -> is_octa z ->
  int_shiftLeft y z = wrap64 (y * 2 ^ z) /\
  int_shiftRightLog y z = y / 2 ^ z /\
  int_shiftRightArith y z = wrap64 (socta y / 2 ^ z).
Proof.
  intros Hy Hz. assert (0 <= z) by wordlia.
  rewrite int_shiftLeft_spec, int_shiftRightLog_spec, int_shiftRightArith_spec by trivial. auto.
Qed.

