(* ===== verification/Ram.v ===== *)
(** * The RAM device's memory (gimmix/src/dev/ram.c)

    The physical memory is a treap of 2048-byte nodes.  A pointer to a node is the
    node's [addr], which identifies it; a pointer to a tetra is the node and the
    index into its buffer. *)

From Stdlib Require Import ZArith Lia Bool.
From stdpp Require Import base list numbers option.
From S2P Require Import Prelude.

Abbreviation MEMNODE_SIZE := 2048.

(** ** The code *)

Inductive sMemNode :=
| NULL
| MemNode (addr priority : Z) (buffer : arr) (left right : sMemNode).

Record ram_state := mk_ram_state {
  ram_root : sMemNode;
  ram_last : option Z;
  ram_priority : Z
}.

(** A pointer to a tetra of a node's buffer. *)
Definition tetra_ptr : Type := Z * Z.

(** [ram_createNode] takes the next priority; its buffer is zeroed by [mem_calloc]. *)
Definition ram_createNode (priority : Z) : (sMemNode -> sMemNode -> Z -> sMemNode) * Z :=
  (fun l r addr => MemNode addr priority (fun _ => 0) l r, wrap32 (priority + 0x9e3779b9)).

(** The search loop: is there a node with that key? *)
Fixpoint ram_search (key : Z) (p : sMemNode) : bool :=
  match p with
  | NULL => false
  | MemNode a _ _ l r =>
    if a =? key then true else if key <? a then ram_search key l else ram_search key r
  end.

(** The loop that splits the subtree [p] into the nodes below and above the key. *)
Fixpoint ram_split (key : Z) (p : sMemNode) : sMemNode * sMemNode :=
  match p with
  | NULL => (NULL, NULL)
  | MemNode a pr b l r =>
    if key <? a then
      let '(l1, l2) := ram_split key l in (l1, MemNode a pr b l2 r)
    else
      let '(r1, r2) := ram_split key r in (MemNode a pr b l r1, r2)
  end.

(** The loop that finds the place for a new node, by priority. *)
Fixpoint ram_insert (key priority : Z) (p : sMemNode) : sMemNode :=
  let place :=
    let '(l, r) := ram_split key p in fst (ram_createNode priority) l r key in
  match p with
  | NULL => place
  | MemNode a pr b l r =>
    if pr <? priority then
      if key <? a then MemNode a pr b (ram_insert key priority l) r
      else MemNode a pr b l (ram_insert key priority r)
    else place
  end.

Definition ram_find (addr : Z) (s : ram_state) : tetra_ptr * ram_state :=
  let key := addr .& not64 (MEMNODE_SIZE - 1) in
  let offset := addr .& (MEMNODE_SIZE - 1) in
  match ram_last s with
  | None =>
    let '(node, priority) := ram_createNode (ram_priority s) in
    ((addr, offset / 4), mk_ram_state (node NULL NULL addr) (Some addr) priority)
  | Some p =>
    if negb (p =? key) then
      if ram_search key (ram_root s) then
        ((key, offset / 4), mk_ram_state (ram_root s) (Some key) (ram_priority s))
      else
        ((key, offset / 4),
         mk_ram_state (ram_insert key (ram_priority s) (ram_root s)) (Some key)
                      (snd (ram_createNode (ram_priority s))))
    else ((p, offset / 4), s)
  end.

(** [*m] and [*m = v] of a pointer [m] that [ram_find] returned. *)
Fixpoint ram_deref (p : sMemNode) (m : tetra_ptr) : Z :=
  match p with
  | NULL => 0
  | MemNode a _ b l r =>
    if a =? fst m then b (snd m)
    else if fst m <? a then ram_deref l m else ram_deref r m
  end.

Fixpoint ram_assign (p : sMemNode) (m : tetra_ptr) (v : Z) : sMemNode :=
  match p with
  | NULL => NULL
  | MemNode a pr b l r =>
    if a =? fst m then MemNode a pr (upd b (snd m) v) l r
    else if fst m <? a then MemNode a pr b (ram_assign l m v) r
    else MemNode a pr b l (ram_assign r m v)
  end.

Definition ram_store (m : tetra_ptr) (v : Z) (s : ram_state) : ram_state :=
  mk_ram_state (ram_assign (ram_root s) m v) (ram_last s) (ram_priority s).

(** [ram_read] and [ram_write] for an address in the configured memory. *)
Definition ram_doRead (addr : Z) (s : ram_state) : Z * ram_state :=
  let '(m, s) := ram_find addr s in
  let value := shl64 (ram_deref (ram_root s) m) 32 in
  let '(m, s) := ram_find (addr +o 4) s in
  (value .| ram_deref (ram_root s) m, s).

Definition ram_doWrite (addr value : Z) (s : ram_state) : ram_state :=
  let '(m, s) := ram_find addr s in
  let s := ram_store m (value .>> 32) s in
  let '(m, s) := ram_find (addr +o 4) s in
  ram_store m (value .& 0xFFFFFFFF) s.

(** [ram_reset] without a program file. *)
Definition ram_reset_state : ram_state := mk_ram_state NULL None 314159265.

(** ** The treap invariant *)

Fixpoint keys (p : sMemNode) : Z -> Prop :=
  match p with
  | NULL => fun _ => False
  | MemNode a _ _ l r => fun k => k = a \/ keys l k \/ keys r k
  end.

Definition heap_above (pr : Z) (p : sMemNode) : Prop :=
  match p with
  | NULL => True
  | MemNode _ pr' _ _ _ => pr <= pr'
  end.

(** Binary search tree on [addr], min-heap on [priority]. *)
Fixpoint treap (p : sMemNode) : Prop :=
  match p with
  | NULL => True
  | MemNode a pr _ l r =>
    (forall k, keys l k -> k < a) /\ (forall k, keys r k -> a < k) /\
    heap_above pr l /\ heap_above pr r /\ treap l /\ treap r
  end.

Lemma ram_search_spec key p : treap p -> ram_search key p = true <-> keys p key.
Proof.
  induction p as [|a pr b l IHl r IHr]; cbn [ram_search keys treap].
  - intros _; split; [discriminate|tauto].
  - intros (Hl & Hr & _ & _ & Tl & Tr). specialize (IHl Tl). specialize (IHr Tr).
    destruct (Z.eqb_spec a key) as [->|]; [tauto|].
    destruct (Z.ltb_spec key a) as [Hk|Hk].
    + rewrite IHl. split; [tauto|]. intros [?|[?|K]]; [lia|trivial|]. apply Hr in K; lia.
    + rewrite IHr. split; [tauto|]. intros [?|[K|?]]; [lia| |trivial]. apply Hl in K; lia.
Qed.

Lemma ram_deref_absent p m : treap p -> ~ keys p (fst m) -> ram_deref p m = 0.
Proof.
  induction p as [|a pr b l IHl r IHr]; cbn [ram_deref keys treap]; trivial.
  intros (_ & _ & _ & _ & Tl & Tr) Hk. destruct (Z.eqb_spec a (fst m)); [lia|].
  destruct (fst m <? a); [apply IHl|apply IHr]; tauto.
Qed.

(** What the splitting loop establishes. *)
Record split_of (key pr : Z) (p l r : sMemNode) : Prop := {
  sp_l : treap l; sp_r : treap r;
  sp_kl : forall k, keys l k <-> keys p k /\ k < key;
  sp_kr : forall k, keys r k <-> keys p k /\ key < k;
  sp_hl : heap_above pr l; sp_hr : heap_above pr r;
  sp_deref : forall m, ram_deref p m =
               if fst m <? key then ram_deref l m
               else if key <? fst m then ram_deref r m else 0
}.

Lemma heap_above_mono pr pr' p : pr <= pr' -> heap_above pr' p -> heap_above pr p.
Proof. destruct p; cbn; lia. Qed.

Lemma ram_split_spec key pr p :
  treap p -> ~ keys p key -> heap_above pr p ->
  split_of key pr p (fst (ram_split key p)) (snd (ram_split key p)).
Proof.
  revert pr; induction p as [|a pa b l IHl r IHr]; cbn [ram_split]; intros pr T NK H.
  - constructor; cbn; try tauto. intros m; repeat case_match; trivial.
  - cbn [treap keys heap_above] in *. destruct T as (Hl & Hr & Ha & Hb & Tl & Tr).
    assert (NKl : ~ keys l key) by tauto. assert (NKr : ~ keys r key) by tauto.
    destruct (Z.ltb_spec key a) as [Hk|Hk].
    + destruct (IHl pa Tl NKl Ha) as [? ? Kl Kr ? ? D].
      destruct (ram_split key l) as [l1 l2]; cbn [fst snd] in *.
      constructor; cbn [treap keys heap_above ram_deref]; trivial.
      * csplit; trivial. intros k K; apply Kr in K as [K ?]; auto.
      * intros k; rewrite Kl. split; [tauto|]. intros [[->|[?|K]] ?]; [lia|tauto|].
        apply Hr in K; lia.
      * intros k; rewrite Kr. split; [|tauto]. intros [->|[[? ?]|K]]; [split; [tauto|lia]|tauto|].
        split; [tauto|]. apply Hr in K; lia.
      * eapply heap_above_mono; [|eassumption]; lia.
      * intros m. rewrite D. destruct (Z.ltb_spec (fst m) key), (Z.ltb_spec key (fst m)),
          (Z.eqb_spec a (fst m)), (Z.ltb_spec (fst m) a); trivial; lia.
    + assert (a <> key) by (intros ->; tauto). destruct (IHr pa Tr NKr Hb) as [? ? Kl Kr ? ? D].
      destruct (ram_split key r) as [r1 r2]; cbn [fst snd] in *.
      constructor; cbn [treap keys heap_above ram_deref]; trivial.
      * csplit; trivial. intros k K; apply Kl in K as [K ?]; auto.
      * intros k; rewrite Kl. split; [|tauto]. intros [->|[K|[? ?]]]; [split; [tauto|lia]| |tauto].
        split; [tauto|]. apply Hl in K; lia.
      * intros k; rewrite Kr. split; [tauto|]. intros [[->|[K|?]] ?]; [lia| |tauto].
        apply Hl in K; lia.
      * eapply heap_above_mono; [|eassumption]; lia.
      * intros m. rewrite D. destruct (Z.ltb_spec (fst m) key), (Z.ltb_spec key (fst m)),
          (Z.eqb_spec a (fst m)), (Z.ltb_spec (fst m) a); trivial; lia.
Qed.

(** Inserting a key that is not there keeps the treap and every tetra. *)
Record insert_of (key prio : Z) (p q : sMemNode) : Prop := {
  in_treap : treap q;
  in_keys : forall k, keys q k <-> keys p k \/ k = key;
  in_heap : forall h, heap_above h p -> h <= prio -> heap_above h q;
  in_deref : forall m, ram_deref q m = ram_deref p m
}.

Lemma ram_place_spec key prio p :
  treap p -> ~ keys p key -> heap_above prio p ->
  insert_of key prio p
    (let '(l, r) := ram_split key p in fst (ram_createNode prio) l r key).
Proof.
  intros T NK H. destruct (ram_split_spec key prio p T NK H) as [? ? Kl Kr ? ? D].
  destruct (ram_split key p) as [l r]; cbn [fst snd ram_createNode] in *.
  constructor; cbn [treap keys heap_above ram_deref]; trivial.
  - csplit; trivial; intros k K; [apply Kl in K|apply Kr in K]; tauto.
  - intros k. rewrite Kl, Kr. destruct (Z.lt_trichotomy k key) as [?|[->|?]]; intuition lia.
  - intros m. rewrite D. destruct (Z.eqb_spec key (fst m)) as [E|].
    + rewrite E, Z.ltb_irrefl. reflexivity.
    + destruct (Z.ltb_spec (fst m) key), (Z.ltb_spec key (fst m)); trivial; lia.
Qed.

Lemma ram_insert_spec key prio p :
  treap p -> ~ keys p key -> insert_of key prio p (ram_insert key prio p).
Proof.
  induction p as [|a pa b l IHl r IHr]; intros T NK.
  - apply (ram_place_spec key prio NULL); cbn; tauto.
  - cbn [ram_insert]. destruct (Z.ltb_spec pa prio) as [Hp|Hp].
    2: { apply ram_place_spec; trivial. }
    cbn [treap keys] in *. destruct T as (Hl & Hr & Ha & Hb & Tl & Tr).
    destruct (Z.ltb_spec key a) as [Hk|Hk].
    + destruct (IHl Tl ltac:(tauto)) as [? K Hh D].
      constructor; cbn [treap keys heap_above ram_deref]; trivial.
      * csplit; trivial; [|apply Hh; [trivial|lia]].
        intros k Kk; apply K in Kk as [?| ->]; auto.
      * intros k. rewrite K. tauto.
      * intros m. rewrite D. reflexivity.
    + assert (a <> key) by (intros ->; tauto).
      destruct (IHr Tr ltac:(tauto)) as [? K Hh D].
      constructor; cbn [treap keys heap_above ram_deref]; trivial.
      * csplit; trivial; [|apply Hh; [trivial|lia]].
        intros k Kk; apply K in Kk as [?| ->]; [auto|lia].
      * intros k. rewrite K. tauto.
      * intros m. rewrite D. reflexivity.
Qed.

(** Assigning a tetra of a node that is there. *)
Lemma ram_assign_keys p m v k : keys (ram_assign p m v) k <-> keys p k.
Proof.
  induction p as [|a pr b l IHl r IHr]; cbn [ram_assign keys]; [tauto|].
  destruct (a =? fst m); [|destruct (fst m <? a)]; cbn [keys]; tauto.
Qed.

Lemma ram_assign_heap h p m v : heap_above h (ram_assign p m v) <-> heap_above h p.
Proof. destruct p; cbn [ram_assign heap_above]; repeat case_match; tauto. Qed.

Lemma ram_assign_treap p m v : treap p -> treap (ram_assign p m v).
Proof.
  induction p as [|a pr b l IHl r IHr]; cbn [ram_assign treap]; trivial.
  intros (Hl & Hr & Ha & Hb & Tl & Tr).
  destruct (a =? fst m); [|destruct (fst m <? a)]; cbn [treap]; csplit; auto;
    try (apply ram_assign_heap; trivial); intros k K; apply ram_assign_keys in K; auto.
Qed.

Lemma ram_deref_assign p m v m' :
  treap p -> keys p (fst m) ->
  ram_deref (ram_assign p m v) m' = if decide (m' = m) then v else ram_deref p m'.
Proof.
  destruct m as [k i], m' as [k' i']. cbn [fst].
  induction p as [|a pr b l IHl r IHr]; cbn [ram_assign ram_deref treap keys fst snd]; [tauto|].
  intros (Hl & Hr & _ & _ & Tl & Tr) K.
  destruct (Z.eqb_spec a k) as [->|Hak]; cbn [ram_deref fst snd].
  - destruct (Z.eqb_spec k k') as [->|]; [|rewrite decide_False by congruence; reflexivity].
    unfold upd. destruct (Z.eqb_spec i' i) as [->|].
    + rewrite decide_True by trivial. reflexivity.
    + rewrite decide_False by congruence. reflexivity.
  - destruct (Z.ltb_spec k a) as [Hk|Hk]; cbn [ram_deref fst snd].
    + assert (keys l k) by (destruct K as [?|[?|K]]; [lia|trivial|apply Hr in K; lia]).
      rewrite (IHl Tl ltac:(trivial)).
      destruct (Z.eqb_spec a k'); [rewrite decide_False by congruence; reflexivity|].
      destruct (Z.ltb_spec k' a); trivial. rewrite decide_False; [trivial|]. intros [=]; lia.
    + assert (keys r k) by (destruct K as [?|[K|?]]; [lia|apply Hl in K; lia|trivial]).
      rewrite (IHr Tr ltac:(trivial)).
      destruct (Z.eqb_spec a k'); [rewrite decide_False by congruence; reflexivity|].
      destruct (Z.ltb_spec k' a); trivial. rewrite decide_False; [trivial|]. intros [=]; lia.
Qed.

(** ** RAM as a flat memory *)

Definition ptr_of (a : Z) : tetra_ptr :=
  (a .& not64 (MEMNODE_SIZE - 1), (a .& (MEMNODE_SIZE - 1)) / 4).

Definition ram_tetra (s : ram_state) (a : Z) : Z := ram_deref (ram_root s) (ptr_of a).

(** The octa at an octa-aligned address, most significant tetra first. *)
Definition ram_octa (s : ram_state) (a : Z) : Z :=
  ram_tetra s a * 2 ^ 32 + ram_tetra s (a + 4).

(** Every node starts at a multiple of the node size; the nodes hold tetras. *)
Record wf_ram (s : ram_state) : Prop := {
  wr_treap : treap (ram_root s);
  wr_last : match ram_last s with
            | None => ram_root s = NULL
            | Some a => keys (ram_root s) a
            end;
  wr_keys : forall k, keys (ram_root s) k -> k .& not64 (MEMNODE_SIZE - 1) = k;
  wr_tetra : forall m, is_tetra (ram_deref (ram_root s) m)
}.

(** The first node is created for the address of the first access. *)
Definition first_ok (s : ram_state) (a : Z) : Prop :=
  ram_last s = None -> a .& (MEMNODE_SIZE - 1) = 0.

Lemma node_mask a : is_octa a ->
  a .& not64 (MEMNODE_SIZE - 1) = a - a mod 2048 /\ a .& (MEMNODE_SIZE - 1) = a mod 2048.
Proof.
  intros Ha. split; [|apply (land_mask_eq a 11); [lia|reflexivity]].
  rewrite (land_not_mask 64 11) by (trivial; lia). reflexivity.
Qed.

Lemma ptr_of_eq a : is_octa a -> ptr_of a = (a - a mod 2048, a mod 2048 / 4).
Proof. intros Ha. unfold ptr_of. destruct (node_mask a Ha) as [-> ->]. reflexivity. Qed.

Lemma ptr_of_inj a b :
  is_octa a -> is_octa b -> a mod 4 = 0 -> b mod 4 = 0 -> ptr_of a = ptr_of b -> a = b.
Proof. intros Ha Hb ? ?. rewrite !ptr_of_eq by trivial. intros [= ? ?]. dmlia. Qed.

Lemma decide_ptr {A} a b (x y : A) :
  is_octa a -> is_octa b -> a mod 4 = 0 -> b mod 4 = 0 ->
  (if decide (ptr_of a = ptr_of b) then x else y) = if a =? b then x else y.
Proof.
  intros ? ? ? ?. destruct (Z.eqb_spec a b) as [->|]; [rewrite decide_True; trivial|].
  rewrite decide_False; [trivial|]. intros E; apply ptr_of_inj in E; auto.
Qed.

Lemma ram_find_spec a s :
  wf_ram s -> is_octa a -> first_ok s a ->
  let '(m, s') := ram_find a s in
  m = ptr_of a /\ wf_ram s' /\ keys (ram_root s') (fst m) /\
  (ram_last s' <> None) /\ (forall m', ram_deref (ram_root s') m' = ram_deref (ram_root s) m').
Proof.
  intros [T Hlast Hk Ht] Ha Hf. destruct (node_mask a Ha) as [E1 E2].
  unfold ram_find, ptr_of, first_ok in *.
  assert (Hkk : (a .& not64 (MEMNODE_SIZE - 1)) .& not64 (MEMNODE_SIZE - 1)
                = a .& not64 (MEMNODE_SIZE - 1)) by (rewrite <- Z.land_assoc, Z.land_diag; trivial).
  destruct (ram_last s) as [p|] eqn:El.
  - destruct (Z.eqb_spec p (a .& not64 (MEMNODE_SIZE - 1))) as [->|]; cbn [negb].
    + csplit; trivial; [constructor; rewrite ?El; trivial|congruence].
    + pose proof (ram_search_spec (a .& not64 (MEMNODE_SIZE - 1)) _ T) as Hs.
      destruct (ram_search _ _); cbn [ram_root ram_last fst]; csplit; trivial; try congruence.
      * constructor; cbn [ram_root ram_last]; trivial. apply Hs; trivial.
      * apply Hs; trivial.
      * destruct (ram_insert_spec (a .& not64 (MEMNODE_SIZE - 1)) (ram_priority s) _ T)
          as [? K _ D]; [intros K; apply Hs in K; discriminate|].
        constructor; cbn [ram_root ram_last]; trivial; [apply K; tauto| |intros m; rewrite D; trivial].
        intros k Kk; apply K in Kk as [?| ->]; auto.
      * apply ram_insert_spec; [trivial| |tauto]. intros K; apply Hs in K; discriminate.
      * apply ram_insert_spec; [trivial|]. intros K; apply Hs in K; discriminate.
  - specialize (Hf eq_refl). rewrite Hf in E2.
    assert (Ea : a .& not64 (MEMNODE_SIZE - 1) = a) by lia.
    cbn [ram_createNode ram_root ram_last fst]. rewrite Ea, Hlast in *.
    csplit; trivial; try congruence; [|cbn; tauto|].
    + constructor; cbn; csplit; trivial; try tauto.
      * intros k [->|[[]|[]]]. congruence.
      * intros m. repeat case_match; cbn; wordlia.
    + intros m'. cbn. repeat case_match; trivial.
Qed.

Lemma ram_store_spec m v s :
  wf_ram s -> is_tetra v -> keys (ram_root s) (fst m) ->
  wf_ram (ram_store m v s) /\ ram_last (ram_store m v s) = ram_last s /\
  (forall m', ram_deref (ram_root (ram_store m v s)) m' =
              if decide (m' = m) then v else ram_deref (ram_root s) m').
Proof.
  intros [T Hlast Hk Ht] Hv Km. unfold ram_store; cbn [ram_root ram_last].
  assert (D : forall m', ram_deref (ram_assign (ram_root s) m v) m' =
                         if decide (m' = m) then v else ram_deref (ram_root s) m')
    by (intros; apply ram_deref_assign; trivial).
  csplit; trivial. constructor; cbn [ram_root ram_last].
  - apply ram_assign_treap; trivial.
  - destruct (ram_last s); [apply ram_assign_keys; trivial|rewrite Hlast; reflexivity].
  - intros k K; apply ram_assign_keys in K; auto.
  - intros m'. rewrite D. case_decide; trivial.
Qed.

(** An octa-aligned address whose octa lies in the address space. *)
Definition octa_addr (a : Z) : Prop := is_octa a /\ a mod 8 = 0.

Lemma octa_addr_next a : octa_addr a -> a +o 4 = a + 4 /\ is_octa (a + 4).
Proof. intros [H ?]. assert (a + 4 < 2 ^ 64) by dmlia. split; [apply wrap_small|]; wordlia. Qed.

Lemma ram_doRead_spec a s :
  wf_ram s -> octa_addr a -> first_ok s a ->
  let '(v, s') := ram_doRead a s in
  v = ram_octa s a /\ wf_ram s' /\ (forall b, ram_octa s' b = ram_octa s b) /\
  ram_last s' <> None.
Proof.
  intros W Ha Hf. unfold ram_doRead. destruct (octa_addr_next a Ha) as [-> Ha4].
  pose proof (ram_find_spec a s W (proj1 Ha) Hf) as H1.
  destruct (ram_find a s) as [m1 s1]. destruct H1 as (-> & W1 & K1 & L1 & D1).
  pose proof (ram_find_spec (a + 4) s1 W1 Ha4 ltac:(intros ?; contradiction)) as H2.
  destruct (ram_find (a + 4) s1) as [m2 s2]. destruct H2 as (-> & W2 & K2 & L2 & D2).
  unfold ram_octa, ram_tetra. rewrite D2, !D1.
  pose proof (wr_tetra s W (ptr_of a)). pose proof (wr_tetra s W (ptr_of (a + 4))).
  csplit; trivial; [|intros; rewrite !D2, !D1; trivial].
  rewrite shl_exact by wordlia. apply lor_disjoint; [lia|wordlia].
Qed.

Lemma ram_doWrite_spec a v s :
  wf_ram s -> octa_addr a -> is_octa v -> first_ok s a ->
  let s' := ram_doWrite a v s in
  wf_ram s' /\ ram_last s' <> None /\
  (forall b, octa_addr b -> ram_octa s' b = if b =? a then v else ram_octa s b).
Proof.
  intros W Ha Hv Hf. unfold ram_doWrite. destruct (octa_addr_next a Ha) as [-> Ha4].
  pose proof (ram_find_spec a s W (proj1 Ha) Hf) as H1.
  destruct (ram_find a s) as [m1 s1]. destruct H1 as (-> & W1 & K1 & L1 & D1).
  assert (V1 : is_tetra (v .>> 32)) by (rewrite shiftr_div by lia; dmlia).
  assert (V2 : is_tetra (v .& 0xFFFFFFFF)) by (rewrite (land_mask_eq v 32) by lia; dmlia).
  destruct (ram_store_spec (ptr_of a) _ s1 W1 V1 K1) as (W1' & L1' & D1').
  set (s1' := ram_store (ptr_of a) (v .>> 32) s1) in *.
  pose proof (ram_find_spec (a + 4) s1' W1' Ha4 ltac:(unfold first_ok; congruence)) as H2.
  destruct (ram_find (a + 4) s1') as [m2 s2]. destruct H2 as (-> & W2 & K2 & L2 & D2).
  destruct (ram_store_spec (ptr_of (a + 4)) _ s2 W2 V2 K2) as (W2' & L2' & D2').
  csplit; [trivial|congruence|]. intros b Hb.
  unfold ram_octa, ram_tetra. destruct (octa_addr_next b Hb) as [_ Hb4].
  destruct Ha as [Ha Ha8], Hb as [Hb Hb8].
  rewrite !D2', !D2, !D1', !D1, !decide_ptr by (trivial; dmlia).
  replace (b =? a + 4) with false by (symmetry; apply Z.eqb_neq; dmlia).
  replace (b + 4 =? a) with false by (symmetry; apply Z.eqb_neq; dmlia).
  destruct (Z.eqb_spec b a) as [->|].
  - rewrite Z.eqb_refl, shiftr_div, (land_mask_eq v 32) by lia.
    pose proof (Z.div_mod v (2 ^ 32)). lia.
  - replace (b + 4 =? a + 4) with false by (symmetry; apply Z.eqb_neq; lia). reflexivity.
Qed.

Lemma wf_ram_reset : wf_ram ram_reset_state.
Proof. constructor; cbn; trivial; try tauto. intros; wordlia. Qed.

(** ** A sequence of accesses *)

(** The octa that the last of the writes [ws] put at [a]; memory starts zeroed. *)
Fixpoint last_write (ws : list (Z * Z)) (a : Z) : Z :=
  match ws with
  | [] => 0
  | (b, v) :: ws => if existsb (fun w => fst w =? a) ws then last_write ws a
                    else if a =? b then v else 0
  end.

Definition ram_writes (ws : list (Z * Z)) (s : ram_state) : ram_state :=
  foldl (fun s w => ram_doWrite (fst w) (snd w) s) s ws.

Definition good_write (w : Z * Z) : Prop := octa_addr (fst w) /\ is_octa (snd w).

Lemma ram_writes_spec ws s a :
  Forall good_write ws -> wf_ram s -> ram_last s <> None -> octa_addr a ->
  wf_ram (ram_writes ws s) /\ ram_last (ram_writes ws s) <> None /\
  ram_octa (ram_writes ws s) a =
    if existsb (fun w => fst w =? a) ws then last_write ws a else ram_octa s a.
Proof.
  intros Hg. revert s; induction Hg as [|[b v] ws [Hb Hv] _ IH]; intros s W L Ha; [auto|].
  cbn [ram_writes foldl fst snd existsb last_write].
  destruct (ram_doWrite_spec b v s W Hb Hv) as (W' & L' & R); [intros N; contradiction|].
  destruct (IH _ W' L' Ha) as (W'' & L'' & R'').
  change (foldl _ _ ws) with (ram_writes ws (ram_doWrite b v s)).
  split; [trivial|]. split; [trivial|]. rewrite R'', (R a Ha), (Z.eqb_sym a b). cbn [fst].
  destruct (existsb _ ws), (b =? a); reflexivity.
Qed.

(** C23: RAM is a flat memory.  After any sequence of writes of octas to octa-aligned
    addresses, the first of which goes to the start of a node, a read returns the
    last value written to its address, and 0 if there is none; the tree of nodes is
    a binary search tree on the addresses and a heap on the priorities throughout. *)
Theorem ram_is_flat b v ws a :
  Forall good_write ((b, v) :: ws) -> b mod MEMNODE_SIZE = 0 -> octa_addr a ->
  let s := ram_writes ((b, v) :: ws) ram_reset_state in
  treap (ram_root s) /\ fst (ram_doRead a s) = last_write ((b, v) :: ws) a.
Proof.
  intros Hg Hb Ha. apply Forall_cons_1 in Hg as [[Hb8 Hv] Hg]. cbn [fst snd] in Hb8, Hv.
  destruct (ram_doWrite_spec b v ram_reset_state wf_ram_reset Hb8 Hv) as (W & L & R).
  { intros _. rewrite (proj2 (node_mask b (proj1 Hb8))). trivial. }
  destruct (ram_writes_spec ws _ a Hg W L Ha) as (W' & L' & R').
  intros s. change s with (ram_writes ws (ram_doWrite b v ram_reset_state)).
  split; [apply wr_treap; trivial|].
  pose proof (ram_doRead_spec a _ W' Ha ltac:(intros ?; contradiction)) as H.
  destruct (ram_doRead a _) as [x s']. destruct H as (-> & _). cbn [fst last_write].
  rewrite R', (R a Ha). destruct (existsb _ ws), (a =? b); reflexivity.
Qed.

Lemma ram_is_flat_witness :
  let s := ram_writes [(2048, 5); (8, 2 ^ 63); (8, 7)] ram_reset_state in
  treap (ram_root s) /\ fst (ram_doRead 8 s) = 7.
Proof.
  destruct (ram_is_flat 2048 5 [(8, 2 ^ 63); (8, 7)] 8) as [T E].
  - repeat constructor; unfold good_write, octa_addr; cbn [fst snd]; csplit; vm_compute; congruence.
  - reflexivity.
  - split; [concrete_word|reflexivity].
  - exact (conj T E).
Defined.


(** The lost high tetra: the first node is filed under the address of the access, and
    no later search for the node's start finds it. *)
Lemma ram_first_find a s :
  ram_last s = None ->
  ram_find a s = ((a, (a .& (MEMNODE_SIZE - 1)) / 4),
    mk_ram_state (MemNode a (ram_priority s) (fun _ => 0) NULL NULL) (Some a)
                 (wrap32 (ram_priority s + 0x9e3779b9))).
Proof. intros E. unfold ram_find. rewrite E. reflexivity. Qed.

Lemma ram_find_last a s k :
  ram_last s = Some k -> a .& not64 (MEMNODE_SIZE - 1) = k -> ram_find a s = (ptr_of a, s).
Proof.
  intros E K. unfold ram_find, ptr_of. rewrite E, K, Z.eqb_refl. cbn [negb]. reflexivity.
Qed.

Lemma ram_find_new a s k :
  ram_last s = Some k -> a .& not64 (MEMNODE_SIZE - 1) <> k ->
  ram_search (a .& not64 (MEMNODE_SIZE - 1)) (ram_root s) = false ->
  ram_find a s = (ptr_of a,
    mk_ram_state (ram_insert (fst (ptr_of a)) (ram_priority s) (ram_root s))
                 (Some (fst (ptr_of a))) (snd (ram_createNode (ram_priority s)))).
Proof.
  intros E K S. unfold ram_find. rewrite E, S. apply not_eq_sym, Z.eqb_neq in K. rewrite K. reflexivity.
Qed.

(** the first access to RAM must be to the start of a node: when the first write
    goes to another octa of a node, its high tetra is lost, because the first node is
    filed under the address itself. *)
Theorem ram_first_write_lost a v :
  octa_addr a -> a mod MEMNODE_SIZE <> 0 -> is_octa v ->
  fst (ram_doRead a (ram_doWrite a v ram_reset_state)) = v mod 2 ^ 32.
Proof.
  intros Ha Hm Hv. unfold ram_doWrite. destruct (octa_addr_next a Ha) as [E4 Ha4].
  rewrite ram_first_find, E4 by reflexivity. destruct (node_mask a (proj1 Ha)) as [K _].
  destruct (node_mask (a + 4) Ha4) as [K4 _].
  assert (Kn : a + 4 - (a + 4) mod 2048 = a - a mod 2048) by (destruct Ha; dmlia).
  rewrite Kn in K4. set (s1 := ram_store _ _ _). set (k := a - a mod 2048) in *.
  assert (T : treap (ram_root s1)) by (apply ram_assign_treap; cbn; tauto).
  assert (N : ~ keys (ram_root s1) k) by (intros H; apply ram_assign_keys in H; cbn in H; lia).
  rewrite (ram_find_new (a + 4) s1 a); [|reflexivity|lia|].
  2: { rewrite K4. apply not_true_iff_false. intros H. apply ram_search_spec in H; auto. }
  cbn [fst ptr_of]. rewrite K4. destruct (ram_insert_spec k (ram_priority s1) _ T N) as [T2 K2 _ D2].
  set (q := ram_insert _ _ _) in *. set (s3 := ram_store _ _ _).
  assert (P : ptr_of (a + 4) = (k, (a + 4) mod 2048 / 4)) by (rewrite ptr_of_eq, Kn by trivial; reflexivity).
  assert (D : forall m', fst m' = k -> ram_deref (ram_root s3) m' =
                if decide (m' = ptr_of (a + 4)) then v .& 0xFFFFFFFF else 0).
  { intros m' E. unfold s3, ram_store; cbn [ram_root].
    rewrite ram_deref_assign by (trivial; rewrite P; apply K2; auto).
    rewrite D2, (ram_deref_absent (ram_root s1) m') by (trivial; rewrite E; trivial). reflexivity. }
  unfold ram_doRead. rewrite (ram_find_last a s3 k), E4, (ram_find_last (a + 4) s3 k) by trivial.
  cbn [fst]. rewrite (D (ptr_of a)), (D (ptr_of (a + 4))) by (rewrite ?P; unfold ptr_of; trivial).
  destruct Ha as [Ha Ha8]. rewrite !decide_ptr by (trivial; dmlia).
  replace (a =? a + 4) with false by (symmetry; apply Z.eqb_neq; lia).
  rewrite Z.eqb_refl. apply (land_mask_eq v 32); [lia|reflexivity].
Qed.

Lemma ram_first_write_lost_witness :
  fst (ram_doRead 8 (ram_doWrite 8 (2 ^ 40 + 5) ram_reset_state)) = 5.
Proof.
  rewrite (ram_first_write_lost 8 (2 ^ 40 + 5)); [reflexivity| |vm_compute; congruence|concrete_word].
  split; [concrete_word|reflexivity].
Defined.
