(* ===== verification/Machine.v ===== *)
(** * The state of the simulator and its exceptions

    The static variables of the modules under gimmix/src/core and of the devices
    are the fields of one record, grouped by the module that declares them.  A C
    function that reads or changes them is a value of the monad [M]: it returns,
    it throws ([ex_throw], a [longjmp] that keeps every assignment made so far) or
    it stops the simulator. *)

From Stdlib Require Import ZArith Lia Bool.
From stdpp Require Import base list numbers option.
From S2P Require Import Prelude Ram.

(** ** Exceptions (include/exception.h) *)

Inductive exn :=
| EX_FORCED_TRIP
| EX_DYNAMIC_TRIP
| EX_FORCED_TRAP
| EX_DYNAMIC_TRAP
| EX_CLI
| EX_BREAKPOINT.

#[export] Instance exn_eq_dec : EqDecision exn.
Proof. solve_decision. Defined.

Abbreviation TRAP_POWER_FAILURE := 0x1.
Abbreviation TRAP_MEMORY_PARITY := 0x2.
Abbreviation TRAP_NONEX_MEMORY := 0x4.
Abbreviation TRAP_REBOOT := 0x8.
Abbreviation TRAP_INTERVAL := 0x80.
Abbreviation TRAP_PROT_READ := 0x8000000000.
Abbreviation TRAP_PROT_WRITE := 0x4000000000.
Abbreviation TRAP_PROT_EXEC := 0x2000000000.
Abbreviation TRAP_PRIVILEGED_ACCESS := 0x1000000000.
Abbreviation TRAP_PRIVILEGED_INSTR := 0x800000000.
Abbreviation TRAP_BREAKS_RULES := 0x400000000.
Abbreviation TRAP_SECURITY_VIOLATION := 0x200000000.
Abbreviation TRAP_PRIVILEGED_PC := 0x100000000.
Abbreviation TRAP_REPEAT := 0x80000000.
Abbreviation TRAP_SOFT_TRANS := 0x40000000.
Abbreviation TRAP_RWX_BITS := 0xE000000000.
Abbreviation TRAP_EX_BITS := 0xFF0000008F.

Abbreviation TRIP_FLOATINEXACT := 0x01.
Abbreviation TRIP_FLOATDIVBY0 := 0x02.
Abbreviation TRIP_FLOATUNDER := 0x04.
Abbreviation TRIP_FLOATOVER := 0x08.
Abbreviation TRIP_FLOATINVOP := 0x10.
Abbreviation TRIP_FLOAT2FIXOVER := 0x20.
Abbreviation TRIP_INTOVER := 0x40.
Abbreviation TRIP_INTDIVCHK := 0x80.

(** Why a C function does not come back: a failed [assert], [sim_error], an
    operation C leaves undefined, or the bound on a loop of the model. *)
Inductive halt := AssertFail | SimError | Undefined | OutOfFuel.

(** ** Special registers (include/core/register.h) *)

Abbreviation rA := 21.
Abbreviation rB := 0.
Abbreviation rC := 8.
Abbreviation rD := 1.
Abbreviation rE := 2.
Abbreviation rF := 22.
Abbreviation rG := 19.
Abbreviation rH := 3.
Abbreviation rI := 12.
Abbreviation rJ := 4.
Abbreviation rK := 15.
Abbreviation rL := 20.
Abbreviation rM := 5.
Abbreviation rN := 9.
Abbreviation rO := 10.
Abbreviation rP := 23.
Abbreviation rQ := 16.
Abbreviation rR := 6.
Abbreviation rS := 11.
Abbreviation rT := 13.
Abbreviation rU := 17.
Abbreviation rV := 18.
Abbreviation rW := 24.
Abbreviation rX := 25.
Abbreviation rY := 26.
Abbreviation rZ := 27.
Abbreviation rBB := 7.
Abbreviation rTT := 14.
Abbreviation rWW := 28.
Abbreviation rXX := 29.
Abbreviation rYY := 30.
Abbreviation rZZ := 31.
Abbreviation rSS := 32.
Abbreviation SPECIAL_NUM := 33.
Abbreviation LREG_MASK := 255.
Abbreviation GREG_MASK := 255.
Abbreviation MIN_GLOBAL := 32.

(** Flags and modes of a memory access (include/core/mmu.h). *)
Abbreviation MEM_SIDE_EFFECTS := 1.
Abbreviation MEM_UNCACHED := 2.
Abbreviation MEM_UNINITIALIZED := 4.
Abbreviation MEM_IGNORE_PROT_EX := 8.
Abbreviation MEM_READ := 4.
Abbreviation MEM_WRITE := 2.
Abbreviation MEM_EXEC := 1.

Definition has_flag (flags f : Z) : bool := truth (flags .& f).

(** ** The state *)

(** The decoded operands ([sInstrArgs] of include/core/decoder.h). *)
Record sInstrArgs := mk_sInstrArgs {
  ia_x : Z;
  ia_y : Z;
  ia_z : Z
}.

(** register.c: the register ring, the global and the special registers and the
    shortcuts [L], [G], [S] and [O]. *)
Record regs := mk_regs {
  r_local : arr;
  r_global : arr;
  r_special : arr;
  r_L : Z;
  r_G : Z;
  r_S : Z;
  r_O : Z
}.

Definition set_r_local (v : arr) (s : regs) : regs :=
  mk_regs v (r_global s) (r_special s) (r_L s) (r_G s) (r_S s) (r_O s).
Definition set_r_global (v : arr) (s : regs) : regs :=
  mk_regs (r_local s) v (r_special s) (r_L s) (r_G s) (r_S s) (r_O s).
Definition set_r_special (v : arr) (s : regs) : regs :=
  mk_regs (r_local s) (r_global s) v (r_L s) (r_G s) (r_S s) (r_O s).
Definition set_r_L (v : Z) (s : regs) : regs :=
  mk_regs (r_local s) (r_global s) (r_special s) v (r_G s) (r_S s) (r_O s).
Definition set_r_G (v : Z) (s : regs) : regs :=
  mk_regs (r_local s) (r_global s) (r_special s) (r_L s) v (r_S s) (r_O s).
Definition set_r_S (v : Z) (s : regs) : regs :=
  mk_regs (r_local s) (r_global s) (r_special s) (r_L s) (r_G s) v (r_O s).
Definition set_r_O (v : Z) (s : regs) : regs :=
  mk_regs (r_local s) (r_global s) (r_special s) (r_L s) (r_G s) (r_S s) v.

(** cpu.c, and [lastrQ] of instr/misc.c. *)
Record cpu_state := mk_cpu_state {
  c_pc : Z;
  c_pcChanged : bool;
  c_halted : bool;
  c_run : bool;
  c_arithEx : Z;
  c_pagefaultAddr : Z;
  c_pagefaultValue : Z;
  c_oldrU : Z;
  c_instrCount : Z;
  c_instrLoc : Z;
  c_useResume : bool;
  c_instrRaw : Z;
  c_instrRawResume : Z;
  c_iargs : sInstrArgs;
  c_iargsResume : sInstrArgs;
  c_lastrQ : Z
}.

Definition set_c_pc (v : Z) (s : cpu_state) : cpu_state :=
  mk_cpu_state v (c_pcChanged s) (c_halted s) (c_run s) (c_arithEx s) (c_pagefaultAddr s)
    (c_pagefaultValue s) (c_oldrU s) (c_instrCount s) (c_instrLoc s) (c_useResume s)
    (c_instrRaw s) (c_instrRawResume s) (c_iargs s) (c_iargsResume s) (c_lastrQ s).
Definition set_c_pcChanged (v : bool) (s : cpu_state) : cpu_state :=
  mk_cpu_state (c_pc s) v (c_halted s) (c_run s) (c_arithEx s) (c_pagefaultAddr s)
    (c_pagefaultValue s) (c_oldrU s) (c_instrCount s) (c_instrLoc s) (c_useResume s)
    (c_instrRaw s) (c_instrRawResume s) (c_iargs s) (c_iargsResume s) (c_lastrQ s).
Definition set_c_halted (v : bool) (s : cpu_state) : cpu_state :=
  mk_cpu_state (c_pc s) (c_pcChanged s) v (c_run s) (c_arithEx s) (c_pagefaultAddr s)
    (c_pagefaultValue s) (c_oldrU s) (c_instrCount s) (c_instrLoc s) (c_useResume s)
    (c_instrRaw s) (c_instrRawResume s) (c_iargs s) (c_iargsResume s) (c_lastrQ s).
Definition set_c_run (v : bool) (s : cpu_state) : cpu_state :=
  mk_cpu_state (c_pc s) (c_pcChanged s) (c_halted s) v (c_arithEx s) (c_pagefaultAddr s)
    (c_pagefaultValue s) (c_oldrU s) (c_instrCount s) (c_instrLoc s) (c_useResume s)
    (c_instrRaw s) (c_instrRawResume s) (c_iargs s) (c_iargsResume s) (c_lastrQ s).
Definition set_c_arithEx (v : Z) (s : cpu_state) : cpu_state :=
  mk_cpu_state (c_pc s) (c_pcChanged s) (c_halted s) (c_run s) v (c_pagefaultAddr s)
    (c_pagefaultValue s) (c_oldrU s) (c_instrCount s) (c_instrLoc s) (c_useResume s)
    (c_instrRaw s) (c_instrRawResume s) (c_iargs s) (c_iargsResume s) (c_lastrQ s).
Definition set_c_pagefaultAddr (v : Z) (s : cpu_state) : cpu_state :=
  mk_cpu_state (c_pc s) (c_pcChanged s) (c_halted s) (c_run s) (c_arithEx s) v
    (c_pagefaultValue s) (c_oldrU s) (c_instrCount s) (c_instrLoc s) (c_useResume s)
    (c_instrRaw s) (c_instrRawResume s) (c_iargs s) (c_iargsResume s) (c_lastrQ s).
Definition set_c_pagefaultValue (v : Z) (s : cpu_state) : cpu_state :=
  mk_cpu_state (c_pc s) (c_pcChanged s) (c_halted s) (c_run s) (c_arithEx s)
    (c_pagefaultAddr s) v (c_oldrU s) (c_instrCount s) (c_instrLoc s) (c_useResume s)
    (c_instrRaw s) (c_instrRawResume s) (c_iargs s) (c_iargsResume s) (c_lastrQ s).
Definition set_c_oldrU (v : Z) (s : cpu_state) : cpu_state :=
  mk_cpu_state (c_pc s) (c_pcChanged s) (c_halted s) (c_run s) (c_arithEx s)
    (c_pagefaultAddr s) (c_pagefaultValue s) v (c_instrCount s) (c_instrLoc s) (c_useResume s)
    (c_instrRaw s) (c_instrRawResume s) (c_iargs s) (c_iargsResume s) (c_lastrQ s).
Definition set_c_instrCount (v : Z) (s : cpu_state) : cpu_state :=
  mk_cpu_state (c_pc s) (c_pcChanged s) (c_halted s) (c_run s) (c_arithEx s)
    (c_pagefaultAddr s) (c_pagefaultValue s) (c_oldrU s) v (c_instrLoc s) (c_useResume s)
    (c_instrRaw s) (c_instrRawResume s) (c_iargs s) (c_iargsResume s) (c_lastrQ s).
Definition set_c_instrLoc (v : Z) (s : cpu_state) : cpu_state :=
  mk_cpu_state (c_pc s) (c_pcChanged s) (c_halted s) (c_run s) (c_arithEx s)
    (c_pagefaultAddr s) (c_pagefaultValue s) (c_oldrU s) (c_instrCount s) v (c_useResume s)
    (c_instrRaw s) (c_instrRawResume s) (c_iargs s) (c_iargsResume s) (c_lastrQ s).
Definition set_c_useResume (v : bool) (s : cpu_state) : cpu_state :=
  mk_cpu_state (c_pc s) (c_pcChanged s) (c_halted s) (c_run s) (c_arithEx s)
    (c_pagefaultAddr s) (c_pagefaultValue s) (c_oldrU s) (c_instrCount s) (c_instrLoc s) v
    (c_instrRaw s) (c_instrRawResume s) (c_iargs s) (c_iargsResume s) (c_lastrQ s).
Definition set_c_instrRaw (v : Z) (s : cpu_state) : cpu_state :=
  mk_cpu_state (c_pc s) (c_pcChanged s) (c_halted s) (c_run s) (c_arithEx s)
    (c_pagefaultAddr s) (c_pagefaultValue s) (c_oldrU s) (c_instrCount s) (c_instrLoc s)
    (c_useResume s) v (c_instrRawResume s) (c_iargs s) (c_iargsResume s) (c_lastrQ s).
Definition set_c_instrRawResume (v : Z) (s : cpu_state) : cpu_state :=
  mk_cpu_state (c_pc s) (c_pcChanged s) (c_halted s) (c_run s) (c_arithEx s)
    (c_pagefaultAddr s) (c_pagefaultValue s) (c_oldrU s) (c_instrCount s) (c_instrLoc s)
    (c_useResume s) (c_instrRaw s) v (c_iargs s) (c_iargsResume s) (c_lastrQ s).
Definition set_c_iargs (v : sInstrArgs) (s : cpu_state) : cpu_state :=
  mk_cpu_state (c_pc s) (c_pcChanged s) (c_halted s) (c_run s) (c_arithEx s)
    (c_pagefaultAddr s) (c_pagefaultValue s) (c_oldrU s) (c_instrCount s) (c_instrLoc s)
    (c_useResume s) (c_instrRaw s) (c_instrRawResume s) v (c_iargsResume s) (c_lastrQ s).
Definition set_c_iargsResume (v : sInstrArgs) (s : cpu_state) : cpu_state :=
  mk_cpu_state (c_pc s) (c_pcChanged s) (c_halted s) (c_run s) (c_arithEx s)
    (c_pagefaultAddr s) (c_pagefaultValue s) (c_oldrU s) (c_instrCount s) (c_instrLoc s)
    (c_useResume s) (c_instrRaw s) (c_instrRawResume s) (c_iargs s) v (c_lastrQ s).
Definition set_c_lastrQ (v : Z) (s : cpu_state) : cpu_state :=
  mk_cpu_state (c_pc s) (c_pcChanged s) (c_halted s) (c_run s) (c_arithEx s)
    (c_pagefaultAddr s) (c_pagefaultValue s) (c_oldrU s) (c_instrCount s) (c_instrLoc s)
    (c_useResume s) (c_instrRaw s) (c_instrRawResume s) (c_iargs s) (c_iargsResume s) v.

(** tc.c: an entry and a translation cache; an index stands for [entries + i]. *)
Record sTCEntry := mk_sTCEntry {
  tce_key : Z;
  tce_translation : Z
}.

Record sTranslationCache := mk_sTranslationCache {
  tc_entries : Z -> sTCEntry;
  tc_lastKey : Z;
  tc_last : Z;
  tc_size : nat
}.

Definition set_tc_entries (v : Z -> sTCEntry) (s : sTranslationCache) : sTranslationCache :=
  mk_sTranslationCache v (tc_lastKey s) (tc_last s) (tc_size s).
Definition set_tc_lastKey (v : Z) (s : sTranslationCache) : sTranslationCache :=
  mk_sTranslationCache (tc_entries s) v (tc_last s) (tc_size s).
Definition set_tc_last (v : Z) (s : sTranslationCache) : sTranslationCache :=
  mk_sTranslationCache (tc_entries s) (tc_lastKey s) v (tc_size s).
Definition set_tc_size (v : nat) (s : sTranslationCache) : sTranslationCache :=
  mk_sTranslationCache (tc_entries s) (tc_lastKey s) (tc_last s) v.

(** cache.c: a block and a cache; [lastBlock] is the index of the block pointed to. *)
Record sCacheBlock := mk_sCacheBlock {
  cb_tag : Z;
  cb_dirty : bool;
  cb_data : arr
}.

Definition set_cb_tag (v : Z) (s : sCacheBlock) : sCacheBlock :=
  mk_sCacheBlock v (cb_dirty s) (cb_data s).
Definition set_cb_dirty (v : bool) (s : sCacheBlock) : sCacheBlock :=
  mk_sCacheBlock (cb_tag s) v (cb_data s).
Definition set_cb_data (v : arr) (s : sCacheBlock) : sCacheBlock :=
  mk_sCacheBlock (cb_tag s) (cb_dirty s) v.

Record sCache := mk_sCache {
  ca_blockNum : nat;
  ca_blockSize : Z;
  ca_tagMask : Z;
  ca_lastAddr : Z;
  ca_lastBlock : option Z;
  ca_blocks : Z -> sCacheBlock
}.

Definition set_ca_blockNum (v : nat) (s : sCache) : sCache :=
  mk_sCache v (ca_blockSize s) (ca_tagMask s) (ca_lastAddr s) (ca_lastBlock s) (ca_blocks s).
Definition set_ca_blockSize (v : Z) (s : sCache) : sCache :=
  mk_sCache (ca_blockNum s) v (ca_tagMask s) (ca_lastAddr s) (ca_lastBlock s) (ca_blocks s).
Definition set_ca_tagMask (v : Z) (s : sCache) : sCache :=
  mk_sCache (ca_blockNum s) (ca_blockSize s) v (ca_lastAddr s) (ca_lastBlock s) (ca_blocks s).
Definition set_ca_lastAddr (v : Z) (s : sCache) : sCache :=
  mk_sCache (ca_blockNum s) (ca_blockSize s) (ca_tagMask s) v (ca_lastBlock s) (ca_blocks s).
Definition set_ca_lastBlock (v : option Z) (s : sCache) : sCache :=
  mk_sCache (ca_blockNum s) (ca_blockSize s) (ca_tagMask s) (ca_lastAddr s) v (ca_blocks s).
Definition set_ca_blocks (v : Z -> sCacheBlock) (s : sCache) : sCache :=
  mk_sCache (ca_blockNum s) (ca_blockSize s) (ca_tagMask s) (ca_lastAddr s) (ca_lastBlock s) v.

(** mmu.c: the unpacked rV. *)
Record sVirtTransReg := mk_sVirtTransReg {
  vt_b : Z -> Z;
  vt_s : Z;
  vt_n : Z;
  vt_r : Z;
  vt_f : Z;
  vt_invalid : bool
}.

(** timer.c: a pending timer, and the timer's registers.  [freeTimers] is the
    length of the list of free timers, whose contents are never read. *)
Record sTimer := mk_sTimer {
  tm_alarm : Z;
  tm_device : Z;
  tm_callback : Z;
  tm_param : Z
}.

Record timer_state := mk_timer_state {
  t_activeTimers : list sTimer;
  t_freeTimers : nat;
  t_currentTime : Z;
  t_timerCtrl : Z;
  t_timerDivisor : Z;
  t_timerCounter : Z
}.

Definition set_t_activeTimers (v : list sTimer) (s : timer_state) : timer_state :=
  mk_timer_state v (t_freeTimers s) (t_currentTime s) (t_timerCtrl s) (t_timerDivisor s)
    (t_timerCounter s).
Definition set_t_freeTimers (v : nat) (s : timer_state) : timer_state :=
  mk_timer_state (t_activeTimers s) v (t_currentTime s) (t_timerCtrl s) (t_timerDivisor s)
    (t_timerCounter s).
Definition set_t_currentTime (v : Z) (s : timer_state) : timer_state :=
  mk_timer_state (t_activeTimers s) (t_freeTimers s) v (t_timerCtrl s) (t_timerDivisor s)
    (t_timerCounter s).
Definition set_t_timerCtrl (v : Z) (s : timer_state) : timer_state :=
  mk_timer_state (t_activeTimers s) (t_freeTimers s) (t_currentTime s) v (t_timerDivisor s)
    (t_timerCounter s).
Definition set_t_timerDivisor (v : Z) (s : timer_state) : timer_state :=
  mk_timer_state (t_activeTimers s) (t_freeTimers s) (t_currentTime s) (t_timerCtrl s) v
    (t_timerCounter s).
Definition set_t_timerCounter (v : Z) (s : timer_state) : timer_state :=
  mk_timer_state (t_activeTimers s) (t_freeTimers s) (t_currentTime s) (t_timerCtrl s)
    (t_timerDivisor s) v.

(** disk.c: the bytes of the image file and the registers of the disk. *)
Record disk_state := mk_disk_state {
  d_image : arr;
  d_totalSectors : Z;
  d_ctrl : Z;
  d_cnt : Z;
  d_sct : Z;
  d_cap : Z;
  d_buffer : arr;
  d_lastSct : Z
}.

Definition set_d_image (v : arr) (s : disk_state) : disk_state :=
  mk_disk_state v (d_totalSectors s) (d_ctrl s) (d_cnt s) (d_sct s) (d_cap s) (d_buffer s)
    (d_lastSct s).
Definition set_d_totalSectors (v : Z) (s : disk_state) : disk_state :=
  mk_disk_state (d_image s) v (d_ctrl s) (d_cnt s) (d_sct s) (d_cap s) (d_buffer s) (d_lastSct s).
Definition set_d_ctrl (v : Z) (s : disk_state) : disk_state :=
  mk_disk_state (d_image s) (d_totalSectors s) v (d_cnt s) (d_sct s) (d_cap s) (d_buffer s)
    (d_lastSct s).
Definition set_d_cnt (v : Z) (s : disk_state) : disk_state :=
  mk_disk_state (d_image s) (d_totalSectors s) (d_ctrl s) v (d_sct s) (d_cap s) (d_buffer s)
    (d_lastSct s).
Definition set_d_sct (v : Z) (s : disk_state) : disk_state :=
  mk_disk_state (d_image s) (d_totalSectors s) (d_ctrl s) (d_cnt s) v (d_cap s) (d_buffer s)
    (d_lastSct s).
Definition set_d_cap (v : Z) (s : disk_state) : disk_state :=
  mk_disk_state (d_image s) (d_totalSectors s) (d_ctrl s) (d_cnt s) (d_sct s) v (d_buffer s)
    (d_lastSct s).
Definition set_d_buffer (v : arr) (s : disk_state) : disk_state :=
  mk_disk_state (d_image s) (d_totalSectors s) (d_ctrl s) (d_cnt s) (d_sct s) (d_cap s) v
    (d_lastSct s).
Definition set_d_lastSct (v : Z) (s : disk_state) : disk_state :=
  mk_disk_state (d_image s) (d_totalSectors s) (d_ctrl s) (d_cnt s) (d_sct s) (d_cap s)
    (d_buffer s) v.

(** term.c: a terminal.  [term_in] is what [fgetc] will return, [None] for EOF, which it
    returns at the end of the list as well; [term_out] is what has been written, the last
    character first. *)
Record sTerminal := mk_sTerminal {
  rcvrCtrl : Z;
  rcvrData : Z;
  rcvrIRQ : Z;
  xmtrCtrl : Z;
  xmtrData : Z;
  xmtrIRQ : Z;
  term_in : list (option Z);
  term_out : list Z
}.

Definition set_rcvrCtrl (v : Z) (s : sTerminal) : sTerminal :=
  mk_sTerminal v (rcvrData s) (rcvrIRQ s) (xmtrCtrl s) (xmtrData s) (xmtrIRQ s) (term_in s)
    (term_out s).
Definition set_rcvrData (v : Z) (s : sTerminal) : sTerminal :=
  mk_sTerminal (rcvrCtrl s) v (rcvrIRQ s) (xmtrCtrl s) (xmtrData s) (xmtrIRQ s) (term_in s)
    (term_out s).
Definition set_rcvrIRQ (v : Z) (s : sTerminal) : sTerminal :=
  mk_sTerminal (rcvrCtrl s) (rcvrData s) v (xmtrCtrl s) (xmtrData s) (xmtrIRQ s) (term_in s)
    (term_out s).
Definition set_xmtrCtrl (v : Z) (s : sTerminal) : sTerminal :=
  mk_sTerminal (rcvrCtrl s) (rcvrData s) (rcvrIRQ s) v (xmtrData s) (xmtrIRQ s) (term_in s)
    (term_out s).
Definition set_xmtrData (v : Z) (s : sTerminal) : sTerminal :=
  mk_sTerminal (rcvrCtrl s) (rcvrData s) (rcvrIRQ s) (xmtrCtrl s) v (xmtrIRQ s) (term_in s)
    (term_out s).
Definition set_xmtrIRQ (v : Z) (s : sTerminal) : sTerminal :=
  mk_sTerminal (rcvrCtrl s) (rcvrData s) (rcvrIRQ s) (xmtrCtrl s) (xmtrData s) v (term_in s)
    (term_out s).
Definition set_term_in (v : list (option Z)) (s : sTerminal) : sTerminal :=
  mk_sTerminal (rcvrCtrl s) (rcvrData s) (rcvrIRQ s) (xmtrCtrl s) (xmtrData s) (xmtrIRQ s) v
    (term_out s).
Definition set_term_out (v : list Z) (s : sTerminal) : sTerminal :=
  mk_sTerminal (rcvrCtrl s) (rcvrData s) (rcvrIRQ s) (xmtrCtrl s) (xmtrData s) (xmtrIRQ s)
    (term_in s) v.

(** dspkbd.c: the keyboard. *)
Record kbd_state := mk_kbd_state {
  kbdBuf : arr;
  kbdBufWritePtr : Z;
  kbdBufReadPtr : Z;
  kbdCtrl : Z;
  kbdData : Z
}.

Definition set_kbdBuf (v : arr) (s : kbd_state) : kbd_state :=
  mk_kbd_state v (kbdBufWritePtr s) (kbdBufReadPtr s) (kbdCtrl s) (kbdData s).
Definition set_kbdBufWritePtr (v : Z) (s : kbd_state) : kbd_state :=
  mk_kbd_state (kbdBuf s) v (kbdBufReadPtr s) (kbdCtrl s) (kbdData s).
Definition set_kbdBufReadPtr (v : Z) (s : kbd_state) : kbd_state :=
  mk_kbd_state (kbdBuf s) (kbdBufWritePtr s) v (kbdCtrl s) (kbdData s).
Definition set_kbdCtrl (v : Z) (s : kbd_state) : kbd_state :=
  mk_kbd_state (kbdBuf s) (kbdBufWritePtr s) (kbdBufReadPtr s) v (kbdData s).
Definition set_kbdData (v : Z) (s : kbd_state) : kbd_state :=
  mk_kbd_state (kbdBuf s) (kbdBufWritePtr s) (kbdBufReadPtr s) (kbdCtrl s) v.

(** dspkbd.c: the display, the characters [text[y][x]] and the colors of the pixels at x and y. *)
Record dsp_state := mk_dsp_state {
  dsp_text : Z -> Z -> Z;
  dsp_pixel : Z -> Z -> Z * Z * Z;
  dsp_blink : bool;
  dsp_previousBlink : bool
}.

Definition set_dsp_text (v : Z -> Z -> Z) (s : dsp_state) : dsp_state :=
  mk_dsp_state v (dsp_pixel s) (dsp_blink s) (dsp_previousBlink s).
Definition set_dsp_pixel (v : Z -> Z -> Z * Z * Z) (s : dsp_state) : dsp_state :=
  mk_dsp_state (dsp_text s) v (dsp_blink s) (dsp_previousBlink s).
Definition set_dsp_blink (v : bool) (s : dsp_state) : dsp_state :=
  mk_dsp_state (dsp_text s) (dsp_pixel s) v (dsp_previousBlink s).
Definition set_dsp_previousBlink (v : bool) (s : dsp_state) : dsp_state :=
  mk_dsp_state (dsp_text s) (dsp_pixel s) (dsp_blink s) v.

(** The devices that stand for the outside world: [io_output] is the output file, the last
    byte first, [io_installed] the flag of dspkbd.c. *)
Record io_state := mk_io_state {
  io_disk : disk_state;
  io_terms : Z -> sTerminal;
  io_numTerminals : Z;
  io_output : list Z;
  io_outputFile : bool;
  io_kbd : kbd_state;
  io_dsp : dsp_state;
  io_installed : bool
}.

Definition set_io_disk (v : disk_state) (s : io_state) : io_state :=
  mk_io_state v (io_terms s) (io_numTerminals s) (io_output s) (io_outputFile s) (io_kbd s)
    (io_dsp s) (io_installed s).
Definition set_io_terms (v : Z -> sTerminal) (s : io_state) : io_state :=
  mk_io_state (io_disk s) v (io_numTerminals s) (io_output s) (io_outputFile s) (io_kbd s)
    (io_dsp s) (io_installed s).
Definition set_io_numTerminals (v : Z) (s : io_state) : io_state :=
  mk_io_state (io_disk s) (io_terms s) v (io_output s) (io_outputFile s) (io_kbd s) (io_dsp s)
    (io_installed s).
Definition set_io_output (v : list Z) (s : io_state) : io_state :=
  mk_io_state (io_disk s) (io_terms s) (io_numTerminals s) v (io_outputFile s) (io_kbd s)
    (io_dsp s) (io_installed s).
Definition set_io_outputFile (v : bool) (s : io_state) : io_state :=
  mk_io_state (io_disk s) (io_terms s) (io_numTerminals s) (io_output s) v (io_kbd s) (io_dsp s)
    (io_installed s).
Definition set_io_kbd (v : kbd_state) (s : io_state) : io_state :=
  mk_io_state (io_disk s) (io_terms s) (io_numTerminals s) (io_output s) (io_outputFile s) v
    (io_dsp s) (io_installed s).
Definition set_io_dsp (v : dsp_state) (s : io_state) : io_state :=
  mk_io_state (io_disk s) (io_terms s) (io_numTerminals s) (io_output s) (io_outputFile s)
    (io_kbd s) v (io_installed s).
Definition set_io_installed (v : bool) (s : io_state) : io_state :=
  mk_io_state (io_disk s) (io_terms s) (io_numTerminals s) (io_output s) (io_outputFile s)
    (io_kbd s) (io_dsp s) v.

(** config.c, the devices: the number of terminals, the size and the bytes of the disk image,
    if one is configured, whether there is an output file, a display and a keyboard; the
    font and the splash screen that dspkbd.c includes. *)
Record io_config := mk_io_config {
  cfg_termCount : Z;
  cfg_diskImage : option (Z * arr);
  cfg_outputFile : bool;
  cfg_useDspKbd : bool;
  cfg_font : arr;
  cfg_screen : Z -> Z -> Z
}.

Definition no_io : io_config := mk_io_config 0 None false false (fun _ => 0) (fun _ _ => 0).

(** config.c *)
Record config := mk_full_config {
  cfg_ramSize : Z;
  cfg_testMode : bool;
  cfg_userMode : bool;
  cfg_startAddr : Z;
  cfg_io : io_config
}.

Definition mk_config (ramSize : Z) (testMode userMode : bool) (startAddr : Z) : config :=
  mk_full_config ramSize testMode userMode startAddr no_io.

(** bus.c: a device; the functions of the modelled devices are selected by [dev_id]. *)
Inductive devid :=
| DevRAM | DevTimer | DevROM | DevTerm (i : Z) | DevDisk | DevOutput | DevDisplay | DevKeyboard.

Record sDevice := mk_sDevice {
  dev_id : devid;
  dev_startAddr : Z;
  dev_endAddr : Z;
  dev_irqMask : Z
}.

(** The two caches and the two translation caches. *)
Inductive side := SInstr | SData.
Abbreviation CACHE_INSTR := SInstr.
Abbreviation CACHE_DATA := SData.
Abbreviation TC_INSTR := SInstr.
Abbreviation TC_DATA := SData.

#[export] Instance side_eq_dec : EqDecision side.
Proof. solve_decision. Defined.

Definition upd_side {A} (f : side -> A) (c : side) (v : A) : side -> A :=
  fun c' => if decide (c' = c) then v else f c'.

Lemma upd_side_same {A} (f : side -> A) c v : upd_side f c v c = v.
Proof. unfold upd_side. rewrite decide_True; trivial. Qed.

Lemma upd_side_other {A} (f : side -> A) c c' v : c' <> c -> upd_side f c v c' = f c'.
Proof. intros H. unfold upd_side. rewrite decide_False; trivial. Qed.

(** The events the core fires (include/event.h); the handlers that the command line
    interface registers are outside of the model, which records what they would see. *)
Inductive event :=
| EV_BEFORE_EXEC | EV_AFTER_EXEC | EV_CPU_HALTED | EV_EXCEPTION (ex : exn) (bits : Z)
| EV_VAT (addr mode : Z) | EV_BEFORE_FETCH
| EV_STACKLOAD (type index : Z) | EV_STACKSTORE (type index : Z)
| EV_DEV_READ (addr data : Z) | EV_DEV_WRITE (addr data : Z) | EV_DEV_CALLBACK (dev param : Z)
| EV_CPU_PAUSE | EV_CACHE_LOOKUP (c : side) (addr : Z) | EV_CACHE_FILL (c : side) (addr : Z)
| EV_CACHE_FLUSH (c : side) (addr : Z).

(** The whole simulator. *)
Record machine := mk_machine {
  m_reg : regs;
  m_cpu : cpu_state;
  m_tcs : side -> sTranslationCache;
  m_nextIndex : Z;
  m_caches : side -> sCache;
  m_nextVictim : Z;
  m_oldrV : Z;
  m_vtr : sVirtTransReg;
  m_devices : list sDevice;
  m_ram : ram_state;
  m_rom : arr;
  m_timer : timer_state;
  m_io : io_state;
  m_cfg : config;
  m_log : list event
}.

Definition set_m_reg (v : regs) (s : machine) : machine :=
  mk_machine v (m_cpu s) (m_tcs s) (m_nextIndex s) (m_caches s) (m_nextVictim s) (m_oldrV s)
    (m_vtr s) (m_devices s) (m_ram s) (m_rom s) (m_timer s) (m_io s) (m_cfg s) (m_log s).
Definition set_m_cpu (v : cpu_state) (s : machine) : machine :=
  mk_machine (m_reg s) v (m_tcs s) (m_nextIndex s) (m_caches s) (m_nextVictim s) (m_oldrV s)
    (m_vtr s) (m_devices s) (m_ram s) (m_rom s) (m_timer s) (m_io s) (m_cfg s) (m_log s).
Definition set_m_tcs (v : side -> sTranslationCache) (s : machine) : machine :=
  mk_machine (m_reg s) (m_cpu s) v (m_nextIndex s) (m_caches s) (m_nextVictim s) (m_oldrV s)
    (m_vtr s) (m_devices s) (m_ram s) (m_rom s) (m_timer s) (m_io s) (m_cfg s) (m_log s).
Definition set_m_nextIndex (v : Z) (s : machine) : machine :=
  mk_machine (m_reg s) (m_cpu s) (m_tcs s) v (m_caches s) (m_nextVictim s) (m_oldrV s) (m_vtr s)
    (m_devices s) (m_ram s) (m_rom s) (m_timer s) (m_io s) (m_cfg s) (m_log s).
Definition set_m_caches (v : side -> sCache) (s : machine) : machine :=
  mk_machine (m_reg s) (m_cpu s) (m_tcs s) (m_nextIndex s) v (m_nextVictim s) (m_oldrV s)
    (m_vtr s) (m_devices s) (m_ram s) (m_rom s) (m_timer s) (m_io s) (m_cfg s) (m_log s).
Definition set_m_nextVictim (v : Z) (s : machine) : machine :=
  mk_machine (m_reg s) (m_cpu s) (m_tcs s) (m_nextIndex s) (m_caches s) v (m_oldrV s) (m_vtr s)
    (m_devices s) (m_ram s) (m_rom s) (m_timer s) (m_io s) (m_cfg s) (m_log s).
Definition set_m_oldrV (v : Z) (s : machine) : machine :=
  mk_machine (m_reg s) (m_cpu s) (m_tcs s) (m_nextIndex s) (m_caches s) (m_nextVictim s) v
    (m_vtr s) (m_devices s) (m_ram s) (m_rom s) (m_timer s) (m_io s) (m_cfg s) (m_log s).
Definition set_m_vtr (v : sVirtTransReg) (s : machine) : machine :=
  mk_machine (m_reg s) (m_cpu s) (m_tcs s) (m_nextIndex s) (m_caches s) (m_nextVictim s)
    (m_oldrV s) v (m_devices s) (m_ram s) (m_rom s) (m_timer s) (m_io s) (m_cfg s) (m_log s).
Definition set_m_devices (v : list sDevice) (s : machine) : machine :=
  mk_machine (m_reg s) (m_cpu s) (m_tcs s) (m_nextIndex s) (m_caches s) (m_nextVictim s)
    (m_oldrV s) (m_vtr s) v (m_ram s) (m_rom s) (m_timer s) (m_io s) (m_cfg s) (m_log s).
Definition set_m_ram (v : ram_state) (s : machine) : machine :=
  mk_machine (m_reg s) (m_cpu s) (m_tcs s) (m_nextIndex s) (m_caches s) (m_nextVictim s)
    (m_oldrV s) (m_vtr s) (m_devices s) v (m_rom s) (m_timer s) (m_io s) (m_cfg s) (m_log s).
Definition set_m_rom (v : arr) (s : machine) : machine :=
  mk_machine (m_reg s) (m_cpu s) (m_tcs s) (m_nextIndex s) (m_caches s) (m_nextVictim s)
    (m_oldrV s) (m_vtr s) (m_devices s) (m_ram s) v (m_timer s) (m_io s) (m_cfg s) (m_log s).
Definition set_m_timer (v : timer_state) (s : machine) : machine :=
  mk_machine (m_reg s) (m_cpu s) (m_tcs s) (m_nextIndex s) (m_caches s) (m_nextVictim s)
    (m_oldrV s) (m_vtr s) (m_devices s) (m_ram s) (m_rom s) v (m_io s) (m_cfg s) (m_log s).
Definition set_m_io (v : io_state) (s : machine) : machine :=
  mk_machine (m_reg s) (m_cpu s) (m_tcs s) (m_nextIndex s) (m_caches s) (m_nextVictim s)
    (m_oldrV s) (m_vtr s) (m_devices s) (m_ram s) (m_rom s) (m_timer s) v (m_cfg s) (m_log s).
Definition set_m_cfg (v : config) (s : machine) : machine :=
  mk_machine (m_reg s) (m_cpu s) (m_tcs s) (m_nextIndex s) (m_caches s) (m_nextVictim s)
    (m_oldrV s) (m_vtr s) (m_devices s) (m_ram s) (m_rom s) (m_timer s) (m_io s) v (m_log s).
Definition set_m_log (v : list event) (s : machine) : machine :=
  mk_machine (m_reg s) (m_cpu s) (m_tcs s) (m_nextIndex s) (m_caches s) (m_nextVictim s)
    (m_oldrV s) (m_vtr s) (m_devices s) (m_ram s) (m_rom s) (m_timer s) (m_io s) (m_cfg s) v.

Definition zero_args : sInstrArgs := mk_sInstrArgs 0 0 0.

(** The static variables as C initialises them. *)
Definition io_off : io_state :=
  mk_io_state (mk_disk_state (fun _ => 0) 0 0 0 0 0 (fun _ => 0) 0)
    (fun _ => mk_sTerminal 0 0 0 0 0 0 [] []) 0 [] false
    (mk_kbd_state (fun _ => 0) 0 0 0 0)
    (mk_dsp_state (fun _ _ => 0) (fun _ _ => (0, 0, 0)) false false) false.

Definition power_on (cfg : config) : machine :=
  mk_machine
    (mk_regs (fun _ => 0) (fun _ => 0) (fun _ => 0) 0 0 0 0)
    (mk_cpu_state 0 false false false 0 0 0 0 0 0 false 0 0 zero_args zero_args 0)
    (fun _ => mk_sTranslationCache (fun _ => mk_sTCEntry 0 0) (wrap64 (-1)) (wrap64 (-1)) 0) 0
    (fun c => mk_sCache (match c with SInstr => 8 | SData => 16 end)%nat 32 0 (MSB 64) None
                (fun _ => mk_sCacheBlock 0 false (fun _ => 0))) 0
    (wrap64 (-1)) (mk_sVirtTransReg (fun _ => 0) 0 0 0 0 false)
    [] (mk_ram_state NULL None 0) (fun _ => 0)
    (mk_timer_state [] 0 0 0 0 0) io_off cfg [].

Definition default_config : config := mk_config (32 * 1024 * 1024) false false 0x8000000000001000.

(** ** The monad *)

Inductive outcome (A : Type) :=
| Ret (a : A)
| Throw (ex : exn) (bits : Z)
| Stop (h : halt).
Arguments Ret {A} a.
Arguments Throw {A} ex bits.
Arguments Stop {A} h.

Definition M (A : Type) : Type := machine -> outcome A * machine.

#[export] Instance M_ret : MRet M := fun A a m => (Ret a, m).
#[export] Instance M_bind : MBind M := fun A B f c m =>
  match c m with
  | (Ret a, m) => f a m
  | (Throw ex bits, m) => (Throw ex bits, m)
  | (Stop h, m) => (Stop h, m)
  end.

Definition gets {A} (f : machine -> A) : M A := fun m => (Ret (f m), m).
Definition modify (f : machine -> machine) : M unit := fun m => (Ret tt, f m).
Definition stop {A} (h : halt) : M A := fun m => (Stop h, m).
Definition assert (b : bool) : M unit := if b then mret tt else stop AssertFail.
Definition when (b : bool) (c : M unit) : M unit := if b then c else mret tt.

(** [ex_throw]; [setjmp] with [ex_push] and [ex_pop] around the protected part: the
    handler sees the exception and its bits. *)
Definition ex_throw {A} (ex : exn) (bits : Z) : M A := fun m => (Throw ex bits, m).
Definition catch {A} (c : M A) (handler : exn -> Z -> M A) : M A := fun m =>
  match c m with
  | (Throw ex bits, m) => handler ex bits m
  | r => r
  end.

Definition ev_fire (e : event) : M unit := modify (fun m => set_m_log (e :: m_log m) m).

Definition on_reg (f : regs -> regs) : M unit :=
  modify (fun m => set_m_reg (f (m_reg m)) m).
Definition on_cpu (f : cpu_state -> cpu_state) : M unit :=
  modify (fun m => set_m_cpu (f (m_cpu m)) m).
Definition on_timer (f : timer_state -> timer_state) : M unit :=
  modify (fun m => set_m_timer (f (m_timer m)) m).
Definition on_io (f : io_state -> io_state) : M unit :=
  modify (fun m => set_m_io (f (m_io m)) m).

(** [x << n] and [x >> n] of a 64-bit operand: C leaves the result undefined when
    the count is negative or not below the width. *)
Definition c_shl64 (x n : Z) : M Z :=
  if (0 <=? n) && (n <? 64) then mret (shl64 x n) else stop Undefined.
Definition c_sar64 (x n : Z) : M Z :=
  if (0 <=? n) && (n <? 64) then mret (wrap64 (socta x .>> n)) else stop Undefined.

(** [for(addr = lo; addr < lo + n; ...)] over a monadic body. *)
Fixpoint for_m (n : nat) (i : Z) (f : Z -> M unit) : M unit :=
  match n with
  | O => mret tt
  | Datatypes.S n => f i;; for_m n (i + 1) f
  end.

(** [while(cond) body] with a bound on the iterations. *)
Fixpoint while_m (fuel : nat) (cond : machine -> bool) (body : M unit) : M unit :=
  match fuel with
  | O => stop OutOfFuel
  | Datatypes.S fuel =>
    b ← gets cond; if b : bool then body;; while_m fuel cond body else mret tt
  end.

(** ** Reasoning about [M] *)

Section Equations.
Context {A B : Type}.

Lemma bind_ret (c : M A) (f : A -> M B) m a m' :
  c m = (Ret a, m') -> (c ≫= f) m = f a m'.
Proof. unfold mbind, M_bind. intros ->. reflexivity. Qed.

Lemma bind_throw (c : M A) (f : A -> M B) m ex bits m' :
  c m = (Throw ex bits, m') -> (c ≫= f) m = (Throw ex bits, m').
Proof. unfold mbind, M_bind. intros ->. reflexivity. Qed.

Lemma bind_stop (c : M A) (f : A -> M B) m h m' :
  c m = (Stop h, m') -> (c ≫= f) m = (Stop h, m').
Proof. unfold mbind, M_bind. intros ->. reflexivity. Qed.

Lemma catch_ret (c : M A) h m a m' : c m = (Ret a, m') -> catch c h m = (Ret a, m').
Proof. unfold catch. intros ->. reflexivity. Qed.

Lemma catch_throw (c : M A) h m ex bits m' :
  c m = (Throw ex bits, m') -> catch c h m = h ex bits m'.
Proof. unfold catch. intros ->. reflexivity. Qed.

Lemma bind_mret (a : A) (f : A -> M B) m : (mret a ≫= f) m = f a m.
Proof. reflexivity. Qed.

Lemma bind_gets (g : machine -> A) (f : A -> M B) m : (gets g ≫= f) m = f (g m) m.
Proof. reflexivity. Qed.

Lemma bind_modify (g : machine -> machine) (f : unit -> M B) m :
  (modify g ≫= f) m = f tt (g m).
Proof. reflexivity. Qed.

Lemma bind_on_reg (g : regs -> regs) (f : unit -> M B) m :
  (on_reg g ≫= f) m = f tt (set_m_reg (g (m_reg m)) m).
Proof. reflexivity. Qed.

Lemma bind_assoc {C} (c : M A) (f : A -> M B) (g : B -> M C) m :
  ((c ≫= f) ≫= g) m = (c ≫= (fun a => f a ≫= g)) m.
Proof. unfold mbind, M_bind. destruct (c m) as [[]]; reflexivity. Qed.

(** Two continuations that agree on the results of [c]. *)
Lemma bind_ext (c : M A) (f g : A -> M B) m :
  (forall a m', c m = (Ret a, m') -> f a m' = g a m') -> (c ≫= f) m = (c ≫= g) m.
Proof. unfold mbind, M_bind. destruct (c m) as [[]] eqn:E; auto. Qed.
End Equations.

(** [wp c m Q]: [c], run in [m], ends in an outcome and a state that satisfy [Q]. *)
Definition wp {A} (c : M A) (m : machine) (Q : outcome A -> machine -> Prop) : Prop :=
  Q (fst (c m)) (snd (c m)).

Section Wp.
Context {A B : Type}.
Implicit Types (m : machine).

Lemma wp_mono (c : M A) m (P Q : outcome A -> machine -> Prop) :
  wp c m P -> (forall o m', P o m' -> Q o m') -> wp c m Q.
Proof. unfold wp; auto. Qed.

Lemma wp_eq (c : M A) m o m' Q : c m = (o, m') -> Q o m' -> wp c m Q.
Proof. unfold wp. intros ->; trivial. Qed.

Lemma wp_ret (a : A) m (Q : outcome A -> machine -> Prop) : Q (Ret a) m -> wp (mret a) m Q.
Proof. trivial. Qed.

Lemma wp_throw ex bits m (Q : outcome A -> machine -> Prop) :
  Q (Throw ex bits) m -> wp (ex_throw ex bits) m Q.
Proof. trivial. Qed.

Lemma wp_stop h m (Q : outcome A -> machine -> Prop) : Q (Stop h) m -> wp (stop h) m Q.
Proof. trivial. Qed.

Lemma wp_bind (c : M A) (f : A -> M B) m Q :
  wp c m (fun o m' => match o with
                      | Ret a => wp (f a) m' Q
                      | Throw ex bits => Q (Throw ex bits) m'
                      | Stop h => Q (Stop h) m'
                      end) -> wp (c ≫= f) m Q.
Proof. unfold wp, mbind, M_bind. destruct (c m) as [[]]; trivial. Qed.

Lemma wp_catch (c : M A) h m Q :
  wp c m (fun o m' => match o with
                      | Throw ex bits => wp (h ex bits) m' Q
                      | _ => Q o m'
                      end) -> wp (catch c h) m Q.
Proof. unfold wp, catch. destruct (c m) as [[]]; trivial. Qed.
End Wp.

(** The invariant rule of a loop whose iterations all return. *)
Lemma for_m_inv (P : Z -> machine -> Prop) n i f m :
  P i m ->
  (forall j m, i <= j < i + Z.of_nat n -> P j m -> exists m', f j m = (Ret tt, m') /\ P (j + 1) m') ->
  exists m', for_m n i f m = (Ret tt, m') /\ P (i + Z.of_nat n) m'.
Proof.
  revert i m; induction n as [|n IH]; intros i m H Hf; cbn [for_m].
  - exists m. split; [reflexivity|]. replace (i + Z.of_nat 0) with i by lia. trivial.
  - destruct (Hf i m ltac:(lia) H) as (m1 & E & H1).
    destruct (IH (i + 1) m1 H1) as (m2 & E2 & H2); [intros; apply Hf; [lia|trivial]|].
    exists m2. split; [rewrite (bind_ret _ _ _ _ _ E); trivial|].
    replace (i + Z.of_nat (Datatypes.S n)) with (i + 1 + Z.of_nat n) by lia. trivial.
Qed.

(** The rule of a [while] loop with a measure: it ends within the fuel. *)
Lemma while_m_inv (P : machine -> Prop) (mu : machine -> Z) cond body fuel m :
  (forall m, P m -> cond m = true -> 0 <= mu m /\ exists m', body m = (Ret tt, m') /\ P m' /\ mu m' < mu m) ->
  P m -> mu m + 1 < Z.of_nat fuel -> (0 < fuel)%nat ->
  exists m', while_m fuel cond body m = (Ret tt, m') /\ P m' /\ cond m' = false.
Proof.
  intros Hb. revert m; induction fuel as [|fuel IH]; intros m HP Hmu Hf; [lia|].
  cbn [while_m]. rewrite bind_gets. destruct (cond m) eqn:E; [|exists m; auto].
  destruct (Hb m HP E) as (H0 & m1 & E1 & HP1 & Hm1).
  rewrite (bind_ret _ _ _ _ _ E1). apply IH; [trivial|lia|lia].
Qed.

(** *** Frames

    [keeps R c]: whatever its outcome, [c] moves the state along the preorder [R]. *)
Definition keeps {A} (R : relation machine) (c : M A) : Prop := forall m, R m (snd (c m)).

Section Keeps.
Context (R : relation machine) `{!PreOrder R}.

Lemma keeps_ret {A} (a : A) : keeps R (mret a).
Proof. intros m. reflexivity. Qed.

Lemma keeps_throw {A} ex bits : keeps R (@ex_throw A ex bits).
Proof. intros m. reflexivity. Qed.

Lemma keeps_stop {A} h : keeps R (@stop A h).
Proof. intros m. reflexivity. Qed.

Lemma keeps_gets {A} (f : machine -> A) : keeps R (gets f).
Proof. intros m. reflexivity. Qed.

Lemma keeps_modify f : (forall m, R m (f m)) -> keeps R (modify f).
Proof. intros H m. apply H. Qed.

Lemma keeps_bind {A B} (c : M A) (f : A -> M B) :
  keeps R c -> (forall a, keeps R (f a)) -> keeps R (c ≫= f).
Proof.
  intros Hc Hf m. specialize (Hc m). unfold mbind, M_bind.
  destruct (c m) as [[a| |] m']; trivial. etransitivity; [exact Hc|apply Hf].
Qed.

Lemma keeps_catch {A} (c : M A) h :
  keeps R c -> (forall ex bits, keeps R (h ex bits)) -> keeps R (catch c h).
Proof.
  intros Hc Hh m. specialize (Hc m). unfold catch.
  destruct (c m) as [[| |] m']; trivial. etransitivity; [exact Hc|apply Hh].
Qed.

Lemma keeps_assert b : keeps R (assert b).
Proof. destruct b; [apply keeps_ret|apply keeps_stop]. Qed.

Lemma keeps_when b c : keeps R c -> keeps R (when b c).
Proof. destruct b; [trivial|intros _; apply keeps_ret]. Qed.

Lemma keeps_for n i f : (forall i, keeps R (f i)) -> keeps R (for_m n i f).
Proof.
  intros Hf. revert i; induction n as [|n IH]; intros i; cbn [for_m];
    [apply keeps_ret|apply keeps_bind; auto].
Qed.

Lemma keeps_while fuel cond body : keeps R body -> keeps R (while_m fuel cond body).
Proof.
  intros Hb. induction fuel as [|fuel IH]; cbn [while_m]; [apply keeps_stop|].
  apply keeps_bind; [apply keeps_gets|]. intros []; [|apply keeps_ret].
  apply keeps_bind; auto.
Qed.

Lemma keeps_shl x n : keeps R (c_shl64 x n).
Proof. unfold c_shl64. case_match; [apply keeps_ret|apply keeps_stop]. Qed.

Lemma keeps_sar x n : keeps R (c_sar64 x n).
Proof. unfold c_sar64. case_match; [apply keeps_ret|apply keeps_stop]. Qed.
End Keeps.

(** Structural goals [keeps R c]; the operations are left to the database [keeps]. *)
Create HintDb keeps.
#[export] Hint Resolve keeps_ret keeps_throw keeps_stop keeps_gets keeps_assert
  keeps_shl keeps_sar : keeps.
Ltac keeps_step :=
  lazymatch goal with
  | |- keeps _ (_ ≫= _) => apply keeps_bind; [typeclasses eauto| |intros ?]
  | |- keeps _ (when _ _) => apply keeps_when; [typeclasses eauto|]
  | |- keeps _ (catch _ _) => apply keeps_catch; [typeclasses eauto| |intros ? ?]
  | |- keeps _ (for_m _ _ _) => apply keeps_for; [typeclasses eauto|intros ?]
  | |- keeps _ (while_m _ _ _) => apply keeps_while; [typeclasses eauto|]
  | |- keeps _ (match _ with _ => _ end) => case_match
  end.
Ltac keeps_tac := repeat (solve [eauto 3 with keeps typeclass_instances] || keeps_step).

(** The relation that keeps the value of a field. *)
Definition same {A} (f : machine -> A) : relation machine := fun m m' => f m' = f m.

#[export] Instance same_preorder {A} (f : machine -> A) : PreOrder (same f).
Proof. split; unfold same; [intros ?; reflexivity|intros ? ? ? -> ->; reflexivity]. Qed.

#[export] Hint Extern 2 (keeps (same _) (modify _)) =>
  apply keeps_modify; intros ?; reflexivity : keeps.
#[export] Hint Extern 2 (keeps (same _) (ev_fire _)) =>
  apply keeps_modify; intros ?; reflexivity : keeps.
#[export] Hint Extern 2 (keeps (same _) (on_reg _)) =>
  apply keeps_modify; intros ?; reflexivity : keeps.
#[export] Hint Extern 2 (keeps (same _) (on_cpu _)) =>
  apply keeps_modify; intros ?; reflexivity : keeps.
#[export] Hint Extern 2 (keeps (same _) (on_timer _)) =>
  apply keeps_modify; intros ?; reflexivity : keeps.
#[export] Hint Extern 2 (keeps (same _) (on_io _)) =>
  apply keeps_modify; intros ?; reflexivity : keeps.

(** Everything that an access to RAM leaves alone. *)
Definition core (m : machine) :=
  (m_reg m, m_cpu m, m_tcs m, m_nextIndex m, (m_oldrV m, m_vtr m), m_devices m, m_rom m,
   m_timer m, m_io m, m_cfg m).

(** ** The interface of a memory

    What the layers above a memory rely on: in a state that satisfies [ok], the octa
    of an address in [dom] is read and written like a cell of the flat memory [view],
    and the fields [frame] stay as they are. *)

(** The address of the octa that holds the byte at [a]. *)
Definition align8 (a : Z) : Z := a - a mod 8.

Class FlatMemory {F} (ok : machine -> Prop) (dom : machine -> Z -> Prop)
    (view : machine -> Z -> Z) (frame : machine -> F)
    (read : Z -> M Z) (write : Z -> Z -> M unit) : Prop := {
  fm_octa a m : ok m -> dom m a -> is_octa (view m (align8 a));
  fm_read a m : ok m -> dom m a ->
    exists m', read a m = (Ret (view m (align8 a)), m') /\ ok m' /\ frame m' = frame m /\
      (forall b, dom m b -> dom m' b /\ (octa_addr b -> view m' b = view m b));
  fm_write a v m : ok m -> dom m a -> is_octa v ->
    exists m', write a v m = (Ret tt, m') /\ ok m' /\ frame m' = frame m /\
      (forall b, dom m b -> dom m' b /\
                 (octa_addr b -> view m' b = if b =? align8 a then v else view m b))
}.

(** Fewer fields are kept. *)
Lemma flat_memory_weaken {F G} (g : F -> G) ok dom view (frame : machine -> F) read write :
  FlatMemory ok dom view frame read write ->
  FlatMemory ok dom view (fun m => g (frame m)) read write.
Proof.
  intros [H1 H2 H3]. split; [exact H1|..].
  - intros a m Ho Hd. destruct (H2 a m Ho Hd) as (m' & E & ? & Ef & ?). exists m'. rewrite Ef. auto.
  - intros a v m Ho Hd Hv. destruct (H3 a v m Ho Hd Hv) as (m' & E & ? & Ef & ?). exists m'. rewrite Ef. auto.
Qed.
