(* ===== verification/Registers.v ===== *)
(** * Register access and the CPU's exception bookkeeping

    The accessors of include/core/register.h, the inline functions of
    include/core/cpu.h and the functions of cpu.c that the other modules call. *)

From Stdlib Require Import ZArith Lia Bool Btauto.
From stdpp Require Import base list numbers option.
From S2P Require Import Prelude Ram Machine.

(** ** include/core/register.h *)

(** The conversion of an octa to a (32-bit) [int]. *)
Definition to_int (x : Z) : Z := signed 32 (wrap32 x).

Definition reg_getLocal (rno : Z) : M Z :=
  gets (fun m => r_local (m_reg m) (rno .& LREG_MASK)).

Definition reg_setLocal (rno value : Z) : M unit :=
  on_reg (fun r => set_r_local (upd (r_local r) (rno .& LREG_MASK) value) r).

Definition reg_getGlobal (rno : Z) : M Z :=
  assert (Z.max (256 - 224) MIN_GLOBAL <=? rno);;
  gets (fun m => r_global (m_reg m) (rno .& GREG_MASK)).

Definition reg_setGlobal (rno value : Z) : M unit :=
  assert (Z.max (256 - 224) MIN_GLOBAL <=? rno);;
  on_reg (fun r => set_r_global (upd (r_global r) (rno .& GREG_MASK) value) r).

Definition reg_getSpecial (rno : Z) : M Z :=
  assert (rno <? SPECIAL_NUM);;
  gets (fun m => r_special (m_reg m) rno).

(** The assignment to a shortcut that follows [special[rno] = value]. *)
Definition sync_shortcut (rno value : Z) (r : regs) : regs :=
  if rno =? rG then set_r_G (to_int value) r
  else if rno =? rL then set_r_L (to_int value) r
  else if rno =? rS then set_r_S (value / 8) r
  else if rno =? rO then set_r_O (value / 8) r
  else r.

Definition put_special (rno value : Z) (r : regs) : regs :=
  sync_shortcut rno value (set_r_special (upd (r_special r) rno value) r).

Definition reg_setSpecial (rno value : Z) : M unit :=
  assert (rno <? SPECIAL_NUM);;
  on_reg (put_special rno value).

(** The value [reg_get] returns. *)
Definition reg_val (r : regs) (rno : Z) : Z :=
  if r_G r <=? rno then r_global r (rno .& GREG_MASK)
  else if rno <? r_L r then r_local r ((r_O r +o rno) .& LREG_MASK)
  else 0.

Definition reg_get (rno : Z) : M Z := gets (fun m => reg_val (m_reg m) rno).

(** ** include/core/cpu.h *)

Definition cpu_getPC : M Z := gets (fun m => c_pc (m_cpu m)).

Definition cpu_setPC (npc : Z) : M unit :=
  on_cpu (fun c => set_c_pcChanged true (set_c_halted false (set_c_pc npc c))).

(** A negative address. *)
Definition priv (a : Z) : bool := truth (a .& MSB 64).

Definition cpu_isPriv : M bool := gets (fun m => priv (c_pc (m_cpu m))).

Definition cpu_hasPCChanged : M bool := gets (fun m => c_pcChanged (m_cpu m)).

Definition cpu_isPCOk (npc : Z) : M bool :=
  gets (fun m => negb (negb (priv (c_pc (m_cpu m))) && priv (npc +o 4))).

(** ** cpu.c *)

Definition cpu_setInterrupt (irq : Z) : M unit :=
  q ← reg_getSpecial rQ;
  b ← c_shl64 1 irq;
  reg_setSpecial rQ (q .| b).

Definition cpu_resetInterrupt (irq : Z) : M unit :=
  q ← reg_getSpecial rQ;
  b ← c_shl64 1 irq;
  reg_setSpecial rQ (q .& not64 b).

Definition cpu_getInstrsSinceTick : M Z := gets (fun m => c_instrCount (m_cpu m)).
Definition cpu_setInstrsSinceTick (count : Z) : M unit := on_cpu (set_c_instrCount count).

(** [while(!(enabled & k) && k >= 1) k >>= 1], at most nine iterations from 0x80. *)
Fixpoint leftmost_bit (fuel : nat) (enabled k : Z) : Z :=
  match fuel with
  | O => k
  | S fuel =>
    if negb (truth (enabled .& k)) && (1 <=? k) then leftmost_bit fuel enabled (k .>> 1) else k
  end.

Definition cpu_setArithEx (bits : Z) : M unit :=
  assert (bits .& not64 0xFF =? 0);;
  ra ← reg_getSpecial rA;
  p ← cpu_isPriv;
  let ra := if p : bool then ra .& not64 0xFF00 else ra in
  let bits :=
    if ((bits .& (TRIP_FLOATUNDER + TRIP_FLOATINEXACT)) =? TRIP_FLOATUNDER)
       && negb (truth (ra .& (TRIP_FLOATUNDER * 2 ^ 8)))
    then bits .& not64 TRIP_FLOATUNDER else bits in
  let enabled := bits .& (ra .>> 8) in
  bits ← (if negb p && truth enabled then
            let k := leftmost_bit 9 enabled 0x80 in
            on_cpu (fun c => set_c_arithEx (wrap8 (c_arithEx c .| k)) c);;
            mret (bits .& not64 k)
          else mret bits);
  if truth bits then
    ra ← reg_getSpecial rA;
    reg_setSpecial rA (ra .| bits)
  else mret tt.

Definition cpu_setMemEx (ex : exn) (bits addr value : Z) (sideEffects : bool) : M bool :=
  let store :=
    when sideEffects
      (on_cpu (fun c => set_c_pagefaultValue value (set_c_pagefaultAddr addr c)));;
    mret true in
  if decide (ex = EX_DYNAMIC_TRAP) then
    let bits := bits .& not64 TRAP_REPEAT in
    k ← reg_getSpecial rK;
    if negb (truth (bits .& k)) then
      when sideEffects (q ← reg_getSpecial rQ; reg_setSpecial rQ (q .| bits));;
      mret false
    else store
  else store.

Definition cpu_pause : M unit := on_cpu (set_c_run false).

Definition cpu_halt : M unit :=
  on_cpu (fun c => set_c_halted true (set_c_run false c));;
  ev_fire EV_CPU_HALTED.

Definition cpu_setResumeInstr (raw : Z) : M unit :=
  on_cpu (fun c => set_c_useResume true (set_c_instrRawResume raw c)).

Definition cpu_setResumeInstrArgs (args : sInstrArgs) : M unit :=
  on_cpu (set_c_iargsResume args).

(** ** Lemmas *)

Lemma getSpecial_eq rno m :
  rno < SPECIAL_NUM -> reg_getSpecial rno m = (Ret (r_special (m_reg m) rno), m).
Proof.
  intros H. apply Z.ltb_lt in H. unfold reg_getSpecial. rewrite H. reflexivity.
Qed.

Lemma setSpecial_eq rno v m :
  rno < SPECIAL_NUM ->
  reg_setSpecial rno v m = (Ret tt, set_m_reg (put_special rno v (m_reg m)) m).
Proof.
  intros H. apply Z.ltb_lt in H. unfold reg_setSpecial. rewrite H. reflexivity.
Qed.

Lemma c_shl64_eq x n m : 0 <= n < 64 -> c_shl64 x n m = (Ret (shl64 x n), m).
Proof.
  intros [H1 H2]. apply Z.leb_le in H1. apply Z.ltb_lt in H2.
  unfold c_shl64. rewrite H1, H2. reflexivity.
Qed.

Lemma priv_spec a : is_octa a -> priv a = negb (a <? 2 ^ 63).
Proof. apply truth_msb. Qed.

Lemma keeps_getSpecial (R : relation machine) `{!PreOrder R} rno : keeps R (reg_getSpecial rno).
Proof. unfold reg_getSpecial. keeps_tac. Qed.

Lemma keeps_setSpecial {A} (f : machine -> A) rno v :
  (forall r m, f (set_m_reg r m) = f m) -> keeps (same f) (reg_setSpecial rno v).
Proof.
  intros H. unfold reg_setSpecial. keeps_tac. apply keeps_modify. intros m. apply H.
Qed.

#[export] Hint Resolve keeps_getSpecial : keeps.
#[export] Hint Extern 2 (keeps (same _) (reg_setSpecial _ _)) =>
  apply keeps_setSpecial; intros ? ?; reflexivity : keeps.

Lemma keeps_setInterrupt {A} (f : machine -> A) irq :
  (forall r m, f (set_m_reg r m) = f m) -> keeps (same f) (cpu_setInterrupt irq).
Proof.
  intros H. unfold cpu_setInterrupt. keeps_tac. apply keeps_setSpecial; trivial.
Qed.

Lemma keeps_resetInterrupt {A} (f : machine -> A) irq :
  (forall r m, f (set_m_reg r m) = f m) -> keeps (same f) (cpu_resetInterrupt irq).
Proof.
  intros H. unfold cpu_resetInterrupt. keeps_tac. apply keeps_setSpecial; trivial.
Qed.

Lemma setInterrupt_eq irq m :
  0 <= irq < 64 ->
  cpu_setInterrupt irq m =
    (Ret tt, set_m_reg (put_special rQ (r_special (m_reg m) rQ .| 2 ^ irq) (m_reg m)) m).
Proof.
  intros H. unfold cpu_setInterrupt.
  rewrite (bind_ret _ _ _ _ _ (getSpecial_eq rQ m eq_refl)).
  rewrite (bind_ret _ _ _ _ _ (c_shl64_eq 1 irq m H)), setSpecial_eq by lia.
  rewrite shl_exact, Z.mul_1_l; [reflexivity|lia|].
  pose proof (pow2_pos irq). pose proof (Z.pow_lt_mono_r 2 irq 64). wordlia.
Qed.

Lemma put_special_same rno v r : r_special (put_special rno v r) rno = v.
Proof.
  unfold put_special, sync_shortcut. repeat case_match; cbn; apply upd_same.
Qed.

Lemma put_special_other rno rno' v r :
  rno' <> rno -> r_special (put_special rno v r) rno' = r_special r rno'.
Proof.
  intros H. unfold put_special, sync_shortcut. repeat case_match; cbn; apply upd_other; trivial.
Qed.
