(* ===== verification/Devices.v ===== *)
(** * The modelled devices (gimmix/src/dev/{ram,rom,timer}.c)

    RAM and ROM answer the bus; the timer also counts ticks and keeps the queue of
    simulation timers.  A callback of a simulation timer is a function of the device
    that started it, and a parameter here. *)

From Stdlib Require Import ZArith Lia Bool.
From stdpp Require Import base list numbers option sorting.
From S2P Require Import Prelude Ram Machine Registers.

Abbreviation DEV_REG_MASK := 0xFFFFFFFF.

(** ** ram.c *)

Definition ram_read (addr : Z) (sideEffects : bool) : M Z :=
  size ← gets (fun m => cfg_ramSize (m_cfg m));
  if size <=? addr then ex_throw EX_DYNAMIC_TRAP TRAP_NONEX_MEMORY
  else fun m =>
    let '(v, s) := ram_doRead addr (m_ram m) in (Ret v, set_m_ram s m).

Definition ram_write (addr value : Z) : M unit :=
  size ← gets (fun m => cfg_ramSize (m_cfg m));
  if size <=? addr then ex_throw EX_DYNAMIC_TRAP TRAP_NONEX_MEMORY
  else modify (fun m => set_m_ram (ram_doWrite addr value (m_ram m)) m).

(** [ram_reset] without a program file. *)
Definition ram_reset : M unit := modify (set_m_ram ram_reset_state).

(** ** rom.c *)

Abbreviation ROM_START_ADDR := 0x0000FFFF00000000.
Abbreviation ROM_SIZE := 0x100000.

Definition rom_octa (rom : arr) (a : Z) : Z :=
  shl64 (rom (a + 0)) 56 .| shl64 (rom (a + 1)) 48 .| shl64 (rom (a + 2)) 40
  .| shl64 (rom (a + 3)) 32 .| shl64 (rom (a + 4)) 24 .| shl64 (rom (a + 5)) 16
  .| shl64 (rom (a + 6)) 8 .| shl64 (rom (a + 7)) 0.

Definition rom_read (addr : Z) (sideEffects : bool) : M Z :=
  if (ROM_START_ADDR <=? addr) && (addr <=? ROM_START_ADDR + ROM_SIZE - 8) then
    gets (fun m => rom_octa (m_rom m) (addr - ROM_START_ADDR))
  else ex_throw EX_DYNAMIC_TRAP TRAP_NONEX_MEMORY.

Definition rom_write (addr data : Z) : M unit :=
  ex_throw EX_DYNAMIC_TRAP TRAP_NONEX_MEMORY.

(** [rom_reset] with an image of [size] bytes: the rest of the ROM reads 0xFF.  An
    empty image cannot be read: [fread] of an item of size 0 returns 0. *)
Definition rom_reset (size : Z) (image : arr) : M unit :=
  when (size =? 0) (stop SimError);;
  modify (set_m_rom (fun i => if i <? size then image i else 0xFF)).

(** ** timer.c *)

Abbreviation TIMER_CTRL := 0.
Abbreviation TIMER_DIVISOR := 8.
Abbreviation TIMER_EXP := 1.
Abbreviation TIMER_IEN := 2.
Abbreviation TIMER_IRQ := 52.
Abbreviation TIMER_START_ADDR := 0x0001000000000000.
Abbreviation TIMER_COUNT := 20%nat.
Abbreviation TIME_WRAP := 1000000000000.

Definition timer_reset : M unit :=
  on_timer (fun t =>
    mk_timer_state [] (length (t_activeTimers t) + t_freeTimers t) 0
                   0 0xFFFFFFFFFFFFFFFF 0xFFFFFFFFFFFFFFFF).

(** The first part of [timer_tick]: the current time, and the alarms when it wraps. *)
Definition timer_advance (t : timer_state) : timer_state :=
  let now := t_currentTime t +o 1 in
  if now =? TIME_WRAP then
    set_t_activeTimers
      (map (fun x => mk_sTimer (tm_alarm x -o TIME_WRAP) (tm_device x) (tm_callback x) (tm_param x))
           (t_activeTimers t))
      (set_t_currentTime (now - TIME_WRAP) t)
  else set_t_currentTime now t.

Section Tick.
Context (run_callback : Z -> Z -> M unit).

(** The loop over the expired timers. *)
Fixpoint timer_expire (fuel : nat) : M unit :=
  match fuel with
  | O => stop OutOfFuel
  | S fuel =>
    t ← gets m_timer;
    match t_activeTimers t with
    | x :: rest =>
      if tm_alarm x <=? t_currentTime t then
        on_timer (set_t_activeTimers rest);;
        ev_fire (EV_DEV_CALLBACK (tm_device x) (tm_param x));;
        run_callback (tm_callback x) (tm_param x);;
        on_timer (fun t => set_t_freeTimers (S (t_freeTimers t)) t);;
        timer_expire fuel
      else mret tt
    | [] => mret tt
    end
  end.

Definition timer_tick (fuel : nat) : M unit :=
  on_timer timer_advance;;
  timer_expire fuel;;
  on_timer (fun t => set_t_timerCounter (t_timerCounter t -o 1) t);;
  t ← gets m_timer;
  when (t_timerCounter t =? 0)
    (on_timer (fun t => set_t_timerCtrl (t_timerCtrl t .| TIMER_EXP)
                          (set_t_timerCounter (t_timerDivisor t) t));;
     t ← gets m_timer;
     when (truth (t_timerCtrl t .& TIMER_IEN)) (cpu_setInterrupt TIMER_IRQ)).
End Tick.

(** The loop that links a timer into the queue behind its head [p]. *)
Fixpoint timer_link (x : sTimer) (next : list sTimer) : list sTimer :=
  match next with
  | p :: rest => if tm_alarm p <=? tm_alarm x then p :: timer_link x rest else x :: next
  | [] => [x]
  end.

Definition timer_insert (x : sTimer) (active : list sTimer) : list sTimer :=
  match active with
  | [] => x :: active
  | p :: rest => if tm_alarm x <? tm_alarm p then x :: active else p :: timer_link x rest
  end.

Definition timer_start (msec device callback param : Z) : M unit :=
  t ← gets m_timer;
  match t_freeTimers t with
  | O => stop SimError
  | S n =>
    let x := mk_sTimer (t_currentTime t +o msec) device callback param in
    on_timer (fun t => set_t_freeTimers n
                         (set_t_activeTimers (timer_insert x (t_activeTimers t)) t))
  end.

Definition timer_read (addr : Z) (sideEffects : bool) : M Z :=
  let reg := to_int (addr .& DEV_REG_MASK) in
  if reg =? TIMER_CTRL then gets (fun m => t_timerCtrl (m_timer m))
  else if reg =? TIMER_DIVISOR then gets (fun m => t_timerDivisor (m_timer m))
  else ex_throw EX_DYNAMIC_TRAP TRAP_NONEX_MEMORY.

(** [if(data & bit) ctrl |= bit; else ctrl &= ~bit] *)
Definition copy_bit (data bit ctrl : Z) : Z :=
  if truth (data .& bit) then ctrl .| bit else ctrl .& not64 bit.

Definition timer_write (addr data : Z) : M unit :=
  let reg := to_int (addr .& DEV_REG_MASK) in
  if reg =? TIMER_CTRL then
    on_timer (fun t => set_t_timerCtrl
                (copy_bit data TIMER_EXP (copy_bit data TIMER_IEN (t_timerCtrl t))) t);;
    t ← gets m_timer;
    if truth (t_timerCtrl t .& TIMER_IEN) && truth (t_timerCtrl t .& TIMER_EXP)
    then cpu_setInterrupt TIMER_IRQ
    else cpu_resetInterrupt TIMER_IRQ
  else if reg =? TIMER_DIVISOR then
    on_timer (fun t => set_t_timerCounter data (set_t_timerDivisor data t))
  else ex_throw EX_DYNAMIC_TRAP TRAP_NONEX_MEMORY.

(** ** The queue of simulation timers *)

Definition earlier (x y : sTimer) : Prop := tm_alarm x <= tm_alarm y.

(** The timers that are due at [now], and the others. *)
Definition due (now : Z) (l : list sTimer) : list sTimer := filter (fun x => tm_alarm x <= now) l.
Definition pending (now : Z) (l : list sTimer) : list sTimer := filter (fun x => now < tm_alarm x) l.

Lemma due_none now l : Forall (fun x => now < tm_alarm x) l -> due now l = [] /\ pending now l = l.
Proof.
  unfold due, pending. induction 1 as [|x l Hx _ [IH1 IH2]]; [auto|].
  rewrite !filter_cons, IH1, IH2, decide_False, decide_True by lia. auto.
Qed.

Lemma due_cons now x l : tm_alarm x <= now -> due now (x :: l) = x :: due now l.
Proof. intros H. unfold due. rewrite filter_cons, decide_True by trivial. reflexivity. Qed.

Lemma pending_cons now x l : tm_alarm x <= now -> pending now (x :: l) = pending now l.
Proof. intros H. unfold pending. rewrite filter_cons, decide_False by lia. reflexivity. Qed.

Lemma queue_after x l :
  StronglySorted earlier (x :: l) -> forall now, now < tm_alarm x -> Forall (fun y => now < tm_alarm y) (x :: l).
Proof.
  intros H now Hx. apply StronglySorted_inv in H as [_ H]. constructor; [trivial|].
  eapply Forall_impl; [exact H|]. unfold earlier. cbn. intros; lia.
Qed.

Lemma timer_link_spec x l :
  StronglySorted earlier l ->
  timer_link x l = due (tm_alarm x) l ++ x :: pending (tm_alarm x) l.
Proof.
  induction l as [|p l IH]; intros Hs; [reflexivity|]. cbn [timer_link].
  destruct (Z.leb_spec (tm_alarm p) (tm_alarm x)) as [Hp|Hp].
  - apply StronglySorted_inv in Hs as [Hs _]. rewrite IH, due_cons, pending_cons by trivial.
    reflexivity.
  - destruct (due_none (tm_alarm x) (p :: l)) as [-> ->]; [eapply queue_after; eauto|reflexivity].
Qed.

Lemma timer_insert_spec x l :
  StronglySorted earlier l ->
  timer_insert x l = due (tm_alarm x) l ++ x :: pending (tm_alarm x) l.
Proof.
  intros Hs. rewrite <- timer_link_spec by trivial. destruct l as [|p l]; [reflexivity|].
  cbn [timer_insert timer_link]. rewrite Z.ltb_antisym. destruct (_ <=? _); reflexivity.
Qed.

Lemma earlier_app l1 x l2 :
  StronglySorted earlier l1 -> StronglySorted earlier l2 ->
  Forall (fun y => tm_alarm y <= tm_alarm x) l1 -> Forall (fun y => tm_alarm x < tm_alarm y) l2 ->
  StronglySorted earlier (l1 ++ x :: l2).
Proof.
  intros H1 H2 F1 F2. induction H1 as [|y l1 H1 IH Hy]; cbn.
  - constructor; [trivial|]. eapply Forall_impl; [exact F2|]. unfold earlier. cbn. intros; lia.
  - apply Forall_cons_1 in F1 as [Fy F1]. constructor; [auto|]. apply Forall_app_2; [trivial|].
    constructor; [exact Fy|]. eapply Forall_impl; [exact F2|]. unfold earlier. cbn. intros; lia.
Qed.

Lemma sorted_filter P `{!forall x, Decision (P x)} l :
  StronglySorted earlier l -> StronglySorted earlier (filter P l).
Proof.
  induction 1 as [|x l Hs IH Hx]; [constructor|]. rewrite filter_cons. case_decide; [|trivial].
  constructor; [trivial|]. apply Forall_forall. intros y Hy.
  apply list_elem_of_filter in Hy as [_ Hy]. rewrite Forall_forall in Hx. auto.
Qed.

Lemma due_due now l : Forall (fun y => tm_alarm y <= now) (due now l).
Proof. apply Forall_forall. intros y Hy. apply list_elem_of_filter in Hy. apply Hy. Qed.

Lemma pending_pending now l : Forall (fun y => now < tm_alarm y) (pending now l).
Proof. apply Forall_forall. intros y Hy. apply list_elem_of_filter in Hy. apply Hy. Qed.

(** [timer_start] takes a free timer and queues it behind the timers that expire
    earlier or at the same time and before the later ones; the queue stays sorted. *)
Theorem timer_start_queues msec device callback param n m :
  let t := m_timer m in
  StronglySorted earlier (t_activeTimers t) -> t_freeTimers t = S n ->
  let x := mk_sTimer (t_currentTime t +o msec) device callback param in
  exists m', timer_start msec device callback param m = (Ret tt, m') /\
    t_activeTimers (m_timer m') =
      due (tm_alarm x) (t_activeTimers t) ++ x :: pending (tm_alarm x) (t_activeTimers t) /\
    StronglySorted earlier (t_activeTimers (m_timer m')) /\ t_freeTimers (m_timer m') = n.
Proof.
  intros t Hs Hf x. unfold timer_start. rewrite bind_gets. fold t. rewrite Hf.
  eexists. split; [reflexivity|]. cbn. fold x t. rewrite timer_insert_spec by trivial.
  csplit; trivial. apply earlier_app; try (apply sorted_filter; trivial);
    [apply due_due|apply pending_pending].
Qed.

(** ** Ticks *)

Lemma insert_sorted x l : StronglySorted earlier l -> StronglySorted earlier (timer_insert x l).
Proof.
  intros Hs. rewrite timer_insert_spec by trivial. apply earlier_app;
    try (apply sorted_filter; trivial); [apply due_due|apply pending_pending].
Qed.

Lemma insert_length x l : length (timer_insert x l) = S (length l).
Proof.
  assert (L : forall l, length (timer_link x l) = S (length l)).
  { clear l; intros l; induction l as [|p l IH]; [reflexivity|]. cbn [timer_link].
    case_match; cbn; rewrite ?IH; reflexivity. }
  destruct l as [|p l]; [reflexivity|]. cbn [timer_insert]. case_match; cbn; rewrite ?L; reflexivity.
Qed.

Lemma insert_Forall (P : sTimer -> Prop) x l :
  P x -> Forall P l -> StronglySorted earlier l -> Forall P (timer_insert x l).
Proof.
  intros Hx Hl Hs. rewrite timer_insert_spec by trivial.
  rewrite Forall_app, Forall_cons. csplit; [|exact Hx|]; apply Forall_forall; intros y Hy;
    apply list_elem_of_filter in Hy as [_ Hy]; rewrite Forall_forall in Hl; auto.
Qed.

(** A timer that is not due leaves those that are in their place. *)
Lemma due_insert now x l :
  StronglySorted earlier l -> now < tm_alarm x ->
  due now (timer_insert x l) = due now l /\
  (forall y, y ∈ pending now l -> y ∈ pending now (timer_insert x l)).
Proof.
  intros Hs Hx. rewrite timer_insert_spec by trivial. split.
  - unfold due at 1. rewrite filter_app, filter_cons, decide_False by lia.
    assert (E : filter (fun y => tm_alarm y <= now) (pending (tm_alarm x) l) = []).
    { pose proof (pending_pending (tm_alarm x) l) as H. induction H as [|y ys Hy _ IH]; [reflexivity|].
      rewrite filter_cons, decide_False, IH by lia. reflexivity. }
    rewrite E, app_nil_r. unfold due. rewrite list_filter_filter. apply list_filter_iff. intros y. lia.
  - intros y Hy. apply list_elem_of_filter in Hy as [Hy Hin]. apply list_elem_of_filter.
    split; [exact Hy|]. apply elem_of_app.
    destruct (Z_le_gt_dec (tm_alarm y) (tm_alarm x)).
    + left. apply list_elem_of_filter. auto.
    + right. apply list_elem_of_further, list_elem_of_filter. split; [lia|exact Hin].
Qed.

(** What a callback may do to the timers: nothing, or start one that is not due yet. *)
Definition starts_later (t t' : timer_state) : Prop :=
  t' = t \/
  exists x, t_currentTime t < tm_alarm x < 2 ^ 63 /\ t_freeTimers t = S (t_freeTimers t') /\
    t' = set_t_freeTimers (t_freeTimers t') (set_t_activeTimers (timer_insert x (t_activeTimers t)) t).

(** The state of the timers after the due ones have been handled. *)
Record settled (t t' : timer_state) : Prop := {
  se_time : t_currentTime t' = t_currentTime t;
  se_hw : (t_timerCtrl t', t_timerDivisor t', t_timerCounter t')
          = (t_timerCtrl t, t_timerDivisor t, t_timerCounter t);
  se_sorted : StronglySorted earlier (t_activeTimers t');
  se_later : Forall (fun x => t_currentTime t < tm_alarm x) (t_activeTimers t');
  se_bound : Forall (fun x => tm_alarm x < 2 ^ 63) (t_activeTimers t) ->
             Forall (fun x => tm_alarm x < 2 ^ 63) (t_activeTimers t');
  se_kept : forall x, x ∈ pending (t_currentTime t) (t_activeTimers t) -> x ∈ t_activeTimers t';
  se_total : (length (t_activeTimers t') + t_freeTimers t'
              = length (t_activeTimers t) + t_freeTimers t)%nat
}.

(** A due timer leaves the queue, its callback runs, the timer is free again. *)
Lemma due_timer_done x l t t1 :
  t_activeTimers t = x :: l -> StronglySorted earlier (x :: l) -> tm_alarm x <= t_currentTime t ->
  starts_later (set_t_activeTimers l t) t1 ->
  let t2 := set_t_freeTimers (S (t_freeTimers t1)) t1 in
  StronglySorted earlier (t_activeTimers t2) /\
  due (t_currentTime t2) (t_activeTimers t2) = due (t_currentTime t) l /\
  forall t', settled t2 t' -> settled t t'.
Proof.
  intros Ea Hs Hx Hc. apply StronglySorted_inv in Hs as [Hs _].
  destruct Hc as [-> |(y & Hy & Hf & ->)]; cbn in *.
  - csplit; [exact Hs|reflexivity|]. intros t' [? ? ? ? B K T]. cbn in *.
    split; trivial; rewrite Ea; [..|cbn; lia].
    + intros F. apply Forall_cons_1 in F. apply B, F.
    + rewrite pending_cons by exact Hx. exact K.
  - destruct (due_insert (t_currentTime t) y l Hs (proj1 Hy)) as [D P].
    csplit; [apply insert_sorted; exact Hs|exact D|]. intros t' [? ? ? ? B K T]. cbn in *.
    rewrite insert_length in T.
    split; trivial; rewrite Ea; [..|cbn; lia].
    + intros F. apply Forall_cons_1 in F. apply B, insert_Forall; [lia|apply F|exact Hs].
    + rewrite pending_cons by exact Hx. auto.
Qed.

(** Nothing is due. *)
Lemma settled_now t :
  StronglySorted earlier (t_activeTimers t) ->
  Forall (fun x => t_currentTime t < tm_alarm x) (t_activeTimers t) -> settled t t.
Proof.
  intros Hs Hl. split; trivial. intros y Hy. apply list_elem_of_filter in Hy. apply Hy.
Qed.

(** The events of the callbacks that are due, the last one first. *)
Definition due_events (t : timer_state) : list event :=
  rev (map (fun x => EV_DEV_CALLBACK (tm_device x) (tm_param x))
         (due (t_currentTime t) (t_activeTimers t))).

(** What is done for each of a list of timers at the head of the queue: it leaves the queue, its
    device is announced, its callback runs with its parameter, and the timer is free again. *)
Fixpoint run_each (run_callback : Z -> Z -> M unit) (xs : list sTimer) : M unit :=
  match xs with
  | [] => mret tt
  | x :: xs' =>
      on_timer (fun t => set_t_activeTimers (tail (t_activeTimers t)) t);;
      ev_fire (EV_DEV_CALLBACK (tm_device x) (tm_param x));;
      run_callback (tm_callback x) (tm_param x);;
      on_timer (fun t => set_t_freeTimers (S (t_freeTimers t)) t);;
      run_each run_callback xs'
  end.

Section Expire.
Context (run_callback : Z -> Z -> M unit) (good : machine -> Prop).
(** The callbacks return when a timer is free. *)
Context (callback_returns : forall f p m, good m -> (0 < t_freeTimers (m_timer m))%nat ->
  exists m', run_callback f p m = (Ret tt, m') /\ good m' /\ starts_later (m_timer m) (m_timer m') /\
    m_log m' = m_log m).
Context (good_timer : forall t m, good m -> t_currentTime t = t_currentTime (m_timer m) ->
  good (set_m_timer t m)).
Context (good_log : forall l m, good m -> good (set_m_log l m)).

(** The loop runs the callbacks of the due timers and stops at the first timer that is
    not due; the timers that the callbacks start do not become due in the same tick. *)
Lemma timer_expire_spec n : forall fuel m,
  good m -> StronglySorted earlier (t_activeTimers (m_timer m)) ->
  length (due (t_currentTime (m_timer m)) (t_activeTimers (m_timer m))) = n ->
  (n < fuel)%nat -> (0 < t_freeTimers (m_timer m))%nat ->
  exists m', timer_expire run_callback fuel m = (Ret tt, m') /\ good m' /\
    settled (m_timer m) (m_timer m') /\
    m_log m' = due_events (m_timer m) ++ m_log m /\
    run_each run_callback (due (t_currentTime (m_timer m)) (t_activeTimers (m_timer m))) m = (Ret tt, m').
Proof.
  unfold due_events. induction n as [|n IH]; intros fuel m G Hs Hn Hf H0; (destruct fuel as [|fuel]; [lia|]);
    cbn [timer_expire]; rewrite bind_gets;
    destruct (t_activeTimers (m_timer m)) as [|x l] eqn:Ea; try discriminate Hn.
  - exists m. csplit; [reflexivity|exact G| |reflexivity|reflexivity].
    apply settled_now; rewrite Ea; constructor.
  - destruct (Z.leb_spec (tm_alarm x) (t_currentTime (m_timer m))) as [Hx|Hx].
    { rewrite due_cons in Hn by exact Hx. discriminate Hn. }
    exists m. csplit; [reflexivity|exact G| | |].
    + apply settled_now; rewrite Ea; [exact Hs|]. eapply queue_after; eauto.
    + destruct (due _ _); [reflexivity|discriminate Hn].
    + destruct (due _ _); [reflexivity|discriminate Hn].
  - destruct (Z.leb_spec (tm_alarm x) (t_currentTime (m_timer m))) as [Hx|Hx].
    2: { destruct (due_none (t_currentTime (m_timer m)) (x :: l)) as [E _]; [eapply queue_after; eauto|].
         rewrite E in Hn. discriminate Hn. }
    rewrite due_cons in Hn by exact Hx. unfold on_timer, ev_fire. rewrite !bind_modify.
    match goal with |- context [(run_callback ?f ?p ≫= _) ?m0] =>
      destruct (callback_returns f p m0) as (m1 & E1 & G1 & T1 & L1);
        [apply good_log, good_timer; [exact G|reflexivity]|exact H0|] end.
    rewrite (bind_ret _ _ _ _ _ E1), bind_modify.
    destruct (due_timer_done x l _ _ Ea Hs Hx T1) as (Hs2 & Hd2 & Hset).
    match goal with |- context [timer_expire _ _ ?m0] => destruct (IH fuel m0) as (m' & E & G' & S' & L' & R') end;
      [apply good_timer; [exact G1|reflexivity]|exact Hs2|cbn in *; rewrite Hd2; congruence|lia|cbn; lia|].
    exists m'. csplit; [exact E|exact G'|apply Hset, S'| |].
    + rewrite L'. cbn -[due] in L1, Hd2 |- *. rewrite Hd2, L1, due_cons by exact Hx. cbn [map rev].
      rewrite <- app_assoc. reflexivity.
    + rewrite due_cons by exact Hx. cbn [run_each]. unfold on_timer, ev_fire. rewrite !bind_modify.
      rewrite Ea. cbn [tail]. rewrite (bind_ret _ _ _ _ _ E1), bind_modify. rewrite <- R'. f_equal. symmetry. exact Hd2.
Qed.
End Expire.
