(* ===== verification/Peripherals.v ===== *)
(** * The devices for the outside world (gimmix/src/dev/{disk,term,output,dspkbd}.c)

    The disk, the terminals, the output file, the keyboard and the display: their
    registers, the interrupts they raise and lower, and the simulation timers they start.
    The files, the windows and the threads of the host are represented by what they
    contain or deliver: the bytes of the disk image, the characters that are typed and
    written, the key codes, the pixels. *)

From Stdlib Require Import ZArith Lia Bool.
From stdpp Require Import base list numbers option.
From S2P Require Import Prelude Ram Machine Registers Devices.

(** ** Common parts *)

(** The callbacks and the devices that start timers, by number. *)
Abbreviation CB_TERM_RCVR := 1.
Abbreviation CB_TERM_XMTR := 2.
Abbreviation CB_DISK := 3.
Abbreviation CB_KBD := 4.
Abbreviation DISK_DEV := 100.
Abbreviation KBD_DEV := 101.

Definition throw_nonex {A} : M A := ex_throw EX_DYNAMIC_TRAP TRAP_NONEX_MEMORY.

(** [int reg = addr & DEV_REG_MASK] *)
Definition dev_reg (addr : Z) : Z := to_int (addr .& DEV_REG_MASK).

(** [if((ctrl & ien) && (ctrl & flag)) cpu_setInterrupt(irq); else cpu_resetInterrupt(irq)] *)
Definition update_irq (ctrl ien flag irq : Z) : M unit :=
  if truth (ctrl .& ien) && truth (ctrl .& flag) then cpu_setInterrupt irq
  else cpu_resetInterrupt irq.

(** ** disk.c *)

Abbreviation DISK_CTRL := 0.
Abbreviation DISK_CNT := 8.
Abbreviation DISK_SCT := 16.
Abbreviation DISK_CAP := 24.
Abbreviation DISK_STRT := 0x01.
Abbreviation DISK_IEN := 0x02.
Abbreviation DISK_WRT := 0x04.
Abbreviation DISK_ERR := 0x08.
Abbreviation DISK_DONE := 0x10.
Abbreviation DISK_READY := 0x20.
Abbreviation DISK_START_ADDR := 0x0003000000000000.
Abbreviation DISK_IRQ := 51.
Abbreviation DISK_SECTOR_SIZE := 512.
Abbreviation DISK_DELAY := 2.
Abbreviation DISK_SEEK := 5.
Abbreviation DISK_STARTUP := 1000.
Abbreviation DISK_BUFFER := 0x80000.
Abbreviation DISK_BUF_SIZE := (8 * DISK_SECTOR_SIZE).

Definition get_disk : M disk_state := gets (fun m => io_disk (m_io m)).
Definition on_disk (f : disk_state -> disk_state) : M unit :=
  on_io (fun s => set_io_disk (f (io_disk s)) s).

Definition disk_reset : M unit :=
  on_disk (fun d => set_d_lastSct 0 (set_d_cap 0 (set_d_sct 0 (set_d_cnt 0 (set_d_ctrl 0 d)))));;
  d ← get_disk;
  when (negb (d_totalSectors d =? 0)) (timer_start DISK_STARTUP DISK_DEV CB_DISK 0).

Definition disk_readOcta (p : arr) (i : Z) : Z :=
  shl64 (p (i + 0)) 56 .| shl64 (p (i + 1)) 48 .| shl64 (p (i + 2)) 40
  .| shl64 (p (i + 3)) 32 .| shl64 (p (i + 4)) 24 .| shl64 (p (i + 5)) 16
  .| shl64 (p (i + 6)) 8 .| shl64 (p (i + 7)) 0.

Definition disk_writeOcta (p : arr) (i data : Z) : arr :=
  upd (upd (upd (upd (upd (upd (upd (upd p (i + 0) (wrap8 (data .>> 56)))
    (i + 1) (wrap8 (data .>> 48))) (i + 2) (wrap8 (data .>> 40))) (i + 3) (wrap8 (data .>> 32)))
    (i + 4) (wrap8 (data .>> 24))) (i + 5) (wrap8 (data .>> 16))) (i + 6) (wrap8 (data .>> 8)))
    (i + 7) (wrap8 (data .>> 0)).

(** The index into the buffer for the register [reg], if it is in the buffer. *)
Definition disk_bufIndex (reg : Z) : option Z :=
  if (DISK_BUFFER <=? reg) && (reg <? DISK_BUFFER + DISK_BUF_SIZE)
  then Some ((reg .& wrap64 (-8)) - DISK_BUFFER) else None.

Definition disk_read (addr : Z) (sideEffects : bool) : M Z :=
  let reg := dev_reg addr in
  d ← get_disk;
  if reg =? DISK_CTRL then mret (d_ctrl d)
  else if reg =? DISK_CNT then mret (d_cnt d)
  else if reg =? DISK_SCT then mret (d_sct d)
  else if reg =? DISK_CAP then mret (d_cap d)
  else match disk_bufIndex reg with
       | Some i => mret (disk_readOcta (d_buffer d) i)
       | None => throw_nonex
       end.

(** [labs((long)diskSct - lastSct)]; the overflow of a [long] is undefined. *)
Definition disk_distance (sct lastSct : Z) : M Z :=
  let delta := socta sct - lastSct in
  if (- 2 ^ 63 <? delta) && (delta <? 2 ^ 63) then mret (Z.abs delta) else stop Undefined.

(** The start of a command. *)
Definition disk_start : M unit :=
  on_disk (fun d => set_d_ctrl ((d_ctrl d .| DISK_STRT) .& not64 DISK_ERR .& not64 DISK_DONE) d);;
  d ← get_disk;
  when (negb (d_cap d =? 0))
    (delta ← disk_distance (d_sct d) (d_lastSct d);
     let delta := if socta (d_cap d) <? delta then socta (d_cap d) else delta in
     timer_start (DISK_DELAY +o wrap64 (delta * DISK_SEEK) / d_cap d) DISK_DEV CB_DISK 1).

Definition disk_write (addr data : Z) : M unit :=
  let reg := dev_reg addr in
  if reg =? DISK_CTRL then
    on_disk (fun d => set_d_ctrl (copy_bit data DISK_IEN (copy_bit data DISK_WRT (d_ctrl d))) d);;
    (if truth (data .& DISK_STRT) then disk_start
     else on_disk (fun d => set_d_ctrl (copy_bit data DISK_DONE
                              (copy_bit data DISK_ERR (d_ctrl d .& not64 DISK_STRT))) d));;
    d ← get_disk;
    update_irq (d_ctrl d) DISK_IEN DISK_DONE DISK_IRQ
  else if reg =? DISK_CNT then on_disk (set_d_cnt data)
  else if reg =? DISK_SCT then on_disk (set_d_sct data)
  else if reg =? DISK_CAP then throw_nonex
  else match disk_bufIndex reg with
       | Some i => on_disk (fun d => set_d_buffer (disk_writeOcta (d_buffer d) i data) d)
       | None => throw_nonex
       end.

(** [n] bytes of [src] from [i] on, copied to [dst] from [j] on. *)
Definition copy_bytes (src : arr) (i : Z) (dst : arr) (j n : Z) : arr :=
  fun k => if (j <=? k) && (k <? j + n) then src (i + (k - j)) else dst k.

(** The number of sectors of a command. *)
Definition disk_numScts (d : disk_state) : Z := ((d_cnt d -o 1) .& 0x07) + 1.

(** The sectors of the command are on the disk. *)
Definition disk_inRange (d : disk_state) : bool :=
  negb (d_cap d =? 0) && (d_sct d <? d_cap d) && (d_sct d +o disk_numScts d <=? d_cap d).

(** The transfer between the buffer and the image file. *)
Definition disk_transfer (d : disk_state) : disk_state :=
  let n := disk_numScts d * DISK_SECTOR_SIZE in
  let pos := d_sct d * DISK_SECTOR_SIZE in
  let d' := if truth (d_ctrl d .& DISK_WRT)
            then set_d_image (copy_bytes (d_buffer d) 0 (d_image d) pos n) d
            else set_d_buffer (copy_bytes (d_image d) pos (d_buffer d) 0 n) d in
  set_d_lastSct (d_sct d + disk_numScts d - 1) d'.

Definition disk_callback (n : Z) : M unit :=
  if n =? 0 then
    on_disk (fun d => set_d_ctrl (d_ctrl d .| DISK_READY) (set_d_cap (d_totalSectors d) d))
  else
    on_disk (fun d => if disk_inRange d then disk_transfer d
                      else set_d_ctrl (d_ctrl d .| DISK_ERR) d);;
    on_disk (fun d => set_d_ctrl ((d_ctrl d .& not64 DISK_STRT) .| DISK_DONE) d);;
    d ← get_disk;
    when (truth (d_ctrl d .& DISK_IEN)) (cpu_setInterrupt DISK_IRQ).

(** ** term.c *)

Abbreviation TERM_RCVR_CTRL := 0.
Abbreviation TERM_RCVR_DATA := 8.
Abbreviation TERM_XMTR_CTRL := 16.
Abbreviation TERM_XMTR_DATA := 24.
Abbreviation TERM_RCVR_RDY := 0x01.
Abbreviation TERM_RCVR_IEN := 0x02.
Abbreviation TERM_XMTR_RDY := 0x01.
Abbreviation TERM_XMTR_IEN := 0x02.
Abbreviation TERM_START_ADDR := 0x0002000000000000.
Abbreviation TERM_START_IRQ := 53.
Abbreviation TERM_RCVR_MSEC := 5.
Abbreviation TERM_XMTR_MSEC := 2.
Abbreviation DEV_REG_SPACE := 0x0000000100000000.

(** [DEV_NO(addr)] *)
Definition dev_no (addr : Z) : Z := (addr .& 0x0000FFFF00000000) .>> 32.

Definition get_term (i : Z) : M sTerminal := gets (fun m => io_terms (m_io m) i).
Definition on_term (i : Z) (f : sTerminal -> sTerminal) : M unit :=
  on_io (fun s => set_io_terms (upd (io_terms s) i (f (io_terms s i))) s).

(** One iteration of the loop of [term_reset]. *)
Definition term_resetOne (i : Z) : M unit :=
  on_term i (fun t => set_rcvrIRQ (TERM_START_IRQ + i * 2 + 1) (set_rcvrData 0 (set_rcvrCtrl 0 t)));;
  timer_start TERM_RCVR_MSEC i CB_TERM_RCVR i;;
  on_term i (fun t => set_xmtrIRQ (TERM_START_IRQ + i * 2)
                        (set_xmtrData 0 (set_xmtrCtrl TERM_XMTR_RDY t))).

Definition term_reset : M unit :=
  n ← gets (fun m => io_numTerminals (m_io m));
  for_m (Z.to_nat n) 0 term_resetOne.

Definition term_read (addr : Z) (sideEffects : bool) : M Z :=
  let dev := dev_no addr in
  n ← gets (fun m => io_numTerminals (m_io m));
  when (n <=? dev) throw_nonex;;
  let reg := dev_reg addr in
  t ← get_term dev;
  if reg =? TERM_RCVR_CTRL then mret (rcvrCtrl t)
  else if reg =? TERM_RCVR_DATA then
    when sideEffects
      (on_term dev (fun t => set_rcvrCtrl (rcvrCtrl t .& not64 TERM_RCVR_RDY) t);;
       t ← get_term dev;
       when (truth (rcvrCtrl t .& TERM_RCVR_IEN)) (cpu_resetInterrupt (rcvrIRQ t)));;
    mret (rcvrData t)
  else if reg =? TERM_XMTR_CTRL then mret (xmtrCtrl t)
  else throw_nonex.

Definition term_write (addr data : Z) : M unit :=
  let dev := dev_no addr in
  n ← gets (fun m => io_numTerminals (m_io m));
  when (n <=? dev) throw_nonex;;
  let reg := dev_reg addr in
  if reg =? TERM_RCVR_CTRL then
    on_term dev (fun t => set_rcvrCtrl
      (copy_bit data TERM_RCVR_RDY (copy_bit data TERM_RCVR_IEN (rcvrCtrl t))) t);;
    t ← get_term dev;
    update_irq (rcvrCtrl t) TERM_RCVR_IEN TERM_RCVR_RDY (rcvrIRQ t)
  else if reg =? TERM_RCVR_DATA then throw_nonex
  else if reg =? TERM_XMTR_CTRL then
    on_term dev (fun t => set_xmtrCtrl
      (copy_bit data TERM_XMTR_RDY (copy_bit data TERM_XMTR_IEN (xmtrCtrl t))) t);;
    t ← get_term dev;
    update_irq (xmtrCtrl t) TERM_XMTR_IEN TERM_XMTR_RDY (xmtrIRQ t)
  else if reg =? TERM_XMTR_DATA then
    on_term dev (fun t => set_xmtrCtrl (xmtrCtrl t .& not64 TERM_XMTR_RDY)
                            (set_xmtrData (data .& 0xFF) t));;
    t ← get_term dev;
    when (truth (xmtrCtrl t .& TERM_XMTR_IEN)) (cpu_resetInterrupt (xmtrIRQ t));;
    timer_start TERM_XMTR_MSEC dev CB_TERM_XMTR dev
  else throw_nonex.

Definition term_rcvrCallback (dev : Z) : M unit :=
  timer_start TERM_RCVR_MSEC dev CB_TERM_RCVR dev;;
  t ← get_term dev;
  on_term dev (fun t => set_term_in (tail (term_in t)) t);;
  match head (term_in t) with
  | Some (Some c) =>
    on_term dev (fun t => set_rcvrCtrl (rcvrCtrl t .| TERM_RCVR_RDY) (set_rcvrData (c .& 0xFF) t));;
    t ← get_term dev;
    when (truth (rcvrCtrl t .& TERM_RCVR_IEN)) (cpu_setInterrupt (rcvrIRQ t))
  | _ => mret tt
  end.

Definition term_xmtrCallback (dev : Z) : M unit :=
  on_term dev (fun t => set_term_out ((xmtrData t .& 0xFF) :: term_out t) t);;
  on_term dev (fun t => set_xmtrCtrl (xmtrCtrl t .| TERM_XMTR_RDY) t);;
  t ← get_term dev;
  when (truth (xmtrCtrl t .& TERM_XMTR_IEN)) (cpu_setInterrupt (xmtrIRQ t)).

(** ** output.c *)

Abbreviation OUTPUT_START_ADDR := 0x0004000000000000.

Definition output_read (addr : Z) (sideEffects : bool) : M Z :=
  f ← gets (fun m => io_outputFile (m_io m));
  when (negb f) (stop SimError);;
  mret 0.

Definition output_write (addr data : Z) : M unit :=
  f ← gets (fun m => io_outputFile (m_io m));
  when (negb f) (stop SimError);;
  on_io (fun s => set_io_output (wrap8 data :: io_output s) s).

(** ** dspkbd.c: the display *)

Abbreviation WINDOW_SIZE_X := 640.
Abbreviation WINDOW_SIZE_Y := 480.
Abbreviation CELL_SIZE_X := 8.
Abbreviation CELL_SIZE_Y := 16.
Abbreviation TEXT_SIZE_X := 80.
Abbreviation TEXT_SIZE_Y := 30.
Abbreviation DISPLAY_START_ADDR := 0x0005000000000000.

(** The color of a pixel of the character [c]. *)
Definition pixel_color (c pixels i : Z) (blink : bool) : Z * Z * Z :=
  let pick bit on off := if truth (c .& bit) then on else off in
  if truth (pixels .& 2 ^ (CELL_SIZE_X - 1 - i)) && negb (truth (c .& 0x8000) && blink) then
    if truth (c .& 0x0800) then (pick 0x0400 255 73, pick 0x0200 255 73, pick 0x0100 255 73)
    else (pick 0x0400 146 0, pick 0x0200 146 0, pick 0x0100 146 0)
  else (pick 0x4000 146 0, pick 0x2000 146 0, pick 0x1000 146 0).

(** The loops of [updateCharacter] over the pixels of the cell; [vgaWrite] sets a pixel. *)
Definition updateCharacter (font : arr) (x y c : Z) (d : dsp_state) : dsp_state :=
  set_dsp_pixel (fun px py =>
    if (x * CELL_SIZE_X <=? px) && (px <? (x + 1) * CELL_SIZE_X) &&
       (y * CELL_SIZE_Y <=? py) && (py <? (y + 1) * CELL_SIZE_Y)
    then pixel_color c (font ((c .& 0x00FF) * CELL_SIZE_Y + (py - y * CELL_SIZE_Y)))
           (px - x * CELL_SIZE_X) (dsp_blink d)
    else dsp_pixel d px py) d.

Definition upd2 {A} (f : Z -> Z -> A) (y x : Z) (v : A) : Z -> Z -> A :=
  fun y' x' => if (y' =? y) && (x' =? x) then v else f y' x'.

Definition readCharAndAttr (x y : Z) (d : dsp_state) : Z := dsp_text d y x.

Definition writeCharAndAttr (font : arr) (x y c : Z) (d : dsp_state) : dsp_state :=
  updateCharacter font x y c (set_dsp_text (upd2 (dsp_text d) y x c) d).

(** The nested loops over all characters. *)
Fixpoint for_cells (n : nat) (i : Z) (f : Z -> Z -> dsp_state -> dsp_state) (d : dsp_state) : dsp_state :=
  match n with
  | O => d
  | S n => for_cells n (i + 1) f (f (i mod TEXT_SIZE_X) (i / TEXT_SIZE_X) d)
  end.

Definition blinkScreen (font : arr) (d : dsp_state) : dsp_state :=
  if eqb (dsp_previousBlink d) (dsp_blink d) then d
  else for_cells (Z.to_nat (TEXT_SIZE_X * TEXT_SIZE_Y)) 0
         (fun x y d => let c := dsp_text d y x in
                       if truth (c .& 0x8000) then updateCharacter font x y c d else d)
         (set_dsp_previousBlink (dsp_blink d) d).

Definition loadSplashScreen (font : arr) (screen : Z -> Z -> Z) (d : dsp_state) : dsp_state :=
  for_cells (Z.to_nat (TEXT_SIZE_X * TEXT_SIZE_Y)) 0
    (fun x y => writeCharAndAttr font x y (0x0700 .| screen y x)) d.

Definition on_dsp (f : dsp_state -> dsp_state) : M unit :=
  on_io (fun s => set_io_dsp (f (io_dsp s)) s).

(** The cell of an address; [None] outside of the screen. *)
Definition display_cell (addr : Z) : option (Z * Z) :=
  let x := (addr .>> 3) .& 127 in
  let y := (addr .>> 10) .& 31 in
  if (TEXT_SIZE_X <=? x) || (TEXT_SIZE_Y <=? y) then None else Some (x, y).

Definition displayRead (addr : Z) (sideEffects : bool) : M Z :=
  b ← gets (fun m => io_installed (m_io m));
  when (negb b) throw_nonex;;
  match display_cell addr with
  | None => throw_nonex
  | Some (x, y) => gets (fun m => readCharAndAttr x y (io_dsp (m_io m)))
  end.

Definition displayWrite (addr data : Z) : M unit :=
  b ← gets (fun m => io_installed (m_io m));
  when (negb b) throw_nonex;;
  match display_cell addr with
  | None => throw_nonex
  | Some (x, y) =>
    font ← gets (fun m => cfg_font (cfg_io (m_cfg m)));
    on_dsp (writeCharAndAttr font x y (wrap 16 data))
  end.

Definition displayReset : M unit :=
  b ← gets (fun m => io_installed (m_io m));
  when b
    (c ← gets (fun m => cfg_io (m_cfg m));
     on_dsp (loadSplashScreen (cfg_font c) (cfg_screen c))).

(** ** dspkbd.c: the keyboard *)

Abbreviation KEYBOARD_CTRL := 0.
Abbreviation KEYBOARD_DATA := 8.
Abbreviation KEYBOARD_RDY := 0x01.
Abbreviation KEYBOARD_IEN := 0x02.
Abbreviation KEYBOARD_START_ADDR := 0x0006000000000000.
Abbreviation KEYBOARD_IRQ := 61.
Abbreviation KEYBOARD_MSEC := 5.
Abbreviation MAX_MAKE := 2.
Abbreviation MAX_BREAK := 3.
Abbreviation KBD_BUF_MAX := 100.

Record Keycode := mk_Keycode {
  xKeycode : Z;
  pcNumMake : nat;
  pcKeyMake : list Z;
  pcNumBreak : nat;
  pcKeyBreak : list Z
}.

Definition kbdCodeTbl : list Keycode :=
  [mk_Keycode 0x09 1 [0x76; 0x00] 2 [0xF0; 0x76; 0x00];
   mk_Keycode 0x43 1 [0x05; 0x00] 2 [0xF0; 0x05; 0x00];
   mk_Keycode 0x44 1 [0x06; 0x00] 2 [0xF0; 0x06; 0x00];
   mk_Keycode 0x45 1 [0x04; 0x00] 2 [0xF0; 0x04; 0x00];
   mk_Keycode 0x46 1 [0x0C; 0x00] 2 [0xF0; 0x0C; 0x00];
   mk_Keycode 0x47 1 [0x03; 0x00] 2 [0xF0; 0x03; 0x00];
   mk_Keycode 0x48 1 [0x0B; 0x00] 2 [0xF0; 0x0B; 0x00];
   mk_Keycode 0x49 1 [0x83; 0x00] 2 [0xF0; 0x83; 0x00];
   mk_Keycode 0x4A 1 [0x0A; 0x00] 2 [0xF0; 0x0A; 0x00];
   mk_Keycode 0x4B 1 [0x01; 0x00] 2 [0xF0; 0x01; 0x00];
   mk_Keycode 0x4C 1 [0x09; 0x00] 2 [0xF0; 0x09; 0x00];
   mk_Keycode 0x5F 1 [0x78; 0x00] 2 [0xF0; 0x78; 0x00];
   mk_Keycode 0x60 1 [0x07; 0x00] 2 [0xF0; 0x07; 0x00];
   mk_Keycode 0x31 1 [0x0E; 0x00] 2 [0xF0; 0x0E; 0x00];
   mk_Keycode 0x0A 1 [0x16; 0x00] 2 [0xF0; 0x16; 0x00];
   mk_Keycode 0x0B 1 [0x1E; 0x00] 2 [0xF0; 0x1E; 0x00];
   mk_Keycode 0x0C 1 [0x26; 0x00] 2 [0xF0; 0x26; 0x00];
   mk_Keycode 0x0D 1 [0x25; 0x00] 2 [0xF0; 0x25; 0x00];
   mk_Keycode 0x0E 1 [0x2E; 0x00] 2 [0xF0; 0x2E; 0x00];
   mk_Keycode 0x0F 1 [0x36; 0x00] 2 [0xF0; 0x36; 0x00];
   mk_Keycode 0x10 1 [0x3D; 0x00] 2 [0xF0; 0x3D; 0x00];
   mk_Keycode 0x11 1 [0x3E; 0x00] 2 [0xF0; 0x3E; 0x00];
   mk_Keycode 0x12 1 [0x46; 0x00] 2 [0xF0; 0x46; 0x00];
   mk_Keycode 0x13 1 [0x45; 0x00] 2 [0xF0; 0x45; 0x00];
   mk_Keycode 0x14 1 [0x4E; 0x00] 2 [0xF0; 0x4E; 0x00];
   mk_Keycode 0x15 1 [0x55; 0x00] 2 [0xF0; 0x55; 0x00];
   mk_Keycode 0x16 1 [0x66; 0x00] 2 [0xF0; 0x66; 0x00];
   mk_Keycode 0x17 1 [0x0D; 0x00] 2 [0xF0; 0x0D; 0x00];
   mk_Keycode 0x18 1 [0x15; 0x00] 2 [0xF0; 0x15; 0x00];
   mk_Keycode 0x19 1 [0x1D; 0x00] 2 [0xF0; 0x1D; 0x00];
   mk_Keycode 0x1A 1 [0x24; 0x00] 2 [0xF0; 0x24; 0x00];
   mk_Keycode 0x1B 1 [0x2D; 0x00] 2 [0xF0; 0x2D; 0x00];
   mk_Keycode 0x1C 1 [0x2C; 0x00] 2 [0xF0; 0x2C; 0x00];
   mk_Keycode 0x1D 1 [0x35; 0x00] 2 [0xF0; 0x35; 0x00];
   mk_Keycode 0x1E 1 [0x3C; 0x00] 2 [0xF0; 0x3C; 0x00];
   mk_Keycode 0x1F 1 [0x43; 0x00] 2 [0xF0; 0x43; 0x00];
   mk_Keycode 0x20 1 [0x44; 0x00] 2 [0xF0; 0x44; 0x00];
   mk_Keycode 0x21 1 [0x4D; 0x00] 2 [0xF0; 0x4D; 0x00];
   mk_Keycode 0x22 1 [0x54; 0x00] 2 [0xF0; 0x54; 0x00];
   mk_Keycode 0x23 1 [0x5B; 0x00] 2 [0xF0; 0x5B; 0x00];
   mk_Keycode 0x24 1 [0x5A; 0x00] 2 [0xF0; 0x5A; 0x00];
   mk_Keycode 0x42 1 [0x58; 0x00] 2 [0xF0; 0x58; 0x00];
   mk_Keycode 0x26 1 [0x1C; 0x00] 2 [0xF0; 0x1C; 0x00];
   mk_Keycode 0x27 1 [0x1B; 0x00] 2 [0xF0; 0x1B; 0x00];
   mk_Keycode 0x28 1 [0x23; 0x00] 2 [0xF0; 0x23; 0x00];
   mk_Keycode 0x29 1 [0x2B; 0x00] 2 [0xF0; 0x2B; 0x00];
   mk_Keycode 0x2A 1 [0x34; 0x00] 2 [0xF0; 0x34; 0x00];
   mk_Keycode 0x2B 1 [0x33; 0x00] 2 [0xF0; 0x33; 0x00];
   mk_Keycode 0x2C 1 [0x3B; 0x00] 2 [0xF0; 0x3B; 0x00];
   mk_Keycode 0x2D 1 [0x42; 0x00] 2 [0xF0; 0x42; 0x00];
   mk_Keycode 0x2E 1 [0x4B; 0x00] 2 [0xF0; 0x4B; 0x00];
   mk_Keycode 0x2F 1 [0x4C; 0x00] 2 [0xF0; 0x4C; 0x00];
   mk_Keycode 0x30 1 [0x52; 0x00] 2 [0xF0; 0x52; 0x00];
   mk_Keycode 0x33 1 [0x5D; 0x00] 2 [0xF0; 0x5D; 0x00];
   mk_Keycode 0x32 1 [0x12; 0x00] 2 [0xF0; 0x12; 0x00];
   mk_Keycode 0x5E 1 [0x61; 0x00] 2 [0xF0; 0x61; 0x00];
   mk_Keycode 0x34 1 [0x1A; 0x00] 2 [0xF0; 0x1A; 0x00];
   mk_Keycode 0x35 1 [0x22; 0x00] 2 [0xF0; 0x22; 0x00];
   mk_Keycode 0x36 1 [0x21; 0x00] 2 [0xF0; 0x21; 0x00];
   mk_Keycode 0x37 1 [0x2A; 0x00] 2 [0xF0; 0x2A; 0x00];
   mk_Keycode 0x38 1 [0x32; 0x00] 2 [0xF0; 0x32; 0x00];
   mk_Keycode 0x39 1 [0x31; 0x00] 2 [0xF0; 0x31; 0x00];
   mk_Keycode 0x3A 1 [0x3A; 0x00] 2 [0xF0; 0x3A; 0x00];
   mk_Keycode 0x3B 1 [0x41; 0x00] 2 [0xF0; 0x41; 0x00];
   mk_Keycode 0x3C 1 [0x49; 0x00] 2 [0xF0; 0x49; 0x00];
   mk_Keycode 0x3D 1 [0x4A; 0x00] 2 [0xF0; 0x4A; 0x00];
   mk_Keycode 0x3E 1 [0x59; 0x00] 2 [0xF0; 0x59; 0x00];
   mk_Keycode 0x25 1 [0x14; 0x00] 2 [0xF0; 0x14; 0x00];
   mk_Keycode 0x73 2 [0xE0; 0x69] 3 [0xE0; 0xF0; 0x69];
   mk_Keycode 0x40 1 [0x11; 0x00] 2 [0xF0; 0x11; 0x00];
   mk_Keycode 0x41 1 [0x29; 0x00] 2 [0xF0; 0x29; 0x00];
   mk_Keycode 0x71 2 [0xE0; 0x6B] 3 [0xE0; 0xF0; 0x6B];
   mk_Keycode 0x74 2 [0xE0; 0x72] 3 [0xE0; 0xF0; 0x72];
   mk_Keycode 0x75 2 [0xE0; 0x7A] 3 [0xE0; 0xF0; 0x7A];
   mk_Keycode 0x6D 2 [0xE0; 0x14] 3 [0xE0; 0xF0; 0x14];
   mk_Keycode 0x6A 2 [0xE0; 0x4A] 3 [0xE0; 0xF0; 0x4A];
   mk_Keycode 0x61 2 [0xE0; 0x6C] 3 [0xE0; 0xF0; 0x6C];
   mk_Keycode 0x63 2 [0xE0; 0x7D] 3 [0xE0; 0xF0; 0x7D];
   mk_Keycode 0x6B 2 [0xE0; 0x71] 3 [0xE0; 0xF0; 0x71];
   mk_Keycode 0x67 2 [0xE0; 0x69] 3 [0xE0; 0xF0; 0x69];
   mk_Keycode 0x69 2 [0xE0; 0x14] 3 [0xE0; 0xF0; 0x14];
   mk_Keycode 0x62 2 [0xE0; 0x75] 3 [0xE0; 0xF0; 0x75];
   mk_Keycode 0x64 2 [0xE0; 0x6B] 3 [0xE0; 0xF0; 0x6B];
   mk_Keycode 0x68 2 [0xE0; 0x5A] 3 [0xE0; 0xF0; 0x5A];
   mk_Keycode 0x66 2 [0xE0; 0x74] 3 [0xE0; 0xF0; 0x74];
   mk_Keycode 0x4D 1 [0x77; 0x00] 2 [0xF0; 0x77; 0x00];
   mk_Keycode 0x70 2 [0xE0; 0x7D] 3 [0xE0; 0xF0; 0x7D];
   mk_Keycode 0x3F 1 [0x7C; 0x00] 2 [0xF0; 0x7C; 0x00];
   mk_Keycode 0x52 1 [0x7B; 0x00] 2 [0xF0; 0x7B; 0x00];
   mk_Keycode 0x4F 1 [0x6C; 0x00] 2 [0xF0; 0x6C; 0x00];
   mk_Keycode 0x50 1 [0x75; 0x00] 2 [0xF0; 0x75; 0x00];
   mk_Keycode 0x51 1 [0x7D; 0x00] 2 [0xF0; 0x7D; 0x00];
   mk_Keycode 0x56 1 [0x79; 0x00] 2 [0xF0; 0x79; 0x00];
   mk_Keycode 0x53 1 [0x6B; 0x00] 2 [0xF0; 0x6B; 0x00];
   mk_Keycode 0x54 1 [0x73; 0x00] 2 [0xF0; 0x73; 0x00];
   mk_Keycode 0x55 1 [0x74; 0x00] 2 [0xF0; 0x74; 0x00];
   mk_Keycode 0x57 1 [0x69; 0x00] 2 [0xF0; 0x69; 0x00];
   mk_Keycode 0x58 1 [0x72; 0x00] 2 [0xF0; 0x72; 0x00];
   mk_Keycode 0x59 1 [0x7A; 0x00] 2 [0xF0; 0x7A; 0x00];
   mk_Keycode 0x6C 2 [0xE0; 0x11] 3 [0xE0; 0xF0; 0x11];
   mk_Keycode 0x5A 1 [0x70; 0x00] 2 [0xF0; 0x70; 0x00];
   mk_Keycode 0x5B 1 [0x71; 0x00] 2 [0xF0; 0x71; 0x00];
   mk_Keycode 0x72 2 [0xE0; 0x74] 3 [0xE0; 0xF0; 0x74];
   mk_Keycode 0x6F 2 [0xE0; 0x75] 3 [0xE0; 0xF0; 0x75];
   mk_Keycode 0x76 2 [0xE0; 0x70] 3 [0xE0; 0xF0; 0x70];
   mk_Keycode 0x6E 2 [0xE0; 0x6C] 3 [0xE0; 0xF0; 0x6C];
   mk_Keycode 0x77 2 [0xE0; 0x71] 3 [0xE0; 0xF0; 0x71];
   mk_Keycode 0x85 2 [0xE0; 0x1F] 3 [0xE0; 0xF0; 0x1F];
   mk_Keycode 0x86 2 [0xE0; 0x27] 3 [0xE0; 0xF0; 0x27];
   mk_Keycode 0x87 2 [0xE0; 0x2F] 3 [0xE0; 0xF0; 0x2F]].

(** [keycodeCompare]: the difference of two [unsigned int]s as an [int]. *)
Definition keycodeCompare (code1 code2 : Z) : Z := to_int (code1 - code2).

(** [qsort] of the table; the keys differ, which makes the result unique. *)
Fixpoint insert_code (k : Keycode) (l : list Keycode) : list Keycode :=
  match l with
  | [] => [k]
  | p :: l => if keycodeCompare (xKeycode k) (xKeycode p) <=? 0 then k :: p :: l
              else p :: insert_code k l
  end.
Definition initKeycode : list Keycode -> list Keycode := foldr insert_code [].

(** The loop of [lookupKeycode]: a binary search between [lo] and [hi]; no result when the
    fuel runs out or an index is not in the table. *)
Fixpoint lookup_loop (fuel : nat) (tbl : list Keycode) (code lo hi : Z) : option (option Keycode) :=
  match fuel with
  | O => None
  | S fuel =>
    if lo <=? hi then
      let tst := Z.quot (lo + hi) 2 in
      match tbl !! Z.to_nat tst with
      | None => None
      | Some k =>
        let res := keycodeCompare (xKeycode k) code in
        if res =? 0 then Some (Some k)
        else if res <? 0 then lookup_loop fuel tbl code (tst + 1) hi
        else lookup_loop fuel tbl code lo (tst - 1)
      end
    else Some None
  end.
Definition lookupKeycode (tbl : list Keycode) (code : Z) : option Keycode :=
  match lookup_loop (S (length tbl)) tbl code 0 (Z.of_nat (length tbl) - 1) with
  | Some r => r
  | None => None
  end.

Definition KBD_BUF_NEXT (p : Z) : Z := (p + 1) mod KBD_BUF_MAX.

Definition kbdBufFree (k : kbd_state) : Z :=
  if kbdBufReadPtr k <=? kbdBufWritePtr k
  then KBD_BUF_MAX - (kbdBufWritePtr k - kbdBufReadPtr k) - 1
  else (kbdBufReadPtr k - kbdBufWritePtr k) - 1.

(** The loop that appends bytes to the buffer. *)
Fixpoint kbd_put (bytes : list Z) (k : kbd_state) : kbd_state :=
  match bytes with
  | [] => k
  | b :: bytes =>
    kbd_put bytes (set_kbdBufWritePtr (KBD_BUF_NEXT (kbdBufWritePtr k))
                     (set_kbdBuf (upd (kbdBuf k) (kbdBufWritePtr k) b) k))
  end.

(** The events of the monitor window, with the sorted table. *)
Definition keyPressed (code : Z) (k : kbd_state) : kbd_state :=
  match lookupKeycode (initKeycode kbdCodeTbl) code with
  | None => k
  | Some p =>
    if kbdBufFree k <? (MAX_MAKE + MAX_BREAK) * 4 then k
    else kbd_put (take (pcNumMake p) (pcKeyMake p)) k
  end.

Definition keyReleased (code : Z) (k : kbd_state) : kbd_state :=
  match lookupKeycode (initKeycode kbdCodeTbl) code with
  | None => k
  | Some p =>
    if kbdBufFree k <? MAX_BREAK * 4 then k
    else kbd_put (take (pcNumBreak p) (pcKeyBreak p)) k
  end.

Definition get_kbd : M kbd_state := gets (fun m => io_kbd (m_io m)).
Definition on_kbd (f : kbd_state -> kbd_state) : M unit :=
  on_io (fun s => set_io_kbd (f (io_kbd s)) s).

(** The next byte of the buffer goes to the data register. *)
Definition kbd_fetch (k : kbd_state) : kbd_state :=
  set_kbdCtrl (kbdCtrl k .| KEYBOARD_RDY)
    (set_kbdBufReadPtr (KBD_BUF_NEXT (kbdBufReadPtr k)) (set_kbdData (kbdBuf k (kbdBufReadPtr k)) k)).

Definition kbdCallback (dev : Z) : M unit :=
  timer_start KEYBOARD_MSEC KBD_DEV CB_KBD dev;;
  k ← get_kbd;
  if kbdBufWritePtr k =? kbdBufReadPtr k then mret tt
  else if truth (kbdCtrl k .& KEYBOARD_RDY) then mret tt
  else
    on_kbd kbd_fetch;;
    k ← get_kbd;
    when (truth (kbdCtrl k .& KEYBOARD_IEN)) (cpu_setInterrupt KEYBOARD_IRQ).

Definition keyboardRead (addr : Z) (sideEffects : bool) : M Z :=
  let reg := dev_reg addr in
  b ← gets (fun m => io_installed (m_io m));
  when (negb b) throw_nonex;;
  if reg =? KEYBOARD_CTRL then k ← get_kbd; mret (kbdCtrl k)
  else if reg =? KEYBOARD_DATA then
    when sideEffects
      (on_kbd (fun k => set_kbdCtrl (kbdCtrl k .& not64 KEYBOARD_RDY) k);;
       k ← get_kbd;
       when (truth (kbdCtrl k .& KEYBOARD_IEN)) (cpu_resetInterrupt KEYBOARD_IRQ));;
    k ← get_kbd; mret (kbdData k)
  else throw_nonex.

Definition keyboardWrite (addr data : Z) : M unit :=
  let reg := dev_reg addr in
  b ← gets (fun m => io_installed (m_io m));
  when (negb b) throw_nonex;;
  if reg =? KEYBOARD_CTRL then
    on_kbd (fun k => set_kbdCtrl
      (copy_bit data KEYBOARD_RDY (copy_bit data KEYBOARD_IEN (kbdCtrl k))) k);;
    k ← get_kbd;
    update_irq (kbdCtrl k) KEYBOARD_IEN KEYBOARD_RDY KEYBOARD_IRQ
  else throw_nonex.

Definition keyboardReset : M unit :=
  b ← gets (fun m => io_installed (m_io m));
  when b
    (on_kbd (fun k => set_kbdData 0 (set_kbdCtrl 0 (set_kbdBufReadPtr 0 (set_kbdBufWritePtr 0 k))));;
     timer_start KEYBOARD_MSEC KBD_DEV CB_KBD 0).

(** ** The callbacks of the simulation timers *)

Definition dev_callback (callback param : Z) : M unit :=
  if callback =? CB_TERM_RCVR then term_rcvrCallback param
  else if callback =? CB_TERM_XMTR then term_xmtrCallback param
  else if callback =? CB_DISK then disk_callback param
  else if callback =? CB_KBD then kbdCallback param
  else mret tt.
