(* ===== verification/Bus.v ===== *)
(** * The bus (gimmix/src/core/bus.c)

    The registered devices in the order of their registration; an access goes to the
    first device whose range holds the octa-aligned address. *)

From Stdlib Require Import ZArith Lia Bool.
From stdpp Require Import base list numbers option.
From S2P Require Import Prelude Ram Machine Registers Devices Peripherals.

Abbreviation DEV_START_ADDR := 0x0001000000000000.
Abbreviation RAM_START_ADDR := 0.

(** ** The code *)

Fixpoint irq_bits (devs : list sDevice) (bits : Z) : Z :=
  match devs with
  | [] => bits
  | d :: devs => irq_bits devs (bits .| dev_irqMask d)
  end.

Definition bus_getIntrptBits : M Z := gets (fun m => irq_bits (m_devices m) 0).

Definition bus_getDevByIndex (devs : list sDevice) (index : nat) : option sDevice :=
  devs !! index.

Fixpoint dev_by_addr (devs : list sDevice) (addr : Z) : option sDevice :=
  match devs with
  | [] => None
  | d :: devs =>
    if (dev_startAddr d <=? addr) && (addr <=? dev_endAddr d) then Some d
    else dev_by_addr devs addr
  end.

Definition bus_getDevByAddr (addr : Z) : M (option sDevice) :=
  gets (fun m => dev_by_addr (m_devices m) addr).

(** The overlap test of [bus_overlapMem] for one device. *)
Definition overlaps (d : sDevice) (start end_ : Z) : bool :=
  ((start <=? dev_startAddr d) && (dev_startAddr d <=? end_)) ||
  ((start <=? dev_endAddr d) && (dev_endAddr d <=? end_)) ||
  ((dev_startAddr d <? start) && (end_ <? dev_endAddr d)).

Fixpoint bus_overlapMem (devs : list sDevice) (start end_ : Z) : option sDevice :=
  match devs with
  | [] => None
  | d :: devs => if overlaps d start end_ then Some d else bus_overlapMem devs start end_
  end.

Definition bus_register (dev : sDevice) : M unit :=
  bits ← bus_getIntrptBits;
  when (truth (bits .& dev_irqMask dev)) (stop SimError);;
  overlap ← gets (fun m => bus_overlapMem (m_devices m) (dev_startAddr dev) (dev_endAddr dev));
  match overlap with
  | Some _ => stop SimError
  | None => modify (fun m => set_m_devices (m_devices m ++ [dev]) m)
  end.

(** The function pointers of a device. *)
Definition dev_read (d : sDevice) : Z -> bool -> M Z :=
  match dev_id d with
  | DevRAM => ram_read
  | DevTimer => timer_read
  | DevROM => rom_read
  | DevTerm _ => term_read
  | DevDisk => disk_read
  | DevOutput => output_read
  | DevDisplay => displayRead
  | DevKeyboard => keyboardRead
  end.

Definition dev_write (d : sDevice) : Z -> Z -> M unit :=
  match dev_id d with
  | DevRAM => ram_write
  | DevTimer => timer_write
  | DevROM => rom_write
  | DevTerm _ => term_write
  | DevDisk => disk_write
  | DevOutput => output_write
  | DevDisplay => displayWrite
  | DevKeyboard => keyboardWrite
  end.

Definition bus_read (addr : Z) (sideEffects : bool) : M Z :=
  let addr := addr .& not64 7 in
  dev ← bus_getDevByAddr addr;
  match dev with
  | None => ex_throw EX_DYNAMIC_TRAP TRAP_NONEX_MEMORY
  | Some dev =>
    data ← dev_read dev addr sideEffects;
    when sideEffects (ev_fire (EV_DEV_READ addr data));;
    mret data
  end.

Definition bus_write (addr data : Z) (sideEffects : bool) : M unit :=
  let addr := addr .& not64 7 in
  dev ← bus_getDevByAddr addr;
  match dev with
  | None => ex_throw EX_DYNAMIC_TRAP TRAP_NONEX_MEMORY
  | Some dev =>
    dev_write dev addr data;;
    when sideEffects (ev_fire (EV_DEV_WRITE addr data))
  end.

(** The init functions of the devices, as [bus_init] calls them: [rom_init] with the size
    and the bytes of the ROM image, if one is configured. *)
Definition ram_init : M unit :=
  size ← gets (fun m => cfg_ramSize (m_cfg m));
  bus_register (mk_sDevice DevRAM RAM_START_ADDR (size - 1) 0);;
  ram_reset.

Definition timer_init : M unit :=
  bus_register (mk_sDevice DevTimer TIMER_START_ADDR (TIMER_START_ADDR + 2 * 8 - 1)
                           (2 ^ TIMER_IRQ));;
  on_timer (fun t => set_t_freeTimers (TIMER_COUNT + t_freeTimers t) t);;
  timer_reset.

Definition rom_init (image : option (Z * arr)) : M unit :=
  match image with
  | None => mret tt
  | Some (size, bytes) =>
    when (ROM_SIZE <? size) (stop SimError);;
    bus_register (mk_sDevice DevROM ROM_START_ADDR (ROM_START_ADDR + size - 1) 0);;
    rom_reset size bytes
  end.

(** The registration of the terminal [i]; the window of the terminal is not modelled. *)
Definition term_register (i : Z) : M unit :=
  let start := TERM_START_ADDR + i * DEV_REG_SPACE in
  bus_register (mk_sDevice (DevTerm i) start (start + 4 * 8 - 1)
    (2 ^ (TERM_START_IRQ + i * 2) .| 2 ^ (TERM_START_IRQ + i * 2 + 1))).

Definition term_init : M unit :=
  n ← gets (fun m => cfg_termCount (cfg_io (m_cfg m)));
  on_io (set_io_numTerminals n);;
  for_m (Z.to_nat n) 0 term_register;;
  term_reset.

Definition disk_init : M unit :=
  img ← gets (fun m => cfg_diskImage (cfg_io (m_cfg m)));
  match img with
  | None => on_disk (set_d_totalSectors 0)
  | Some (numBytes, bytes) =>
    when (negb (numBytes mod DISK_SECTOR_SIZE =? 0)) (stop SimError);;
    on_disk (fun d => set_d_totalSectors (numBytes / DISK_SECTOR_SIZE) (set_d_image bytes d));;
    bus_register (mk_sDevice DevDisk DISK_START_ADDR
      (DISK_START_ADDR + DISK_BUFFER + DISK_BUF_SIZE - 1) (2 ^ DISK_IRQ))
  end;;
  disk_reset.

Definition output_init : M unit :=
  f ← gets (fun m => cfg_outputFile (cfg_io (m_cfg m)));
  on_io (set_io_outputFile f);;
  when f (bus_register (mk_sDevice DevOutput OUTPUT_START_ADDR (OUTPUT_START_ADDR + 8 - 1) 0)).

(** [displayInit] and [keyboardInit] start the monitor window, which sets [installed]. *)
Definition dspkbd_init : M unit :=
  b ← gets (fun m => cfg_useDspKbd (cfg_io (m_cfg m)));
  when b
    (bus_register (mk_sDevice DevDisplay DISPLAY_START_ADDR
       (DISPLAY_START_ADDR + TEXT_SIZE_Y * 128 * 8 - 1) 0);;
     bus_register (mk_sDevice DevKeyboard KEYBOARD_START_ADDR (KEYBOARD_START_ADDR + 2 * 8 - 1)
       (2 ^ KEYBOARD_IRQ));;
     on_io (set_io_installed true);;
     displayReset;;
     keyboardReset).

Definition bus_init (image : option (Z * arr)) : M unit :=
  ram_init;; timer_init;; term_init;; disk_init;; output_init;; rom_init image;; dspkbd_init.

(** The [reset] pointer of a device, with the ROM image of [rom_init]. *)
Definition dev_reset (image : option (Z * arr)) (d : sDevice) : M unit :=
  match dev_id d with
  | DevRAM => ram_reset
  | DevTimer => timer_reset
  | DevROM => match image with
              | Some (size, bytes) => rom_reset size bytes
              | None => mret tt
              end
  | DevTerm _ => term_reset
  | DevDisk => disk_reset
  | DevOutput => mret tt
  | DevDisplay => displayReset
  | DevKeyboard => keyboardReset
  end.

Fixpoint reset_devices (image : option (Z * arr)) (devs : list sDevice) : M unit :=
  match devs with
  | [] => mret tt
  | d :: devs => dev_reset image d;; reset_devices image devs
  end.

Definition bus_reset (image : option (Z * arr)) : M unit :=
  devs ← gets m_devices; reset_devices image devs.

(** [ram_load]: the lines of a program file, scanned. *)
Inductive program_line := Location (loc : Z) | Datum (o : Z).

Fixpoint ram_load (lines : list program_line) (loc : Z) : M unit :=
  match lines with
  | [] => mret tt
  | Location loc :: lines => ram_load lines (loc .& not64 7)
  | Datum o :: lines => bus_write loc o false;; ram_load lines (loc +o 8)
  end.

(** ** Registration keeps the devices apart *)

(** Two devices share neither an address nor an interrupt. *)
Definition disjoint (d e : sDevice) : Prop :=
  (forall a, ~ (dev_startAddr d <= a <= dev_endAddr d /\ dev_startAddr e <= a <= dev_endAddr e)) /\
  dev_irqMask d .& dev_irqMask e = 0.

Fixpoint apart (devs : list sDevice) : Prop :=
  match devs with
  | [] => True
  | d :: devs => (forall e, e ∈ devs -> disjoint d e) /\ apart devs
  end.

Lemma overlaps_spec d s e :
  overlaps d s e = false ->
  dev_startAddr d <= dev_endAddr d -> s <= e ->
  forall a, ~ (dev_startAddr d <= a <= dev_endAddr d /\ s <= a <= e).
Proof.
  unfold overlaps. intros H Hd Hs a Ha.
  destruct (Z.leb_spec s (dev_startAddr d)), (Z.leb_spec (dev_startAddr d) e),
    (Z.leb_spec s (dev_endAddr d)), (Z.leb_spec (dev_endAddr d) e),
    (Z.ltb_spec (dev_startAddr d) s), (Z.ltb_spec e (dev_endAddr d)); cbn in H; try discriminate; lia.
Qed.

Lemma irq_bits_spec devs bits mask :
  irq_bits devs bits .& mask = 0 ->
  bits .& mask = 0 /\ forall d, d ∈ devs -> dev_irqMask d .& mask = 0.
Proof.
  revert bits; induction devs as [|d devs IH]; cbn [irq_bits]; intros bits H.
  - split; [trivial|]. intros d Hd; inversion Hd.
  - destruct (IH _ H) as [H1 H2]. rewrite Z.land_lor_distr_l in H1.
    apply Z.lor_eq_0_iff in H1 as [H1 H1']. split; [trivial|].
    intros e He. apply elem_of_cons in He as [->|He]; auto.
Qed.

Lemma overlapMem_none devs s e :
  bus_overlapMem devs s e = None -> forall d, d ∈ devs -> overlaps d s e = false.
Proof.
  induction devs as [|d devs IH]; cbn [bus_overlapMem]; intros H x Hx; [inversion Hx|].
  destruct (overlaps d s e) eqn:E; [discriminate|].
  apply elem_of_cons in Hx as [->|Hx]; auto.
Qed.

Lemma apart_snoc devs d :
  apart devs -> (forall e, e ∈ devs -> disjoint e d) -> apart (devs ++ [d]).
Proof.
  induction devs as [|x devs IH]; cbn [apart app]; intros Ha Hd.
  - split; [|trivial]. intros e He; inversion He.
  - destruct Ha as [Hx Ha]. split.
    + intros e He. apply elem_of_app in He as [He|He]; [auto|].
      apply list_elem_of_singleton in He as ->. apply Hd. left.
    + apply IH; [trivial|]. intros e He; apply Hd. right; trivial.
Qed.

(** In a set of devices that are apart, an address belongs to one device. *)
Lemma dev_by_addr_spec devs a d :
  apart devs ->
  dev_by_addr devs a = Some d <-> d ∈ devs /\ dev_startAddr d <= a <= dev_endAddr d.
Proof.
  induction devs as [|x devs IH]; cbn [apart dev_by_addr]; intros Ha.
  - split; [discriminate|]. intros [H _]; inversion H.
  - destruct Ha as [Hx Ha]. rewrite elem_of_cons.
    destruct (Z.leb_spec (dev_startAddr x) a), (Z.leb_spec a (dev_endAddr x)); cbn [andb].
    + split; [intros [= ->]; split; [tauto|lia]|].
      intros [[->|Hd] Hr]; [trivial|]. destruct (Hx d Hd) as [HX _]. destruct (HX a). lia.
    + rewrite IH by trivial. split; [tauto|]. intros [[->|?] ?]; [lia|tauto].
    + rewrite IH by trivial. split; [tauto|]. intros [[->|?] ?]; [lia|tauto].
    + rewrite IH by trivial. split; [tauto|]. intros [[->|?] ?]; [lia|tauto].
Qed.

Lemma irq_clash devs bits e :
  irq_bits devs bits .& dev_irqMask e <> 0 ->
  bits .& dev_irqMask e <> 0 \/ exists d, d ∈ devs /\ ~ disjoint d e.
Proof.
  revert bits; induction devs as [|d devs IH]; cbn [irq_bits]; intros bits H; [tauto|].
  destruct (IH _ H) as [H1|(x & Hx & Hd)]; [|right; exists x; split; [right|]; trivial].
  rewrite Z.land_lor_distr_l in H1.
  destruct (Z.eq_dec (bits .& dev_irqMask e) 0) as [E|]; [|tauto]. rewrite E in H1.
  right. exists d. split; [left|]. intros [_ E']. rewrite E' in H1. contradiction.
Qed.

Lemma overlapMem_some devs s e o :
  bus_overlapMem devs s e = Some o -> o ∈ devs /\ overlaps o s e = true.
Proof.
  induction devs as [|d devs IH]; cbn [bus_overlapMem]; [discriminate|].
  destruct (overlaps d s e) eqn:E.
  - intros [= ->]. split; [left|trivial].
  - intros H; apply IH in H as [? ?]. split; [right; trivial|trivial].
Qed.

Lemma overlaps_clash d e :
  overlaps d (dev_startAddr e) (dev_endAddr e) = true ->
  dev_startAddr d <= dev_endAddr d -> dev_startAddr e <= dev_endAddr e -> ~ disjoint d e.
Proof.
  unfold overlaps. intros H Hd He [HX _].
  destruct (HX (Z.max (dev_startAddr d) (dev_startAddr e))).
  destruct (Z.leb_spec (dev_startAddr e) (dev_startAddr d)), (Z.leb_spec (dev_startAddr d) (dev_endAddr e)),
    (Z.leb_spec (dev_startAddr e) (dev_endAddr d)), (Z.leb_spec (dev_endAddr d) (dev_endAddr e)),
    (Z.ltb_spec (dev_startAddr d) (dev_startAddr e)), (Z.ltb_spec (dev_endAddr e) (dev_endAddr d));
    cbn in H; try discriminate; lia.
Qed.

(** C37: [bus_register] adds a device at the end of the list and keeps all devices
    apart (no common address, no common interrupt), or it reports an error and
    changes nothing; every address then belongs to at most one device, the one the
    bus selects. *)
Theorem bus_register_apart dev m :
  apart (m_devices m) -> (forall d, d ∈ m_devices m -> dev_startAddr d <= dev_endAddr d) ->
  dev_startAddr dev <= dev_endAddr dev ->
  (bus_register dev m = (Stop SimError, m) /\ exists d, d ∈ m_devices m /\ ~ disjoint d dev) \/
  (exists m', bus_register dev m = (Ret tt, m') /\ m_devices m' = m_devices m ++ [dev] /\
     apart (m_devices m') /\
     forall a d, dev_by_addr (m_devices m') a = Some d <->
                 d ∈ m_devices m' /\ dev_startAddr d <= a <= dev_endAddr d).
Proof.
  intros Ha Hr Hd. unfold bus_register, bus_getIntrptBits. rewrite bind_gets. unfold truth.
  destruct (Z.eqb_spec (irq_bits (m_devices m) 0 .& dev_irqMask dev) 0) as [E|E]; cbn [negb].
  2: { left. split; [reflexivity|]. apply irq_clash in E as [E|]; [|trivial].
       rewrite Z.land_0_l in E; contradiction. }
  rewrite (bind_ret _ _ m tt m) by reflexivity. rewrite bind_gets.
  destruct (bus_overlapMem _ _ _) as [o|] eqn:Eo.
  - left. split; [reflexivity|]. exists o.
    apply overlapMem_some in Eo as [? Eo]. split; [trivial|]. apply overlaps_clash; auto.
  - right. eexists. split; [reflexivity|]. cbn [m_devices set_m_devices].
    assert (HA : apart (m_devices m ++ [dev])).
    { apply apart_snoc; [trivial|]. intros e He. split.
      - apply overlaps_spec; [eapply overlapMem_none; eauto|auto|trivial].
      - apply irq_bits_spec in E as [_ E]; auto. }
    csplit; trivial. intros a d. apply dev_by_addr_spec; trivial.
Qed.

Definition sample_timer : sDevice :=
  mk_sDevice DevTimer TIMER_START_ADDR (TIMER_START_ADDR + 15) (2 ^ TIMER_IRQ).

Lemma bus_register_apart_witness :
  let m := power_on default_config in
  exists m', bus_register sample_timer m = (Ret tt, m') /\ apart (m_devices m').
Proof.
  intros m. destruct (bus_register_apart sample_timer m) as [[E _]|(m' & E & _ & Ha & _)].
  - exact I.
  - intros d Hd; inversion Hd.
  - vm_compute; congruence.
  - discriminate E.
  - exists m'. split; trivial.
Defined.

(** ** The bus in front of RAM is a flat memory *)

(** RAM is the first device and has been touched; its size is a multiple of the block
    size of the caches. *)
Record wf_bus (m : machine) : Prop := {
  wb_size : 0 < cfg_ramSize (m_cfg m) <= DEV_START_ADDR /\ cfg_ramSize (m_cfg m) mod 32 = 0;
  wb_dev : exists devs, m_devices m =
             mk_sDevice DevRAM RAM_START_ADDR (cfg_ramSize (m_cfg m) - 1) 0 :: devs;
  wb_ram : wf_ram (m_ram m);
  wb_touched : ram_last (m_ram m) <> None
}.

(** The contents of the physical memory. *)
Definition mem (m : machine) (a : Z) : Z := ram_octa (m_ram m) a.

Definition ram_addr (m : machine) (a : Z) : Prop := 0 <= a < cfg_ramSize (m_cfg m).

(** The states that differ from [m] in the RAM and the log only. *)
Definition with_mem (s : ram_state) (l : list event) (m : machine) : machine :=
  set_m_log l (set_m_ram s m).

Lemma land_align8 a : is_octa a -> a .& not64 7 = align8 a.
Proof. intros Ha. apply (land_not_mask 64 3); [lia|trivial]. Qed.

Lemma align8_addr m a :
  wf_bus m -> ram_addr m a -> octa_addr (align8 a) /\ ram_addr m (align8 a).
Proof.
  intros [[Hs Hm] _ _ _] Ha. unfold octa_addr, ram_addr, align8 in *.
  csplit; try (unfold is_word); Z.div_mod_to_equations; lia.
Qed.

Lemma ram_addr_octa m a : wf_bus m -> ram_addr m a -> is_octa a.
Proof. intros [[Hs _] _ _ _] Ha. unfold ram_addr in Ha. wordlia. Qed.

Lemma ram_selected m a :
  wf_bus m -> ram_addr m a ->
  dev_by_addr (m_devices m) a = Some (mk_sDevice DevRAM RAM_START_ADDR (cfg_ramSize (m_cfg m) - 1) 0).
Proof.
  intros [_ [devs ->] _ _] [H1 H2]. cbn [dev_by_addr dev_startAddr dev_endAddr].
  replace (0 <=? a) with true by (symmetry; apply Z.leb_le; lia).
  replace (a <=? cfg_ramSize (m_cfg m) - 1) with true by (symmetry; apply Z.leb_le; lia).
  reflexivity.
Qed.

Lemma bus_read_ram a se m :
  wf_bus m -> ram_addr m a ->
  exists s l, bus_read a se m = (Ret (mem m (align8 a)), with_mem s l m) /\
    wf_bus (with_mem s l m) /\ forall b, mem (with_mem s l m) b = mem m b.
Proof.
  intros W Ha. destruct (align8_addr m a W Ha) as [HA HR].
  unfold bus_read, bus_getDevByAddr. rewrite land_align8 by (eapply ram_addr_octa; eauto).
  rewrite bind_gets, ram_selected by trivial. unfold dev_read; cbn [dev_id].
  pose proof (ram_doRead_spec (align8 a) (m_ram m) (wb_ram m W) HA) as H.
  destruct (ram_doRead (align8 a) (m_ram m)) as [v s] eqn:E.
  destruct H as (-> & Ws & Hm & Hl); [intros N; destruct (wb_touched m W N)|].
  assert (ER : ram_read (align8 a) se m = (Ret (ram_octa (m_ram m) (align8 a)), set_m_ram s m)).
  { unfold ram_read. rewrite bind_gets. unfold ram_addr in HR.
    replace (cfg_ramSize (m_cfg m) <=? align8 a) with false by (symmetry; apply Z.leb_gt; lia).
    rewrite E. reflexivity. }
  rewrite (bind_ret _ _ _ _ _ ER).
  exists s, (if se then EV_DEV_READ (align8 a) (mem m (align8 a)) :: m_log m else m_log m).
  split; [destruct se; destruct m; reflexivity|].
  split; [|intros b; apply Hm]. destruct W. constructor; trivial.
Qed.

Lemma bus_write_ram a v se m :
  wf_bus m -> ram_addr m a -> is_octa v ->
  exists s l, bus_write a v se m = (Ret tt, with_mem s l m) /\
    wf_bus (with_mem s l m) /\
    forall b, octa_addr b -> mem (with_mem s l m) b = if b =? align8 a then v else mem m b.
Proof.
  intros W Ha Hv. destruct (align8_addr m a W Ha) as [HA HR].
  unfold bus_write, bus_getDevByAddr. rewrite land_align8 by (eapply ram_addr_octa; eauto).
  rewrite bind_gets, ram_selected by trivial. unfold dev_write; cbn [dev_id].
  destruct (ram_doWrite_spec (align8 a) v (m_ram m) (wb_ram m W) HA Hv) as (Ws & Hl & Hm);
    [intros N; destruct (wb_touched m W N)|].
  set (s := ram_doWrite (align8 a) v (m_ram m)) in *.
  assert (EW : ram_write (align8 a) v m = (Ret tt, set_m_ram s m)).
  { unfold ram_write. rewrite bind_gets. unfold ram_addr in HR.
    replace (cfg_ramSize (m_cfg m) <=? align8 a) with false by (symmetry; apply Z.leb_gt; lia).
    reflexivity. }
  rewrite (bind_ret _ _ _ _ _ EW).
  exists s, (if se then EV_DEV_WRITE (align8 a) v :: m_log m else m_log m).
  split; [destruct se; destruct m; reflexivity|].
  split; [|exact Hm]. destruct W. constructor; trivial.
Qed.

(** An access outside of every device does not come back with a value. *)
Lemma bus_read_unmapped a se m :
  is_octa a -> dev_by_addr (m_devices m) (align8 a) = None ->
  bus_read a se m = (Throw EX_DYNAMIC_TRAP TRAP_NONEX_MEMORY, m).
Proof.
  intros Ha E. unfold bus_read, bus_getDevByAddr.
  rewrite land_align8, bind_gets, E by trivial. reflexivity.
Qed.

Lemma align8_id a : octa_addr a -> align8 a = a.
Proof. intros [_ H]. unfold align8. lia. Qed.

Lemma mem_octa m a : wf_bus m -> is_octa (mem m a).
Proof.
  intros W. unfold mem, ram_octa, ram_tetra.
  pose proof (wr_tetra _ (wb_ram m W) (ptr_of a)). pose proof (wr_tetra _ (wb_ram m W) (ptr_of (a + 4))).
  wordlia.
Qed.

(** RAM behind the bus is a flat memory. *)
#[export] Instance bus_memory se :
  FlatMemory wf_bus ram_addr mem (fun m => (core m, m_caches m, m_nextVictim m))
    (fun a => bus_read a se) (fun a v => bus_write a v se).
Proof.
  split.
  - intros a m W _. apply mem_octa; trivial.
  - intros a m W HR. destruct (bus_read_ram a se m W HR) as (s & l & E & W' & Hm).
    exists (with_mem s l m). csplit; trivial. intros b ?. split; [trivial|intros _; apply Hm].
  - intros a v m W HR Hv. destruct (bus_write_ram a v se m W HR Hv) as (s & l & E & W' & Hm).
    exists (with_mem s l m). csplit; trivial. intros b ?. split; [trivial|apply Hm].
Qed.
