(* ===== verification/IoSpec.v ===== *)
(** * The correctness of the devices

    The tick of the simulation timers with the callbacks of the devices, the commands of
    the disk, and the reset of the terminals. *)

From Stdlib Require Import ZArith Lia Bool.
From stdpp Require Import base list numbers option sorting.
From S2P Require Import Prelude Ram Machine Registers Devices Peripherals Bus.

(** ** The callbacks of the devices *)

(** The interrupts of the terminals are bits of rQ, and the time is far from overflowing. *)
Definition irqs_ok (t : sTerminal) : Prop := 0 <= rcvrIRQ t < 64 /\ 0 <= xmtrIRQ t < 64.
Definition io_ok (m : machine) : Prop :=
  0 <= t_currentTime (m_timer m) < 2 ^ 62 /\ forall i, irqs_ok (io_terms (m_io m) i).

(** [c] returns, keeps [io_ok] and leaves the timers alone. *)
Definition quiet {A} (c : M A) : Prop :=
  forall m, io_ok m -> exists v m', c m = (Ret v, m') /\ io_ok m' /\
    m_timer m' = m_timer m /\ m_log m' = m_log m.

Lemma quiet_mret {A} (v : A) : quiet (mret v).
Proof. intros m G. exists v, m. auto. Qed.

Lemma quiet_bind {A B} (c : M A) (k : A -> M B) :
  quiet c -> (forall v, quiet (k v)) -> quiet (c ≫= k).
Proof.
  intros Hc Hk m G. destruct (Hc m G) as (v & m1 & E1 & G1 & T1 & L1).
  destruct (Hk v m1 G1) as (w & m2 & E2 & G2 & T2 & L2).
  exists w, m2. rewrite (bind_ret _ _ _ _ _ E1). csplit; [exact E2|exact G2|congruence|congruence].
Qed.

Lemma quiet_gets {A} (f : machine -> A) : quiet (gets f).
Proof. intros m G. exists (f m), m. auto. Qed.

Lemma quiet_when b (c : M unit) : quiet c -> quiet (when b c).
Proof. intros H. destruct b; [exact H|apply quiet_mret]. Qed.

Lemma quiet_io f :
  (forall s, (forall i, irqs_ok (io_terms s i)) -> forall i, irqs_ok (io_terms (f s) i)) ->
  quiet (on_io f).
Proof. intros H m [Ht Hi]. eexists tt, _. split; [reflexivity|]. split; [split|split]; cbn; auto. Qed.

Lemma quiet_on_disk f : quiet (on_disk f).
Proof. apply quiet_io. auto. Qed.

Lemma quiet_on_kbd f : quiet (on_kbd f).
Proof. apply quiet_io. auto. Qed.

Lemma quiet_on_term i f : (forall t, irqs_ok t -> irqs_ok (f t)) -> quiet (on_term i f).
Proof.
  intros H. apply quiet_io. intros s Hs j. cbn. unfold upd. case_match; auto.
Qed.

Lemma quiet_get_term {B} i (k : sTerminal -> M B) :
  (forall t, irqs_ok t -> quiet (k t)) -> quiet (get_term i ≫= k).
Proof. intros H m G. unfold get_term. rewrite bind_gets. apply H; [apply G|exact G]. Qed.

Lemma quiet_setInterrupt irq : 0 <= irq < 64 -> quiet (cpu_setInterrupt irq).
Proof.
  intros H m G. rewrite setInterrupt_eq by exact H. eexists tt, _. split; [reflexivity|]. auto.
Qed.

Ltac quiet_tac :=
  repeat first
    [ apply quiet_mret | apply quiet_gets | apply quiet_on_disk | apply quiet_on_kbd | apply quiet_when
    | apply quiet_on_term; [intros ? []; split; assumption]
    | apply quiet_get_term; intros ? [? ?]
    | apply quiet_setInterrupt; [assumption || lia]
    | case_match
    | apply quiet_bind; [|intros ?] ].

(** A callback first starts the timer anew, if at all. *)
Definition returns_later (c : M unit) : Prop :=
  forall m, io_ok m -> (0 < t_freeTimers (m_timer m))%nat ->
  exists m', c m = (Ret tt, m') /\ io_ok m' /\ starts_later (m_timer m) (m_timer m') /\
    m_log m' = m_log m.

Lemma later_quiet (c : M unit) : quiet c -> returns_later c.
Proof. intros H m G _. destruct (H m G) as ([] & m' & E & G' & T & L). exists m'. unfold starts_later. auto. Qed.

Lemma later_start msec device callback param (k : unit -> M unit) :
  0 < msec < 2 ^ 62 -> quiet (k tt) ->
  returns_later (timer_start msec device callback param ≫= k).
Proof.
  intros Hm Hk m [Ht Hi] Hf. unfold timer_start at 1. rewrite bind_assoc, bind_gets.
  destruct (t_freeTimers (m_timer m)) as [|n] eqn:En; [lia|].
  unfold on_timer. rewrite bind_modify.
  match goal with |- context [k tt ?m0] => destruct (Hk m0) as ([] & m' & E & G' & T & L) end;
    [split; assumption|].
  exists m'. split; [exact E|]. split; [exact G'|]. split; [|rewrite L; reflexivity].
  right. rewrite T. cbn.
  eexists. split; [|split; [exact En|reflexivity]]. cbn. rewrite wrap_small; wordlia.
Qed.

Lemma dev_callback_returns f p : returns_later (dev_callback f p).
Proof.
  unfold dev_callback. repeat case_match; try (apply later_quiet, quiet_mret).
  - apply later_start; [lia|]. quiet_tac.
  - apply later_quiet. unfold term_xmtrCallback. quiet_tac.
  - apply later_quiet. unfold disk_callback. quiet_tac.
  - apply later_start; [lia|]. quiet_tac.
Qed.

(** ** Ticks *)

(** The simulation timers between two ticks: the queue is sorted and nothing is due. *)
Record timers_ok (t : timer_state) : Prop := {
  to_time : 0 <= t_currentTime t < TIME_WRAP;
  to_sorted : StronglySorted earlier (t_activeTimers t);
  to_later : Forall (fun x => t_currentTime t < tm_alarm x) (t_activeTimers t);
  to_bound : Forall (fun x => tm_alarm x < 2 ^ 63) (t_activeTimers t)
}.

Definition callback_event (x : sTimer) : event := EV_DEV_CALLBACK (tm_device x) (tm_param x).

(** The same timer with its alarm [k] earlier. *)
Definition rebase (k : Z) (x : sTimer) : sTimer :=
  mk_sTimer (tm_alarm x - k) (tm_device x) (tm_callback x) (tm_param x).

Lemma rebase_0 l : map (rebase 0) l = l.
Proof. induction l as [|[] l IH]; cbn; rewrite ?IH; unfold rebase; cbn; rewrite ?Z.sub_0_r; reflexivity. Qed.

Lemma due_rebase k n l : due (n - k) (map (rebase k) l) = map (rebase k) (due n l).
Proof.
  unfold due. induction l as [|x l IH]; [reflexivity|]. cbn [map]. rewrite !filter_cons, IH. cbn.
  repeat case_decide; try lia; reflexivity.
Qed.

Lemma pending_rebase k n x l : x ∈ pending n l -> rebase k x ∈ pending (n - k) (map (rebase k) l).
Proof.
  intros H. apply list_elem_of_filter in H as [H1 H2]. apply list_elem_of_filter. split; [cbn; lia|].
  apply (list_elem_of_fmap_2 (rebase k) l x H2).
Qed.

Lemma sorted_rebase k l : StronglySorted earlier l -> StronglySorted earlier (map (rebase k) l).
Proof.
  induction 1 as [|x l Hs IH Hx]; constructor; [trivial|]. apply Forall_map.
  eapply Forall_impl; [exact Hx|]. unfold earlier. cbn. intros; lia.
Qed.

(** The first part of a tick: the time advances by one, or it wraps together with the alarms. *)
Lemma timer_advance_spec t :
  timers_ok t ->
  exists k, (k = 0 /\ t_currentTime t + 1 < TIME_WRAP \/ k = TIME_WRAP /\ t_currentTime t + 1 = TIME_WRAP) /\
    timer_advance t = set_t_activeTimers (map (rebase k) (t_activeTimers t))
                        (set_t_currentTime (t_currentTime t + 1 - k) t).
Proof.
  intros [Ht Hs Hl Hb]. unfold timer_advance. rewrite (wrap_small 64) by wordlia.
  destruct (Z.eqb_spec (t_currentTime t + 1) TIME_WRAP) as [E|E].
  - exists TIME_WRAP. split; [auto|]. f_equal. apply map_ext_in. intros x Hx. unfold rebase. f_equal.
    apply list_elem_of_In in Hx. rewrite Forall_forall in Hl, Hb. specialize (Hl x Hx). specialize (Hb x Hx).
    apply wrap_small; wordlia.
  - exists 0. split; [left; lia|]. rewrite rebase_0, Z.sub_0_r. destruct t; reflexivity.
Qed.

(** The rest of a tick, the hardware timer. *)
Definition counted_down (t t' : timer_state) (q : Z) : Prop :=
  if t_timerCounter t -o 1 =? 0 then
    t_timerCounter t' = t_timerDivisor t /\ t_timerCtrl t' = t_timerCtrl t .| TIMER_EXP /\
    (truth (t_timerCtrl t' .& TIMER_IEN) = true -> Z.testbit q TIMER_IRQ = true)
  else t_timerCounter t' = t_timerCounter t -o 1 /\ t_timerCtrl t' = t_timerCtrl t.

(** The queue is as before, only the registers of the hardware timer have changed. *)
Definition same_queue (t t' : timer_state) : Prop :=
  t_activeTimers t' = t_activeTimers t /\ t_freeTimers t' = t_freeTimers t /\
  t_currentTime t' = t_currentTime t /\ t_timerDivisor t' = t_timerDivisor t.

(** The end of [timer_tick]. *)
Definition count_down : M unit :=
  on_timer (fun t => set_t_timerCounter (t_timerCounter t -o 1) t);;
  t ← gets m_timer;
  when (t_timerCounter t =? 0)
    (on_timer (fun t => set_t_timerCtrl (t_timerCtrl t .| TIMER_EXP)
                          (set_t_timerCounter (t_timerDivisor t) t));;
     t ← gets m_timer;
     when (truth (t_timerCtrl t .& TIMER_IEN)) (cpu_setInterrupt TIMER_IRQ)).

Lemma timer_count_spec m :
  exists m', count_down m = (Ret tt, m') /\
    same_queue (m_timer m) (m_timer m') /\ m_log m' = m_log m /\
    counted_down (m_timer m) (m_timer m') (r_special (m_reg m') rQ).
Proof.
  unfold count_down, counted_down, same_queue, on_timer. rewrite bind_modify, bind_gets.
  cbn -[put_special cpu_setInterrupt Z.testbit]. set (t := m_timer m).
  destruct (t_timerCounter t -o 1 =? 0); [|eexists; split; [reflexivity|]; csplit; reflexivity].
  unfold when at 1. rewrite bind_modify, bind_gets. cbn -[put_special cpu_setInterrupt Z.testbit].
  fold t. destruct (truth ((t_timerCtrl t .| TIMER_EXP) .& TIMER_IEN)) eqn:EI; unfold when.
  - rewrite setInterrupt_eq by lia. eexists; split; [reflexivity|].
    cbn -[put_special cpu_setInterrupt Z.testbit]. csplit; trivial. intros _.
    rewrite put_special_same, Z.lor_spec. apply orb_true_iff. right. reflexivity.
  - eexists; split; [reflexivity|]. cbn -[put_special cpu_setInterrupt Z.testbit]. csplit; trivial.
    fold t. congruence.
Qed.

(** The devices are not touched. *)
Lemma count_down_io m m' : count_down m = (Ret tt, m') -> m_io m' = m_io m.
Proof.
  unfold count_down, on_timer. rewrite bind_modify, bind_gets. cbn -[cpu_setInterrupt].
  destruct (_ =? 0); [|intros [= <-]; reflexivity]. unfold when at 1. rewrite bind_modify, bind_gets. cbn -[cpu_setInterrupt].
  destruct (truth _); unfold when; [|intros [= <-]; reflexivity]. rewrite setInterrupt_eq by lia. intros [= <-]. reflexivity.
Qed.

Lemma run_each_rebase k xs m : run_each dev_callback (map (rebase k) xs) m = run_each dev_callback xs m.
Proof.
  revert m. induction xs as [|x xs IH]; intros m; [reflexivity|]. cbn [map run_each]. unfold mbind, M_bind. cbn [rebase tm_device tm_param tm_callback].
  repeat (match goal with |- context [let (_, _) := ?c in _] => destruct c as [[] ?] end; try reflexivity). apply IH.
Qed.

(** C26: A tick of the timers, with the callbacks of the terminals, the disk and the
    keyboard, returns as long as one timer is free; it advances the time (modulo the wrap
    point), runs the callbacks of exactly the timers that are due with their parameters, in the
    order of their alarms: the devices are in the state in which these callbacks leave them, one
    after the other.  The other timers stay in the queue, one tick closer to their alarm.  Nothing
    is due afterwards, the queue is sorted and no timer is lost.  The hardware timer counts
    down; at 0 it is reloaded, marked as expired and requests its interrupt if enabled. *)
Theorem timer_tick_expires fuel m :
  let t := m_timer m in
  timers_ok t -> (forall i, irqs_ok (io_terms (m_io m) i)) ->
  (length (t_activeTimers t) < fuel)%nat -> (0 < t_freeTimers t)%nat ->
  exists m', timer_tick dev_callback fuel m = (Ret tt, m') /\
    let t' := m_timer m' in
    timers_ok t' /\ t_currentTime t' = (t_currentTime t + 1) mod TIME_WRAP /\
    m_log m' = rev (map callback_event (due (t_currentTime t + 1) (t_activeTimers t))) ++ m_log m /\
    (exists m1, run_each dev_callback (due (t_currentTime t + 1) (t_activeTimers t)) (set_m_timer (timer_advance t) m) = (Ret tt, m1) /\
       count_down m1 = (Ret tt, m') /\ m_io m' = m_io m1) /\
    (forall x, x ∈ pending (t_currentTime t + 1) (t_activeTimers t) ->
       rebase (t_currentTime t + 1 - t_currentTime t') x ∈ t_activeTimers t') /\
    (length (t_activeTimers t') + t_freeTimers t' = length (t_activeTimers t) + t_freeTimers t)%nat /\
    counted_down t t' (r_special (m_reg m') rQ).
Proof.
  intros t Hok Hirq Hf H0. unfold timer_tick.
  change (on_timer timer_advance) with (modify (fun m => set_m_timer (timer_advance (m_timer m)) m)).
  rewrite bind_modify. fold t.
  destruct (timer_advance_spec t Hok) as (k & Hk & EA). destruct Hok as [Ht Hs Hl Hb].
  set (m0 := set_m_timer _ m).
  assert (E0 : m_timer m0 = timer_advance t) by reflexivity. rewrite EA in E0.
  destruct (timer_expire_spec dev_callback io_ok dev_callback_returns) with
    (n := length (due (t_currentTime (m_timer m0)) (t_activeTimers (m_timer m0)))) (fuel := fuel) (m := m0)
    as (m1 & E1 & G1 & S1 & L1 & RE1).
  - intros t0 m2 [G1 G2] E. split; [cbn; rewrite E; exact G1|exact G2].
  - intros l m2 G. exact G.
  - split; [rewrite E0; cbn; lia|exact Hirq].
  - rewrite E0. apply sorted_rebase, Hs.
  - reflexivity.
  - rewrite E0. cbn -[due]. rewrite due_rebase, length_map.
    unfold due. pose proof (length_filter (fun x => tm_alarm x <= t_currentTime t + 1) (t_activeTimers t)). lia.
  - rewrite E0. exact H0.
  - rewrite (bind_ret _ _ _ _ _ E1).
    destruct (timer_count_spec m1) as (m2 & E2 & (Q1 & Q2 & Q3 & Q4) & L2 & C2).
    exists m2. split; [exact E2|]. destruct S1 as [T H S L B K N].
    rewrite E0 in T, H, L, B, K, N. cbn -[due pending] in T, H, S, L, B, K, N.
    rewrite length_map in N.
    assert (ET : t_currentTime (m_timer m2) = (t_currentTime t + 1) mod TIME_WRAP).
    { rewrite Q3, T. symmetry. destruct Hk as [[-> ?]|[-> ->]]; [|reflexivity]. rewrite Z.mod_small; lia. }
    csplit; trivial.
    + split; rewrite ?Q1, ?Q3, ?T; trivial. 1: lia. apply B. apply Forall_map.
      eapply Forall_impl; [exact Hb|]. cbn. intros; lia.
    + rewrite L2, L1. unfold due_events. rewrite E0. cbn -[due]. rewrite due_rebase, map_map. reflexivity.
    + exists m1. split; [|split; [exact E2|apply (count_down_io m1), E2]]. rewrite <- RE1, E0. cbn -[due run_each]. rewrite due_rebase, run_each_rebase. reflexivity.
    + intros x Hx. rewrite Q1, Q3, T. replace (_ - _) with k by lia. apply K, pending_rebase, Hx.
    + rewrite Q1, Q2. exact N.
    + unfold counted_down in *. injection H as H1 H2 H3. rewrite H1, H2, H3 in C2. exact C2.
Qed.

(** The timer of the keyboard is due, a terminal is sending, the time is about to wrap and
    the hardware timer to expire. *)
Definition ticking : machine :=
  set_m_timer (mk_timer_state [mk_sTimer TIME_WRAP KBD_DEV CB_KBD 0; mk_sTimer (TIME_WRAP + 1) 0 CB_TERM_XMTR 0]
                 18 (TIME_WRAP - 1) TIMER_IEN 7 1) (power_on default_config).

Lemma timer_tick_expires_witness :
  exists m', timer_tick dev_callback 3 ticking = (Ret tt, m') /\
    t_currentTime (m_timer m') = 0 /\ m_log m' = EV_DEV_CALLBACK KBD_DEV 0 :: m_log ticking /\
    (exists m1, run_each dev_callback [mk_sTimer TIME_WRAP KBD_DEV CB_KBD 0] (set_m_timer (timer_advance (m_timer ticking)) ticking) = (Ret tt, m1) /\
       count_down m1 = (Ret tt, m')) /\
    mk_sTimer 1 0 CB_TERM_XMTR 0 ∈ t_activeTimers (m_timer m') /\ t_timerCounter (m_timer m') = 7.
Proof.
  destruct (timer_tick_expires 3 ticking) as (m' & E & O & T & L & (m1 & RE & CE & _) & K & _ & C).
  - split; [cbn; lia| | |]; repeat constructor; cbn; unfold earlier; cbn; lia.
  - intros i. split; cbn; lia.
  - cbn; lia.
  - cbn; lia.
  - exists m'. split; [exact E|]. split; [exact T|]. split; [exact L|]. split; [exists m1; split; [exact RE|exact CE]|]. split; [|exact (proj1 C)].
    rewrite T in K. apply (K (mk_sTimer (TIME_WRAP + 1) 0 CB_TERM_XMTR 0)).
    apply list_elem_of_filter. split; [cbn; lia|]. right. left.
Defined.

(** ** Commands of the disk *)

Lemma testbit_clear c b n :
  0 <= n < 64 -> 0 <= b < 64 -> Z.testbit (c .& not64 (2 ^ b)) n = Z.testbit c n && negb (b =? n).
Proof.
  intros Hn Hb. assert (is_octa (2 ^ b)).
  { pose proof (pow2_pos b). pose proof (Z.pow_lt_mono_r 2 b 64). wordlia. }
  rewrite Z.land_spec, testbit_wnot, Z.pow2_bits_eqb by (trivial; lia). reflexivity.
Qed.

(** A bit of [copy_bit]. *)
Lemma testbit_copy_bit data b c n :
  0 <= n < 64 -> 0 <= b < 64 ->
  Z.testbit (copy_bit data (2 ^ b) c) n = if b =? n then Z.testbit data n else Z.testbit c n.
Proof.
  intros Hn Hb. unfold copy_bit. rewrite truth_pow2 by lia.
  destruct (Z.testbit data b) eqn:E.
  - rewrite Z.lor_spec, Z.pow2_bits_eqb by lia.
    destruct (Z.eqb_spec b n) as [<-|]; [rewrite E; apply orb_true_r|apply orb_false_r].
  - rewrite testbit_clear by trivial.
    destruct (Z.eqb_spec b n) as [<-|]; [rewrite E|]; cbn; rewrite ?andb_false_r, ?andb_true_r; trivial.
Qed.

Lemma update_irq_returns ctrl ien flag irq m :
  0 <= irq < 64 -> exists r, update_irq ctrl ien flag irq m = (Ret tt, set_m_reg r m).
Proof.
  intros H. unfold update_irq. destruct (_ && _); [rewrite setInterrupt_eq by exact H; eauto|].
  unfold cpu_resetInterrupt. rewrite (bind_ret _ _ _ _ _ (getSpecial_eq rQ m eq_refl)).
  rewrite (bind_ret _ _ _ _ _ (c_shl64_eq 1 irq m H)), setSpecial_eq by lia. eauto.
Qed.

(** The disk is ready, and a timer is free; the capacity is that of an image whose size is
    a [long]. *)
Definition disk_ready (m : machine) : Prop :=
  let d := io_disk (m_io m) in
  0 < d_cap d < 2 ^ 54 /\ 0 <= d_sct d < 2 ^ 62 /\ 0 <= d_lastSct d < d_cap d /\
  0 <= t_currentTime (m_timer m) < 2 ^ 62 /\ (0 < t_freeTimers (m_timer m))%nat.

(** The write of the control register that starts a command. *)
Definition disk_command (write : bool) (ien : bool) : M unit :=
  disk_write DISK_START_ADDR
    (DISK_STRT .| (if write then DISK_WRT else 0) .| (if ien then DISK_IEN else 0)).

(** What the command leaves: the flags, and the timer of the callback in the queue. *)
Record commanded (write ien : bool) (m m' : machine) : Prop := {
  cm_disk : exists c, io_disk (m_io m') = set_d_ctrl c (io_disk (m_io m)) /\
    Z.testbit c 2 = write /\ Z.testbit c 1 = ien /\ Z.testbit c 3 = false /\ Z.testbit c 4 = false;
  cm_queue : exists x, tm_callback x = CB_DISK /\ tm_param x = 1 /\
    t_currentTime (m_timer m) + 2 <= tm_alarm x <= t_currentTime (m_timer m) + 7 /\
    t_activeTimers (m_timer m') = timer_insert x (t_activeTimers (m_timer m));
  cm_timer : t_freeTimers (m_timer m) = S (t_freeTimers (m_timer m')) /\
    t_currentTime (m_timer m') = t_currentTime (m_timer m)
}.

Lemma signed_small x : 0 <= x < 2 ^ 63 -> socta x = x.
Proof. intros H. unfold signed. destruct (Z.ltb_spec x (2 ^ (64 - 1))); [trivial|lia]. Qed.

Lemma disk_distance_spec sct last m :
  0 <= sct < 2 ^ 62 -> 0 <= last < 2 ^ 62 ->
  disk_distance sct last m = (Ret (Z.abs (sct - last)), m).
Proof.
  intros Hs Hl. unfold disk_distance. rewrite signed_small by lia.
  destruct (Z.ltb_spec (- 2 ^ 63) (sct - last)); [|lia].
  destruct (Z.ltb_spec (sct - last) (2 ^ 63)); [reflexivity|lia].
Qed.

(** The delay of a command is between 2 and 7 ticks. *)
Lemma disk_delay_bounds delta cap :
  0 < cap < 2 ^ 54 -> 0 <= delta -> 
  let delta := if cap <? delta then cap else delta in
  2 <= DISK_DELAY +o wrap64 (delta * DISK_SEEK) / cap <= 7.
Proof.
  intros Hc Hd delta'. assert (0 <= delta' <= cap) by (unfold delta'; destruct (Z.ltb_spec cap delta); lia).
  rewrite (wrap_small 64 (delta' * 5)) by wordlia.
  assert (0 <= delta' * 5 / cap <= 5).
  { split; [apply Z.div_pos; lia|]. apply Z.div_le_upper_bound; lia. }
  rewrite wrap_small by wordlia. lia.
Qed.

Lemma disk_start_spec m :
  disk_ready m ->
  exists x, tm_callback x = CB_DISK /\ tm_param x = 1 /\
    t_currentTime (m_timer m) + 2 <= tm_alarm x <= t_currentTime (m_timer m) + 7 /\
    disk_start m = (Ret tt,
      set_m_timer (set_t_freeTimers (pred (t_freeTimers (m_timer m)))
                     (set_t_activeTimers (timer_insert x (t_activeTimers (m_timer m))) (m_timer m)))
        (set_m_io (set_io_disk (set_d_ctrl
           ((d_ctrl (io_disk (m_io m)) .| DISK_STRT) .& not64 DISK_ERR .& not64 DISK_DONE)
           (io_disk (m_io m))) (m_io m)) m)).
Proof.
  intros (Hc & Hs & Hl & Ht & Hf). set (d := io_disk (m_io m)) in *.
  unfold disk_start, on_disk, on_io, get_disk. rewrite bind_modify, bind_gets. cbn -[disk_distance timer_start].
  fold d. destruct (Z.eqb_spec (d_cap d) 0); [lia|]. unfold when, negb.
  rewrite (bind_ret _ _ _ _ _ (disk_distance_spec _ (d_lastSct d) _ Hs ltac:(lia))), signed_small by lia.
  pose proof (disk_delay_bounds (Z.abs (d_sct d - d_lastSct d)) (d_cap d) Hc ltac:(lia)) as Hd.
  cbv zeta in Hd. set (delay := _ +o _) in *. unfold timer_start. rewrite bind_gets. cbn.
  destruct (t_freeTimers (m_timer m)) as [|free] eqn:En; [lia|].
  eexists (mk_sTimer _ _ _ _). csplit; [..|reflexivity]; cbn; trivial; rewrite wrap_small; wordlia.
Qed.

Lemma disk_command_spec write ien m :
  disk_ready m -> exists m', disk_command write ien m = (Ret tt, m') /\ commanded write ien m m'.
Proof.
  intros H. unfold disk_command, disk_write. rewrite Z.eqb_refl.
  set (data := _ .| _). set (d := io_disk (m_io m)).
  set (c0 := copy_bit data DISK_IEN (copy_bit data DISK_WRT (d_ctrl d))).
  set (m0 := set_m_io (set_io_disk (set_d_ctrl c0 d) (m_io m)) m).
  assert (E0 : truth (data .& DISK_STRT) = true) by (unfold data; destruct write, ien; reflexivity).
  rewrite E0. destruct (disk_start_spec m0 H) as (x & X1 & X2 & X3 & E).
  unfold on_disk at 1, on_io at 1. rewrite bind_modify. fold d c0 m0.
  rewrite (bind_ret _ _ _ _ _ E). unfold get_disk. rewrite bind_gets. cbn.
  match goal with |- context [update_irq ?c ?i ?f ?q ?m1] =>
    destruct (update_irq_returns c i f q m1) as [r ER]; [lia|]; rewrite ER end.
  eexists. split; [reflexivity|]. split.
  - eexists. split; [reflexivity|].
    assert (B : forall n, 0 < n < 64 -> Z.testbit ((c0 .| DISK_STRT) .& not64 DISK_ERR .& not64 DISK_DONE) n
                = (if 1 =? n then Z.testbit data n else if 2 =? n then Z.testbit data n else
                   Z.testbit (d_ctrl d) n) && negb (3 =? n) && negb (4 =? n)).
    { intros n Hn. rewrite (testbit_clear _ 4), (testbit_clear _ 3), Z.lor_spec by lia. unfold c0.
      rewrite (testbit_copy_bit _ 1), (testbit_copy_bit _ 2), (Z.pow2_bits_false 0) by lia.
      rewrite orb_false_r. reflexivity. }
    rewrite !B by lia. unfold data. destruct write, ien; cbn; rewrite ?andb_false_r; auto.
  - exists x. auto.
  - cbn. destruct H as (_ & _ & _ & _ & H). split; [|reflexivity].
    destruct (t_freeTimers (m_timer m)); [lia|reflexivity].
Qed.

(** The callback of a command. *)
Lemma disk_callback_spec m :
  let d := io_disk (m_io m) in
  let c := ((if disk_inRange d then d_ctrl d else d_ctrl d .| DISK_ERR) .& not64 DISK_STRT) .| DISK_DONE in
  exists r, disk_callback 1 m =
    (Ret tt, set_m_reg r (set_m_io (set_io_disk (set_d_ctrl c
               (if disk_inRange d then disk_transfer d else d)) (m_io m)) m)) /\
    (truth (c .& DISK_IEN) = true -> Z.testbit (r_special r rQ) DISK_IRQ = true) /\
    (truth (c .& DISK_IEN) = false -> r = m_reg m).
Proof.
  intros d c. unfold disk_callback, on_disk, on_io, get_disk.
  change (1 =? 0) with false. cbv iota. rewrite !bind_modify, bind_gets.
  match goal with |- context [when _ _ ?m'] =>
    assert (E1 : m' = set_m_io (set_io_disk (set_d_ctrl c
                        (if disk_inRange d then disk_transfer d else d)) (m_io m)) m) end.
  { unfold c, disk_transfer. cbn -[disk_inRange]. fold d.
    destruct (disk_inRange d), (truth (d_ctrl d .& DISK_WRT)); reflexivity. }
  rewrite E1. cbn [m_io set_m_io io_disk set_io_disk].
  change (d_ctrl (set_d_ctrl c _)) with c.
  destruct (truth (c .& DISK_IEN)); unfold when.
  - rewrite setInterrupt_eq by lia. eexists. csplit; [reflexivity| |discriminate]. intros _.
    rewrite put_special_same, Z.lor_spec. apply orb_true_iff. right. reflexivity.
  - exists (m_reg m). csplit; [reflexivity|discriminate|reflexivity].
Qed.

(** The bytes that a command moves. *)
Definition moved (d : disk_state) (i : Z) : Prop := 0 <= i < disk_numScts d * DISK_SECTOR_SIZE.

(** The driver fills the buffer. *)
Definition refill (b : arr) (m : machine) : machine :=
  set_m_io (set_io_disk (set_d_buffer b (io_disk (m_io m))) (m_io m)) m.

Lemma numScts_bounds d : 1 <= disk_numScts d <= 8.
Proof.
  unfold disk_numScts. change 0x07 with (Z.ones 3). rewrite Z.land_ones by lia.
  pose proof (Z.mod_pos_bound (d_cnt d -o 1) (2 ^ 3)). lia.
Qed.

(** Writing and reading back: what the command moves to the image is what the next
    command moves back. *)
Lemma transfer_back d c b :
  truth (d_ctrl d .& DISK_WRT) = true -> truth (c .& DISK_WRT) = false ->
  let d1 := disk_transfer d in
  let d2 := disk_transfer (set_d_ctrl c (set_d_buffer b d1)) in
  (forall i, moved d i -> d_buffer d2 i = d_buffer d i) /\
  (forall i, 0 <= i -> ~ moved d i -> d_buffer d2 i = b i) /\
  (forall i, ~ moved d (i - d_sct d * DISK_SECTOR_SIZE) -> d_image d2 i = d_image d i).
Proof.
  intros H1 H2. unfold disk_transfer, moved. rewrite H1. cbn [d_ctrl set_d_ctrl]. rewrite H2.
  cbn -[disk_numScts Z.mul]. unfold copy_bytes, disk_numScts. cbn -[Z.mul].
  set (n := _ * 512). set (pos := _ * 512).
  csplit; intros i Hi; try intros Ho;
    repeat match goal with
    | |- context [?a <=? ?b] => destruct (Z.leb_spec a b)
    | |- context [?a <? ?b] => destruct (Z.ltb_spec a b)
    end; cbn; try lia; trivial; f_equal; lia.
Qed.

Lemma inRange_bounds m :
  disk_ready m -> disk_inRange (io_disk (m_io m)) = true ->
  0 <= d_sct (io_disk (m_io m)) /\
  d_sct (io_disk (m_io m)) + disk_numScts (io_disk (m_io m)) <= d_cap (io_disk (m_io m)).
Proof.
  intros (Hc & Hs & _) H. pose proof (numScts_bounds (io_disk (m_io m))) as N.
  unfold disk_inRange in H. apply andb_true_iff in H as [H H2]. apply andb_true_iff in H as [_ H1].
  apply Z.ltb_lt in H1. apply Z.leb_le in H2. rewrite wrap_small in H2 by wordlia. lia.
Qed.

(** The flags after a command: it is done, without an error, and the interrupt is requested
    if it is enabled. *)
Definition disk_finished (ien : bool) (m : machine) : Prop :=
  let c := d_ctrl (io_disk (m_io m)) in
  Z.testbit c 0 = false /\ Z.testbit c 3 = false /\ Z.testbit c 4 = true /\
  (ien = true -> Z.testbit (r_special (m_reg m) rQ) DISK_IRQ = true).

Lemma disk_callback_done write ien m0 m :
  commanded write ien m0 m -> disk_inRange (io_disk (m_io m0)) = true ->
  exists m' c c', disk_callback 1 m = (Ret tt, m') /\ disk_finished ien m' /\
    m_timer m' = m_timer m /\ truth (c .& DISK_WRT) = write /\
    io_disk (m_io m') = set_d_ctrl c' (disk_transfer (set_d_ctrl c (io_disk (m_io m0)))).
Proof.
  intros [(c & E & B2 & B1 & B3 & _) _ _] HR. destruct (disk_callback_spec m) as (r & EC & HI & _).
  assert (R1 : disk_inRange (io_disk (m_io m)) = true) by (rewrite E; exact HR).
  rewrite R1, E in *. cbn [d_ctrl set_d_ctrl] in *.
  eexists _, c, _. split; [exact EC|]. csplit; [|reflexivity|rewrite (truth_pow2 _ 2) by lia; exact B2|reflexivity].
  assert (B : forall n, 0 <= n < 64 -> Z.testbit (c .& not64 DISK_STRT .| DISK_DONE) n
              = Z.testbit c n && negb (0 =? n) || (4 =? n)).
  { intros n Hn. rewrite Z.lor_spec, (testbit_clear _ 0), (Z.pow2_bits_eqb 4) by lia. reflexivity. }
  unfold disk_finished. cbn -[disk_transfer Z.testbit]. rewrite !B by lia. csplit.
  - rewrite andb_false_r. reflexivity.
  - rewrite B3. reflexivity.
  - apply orb_true_r.
  - intros ->. apply HI. rewrite (truth_pow2 _ 1), B, B1 by lia. reflexivity.
Qed.

(** After a write command the disk can take the next command. *)
Lemma ready_again b c c' m m' :
  disk_ready m -> disk_inRange (io_disk (m_io m)) = true -> truth (c .& DISK_WRT) = true ->
  io_disk (m_io m') = set_d_ctrl c' (disk_transfer (set_d_ctrl c (io_disk (m_io m)))) ->
  (0 < t_freeTimers (m_timer m'))%nat -> t_currentTime (m_timer m') = t_currentTime (m_timer m) ->
  disk_ready (refill b m') /\ disk_inRange (io_disk (m_io (refill b m'))) = true.
Proof.
  intros Hr HR W D Hf Ht. destruct (inRange_bounds m Hr HR) as [H1 H2].
  pose proof (numScts_bounds (io_disk (m_io m))). destruct Hr as (Hc & Hs & Hl & Hn & _).
  unfold disk_ready, refill. cbn. rewrite D. unfold disk_transfer. cbn [d_ctrl set_d_ctrl]. rewrite W.
  split; [|exact HR]. change (disk_numScts (set_d_ctrl _ _)) with (disk_numScts (io_disk (m_io m))).
  cbn -[disk_numScts]. lia.
Qed.

(** C24: Blocks written to the disk can be read back: with the disk ready and the sectors of
    the command on it, a write command queues its callback 2 to 7 ticks ahead, and when it
    has run, a read command of the same sectors brings back the bytes that were in the
    buffer, whatever the driver has put there in between; the rest of the buffer and of the
    image is untouched, no error is flagged, and the interrupt is requested if enabled. *)
Theorem disk_roundtrip ien b m :
  let d := io_disk (m_io m) in
  disk_ready m -> (2 <= t_freeTimers (m_timer m))%nat -> disk_inRange d = true ->
  exists m1 m2 m3 m4,
    disk_command true ien m = (Ret tt, m1) /\ commanded true ien m m1 /\
    disk_callback 1 m1 = (Ret tt, m2) /\ disk_finished ien m2 /\
    disk_command false ien (refill b m2) = (Ret tt, m3) /\ commanded false ien (refill b m2) m3 /\
    disk_callback 1 m3 = (Ret tt, m4) /\ disk_finished ien m4 /\
    let d' := io_disk (m_io m4) in
    (forall i, moved d i -> d_buffer d' i = d_buffer d i) /\
    (forall i, 0 <= i -> ~ moved d i -> d_buffer d' i = b i) /\
    (forall i, ~ moved d (i - d_sct d * DISK_SECTOR_SIZE) -> d_image d' i = d_image d i).
Proof.
  intros d Hr Hf HR.
  destruct (disk_command_spec true ien m Hr) as (m1 & E1 & C1).
  destruct (disk_callback_done _ _ _ _ C1 HR) as (m2 & c & c' & E2 & F2 & T2 & W & D2).
  destruct (cm_timer _ _ _ _ C1) as [T3 T4].
  destruct (ready_again b c c' m m2) as [Hr2 HR2]; trivial; [rewrite T2; lia|congruence|].
  destruct (disk_command_spec false ien _ Hr2) as (m3 & E3 & C3).
  destruct (disk_callback_done _ _ _ _ C3 HR2) as (m4 & c3 & c4 & E4 & F4 & _ & W4 & D4).
  exists m1, m2, m3, m4. do 8 (split; [assumption|]). cbv zeta. rewrite D4.
  cbn [refill m_io set_m_io io_disk set_io_disk]. rewrite D2.
  exact (transfer_back (set_d_ctrl c d) c3 b W W4).
Qed.

(** A disk of 16 sectors, a command for the sectors 3 and 4. *)
Definition disk_sample : machine :=
  set_m_timer (mk_timer_state [] 20 0 0 0 0)
    (set_m_io (set_io_disk (mk_disk_state (fun _ => 0) 16 DISK_READY 2 3 16 (fun i => i mod 251) 9) io_off)
       (power_on default_config)).

Lemma disk_roundtrip_witness :
  exists m1 m2 m3 m4,
    disk_command true true disk_sample = (Ret tt, m1) /\ disk_callback 1 m1 = (Ret tt, m2) /\
    disk_command false true (refill (fun _ => 7) m2) = (Ret tt, m3) /\
    disk_callback 1 m3 = (Ret tt, m4) /\ disk_finished true m4 /\
    d_buffer (io_disk (m_io m4)) 600 = 98 /\ d_buffer (io_disk (m_io m4)) 1024 = 7.
Proof.
  destruct (disk_roundtrip true (fun _ => 7) disk_sample)
    as (m1 & m2 & m3 & m4 & E1 & _ & E2 & _ & E3 & _ & E4 & F & B1 & B2 & _).
  - unfold disk_ready. cbn. lia.
  - cbn. lia.
  - reflexivity.
  - exists m1, m2, m3, m4. split; [exact E1|]. split; [exact E2|]. split; [exact E3|]. split; [exact E4|].
    split; [exact F|]. split; [rewrite B1; [reflexivity|]|rewrite B2; [reflexivity|lia|]].
    + split; vm_compute; congruence.
    + intros [_ H]. vm_compute in H. discriminate H.
Defined.

(** ** The reset of the terminals *)

(** Four terminals, a disk, a display and a keyboard. *)
Definition full_config : config :=
  mk_full_config (32 * 1024 * 1024) false false 0x8000000000001000
    (mk_io_config 4 (Some (16 * DISK_SECTOR_SIZE, fun _ => 0)) false true (fun _ => 0) (fun _ _ => 0x20)).

Definition start_devices : M unit := bus_init None;; bus_reset None.

(** The timers for the receiver of the terminal [i]. *)
Definition receivers (i : Z) (m : machine) : nat :=
  length (filter (fun x => tm_callback x = CB_TERM_RCVR /\ tm_param x = i) (t_activeTimers (m_timer m))).

(** The character [c] to the terminal [i]. *)
Definition send (i c : Z) : M unit :=
  term_write (TERM_START_ADDR + i * DEV_REG_SPACE + TERM_XMTR_DATA) c.

(** Each terminal registers a reset function that resets all terminals, so a reset of the
    bus starts four receiver timers for each of four terminals instead of one: with the
    timers of the disk and the keyboard 2 of the 20 simulation timers remain, and when three
    terminals send at the same time, the simulator ends for want of timers. *)
Theorem terminals_exhaust_timers :
  let r := start_devices (power_on full_config) in
  fst r = Ret tt /\ map (fun i => receivers i (snd r)) [0; 1; 2; 3] = [4; 4; 4; 4]%nat /\
  t_freeTimers (m_timer (snd r)) = 2%nat /\
  fst ((send 0 0x41;; send 1 0x41;; send 2 0x41) (snd r)) = Stop SimError.
Proof. vm_compute. csplit; reflexivity. Qed.
