(* ===== verification/Console.v ===== *)
(** * The correctness of the keyboard and the display

    The codes of the keys, the buffer of the keyboard as a queue, and the window that shows
    the text of the display. *)

From Stdlib Require Import ZArith Lia Bool.
From stdpp Require Import base list numbers option sorting.
From S2P Require Import Prelude Ram Machine Registers Devices Peripherals Bus IoSpec.

(** ** The codes of the keys *)

(** The linear search for a code. *)
Definition find_code (tbl : list Keycode) (code : Z) : option Keycode :=
  List.find (fun k => xKeycode k =? code) tbl.

(** The binary search ends. *)
Lemma lookup_loop_ends tbl code : forall fuel lo hi,
  0 <= lo -> hi < Z.of_nat (length tbl) -> (Z.to_nat (hi - lo + 1) < fuel)%nat ->
  is_Some (lookup_loop fuel tbl code lo hi).
Proof.
  induction fuel as [|fuel IH]; intros lo hi Hl Hh Hf; [lia|]. cbn [lookup_loop].
  destruct (Z.leb_spec lo hi) as [H|H]; [|eauto].
  set (tst := Z.quot (lo + hi) 2). assert (lo <= tst <= hi).
  { unfold tst. rewrite Z.quot_div_nonneg by lia. Z.div_mod_to_equations. lia. }
  destruct (lookup_lt_is_Some_2 tbl (Z.to_nat tst)) as [k ->]; [lia|].
  case_match; [eauto|]. case_match; apply IH; lia.
Qed.

(** It finds only entries of the table with the code. *)
Lemma lookup_loop_sound tbl code : forall fuel lo hi k,
  lookup_loop fuel tbl code lo hi = Some (Some k) -> k ∈ tbl /\ keycodeCompare (xKeycode k) code = 0.
Proof.
  induction fuel as [|fuel IH]; intros lo hi k; cbn [lookup_loop]; [discriminate|].
  case_match; [|discriminate]. destruct (tbl !! _) as [k0|] eqn:E; [|discriminate].
  destruct (Z.eqb_spec (keycodeCompare (xKeycode k0) code) 0) as [E0|E0].
  - intros [= ->]. split; [|exact E0]. eapply list_elem_of_lookup_2; eauto.
  - case_match; apply IH.
Qed.

Lemma insert_code_perm k l : insert_code k l ≡ₚ k :: l.
Proof.
  induction l as [|p l IH]; [reflexivity|]. cbn [insert_code]. case_match; [reflexivity|].
  rewrite IH. apply Permutation_swap.
Qed.

Lemma initKeycode_perm l : initKeycode l ≡ₚ l.
Proof.
  induction l as [|k l IH]; [reflexivity|]. unfold initKeycode in *. cbn [foldr].
  rewrite insert_code_perm, IH. reflexivity.
Qed.

Lemma compare_zero a b : is_word 32 a -> is_word 32 b -> keycodeCompare a b = 0 -> a = b.
Proof.
  intros Ha Hb. unfold keycodeCompare, to_int, signed. case_match; dmlia.
Qed.

(** Codes below 2^31 are compared correctly. *)
Definition small_code (k : Keycode) : Prop := 0 <= xKeycode k < 2 ^ 31.

Lemma compare_small a b : 0 <= a < 2 ^ 31 -> 0 <= b < 2 ^ 31 -> keycodeCompare a b = a - b.
Proof. intros Ha Hb. unfold keycodeCompare, to_int, signed. case_match; dmlia. Qed.

Definition code_le (k p : Keycode) : Prop := xKeycode k <= xKeycode p.

Lemma insert_code_sorted k l :
  small_code k -> Forall small_code l -> StronglySorted code_le l -> StronglySorted code_le (insert_code k l).
Proof.
  intros Hk Hl Hs. induction Hs as [|p l Hs IH Hp]; [repeat constructor|].
  apply Forall_cons_1 in Hl as [Hp1 Hl]. cbn [insert_code]. rewrite compare_small by assumption.
  destruct (Z.leb_spec (xKeycode k - xKeycode p) 0).
  - constructor; [constructor; assumption|]. constructor; [unfold code_le; lia|].
    eapply Forall_impl; [exact Hp|]. unfold code_le. cbn. intros; lia.
  - constructor; [auto|]. rewrite insert_code_perm. constructor; [unfold code_le; lia|exact Hp].
Qed.

Lemma initKeycode_sorted l : Forall small_code l -> StronglySorted code_le (initKeycode l).
Proof.
  induction 1 as [|k l Hk Hl IH]; [constructor|]. unfold initKeycode in *. cbn [foldr].
  apply insert_code_sorted; [exact Hk| |exact IH]. fold (initKeycode l). rewrite initKeycode_perm. exact Hl.
Qed.

Lemma sorted_lookup l : StronglySorted code_le l -> forall i j ki kj,
  l !! i = Some ki -> l !! j = Some kj -> (i < j)%nat -> xKeycode ki <= xKeycode kj.
Proof.
  induction 1 as [|p l Hs IH Hp]; intros i j ki kj Hi Hj Hij; [discriminate Hi|].
  destruct j as [|j]; [lia|]. cbn in Hj. destruct i as [|i]; cbn in Hi.
  - injection Hi as <-. rewrite Forall_forall in Hp. apply Hp. eapply list_elem_of_lookup_2, Hj.
  - eapply IH; eauto; lia.
Qed.

(** The binary search misses nothing. *)
Lemma lookup_loop_complete tbl code k i :
  StronglySorted code_le tbl -> Forall small_code tbl -> 0 <= code < 2 ^ 31 ->
  tbl !! i = Some k -> xKeycode k = code ->
  forall fuel lo hi, 0 <= lo <= Z.of_nat i -> Z.of_nat i <= hi ->
  lookup_loop fuel tbl code lo hi <> Some None.
Proof.
  intros Hs Hc Hcode Hi Hk. induction fuel as [|fuel IH]; intros lo hi Hlo Hhi; cbn [lookup_loop]; [discriminate|].
  destruct (Z.leb_spec lo hi) as [L|L]; [|lia].
  set (tst := Z.quot (lo + hi) 2). assert (0 <= tst).
  { unfold tst. rewrite Z.quot_div_nonneg by lia. Z.div_mod_to_equations. lia. }
  destruct (tbl !! Z.to_nat tst) as [k0|] eqn:E; [|discriminate].
  rewrite Forall_forall in Hc. rewrite compare_small by (trivial; apply Hc; eapply list_elem_of_lookup_2; eauto).
  destruct (Z.eqb_spec (xKeycode k0 - code) 0); [discriminate|].
  destruct (Z.ltb_spec (xKeycode k0 - code) 0); apply IH; try lia.
  - destruct (Z_le_gt_dec (Z.of_nat i) tst); [|lia]. destruct (decide (i = Z.to_nat tst)) as [->|];
      [assert (k0 = k) by congruence; subst; lia|].
    pose proof (sorted_lookup tbl Hs i (Z.to_nat tst) k k0 Hi E ltac:(lia)). lia.
  - destruct (Z_le_gt_dec tst (Z.of_nat i)); [|lia]. destruct (decide (i = Z.to_nat tst)) as [->|];
      [assert (k0 = k) by congruence; subst; lia|].
    pose proof (sorted_lookup tbl Hs (Z.to_nat tst) i k0 k E Hi ltac:(lia)). lia.
Qed.

Lemma kbdCodeTbl_codes : Forall small_code kbdCodeTbl.
Proof.
  unfold kbdCodeTbl. repeat (apply Forall_cons; split; [unfold small_code; cbn; lia|]). apply Forall_nil. exact I.
Qed.

Lemma kbdCodeTbl_distinct : NoDup (map xKeycode kbdCodeTbl).
Proof. apply (bool_decide_unpack _). vm_compute. exact I. Qed.

(** An entry is determined by its code. *)
Lemma code_unique k p : k ∈ kbdCodeTbl -> p ∈ kbdCodeTbl -> xKeycode k = xKeycode p -> k = p.
Proof.
  intros Hk Hp E. apply list_elem_of_lookup in Hk as [i Hi], Hp as [j Hj].
  assert (i = j); [|congruence].
  apply (NoDup_lookup (xKeycode <$> kbdCodeTbl) i j (xKeycode k)); [exact kbdCodeTbl_distinct| |].
  - rewrite list_lookup_fmap, Hi. reflexivity.
  - rewrite list_lookup_fmap, Hj, E. reflexivity.
Qed.

(** The binary search of [lookupKeycode] in the sorted table agrees with a linear search of
    the original table for every 32-bit key code, and ends without leaving the table. *)
Lemma lookup_finds code :
  0 <= code < 2 ^ 32 ->
  let tbl := initKeycode kbdCodeTbl in
  lookup_loop (S (length tbl)) tbl code 0 (Z.of_nat (length tbl) - 1) = Some (find_code kbdCodeTbl code).
Proof.
  intros Hc tbl. pose proof kbdCodeTbl_codes as HC.
  assert (HC' : Forall small_code tbl) by (unfold tbl; rewrite initKeycode_perm; exact HC).
  destruct (lookup_loop_ends tbl code (S (length tbl)) 0 (Z.of_nat (length tbl) - 1)) as [r Er]; [lia..|].
  rewrite Er. f_equal. rewrite Forall_forall in HC.
  assert (HR : forall k, r = Some k -> k ∈ kbdCodeTbl /\ xKeycode k = code).
  { intros k ->. apply lookup_loop_sound in Er as [Hin Ek]. unfold tbl in Hin. rewrite initKeycode_perm in Hin.
    split; [exact Hin|]. apply compare_zero in Ek; [exact Ek| |exact Hc].
    specialize (HC k Hin). unfold small_code in HC. wordlia. }
  destruct (find_code kbdCodeTbl code) as [k|] eqn:EF.
  - apply find_some in EF as [Hin Ek]. apply Z.eqb_eq in Ek. apply list_elem_of_In in Hin.
    destruct r as [p|].
    + destruct (HR p eq_refl) as [Hp Ep]. f_equal. apply code_unique; trivial. congruence.
    + exfalso. assert (Hin' : k ∈ tbl) by (unfold tbl; rewrite initKeycode_perm; exact Hin).
      apply list_elem_of_lookup in Hin' as [i Hi]. pose proof (HC k Hin) as Hs. unfold small_code in Hs.
      pose proof (lookup_lt_Some _ _ _ Hi).
      eapply (lookup_loop_complete tbl code k i); eauto; try lia. apply initKeycode_sorted, kbdCodeTbl_codes.
  - destruct r as [p|]; [exfalso|reflexivity]. destruct (HR p eq_refl) as [Hp Ep].
    eapply find_none in EF; [|apply list_elem_of_In; exact Hp]. cbn in EF. rewrite Ep, Z.eqb_refl in EF.
    discriminate EF.
Qed.

Lemma lookup_agrees code :
  0 <= code < 2 ^ 32 -> lookupKeycode (initKeycode kbdCodeTbl) code = find_code kbdCodeTbl code.
Proof. intros H. unfold lookupKeycode. rewrite (lookup_finds code H). reflexivity. Qed.

(** ** The buffer of the keyboard *)

Definition kbd_ok (k : kbd_state) : Prop :=
  0 <= kbdBufReadPtr k < KBD_BUF_MAX /\ 0 <= kbdBufWritePtr k < KBD_BUF_MAX.

(** The number of bytes in the ring, and the bytes, the oldest first. *)
Definition kbd_count (k : kbd_state) : Z := (kbdBufWritePtr k - kbdBufReadPtr k) mod KBD_BUF_MAX.
Definition kbd_queue (k : kbd_state) : list Z :=
  map (fun i => kbdBuf k ((kbdBufReadPtr k + Z.of_nat i) mod KBD_BUF_MAX)) (seq 0 (Z.to_nat (kbd_count k))).

Lemma kbd_queue_length k : Z.of_nat (length (kbd_queue k)) = kbd_count k.
Proof. unfold kbd_queue, kbd_count. rewrite length_map, length_seq. dmlia. Qed.

Lemma kbdBufFree_spec k : kbd_ok k -> kbdBufFree k = 99 - Z.of_nat (length (kbd_queue k)).
Proof.
  intros [Hr Hw]. rewrite kbd_queue_length. unfold kbdBufFree, kbd_count.
  destruct (Z.leb_spec (kbdBufReadPtr k) (kbdBufWritePtr k)); dmlia.
Qed.

Lemma next_ok p : 0 <= KBD_BUF_NEXT p < KBD_BUF_MAX.
Proof. apply Z.mod_pos_bound. lia. Qed.

Lemma kbd_put_one b k :
  kbd_ok k -> Z.of_nat (length (kbd_queue k)) < 99 ->
  let k' := set_kbdBufWritePtr (KBD_BUF_NEXT (kbdBufWritePtr k))
              (set_kbdBuf (upd (kbdBuf k) (kbdBufWritePtr k) b) k) in
  kbd_ok k' /\ kbd_queue k' = kbd_queue k ++ [b].
Proof.
  intros [Hr Hw] Hl k'. split; [split; [exact Hr|apply next_ok]|].
  rewrite kbd_queue_length in Hl. unfold kbd_queue.
  assert (EC : kbd_count k' = kbd_count k + 1) by (unfold kbd_count, k', KBD_BUF_NEXT in *; cbn; dmlia).
  assert (0 <= kbd_count k) by (unfold kbd_count; dmlia).
  rewrite EC, Z2Nat.inj_add, Nat.add_1_r, seq_S, map_app by lia. cbn [map]. f_equal.
  - apply map_ext_in. intros i Hi. apply in_seq in Hi. cbn. unfold upd.
    destruct (Z.eqb_spec ((kbdBufReadPtr k + Z.of_nat i) mod KBD_BUF_MAX) (kbdBufWritePtr k)); [|reflexivity].
    unfold kbd_count in *. dmlia.
  - cbn. unfold upd. replace ((kbdBufReadPtr k + Z.of_nat (Z.to_nat (kbd_count k))) mod KBD_BUF_MAX)
      with (kbdBufWritePtr k) by (unfold kbd_count in *; dmlia).
    rewrite Z.eqb_refl. reflexivity.
Qed.

Lemma kbd_put_queue bytes : forall k,
  kbd_ok k -> Z.of_nat (length (kbd_queue k)) + Z.of_nat (length bytes) <= 99 ->
  kbd_ok (kbd_put bytes k) /\ kbd_queue (kbd_put bytes k) = kbd_queue k ++ bytes.
Proof.
  induction bytes as [|b bytes IH]; intros k Hk Hl; [rewrite app_nil_r; auto|].
  cbn [kbd_put length] in *. destruct (kbd_put_one b k Hk) as [Hk' Hq]; [lia|].
  destruct (IH _ Hk') as [IH1 IH2]; [rewrite Hq, length_app; cbn; lia|].
  split; [exact IH1|]. rewrite IH2, Hq, <- app_assoc. reflexivity.
Qed.

(** Taking the oldest byte. *)
Lemma kbd_fetch_queue k :
  kbd_ok k -> kbdBufWritePtr k <> kbdBufReadPtr k ->
  kbd_ok (kbd_fetch k) /\ kbd_queue k = kbdData (kbd_fetch k) :: kbd_queue (kbd_fetch k).
Proof.
  intros [Hr Hw] Hne. split; [split; [apply next_ok|exact Hw]|]. unfold kbd_queue.
  assert (EC : kbd_count k = kbd_count (kbd_fetch k) + 1)
    by (unfold kbd_count, KBD_BUF_NEXT in *; cbn; unfold KBD_BUF_NEXT; dmlia).
  assert (0 <= kbd_count (kbd_fetch k)) by (unfold kbd_count; dmlia).
  rewrite EC, Z2Nat.inj_add, Nat.add_1_r by lia. cbn [seq map]. f_equal.
  - cbn. f_equal. rewrite Z.add_0_r. apply Z.mod_small, Hr.
  - rewrite <- seq_shift, map_map. apply map_ext_in. intros i _. cbn. f_equal. unfold KBD_BUF_NEXT. dmlia.
Qed.

Lemma kbd_empty k : kbd_ok k -> kbd_queue k = [] <-> kbdBufWritePtr k = kbdBufReadPtr k.
Proof.
  intros [Hr Hw]. rewrite <- length_zero_iff_nil. pose proof (kbd_queue_length k) as L. unfold kbd_count in L.
  split; intros H; dmlia.
Qed.

(** The abstract keyboard: a queue of at most 99 bytes, to which the bytes of a key are
    appended if there is room for [room] of them. *)
Definition enqueue (room : Z) (bytes : Keycode -> list Z) (code : Z) (q : list Z) : list Z :=
  match find_code kbdCodeTbl code with
  | None => q
  | Some p => if 99 - Z.of_nat (length q) <? room then q else q ++ bytes p
  end.
Definition make_bytes (p : Keycode) : list Z := take (pcNumMake p) (pcKeyMake p).
Definition break_bytes (p : Keycode) : list Z := take (pcNumBreak p) (pcKeyBreak p).

Lemma key_bytes code p :
  find_code kbdCodeTbl code = Some p -> (length (make_bytes p) <= 3)%nat /\ (length (break_bytes p) <= 3)%nat.
Proof.
  intros H. apply find_some in H as [H _].
  assert (F : forallb (fun p => (length (make_bytes p) <=? 3)%nat && (length (break_bytes p) <=? 3)%nat) kbdCodeTbl
              = true) by (vm_compute; reflexivity).
  rewrite forallb_forall in F. apply F, andb_true_iff in H as [H1 H2].
  split; apply Nat.leb_le; assumption.
Qed.

(** One key event. *)
Lemma key_event code k room bytes :
  0 <= code < 2 ^ 32 -> kbd_ok k -> 12 <= room ->
  (forall p, find_code kbdCodeTbl code = Some p -> (length (bytes p) <= 3)%nat) ->
  let k' := match lookupKeycode (initKeycode kbdCodeTbl) code with
            | None => k
            | Some p => if kbdBufFree k <? room then k else kbd_put (bytes p) k
            end in
  kbd_ok k' /\ kbd_queue k' = enqueue room bytes code (kbd_queue k).
Proof.
  intros Hc Hk Hr Hb. cbv zeta. rewrite (lookup_agrees code Hc). unfold enqueue.
  destruct (find_code kbdCodeTbl code) as [p|]; [|auto]. rewrite kbdBufFree_spec by exact Hk.
  destruct (Z.ltb_spec (99 - Z.of_nat (length (kbd_queue k))) room); [auto|].
  apply kbd_put_queue; [exact Hk|]. specialize (Hb p eq_refl). lia.
Qed.

(** The data register takes the oldest byte when it is free. *)
Definition kbd_poll (k : kbd_state) : kbd_state :=
  if kbdBufWritePtr k =? kbdBufReadPtr k then k
  else if truth (kbdCtrl k .& KEYBOARD_RDY) then k else kbd_fetch k.

Lemma kbdCallback_polls m :
  (0 < t_freeTimers (m_timer m))%nat ->
  exists m', kbdCallback 0 m = (Ret tt, m') /\ io_kbd (m_io m') = kbd_poll (io_kbd (m_io m)).
Proof.
  intros Hf. unfold kbdCallback, timer_start, get_kbd, on_kbd, on_io, on_timer.
  rewrite bind_assoc, bind_gets. destruct (t_freeTimers (m_timer m)) as [|n]; [lia|].
  rewrite bind_modify, bind_gets. cbn [m_io set_m_timer]. unfold kbd_poll.
  destruct (_ =? _); [eexists; split; reflexivity|]. destruct (truth _); [eexists; split; reflexivity|].
  rewrite bind_modify, bind_gets. destruct (truth _); unfold when.
  - rewrite setInterrupt_eq by lia. eexists. split; reflexivity.
  - eexists. split; reflexivity.
Qed.

Lemma kbd_poll_spec k :
  kbd_ok k ->
  kbd_ok (kbd_poll k) /\
  (if truth (kbdCtrl k .& KEYBOARD_RDY) then kbd_poll k = k else
   match kbd_queue k with
   | [] => kbd_poll k = k
   | b :: q => kbdData (kbd_poll k) = b /\ kbd_queue (kbd_poll k) = q /\
               truth (kbdCtrl (kbd_poll k) .& KEYBOARD_RDY) = true
   end).
Proof.
  intros Hk. unfold kbd_poll. pose proof (kbd_empty k Hk) as HE.
  destruct (Z.eqb_spec (kbdBufWritePtr k) (kbdBufReadPtr k)) as [E|E].
  { split; [exact Hk|]. rewrite (proj2 HE E). destruct (truth _); reflexivity. }
  destruct (truth (kbdCtrl k .& KEYBOARD_RDY)); [auto|].
  destruct (kbd_fetch_queue k Hk E) as [H1 H2]. split; [exact H1|]. rewrite H2. csplit; trivial.
  cbn [kbd_fetch kbdCtrl set_kbdCtrl]. rewrite (truth_pow2 _ 0), Z.lor_spec by lia. apply orb_true_r.
Qed.

(** C25: The ring buffer of the keyboard is a queue: pressing or releasing a key appends the
    bytes of its code, or drops them as a whole when there is not enough room, and the
    callback of the keyboard moves the oldest byte to the data register and marks it as
    ready, if the previous byte has been taken, and changes nothing otherwise. *)
Theorem keyboard_refines_queue code m :
  let k := io_kbd (m_io m) in
  0 <= code < 2 ^ 32 -> kbd_ok k -> (0 < t_freeTimers (m_timer m))%nat ->
  (kbd_ok (keyPressed code k) /\ kbd_queue (keyPressed code k) = enqueue 20 make_bytes code (kbd_queue k)) /\
  (kbd_ok (keyReleased code k) /\ kbd_queue (keyReleased code k) = enqueue 12 break_bytes code (kbd_queue k)) /\
  exists m', kbdCallback 0 m = (Ret tt, m') /\
    let k' := io_kbd (m_io m') in
    kbd_ok k' /\
    (if truth (kbdCtrl k .& KEYBOARD_RDY) then k' = k else
     match kbd_queue k with
     | [] => k' = k
     | b :: q => kbdData k' = b /\ kbd_queue k' = q /\ truth (kbdCtrl k' .& KEYBOARD_RDY) = true
     end).
Proof.
  intros k Hc Hk Hf. split; [|split].
  - apply (key_event code k 20 make_bytes Hc Hk); [lia|]. intros p Hp. apply (key_bytes code p Hp).
  - apply (key_event code k 12 break_bytes Hc Hk); [lia|]. intros p Hp. apply (key_bytes code p Hp).
  - destruct (kbdCallback_polls m Hf) as (m' & E & P). exists m'. split; [exact E|]. cbv zeta. rewrite P.
    apply kbd_poll_spec, Hk.
Qed.

(** The ring wraps; the key A is pressed. *)
Definition typing : machine :=
  set_m_timer (mk_timer_state [] 20 0 0 0 0)
    (set_m_io (set_io_kbd (mk_kbd_state (fun i => i) 1 99 0 0) io_off) (power_on default_config)).

Lemma keyboard_refines_queue_witness :
  kbd_queue (keyPressed 0x26 (io_kbd (m_io typing))) = [99; 0; 0x1C] /\
  exists m', kbdCallback 0 typing = (Ret tt, m') /\ kbdData (io_kbd (m_io m')) = 99.
Proof.
  destruct (keyboard_refines_queue 0x26 typing) as ([_ A] & _ & m' & E & _ & B & _).
  - lia.
  - split; cbn; lia.
  - cbn. lia.
  - split; [rewrite A; vm_compute; reflexivity|]. exists m'. exact (conj E B).
Defined.

(** ** The display *)

(** The pixels of the cell [x], [y] show the character [c] of the font. *)
Definition cell_shows (font : arr) (x y c : Z) (blink : bool) (d : dsp_state) : Prop :=
  forall i j, 0 <= i < CELL_SIZE_X -> 0 <= j < CELL_SIZE_Y ->
    dsp_pixel d (x * CELL_SIZE_X + i) (y * CELL_SIZE_Y + j)
    = pixel_color c (font ((c .& 0x00FF) * CELL_SIZE_Y + j)) i blink.

(** The window shows the text. *)
Definition screen_shows (font : arr) (d : dsp_state) : Prop :=
  forall x y, 0 <= x < TEXT_SIZE_X -> 0 <= y < TEXT_SIZE_Y ->
    cell_shows font x y (dsp_text d y x) (dsp_blink d) d.

Lemma updateCharacter_shows font x y c d :
  cell_shows font x y c (dsp_blink d) (updateCharacter font x y c d).
Proof.
  intros i j Hi Hj. cbn.
  destruct (Z.leb_spec (x * 8) (x * 8 + i)), (Z.ltb_spec (x * 8 + i) ((x + 1) * 8)),
    (Z.leb_spec (y * 16) (y * 16 + j)), (Z.ltb_spec (y * 16 + j) ((y + 1) * 16)); try lia. cbn.
  f_equal; [f_equal|]; lia.
Qed.

Lemma updateCharacter_other font x y c d x' y' c' blink :
  (x', y') <> (x, y) -> cell_shows font x' y' c' blink d ->
  cell_shows font x' y' c' blink (updateCharacter font x y c d).
Proof.
  intros Hne H i j Hi Hj. rewrite <- (H i j Hi Hj). cbn.
  destruct (Z.leb_spec (x * 8) (x' * 8 + i)), (Z.ltb_spec (x' * 8 + i) ((x + 1) * 8)),
    (Z.leb_spec (y * 16) (y' * 16 + j)), (Z.ltb_spec (y' * 16 + j) ((y + 1) * 16)); try reflexivity.
  contradict Hne. f_equal; lia.
Qed.

Lemma write_shows font x y c d : screen_shows font d -> screen_shows font (writeCharAndAttr font x y c d).
Proof.
  intros H x' y' Hx Hy. unfold writeCharAndAttr. cbn [dsp_blink updateCharacter set_dsp_pixel set_dsp_text dsp_text].
  unfold upd2. destruct (Z.eqb_spec y' y), (Z.eqb_spec x' x); cbn [andb]; subst;
    [apply (updateCharacter_shows font x y c (set_dsp_text _ d))|..];
    (apply updateCharacter_other; [congruence|]; exact (H _ _ Hx Hy)).
Qed.

(** The loops over the cells: a step fixes its cell and keeps the others. *)
Lemma for_cells_inv (P Q : Z -> Z -> dsp_state -> Prop) f :
  (forall x y d, P x y d -> Q x y (f x y d)) ->
  (forall x y x' y' d, (x', y') <> (x, y) -> P x' y' d -> P x' y' (f x y d)) ->
  (forall x y x' y' d, (x', y') <> (x, y) -> Q x' y' d -> Q x' y' (f x y d)) ->
  forall n i d, 0 <= i ->
  (forall x y, 0 <= x < TEXT_SIZE_X -> 0 <= y -> if y * TEXT_SIZE_X + x <? i then Q x y d else P x y d) ->
  forall x y, 0 <= x < TEXT_SIZE_X -> 0 <= y -> y * TEXT_SIZE_X + x < i + Z.of_nat n ->
  Q x y (for_cells n i f d).
Proof.
  intros HPQ HP HQ. induction n as [|n IH]; intros i d Hi H x y Hx Hy Hn; cbn [for_cells].
  - specialize (H x y Hx Hy). destruct (Z.ltb_spec (y * 80 + x) i); [exact H|lia].
  - apply IH; [lia| |trivial..|lia]. clear x y Hx Hy Hn. intros x y Hx Hy. specialize (H x y Hx Hy).
    destruct (Z.eq_dec (y * 80 + x) i) as [E|E].
    + assert (EX : x = i mod 80) by dmlia. assert (EY : y = i / 80) by dmlia.
      destruct (Z.ltb_spec (y * 80 + x) i), (Z.ltb_spec (y * 80 + x) (i + 1)); try lia.
      rewrite <- EX, <- EY. apply HPQ, H.
    + assert (N : (x, y) <> (i mod 80, i / 80)) by (intros [= -> ->]; dmlia).
      destruct (Z.ltb_spec (y * 80 + x) i), (Z.ltb_spec (y * 80 + x) (i + 1)); try lia; auto.
Qed.

(** A cell with the text [t] and the flag [b] of the display. *)
Definition cell_state (font : arr) (t : Z -> Z -> Z) (b blink : bool) (x y : Z) (d : dsp_state) : Prop :=
  dsp_text d y x = t y x /\ dsp_blink d = b /\ cell_shows font x y (t y x) blink d.

(** Only the characters with the blink attribute depend on the phase. *)
Lemma steady_color c p i b b' : truth (c .& 0x8000) = false -> pixel_color c p i b = pixel_color c p i b'.
Proof. intros H. unfold pixel_color. rewrite H. reflexivity. Qed.

Lemma blink_shows font b d :
  screen_shows font d -> dsp_previousBlink d = dsp_blink d ->
  screen_shows font (blinkScreen font (set_dsp_blink b d)).
Proof.
  intros H Hp. unfold blinkScreen. cbn [dsp_previousBlink dsp_blink set_dsp_blink]. rewrite Hp.
  destruct (eqb (dsp_blink d) b) eqn:E.
  { apply eqb_prop in E. subst b. destruct d. exact H. }
  set (f := fun _ _ _ => _). set (d0 := set_dsp_previousBlink _ _).
  assert (S : forall x y, 0 <= x < 80 -> 0 <= y < 30 ->
    cell_state font (dsp_text d) b b x y (for_cells (Z.to_nat (80 * 30)) 0 f d0)).
  { intros x y Hx Hy.
    apply (for_cells_inv (fun x y d1 => y < 30 -> cell_state font (dsp_text d) b (dsp_blink d) x y d1)
                         (fun x y d1 => y < 30 -> cell_state font (dsp_text d) b b x y d1)); try lia.
    - intros x0 y0 d1 P Hy0. destruct (P Hy0) as (P1 & P2 & P3). unfold f. rewrite P1.
      destruct (truth (dsp_text d y0 x0 .& 0x8000)) eqn:EB.
      + split; [exact P1|]. split; [exact P2|]. rewrite <- P2. apply updateCharacter_shows.
      + split; [exact P1|]. split; [exact P2|]. intros i j Hi Hj. rewrite (P3 i j Hi Hj). apply steady_color, EB.
    - intros x0 y0 x1 y1 d1 N P Hy1. destruct (P Hy1) as (P1 & P2 & P3). unfold f.
      destruct (truth _); [|auto]. split; [exact P1|]. split; [exact P2|]. apply updateCharacter_other; auto.
    - intros x0 y0 x1 y1 d1 N P Hy1. destruct (P Hy1) as (P1 & P2 & P3). unfold f.
      destruct (truth _); [|auto]. split; [exact P1|]. split; [exact P2|]. apply updateCharacter_other; auto.
    - intros x0 y0 Hx0 Hy0. destruct (Z.ltb_spec (y0 * 80 + x0) 0); [lia|]. intros Hy1.
      split; [reflexivity|]. split; [reflexivity|]. exact (H x0 y0 Hx0 (conj Hy0 Hy1)). }
  intros x y Hx Hy. destruct (S x y Hx Hy) as (S1 & S2 & S3). rewrite S1, S2. exact S3.
Qed.

Lemma splash_shows font screen d :
  let d' := loadSplashScreen font screen d in
  screen_shows font d' /\
  forall x y, 0 <= x < TEXT_SIZE_X -> 0 <= y < TEXT_SIZE_Y -> dsp_text d' y x = 0x0700 .| screen y x.
Proof.
  intros d'. set (t := fun y x => 0x0700 .| screen y x).
  assert (S : forall x y, 0 <= x < 80 -> 0 <= y < 30 -> cell_state font t (dsp_blink d) (dsp_blink d) x y d').
  { intros x y Hx Hy. unfold d', loadSplashScreen. apply (for_cells_inv (fun _ _ d1 => dsp_blink d1 = dsp_blink d)); try lia.
    - intros x0 y0 d1 P. split; [|split; [exact P|]].
      + cbn. unfold upd2. rewrite !Z.eqb_refl. reflexivity.
      + rewrite <- P. apply (updateCharacter_shows font x0 y0 (t y0 x0) (set_dsp_text _ d1)).
    - intros x0 y0 x1 y1 d1 _ P. exact P.
    - intros x0 y0 x1 y1 d1 N (P1 & P2 & P3). split; [|split; [exact P2|]].
      + cbn. unfold upd2. destruct (Z.eqb_spec y1 y0), (Z.eqb_spec x1 x0); cbn; trivial. congruence.
      + apply updateCharacter_other; [exact N|exact P3].
    - intros x0 y0 Hx0 Hy0. destruct (Z.ltb_spec (y0 * 80 + x0) 0); [lia|reflexivity]. }
  split; intros x y Hx Hy; destruct (S x y Hx Hy) as (S1 & S2 & S3); [|exact S1].
  rewrite S1, S2. exact S3.
Qed.

(** The window shows the text, with colors, font and blinking: this holds after a reset,
    whatever was shown before, and writing a character (which reads back) and the change of
    the blink phase keep it. *)
Theorem display_shows_text m :
  let d := io_dsp (m_io m) in
  let font := cfg_font (cfg_io (m_cfg m)) in
  io_installed (m_io m) = true ->
  (exists m', displayReset m = (Ret tt, m') /\ screen_shows font (io_dsp (m_io m'))) /\
  (screen_shows font d ->
   (forall addr data x y, display_cell addr = Some (x, y) ->
      exists m', displayWrite addr data m = (Ret tt, m') /\ screen_shows font (io_dsp (m_io m')) /\
        displayRead addr true m' = (Ret (data mod 2 ^ 16), m')) /\
   (forall b, dsp_previousBlink d = dsp_blink d -> screen_shows font (blinkScreen font (set_dsp_blink b d)))).
Proof.
  intros d font Hi. split.
  - unfold displayReset, on_dsp, on_io. rewrite bind_gets, Hi. unfold when. rewrite bind_gets.
    eexists. split; [reflexivity|]. cbn [m_io set_m_io io_dsp set_io_dsp].
    exact (proj1 (splash_shows font (cfg_screen (cfg_io (m_cfg m))) d)).
  - intros Hs. split; [|intros b Hb; apply blink_shows; trivial].
    intros addr data x y E. unfold displayWrite, displayRead, on_dsp, on_io.
    rewrite bind_gets, Hi. cbn [negb]. unfold when. rewrite bind_mret, E, bind_gets.
    eexists. split; [reflexivity|]. split; [apply write_shows, Hs|].
    rewrite bind_gets. cbn [m_io set_m_io io_installed set_io_dsp]. rewrite Hi. cbn [negb]. rewrite bind_mret.
    unfold gets, readCharAndAttr. cbn. unfold upd2. rewrite !Z.eqb_refl. reflexivity.
Qed.

Lemma display_shows_text_witness :
  let m := set_m_io (set_io_installed true io_off) (power_on full_config) in
  exists m', displayReset m = (Ret tt, m') /\ screen_shows (fun _ => 0) (io_dsp (m_io m')).
Proof. intros m. exact (proj1 (display_shows_text m eq_refl)). Defined.
