(* ===== verification/Tc.v ===== *)
(** * The translation caches (gimmix/src/core/tc.c, include/core/tc.h) *)

From Stdlib Require Import ZArith Lia Bool.
From stdpp Require Import base list numbers option.
From S2P Require Import Prelude Ram Machine Registers.

Abbreviation INSTR_TC_SIZE := 16%nat.
Abbreviation DATA_TC_SIZE := 32%nat.

(** ** The code *)

Definition on_tc (tc : side) (f : sTranslationCache -> sTranslationCache) : M unit :=
  modify (fun m => set_m_tcs (upd_side (m_tcs m) tc (f (m_tcs m tc))) m).

Definition invalid_entry : sTCEntry := mk_sTCEntry (MSB 64) 0.

Definition tc_empty (size : nat) : sTranslationCache :=
  mk_sTranslationCache (fun _ => invalid_entry) (wrap64 (-1)) (wrap64 (-1)) size.

(** [tc_init] allocates the entries and resets them, as [tc_reset] does. *)
Definition tc_init : M unit :=
  modify (fun m => set_m_nextIndex 0 (set_m_tcs (fun tc =>
    match tc with SInstr => tc_empty INSTR_TC_SIZE | SData => tc_empty DATA_TC_SIZE end) m)).

Definition tc_reset : M unit :=
  modify (fun m => set_m_nextIndex 0 (set_m_tcs (fun tc => tc_empty (tc_size (m_tcs m tc))) m)).

Definition tc_getByIndex (tc : side) (index : nat) : M (option Z) :=
  gets (fun m => if (index <? tc_size (m_tcs m tc))%nat then Some (Z.of_nat index) else None).

(** The search loop of [tc_getByKey]. *)
Fixpoint tc_search (n : nat) (i : Z) (entries : Z -> sTCEntry) (key : Z) : option Z :=
  match n with
  | O => None
  | S n => if tce_key (entries i) =? key then Some i else tc_search n (i + 1) entries key
  end.

Definition tc_getByKey (tc : side) (key : Z) : M (option Z) :=
  t ← gets (fun m => m_tcs m tc);
  if tc_lastKey t =? key then mret (Some (tc_last t))
  else
    match tc_search (tc_size t) 0 (tc_entries t) key with
    | Some i => on_tc tc (fun t => set_tc_lastKey key (set_tc_last i t));; mret (Some i)
    | None => mret None
    end.

(** The entry a pointer points to. *)
Definition tc_entry (tc : side) (i : Z) : M sTCEntry :=
  gets (fun m => tc_entries (m_tcs m tc) i).

(** An entry is overwritten: forget it if it is the one found last. *)
Definition tc_overwrite (i : Z) (e : sTCEntry) (t : sTranslationCache) : sTranslationCache :=
  let t := if tc_lastKey t =? tce_key (tc_entries t i)
           then set_tc_lastKey (wrap64 (-1)) t else t in
  set_tc_entries (upd (tc_entries t) i e) t.

(** [nextIndex] is an [int]; its overflow, which C leaves undefined, is modelled as the
    wrap-around of the generated code. *)
Definition tc_set (tc : side) (key translation : Z) : M (option Z) :=
  t ← gets (fun m => m_tcs m tc);
  if (tc_size t =? 0)%nat then mret None
  else
    index ← gets (fun m => wrap64 (m_nextIndex m) mod Z.of_nat (tc_size t));
    modify (fun m => set_m_nextIndex (to_int (m_nextIndex m + 1)) m);;
    on_tc tc (tc_overwrite index (mk_sTCEntry key translation));;
    mret (Some index).

Definition tc_remove (tc : side) (i : Z) : M unit :=
  on_tc tc (tc_overwrite i invalid_entry).

Definition tc_removeAll (tc : side) : M unit :=
  size ← gets (fun m => tc_size (m_tcs m tc));
  for_m size 0 (tc_remove tc).

Definition tc_pteToTrans (pte s : Z) : M Z :=
  p ← c_shl64 1 s;
  mret (((pte .& (0xFFFFFFFFFFFFFF .& not64 (p -o 1))) .>> 10) .| (pte .& 7)).

Definition tc_addrToKey (addr s n : Z) : M Z :=
  p ← c_shl64 1 s;
  mret (((addr .& not64 (MSB 64)) .& not64 (p -o 1)) .| (n * 8)).

(** ** The invariant

    The entry found last is remembered by its index, and only while it holds the key. *)

Abbreviation NO_KEY := (wrap64 (-1)).

Record wf_tc (t : sTranslationCache) : Prop := {
  wt_last : tc_lastKey t <> NO_KEY ->
            0 <= tc_last t < Z.of_nat (tc_size t) /\ tce_key (tc_entries t (tc_last t)) = tc_lastKey t
}.

Definition in_tc (t : sTranslationCache) (i key : Z) : Prop :=
  0 <= i < Z.of_nat (tc_size t) /\ tce_key (tc_entries t i) = key.

Definition with_tc (tc : side) (t : sTranslationCache) (m : machine) : machine :=
  set_m_tcs (upd_side (m_tcs m) tc t) m.

Lemma on_tc_eq tc f m : on_tc tc f m = (Ret tt, with_tc tc (f (m_tcs m tc)) m).
Proof. reflexivity. Qed.

Lemma tcs_with_tc tc t m : m_tcs (with_tc tc t m) tc = t.
Proof. apply upd_side_same. Qed.

Lemma tcs_with_other tc c t m : c <> tc -> m_tcs (with_tc tc t m) c = m_tcs m c.
Proof. apply upd_side_other. Qed.

Lemma tc_search_spec n i entries key :
  match tc_search n i entries key with
  | Some j => i <= j < i + Z.of_nat n /\ tce_key (entries j) = key
  | None => forall j, i <= j < i + Z.of_nat n -> tce_key (entries j) <> key
  end.
Proof.
  revert i; induction n as [|n IH]; intros i; cbn [tc_search]; [intros; lia|].
  destruct (Z.eqb_spec (tce_key (entries i)) key) as [E|E]; [split; [lia|trivial]|].
  specialize (IH (i + 1)). destruct (tc_search n (i + 1) entries key) as [j|].
  - split; [lia|apply IH].
  - intros j Hj. destruct (Z.eq_dec j i) as [->|]; [trivial|apply IH; lia].
Qed.

Lemma tc_overwrite_wf i e t : wf_tc t -> wf_tc (tc_overwrite i e t).
Proof.
  intros [H]. constructor. unfold tc_overwrite.
  destruct (Z.eqb_spec (tc_lastKey t) (tce_key (tc_entries t i))) as [E|E]; cbn.
  - intros N; destruct N; reflexivity.
  - intros N. destruct (H N) as [Hl Hk]. split; [trivial|].
    unfold upd. destruct (Z.eqb_spec (tc_last t) i) as [<-|]; [congruence|trivial].
Qed.

Lemma tc_overwrite_entries i e t j :
  tc_entries (tc_overwrite i e t) j = if j =? i then e else tc_entries t j.
Proof. unfold tc_overwrite. destruct (_ =? _); reflexivity. Qed.

Lemma tc_overwrite_size i e t : tc_size (tc_overwrite i e t) = tc_size t.
Proof. unfold tc_overwrite. destruct (_ =? _); reflexivity. Qed.

(** Only the translation cache [tc] may change. *)
Definition tc_frame (tc : side) (m m' : machine) : Prop :=
  m' = set_m_tcs (m_tcs m') m /\ forall c, c <> tc -> m_tcs m' c = m_tcs m c.

Lemma tc_frame_refl tc m : tc_frame tc m m.
Proof. split; [destruct m; reflexivity|trivial]. Qed.

Lemma with_tc_frame tc t m : tc_frame tc m (with_tc tc t m).
Proof. split; [reflexivity|]. intros c Hc. apply upd_side_other; trivial. Qed.

(** A lookup finds an entry with the key if there is one; the entries stay. *)
Lemma tc_getByKey_spec tc key m :
  wf_tc (m_tcs m tc) -> key <> NO_KEY ->
  exists r m', tc_getByKey tc key m = (Ret r, m') /\ tc_frame tc m m' /\ wf_tc (m_tcs m' tc) /\
    tc_entries (m_tcs m' tc) = tc_entries (m_tcs m tc) /\
    tc_size (m_tcs m' tc) = tc_size (m_tcs m tc) /\
    match r with
    | Some i => in_tc (m_tcs m tc) i key
    | None => forall i, ~ in_tc (m_tcs m tc) i key
    end.
Proof.
  intros W Hk. set (t := m_tcs m tc) in *. unfold tc_getByKey. rewrite bind_gets. fold t.
  destruct (Z.eqb_spec (tc_lastKey t) key) as [E|E].
  - exists (Some (tc_last t)), m. csplit; trivial; try apply tc_frame_refl.
    destruct (wt_last t W) as [? ?]; [congruence|]. split; congruence.
  - pose proof (tc_search_spec (tc_size t) 0 (tc_entries t) key) as HS.
    destruct (tc_search (tc_size t) 0 (tc_entries t) key) as [i|].
    + rewrite (bind_ret _ _ _ _ _ (on_tc_eq _ _ _)). do 2 eexists. split; [reflexivity|].
      rewrite tcs_with_tc. csplit; trivial; try apply with_tc_frame.
      constructor. cbn. intros _. exact HS.
    + exists None, m. csplit; trivial; try apply tc_frame_refl. intros i [Hi Ei]. apply (HS i Hi Ei).
Qed.

(** The slot [tc_set] takes. *)
Definition victim (tc : side) (m : machine) : Z :=
  wrap64 (m_nextIndex m) mod Z.of_nat (tc_size (m_tcs m tc)).

Lemma tc_set_eq tc key trans m :
  (0 < tc_size (m_tcs m tc))%nat ->
  tc_set tc key trans m =
    (Ret (Some (victim tc m)),
     with_tc tc (tc_overwrite (victim tc m) (mk_sTCEntry key trans) (m_tcs m tc))
       (set_m_nextIndex (to_int (m_nextIndex m + 1)) m)).
Proof.
  intros Hs. unfold tc_set. rewrite bind_gets.
  replace (tc_size (m_tcs m tc) =? 0)%nat with false by (symmetry; apply Nat.eqb_neq; lia).
  reflexivity.
Qed.


(** the translation caches are maps from keys to translations.  [tc_set] replaces
    one entry by the new one; after it, a lookup returns an entry with the key looked
    for if there is one - for the new key the new entry, if the key was not there
    before - and the shortcut to the entry found last never returns a stale one. *)
Theorem tc_set_lookup tc key trans k m :
  wf_tc (m_tcs m tc) -> (0 < tc_size (m_tcs m tc))%nat -> k <> NO_KEY ->
  exists i m1 r m2, tc_set tc key trans m = (Ret (Some i), m1) /\ in_tc (m_tcs m1 tc) i key /\
    (forall j, tc_entries (m_tcs m1 tc) j =
               if j =? i then mk_sTCEntry key trans else tc_entries (m_tcs m tc) j) /\
    tc_getByKey tc k m1 = (Ret r, m2) /\ wf_tc (m_tcs m2 tc) /\
    match r with
    | Some j => in_tc (m_tcs m1 tc) j k
    | None => forall j, ~ in_tc (m_tcs m1 tc) j k
    end /\
    (k = key -> (forall j, ~ in_tc (m_tcs m tc) j k) -> r = Some i).
Proof.
  intros W Hs Hk. set (i := victim tc m). set (t := m_tcs m tc) in *.
  pose proof (tc_set_eq tc key trans m Hs) as E. fold t i in E.
  set (m1 := with_tc tc _ _) in E.
  assert (T1 : m_tcs m1 tc = tc_overwrite i (mk_sTCEntry key trans) t) by apply tcs_with_tc.
  assert (En : forall j, tc_entries (m_tcs m1 tc) j =
                 if j =? i then mk_sTCEntry key trans else tc_entries t j)
    by (intros j; rewrite T1; apply tc_overwrite_entries).
  assert (Sz : tc_size (m_tcs m1 tc) = tc_size t) by (rewrite T1; apply tc_overwrite_size).
  destruct (tc_getByKey_spec tc k m1) as (r & m2 & G & _ & W2 & _ & _ & R);
    [rewrite T1; apply tc_overwrite_wf; trivial|trivial|].
  exists i, m1, r, m2.
  assert (Hi : in_tc (m_tcs m1 tc) i key).
  { split; [rewrite Sz; apply Z.mod_pos_bound; fold t; lia|]. rewrite En, Z.eqb_refl. reflexivity. }
  csplit; trivial; try apply Hi. intros -> Hn. destruct r as [j|]; [|destruct (R i Hi)].
  destruct R as [Hj Kj]. rewrite Sz in Hj. rewrite En in Kj. destruct (Z.eqb_spec j i) as [->|]; [trivial|].
  destruct (Hn j). split; trivial.
Qed.

Lemma wf_tc_empty n : wf_tc (tc_empty n).
Proof. constructor. cbn. intros N; destruct N; reflexivity. Qed.

Lemma tc_set_lookup_witness :
  let m := snd (tc_init (power_on default_config)) in
  exists m1 m2, tc_set TC_DATA 0x2008 0x87 m = (Ret (Some 0), m1) /\
    tc_getByKey TC_DATA 0x2008 m1 = (Ret (Some 0), m2).
Proof.
  intros m. destruct (tc_set_lookup TC_DATA 0x2008 0x87 0x2008 m)
    as (i & m1 & r & m2 & E & _ & _ & G & _ & _ & H).
  - apply wf_tc_empty.
  - cbn; lia.
  - vm_compute; congruence.
  - exists m1, m2. assert (i = 0) as -> by (vm_compute in E; congruence).
    rewrite H in G; [exact (conj E G)|reflexivity|]. intros j [_ K]. vm_compute in K. congruence.
Defined.

(** After [tc_removeAll] (SYNC 6) no lookup finds a translation. *)
Theorem tc_removeAll_forgets tc key m :
  wf_tc (m_tcs m tc) -> key <> NO_KEY -> key <> MSB 64 ->
  exists m1 m2, tc_removeAll tc m = (Ret tt, m1) /\ tc_frame tc m m1 /\
    tc_getByKey tc key m1 = (Ret None, m2).
Proof.
  intros W Hk Hv. unfold tc_removeAll. rewrite bind_gets.
  destruct (for_m_inv (fun i m1 => tc_frame tc m m1 /\ wf_tc (m_tcs m1 tc) /\
      tc_size (m_tcs m1 tc) = tc_size (m_tcs m tc) /\
      forall j, 0 <= j < i -> tc_entries (m_tcs m1 tc) j = invalid_entry)
      (tc_size (m_tcs m tc)) 0 (tc_remove tc) m) as (m1 & E & F & W1 & Sz & Hi).
  - csplit; trivial; try apply tc_frame_refl. intros; lia.
  - intros j m1 Hj (F & W1 & Sz & Hi). unfold tc_remove. rewrite on_tc_eq.
    eexists; split; [reflexivity|]. rewrite tcs_with_tc, tc_overwrite_size. csplit; trivial.
    + destruct F as [F1 F2]. split; [rewrite F1; reflexivity|].
      intros c Hc. rewrite <- F2 by trivial. apply upd_side_other; trivial.
    + apply tc_overwrite_wf; trivial.
    + intros x Hx. rewrite tc_overwrite_entries. destruct (Z.eqb_spec x j); [trivial|]. apply Hi; lia.
  - destruct (tc_getByKey_spec tc key m1 W1 Hk) as (r & m2 & G & _ & _ & _ & _ & R).
    exists m1, m2. csplit; trivial; try apply F. destruct r as [i|]; [|trivial].
    destruct R as [Hr Kr]. rewrite Hi in Kr by (rewrite Sz in Hr; lia). cbn in Kr. congruence.
Qed.

