(* ===== verification/Cache.v ===== *)
(** * The caches (gimmix/src/core/cache.c)

    Fully associative, write-back, write-allocate caches in front of the bus. *)

From Stdlib Require Import ZArith Lia Bool.
From stdpp Require Import base list numbers option.
From S2P Require Import Prelude Ram Machine Registers Devices Bus.

Abbreviation ICACHE_BLOCK_NUM := 8%nat.
Abbreviation DCACHE_BLOCK_NUM := 16%nat.
Abbreviation CACHE_BLOCK_SIZE := 32.

(** ** The code *)

Definition get_cache (c : side) : M sCache := gets (fun m => m_caches m c).

Definition on_cache (c : side) (f : sCache -> sCache) : M unit :=
  modify (fun m => set_m_caches (upd_side (m_caches m) c (f (m_caches m c))) m).

Definition on_block (c : side) (b : Z) (f : sCacheBlock -> sCacheBlock) : M unit :=
  on_cache c (fun k => set_ca_blocks (upd (ca_blocks k) b (f (ca_blocks k b))) k).

Definition get_block (c : side) (b : Z) : M sCacheBlock :=
  gets (fun m => ca_blocks (m_caches m c) b).

Definition invalidate_block (b : Z) (k : sCache) : sCache :=
  let k := if decide (ca_lastBlock k = Some b)
           then set_ca_lastBlock None (set_ca_lastAddr (MSB 64) k) else k in
  set_ca_blocks (upd (ca_blocks k) b (mk_sCacheBlock (MSB 64) false (fun _ => 0))) k.

Definition cache_invalidateBlock (c : side) (b : Z) : M unit :=
  on_cache c (invalidate_block b).

Definition empty_cache (num : nat) (size : Z) : sCache :=
  mk_sCache num size (wrap64 (- size)) (MSB 64) None
            (fun _ => mk_sCacheBlock (MSB 64) false (fun _ => 0)).

Definition cache_init : M unit :=
  modify (fun m => set_m_nextVictim 0 (set_m_caches (fun c =>
    match c with
    | SInstr => empty_cache ICACHE_BLOCK_NUM CACHE_BLOCK_SIZE
    | SData => empty_cache DCACHE_BLOCK_NUM CACHE_BLOCK_SIZE
    end) m)).

Definition cache_isValid (b : sCacheBlock) : bool := negb (truth (cb_tag b .& MSB 64)).

(** The search loop of [cache_find]. *)
Fixpoint cache_search (n : nat) (i : Z) (blocks : Z -> sCacheBlock) (tagMask addr : Z) : option Z :=
  match n with
  | O => None
  | S n =>
    if (cb_tag (blocks i) .^ addr) .& tagMask =? 0 then Some i
    else cache_search n (i + 1) blocks tagMask addr
  end.

Definition cache_find (c : side) (addr : Z) : M (option Z) :=
  k ← get_cache c;
  if (ca_lastAddr k .^ addr) .& ca_tagMask k =? 0 then mret (ca_lastBlock k)
  else
    match cache_search (ca_blockNum k) 0 (ca_blocks k) (ca_tagMask k) addr with
    | Some b =>
      on_cache c (fun k => set_ca_lastBlock (Some b) (set_ca_lastAddr addr k));;
      mret (Some b)
    | None => mret None
    end.

Fixpoint free_block (n : nat) (i : Z) (blocks : Z -> sCacheBlock) : option Z :=
  match n with
  | O => None
  | S n => if truth (cb_tag (blocks i) .& MSB 64) then Some i else free_block n (i + 1) blocks
  end.

Definition cache_findVictim (c : side) : M (option Z) :=
  k ← get_cache c;
  match free_block (ca_blockNum k) 0 (ca_blocks k) with
  | Some b => mret (Some b)
  | None =>
    if (0 <? ca_blockNum k)%nat then
      v ← gets m_nextVictim;
      modify (fun m => set_m_nextVictim (v +o 1) m);;
      mret (Some (v mod Z.of_nat (ca_blockNum k)))
    else mret None
  end.

Definition cache_fill (c : side) (b addr flags : Z) : M unit :=
  k ← get_cache c;
  let num := Z.to_nat (ca_blockSize k / 8) in
  let addr := addr .& ca_tagMask k in
  on_block c b (set_cb_tag addr);;
  for_m num 0 (fun i =>
    v ← bus_read (addr +o (i * 8)) (has_flag flags MEM_SIDE_EFFECTS);
    on_block c b (fun k => set_cb_data (upd (cb_data k) i v) k));;
  when (has_flag flags MEM_SIDE_EFFECTS) (ev_fire (EV_CACHE_FILL c addr)).

Definition cache_flushBlock (c : side) (b flags : Z) : M unit :=
  k ← get_cache c;
  let blk := ca_blocks k b in
  when (cb_dirty blk) (
    let num := Z.to_nat (ca_blockSize k / 8) in
    for_m num 0 (fun i =>
      bus_write (cb_tag blk +o (i * 8)) (cb_data blk i) (has_flag flags MEM_SIDE_EFFECTS));;
    on_block c b (set_cb_dirty false);;
    when (has_flag flags MEM_SIDE_EFFECTS)
      (ev_fire (EV_CACHE_FLUSH c (cb_tag blk +o ca_blockSize k)))).

(** The part of [cache_get] that loads a missing block. *)
Definition cache_load (c : side) (addr flags : Z) : M (option Z) :=
  k ← get_cache c;
  victim ← cache_findVictim c;
  match victim with
  | None => mret None
  | Some b =>
    blk ← get_block c b;
    when (cb_dirty blk) (cache_flushBlock c b flags);;
    (if negb (has_flag flags MEM_UNINITIALIZED) then cache_fill c b addr flags
     else on_block c b (fun blk => set_cb_data (fun _ => 0)
                                     (set_cb_tag (addr .& ca_tagMask k) blk)));;
    on_cache c (fun k => if decide (ca_lastBlock k = Some b) then set_ca_lastAddr (MSB 64) k else k);;
    mret (Some b)
  end.

Definition cache_get (c : side) (addr flags : Z) (isWrite : bool) : M (option Z) :=
  block ← cache_find c addr;
  when (has_flag flags MEM_SIDE_EFFECTS) (ev_fire (EV_CACHE_LOOKUP c addr));;
  match block with
  | Some b => mret (Some b)
  | None =>
    if negb (has_flag flags MEM_UNCACHED) && (isWrite || has_flag flags MEM_SIDE_EFFECTS)
    then cache_load c addr flags
    else mret None
  end.

(** [(addr & ~c->tagMask) / sizeof(octa)] *)
Definition block_index (k : sCache) (addr : Z) : Z := (addr .& not64 (ca_tagMask k)) / 8.

Definition cache_read (c : side) (addr flags : Z) : M Z :=
  if DEV_START_ADDR <=? addr then bus_read addr (has_flag flags MEM_SIDE_EFFECTS)
  else
    block ← cache_get c addr flags false;
    match block with
    | None => bus_read addr (has_flag flags MEM_SIDE_EFFECTS)
    | Some b =>
      k ← get_cache c;
      mret (cb_data (ca_blocks k b) (block_index k addr))
    end.

Definition cache_write (c : side) (addr data flags : Z) : M unit :=
  if DEV_START_ADDR <=? addr then bus_write addr data (has_flag flags MEM_SIDE_EFFECTS)
  else
    block ← cache_get c addr flags true;
    match block with
    | Some b =>
      k ← get_cache c;
      on_block c b (fun blk =>
        set_cb_dirty true (set_cb_data (upd (cb_data blk) (block_index k addr) data) blk))
    | None => bus_write addr data (has_flag flags MEM_SIDE_EFFECTS)
    end.

Definition cache_flush (c : side) (addr : Z) : M unit :=
  block ← cache_find c addr;
  match block with
  | Some b => cache_flushBlock c b MEM_SIDE_EFFECTS
  | None => mret tt
  end.

Definition cache_flushAll (c : side) : M unit :=
  k ← get_cache c;
  for_m (ca_blockNum k) 0 (fun b => cache_flushBlock c b MEM_SIDE_EFFECTS).

Definition cache_remove (c : side) (addr : Z) : M unit :=
  block ← cache_find c addr;
  match block with
  | Some b => cache_invalidateBlock c b
  | None => mret tt
  end.

Definition cache_removeAll (c : side) : M unit :=
  k ← get_cache c;
  for_m (ca_blockNum k) 0 (cache_invalidateBlock c).

Definition cache_reset : M unit :=
  cache_removeAll CACHE_INSTR;;
  cache_removeAll CACHE_DATA;;
  modify (set_m_nextVictim 0).

(** ** The invariant *)

Definition align32 (a : Z) : Z := a - a mod 32.

Definition num (k : sCache) : Z := Z.of_nat (ca_blockNum k).

(** A block is free, or it caches an aligned piece of RAM. *)
Definition wf_block (m : machine) (b : sCacheBlock) : Prop :=
  ((cb_tag b = MSB 64 /\ cb_dirty b = false) \/ (cb_tag b mod 32 = 0 /\ ram_addr m (cb_tag b))) /\
  forall i, is_octa (cb_data b i).

Record wf_cache (m : machine) (k : sCache) : Prop := {
  wc_num : (0 < ca_blockNum k)%nat;
  wc_size : ca_blockSize k = CACHE_BLOCK_SIZE;
  wc_mask : ca_tagMask k = wrap64 (- CACHE_BLOCK_SIZE);
  wc_block : forall b, 0 <= b < num k -> wf_block m (ca_blocks k b);
  wc_inj : forall b b', 0 <= b < num k -> 0 <= b' < num k ->
             cb_tag (ca_blocks k b) = cb_tag (ca_blocks k b') ->
             cb_tag (ca_blocks k b) <> MSB 64 -> b = b';
  wc_last : ca_lastAddr k = MSB 64 \/
            exists b, ca_lastBlock k = Some b /\ 0 <= b < num k /\
              is_octa (ca_lastAddr k) /\ cb_tag (ca_blocks k b) = align32 (ca_lastAddr k)
}.

(** ** Tags *)

Lemma mask_shiftr x : is_octa x -> (x .& wrap64 (- CACHE_BLOCK_SIZE) =? 0) = (x .>> 5 =? 0).
Proof.
  intros Hx. change (wrap64 (- CACHE_BLOCK_SIZE)) with (not64 (2 ^ 5 - 1)).
  rewrite land_not_mask, shiftr_div by (trivial; lia).
  apply eq_true_iff_eq. rewrite !Z.eqb_eq. dmlia.
Qed.

(** The comparison of a tag with an address, without the low bits. *)
Lemma tag_match t a :
  is_octa t -> is_octa a ->
  ((t .^ a) .& wrap64 (- CACHE_BLOCK_SIZE) =? 0) = (align32 t =? align32 a).
Proof.
  intros Ht Ha. rewrite mask_shiftr, Z.shiftr_lxor by auto with word.
  apply eq_true_iff_eq. rewrite !Z.eqb_eq, Z.lxor_eq_0_iff, !shiftr_div by lia.
  unfold align32. dmlia.
Qed.

Lemma align32_id t : t mod 32 = 0 -> align32 t = t.
Proof. unfold align32; lia. Qed.

Lemma align32_addr m a : wf_bus m -> ram_addr m a ->
  align32 a mod 32 = 0 /\ ram_addr m (align32 a) /\ align32 a <= a < align32 a + 32.
Proof.
  intros [[Hs Hm] _ _ _] Ha. unfold align32, ram_addr in *. csplit; Z.div_mod_to_equations; lia.
Qed.

Lemma wf_block_octa m b : wf_bus m -> wf_block m b -> is_octa (cb_tag b).
Proof.
  intros W [[[-> _]|[_ H]] _]; [vm_compute; intuition congruence|].
  eapply ram_addr_octa; eauto.
Qed.

(** The block that caches an address of RAM. *)
Definition lookup_block (k : sCache) (a : Z) : option Z :=
  cache_search (ca_blockNum k) 0 (ca_blocks k) (ca_tagMask k) a.

Lemma cache_search_spec m blocks n i a r :
  wf_bus m -> is_octa a ->
  (forall b, i <= b < i + Z.of_nat n -> wf_block m (blocks b)) -> a < 2 ^ 63 ->
  cache_search n i blocks (wrap64 (- CACHE_BLOCK_SIZE)) a = r ->
  match r with
  | Some b => i <= b < i + Z.of_nat n /\ cb_tag (blocks b) = align32 a
  | None => forall b, i <= b < i + Z.of_nat n -> cb_tag (blocks b) <> align32 a
  end.
Proof.
  intros Wb Ha Hb Hlt. revert i Hb. induction n as [|n IH]; intros i Hb; cbn [cache_search].
  - intros <- b Hi; lia.
  - assert (Wi : wf_block m (blocks i)) by (apply Hb; lia).
    rewrite tag_match by (trivial; eapply wf_block_octa; eauto).
    destruct (Z.eqb_spec (align32 (cb_tag (blocks i))) (align32 a)) as [E|E].
    + intros <-. split; [lia|]. destruct Wi as [[[Et _]|[Et _]] _].
      * rewrite Et in E. change (align32 (MSB 64)) with (2 ^ 63) in E. unfold align32 in E.
        unfold is_word in Ha. Z.div_mod_to_equations; lia.
      * rewrite <- E. symmetry. apply align32_id; trivial.
    + intros Hr. specialize (IH (i + 1) ltac:(intros; apply Hb; lia) Hr).
      destruct r as [b|]; [destruct IH; split; [lia|trivial]|].
      intros b Hi. destruct (Z.eq_dec b i) as [->|]; [|apply IH; lia].
      intros Et. apply E. rewrite Et. unfold align32. Z.div_mod_to_equations; lia.
Qed.

Lemma lookup_block_spec m k a :
  wf_bus m -> wf_cache m k -> is_octa a -> a < 2 ^ 63 ->
  match lookup_block k a with
  | Some b => 0 <= b < num k /\ cb_tag (ca_blocks k b) = align32 a
  | None => forall b, 0 <= b < num k -> cb_tag (ca_blocks k b) <> align32 a
  end.
Proof.
  intros Wb W Ha Hlt. unfold lookup_block. rewrite (wc_mask m k W).
  apply (cache_search_spec m _ _ 0 a _ Wb Ha (wc_block m k W) Hlt eq_refl).
Qed.

Lemma lookup_block_unique m k a b :
  wf_bus m -> wf_cache m k -> is_octa a -> a < 2 ^ 63 ->
  0 <= b < num k -> cb_tag (ca_blocks k b) = align32 a -> lookup_block k a = Some b.
Proof.
  intros Wb W Ha Hlt Hb Et. pose proof (lookup_block_spec m k a Wb W Ha Hlt) as H.
  destruct (lookup_block k a) as [b'|].
  - destruct H as [Hb' Et']. f_equal. apply (wc_inj m k W); trivial; [congruence|].
    rewrite Et'. change (MSB 64) with (2 ^ 63). unfold align32, is_word in *.
    Z.div_mod_to_equations; lia.
  - destruct (H b Hb Et).
Qed.

(** ** What the cache shows *)

(** The memory as seen through the cache [k]. *)
Definition view_of (k : sCache) (f : Z -> Z) (a : Z) : Z :=
  match lookup_block k a with
  | Some b => cb_data (ca_blocks k b) (a mod 32 / 8)
  | None => f a
  end.

Definition view (c : side) (m : machine) (a : Z) : Z := view_of (m_caches m c) (mem m) a.

(** Clean blocks agree with the memory. *)
Definition coherent (m : machine) (k : sCache) : Prop :=
  forall b, 0 <= b < num k -> cb_tag (ca_blocks k b) <> MSB 64 ->
    cb_dirty (ca_blocks k b) = false ->
    forall i, 0 <= i < 4 -> cb_data (ca_blocks k b) i = mem m (cb_tag (ca_blocks k b) + 8 * i).

Record cache_ok (c : side) (m : machine) : Prop := {
  co_bus : wf_bus m;
  co_cache : wf_cache m (m_caches m c);
  co_coherent : coherent m (m_caches m c)
}.

Create HintDb cache.

(** An operation on the cache [c] leaves the rest of the machine but the RAM alone. *)
Definition side_frame (c : side) (m m' : machine) : Prop :=
  core m' = core m /\ forall c', c' <> c -> m_caches m' c' = m_caches m c'.

#[export] Instance side_frame_preorder c : PreOrder (side_frame c).
Proof.
  split; [intros m; split; trivial|].
  intros m1 m2 m3 [E1 F1] [E2 F2]. split; [congruence|]. intros c' Hc.
  rewrite F2, F1 by trivial. reflexivity.
Qed.

Lemma core_cfg m m' : core m' = core m -> m_cfg m' = m_cfg m.
Proof. unfold core. intros [=]. trivial. Qed.

Lemma core_devices m m' : core m' = core m -> m_devices m' = m_devices m.
Proof. unfold core. intros [=]. trivial. Qed.

Lemma wf_cache_frame m m' k : m_cfg m' = m_cfg m -> wf_cache m k -> wf_cache m' k.
Proof.
  intros E [? ? ? Hb ? ?]. constructor; trivial. intros b Hr. specialize (Hb b Hr).
  unfold wf_block, ram_addr in *. rewrite E. trivial.
Qed.

(** Putting a new cache into the machine. *)
Definition with_cache (c : side) (k : sCache) (m : machine) : machine :=
  set_m_caches (upd_side (m_caches m) c k) m.

Lemma on_cache_eq c f m : on_cache c f m = (Ret tt, with_cache c (f (m_caches m c)) m).
Proof. reflexivity. Qed.

Lemma caches_with_cache c k m : m_caches (with_cache c k m) c = k.
Proof. apply upd_side_same. Qed.

Lemma with_cache_frame c k m : side_frame c m (with_cache c k m).
Proof. split; [reflexivity|]. intros c' Hc. apply upd_side_other; trivial. Qed.

Lemma wf_bus_with_cache c k m : wf_bus m -> wf_bus (with_cache c k m).
Proof. intros []; constructor; trivial. Qed.

#[export] Hint Resolve with_cache_frame wf_bus_with_cache : cache.

(** Changing which block was found last. *)
Lemma cache_ok_last c m k' :
  cache_ok c m -> wf_cache m k' ->
  ca_blocks k' = ca_blocks (m_caches m c) -> ca_blockNum k' = ca_blockNum (m_caches m c) ->
  cache_ok c (with_cache c k' m).
Proof.
  intros [Hb Hc Hco] W Eb En. constructor; rewrite ?caches_with_cache; auto with cache.
  - apply (wf_cache_frame m); trivial.
  - unfold coherent, num in *. rewrite Eb, En. exact Hco.
Qed.

Lemma block_index_eq m k a : wf_cache m k -> is_octa a -> block_index k a = a mod 32 / 8.
Proof.
  intros W Ha. unfold block_index. rewrite (wc_mask m k W).
  change (not64 (wrap64 (- CACHE_BLOCK_SIZE))) with (2 ^ 5 - 1).
  rewrite land_mask by lia. reflexivity.
Qed.

(** What [cache_find] returns, whether by its shortcut or by the search. *)
Lemma cache_find_spec c a m :
  cache_ok c m -> is_octa a -> a < 2 ^ 63 ->
  let k := m_caches m c in
  exists m', cache_find c a m = (Ret (lookup_block k a), m') /\
    cache_ok c m' /\ side_frame c m m' /\ m_ram m' = m_ram m /\
    ca_blocks (m_caches m' c) = ca_blocks k /\ ca_blockNum (m_caches m' c) = ca_blockNum k.
Proof.
  intros HO Ha Hlt k. destruct (HO) as [Wb W Co]. fold k in W.
  unfold cache_find, get_cache. rewrite bind_gets. fold k.
  assert (HL : is_octa (ca_lastAddr k)).
  { destruct (wc_last m k W) as [->|(b & _ & _ & H & _)]; [|trivial].
    vm_compute; intuition congruence. }
  assert (HM : ((ca_lastAddr k .^ a) .& ca_tagMask k =? 0) = (align32 (ca_lastAddr k) =? align32 a))
    by (rewrite (wc_mask m k W); apply tag_match; trivial).
  rewrite HM. destruct (Z.eqb_spec (align32 (ca_lastAddr k)) (align32 a)) as [E|_].
  - destruct (wc_last m k W) as [E'|(b & Eb & Hb & _ & Et)].
    { rewrite E' in E. change (align32 (MSB 64)) with (2 ^ 63) in E. unfold align32, is_word in *.
      Z.div_mod_to_equations; lia. }
    exists m. rewrite Eb, (lookup_block_unique m k a b) by (trivial; congruence).
    csplit; trivial; reflexivity.
  - change (cache_search (ca_blockNum k) 0 (ca_blocks k) (ca_tagMask k) a) with (lookup_block k a).
    pose proof (lookup_block_spec m k a Wb W Ha Hlt) as HS.
    destruct (lookup_block k a) as [b|]; [|exists m; csplit; trivial; reflexivity].
    rewrite (bind_ret _ _ _ _ _ (on_cache_eq _ _ _)).
    eexists; split; [reflexivity|]. fold k. rewrite caches_with_cache.
    csplit; auto with cache. apply cache_ok_last; trivial.
    destruct W. constructor; trivial. right. exists b. tauto.
Qed.

(** ** Writing a block back *)

Lemma with_mem_with_mem s l s' l' m : with_mem s l (with_mem s' l' m) = with_mem s l m.
Proof. destruct m; reflexivity. Qed.

Lemma block_octa m t i :
  wf_bus m -> t mod 32 = 0 -> ram_addr m t -> 0 <= i < 4 ->
  t +o (i * 8) = t + 8 * i /\ ram_addr m (t + 8 * i) /\ octa_addr (t + 8 * i).
Proof.
  intros [[Hs Hm] _ _ _] Ht Hr Hi. unfold ram_addr, octa_addr in *.
  assert (t + 8 * i < cfg_ramSize (m_cfg m)) by (Z.div_mod_to_equations; lia).
  assert (is_octa (t + 8 * i)) by wordlia.
  csplit; try lia; trivial; [|Z.div_mod_to_equations; lia].
  replace (i * 8) with (8 * i) by lia. apply wrap_small; trivial.
Qed.

(** The octa [a] is the [i]-th of the block at [t]. *)
Lemma block_octa_eq t i a :
  t mod 32 = 0 -> 0 <= i < 4 -> octa_addr a ->
  (a =? t + 8 * i) = (align32 a =? t) && (a mod 32 / 8 =? i).
Proof.
  intros Ht Hi [_ Ha]. unfold align32. apply eq_true_iff_eq.
  rewrite andb_true_iff, !Z.eqb_eq. Z.div_mod_to_equations; lia.
Qed.

Lemma octa_index a : 0 <= a mod 32 / 8 < 4.
Proof. Z.div_mod_to_equations; lia. Qed.

(** The loop over the octas of a block. *)
Lemma write_back m t d se :
  wf_bus m -> t mod 32 = 0 -> ram_addr m t -> (forall i, is_octa (d i)) ->
  exists s l, for_m 4 0 (fun i => bus_write (t +o (i * 8)) (d i) se) m = (Ret tt, with_mem s l m) /\
    wf_bus (with_mem s l m) /\
    forall a, octa_addr a -> mem (with_mem s l m) a =
                             if align32 a =? t then d (a mod 32 / 8) else mem m a.
Proof.
  intros W Ht Hr Hd.
  destruct (for_m_inv (fun i m' => exists s l, m' = with_mem s l m /\ wf_bus m' /\
      forall a, octa_addr a -> mem m' a =
        if (align32 a =? t) && (a mod 32 / 8 <? i) then d (a mod 32 / 8) else mem m a)
      4 0 (fun i => bus_write (t +o (i * 8)) (d i) se) m) as (m' & E & s & l & -> & W' & Hm).
  - exists (m_ram m), (m_log m). split; [destruct m; reflexivity|]. split; [trivial|].
    intros a Ha. pose proof (octa_index a).
    destruct (Z.ltb_spec (a mod 32 / 8) 0); [lia|]. rewrite andb_false_r. reflexivity.
  - intros i m1 Hi (s & l & -> & W1 & Hm).
    destruct (block_octa m t i W Ht Hr) as (-> & Hri & Hoi); [lia|].
    destruct (bus_write_ram (t + 8 * i) (d i) se (with_mem s l m) W1 Hri (Hd i))
      as (s' & l' & E & W2 & Hm2).
    eexists; split; [exact E|]. exists s', l'. split; [apply with_mem_with_mem|]. split; [trivial|].
    intros a Ha. rewrite Hm2, align8_id, (block_octa_eq t i a), Hm by (trivial; lia).
    destruct (Z.eqb_spec (align32 a) t); cbn [andb]; [|reflexivity].
    destruct (Z.eqb_spec (a mod 32 / 8) i) as [->|].
    + replace (i <? i + 1) with true by (symmetry; apply Z.ltb_lt; lia). reflexivity.
    + destruct (Z.ltb_spec (a mod 32 / 8) i), (Z.ltb_spec (a mod 32 / 8) (i + 1)); trivial; lia.
  - exists s, l. split; [exact E|]. split; [trivial|]. intros a Ha. rewrite Hm by trivial.
    pose proof (octa_index a).
    replace (a mod 32 / 8 <? 0 + Z.of_nat 4) with true by (symmetry; apply Z.ltb_lt; lia).
    rewrite andb_true_r. reflexivity.
Qed.

(** Replacing block [b]. *)
Definition put_block (b : Z) (blk : sCacheBlock) (k : sCache) : sCache :=
  set_ca_blocks (upd (ca_blocks k) b blk) k.

Lemma on_block_eq c b f m :
  on_block c b f m =
  (Ret tt, with_cache c (put_block b (f (ca_blocks (m_caches m c) b)) (m_caches m c)) m).
Proof. reflexivity. Qed.

Lemma caches_with_mem s l m : m_caches (with_mem s l m) = m_caches m.
Proof. reflexivity. Qed.

Lemma with_mem_frame c s l m : side_frame c m (with_mem s l m).
Proof. split; reflexivity. Qed.
#[export] Hint Resolve with_mem_frame : cache.

Definition with_log (l : list event) (m : machine) : machine := set_m_log l m.

Lemma fire_when b e m :
  exists l, when b (ev_fire e) m = (Ret tt, with_log l m).
Proof. destruct b; [exists (e :: m_log m)|exists (m_log m); destruct m]; reflexivity. Qed.

Lemma with_log_frame c l m : side_frame c m (with_log l m).
Proof. split; reflexivity. Qed.
#[export] Hint Resolve with_log_frame : cache.

Lemma cache_ok_log c l m : cache_ok c m -> cache_ok c (with_log l m).
Proof.
  intros [Wb W Co]. constructor; [destruct Wb; constructor; trivial| |trivial].
  apply (wf_cache_frame m); trivial.
Qed.

Lemma put_block_same b blk k : ca_blocks (put_block b blk k) b = blk.
Proof. apply upd_same. Qed.

Lemma put_block_other b b' blk k : b' <> b -> ca_blocks (put_block b blk k) b' = ca_blocks k b'.
Proof. apply upd_other. Qed.

Lemma wf_put_block m k b blk :
  wf_cache m k -> wf_block m blk ->
  (forall b', 0 <= b' < num k -> b' <> b -> cb_tag (ca_blocks k b') = cb_tag blk -> cb_tag blk = MSB 64) ->
  (ca_lastAddr k = MSB 64 \/ ca_lastBlock k <> Some b \/ cb_tag blk = cb_tag (ca_blocks k b)) ->
  wf_cache m (put_block b blk k).
Proof.
  intros [Hn Hs Hm Hb Hi Hl] Wblk Hu Hlast. constructor; trivial.
  - intros x Hx. destruct (Z.eq_dec x b) as [->|]; [rewrite put_block_same|rewrite put_block_other]; auto.
  - intros x y Hx Hy. change (num (put_block b blk k)) with (num k) in *.
    destruct (Z.eq_dec x b) as [->|Ex], (Z.eq_dec y b) as [->|Ey];
      rewrite ?put_block_same, ?put_block_other by trivial; trivial.
    + intros E Hv. destruct Hv. apply (Hu y); auto.
    + intros E Hv. destruct Hv. rewrite E. apply (Hu x); auto.
    + auto.
  - destruct Hl as [Hl|(x & Ex & Hx & Ho & Et)]; [left; trivial|].
    destruct Hlast as [H|[H|H]]; [left; trivial| |]; right; exists x; do 3 (split; [trivial|]).
    + cbn [ca_lastBlock] in *. change (ca_lastAddr (put_block b blk k)) with (ca_lastAddr k).
      rewrite put_block_other; [trivial|congruence].
    + change (ca_lastAddr (put_block b blk k)) with (ca_lastAddr k).
      destruct (Z.eq_dec x b) as [->|]; [rewrite put_block_same|rewrite put_block_other]; congruence.
Qed.

(** After a write-back the block is clean and nothing else has changed. *)
Lemma cache_flushBlock_spec c b flags m :
  cache_ok c m -> 0 <= b < num (m_caches m c) ->
  let k := m_caches m c in
  exists m', cache_flushBlock c b flags m = (Ret tt, m') /\
    cache_ok c m' /\ side_frame c m m' /\
    cb_dirty (ca_blocks (m_caches m' c) b) = false /\
    (forall x, cb_tag (ca_blocks (m_caches m' c) x) = cb_tag (ca_blocks k x) /\
               cb_data (ca_blocks (m_caches m' c) x) = cb_data (ca_blocks k x)) /\
    num (m_caches m' c) = num k /\ m_nextVictim m' = m_nextVictim m /\
    (forall a, octa_addr a -> mem m' a =
       if cb_dirty (ca_blocks k b) && (align32 a =? cb_tag (ca_blocks k b))
       then cb_data (ca_blocks k b) (a mod 32 / 8) else mem m a).
Proof.
  intros HO Hb k. destruct (HO) as [Wb W Co]. fold k in W, Co.
  unfold cache_flushBlock, get_cache. rewrite bind_gets. fold k.
  destruct (cb_dirty (ca_blocks k b)) eqn:Ed.
  2: { exists m. csplit; trivial; [reflexivity|]. auto. }
  unfold when at 1. rewrite (wc_size m k W). change (Z.to_nat (32 / 8)) with 4%nat.
  destruct (wc_block m k W b Hb) as [[[_ ?]|[Ht Hr]] Hd]; [congruence|].
  destruct (write_back m _ _ (has_flag flags MEM_SIDE_EFFECTS) Wb Ht Hr Hd) as (s & l & E & Wb1 & Hm).
  rewrite (bind_ret _ _ _ _ _ E), (bind_ret _ _ _ _ _ (on_block_eq _ _ _ _)).
  rewrite caches_with_mem. fold k. set (m1 := with_cache _ _ _).
  destruct (fire_when (has_flag flags MEM_SIDE_EFFECTS)
              (EV_CACHE_FLUSH c (cb_tag (ca_blocks k b) +o 32)) m1) as (l' & ->).
  exists (with_log l' m1). change (m_caches (with_log l' m1)) with (m_caches m1).
  assert (Ek : m_caches m1 c = put_block b (set_cb_dirty false (ca_blocks k b)) k)
    by apply caches_with_cache.
  assert (Hx : forall x, cb_tag (ca_blocks (m_caches m1 c) x) = cb_tag (ca_blocks k x) /\
                         cb_data (ca_blocks (m_caches m1 c) x) = cb_data (ca_blocks k x)).
  { intros x. rewrite Ek. destruct (Z.eq_dec x b) as [->|];
      [rewrite put_block_same|rewrite put_block_other by trivial]; auto. }
  assert (HM : forall a, octa_addr a -> mem m1 a =
       if align32 a =? cb_tag (ca_blocks k b)
       then cb_data (ca_blocks k b) (a mod 32 / 8) else mem m a) by exact Hm.
  csplit; trivial.
  - apply cache_ok_log. constructor; [apply wf_bus_with_cache; trivial| |].
    + rewrite Ek. apply (wf_cache_frame m); [reflexivity|]. apply wf_put_block; auto.
      * destruct (wc_block m k W b Hb) as [_ ?]. split; [right; split|]; trivial.
      * intros b' Hb' Hne Et. exfalso. apply Hne. apply (wc_inj m k W); trivial.
        rewrite Et. cbn. unfold ram_addr in Hr. destruct Wb as [[Hs _] _ _ _].
        change (MSB 64) with (2 ^ 63). lia.
    + intros x Hr' Hv Hc i Hi. destruct (Hx x) as [Et ->]. rewrite Et in *.
      change (num (m_caches m1 c)) with (num (m_caches m1 c)) in Hr'. rewrite Ek in Hr', Hc.
      change (num (put_block _ _ k)) with (num k) in Hr'.
      destruct (wc_block m k W x Hr') as [[[? _]|[Htx Hrx]] _]; [contradiction|].
      destruct (block_octa m _ i Wb Htx Hrx Hi) as (_ & _ & Hoi). rewrite HM by trivial.
      assert (Ea : align32 (cb_tag (ca_blocks k x) + 8 * i) = cb_tag (ca_blocks k x) /\
                   (cb_tag (ca_blocks k x) + 8 * i) mod 32 / 8 = i).
      { unfold align32. Z.div_mod_to_equations; lia. }
      destruct Ea as [-> ->]. destruct (Z.eqb_spec (cb_tag (ca_blocks k x)) (cb_tag (ca_blocks k b))) as [E'|E'].
      * replace b with x; [reflexivity|]. apply (wc_inj m k W); trivial.
      * rewrite put_block_other in Hc by congruence. apply Co; trivial.
  - etransitivity; [|apply with_log_frame]. etransitivity; [apply with_mem_frame|apply with_cache_frame].
  - rewrite Ek, put_block_same. reflexivity.
  - rewrite Ek. reflexivity.
Qed.

(** ** Filling a block *)

(** [k'] is [k] but for the contents of block [b]. *)
Record only_block (b : Z) (k k' : sCache) : Prop := {
  ob_num : ca_blockNum k' = ca_blockNum k;
  ob_size : ca_blockSize k' = ca_blockSize k;
  ob_mask : ca_tagMask k' = ca_tagMask k;
  ob_lastA : ca_lastAddr k' = ca_lastAddr k;
  ob_lastB : ca_lastBlock k' = ca_lastBlock k;
  ob_other : forall x, x <> b -> ca_blocks k' x = ca_blocks k x
}.

Lemma only_block_put b blk k : only_block b k (put_block b blk k).
Proof. constructor; trivial. intros x Hx. apply put_block_other; trivial. Qed.

Lemma only_block_trans b k1 k2 k3 : only_block b k1 k2 -> only_block b k2 k3 -> only_block b k1 k3.
Proof.
  intros [? ? ? ? ? H1] [? ? ? ? ? H2]. constructor; try congruence.
  intros x Hx. rewrite H2, H1; trivial.
Qed.

(** The state while block [b] is being filled from address [t]. *)
Record filling (c : side) (b t : Z) (m : machine) (i : Z) (m' : machine) : Prop := {
  fi_bus : wf_bus m';
  fi_frame : side_frame c m m';
  fi_victim : m_nextVictim m' = m_nextVictim m;
  fi_mem : forall a, mem m' a = mem m a;
  fi_cache : only_block b (m_caches m c) (m_caches m' c);
  fi_tag : cb_tag (ca_blocks (m_caches m' c) b) = t;
  fi_dirty : cb_dirty (ca_blocks (m_caches m' c) b) = cb_dirty (ca_blocks (m_caches m c) b);
  fi_data : forall j, 0 <= j < i -> cb_data (ca_blocks (m_caches m' c) b) j = mem m (t + 8 * j);
  fi_octa : forall j, is_octa (cb_data (ca_blocks (m_caches m' c) b) j)
}.

Lemma fill_step c b t se m i m1 :
  t mod 32 = 0 -> ram_addr m t -> 0 <= i < 4 -> filling c b t m i m1 ->
  exists m2, (v ← bus_read (t +o (i * 8)) se;
              on_block c b (fun k => set_cb_data (upd (cb_data k) i v) k)) m1 = (Ret tt, m2) /\
    filling c b t m (i + 1) m2.
Proof.
  intros Ht Hr Hi [Wb F V HM OB Et Ed Hd Ho].
  assert (Ec : m_cfg m1 = m_cfg m) by (apply core_cfg, F).
  assert (Hr1 : ram_addr m1 t) by (unfold ram_addr; rewrite Ec; trivial).
  destruct (block_octa m1 t i Wb Ht Hr1 Hi) as (-> & Hri & Hoi).
  destruct (bus_read_ram (t + 8 * i) se m1 Wb Hri) as (s & l & E & Wb2 & HM2).
  rewrite align8_id in E by trivial.
  rewrite (bind_ret _ _ _ _ _ E), on_block_eq. eexists; split; [reflexivity|].
  rewrite caches_with_mem. set (blk := set_cb_data _ _).
  constructor; rewrite ?caches_with_cache, ?put_block_same; auto with cache.
  - etransitivity; [exact F|]. etransitivity; [apply with_mem_frame|apply with_cache_frame].
  - intros a. rewrite <- HM. apply HM2.
  - eapply only_block_trans; [exact OB|apply only_block_put].
  - intros j Hj. cbn. unfold upd. destruct (Z.eqb_spec j i) as [->|]; [apply HM|apply Hd; lia].
  - intros j. cbn. unfold upd. destruct (Z.eqb_spec j i); [apply mem_octa; trivial|apply Ho].
Qed.

Lemma cache_fill_spec c b a flags m :
  cache_ok c m -> ram_addr m a -> 0 <= b < num (m_caches m c) ->
  exists m', cache_fill c b a flags m = (Ret tt, m') /\ filling c b (align32 a) m 4 m'.
Proof.
  intros [Wb W Co] Ha Hb. unfold cache_fill, get_cache. rewrite bind_gets.
  rewrite (wc_size _ _ W), (wc_mask _ _ W). change (Z.to_nat (32 / 8)) with 4%nat.
  change (wrap64 (- CACHE_BLOCK_SIZE)) with (not64 (2 ^ 5 - 1)).
  rewrite land_not_mask by (try lia; eapply ram_addr_octa; eauto).
  change (a - a mod 2 ^ 5) with (align32 a).
  destruct (align32_addr m a Wb Ha) as (Ht & Hr & _).
  rewrite (bind_ret _ _ _ _ _ (on_block_eq _ _ _ _)). set (m1 := with_cache _ _ m).
  destruct (for_m_inv (filling c b (align32 a) m) 4 0
     (fun i => v ← bus_read (align32 a +o (i * 8)) (has_flag flags MEM_SIDE_EFFECTS);
               on_block c b (fun k => set_cb_data (upd (cb_data k) i v) k)) m1) as (m2 & E & Hf).
  - unfold m1. constructor; rewrite ?caches_with_cache, ?put_block_same; auto with cache.
    + apply only_block_put.
    + intros j Hj; lia.
    + intros j. apply (wc_block m _ W b Hb).
  - intros j m3 Hj. apply fill_step; trivial.
  - rewrite (bind_ret _ _ _ _ _ E).
    destruct (fire_when (has_flag flags MEM_SIDE_EFFECTS) (EV_CACHE_FILL c (align32 a)) m2) as (l & ->).
    exists (with_log l m2). split; [reflexivity|]. destruct Hf as [Wb2 F2 ? ? ? ? ? ? ?].
    constructor; trivial. destruct Wb2; constructor; trivial.
Qed.

(** ** Loading a missing block *)

Lemma free_block_spec n i blocks b :
  free_block n i blocks = Some b -> i <= b < i + Z.of_nat n.
Proof.
  revert i; induction n as [|n IH]; intros i; cbn [free_block]; [discriminate|].
  destruct (truth _); [intros [= <-]; lia|]. intros H; apply IH in H; lia.
Qed.

Lemma findVictim_spec c m :
  wf_cache m (m_caches m c) ->
  exists b v, cache_findVictim c m = (Ret (Some b), set_m_nextVictim v m) /\
    0 <= b < num (m_caches m c).
Proof.
  intros W. unfold cache_findVictim, get_cache. rewrite bind_gets.
  destruct (free_block _ _ _) as [b|] eqn:E.
  - exists b, (m_nextVictim m). split; [destruct m; reflexivity|].
    apply free_block_spec in E. unfold num; lia.
  - pose proof (wc_num _ _ W) as Hn.
    replace (0 <? ca_blockNum (m_caches m c))%nat with true by (symmetry; apply Nat.ltb_lt; trivial).
    rewrite bind_gets, bind_modify. do 2 eexists. split; [reflexivity|].
    unfold num. apply Z.mod_pos_bound. lia.
Qed.

Lemma cache_ok_victim c v m : cache_ok c m -> cache_ok c (set_m_nextVictim v m).
Proof.
  intros [Wb W Co]. constructor; [destruct Wb; constructor; trivial| |trivial].
  apply (wf_cache_frame m); trivial.
Qed.

(** The octas of RAM are seen as before. *)
Definition same_view (c : side) (m m' : machine) : Prop :=
  forall a, octa_addr a -> ram_addr m a -> view c m' a = view c m a.

Lemma lookup_block_tags k k' a :
  ca_blockNum k' = ca_blockNum k -> ca_tagMask k' = ca_tagMask k ->
  (forall x, cb_tag (ca_blocks k' x) = cb_tag (ca_blocks k x)) ->
  lookup_block k' a = lookup_block k a.
Proof.
  intros En Em Et. unfold lookup_block. rewrite En, Em. clear En Em. generalize 0.
  induction (ca_blockNum k) as [|n IH]; intros i; cbn [cache_search]; [trivial|].
  rewrite Et, IH. reflexivity.
Qed.

(** Writing a block back does not change the view. *)
Lemma flush_view c b flags m m' :
  cache_ok c m -> 0 <= b < num (m_caches m c) ->
  cache_flushBlock c b flags m = (Ret tt, m') -> same_view c m m'.
Proof.
  intros HO Hb E. destruct (cache_flushBlock_spec c b flags m HO Hb) as
    (m1 & E1 & HO1 & F & _ & Hx & Hn & _ & HM). rewrite E1 in E. injection E as <-.
  destruct HO as [Wb W Co], HO1 as [Wb1 W1 Co1].
  intros a Ha Hr. unfold view, view_of.
  rewrite (lookup_block_tags (m_caches m c) (m_caches m1 c)).
  - pose proof (lookup_block_spec m _ a Wb W (proj1 Ha)) as HL.
    assert (a < 2 ^ 63) by (unfold ram_addr in Hr; destruct Wb as [[? _] _ _ _]; lia).
    destruct (lookup_block (m_caches m c) a) as [x|].
    + destruct (Hx x) as [_ ->]. reflexivity.
    + rewrite HM by trivial. destruct (Z.eqb_spec (align32 a) (cb_tag (ca_blocks (m_caches m c) b))) as [Et|].
      * destruct (HL ltac:(trivial) b Hb). congruence.
      * rewrite andb_false_r. reflexivity.
  - apply Nat2Z.inj. exact Hn.
  - rewrite (wc_mask _ _ W), (wc_mask _ _ W1). reflexivity.
  - intros x. apply Hx.
Qed.

(** Block [b] caches the address [a]. *)
Definition cached (k : sCache) (b a : Z) : Prop :=
  0 <= b < num k /\ cb_tag (ca_blocks k b) = align32 a.

Lemma ram_addr_low m a : wf_bus m -> ram_addr m a -> is_octa a /\ a < 2 ^ 63 /\ align32 a <> MSB 64.
Proof.
  intros W Ha. destruct (align32_addr m a W Ha) as (_ & Hr & _). destruct W as [[? _] _ _ _].
  unfold ram_addr in *. change (MSB 64) with (2 ^ 63). unfold is_word. lia.
Qed.

Lemma cached_inj m k a b b' :
  wf_bus m -> wf_cache m k -> ram_addr m a -> cached k b a -> cached k b' a -> b = b'.
Proof.
  intros Wb W Ha [Hb Et] [Hb' Et']. destruct (ram_addr_low m a Wb Ha) as (_ & _ & Hn).
  apply (wc_inj m k W); congruence.
Qed.

Lemma lookup_cached m k a b :
  wf_bus m -> wf_cache m k -> ram_addr m a -> lookup_block k a = Some b <-> cached k b a.
Proof.
  intros Wb W Ha. destruct (ram_addr_low m a Wb Ha) as (Ho & Hl & _). split.
  - intros E. pose proof (lookup_block_spec m k a Wb W Ho Hl) as H. rewrite E in H. exact H.
  - intros [? ?]. eapply lookup_block_unique; eauto.
Qed.

Lemma lookup_none m k a :
  wf_bus m -> wf_cache m k -> ram_addr m a ->
  lookup_block k a = None <-> forall b, ~ cached k b a.
Proof.
  intros Wb W Ha. split.
  - intros E b Hc. apply (lookup_cached m) in Hc; trivial. congruence.
  - intros H. destruct (lookup_block k a) as [b|] eqn:E; [|trivial].
    apply (lookup_cached m) in E; trivial. destruct (H b E).
Qed.

Lemma block_addr a : octa_addr a -> a = align32 a + 8 * (a mod 32 / 8).
Proof. intros [_ H]. unfold align32. Z.div_mod_to_equations; lia. Qed.

(** The victim [b], which is clean, now holds the block of [a], which was not cached. *)
Section Filled.
Context (c : side) (b a : Z) (m m' : machine).
Let k := m_caches m c.
Let k' := m_caches m' c.
Context (HO : cache_ok c m) (Ha : ram_addr m a) (Hb : 0 <= b < num k)
  (HN : lookup_block k a = None) (Hclean : cb_dirty (ca_blocks k b) = false)
  (HF : filling c b (align32 a) m 4 m').

Definition forget_last (b : Z) (k : sCache) : sCache :=
  if decide (ca_lastBlock k = Some b) then set_ca_lastAddr (MSB 64) k else k.

Lemma forget_blocks q :
  ca_blocks (forget_last b q) = ca_blocks q /\ num (forget_last b q) = num q /\
  ca_blockNum (forget_last b q) = ca_blockNum q /\ ca_blockSize (forget_last b q) = ca_blockSize q /\
  ca_tagMask (forget_last b q) = ca_tagMask q.
Proof. unfold forget_last. case_decide; auto. Qed.

Lemma filled_cached x y :
  cached (forget_last b k') y x <->
  (y = b /\ align32 x = align32 a) \/ (y <> b /\ cached k y x).
Proof.
  destruct (forget_blocks k') as (Eb & En & _). destruct HF as [_ _ _ _ OB Et _ _ _].
  assert (Enk : num k' = num k) by (unfold num; f_equal; apply OB).
  unfold cached. rewrite En, Eb, Enk. destruct (Z.eq_dec y b) as [->|Hy].
  - fold k' in Et. rewrite Et. intuition congruence.
  - fold k' in OB. rewrite (ob_other _ _ _ OB) by trivial. fold k. tauto.
Qed.

Lemma filled_wf : wf_cache m (forget_last b k').
Proof.
  destruct (forget_blocks k') as (Eb & En & En' & Es & Em). destruct HO as [Wb W Co].
  destruct HF as [_ _ _ _ OB Et _ _ Hoc]. fold k in W, OB. fold k' in OB, Et, Hoc.
  assert (Enk : num k' = num k) by (unfold num; f_equal; apply OB).
  pose proof (proj1 (lookup_none m k a Wb W Ha) HN) as HT. unfold cached in HT.
  destruct (align32_addr m a Wb Ha) as (Ht & Hrt & _).
  constructor; rewrite ?En', ?Es, ?Em, ?En, ?Eb, ?Enk.
  - rewrite (ob_num _ _ _ OB). apply (wc_num m k W).
  - rewrite (ob_size _ _ _ OB). apply (wc_size m k W).
  - rewrite (ob_mask _ _ _ OB). apply (wc_mask m k W).
  - intros x Hx. destruct (Z.eq_dec x b) as [->|].
    + split; [right; rewrite Et; auto|trivial].
    + rewrite (ob_other _ _ _ OB) by trivial. apply W; trivial.
  - intros x y Hx Hy. destruct (Z.eq_dec x b) as [->|], (Z.eq_dec y b) as [->|]; trivial;
      rewrite ?Et, ?(ob_other _ _ _ OB) by trivial.
    + intros E _. destruct (HT y). auto.
    + intros E _. destruct (HT x). auto.
    + apply (wc_inj m k W); trivial.
  - unfold forget_last. case_decide as HD; [left; reflexivity|].
    rewrite (ob_lastA _ _ _ OB), (ob_lastB _ _ _ OB) in *.
    destruct (wc_last m k W) as [?|(x & Ex & Hx & Hxo & Hxt)]; [left; trivial|].
    right. exists x. do 3 (split; [trivial|]).
    rewrite (ob_other _ _ _ OB) by congruence. trivial.
Qed.

Lemma filled_view x :
  octa_addr x -> ram_addr m x -> view_of (forget_last b k') (mem m) x = view_of k (mem m) x.
Proof.
  intros Hx Hxr. destruct (forget_blocks k') as (Eb & _). destruct HO as [Wb W Co].
  destruct HF as [_ _ _ HM OB Et _ Hd _]. fold k in W, OB, Co. fold k' in OB, Et, Hd.
  pose proof (proj1 (lookup_none m k a Wb W Ha) HN) as HT.
  pose proof filled_wf as W2.
  destruct (ram_addr_low m x Wb Hxr) as (_ & _ & Hn).
  assert (Hxb : forall q y, cached q y x -> cb_tag (ca_blocks q y) <> MSB 64)
    by (unfold cached; intros ? ? [_ ->]; trivial).
  unfold view_of. destruct (lookup_block k x) as [y|] eqn:Ly.
  - apply (lookup_cached m) in Ly; trivial. destruct (Z.eq_dec y b) as [->|Hy].
    + rewrite (proj2 (lookup_none m (forget_last b k') x Wb W2 Hxr)).
      * rewrite (Co b Hb (Hxb k b Ly) Hclean) by apply octa_index.
        destruct Ly as [_ ->]. f_equal. apply block_addr; trivial.
      * intros z Hz. apply filled_cached in Hz as [[-> Ez]|[Hz Cz]].
        -- apply (HT b). destruct Ly. split; congruence.
        -- apply Hz. apply (cached_inj m k x z b Wb W Hxr Cz Ly).
    + rewrite (proj2 (lookup_cached m (forget_last b k') x y Wb W2 Hxr)).
      * rewrite Eb, (ob_other _ _ _ OB) by trivial. reflexivity.
      * apply filled_cached. tauto.
  - pose proof (proj1 (lookup_none m k x Wb W Hxr) Ly) as HTx.
    destruct (Z.eq_dec (align32 x) (align32 a)) as [Ex|Ex].
    + rewrite (proj2 (lookup_cached m (forget_last b k') x b Wb W2 Hxr)) by
        (apply filled_cached; tauto).
      rewrite Eb, Hd by apply octa_index. f_equal. rewrite (block_addr x Hx) at 2. congruence.
    + rewrite (proj2 (lookup_none m (forget_last b k') x Wb W2 Hxr)); [trivial|].
      intros z Hz. apply filled_cached in Hz as [[_ ?]|[_ Hz]]; [contradiction|]. destruct (HTx z Hz).
Qed.

Lemma filled_ok :
  let m2 := with_cache c (forget_last b k') m' in
  cache_ok c m2 /\ side_frame c m m2 /\ same_view c m m2 /\
  lookup_block (m_caches m2 c) a = Some b.
Proof.
  intros m2. destruct (forget_blocks k') as (Eb & En & _). destruct (HO) as [Wb W Co].
  destruct (HF) as [Wb' F _ HM OB Et _ Hd _]. fold k in W, Co, OB. fold k' in OB, Et, Hd.
  assert (Ek : m_caches m2 c = forget_last b k') by apply caches_with_cache.
  assert (Enk : num k' = num k) by (unfold num; f_equal; apply OB).
  csplit; rewrite ?Ek.
  - constructor; rewrite ?Ek; [apply wf_bus_with_cache; trivial| |].
    + apply (wf_cache_frame m); [apply core_cfg, F|apply filled_wf].
    + intros x. rewrite En, Eb, Enk. change (mem m2) with (mem m'). intros Hx Hv Hc i Hi. rewrite HM.
      destruct (Z.eq_dec x b) as [->|]; [rewrite Et; apply Hd; lia|].
      rewrite (ob_other _ _ _ OB) in * by trivial. apply Co; trivial.
  - etransitivity; [exact F|apply with_cache_frame].
  - intros x Hx Hxr. unfold view. rewrite Ek. change (mem m2) with (mem m').
    fold k. rewrite <- (filled_view x Hx Hxr). unfold view_of. rewrite HM. reflexivity.
  - apply (lookup_cached m); trivial; [apply filled_wf|]. apply filled_cached. tauto.
Qed.
End Filled.

Lemma same_view_trans c m1 m2 m3 :
  m_cfg m2 = m_cfg m1 -> same_view c m1 m2 -> same_view c m2 m3 -> same_view c m1 m3.
Proof.
  intros E H1 H2 a Ha Hr. rewrite H2, H1; trivial. unfold ram_addr. rewrite E. trivial.
Qed.

Lemma flush_if_dirty c b flags m m' :
  cache_flushBlock c b flags m = (Ret tt, m') ->
  when (cb_dirty (ca_blocks (m_caches m c) b)) (cache_flushBlock c b flags) m = (Ret tt, m').
Proof.
  intros E. destruct (cb_dirty (ca_blocks (m_caches m c) b)) eqn:Ed; [exact E|].
  revert E. unfold cache_flushBlock, get_cache. rewrite bind_gets, Ed. trivial.
Qed.

Lemma lookup_same_tags c m m' a :
  cache_ok c m -> cache_ok c m' ->
  ca_blockNum (m_caches m' c) = ca_blockNum (m_caches m c) ->
  (forall x, cb_tag (ca_blocks (m_caches m' c) x) = cb_tag (ca_blocks (m_caches m c) x)) ->
  lookup_block (m_caches m' c) a = lookup_block (m_caches m c) a.
Proof.
  intros HO HO' Hn Ht. apply lookup_block_tags; trivial.
  rewrite (wc_mask _ _ (co_cache c m' HO')), (wc_mask _ _ (co_cache c m HO)). reflexivity.
Qed.

(** Loading the block of an address that is not cached. *)
Lemma cache_load_spec c a flags m :
  cache_ok c m -> ram_addr m a -> lookup_block (m_caches m c) a = None ->
  has_flag flags MEM_UNINITIALIZED = false ->
  exists b m', cache_load c a flags m = (Ret (Some b), m') /\
    cache_ok c m' /\ side_frame c m m' /\ same_view c m m' /\
    lookup_block (m_caches m' c) a = Some b.
Proof.
  intros HO Ha HN Hfl. unfold cache_load, get_cache. rewrite bind_gets.
  destruct (findVictim_spec c m (co_cache c m HO)) as (b & v & E & Hb).
  rewrite (bind_ret _ _ _ _ _ E). set (m1 := set_m_nextVictim v m).
  assert (HO1 : cache_ok c m1) by (apply cache_ok_victim; trivial).
  unfold get_block. rewrite bind_gets, Hfl. cbn [negb].
  destruct (cache_flushBlock_spec c b flags m1 HO1 Hb)
    as (m2 & E2 & HO2 & F2 & Hcl & Ht & Hn & _ & HM).
  pose proof (flush_view c b flags m1 m2 HO1 Hb E2) as V2.
  rewrite (bind_ret _ _ _ _ _ (flush_if_dirty _ _ _ _ _ E2)).
  assert (Ha2 : ram_addr m2 a) by (unfold ram_addr; rewrite (core_cfg _ _ (proj1 F2)); exact Ha).
  assert (HN2 : lookup_block (m_caches m2 c) a = None).
  { rewrite (lookup_same_tags c m1 m2); trivial; [apply Nat2Z.inj; exact Hn|apply Ht]. }
  assert (Hb2 : 0 <= b < num (m_caches m2 c)) by (rewrite Hn; exact Hb).
  destruct (cache_fill_spec c b a flags m2 HO2 Ha2 Hb2) as (m3 & E3 & Hf).
  rewrite (bind_ret _ _ _ _ _ E3), (bind_ret _ _ _ _ _ (on_cache_eq _ _ _)).
  destruct (filled_ok c b a m2 m3 HO2 Ha2 Hb2 HN2 Hcl Hf) as (HO4 & F4 & V4 & L4).
  do 2 eexists. split; [reflexivity|]. fold (forget_last b). csplit; trivial.
  - etransitivity; [|exact F4]. etransitivity; [|exact F2]. split; reflexivity.
  - eapply same_view_trans; [apply (core_cfg m1 m2 (proj1 F2))|exact V2|exact V4].
Qed.

Lemma cache_get_spec c a flags w m :
  cache_ok c m -> ram_addr m a -> has_flag flags MEM_UNINITIALIZED = false ->
  exists m', cache_get c a flags w m = (Ret (lookup_block (m_caches m' c) a), m') /\
    cache_ok c m' /\ side_frame c m m' /\ same_view c m m'.
Proof.
  intros HO Ha Hfl. destruct (ram_addr_low m a (co_bus c m HO) Ha) as (Ho & Hl & _).
  destruct (cache_find_spec c a m HO Ho Hl) as (m1 & E1 & HO1 & F1 & Er & Eb & En).
  unfold cache_get. rewrite (bind_ret _ _ _ _ _ E1).
  destruct (fire_when (has_flag flags MEM_SIDE_EFFECTS) (EV_CACHE_LOOKUP c a) m1) as (l & E2).
  rewrite (bind_ret _ _ _ _ _ E2). set (m2 := with_log l m1) in *.
  assert (HO2 : cache_ok c m2) by (apply cache_ok_log; trivial).
  assert (F2 : side_frame c m m2) by (etransitivity; [exact F1|apply with_log_frame]).
  assert (EL : forall x, lookup_block (m_caches m2 c) x = lookup_block (m_caches m c) x).
  { intros x. change (m_caches m2) with (m_caches m1). apply lookup_same_tags; trivial.
    intros y. rewrite Eb. reflexivity. }
  assert (V2 : same_view c m m2).
  { intros x _ _. unfold view, view_of. rewrite EL. change (m_caches m2) with (m_caches m1).
    rewrite Eb. unfold mem. change (m_ram m2) with (m_ram m1). rewrite Er. reflexivity. }
  rewrite <- EL. destruct (lookup_block (m_caches m2 c) a) as [b|] eqn:El.
  { exists m2. rewrite El. csplit; trivial. }
  case_match; [|exists m2; rewrite El; csplit; trivial].
  assert (Ha2 : ram_addr m2 a) by (unfold ram_addr; rewrite (core_cfg _ _ (proj1 F2)); exact Ha).
  destruct (cache_load_spec c a flags m2 HO2 Ha2 El Hfl) as (b & m3 & E3 & HO3 & F3 & V3 & L3).
  exists m3. rewrite L3. csplit; trivial; [etransitivity; eauto|].
  eapply same_view_trans; [apply core_cfg, (proj1 F2)|exact V2|exact V3].
Qed.

Lemma low_addr m a : wf_bus m -> ram_addr m a -> (DEV_START_ADDR <=? a) = false.
Proof. intros [[? _] _ _ _] Ha. unfold ram_addr in Ha. apply Z.leb_gt. lia. Qed.

(** All addresses of a block are found in the same place. *)
Lemma lookup_align m k a b :
  wf_bus m -> wf_cache m k -> is_octa a -> is_octa b -> align32 a = align32 b ->
  lookup_block k a = lookup_block k b.
Proof.
  intros Wb W Ha Hb E. unfold lookup_block. rewrite (wc_mask m k W).
  assert (HB : forall x, 0 <= x < 0 + num k -> wf_block m (ca_blocks k x)) by apply W.
  revert HB. unfold num. generalize 0. induction (ca_blockNum k) as [|n IH]; intros i HB; cbn [cache_search]; [trivial|].
  assert (is_octa (cb_tag (ca_blocks k i))) by (apply (wf_block_octa m); [|apply HB]; trivial; lia).
  rewrite !tag_match, E, IH by (trivial; intros; apply HB; lia). reflexivity.
Qed.

Lemma align8_block a :
  align32 (align8 a) = align32 a /\ align8 a mod 32 / 8 = a mod 32 / 8.
Proof. unfold align32, align8. Z.div_mod_to_equations; lia. Qed.

(** Reading through a cache gives the octa the cache shows. *)
Lemma cache_read_spec c a flags m :
  cache_ok c m -> ram_addr m a -> has_flag flags MEM_UNINITIALIZED = false ->
  exists m', cache_read c a flags m = (Ret (view c m (align8 a)), m') /\
    cache_ok c m' /\ side_frame c m m' /\ same_view c m m'.
Proof.
  intros HO Ha Hfl. pose proof (co_bus c m HO) as Wb. unfold cache_read.
  rewrite (low_addr m a Wb Ha).
  destruct (cache_get_spec c a flags false m HO Ha Hfl) as (m1 & E1 & HO1 & F1 & V1).
  rewrite (bind_ret _ _ _ _ _ E1). destruct (align8_addr m a Wb Ha) as [HA8 HR8].
  pose proof (ram_addr_octa m a Wb Ha) as Hoa.
  rewrite <- (V1 (align8 a) HA8 HR8). unfold view at 1, view_of.
  assert (EA : lookup_block (m_caches m1 c) (align8 a) = lookup_block (m_caches m1 c) a)
    by (apply (lookup_align m1); trivial; [apply HO1|apply HO1|apply HA8|apply align8_block]).
  rewrite EA. destruct (lookup_block (m_caches m1 c) a) as [b|].
  - unfold get_cache. rewrite bind_gets. exists m1. csplit; trivial.
    unfold mret, M_ret. rewrite (block_index_eq m1 _ a (co_cache c m1 HO1) Hoa).
    rewrite (proj2 (align8_block a)). reflexivity.
  - assert (Ha1 : ram_addr m1 a) by (unfold ram_addr; rewrite (core_cfg _ _ (proj1 F1)); exact Ha).
    destruct (bus_read_ram a (has_flag flags MEM_SIDE_EFFECTS) m1 (co_bus c m1 HO1) Ha1)
      as (s & l & E2 & Wb2 & HM).
    rewrite E2. eexists; split; [reflexivity|].
    assert (HO2 : cache_ok c (with_mem s l m1)).
    { destruct HO1 as [? ? Co]. constructor; [trivial|apply (wf_cache_frame m1); trivial|].
      intros x Hx Hv Hc i Hi. rewrite HM. apply Co; trivial. }
    csplit; trivial.
    intros x Hx Hr. rewrite <- V1 by trivial. unfold view, view_of.
    rewrite caches_with_mem, HM. reflexivity.
Qed.

(** Writing through a cache changes the octa it shows, and nothing else. *)
Definition view_updated (c : side) (a v : Z) (m m' : machine) : Prop :=
  forall x, octa_addr x -> ram_addr m x -> view c m' x = if x =? a then v else view c m x.

Lemma write_hit c b a v m :
  cache_ok c m -> octa_addr a -> ram_addr m a -> is_octa v -> cached (m_caches m c) b a ->
  let k := m_caches m c in
  let blk := ca_blocks k b in
  let m' := with_cache c (put_block b (set_cb_dirty true
              (set_cb_data (upd (cb_data blk) (a mod 32 / 8) v) blk)) k) m in
  cache_ok c m' /\ view_updated c a v m m'.
Proof.
  intros [Wb W Co] Ha Hr Hv [Hb Et] k blk m'. fold k in W, Co, Hb, Et. fold blk in Et.
  set (blk' := set_cb_dirty true _) in m'.
  assert (Ek : m_caches m' c = put_block b blk' k) by apply caches_with_cache.
  destruct (ram_addr_low m a Wb Hr) as (_ & _ & Hn).
  assert (W' : wf_cache m (put_block b blk' k)).
  { apply wf_put_block; trivial.
    - destruct (wc_block m k W b Hb) as [Hblk Hd]. fold blk in Hblk, Hd.
      split; [destruct Hblk as [[? _]|?]; [congruence|right; trivial]|].
      intros i. cbn. unfold upd. destruct (i =? _); trivial.
    - intros b' Hb' Hne E. destruct Hne. apply (wc_inj m k W); trivial. rewrite E. cbn. congruence.
    - right; right. reflexivity. }
  split.
  - constructor; rewrite ?Ek; [apply wf_bus_with_cache; trivial|apply (wf_cache_frame m); trivial|].
    intros x Hx. destruct (Z.eq_dec x b) as [->|]; [rewrite put_block_same; discriminate|].
    rewrite put_block_other by trivial. apply Co; trivial.
  - intros x Hx Hxr. unfold view, view_of. rewrite Ek. fold k. change (mem m' x) with (mem m x).
    rewrite (lookup_block_tags k (put_block b blk' k)); trivial.
    2: { intros y. destruct (Z.eq_dec y b) as [->|];
         [rewrite put_block_same|rewrite put_block_other by trivial]; reflexivity. }
    pose proof (fun y => lookup_cached m k x y Wb W Hxr) as HL.
    rewrite (block_addr a Ha). rewrite (block_octa_eq (align32 a) (a mod 32 / 8) x);
      [|unfold align32; Z.div_mod_to_equations; lia|apply octa_index|trivial].
    destruct (lookup_block k x) as [y|].
    + specialize (proj1 (HL y) eq_refl) as [Hy Ey].
      destruct (Z.eq_dec y b) as [->|Hyb]; [rewrite put_block_same|rewrite put_block_other by trivial].
      * replace (align32 x =? align32 a) with true by (symmetry; apply Z.eqb_eq; unfold blk in Et; congruence).
        cbn. unfold upd. destruct (x mod 32 / 8 =? a mod 32 / 8); reflexivity.
      * destruct (Z.eqb_spec (align32 x) (align32 a)) as [E|]; [|reflexivity].
        destruct Hyb. apply (cached_inj m k a y b Wb W Hr); split; trivial. congruence.
    + destruct (Z.eqb_spec (align32 x) (align32 a)) as [E|]; [|reflexivity].
      specialize (proj2 (HL b)) as H. discriminate H. split; [trivial|]. unfold blk in Et. congruence.
Qed.

Lemma view_updated_after c a v m m1 m' :
  m_cfg m1 = m_cfg m -> same_view c m m1 -> view_updated c a v m1 m' -> view_updated c a v m m'.
Proof.
  intros E H1 H2 x Hx Hr. rewrite H2, H1; trivial. unfold ram_addr. rewrite E. trivial.
Qed.

(** A write that misses and is uncached goes to the memory. *)
Lemma write_miss c a v s l m :
  cache_ok c m -> octa_addr a -> ram_addr m a -> lookup_block (m_caches m c) a = None ->
  wf_bus (with_mem s l m) ->
  (forall b, octa_addr b -> mem (with_mem s l m) b = if b =? a then v else mem m b) ->
  cache_ok c (with_mem s l m) /\ view_updated c a v m (with_mem s l m).
Proof.
  intros [Wb W Co] Ha Hr HN Wb2 HM.
  pose proof (proj1 (lookup_none m _ a Wb W Hr) HN) as HT.
  split; [constructor; [trivial|apply (wf_cache_frame m); trivial|]|].
  - intros x Hx Hv Hc i Hi. change (m_caches (with_mem s l m)) with (m_caches m) in *.
    destruct (wc_block m _ W x Hx) as [[[? _]|[Ht Hrt]] _]; [contradiction|].
    destruct (block_octa m _ i Wb Ht Hrt Hi) as (_ & _ & Hoi).
    rewrite HM by trivial. destruct (Z.eqb_spec (cb_tag (ca_blocks (m_caches m c) x) + 8 * i) a) as [E|].
    + destruct (HT x). split; [trivial|]. rewrite <- E. unfold align32. Z.div_mod_to_equations; lia.
    + apply Co; trivial.
  - intros x Hx Hxr. unfold view, view_of. rewrite caches_with_mem.
    destruct (lookup_block (m_caches m c) x) as [y|] eqn:El; [|apply HM; trivial].
    destruct (Z.eqb_spec x a) as [->|]; [congruence|reflexivity].
Qed.

Lemma lookup_align8 m a c :
  cache_ok c m -> ram_addr m a ->
  lookup_block (m_caches m c) (align8 a) = lookup_block (m_caches m c) a.
Proof.
  intros [Wb W _] Ha. apply (lookup_align m); trivial;
    [apply (align8_addr m a Wb Ha)|eapply ram_addr_octa; eauto|apply align8_block].
Qed.

Lemma cache_write_spec c a v flags m :
  cache_ok c m -> ram_addr m a -> is_octa v -> has_flag flags MEM_UNINITIALIZED = false ->
  exists m', cache_write c a v flags m = (Ret tt, m') /\
    cache_ok c m' /\ side_frame c m m' /\ view_updated c (align8 a) v m m'.
Proof.
  intros HO Hr Hv Hfl. unfold cache_write. rewrite (low_addr m a (co_bus c m HO) Hr).
  destruct (cache_get_spec c a flags true m HO Hr Hfl) as (m1 & E1 & HO1 & F1 & V1).
  rewrite (bind_ret _ _ _ _ _ E1). pose proof (core_cfg _ _ (proj1 F1)) as Ec.
  assert (Hr1 : ram_addr m1 a) by (unfold ram_addr; rewrite Ec; exact Hr).
  destruct (align8_addr m1 a (co_bus c m1 HO1) Hr1) as [Ha8 Hr8].
  rewrite <- (lookup_align8 m1 a c HO1 Hr1).
  destruct (lookup_block (m_caches m1 c) (align8 a)) as [b|] eqn:El.
  - apply (lookup_cached m1) in El; trivial; [|apply HO1|apply HO1].
    unfold get_cache. rewrite bind_gets, on_block_eq.
    rewrite (block_index_eq m1 _ a (co_cache c m1 HO1) (ram_addr_octa m1 a (co_bus c m1 HO1) Hr1)).
    destruct (write_hit c b (align8 a) v m1 HO1 Ha8 Hr8 Hv El) as [HO2 V2].
    rewrite (proj2 (align8_block a)) in HO2, V2.
    eexists; split; [reflexivity|]. csplit; trivial; [|eapply view_updated_after; eauto].
    etransitivity; [exact F1|apply with_cache_frame].
  - destruct (bus_write_ram a v (has_flag flags MEM_SIDE_EFFECTS) m1 (co_bus c m1 HO1) Hr1 Hv)
      as (s & l & E2 & Wb2 & HM).
    destruct (write_miss c (align8 a) v s l m1 HO1 Ha8 Hr8 El Wb2 HM) as [HO2 V2].
    rewrite E2. eexists; split; [reflexivity|]. csplit; trivial. eapply view_updated_after; eauto.
Qed.

Lemma view_octa c a m : cache_ok c m -> ram_addr m a -> is_octa (view c m a).
Proof.
  intros [Wb W Co] Ha. unfold view, view_of. pose proof (lookup_cached m (m_caches m c) a) as HL.
  destruct (lookup_block (m_caches m c) a) as [b|]; [|apply mem_octa; trivial].
  destruct (proj1 (HL b Wb W Ha) eq_refl) as [Hb _]. apply (wc_block m _ W b Hb).
Qed.

(** A write-back, write-allocate cache in front of the bus is a flat memory again. *)
#[export] Instance cache_memory c flags :
  has_flag flags MEM_UNINITIALIZED = false ->
  FlatMemory (cache_ok c) ram_addr (view c) core
    (fun a => cache_read c a flags) (fun a v => cache_write c a v flags).
Proof.
  intros Hfl. split.
  - intros a m HO Hr. apply view_octa; [trivial|]. apply align8_addr; [apply HO|trivial].
  - intros a m HO Hr. destruct (cache_read_spec c a flags m HO Hr Hfl) as (m' & E & HO' & F & V).
    exists m'. csplit; trivial; [apply F|].
    intros b Hbr. unfold ram_addr. rewrite (core_cfg _ _ (proj1 F)). auto.
  - intros a v m HO Hr Hv.
    destruct (cache_write_spec c a v flags m HO Hr Hv Hfl) as (m' & E & HO' & F & V).
    exists m'. csplit; trivial; [apply F|].
    intros b Hbr. unfold ram_addr. rewrite (core_cfg _ _ (proj1 F)). auto.
Qed.

(** ** Flushing *)

Lemma flushBlock_keeps_clean c b flags m m' :
  cache_ok c m -> 0 <= b < num (m_caches m c) ->
  cache_flushBlock c b flags m = (Ret tt, m') -> forall x,
  cb_dirty (ca_blocks (m_caches m c) x) = false -> cb_dirty (ca_blocks (m_caches m' c) x) = false.
Proof.
  intros [Wb W Co] Hb E x Hx. revert E. unfold cache_flushBlock, get_cache. rewrite bind_gets.
  destruct (cb_dirty (ca_blocks (m_caches m c) b)) eqn:Ed; [|intros [= <-]; trivial].
  unfold when at 1. rewrite (wc_size m _ W). change (Z.to_nat (32 / 8)) with 4%nat.
  destruct (wc_block m _ W b Hb) as [[[_ ?]|[Ht Hr]] Hd]; [congruence|].
  destruct (write_back m _ _ (has_flag flags MEM_SIDE_EFFECTS) Wb Ht Hr Hd) as (s & l & E & _).
  rewrite (bind_ret _ _ _ _ _ E), (bind_ret _ _ _ _ _ (on_block_eq _ _ _ _)).
  set (m1 := with_cache _ _ _).
  destruct (fire_when (has_flag flags MEM_SIDE_EFFECTS)
              (EV_CACHE_FLUSH c (cb_tag (ca_blocks (m_caches m c) b) +o 32)) m1) as (l' & ->).
  intros [= <-]. change (m_caches (with_log l' m1)) with (m_caches m1). unfold m1.
  rewrite caches_with_cache. destruct (Z.eq_dec x b) as [->|];
    [rewrite put_block_same; reflexivity|rewrite put_block_other; trivial].
Qed.

Lemma cache_flushAll_spec c m :
  cache_ok c m ->
  exists m', cache_flushAll c m = (Ret tt, m') /\ cache_ok c m' /\ side_frame c m m' /\
    same_view c m m' /\
    forall b, 0 <= b < num (m_caches m' c) -> cb_dirty (ca_blocks (m_caches m' c) b) = false.
Proof.
  intros HO. unfold cache_flushAll, get_cache. rewrite bind_gets.
  destruct (for_m_inv (fun i m' => cache_ok c m' /\ side_frame c m m' /\ same_view c m m' /\
      num (m_caches m' c) = num (m_caches m c) /\
      forall b, 0 <= b < i -> cb_dirty (ca_blocks (m_caches m' c) b) = false)
      (ca_blockNum (m_caches m c)) 0 (fun b => cache_flushBlock c b MEM_SIDE_EFFECTS) m)
    as (m' & E & HO' & F & V & En & Hcl).
  - csplit; trivial; [reflexivity|intros a _ _; reflexivity|intros; lia].
  - intros i m1 Hi (HO1 & F1 & V1 & En & Hcl).
    assert (Hb : 0 <= i < num (m_caches m1 c)) by (rewrite En; unfold num; lia).
    destruct (cache_flushBlock_spec c i MEM_SIDE_EFFECTS m1 HO1 Hb)
      as (m2 & E2 & HO2 & F2 & Hc2 & _ & Hn2 & _ & _).
    pose proof (flush_view c i MEM_SIDE_EFFECTS m1 m2 HO1 Hb E2) as V2.
    exists m2. split; [trivial|]. csplit; trivial.
    + etransitivity; eauto.
    + eapply same_view_trans; [apply core_cfg, (proj1 F1)|eauto..].
    + congruence.
    + intros b Hbi. destruct (Z.eq_dec b i) as [->|]; [trivial|].
      apply (flushBlock_keeps_clean c i MEM_SIDE_EFFECTS m1 m2 HO1 Hb E2). apply Hcl; lia.
  - exists m'. csplit; trivial. intros b Hb. apply Hcl. rewrite En in Hb. unfold num in Hb. lia.
Qed.

(** In a clean cache the memory is what the cache shows. *)
Lemma clean_view c m a :
  cache_ok c m -> octa_addr a -> ram_addr m a ->
  (forall b, 0 <= b < num (m_caches m c) -> cb_dirty (ca_blocks (m_caches m c) b) = false) ->
  mem m a = view c m a.
Proof.
  intros [Wb W Co] Ha Hr Hcl. unfold view, view_of.
  destruct (lookup_block (m_caches m c) a) as [b|] eqn:E; [|trivial].
  apply (lookup_cached m) in E as [Hb Et]; trivial.
  destruct (ram_addr_low m a Wb Hr) as (_ & _ & Hn).
  rewrite (Co b Hb) by (try (rewrite Et; trivial); try apply Hcl; trivial; apply octa_index).
  rewrite Et. f_equal. apply block_addr; trivial.
Qed.

(** ** Memory that does not exist *)

Lemma cache_search_finds n i blocks mask a b :
  i <= b < i + Z.of_nat n -> (cb_tag (blocks b) .^ a) .& mask = 0 ->
  exists b', cache_search n i blocks mask a = Some b'.
Proof.
  revert i; induction n as [|n IH]; intros i Hb E; [lia|]. cbn [cache_search].
  destruct (Z.eqb_spec ((cb_tag (blocks i) .^ a) .& mask) 0); [eauto|].
  apply IH; [|trivial]. destruct (Z.eq_dec b i) as [->|]; [contradiction|lia].
Qed.

(** The shortcut of [cache_find] does not apply to an address that is not cached. *)
Lemma last_mismatch c a m :
  cache_ok c m -> is_octa a -> a < 2 ^ 63 -> lookup_block (m_caches m c) a = None ->
  ((ca_lastAddr (m_caches m c) .^ a) .& wrap64 (- CACHE_BLOCK_SIZE) =? 0) = false.
Proof.
  intros [Wb W _] Ha Hlt HN. set (k := m_caches m c) in *.
  destruct (wc_last m k W) as [E|(b & Eb & Hb & HL & Et)].
  - rewrite E, tag_match by (trivial; concrete_word). apply Z.eqb_neq.
    change (align32 (MSB 64)) with (2 ^ 63). unfold align32, is_word in *. Z.div_mod_to_equations; lia.
  - rewrite tag_match by trivial. apply Z.eqb_neq. intros E.
    pose proof (lookup_block_spec m k a Wb W Ha Hlt) as H. rewrite HN in H. apply (H b Hb). congruence.
Qed.

(** A block is filled from an address that no device answers: the tag stays. *)
Lemma cache_fill_fails c b a flags m :
  wf_cache m (m_caches m c) -> is_octa a -> dev_by_addr (m_devices m) (align32 a) = None ->
  let k := m_caches m c in
  cache_fill c b a flags m =
    (Throw EX_DYNAMIC_TRAP TRAP_NONEX_MEMORY,
     with_cache c (put_block b (set_cb_tag (align32 a) (ca_blocks k b)) k) m).
Proof.
  intros W Ha HD k. unfold cache_fill, get_cache. rewrite bind_gets. fold k. fold k in W.
  rewrite (wc_size _ _ W), (wc_mask _ _ W). change (Z.to_nat (32 / 8)) with 4%nat.
  change (wrap64 (- CACHE_BLOCK_SIZE)) with (not64 (2 ^ 5 - 1)).
  rewrite land_not_mask by (trivial; lia). change (a - a mod 2 ^ 5) with (align32 a).
  rewrite (bind_ret _ _ _ _ _ (on_block_eq _ _ _ _)). apply bind_throw. cbn [for_m]. apply bind_throw.
  apply bind_throw. assert (Ho : is_octa (align32 a)) by (unfold align32; dmlia).
  rewrite Z.mul_0_l, Z.add_0_r, (wrap_small 64) by trivial. apply bus_read_unmapped; [trivial|].
  rewrite align8_id; [exact HD|]. split; [trivial|]. unfold align32. dmlia.
Qed.

(** Loading the block of such an address throws, with the tag set; the address found
    last is another one. *)
Lemma cache_load_fails c a m :
  cache_ok c m -> is_octa a -> a < 2 ^ 63 -> lookup_block (m_caches m c) a = None ->
  dev_by_addr (m_devices m) (align32 a) = None ->
  exists b m', cache_load c a MEM_SIDE_EFFECTS m = (Throw EX_DYNAMIC_TRAP TRAP_NONEX_MEMORY, m') /\
    let k := m_caches m' c in
    0 <= b < num k /\ cb_tag (ca_blocks k b) = align32 a /\
    ca_tagMask k = wrap64 (- CACHE_BLOCK_SIZE) /\
    ((ca_lastAddr k .^ a) .& wrap64 (- CACHE_BLOCK_SIZE) =? 0) = false.
Proof.
  intros HO Ha Hlt HN HD. unfold cache_load, get_cache. rewrite bind_gets.
  destruct (findVictim_spec c m (co_cache c m HO)) as (b & v & E & Hb).
  rewrite (bind_ret _ _ _ _ _ E). set (m1 := set_m_nextVictim v m).
  assert (HO1 : cache_ok c m1) by (apply cache_ok_victim; trivial).
  unfold get_block. rewrite bind_gets. change (has_flag MEM_SIDE_EFFECTS MEM_UNINITIALIZED) with false.
  destruct (cache_flushBlock_spec c b MEM_SIDE_EFFECTS m1 HO1 Hb)
    as (m2 & E2 & HO2 & F2 & _ & Ht & Hn & _ & _).
  rewrite (bind_ret _ _ _ _ _ (flush_if_dirty _ _ _ _ _ E2)). cbn [negb].
  assert (HN2 : lookup_block (m_caches m2 c) a = None).
  { rewrite (lookup_same_tags c m1 m2); trivial; [apply Nat2Z.inj; exact Hn|apply Ht]. }
  rewrite (bind_throw _ _ _ _ _ _ (cache_fill_fails c b a MEM_SIDE_EFFECTS m2 (co_cache c m2 HO2) Ha
             ltac:(rewrite (core_devices _ _ (proj1 F2)); exact HD))).
  do 2 eexists. split; [reflexivity|]. cbn zeta. rewrite caches_with_cache, put_block_same.
  csplit; trivial; [apply Hb|change (b < num (m_caches m2 c)); rewrite Hn; apply Hb| |].
  - apply (wc_mask _ _ (co_cache c m2 HO2)).
  - apply (last_mismatch c a m2); trivial.
Qed.

(** ** The initial state *)

(** The simulator with the devices and the caches set up and RAM touched at 0. *)
Definition started : machine :=
  snd ((bus_init None;; cache_init;; bus_read 0 false) (power_on default_config)).

Lemma wf_empty_cache m n : (0 < n)%nat -> wf_cache m (empty_cache n CACHE_BLOCK_SIZE).
Proof.
  intros Hn. constructor; cbn; trivial; [|contradiction|left; trivial].
  intros b _. split; [left; split; trivial|]. intros i; cbn; wordlia.
Qed.

Lemma started_bus : wf_bus started.
Proof.
  assert (E : m_ram started = snd (ram_doRead 0 ram_reset_state)) by reflexivity.
  pose proof (ram_doRead_spec 0 ram_reset_state wf_ram_reset) as H.
  destruct (ram_doRead 0 ram_reset_state) as [v s]; cbn [snd] in E.
  destruct H as (_ & W & _ & L); [split; [concrete_word|reflexivity]|intros _; reflexivity|].
  constructor; rewrite ?E; trivial; [vm_compute; intuition congruence|].
  eexists. vm_compute. reflexivity.
Qed.

Lemma started_ok c : cache_ok c started.
Proof.
  assert (E : exists n, (0 < n)%nat /\ m_caches started c = empty_cache n CACHE_BLOCK_SIZE)
    by (destruct c; eexists; (split; [|reflexivity]); lia).
  destruct E as (n & Hn & E). constructor; rewrite ?E.
  - apply started_bus.
  - apply wf_empty_cache; trivial.
  - intros b _ N. destruct N. reflexivity.
Qed.

Lemma empty_lookup n size a : is_octa a -> a < 2 ^ 63 -> size = CACHE_BLOCK_SIZE ->
  lookup_block (empty_cache n size) a = None.
Proof.
  intros Ha Hl ->. unfold lookup_block. cbn [ca_blockNum ca_blocks ca_tagMask empty_cache].
  set (blocks := fun _ => _). generalize 0.
  induction n as [|n IH]; intros i; cbn [cache_search]; [trivial|]. unfold blocks at 1; cbn [cb_tag].
  rewrite tag_match by (trivial; concrete_word). change (align32 (MSB 64)) with (2 ^ 63).
  replace (2 ^ 63 =? align32 a) with false; [apply IH|]. symmetry. apply Z.eqb_neq.
  unfold align32, is_word in *. Z.div_mod_to_equations; lia.
Qed.

(** Memory starts zeroed. *)
Lemma started_view c a : octa_addr a -> a < 2 ^ 63 -> view c started a = 0.
Proof.
  intros [Ha _] Hl. unfold view, view_of.
  assert (E : exists n, m_caches started c = empty_cache n CACHE_BLOCK_SIZE) by (destruct c; eexists; reflexivity).
  destruct E as [n ->]. rewrite empty_lookup by trivial.
  assert (E : m_ram started = snd (ram_doRead 0 ram_reset_state)) by reflexivity.
  pose proof (ram_doRead_spec 0 ram_reset_state wf_ram_reset) as H.
  destruct (ram_doRead 0 ram_reset_state) as [v s]; cbn [snd] in E.
  destruct H as (_ & _ & R & _); [split; [concrete_word|reflexivity]|intros _; reflexivity|].
  unfold mem. rewrite E, R. reflexivity.
Qed.

Lemma started_addr a : 0 <= a < 0x2000000 -> ram_addr started a.
Proof. intros H. change (ram_addr started a) with (0 <= a < 32 * 1024 * 1024). lia. Qed.

(** ** Properties *)

(** C2: The data cache is transparent: reading through it returns the current octa of
    the flat memory it shows, writing through it changes that octa and no other, and
    the rest of the machine (registers, CPU, translation caches, devices) is
    untouched - whatever is cached, dirty or evicted, and whether the access is
    cached or not. *)
Theorem cache_refines_memory c flags a v m :
  has_flag flags MEM_UNINITIALIZED = false -> cache_ok c m -> ram_addr m a -> is_octa v ->
  (exists m', cache_read c a flags m = (Ret (view c m (align8 a)), m') /\ cache_ok c m' /\
     core m' = core m /\
     forall b, octa_addr b -> ram_addr m b -> view c m' b = view c m b) /\
  (exists m', cache_write c a v flags m = (Ret tt, m') /\ cache_ok c m' /\ core m' = core m /\
     forall b, octa_addr b -> ram_addr m b ->
       view c m' b = if b =? align8 a then v else view c m b).
Proof.
  intros Hfl HO Hd Hv. pose proof (cache_memory c flags Hfl) as FM. split.
  - destruct (fm_read a m HO Hd) as (m' & ? & ? & ? & H). exists m'. csplit; trivial.
    intros b Ho Hb. apply H; trivial.
  - destruct (fm_write a v m HO Hd Hv) as (m' & ? & ? & ? & H). exists m'. csplit; trivial.
    intros b Ho Hb. apply H; trivial.
Qed.

Lemma cache_refines_memory_witness :
  (exists m', cache_read SData 64 MEM_SIDE_EFFECTS started = (Ret 0, m')) /\
  (exists m', cache_write SData 64 (2 ^ 63) MEM_SIDE_EFFECTS started = (Ret tt, m') /\
     view SData m' 64 = 2 ^ 63).
Proof.
  destruct (cache_refines_memory SData MEM_SIDE_EFFECTS 64 (2 ^ 63) started)
    as [(m & E & _) (m' & E' & _ & _ & V)]; [reflexivity|apply started_ok|apply started_addr; lia|concrete_word|].
  split; [exists m; exact E|exists m'; split; [exact E'|]].
  apply (V 64); [split; [concrete_word|reflexivity]|apply started_addr; lia].
Defined.

(** C39: [cache_flushAll] (SYNC 5) on a well-formed cache returns, and changes nothing but the cache and the memory behind it.
    Afterwards the physical memory holds at every RAM address what the cache showed there before, and
    the cache still shows the same. *)
Theorem flushAll_writes_back c m :
  cache_ok c m ->
  exists m', cache_flushAll c m = (Ret tt, m') /\ cache_ok c m' /\ core m' = core m /\
    forall a, octa_addr a -> ram_addr m a -> mem m' a = view c m a /\ view c m' a = view c m a.
Proof.
  intros HO. destruct (cache_flushAll_spec c m HO) as (m' & E & HO' & F & V & Hcl).
  exists m'. csplit; trivial; [apply F|]. intros a Ha Hr.
  assert (Hr' : ram_addr m' a) by (unfold ram_addr; rewrite (core_cfg _ _ (proj1 F)); exact Hr).
  rewrite <- (V a Ha Hr). split; [apply clean_view|]; trivial.
Qed.

Lemma flushAll_writes_back_witness :
  exists m', cache_flushAll SData started = (Ret tt, m') /\ mem m' 64 = 0.
Proof.
  destruct (flushAll_writes_back SData started (started_ok SData)) as (m' & E & _ & _ & V).
  exists m'. split; [exact E|].
  destruct (V 64) as [V1 _]; [split; [concrete_word|reflexivity]|apply started_addr; lia|]. exact V1.
Defined.

(** A read of memory that does not exist poisons the cache: the first access throws
    TRAP_NONEX_MEMORY, but the block has got its tag before the bus was asked, and the
    same access then returns the old contents of the block without an exception. *)
Theorem nonexistent_read_poisons c a m :
  cache_ok c m -> 0 <= a < DEV_START_ADDR -> lookup_block (m_caches m c) a = None ->
  dev_by_addr (m_devices m) (align32 a) = None ->
  exists m1 v m2,
    cache_read c a MEM_SIDE_EFFECTS m = (Throw EX_DYNAMIC_TRAP TRAP_NONEX_MEMORY, m1) /\
    cache_read c a MEM_SIDE_EFFECTS m1 = (Ret v, m2).
Proof.
  intros HO Ha HN HD. assert (Ho : is_octa a) by wordlia.
  assert (EL : (DEV_START_ADDR <=? a) = false) by (apply Z.leb_gt; lia).
  unfold cache_read. rewrite EL. unfold cache_get.
  destruct (cache_find_spec c a m HO Ho ltac:(lia)) as (m1 & E1 & HO1 & F1 & _ & Eb & En).
  rewrite HN in E1. rewrite (bind_assoc _ _ _ m), (bind_ret _ _ _ _ _ E1).
  set (ev := when _ _). set (m2 := with_log (EV_CACHE_LOOKUP c a :: m_log m1) m1).
  destruct (cache_load_fails c a m2) as (b & m3 & E3 & Hb & Et & Em & El); trivial; [|lia|..].
  { apply cache_ok_log; trivial. }
  { change (m_caches m2 c) with (m_caches m1 c). rewrite (lookup_same_tags c m m1); trivial.
    intros x. rewrite Eb. reflexivity. }
  { change (m_devices m2) with (m_devices m1). rewrite (core_devices _ _ (proj1 F1)). exact HD. }
  destruct (cache_search_finds (ca_blockNum (m_caches m3 c)) 0 (ca_blocks (m_caches m3 c))
              (wrap64 (- CACHE_BLOCK_SIZE)) a b) as (b' & ES).
  { unfold num in Hb. lia. }
  { rewrite Et. apply Z.eqb_eq. rewrite tag_match by (trivial; unfold align32; dmlia).
    apply Z.eqb_eq. unfold align32. dmlia. }
  exists m3. do 2 eexists. split.
  { rewrite bind_assoc. rewrite (bind_ret ev _ m1 tt m2) by reflexivity.
    cbn [negb andb]. apply bind_throw. exact E3. }
  unfold cache_find, get_cache. rewrite !bind_assoc, bind_gets, Em, El, ES. reflexivity.
Qed.

Lemma nonexistent_read_poisons_witness :
  exists m1 v m2,
    cache_read SData 0x2000000 MEM_SIDE_EFFECTS started = (Throw EX_DYNAMIC_TRAP TRAP_NONEX_MEMORY, m1) /\
    cache_read SData 0x2000000 MEM_SIDE_EFFECTS m1 = (Ret v, m2).
Proof.
  apply (nonexistent_read_poisons SData 0x2000000 started);
    [apply started_ok|lia|vm_compute; reflexivity..].
Defined.
