(* ===== verification/Mmu.v ===== *)
(** * The memory management unit (gimmix/src/core/mmu.c)

    Virtual address translation, the page table walk, the permission checks, and the
    accesses to bytes, wydes, tetras and octas. *)

From Stdlib Require Import ZArith Lia Bool.
From stdpp Require Import base list numbers option.
From S2P Require Import Prelude Ram Machine Registers Devices Bus Tc Cache.

Abbreviation MMU_EX_OFFSET := 37.

(** ** The code *)

Definition mmu_unpackrV (rv : Z) : sVirtTransReg :=
  let s := (rv .>> 40) .& 0xFF in
  let f := rv .& 0x7 in
  mk_sVirtTransReg
    (fun i => if i =? 0 then 0 else (rv .>> (60 - (i - 1) * 4)) .& 0xF)
    s ((rv .>> 3) .& 0x3FF) (rv .& 0xFFFFFFE000) f
    ((s <? 13) || (48 <? s) || (1 <? f)).

(** [while(pageNo >= 1024) { j++; pageNo /= 1024; }] *)
Fixpoint page_level (fuel : nat) (pageNo j : Z) : Z :=
  match fuel with
  | O => j
  | S fuel => if 1024 <=? pageNo then page_level fuel (pageNo / 1024) (j + 1) else j
  end.

(** The exception of a failed translation. *)
Definition page_fault {A} (mode : Z) : M A :=
  ex_throw EX_DYNAMIC_TRAP (TRAP_REPEAT .| shl64 mode MMU_EX_OFFSET).

(** The loop over the page table pointers; the number of levels is [j]. *)
Fixpoint resolve_ptps (j : nat) (c pageNo n mode memflags : Z) : M Z :=
  match j with
  | O => mret c
  | S j' =>
    let ax := (pageNo .>> (10 * Z.of_nat j)) .& 0x3FF in
    ptp ← cache_read CACHE_DATA (shl64 c 13 +o shl64 ax 3) memflags;
    if negb (truth (ptp .& MSB 64)) || negb ((ptp .>> 3) .& 0x3FF =? n) then page_fault mode
    else resolve_ptps j' ((ptp .& not64 (MSB 64)) .>> 13) pageNo n mode memflags
  end.

(** The walk of the page table of one segment, for an address inside of it. *)
Definition mmu_walk (vtr : sVirtTransReg) (segment addr mode : Z) (sideEffects : bool) : M Z :=
  let pageNo := addr .>> vt_s vtr in
  limit ← c_shl64 1 (10 * (vt_b vtr (segment + 1) - vt_b vtr segment));
  if (vt_b vtr (segment + 1) <? vt_b vtr segment) || (limit <=? pageNo) then page_fault mode
  else
    let j := page_level 7 pageNo 0 in
    let c := wrap64 ((vt_r vtr .>> 13) + vt_b vtr segment + j) in
    let memflags := if sideEffects then MEM_SIDE_EFFECTS else 0 in
    c ← resolve_ptps (Z.to_nat j) c pageNo (vt_n vtr) mode memflags;
    pte ← cache_read CACHE_DATA (shl64 c 13 +o shl64 (pageNo .& 0x3FF) 3) memflags;
    if negb ((pte .>> 3) .& 0x3FF =? vt_n vtr) then page_fault mode
    else tc_pteToTrans pte (vt_s vtr).

(** The cached copy of rV is brought up to date. *)
Definition mmu_getVtr : M sVirtTransReg :=
  rv ← reg_getSpecial rV;
  old ← gets m_oldrV;
  when (negb (rv =? old)) (modify (fun m => set_m_oldrV rv (set_m_vtr (mmu_unpackrV rv) m)));;
  gets m_vtr.

Definition mmu_translate (addr mode expected : Z) (sideEffects : bool) : M Z :=
  let tc := if truth (mode .& MEM_EXEC) then TC_INSTR else TC_DATA in
  when sideEffects (ev_fire (EV_VAT addr mode));;
  if priv addr then
    p ← cpu_isPriv;
    if sideEffects && negb p then ex_throw EX_DYNAMIC_TRAP TRAP_PRIVILEGED_ACCESS
    else mret (addr .& not64 (MSB 64))
  else
    vtr ← mmu_getVtr;
    if vt_invalid vtr then ex_throw EX_DYNAMIC_TRAP (shl64 mode MMU_EX_OFFSET)
    else
      key ← (if sideEffects then tc_addrToKey addr (vt_s vtr) (vt_n vtr) else mret 0);
      tce ← (if sideEffects then tc_getByKey tc key else mret None);
      let segment := addr .>> 61 in
      let addr := addr .& 0x1FFFFFFFFFFFFFFF in
      pte ← match tce with
            | None =>
              if sideEffects && (vt_f vtr =? 1) then
                ex_throw EX_FORCED_TRAP (TRAP_SOFT_TRANS .| shl64 mode MMU_EX_OFFSET)
              else
                pte ← mmu_walk vtr segment addr mode sideEffects;
                (if sideEffects then _ ← tc_set tc key pte; mret tt else mret tt);;
                mret pte
            | Some i => e ← tc_entry tc i; mret (tce_translation e)
            end;
      if negb (truth (pte .& expected)) then
        ex_throw EX_DYNAMIC_TRAP (TRAP_REPEAT .| shl64 (mode .& not64 pte) MMU_EX_OFFSET)
      else
        p ← c_shl64 1 (vt_s vtr);
        mret (shl64 (pte .& not64 0x7) 10 +o (addr .& (p -o 1))).

Definition mmu_handleMemEx (ex : exn) (bits addr value flags : Z) : M unit :=
  if negb (has_flag flags MEM_IGNORE_PROT_EX)
     || truth (bits .& not64 (TRAP_RWX_BITS .| TRAP_REPEAT)) then
    b ← cpu_setMemEx ex bits addr value (has_flag flags MEM_SIDE_EFFECTS);
    if b : bool then ex_throw ex bits else mret tt
  else mret tt.

Definition mmu_doRead (addr mode flags : Z) : M Z :=
  catch
    (let expected := if truth (mode .& MEM_READ) then MEM_READ else MEM_EXEC in
     let cache := if truth (mode .& MEM_READ) then CACHE_DATA else CACHE_INSTR in
     phys ← mmu_translate addr mode expected (has_flag flags MEM_SIDE_EFFECTS);
     cache_read cache phys flags)
    (fun ex bits => mmu_handleMemEx ex bits addr 0 flags;; mret 0).

Definition mmu_doWrite (addr value flags : Z) : M unit :=
  catch
    (phys ← mmu_translate addr MEM_WRITE MEM_WRITE (has_flag flags MEM_SIDE_EFFECTS);
     cache_write CACHE_DATA phys value flags)
    (fun ex bits => mmu_handleMemEx ex bits addr value flags).

Definition mmu_readByte (addr flags : Z) : M Z :=
  let off := (addr .& 7) .>> 0 in
  data ← mmu_doRead addr MEM_READ flags;
  mret ((data .>> (8 * (7 - off))) .& 0xFF).

Definition mmu_readWyde (addr flags : Z) : M Z :=
  let off := (addr .& 7) .>> 1 in
  data ← mmu_doRead addr MEM_READ flags;
  mret ((data .>> (16 * (3 - off))) .& 0xFFFF).

Definition mmu_readTetra (addr flags : Z) : M Z :=
  let off := (addr .& 7) .>> 2 in
  data ← mmu_doRead addr MEM_READ flags;
  mret ((data .>> (32 * (1 - off))) .& 0xFFFFFFFF).

Definition mmu_readInstr (addr flags : Z) : M Z :=
  let off := (addr .& 7) .>> 2 in
  data ← mmu_doRead addr MEM_EXEC flags;
  mret ((data .>> (32 * (1 - off))) .& 0xFFFFFFFF).

Definition mmu_readOcta (addr flags : Z) : M Z := mmu_doRead addr MEM_READ flags.

(** [(current & ~(mask << shift)) | (value << shift)] *)
Definition merge (current mask shift value : Z) : Z :=
  (current .& not64 (shl64 mask shift)) .| shl64 value shift.

Definition mmu_writeByte (addr value flags : Z) : M unit :=
  current ← mmu_doRead addr (MEM_READ .| MEM_WRITE) flags;
  let off := (addr .& 7) .>> 0 in
  mmu_doWrite addr (merge current 0xFF (8 * (7 - off)) value) flags.

Definition mmu_writeWyde (addr value flags : Z) : M unit :=
  current ← mmu_doRead addr (MEM_READ .| MEM_WRITE) flags;
  let off := (addr .& 7) .>> 1 in
  mmu_doWrite addr (merge current 0xFFFF (16 * (3 - off)) value) flags.

Definition mmu_writeTetra (addr value flags : Z) : M unit :=
  current ← mmu_doRead addr (MEM_READ .| MEM_WRITE) flags;
  let off := (addr .& 7) .>> 2 in
  mmu_doWrite addr (merge current 0xFFFFFFFF (32 * (1 - off)) value) flags.

Definition mmu_writeOcta (addr value flags : Z) : M unit := mmu_doWrite addr value flags.

(** Protection exceptions are ignored by the two synchronisations. *)
Definition sync_handler (addr : Z) (ex : exn) (bits : Z) : M unit :=
  if decide (ex = EX_BREAKPOINT) then ex_throw ex bits
  else mmu_handleMemEx ex bits addr 0 (MEM_SIDE_EFFECTS .| MEM_IGNORE_PROT_EX).

Definition mmu_syncdOcta (addr : Z) (radical : bool) : M unit :=
  catch
    (phys ← mmu_translate addr MEM_WRITE MEM_WRITE true;
     cache_flush CACHE_DATA phys;;
     when radical (cache_remove CACHE_DATA phys))
    (sync_handler addr).

Definition mmu_syncidOcta (addr : Z) (radical : bool) : M unit :=
  catch
    (phys ← mmu_translate addr MEM_WRITE MEM_WRITE true;
     cache_remove CACHE_INSTR phys;;
     if radical then cache_remove CACHE_DATA phys else cache_flush CACHE_DATA phys)
    (sync_handler addr).

(** ** Privileged addresses *)

(** The CPU executes user code. *)
Definition user (m : machine) : Prop := priv (c_pc (m_cpu m)) = false.

(** The memory, the caches and the translation caches. *)
Definition memory_of (m : machine) := (m_ram m, m_rom m, m_timer m, m_caches m, m_tcs m).

Lemma fire_eq (b : bool) e m : exists l, when b (ev_fire e) m = (Ret tt, set_m_log l m).
Proof. destruct b; [eexists; reflexivity|exists (m_log m); destruct m; reflexivity]. Qed.

(** A negative address is mapped directly, in kernel mode or without side effects. *)
Lemma translate_direct addr mode expected se m :
  priv addr = true -> se = false \/ priv (c_pc (m_cpu m)) = true ->
  exists l, mmu_translate addr mode expected se m = (Ret (addr .& not64 (MSB 64)), set_m_log l m).
Proof.
  intros Hp H. unfold mmu_translate. destruct (fire_eq se (EV_VAT addr mode) m) as [l E].
  exists l. rewrite (bind_ret _ _ _ _ _ E), Hp. unfold cpu_isPriv. rewrite bind_gets. cbn [m_cpu set_m_log].
  destruct H as [->| ->]; [reflexivity|]. rewrite andb_false_r. reflexivity.
Qed.

Lemma translate_denied addr mode expected m :
  priv addr = true -> user m ->
  exists l, mmu_translate addr mode expected true m =
    (Throw EX_DYNAMIC_TRAP TRAP_PRIVILEGED_ACCESS, set_m_log l m).
Proof.
  intros Hp H. unfold mmu_translate. destruct (fire_eq true (EV_VAT addr mode) m) as [l E].
  exists l. rewrite (bind_ret _ _ _ _ _ E), Hp. unfold cpu_isPriv. rewrite bind_gets. cbn [m_cpu set_m_log].
  rewrite H. reflexivity.
Qed.

(** A privileged access is delivered as an exception, or noted in rQ while rK masks it. *)
Lemma handle_denied addr value flags m :
  has_flag flags MEM_SIDE_EFFECTS = true ->
  let bits := TRAP_PRIVILEGED_ACCESS in
  exists o m', mmu_handleMemEx EX_DYNAMIC_TRAP bits addr value flags m = (o, m') /\
    memory_of m' = memory_of m /\ m_log m' = m_log m /\
    if truth (bits .& r_special (m_reg m) rK) then o = Throw EX_DYNAMIC_TRAP bits
    else o = Ret tt /\ Z.testbit (r_special (m_reg m') rQ) 36 = true.
Proof.
  intros Hf bits. unfold mmu_handleMemEx. rewrite Hf, orb_true_r. unfold cpu_setMemEx.
  rewrite decide_True by trivial. rewrite bind_assoc.
  rewrite (bind_ret _ _ _ _ _ (getSpecial_eq rK m eq_refl)).
  change (bits .& not64 TRAP_REPEAT) with bits.
  destruct (truth (bits .& r_special (m_reg m) rK)); cbn [negb]; do 2 eexists; split; try reflexivity.
  - csplit; reflexivity.
  - csplit; try reflexivity. cbn -[Z.testbit put_special].
    rewrite put_special_same, Z.lor_spec. apply orb_true_r.
Qed.

(** C6: User code cannot reach privileged memory.  Its accesses to a negative address
    read and write nothing - RAM, ROM, timer, caches and translation caches stay as
    they are - and throw TRAP_PRIVILEGED_ACCESS; while rK masks that exception a read
    returns 0, a write does nothing, and the exception is noted in rQ. *)
Theorem user_isolated addr value flags m :
  user m -> priv addr = true -> has_flag flags MEM_SIDE_EFFECTS = true ->
  let denied := truth (TRAP_PRIVILEGED_ACCESS .& r_special (m_reg m) rK) in
  (forall mode, exists o m', mmu_doRead addr mode flags m = (o, m') /\ memory_of m' = memory_of m /\
     if denied then o = Throw EX_DYNAMIC_TRAP TRAP_PRIVILEGED_ACCESS
     else o = Ret 0 /\ Z.testbit (r_special (m_reg m') rQ) 36 = true) /\
  (exists o m', mmu_doWrite addr value flags m = (o, m') /\ memory_of m' = memory_of m /\
     if denied then o = Throw EX_DYNAMIC_TRAP TRAP_PRIVILEGED_ACCESS
     else o = Ret tt /\ Z.testbit (r_special (m_reg m') rQ) 36 = true).
Proof.
  intros Hu Hp Hf denied. split; [intros mode; unfold mmu_doRead|unfold mmu_doWrite]; rewrite Hf.
  - destruct (translate_denied addr mode (if truth (mode .& MEM_READ) then MEM_READ else MEM_EXEC) m Hp Hu)
      as [l E]. rewrite (catch_throw _ _ _ _ _ _ (bind_throw _ _ _ _ _ _ E)).
    destruct (handle_denied addr 0 flags (set_m_log l m) Hf) as (o & m' & E' & Hm & _ & H).
    change (truth _) with denied in H. destruct denied.
    + subst o. rewrite (bind_throw _ _ _ _ _ _ E'). eauto.
    + destruct H as [-> H]. rewrite (bind_ret _ _ _ _ _ E'). do 2 eexists; split; [reflexivity|]. auto.
  - destruct (translate_denied addr MEM_WRITE MEM_WRITE m Hp Hu) as [l E].
    rewrite (catch_throw _ _ _ _ _ _ (bind_throw _ _ _ _ _ _ E)).
    destruct (handle_denied addr value flags (set_m_log l m) Hf) as (o & m' & E' & Hm & _ & H).
    exists o, m'. auto.
Qed.

Lemma user_isolated_witness :
  exists m', mmu_doWrite (2 ^ 63 + 8) 7 MEM_SIDE_EFFECTS started = (Ret tt, m') /\
    memory_of m' = memory_of started.
Proof.
  destruct (user_isolated (2 ^ 63 + 8) 7 MEM_SIDE_EFFECTS started) as [_ (o & m' & E & Hm & H & _)];
    [reflexivity..|]. subst o. exists m'. exact (conj E Hm).
Defined.

(** ** Privileged memory as a flat memory *)

Definition kernel_ok (m : machine) : Prop := cache_ok CACHE_DATA m /\ priv (c_pc (m_cpu m)) = true.
Definition kernel_dom (m : machine) (a : Z) : Prop := is_octa a /\ ram_addr m (a - 2 ^ 63).
Definition kernel_view (m : machine) (a : Z) : Z := view CACHE_DATA m (a - 2 ^ 63).

Lemma kernel_phys m a :
  kernel_ok m -> kernel_dom m a -> priv a = true /\ a .& not64 (MSB 64) = a - 2 ^ 63.
Proof.
  intros [HO _] [Ha Hr]. destruct (wb_size m (co_bus _ m HO)) as [Hs _]. unfold ram_addr in Hr. split.
  - rewrite priv_spec by trivial. apply negb_true_iff, Z.ltb_ge. lia.
  - change (not64 (MSB 64)) with (2 ^ 63 - 1). rewrite land_mask by lia.
    symmetry. apply Z.mod_unique with 1; lia.
Qed.

Lemma align8_kernel a : align8 a - 2 ^ 63 = align8 (a - 2 ^ 63).
Proof. unfold align8. replace (a - 2 ^ 63) with (a + (- 2 ^ 60) * 8) by lia. rewrite Z.mod_add by lia. lia. Qed.

Lemma octa_addr_kernel m b :
  kernel_dom m b -> octa_addr b -> octa_addr (b - 2 ^ 63) /\ ram_addr m (b - 2 ^ 63).
Proof.
  intros [Ho Hr] [_ Hm]. split; [|trivial]. unfold ram_addr in Hr. split; [wordlia|].
  replace (b - 2 ^ 63) with (b + (- 2 ^ 60) * 8) by lia. rewrite Z.mod_add by lia. trivial.
Qed.

(** In kernel mode the negative addresses are the memory behind the data cache. *)
#[export] Instance kernel_memory mode flags :
  has_flag flags MEM_UNINITIALIZED = false -> truth (mode .& MEM_READ) = true ->
  FlatMemory kernel_ok kernel_dom kernel_view core
    (fun a => mmu_doRead a mode flags) (fun a v => mmu_doWrite a v flags).
Proof.
  intros Hfl Hmode. pose proof (cache_memory CACHE_DATA flags Hfl) as FM.
  assert (K : forall m m', core m' = core m -> cache_ok CACHE_DATA m' -> kernel_ok m -> kernel_ok m').
  { intros m m' Ec HO [_ Hp]. split; [trivial|]. unfold core in Ec. congruence. }
  split.
  - intros a m [HO _] [_ Hr]. unfold kernel_view. rewrite align8_kernel. apply (fm_octa _ m HO Hr).
  - intros a m HK HD. destruct (kernel_phys m a HK HD) as [Hp Ep]. unfold mmu_doRead. rewrite Hmode.
    destruct (translate_direct a mode MEM_READ (has_flag flags MEM_SIDE_EFFECTS) m Hp) as [l E];
      [right; apply HK|]. rewrite Ep in E.
    destruct (fm_read (a - 2 ^ 63) (set_m_log l m)) as (m' & E' & HO' & Ec & V);
      [apply (cache_ok_log _ l m), HK|apply HD|].
    exists m'. rewrite (catch_ret _ _ _ _ _ (eq_trans (bind_ret _ _ _ _ _ E) E')).
    unfold kernel_view. rewrite align8_kernel. csplit; trivial; [apply (K m); trivial|].
    intros b [Hb Hbr]. split; [split; [trivial|apply V; trivial]|].
    intros Ho. apply V; apply (octa_addr_kernel m b (conj Hb Hbr) Ho).
  - intros a v m HK HD Hv. destruct (kernel_phys m a HK HD) as [Hp Ep]. unfold mmu_doWrite.
    destruct (translate_direct a MEM_WRITE MEM_WRITE (has_flag flags MEM_SIDE_EFFECTS) m Hp) as [l E];
      [right; apply HK|]. rewrite Ep in E.
    destruct (fm_write (a - 2 ^ 63) v (set_m_log l m)) as (m' & E' & HO' & Ec & V);
      [apply (cache_ok_log _ l m), HK|apply HD|trivial|].
    exists m'. rewrite (catch_ret _ _ _ _ _ (eq_trans (bind_ret _ _ _ _ _ E) E')).
    csplit; trivial; [apply (K m); trivial|].
    intros b [Hb Hbr]. split; [split; [trivial|apply V; trivial]|]. intros Ho. unfold kernel_view.
    destruct (octa_addr_kernel m b (conj Hb Hbr) Ho) as [Ho' Hr'].
    rewrite (proj2 (V _ Hr') Ho'), <- align8_kernel.
    destruct (Z.eqb_spec b (align8 a)) as [->|]; [rewrite Z.eqb_refl; reflexivity|].
    destruct (Z.eqb_spec (b - 2 ^ 63) (align8 a - 2 ^ 63)); [lia|reflexivity].
Qed.

(** ** Bytes *)

(** Byte [j] of an octa, the most significant one first. *)
Definition obyte (o j : Z) : Z := (o .>> (8 * (7 - j))) .& 0xFF.

(** Byte [j] of a number of [n] bytes. *)
Definition nbyte (n v j : Z) : Z := (v .>> (8 * (n - 1 - j))) .& 0xFF.

(** The number in the [n] bytes from [j] on, big-endian. *)
Fixpoint be_val (f : Z -> Z) (j : Z) (n : nat) : Z :=
  match n with
  | O => 0
  | S n => be_val f j n * 256 + f (j + Z.of_nat n)
  end.

Lemma testbit_byte x i : 0 <= i -> Z.testbit (x .& 0xFF) i = (i <? 8) && Z.testbit x i.
Proof.
  intros Hi. change 0xFF with (2 ^ 8 - 1). rewrite land_mask by lia.
  destruct (Z.ltb_spec i 8); [apply Z.mod_pow2_bits_low|apply Z.mod_pow2_bits_high]; lia.
Qed.

Lemma testbit_merge cur w sh v i :
  is_octa cur -> 0 <= w -> is_word w v -> 0 <= sh -> sh + w <= 64 -> 0 <= i < 64 ->
  Z.testbit (merge cur (2 ^ w - 1) sh v) i =
    if (sh <=? i) && (i <? sh + w) then Z.testbit v (i - sh) else Z.testbit cur i.
Proof.
  intros Hc Hw Hv Hs Hsw Hi. unfold merge, shl, wrap.
  rewrite Z.lor_spec, Z.land_spec, testbit_wnot by (trivial; try lia; apply (wrap_range 64); lia).
  rewrite !Z.mod_pow2_bits_low, !Z.shiftl_spec by lia.
  destruct (Z.leb_spec sh i); cbn [andb].
  - replace (2 ^ w - 1) with (Z.ones w) by (rewrite Z.ones_equiv; lia).
    destruct (Z.ltb_spec i (sh + w)).
    + rewrite Z.ones_spec_low by lia. cbn [negb]. rewrite andb_false_r. reflexivity.
    + rewrite Z.ones_spec_high, (testbit_high w v) by (trivial; lia). cbn [negb].
      rewrite andb_true_r, orb_false_r. reflexivity.
  - rewrite !(Z.testbit_neg_r _ (i - sh)) by lia. cbn [negb]. rewrite andb_true_r, orb_false_r. reflexivity.
Qed.

(** Merging [n] bytes at byte [j0] replaces these bytes and no other. *)
Lemma obyte_merge o n j0 v j :
  is_octa o -> 0 <= n -> is_word (8 * n) v -> 0 <= j0 -> j0 + n <= 8 -> 0 <= j < 8 ->
  obyte (merge o (2 ^ (8 * n) - 1) (8 * (8 - n - j0)) v) j =
    if (j0 <=? j) && (j <? j0 + n) then nbyte n v (j - j0) else obyte o j.
Proof.
  intros Ho Hn Hv Hj0 Hj0n Hj. apply Z.bits_inj'. intros i Hi.
  set (x := merge _ _ _ _). assert (E : Z.testbit (obyte x j) i = (i <? 8) && Z.testbit x (i + 8 * (7 - j))).
  { unfold obyte. rewrite testbit_byte, Z.shiftr_spec by lia. reflexivity. }
  rewrite E. unfold x. destruct (Z.ltb_spec i 8) as [H8|H8]; cbn [andb].
  2: { destruct ((j0 <=? j) && (j <? j0 + n)); unfold nbyte, obyte; rewrite testbit_byte by lia;
       replace (i <? 8) with false by (symmetry; apply Z.ltb_ge; lia); reflexivity. }
  rewrite testbit_merge by (trivial; lia).
  replace ((8 * (8 - n - j0) <=? i + 8 * (7 - j)) && (i + 8 * (7 - j) <? 8 * (8 - n - j0) + 8 * n))
    with ((j0 <=? j) && (j <? j0 + n)).
  2: { apply eq_true_iff_eq. rewrite !andb_true_iff, !Z.leb_le, !Z.ltb_lt. lia. }
  destruct (Z.leb_spec j0 j), (Z.ltb_spec j (j0 + n)); cbn [andb]; unfold nbyte, obyte;
    rewrite testbit_byte, Z.shiftr_spec by lia;
    replace (i <? 8) with true by (symmetry; apply Z.ltb_lt; lia); cbn [andb]; f_equal; lia.
Qed.

(** A shifted and masked octa is the number in its bytes. *)
Lemma be_val_octa o j n :
  is_octa o -> 0 <= j -> j + Z.of_nat n <= 8 ->
  be_val (obyte o) j n = (o .>> (8 * (8 - Z.of_nat n - j))) mod 2 ^ (8 * Z.of_nat n).
Proof.
  intros Ho Hj. induction n as [|n IH]; intros Hn; cbn [be_val].
  - change (2 ^ (8 * Z.of_nat 0)) with 1. rewrite Z.mod_1_r. reflexivity.
  - rewrite IH by lia. unfold obyte. rewrite (land_mask_eq _ 8) by lia.
    set (x := o .>> (8 * (7 - (j + Z.of_nat n)))).
    replace (o .>> (8 * (8 - Z.of_nat n - j))) with (x / 2 ^ 8).
    2: { unfold x. rewrite <- shiftr_div, Z.shiftr_shiftr by lia. f_equal; lia. }
    replace (8 * (8 - Z.of_nat (S n) - j)) with (8 * (7 - (j + Z.of_nat n))) by lia. fold x.
    replace (8 * Z.of_nat (S n)) with (8 + 8 * Z.of_nat n) by lia.
    pose proof (pow2_pos (8 * Z.of_nat n)). rewrite Z.pow_add_r, Z.rem_mul_r by lia. lia.
Qed.

(** The byte at a privileged address. *)
Definition byte_at (m : machine) (a : Z) : Z := obyte (kernel_view m (align8 a)) (a mod 8).

(** [a] rounded down to a multiple of [n]. *)
Definition unit_addr (n a : Z) : Z := a - a mod n.

(** The sizes of byte, wyde, tetra and octa accesses. *)
Definition unit_size (n : Z) : Prop := n = 1 \/ n = 2 \/ n = 4 \/ n = 8.

Lemma unit_offset n a :
  unit_size n -> let j0 := a mod 8 - a mod 8 mod n in
  0 <= j0 /\ j0 + n <= 8 /\ unit_addr n a = align8 a + j0.
Proof. unfold unit_addr, align8. intros [->|[->|[->| ->]]]; Z.div_mod_to_equations; lia. Qed.

Lemma align8_dom m a : kernel_ok m -> kernel_dom m a -> kernel_dom m (align8 a) /\ octa_addr (align8 a).
Proof.
  intros [HO _] [Ho Hr]. destruct (wb_size m (co_bus _ m HO)) as [Hs Hm].
  unfold kernel_dom, octa_addr, ram_addr, align8, is_word in *.
  csplit; Z.div_mod_to_equations; lia.
Qed.

(** An access to the unit of [n] bytes at [a]: the shift of its field in the octa. *)
Definition unit_shift (n a : Z) : Z := 8 * (8 - n - (a mod 8 - a mod 8 mod n)).

Lemma align8_in a j : 0 <= j < 8 -> align8 (align8 a + j) = align8 a /\ (align8 a + j) mod 8 = j.
Proof. unfold align8. Z.div_mod_to_equations; lia. Qed.

Lemma be_val_ext f g i j n :
  (forall k, 0 <= k < Z.of_nat n -> f (i + k) = g (j + k)) -> be_val f i n = be_val g j n.
Proof. induction n as [|n IH]; cbn [be_val]; intros H; [trivial|]. rewrite IH, H by (intros; try apply H; lia). trivial. Qed.

Lemma kernel_octa m a : kernel_ok m -> kernel_dom m a -> is_octa (kernel_view m (align8 a)).
Proof. exact (@fm_octa _ _ _ _ _ _ _ (kernel_memory MEM_READ 0 eq_refl eq_refl) a m). Qed.

Lemma be_val_unit m a n :
  unit_size (Z.of_nat n) -> kernel_ok m -> kernel_dom m a ->
  be_val (byte_at m) (unit_addr (Z.of_nat n) a) n =
    (kernel_view m (align8 a) .>> unit_shift (Z.of_nat n) a) .& (2 ^ (8 * Z.of_nat n) - 1).
Proof.
  intros Hn HK HD. destruct (unit_offset _ a Hn) as (H1 & H2 & ->). set (j0 := a mod 8 - _) in *.
  rewrite (be_val_ext _ (obyte (kernel_view m (align8 a))) _ j0).
  - rewrite be_val_octa, land_mask by (lia || exact (kernel_octa m a HK HD)). reflexivity.
  - intros k Hk. rewrite <- Z.add_assoc. unfold byte_at.
    destruct (align8_in a (j0 + k)) as [-> ->]; [lia|reflexivity].
Qed.

Lemma byte_at_same m m' b :
  kernel_ok m -> kernel_dom m b ->
  (forall b, kernel_dom m b -> kernel_dom m' b /\ (octa_addr b -> kernel_view m' b = kernel_view m b)) ->
  byte_at m' b = byte_at m b.
Proof.
  intros HK Hb V. destruct (align8_dom m b HK Hb) as [HD Ho].
  unfold byte_at. rewrite (proj2 (V _ HD) Ho). reflexivity.
Qed.

Section Accesses.
Context (mode flags : Z) (Hfl : has_flag flags MEM_UNINITIALIZED = false)
  (Hmode : truth (mode .& MEM_READ) = true).

(** A read of [n] bytes returns the big-endian number in them. *)
Lemma kernel_read_unit n a m :
  unit_size (Z.of_nat n) -> kernel_ok m -> kernel_dom m a ->
  exists m', (data ← mmu_doRead a mode flags;
              mret ((data .>> unit_shift (Z.of_nat n) a) .& (2 ^ (8 * Z.of_nat n) - 1))) m
      = (Ret (be_val (byte_at m) (unit_addr (Z.of_nat n) a) n), m') /\
    kernel_ok m' /\ core m' = core m /\ forall b, kernel_dom m b -> byte_at m' b = byte_at m b.
Proof.
  intros Hn HK HD. pose proof (kernel_memory mode flags Hfl Hmode) as FM.
  destruct (fm_read a m HK HD) as (m' & E & HK' & Ec & V). rewrite (bind_ret _ _ _ _ _ E).
  exists m'. rewrite be_val_unit by trivial. split; [reflexivity|]. split; [trivial|]. split; [trivial|].
  intros b Hb. apply byte_at_same; trivial.
Qed.

(** A write of [n] bytes replaces them and no others. *)
Lemma kernel_write_unit n a v m :
  unit_size n -> kernel_ok m -> kernel_dom m a -> is_word (8 * n) v ->
  exists m', (current ← mmu_doRead a mode flags;
              mmu_doWrite a (merge current (2 ^ (8 * n) - 1) (unit_shift n a) v) flags) m = (Ret tt, m') /\
    kernel_ok m' /\ core m' = core m /\
    forall b, kernel_dom m b -> byte_at m' b =
      if (unit_addr n a <=? b) && (b <? unit_addr n a + n) then nbyte n v (b - unit_addr n a)
      else byte_at m b.
Proof.
  intros Hn HK HD Hv. pose proof (kernel_memory mode flags Hfl Hmode) as FM.
  destruct (fm_read a m HK HD) as (m1 & E & HK1 & Ec1 & V1). rewrite (bind_ret _ _ _ _ _ E).
  set (o := kernel_view m (align8 a)). assert (Ho : is_octa o) by exact (kernel_octa m a HK HD).
  set (x := merge o _ _ v). assert (Hx : is_octa x).
  { unfold x, merge. apply (lor_range 64); [lia| |apply shl_range; lia].
    apply (land_range 64); [trivial|]. unfold wnot. pose proof (shl_range 64 (2 ^ (8 * n) - 1) (unit_shift n a)). wordlia. }
  destruct (fm_write a x m1 HK1 (proj1 (V1 a HD)) Hx) as (m2 & E2 & HK2 & Ec2 & V2).
  exists m2. split; [exact E2|]. split; [trivial|]. split; [congruence|]. intros b Hb.
  destruct (align8_dom m b HK Hb) as [HDb Hob]. unfold byte_at at 1.
  rewrite (proj2 (V2 _ (proj1 (V1 _ HDb))) Hob), (proj2 (V1 _ HDb) Hob).
  destruct (unit_offset n a Hn) as (H1 & H2 & ->). set (j0 := a mod 8 - _) in *.
  destruct (Z.eqb_spec (align8 b) (align8 a)) as [Eb|Eb].
  - assert (Bb : b = align8 a + b mod 8) by (unfold align8 in Eb |- *; lia).
    pose proof (Z.mod_pos_bound b 8 ltac:(lia)) as Hb8. unfold x, unit_shift. fold j0.
    rewrite obyte_merge by (trivial; unfold unit_size in Hn; lia).
    replace ((align8 a + j0 <=? b) && (b <? align8 a + j0 + n)) with ((j0 <=? b mod 8) && (b mod 8 <? j0 + n)).
    2: { apply eq_true_iff_eq. rewrite !andb_true_iff, !Z.leb_le, !Z.ltb_lt. lia. }
    unfold byte_at. rewrite Eb. fold o. replace (b - (align8 a + j0)) with (b mod 8 - j0) by lia. reflexivity.
  - replace ((align8 a + j0 <=? b) && (b <? align8 a + j0 + n)) with false; [reflexivity|].
    symmetry. apply not_true_iff_false. rewrite andb_true_iff, Z.leb_le, Z.ltb_lt.
    unfold align8 in *. Z.div_mod_to_equations; lia.
Qed.
End Accesses.

(** [c] returns the [n]-byte big-endian number at [a] and changes no byte. *)
Definition loads (m : machine) (c : M Z) (a : Z) (n : nat) : Prop :=
  exists m', c m = (Ret (be_val (byte_at m) a n), m') /\ kernel_ok m' /\ core m' = core m /\
    forall b, kernel_dom m b -> byte_at m' b = byte_at m b.

(** [c] replaces the [n] bytes at [a] by those of [v] and changes no other byte. *)
Definition stores (m : machine) (c : M unit) (a n v : Z) : Prop :=
  exists m', c m = (Ret tt, m') /\ kernel_ok m' /\ core m' = core m /\
    forall b, kernel_dom m b -> byte_at m' b =
      if (a <=? b) && (b <? a + n) then nbyte n v (b - a) else byte_at m b.

Lemma land7 a : a .& 7 = a mod 8.
Proof. apply (land_mask_eq a 3); [lia|reflexivity]. Qed.

Lemma unit_shift_eq a :
  8 * (7 - ((a .& 7) .>> 0)) = unit_shift 1 a /\ 16 * (3 - ((a .& 7) .>> 1)) = unit_shift 2 a /\
  32 * (1 - ((a .& 7) .>> 2)) = unit_shift 4 a /\ 0 = unit_shift 8 a.
Proof.
  rewrite land7, !shiftr_div by lia. unfold unit_shift. change (2 ^ 0) with 1. change (2 ^ 1) with 2.
  change (2 ^ 2) with 4. csplit; Z.div_mod_to_equations; lia.
Qed.

(** In kernel mode, reading a byte, wyde, tetra or octa of RAM returns the big-endian
    number in the bytes of the unit that the address lies in, through the cache and
    without changing a byte; registers, CPU and devices are untouched. *)
Theorem kernel_loads a flags m :
  has_flag flags MEM_UNINITIALIZED = false -> kernel_ok m -> kernel_dom m a ->
  loads m (mmu_readByte a flags) (unit_addr 1 a) 1 /\
  loads m (mmu_readWyde a flags) (unit_addr 2 a) 2 /\
  loads m (mmu_readTetra a flags) (unit_addr 4 a) 4 /\
  loads m (mmu_readOcta a flags) (unit_addr 8 a) 8.
Proof.
  intros Hfl HK HD. destruct (unit_shift_eq a) as (E1 & E2 & E4 & E8).
  pose proof (fun n Hn => kernel_read_unit MEM_READ flags Hfl eq_refl n a m Hn HK HD) as R.
  unfold unit_size in R. csplit.
  - unfold mmu_readByte. cbv zeta. rewrite E1. apply (R 1%nat). lia.
  - unfold mmu_readWyde. cbv zeta. rewrite E2. apply (R 2%nat). lia.
  - unfold mmu_readTetra. cbv zeta. rewrite E4. apply (R 4%nat). lia.
  - destruct (R 8%nat ltac:(lia)) as (m' & E & HK' & Ec & V). exists m'. split; [|csplit; trivial].
    unfold mmu_readOcta. change (Z.of_nat 8) with 8 in E. rewrite <- E8 in E. revert E.
    unfold mbind, M_bind. pose proof (kernel_memory MEM_READ flags Hfl eq_refl) as FM.
    destruct (fm_read a m HK HD) as (m1 & -> & _). rewrite Z.shiftr_0_r, land_mask by lia.
    rewrite Z.mod_small by exact (kernel_octa m a HK HD). trivial.
Qed.

(** In kernel mode, storing a byte, wyde, tetra or octa to RAM replaces exactly the
    bytes of the unit that the address lies in, most significant byte first. *)
Theorem kernel_stores a flags v m :
  has_flag flags MEM_UNINITIALIZED = false -> kernel_ok m -> kernel_dom m a ->
  (is_byte v -> stores m (mmu_writeByte a v flags) (unit_addr 1 a) 1 v) /\
  (is_wyde v -> stores m (mmu_writeWyde a v flags) (unit_addr 2 a) 2 v) /\
  (is_tetra v -> stores m (mmu_writeTetra a v flags) (unit_addr 4 a) 4 v) /\
  (is_octa v -> stores m (mmu_writeOcta a v flags) (unit_addr 8 a) 8 v).
Proof.
  intros Hfl HK HD. destruct (unit_shift_eq a) as (E1 & E2 & E4 & E8).
  pose proof (fun n Hn => kernel_write_unit (MEM_READ .| MEM_WRITE) flags Hfl eq_refl n a v m Hn HK HD) as R.
  unfold unit_size in R. csplit; intros Hv.
  - unfold mmu_writeByte. cbv zeta. rewrite E1. apply (R 1); [lia|exact Hv].
  - unfold mmu_writeWyde. cbv zeta. rewrite E2. apply (R 2); [lia|exact Hv].
  - unfold mmu_writeTetra. cbv zeta. rewrite E4. apply (R 4); [lia|exact Hv].
  - pose proof (kernel_memory MEM_READ flags Hfl eq_refl) as FM.
    destruct (fm_write a v m HK HD Hv) as (m' & E & HK' & Ec & V).
    exists m'. do 3 (split; [trivial|]). intros b Hb.
    destruct (align8_dom m b HK Hb) as [HDb Hob]. unfold byte_at at 1. rewrite (proj2 (V _ HDb) Hob).
    change (unit_addr 8 a) with (align8 a). destruct (Z.eqb_spec (align8 b) (align8 a)) as [Eb|Eb].
    + replace ((align8 a <=? b) && (b <? align8 a + 8)) with true.
      * unfold nbyte, obyte. do 3 f_equal. unfold align8 in *. lia.
      * symmetry. apply andb_true_iff. rewrite Z.leb_le, Z.ltb_lt.
        unfold align8 in *. Z.div_mod_to_equations; lia.
    + replace ((align8 a <=? b) && (b <? align8 a + 8)) with false; [reflexivity|].
      symmetry. apply not_true_iff_false. rewrite andb_true_iff, Z.leb_le, Z.ltb_lt.
      unfold align8 in *. Z.div_mod_to_equations; lia.
Qed.

Lemma cache_ok_cpu c v m : cache_ok c m -> cache_ok c (set_m_cpu v m).
Proof. intros [[] [] ?]. constructor; [constructor|constructor|]; trivial. Qed.

(** [started] with the CPU in kernel mode. *)
Definition started_kernel : machine :=
  set_m_cpu (set_c_pc 0x8000000000001000 (m_cpu started)) started.

Lemma started_kernel_ok : kernel_ok started_kernel.
Proof. split; [apply cache_ok_cpu, started_ok|reflexivity]. Qed.

Lemma cfg_set_cpu v m : m_cfg (set_m_cpu v m) = m_cfg m.
Proof. reflexivity. Qed.

Lemma started_kernel_dom a : 2 ^ 63 <= a < 2 ^ 63 + 0x2000000 -> kernel_dom started_kernel a.
Proof.
  intros H. split; [wordlia|]. pose proof (started_addr (a - 2 ^ 63)) as HA.
  unfold ram_addr, started_kernel in *. rewrite cfg_set_cpu. apply HA. lia.
Qed.

Lemma kernel_loads_witness :
  loads started_kernel (mmu_readWyde (2 ^ 63 + 11) MEM_SIDE_EFFECTS) (unit_addr 2 (2 ^ 63 + 11)) 2.
Proof.
  destruct (kernel_loads (2 ^ 63 + 11) MEM_SIDE_EFFECTS started_kernel) as (_ & H & _);
    [reflexivity|apply started_kernel_ok|apply started_kernel_dom; lia|]. exact H.
Defined.

Lemma kernel_stores_witness :
  stores started_kernel (mmu_writeTetra (2 ^ 63 + 13) 0xDEADBEEF MEM_SIDE_EFFECTS)
    (unit_addr 4 (2 ^ 63 + 13)) 4 0xDEADBEEF.
Proof.
  destruct (kernel_stores (2 ^ 63 + 13) MEM_SIDE_EFFECTS 0xDEADBEEF started_kernel) as (_ & _ & H & _);
    [reflexivity|apply started_kernel_ok|apply started_kernel_dom; lia|]. apply H. concrete_word.
Defined.
