(* ===== verification/Paging.v ===== *)
(** * Virtual addresses: page tables and translation caches

    The reference page table walk over a flat memory, and the proof that
    [mmu_translate] implements it: whether a translation comes from a translation
    cache or from the walk through the data cache makes no difference. *)

From Stdlib Require Import ZArith Lia Bool Btauto.
From stdpp Require Import base list numbers option.
From S2P Require Import Prelude Ram Machine Registers Devices Bus Tc Cache Mmu.

(** ** The reference walk *)

(** The address of entry [d] of the table in page [c] of 8192 bytes. *)
Definition pt_addr (c d : Z) : Z := c * 8192 + d * 8.

(** The digits of a page number in base 1024, and its highest digit. *)
Definition digit (pageNo i : Z) : Z := pageNo / 1024 ^ i mod 1024.
Definition level (pageNo : Z) : Z := Z.log2 pageNo / 10.

(** The address space number in a page table pointer or entry. *)
Definition asid (x : Z) : Z := x / 8 mod 1024.

(** From the table at level [j] down to the table at level 0. *)
Fixpoint pt_follow (f : Z -> Z) (n pageNo : Z) (j : nat) (c : Z) : option Z :=
  match j with
  | O => Some c
  | S j' =>
    let ptp := f (pt_addr c (digit pageNo (Z.of_nat j))) in
    if (2 ^ 63 <=? ptp) && (asid ptp =? n) then pt_follow f n pageNo j' (ptp mod 2 ^ 63 / 8192)
    else None
  end.

(** The pointers that are read satisfy [dom]. *)
Fixpoint pt_within (dom : Z -> Prop) (f : Z -> Z) (n pageNo : Z) (j : nat) (c : Z) : Prop :=
  match j with
  | O => dom (pt_addr c (digit pageNo 0))
  | S j' =>
    let a := pt_addr c (digit pageNo (Z.of_nat j)) in
    dom a /\ ((2 ^ 63 <=? f a) && (asid (f a) =? n) = true ->
              pt_within dom f n pageNo j' (f a mod 2 ^ 63 / 8192))
  end.

Definition segment (addr : Z) : Z := addr / 2 ^ 61.
Definition seg_offset (addr : Z) : Z := addr mod 2 ^ 61.
Definition page_no (s addr : Z) : Z := seg_offset addr / 2 ^ s.

(** The root table of the segment that holds the entries of level [level pageNo]. *)
Definition pt_root (vtr : sVirtTransReg) (addr : Z) : Z :=
  vt_r vtr / 8192 + vt_b vtr (segment addr) + level (page_no (vt_s vtr) addr).

(** The page table entry of a virtual address; the segment [i] has
    [1024 ^ (b[i+1] - b[i])] pages. *)
Definition pt_entry (f : Z -> Z) (vtr : sVirtTransReg) (addr : Z) : option Z :=
  let p := page_no (vt_s vtr) addr in
  if p <? 1024 ^ (vt_b vtr (segment addr + 1) - vt_b vtr (segment addr)) then
    c ← pt_follow f (vt_n vtr) p (Z.to_nat (level p)) (pt_root vtr addr);
    let pte := f (pt_addr c (digit p 0)) in
    if asid pte =? vt_n vtr then Some pte else None
  else None.

(** The physical address: the page frame of the entry and the offset in the page. *)
Definition pt_phys (s pte addr : Z) : Z :=
  pte mod 2 ^ 56 - pte mod 2 ^ s + addr mod 2 ^ s.

(** The fields of rV are in range, and the segments are ordered. *)
Record valid_vtr (vtr : sVirtTransReg) : Prop := {
  vv_s : 13 <= vt_s vtr <= 48;
  vv_n : 0 <= vt_n vtr < 1024;
  vv_r : 0 <= vt_r vtr < 2 ^ 40;
  vv_b : forall i, 0 <= i < 4 -> 0 <= vt_b vtr i <= vt_b vtr (i + 1) /\
                                 vt_b vtr (i + 1) - vt_b vtr i <= 6 /\ vt_b vtr (i + 1) < 16
}.

(** ** Arithmetic *)

Lemma page_level_spec fuel p j :
  0 <= p < 1024 ^ (Z.of_nat fuel + 1) -> page_level fuel p j = j + level p.
Proof.
  revert p j; induction fuel as [|fuel IH]; intros p j Hp; cbn [page_level]; unfold level in *.
  - change (1024 ^ (Z.of_nat 0 + 1)) with 1024 in Hp.
    assert (Z.log2 p < 10) by (destruct (Z.eq_dec p 0) as [->|]; [reflexivity|apply Z.log2_lt_pow2; lia]).
    pose proof (Z.log2_nonneg p). rewrite Z.div_small by lia. lia.
  - destruct (Z.leb_spec 1024 p) as [H|H].
    + rewrite IH.
      2: { replace (Z.of_nat (S fuel) + 1) with (1 + (Z.of_nat fuel + 1)) in Hp by lia.
           rewrite Z.pow_add_r in Hp by lia. split; [apply Z.div_pos; lia|].
           apply Z.div_lt_upper_bound; lia. }
      change 1024 with (2 ^ 10) at 1. rewrite <- shiftr_div, Z.log2_shiftr by lia.
      assert (10 <= Z.log2 p) by (apply Z.log2_le_pow2; lia).
      rewrite Z.max_r by lia. replace (Z.log2 p) with (Z.log2 p - 10 + 1 * 10) at 2 by lia.
      rewrite Z.div_add by lia. lia.
    + assert (Z.log2 p < 10) by (destruct (Z.eq_dec p 0) as [->|]; [reflexivity|apply Z.log2_lt_pow2; lia]).
      pose proof (Z.log2_nonneg p). rewrite Z.div_small by lia. lia.
Qed.

Lemma digit_bits p i : 0 <= i -> (p .>> (10 * i)) .& 0x3FF = digit p i.
Proof.
  intros Hi. rewrite (land_mask_eq _ 10), shiftr_div by lia. unfold digit.
  rewrite Z.pow_mul_r by lia. reflexivity.
Qed.

Lemma digit_range p i : 0 <= digit p i < 1024.
Proof. apply Z.mod_pos_bound. lia. Qed.

Lemma asid_bits x : (x .>> 3) .& 0x3FF = asid x.
Proof. rewrite (land_mask_eq _ 10), shiftr_div by lia. reflexivity. Qed.

Lemma pt_addr_bits c d :
  0 <= c < 2 ^ 50 -> 0 <= d < 1024 ->
  shl64 c 13 +o shl64 d 3 = pt_addr c d /\ octa_addr (pt_addr c d).
Proof.
  intros Hc Hd. rewrite !shl_exact by (try lia; wordlia). unfold pt_addr.
  rewrite wrap_small by wordlia. split; [lia|]. split; [wordlia|].
  replace (c * 8192 + d * 8) with ((c * 1024 + d) * 8) by lia. apply Z.mod_mul. lia.
Qed.

Lemma mod_pow_pow x s k : 0 <= s <= k -> x mod 2 ^ k mod 2 ^ s = x mod 2 ^ s.
Proof.
  intros Hs. replace k with (s + (k - s)) by lia. rewrite Z.pow_add_r by lia.
  pose proof (pow2_pos s). pose proof (pow2_pos (k - s)). rewrite Z.rem_mul_r by lia.
  rewrite (Z.mul_comm (2 ^ s)), Z.mod_add, Z.mod_mod by lia. reflexivity.
Qed.

Lemma pte_mask s pte :
  is_octa pte -> 0 <= s <= 56 ->
  pte .& (0xFFFFFFFFFFFFFF .& not64 (2 ^ s - 1)) = pte mod 2 ^ 56 - pte mod 2 ^ s.
Proof.
  intros Hp Hs. rewrite Z.land_assoc, (land_mask_eq pte 56) by lia.
  rewrite land_not_mask, mod_pow_pow by (try lia; dmlia). reflexivity.
Qed.

(** The translation that is cached for an entry: the frame, and the permissions. *)
Definition trans_of (s pte : Z) : Z := (pte mod 2 ^ 56 - pte mod 2 ^ s) / 1024 + pte mod 8.

Lemma frame_mult s pte :
  13 <= s <= 48 -> exists q, 0 <= q < 2 ^ 43 /\ pte mod 2 ^ 56 - pte mod 2 ^ s = q * 2 ^ 13.
Proof.
  intros Hs. exists (pte mod 2 ^ 56 / 2 ^ s * 2 ^ (s - 13)).
  assert (E : pte mod 2 ^ 56 - pte mod 2 ^ s = pte mod 2 ^ 56 / 2 ^ s * 2 ^ s).
  { rewrite <- (mod_pow_pow pte s 56) by lia.
    pose proof (Z.div_mod (pte mod 2 ^ 56) (2 ^ s)). pose proof (pow2_pos s). lia. }
  assert (P : 2 ^ s = 2 ^ (s - 13) * 2 ^ 13) by (rewrite <- Z.pow_add_r by lia; f_equal; lia).
  pose proof (pow2_pos s). pose proof (pow2_pos (s - 13)). pose proof (Z.mod_pos_bound pte (2 ^ 56)).
  pose proof (Z.mul_div_le (pte mod 2 ^ 56) (2 ^ s)). pose proof (Z.div_pos (pte mod 2 ^ 56) (2 ^ s)).
  rewrite E, P in *. split; [nia|lia].
Qed.

Lemma shl64_one s : 0 <= s < 64 -> shl64 1 s = 2 ^ s.
Proof.
  intros Hs. pose proof (pow2_pos s). pose proof (Z.pow_lt_mono_r 2 s 64).
  rewrite shl_exact by (try lia; wordlia). lia.
Qed.

Lemma page_mask s : 0 <= s < 64 -> 2 ^ s -o 1 = 2 ^ s - 1.
Proof.
  intros Hs. pose proof (pow2_pos s). pose proof (Z.pow_lt_mono_r 2 s 64).
  apply wrap_small. wordlia.
Qed.

Lemma pteToTrans_spec s pte m :
  13 <= s <= 48 -> is_octa pte -> tc_pteToTrans pte s m = (Ret (trans_of s pte), m).
Proof.
  intros Hs Hp. unfold tc_pteToTrans.
  rewrite (bind_ret _ _ _ _ _ (c_shl64_eq 1 s m ltac:(lia))), shl64_one, page_mask by lia.
  rewrite pte_mask, (land_mask_eq pte 3), shiftr_div by (trivial; lia).
  destruct (frame_mult s pte Hs) as (q & Hq & E). unfold trans_of. rewrite E.
  replace (q * 2 ^ 13 / 2 ^ 10) with (q * 2 ^ 3) by (replace (q * 2 ^ 13) with (q * 2 ^ 3 * 2 ^ 10) by lia;
    rewrite Z.div_mul by lia; reflexivity).
  rewrite lor_disjoint by (try lia; apply Z.mod_pos_bound; lia).
  replace (q * 2 ^ 13 / 1024) with (q * 2 ^ 3) by (replace (q * 2 ^ 13) with (q * 2 ^ 3 * 1024) by lia;
    rewrite Z.div_mul by lia; reflexivity). reflexivity.
Qed.

Lemma trans_parts s pte :
  13 <= s <= 48 -> exists q, 0 <= q < 2 ^ 43 /\ trans_of s pte = q * 8 + pte mod 8 /\
    pte mod 2 ^ 56 - pte mod 2 ^ s = q * 8192.
Proof.
  intros Hs. destruct (frame_mult s pte Hs) as (q & Hq & E). exists q. split; [trivial|].
  unfold trans_of. rewrite E. replace (q * 2 ^ 13) with (q * 8 * 1024) by lia.
  rewrite Z.div_mul by lia. lia.
Qed.

(** The physical address as the code computes it from a translation. *)
Lemma trans_phys s pte addr :
  13 <= s <= 48 -> is_octa addr ->
  shl64 (trans_of s pte .& not64 0x7) 10 +o ((addr .& 0x1FFFFFFFFFFFFFFF) .& (2 ^ s - 1))
  = pt_phys s pte addr.
Proof.
  intros Hs Ha. destruct (trans_parts s pte Hs) as (q & Hq & Et & Ef). unfold pt_phys. rewrite Ef, Et.
  pose proof (Z.mod_pos_bound pte 8). change 0x7 with (2 ^ 3 - 1).
  rewrite land_not_mask by (try lia; wordlia). change (2 ^ 3) with 8.
  replace (q * 8 + pte mod 8 - (q * 8 + pte mod 8) mod 8) with (q * 8) by dmlia.
  rewrite shl_exact by (try lia; wordlia). change (2 ^ 10) with 1024.
  rewrite (land_mask_eq addr 61), land_mask, mod_pow_pow by lia.
  pose proof (pow2_pos s). pose proof (Z.mod_pos_bound addr (2 ^ s)).
  pose proof (Z.pow_le_mono_r 2 s 48). rewrite wrap_small by wordlia. lia.
Qed.

(** The permissions of a translation are those of the entry. *)
Lemma trans_testbit s pte i :
  13 <= s <= 48 -> 0 <= i < 3 -> Z.testbit (trans_of s pte) i = Z.testbit pte i.
Proof.
  intros Hs Hi. destruct (trans_parts s pte Hs) as (q & Hq & -> & _).
  rewrite <- (Z.mod_pow2_bits_low _ 3) by lia. rewrite <- (Z.mod_pow2_bits_low pte 3) by lia.
  f_equal. change (2 ^ 3) with 8. dmlia.
Qed.

Lemma trans_range s pte : 13 <= s <= 48 -> is_octa (trans_of s pte).
Proof.
  intros Hs. destruct (trans_parts s pte Hs) as (q & Hq & -> & _).
  pose proof (Z.mod_pos_bound pte 8). wordlia.
Qed.

Lemma trans_perms s pte e :
  13 <= s <= 48 -> is_octa pte -> is_word 3 e ->
  trans_of s pte .& e = pte .& e /\ e .& not64 (trans_of s pte) = e .& not64 pte.
Proof.
  intros Hs Hp He. pose proof (trans_range s pte Hs) as Ht.
  split; apply Z.bits_inj'; intros i Hi; rewrite !Z.land_spec.
  - destruct (Z_lt_le_dec i 3); [rewrite trans_testbit by lia; reflexivity|].
    rewrite (testbit_high 3 e) by (trivial; lia). btauto.
  - destruct (Z_lt_le_dec i 3); [|rewrite (testbit_high 3 e) by (trivial; lia); reflexivity].
    rewrite !testbit_wnot, trans_testbit by (trivial; lia). reflexivity.
Qed.

(** ** The walk through the data cache *)

(** The octas of RAM, seen through the data cache, are given by [f]. *)
Definition vm_ok (f : Z -> Z) (m : machine) : Prop :=
  cache_ok CACHE_DATA m /\ forall a, octa_addr a -> ram_addr m a -> view CACHE_DATA m a = f a.

Lemma vm_octa f m a : vm_ok f m -> octa_addr a -> ram_addr m a -> is_octa (f a).
Proof. intros [HO V] Ha Hr. rewrite <- V by trivial. apply view_octa; trivial. Qed.

Lemma vm_read f a flags m :
  vm_ok f m -> octa_addr a -> ram_addr m a -> has_flag flags MEM_UNINITIALIZED = false ->
  exists m', cache_read CACHE_DATA a flags m = (Ret (f a), m') /\ vm_ok f m' /\ core m' = core m.
Proof.
  intros [HO V] Ha Hr Hfl. pose proof (cache_memory CACHE_DATA flags Hfl) as FM.
  destruct (fm_read a m HO Hr) as (m' & E & HO' & Ec & V'). rewrite align8_id, V in E by trivial.
  exists m'. split; [trivial|]. split; [|trivial]. split; [trivial|]. intros b Hb Hbr.
  assert (ram_addr m b) by (unfold ram_addr in *; rewrite (core_cfg _ _ Ec) in Hbr; trivial).
  rewrite (proj2 (V' b ltac:(trivial)) Hb). auto.
Qed.

(** The exception of a page that is not mapped. *)
Definition fault (mode : Z) : outcome Z :=
  Throw EX_DYNAMIC_TRAP (TRAP_REPEAT .| shl64 mode MMU_EX_OFFSET).

Lemma ptp_check ptp n :
  is_octa ptp ->
  negb (truth (ptp .& MSB 64)) || negb ((ptp .>> 3) .& 0x3FF =? n)
  = negb ((2 ^ 63 <=? ptp) && (asid ptp =? n)).
Proof.
  intros Hp. rewrite truth_msb, asid_bits by trivial. rewrite Z.leb_antisym.
  destruct (ptp <? 2 ^ 63), (asid ptp =? n); reflexivity.
Qed.

Lemma next_table ptp : is_octa ptp -> (ptp .& not64 (MSB 64)) .>> 13 = ptp mod 2 ^ 63 / 8192.
Proof. intros Hp. change (not64 (MSB 64)) with (2 ^ 63 - 1). rewrite land_mask, shiftr_div by lia. reflexivity. Qed.

Lemma next_table_range ptp : is_octa ptp -> 0 <= ptp mod 2 ^ 63 / 8192 < 2 ^ 50.
Proof. intros Hp. dmlia. Qed.

Section Walk.
Context (f : Z -> Z) (n p mode flags : Z) (Hfl : has_flag flags MEM_UNINITIALIZED = false).

Lemma resolve_ptps_spec j c m :
  vm_ok f m -> 0 <= c < 2 ^ 50 -> pt_within (ram_addr m) f n p j c ->
  exists m', resolve_ptps j c p n mode flags m =
      (match pt_follow f n p j c with Some c' => Ret c' | None => fault mode end, m') /\
    vm_ok f m' /\ core m' = core m /\
    (forall c', pt_follow f n p j c = Some c' ->
       0 <= c' < 2 ^ 50 /\ ram_addr m (pt_addr c' (digit p 0))).
Proof.
  revert c m; induction j as [|j IH]; intros c m HV Hc Hw; cbn [resolve_ptps pt_follow].
  { exists m. do 3 (split; [trivial|]). intros c' [= <-]. auto. }
  cbn [pt_within] in Hw. rewrite digit_bits by lia. set (d := digit p (Z.of_nat (S j))) in *.
  destruct (pt_addr_bits c d Hc (digit_range _ _)) as [EA HA]. rewrite EA.
  destruct Hw as [Hr Hw]. destruct (vm_read f _ flags m HV HA Hr Hfl) as (m1 & E1 & HV1 & Ec1).
  rewrite (bind_ret _ _ _ _ _ E1). set (ptp := f (pt_addr c d)) in *.
  assert (Hp : is_octa ptp) by exact (vm_octa f m _ HV HA Hr). rewrite ptp_check by trivial.
  destruct ((2 ^ 63 <=? ptp) && (asid ptp =? n)) eqn:EB; cbn [negb].
  - rewrite next_table by trivial. assert (Er : ram_addr m1 = ram_addr m)
      by (unfold ram_addr; rewrite (core_cfg _ _ Ec1); reflexivity).
    destruct (IH (ptp mod 2 ^ 63 / 8192) m1 HV1 (next_table_range ptp Hp)) as (m2 & E2 & HV2 & Ec2 & H2);
      [rewrite Er; apply Hw; trivial|].
    exists m2. rewrite Er in H2. split; [trivial|]. split; [trivial|]. split; [congruence|trivial].
  - exists m1. split; [reflexivity|]. split; [trivial|]. split; [trivial|discriminate].
Qed.
End Walk.

Definition segment_ok (addr : Z) : Prop := is_octa addr /\ addr < 2 ^ 63.

Lemma segment_range addr : segment_ok addr -> 0 <= segment addr < 4 /\
  addr .>> 61 = segment addr /\ addr .& 0x1FFFFFFFFFFFFFFF = seg_offset addr.
Proof.
  intros [Ha Hl]. unfold segment, seg_offset. rewrite shiftr_div, (land_mask_eq addr 61) by lia.
  unfold is_word in Ha. split; [|auto]. Z.div_mod_to_equations; lia.
Qed.

(** The tables of the address, all of them in RAM. *)
Definition tables_in_ram (m : machine) (f : Z -> Z) (vtr : sVirtTransReg) (addr : Z) : Prop :=
  let p := page_no (vt_s vtr) addr in
  pt_within (ram_addr m) f (vt_n vtr) p (Z.to_nat (level p)) (pt_root vtr addr).

Lemma page_no_range vtr addr :
  valid_vtr vtr -> 0 <= page_no (vt_s vtr) addr < 2 ^ 48.
Proof.
  intros V. unfold page_no, seg_offset. pose proof (Z.mod_pos_bound addr (2 ^ 61)).
  pose proof (vv_s vtr V). pose proof (pow2_pos (vt_s vtr)).
  split; [apply Z.div_pos; lia|]. apply Z.div_lt_upper_bound; [lia|].
  pose proof (Z.pow_le_mono_r 2 13 (vt_s vtr)). lia.
Qed.

Lemma level_range p : 0 <= p < 2 ^ 48 -> 0 <= level p <= 4.
Proof.
  intros Hp. unfold level. pose proof (Z.log2_nonneg p).
  assert (Z.log2 p < 48) by (destruct (Z.eq_dec p 0) as [->|]; [reflexivity|apply Z.log2_lt_pow2; lia]).
  Z.div_mod_to_equations; lia.
Qed.

Lemma segment_limit vtr addr m :
  valid_vtr vtr -> segment_ok addr ->
  let d := vt_b vtr (segment addr + 1) - vt_b vtr (segment addr) in
  c_shl64 1 (10 * d) m = (Ret (1024 ^ d), m) /\
  (vt_b vtr (segment addr + 1) <? vt_b vtr (segment addr)) = false.
Proof.
  intros V Ha d. destruct (segment_range addr Ha) as (Hs & _).
  destruct (vv_b vtr V _ Hs) as (H1 & H2 & _). split; [|apply Z.ltb_ge; lia].
  rewrite c_shl64_eq, shl64_one, Z.pow_mul_r by lia. reflexivity.
Qed.

Lemma root_table vtr addr :
  valid_vtr vtr -> segment_ok addr ->
  let p := page_no (vt_s vtr) addr in
  wrap64 ((vt_r vtr .>> 13) + vt_b vtr (segment addr) + page_level 7 p 0) = pt_root vtr addr /\
  0 <= pt_root vtr addr < 2 ^ 50 /\ page_level 7 p 0 = level p.
Proof.
  intros V Ha p. destruct (segment_range addr Ha) as (Hs & _).
  destruct (vv_b vtr V _ Hs) as (H1 & H2 & H3). pose proof (page_no_range vtr addr V) as Hp.
  pose proof (level_range _ Hp) as Hl. fold p in Hp, Hl.
  rewrite page_level_spec, shiftr_div by (change (1024 ^ (Z.of_nat 7 + 1)) with (2 ^ 80); lia).
  unfold pt_root. fold p. pose proof (vv_r vtr V).
  assert (0 <= vt_r vtr / 2 ^ 13 < 2 ^ 27) by dmlia. change 8192 with (2 ^ 13).
  rewrite wrap_small by wordlia. split; [lia|]. split; lia.
Qed.

(** The walk of the code is the reference walk. *)
Lemma mmu_walk_spec f vtr addr mode se m :
  vm_ok f m -> valid_vtr vtr -> segment_ok addr -> tables_in_ram m f vtr addr ->
  exists m', mmu_walk vtr (addr .>> 61) (addr .& 0x1FFFFFFFFFFFFFFF) mode se m =
      (match pt_entry f vtr addr with
       | Some pte => Ret (trans_of (vt_s vtr) pte)
       | None => fault mode
       end, m') /\
    vm_ok f m' /\ core m' = core m /\ (forall pte, pt_entry f vtr addr = Some pte -> is_octa pte).
Proof.
  intros HV V Ha HT. destruct (segment_range addr Ha) as (Hs & -> & ->). unfold mmu_walk.
  pose proof (vv_s vtr V) as Hsz. rewrite shiftr_div by lia. fold (page_no (vt_s vtr) addr).
  unfold pt_entry. set (p := page_no (vt_s vtr) addr).
  destruct (segment_limit vtr addr m V Ha) as [EL ->]. rewrite (bind_ret _ _ _ _ _ EL). cbn [orb].
  rewrite Z.ltb_antisym. destruct (1024 ^ _ <=? p); cbn [negb].
  { exists m. split; [reflexivity|]. split; [trivial|]. split; [trivial|discriminate]. }
  destruct (root_table vtr addr V Ha) as (Ec & Hc & El). fold p in Ec, El. rewrite Ec, El.
  destruct (resolve_ptps_spec f (vt_n vtr) p mode (if se then MEM_SIDE_EFFECTS else 0)
              ltac:(destruct se; reflexivity) (Z.to_nat (level p)) (pt_root vtr addr) m HV Hc HT)
    as (m1 & E1 & HV1 & Ec1 & H1).
  destruct (pt_follow f (vt_n vtr) p (Z.to_nat (level p)) (pt_root vtr addr)) as [c|]; cbn [mbind option_bind].
  2: { exists m1. split; [apply (bind_throw _ _ _ _ _ _ E1)|]. split; [trivial|]. split; [trivial|discriminate]. }
  rewrite (bind_ret _ _ _ _ _ E1). destruct (H1 c eq_refl) as [Hc1 Hr1].
  assert (ED : p .& 0x3FF = digit p 0) by (rewrite <- digit_bits, Z.shiftr_0_r by lia; reflexivity).
  rewrite ED. destruct (pt_addr_bits c (digit p 0) Hc1 (digit_range _ _)) as [-> HA].
  assert (Hr2 : ram_addr m1 (pt_addr c (digit p 0)))
    by (unfold ram_addr; rewrite (core_cfg _ _ Ec1); exact Hr1).
  destruct (vm_read f _ (if se then MEM_SIDE_EFFECTS else 0) m1 HV1 HA Hr2
              ltac:(destruct se; reflexivity)) as (m2 & E2 & HV2 & Ec2).
  rewrite (bind_ret _ _ _ _ _ E2), asid_bits. pose proof (vm_octa f m1 _ HV1 HA Hr2) as Ho.
  exists m2. destruct (asid (f (pt_addr c (digit p 0))) =? vt_n vtr); cbn [negb].
  - rewrite pteToTrans_spec by trivial. split; [reflexivity|]. split; [trivial|]. split; [congruence|].
    intros pte [= <-]. trivial.
  - split; [reflexivity|]. split; [trivial|]. split; [congruence|discriminate].
Qed.

(** ** The translation caches agree with the page tables *)

(** The key of a page. *)
Definition page_key (vtr : sVirtTransReg) (addr : Z) : Z :=
  addr - addr mod 2 ^ vt_s vtr + vt_n vtr * 8.

Lemma addrToKey_spec vtr addr m :
  valid_vtr vtr -> segment_ok addr ->
  tc_addrToKey addr (vt_s vtr) (vt_n vtr) m = (Ret (page_key vtr addr), m).
Proof.
  intros V [Ha Hl]. pose proof (vv_s vtr V). pose proof (vv_n vtr V). unfold tc_addrToKey, page_key.
  rewrite (bind_ret _ _ _ _ _ (c_shl64_eq 1 (vt_s vtr) m ltac:(lia))), shl64_one, page_mask by lia.
  change (not64 (MSB 64)) with (2 ^ 63 - 1). rewrite land_mask, Z.mod_small by (unfold is_word in Ha; lia).
  rewrite land_not_mask by (trivial; lia).
  assert (E : exists q, addr - addr mod 2 ^ vt_s vtr = q * 2 ^ 13).
  { exists (addr / 2 ^ vt_s vtr * 2 ^ (vt_s vtr - 13)). pose proof (pow2_pos (vt_s vtr)).
    rewrite <- Z.mul_assoc, <- Z.pow_add_r by lia. replace (vt_s vtr - 13 + 13) with (vt_s vtr) by lia.
    pose proof (Z.div_mod addr (2 ^ vt_s vtr)). lia. }
  destruct E as [q ->]. rewrite lor_disjoint by lia. reflexivity.
Qed.

Lemma page_key_range vtr addr : valid_vtr vtr -> segment_ok addr -> 0 <= page_key vtr addr < 2 ^ 63.
Proof.
  intros V [Ha Hl]. pose proof (vv_s vtr V). pose proof (vv_n vtr V). unfold page_key.
  set (s := vt_s vtr) in *. pose proof (pow2_pos s). pose proof (Z.mod_pos_bound addr (2 ^ s)).
  pose proof (Z.pow_le_mono_r 2 13 s). pose proof (Z.pow_le_mono_r 2 s 48). unfold is_word in Ha.
  assert (addr - addr mod 2 ^ s <= 2 ^ 63 - 2 ^ s); [|pose proof (Z.mod_le addr (2 ^ s)); lia].
  assert (2 ^ 63 = 2 ^ (63 - s) * 2 ^ s) by (rewrite <- Z.pow_add_r by lia; f_equal; lia).
  pose proof (Z.div_mod addr (2 ^ s)).
  assert (addr / 2 ^ s < 2 ^ (63 - s)) by (apply Z.div_lt_upper_bound; lia). nia.
Qed.

(** The entry of an address is the entry of its page. *)
Lemma page_key_entry f vtr a b :
  valid_vtr vtr -> page_key vtr a = page_key vtr b -> pt_entry f vtr a = pt_entry f vtr b.
Proof.
  intros V E. pose proof (vv_s vtr V). unfold page_key in E. set (s := vt_s vtr) in *.
  pose proof (pow2_pos s) as Hp.
  assert (Eq : a / 2 ^ s = b / 2 ^ s).
  { pose proof (Z.div_mod a (2 ^ s)). pose proof (Z.div_mod b (2 ^ s)). nia. }
  assert (H61 : 2 ^ 61 = 2 ^ s * 2 ^ (61 - s)) by (rewrite <- Z.pow_add_r by lia; f_equal; lia).
  pose proof (pow2_pos (61 - s)).
  assert (Es : segment a = segment b).
  { unfold segment. rewrite H61, <- !Z.div_div, Eq by lia. reflexivity. }
  assert (Ep : page_no s a = page_no s b).
  { unfold page_no, seg_offset. rewrite H61, !Z.rem_mul_r, !(Z.mul_comm (2 ^ s)), !Z.div_add, Eq by lia.
    rewrite (Z.div_small (a mod _)), (Z.div_small (b mod _)) by (apply Z.mod_pos_bound; lia). reflexivity. }
  unfold pt_entry, pt_root. fold s. rewrite Es, Ep. reflexivity.
Qed.

Record tc_coherent (f : Z -> Z) (vtr : sVirtTransReg) (m : machine) : Prop := {
  tcc_wf : forall tc, wf_tc (m_tcs m tc) /\ (0 < tc_size (m_tcs m tc))%nat;
  tcc_trans : forall tc i addr, segment_ok addr -> in_tc (m_tcs m tc) i (page_key vtr addr) ->
    exists pte, pt_entry f vtr addr = Some pte /\ is_octa pte /\
      tce_translation (tc_entries (m_tcs m tc) i) = trans_of (vt_s vtr) pte
}.

Lemma tc_coherent_tcs f vtr m m' : m_tcs m' = m_tcs m -> tc_coherent f vtr m -> tc_coherent f vtr m'.
Proof. intros E [? ?]. constructor; rewrite E; trivial. Qed.

(** A lookup keeps the entries. *)
Lemma tc_coherent_entries f vtr tc m m' :
  tc_frame tc m m' -> wf_tc (m_tcs m' tc) -> tc_entries (m_tcs m' tc) = tc_entries (m_tcs m tc) ->
  tc_size (m_tcs m' tc) = tc_size (m_tcs m tc) -> tc_coherent f vtr m -> tc_coherent f vtr m'.
Proof.
  intros [_ F] W E Sz [HW HT]. constructor; intros c; destruct (decide (c = tc)) as [->|N].
  - rewrite Sz. split; [trivial|apply HW].
  - rewrite F by trivial. apply HW.
  - intros i addr Ha [Hi Ki]. rewrite E. apply (HT tc i addr Ha).
    split; [rewrite <- Sz|rewrite <- E]; trivial.
  - rewrite F by trivial. apply HT.
Qed.

(** The translation of a page is added to a translation cache. *)
Lemma tc_coherent_set f vtr tc addr pte m :
  valid_vtr vtr -> tc_coherent f vtr m -> segment_ok addr ->
  pt_entry f vtr addr = Some pte -> is_octa pte ->
  exists m', tc_set tc (page_key vtr addr) (trans_of (vt_s vtr) pte) m = (Ret (Some (victim tc m)), m') /\
    tc_coherent f vtr m' /\
    m' = set_m_nextIndex (m_nextIndex m') (set_m_tcs (m_tcs m') m).
Proof.
  intros V [HW HT] Ha Ep Ho. destruct (HW tc) as [W Hs]. rewrite tc_set_eq by trivial.
  eexists. split; [reflexivity|]. split; [|reflexivity].
  constructor; intros c; destruct (decide (c = tc)) as [->|N];
    rewrite ?tcs_with_tc, ?tcs_with_other by trivial.
  - rewrite tc_overwrite_size. split; [apply tc_overwrite_wf; trivial|trivial].
  - apply HW.
  - intros i b Hb [Hi Ki]. rewrite tc_overwrite_size in Hi. rewrite tc_overwrite_entries in *.
    destruct (i =? victim tc m).
    + cbn in Ki. rewrite (page_key_entry f vtr b addr) by auto. exists pte. auto.
    + apply (HT tc i b Hb). split; trivial.
  - apply HT.
Qed.

(** ** Translation *)

(** The unpacked copy of rV is that of [oldrV]. *)
Definition vtr_ok (m : machine) : Prop := m_vtr m = mmu_unpackrV (m_oldrV m).

Definition vm_part (m : machine) := (m_ram m, m_cfg m, m_devices m, m_caches m).

(** What a translation leaves alone. *)
Definition untouched (m : machine) := (m_reg m, m_cpu m, m_devices m, m_rom m, m_timer m, m_cfg m).

Lemma getVtr_spec m :
  vtr_ok m ->
  exists m', mmu_getVtr m = (Ret (mmu_unpackrV (r_special (m_reg m) rV)), m') /\ vtr_ok m' /\
    vm_part m' = vm_part m /\ m_tcs m' = m_tcs m /\ untouched m' = untouched m.
Proof.
  intros H. unfold mmu_getVtr. rewrite (bind_ret _ _ _ _ _ (getSpecial_eq rV m eq_refl)), bind_gets.
  destruct (Z.eqb_spec (r_special (m_reg m) rV) (m_oldrV m)) as [E|E]; cbn [negb].
  - rewrite (bind_ret _ _ m tt m) by reflexivity. exists m. unfold gets. rewrite H, E. auto.
  - unfold when. rewrite bind_modify. eexists. csplit; reflexivity.
Qed.

Lemma vm_ok_frame f m m' : vm_part m' = vm_part m -> vm_ok f m -> vm_ok f m'.
Proof.
  intros [= E1 E2 E3 E4] [[[? ? ? ?] W Co] V]. split; [constructor|].
  - constructor; rewrite ?E1, ?E2, ?E3; trivial.
  - rewrite E4. apply (wf_cache_frame m); trivial.
  - unfold coherent, mem in *. rewrite E4, E1. trivial.
  - unfold view, mem, ram_addr in *. rewrite E4, E2, E1. trivial.
Qed.

(** The outcome of a translation, from the page tables. *)
Definition translated (f : Z -> Z) (vtr : sVirtTransReg) (addr mode expected : Z) : outcome Z :=
  match pt_entry f vtr addr with
  | None => fault mode
  | Some pte =>
    if truth (pte .& expected) then Ret (pt_phys (vt_s vtr) pte addr)
    else Throw EX_DYNAMIC_TRAP (TRAP_REPEAT .| shl64 (mode .& not64 pte) MMU_EX_OFFSET)
  end.

Lemma check_entry vtr pte addr mode expected m :
  valid_vtr vtr -> segment_ok addr -> is_octa pte -> is_word 3 mode -> is_word 3 expected ->
  (if negb (truth (trans_of (vt_s vtr) pte .& expected)) then
     ex_throw EX_DYNAMIC_TRAP
       (TRAP_REPEAT .| shl64 (mode .& not64 (trans_of (vt_s vtr) pte)) MMU_EX_OFFSET)
   else
     p ← c_shl64 1 (vt_s vtr);
     mret (shl64 (trans_of (vt_s vtr) pte .& not64 0x7) 10
           +o ((addr .& 0x1FFFFFFFFFFFFFFF) .& (p -o 1)))) m
  = (if truth (pte .& expected) then Ret (pt_phys (vt_s vtr) pte addr)
     else Throw EX_DYNAMIC_TRAP (TRAP_REPEAT .| shl64 (mode .& not64 pte) MMU_EX_OFFSET), m).
Proof.
  intros V [Ha _] Hp Hm He. pose proof (vv_s vtr V) as Hs.
  rewrite (proj1 (trans_perms _ pte expected Hs Hp He)), (proj2 (trans_perms _ pte mode Hs Hp Hm)).
  destruct (truth (pte .& expected)); cbn [negb]; [|reflexivity].
  rewrite (bind_ret _ _ _ _ _ (c_shl64_eq 1 (vt_s vtr) m ltac:(lia))), shl64_one, page_mask by lia.
  rewrite trans_phys by trivial. reflexivity.
Qed.

Section Translate.
Context (f : Z -> Z) (vtr : sVirtTransReg) (V : valid_vtr vtr) (Hv : vt_invalid vtr = false)
  (Hf : vt_f vtr = 0).

(** The invariant of the translation. *)
Record tr_ok (m : machine) : Prop := {
  to_vm : vm_ok f m;
  to_vtr : vtr_ok m;
  to_rv : vtr = mmu_unpackrV (r_special (m_reg m) rV);
  to_tc : tc_coherent f vtr m
}.

(** A miss: the walk, and the new entry of the translation cache. *)
Lemma translate_miss tc addr mode m :
  tr_ok m -> segment_ok addr -> tables_in_ram m f vtr addr ->
  exists m', (pte ← mmu_walk vtr (addr .>> 61) (addr .& 0x1FFFFFFFFFFFFFFF) mode true;
              (_ ← tc_set tc (page_key vtr addr) pte; mret tt);; mret pte) m
    = (match pt_entry f vtr addr with
       | Some pte => Ret (trans_of (vt_s vtr) pte)
       | None => fault mode
       end, m') /\
    tr_ok m' /\ untouched m' = untouched m /\ (forall pte, pt_entry f vtr addr = Some pte -> is_octa pte).
Proof.
  intros [HV Hvtr Hrv HT] Ha HD.
  destruct (mmu_walk_spec f vtr addr mode true m HV V Ha HD) as (m1 & E1 & HV1 & Ec & Hp).
  assert (HT1 : tc_coherent f vtr m1) by (apply (tc_coherent_tcs f vtr m); [unfold core in Ec; congruence|trivial]).
  assert (HO1 : tr_ok m1 /\ untouched m1 = untouched m).
  { unfold core in Ec. split; [constructor; trivial|unfold untouched; congruence].
    - unfold vtr_ok in *. congruence.
    - congruence. }
  destruct HO1 as [HO1 U1]. destruct (pt_entry f vtr addr) as [pte|] eqn:Ep.
  2: { exists m1. split; [apply (bind_throw _ _ _ _ _ _ E1)|]. auto. }
  rewrite (bind_ret _ _ _ _ _ E1).
  destruct (tc_coherent_set f vtr tc addr pte m1 V HT1 Ha Ep (Hp pte eq_refl)) as (m2 & E2 & HT2 & F2).
  rewrite bind_assoc, (bind_ret _ _ _ _ _ E2). exists m2. split; [reflexivity|].
  assert (U2 : untouched m2 = untouched m1) by (rewrite F2; reflexivity).
  split; [|split; [congruence|trivial]]. destruct HO1. constructor; trivial.
  - apply (vm_ok_frame f m1); [rewrite F2; reflexivity|trivial].
  - unfold vtr_ok in *. rewrite F2. trivial.
  - rewrite F2. trivial.
Qed.

Lemma translate_spec addr mode expected m :
  tr_ok m -> segment_ok addr -> tables_in_ram m f vtr addr ->
  is_word 3 mode -> is_word 3 expected ->
  exists m', mmu_translate addr mode expected true m = (translated f vtr addr mode expected, m') /\
    tr_ok m' /\ untouched m' = untouched m.
Proof.
  intros [HV Hvtr Hrv HT] Ha HD Hm He. unfold mmu_translate, translated.
  rewrite (bind_ret (when true _) _ m tt (set_m_log (EV_VAT addr mode :: m_log m) m)) by reflexivity.
  set (m0 := set_m_log _ m). destruct (Ha) as [Ho Hl].
  rewrite priv_spec by trivial. replace (addr <? 2 ^ 63) with true by (symmetry; apply Z.ltb_lt; trivial).
  cbn [negb]. destruct (getVtr_spec m0 Hvtr) as (m1 & E1 & Hvtr1 & Vp1 & Tc1 & U1).
  change (r_special (m_reg m0) rV) with (r_special (m_reg m) rV) in E1. rewrite <- Hrv in E1.
  rewrite (bind_ret _ _ _ _ _ E1), Hv, (bind_ret _ _ _ _ _ (addrToKey_spec vtr addr m1 V Ha)).
  set (tc := if truth (mode .& MEM_EXEC) then TC_INSTR else TC_DATA).
  assert (HT1 : tc_coherent f vtr m1) by (apply (tc_coherent_tcs f vtr m); trivial).
  assert (Kr : page_key vtr addr <> NO_KEY)
    by (pose proof (page_key_range vtr addr V Ha); change NO_KEY with (2 ^ 64 - 1); lia).
  destruct (tc_getByKey_spec tc (page_key vtr addr) m1 (proj1 (tcc_wf _ _ _ HT1 tc)) Kr)
    as (r & m2 & E2 & F2 & W2 & En2 & Sz2 & R).
  rewrite (bind_ret _ _ _ _ _ E2).
  assert (HT2 : tc_coherent f vtr m2) by (eapply tc_coherent_entries; eauto).
  assert (U2 : untouched m2 = untouched m) by (rewrite (proj1 F2); exact U1).
  assert (HV2 : vm_ok f m2) by (apply (vm_ok_frame f m); [rewrite (proj1 F2); exact Vp1|trivial]).
  assert (HO2 : tr_ok m2).
  { constructor; trivial; [unfold vtr_ok in *; rewrite (proj1 F2); trivial|].
    unfold untouched in U2. congruence. }
  destruct r as [i|].
  - destruct (tcc_trans _ _ _ HT1 tc i addr Ha R) as (pte & Ep & Hp & Et).
    rewrite Ep. unfold tc_entry. rewrite bind_assoc, bind_gets, bind_mret, En2, Et.
    rewrite check_entry by trivial. exists m2. auto.
  - cbn [andb]. rewrite Hf. cbn [Z.eqb].
    assert (HD2 : tables_in_ram m2 f vtr addr).
    { unfold tables_in_ram, ram_addr in *. unfold untouched in U2. replace (m_cfg m2) with (m_cfg m) by congruence.
      exact HD. }
    destruct (translate_miss tc addr mode m2 HO2 Ha HD2) as (m3 & E3 & HO3 & U3 & Hp).
    exists m3. split; [|split; [trivial|congruence]].
    destruct (pt_entry f vtr addr) as [pte|]; [|apply (bind_throw _ _ _ _ _ _ E3)].
    rewrite (bind_ret _ _ _ _ _ E3). apply check_entry; auto.
Qed.
End Translate.

Lemma valid_not_invalid rv :
  valid_vtr (mmu_unpackrV rv) -> vt_f (mmu_unpackrV rv) = 0 -> vt_invalid (mmu_unpackrV rv) = false.
Proof.
  intros V Hf. pose proof (vv_s _ V) as Hs. cbn [vt_s vt_f vt_invalid mmu_unpackrV] in *.
  rewrite Hf. apply orb_false_iff. split; [|reflexivity].
  apply orb_false_iff. rewrite !Z.ltb_ge. lia.
Qed.

(** ** Properties *)

Opaque started.

(** C1: Address translation implements the page tables.  For a valid rV, a virtual
    address whose page tables are in RAM is translated to the frame of its page table
    entry plus the offset in the page if the entry grants the access, and throws the
    page fault with the missing permissions otherwise - no matter which pages are in
    the translation caches and which parts of the tables are in the data cache.  All
    of these stay consistent with the tables, and registers and devices untouched. *)
Theorem translate_refines_tables f addr mode expected m :
  let vtr := mmu_unpackrV (r_special (m_reg m) rV) in
  valid_vtr vtr -> vt_f vtr = 0 -> tr_ok f vtr m -> segment_ok addr ->
  tables_in_ram m f vtr addr -> is_word 3 mode -> is_word 3 expected ->
  exists m', mmu_translate addr mode expected true m = (translated f vtr addr mode expected, m') /\
    tr_ok f vtr m' /\ untouched m' = untouched m.
Proof.
  intros vtr V Hf HO Ha HD Hm He.
  apply translate_spec; trivial. apply valid_not_invalid; trivial.
Qed.

(** Segments of one, two, three and four pages of page tables at 0x2000, pages of 8 KB. *)
Definition sample_rV : Z := 0x12340D0000002000.

(** RAM holds the entry of page 0: the frame 0x4000, with all permissions. *)
Definition sample_mem : Z -> Z := fun a => if a =? 0x2000 then 0x4007 else 0.

Definition unpaged : machine :=
  set_m_oldrV 0 (set_m_vtr (mmu_unpackrV 0) (set_m_reg (put_special rV sample_rV (m_reg started))
    (snd (tc_init started)))).

Definition paged : machine := snd (cache_write CACHE_DATA 0x2000 0x4007 0 unpaged).

Lemma unpaged_vm : vm_ok (fun _ => 0) unpaged.
Proof.
  apply (vm_ok_frame (fun _ => 0) started); [reflexivity|]. split; [apply started_ok|].
  intros a Ha Hr. apply started_view; [trivial|].
  destruct (wb_size _ started_bus) as [Hs _]. unfold ram_addr in Hr. lia.
Qed.

Lemma sample_valid : valid_vtr (mmu_unpackrV sample_rV).
Proof.
  constructor; try (vm_compute; intuition congruence).
  intros i Hi. assert (i = 0 \/ i = 1 \/ i = 2 \/ i = 3) as [->|[->|[->| ->]]] by lia;
    vm_compute; intuition congruence.
Qed.

Lemma unpaged_tcs f : tc_coherent f (mmu_unpackrV sample_rV) unpaged.
Proof.
  constructor; intros tc; [destruct tc; split; try apply wf_tc_empty; cbn; lia|].
  intros i addr Ha [_ Hk]. exfalso.
  pose proof (page_key_range _ addr sample_valid Ha) as Hr. rewrite <- Hk in Hr.
  destruct tc; change (0 <= 2 ^ 63 < 2 ^ 63) in Hr; lia.
Qed.

Lemma paged_ok : tr_ok sample_mem (mmu_unpackrV sample_rV) paged /\ m_cfg paged = m_cfg started /\
  m_reg paged = put_special rV sample_rV (m_reg started).
Proof.
  destruct unpaged_vm as [HO HV]. pose proof (cache_memory CACHE_DATA 0 eq_refl) as FM.
  assert (Hr : ram_addr unpaged 0x2000) by (apply (started_addr 0x2000); lia).
  destruct (fm_write 0x2000 0x4007 unpaged HO Hr) as (m & E & HO' & Ec & V); [concrete_word|].
  unfold paged. rewrite E. cbn [snd]. unfold core in Ec.
  assert (Er : m_reg m = m_reg unpaged) by congruence.
  split; [|split; [replace (m_cfg m) with (m_cfg unpaged) by congruence|rewrite Er]; reflexivity].
  constructor.
  - split; [trivial|]. intros a Ha Hr'.
    assert (Hr1 : ram_addr unpaged a) by (unfold ram_addr in *; congruence).
    rewrite (proj2 (V a Hr1) Ha), HV by trivial. reflexivity.
  - unfold vtr_ok. replace (m_vtr m) with (m_vtr unpaged) by congruence.
    replace (m_oldrV m) with (m_oldrV unpaged) by congruence. reflexivity.
  - rewrite Er. reflexivity.
  - apply (tc_coherent_tcs _ _ unpaged); [congruence|apply unpaged_tcs].
Qed.

Lemma translate_refines_tables_witness :
  exists m', mmu_translate 0x10 MEM_READ MEM_READ true paged = (Ret 0x4010, m').
Proof.
  destruct paged_ok as (HO & Ecfg & Ereg).
  assert (Ev : mmu_unpackrV (r_special (m_reg paged) rV) = mmu_unpackrV sample_rV) by (rewrite Ereg; reflexivity).
  destruct (translate_refines_tables sample_mem 0x10 MEM_READ MEM_READ paged) as (m' & E & _);
    [rewrite ?Ev..|concrete_word|concrete_word|].
  - apply sample_valid.
  - reflexivity.
  - exact HO.
  - split; [concrete_word|lia].
  - change (ram_addr paged 0x2000). unfold ram_addr. rewrite Ecfg. apply (started_addr 0x2000). lia.
  - exists m'. rewrite E, Ev. reflexivity.
Defined.

(** A segment of more than 1024^6 pages, or of a negative size, makes the code shift by
    more than 63 or by a negative count, which C leaves undefined. *)
Lemma segment_limit_undefined vtr seg addr mode se m :
  let d := vt_b vtr (seg + 1) - vt_b vtr seg in
  d < 0 \/ 7 <= d -> mmu_walk vtr seg addr mode se m = (Stop Undefined, m).
Proof.
  intros d Hd. unfold mmu_walk. apply bind_stop. unfold c_shl64.
  replace ((0 <=? _) && (_ <? 64)) with false; [reflexivity|].
  symmetry. apply andb_false_iff. rewrite Z.leb_gt, Z.ltb_ge. fold d. lia.
Qed.
