(* ===== verification/RegStack.v ===== *)
(** * The register stack (gimmix/src/core/register.c)

    The local registers are a window of a ring of 256 registers: [O] is the index of
    $0, [S] the index of the first register of the ring that is not yet in memory.
    Registers are spilled to and reloaded from the stack at rS. *)

From Stdlib Require Import ZArith Lia Bool.
From stdpp Require Import base list numbers option.
From S2P Require Import Prelude Ram Machine Registers Devices Bus Tc Cache Mmu.

Abbreviation RSTACK_DEFAULT := 0.
Abbreviation RSTACK_GREGS := 1.
Abbreviation RSTACK_SPECIAL := 2.
Abbreviation RSTACK_RGRA := 3.

(** ** The code *)

(** [special[rno] = value] without the shortcuts. *)
Definition set_sp (rno value : Z) (r : regs) : regs :=
  set_r_special (upd (r_special r) rno value) r.

(** [local[i & LREG_MASK] = value] *)
Definition set_loc (i value : Z) (r : regs) : regs :=
  set_r_local (upd (r_local r) (i .& LREG_MASK) value) r.

(** [special[rL] = L = l] *)
Definition set_rL (l : Z) (r : regs) : regs := set_sp rL (wrap64 l) (set_r_L l r).

Definition get_reg {A} (f : regs -> A) : M A := gets (fun m => f (m_reg m)).

Definition sp (rno : Z) (r : regs) : Z := r_special r rno.

Definition reg_reset (abstime : Z) : M unit :=
  on_reg (fun _ =>
    mk_regs (fun _ => 0) (fun _ => 0)
      (upd (upd (fun _ => 0) rN (abstime .| shl64 1 56 .| shl64 0 48 .| shl64 2 40)) rG 255)
      0 255 0 0).

Definition reg_stackLoadVal (type index : Z) : M Z :=
  rs ← get_reg (sp rS);
  val ← mmu_readOcta (rs -o 8) MEM_SIDE_EFFECTS;
  on_reg (fun r => set_r_S (r_S r -o 1) r);;
  on_reg (fun r => set_sp rS (sp rS r -o 8) r);;
  ev_fire (EV_STACKLOAD type index);;
  mret val.

Definition reg_stackLoad : M unit :=
  s ← get_reg r_S;
  value ← reg_stackLoadVal RSTACK_DEFAULT ((s -o 1) .& LREG_MASK);
  on_reg (fun r => set_loc (r_S r) value r).

Definition reg_stackStoreVal (val type index : Z) : M unit :=
  rs ← get_reg (sp rS);
  mmu_writeOcta rs val MEM_SIDE_EFFECTS;;
  ev_fire (EV_STACKSTORE type index);;
  on_reg (fun r => set_r_S (r_S r +o 1) r);;
  on_reg (fun r => set_sp rS (sp rS r +o 8) r).

Definition reg_stackStore : M unit :=
  s ← get_reg r_S;
  v ← reg_getLocal s;
  reg_stackStoreVal v RSTACK_DEFAULT (s .& LREG_MASK).

(** [((S - O - l) & LREG_MASK) == 0] *)
Definition ring_meets (r : regs) (l : Z) : bool :=
  wrap64 (r_S r - r_O r - l) .& LREG_MASK =? 0.

(** One iteration of the loop of [reg_set]: one more local register, zeroed. *)
Definition reg_grow : M unit :=
  on_reg (fun r => set_loc (r_O r +o r_L r) 0 r);;
  full ← get_reg (fun r => ring_meets r (r_L r + 1));
  when full reg_stackStore;;
  on_reg (fun r => set_rL (r_L r + 1) r).

Definition reg_set (rno value : Z) : M unit :=
  g ← get_reg r_G;
  if g <=? rno then
    on_reg (fun r => set_r_global (upd (r_global r) (rno .& GREG_MASK) value) r)
  else
    while_m 257 (fun m => r_L (m_reg m) <=? rno) reg_grow;;
    on_reg (fun r => set_loc (r_O r +o rno) value r).

Definition reg_push (rno : Z) : M unit :=
  r ← get_reg id;
  res ← (if r_G r <=? rno then
           let rno := r_L r in
           let curL := r_L r + 1 in
           when (ring_meets r curL) reg_stackStore;;
           on_reg (fun r => set_loc (r_O r +o rno) rno r);;
           mret (rno, curL)
         else
           reg_set rno rno;;
           curL ← get_reg r_L;
           mret (rno, curL));
  let '(rno, curL) := res : Z * Z in
  on_reg (fun r => set_r_O (r_O r +o (rno + 1)) r);;
  on_reg (fun r => set_sp rO (sp rO r +o ((rno + 1) * 8)) r);;
  on_reg (set_rL (curL - (rno + 1))).

(** The loads of [reg_pop]: [rL] shrinks when the window would reach the loaded
    register. *)
Definition reg_reload : M unit :=
  reg_stackLoad;;
  meets ← get_reg (fun r => ring_meets r (r_L r));
  when meets (on_reg (fun r => set_rL (r_L r - 1) r)).

Definition reg_pop (rno : Z) : M unit :=
  r ← get_reg id;
  let holeData :=
    if negb (rno =? 0) && (rno <=? r_L r)
    then r_local r (wrap64 (r_O r + rno - 1) .& LREG_MASK) else 0 in
  let numRets := if rno <=? r_L r then rno else r_L r + 1 in
  when (sp rS r =? sp rO r) reg_reload;;
  numRegs ← get_reg (fun r => r_local r ((r_O r -o 1) .& LREG_MASK) .& 0xFF);
  while_m 257 (fun m => wrap32 (r_O (m_reg m) - r_S (m_reg m)) <=? numRegs) reg_reload;;
  g ← get_reg r_G;
  let l := if g <? numRegs + numRets then g else numRegs + numRets in
  on_reg (set_r_L l);;
  when (numRegs <? l) (on_reg (fun r => set_loc (r_O r -o 1) holeData r));;
  on_reg (fun r => set_r_O (r_O r -o (numRegs + 1)) r);;
  on_reg (fun r => set_sp rO (sp rO r -o ((numRegs + 1) * 8)) r);;
  on_reg (fun r => set_sp rL (r_L r) r).

(** The loop of [reg_checkAccessibility]. *)
Fixpoint check_pages (fuel : nat) (begin end_ pagesize : Z) : M unit :=
  match fuel with
  | O => stop OutOfFuel
  | S fuel =>
    if begin <? end_ then
      val ← mmu_readOcta begin MEM_SIDE_EFFECTS;
      mmu_writeOcta begin val MEM_SIDE_EFFECTS;;
      check_pages fuel (begin +o pagesize) end_ pagesize
    else mret tt
  end.

Definition reg_checkAccessibility (begin end_ : Z) : M unit :=
  if negb (truth (begin .& MSB 64)) then
    rv ← get_reg (sp rV);
    pagesize ← c_shl64 1 ((rv .>> 40) .& 0xFF);
    rk ← get_reg (sp rK);
    if (rk .& (TRAP_PROT_READ .| TRAP_PROT_WRITE) =? 0) && ((pagesize <? 13) || (48 <? pagesize))
    then mret tt
    else check_pages (Z.to_nat 8192) (begin .& wrap64 (- pagesize)) end_ pagesize
  else mret tt.

(** The loop of [reg_save] over g[rG] .. g[255], rB .. rR, rP .. rZ and rG/rA. *)
Fixpoint save_regs (fuel : nat) (k : Z) (changed : bool) : M unit :=
  match fuel with
  | O => stop OutOfFuel
  | S fuel =>
    r ← get_reg id;
    if k =? rZ + 1 then
      let value := shl64 (r_G r) 56 .| (sp rA r .& 0xFFFFFFFF) in
      let value := if changed then value .| 2 ^ 32 else value in
      reg_stackStoreVal value RSTACK_RGRA 0
    else
      (if k <? SPECIAL_NUM then reg_stackStoreVal (sp k r) RSTACK_SPECIAL k
       else reg_stackStoreVal (r_global r k) RSTACK_GREGS k);;
      save_regs fuel (if k =? 255 then rB else if k =? rR then rP else k + 1) changed
  end.

Definition reg_save (dst : Z) (changeStack : bool) : M unit :=
  r0 ← get_reg id;
  assert (r_G r0 <=? dst);;
  let oldrS := sp rS r0 in
  let oldrO := sp rO r0 in
  let doChangeStack := changeStack && negb (truth (oldrS .& MSB 64)) in
  when (negb doChangeStack)
    (reg_checkAccessibility (sp rS r0)
       (wrap64 (sp rO r0 + r_L r0 * 8 + (1 + 13 + (256 - r_G r0)) * 8)));;
  oldL ← get_reg r_L;
  on_reg (fun r => set_r_O (r_O r +o oldL) r);;
  on_reg (fun r => set_sp rO (sp rO r +o (oldL * 8)) r);;
  when doChangeStack
    (rss ← get_reg (sp rSS);
     reg_setSpecial rO (wrap64 (rss + oldL * 8 + (oldrO - oldrS)));;
     on_reg (set_sp rS rss));;
  on_reg (set_rL 0);;
  while_m 512 (fun m => negb (sp rO (m_reg m) =? sp rS (m_reg m))) reg_stackStore;;
  s ← get_reg r_S;
  reg_stackStoreVal oldL RSTACK_DEFAULT (s .& LREG_MASK);;
  when doChangeStack
    (reg_stackStoreVal oldrO RSTACK_SPECIAL rO;;
     reg_stackStoreVal (wrap64 (oldrO + (oldL + 1) * 8)) RSTACK_SPECIAL rS);;
  g ← get_reg r_G;
  save_regs 300 g (changeStack && doChangeStack);;
  when doChangeStack (on_reg (fun r => set_r_S (sp rS r / 8) r));;
  on_reg (fun r => set_r_O (r_S r) r);;
  on_reg (fun r => set_sp rO (sp rS r) r);;
  ro ← get_reg (sp rO);
  reg_set dst (ro -o 8).

(** The loop of [reg_unsave] that restores the registers in reverse order. *)
Fixpoint unsave_regs (fuel : nat) (k : Z) : M unit :=
  match fuel with
  | O => stop OutOfFuel
  | S fuel =>
    (if k =? rZ + 1 then
       value ← reg_stackLoadVal RSTACK_RGRA 0;
       on_reg (fun r => set_sp rG (value .>> 56) (set_r_G (value .>> 56) r));;
       on_reg (set_sp rA (value .& 0x3FFFF))
     else if k <? SPECIAL_NUM then
       v ← reg_stackLoadVal RSTACK_SPECIAL k; on_reg (set_sp k v)
     else
       v ← reg_stackLoadVal RSTACK_GREGS k;
       on_reg (fun r => set_r_global (upd (r_global r) k v) r));;
    g ← get_reg r_G;
    if k =? rP then unsave_regs fuel rR
    else if k =? rB then unsave_regs fuel 255
    else if k =? g then mret tt
    else unsave_regs fuel (k - 1)
  end.

Definition reg_unsave (src : Z) (changeStack : bool) : M unit :=
  let src := src .& not64 7 in
  rGrA ← mmu_readOcta src MEM_SIDE_EFFECTS;
  when ((rGrA .>> 56) <? MIN_GLOBAL) (ex_throw EX_DYNAMIC_TRAP TRAP_BREAKS_RULES);;
  when (truth ((rGrA .& 0xFFFFFF) .& not64 0x3FFFF)) (ex_throw EX_DYNAMIC_TRAP TRAP_BREAKS_RULES);;
  let changeStack := changeStack && truth (rGrA .& 2 ^ 32) in
  when (negb changeStack)
    (let nG := (rGrA .>> 56) .& 0xFF in
     nL ← mmu_readOcta (src -o ((13 + 256 - nG) * 8)) MEM_SIDE_EFFECTS;
     let nL := nL .& 0xFF in
     let end_ := src +o 8 in
     let begin := end_ -o ((nL + 1 + 13 + (256 - nG)) * 8) in
     reg_checkAccessibility begin end_);;
  reg_setSpecial rS (src +o 8);;
  unsave_regs 300 (rZ + 1);;
  when changeStack
    (newrS ← reg_stackLoadVal RSTACK_SPECIAL rS;
     newrO ← reg_stackLoadVal RSTACK_SPECIAL rO;
     reg_setSpecial rO newrO;;
     on_reg (set_r_S (newrS / 8)));;
  reg_stackLoad;;
  k ← get_reg (fun r => r_local r (r_S r .& LREG_MASK) .& 0xFF);
  for_m (Z.to_nat k) 0 (fun _ => reg_stackLoad);;
  (if changeStack then
     while_m 512 (fun m => negb (sp rS (m_reg m) =? sp rSS (m_reg m))) reg_stackLoad;;
     on_reg (fun r => set_sp rS (r_S r *o 8) r)
   else
     on_reg (fun r => set_r_O (r_S r) r);;
     on_reg (fun r => set_sp rO (sp rS r) r));;
  on_reg (fun r => set_r_L (if r_G r <? k then r_G r else k) r);;
  on_reg (fun r => set_sp rL (r_L r) r);;
  on_reg (fun r => set_sp rG (r_G r) r).
