(* ===== verification/RegRing.v ===== *)
(** * The register ring implements an unbounded register stack

    The 256 registers of the ring and the memory below rS together are one stack of
    octas: entry [k] is in the ring from [S] on and in memory, at address [8 * k],
    below.  Spilling and reloading do not change this stack; [reg_set], [reg_push]
    and [reg_pop] are the stack operations of the architecture. *)

From Stdlib Require Import ZArith Lia Bool.
From stdpp Require Import base list numbers option.
From S2P Require Import Prelude Ram Machine Registers Devices Bus Tc Cache Mmu RegStack.

(** ** Assumptions on the memory *)

(** The state of the memory does not depend on the registers but rV, nor on the log. *)
Class RegIndependent (ok : machine -> Prop) (dom : machine -> Z -> Prop) (view : machine -> Z -> Z) : Prop := {
  ri_reg r m : r_special r rV = r_special (m_reg m) rV -> ok m -> ok (set_m_reg r m);
  ri_dom r m : dom (set_m_reg r m) = dom m;
  ri_view r m : view (set_m_reg r m) = view m;
  ri_log l m : ok m -> ok (set_m_log l m);
  ri_log_dom l m : dom (set_m_log l m) = dom m;
  ri_log_view l m : view (set_m_log l m) = view m
}.

Section Ring.
Context {ok : machine -> Prop} {dom : machine -> Z -> Prop} {view : machine -> Z -> Z}.
Context `{FM : !FlatMemory ok dom view (fun m => (m_reg m, m_cpu m))
            (fun a => mmu_readOcta a MEM_SIDE_EFFECTS) (fun a v => mmu_writeOcta a v MEM_SIDE_EFFECTS)}.
Context `{RI : !RegIndependent ok dom view}.
(** The stack region: the entries from [base] up to [limit]. *)
Context (base limit : Z).

(** ** The invariant *)

Record wf_regs (r : regs) : Prop := {
  wr_L : 0 <= r_L r <= r_G r;
  wr_G : 32 <= r_G r <= 255;
  wr_rL : sp rL r = r_L r;
  wr_rS : sp rS r = 8 * r_S r;
  wr_rO : sp rO r = 8 * r_O r;
  wr_S : base <= r_S r <= r_O r;
  wr_ring : r_O r + r_L r - r_S r <= 255;
  wr_local : forall i, is_octa (r_local r i)
}.

(** The ring, the memory, and the room left in the stack region. *)
Record wf_stack (m : machine) : Prop := {
  ws_regs : wf_regs (m_reg m);
  ws_ok : ok m;
  ws_base : 0 <= base /\ limit < 2 ^ 61;
  ws_dom : forall k, base <= k < limit -> dom m (8 * k)
}.

(** The entries of the stack. *)
Definition entry (m : machine) (k : Z) : Z :=
  if r_S (m_reg m) <=? k then r_local (m_reg m) (k mod 256) else view m (8 * k).

(** The index behind the top of the stack. *)
Definition top (m : machine) : Z := r_O (m_reg m) + r_L (m_reg m).

(** [m'] has the entries of [m] up to [n]. *)
Definition same_entries (n : Z) (m m' : machine) : Prop :=
  forall k, base <= k < n -> entry m' k = entry m k.

Lemma land_ring x : x .& LREG_MASK = x mod 256.
Proof. apply (land_mask_eq x 8); [lia|reflexivity]. Qed.

Lemma ring_slot_inj k k' : 0 <= k - k' < 256 \/ 0 <= k' - k < 256 -> k mod 256 = k' mod 256 -> k = k'.
Proof. intros. Z.div_mod_to_equations; lia. Qed.

Lemma octa_entry k : base <= k < limit -> 0 <= base -> limit < 2 ^ 61 ->
  octa_addr (8 * k) /\ align8 (8 * k) = 8 * k.
Proof. intros. unfold octa_addr, align8. csplit; unfold is_word; Z.div_mod_to_equations; lia. Qed.

(** ** Spilling *)

(** [S] and rS move by one. *)
Definition moved_S (d : Z) (r : regs) : regs := set_sp rS (sp rS r + 8 * d) (set_r_S (r_S r + d) r).

(** A state that differs from a well-formed one in registers that are well-formed. *)
Lemma wf_stack_regs r l m :
  wf_stack m -> wf_regs r -> r_special r rV = r_special (m_reg m) rV ->
  wf_stack (set_m_reg r (set_m_log l m)).
Proof.
  intros [_ Hok Hb Hd] WR EV. constructor; trivial.
  - apply ri_reg; [exact EV|]. apply ri_log. trivial.
  - intros k Hk. rewrite ri_dom, ri_log_dom. auto.
Qed.

Lemma entry_regs r l m k :
  entry (set_m_reg r (set_m_log l m)) k = if r_S r <=? k then r_local r (k mod 256) else view m (8 * k).
Proof. unfold entry. rewrite ri_view, ri_log_view. reflexivity. Qed.

(** The accesses to the stack region. *)
Lemma stack_write k v m :
  wf_stack m -> base <= k < limit -> is_octa v ->
  exists m', mmu_writeOcta (8 * k) v MEM_SIDE_EFFECTS m = (Ret tt, m') /\ m_reg m' = m_reg m /\
    m_cpu m' = m_cpu m /\ wf_stack m' /\
    forall j, base <= j < limit -> view m' (8 * j) = if j =? k then v else view m (8 * j).
Proof.
  intros [WR Hok [Hb Hl] Hd] Hk Hv.
  destruct (fm_write (8 * k) v m Hok (Hd k Hk) Hv) as (m' & E & Hok' & [= Er Ec] & V).
  exists m'. do 3 (split; [trivial|]). split.
  - constructor; trivial; [rewrite Er; trivial|auto|]. intros j Hj. apply V; auto.
  - intros j Hj. destruct (octa_entry j Hj Hb Hl) as [Hoj _]. destruct (octa_entry k Hk Hb Hl) as [_ Ek].
    rewrite (proj2 (V _ (Hd j Hj)) Hoj), Ek.
    destruct (Z.eqb_spec j k) as [->|]; [rewrite Z.eqb_refl; reflexivity|].
    destruct (Z.eqb_spec (8 * j) (8 * k)); [lia|reflexivity].
Qed.

Lemma stack_read k m :
  wf_stack m -> base <= k < limit ->
  exists m', mmu_readOcta (8 * k) MEM_SIDE_EFFECTS m = (Ret (view m (8 * k)), m') /\ m_reg m' = m_reg m /\
    m_cpu m' = m_cpu m /\ wf_stack m' /\ is_octa (view m (8 * k)) /\
    forall j, base <= j < limit -> view m' (8 * j) = view m (8 * j).
Proof.
  intros [WR Hok [Hb Hl] Hd] Hk. destruct (octa_entry k Hk Hb Hl) as [_ Ek].
  destruct (fm_read (8 * k) m Hok (Hd k Hk)) as (m' & E & Hok' & [= Er Ec] & V).
  pose proof (fm_octa (8 * k) m Hok (Hd k Hk)) as Ho. rewrite Ek in E, Ho.
  exists m'. do 3 (split; [trivial|]). split; [|split; [trivial|]].
  - constructor; trivial; [rewrite Er; trivial|auto|]. intros j Hj. apply V; auto.
  - intros j Hj. destruct (octa_entry j Hj Hb Hl) as [Hoj _]. apply (V _ (Hd j Hj)). trivial.
Qed.

Lemma wf_moved d r :
  wf_regs r -> base <= r_S r + d <= r_O r -> r_O r + r_L r - (r_S r + d) <= 255 ->
  wf_regs (moved_S d r).
Proof.
  intros [? ? ? HS ? ? ? ?] H1 H2. constructor; trivial. cbn. rewrite HS. lia.
Qed.

(** Spilling the lowest register of the ring changes no entry. *)
Lemma stackStore_spec m :
  wf_stack m -> r_S (m_reg m) < r_O (m_reg m) -> r_O (m_reg m) < limit ->
  exists m', reg_stackStore m = (Ret tt, m') /\ m_reg m' = moved_S 1 (m_reg m) /\ m_cpu m' = m_cpu m /\
    wf_stack m' /\ same_entries limit m m'.
Proof.
  intros W HS HO. destruct (W) as [WR Hok [Hb Hl] Hd]. set (r := m_reg m) in *.
  pose proof (wr_S r WR) as HSr. pose proof (wr_ring r WR) as HR.
  unfold reg_stackStore, get_reg, reg_getLocal. rewrite !bind_gets. fold r.
  unfold reg_stackStoreVal, get_reg. rewrite bind_gets. fold r. rewrite (wr_rS r WR), land_ring.
  set (v := r_local r (r_S r mod 256)).
  destruct (stack_write (r_S r) v m W ltac:(lia) (wr_local r WR _)) as (m1 & E1 & Er & Ec & W1 & V1).
  rewrite (bind_ret _ _ _ _ _ E1). fold r in Er.
  exists (set_m_reg (moved_S 1 r) (set_m_log (EV_STACKSTORE RSTACK_DEFAULT (r_S r mod 256) :: m_log m1) m1)).
  split.
  { unfold ev_fire, on_reg. rewrite !bind_modify. unfold modify. cbn [m_reg set_m_log set_m_reg].
    rewrite Er. unfold moved_S, sp. cbn [set_r_S r_special].
    pose proof (wr_rS r WR) as ES. unfold sp in ES. rewrite !wrap_small by wordlia. reflexivity. }
  split; [reflexivity|]. split; [exact Ec|]. split.
  - apply wf_stack_regs; [trivial|apply wf_moved; trivial; lia|rewrite Er; reflexivity].
  - intros k Hk. rewrite entry_regs. unfold entry. fold r. cbn [moved_S set_sp set_r_S set_r_special r_S r_local].
    destruct (Z.leb_spec (r_S r + 1) k), (Z.leb_spec (r_S r) k); try lia; rewrite V1 by lia.
    + replace k with (r_S r) by lia. rewrite Z.eqb_refl. reflexivity.
    + destruct (Z.eqb_spec k (r_S r)); [lia|reflexivity].
Qed.

(** The registers after the topmost spilled entry has been reloaded. *)
Definition reloaded (m : machine) : regs :=
  let r := m_reg m in set_loc (r_S r - 1) (entry m (r_S r - 1)) (moved_S (-1) r).

(** Reloading changes no entry whose place in the ring is not taken. *)
Lemma stackLoad_spec m :
  wf_stack m -> base < r_S (m_reg m) -> r_S (m_reg m) <= limit ->
  exists m', reg_stackLoad m = (Ret tt, m') /\ m_cpu m' = m_cpu m /\ m_reg m' = reloaded m /\
    (forall l, wf_regs (set_rL l (reloaded m)) -> wf_stack (set_m_reg (set_rL l (reloaded m)) m')) /\
    (wf_regs (reloaded m) -> wf_stack m') /\ is_octa (entry m (r_S (m_reg m) - 1)) /\
    same_entries (Z.min limit (r_S (m_reg m) + 255)) m m'.
Proof.
  intros W HS HL. destruct (W) as [WR Hok [Hb Hl] Hd]. set (r := m_reg m) in *.
  pose proof (wr_S r WR) as HSr. unfold reg_stackLoad, get_reg. rewrite bind_gets. fold r.
  unfold reg_stackLoadVal, get_reg. rewrite bind_assoc, bind_gets. fold r. rewrite (wr_rS r WR).
  replace (8 * r_S r -o 8) with (8 * (r_S r - 1)) by (rewrite wrap_small; wordlia).
  destruct (stack_read (r_S r - 1) m W ltac:(lia)) as (m1 & E1 & Er & Ec & W1 & Ho & V1).
  rewrite bind_assoc, (bind_ret _ _ _ _ _ E1). fold r in Er.
  assert (EV : entry m (r_S r - 1) = view m (8 * (r_S r - 1))).
  { unfold entry. fold r. replace (r_S r <=? r_S r - 1) with false by (symmetry; apply Z.leb_gt; lia). trivial. }
  assert (EQ : reloaded m = set_loc (r_S r - 1) (view m (8 * (r_S r - 1))) (moved_S (-1) r))
    by (unfold reloaded; fold r; rewrite EV; reflexivity).
  exists (set_m_reg (reloaded m)
            (set_m_log (EV_STACKLOAD RSTACK_DEFAULT ((r_S r -o 1) .& LREG_MASK) :: m_log m1) m1)).
  split.
  { unfold ev_fire, on_reg. rewrite !bind_assoc, !bind_modify, bind_assoc, bind_modify, bind_assoc, bind_modify.
    unfold mret, M_ret. unfold mbind, M_bind, modify. cbn [m_reg set_m_log set_m_reg].
    rewrite Er, EQ. unfold moved_S, sp, set_loc. cbn.
    pose proof (wr_rS r WR) as ES. unfold sp in ES. rewrite !wrap_small by wordlia. reflexivity. }
  split; [exact Ec|]. split; [reflexivity|].
  split; [intros l H; apply wf_stack_regs; trivial; rewrite Er; reflexivity|].
  split; [intros H; apply wf_stack_regs; trivial; rewrite Er; reflexivity|].
  rewrite EV. split; [trivial|].
  intros k Hk. rewrite entry_regs, EQ. unfold entry. fold r.
  cbn [set_loc moved_S set_sp set_r_S set_r_special set_r_local r_S r_local]. rewrite land_ring.
  destruct (Z.leb_spec (r_S r + -1) k), (Z.leb_spec (r_S r) k); try lia.
  - rewrite upd_other; [trivial|]. intros E. apply ring_slot_inj in E; lia.
  - replace k with (r_S r - 1) by lia. rewrite upd_same. reflexivity.
  - rewrite V1 by lia. reflexivity.
Qed.

(** ** Growing the window *)

Lemma ring_meets_spec r l : ring_meets r l = ((r_O r + l - r_S r) mod 256 =? 0).
Proof.
  unfold ring_meets. rewrite land_ring. unfold wrap. apply eq_true_iff_eq. rewrite !Z.eqb_eq.
  Z.div_mod_to_equations; lia.
Qed.

Lemma wf_set_loc k v r : wf_regs r -> is_octa v -> wf_regs (set_loc k v r).
Proof.
  intros [? ? ? ? ? ? ? Hl] Hv. constructor; trivial. intros i. cbn. unfold upd. destruct (i =? _); trivial.
Qed.

Lemma wf_set_rL l r :
  wf_regs r -> 0 <= l <= r_G r -> r_O r + l - r_S r <= 255 -> wf_regs (set_rL l r).
Proof.
  intros [? ? ? ? ? ? ? ?] Hl Hr. constructor; trivial. cbn. apply wrap_small. wordlia.
Qed.

(** A change of the registers alone. *)
Lemma wf_stack_set r m :
  wf_stack m -> wf_regs r -> r_special r rV = r_special (m_reg m) rV -> wf_stack (set_m_reg r m).
Proof.
  intros W WR E. assert (Em : m = set_m_log (m_log m) m) by (destruct m; reflexivity).
  rewrite Em at 1. apply wf_stack_regs; trivial.
Qed.

Lemma entry_set r m k :
  entry (set_m_reg r m) k = if r_S r <=? k then r_local r (k mod 256) else view m (8 * k).
Proof. unfold entry. rewrite ri_view. reflexivity. Qed.

(** What the operations on the stack do not change. *)
Definition stable (m : machine) := (r_G (m_reg m), r_global (m_reg m), m_cpu m).

(** Writing an entry of the window. *)
Lemma write_entry k v m :
  wf_stack m -> is_octa v -> r_S (m_reg m) <= k < r_S (m_reg m) + 256 ->
  wf_stack (set_m_reg (set_loc k v (m_reg m)) m) /\
  forall j, base <= j < r_S (m_reg m) + 256 -> entry (set_m_reg (set_loc k v (m_reg m)) m) j =
    if j =? k then v else entry m j.
Proof.
  intros W Hv Hk. split; [apply wf_stack_set; trivial; apply wf_set_loc; [apply W|trivial]|].
  intros j Hj. rewrite entry_set. unfold entry. cbn [set_loc set_r_local r_S r_local]. rewrite land_ring.
  destruct (Z.leb_spec (r_S (m_reg m)) j); [|destruct (Z.eqb_spec j k); [lia|reflexivity]].
  unfold upd. destruct (Z.eqb_spec j k) as [->|N]; [rewrite Z.eqb_refl; reflexivity|].
  destruct (Z.eqb_spec (j mod 256) (k mod 256)) as [E|]; [|reflexivity].
  apply ring_slot_inj in E; lia.
Qed.

(** Making room for one more register: the lowest one is spilled if the ring is full. *)
Lemma make_room m :
  wf_stack m -> r_L (m_reg m) < 255 -> top m < limit ->
  exists m', when (ring_meets (m_reg m) (r_L (m_reg m) + 1)) reg_stackStore m = (Ret tt, m') /\
    wf_stack m' /\ same_entries limit m m' /\ stable m' = stable m /\
    r_O (m_reg m') = r_O (m_reg m) /\ r_L (m_reg m') = r_L (m_reg m) /\
    r_local (m_reg m') = r_local (m_reg m) /\ top m + 1 - r_S (m_reg m') <= 255 /\
    r_S (m_reg m) <= r_S (m_reg m').
Proof.
  intros W HL HT. unfold top in *. pose proof (ws_regs m W) as WR.
  pose proof (wr_L _ WR). pose proof (wr_S _ WR). pose proof (wr_ring _ WR).
  rewrite ring_meets_spec.
  destruct (Z.eqb_spec ((r_O (m_reg m) + (r_L (m_reg m) + 1) - r_S (m_reg m)) mod 256) 0) as [E|E].
  - assert (r_O (m_reg m) + r_L (m_reg m) + 1 - r_S (m_reg m) = 256) by (Z.div_mod_to_equations; lia).
    destruct (stackStore_spec m W) as (m' & E' & Er & Ec & W' & HE); [lia..|].
    exists m'. unfold stable. rewrite Er, Ec. cbn. csplit; trivial; lia.
  - assert (r_O (m_reg m) + r_L (m_reg m) + 1 - r_S (m_reg m) <> 256)
      by (intros E'; apply E; replace (_ - _) with 256 by lia; reflexivity).
    exists m. csplit; trivial; try lia. intros k _; reflexivity.
Qed.

Lemma reg_grow_spec m :
  wf_stack m -> r_L (m_reg m) < r_G (m_reg m) -> top m < limit ->
  exists m', reg_grow m = (Ret tt, m') /\ wf_stack m' /\ stable m' = stable m /\
    r_O (m_reg m') = r_O (m_reg m) /\ r_L (m_reg m') = r_L (m_reg m) + 1 /\
    same_entries (top m) m m' /\ entry m' (top m) = 0.
Proof.
  intros W HL HT. pose proof (ws_regs m W) as WR. destruct (ws_base m W) as [Hb Hl].
  pose proof (wr_L _ WR). pose proof (wr_G _ WR). pose proof (wr_S _ WR). pose proof (wr_ring _ WR).
  unfold reg_grow, on_reg. rewrite bind_modify. unfold top in *.
  rewrite (wrap_small 64) by wordlia. set (k := r_O (m_reg m) + r_L (m_reg m)) in *.
  destruct (write_entry k 0 m W ltac:(wordlia) ltac:(unfold k; lia)) as [W1 E1].
  set (m1 := set_m_reg _ m) in *. unfold get_reg. rewrite bind_gets.
  destruct (make_room m1 W1) as (m2 & E2 & W2 & HE & HS & EO & EL & Elo & HR & HS2); [cbn; lia|exact HT|].
  rewrite (bind_ret _ _ _ _ _ E2). unfold modify.
  assert (WR2 : wf_regs (set_rL (r_L (m_reg m2) + 1) (m_reg m2))).
  { apply wf_set_rL; [apply W2| |]; rewrite EL, ?EO.
    - injection HS as EG _ _. rewrite EG. cbn. lia.
    - unfold top in HR. cbn in HR |- *. lia. }
  eexists. split; [reflexivity|].
  assert (ES : forall j, entry (set_m_reg (set_rL (r_L (m_reg m2) + 1) (m_reg m2)) m2) j = entry m2 j)
    by (intros j; rewrite entry_set; unfold entry; reflexivity).
  split; [apply wf_stack_set; trivial|]. split; [exact HS|]. split; [exact EO|].
  split; [cbn; rewrite EL; reflexivity|]. split.
  - intros j Hj. rewrite ES, HE, E1 by lia. destruct (Z.eqb_spec j k); [lia|reflexivity].
  - rewrite ES, HE, E1, Z.eqb_refl by (cbn in *; lia). reflexivity.
Qed.

(** The entries of [m], with zeros above its top. *)
Definition padded (m : machine) (k : Z) : Z := if k <? top m then entry m k else 0.

Record grown (n : Z) (m m' : machine) : Prop := {
  gr_wf : wf_stack m';
  gr_stable : stable m' = stable m;
  gr_O : r_O (m_reg m') = r_O (m_reg m);
  gr_L : r_L (m_reg m) <= r_L (m_reg m') <= Z.max (r_L (m_reg m)) n;
  gr_entry : forall k, base <= k < top m' -> entry m' k = padded m k
}.

Lemma grow_loop rno m :
  wf_stack m -> 0 <= rno < r_G (m_reg m) -> r_O (m_reg m) + r_G (m_reg m) < limit ->
  exists m', while_m 257 (fun m => r_L (m_reg m) <=? rno) reg_grow m = (Ret tt, m') /\
    grown (rno + 1) m m' /\ rno < r_L (m_reg m').
Proof.
  intros W Hn Hl. pose proof (wr_G _ (ws_regs m W)). pose proof (wr_L _ (ws_regs m W)).
  destruct (while_m_inv (grown (rno + 1) m) (fun m' => rno - r_L (m_reg m'))
              (fun m => r_L (m_reg m) <=? rno) reg_grow 257 m) as (m' & E & G & C).
  - intros m1 [W1 St EO HL HE] C. apply Z.leb_le in C. split; [lia|]. injection St as EG EGl Ec.
    destruct (reg_grow_spec m1 W1) as (m2 & E2 & W2 & St2 & EO2 & EL2 & HE2 & HT); [lia|unfold top; lia|].
    exists m2. split; [trivial|]. split; [|lia]. injection St2 as EG2 EGl2 Ec2.
    constructor; trivial; [unfold stable; congruence|congruence|lia|].
    unfold top in *. rewrite EO2, EL2. intros k Hk.
    destruct (Z.eq_dec k (r_O (m_reg m1) + r_L (m_reg m1))) as [->|N].
    + rewrite HT. unfold padded, top. destruct (Z.ltb_spec (r_O (m_reg m1) + r_L (m_reg m1)) (r_O (m_reg m) + r_L (m_reg m))); [lia|reflexivity].
    + rewrite HE2, HE by lia. reflexivity.
  - constructor; trivial; [lia|]. intros k Hk. unfold padded. destruct (Z.ltb_spec k (top m)); [reflexivity|lia].
  - lia.
  - lia.
  - exists m'. split; [trivial|]. split; [trivial|]. apply Z.leb_gt in C. lia.
Qed.

(** [reg_set] of a local or marginal register. *)
Lemma reg_set_local rno v m :
  wf_stack m -> 0 <= rno < r_G (m_reg m) -> is_octa v -> r_O (m_reg m) + r_G (m_reg m) < limit ->
  exists m', reg_set rno v m = (Ret tt, m') /\ wf_stack m' /\ stable m' = stable m /\
    r_O (m_reg m') = r_O (m_reg m) /\ r_L (m_reg m') = Z.max (r_L (m_reg m)) (rno + 1) /\
    forall k, base <= k < top m' -> entry m' k = if k =? r_O (m_reg m) + rno then v else padded m k.
Proof.
  intros W Hn Hv Hl. destruct (ws_base m W) as [Hb Hl60].
  unfold reg_set, get_reg. rewrite bind_gets.
  replace (r_G (m_reg m) <=? rno) with false by (symmetry; apply Z.leb_gt; lia).
  destruct (grow_loop rno m W Hn Hl) as (m1 & E1 & [W1 St EO HL HE] & C).
  rewrite (bind_ret _ _ _ _ _ E1). unfold on_reg, modify. pose proof (ws_regs m1 W1) as WR1.
  pose proof (wr_S _ WR1). pose proof (wr_ring _ WR1). pose proof (wr_L _ WR1). pose proof (wr_G _ WR1).
  injection St as EG EGl Ec. rewrite (wrap_small 64) by wordlia.
  destruct (write_entry (r_O (m_reg m1) + rno) v m1 W1 Hv ltac:(lia)) as [W2 E2].
  eexists. split; [reflexivity|]. split; [trivial|]. split; [unfold stable; cbn; congruence|].
  split; [exact EO|]. split; [cbn; lia|]. intros k Hk. change (base <= k < top m1) in Hk.
  unfold top in Hk. rewrite E2, HE, EO by (unfold top; lia). reflexivity.
Qed.

(** The value of a register is an entry of the window, 0, or a global register. *)
Lemma reg_val_entry i m :
  wf_stack m -> 0 <= i < 256 ->
  reg_val (m_reg m) i =
    if r_G (m_reg m) <=? i then r_global (m_reg m) i
    else if i <? r_L (m_reg m) then entry m (r_O (m_reg m) + i) else 0.
Proof.
  intros W Hi. pose proof (ws_regs m W) as WR. pose proof (wr_S _ WR). pose proof (wr_L _ WR).
  destruct (ws_base m W). unfold reg_val.
  destruct (r_G (m_reg m) <=? i); [rewrite land_ring, Z.mod_small by lia; reflexivity|].
  destruct (Z.ltb_spec i (r_L (m_reg m))); [|reflexivity]. unfold entry.
  replace (r_S (m_reg m) <=? r_O (m_reg m) + i) with true by (symmetry; apply Z.leb_le; lia).
  rewrite land_ring. unfold wrap. f_equal. Z.div_mod_to_equations; lia.
Qed.

Lemma reg_val_padded i m :
  wf_stack m -> 0 <= i < 256 ->
  reg_val (m_reg m) i =
    if r_G (m_reg m) <=? i then r_global (m_reg m) i else padded m (r_O (m_reg m) + i).
Proof.
  intros W Hi. rewrite reg_val_entry by trivial. unfold padded, top.
  destruct (r_G (m_reg m) <=? i); [trivial|].
  destruct (Z.ltb_spec i (r_L (m_reg m))), (Z.ltb_spec (r_O (m_reg m) + i) (r_O (m_reg m) + r_L (m_reg m)));
    trivial; lia.
Qed.

Lemma wf_set_global rno v r : wf_regs r -> wf_regs (set_r_global (upd (r_global r) rno v) r).
Proof. intros []. constructor; trivial. Qed.

(** The 256 registers of the architecture are independent cells.  Setting one -
    global, local or marginal - changes that register and no other, whatever has to
    be spilled to make room for it in the ring, and the entries of the stack below
    the current frame stay as they are; the operation always returns. *)
Theorem reg_set_get rno v m :
  wf_stack m -> 0 <= rno < 256 -> is_octa v -> r_O (m_reg m) + r_G (m_reg m) < limit ->
  exists m', reg_set rno v m = (Ret tt, m') /\ wf_stack m' /\ m_cpu m' = m_cpu m /\
    (forall i, 0 <= i < 256 -> reg_val (m_reg m') i = if i =? rno then v else reg_val (m_reg m) i) /\
    (forall k, base <= k < r_O (m_reg m) -> entry m' k = entry m k).
Proof.
  intros W Hn Hv Hl. destruct (Z_lt_le_dec rno (r_G (m_reg m))) as [HG|HG].
  - destruct (reg_set_local rno v m W ltac:(lia) Hv Hl) as (m' & E & W' & St & EO & EL & HE).
    injection St as EG EGl Ec. exists m'. do 3 (split; [trivial|]).
    pose proof (wr_L _ (ws_regs m W)). pose proof (wr_S _ (ws_regs m W)). split.
    + intros i Hi. rewrite !reg_val_padded by trivial. rewrite EG, EGl, EO.
      destruct (Z.leb_spec (r_G (m_reg m)) i); [destruct (Z.eqb_spec i rno); [lia|trivial]|].
      unfold padded at 1. unfold top at 1. rewrite EO, EL.
      destruct (Z.ltb_spec (r_O (m_reg m) + i) (r_O (m_reg m) + Z.max (r_L (m_reg m)) (rno + 1))).
      * rewrite HE by (unfold top; lia).
        destruct (Z.eqb_spec (r_O (m_reg m) + i) (r_O (m_reg m) + rno)), (Z.eqb_spec i rno); trivial; lia.
      * unfold padded, top. destruct (Z.eqb_spec i rno); [lia|].
        destruct (Z.ltb_spec (r_O (m_reg m) + i) (r_O (m_reg m) + r_L (m_reg m))); [lia|trivial].
    + intros k Hk. rewrite HE by (unfold top; lia). unfold padded, top.
      destruct (Z.eqb_spec k (r_O (m_reg m) + rno)); [lia|].
      destruct (Z.ltb_spec k (r_O (m_reg m) + r_L (m_reg m))); [trivial|lia].
  - unfold reg_set, get_reg. rewrite bind_gets.
    replace (r_G (m_reg m) <=? rno) with true by (symmetry; apply Z.leb_le; lia).
    eexists. split; [reflexivity|]. split; [apply wf_stack_set; trivial; apply wf_set_global; apply W|].
    split; [reflexivity|]. split; [|intros k Hk; rewrite entry_set; reflexivity].
    intros i Hi. unfold reg_val. cbn. rewrite !land_ring, (Z.mod_small i), (Z.mod_small rno) by lia.
    unfold upd. destruct (Z.eqb_spec i rno) as [->|]; [|reflexivity].
    replace (r_G (m_reg m) <=? rno) with true by (symmetry; apply Z.leb_le; lia). reflexivity.
Qed.

(** ** PUSH *)

(** The registers that [reg_push] leaves: the window starts behind $x. *)
Definition pushed (x curL : Z) (r : regs) : regs :=
  set_rL (curL - (x + 1)) (set_sp rO (sp rO r + (x + 1) * 8) (set_r_O (r_O r + (x + 1)) r)).

Lemma finish_push x curL m :
  wf_stack m -> 0 <= x < 256 -> x < curL <= x + 1 + r_G (m_reg m) ->
  r_O (m_reg m) + 256 <= limit -> r_O (m_reg m) + curL - r_S (m_reg m) <= 255 ->
  exists m', (on_reg (fun r => set_r_O (r_O r +o (x + 1)) r);;
              on_reg (fun r => set_sp rO (sp rO r +o ((x + 1) * 8)) r);;
              on_reg (set_rL (curL - (x + 1)))) m = (Ret tt, m') /\
    wf_stack m' /\ stable m' = stable m /\ r_O (m_reg m') = r_O (m_reg m) + (x + 1) /\
    r_L (m_reg m') = curL - (x + 1) /\ forall k, entry m' k = entry m k.
Proof.
  intros W Hx HL Hl HR. destruct (ws_base m W) as [Hb Hl60]. pose proof (ws_regs m W) as WR.
  pose proof (wr_S _ WR). pose proof (wr_G _ WR).
  exists (set_m_reg (pushed x curL (m_reg m)) m). split.
  { unfold on_reg, modify, mbind, M_bind. cbn [m_reg set_m_reg]. unfold pushed, sp. cbn [r_special set_r_O].
    pose proof (wr_rO _ WR) as EO. unfold sp in EO. rewrite !(wrap_small 64 (_ + _)) by wordlia. reflexivity. }
  split; [|split; [reflexivity|split; [reflexivity|split; [reflexivity|]]]].
  - apply wf_stack_set; trivial. destruct WR. constructor; trivial; cbn; try lia.
    apply wrap_small. wordlia.
  - intros k. rewrite entry_set. reflexivity.
Qed.

Lemma reg_push_spec rno m :
  wf_stack m -> 0 <= rno < 256 -> r_L (m_reg m) < 255 -> r_O (m_reg m) + 256 <= limit ->
  let x := if r_G (m_reg m) <=? rno then r_L (m_reg m) else rno in
  exists m', reg_push rno m = (Ret tt, m') /\ wf_stack m' /\ stable m' = stable m /\
    r_O (m_reg m') = r_O (m_reg m) + (x + 1) /\
    r_L (m_reg m') = Z.max (r_L (m_reg m)) (x + 1) - (x + 1) /\
    forall k, base <= k < top m' -> entry m' k = if k =? r_O (m_reg m) + x then x else padded m k.
Proof.
  intros W Hn HL Hl. pose proof (ws_regs m W) as WR. pose proof (wr_L _ WR). pose proof (wr_G _ WR).
  pose proof (wr_S _ WR). pose proof (wr_ring _ WR). destruct (ws_base m W) as [Hb Hl60].
  unfold reg_push, get_reg. rewrite bind_gets. unfold id. cbn zeta.
  destruct (Z.leb_spec (r_G (m_reg m)) rno) as [HG|HG].
  - rewrite bind_assoc. destruct (make_room m W) as (m1 & E1 & W1 & HE & St & EO & EL & _ & HR & HS1); [lia|unfold top; lia|].
    rewrite (bind_ret _ _ _ _ _ E1). rewrite bind_assoc, bind_on_reg, bind_mret.
    unfold top in HR. rewrite (wrap_small 64) by wordlia. rewrite EO.
    set (x := r_L (m_reg m)) in *. pose proof (wr_S _ (ws_regs m1 W1)).
    destruct (write_entry (r_O (m_reg m) + x) x m1 W1) as [W2 HE2]; [wordlia|lia|].
    set (m2 := set_m_reg _ m1) in *. injection St as EG EGl Ec.
    destruct (finish_push x (x + 1) m2 W2) as (m3 & E3 & W3 & St3 & EO3 & EL3 & HE3);
      [lia|cbn; lia|cbn; lia|cbn; lia|].
    exists m3. split; [exact E3|]. split; [trivial|]. split; [rewrite St3; unfold stable; cbn; congruence|].
    split; [rewrite EO3; cbn; lia|]. split; [lia|].
    unfold top. rewrite EO3, EL3. cbn. rewrite EO. intros k Hk. rewrite HE3, HE2 by lia.
    unfold padded, top. fold x. destruct (Z.eqb_spec k (r_O (m_reg m) + x)); [reflexivity|].
    destruct (Z.ltb_spec k (r_O (m_reg m) + x)); [apply HE; lia|lia].
  - rewrite bind_assoc.
    destruct (reg_set_local rno rno m W ltac:(lia) ltac:(wordlia) ltac:(lia)) as (m1 & E1 & W1 & St & EO & EL & HE).
    rewrite (bind_ret _ _ _ _ _ E1). rewrite bind_assoc, bind_gets, bind_mret. injection St as EG EGl Ec.
    pose proof (wr_ring _ (ws_regs m1 W1)). pose proof (wr_L _ (ws_regs m1 W1)).
    destruct (finish_push rno (r_L (m_reg m1)) m1 W1) as (m2 & E2 & W2 & St2 & EO2 & EL2 & HE2); [lia..|].
    exists m2. split; [exact E2|]. split; [trivial|]. split; [rewrite St2; unfold stable; congruence|].
    split; [lia|]. split; [lia|]. unfold top. rewrite EO2, EL2. intros k Hk. rewrite HE2.
    apply HE. unfold top. lia.
Qed.

(** ** POP *)

Lemma wf_reloaded m :
  wf_stack m -> base < r_S (m_reg m) -> is_octa (entry m (r_S (m_reg m) - 1)) ->
  top m - (r_S (m_reg m) - 1) <= 255 -> wf_regs (reloaded m).
Proof.
  intros W HS Ho HT. pose proof (ws_regs m W) as WR. pose proof (wr_S _ WR). unfold top in HT.
  unfold reloaded. apply wf_set_loc; [|trivial]. apply wf_moved; trivial; lia.
Qed.

(** [m'] is [m] with some entries reloaded; registers above the ring are dropped. *)
Record refilled (m m' : machine) : Prop := {
  rf_wf : wf_stack m';
  rf_stable : stable m' = stable m;
  rf_O : r_O (m_reg m') = r_O (m_reg m);
  rf_S : r_S (m_reg m') <= r_S (m_reg m);
  rf_L : r_L (m_reg m') = Z.min (r_L (m_reg m)) (r_S (m_reg m') + 255 - r_O (m_reg m));
  rf_entries : same_entries (top m') m m'
}.

Lemma refilled_refl m : wf_stack m -> refilled m m.
Proof.
  intros W. pose proof (wr_ring _ (ws_regs m W)). constructor; trivial; try lia. intros k _. reflexivity.
Qed.

Lemma reg_reload_spec m0 m :
  refilled m0 m -> base < r_S (m_reg m) -> r_O (m_reg m) <= limit ->
  r_O (m_reg m) - r_S (m_reg m) <= 254 -> top m0 <= limit ->
  exists m', reg_reload m = (Ret tt, m') /\ refilled m0 m' /\ r_S (m_reg m') = r_S (m_reg m) - 1.
Proof.
  intros [W St EO HS EL HE] HSb Hl H254 Ht0. pose proof (ws_regs m W) as WR. pose proof (wr_S _ WR).
  pose proof (wr_ring _ WR). pose proof (wr_L _ WR). pose proof (wr_G _ WR).
  destruct (stackLoad_spec m W HSb ltac:(lia)) as (m1 & E1 & Ec & Er & HWl & HW & Ho & HE1).
  unfold reg_reload. rewrite (bind_ret _ _ _ _ _ E1). unfold get_reg. rewrite bind_gets, Er, ring_meets_spec.
  change (r_O (reloaded m)) with (r_O (m_reg m)). change (r_L (reloaded m)) with (r_L (m_reg m)).
  change (r_S (reloaded m)) with (r_S (m_reg m) + -1). injection St as EG EGl Ecpu.
  destruct (Z.eqb_spec ((r_O (m_reg m) + r_L (m_reg m) - (r_S (m_reg m) + -1)) mod 256) 0) as [E|E].
  - assert (E' : r_O (m_reg m) + r_L (m_reg m) - r_S (m_reg m) = 255) by (Z.div_mod_to_equations; lia).
    eexists. split; [reflexivity|]. rewrite Er. change (r_L (reloaded m)) with (r_L (m_reg m)).
    assert (W2 : wf_stack (set_m_reg (set_rL (r_L (m_reg m) - 1) (reloaded m)) m1)).
    { apply HWl. destruct WR. constructor; trivial; cbn; try lia; [apply wrap_small; wordlia|].
      intros i. unfold upd. destruct (i =? _); trivial. }
    split; [|cbn; lia]. constructor; trivial; [unfold stable; cbn; congruence|cbn; lia|cbn; lia|].
    unfold top. cbn. intros k Hk. rewrite entry_set. rewrite <- (HE k) by (unfold top; lia).
    rewrite <- (HE1 k) by (unfold top in Ht0; lia). unfold entry. rewrite Er. reflexivity.
  - assert (HT : top m - (r_S (m_reg m) - 1) <= 255).
    { unfold top. destruct (Z.eq_dec (r_O (m_reg m) + r_L (m_reg m) - r_S (m_reg m)) 255) as [E'|]; [|lia].
      destruct E. replace (_ - _) with 256 by lia. reflexivity. }
    exists m1. split; [reflexivity|]. unfold top in HT.
    assert (W1 : wf_stack m1) by (apply HW, wf_reloaded; trivial).
    split; [|rewrite Er; cbn; lia].
    constructor; trivial; [unfold stable; rewrite Er; cbn; congruence|rewrite Er; cbn; lia..|].
    unfold top. rewrite Er. cbn. intros k Hk. rewrite HE1 by (unfold top in Ht0; lia).
    apply HE. unfold top. lia.
Qed.

(** The registers from $x of the caller on are brought back into the ring. *)
Lemma reload_loop x m0 m :
  refilled m0 m -> 0 <= x <= 254 -> base <= r_O (m_reg m0) - (x + 1) ->
  r_O (m_reg m0) <= limit -> top m0 <= limit ->
  (r_S (m_reg m) = r_S (m_reg m0) \/ r_O (m_reg m0) - r_S (m_reg m) <= x + 1) ->
  exists m', while_m 257 (fun m => wrap32 (r_O (m_reg m) - r_S (m_reg m)) <=? x) reg_reload m = (Ret tt, m') /\
    refilled m0 m' /\ x + 1 <= r_O (m_reg m0) - r_S (m_reg m') /\
    (r_S (m_reg m') = r_S (m_reg m0) \/ r_O (m_reg m0) - r_S (m_reg m') = x + 1).
Proof.
  intros RF Hx Hb Hl Ht HS.
  assert (W32 : forall m, refilled m0 m -> wrap32 (r_O (m_reg m) - r_S (m_reg m)) = r_O (m_reg m0) - r_S (m_reg m)).
  { intros m1 R. pose proof (ws_regs _ (rf_wf _ _ R)) as WR. pose proof (wr_S _ WR). pose proof (wr_ring _ WR).
    pose proof (wr_L _ WR). rewrite (rf_O _ _ R) in *. apply wrap_small. wordlia. }
  destruct (while_m_inv (fun m' => refilled m0 m' /\
      (r_S (m_reg m') = r_S (m_reg m0) \/ r_O (m_reg m0) - r_S (m_reg m') <= x + 1))
      (fun m' => x - (r_O (m_reg m0) - r_S (m_reg m'))) 
      (fun m => wrap32 (r_O (m_reg m) - r_S (m_reg m)) <=? x) reg_reload 257 m) as (m' & E & (RF' & HS') & C).
  - intros m1 [R1 H1] C. rewrite W32 in C by trivial. apply Z.leb_le in C. split; [lia|].
    pose proof (rf_O _ _ R1). destruct (reg_reload_spec m0 m1 R1) as (m2 & E2 & R2 & ES); [lia..|].
    exists m2. split; [trivial|]. split; [split; [trivial|lia]|lia].
  - auto.
  - pose proof (wr_S _ (ws_regs _ (rf_wf _ _ RF))). rewrite (rf_O _ _ RF) in *. lia.
  - lia.
  - exists m'. rewrite W32 in C by trivial. apply Z.leb_gt in C. csplit; trivial; lia.
Qed.

(** The last assignments of [reg_pop]. *)
Lemma finish_pop x l hole m :
  wf_stack m -> 0 <= x <= 254 -> r_S (m_reg m) <= r_O (m_reg m) - (x + 1) ->
  0 <= l <= r_G (m_reg m) -> is_octa hole -> r_O (m_reg m) <= limit ->
  r_O (m_reg m) - (x + 1) + l - r_S (m_reg m) <= 255 ->
  exists m', (on_reg (set_r_L l);;
              when (x <? l) (on_reg (fun r => set_loc (r_O r -o 1) hole r));;
              on_reg (fun r => set_r_O (r_O r -o (x + 1)) r);;
              on_reg (fun r => set_sp rO (sp rO r -o ((x + 1) * 8)) r);;
              on_reg (fun r => set_sp rL (r_L r) r)) m = (Ret tt, m') /\
    wf_stack m' /\ stable m' = stable m /\ r_O (m_reg m') = r_O (m_reg m) - (x + 1) /\
    r_L (m_reg m') = l /\
    forall k, base <= k < top m' -> entry m' k = if k =? r_O (m_reg m) - 1 then hole else entry m k.
Proof.
  intros W Hx HS Hl Hh Hlim HR. destruct (ws_base m W) as [Hb Hl60]. pose proof (ws_regs m W) as WR.
  pose proof (wr_S _ WR) as HSr. pose proof (wr_G _ WR). pose proof (wr_rO _ WR) as EO. unfold sp in EO.
  set (r := m_reg m) in *. set (r1 := if x <? l then set_loc (r_O r - 1) hole r else r).
  exists (set_m_reg (set_sp rL l (set_sp rO (sp rO r - (x + 1) * 8) (set_r_O (r_O r - (x + 1)) (set_r_L l r1)))) m).
  split.
  { rewrite bind_on_reg. fold r. unfold r1. destruct (x <? l); unfold when.
    - rewrite bind_on_reg. cbn [m_reg set_m_reg set_r_L r_O]. rewrite !bind_on_reg. unfold on_reg, modify.
      cbn. rewrite !(wrap_small 64) by (unfold sp; cbn; wordlia). reflexivity.
    - rewrite bind_mret, !bind_on_reg. unfold on_reg, modify.
      cbn. rewrite !(wrap_small 64) by (unfold sp; cbn; wordlia). reflexivity. }
  assert (E1 : r_S r1 = r_S r /\ r_G r1 = r_G r /\ r_special r1 = r_special r /\ r_O r1 = r_O r /\ r_global r1 = r_global r)
    by (unfold r1; destruct (x <? l); auto).
  destruct E1 as (ES & EG & Esp & EO1 & EGl). split.
  - apply wf_stack_set; [trivial| |cbn; rewrite Esp; reflexivity]. destruct WR as [? ? ? ErS ? ? ? Hlo].
    constructor; unfold sp in *; cbn; rewrite ?ES, ?EG, ?Esp; try lia.
    intros i. unfold r1. destruct (x <? l); [cbn; unfold upd; destruct (i =? _); trivial|trivial].
  - split; [unfold stable; cbn; rewrite EG, EGl; reflexivity|]. split; [reflexivity|]. split; [reflexivity|].
    unfold top. cbn. intros k Hk. rewrite entry_set. cbn. rewrite ES. unfold entry. fold r.
    destruct (Z.leb_spec (r_S r) k); [|destruct (Z.eqb_spec k (r_O r - 1)); [lia|reflexivity]].
    unfold r1. destruct (Z.ltb_spec x l) as [Hxl|Hxl]; cbn.
    + rewrite land_ring. unfold upd. destruct (Z.eqb_spec k (r_O r - 1)) as [->|N]; [rewrite Z.eqb_refl; reflexivity|].
      destruct (Z.eqb_spec (k mod 256) ((r_O r - 1) mod 256)) as [E|]; [|reflexivity].
      apply ring_slot_inj in E; lia.
    + destruct (Z.eqb_spec k (r_O r - 1)); [lia|reflexivity].
Qed.

(** The hole: the main result, $(n-1), of a POP of [n] registers. *)
Definition main_result (n : Z) (m : machine) : Z :=
  if negb (n =? 0) && (n <=? r_L (m_reg m)) then entry m (r_O (m_reg m) + n - 1) else 0.

Lemma main_result_local n m :
  wf_stack m -> 0 <= n ->
  (if negb (n =? 0) && (n <=? r_L (m_reg m))
   then r_local (m_reg m) (wrap64 (r_O (m_reg m) + n - 1) .& LREG_MASK) else 0) = main_result n m /\
  is_octa (main_result n m).
Proof.
  intros W Hn. pose proof (ws_regs m W) as WR. pose proof (wr_S _ WR). unfold main_result.
  destruct (Z.eqb_spec n 0), (Z.leb_spec n (r_L (m_reg m))); cbn [negb andb]; try (split; [reflexivity|wordlia]).
  unfold entry. replace (r_S (m_reg m) <=? r_O (m_reg m) + n - 1) with true by (symmetry; apply Z.leb_le; lia).
  split; [|apply WR]. rewrite land_ring. unfold wrap. f_equal. Z.div_mod_to_equations; lia.
Qed.

(** The entry below the window is brought into the ring. *)
Lemma first_reload x m :
  wf_stack m -> base < r_O (m_reg m) -> top m <= limit -> 0 <= x ->
  exists m1, when (sp rS (m_reg m) =? sp rO (m_reg m)) reg_reload m = (Ret tt, m1) /\
    refilled m m1 /\ r_S (m_reg m1) < r_O (m_reg m) /\
    (r_S (m_reg m1) = r_S (m_reg m) \/ r_O (m_reg m) - r_S (m_reg m1) <= x + 1).
Proof.
  intros W HbO Ht Hx0. pose proof (ws_regs m W) as WR. pose proof (wr_S _ WR). pose proof (wr_L _ WR).
  unfold top in Ht. rewrite (wr_rS _ WR), (wr_rO _ WR).
  destruct (Z.eqb_spec (8 * r_S (m_reg m)) (8 * r_O (m_reg m))) as [E|E].
  - destruct (reg_reload_spec m m (refilled_refl m W)) as (m1 & E1 & R1 & ES); [lia|lia|lia|unfold top; lia|].
    exists m1. csplit; trivial; lia.
  - exists m. csplit; trivial; [apply refilled_refl; trivial|lia|lia].
Qed.

Lemma reg_pop_spec n m :
  wf_stack m -> 0 <= n < 256 -> base < r_O (m_reg m) -> top m <= limit ->
  let x := entry m (r_O (m_reg m) - 1) mod 256 in
  x <= 254 -> base <= r_O (m_reg m) - (x + 1) ->
  exists m', reg_pop n m = (Ret tt, m') /\ wf_stack m' /\ stable m' = stable m /\
    r_O (m_reg m') = r_O (m_reg m) - (x + 1) /\
    r_L (m_reg m') = Z.min (r_G (m_reg m)) (x + Z.min n (r_L (m_reg m) + 1)) /\
    forall k, base <= k < top m' ->
      entry m' k = if k =? r_O (m_reg m) - 1 then main_result n m else entry m k.
Proof.
  intros W Hn HbO Ht x Hx Hbx. pose proof (ws_regs m W) as WR. pose proof (wr_S _ WR). pose proof (wr_L _ WR).
  pose proof (wr_G _ WR). pose proof (wr_ring _ WR). unfold top in Ht.
  assert (Hx0 : 0 <= x) by (apply Z.mod_pos_bound; lia). destruct (ws_base m W) as [Hb Hl60].
  unfold reg_pop, get_reg. rewrite bind_gets. unfold id.
  destruct (main_result_local n m W ltac:(lia)) as [EH HH]. rewrite EH. cbv zeta.
  destruct (first_reload x m W HbO ltac:(unfold top; lia) Hx0) as (m1 & E1 & R1 & HS1 & HS1').
  rewrite (bind_ret _ _ _ _ _ E1), bind_gets.
  pose proof (rf_O _ _ R1) as EO1. pose proof (ws_regs _ (rf_wf _ _ R1)) as WR1. pose proof (wr_S _ WR1). pose proof (wr_L _ WR1).
  assert (EX : r_local (m_reg m1) ((r_O (m_reg m1) -o 1) .& LREG_MASK) .& 0xFF = x).
  { rewrite (land_mask_eq _ 8), land_ring by lia. unfold x. rewrite <- (rf_entries _ _ R1) by (unfold top; lia).
    unfold entry. rewrite EO1. replace (r_S (m_reg m1) <=? r_O (m_reg m) - 1) with true by (symmetry; apply Z.leb_le; lia).
    unfold wrap. do 2 f_equal. Z.div_mod_to_equations; lia. }
  rewrite EX. destruct (reload_loop x m m1 R1 ltac:(lia) Hbx ltac:(lia) ltac:(unfold top; lia) HS1')
    as (m2 & E2 & R2 & HS2 & HS2').
  rewrite (bind_ret _ _ _ _ _ E2), bind_gets. pose proof (rf_O _ _ R2) as EO2.
  pose proof (rf_stable _ _ R2) as St2. injection St2 as EG2 EGl2 Ec2. rewrite EG2.
  assert (EN : (if n <=? r_L (m_reg m) then n else r_L (m_reg m) + 1) = Z.min n (r_L (m_reg m) + 1))
    by (destruct (Z.leb_spec n (r_L (m_reg m))); lia).
  rewrite EN. set (nr := Z.min n (r_L (m_reg m) + 1)).
  assert (El : (if r_G (m_reg m) <? x + nr then r_G (m_reg m) else x + nr) = Z.min (r_G (m_reg m)) (x + nr))
    by (destruct (Z.ltb_spec (r_G (m_reg m)) (x + nr)); lia).
  rewrite El. set (l := Z.min (r_G (m_reg m)) (x + nr)). pose proof (rf_L _ _ R2) as EL2.
  destruct (finish_pop x l (main_result n m) m2 (rf_wf _ _ R2)) as (m3 & E3 & W3 & St3 & EO3 & EL3 & HE3);
    try lia; [trivial|].
  exists m3. split; [exact E3|]. split; [trivial|]. split; [rewrite St3; exact (rf_stable _ _ R2)|].
  split; [lia|]. split; [trivial|]. intros k Hk. rewrite HE3, EO2 by trivial.
  destruct (Z.eqb_spec k (r_O (m_reg m) - 1)); [reflexivity|]. apply (rf_entries _ _ R2).
  unfold top in *. lia.
Qed.

(** ** Calls and returns *)

Lemma padded_entry m k : k < top m -> padded m k = entry m k.
Proof. intros H. unfold padded. apply Z.ltb_lt in H. rewrite H. reflexivity. Qed.

(** The registers below [x] after a POP into the frame of [m]. *)
Lemma popped_val i x m m3 :
  wf_stack m -> wf_stack m3 -> r_G (m_reg m3) = r_G (m_reg m) -> r_O (m_reg m3) = r_O (m_reg m) ->
  x <= r_L (m_reg m3) -> 0 <= i < x -> x <= r_G (m_reg m) ->
  (forall k, base <= k < r_O (m_reg m) + x -> entry m3 k = padded m k) ->
  reg_val (m_reg m3) i = reg_val (m_reg m) i.
Proof.
  intros W W3 EG EO HL Hi HG HE.
  pose proof (wr_L _ (ws_regs m3 W3)). pose proof (wr_G _ (ws_regs m3 W3)). pose proof (wr_S _ (ws_regs m W)).
  rewrite !reg_val_padded by (trivial; lia). rewrite EG, EO.
  destruct (Z.leb_spec (r_G (m_reg m)) i); [lia|].
  rewrite padded_entry by (unfold top; lia). apply HE. lia.
Qed.

(** The callee's registers are the caller's behind $x. *)
Lemma pushed_args x m m1 j :
  wf_stack m -> wf_stack m1 -> 0 <= x -> r_G (m_reg m1) = r_G (m_reg m) ->
  r_O (m_reg m1) = r_O (m_reg m) + (x + 1) ->
  r_L (m_reg m1) = Z.max (r_L (m_reg m)) (x + 1) - (x + 1) ->
  (forall k, base <= k < top m1 -> entry m1 k = if k =? r_O (m_reg m) + x then x else padded m k) ->
  0 <= j < r_G (m_reg m) - (x + 1) -> reg_val (m_reg m1) j = reg_val (m_reg m) (x + 1 + j).
Proof.
  intros W W1 Hx EG1 EO1 EL1 HE1 Hj. pose proof (wr_G _ (ws_regs m W)). pose proof (wr_S _ (ws_regs m W)).
  rewrite !reg_val_padded by (trivial; lia). rewrite EG1.
  destruct (Z.leb_spec (r_G (m_reg m)) j), (Z.leb_spec (r_G (m_reg m)) (x + 1 + j)); try lia.
  rewrite EO1. unfold padded at 1, top. rewrite EO1, EL1.
  destruct (Z.ltb_spec (r_O (m_reg m) + (x + 1) + j)
              (r_O (m_reg m) + (x + 1) + (Z.max (r_L (m_reg m)) (x + 1) - (x + 1)))) as [Hj'|Hj'].
  - rewrite HE1 by (unfold top; lia). destruct (Z.eqb_spec (r_O (m_reg m) + (x + 1) + j) (r_O (m_reg m) + x)); [lia|].
    f_equal; lia.
  - unfold padded, top. destruct (Z.ltb_spec (r_O (m_reg m) + (x + 1 + j)) (r_O (m_reg m) + r_L (m_reg m))); [lia|trivial].
Qed.

(** C5: Subroutine calls.  After PUSH X the callee starts with the arguments $(X+1),
    $(X+2), ... as its $0, $1, ...  Let [m2] be any state of the callee with the rG and the rO
    it was called with in which the stack entries of its callers, in the ring or in memory, are
    still there; its own registers, the global ones, the memory, the pc and all else may have
    changed, and anything may have been spilled or reloaded.  Then POP n puts the caller's $0 to
    $(X-1) back, the callee's $(n-1) into $X and its $0, ..., $(n-2) into $(X+1), ..., and leaves
    rG, the global registers and the state of the processor as the callee left them.  Both
    operations return.  The caller has less than 255 local registers, the n results are local
    registers of the callee and fit below rG behind $X, and the stack has room. *)
Theorem call_return rno n m m2 :
  wf_stack m -> 0 <= rno < 256 -> r_L (m_reg m) < 255 -> r_O (m_reg m) + 256 <= limit ->
  let x := if r_G (m_reg m) <=? rno then r_L (m_reg m) else rno in
  exists m1, reg_push rno m = (Ret tt, m1) /\
    (forall j, 0 <= j < r_G (m_reg m) - (x + 1) -> reg_val (m_reg m1) j = reg_val (m_reg m) (x + 1 + j)) /\
    (wf_stack m2 -> r_G (m_reg m2) = r_G (m_reg m1) -> r_O (m_reg m2) = r_O (m_reg m1) -> top m2 <= limit ->
     same_entries (r_O (m_reg m1)) m1 m2 -> 0 <= n <= r_L (m_reg m2) -> x + n <= r_G (m_reg m) ->
     exists m3, reg_pop n m2 = (Ret tt, m3) /\ wf_stack m3 /\ stable m3 = stable m2 /\
       r_O (m_reg m3) = r_O (m_reg m) /\ r_L (m_reg m3) = x + n /\
       (forall i, 0 <= i < x -> reg_val (m_reg m3) i = reg_val (m_reg m) i) /\
       (0 < n -> reg_val (m_reg m3) x = reg_val (m_reg m2) (n - 1)) /\
       (forall j, 0 <= j < n - 1 -> reg_val (m_reg m3) (x + 1 + j) = reg_val (m_reg m2) j)).
Proof.
  intros W Hn HL Hl x. pose proof (wr_L _ (ws_regs m W)). pose proof (wr_G _ (ws_regs m W)).
  pose proof (wr_S _ (ws_regs m W)). assert (Hx : 0 <= x <= 254 /\ x <= r_G (m_reg m))
    by (unfold x; destruct (Z.leb_spec (r_G (m_reg m)) rno); lia).
  destruct (reg_push_spec rno m W Hn HL Hl) as (m1 & E1 & W1 & St1 & EO1 & EL1 & HE1). fold x in EO1, EL1, HE1.
  exists m1. split; [trivial|]. injection St1 as EG1 EGl1 Ec1. split.
  { intros j Hj. apply (pushed_args x); trivial; lia. }
  intros W2 EG2 EO2 HT2 HE2 Hnn HxG.
  assert (HX : entry m2 (r_O (m_reg m2) - 1) = x).
  { rewrite EO2, HE2, HE1 by (unfold top; lia).
    destruct (Z.eqb_spec (r_O (m_reg m1) - 1) (r_O (m_reg m) + x)); [trivial|lia]. }
  assert (HXm : entry m2 (r_O (m_reg m2) - 1) mod 256 = x) by (rewrite HX; apply Z.mod_small; lia).
  destruct (reg_pop_spec n m2 W2) as (m3 & E3 & W3 & St3 & EO3 & EL3 & HE3); try lia.
  rewrite HXm in EO3, EL3. exists m3. split; [trivial|]. split; [trivial|].
  pose proof St3 as St. injection St as EG3' _ _. assert (EG3 : r_G (m_reg m3) = r_G (m_reg m)) by congruence.
  assert (EO : r_O (m_reg m3) = r_O (m_reg m)) by lia.
  assert (EL : r_L (m_reg m3) = x + n) by lia.
  assert (HM : main_result n m2 = if n =? 0 then 0 else entry m2 (r_O (m_reg m2) + n - 1)).
  { unfold main_result. replace (n <=? r_L (m_reg m2)) with true by (symmetry; apply Z.leb_le; lia).
    rewrite andb_true_r. destruct (n =? 0); reflexivity. }
  do 3 (split; [trivial|]). split; [|split].
  - intros i Hi. apply (popped_val i x m m3); trivial; [lia..|]. intros k Hk.
    rewrite HE3 by (unfold top; lia). destruct (Z.eqb_spec k (r_O (m_reg m2) - 1)); [lia|].
    rewrite HE2, HE1 by (unfold top; lia). destruct (Z.eqb_spec k (r_O (m_reg m) + x)); [lia|reflexivity].
  - intros Hn0. pose proof (wr_L _ (ws_regs m2 W2)). rewrite !reg_val_padded by (trivial; lia). rewrite EG3, EO, EG2, EG1.
    destruct (Z.leb_spec (r_G (m_reg m)) x), (Z.leb_spec (r_G (m_reg m)) (n - 1)); try lia.
    rewrite !padded_entry, HE3 by (unfold top; lia).
    destruct (Z.eqb_spec (r_O (m_reg m) + x) (r_O (m_reg m2) - 1)); [|lia]. rewrite HM.
    destruct (Z.eqb_spec n 0); [lia|]. f_equal; lia.
  - intros j Hj. rewrite !reg_val_padded by (trivial; lia). rewrite EG3, EO, EG2, EG1.
    destruct (Z.leb_spec (r_G (m_reg m)) (x + 1 + j)), (Z.leb_spec (r_G (m_reg m)) j); try lia.
    rewrite !padded_entry, HE3 by (unfold top; lia).
    destruct (Z.eqb_spec (r_O (m_reg m) + (x + 1 + j)) (r_O (m_reg m2) - 1)); [lia|]. f_equal; lia.
Qed.

(** ** SAVE and UNSAVE with rG = 32

    The loops tell special from global registers by [k < SPECIAL_NUM], and there are 33
    special registers: with rG = 32 the last step of UNSAVE loads rSS, which only
    privileged code may set, instead of the global register $32. *)
Lemma unsave_loads_rSS fuel m :
  wf_stack m -> base < r_S (m_reg m) -> r_S (m_reg m) <= limit -> r_G (m_reg m) = 32 ->
  exists m', unsave_regs (S fuel) 32 m = (Ret tt, m') /\
    r_special (m_reg m') rSS = view m (8 * (r_S (m_reg m) - 1)) /\
    r_global (m_reg m') = r_global (m_reg m).
Proof.
  intros W HS HL HG. destruct (ws_base m W) as [Hb Hl]. pose proof (ws_regs m W) as WR. pose proof (wr_S _ WR).
  cbn [unsave_regs]. change (32 =? rZ + 1) with false. change (32 <? SPECIAL_NUM) with true. cbv iota.
  unfold reg_stackLoadVal, get_reg. rewrite bind_assoc, bind_assoc, bind_gets, (wr_rS _ WR).
  replace (8 * r_S (m_reg m) -o 8) with (8 * (r_S (m_reg m) - 1)) by (rewrite wrap_small; wordlia).
  destruct (stack_read (r_S (m_reg m) - 1) m W ltac:(lia)) as (m1 & E1 & Er & _).
  rewrite bind_assoc, (bind_ret _ _ _ _ _ E1). eexists. split; [|split].
  - unfold on_reg, ev_fire, modify, gets, mret, M_ret, mbind, M_bind. cbn. rewrite Er, HG. reflexivity.
  - cbn. reflexivity.
  - cbn. rewrite ?Er. reflexivity.
Qed.
End Ring.

(** ** The stack in privileged memory *)

Abbreviation kernel_flat := (fun flags Hfl Hmode =>
  flat_memory_weaken (fun c => let '(r, c, _, _, _, _, _, _, _, _) := c in (r, c)) _ _ _ _ _ _
    (kernel_memory MEM_READ flags Hfl Hmode)).

#[export] Instance kernel_stack_memory :
  FlatMemory kernel_ok kernel_dom kernel_view (fun m => (m_reg m, m_cpu m))
    (fun a => mmu_readOcta a MEM_SIDE_EFFECTS) (fun a v => mmu_writeOcta a v MEM_SIDE_EFFECTS).
Proof. exact (kernel_flat MEM_SIDE_EFFECTS eq_refl eq_refl). Qed.

#[export] Instance kernel_independent : RegIndependent kernel_ok kernel_dom kernel_view.
Proof.
  constructor; trivial.
  - intros r m _ [[[] [] ?] ?]. split; [constructor; [constructor|constructor|]|]; trivial.
  - intros l m [HO Hp]. split; [apply (cache_ok_log CACHE_DATA l m HO)|exact Hp].
Qed.

(** A stack of three registers in privileged memory. *)
Definition stack_base : Z := 2 ^ 60 + 0x1000.
Definition stack_limit : Z := stack_base + 1024.

Definition stack_regs : regs :=
  mk_regs (fun i => i mod 256) (fun i => 1000)
    (upd (upd (upd (upd (fun _ => 0) rS (8 * stack_base)) rO (8 * stack_base)) rG 64) rL 3)
    3 64 stack_base stack_base.

Definition stack_machine : machine := set_m_reg stack_regs started_kernel.

Abbreviation kernel_wf := (@wf_stack kernel_ok kernel_dom stack_base stack_limit).

Lemma stack_machine_wf : kernel_wf stack_machine.
Proof.
  constructor.
  - constructor; cbn; unfold stack_base; try lia; intros i; pose proof (Z.mod_pos_bound i 256); wordlia.
  - apply (ri_reg (RegIndependent := kernel_independent)); [vm_compute; reflexivity|apply started_kernel_ok].
  - vm_compute; intuition congruence.
  - intros k Hk. unfold stack_machine. rewrite (ri_dom (RegIndependent := kernel_independent)).
    apply started_kernel_dom. unfold stack_limit, stack_base in Hk. lia.
Qed.

Lemma reg_set_get_witness :
  exists m', reg_set 40 7 stack_machine = (Ret tt, m') /\ reg_val (m_reg m') 40 = 7.
Proof.
  destruct (reg_set_get stack_base stack_limit 40 7 stack_machine) as (m' & E & _ & _ & R & _).
  - apply stack_machine_wf.
  - lia.
  - wordlia.
  - vm_compute; reflexivity.
  - exists m'. split; [exact E|]. apply (R 40). lia.
Defined.

Lemma call_return_witness :
  exists m1 mc m3, reg_push 1 stack_machine = (Ret tt, m1) /\ reg_set 0 77 m1 = (Ret tt, mc) /\
    reg_pop 1 (set_m_cpu (set_c_pc (2 ^ 63 + 400) (m_cpu mc)) mc) = (Ret tt, m3) /\ c_pc (m_cpu m3) = 2 ^ 63 + 400 /\
    reg_val (m_reg m3) 0 = reg_val (m_reg stack_machine) 0 /\ reg_val (m_reg m3) 1 = 77.
Proof.
  pose proof stack_machine_wf as W.
  destruct (reg_push_spec stack_base stack_limit 1 stack_machine W)
    as (m1 & E1 & W1 & St1 & EO1 & EL1 & _); [lia|vm_compute; reflexivity|vm_compute; congruence|].
  injection St1 as EG1 _ _.
  assert (EL : r_L (m_reg m1) = 1) by exact EL1. assert (EO : r_O (m_reg m1) = stack_base + 2) by exact EO1.
  assert (EG : r_G (m_reg m1) = 64) by exact EG1.
  destruct (reg_set_local stack_base stack_limit 0 77 m1 W1) as (mc & Ec & Wc & Stc & EOc & ELc & HEc);
    [rewrite EG; lia|wordlia|rewrite EO, EG; reflexivity|].
  injection Stc as EGc _ _. rewrite EL in ELc. change (r_L (m_reg mc) = 1) in ELc.
  set (m2 := set_m_cpu (set_c_pc (2 ^ 63 + 400) (m_cpu mc)) mc).
  assert (W2 : kernel_wf m2).
  { destruct Wc as [A1 [[[] [] ?] ?] A3 A4]. split; trivial. split; [constructor; [constructor|constructor|]|]; trivial. }
  destruct (call_return stack_base stack_limit 1 1 stack_machine m2 W) as (m1' & E1' & _ & H);
    [lia|vm_compute; reflexivity|vm_compute; congruence|].
  assert (m1' = m1) as -> by congruence.
  destruct H as (m3 & E3 & _ & St3 & _ & _ & H1 & H2 & _); trivial.
  - unfold top. change (m_reg m2) with (m_reg mc). rewrite EOc, EO, ELc. vm_compute; congruence.
  - intros k Hk. change (@entry kernel_view m2 k) with (@entry kernel_view mc k). rewrite HEc by (unfold top; rewrite EOc, ELc; lia).
    rewrite EO in *. destruct (Z.eqb_spec k (stack_base + 2 + 0)); [lia|]. apply padded_entry. unfold top. rewrite EO, EL. lia.
  - change (m_reg m2) with (m_reg mc). rewrite ELc. lia.
  - vm_compute; congruence.
  - exists m1, mc, m3. split; [exact E1|]. split; [exact Ec|]. split; [exact E3|]. injection St3 as _ _ Ecpu.
    split; [rewrite Ecpu; reflexivity|]. split; [exact (H1 0 ltac:(split; vm_compute; congruence))|].
    rewrite (H2 eq_refl : reg_val (m_reg m3) 1 = reg_val (m_reg mc) 0).
    rewrite (reg_val_padded (view := kernel_view) stack_base stack_limit 0 mc Wc) by lia. rewrite EGc, EG. cbn [Z.leb Z.compare].
    rewrite padded_entry by (unfold top; rewrite ELc; lia). rewrite HEc, EOc by (unfold top; rewrite EOc, EO, ELc; lia).
    rewrite Z.eqb_refl. reflexivity.
Defined.
