(* ===== verification/Float.v ===== *)
(** * Floating point arithmetic (gimmix/src/core/arith/float.c)

    IEEE 754 doubles as octas and singles as tetras.  A number is unpacked into a
    sign, an exponent and a fraction whose bit 54 is set.  The functions return the
    result and the exception bits they set; [rm] is the rounding mode that
    [fl_getRoundMode] reads from rA. *)

From Stdlib Require Import ZArith Lia Bool.
From stdpp Require Import base list numbers option.
From S2P Require Import Prelude IntArith Ram Machine.

(** ** The code *)

Abbreviation ZERO_EXPONENT := (-1000).
Abbreviation ROUND_OFF := 1.
Abbreviation ROUND_UP := 2.
Abbreviation ROUND_DOWN := 3.
Abbreviation ROUND_NEAR := 4.
Abbreviation ECMP_NOT_EQUAL := 0.
Abbreviation ECMP_EQUAL := 1.
Abbreviation ECMP_INVALID := 2.
Abbreviation CMP_LESS := 0xFFFFFFFFFFFFFFFF.
Abbreviation CMP_EQUAL := 0.
Abbreviation CMP_GREATER := 1.
Abbreviation CMP_UNORDERED := 2.

Inductive eFtype := ZERO | NUM | INF | NAN.

#[export] Instance eFtype_eq_dec : EqDecision eFtype.
Proof. solve_decision. Defined.

(** The sign is a character, on which the code computes. *)
Abbreviation PLUS := 43.
Abbreviation MINUS := 45.

Record sFloat := mk_sFloat { fl_type : eFtype; fl_f : Z; fl_e : Z; fl_s : Z }.

Definition infinity : Z := 0x7FF0000000000000.
Definition stdNaN : Z := 0x7FF8000000000000.
Abbreviation FBIT := 0x40000000000000.

(** [do { ee--; f <<= 1; } while(!(f & 0x40000000000000))] *)
Fixpoint denorm_loop (fuel : nat) (ee f : Z) : Z * Z :=
  match fuel with
  | O => (ee, f)
  | S fuel =>
    let ee := ee - 1 in
    let f := shl64 f 1 in
    if truth (f .& FBIT) then (ee, f) else denorm_loop fuel ee f
  end.

(** [while(f < 0x40000000000000) { e--; f <<= 1; }] *)
Fixpoint norm_loop (fuel : nat) (e f : Z) : Z * Z :=
  match fuel with
  | O => (e, f)
  | S fuel => if f <? FBIT then norm_loop fuel (e - 1) (shl64 f 1) else (e, f)
  end.

Definition fl_unpack (x : Z) : sFloat :=
  let s := if truth (x .& MSB 64) then MINUS else PLUS in
  let f := shl64 x 2 .& 0x3FFFFFFFFFFFFF in
  let ee := (x .>> 52) .& 0x7FF in
  if truth ee then
    let f := f .| FBIT in
    mk_sFloat (if ee <? 0x7FF then NUM else if f =? FBIT then INF else NAN) f (ee - 1) s
  else if f =? 0 then mk_sFloat ZERO f ZERO_EXPONENT s
  else let '(ee, f) := denorm_loop 55 ee f in mk_sFloat NUM f ee s.

Definition fl_round (x sign rounding : Z) : Z :=
  if rounding =? ROUND_DOWN then (if sign =? MINUS then x +o 3 else x)
  else if rounding =? ROUND_UP then (if negb (sign =? MINUS) then x +o 3 else x)
  else if rounding =? ROUND_NEAR then x +o (if truth (x .& 4) then 2 else 1)
  else x.

(** The fraction that [fl_pack] rounds and the exponent it adds. *)
Definition pack_fraction (e f : Z) : Z * Z :=
  if 0x7FD <? e then (0, 0x7FF)
  else if e <? 0 then
    (if e <? -54 then 1
     else
       let o := f .>> (- e) in
       if negb (shl64 o (- e) =? f) then o .| 1 else o, 0)
  else (f, e).

Definition fl_pack (fl : sFloat) (rounding ex : Z) : Z * Z :=
  let '(o, e) := pack_fraction (fl_e fl) (fl_f fl) in
  let ex := if truth (o .& 3) then ex .| TRIP_FLOATINEXACT else ex in
  let o := fl_round o (fl_s fl) rounding in
  let o := (o .>> 2) +o shl64 e 52 in
  let ex := if 0x7FF0000000000000 <=? o then ex .| (TRIP_FLOATOVER + TRIP_FLOATINEXACT)
            else if o <? 0x0010000000000000 then ex .| TRIP_FLOATUNDER else ex in
  (if fl_s fl =? MINUS then o .| MSB 64 else o, ex).

Definition fl_sunpack (x : Z) : sFloat :=
  let s := if truth (x .& MSB 32) then MINUS else PLUS in
  let f := shl64 (x .& 0x7FFFFF) 31 in
  let ee := (x .>> 23) .& 0xFF in
  if truth ee then
    mk_sFloat (if ee <? 0xFF then NUM else if (x .& 0x7FFFFFFF) =? 0x7F800000 then INF else NAN)
              (f .| FBIT) (ee + 0x380 - 1) s
  else if negb (truth (x .& 0x7FFFFFFF)) then mk_sFloat ZERO f ZERO_EXPONENT s
  else let '(ee, f) := denorm_loop 55 ee f in mk_sFloat NUM f (ee + 0x380) s.

Definition spack_fraction (e f : Z) : Z * Z :=
  if 0x47D <? e then (0, 0x47F)
  else
    let o := wrap32 (f .>> 29) in
    let o := if truth (f .& 0x1FFFFFFF) then o .| 1 else o in
    if e <? 0x380 then
      (if e <? 0x380 - 25 then 1
       else
         let oO := o in
         let o := o .>> (0x380 - e) in
         if negb (shl32 o (0x380 - e) =? oO) then o .| 1 else o, 0x380)
    else (o, e).

Definition fl_spack (fl : sFloat) (rounding ex : Z) : Z * Z :=
  let '(o, e) := spack_fraction (fl_e fl) (fl_f fl) in
  let ex := if truth (o .& 3) then ex .| TRIP_FLOATINEXACT else ex in
  let o := wrap32 (fl_round o (fl_s fl) rounding) in
  let o := wrap32 ((o .>> 2) + shl32 (e - 0x380) 23) in
  let ex := if 0x7F800000 <=? o then ex .| (TRIP_FLOATOVER + TRIP_FLOATINEXACT)
            else if o <? 0x00100000 then ex .| TRIP_FLOATUNDER else ex in
  (if fl_s fl =? MINUS then o .| MSB 32 else o, ex).

(** [if(s == '-') x |= MSB(64)] *)
Definition with_sign (s x : Z) : Z := if s =? MINUS then x .| MSB 64 else x.

Definition fl_shortToFloat (z ex : Z) : Z * Z :=
  let fz := fl_sunpack z in
  match fl_type fz with
  | ZERO => (with_sign (fl_s fz) 0, ex)
  | NUM => fl_pack fz ROUND_OFF ex
  | INF => (with_sign (fl_s fz) infinity, ex)
  | NAN => (with_sign (fl_s fz) ((fl_f fz .>> 2) .| 0x7FF0000000000000), ex)
  end.

Definition fl_floatToShort (rm x ex : Z) : Z * Z :=
  let fx := fl_unpack x in
  let sign z := if fl_s fx =? MINUS then z .| MSB 32 else z in
  match fl_type fx with
  | ZERO => (sign 0, ex)
  | NUM => fl_spack fx rm ex
  | INF => (sign 0x7F800000, ex)
  | NAN =>
    let '(f, ex) := if negb (truth (fl_f fx .& 0x20000000000000))
                    then (fl_f fx .| 0x20000000000000, ex .| TRIP_FLOATINVOP)
                    else (fl_f fx, ex) in
    (sign (wrap32 (0x7F800000 .| (f .>> 31))), ex)
  end.

(** The bit of a quiet NaN. *)
Abbreviation QUIET := 0x8000000000000.

Definition quiet (x ex : Z) : Z * Z :=
  if negb (truth (x .& QUIET)) then (x .| QUIET, ex .| TRIP_FLOATINVOP) else (x, ex).

Definition fl_handleNaN (y z : Z) (yt zt : eFtype) (ex : Z) : Z * Z :=
  match yt, zt with
  | NAN, NAN =>
    let ex := if negb (truth (y .& QUIET)) then ex .| TRIP_FLOATINVOP else ex in quiet z ex
  | _, NAN => quiet z ex
  | NAN, _ => quiet y ex
  | _, _ => (0, ex)
  end.

(** The product of two unpacked numbers. *)
Definition fl_multNums (rm : Z) (fy fz : sFloat) (xs ex : Z) : Z * Z :=
  let '(x, aux) := int_umult (fl_f fy) (shl64 (fl_f fz) 9) in
  let e := fl_e fy + fl_e fz - 0x3FD in
  let '(f, e) := if FBIT <=? aux then (aux, e) else (shl64 aux 1, e - 1) in
  fl_pack (mk_sFloat NUM (if truth x then f .| 1 else f) e xs) rm ex.

Definition fl_mult (rm y z ex : Z) : Z * Z :=
  let fy := fl_unpack y in
  let fz := fl_unpack z in
  let xs := fl_s fy + fl_s fz - PLUS in
  let '(x, ex) := fl_handleNaN y z (fl_type fy) (fl_type fz) ex in
  if truth x then (x, ex)
  else
    match fl_type fy, fl_type fz with
    | NUM, ZERO | ZERO, NUM | ZERO, ZERO => (with_sign xs 0, ex)
    | NUM, INF | INF, NUM | INF, INF => (with_sign xs infinity, ex)
    | ZERO, INF | INF, ZERO => (with_sign xs stdNaN, ex .| TRIP_FLOATINVOP)
    | NUM, NUM => fl_multNums rm fy fz xs ex
    | NAN, _ | _, NAN => (with_sign xs x, ex)
    end.

Definition fl_divNums (rm : Z) (fy fz : sFloat) (xs ex : Z) : Z * Z :=
  let e := fl_e fy - fl_e fz + 0x3FD in
  let '(f, rem) := int_udiv (fl_f fy) 0 (shl64 (fl_f fz) 9) in
  let '(f, rem, e) := if 0x80000000000000 <=? f then (f .>> 1, rem .| (f .& 1), e + 1)
                      else (f, rem, e) in
  fl_pack (mk_sFloat NUM (if truth rem then f .| 1 else f) e xs) rm ex.

Definition fl_divide (rm y z ex : Z) : Z * Z :=
  let fy := fl_unpack y in
  let fz := fl_unpack z in
  let xs := fl_s fy + fl_s fz - PLUS in
  let '(x, ex) := fl_handleNaN y z (fl_type fy) (fl_type fz) ex in
  if truth x then (x, ex)
  else
    match fl_type fy, fl_type fz with
    | ZERO, INF | ZERO, NUM | NUM, INF => (with_sign xs 0, ex)
    | NUM, ZERO => (with_sign xs infinity, ex .| TRIP_FLOATDIVBY0)
    | INF, NUM | INF, ZERO => (with_sign xs infinity, ex)
    | ZERO, ZERO | INF, INF => (with_sign xs stdNaN, ex .| TRIP_FLOATINVOP)
    | NUM, NUM => fl_divNums rm fy fz xs ex
    | NAN, _ | _, NAN => (with_sign xs x, ex)
    end.

(** [{ d = f & 1; f >>= 1; f |= d; }] with the exponent one larger. *)
Definition sticky_shift (e f : Z) : Z * Z := (e + 1, (f .>> 1) .| (f .& 1)).

(** The fraction of the smaller operand, adjusted to the exponent of the larger one. *)
Definition align (d fxe yf zf : Z) (same : bool) : Z * Z * Z :=
  if d =? 0 then (fxe, yf, zf)
  else if d <=? 2 then (fxe, yf, zf .>> d)
  else if 53 <? d then (fxe, yf, 1)
  else
    let '(d, fxe, yf) := if negb same then (d - 1, fxe - 1, shl64 yf 1) else (d, fxe, yf) in
    let f := zf .>> d in
    (fxe, yf, if negb (shl64 f d =? zf) then f .| 1 else f).

Definition fl_addNums (rm : Z) (fy fz : sFloat) (ex : Z) : Z * Z :=
  let '(fy, fz) := if (fl_e fy <? fl_e fz) || ((fl_e fy =? fl_e fz) && (fl_f fy <? fl_f fz))
                   then (fz, fy) else (fy, fz) in
  let same := fl_s fy =? fl_s fz in
  let '(e, yf, zf) := align (fl_e fy - fl_e fz) (fl_e fy) (fl_f fy) (fl_f fz) same in
  let '(e, f) :=
    if same then
      let f := yf +o zf in
      if 0x80000000000000 <=? f then sticky_shift e f else (e, f)
    else
      let f := yf -o zf in
      if 0x80000000000000 <=? f then sticky_shift e f else norm_loop 64 e f in
  fl_pack (mk_sFloat NUM f e (fl_s fy)) rm ex.

Definition fl_add (rm y z ex : Z) : Z * Z :=
  let fy := fl_unpack y in
  let fz := fl_unpack z in
  let '(x, ex) := fl_handleNaN y z (fl_type fy) (fl_type fz) ex in
  if truth x then (x, ex)
  else
    let zero :=
      (with_sign (if fl_s fy =? fl_s fz then fl_s fy
                  else if rm =? ROUND_DOWN then MINUS else PLUS) 0, ex) in
    match fl_type fy, fl_type fz with
    | ZERO, NUM => fl_pack fz ROUND_OFF ex
    | NUM, ZERO => fl_pack fy ROUND_OFF ex
    | INF, INF =>
      if negb (fl_s fy =? fl_s fz)
      then (with_sign (fl_s fz) stdNaN, ex .| TRIP_FLOATINVOP)
      else (with_sign (fl_s fz) infinity, ex)
    | NUM, INF | ZERO, INF => (with_sign (fl_s fz) infinity, ex)
    | INF, NUM | INF, ZERO => (with_sign (fl_s fy) infinity, ex)
    | NUM, NUM =>
      if negb (y =? z .^ 0x8000000000000000) then fl_addNums rm fy fz ex else zero
    | ZERO, ZERO => zero
    | NAN, _ | _, NAN => (with_sign PLUS x, ex)
    end.

Definition fl_compare (y z : Z) : Z :=
  let fy := fl_unpack y in
  let fz := fl_unpack z in
  let flip x := if fl_s fy =? MINUS then wrap64 (- x) else x in
  match fl_type fy, fl_type fz with
  | NAN, _ | _, NAN => CMP_UNORDERED
  | ZERO, ZERO => CMP_EQUAL
  | _, _ =>
    if negb (fl_s fy =? fl_s fz) then flip CMP_GREATER
    else if z <? y then flip CMP_GREATER
    else if y <? z then flip CMP_LESS
    else CMP_EQUAL
  end.

Definition fl_sub (rm y z ex : Z) : Z * Z :=
  let z := if negb (fl_compare z 0 =? CMP_UNORDERED) then z .^ MSB 64 else z in
  fl_add rm y z ex.

(** The last part of [fl_compareWithEps]: [y] and [z] are finite, [fee] and [fef] are
    the exponent and the fraction of the epsilon. *)
Definition compare_near (y z fee fef : Z) (fy fz : sFloat) (similarity : bool) : Z :=
  let unsub v fl := if (fl_e fl <? 0) && negb (bool_decide (fl_type fl = ZERO))
                    then mk_sFloat (fl_type fl) (shl64 v 2) 0 (fl_s fl) else fl in
  let fy := unsub y fy in
  let fz := unsub z fz in
  let '(fy, fz) := if (fl_e fy <? fl_e fz) || ((fl_e fy =? fl_e fz) && (fl_f fy <? fl_f fz))
                   then (fz, fy) else (fy, fz) in
  let ze := if fl_e fz =? ZERO_EXPONENT then fl_e fy else fl_e fz in
  let d := fl_e fy - ze in
  let fee := if negb similarity then fee - d else fee in
  if 1023 <=? fee then ECMP_EQUAL
  else
    let '(fdiff, fcheck) := if 54 <? d then (0, fl_f fz)
                            else (fl_f fz .>> d, shl64 (fl_f fz .>> d) d) in
    if negb (fcheck =? fl_f fz) && (fee <? 1020) then ECMP_NOT_EQUAL
    else
      let fdiff := if negb (fcheck =? fl_f fz)
                   then fdiff +o (if fl_s fy =? fl_s fz then 0 else 1) else fdiff in
      let fdiff := if fl_s fy =? fl_s fz then fl_f fy -o fdiff else fl_f fy +o fdiff in
      if fdiff =? 0 then ECMP_EQUAL
      else if fee <? 968 then ECMP_NOT_EQUAL
      else
        let fef := if 1021 <=? fee then shl64 fef (fee - 1021) else fef .>> (1021 - fee) in
        if fdiff <=? fef then ECMP_EQUAL else ECMP_NOT_EQUAL.

Definition fl_compareWithEps (y z e : Z) (similarity : bool) : Z :=
  let fe := fl_unpack e in
  if fl_s fe =? MINUS then ECMP_INVALID
  else if bool_decide (fl_type fe = NAN) then ECMP_INVALID
  else
    let fee := if bool_decide (fl_type fe = INF) then 10000 else fl_e fe in
    let fy := fl_unpack y in
    let fz := fl_unpack z in
    let near := compare_near y z fee (fl_f fe) fy fz similarity in
    match fl_type fy, fl_type fz with
    | NAN, _ | _, NAN => ECMP_INVALID
    | INF, INF => if (fl_s fy =? fl_s fz) || (1023 <=? fee) then ECMP_EQUAL else ECMP_NOT_EQUAL
    | INF, _ | _, INF => if similarity && (1022 <=? fee) then ECMP_EQUAL else ECMP_NOT_EQUAL
    | ZERO, ZERO => ECMP_EQUAL
    | ZERO, NUM | NUM, ZERO => if negb similarity then ECMP_NOT_EQUAL else near
    | NUM, NUM => near
    end.

Definition fl_interize (rm z rounding ex : Z) : Z * Z :=
  let fz := fl_unpack z in
  let rounding := if negb (truth rounding) then rm else rounding in
  match fl_type fz with
  | NAN => quiet z ex
  | INF | ZERO => (z, ex)
  | NUM =>
    if 1074 <=? fl_e fz then fl_pack fz ROUND_OFF ex
    else
      let xf :=
        if fl_e fz <=? 1020 then 1
        else
          let xf := fl_f fz .>> (1074 - fl_e fz) in
          if negb (shl64 xf (1074 - fl_e fz) =? fl_f fz) then xf .| 1 else xf in
      let xf := fl_round xf (fl_s fz) rounding .& 0xFFFFFFFFFFFFFFFC in
      if 1022 <=? fl_e fz then
        fl_pack (mk_sFloat NUM (shl64 xf (1074 - fl_e fz)) (fl_e fz) (fl_s fz)) ROUND_OFF ex
      else
        let xf := if truth (xf .& 0xFFFFFFFF) then 0x3FF0000000000000 else xf in
        (with_sign (fl_s fz) xf, ex)
  end.

Definition fl_fixit (rm z rounding ex : Z) : Z * Z :=
  let fz := fl_unpack z in
  let rounding := if negb (truth rounding) then rm else rounding in
  match fl_type fz with
  | NAN | INF => (z, ex .| TRIP_FLOATINVOP)
  | ZERO => (0, ex)
  | NUM =>
    let '(zi, ex) := fl_interize rm z rounding ex in
    let fz := fl_unpack zi in
    let sign o := if fl_s fz =? MINUS then wrap64 (0 - o) else o in
    if bool_decide (fl_type fz = ZERO) then (0, ex)
    else if fl_e fz <=? 1076 then (sign (fl_f fz .>> (1076 - fl_e fz)), ex)
    else
      let ex :=
        if (fl_s fz =? PLUS) && (1085 <=? fl_e fz) then ex .| TRIP_FLOAT2FIXOVER
        else if (fl_s fz =? MINUS)
                && ((1085 <? fl_e fz) || ((fl_e fz =? 1085) && (FBIT <? fl_f fz)))
        then ex .| TRIP_FLOAT2FIXOVER else ex in
      if 1140 <=? fl_e fz then (0, ex)
      else (sign (shl64 (fl_f fz) (fl_e fz - 1076)), ex)
  end.

(** [while(f >= 0x80000000000000) { t = f & 1; e++; f >>= 1; f |= t; }] *)
Fixpoint shrink_loop (fuel : nat) (e f : Z) : Z * Z :=
  match fuel with
  | O => (e, f)
  | S fuel =>
    if 0x80000000000000 <=? f then let '(e, f) := sticky_shift e f in shrink_loop fuel e f
    else (e, f)
  end.

Definition fl_floatit (rm z rounding : Z) (unSigned shortPrec : bool) (ex : Z) : Z * Z :=
  if z =? 0 then (0, ex)
  else
    let rounding := if negb (truth rounding) then rm else rounding in
    let '(s, f) := if negb unSigned && truth (z .& MSB 64) then (MINUS, wrap64 (0 - z))
                   else (PLUS, z) in
    let '(e, f) := norm_loop 55 1076 f in
    let '(e, f) := shrink_loop 10 e f in
    let x := mk_sFloat NUM f e s in
    let '(x, ex) := if shortPrec then
                      let '(t, ex) := fl_spack x rounding ex in (fl_sunpack t, ex)
                    else (x, ex) in
    fl_pack x rounding ex.

(** One of the 53 iterations of [fl_sqrtNum]; [k] counts down to 1. *)
Definition sqrt_step (zf k : Z) (st : Z * Z) : Z * Z :=
  let '(f, rf) := st in
  let rf := shl64 rf 2 in
  let f := shl64 f 1 in
  let rf := if 43 <=? k then rf +o ((zf .>> (32 + 2 * (k - 43))) .& 3)
            else if 27 <=? k then rf +o ((zf .>> (2 * (k - 27))) .& 3) else rf in
  if f <? rf then (f +o 1 +o 1, rf -o (f +o 1)) else (f, rf).

Definition fl_sqrtNum (fz : sFloat) (rounding ex : Z) : Z * Z :=
  let e := (fl_e fz + 0x3FE) .>> 1 in
  let zf := if Z.odd (fl_e fz) then shl64 (fl_f fz) 1 else fl_f fz in
  let rf := (zf .>> 54) -o 1 in
  let '(f, rf) := for_down 53 (fun k => sqrt_step zf (k + 1)) (2, rf) in
  let f := if truth rf then f +o 1 else f in
  fl_pack (mk_sFloat NUM f e PLUS) rounding ex.

Definition fl_sqrt (rm z rounding ex : Z) : Z * Z :=
  let fz := fl_unpack z in
  let rounding := if negb (truth rounding) then rm else rounding in
  if (fl_s fz =? MINUS) && negb (bool_decide (fl_type fz = ZERO))
  then (with_sign (fl_s fz) stdNaN, ex .| TRIP_FLOATINVOP)
  else
    match fl_type fz with
    | NAN => quiet z ex
    | INF | ZERO => (with_sign (fl_s fz) z, ex)
    | NUM => fl_sqrtNum fz rounding ex
    end.

(** The loop of [fl_remNum] ends in one of its exits. *)
Inductive rem_exit := RemZero | RemComplement (e f odd : Z) | RemDone (e f odd : Z).

Fixpoint rem_loop (fuel : nat) (ye yf odd thresh : Z) (fz : sFloat) : option rem_exit :=
  match fuel with
  | O => None
  | S fuel =>
    if thresh <=? ye then
      if yf =? fl_f fz then Some RemZero
      else if (yf <? fl_f fz) && (ye =? fl_e fz) then Some (RemComplement ye yf odd)
      else
        let '(ye, yf) := if yf <? fl_f fz then (ye - 1, shl64 yf 1) else (ye, yf) in
        let yf := yf -o fl_f fz in
        let odd := if ye =? fl_e fz then 1 else odd in
        let '(ye, yf) := norm_loop 55 ye yf in
        rem_loop fuel ye yf odd thresh fz
    else Some (RemDone ye yf odd)
  end.

(** The code at [tryComplement]. *)
Definition rem_complement (yf odd ys : Z) (fz : sFloat) (ex : Z) : Z * Z :=
  let xf := fl_f fz -o yf in
  let '(xf, xs) := if (yf <? xf) || ((xf =? yf) && negb (truth odd)) then (yf, ys)
                   else (xf, PLUS + MINUS - ys) in
  let '(xe, xf) := norm_loop 55 (fl_e fz) xf in
  fl_pack (mk_sFloat NUM xf xe xs) ROUND_OFF ex.

(** [None] when the assertion that one step is enough fails. *)
Definition fl_remNum (fy fz : sFloat) (delta ex : Z) : option (Z * Z) :=
  let thresh := Z.max (fl_e fy - delta) (fl_e fz) in
  match rem_loop 2600 (fl_e fy) (fl_f fy) 0 thresh fz with
  | None => None
  | Some RemZero => Some (0, ex)
  | Some (RemComplement _ yf odd) => Some (rem_complement yf odd (fl_s fy) fz ex)
  | Some (RemDone ye yf odd) =>
    if fl_e fz <=? ye then None
    else if ye <? fl_e fz - 1 then Some (fl_pack (mk_sFloat NUM yf ye (fl_s fy)) ROUND_OFF ex)
    else Some (rem_complement (yf .>> 1) odd (fl_s fy) fz ex)
  end.

Definition fl_remstep (y z delta ex : Z) : option (Z * Z) :=
  let fy := fl_unpack y in
  let fz := fl_unpack z in
  let '(x, ex) := fl_handleNaN y z (fl_type fy) (fl_type fz) ex in
  if truth x then Some (x, ex)
  else
    match fl_type fy, fl_type fz with
    | ZERO, ZERO | NUM, ZERO | INF, ZERO | INF, NUM | INF, INF =>
      Some (with_sign (fl_s fy) stdNaN, ex .| TRIP_FLOATINVOP)
    | ZERO, NUM | ZERO, INF | NUM, INF => Some (y, ex)
    | NUM, NUM =>
      '(x, ex) ← fl_remNum fy fz delta ex;
      if truth x then Some (x, ex) else Some (with_sign (fl_s fy) x, ex)
    | NAN, _ | _, NAN => Some (with_sign (fl_s fy) x, ex)
    end.

(** [fl_getRoundMode], of the value of rA. *)
Definition fl_roundMode (ra : Z) : Z :=
  let mode := (ra .>> 16) .& 0x3 in if truth mode then mode else ROUND_NEAR.
