(* ===== verification/FloatSpec.v ===== *)
(** * The values of floating point numbers and correct rounding

    The magnitude of a double is an integer, in units of the smallest subnormal number
    2^-1074.  [fl_unpack] splits a number into a fraction and an exponent without loss,
    [fl_pack] rounds a fraction with a sticky bit to the right neighbour on the grid of
    the representable numbers: the specification of rounding refers to the grid only,
    not to the encoding. *)

From Stdlib Require Import ZArith Lia Bool.
From stdpp Require Import base list numbers option.
From S2P Require Import Prelude IntArith Ram Machine Float.

(** ** The grid *)

(** The magnitude of the number whose octa without the sign is [a]; that of infinity is
    the power of two behind the largest finite number. *)
Definition mag (a : Z) : Z :=
  if a <? 2 ^ 52 then a else (2 ^ 52 + a mod 2 ^ 52) * 2 ^ (a / 2 ^ 52 - 1).

Lemma mag_normal q e : 0 <= e -> 2 ^ 52 <= q < 2 ^ 53 -> mag (q + e * 2 ^ 52) = q * 2 ^ e.
Proof.
  intros He Hq. unfold mag. destruct (Z.ltb_spec (q + e * 2 ^ 52) (2 ^ 52)); [nia|].
  replace ((q + e * 2 ^ 52) / 2 ^ 52) with (e + 1) by dmlia.
  replace ((q + e * 2 ^ 52) mod 2 ^ 52) with (q - 2 ^ 52) by dmlia.
  replace (e + 1 - 1) with e by lia. lia.
Qed.

Lemma pow2_S e : 0 <= e -> 2 ^ (e + 1) = 2 * 2 ^ e.
Proof. intros. rewrite Z.pow_add_r by lia. lia. Qed.

(** With the carry of a fraction that is rounded up to 2^53. *)
Lemma mag_carry q e : 0 <= e -> 2 ^ 52 <= q <= 2 ^ 53 -> mag (q + e * 2 ^ 52) = q * 2 ^ e.
Proof.
  intros He Hq. destruct (Z.eq_dec q (2 ^ 53)) as [->|]; [|apply mag_normal; lia].
  replace (2 ^ 53 + e * 2 ^ 52) with (2 ^ 52 + (e + 1) * 2 ^ 52) by lia.
  rewrite mag_normal, pow2_S by lia. lia.
Qed.

Lemma mag_small q : 0 <= q <= 2 ^ 53 -> mag q = q.
Proof.
  intros H. destruct (Z_lt_le_dec q (2 ^ 52)) as [L|L].
  - unfold mag. apply Z.ltb_lt in L. rewrite L. reflexivity.
  - pose proof (mag_carry q 0 ltac:(lia) ltac:(lia)) as E.
    rewrite Z.mul_0_l, Z.add_0_r, Z.mul_1_r in E. exact E.
Qed.

(** Every number from 2^52 on is a fraction with an exponent. *)
Lemma mag_split a : 2 ^ 52 <= a -> exists q e, 0 <= e /\ 2 ^ 52 <= q < 2 ^ 53 /\ a = q + e * 2 ^ 52.
Proof. intros H. exists (2 ^ 52 + a mod 2 ^ 52), (a / 2 ^ 52 - 1). dmlia. Qed.

Lemma mag_next a : 0 <= a -> mag a < mag (a + 1).
Proof.
  intros Ha. destruct (Z_lt_le_dec a (2 ^ 52)) as [L|L].
  - rewrite !mag_small by lia. lia.
  - destruct (mag_split a L) as (q & e & He & Hq & ->).
    replace (q + e * 2 ^ 52 + 1) with (q + 1 + e * 2 ^ 52) by lia.
    rewrite !mag_carry by lia. pose proof (pow2_pos e He). nia.
Qed.

Lemma mag_lt a b : 0 <= a < b -> mag a < mag b.
Proof.
  intros H. remember (Z.to_nat (b - a)) as n eqn:En. revert b H En.
  induction n as [|n IH]; intros b H En; [lia|].
  destruct (Z.eq_dec b (a + 1)) as [->|]; [apply mag_next; lia|].
  specialize (IH (b - 1) ltac:(lia) ltac:(lia)). pose proof (mag_next (b - 1) ltac:(lia)) as K.
  replace (b - 1 + 1) with b in K by lia. lia.
Qed.

Lemma mag_nonneg a : 0 <= a -> 0 <= mag a.
Proof.
  intros H. destruct (Z.eq_dec a 0) as [->|]; [reflexivity|].
  pose proof (mag_lt 0 a ltac:(lia)). change (mag 0) with 0 in *. lia.
Qed.

Lemma mag_compare a b : 0 <= a -> 0 <= b -> (mag a ?= mag b) = (a ?= b).
Proof.
  intros Ha Hb. destruct (Z.compare_spec a b) as [->|H|H].
  - apply Z.compare_refl.
  - apply Z.compare_lt_iff, mag_lt. lia.
  - apply Z.compare_gt_iff, mag_lt. lia.
Qed.

(** ** Correct rounding *)

(** The direction of the rounding mode [mode] for a number with the sign [neg]. *)
Inductive direction := Toward | Away | Nearest.

Definition direction_of (mode : Z) (neg : bool) : direction :=
  if mode =? ROUND_NEAR then Nearest
  else if ((mode =? ROUND_UP) && negb neg) || ((mode =? ROUND_DOWN) && neg) then Away
  else Toward.

(** [x] is the point of the increasing grid [g] that the value [N / D] is rounded to; ties
    go to the even point. *)
Definition rounds (g : Z -> Z) (dir : direction) (N D x : Z) : Prop :=
  0 <= x /\
  match dir with
  | Toward => D * g x <= N < D * g (x + 1)
  | Away => (0 < x -> D * g (x - 1) < N) /\ N <= D * g x
  | Nearest =>
    (0 < x -> D * (g (x - 1) + g x) < 2 * N \/ D * (g (x - 1) + g x) = 2 * N /\ Z.even x = true) /\
    (2 * N < D * (g x + g (x + 1)) \/ 2 * N = D * (g x + g (x + 1)) /\ Z.even x = true)
  end.

Lemma mag_le a b : 0 <= a <= b -> mag a <= mag b.
Proof. intros H. destruct (Z.eq_dec a b) as [->|]; [lia|]. pose proof (mag_lt a b). lia. Qed.

(** At most one number is the rounded value. *)
Lemma rounds_lt_false dir N D x x' :
  0 < D -> rounds mag dir N D x -> rounds mag dir N D x' -> ~ x < x'.
Proof.
  intros HD [Hx H] [Hx' H'] L. pose proof (mag_le x (x' - 1) ltac:(lia)) as M1.
  pose proof (mag_le (x + 1) x' ltac:(lia)) as M2.
  destruct dir; [nia|destruct H' as [H' _]; specialize (H' ltac:(lia)); nia|].
  destruct H' as [H' _], H as [_ H]. specialize (H' ltac:(lia)).
  destruct (Z.eq_dec x' (x + 1)) as [->|]; [|pose proof (mag_lt x (x' - 1) ltac:(lia)); nia].
  replace (x + 1 - 1) with x in * by lia.
  destruct H as [H|[H E]], H' as [H'|[H' E']]; try nia.
  rewrite Z.even_add, E in E'. discriminate E'.
Qed.

Lemma rounds_unique dir N D x x' :
  0 < D -> rounds mag dir N D x -> rounds mag dir N D x' -> x = x'.
Proof.
  intros HD H H'. pose proof (rounds_lt_false _ _ _ _ _ HD H H').
  pose proof (rounds_lt_false _ _ _ _ _ HD H' H). lia.
Qed.

(** The fraction [f] stands for the value [N / D]: the last bit of [f] is set when [f] with
    it cleared is not all of the value. *)
Definition sticky (f N D : Z) : Prop :=
  if Z.even f then N = f * D else (f - 1) * D < N < (f + 1) * D.

(** ** Rounding to an integer *)

Lemma even_mod x : Z.even x = (x mod 2 =? 0).
Proof. apply Zeven_mod. Qed.

Lemma round_add o k : 0 <= o < 2 ^ 56 -> 0 <= k < 4 -> (o +o k) .>> 2 = (o + k) / 4.
Proof. intros Ho Hk. rewrite wrap_small by wordlia. apply shiftr_div. lia. Qed.

(** The quarter that [fl_round] leaves of a fraction. *)
Lemma fl_round_quarter mode s o :
  0 <= o < 2 ^ 56 ->
  fl_round o s mode .>> 2 =
    match direction_of mode (s =? MINUS) with
    | Toward => o / 4
    | Away => (o + 3) / 4
    | Nearest => (o + (if Z.even (o / 4) then 1 else 2)) / 4
    end.
Proof.
  intros Ho. pose proof (round_add o 3 Ho ltac:(lia)) as H3.
  assert (H0 : o .>> 2 = o / 4) by (apply shiftr_div; lia).
  unfold fl_round, direction_of.
  destruct (Z.eqb_spec mode ROUND_DOWN) as [->|]; [destruct (s =? MINUS); trivial|].
  destruct (Z.eqb_spec mode ROUND_UP) as [->|]; [destruct (s =? MINUS); trivial|].
  destruct (Z.eqb_spec mode ROUND_NEAR) as [->|]; [|trivial].
  change 4 with (2 ^ 2) at 1. rewrite truth_pow2 by lia. change (o / 4) with (o / 2 ^ 2).
  rewrite <- Z.shiftr_div_pow2, <- Z.negb_odd, <- Z.bit0_odd, Z.shiftr_spec by lia.
  change (0 + 2) with 2. destruct (Z.testbit o 2); cbn [negb]; apply round_add; lia.
Qed.

Lemma round_quarter mode s o N D :
  0 <= o < 2 ^ 56 -> 0 < D -> sticky o N D ->
  rounds id (direction_of mode (s =? MINUS)) N (4 * D) (fl_round o s mode .>> 2).
Proof.
  intros Ho HD Hs. rewrite fl_round_quarter by trivial. unfold sticky in Hs. rewrite even_mod in Hs.
  pose proof (Z.div_mod o 4 ltac:(lia)) as E. pose proof (Z.mod_pos_bound o 4 ltac:(lia)) as Hr.
  set (q := o / 4) in *. set (r := o mod 4) in *. assert (Hq : 0 <= q) by (unfold q; apply Z.div_pos; lia).
  assert (Eo : o mod 2 = r mod 2) by (unfold r; dmlia).
  rewrite Eo in Hs. clearbody q r.
  assert (Hc : r = 0 /\ N = 4 * q * D \/ r = 1 /\ 4 * q * D < N < (4 * q + 2) * D \/
               r = 2 /\ N = (4 * q + 2) * D \/ r = 3 /\ (4 * q + 2) * D < N < (4 * q + 4) * D).
  { assert (r = 0 \/ r = 1 \/ r = 2 \/ r = 3) as [-> |[-> |[-> | ->]]] by lia; subst o;
      match type of Hs with context [if ?b then _ else _] =>
        let c := eval compute in b in change b with c in Hs; cbv iota in Hs end; lia. }
  clear Hs Eo. unfold rounds, id. destruct (direction_of mode (s =? MINUS)).
  - split; [lia|]. destruct Hc as [[-> ?]|[[-> ?]|[[-> ?]|[-> ?]]]]; nia.
  - assert (Ex : (o + 3) / 4 = if r =? 0 then q else q + 1).
    { destruct (Z.eqb_spec r 0); dmlia. }
    rewrite Ex. destruct Hc as [[-> ?]|[[-> ?]|[[-> ?]|[-> ?]]]]; cbn; nia.
  - assert (Ex : (o + (if Z.even q then 1 else 2)) / 4
                 = if (r =? 3) || ((r =? 2) && negb (Z.even q)) then q + 1 else q).
    { destruct (Z.even q), (Z.eqb_spec r 3), (Z.eqb_spec r 2); cbn; dmlia. }
    rewrite Ex. destruct (Z.even q) eqn:Ev;
    destruct Hc as [[-> ?]|[[-> ?]|[[-> ?]|[-> ?]]]]; cbn; rewrite ?Z.even_add, ?Ev; cbn; nia.
Qed.

(** ** From the integers to the grid *)

(** A stretch of the grid [g] around [x] that is a scaled stretch of the integers around
    [q]; below the smallest fraction of a binade the grid is finer, but then the value is
    not below [q]. *)
Lemma rounds_scale g dir N D S q x :
  0 < D -> 0 < S -> rounds id dir N D q -> 0 <= x -> Z.even x = Z.even q ->
  g x = q * S -> (q + 1) * S <= g (x + 1) ->
  (0 < x -> 0 < q /\ (g (x - 1) = (q - 1) * S \/ g (x - 1) < q * S /\ D * q <= N)) ->
  rounds g dir (N * S) D x.
Proof.
  intros HD HS [Hq Hr] Hx Ev Eg Hup Hlow. split; [trivial|]. unfold id in Hr.
  assert (Hn : forall k, D * k <= N -> D * (k * S) <= N * S) by (intros; nia).
  assert (Hd : D * ((q + 1) * S) <= D * g (x + 1)) by nia.
  destruct dir; rewrite ?Eg.
  - split; nia.
  - split; [|nia]. intros H0. destruct (Hlow H0) as [Hq0 [->|[Hlt Hn0]]]; [|nia].
    destruct Hr as [Hr _]. specialize (Hr Hq0). nia.
  - rewrite Ev. destruct Hr as [Hl Hu]. split.
    + intros H0. destruct (Hlow H0) as [Hq0 [->|[Hlt Hn0]]]; [|left; nia].
      destruct (Hl Hq0) as [K|[K Ke]]; [left|right; split; [|exact Ke]]; nia.
    + destruct Hu as [K|[K Ke]]; [left; nia|].
      destruct (Z.eq_dec ((q + 1) * S) (g (x + 1))) as [<-|]; [right; split; [nia|exact Ke]|left; nia].
Qed.

Lemma lor_1 p : p .| 1 = if Z.even p then p + 1 else p.
Proof.
  rewrite even_mod. pose proof (Z.div_mod p 2 ltac:(lia)) as E.
  pose proof (Z.mod_pos_bound p 2 ltac:(lia)) as Hr.
  pose proof (lor_disjoint 1 (p / 2) 1 ltac:(lia) ltac:(lia)) as H. rewrite Z.pow_1_r in H.
  destruct (Z.eqb_spec (p mod 2) 0) as [K|K].
  - replace p with (p / 2 * 2) at 1 by lia. rewrite H. lia.
  - replace p with (p / 2 * 2 .| 1) by (rewrite H; lia). rewrite <- Z.lor_assoc. reflexivity.
Qed.

(** The last bit is kept by a shift that keeps what it loses. *)
Lemma sticky_shiftr f N D k :
  0 <= f -> 1 <= k -> 0 < D -> sticky f N D ->
  let o := f .>> k in
  sticky (if o * 2 ^ k =? f then o else o .| 1) N (D * 2 ^ k).
Proof.
  intros Hf Hk HD Hs o. unfold o. rewrite shiftr_div by lia.
  pose proof (pow2_pos k ltac:(lia)) as Hp.
  pose proof (Z.div_mod f (2 ^ k) ltac:(lia)) as E. pose proof (Z.mod_pos_bound f (2 ^ k) Hp) as Hr.
  assert (Ep : 2 ^ k = 2 * 2 ^ (k - 1)) by (rewrite <- Z.pow_succ_r by lia; f_equal; lia).
  set (p := f / 2 ^ k) in *. set (r := f mod 2 ^ k) in *. clearbody p r.
  assert (Ev : Z.even f = Z.even r).
  { rewrite E, Z.even_add, Z.even_mul, Ep, Z.even_mul. cbn. destruct (Z.even r); reflexivity. }
  unfold sticky in *. rewrite Ev in Hs. destruct (Z.eqb_spec (p * 2 ^ k) f) as [K|K].
  - assert (r = 0) as -> by lia. cbn in Hs. destruct (Z.even p); nia.
  - assert (Hv : p * (D * 2 ^ k) < N < (p + 1) * (D * 2 ^ k)).
    { destruct (Z.even r) eqn:Er; [nia|].
      assert (r <> 2 ^ k - 1 \/ r = 2 ^ k - 1) by lia. nia. }
    rewrite lor_1. destruct (Z.even p) eqn:Ee; [|rewrite Ee; nia].
    rewrite Z.even_add, Ee. cbn. nia.
Qed.

Lemma mag_above q e :
  0 <= e -> 2 ^ 52 <= q <= 2 ^ 53 -> (q + 1) * 2 ^ e <= mag (q + e * 2 ^ 52 + 1).
Proof.
  intros He Hq. destruct (Z.eq_dec q (2 ^ 53)) as [->|].
  - replace (2 ^ 53 + e * 2 ^ 52 + 1) with (2 ^ 52 + 1 + (e + 1) * 2 ^ 52) by lia.
    rewrite mag_carry, pow2_S by lia. pose proof (pow2_pos e He). nia.
  - replace (q + e * 2 ^ 52 + 1) with (q + 1 + e * 2 ^ 52) by lia. rewrite mag_carry by lia. lia.
Qed.

(** ** [fl_pack] rounds correctly *)

Lemma sticky_pos f N D : 2 <= f -> 0 < D -> sticky f N D -> 0 < N < (f + 1) * D.
Proof. unfold sticky. intros Hf HD H. destruct (Z.even f); nia. Qed.

Lemma sticky_low f N D b : 0 < D -> sticky f N D -> Z.even b = true -> b <= f -> b * D <= N.
Proof.
  intros HD Hs Hb H. unfold sticky in Hs. destruct (Z.even f) eqn:E; [nia|].
  assert (b <> f) by congruence. nia.
Qed.

Lemma sticky_high f N D b : 0 < D -> sticky f N D -> Z.even b = true -> f < b -> N < b * D.
Proof.
  intros HD Hs Hb H. unfold sticky in Hs. destruct (Z.even f) eqn:E; [nia|].
  assert (b <> f + 1 \/ b = f + 1) by lia. nia.
Qed.

Lemma pack_fraction_spec e f N D :
  FBIT <= f < 2 * FBIT -> 0 < D -> sticky f N D -> e <= 0x7FD ->
  exists o, pack_fraction e f = (o, Z.max e 0) /\ sticky o N (D * 2 ^ Z.max (- e) 0) /\
    if e <? 0 then 0 <= o < 2 ^ 54 else o = f.
Proof.
  intros Hf HD Hs He. unfold pack_fraction. destruct (Z.ltb_spec 0x7FD e); [lia|].
  destruct (Z.ltb_spec e 0) as [L|L].
  - replace (Z.max e 0) with 0 by lia. replace (Z.max (- e) 0) with (- e) by lia.
    destruct (Z.ltb_spec e (-54)) as [L2|L2].
    + exists 1. split; [reflexivity|]. split; [|lia]. pose proof (sticky_pos f N D ltac:(lia) HD Hs).
      pose proof (Z.pow_le_mono_r 2 55 (- e) ltac:(lia) ltac:(lia)). unfold sticky. cbn. nia.
    + pose proof (sticky_shiftr f N D (- e) ltac:(lia) ltac:(lia) HD Hs) as Hsh.
      set (o := f .>> - e) in *. cbv zeta in Hsh.
      assert (Ho : 0 <= o < 2 ^ 54).
      { unfold o. rewrite shiftr_div by lia. pose proof (pow2_pos (- e)).
        pose proof (Z.pow_le_mono_r 2 1 (- e)). split; [apply Z.div_pos; lia|].
        apply Z.div_lt_upper_bound; [lia|]. nia. }
      assert (Hle : o * 2 ^ (- e) <= f).
      { unfold o. rewrite shiftr_div by lia. rewrite Z.mul_comm. apply Z.mul_div_le, pow2_pos. lia. }
      pose proof (pow2_pos (- e) ltac:(lia)).
      rewrite shl_exact by (wordlia || (unfold is_word; nia)).
      eexists. split; [reflexivity|]. split; [|].
      * destruct (o * 2 ^ (- e) =? f); exact Hsh.
      * destruct (negb _); [|exact Ho]. rewrite lor_1. destruct (Z.even o) eqn:Ee; [|exact Ho].
        assert (o <> 2 ^ 54 - 1) by (intros ->; discriminate Ee). lia.
  - exists f. replace (Z.max e 0) with e by lia. replace (Z.max (- e) 0) with 0 by lia.
    rewrite Z.pow_0_r, Z.mul_1_r. auto.
Qed.

(** The number that the octa [x] encodes has the sign [neg] and the magnitude of [a]. *)
Definition encodes (neg : bool) (a x : Z) : Prop :=
  0 <= a < 2 ^ 63 /\ x = if neg then a + 2 ^ 63 else a.

Lemma encodes_sign s a :
  0 <= a < 2 ^ 63 -> encodes (s =? MINUS) a (if s =? MINUS then a .| MSB 64 else a).
Proof.
  intros H. split; [exact H|]. destruct (s =? MINUS); [|reflexivity].
  change (MSB 64) with (1 * 2 ^ 63). rewrite Z.lor_comm, lor_disjoint by lia. lia.
Qed.

Lemma pack_rounds mode fl ex N D :
  FBIT <= fl_f fl < 2 * FBIT -> 0 < D -> sticky (fl_f fl) N D -> fl_e fl <= 0x7FD ->
  exists a, encodes (fl_s fl =? MINUS) a (fst (fl_pack fl mode ex)) /\ a <= infinity /\
    rounds mag (direction_of mode (fl_s fl =? MINUS))
      (N * 2 ^ Z.max (fl_e fl) 0) (4 * (D * 2 ^ Z.max (- fl_e fl) 0)) a.
Proof.
  intros Hf HD Hs He. destruct fl as [t f e s]. cbn [fl_f fl_e fl_s] in *.
  destruct (pack_fraction_spec e f N D Hf HD Hs He) as (o & Ep & Ho & Hb).
  unfold fl_pack. cbn [fl_f fl_e fl_s]. rewrite Ep. cbn [fst].
  pose proof (pow2_pos (Z.max (- e) 0) ltac:(lia)) as Hm.
  assert (Hor : 0 <= o < 2 ^ 56) by (destruct (e <? 0); lia).
  pose proof (round_quarter mode s o N (D * 2 ^ Z.max (- e) 0) Hor ltac:(nia) Ho) as Hr.
  set (q := fl_round o s mode .>> 2) in *.
  assert (Hq : o / 4 <= q <= o / 4 + 1).
  { unfold q. rewrite fl_round_quarter by trivial.
    destruct (direction_of mode (s =? MINUS)); [dmlia|dmlia|destruct (Z.even (o / 4)); dmlia]. }
  set (a := q + Z.max e 0 * 2 ^ 52).
  assert (Hqb : if e <? 0 then 0 <= q <= 2 ^ 52 else 2 ^ 52 <= q <= 2 ^ 53)
    by (destruct (e <? 0); dmlia).
  assert (Ha : 0 <= a <= infinity).
  { unfold a, infinity. destruct (Z.ltb_spec e 0); lia. }
  assert (Ea : q +o shl64 (Z.max e 0) 52 = a).
  { unfold infinity in Ha. rewrite shl_exact by (lia || (unfold is_word; lia)).
    apply wrap_small. unfold is_word. fold a. lia. }
  rewrite Ea. exists a. split; [apply encodes_sign; unfold infinity in Ha; lia|]. split; [lia|].
  pose proof (pow2_pos (Z.max e 0) ltac:(lia)) as HS.
  apply rounds_scale with (q := q); [nia|exact HS|exact Hr|lia|..].
  - unfold a. rewrite Z.even_add, Z.even_mul. cbn. rewrite orb_true_r. destruct (Z.even q); reflexivity.
  - unfold a. destruct (Z.ltb_spec e 0); [|apply mag_carry; lia].
    replace (Z.max e 0) with 0 by lia. rewrite Z.mul_0_l, Z.add_0_r, mag_small by lia. lia.
  - unfold a. destruct (Z.ltb_spec e 0).
    + replace (Z.max e 0) with 0 by lia. rewrite Z.mul_0_l, Z.add_0_r, mag_small by lia. lia.
    + replace (Z.max e 0) with e by lia. apply mag_above; lia.
  - intros H0. unfold a in *. destruct (Z.ltb_spec e 0).
    + replace (Z.max e 0) with 0 in * by lia. rewrite Z.mul_0_l, Z.add_0_r in *.
      split; [lia|]. left. rewrite mag_small by lia. lia.
    + replace (Z.max e 0) with e in * by lia. split; [lia|]. destruct (Z.eq_dec q (2 ^ 52)) as [->|].
      * right. split.
        -- rewrite <- (mag_carry (2 ^ 52) e) by lia. apply mag_lt. lia.
        -- pose proof (sticky_low f N D FBIT HD Hs eq_refl ltac:(lia)).
           replace (Z.max (- e) 0) with 0 by lia. lia.
      * left. replace (q + e * 2 ^ 52 - 1) with (q - 1 + e * 2 ^ 52) by lia. apply mag_carry; lia.
Qed.

(** ** [fl_unpack] loses nothing *)

Lemma truth_fbit f : 0 <= f < 2 ^ 55 -> truth (f .& FBIT) = (FBIT <=? f).
Proof.
  intros H. change FBIT with (2 ^ 54) at 1. rewrite truth_pow2 by lia.
  rewrite Z.testbit_odd, shiftr_div by lia. destruct (Z.leb_spec FBIT f).
  - replace (f / 2 ^ 54) with 1 by dmlia. reflexivity.
  - replace (f / 2 ^ 54) with 0 by dmlia. reflexivity.
Qed.

Lemma denorm_loop_spec fuel ee f :
  0 < f < FBIT -> FBIT <= f * 2 ^ Z.of_nat fuel ->
  exists k, 1 <= k <= Z.of_nat fuel /\ denorm_loop fuel ee f = (ee - k, f * 2 ^ k) /\
    FBIT <= f * 2 ^ k < 2 * FBIT.
Proof.
  revert ee f; induction fuel as [|fuel IH]; intros ee f Hf Hb; [cbn in Hb; lia|].
  cbn [denorm_loop]. rewrite shl_exact by (lia || (unfold is_word; lia)). rewrite Z.pow_1_r.
  rewrite truth_fbit by lia. destruct (Z.leb_spec FBIT (f * 2)).
  - exists 1. rewrite Z.pow_1_r. split; [lia|]. split; [reflexivity|lia].
  - rewrite Nat2Z.inj_succ, Z.pow_succ_r in Hb by lia.
    destruct (IH (ee - 1) (f * 2) ltac:(lia) ltac:(lia)) as (k & Hk & -> & Hr).
    exists (k + 1). rewrite pow2_S by lia. split; [lia|]. split; [f_equal; lia|lia].
Qed.

Lemma encodes_fields neg a x :
  encodes neg a x ->
  truth (x .& MSB 64) = neg /\ shl64 x 2 .& 0x3FFFFFFFFFFFFF = 4 * (a mod 2 ^ 52) /\
  (x .>> 52) .& 0x7FF = a / 2 ^ 52.
Proof.
  intros [Ha Ex]. assert (Hx : is_octa x) by (unfold is_word; destruct neg; lia). csplit.
  - rewrite truth_msb by exact Hx. destruct (Z.ltb_spec x (2 ^ 63)), neg; cbn; lia || reflexivity.
  - rewrite (land_mask_eq _ 54) by (lia || reflexivity). rewrite shl_mul by lia.
    unfold wrap. destruct neg; subst x; dmlia.
  - rewrite (land_mask_eq _ 11) by (lia || reflexivity). rewrite shiftr_div by lia.
    destruct neg; subst x; dmlia.
Qed.

(** The fraction and the exponent of a number with the magnitude of [a]. *)
Definition parts_of (a f e : Z) : Prop :=
  FBIT <= f < 2 * FBIT /\ f mod 4 = 0 /\ -52 <= e <= 0x7FD /\ f * 2 ^ (e + 60) = mag a * 2 ^ 62.

Definition sign_of (neg : bool) : Z := if neg then MINUS else PLUS.

Lemma unpack_spec neg a x :
  encodes neg a x ->
  let fl := fl_unpack x in
  fl_s fl = sign_of neg /\
  fl_type fl = (if a =? 0 then ZERO else if a <? infinity then NUM
                else if a =? infinity then INF else NAN) /\
  (0 < a < infinity -> parts_of a (fl_f fl) (fl_e fl)).
Proof.
  intros Hx. destruct (encodes_fields neg a x Hx) as (Es & Ef & Ee). destruct Hx as [Ha _].
  unfold fl_unpack, infinity. rewrite Es, Ef, Ee. clear Es Ef Ee x.
  pose proof (Z.div_mod a (2 ^ 52) ltac:(lia)) as E.
  pose proof (Z.mod_pos_bound a (2 ^ 52) ltac:(lia)) as HF.
  assert (HE : 0 <= a / 2 ^ 52 < 2 ^ 11) by dmlia.
  set (F := a mod 2 ^ 52) in *. set (ee := a / 2 ^ 52) in *.
  assert (Em : mag a = if ee =? 0 then F else (2 ^ 52 + F) * 2 ^ (ee - 1)).
  { unfold mag. fold F ee. destruct (Z.ltb_spec a (2 ^ 52)), (Z.eqb_spec ee 0); lia. }
  clearbody F ee. unfold truth. destruct (Z.eqb_spec ee 0) as [->|Hee]; cbn [negb].
  - destruct (Z.eqb_spec (4 * F) 0) as [E0|E0].
    + cbn. split; [reflexivity|]. destruct (Z.eqb_spec a 0); [|lia]. split; [reflexivity|lia].
    + destruct (denorm_loop_spec 55 0 (4 * F) ltac:(lia) ltac:(lia)) as (k & Hk & -> & Hr).
      cbn [fl_s fl_type fl_f fl_e]. split; [reflexivity|].
      destruct (Z.eqb_spec a 0), (Z.ltb_spec a 0x7FF0000000000000); try lia. split; [reflexivity|].
      intros _. assert (k < 53).
      { destruct (Z_lt_le_dec k 53); [trivial|].
        pose proof (Z.pow_le_mono_r 2 53 k ltac:(lia) ltac:(lia)). nia. }
      unfold parts_of. csplit; try lia.
      * rewrite <- Z.mul_assoc, Z.mul_comm. apply Z.mod_mul. lia.
      * rewrite Em, <- Z.mul_assoc, <- Z.pow_add_r by lia.
        replace (k + (0 - k + 60)) with 60 by lia. lia.
  - assert (Ef : 4 * F .| FBIT = FBIT + 4 * F).
    { rewrite Z.lor_comm. change FBIT with (1 * 2 ^ 54) at 1. rewrite lor_disjoint by lia. lia. }
    rewrite Ef. cbn [fl_s fl_type fl_f fl_e]. split; [reflexivity|]. split.
    + destruct (Z.eqb_spec a 0), (Z.ltb_spec ee 0x7FF), (Z.ltb_spec a 0x7FF0000000000000),
        (Z.eqb_spec (FBIT + 4 * F) FBIT), (Z.eqb_spec a 0x7FF0000000000000); reflexivity || lia.
    + intros Hlt. unfold parts_of. csplit; try lia; [dmlia|].
      rewrite Em. replace (ee - 1 + 60) with ((ee - 1) + 60) by lia. rewrite Z.pow_add_r by lia. lia.
Qed.
