(* ===== verification/FloatOps.v ===== *)
(** * Floating point operations are correctly rounded

    The product and the quotient of two finite numbers are the exact results, rounded in
    the current mode. *)

From Stdlib Require Import ZArith Lia Bool.
From stdpp Require Import base list numbers option.
From S2P Require Import Prelude IntArith Ram Machine Float FloatSpec.

(** ** Sign and magnitude of an octa *)

Definition neg (x : Z) : bool := 2 ^ 63 <=? x.
Definition body (x : Z) : Z := x mod 2 ^ 63.

(** A finite number that is not zero. *)
Definition is_num (x : Z) : Prop := is_octa x /\ 0 < body x < infinity.

Lemma encodes_octa x : is_octa x -> encodes (neg x) (body x) x.
Proof.
  intros Hx. unfold encodes, neg, body. destruct (Z.leb_spec (2 ^ 63) x); dmlia.
Qed.

Lemma unpack_num x :
  is_num x ->
  fl_type (fl_unpack x) = NUM /\ fl_s (fl_unpack x) = sign_of (neg x) /\
  parts_of (body x) (fl_f (fl_unpack x)) (fl_e (fl_unpack x)).
Proof.
  intros [Hx Hb]. destruct (unpack_spec _ _ _ (encodes_octa x Hx)) as (Es & Et & Hp).
  split; [|split; [exact Es|apply Hp, Hb]]. rewrite Et.
  destruct (Z.eqb_spec (body x) 0), (Z.ltb_spec (body x) infinity); reflexivity || lia.
Qed.

(** ** Lemmas on rounding *)

(** Only the ratio of the value matters. *)
Lemma rounds_ratio g dir N D N' D' x :
  0 < D -> 0 < D' -> N * D' = N' * D -> rounds g dir N D x -> rounds g dir N' D' x.
Proof.
  intros HD HD' E [Hx H]. split; [trivial|].
  assert (L : forall k, D * k <= N -> D' * k <= N') by (intros; nia).
  assert (L2 : forall k, D * k < N -> D' * k < N') by (intros; nia).
  assert (U : forall k, N <= D * k -> N' <= D' * k) by (intros; nia).
  assert (U2 : forall k, N < D * k -> N' < D' * k) by (intros; nia).
  destruct dir; [split; [apply L|apply U2]; apply H|split; [intros; apply L2|apply U]; apply H; trivial|].
  destruct H as [Hl Hu]. split.
  - intros Hx0. destruct (Hl Hx0) as [K|[K Ke]]; [left|right; split; [|exact Ke]]; nia.
  - destruct Hu as [K|[K Ke]]; [left|right; split; [|exact Ke]]; nia.
Qed.

Lemma sticky_parts h x N D :
  0 <= x < D \/ 0 <= x < 2 * D /\ Z.even h = true -> N = h * D + x ->
  sticky (if truth x then h .| 1 else h) N D.
Proof.
  intros Hx ->. unfold truth. destruct (Z.eqb_spec x 0) as [->|]; cbn [negb]; unfold sticky.
  - destruct (Z.even h) eqn:E; lia.
  - rewrite lor_1. destruct (Z.even h) eqn:E; [|rewrite E; nia].
    rewrite Z.even_add, E. cbn. nia.
Qed.

Lemma sticky_range h x lo hi :
  lo <= h < hi -> Z.even hi = true -> lo <= (if truth x then h .| 1 else h) < hi.
Proof.
  intros Hh He. destruct (truth x); [|exact Hh]. rewrite lor_1. destruct (Z.even h) eqn:E; [|exact Hh].
  assert (h + 1 <> hi); [|lia]. intros <-. rewrite Z.even_add, E in He. discriminate He.
Qed.

(** A large power of two; the arithmetic tactics do not evaluate it. *)
Definition pw (n : Z) : Z := 2 ^ n.
Arguments pw : simpl never.

Lemma pw_pos n : 0 <= n -> 0 < pw n.
Proof. apply pow2_pos. Qed.

Lemma pw_add a b n : 0 <= a -> 0 <= b -> a + b = n -> pw n = pw a * pw b.
Proof. intros Ha Hb <-. apply Z.pow_add_r; assumption. Qed.

(** From an exponent of any sign to powers with exponents that are not negative. *)
Lemma scale_max X Y e n n' :
  0 <= n -> 0 <= e + n -> X * 2 ^ (e + n) = Y * 2 ^ n' ->
  X * 2 ^ Z.max e 0 * 2 ^ n = Y * 2 ^ n' * 2 ^ Z.max (- e) 0.
Proof.
  intros Hn He E. destruct (Z_lt_le_dec e 0).
  - replace (Z.max e 0) with 0 by lia. replace (Z.max (- e) 0) with (- e) by lia.
    rewrite <- E, <- !Z.mul_assoc, <- !Z.pow_add_r by lia. f_equal. f_equal. lia.
  - replace (Z.max e 0) with e by lia. replace (Z.max (- e) 0) with 0 by lia.
    rewrite <- E, <- !Z.mul_assoc, <- !Z.pow_add_r by lia. f_equal. f_equal. lia.
Qed.

(** The magnitude behind the largest finite number. *)
Lemma mag_infinity : mag infinity = pw 2098.
Proof. reflexivity. Qed.

(** What it means for the octa [r] to be the number [N / D] with the sign [s], rounded; from
    the overflow threshold on, the result is infinity in every mode. *)
Definition correctly_rounded (mode : Z) (s : bool) (N D r : Z) : Prop :=
  exists a, encodes s a r /\ a <= infinity /\
    if N <? D * mag infinity then rounds mag (direction_of mode s) N D a else a = infinity.

Lemma mul_lt_le a b c d : 0 < b -> 0 <= c -> a < c -> b <= d -> a * b < c * d.
Proof. nia. Qed.

(** The overflow threshold, in terms of the fraction [X / Y] and the power [p] of two. *)
Lemma below_infinity N D X Y K T U p :
  0 < Y -> 0 < D -> 0 < K -> 0 < p -> X < 2 * FBIT * Y -> p <= U -> 2 * FBIT * U = 4 * K * T ->
  X * p * D = N * 4 * Y * K -> N < D * T.
Proof.
  intros HY HD HK Hp HX HU EU E. apply (Z.mul_lt_mono_pos_r (4 * Y * K)); [nia|].
  replace (N * (4 * Y * K)) with (X * p * D) by lia.
  replace (D * T * (4 * Y * K)) with (2 * FBIT * Y * U * D) by nia.
  apply Z.mul_lt_mono_pos_r; [exact HD|]. apply mul_lt_le; lia.
Qed.

Lemma above_infinity N D X Y K T U p :
  0 < Y -> 0 < D -> 0 < K -> 0 < p -> FBIT * Y <= X -> U <= p -> FBIT * U = 4 * K * T -> 0 <= U ->
  X * p * D = N * 4 * Y * K -> D * T <= N.
Proof.
  intros HY HD HK Hp HX HU EU H0 E. apply (Z.mul_le_mono_pos_r _ _ (4 * Y * K)); [nia|].
  replace (N * (4 * Y * K)) with (X * p * D) by lia.
  replace (D * T * (4 * Y * K)) with (FBIT * Y * U * D) by nia.
  apply Z.mul_le_mono_nonneg_r; [lia|]. apply Z.mul_le_mono_nonneg; lia.
Qed.

Lemma pow_55_5045 : 2 * FBIT * pw 5045 = 4 * pw 3000 * pw 2098.
Proof.
  change (2 * FBIT) with (pw 55). change 4 with (pw 2).
  rewrite <- (pw_add 55 5045 5100), <- (pw_add 2 3000 3002), <- (pw_add 3002 2098 5100) by lia. reflexivity.
Qed.

Lemma pow_54_5046 : FBIT * pw 5046 = 4 * pw 3000 * pw 2098.
Proof.
  change FBIT with (pw 54). change 4 with (pw 2).
  rewrite <- (pw_add 54 5046 5100), <- (pw_add 2 3000 3002), <- (pw_add 3002 2098 5100) by lia. reflexivity.
Qed.

Lemma pow_1074_3000 : pw 1074 * pw 3000 = 2 ^ 53 * pw 4021.
Proof.
  change (2 ^ 53) with (pw 53). rewrite <- (pw_add 1074 3000 4074), <- (pw_add 53 4021 4074) by lia. reflexivity.
Qed.

Lemma pow_1983_1074 : pw 1983 * pw 1074 = 2 ^ 57 * pw 3000.
Proof.
  change (2 ^ 57) with (pw 57). rewrite <- (pw_add 1983 1074 3057), <- (pw_add 57 3000 3057) by lia. reflexivity.
Qed.

(** A fraction that stands for the value, packed. *)
Lemma pack_correct mode s c f e ex X Y N D :
  (c =? MINUS) = s -> FBIT <= f < 2 * FBIT -> 0 < Y -> sticky f X Y -> 0 < D -> -3000 <= e ->
  X * 2 ^ (e + 3000) * D = N * 4 * Y * pw 3000 ->
  correctly_rounded mode s N D (fst (fl_pack (mk_sFloat NUM f e c) mode ex)).
Proof.
  intros Es Hf HY Hs HD He E. unfold correctly_rounded. rewrite mag_infinity.
  pose proof (sticky_low f X Y FBIT HY Hs eq_refl ltac:(lia)) as Hlo.
  pose proof (sticky_high f X Y (2 * FBIT) HY Hs eq_refl ltac:(lia)) as Hhi.
  pose proof (pow2_pos (e + 3000) ltac:(lia)) as Hp. pose proof (pw_pos 3000 ltac:(lia)) as HK.
  set (fl := mk_sFloat NUM f e c). change ((fl_s fl =? MINUS) = s) in Es.
  destruct (Z_le_gt_dec e 0x7FD) as [L|L].
  - assert (HN : N < D * pw 2098).
    { apply (below_infinity N D X Y (pw 3000) (pw 2098) (pw 5045) (2 ^ (e + 3000))); try assumption.
      - apply (Z.pow_le_mono_r 2 (e + 3000) 5045); lia.
      - apply pow_55_5045. }
    apply Z.ltb_lt in HN. rewrite HN.
    destruct (pack_rounds mode fl ex X Y Hf HY Hs L) as (a & Ha & Hi & Hr). rewrite Es in *.
    exists a. csplit; trivial. cbn [fl_e fl] in Hr. revert Hr.
    pose proof (pow2_pos (Z.max (- e) 0) ltac:(lia)). apply rounds_ratio; [nia|nia|].
    apply (Z.mul_reg_r _ _ (pw 3000)); [lia|].
    pose proof (scale_max (X * D) (N * 4 * Y) e 3000 3000 ltac:(lia) ltac:(lia) ltac:(fold (pw 3000); lia)) as HS.
    fold (pw 3000) in HS. lia.
  - assert (HN : D * pw 2098 <= N).
    { apply (above_infinity N D X Y (pw 3000) (pw 2098) (pw 5046) (2 ^ (e + 3000))); try assumption.
      - apply (Z.pow_le_mono_r 2 5046 (e + 3000)); lia.
      - apply pow_54_5046.
      - apply Z.lt_le_incl, pw_pos. lia. }
    apply Z.ltb_ge in HN. rewrite HN. exists infinity. csplit; [|lia|reflexivity].
    rewrite <- Es. replace (fst (fl_pack fl mode ex))
      with (if fl_s fl =? MINUS then infinity .| MSB 64 else infinity); [apply encodes_sign; unfold infinity; lia|].
    unfold fl_pack, pack_fraction. cbn [fl_e fl_f fl]. destruct (Z.ltb_spec 0x7FD e); [|lia].
    cbn [fst]. rewrite fl_round_quarter by lia.
    destruct (direction_of mode (fl_s fl =? MINUS)); reflexivity.
Qed.

(** ** Products *)

(** The product of the parts of two numbers. *)
Lemma parts_product ay az fy ey fz ez :
  parts_of ay fy ey -> parts_of az fz ez ->
  fy * fz * 2 ^ (ey + ez - 0x3FD + 3000) = mag ay * mag az * pw 1983.
Proof.
  intros (_ & _ & Hy & Ey) (_ & _ & Hz & Ez).
  replace (ey + ez - 0x3FD + 3000) with ((ey + 60) + (ez + 60) + 1859) by lia.
  rewrite (Z.pow_add_r 2 (ey + 60 + (ez + 60))), (Z.pow_add_r 2 (ey + 60)) by lia. fold (pw 1859).
  transitivity ((fy * 2 ^ (ey + 60)) * (fz * 2 ^ (ez + 60)) * pw 1859); [ring|].
  rewrite Ey, Ez, (pw_add 124 1859 1983) by lia. change (pw 124) with (2 ^ 124). lia.
Qed.

Lemma multNums_rounded rm fy fz ay az ex s c :
  (c =? MINUS) = s -> parts_of ay (fl_f fy) (fl_e fy) -> parts_of az (fl_f fz) (fl_e fz) ->
  correctly_rounded rm s (mag ay * mag az) (pw 1074) (fst (fl_multNums rm fy fz c ex)).
Proof.
  intros Es Py Pz. pose proof (parts_product _ _ _ _ _ _ Py Pz) as E.
  apply (f_equal (fun x => x * pw 1074)) in E. rewrite <- (Z.mul_assoc _ (pw 1983)), pow_1983_1074 in E.
  pose proof (pw_pos 1074 ltac:(lia)) as HD.
  destruct Py as (Hy & _ & Hey & _), Pz as (Hz & _ & Hez & _).
  unfold fl_multNums. rewrite shl_exact by (lia || (unfold is_word; lia)).
  pose proof (int_umult_spec (fl_f fy) (fl_f fz * 2 ^ 9) ltac:(unfold is_word; lia) ltac:(unfold is_word; lia)) as H.
  destruct (int_umult (fl_f fy) (fl_f fz * 2 ^ 9)) as [x aux]. destruct H as (Hx & Ha & Ep).
  set (P := fl_f fy * fl_f fz) in *. set (e := fl_e fy + fl_e fz - 0x3FD) in *.
  assert (HP : 2 ^ 108 <= P < 2 ^ 110) by (unfold P; nia).
  assert (Ep' : P * 2 ^ 9 = aux * 2 ^ 64 + x) by (unfold P; lia). clear Ep. clearbody P.
  assert (HA : 2 ^ 53 <= aux < 2 ^ 55) by (unfold is_word in *; lia).
  destruct (Z.leb_spec FBIT aux) as [L|L].
  - pose proof (sticky_parts aux x (P * 2 ^ 9) (2 ^ 64) ltac:(left; exact Hx) Ep') as Hs.
    apply (pack_correct rm s c _ e ex (P * 2 ^ 9) (2 ^ 64)); trivial; try lia.
    apply sticky_range; [lia|reflexivity].
  - assert (Hs : sticky (if truth x then (aux * 2) .| 1 else aux * 2) (P * 2 ^ 10) (2 ^ 64)).
    { replace (truth x) with (truth (2 * x)) by (unfold truth; destruct x; reflexivity).
      unfold is_word in Hx. apply sticky_parts; [right; split; [lia|]|lia].
      rewrite Z.even_mul. apply orb_true_r. }
    rewrite shl_exact by (lia || (unfold is_word; lia)). rewrite Z.pow_1_r.
    assert (Ee : 2 * 2 ^ (e - 1 + 3000) = 2 ^ (e + 3000)).
    { replace (e + 3000) with (e - 1 + 3000 + 1) by lia. rewrite pow2_S; lia. }
    apply (pack_correct rm s c _ (e - 1) ex (P * 2 ^ 10) (2 ^ 64)); trivial; try lia.
    apply sticky_range; [lia|reflexivity].
Qed.

(** The characters of the signs are computed with: the product of two minus signs is
    neither sign, but counts as plus. *)
Lemma sign_product s t : (sign_of s + sign_of t - PLUS =? MINUS) = xorb s t.
Proof. destruct s, t; reflexivity. Qed.

(** C16: The product of two finite numbers is the exact product, correctly rounded in the
    current mode: the nearest representable number with ties to even, or the neighbour in
    the direction of the mode, down to the subnormal numbers; from 2^1024 on it is
    infinite. *)
Theorem fmul_rounded rm y z ex :
  is_num y -> is_num z ->
  correctly_rounded rm (xorb (neg y) (neg z)) (mag (body y) * mag (body z)) (2 ^ 1074)
    (fst (fl_mult rm y z ex)).
Proof.
  intros Hy Hz. destruct (unpack_num y Hy) as (Ty & Sy & Py), (unpack_num z Hz) as (Tz & Sz & Pz).
  unfold fl_mult. rewrite Ty, Tz. cbn [fl_handleNaN]. change (truth 0) with false. cbv iota.
  apply multNums_rounded; trivial. rewrite Sy, Sz. apply sign_product.
Qed.

Lemma fmul_rounded_witness :
  correctly_rounded ROUND_NEAR true (mag 0x3FF8000000000000 * mag 1) (2 ^ 1074)
    (fst (fl_mult ROUND_NEAR 0x3FF8000000000000 0x8000000000000001 0)) /\
  fst (fl_mult ROUND_NEAR 0x3FF8000000000000 0x8000000000000001 0) = 0x8000000000000002.
Proof.
  split; [|vm_compute; reflexivity].
  apply (fmul_rounded ROUND_NEAR 0x3FF8000000000000 0x8000000000000001 0);
    split; concrete_word || (split; vm_compute; reflexivity).
Defined.

(** ** Quotients *)

Lemma parts_quotient ay az fy ey fz ez :
  parts_of ay fy ey -> parts_of az fz ez ->
  fy * 2 ^ 64 * 2 ^ (ey - ez + 0x3FD + 3000) * mag az
  = mag ay * pw 1074 * 4 * (fz * 2 ^ 9) * pw 3000.
Proof.
  intros (_ & _ & Hy & Ey) (_ & _ & Hz & Ez).
  replace (ey - ez + 0x3FD + 3000) with ((ey + 60) + (3961 - ez)) by lia.
  rewrite Z.pow_add_r by lia. apply (Z.mul_reg_r _ _ (2 ^ 62)); [lia|].
  transitivity ((fy * 2 ^ (ey + 60)) * 2 ^ 64 * 2 ^ (3961 - ez) * (mag az * 2 ^ 62)); [ring|].
  rewrite Ey, <- Ez.
  transitivity (mag ay * 2 ^ 126 * fz * (2 ^ (3961 - ez) * 2 ^ (ez + 60))); [ring|].
  rewrite <- Z.pow_add_r by lia. replace (3961 - ez + (ez + 60)) with 4021 by lia. fold (pw 4021).
  pose proof pow_1074_3000. nia.
Qed.

Lemma truth_lor_rem r f Y : 0 <= r -> 0 < Y -> truth (r .| (f .& 1)) = truth (r + f mod 2 * Y).
Proof.
  intros Hr HY. rewrite (land_mask_eq f 1) by (lia || reflexivity). rewrite Z.pow_1_r.
  pose proof (Z.mod_pos_bound f 2 ltac:(lia)). assert (f mod 2 = 0 \/ f mod 2 = 1) as [-> | ->] by lia.
  - rewrite Z.lor_0_r, Z.mul_0_l, Z.add_0_r. reflexivity.
  - assert (r .| 1 <> 0).
    { rewrite lor_1. destruct (Z.even r) eqn:E; [lia|]. intros ->. discriminate E. }
    unfold truth. destruct (Z.eqb_spec (r .| 1) 0), (Z.eqb_spec (r + 1 * Y) 0); reflexivity || lia.
Qed.

Lemma divNums_rounded rm fy fz ay az ex s c :
  (c =? MINUS) = s -> 0 < mag az ->
  parts_of ay (fl_f fy) (fl_e fy) -> parts_of az (fl_f fz) (fl_e fz) ->
  correctly_rounded rm s (mag ay * pw 1074) (mag az) (fst (fl_divNums rm fy fz c ex)).
Proof.
  intros Es Hm Py Pz. pose proof (parts_quotient _ _ _ _ _ _ Py Pz) as E.
  destruct Py as (Hy & _ & Hey & _), Pz as (Hz & _ & Hez & _).
  unfold fl_divNums. rewrite shl_exact by (lia || (unfold is_word; lia)).
  set (Y := fl_f fz * 2 ^ 9) in *. set (e := fl_e fy - fl_e fz + 0x3FD) in *.
  rewrite int_udiv_spec by (unfold is_word, Y; lia). rewrite Z.add_0_r.
  set (X := fl_f fy * 2 ^ 64) in *. pose proof (Z.div_mod X Y ltac:(lia)) as Ed.
  pose proof (Z.mod_pos_bound X Y ltac:(lia)) as Hr.
  assert (Hf : 2 ^ 54 <= X / Y < 2 ^ 56).
  { split; [apply Z.div_le_lower_bound|apply Z.div_lt_upper_bound]; unfold X, Y; lia. }
  set (f := X / Y) in *. set (r := X mod Y) in *. clearbody X Y f r.
  destruct (Z.leb_spec 0x80000000000000 f) as [L|L].
  - rewrite (truth_lor_rem r f Y), shiftr_div, Z.pow_1_r by lia.
    assert (Ee : 2 ^ (e + 1 + 3000) = 2 * 2 ^ (e + 3000)).
    { replace (e + 1 + 3000) with (e + 3000 + 1) by lia. apply pow2_S. lia. }
    apply (pack_correct rm s c _ (e + 1) ex X (2 * Y)); trivial; try lia.
    + apply sticky_range; [dmlia|reflexivity].
    + pose proof (Z.div_mod f 2 ltac:(lia)). pose proof (Z.mod_pos_bound f 2 ltac:(lia)).
      apply sticky_parts; [left|]; nia.
  - apply (pack_correct rm s c _ e ex X Y); trivial; try lia.
    + apply sticky_range; [lia|reflexivity].
    + apply sticky_parts; [left|]; lia.
Qed.

Lemma mag_num x : is_num x -> 0 < mag (body x).
Proof. intros [_ H]. pose proof (mag_lt 0 (body x) ltac:(lia)). change (mag 0) with 0 in *. lia. Qed.

(** C17: The quotient of two finite numbers is the exact quotient, correctly rounded in the
    current mode. *)
Theorem fdiv_rounded rm y z ex :
  is_num y -> is_num z ->
  correctly_rounded rm (xorb (neg y) (neg z)) (mag (body y) * 2 ^ 1074) (mag (body z))
    (fst (fl_divide rm y z ex)).
Proof.
  intros Hy Hz. destruct (unpack_num y Hy) as (Ty & Sy & Py), (unpack_num z Hz) as (Tz & Sz & Pz).
  unfold fl_divide. rewrite Ty, Tz. cbn [fl_handleNaN]. change (truth 0) with false. cbv iota.
  apply divNums_rounded; trivial; [rewrite Sy, Sz; apply sign_product|apply mag_num, Hz].
Qed.

Lemma fdiv_rounded_witness :
  correctly_rounded ROUND_UP false (mag 0x3FF0000000000000 * 2 ^ 1074) (mag 0x4008000000000000)
    (fst (fl_divide ROUND_UP 0x3FF0000000000000 0x4008000000000000 0)) /\
  fst (fl_divide ROUND_UP 0x3FF0000000000000 0x4008000000000000 0) = 0x3FD5555555555556.
Proof.
  split; [|vm_compute; reflexivity].
  apply (fdiv_rounded ROUND_UP 0x3FF0000000000000 0x4008000000000000 0);
    split; concrete_word || (split; vm_compute; reflexivity).
Defined.
