(* ===== verification/FloatAdd.v ===== *)
(** * Floating point sums

    The sum of two finite numbers is correctly rounded, with one exception: a power of
    two minus a number between a quarter and half an ulp of it is not rounded to the
    nearest number, because the number that is subtracted is replaced by a sticky bit
    that the normalization shifts out of its place. *)

From Stdlib Require Import ZArith Lia Bool.
From stdpp Require Import base list numbers option.
From S2P Require Import Prelude IntArith Ram Machine Float FloatSpec FloatOps.

(** ** Aligned fractions *)

(** The exact sum or difference of the parts of two numbers. *)
Lemma parts_sum ay az fy ey fz ez sg :
  parts_of ay fy ey -> parts_of az fz ez -> ez <= ey ->
  (fy * 2 ^ (ey - ez) + sg * fz) * 2 ^ (ey + 3000)
  = (mag ay + sg * mag az) * 4 * 2 ^ (ey - ez) * pw 3000.
Proof.
  intros (_ & _ & Hy & Ey) (_ & _ & Hz & Ez) Hle.
  assert (Ee : 2 ^ (ey + 3000) = 2 ^ (ey + 60) * 2 ^ 2940).
  { rewrite <- Z.pow_add_r by lia. f_equal. lia. }
  assert (Ed : 2 ^ (ey + 60) = 2 ^ (ez + 60) * 2 ^ (ey - ez)).
  { rewrite <- Z.pow_add_r by lia. f_equal. lia. }
  rewrite Z.mul_add_distr_r, Ee. set (K := 2 ^ 2940).
  transitivity (fy * 2 ^ (ey + 60) * 2 ^ (ey - ez) * K + sg * (fz * 2 ^ (ez + 60)) * 2 ^ (ey - ez) * K).
  { rewrite Ed. ring. }
  rewrite Ey, Ez. replace (pw 3000) with (K * 2 ^ 60) by reflexivity. ring.
Qed.

Lemma norm_loop_spec fuel e f :
  0 < f < 2 * FBIT -> FBIT <= f * 2 ^ Z.of_nat fuel ->
  exists k, 0 <= k <= Z.of_nat fuel /\ norm_loop fuel e f = (e - k, f * 2 ^ k) /\
    FBIT <= f * 2 ^ k < 2 * FBIT.
Proof.
  revert e f; induction fuel as [|fuel IH]; intros e f Hf Hb.
  - exists 0. rewrite Z.pow_0_r, Z.mul_1_r in *. cbn [norm_loop]. split; [lia|]. split; [f_equal; lia|lia].
  - cbn [norm_loop]. destruct (Z.ltb_spec f FBIT).
    + rewrite shl_exact by (lia || (unfold is_word; lia)). rewrite Z.pow_1_r.
      rewrite Nat2Z.inj_succ, Z.pow_succ_r in Hb by lia.
      destruct (IH (e - 1) (f * 2) ltac:(lia) ltac:(lia)) as (k & Hk & -> & Hr).
      exists (k + 1). rewrite pow2_S by lia. split; [lia|]. split; [f_equal; lia|lia].
    + exists 0. rewrite Z.pow_0_r, Z.mul_1_r. split; [lia|]. split; [f_equal; lia|lia].
Qed.

(** A carry is shifted back, with its last bit kept. *)
Lemma sticky_shift_spec e f N D :
  0 <= f < 2 ^ 56 -> 0 < D -> sticky f N D ->
  exists f', sticky_shift e f = (e + 1, f') /\ sticky f' N (D * 2) /\ f / 2 <= f' < 2 ^ 55 /\
    (f' = f / 2 \/ f' = f / 2 + 1).
Proof.
  intros Hf HD Hs. pose proof (sticky_shiftr f N D 1 ltac:(lia) ltac:(lia) HD Hs) as H.
  cbv zeta in H. rewrite Z.pow_1_r, shiftr_div, Z.pow_1_r in H by lia. unfold sticky_shift.
  rewrite (land_mask_eq f 1) by (lia || reflexivity). rewrite shiftr_div, Z.pow_1_r by lia.
  pose proof (Z.div_mod f 2 ltac:(lia)) as E. pose proof (Z.mod_pos_bound f 2 ltac:(lia)) as Hr.
  eexists. split; [reflexivity|]. destruct (Z.eqb_spec (f / 2 * 2) f) as [K|K].
  - replace (f mod 2) with 0 by lia. rewrite Z.lor_0_r. split; [exact H|]. split; [dmlia|left; reflexivity].
  - replace (f mod 2) with 1 by lia. split; [exact H|]. rewrite lor_1.
    destruct (Z.even (f / 2)) eqn:Ee; [|split; [dmlia|left; reflexivity]].
    split; [|right; reflexivity]. assert (f / 2 + 1 <> 2 ^ 55); [|dmlia].
    intros C. assert (f / 2 = 2 ^ 55 - 1) as F by lia. rewrite F in Ee. discriminate Ee.
Qed.

Lemma sticky_exact f D : 0 < D -> sticky f (f * D) D.
Proof. intros H. unfold sticky. destruct (Z.even f); nia. Qed.

(** A fraction plus or minus an aligned one. *)
Lemma sticky_sum yf zs zf D sg :
  sg = 1 \/ sg = -1 -> Z.even yf = true -> sticky zs zf D ->
  sticky (yf + sg * zs) (yf * D + sg * zf) D.
Proof.
  intros Hsg Hy Hs. unfold sticky in *. rewrite Z.even_add, Hy, Z.even_mul.
  destruct Hsg as [-> | ->]; cbn [Z.even orb]; destruct (Z.even zs); cbn [Bool.eqb]; nia.
Qed.

(** The shift of [align]: for 1 <= d <= 53. *)
Lemma align_shift d zf :
  1 <= d -> FBIT <= zf < 2 * FBIT ->
  let f := zf .>> d in
  let zs := if negb (shl64 f d =? zf) then f .| 1 else f in
  sticky zs zf (2 ^ d) /\ 0 <= zs <= 2 ^ (55 - Z.min d 55).
Proof.
  intros Hd Hz. cbv zeta.
  pose proof (sticky_shiftr zf zf 1 d ltac:(lia) Hd ltac:(lia)) as H. cbv zeta in H.
  rewrite Z.mul_1_l in H.
  assert (Hf : 0 <= zf .>> d < 2 ^ (55 - Z.min d 55)).
  { rewrite shiftr_div by lia. pose proof (pow2_pos d ltac:(lia)). split; [apply Z.div_pos; lia|].
    apply Z.div_lt_upper_bound; [lia|]. rewrite <- Z.pow_add_r by lia.
    pose proof (Z.pow_le_mono_r 2 55 (d + (55 - Z.min d 55)) ltac:(lia) ltac:(lia)). lia. }
  assert (Hm : (zf .>> d) * 2 ^ d <= zf).
  { rewrite shiftr_div, Z.mul_comm by lia. apply Z.mul_div_le, pow2_pos. lia. }
  pose proof (pow2_pos d ltac:(lia)).
  rewrite shl_exact by (lia || (unfold is_word; nia)). split.
  - destruct ((zf .>> d) * 2 ^ d =? zf); apply H; rewrite <- (Z.mul_1_r zf) at 2; apply sticky_exact; lia.
  - destruct (negb _); [|lia]. rewrite lor_1. destruct (Z.even (zf .>> d)); lia.
Qed.

Lemma align_direct d e yf zf (same : bool) :
  0 <= d -> FBIT <= zf < 2 * FBIT -> zf mod 4 = 0 -> same = true \/ d <= 2 \/ 53 < d ->
  exists zs, align d e yf zf same = (e, yf, zs) /\ sticky zs zf (2 ^ d) /\ 0 < zs < 2 * FBIT /\
    (d <= 2 -> zs * 2 ^ d = zf) /\ (53 < d -> zs = 1) /\ (1 <= d -> zs <= FBIT).
Proof.
  intros Hd Hz H4 Hc. unfold align. destruct (Z.eqb_spec d 0) as [->|].
  { exists zf. rewrite Z.pow_0_r, !Z.mul_1_r. csplit; trivial; try lia.
    rewrite <- (Z.mul_1_r zf) at 2. apply sticky_exact. lia. }
  destruct (Z.leb_spec d 2) as [L|L].
  { exists (zf .>> d). rewrite shiftr_div by lia.
    assert (E : zf / 2 ^ d * 2 ^ d = zf) by (assert (d = 1 \/ d = 2) as [-> | ->] by lia; dmlia).
    assert (0 < zf / 2 ^ d <= FBIT) by (assert (d = 1 \/ d = 2) as [-> | ->] by lia; dmlia).
    csplit; trivial; try lia. pattern zf at 2; rewrite <- E. apply sticky_exact, pow2_pos. lia. }
  destruct (Z.ltb_spec 53 d) as [L2|L2].
  { exists 1. pose proof (Z.pow_le_mono_r 2 54 d ltac:(lia) ltac:(lia)).
    csplit; trivial; try lia. unfold sticky. cbn. lia. }
  destruct same; [|lia]. cbn [negb]. destruct (align_shift d zf ltac:(lia) Hz) as [Hs Hr]. cbv zeta in *.
  pose proof (Z.pow_le_mono_r 2 (55 - Z.min d 55) 52 ltac:(lia) ltac:(lia)).
  eexists. split; [reflexivity|]. csplit; trivial; try lia.
  assert (2 <= zf .>> d).
  { rewrite shiftr_div by lia. apply Z.div_le_lower_bound; [apply pow2_pos; lia|].
    pose proof (Z.pow_le_mono_r 2 d 53 ltac:(lia) ltac:(lia)). lia. }
  destruct (negb _); [|lia]. rewrite lor_1. destruct (Z.even (zf .>> d)); lia.
Qed.

Lemma align_shifted d e yf zf :
  3 <= d <= 53 -> FBIT <= zf < 2 * FBIT -> FBIT <= yf < 2 * FBIT ->
  exists zs, align d e yf zf false = (e - 1, yf * 2, zs) /\ sticky zs zf (2 ^ (d - 1)) /\ 0 <= zs <= 2 ^ 53.
Proof.
  intros Hd Hz Hy. unfold align.
  destruct (Z.eqb_spec d 0), (Z.leb_spec d 2), (Z.ltb_spec 53 d); try lia. cbn [negb].
  rewrite (shl_exact 64 yf 1) by (lia || (unfold is_word; lia)). rewrite Z.pow_1_r.
  destruct (align_shift (d - 1) zf ltac:(lia) Hz) as [Hs Hr]. cbv zeta in *.
  pose proof (Z.pow_le_mono_r 2 (55 - Z.min (d - 1) 55) 53 ltac:(lia) ltac:(lia)).
  eexists. split; [reflexivity|]. split; [exact Hs|lia].
Qed.

(** ** The sum of two ordered numbers *)

(** [fl_addNums] behind the exchange of its operands. *)
Definition add_ordered (rm : Z) (fy fz : sFloat) (ex : Z) : Z * Z :=
  let same := fl_s fy =? fl_s fz in
  let '(e, yf, zf) := align (fl_e fy - fl_e fz) (fl_e fy) (fl_f fy) (fl_f fz) same in
  let '(e, f) :=
    if same then
      let f := yf +o zf in
      if 0x80000000000000 <=? f then sticky_shift e f else (e, f)
    else
      let f := yf -o zf in
      if 0x80000000000000 <=? f then sticky_shift e f else norm_loop 64 e f in
  fl_pack (mk_sFloat NUM f e (fl_s fy)) rm ex.

Lemma addNums_ordered rm fy fz ex :
  fl_addNums rm fy fz ex
  = if (fl_e fy <? fl_e fz) || ((fl_e fy =? fl_e fz) && (fl_f fy <? fl_f fz))
    then add_ordered rm fz fy ex else add_ordered rm fy fz ex.
Proof. unfold fl_addNums. destruct (_ || _); reflexivity. Qed.

(** Fractions with the same quarter are packed alike. *)
Lemma pack_same rm c f f' e ex :
  0 <= e <= 0x7FD -> fl_round f c rm .>> 2 = fl_round f' c rm .>> 2 ->
  fst (fl_pack (mk_sFloat NUM f e c) rm ex) = fst (fl_pack (mk_sFloat NUM f' e c) rm ex).
Proof.
  intros He E. unfold fl_pack, pack_fraction. cbn [fl_e fl_f fl_s].
  destruct (Z.ltb_spec 0x7FD e), (Z.ltb_spec e 0); try lia. cbn [fst]. rewrite E. reflexivity.
Qed.

(** The sticky bit that the normalization has moved one place to the left. *)
Lemma pack_top rm c e ex f :
  0 <= e <= 0x7FD ->
  f = 2 ^ 55 - 1 \/ f = 2 ^ 55 - 3 /\ direction_of rm (c =? MINUS) <> Nearest ->
  fst (fl_pack (mk_sFloat NUM (2 ^ 55 - 2) e c) rm ex) = fst (fl_pack (mk_sFloat NUM f e c) rm ex).
Proof.
  intros He Hf. apply pack_same; [exact He|]. rewrite !fl_round_quarter by (destruct Hf; lia).
  destruct Hf as [-> |[-> Hn]]; destruct (direction_of rm (c =? MINUS)); reflexivity || congruence.
Qed.

Section Ordered.
Context (rm ex : Z) (fy fz : sFloat) (ay az : Z) (s : bool).
Hypothesis Hs : (fl_s fy =? MINUS) = s.
Hypothesis Py : parts_of ay (fl_f fy) (fl_e fy).
Hypothesis Pz : parts_of az (fl_f fz) (fl_e fz).
Hypothesis Hle : fl_e fz <= fl_e fy.

Let d : Z := fl_e fy - fl_e fz.

(** The exact result [(fl_f fy * 2 ^ d + sg * fl_f fz) / 2 ^ d] at a smaller exponent. *)
Lemma ordered_exact sg k :
  0 <= k <= 3 ->
  (fl_f fy * 2 ^ d + sg * fl_f fz) * 2 ^ (fl_e fy - k + 3000) * 1 * 2 ^ k
  = (mag ay + sg * mag az) * 4 * 2 ^ d * pw 3000.
Proof.
  intros Hk. unfold d. rewrite <- (parts_sum ay az (fl_f fy) (fl_e fy) (fl_f fz) (fl_e fz) sg Py Pz Hle).
  destruct Py as (_ & _ & He & _). rewrite Z.mul_1_r, <- Z.mul_assoc, <- Z.pow_add_r by lia.
  f_equal. f_equal. lia.
Qed.

Lemma yf_even : Z.even (fl_f fy) = true.
Proof. destruct Py as (_ & H & _). rewrite even_mod. apply Z.eqb_eq. dmlia. Qed.

Lemma add_same :
  (fl_s fy =? fl_s fz) = true ->
  correctly_rounded rm s (mag ay + mag az) 1 (fst (add_ordered rm fy fz ex)).
Proof.
  intros E. pose proof yf_even as Hev. destruct Py as (Hy & _ & Hey & _), Pz as (Hz & Hz4 & Hez & _).
  unfold add_ordered. rewrite E. fold d. pose proof (pow2_pos d ltac:(lia)) as Hd.
  destruct (align_direct d (fl_e fy) (fl_f fy) (fl_f fz) true ltac:(lia) Hz Hz4 ltac:(auto))
    as (zs & -> & Hst & Hzs & _ & _ & Hsm).
  pose proof (sticky_sum (fl_f fy) zs (fl_f fz) (2 ^ d) 1 ltac:(auto) Hev Hst) as Hsum.
  pose proof (ordered_exact 1 0 ltac:(lia)) as Ex. rewrite !Z.mul_1_l in *.
  rewrite wrap_small by wordlia. set (X := fl_f fy * 2 ^ d + fl_f fz) in *.
  destruct (Z.leb_spec 0x80000000000000 (fl_f fy + zs)) as [L|L].
  - destruct (sticky_shift_spec (fl_e fy) (fl_f fy + zs) X (2 ^ d) ltac:(lia) Hd Hsum) as (f' & -> & Hs' & Hf' & _).
    apply (pack_correct rm s _ f' _ ex X (2 ^ d * 2)); trivial; try lia; [dmlia|].
    assert (2 ^ (fl_e fy + 1 + 3000) = 2 * 2 ^ (fl_e fy - 0 + 3000)).
    { rewrite <- pow2_S by lia. f_equal. lia. } lia.
  - apply (pack_correct rm s _ _ _ ex X (2 ^ d)); trivial; try lia.
    rewrite Z.sub_0_r in Ex. lia.
Qed.

(** The exact difference of numbers whose exponents differ by two at most. *)
Lemma add_near :
  (fl_s fy =? fl_s fz) = false -> mag az < mag ay -> d <= 2 ->
  correctly_rounded rm s (mag ay - mag az) 1 (fst (add_ordered rm fy fz ex)).
Proof.
  intros E Hlt Hd2. pose proof Py as (Hy & _ & Hey & _). pose proof Pz as (Hz & Hz4 & Hez & _).
  unfold add_ordered. rewrite E. fold d. pose proof (pow2_pos d ltac:(lia)) as Hd.
  destruct (align_direct d (fl_e fy) (fl_f fy) (fl_f fz) false ltac:(lia) Hz Hz4 ltac:(auto))
    as (zs & -> & _ & Hzs & Hex & _). specialize (Hex Hd2).
  pose proof (ordered_exact (-1) 0 ltac:(lia)) as Ex.
  set (f := fl_f fy - zs).
  assert (Ef : f * 2 ^ (fl_e fy + 3000) = (mag ay - mag az) * 4 * pw 3000).
  { apply (Z.mul_reg_r _ _ (2 ^ d)); [lia|]. rewrite Z.sub_0_r in Ex. unfold f. lia. }
  assert (Hf : 0 < f).
  { pose proof (pow2_pos (fl_e fy + 3000) ltac:(lia)). pose proof (pw_pos 3000 ltac:(lia)).
    apply (Z.mul_pos_cancel_r _ (2 ^ (fl_e fy + 3000))); [lia|]. rewrite Ef.
    apply Z.mul_pos_pos; lia. }
  rewrite wrap_small by (unfold is_word; lia). fold f.
  destruct (Z.leb_spec 0x80000000000000 f); [lia|].
  destruct (norm_loop_spec 64 (fl_e fy) f ltac:(lia) ltac:(lia)) as (k & Hk & -> & Hr).
  apply (pack_correct rm s _ _ _ ex (f * 2 ^ k) 1); trivial; try lia.
  - rewrite <- (Z.mul_1_r (f * 2 ^ k)) at 2. apply sticky_exact. lia.
  - replace (fl_e fy + 3000) with (k + (fl_e fy - k + 3000)) in Ef by lia.
    rewrite Z.pow_add_r in Ef by lia. lia.
Qed.

Lemma norm_loop_id e f : FBIT <= f -> norm_loop 64 e f = (e, f).
Proof. intros H. cbn [norm_loop]. destruct (Z.ltb_spec f FBIT); [lia|reflexivity]. Qed.

(** The difference of numbers whose fractions overlap. *)
Lemma add_overlap :
  (fl_s fy =? fl_s fz) = false -> 3 <= d <= 53 ->
  correctly_rounded rm s (mag ay - mag az) 1 (fst (add_ordered rm fy fz ex)).
Proof.
  intros E Hd3. pose proof yf_even as Hev. pose proof Py as (Hy & _ & Hey & _). pose proof Pz as (Hz & _ & Hez & _).
  unfold add_ordered. rewrite E. fold d. pose proof (pow2_pos (d - 1) ltac:(lia)) as Hd.
  destruct (align_shifted d (fl_e fy) (fl_f fy) (fl_f fz) Hd3 Hz Hy) as (zs & -> & Hst & Hzs).
  pose proof (sticky_sum (fl_f fy * 2) zs (fl_f fz) (2 ^ (d - 1)) (-1) ltac:(auto)
                ltac:(rewrite Z.even_mul; apply orb_true_r) Hst) as Hsum.
  assert (Ed : 2 ^ d = 2 * 2 ^ (d - 1)) by (rewrite <- pow2_S by lia; f_equal; lia).
  pose proof (ordered_exact (-1) 1 ltac:(lia)) as Ex. rewrite Ed in Ex.
  set (X := fl_f fy * 2 * 2 ^ (d - 1) + -1 * fl_f fz) in *. set (f := fl_f fy * 2 + -1 * zs) in *.
  assert (Ex1 : X * 2 ^ (fl_e fy - 1 + 3000) * 1 = (mag ay - mag az) * 4 * 2 ^ (d - 1) * pw 3000).
  { apply (Z.mul_reg_r _ _ 2); [lia|]. unfold X. lia. }
  replace (fl_f fy * 2 -o zs) with f by (unfold f; symmetry; apply wrap_small_eq; split; [lia|wordlia]).
  destruct (Z.leb_spec 0x80000000000000 f) as [L|L].
  - destruct (sticky_shift_spec (fl_e fy - 1) f X (2 ^ (d - 1)) ltac:(lia) Hd Hsum) as (f' & -> & Hs' & Hf' & _).
    apply (pack_correct rm s _ f' _ ex X (2 ^ (d - 1) * 2)); trivial; try lia; [dmlia|].
    assert (2 ^ (fl_e fy - 1 + 1 + 3000) = 2 * 2 ^ (fl_e fy - 1 + 3000)).
    { rewrite <- pow2_S by lia. f_equal. lia. } lia.
  - rewrite norm_loop_id by lia. apply (pack_correct rm s _ f _ ex X (2 ^ (d - 1))); trivial; lia.
Qed.

(** The difference of a number and one that is only a sticky bit for it. *)
Lemma add_far :
  (fl_s fy =? fl_s fz) = false -> 53 < d ->
  (direction_of rm s = Nearest -> ~ (fl_f fy = FBIT /\ d = 54 /\ FBIT < fl_f fz)) ->
  correctly_rounded rm s (mag ay - mag az) 1 (fst (add_ordered rm fy fz ex)).
Proof.
  intros E Hd53 Hex. pose proof yf_even as Hev.
  pose proof Py as (Hy & Hy4 & Hey & _). pose proof Pz as (Hz & Hz4 & Hez & _).
  unfold add_ordered. rewrite E. fold d. pose proof (pow2_pos d ltac:(lia)) as Hd.
  destruct (align_direct d (fl_e fy) (fl_f fy) (fl_f fz) false ltac:(lia) Hz Hz4 ltac:(auto))
    as (zs & -> & Hst & _ & _ & H1 & _). rewrite (H1 Hd53) in *. clear H1 zs.
  rewrite wrap_small by wordlia. destruct (Z.leb_spec 0x80000000000000 (fl_f fy - 1)); [lia|].
  destruct (Z.eq_dec (fl_f fy) FBIT) as [Ey|Ey].
  - rewrite Ey. change (norm_loop 64 (fl_e fy) (FBIT - 1)) with (fl_e fy - 1, 2 ^ 55 - 2). cbv iota beta.
    pose proof (pow2_pos (d - 1) ltac:(lia)) as Hd1.
    assert (Ed : 2 ^ d = 2 * 2 ^ (d - 1)) by (rewrite <- pow2_S by lia; f_equal; lia).
    pose proof (ordered_exact (-1) 1 ltac:(lia)) as Ex. rewrite Ey, Ed in Ex.
    set (Y := 2 ^ (d - 1)) in *. set (X := 2 ^ 55 * Y - fl_f fz).
    assert (Ex1 : X * 2 ^ (fl_e fy - 1 + 3000) * 1 = (mag ay - mag az) * 4 * Y * pw 3000).
    { apply (Z.mul_reg_r _ _ 2); [lia|]. unfold X. lia. }
    assert (Hc : sticky (2 ^ 55 - 1) X Y \/ sticky (2 ^ 55 - 2) X Y \/
                 sticky (2 ^ 55 - 3) X Y /\ direction_of rm s <> Nearest).
    { unfold X, sticky. change (Z.even (2 ^ 55 - 1)) with false. change (Z.even (2 ^ 55 - 2)) with true.
      change (Z.even (2 ^ 55 - 3)) with false. cbv iota. destruct (Z.eq_dec d 54) as [E54|].
      - assert (HY : Y = 2 ^ 53) by (unfold Y; rewrite E54; reflexivity). rewrite HY.
        destruct (Z.eq_dec (fl_f fz) FBIT) as [->|Hz2]; [right; left; reflexivity|].
        right; right. split; [lia|]. intros Hn. apply (Hex Hn). lia.
      - left. assert (2 ^ 54 <= Y) by (apply Z.pow_le_mono_r; lia). lia. }
    destruct Hc as [Hc|[Hc|[Hc Hn]]].
    + rewrite (pack_top rm _ _ ex (2 ^ 55 - 1)) by (lia || auto).
      apply (pack_correct rm s _ _ _ ex X Y); trivial; lia.
    + apply (pack_correct rm s _ _ _ ex X Y); trivial; lia.
    + rewrite (pack_top rm _ _ ex (2 ^ 55 - 3)) by (lia || (rewrite Hs; auto)).
      apply (pack_correct rm s _ _ _ ex X Y); trivial; lia.
  - rewrite norm_loop_id by lia.
    pose proof (sticky_sum (fl_f fy) 1 (fl_f fz) (2 ^ d) (-1) ltac:(auto) Hev Hst) as Hsum.
    pose proof (ordered_exact (-1) 0 ltac:(lia)) as Ex. rewrite Z.sub_0_r in Ex.
    apply (pack_correct rm s _ _ _ ex (fl_f fy * 2 ^ d + -1 * fl_f fz) (2 ^ d)); trivial; lia.
Qed.
End Ordered.

(** ** Sums *)

(** The value of a finite number, in units of 2^-1074. *)
Definition value (x : Z) : Z := if neg x then - mag (body x) else mag (body x).

(** [L] is a power of two, [S] is between a quarter and half a unit in the last place of
    the numbers below it. *)
Definition lost_half (L S : Z) : Prop := L = 2 ^ Z.log2 L /\ L < 2 ^ 54 * S /\ 2 ^ 53 * S < L.

Lemma lxor_msb z : is_octa z -> z .^ 2 ^ 63 = if neg z then z - 2 ^ 63 else z + 2 ^ 63.
Proof.
  assert (H : forall b, 0 <= b < 2 ^ 63 -> b .^ 2 ^ 63 = b + 2 ^ 63).
  { intros b Hb. symmetry. apply Z.add_nocarry_lxor. rewrite land_pow2 by lia.
    rewrite (testbit_high 63) by (unfold is_word; lia). reflexivity. }
  intros Hz. unfold neg. destruct (Z.leb_spec (2 ^ 63) z); [|apply H; wordlia].
  replace z with (z - 2 ^ 63 + 2 ^ 63) at 1 by lia. rewrite <- H by wordlia.
  rewrite Z.lxor_assoc, Z.lxor_nilpotent, Z.lxor_0_r. reflexivity.
Qed.

(** The operands are not each other's negation when their sum is not 0. *)
Lemma not_negated y z : is_octa y -> is_octa z -> value y + value z <> 0 -> (y =? z .^ 2 ^ 63) = false.
Proof.
  intros Hy Hz H. apply Z.eqb_neq. intros ->. apply H. rewrite lxor_msb by exact Hz.
  unfold value, neg, body. destruct (Z.leb_spec (2 ^ 63) z).
  - destruct (Z.leb_spec (2 ^ 63) (z - 2 ^ 63)); [wordlia|].
    replace (z mod 2 ^ 63) with ((z - 2 ^ 63) mod 2 ^ 63) by dmlia. lia.
  - destruct (Z.leb_spec (2 ^ 63) (z + 2 ^ 63)); [|wordlia].
    replace (z mod 2 ^ 63) with ((z + 2 ^ 63) mod 2 ^ 63) by dmlia. lia.
Qed.

(** The parts are ordered like the magnitudes. *)
Lemma parts_order ay fy ey az fz ez :
  parts_of ay fy ey -> parts_of az fz ez ->
  (ey <? ez) || ((ey =? ez) && (fy <? fz)) = (mag ay <? mag az).
Proof.
  intros (Hy & _ & Hey & Ey) (Hz & _ & Hez & Ez).
  pose proof (pow2_pos (ey + 60) ltac:(lia)). pose proof (pow2_pos (ez + 60) ltac:(lia)).
  assert (Hlt : forall a b, -52 <= a < b -> 2 * 2 ^ (a + 60) <= 2 ^ (b + 60)).
  { intros a b Hab. rewrite <- pow2_S by lia. apply Z.pow_le_mono_r; lia. }
  destruct (Z.ltb_spec ey ez) as [L|L]; cbn [orb].
  - specialize (Hlt ey ez ltac:(lia)). symmetry. apply Z.ltb_lt. nia.
  - destruct (Z.eqb_spec ey ez) as [->|]; cbn [andb].
    + destruct (Z.ltb_spec fy fz), (Z.ltb_spec (mag ay) (mag az)); reflexivity || nia.
    + specialize (Hlt ez ey ltac:(lia)). symmetry. apply Z.ltb_ge. nia.
Qed.

(** When the larger number is a power of two with the exponent 54 above the smaller one. *)
Lemma parts_lost_half ay fy ey az fz ez :
  parts_of ay fy ey -> parts_of az fz ez ->
  fy = FBIT /\ ey - ez = 54 /\ FBIT < fz -> lost_half (mag ay) (mag az).
Proof.
  intros (_ & _ & Hey & Ey) (Hz & _ & Hez & Ez) (-> & Hd & Hlt).
  assert (Em : mag ay = 2 ^ (ey + 52)).
  { apply (Z.mul_reg_r _ _ (2 ^ 62)); [lia|]. rewrite <- Ey.
    change FBIT with (2 ^ 54). rewrite <- !Z.pow_add_r by lia. f_equal. lia. }
  assert (Ep : 2 ^ (ey + 60) = 2 ^ 54 * 2 ^ (ez + 60)).
  { rewrite <- Z.pow_add_r by lia. f_equal. lia. }
  pose proof (pow2_pos (ez + 60) ltac:(lia)). split.
  - rewrite Em, Z.log2_pow2 by lia. reflexivity.
  - rewrite Ep in Ey. nia.
Qed.

(** The two lemmas above for numbers that are ordered by their magnitudes. *)
Lemma add_ordered_rounded rm y z ex :
  is_num y -> is_num z -> mag (body z) <= mag (body y) -> value y + value z <> 0 ->
  (rm = ROUND_NEAR -> neg y <> neg z -> ~ lost_half (mag (body y)) (mag (body z))) ->
  correctly_rounded rm (neg y) (Z.abs (value y + value z)) 1
    (fst (add_ordered rm (fl_unpack y) (fl_unpack z) ex)).
Proof.
  intros Hy Hz Hm Hne Hlh.
  destruct (unpack_num y Hy) as (_ & Sy & Py), (unpack_num z Hz) as (_ & Sz & Pz).
  pose proof (parts_order _ _ _ _ _ _ Py Pz) as Ho.
  replace (mag (body y) <? mag (body z)) with false in Ho by (symmetry; apply Z.ltb_ge, Hm).
  apply orb_false_iff in Ho. destruct Ho as [Ho _]. apply Z.ltb_ge in Ho.
  assert (Es : (fl_s (fl_unpack y) =? MINUS) = neg y) by (rewrite Sy; destruct (neg y); reflexivity).
  pose proof (mag_num y Hy). pose proof (mag_num z Hz). unfold value in *.
  destruct (Bool.bool_dec (neg y) (neg z)) as [En|En].
  - replace (Z.abs _) with (mag (body y) + mag (body z)) by (rewrite En; destruct (neg z); lia).
    apply add_same with (s := neg y); trivial. rewrite Sy, Sz, En. apply Z.eqb_refl.
  - replace (Z.abs _) with (mag (body y) - mag (body z)) by (destruct (neg y), (neg z); lia || congruence).
    assert (Ed : (fl_s (fl_unpack y) =? fl_s (fl_unpack z)) = false)
      by (rewrite Sy, Sz; destruct (neg y), (neg z); reflexivity || congruence).
    destruct (Z_le_gt_dec (fl_e (fl_unpack y) - fl_e (fl_unpack z)) 2);
      [|destruct (Z_le_gt_dec (fl_e (fl_unpack y) - fl_e (fl_unpack z)) 53)].
    + apply add_near; trivial. destruct (neg y), (neg z); lia || congruence.
    + apply add_overlap; trivial. lia.
    + apply add_far; trivial; [lia|]. intros Hn Hc. apply Hlh; [|exact En|].
      * unfold direction_of in Hn. destruct (Z.eqb_spec rm ROUND_NEAR) as [E|]; [exact E|].
        destruct (_ || _); discriminate Hn.
      * apply (parts_lost_half _ _ _ _ _ _ Py Pz Hc).
Qed.

(** C15: The sum of two finite numbers is the exact sum, correctly rounded in the current
    mode, with one exception: to the nearest number, a power of two minus a number
    between a quarter and half a unit in the last place below it. *)
Theorem fadd_rounded rm y z ex :
  is_num y -> is_num z -> value y + value z <> 0 ->
  (rm = ROUND_NEAR -> neg y <> neg z ->
   ~ lost_half (Z.max (mag (body y)) (mag (body z))) (Z.min (mag (body y)) (mag (body z)))) ->
  correctly_rounded rm (value y + value z <? 0) (Z.abs (value y + value z)) 1
    (fst (fl_add rm y z ex)).
Proof.
  intros Hy Hz Hne Hlh.
  destruct (unpack_num y Hy) as (Ty & _ & Py), (unpack_num z Hz) as (Tz & _ & Pz).
  unfold fl_add. rewrite Ty, Tz. cbn [fl_handleNaN]. change (truth 0) with false. cbv iota.
  change 0x8000000000000000 with (2 ^ 63). rewrite (not_negated y z) by (apply Hy || apply Hz || exact Hne). cbn [negb].
  rewrite addNums_ordered, (parts_order _ _ _ _ _ _ Py Pz).
  pose proof (mag_num y Hy). pose proof (mag_num z Hz).
  destruct (Z.ltb_spec (mag (body y)) (mag (body z))) as [L|L].
  - replace (value y + value z <? 0) with (neg z)
      by (symmetry; unfold value; destruct (neg y), (neg z); apply Z.ltb_lt || apply Z.ltb_ge; lia).
    rewrite Z.add_comm in *. apply add_ordered_rounded; trivial; [lia|].
    intros Hr Hn. rewrite Z.max_r, Z.min_l in Hlh by lia. apply Hlh; congruence.
  - replace (value y + value z <? 0) with (neg y)
      by (symmetry; unfold value in *; destruct (neg y), (neg z); apply Z.ltb_lt || apply Z.ltb_ge; lia).
    apply add_ordered_rounded; trivial. rewrite Z.max_l, Z.min_r in Hlh by lia. exact Hlh.
Qed.

Lemma fadd_rounded_witness :
  correctly_rounded ROUND_NEAR false (Z.abs (value 0x3FF0000000000000 + value 0xBC90000000000000)) 1
    (fst (fl_add ROUND_NEAR 0x3FF0000000000000 0xBC90000000000000 0)).
Proof.
  apply (fadd_rounded ROUND_NEAR 0x3FF0000000000000 0xBC90000000000000 0).
  - split; [concrete_word|split; vm_compute; reflexivity].
  - split; [concrete_word|split; vm_compute; reflexivity].
  - vm_compute. discriminate.
  - intros _ _ (_ & H & _). revert H. vm_compute. discriminate.
Defined.

(** The exception: 1 - 1.5 * 2^-54 is rounded to 1, although 1 - 2^-53 is nearer. *)
Theorem fadd_misrounds :
  let y := 0x3FF0000000000000 in
  let z := 0xBC98000000000000 in
  let below := 0x3FEFFFFFFFFFFFFF in
  fst (fl_add ROUND_NEAR y z 0) = y /\
  mag below + 1 <= mag y /\
  Z.abs (value y + value z - value below) < Z.abs (value y + value z - value y) /\
  ~ correctly_rounded ROUND_NEAR false (value y + value z) 1 (fst (fl_add ROUND_NEAR y z 0)).
Proof.
  cbv zeta. assert (E : fst (fl_add ROUND_NEAR 0x3FF0000000000000 0xBC98000000000000 0) = 0x3FF0000000000000)
    by (vm_compute; reflexivity).
  rewrite E. split; [reflexivity|]. split; [vm_compute; discriminate|].
  split; [vm_compute; reflexivity|]. intros (a & [_ <-] & _ & H). revert H.
  replace (_ <? _) with true by (vm_compute; reflexivity).
  intros [_ [H _]]. specialize (H eq_refl). revert H. vm_compute. intros [H|[H _]]; discriminate H.
Qed.

(** ** Comparisons *)

Definition is_nan (x : Z) : bool := infinity <? body x.

Lemma mag_order a b : 0 <= a -> 0 <= b -> mag a < mag b <-> a < b.
Proof. intros Ha Hb. rewrite <- !Z.compare_lt_iff, mag_compare by trivial. reflexivity. Qed.

(** The type of a number that is not a NaN only matters for zeros. *)
Lemma compare_types y z (ty tz : eFtype) g :
  ty = (if body y =? 0 then ZERO else if body y <? infinity then NUM
        else if body y =? infinity then INF else NAN) ->
  tz = (if body z =? 0 then ZERO else if body z <? infinity then NUM
        else if body z =? infinity then INF else NAN) ->
  match ty, tz with
  | NAN, _ | _, NAN => CMP_UNORDERED
  | ZERO, ZERO => CMP_EQUAL
  | _, _ => g
  end = if is_nan y || is_nan z then CMP_UNORDERED
        else if (body y =? 0) && (body z =? 0) then CMP_EQUAL else g.
Proof.
  intros -> ->. unfold is_nan, infinity.
  destruct (Z.eqb_spec (body y) 0), (Z.ltb_spec (body y) 0x7FF0000000000000),
    (Z.eqb_spec (body y) 0x7FF0000000000000), (Z.ltb_spec 0x7FF0000000000000 (body y)); try lia;
  destruct (Z.eqb_spec (body z) 0), (Z.ltb_spec (body z) 0x7FF0000000000000),
    (Z.eqb_spec (body z) 0x7FF0000000000000), (Z.ltb_spec 0x7FF0000000000000 (body z));
    reflexivity || lia.
Qed.

(** C40: Comparing two numbers, infinities and zeros of both signs among them, orders their
    values; a NaN is unordered with everything. *)
Theorem fcmp_orders y z :
  is_octa y -> is_octa z ->
  fl_compare y z =
    if is_nan y || is_nan z then CMP_UNORDERED
    else match value y ?= value z with
         | Lt => CMP_LESS | Eq => CMP_EQUAL | Gt => CMP_GREATER
         end.
Proof.
  intros Hy Hz.
  destruct (unpack_spec _ _ _ (encodes_octa y Hy)) as (Sy & Ty & _).
  destruct (unpack_spec _ _ _ (encodes_octa z Hz)) as (Sz & Tz & _).
  destruct (encodes_octa y Hy) as [By Ey], (encodes_octa z Hz) as [Bz Ez].
  unfold fl_compare. cbv zeta. rewrite (compare_types y z _ _ _ Ty Tz), Sy, Sz. clear Ty Tz Sy Sz.
  destruct (is_nan y || is_nan z); [reflexivity|].
  pose proof (mag_order (body y) (body z) ltac:(lia) ltac:(lia)) as M1.
  pose proof (mag_order (body z) (body y) ltac:(lia) ltac:(lia)) as M2.
  pose proof (mag_order 0 (body y) ltac:(lia) ltac:(lia)) as M3.
  pose proof (mag_order 0 (body z) ltac:(lia) ltac:(lia)) as M4.
  pose proof (mag_nonneg (body y) ltac:(lia)). pose proof (mag_nonneg (body z) ltac:(lia)).
  change (mag 0) with 0 in *. unfold value.
  destruct (neg y), (neg z); cbn [sign_of Z.eqb Pos.eqb negb].
  all: destruct (Z.eqb_spec (body y) 0), (Z.eqb_spec (body z) 0); cbn [andb];
    try destruct (Z.ltb_spec z y); try destruct (Z.ltb_spec y z);
    match goal with |- _ = match ?a ?= ?b with _ => _ end => destruct (Z.compare_spec a b) end;
    reflexivity || lia.
Qed.

Lemma fcmp_orders_witness :
  fl_compare 0x8000000000000000 0x0000000000000000 = CMP_EQUAL /\
  fl_compare 0xFFF0000000000000 0x0000000000000001 = CMP_LESS.
Proof.
  split; [rewrite (fcmp_orders 0x8000000000000000 0) by concrete_word
         |rewrite (fcmp_orders 0xFFF0000000000000 1) by concrete_word]; vm_compute; reflexivity.
Defined.
