(* ===== verification/InstrArith.v ===== *)
(** * Register instructions (gimmix/src/core/instr/{arith,bit,morebit,compare,wyde,float}.c) *)

From Stdlib Require Import ZArith Lia Bool Btauto.
From stdpp Require Import base list numbers option.
From S2P Require Import Prelude IntArith Ram Machine Registers Devices Bus Tc Cache Mmu.
From S2P Require Import RegStack Float.

Implicit Types (i : sInstrArgs).

(** ** arith.c *)

Definition cpu_instr_mul i : M unit :=
  let '(res, aux) := int_smult (ia_y i) (ia_z i) in
  when (negb (aux =? if truth (res .& MSB 64) then 0xFFFFFFFFFFFFFFFF else 0))
    (cpu_setArithEx TRIP_INTOVER);;
  reg_set (ia_x i) res.

Definition cpu_instr_mulu i : M unit :=
  let '(res, aux) := int_umult (ia_y i) (ia_z i) in
  reg_set (ia_x i) res;;
  reg_setSpecial rH aux.

Definition cpu_instr_div i : M unit :=
  let '(res, rem) := int_sdiv (ia_y i) (ia_z i) in
  when (ia_z i =? 0) (cpu_setArithEx TRIP_INTDIVCHK);;
  when (truth (ia_y i .& MSB 64) && truth (ia_z i .& MSB 64) && ((res .>> 32) =? MSB 32))
    (cpu_setArithEx TRIP_INTOVER);;
  reg_set (ia_x i) res;;
  reg_setSpecial rR rem.

Definition cpu_instr_divu i : M unit :=
  d ← reg_getSpecial rD;
  let '(res, rem) := int_udiv d (ia_y i) (ia_z i) in
  reg_set (ia_x i) res;;
  reg_setSpecial rR rem.

Definition cpu_instr_add i : M unit :=
  let res := ia_y i +o ia_z i in
  when (((ia_y i .^ ia_z i) .& MSB 64 =? 0) && negb ((ia_y i .^ res) .& MSB 64 =? 0))
    (cpu_setArithEx TRIP_INTOVER);;
  reg_set (ia_x i) res.

Definition cpu_instr_addu i : M unit := reg_set (ia_x i) (ia_y i +o ia_z i).

Definition cpu_instr_sub i : M unit :=
  let res := ia_y i -o ia_z i in
  when (((res .^ ia_z i) .& MSB 64 =? 0) && negb ((res .^ ia_y i) .& MSB 64 =? 0))
    (cpu_setArithEx TRIP_INTOVER);;
  reg_set (ia_x i) res.

Definition cpu_instr_subu i : M unit := reg_set (ia_x i) (ia_y i -o ia_z i).

Definition cpu_instr_2addu i : M unit := reg_set (ia_x i) (shl64 (ia_y i) 1 +o ia_z i).
Definition cpu_instr_4addu i : M unit := reg_set (ia_x i) (shl64 (ia_y i) 2 +o ia_z i).
Definition cpu_instr_8addu i : M unit := reg_set (ia_x i) (shl64 (ia_y i) 3 +o ia_z i).
Definition cpu_instr_16addu i : M unit := reg_set (ia_x i) (shl64 (ia_y i) 4 +o ia_z i).

Definition cpu_instr_neg i : M unit :=
  let res := ia_y i -o ia_z i in
  when (((res .^ ia_z i) .& MSB 64 =? 0) && negb ((res .^ ia_y i) .& MSB 64 =? 0))
    (cpu_setArithEx TRIP_INTOVER);;
  reg_set (ia_x i) res.

Definition cpu_instr_negu i : M unit := reg_set (ia_x i) (ia_y i -o ia_z i).

(** ** bit.c *)

Definition cpu_instr_and i : M unit := reg_set (ia_x i) (ia_y i .& ia_z i).
Definition cpu_instr_or i : M unit := reg_set (ia_x i) (ia_y i .| ia_z i).
Definition cpu_instr_xor i : M unit := reg_set (ia_x i) (ia_y i .^ ia_z i).
Definition cpu_instr_andn i : M unit := reg_set (ia_x i) (ia_y i .& not64 (ia_z i)).
Definition cpu_instr_orn i : M unit := reg_set (ia_x i) (ia_y i .| not64 (ia_z i)).
Definition cpu_instr_nand i : M unit := reg_set (ia_x i) (not64 (ia_y i .& ia_z i)).
Definition cpu_instr_nor i : M unit := reg_set (ia_x i) (not64 (ia_y i .| ia_z i)).
Definition cpu_instr_nxor i : M unit := reg_set (ia_x i) (not64 (ia_y i .^ ia_z i)).

Definition cpu_instr_mux i : M unit :=
  mask ← reg_getSpecial rM;
  reg_set (ia_x i) ((ia_y i .& mask) .| (ia_z i .& not64 mask)).

(** [(socta)res >> z] is undefined for [z > 63]. *)
Definition cpu_instr_sl i : M unit :=
  let res := int_shiftLeft (ia_y i) (ia_z i) in
  a ← c_sar64 res (ia_z i);
  when (negb (a =? ia_y i)) (cpu_setArithEx TRIP_INTOVER);;
  reg_set (ia_x i) res.

Definition cpu_instr_slu i : M unit := reg_set (ia_x i) (int_shiftLeft (ia_y i) (ia_z i)).
Definition cpu_instr_sr i : M unit := reg_set (ia_x i) (int_shiftRightArith (ia_y i) (ia_z i)).
Definition cpu_instr_sru i : M unit := reg_set (ia_x i) (int_shiftRightLog (ia_y i) (ia_z i)).

(** ** morebit.c *)

(** [d & (m - (m >> 8))] where [m] marks the bytes without a borrow. *)
Definition bdif_half (op1 op2 : Z) : Z :=
  let d := wrap64 ((op1 .& 0x00FF00FF00FF00FF) + 0x0100010001000100
                   - (op2 .& 0x00FF00FF00FF00FF)) in
  let m := d .& 0x0100010001000100 in
  d .& (m -o (m .>> 8)).

Definition bdif (op1 op2 : Z) : Z :=
  bdif_half op1 op2 +o shl64 (bdif_half (op1 .>> 8) (op2 .>> 8)) 8.

Definition cpu_instr_bdif i : M unit := reg_set (ia_x i) (bdif (ia_y i) (ia_z i)).

Definition cpu_instr_twydediff (op1 op2 : Z) : Z :=
  let a := wrap32 ((op1 .>> 16) - (op2 .>> 16)) .& 0x10000 in
  let b := wrap32 ((op1 .& 0xFFFF) - (op2 .& 0xFFFF)) .& 0x10000 in
  let m := wrap32 (b - a - (b .>> 16)) in
  let xormask := (op1 .^ op2) .& m in
  let subtrahend := op2 .^ xormask in
  wrap32 (op1 - subtrahend).

Definition wdif (op1 op2 : Z) : Z :=
  shl64 (cpu_instr_twydediff (op1 .>> 32) (op2 .>> 32)) 32
  .| cpu_instr_twydediff (op1 .& 0xFFFFFFFF) (op2 .& 0xFFFFFFFF).

Definition cpu_instr_wdif i : M unit := reg_set (ia_x i) (wdif (ia_y i) (ia_z i)).

Definition tdif (op1 op2 : Z) : Z :=
  let op1t1 := op1 .>> 32 in
  let op1t2 := op1 .& 0xFFFFFFFF in
  let op2t1 := op2 .>> 32 in
  let op2t2 := op2 .& 0xFFFFFFFF in
  let res := 0 in
  let res := if op2t1 <? op1t1 then res .| shl64 (wrap32 (op1t1 - op2t1)) 32 else res in
  if op2t2 <? op1t2 then res .| wrap32 (op1t2 - op2t2) else res.

Definition cpu_instr_tdif i : M unit := reg_set (ia_x i) (tdif (ia_y i) (ia_z i)).

Definition cpu_instr_odif i : M unit :=
  reg_set (ia_x i) (if ia_y i <? ia_z i then 0 else ia_y i -o ia_z i).

Definition cpu_instr_countBits (x : Z) : Z :=
  let x := x -o ((x .>> 1) .& 0x5555555555555555) in
  let x := (x .& 0x3333333333333333) +o ((x .>> 2) .& 0x3333333333333333) in
  let x := (x +o (x .>> 4)) .& 0x0F0F0F0F0F0F0F0F in
  let x := x +o (x .>> 8) in
  let x := x +o (x .>> 16) in
  let x := x +o (x .>> 32) in
  x .& 0xFF.

Definition cpu_instr_sadd i : M unit :=
  reg_set (ia_x i) (cpu_instr_countBits (ia_y i .& not64 (ia_z i))).

(** [for(k = 0; x != 0; k++, x >>= 8)], at most eight iterations. *)
Fixpoint boolMult_loop (fuel : nat) (k x y res : Z) (xor : bool) : Z :=
  match fuel with
  | O => res
  | S fuel =>
    if x =? 0 then res
    else
      let res :=
        if truth (x .& 0xFF) then
          let a := ((y .>> k) .& 0x0101010101010101) *o 0xFF in
          let c := (x .& 0xFF) *o 0x0101010101010101 in
          if xor then res .^ (a .& c) else res .| (a .& c)
        else res in
      boolMult_loop fuel (k + 1) (x .>> 8) y res xor
  end.

Definition cpu_instr_boolMult (x y : Z) (xor : bool) : Z := boolMult_loop 9 0 x y 0 xor.

Definition cpu_instr_mor i : M unit :=
  reg_set (ia_x i) (cpu_instr_boolMult (ia_y i) (ia_z i) false).
Definition cpu_instr_mxor i : M unit :=
  reg_set (ia_x i) (cpu_instr_boolMult (ia_y i) (ia_z i) true).

(** ** compare.c (CSWAP excepted) *)

Definition cmp_signed (op1 op2 : Z) : Z :=
  if (op2 .& MSB 64) <? (op1 .& MSB 64) then wrap64 (-1)
  else if (op1 .& MSB 64) <? (op2 .& MSB 64) then 1
  else if op1 <? op2 then wrap64 (-1)
  else if op2 <? op1 then 1
  else 0.

Definition cpu_instr_cmp i : M unit := reg_set (ia_x i) (cmp_signed (ia_y i) (ia_z i)).

Definition cpu_instr_cmpu i : M unit :=
  reg_set (ia_x i)
    (if ia_y i <? ia_z i then wrap64 (-1) else if ia_z i <? ia_y i then 1 else 0).

(** The eight conditions on an octa, as branches, conditional sets and zero-or-sets
    test them. *)
Definition cond_n (x : Z) : bool := truth (x .& MSB 64).
Definition cond_z (x : Z) : bool := x =? 0.
Definition cond_p (x : Z) : bool := negb (truth (x .& MSB 64)) && negb (x =? 0).
Definition cond_od (x : Z) : bool := truth (x .& 1).
Definition cond_nn (x : Z) : bool := negb (truth (x .& MSB 64)).
Definition cond_nz (x : Z) : bool := negb (x =? 0).
Definition cond_np (x : Z) : bool := truth (x .& MSB 64) || (x =? 0).
Definition cond_ev (x : Z) : bool := negb (truth (x .& 1)).

Definition cpu_instr_csn i : M unit := when (cond_n (ia_y i)) (reg_set (ia_x i) (ia_z i)).
Definition cpu_instr_csz i : M unit := when (cond_z (ia_y i)) (reg_set (ia_x i) (ia_z i)).
Definition cpu_instr_csp i : M unit := when (cond_p (ia_y i)) (reg_set (ia_x i) (ia_z i)).
Definition cpu_instr_csod i : M unit := when (cond_od (ia_y i)) (reg_set (ia_x i) (ia_z i)).
Definition cpu_instr_csnn i : M unit := when (cond_nn (ia_y i)) (reg_set (ia_x i) (ia_z i)).
Definition cpu_instr_csnz i : M unit := when (cond_nz (ia_y i)) (reg_set (ia_x i) (ia_z i)).
Definition cpu_instr_csnp i : M unit := when (cond_np (ia_y i)) (reg_set (ia_x i) (ia_z i)).
Definition cpu_instr_csev i : M unit := when (cond_ev (ia_y i)) (reg_set (ia_x i) (ia_z i)).

Definition zeroOrSetReg i (set : bool) : M unit :=
  reg_set (ia_x i) (if set then ia_z i else 0).

Definition cpu_instr_zsn i : M unit := zeroOrSetReg i (cond_n (ia_y i)).
Definition cpu_instr_zsz i : M unit := zeroOrSetReg i (cond_z (ia_y i)).
Definition cpu_instr_zsp i : M unit := zeroOrSetReg i (cond_p (ia_y i)).
Definition cpu_instr_zsod i : M unit := zeroOrSetReg i (cond_od (ia_y i)).
Definition cpu_instr_zsnn i : M unit := zeroOrSetReg i (cond_nn (ia_y i)).
Definition cpu_instr_zsnz i : M unit := zeroOrSetReg i (cond_nz (ia_y i)).
Definition cpu_instr_zsnp i : M unit := zeroOrSetReg i (cond_np (ia_y i)).
Definition cpu_instr_zsev i : M unit := zeroOrSetReg i (cond_ev (ia_y i)).

(** ** wyde.c *)

Definition cpu_instr_seth i : M unit := reg_set (ia_x i) (shl64 (ia_z i) 48).
Definition cpu_instr_setmh i : M unit := reg_set (ia_x i) (shl64 (ia_z i) 32).
Definition cpu_instr_setml i : M unit := reg_set (ia_x i) (shl64 (ia_z i) 16).
Definition cpu_instr_setl i : M unit := reg_set (ia_x i) (shl64 (ia_z i) 0).

Definition cpu_instr_inch i : M unit :=
  val ← reg_get (ia_x i); reg_set (ia_x i) (val +o shl64 (ia_z i) 48).
Definition cpu_instr_incmh i : M unit :=
  val ← reg_get (ia_x i); reg_set (ia_x i) (val +o shl64 (ia_z i) 32).
Definition cpu_instr_incml i : M unit :=
  val ← reg_get (ia_x i); reg_set (ia_x i) (val +o shl64 (ia_z i) 16).
Definition cpu_instr_incl i : M unit :=
  val ← reg_get (ia_x i); reg_set (ia_x i) (val +o shl64 (ia_z i) 0).

Definition cpu_instr_orh i : M unit :=
  val ← reg_get (ia_x i); reg_set (ia_x i) (val .| shl64 (ia_z i) 48).
Definition cpu_instr_ormh i : M unit :=
  val ← reg_get (ia_x i); reg_set (ia_x i) (val .| shl64 (ia_z i) 32).
Definition cpu_instr_orml i : M unit :=
  val ← reg_get (ia_x i); reg_set (ia_x i) (val .| shl64 (ia_z i) 16).
Definition cpu_instr_orl i : M unit :=
  val ← reg_get (ia_x i); reg_set (ia_x i) (val .| shl64 (ia_z i) 0).

Definition cpu_instr_andnh i : M unit :=
  val ← reg_get (ia_x i); reg_set (ia_x i) (val .& not64 (shl64 (ia_z i) 48)).
Definition cpu_instr_andnmh i : M unit :=
  val ← reg_get (ia_x i); reg_set (ia_x i) (val .& not64 (shl64 (ia_z i) 32)).
Definition cpu_instr_andnml i : M unit :=
  val ← reg_get (ia_x i); reg_set (ia_x i) (val .& not64 (shl64 (ia_z i) 16)).
Definition cpu_instr_andnl i : M unit :=
  val ← reg_get (ia_x i); reg_set (ia_x i) (val .& not64 (shl64 (ia_z i) 0)).

(** ** float.c (LDSF and STSF excepted) *)

Definition fl_getRoundMode : M Z :=
  ra ← reg_getSpecial rA;
  mret (fl_roundMode ra).

(** [if(exceptions) cpu_setArithEx(exceptions); reg_set(x,res);] *)
Definition float_result (x : Z) (r : Z * Z) : M unit :=
  when (truth (snd r)) (cpu_setArithEx (snd r));;
  reg_set x (fst r).

Definition cpu_instr_fmul i : M unit :=
  rm ← fl_getRoundMode; float_result (ia_x i) (fl_mult rm (ia_y i) (ia_z i) 0).
Definition cpu_instr_fdiv i : M unit :=
  rm ← fl_getRoundMode; float_result (ia_x i) (fl_divide rm (ia_y i) (ia_z i) 0).
Definition cpu_instr_fadd i : M unit :=
  rm ← fl_getRoundMode; float_result (ia_x i) (fl_add rm (ia_y i) (ia_z i) 0).
Definition cpu_instr_fsub i : M unit :=
  rm ← fl_getRoundMode; float_result (ia_x i) (fl_sub rm (ia_y i) (ia_z i) 0).

Definition cpu_instr_fcmp i : M unit :=
  let res := fl_compare (ia_y i) (ia_z i) in
  if res =? CMP_UNORDERED then
    cpu_setArithEx TRIP_FLOATINVOP;; reg_set (ia_x i) CMP_EQUAL
  else reg_set (ia_x i) res.

Definition cpu_instr_feql i : M unit :=
  reg_set (ia_x i) (if fl_compare (ia_y i) (ia_z i) =? CMP_EQUAL then 1 else 0).

Definition cpu_instr_fun i : M unit :=
  reg_set (ia_x i) (if fl_compare (ia_y i) (ia_z i) =? CMP_UNORDERED then 1 else 0).

Definition cpu_instr_fcmpe i : M unit :=
  e ← reg_getSpecial rE;
  let res := fl_compareWithEps (ia_y i) (ia_z i) e true in
  if res =? ECMP_INVALID then
    cpu_setArithEx TRIP_FLOATINVOP;; reg_set (ia_x i) CMP_EQUAL
  else if res =? ECMP_NOT_EQUAL then reg_set (ia_x i) (fl_compare (ia_y i) (ia_z i))
  else reg_set (ia_x i) CMP_EQUAL.

Definition cpu_instr_feqle i : M unit :=
  e ← reg_getSpecial rE;
  let res := fl_compareWithEps (ia_y i) (ia_z i) e false in
  if res =? ECMP_INVALID then cpu_setArithEx TRIP_FLOATINVOP;; reg_set (ia_x i) 0
  else reg_set (ia_x i) res.

Definition cpu_instr_fune i : M unit :=
  e ← reg_getSpecial rE;
  let res := fl_compareWithEps (ia_y i) (ia_z i) e true in
  reg_set (ia_x i) (if res =? ECMP_INVALID then 1 else 0).

(** [if(y > 4) ex_throw(...)]: the rounding mode in the Y field. *)
Definition check_rounding (y : Z) : M unit :=
  when (4 <? y) (ex_throw EX_DYNAMIC_TRAP TRAP_BREAKS_RULES).

Definition cpu_instr_fint i : M unit :=
  check_rounding (ia_y i);;
  rm ← fl_getRoundMode; float_result (ia_x i) (fl_interize rm (ia_z i) (ia_y i) 0).

Definition cpu_instr_doFix (z y : Z) (unSigned : bool) : M Z :=
  check_rounding y;;
  rm ← fl_getRoundMode;
  let '(res, exceptions) := fl_fixit rm z y 0 in
  let exceptions := if unSigned then exceptions .& not64 TRIP_FLOAT2FIXOVER else exceptions in
  when (truth exceptions) (cpu_setArithEx exceptions);;
  mret res.

Definition cpu_instr_fix i : M unit :=
  res ← cpu_instr_doFix (ia_z i) (ia_y i) false; reg_set (ia_x i) res.
Definition cpu_instr_fixu i : M unit :=
  res ← cpu_instr_doFix (ia_z i) (ia_y i) true; reg_set (ia_x i) res.

Definition cpu_instr_doFlot (z y : Z) (unSigned shortPrec : bool) : M Z :=
  check_rounding y;;
  rm ← fl_getRoundMode;
  let '(res, exceptions) := fl_floatit rm z y unSigned shortPrec 0 in
  when (truth exceptions) (cpu_setArithEx exceptions);;
  mret res.

Definition cpu_instr_flot i : M unit :=
  res ← cpu_instr_doFlot (ia_z i) (ia_y i) false false; reg_set (ia_x i) res.
Definition cpu_instr_flotu i : M unit :=
  res ← cpu_instr_doFlot (ia_z i) (ia_y i) true false; reg_set (ia_x i) res.
Definition cpu_instr_sflot i : M unit :=
  res ← cpu_instr_doFlot (ia_z i) (ia_y i) false true; reg_set (ia_x i) res.
Definition cpu_instr_sflotu i : M unit :=
  res ← cpu_instr_doFlot (ia_z i) (ia_y i) true true; reg_set (ia_x i) res.

Definition cpu_instr_fsqrt i : M unit :=
  check_rounding (ia_y i);;
  rm ← fl_getRoundMode; float_result (ia_x i) (fl_sqrt rm (ia_z i) (ia_y i) 0).

Definition cpu_instr_frem i : M unit :=
  match fl_remstep (ia_y i) (ia_z i) 2500 0 with
  | Some r => float_result (ia_x i) r
  | None => stop AssertFail
  end.

(** ** Addition and subtraction *)

Implicit Types (m : machine).

(** The reference behaviour of a signed operation with the exact result [v]: the
    overflow exception if [v] is not a signed octa, and [v] modulo 2^64 as result. *)
Definition signed_result (x v : Z) : M unit :=
  when (negb (fits 64 v)) (cpu_setArithEx TRIP_INTOVER);;
  reg_set x (wrap64 v).

(** Case analysis on the sign of an octa. *)
Ltac socta_cases x :=
  unfold signed; change (64 - 1) with 63; destruct (Z.ltb_spec x (2 ^ 63)).

Lemma wrap_socta_add y z : y +o z = wrap64 (socta y + socta z).
Proof.
  rewrite !signed_eq. unfold wrap.
  set (a := if y <? 2 ^ 63 then 0 else 1). set (b := if z <? 2 ^ 63 then 0 else 1).
  rewrite <- (Z.mod_add (y + z) (- a - b)) by lia. f_equal; lia.
Qed.

Lemma wrap_socta_sub y z : y -o z = wrap64 (socta y - socta z).
Proof.
  rewrite !signed_eq. unfold wrap.
  set (a := if y <? 2 ^ 63 then 0 else 1). set (b := if z <? 2 ^ 63 then 0 else 1).
  rewrite <- (Z.mod_add (y - z) (b - a)) by lia. f_equal; lia.
Qed.

(** The sign of a wrapped sum of two signed octas. *)
Lemma wrap_sign v : - 2 ^ 64 <= v < 2 ^ 64 ->
  (wrap64 v <? 2 ^ 63) = ((0 <=? v) && (v <? 2 ^ 63)) || (v <? - 2 ^ 63).
Proof.
  intros Hv. unfold wrap. assert (v mod 2 ^ 64 = v \/ v mod 2 ^ 64 = v + 2 ^ 64) as H by dmlia.
  pose proof (Z.mod_pos_bound v (2 ^ 64)).
  destruct (Z.ltb_spec (v mod 2 ^ 64) (2 ^ 63)), (Z.leb_spec 0 v), (Z.ltb_spec v (2 ^ 63)),
    (Z.ltb_spec v (- 2 ^ 63)); trivial; lia.
Qed.

Lemma add_overflow y z :
  is_octa y -> is_octa z ->
  (((y .^ z) .& MSB 64 =? 0) && negb ((y .^ (y +o z)) .& MSB 64 =? 0))
  = negb (fits 64 (socta y + socta z)).
Proof.
  intros Hy Hz. rewrite !xor_msb by auto with word. rewrite wrap_socta_add.
  pose proof (socta_range y Hy). pose proof (socta_range z Hz).
  rewrite wrap_sign by lia. unfold fits, is_word in *. change (64 - 1) with 63.
  revert H H0. socta_cases y; socta_cases z; intros;
    repeat match goal with
           | |- context [?a <=? ?b] => destruct (Z.leb_spec a b)
           | |- context [?a <? ?b] => destruct (Z.ltb_spec a b)
           end; trivial; lia.
Qed.

Lemma sub_overflow y z :
  is_octa y -> is_octa z ->
  ((((y -o z) .^ z) .& MSB 64 =? 0) && negb (((y -o z) .^ y) .& MSB 64 =? 0))
  = negb (fits 64 (socta y - socta z)).
Proof.
  intros Hy Hz. rewrite !xor_msb by auto with word. rewrite wrap_socta_sub.
  pose proof (socta_range y Hy). pose proof (socta_range z Hz).
  rewrite wrap_sign by lia. unfold fits, is_word in *. change (64 - 1) with 63.
  revert H H0. socta_cases y; socta_cases z; intros;
    repeat match goal with
           | |- context [?a <=? ?b] => destruct (Z.leb_spec a b)
           | |- context [?a <? ?b] => destruct (Z.ltb_spec a b)
           end; trivial; lia.
Qed.

(** ADD, SUB and NEG store the exact sum or difference modulo 2^64 and raise the
    integer overflow exception exactly when it is not a signed 64-bit number. *)
Theorem add_sub_exact i :
  is_octa (ia_y i) -> is_octa (ia_z i) ->
  cpu_instr_add i = signed_result (ia_x i) (socta (ia_y i) + socta (ia_z i)) /\
  cpu_instr_sub i = signed_result (ia_x i) (socta (ia_y i) - socta (ia_z i)) /\
  cpu_instr_neg i = signed_result (ia_x i) (socta (ia_y i) - socta (ia_z i)).
Proof.
  intros Hy Hz. unfold cpu_instr_add, cpu_instr_sub, cpu_instr_neg, signed_result.
  rewrite add_overflow, sub_overflow, wrap_socta_add, wrap_socta_sub by trivial. auto.
Qed.

Lemma add_sub_exact_witness :
  cpu_instr_add (mk_sInstrArgs 1 (2 ^ 63 - 1) 1) = signed_result 1 (2 ^ 63).
Proof.
  destruct (add_sub_exact (mk_sInstrArgs 1 (2 ^ 63 - 1) 1)) as (-> & _); [concrete_word..|].
  reflexivity.
Defined.

(** ** Multiplication and division *)

(** The high octa of a product repeats the sign exactly when the product fits. *)
Lemma mul_overflow res aux v :
  is_octa res -> is_octa aux -> socta aux * 2 ^ 64 + res = v ->
  negb (aux =? if truth (res .& MSB 64) then 0xFFFFFFFFFFFFFFFF else 0) = negb (fits 64 v).
Proof.
  intros Hr Ha E. rewrite truth_msb by trivial. pose proof (socta_range aux Ha) as R.
  unfold fits, is_word in *. change (64 - 1) with 63. revert R E.
  socta_cases aux; intros; f_equal; destruct (Z.ltb_spec res (2 ^ 63)); cbn [negb];
    destruct (Z.eqb_spec aux 0), (Z.eqb_spec aux 0xFFFFFFFFFFFFFFFF),
      (Z.leb_spec (- 2 ^ 63) v), (Z.ltb_spec v (2 ^ 63)); trivial; lia.
Qed.

(** MUL stores the product modulo 2^64 and raises the overflow exception exactly when
    the product is not a signed 64-bit number. *)
Theorem mul_exact i :
  is_octa (ia_y i) -> is_octa (ia_z i) ->
  cpu_instr_mul i = signed_result (ia_x i) (socta (ia_y i) * socta (ia_z i)).
Proof.
  intros Hy Hz. unfold cpu_instr_mul, signed_result.
  pose proof (int_smult_spec _ _ Hy Hz) as H. destruct (int_smult _ _) as [res aux].
  destruct H as (Hr & Ha & E). rewrite (mul_overflow res aux _ Hr Ha E).
  replace (wrap64 (socta (ia_y i) * socta (ia_z i))) with res; [reflexivity|].
  rewrite <- E, Z.add_comm, wrap_add_mult, wrap_small by (trivial; lia). reflexivity.
Qed.

Lemma mul_exact_witness :
  cpu_instr_mul (mk_sInstrArgs 1 (wrap64 (-3)) (2 ^ 62)) = signed_result 1 (-3 * 2 ^ 62).
Proof. rewrite (mul_exact (mk_sInstrArgs 1 (wrap64 (-3)) (2 ^ 62))); [reflexivity|concrete_word..]. Defined.

(** The overflow test of DIV looks at the upper tetra of the quotient only. *)
Lemma div_overflow y z :
  is_octa y -> is_octa z -> z <> 0 ->
  truth (y .& MSB 64) && truth (z .& MSB 64) &&
    ((wrap64 (socta y / socta z) .>> 32) =? MSB 32) = negb (fits 64 (socta y / socta z)).
Proof.
  intros Hy Hz Hnz. rewrite !truth_msb, shiftr_div by (trivial; lia). change (MSB 32) with (2 ^ 31).
  assert (Hz' : socta z <> 0) by (intros E; apply Z.eqb_eq in E; rewrite <- socta_zero in E by trivial;
                                  apply Z.eqb_eq in E; contradiction).
  pose proof (socta_range y Hy). pose proof (socta_range z Hz).
  assert (Ny : negb (y <? 2 ^ 63) = (socta y <? 0)).
  { unfold is_word in *. revert H. socta_cases y; intros; cbn [negb]; symmetry;
      [apply Z.ltb_ge|apply Z.ltb_lt]; lia. }
  assert (Nz : negb (z <? 2 ^ 63) = (socta z <? 0)).
  { unfold is_word in *. revert H0. socta_cases z; intros; cbn [negb]; symmetry;
      [apply Z.ltb_ge|apply Z.ltb_lt]; lia. }
  rewrite Ny, Nz. clear Ny Nz. set (a := socta y) in *. set (b := socta z) in *.
  pose proof (Z.div_mod a b Hz') as E. unfold fits. change (64 - 1) with 63.
  assert (B : 0 <= a mod b < b \/ b < a mod b <= 0).
  { destruct (Z_lt_le_dec b 0); [right; apply Z.mod_neg_bound|left; apply Z.mod_pos_bound]; lia. }
  set (q := a / b) in *. set (r := a mod b) in *.
  destruct (Z.ltb_spec a 0), (Z.ltb_spec b 0); cbn [andb].
  - assert (0 <= q <= 2 ^ 63) by nia. unfold wrap. rewrite Z.mod_small by lia.
    replace (- 2 ^ 63 <=? q) with true by (symmetry; apply Z.leb_le; lia). cbn [andb].
    destruct (Z.ltb_spec q (2 ^ 63)).
    + apply Z.eqb_neq. assert (q / 2 ^ 32 < 2 ^ 31); [apply Z.div_lt_upper_bound|]; lia.
    + replace q with (2 ^ 63) by lia. reflexivity.
  - assert (- 2 ^ 63 <= q < 0) by nia.
    replace (- 2 ^ 63 <=? q) with true by (symmetry; apply Z.leb_le; lia).
    replace (q <? 2 ^ 63) with true by (symmetry; apply Z.ltb_lt; lia). reflexivity.
  - assert (- 2 ^ 63 < q <= 0) by nia.
    replace (- 2 ^ 63 <=? q) with true by (symmetry; apply Z.leb_le; lia).
    replace (q <? 2 ^ 63) with true by (symmetry; apply Z.ltb_lt; lia). reflexivity.
  - assert (0 <= q < 2 ^ 63) by nia.
    replace (- 2 ^ 63 <=? q) with true by (symmetry; apply Z.leb_le; lia).
    replace (q <? 2 ^ 63) with true by (symmetry; apply Z.ltb_lt; lia). reflexivity.
Qed.

(** The reference behaviour of DIV. *)
Definition div_result (x y z : Z) : M unit :=
  if z =? 0 then
    cpu_setArithEx TRIP_INTDIVCHK;; reg_set x 0;; reg_setSpecial rR y
  else
    when (negb (fits 64 (socta y / socta z))) (cpu_setArithEx TRIP_INTOVER);;
    reg_set x (wrap64 (socta y / socta z));;
    reg_setSpecial rR (wrap64 (socta y mod socta z)).

(** DIV computes the floored quotient and the remainder into rR, raises the division
    check exactly for a zero divisor and the overflow exception exactly for
    -2^63 / -1, although the code only tests the upper half of the quotient. *)
Theorem div_exact i m :
  is_octa (ia_y i) -> is_octa (ia_z i) ->
  cpu_instr_div i m = div_result (ia_x i) (ia_y i) (ia_z i) m.
Proof.
  intros Hy Hz. unfold cpu_instr_div, div_result. destruct (Z.eqb_spec (ia_z i) 0) as [E|E].
  - rewrite E. unfold int_sdiv. cbn [Z.eqb].
    replace (truth (0 .& MSB 64)) with false by reflexivity. rewrite andb_false_r.
    apply bind_ext. intros [] m' _. reflexivity.
  - rewrite int_sdiv_spec, div_overflow by trivial. reflexivity.
Qed.

Lemma div_exact_witness :
  let i := mk_sInstrArgs 1 (2 ^ 63) (wrap64 (-1)) in
  let m := power_on default_config in
  cpu_instr_div i m = div_result 1 (2 ^ 63) (wrap64 (-1)) m.
Proof. intros i m. apply (div_exact i m); concrete_word. Defined.
