(* ===== verification/InstrBits.v ===== *)
(** * The parallel bit instructions compute lane by lane

    BDIF, WDIF, TDIF, SADD, MOR and MXOR (gimmix/src/core/instr/morebit.c) work on all
    bytes, wydes or tetras of an octa at once.  A word is split into its lanes here,
    and each instruction is proved to compute what the instruction set says of them. *)

From Stdlib Require Import ZArith Lia Bool.
From stdpp Require Import base list numbers option.
From S2P Require Import Prelude IntArith Ram Machine Registers Devices Bus.
From S2P Require Import Tc Cache Mmu RegStack Float InstrArith.

(** ** Lanes *)

(** The word with the given lanes of [w] bits, the least significant first. *)
Fixpoint lanes (w : Z) (l : list Z) : Z :=
  match l with
  | [] => 0
  | b :: l => b + 2 ^ w * lanes w l
  end.

(** The [k]-th lane of [x], counted from the least significant one. *)
Definition lane (w x k : Z) : Z := (x / 2 ^ (w * k)) mod 2 ^ w.

Fixpoint lanes_of (w : Z) (n : nat) (x : Z) : list Z :=
  match n with
  | O => []
  | S n => x mod 2 ^ w :: lanes_of w n (x / 2 ^ w)
  end.

Lemma lanes_of_eq w n x :
  0 <= w -> lanes w (lanes_of w n x) = x mod 2 ^ (w * Z.of_nat n).
Proof.
  intros Hw. revert x. induction n as [|n IH]; intros x.
  - cbn. rewrite Z.mul_0_r. symmetry. apply Z.mod_1_r.
  - cbn [lanes_of lanes]. rewrite IH.
    replace (w * Z.of_nat (S n)) with (w + w * Z.of_nat n) by lia.
    rewrite Z.pow_add_r, Z.rem_mul_r by (pose proof (pow2_pos w); pose proof (pow2_pos (w * Z.of_nat n)); lia).
    lia.
Qed.

Lemma lanes_of_word w n x : 0 <= w -> Forall (is_word w) (lanes_of w n x).
Proof.
  intros Hw. revert x. induction n as [|n IH]; intros x; cbn; constructor; auto.
  apply Z.mod_pos_bound, pow2_pos; lia.
Qed.

Lemma lanes_of_length w n x : length (lanes_of w n x) = n.
Proof. revert x. induction n as [|n IH]; intros x; cbn; auto. Qed.

Lemma lanes_of_lookup w n x k :
  0 <= w -> (k < n)%nat -> lanes_of w n x !! k = Some (lane w x (Z.of_nat k)).
Proof.
  intros Hw. revert x k. induction n as [|n IH]; intros x [|k] Hk; [lia|lia| |].
  - cbn. unfold lane. rewrite Z.mul_0_r, Z.div_1_r. reflexivity.
  - cbn [lanes_of lookup list_lookup]. rewrite IH by lia. unfold lane.
    pose proof (pow2_pos w Hw). pose proof (pow2_pos (w * Z.of_nat k)).
    rewrite Z.div_div, <- Z.pow_add_r by lia. do 4 f_equal. lia.
Qed.

Lemma lanes_range w l : 0 <= w -> Forall (is_word w) l -> is_word (w * Z.of_nat (length l)) (lanes w l).
Proof.
  intros Hw H. induction H as [|b l Hb _ IH]; cbn [lanes length].
  - rewrite Z.mul_0_r. wordlia.
  - replace (w * Z.of_nat (S (length l))) with (w + w * Z.of_nat (length l)) by lia.
    pose proof (pow2_pos w Hw). unfold is_word in *. rewrite Z.pow_add_r by lia. nia.
Qed.

Lemma lanes_mod w b v : is_word w b -> (b + 2 ^ w * v) mod 2 ^ w = b.
Proof. intros H. rewrite Z.mul_comm, Z.mod_add by wordlia. apply Z.mod_small, H. Qed.

Lemma lanes_div w b v : is_word w b -> (b + 2 ^ w * v) / 2 ^ w = v.
Proof.
  intros H. rewrite Z.mul_comm, Z.div_add, Z.div_small by wordlia. reflexivity.
Qed.

Lemma lane_lanes w l k b :
  0 <= w -> Forall (is_word w) l -> l !! k = Some b -> lane w (lanes w l) (Z.of_nat k) = b.
Proof.
  intros Hw H. revert k. induction H as [|a l Ha _ IH]; intros [|k] E; [done|done| |].
  - injection E as <-. unfold lane. rewrite Z.mul_0_r, Z.div_1_r. apply lanes_mod, Ha.
  - cbn in E. rewrite <- (IH k E). unfold lane.
    replace (w * Z.of_nat (S k)) with (w + w * Z.of_nat k) by lia.
    pose proof (pow2_pos w Hw). pose proof (pow2_pos (w * Z.of_nat k)).
    cbn [lanes]. rewrite Z.pow_add_r, <- Z.div_div, lanes_div by (trivial; lia). reflexivity.
Qed.

(** ** Operations on lanes *)

Lemma testbit_cons w b v i :
  0 <= w -> 0 <= i -> is_word w b ->
  Z.testbit (b + 2 ^ w * v) i = if i <? w then Z.testbit b i else Z.testbit v (i - w).
Proof.
  intros Hw Hi Hb. destruct (Z.ltb_spec i w) as [H|H].
  - rewrite <- (Z.mod_pow2_bits_low (b + 2 ^ w * v) w i), lanes_mod by (trivial; lia). reflexivity.
  - rewrite <- (lanes_div w b v Hb) at 2. rewrite Z.div_pow2_bits by lia. f_equal. lia.
Qed.

Lemma land_cons w a b u v :
  0 <= w -> is_word w a -> is_word w b ->
  (a + 2 ^ w * u) .& (b + 2 ^ w * v) = (a .& b) + 2 ^ w * (u .& v).
Proof.
  intros Hw Ha Hb. apply Z.bits_inj'. intros i Hi.
  assert (Hab : is_word w (a .& b)) by (apply land_range; wordlia).
  rewrite Z.land_spec, !testbit_cons by trivial.
  destruct (i <? w); rewrite Z.land_spec; reflexivity.
Qed.

Lemma lanes_land {A} w (f g : A -> Z) (l : list A) :
  0 <= w -> Forall (fun x => is_word w (f x) /\ is_word w (g x)) l ->
  lanes w (map f l) .& lanes w (map g l) = lanes w (map (fun x => f x .& g x) l).
Proof.
  intros Hw H. induction H as [|x l [Hf Hg] _ IH]; [reflexivity|].
  cbn [lanes map]. rewrite land_cons, IH by trivial. reflexivity.
Qed.

Lemma lanes_add {A} w (f g : A -> Z) (l : list A) :
  lanes w (map f l) + lanes w (map g l) = lanes w (map (fun x => f x + g x) l).
Proof. induction l as [|x l IH]; cbn [lanes map]; [reflexivity|rewrite <- IH; lia]. Qed.

Lemma lanes_sub {A} w (f g : A -> Z) (l : list A) :
  lanes w (map f l) - lanes w (map g l) = lanes w (map (fun x => f x - g x) l).
Proof. induction l as [|x l IH]; cbn [lanes map]; [reflexivity|rewrite <- IH; lia]. Qed.

Lemma lanes_mul {A} w c (f : A -> Z) (l : list A) :
  c * lanes w (map f l) = lanes w (map (fun x => c * f x) l).
Proof. induction l as [|x l IH]; cbn [lanes map]; [lia|rewrite <- IH; lia]. Qed.

Lemma lanes_ext {A} w (f g : A -> Z) (l : list A) :
  Forall (fun x => f x = g x) l -> lanes w (map f l) = lanes w (map g l).
Proof. intros H. induction H as [|x l E _ IH]; cbn [lanes map]; congruence. Qed.

Lemma Forall_map_iff {A B} (P : B -> Prop) (f : A -> B) l :
  Forall P (map f l) <-> Forall (fun x => P (f x)) l.
Proof. apply Forall_fmap. Qed.

Lemma bytes_impl (P : Z -> Prop) l :
  Forall is_byte l -> (forall b, is_byte b -> P b) -> Forall P l.
Proof. intros H HP. induction H; constructor; auto. Qed.

Lemma lanes_id w l : lanes w l = lanes w (map (fun b => b) l).
Proof. rewrite map_id. reflexivity. Qed.

(** The shift moves the low bits of a lane into the lane below; the mask drops them. *)
Lemma lanes_shift_land w s mu l :
  0 <= s <= w -> is_word (w - s) mu -> Forall (is_word w) l ->
  (lanes w l .>> s) .& lanes w (map (fun _ => mu) l) = lanes w (map (fun b => (b .>> s) .& mu) l).
Proof.
  intros Hs Hmu H. assert (Hmuw : is_word w mu) by (apply (is_word_mono (w - s)); trivial; lia).
  induction H as [|b l Hb _ IH]; [cbn; rewrite Z.shiftr_0_l; reflexivity|].
  cbn [lanes map]. rewrite <- IH. clear IH.
  assert (Hbs : is_word w ((b .>> s) .& mu)) by (apply land_range; [apply shiftr_range; trivial; lia|wordlia]).
  apply Z.bits_inj'. intros i Hi.
  rewrite Z.land_spec, Z.shiftr_spec, !testbit_cons by (trivial; lia).
  destruct (Z.ltb_spec i w) as [Hiw|Hiw].
  - rewrite Z.land_spec, Z.shiftr_spec by lia.
    destruct (Z.ltb_spec (i + s) w) as [H1|H1]; [reflexivity|].
    rewrite (testbit_high (w - s) mu), !andb_false_r by (trivial; lia). reflexivity.
  - destruct (Z.ltb_spec (i + s) w) as [H1|H1]; [lia|].
    rewrite Z.land_spec, Z.shiftr_spec by lia. do 2 f_equal. lia.
Qed.

(** ** SADD: the number of one bits *)

(** The number of ones among the [n] lowest bits. *)
Fixpoint ones (n : nat) (x : Z) : Z :=
  match n with
  | O => 0
  | S n => Z.b2z (Z.testbit x 0) + ones n (x .>> 1)
  end.

Lemma ones_nonneg n x : 0 <= ones n x.
Proof.
  revert x. induction n as [|n IH]; intros x; cbn [ones]; [lia|].
  specialize (IH (x .>> 1)). destruct (Z.testbit x 0); cbn [Z.b2z]; lia.
Qed.

Lemma ones_ext n x y : (forall i, 0 <= i < Z.of_nat n -> Z.testbit x i = Z.testbit y i) -> ones n x = ones n y.
Proof.
  revert x y. induction n as [|n IH]; intros x y H; [reflexivity|]. cbn [ones].
  rewrite (H 0) by lia. f_equal. apply IH. intros i Hi. rewrite !Z.shiftr_spec by lia.
  apply H. lia.
Qed.

Lemma ones_app n k x : ones (n + k) x = ones n x + ones k (x .>> Z.of_nat n).
Proof.
  revert x. induction n as [|n IH]; intros x; [cbn; rewrite Z.shiftr_0_r; reflexivity|].
  cbn [ones Nat.add]. rewrite IH, Z.shiftr_shiftr by lia.
  replace (1 + Z.of_nat n) with (Z.of_nat (S n)) by lia. lia.
Qed.

Lemma ones_lanes l :
  Forall is_byte l -> ones (8 * length l) (lanes 8 l) = foldr (fun b s => ones 8 b + s) 0 l.
Proof.
  intros H. induction H as [|b l Hb _ IH]; [reflexivity|]. cbn [length foldr lanes].
  replace (8 * S (length l))%nat with (8 + 8 * length l)%nat by lia.
  rewrite ones_app, shiftr_div, lanes_div, IH by (trivial; lia). f_equal.
  apply ones_ext. intros i Hi. rewrite testbit_cons by (trivial; lia).
  destruct (Z.ltb_spec i 8); [reflexivity|lia].
Qed.

(** The count within each byte, as the first three steps of the code compute it. *)
Definition count1 (b : Z) : Z := b - ((b .>> 1) .& 0x55).
Definition count2 (b : Z) : Z := (b .& 0x33) + ((b .>> 2) .& 0x33).
Definition count4 (b : Z) : Z := (b + (b .>> 4)) .& 0x0F.

Lemma count_byte b :
  is_byte b ->
  is_byte (count1 b) /\ is_byte (count2 (count1 b)) /\
  (count2 (count1 b) .& 0x0F <= 4 /\ count2 (count1 b) .>> 4 <= 4) /\
  count4 (count2 (count1 b)) = ones 8 b /\ ones 8 b <= 8.
Proof.
  intros Hb.
  pose (P b := let c := count2 (count1 b) in
    (0 <=? count1 b) && (count1 b <? 256) && (0 <=? c) && (c <? 256) && (c .& 0x0F <=? 4)
    && (c .>> 4 <=? 4) && (count4 c =? ones 8 b) && (ones 8 b <=? 8)).
  assert (E : P b = true) by (apply (byte_cases P); [vm_compute; reflexivity|trivial]).
  unfold P in E. cbv zeta in E.
  repeat (apply andb_prop in E; destruct E as [E ?]). unfold is_word. csplit; try lia.
Qed.

Lemma lanes_const mu l :
  length l = 8%nat -> lanes 8 (map (fun _ : Z => mu) l) = mu * 0x0101010101010101.
Proof. intros H. do 9 (destruct l as [|? l]; try discriminate H). cbn. lia. Qed.

Lemma lanes_octa {A} (f : A -> Z) (l : list A) :
  length l = 8%nat -> Forall (fun b => is_byte (f b)) l -> is_octa (lanes 8 (map f l)).
Proof.
  intros Hl H. assert (E : is_word (8 * Z.of_nat (length (map f l))) (lanes 8 (map f l))).
  { apply lanes_range; [lia|]. apply Forall_map_iff, H. }
  rewrite length_map, Hl in E. exact E.
Qed.

Lemma lanes_nibbles l :
  Forall (fun b => is_byte b /\ b .& 0x0F <= 4 /\ b .>> 4 <= 4) l ->
  (lanes 8 l + (lanes 8 l .>> 4)) .& lanes 8 (map (fun _ => 0x0F) l) = lanes 8 (map count4 l).
Proof.
  intros H. induction H as [|b l (Hb & Hlo & Hhi) Hl IH]; [reflexivity|].
  assert (Hv : lanes 8 l mod 2 ^ 4 <= 4).
  { destruct Hl as [|c l (Hc & Hclo & _) _]; cbn [lanes]; [vm_compute; congruence|].
    rewrite (land_mask_eq c 4) in Hclo by lia.
    replace (2 ^ 8 * lanes 8 l) with (16 * lanes 8 l * 2 ^ 4) by lia. rewrite Z.mod_add; lia. }
  cbn [lanes map]. rewrite <- IH. clear IH Hl. set (v := lanes 8 l) in *. clearbody v.
  rewrite (land_mask_eq b 4) in Hlo by lia. rewrite shiftr_div in Hhi by lia.
  unfold count4. rewrite !shiftr_div by lia. unfold is_word in Hb.
  assert (E : b + 2 ^ 8 * v + (b + 2 ^ 8 * v) / 2 ^ 4
              = (b + b / 2 ^ 4 + 16 * (v mod 2 ^ 4)) + 2 ^ 8 * (v + v / 2 ^ 4))
    by (Z.div_mod_to_equations; lia).
  rewrite E, land_cons; [|lia|Z.div_mod_to_equations; wordlia|wordlia].
  f_equal. rewrite !(land_mask_eq _ 4) by lia. Z.div_mod_to_equations; lia.
Qed.

Lemma lanes_drop w l k :
  0 <= w -> Forall (is_word w) l -> lanes w l .>> (w * Z.of_nat k) = lanes w (drop k l).
Proof.
  intros Hw H. revert k. induction H as [|b l Hb _ IH]; intros [|k];
    try (rewrite Z.mul_0_r, Z.shiftr_0_r; reflexivity).
  - apply Z.shiftr_0_l.
  - cbn [drop]. rewrite <- IH. replace (w * Z.of_nat (S k)) with (w + w * Z.of_nat k) by lia.
    rewrite <- Z.shiftr_shiftr, (shiftr_div _ w) by lia. cbn [lanes]. rewrite lanes_div; trivial.
Qed.

(** One of the three steps that add up all bytes. *)
Lemma lanes_fold l k l' :
  length l = 8%nat -> Forall is_byte l -> Forall is_byte l' -> length l' = 8%nat ->
  lanes 8 l + lanes 8 (drop k l) = lanes 8 l' ->
  lanes 8 l +o (lanes 8 l .>> (8 * Z.of_nat k)) = lanes 8 l'.
Proof.
  intros Hn Hl Hl' Hn' E. rewrite lanes_drop, E by (trivial; lia). rewrite (lanes_id 8 l').
  apply wrap_small, lanes_octa; trivial.
Qed.

Lemma lanes_sum l :
  length l = 8%nat -> Forall (fun c => 0 <= c <= 8) l ->
  let x := lanes 8 l in
  let x := x +o (x .>> 8) in
  let x := x +o (x .>> 16) in
  let x := x +o (x .>> 32) in
  x .& 0xFF = foldr Z.add 0 l.
Proof.
  intros Hl H. do 9 (destruct l as [|? l]; try discriminate Hl). clear Hl.
  repeat match goal with K : Forall _ (_ :: _) |- _ => apply Forall_cons_1 in K; destruct K as [? K] end.
  cbv zeta.
  rewrite (lanes_fold _ 1 [z + z0; z0 + z1; z1 + z2; z2 + z3; z3 + z4; z4 + z5; z5 + z6; z6]);
    [|reflexivity|repeat constructor; wordlia..|reflexivity|cbn [lanes drop]; ring].
  rewrite (lanes_fold _ 2 [z + z0 + z1 + z2; z0 + z1 + z2 + z3; z1 + z2 + z3 + z4;
    z2 + z3 + z4 + z5; z3 + z4 + z5 + z6; z4 + z5 + z6; z5 + z6; z6]);
    [|reflexivity|repeat constructor; wordlia..|reflexivity|cbn [lanes drop]; ring].
  rewrite (lanes_fold _ 4 [z + z0 + z1 + z2 + z3 + z4 + z5 + z6; z0 + z1 + z2 + z3 + z4 + z5 + z6;
    z1 + z2 + z3 + z4 + z5 + z6; z2 + z3 + z4 + z5 + z6; z3 + z4 + z5 + z6; z4 + z5 + z6; z5 + z6; z6]);
    [|reflexivity|repeat constructor; wordlia..|reflexivity|cbn [lanes drop]; ring].
  cbn [lanes foldr]. rewrite (land_mask_eq _ 8), lanes_mod by (trivial; wordlia). lia.
Qed.

Lemma count_step1 l :
  length l = 8%nat -> Forall is_byte l -> Forall is_byte (map count1 l) ->
  lanes 8 l -o ((lanes 8 l .>> 1) .& 0x5555555555555555) = lanes 8 (map count1 l).
Proof.
  intros Hn Hl H. change 0x5555555555555555 with (0x55 * 0x0101010101010101).
  rewrite <- (lanes_const 0x55 l Hn), lanes_shift_land by (trivial; wordlia).
  rewrite (lanes_id 8 l) at 1. rewrite lanes_sub. apply wrap_small, lanes_octa; trivial.
  exact (proj1 (Forall_map_iff _ _ _) H).
Qed.

Lemma count_step2 l :
  length l = 8%nat -> Forall is_byte l -> Forall is_byte (map count2 l) ->
  (lanes 8 l .& 0x3333333333333333) +o ((lanes 8 l .>> 2) .& 0x3333333333333333)
  = lanes 8 (map count2 l).
Proof.
  intros Hn Hl H. change 0x3333333333333333 with (0x33 * 0x0101010101010101).
  rewrite <- (lanes_const 0x33 l Hn), lanes_shift_land by (trivial; wordlia).
  rewrite (lanes_id 8 l) at 1. rewrite lanes_land, lanes_add.
  - apply wrap_small, lanes_octa; trivial. exact (proj1 (Forall_map_iff _ _ _) H).
  - lia.
  - apply bytes_impl; [trivial|]. intros b Hb. split; [trivial|wordlia].
Qed.

Lemma count_step4 l :
  length l = 8%nat -> Forall (fun b => is_byte b /\ b .& 0x0F <= 4 /\ b .>> 4 <= 4) l ->
  (lanes 8 l +o (lanes 8 l .>> 4)) .& 0x0F0F0F0F0F0F0F0F = lanes 8 (map count4 l).
Proof.
  intros Hn Hl. rewrite <- lanes_nibbles, (lanes_const 0x0F l Hn) by trivial. f_equal.
  assert (Hb : lanes 8 l <= 0x44 * 0x0101010101010101).
  { rewrite <- (lanes_const 0x44 l Hn). clear Hn.
    induction Hl as [|b l (Hb & Hlo & Hhi) _ IH]; cbn [lanes map]; [lia|].
    rewrite (land_mask_eq b 4) in Hlo by lia. rewrite shiftr_div in Hhi by lia.
    pose proof (Z.div_mod b (2 ^ 4)). lia. }
  assert (H0 : 0 <= lanes 8 l).
  { clear -Hl. induction Hl as [|b l (Hb & _) _ IH]; cbn [lanes]; wordlia. }
  apply wrap_small. rewrite shiftr_div by lia. unfold is_word. Z.div_mod_to_equations; lia.
Qed.

Lemma countBits_spec x : is_octa x -> cpu_instr_countBits x = ones 64 x.
Proof.
  intros Hx. set (l := lanes_of 8 8 x).
  assert (Hl : Forall is_byte l) by (apply lanes_of_word; lia).
  assert (Hn : length l = 8%nat) by (apply lanes_of_length).
  assert (El : x = lanes 8 l)
    by (unfold l; rewrite lanes_of_eq by lia; symmetry; apply Z.mod_small, Hx).
  clearbody l. subst x. clear Hx. unfold cpu_instr_countBits.
  assert (H1 : Forall is_byte (map count1 l))
    by (apply Forall_map_iff, bytes_impl; [trivial|intros b Hb; apply count_byte, Hb]).
  assert (H2 : Forall is_byte (map count2 (map count1 l))).
  { rewrite map_map. apply Forall_map_iff, bytes_impl; [trivial|]. intros b Hb.
    apply count_byte, Hb. }
  assert (H3 : Forall (fun b => is_byte b /\ b .& 0x0F <= 4 /\ b .>> 4 <= 4)
                      (map count2 (map count1 l))).
  { rewrite map_map. apply Forall_map_iff, bytes_impl; [trivial|]. intros b Hb.
    destruct (count_byte b Hb) as (? & ? & ? & ?). tauto. }
  rewrite count_step1, count_step2, count_step4 by (rewrite ?length_map; trivial).
  rewrite !map_map. rewrite lanes_sum.
  - change 64%nat with (8 * 8)%nat. rewrite <- Hn at 2. rewrite ones_lanes by trivial.
    clear -Hl. induction Hl as [|b l Hb _ IH]; cbn [map foldr]; [reflexivity|].
    rewrite IH. f_equal. apply count_byte, Hb.
  - rewrite length_map. trivial.
  - apply Forall_map_iff, bytes_impl; [trivial|]. intros b Hb.
    destruct (count_byte b Hb) as (_ & _ & _ & E & ?). cbn. rewrite E.
    split; [apply ones_nonneg|lia].
Qed.

(** ** BDIF, WDIF, TDIF and ODIF: saturating differences *)

(** [lanes] of the differences of the pairs of lanes, cut off at 0. *)
Definition sat (p : Z * Z) : Z := Z.max 0 (fst p - snd p).

Lemma lanes16_octa {A} (f : A -> Z) (l : list A) :
  length l = 4%nat -> Forall (fun p => is_wyde (f p)) l -> is_octa (lanes 16 (map f l)).
Proof.
  intros Hn H. assert (E : is_word (16 * Z.of_nat (length (map f l))) (lanes 16 (map f l))).
  { apply lanes_range; [lia|]. apply Forall_map_iff, H. }
  rewrite length_map, Hn in E. exact E.
Qed.

Lemma land_256 x : 0 <= x < 512 -> x .& 256 = if 256 <=? x then 256 else 0.
Proof.
  intros Hx. apply Z.eqb_eq.
  assert (H : forallb (fun x => x .& 256 =? if 256 <=? x then 256 else 0) (seqZ 0 512) = true)
    by (vm_compute; reflexivity).
  rewrite forallb_forall in H. apply H, list_elem_of_In, elem_of_seqZ. lia.
Qed.

Definition bytes_of (p : Z * Z) : Prop := is_byte (fst p) /\ is_byte (snd p).

Lemma pairs_impl {A} (P Q : A -> Prop) l : Forall P l -> (forall x, P x -> Q x) -> Forall Q l.
Proof. intros H HP. induction H; constructor; auto. Qed.

(** One half of BDIF, on pairs of bytes in lanes of 16 bits. *)
Lemma bdif_half_pairs (l : list (Z * Z)) :
  length l = 4%nat -> Forall bytes_of l ->
  let d := wrap64 (lanes 16 (map fst l) + 0x0100010001000100 - lanes 16 (map snd l)) in
  let m := d .& 0x0100010001000100 in
  d .& (m -o (m .>> 8)) = lanes 16 (map sat l).
Proof.
  intros Hn Hl. cbv zeta.
  set (d := fun p : Z * Z => fst p + 256 - snd p).
  set (q := fun p : Z * Z => if snd p <=? fst p then 1 else 0).
  assert (E : 0x0100010001000100 = lanes 16 (map (fun _ => 256) l)).
  { clear -Hn. do 5 (destruct l as [|? l]; try discriminate Hn). reflexivity. }
  rewrite E, lanes_add, lanes_sub. fold d.
  rewrite (wrap_small 64 (lanes 16 (map d l))).
  2: { apply lanes16_octa; [trivial|]. apply (pairs_impl _ _ _ Hl). unfold bytes_of, d. wordlia. }
  rewrite lanes_land; [|lia|apply (pairs_impl _ _ _ Hl); unfold bytes_of, d; wordlia].
  rewrite (lanes_ext _ (fun p => d p .& 256) (fun p => 256 * q p)).
  2: { apply (pairs_impl _ _ _ Hl). intros p [H1 H2]. rewrite land_256 by (unfold d; wordlia).
       unfold d, q. destruct (Z.leb_spec (snd p) (fst p)), (Z.leb_spec 256 (fst p + 256 - snd p)); lia. }
  rewrite <- lanes_mul, shiftr_div by lia. change (2 ^ 8) with 256.
  rewrite (Z.mul_comm 256 (lanes _ _)), Z.div_mul by lia.
  replace (lanes 16 (map q l) * 256 - lanes 16 (map q l)) with (255 * lanes 16 (map q l)) by lia.
  rewrite lanes_mul, wrap_small.
  2: { apply lanes16_octa; [trivial|]. apply (pairs_impl _ _ _ Hl). intros p _. unfold q.
       destruct (snd p <=? fst p); wordlia. }
  rewrite lanes_land; [|lia|].
  2: { apply (pairs_impl _ _ _ Hl). unfold bytes_of, d, q. intros p Hp.
       destruct (snd p <=? fst p); wordlia. }
  apply lanes_ext, (pairs_impl _ _ _ Hl). intros p [H1 H2]. unfold d, q, sat, is_word in *.
  destruct (Z.leb_spec (snd p) (fst p)); cbn [Z.mul].
  - rewrite (land_mask_eq _ 8) by lia. rewrite Z.max_r by lia. Z.div_mod_to_equations; lia.
  - rewrite Z.land_0_r. lia.
Qed.

Lemma lanes_of_map w n x :
  0 <= w -> lanes_of w n x = map (fun k => lane w x (Z.of_nat k)) (seq 0 n).
Proof.
  intros Hw. apply list_eq. intros k. destruct (decide (k < n)%nat) as [H|H].
  - rewrite lanes_of_lookup by trivial. symmetry. apply list_lookup_fmap_Some.
    exists k. split; [reflexivity|]. apply lookup_seq. lia.
  - rewrite !lookup_ge_None_2; rewrite ?length_map, ?length_seq, ?lanes_of_length; trivial; lia.
Qed.

Lemma octa_lanes w n x :
  0 <= w -> w * Z.of_nat n = 64 -> is_octa x ->
  x = lanes w (map (fun k => lane w x (Z.of_nat k)) (seq 0 n)).
Proof.
  intros Hw Hn Hx. rewrite <- lanes_of_map, lanes_of_eq, Hn by lia. symmetry. apply Z.mod_small, Hx.
Qed.

Lemma lane_range w x k : 0 <= w -> is_word w (lane w x k).
Proof. intros. apply Z.mod_pos_bound, pow2_pos. lia. Qed.

Lemma lane_shift w x k : 0 <= w -> 0 <= k -> lane w (x .>> w) k = lane w x (k + 1).
Proof.
  intros Hw Hk. unfold lane. rewrite shiftr_div, Z.div_div, <- Z.pow_add_r by
    (try apply pow2_pos; try (pose proof (pow2_pos w); lia); lia).
  do 3 f_equal. lia.
Qed.

(** The bytes of a word in even places, as the masks of BDIF select them. *)
Lemma even_bytes x :
  is_octa x -> x .& 0x00FF00FF00FF00FF = lanes 16 [lane 8 x 0; lane 8 x 2; lane 8 x 4; lane 8 x 6].
Proof.
  intros Hx. rewrite (octa_lanes 8 8 x) at 1 by (trivial; lia).
  change 0x00FF00FF00FF00FF with (lanes 8 [255; 0; 255; 0; 255; 0; 255; 0]).
  cbn [map seq lanes].
  rewrite !land_cons by (try apply lane_range; wordlia).
  rewrite !Z.land_0_r, !(land_mask_eq _ 8) by lia.
  rewrite !(Z.mod_small (lane _ _ _)) by (apply (lane_range 8); lia).
  change (Z.of_nat 0) with 0. change (Z.of_nat 2) with 2. change (Z.of_nat 4) with 4.
  change (Z.of_nat 6) with 6. ring.
Qed.

Lemma bdif_half_spec y z :
  is_octa y -> is_octa z ->
  bdif_half y z = lanes 16 (map sat [(lane 8 y 0, lane 8 z 0); (lane 8 y 2, lane 8 z 2);
                                     (lane 8 y 4, lane 8 z 4); (lane 8 y 6, lane 8 z 6)]).
Proof.
  intros Hy Hz. unfold bdif_half. rewrite !even_bytes by trivial.
  apply (bdif_half_pairs [(lane 8 y 0, lane 8 z 0); (lane 8 y 2, lane 8 z 2);
                          (lane 8 y 4, lane 8 z 4); (lane 8 y 6, lane 8 z 6)]); [reflexivity|].
  repeat constructor; apply (lane_range 8); lia.
Qed.

Lemma sat_byte w y z k : 0 <= w -> is_word w (sat (lane w y k, lane w z k)).
Proof.
  intros Hw. pose proof (lane_range w y k Hw). pose proof (lane_range w z k Hw).
  unfold sat. cbn [fst snd]. wordlia.
Qed.

Definition sat_lanes (w : Z) (n : nat) (y z : Z) : Z :=
  lanes w (map (fun k => sat (lane w y (Z.of_nat k), lane w z (Z.of_nat k))) (seq 0 n)).

Lemma sat_lanes_lane w n y z k :
  0 <= w -> 0 <= k < Z.of_nat n ->
  lane w (sat_lanes w n y z) k = Z.max 0 (lane w y k - lane w z k).
Proof.
  intros Hw Hk. rewrite <- (Z2Nat.id k) at 1 by lia. apply lane_lanes; [trivial| |].
  - apply Forall_map_iff, Forall_forall. intros j _. apply sat_byte, Hw.
  - apply list_lookup_fmap_Some. exists (Z.to_nat k). rewrite Z2Nat.id by lia.
    split; [reflexivity|]. apply lookup_seq. lia.
Qed.

Lemma bdif_spec y z : is_octa y -> is_octa z -> bdif y z = sat_lanes 8 8 y z.
Proof.
  intros Hy Hz. unfold bdif. rewrite !bdif_half_spec by (trivial; apply shiftr_range; trivial; lia).
  rewrite !lane_shift by lia.
  change (0 + 1) with 1. change (2 + 1) with 3. change (4 + 1) with 5. change (6 + 1) with 7.
  unfold sat_lanes. cbn [map seq]. change (Z.of_nat 0) with 0.
  repeat match goal with |- context [Z.of_nat ?k] =>
    let c := eval vm_compute in (Z.of_nat k) in change (Z.of_nat k) with c end.
  pose proof (fun k => sat_byte 8 y z k ltac:(lia)) as H.
  generalize (H 0), (H 1), (H 2), (H 3), (H 4), (H 5), (H 6), (H 7). cbn [lanes map]. intros.
  rewrite shl_exact, wrap_small; unfold is_word in *; lia.
Qed.

Lemma lxor_cons w a b u v :
  0 <= w -> is_word w a -> is_word w b ->
  (a + 2 ^ w * u) .^ (b + 2 ^ w * v) = (a .^ b) + 2 ^ w * (u .^ v).
Proof.
  intros Hw Ha Hb. apply Z.bits_inj'. intros i Hi.
  assert (Hab : is_word w (a .^ b)) by (apply lxor_range; trivial).
  rewrite Z.lxor_spec, !testbit_cons by trivial.
  destruct (i <? w); rewrite Z.lxor_spec; reflexivity.
Qed.

(** The mask of WDIF selects the minuend where it is all ones. *)
Lemma pick_wyde (c : bool) a b :
  is_wyde a -> is_wyde b -> b .^ ((a .^ b) .& (if c then 0xFFFF else 0)) = if c then a else b.
Proof.
  intros Ha Hb. destruct c.
  - rewrite (land_mask_eq _ 16), Z.mod_small by (trivial; try apply (lxor_range 16); trivial; lia).
    rewrite Z.lxor_comm, Z.lxor_assoc, Z.lxor_nilpotent. apply Z.lxor_0_r.
  - rewrite Z.land_0_r. apply Z.lxor_0_r.
Qed.

Lemma borrow_bit a b :
  is_wyde a -> is_wyde b -> wrap32 (a - b) .& 0x10000 = if a <? b then 0x10000 else 0.
Proof.
  intros Ha Hb. change 0x10000 with (2 ^ 16).
  assert (E : Z.testbit (wrap32 (a - b)) 16 = (a <? b)).
  { rewrite <- (Z.add_0_l 16) at 1. rewrite <- Z.div_pow2_bits, Z.bit0_odd by lia.
    unfold wrap, is_word in *. destruct (Z.ltb_spec a b).
    - replace ((a - b) mod 2 ^ 32 / 2 ^ 16) with 65535; [reflexivity|]. Z.div_mod_to_equations; lia.
    - replace ((a - b) mod 2 ^ 32 / 2 ^ 16) with 0; [reflexivity|]. Z.div_mod_to_equations; lia. }
  rewrite land_pow2, E by lia. reflexivity.
Qed.

Lemma twydediff_spec a0 a1 b0 b1 :
  is_wyde a0 -> is_wyde a1 -> is_wyde b0 -> is_wyde b1 ->
  cpu_instr_twydediff (a0 + 2 ^ 16 * a1) (b0 + 2 ^ 16 * b1) = sat (a0, b0) + 2 ^ 16 * sat (a1, b1).
Proof.
  intros Ha0 Ha1 Hb0 Hb1. unfold cpu_instr_twydediff.
  rewrite !shiftr_div, !(lanes_div 16), !(land_mask_eq _ 16 0xFFFF), !(lanes_mod 16), !borrow_bit by (trivial; lia).
  match goal with |- context [(_ .^ _) .& ?m] =>
    replace m with ((if a0 <? b0 then 0xFFFF else 0) + 2 ^ 16 * (if a1 <? b1 then 0xFFFF else 0))
      by (destruct (a0 <? b0), (a1 <? b1); reflexivity) end.
  rewrite (lxor_cons 16), (land_cons 16) by
    (trivial; try apply (lxor_range 16); trivial; try destruct (a0 <? b0); wordlia).
  rewrite (lxor_cons 16), !pick_wyde; trivial; [|lia|].
  - apply wrap_small_eq. unfold sat, is_word in *. cbn [fst snd].
    destruct (Z.ltb_spec a0 b0), (Z.ltb_spec a1 b1); lia.
  - apply land_range; [apply (lxor_range 16); trivial; lia|]. destruct (a0 <? b0); lia.
Qed.

Lemma wdif_spec y z : is_octa y -> is_octa z -> wdif y z = sat_lanes 16 4 y z.
Proof.
  intros Hy Hz. unfold wdif, sat_lanes. cbn [map seq].
  assert (L : forall x, is_octa x -> x .& 0xFFFFFFFF = lane 16 x 0 + 2 ^ 16 * lane 16 x 1 /\
                                    x .>> 32 = lane 16 x 2 + 2 ^ 16 * lane 16 x 3).
  { intros x Hx. rewrite (land_mask_eq _ 32), shiftr_div by lia. unfold lane, is_word in *.
    split; Z.div_mod_to_equations; lia. }
  destruct (L y Hy) as [-> ->], (L z Hz) as [-> ->]. clear L.
  rewrite !twydediff_spec by (apply (lane_range 16); lia).
  pose proof (fun k => sat_byte 16 y z k ltac:(lia)) as H.
  repeat match goal with |- context [Z.of_nat ?k] =>
    let c := eval vm_compute in (Z.of_nat k) in change (Z.of_nat k) with c end.
  generalize (H 0), (H 1), (H 2), (H 3). cbn [lanes]. intros. unfold is_word in *.
  rewrite shl_exact, lor_disjoint; unfold is_word; lia.
Qed.

Lemma tdif_spec y z : is_octa y -> is_octa z -> tdif y z = sat_lanes 32 2 y z.
Proof.
  intros Hy Hz. unfold tdif, sat_lanes. cbn [map seq lanes].
  assert (L : forall x, is_octa x -> x .& 0xFFFFFFFF = lane 32 x 0 /\ x .>> 32 = lane 32 x 1).
  { intros x Hx. rewrite (land_mask_eq _ 32), shiftr_div by lia. unfold lane, is_word in *.
    split; Z.div_mod_to_equations; lia. }
  destruct (L y Hy) as [-> ->], (L z Hz) as [-> ->]. clear L.
  change (Z.of_nat 0) with 0. change (Z.of_nat 1) with 1.
  pose proof (fun x k => lane_range 32 x k ltac:(lia)) as H.
  generalize (H y 0), (H y 1), (H z 0), (H z 1). intros. unfold sat. cbn [fst snd].
  destruct (Z.ltb_spec (lane 32 z 1) (lane 32 y 1)), (Z.ltb_spec (lane 32 z 0) (lane 32 y 0));
    rewrite ?Z.lor_0_l, ?(wrap_small 32) by wordlia; unfold is_word in *;
    rewrite ?shl_exact, ?lor_disjoint; unfold is_word; lia.
Qed.

(** ** MOR and MXOR: products of boolean matrices *)

Lemma testbit_lane w x j i :
  0 <= j -> 0 <= i < w -> Z.testbit x (w * j + i) = Z.testbit (lane w x j) i.
Proof.
  intros Hj Hi. unfold lane. rewrite Z.mod_pow2_bits_low, Z.div_pow2_bits by nia. f_equal. lia.
Qed.

(** Row [j], column [i] of an octa as a matrix of 8 by 8 bits: bit [i] of byte [j]. *)
Definition mat (x j i : Z) : bool := Z.testbit x (8 * j + i).

Definition combine (xor a b : bool) : bool := if xor then xorb a b else a || b.

(** The sum or disjunction of [f k], ..., [f (k + n - 1)] and [acc]. *)
Fixpoint bool_sum (xor : bool) (n : nat) (k : Z) (f : Z -> bool) (acc : bool) : bool :=
  match n with
  | O => acc
  | S n => bool_sum xor n (k + 1) f (combine xor acc (f k))
  end.

Lemma combine_false xor a : combine xor a false = a.
Proof. destruct xor, a; reflexivity. Qed.

Lemma bool_sum_false xor n k f acc :
  (forall m, k <= m < k + Z.of_nat n -> f m = false) -> bool_sum xor n k f acc = acc.
Proof.
  revert k acc. induction n as [|n IH]; intros k acc H; [reflexivity|]. cbn [bool_sum].
  rewrite H, combine_false by lia. apply IH. intros m Hm. apply H. lia.
Qed.

Lemma bool_sum_ext xor n k f g acc :
  (forall m, k <= m -> f m = g m) -> bool_sum xor n k f acc = bool_sum xor n k g acc.
Proof.
  revert k acc. induction n as [|n IH]; intros k acc H; [reflexivity|]. cbn [bool_sum].
  rewrite H by lia. apply IH. intros m Hm. apply H. lia.
Qed.

Lemma mat_lanes (f : Z -> Z) x j i :
  0 <= j < 8 -> 0 <= i < 8 -> (forall b, is_byte b -> is_byte (f b)) ->
  mat (lanes 8 (map f (lanes_of 8 8 x))) j i = Z.testbit (f (lane 8 x j)) i.
Proof.
  intros Hj Hi Hf. unfold mat. rewrite testbit_lane by lia. f_equal.
  rewrite <- (Z2Nat.id j) at 1 by lia. apply lane_lanes; [lia| |].
  - apply Forall_map_iff, bytes_impl; [apply lanes_of_word; lia|trivial].
  - apply list_lookup_fmap_Some. exists (lane 8 x j). split; [reflexivity|].
    rewrite lanes_of_lookup by lia. rewrite Z2Nat.id by lia. reflexivity.
Qed.

Lemma spread_bit b k : 0 <= k -> 255 * ((b .>> k) .& 1) = if Z.testbit b k then 255 else 0.
Proof.
  intros Hk. rewrite (land_mask_eq _ 1), shiftr_div by lia. change (2 ^ 1) with 2.
  rewrite <- Z.testbit_spec' by lia. destruct (Z.testbit b k); reflexivity.
Qed.

Lemma testbit_byte_ones i : 0 <= i < 8 -> Z.testbit 255 i = true.
Proof. intros Hi. change 255 with (Z.ones 8). apply Z.ones_spec_low. lia. Qed.

(** Byte [j] of [a] is all ones if bit [k] of byte [j] of [y] is set. *)
Lemma mor_row y k j i :
  is_octa y -> 0 <= k < 8 -> 0 <= j < 8 -> 0 <= i < 8 ->
  mat (((y .>> k) .& 0x0101010101010101) *o 0xFF) j i = mat y j k.
Proof.
  intros Hy Hk Hj Hi. set (l := lanes_of 8 8 y).
  assert (Hl : Forall is_byte l) by (apply lanes_of_word; lia).
  assert (Hn : length l = 8%nat) by apply lanes_of_length.
  assert (El : y = lanes 8 l)
    by (unfold l; rewrite lanes_of_eq by lia; symmetry; apply Z.mod_small, Hy).
  assert (Hf : forall b, is_byte b -> is_byte (255 * ((b .>> k) .& 1)))
    by (intros b _; rewrite spread_bit by lia; destruct (Z.testbit b k); wordlia).
  assert (E : ((y .>> k) .& 0x0101010101010101) *o 0xFF
              = lanes 8 (map (fun b => 255 * ((b .>> k) .& 1)) l)).
  { rewrite El at 1. change 0x0101010101010101 with (1 * 0x0101010101010101).
    pose proof (Z.pow_le_mono_r 2 1 (8 - k)).
    rewrite <- (lanes_const 1 l Hn), lanes_shift_land by (trivial; try wordlia; lia).
    rewrite Z.mul_comm, lanes_mul.
    apply wrap_small, lanes_octa; [trivial|]. apply bytes_impl; trivial. }
  rewrite E. unfold l. rewrite mat_lanes, spread_bit by (trivial; lia).
  unfold mat. rewrite testbit_lane by lia.
  destruct (Z.testbit (lane 8 y j) k); [apply testbit_byte_ones; lia|apply Z.bits_0].
Qed.

(** Every byte of [c] is the byte of [x]. *)
Lemma mor_column x j i :
  0 <= x -> 0 <= j < 8 -> 0 <= i < 8 ->
  mat ((x .& 0xFF) *o 0x0101010101010101) j i = Z.testbit x i.
Proof.
  intros Hx Hj Hi. rewrite (land_mask_eq x 8) by lia.
  pose proof (Z.mod_pos_bound x (2 ^ 8) ltac:(lia)) as Hb.
  set (l := lanes_of 8 8 0). assert (Hn : length l = 8%nat) by apply lanes_of_length.
  rewrite <- (lanes_const (x mod 2 ^ 8) l Hn), wrap_small.
  - unfold l. rewrite (mat_lanes (fun _ => x mod 2 ^ 8)) by (trivial; lia).
    apply Z.mod_pow2_bits_low. lia.
  - apply lanes_octa; [trivial|]. apply bytes_impl; [apply lanes_of_word; lia|trivial].
Qed.

Lemma boolMult_loop_spec fuel n k x y res xor j i :
  (n < fuel)%nat -> 0 <= k -> k + Z.of_nat n = 8 -> is_octa y -> is_word (8 * Z.of_nat n) x ->
  0 <= j < 8 -> 0 <= i < 8 ->
  mat (boolMult_loop fuel k x y res xor) j i
  = bool_sum xor n k (fun m => mat y j m && mat x (m - k) i) (mat res j i).
Proof.
  revert fuel k x res. induction n as [|n IH]; intros fuel k x res Hf Hk Hkn Hy Hx Hj Hi;
    (destruct fuel as [|fuel]; [lia|]); cbn [boolMult_loop].
  - replace x with 0 by (cbn in Hx; wordlia). reflexivity.
  - destruct (Z.eqb_spec x 0) as [->|H0].
    { rewrite bool_sum_false; [reflexivity|]. intros m _. unfold mat. rewrite Z.bits_0. apply andb_false_r. }
    rewrite IH; trivial; [|lia..|].
    2: { apply word_of_bits; [lia|apply Z.shiftr_nonneg; wordlia|]. intros b Hb.
         rewrite Z.shiftr_spec by lia. apply (testbit_high (8 * Z.of_nat (S n))); trivial; lia. }
    cbn [bool_sum]. rewrite Z.sub_diag.
    rewrite (bool_sum_ext _ _ _ _ (fun m => mat y j m && mat x (m - k) i)).
    2: { intros m Hm. unfold mat. rewrite Z.shiftr_spec by nia. do 2 f_equal. lia. }
    f_equal. pose proof (mor_row y k j i Hy ltac:(lia) Hj Hi) as Ea.
    pose proof (mor_column x j i ltac:(wordlia) Hj Hi) as Ec.
    replace (mat x 0 i) with (Z.testbit x i) by reflexivity.
    destruct (truth (x .& 0xFF)) eqn:Et.
    + unfold mat in *. destruct xor; rewrite ?Z.lxor_spec, ?Z.lor_spec, Z.land_spec, Ea, Ec; reflexivity.
    + unfold truth in Et. apply negb_false_iff, Z.eqb_eq in Et. rewrite (land_mask_eq x 8) in Et by lia.
      rewrite <- (Z.mod_pow2_bits_low x 8 i), Et, Z.bits_0, andb_false_r, combine_false by lia.
      reflexivity.
Qed.

(** ** Comparisons and conditions *)

Lemma cmp_signed_spec y z :
  is_octa y -> is_octa z ->
  cmp_signed y z = match socta y ?= socta z with Lt => 2 ^ 64 - 1 | Eq => 0 | Gt => 1 end.
Proof.
  intros Hy Hz. unfold cmp_signed, MSB. change (64 - 1) with 63. rewrite !land_msb by trivial.
  unfold signed, is_word in *. change (64 - 1) with 63. change (wrap64 (-1)) with (2 ^ 64 - 1).
  destruct (Z.ltb_spec y (2 ^ 63)), (Z.ltb_spec z (2 ^ 63)); cbn [Z.ltb Z.compare];
    repeat match goal with |- context [?a <? ?b] => destruct (Z.ltb_spec a b) end;
    match goal with |- context [?a ?= ?b] => destruct (Z.compare_spec a b) end; trivial; lia.
Qed.

(** ** Properties *)

(** BDIF, WDIF, TDIF and ODIF subtract the bytes, wydes, tetras or octas of the
    operands independently of each other and replace negative differences by 0. *)
Theorem diffs_saturate (i : sInstrArgs) :
  is_octa (ia_y i) -> is_octa (ia_z i) ->
  exists b w t,
    cpu_instr_bdif i = reg_set (ia_x i) b /\
    (forall k, 0 <= k < 8 -> lane 8 b k = Z.max 0 (lane 8 (ia_y i) k - lane 8 (ia_z i) k)) /\
    cpu_instr_wdif i = reg_set (ia_x i) w /\
    (forall k, 0 <= k < 4 -> lane 16 w k = Z.max 0 (lane 16 (ia_y i) k - lane 16 (ia_z i) k)) /\
    cpu_instr_tdif i = reg_set (ia_x i) t /\
    (forall k, 0 <= k < 2 -> lane 32 t k = Z.max 0 (lane 32 (ia_y i) k - lane 32 (ia_z i) k)) /\
    cpu_instr_odif i = reg_set (ia_x i) (Z.max 0 (ia_y i - ia_z i)).
Proof.
  intros Hy Hz. exists (bdif (ia_y i) (ia_z i)), (wdif (ia_y i) (ia_z i)), (tdif (ia_y i) (ia_z i)).
  rewrite bdif_spec, wdif_spec, tdif_spec by trivial.
  csplit; trivial; try (unfold cpu_instr_bdif, cpu_instr_wdif, cpu_instr_tdif;
    rewrite ?bdif_spec, ?wdif_spec, ?tdif_spec by trivial; reflexivity);
    try (intros k Hk; apply sat_lanes_lane; lia).
  unfold cpu_instr_odif. f_equal. destruct (Z.ltb_spec (ia_y i) (ia_z i)); [lia|].
  rewrite wrap_small; wordlia.
Qed.

Lemma diffs_saturate_witness :
  let i := mk_sInstrArgs 1 0x10FF000000000005 0x20FE000000000003 in
  is_octa (ia_y i) /\ is_octa (ia_z i) /\
  exists b, cpu_instr_bdif i = reg_set 1 b /\ lane 8 b 6 = 1 /\ lane 8 b 7 = 0.
Proof.
  cbv zeta. split; [concrete_word|]. split; [concrete_word|].
  destruct (diffs_saturate (mk_sInstrArgs 1 0x10FF000000000005 0x20FE000000000003))
    as (b & w & t & Eb & Hb & _); [concrete_word|concrete_word|].
  exists b. rewrite !Hb by lia. split; [exact Eb|]. split; reflexivity.
Defined.

(** SADD counts the bits that are set in $Y and not in $Z. *)
Theorem sadd_counts (i : sInstrArgs) :
  is_octa (ia_y i) -> is_octa (ia_z i) ->
  cpu_instr_sadd i = reg_set (ia_x i) (ones 64 (Z.ldiff (ia_y i) (ia_z i))).
Proof.
  intros Hy Hz. unfold cpu_instr_sadd.
  assert (E : ia_y i .& not64 (ia_z i) = Z.ldiff (ia_y i) (ia_z i)).
  { apply Z.bits_inj'. intros k Hk. rewrite Z.land_spec, Z.ldiff_spec.
    destruct (Z.ltb_spec k 64); [rewrite (testbit_wnot 64) by (trivial; lia); reflexivity|].
    rewrite (testbit_high 64 (ia_y i)) by (trivial; lia). reflexivity. }
  rewrite <- E, countBits_spec; [reflexivity|].
  apply land_range; [trivial|]. apply (wnot_range 64), Hz.
Qed.

Lemma sadd_counts_witness :
  cpu_instr_sadd (mk_sInstrArgs 2 0xFFFF00000000000F 0x0F00000000000001) = reg_set 2 15.
Proof.
  rewrite (sadd_counts (mk_sInstrArgs 2 0xFFFF00000000000F 0x0F00000000000001));
    [reflexivity|concrete_word|concrete_word].
Defined.

(** MOR and MXOR multiply 8 by 8 bit matrices: bit [c] of byte [j] of the result is
    the disjunction (the sum modulo 2) of the products of the bits of byte [j] of $Z
    with the bits [c] of the bytes of $Y. *)
Theorem mor_products (i : sInstrArgs) :
  is_octa (ia_y i) -> is_octa (ia_z i) ->
  exists r r', cpu_instr_mor i = reg_set (ia_x i) r /\ cpu_instr_mxor i = reg_set (ia_x i) r' /\
    forall j c, 0 <= j < 8 -> 0 <= c < 8 ->
      let products m := mat (ia_z i) j m && mat (ia_y i) m c in
      mat r j c = bool_sum false 8 0 products false /\ mat r' j c = bool_sum true 8 0 products false.
Proof.
  intros Hy Hz.
  exists (cpu_instr_boolMult (ia_y i) (ia_z i) false), (cpu_instr_boolMult (ia_y i) (ia_z i) true).
  csplit; trivial. intros j c Hj Hc. cbv zeta. unfold cpu_instr_boolMult.
  rewrite !(boolMult_loop_spec _ 8) by (trivial; lia).
  replace (mat 0 j c) with false by (symmetry; apply Z.bits_0).
  split; apply bool_sum_ext; intros m _; rewrite Z.sub_0_r; reflexivity.
Qed.

Lemma mor_products_witness :
  let i := mk_sInstrArgs 1 0x0102040810204080 0x8040201008040201 in
  is_octa (ia_y i) /\ is_octa (ia_z i) /\
  exists r, cpu_instr_mor i = reg_set 1 r /\ mat r 0 7 = true.
Proof.
  cbv zeta. split; [concrete_word|]. split; [concrete_word|].
  destruct (mor_products (mk_sInstrArgs 1 0x0102040810204080 0x8040201008040201))
    as (r & r' & E & _ & H); [concrete_word|concrete_word|].
  exists r. split; [exact E|]. destruct (H 0 7) as [-> _]; [lia|lia|reflexivity].
Defined.

(** CMP and CMPU compare as signed and as unsigned numbers, and the eight conditions
    of branches, conditional sets and zero-or-sets are those on the signed number. *)
Theorem compare_exact (i : sInstrArgs) :
  is_octa (ia_y i) -> is_octa (ia_z i) ->
  let sign c := match c with Lt => 2 ^ 64 - 1 | Eq => 0 | Gt => 1 end in
  let s := socta (ia_y i) in
  cpu_instr_cmp i = reg_set (ia_x i) (sign (s ?= socta (ia_z i))) /\
  cpu_instr_cmpu i = reg_set (ia_x i) (sign (ia_y i ?= ia_z i)) /\
  cond_n (ia_y i) = (s <? 0) /\ cond_nn (ia_y i) = (0 <=? s) /\
  cond_z (ia_y i) = (s =? 0) /\ cond_nz (ia_y i) = negb (s =? 0) /\
  cond_p (ia_y i) = (0 <? s) /\ cond_np (ia_y i) = (s <=? 0) /\
  cond_od (ia_y i) = Z.odd s /\ cond_ev (ia_y i) = Z.even s.
Proof.
  intros Hy Hz. cbv zeta.
  assert (Ho : truth (ia_y i .& 1) = Z.odd (socta (ia_y i))).
  { change 1 with (2 ^ 0) at 1. rewrite truth_pow2, Z.bit0_odd by lia. unfold signed.
    destruct (ia_y i <? _); [reflexivity|]. rewrite Z.odd_sub.
    change (2 ^ 64) with (2 * 2 ^ 63). rewrite Z.odd_mul, xorb_false_r. reflexivity. }
  csplit.
  1: unfold cpu_instr_cmp; rewrite cmp_signed_spec by trivial; reflexivity.
  1: unfold cpu_instr_cmpu; f_equal; change (wrap64 (-1)) with (2 ^ 64 - 1).
  1: destruct (Z.compare_spec (ia_y i) (ia_z i)), (Z.ltb_spec (ia_y i) (ia_z i)),
       (Z.ltb_spec (ia_z i) (ia_y i)); trivial; lia.
  7-8: unfold cond_od, cond_ev; rewrite Ho, <- ?Z.negb_odd; reflexivity.
  all: unfold cond_n, cond_nn, cond_z, cond_nz, cond_p, cond_np; rewrite ?truth_msb by trivial.
  all: unfold signed, is_word in *; change (64 - 1) with 63 in *.
  all: apply eq_true_iff_eq; destruct (Z.ltb_spec (ia_y i) (2 ^ 63)); cbn [negb andb orb];
    rewrite ?negb_true_iff, ?Z.eqb_eq, ?Z.eqb_neq, ?Z.ltb_lt, ?Z.leb_le; lia.
Qed.

