(* ===== verification/InstrMem.v ===== *)
(** * Memory and system instructions (gimmix/src/core/instr/{load,store,system,branch,misc}.c,
    CSWAP of compare.c, LDSF and STSF of float.c) *)

From Stdlib Require Import ZArith Lia Bool.
From stdpp Require Import base list numbers option.
From S2P Require Import Prelude IntArith Ram Machine Registers Devices Bus Tc Cache Mmu.
From S2P Require Import RegStack Float InstrArith.

Implicit Types (i : sInstrArgs).

(** [ZEXT(x,n)] and [SEXT(x,n)] of include/core/cpu.h. *)
Definition ZEXT (x n : Z) : Z := x .& MASK n.
Definition SEXT (x n : Z) : Z :=
  if truth (x .& MSB n) then x .| not64 (MASK n) else x .& MASK n.

(** ** load.c *)

Definition cpu_instr_loadByte (dst addr : Z) (sign : bool) : M unit :=
  b ← mmu_readByte addr MEM_SIDE_EFFECTS;
  reg_set dst (if sign then SEXT b 8 else ZEXT b 8).

Definition cpu_instr_loadWyde (dst addr : Z) (sign : bool) : M unit :=
  w ← mmu_readWyde addr MEM_SIDE_EFFECTS;
  reg_set dst (if sign then SEXT w 16 else ZEXT w 16).

Definition cpu_instr_loadTetra (dst addr : Z) (sign : bool) : M unit :=
  t ← mmu_readTetra addr MEM_SIDE_EFFECTS;
  reg_set dst (if sign then SEXT t 32 else ZEXT t 32).

Definition cpu_instr_loadOcta (dst addr : Z) : M unit :=
  o ← mmu_readOcta addr MEM_SIDE_EFFECTS;
  reg_set dst o.

Definition cpu_instr_loadHighTetra (dst addr : Z) : M unit :=
  t ← mmu_readTetra addr MEM_SIDE_EFFECTS;
  reg_set dst (shl64 t 32).

(** The destination is passed as a [byte]. *)
Definition cpu_instr_ldb i : M unit := cpu_instr_loadByte (wrap8 (ia_x i)) (ia_y i) true.
Definition cpu_instr_ldbu i : M unit := cpu_instr_loadByte (wrap8 (ia_x i)) (ia_y i) false.
Definition cpu_instr_ldw i : M unit := cpu_instr_loadWyde (wrap8 (ia_x i)) (ia_y i) true.
Definition cpu_instr_ldwu i : M unit := cpu_instr_loadWyde (wrap8 (ia_x i)) (ia_y i) false.
Definition cpu_instr_ldt i : M unit := cpu_instr_loadTetra (wrap8 (ia_x i)) (ia_y i) true.
Definition cpu_instr_ldtu i : M unit := cpu_instr_loadTetra (wrap8 (ia_x i)) (ia_y i) false.
Definition cpu_instr_ldo i : M unit := cpu_instr_loadOcta (wrap8 (ia_x i)) (ia_y i).
Definition cpu_instr_ldou i : M unit := cpu_instr_loadOcta (wrap8 (ia_x i)) (ia_y i).
Definition cpu_instr_ldht i : M unit := cpu_instr_loadHighTetra (wrap8 (ia_x i)) (ia_y i).

(** ** store.c *)

(** [((socta)(val << n) >> n) != (socta)val] *)
Definition store_overflows (n val : Z) : bool := negb ((socta (shl64 val n) .>> n) =? socta val).

Definition cpu_instr_storeByte (val addr : Z) (sign : bool) : M unit :=
  when (sign && store_overflows 56 val) (cpu_setArithEx TRIP_INTOVER);;
  mmu_writeByte addr (val .& 0xFF) MEM_SIDE_EFFECTS.

Definition cpu_instr_storeWyde (val addr : Z) (sign : bool) : M unit :=
  when (sign && store_overflows 48 val) (cpu_setArithEx TRIP_INTOVER);;
  mmu_writeWyde addr (val .& 0xFFFF) MEM_SIDE_EFFECTS.

Definition cpu_instr_storeTetra (val addr : Z) (sign : bool) : M unit :=
  when (sign && store_overflows 32 val) (cpu_setArithEx TRIP_INTOVER);;
  mmu_writeTetra addr (val .& 0xFFFFFFFF) MEM_SIDE_EFFECTS.

Definition cpu_instr_stb i : M unit := cpu_instr_storeByte (ia_x i) (ia_y i) true.
Definition cpu_instr_stbu i : M unit := cpu_instr_storeByte (ia_x i) (ia_y i) false.
Definition cpu_instr_stw i : M unit := cpu_instr_storeWyde (ia_x i) (ia_y i) true.
Definition cpu_instr_stwu i : M unit := cpu_instr_storeWyde (ia_x i) (ia_y i) false.
Definition cpu_instr_stt i : M unit := cpu_instr_storeTetra (ia_x i) (ia_y i) true.
Definition cpu_instr_sttu i : M unit := cpu_instr_storeTetra (ia_x i) (ia_y i) false.
Definition cpu_instr_sto i : M unit := mmu_writeOcta (ia_y i) (ia_x i) MEM_SIDE_EFFECTS.
Definition cpu_instr_stou i : M unit := mmu_writeOcta (ia_y i) (ia_x i) MEM_SIDE_EFFECTS.
Definition cpu_instr_stht i : M unit :=
  mmu_writeTetra (ia_y i) (wrap32 (ia_x i .>> 32)) MEM_SIDE_EFFECTS.
Definition cpu_instr_stco i : M unit := mmu_writeOcta (ia_y i) (ia_x i) MEM_SIDE_EFFECTS.

(** ** LDSF and STSF (float.c), CSWAP (compare.c) *)

Definition cpu_instr_ldsf i : M unit :=
  x ← mmu_readTetra (ia_y i) MEM_SIDE_EFFECTS;
  reg_set (ia_x i) (fst (fl_shortToFloat x 0)).

Definition cpu_instr_stsf i : M unit :=
  rm ← fl_getRoundMode;
  let '(tx, exceptions) := fl_floatToShort rm (ia_x i) 0 in
  when (truth exceptions) (cpu_setArithEx exceptions);;
  mmu_writeTetra (ia_y i) tx MEM_SIDE_EFFECTS.

Definition cpu_instr_cswap i : M unit :=
  let addr := ia_y i +o ia_z i in
  mem ← mmu_readOcta addr MEM_SIDE_EFFECTS;
  p ← reg_getSpecial rP;
  if mem =? p then
    val ← reg_get (ia_x i);
    reg_set (ia_x i) 0;;
    reg_set (ia_x i) val;;
    mmu_writeOcta addr val MEM_SIDE_EFFECTS;;
    reg_set (ia_x i) 1
  else
    reg_set (ia_x i) 0;;
    reg_setSpecial rP mem.

(** ** system.c *)

(** The loops of [syncRange] and [loadRange] run at most 67 times: [length] is the
    8-bit X field. *)
Fixpoint range_loop (fuel : nat) (addr end_ step : Z) (f : Z -> M unit) : M unit :=
  match fuel with
  | O => stop OutOfFuel
  | S fuel =>
    if addr <? end_ then f addr;; range_loop fuel (addr +o step) end_ step f else mret tt
  end.

Definition syncRange (addr length : Z) (syncInstr radical : bool) : M unit :=
  let end_ := wrap64 (addr + length + 1) in
  range_loop 68 (addr .& wrap64 (-8)) end_ 8
    (fun a => if syncInstr then mmu_syncidOcta a radical else mmu_syncdOcta a radical).

Definition loadRange (addr length flags : Z) (instr : bool) : M unit :=
  let end_ := wrap64 (addr + length + 1) in
  let step := if instr then 4 else 8 in
  range_loop 68 (addr .& wrap64 (- step)) end_ step
    (fun a => if instr then _ ← mmu_readInstr a flags; mret tt
              else _ ← mmu_readOcta a flags; mret tt).

Definition cpu_instr_ldunc i : M unit :=
  value ← mmu_readOcta (ia_y i) (MEM_SIDE_EFFECTS .| MEM_UNCACHED);
  reg_set (ia_x i) value.

Definition cpu_instr_stunc i : M unit :=
  mmu_writeOcta (ia_y i) (ia_x i) (MEM_SIDE_EFFECTS .| MEM_UNCACHED).

Definition cpu_instr_preld i : M unit :=
  loadRange (ia_z i) (ia_x i) (MEM_SIDE_EFFECTS .| MEM_IGNORE_PROT_EX) false.

Definition cpu_instr_prego i : M unit :=
  loadRange (ia_z i) (ia_x i) (MEM_SIDE_EFFECTS .| MEM_IGNORE_PROT_EX) true.

Definition cpu_instr_prest i : M unit :=
  loadRange (ia_z i) (ia_x i)
    (MEM_SIDE_EFFECTS .| MEM_IGNORE_PROT_EX .| MEM_UNINITIALIZED) false.

Definition cpu_instr_syncd i : M unit :=
  p ← cpu_isPriv; syncRange (ia_z i) (ia_x i) false p.

Definition cpu_instr_syncid i : M unit :=
  p ← cpu_isPriv; syncRange (ia_z i) (ia_x i) true p.

Abbreviation INSTRS_PER_TICK := 10000.

(** [SYNC 4] sleeps for the rest of the tick, which has no effect on the state. *)
Definition cpu_instr_sync i : M unit :=
  p ← cpu_isPriv;
  when (negb p && (3 <? ia_y i)) (ex_throw EX_DYNAMIC_TRAP TRAP_PRIVILEGED_INSTR);;
  if ia_y i <=? 3 then mret tt
  else if ia_y i =? 4 then
    count ← cpu_getInstrsSinceTick;
    let missing := INSTRS_PER_TICK - count in
    cpu_setInstrsSinceTick (INSTRS_PER_TICK - 1);;
    c ← reg_getSpecial rC;
    reg_setSpecial rC (c +o missing)
  else if ia_y i =? 7 then
    cache_removeAll CACHE_INSTR;; cache_removeAll CACHE_DATA
  else if ia_y i =? 5 then
    cache_flushAll CACHE_INSTR;; cache_flushAll CACHE_DATA
  else if ia_y i =? 6 then
    tc_removeAll TC_INSTR;; tc_removeAll TC_DATA
  else ex_throw EX_DYNAMIC_TRAP TRAP_BREAKS_RULES.

(** ** branch.c *)

Definition jumpTo (addr : Z) : M unit :=
  ok ← cpu_isPCOk addr;
  when (negb ok) (ex_throw EX_DYNAMIC_TRAP TRAP_PRIVILEGED_PC);;
  cpu_setPC (addr -o 4).

Definition cpu_instr_jmp i : M unit := jumpTo (ia_z i).

Definition cpu_instr_go i : M unit :=
  let npc := ia_y i +o ia_z i in
  ok ← cpu_isPCOk npc;
  when (negb ok) (ex_throw EX_DYNAMIC_TRAP TRAP_PRIVILEGED_PC);;
  pc ← cpu_getPC;
  reg_set (ia_x i) (pc +o 4);;
  cpu_setPC (npc -o 4).

Definition cpu_instr_bn i : M unit := when (cond_n (ia_x i)) (jumpTo (ia_z i)).
Definition cpu_instr_bz i : M unit := when (cond_z (ia_x i)) (jumpTo (ia_z i)).
Definition cpu_instr_bp i : M unit := when (cond_p (ia_x i)) (jumpTo (ia_z i)).
Definition cpu_instr_bod i : M unit := when (cond_od (ia_x i)) (jumpTo (ia_z i)).
Definition cpu_instr_bnn i : M unit := when (cond_nn (ia_x i)) (jumpTo (ia_z i)).
Definition cpu_instr_bnz i : M unit := when (cond_nz (ia_x i)) (jumpTo (ia_z i)).
Definition cpu_instr_bnp i : M unit := when (cond_np (ia_x i)) (jumpTo (ia_z i)).
Definition cpu_instr_bev i : M unit := when (cond_ev (ia_x i)) (jumpTo (ia_z i)).

(** ** misc.c *)

Definition cpu_instr_swym i : M unit := mret tt.

(** The body of the loop of LDVTS over the two translation caches. *)
Definition ldvts_step (tc : side) (key prot bit res : Z) : M Z :=
  tce ← tc_getByKey tc key;
  match tce with
  | None => mret res
  | Some e =>
    (if truth prot then
       on_tc tc (fun t => set_tc_entries (upd (tc_entries t) e
         (mk_sTCEntry (tce_key (tc_entries t e))
                      ((tce_translation (tc_entries t e) .& not64 7) .| prot))) t)
     else tc_remove tc e);;
    mret (res .| bit)
  end.

Definition cpu_instr_ldvts i : M unit :=
  let key := ia_y i +o ia_z i in
  let prot := key .& 7 in
  let key := key .& not64 7 in
  res ← ldvts_step TC_INSTR key prot 1 0;
  res ← ldvts_step TC_DATA key prot 2 res;
  reg_set (ia_x i) res.

Definition cpu_instr_geta i : M unit := reg_set (ia_x i) (ia_y i).

Definition cpu_instr_push i : M unit :=
  ok ← cpu_isPCOk (ia_z i);
  when (negb ok) (ex_throw EX_DYNAMIC_TRAP TRAP_PRIVILEGED_PC);;
  reg_push (ia_x i);;
  pc ← cpu_getPC;
  reg_setSpecial rJ (pc +o 4);;
  cpu_setPC (ia_z i -o 4).

Definition cpu_instr_pop i : M unit :=
  ok ← cpu_isPCOk (ia_z i);
  when (negb ok) (ex_throw EX_DYNAMIC_TRAP TRAP_PRIVILEGED_PC);;
  reg_pop (ia_x i);;
  cpu_setPC (ia_z i -o 4).

Definition cpu_instr_save i : M unit :=
  g ← reg_getSpecial rG;
  when (ia_x i <? g) (ex_throw EX_DYNAMIC_TRAP TRAP_BREAKS_RULES);;
  when (1 <? ia_z i) (ex_throw EX_DYNAMIC_TRAP TRAP_BREAKS_RULES);;
  reg_save (ia_x i) (ia_z i =? 1).

Definition cpu_instr_unsave i : M unit :=
  when (1 <? ia_x i) (ex_throw EX_DYNAMIC_TRAP TRAP_BREAKS_RULES);;
  reg_unsave (ia_y i) (ia_x i =? 1).

Definition cpu_instr_get i : M unit :=
  when (SPECIAL_NUM <=? ia_z i) (ex_throw EX_DYNAMIC_TRAP TRAP_BREAKS_RULES);;
  when ((ia_z i =? rL) || (ia_z i =? rS)) (reg_set (ia_x i) 0);;
  value ← reg_getSpecial (ia_z i);
  reg_set (ia_x i) value;;
  when (ia_z i =? rQ) (on_cpu (set_c_lastrQ value)).

(** The checks of PUT, before anything is changed. *)
Definition put_checks i : M unit :=
  when (SPECIAL_NUM <=? ia_x i) (ex_throw EX_DYNAMIC_TRAP TRAP_BREAKS_RULES);;
  when (rC <=? ia_x i)
    (when (ia_x i <=? rS) (ex_throw EX_DYNAMIC_TRAP TRAP_BREAKS_RULES);;
     p ← cpu_isPriv;
     when (((ia_x i <=? rV) || (ia_x i =? rSS)) && negb p)
       (ex_throw EX_DYNAMIC_TRAP TRAP_PRIVILEGED_INSTR));;
  when ((ia_x i =? rA) && truth (ia_z i .& not64 0x3FFFF))
    (ex_throw EX_DYNAMIC_TRAP TRAP_BREAKS_RULES);;
  l ← reg_getSpecial rL;
  when ((ia_x i =? rG) && ((256 <=? ia_z i) || (ia_z i <? 256 - 224) || (ia_z i <? l)
                           || (ia_z i <? MIN_GLOBAL)))
    (ex_throw EX_DYNAMIC_TRAP TRAP_BREAKS_RULES);;
  when ((ia_x i =? rSS) && negb (truth (ia_z i .& MSB 64)))
    (ex_throw EX_DYNAMIC_TRAP TRAP_BREAKS_RULES).

Definition cpu_instr_put i : M unit :=
  put_checks i;;
  q ← reg_getSpecial rQ;
  lastrQ ← gets (fun m => c_lastrQ (m_cpu m));
  bits ← bus_getIntrptBits;
  let newBits := q .& not64 lastrQ in
  let value := if ia_x i =? rQ then ia_z i .| newBits else ia_z i in
  when ((ia_x i =? rQ) && truth (value .& not64 (bits .| TRAP_EX_BITS)))
    (ex_throw EX_DYNAMIC_TRAP TRAP_BREAKS_RULES);;
  l ← reg_getSpecial rL;
  let value := if ia_x i =? rL then Z.min l value else value in
  reg_setSpecial (ia_x i) value.
