(* ===== verification/Decoder.v ===== *)
(** * The instruction decoder (gimmix/src/core/decoder.c) *)

From Stdlib Require Import ZArith Lia Bool.
From stdpp Require Import base list numbers option.
From S2P Require Import Prelude IntArith Ram Machine Registers Devices Bus Tc Cache Mmu.
From S2P Require Import RegStack Float InstrArith InstrMem.

(** ** The code *)

(** The fields of an instruction (include/core/decoder.h). *)
Definition OPCODE (x : Z) : Z := (x .>> 24) .& MASK 8.
Definition DST (x : Z) : Z := (x .>> 16) .& MASK 8.
Definition SRC1 (x : Z) : Z := (x .>> 8) .& MASK 8.
Definition SRC2 (x : Z) : Z := (x .>> 0) .& MASK 8.
Definition LIT16 (x : Z) : Z := (x .>> 0) .& MASK 16.
Definition LIT24 (x : Z) : Z := (x .>> 0) .& MASK 24.

Inductive format :=
| I_I8I8I8 | I_RRR | I_RRI8 | I_RI8R | I_RI8I8 | I_I8RR | I_I8RI8 | I_RI16 | I_I8I16 | I_RF16
| I_RB16 | I_F24 | I_B24 | I_R0S8 | I_S80R | I_S80I8 | I_R0I8 | I_00I8 | I_I80R | I_I24.

#[export] Instance format_eq_dec : EqDecision format.
Proof. solve_decision. Defined.

Inductive args :=
| A_DSS | A_DS | A_S | A_A | A_CT | A_DA | A_SA | A_MA | A_III | A_LA | A_SAVE | A_UNSAVE.

#[export] Instance args_eq_dec : EqDecision args.
Proof. solve_decision. Defined.

(** The functions [cpu_instr_*] that the table points to. *)
Inductive fInstr :=
| F_trap | F_fcmp | F_fun | F_feql | F_fadd | F_fix | F_fsub | F_fixu | F_flot | F_flotu
| F_sflot | F_sflotu | F_fmul | F_fcmpe | F_fune | F_feqle | F_fdiv | F_fsqrt | F_frem
| F_fint | F_mul | F_mulu | F_div | F_divu | F_add | F_addu | F_sub | F_subu | F_2addu
| F_4addu | F_8addu | F_16addu | F_cmp | F_cmpu | F_neg | F_negu | F_sl | F_slu | F_sr
| F_sru | F_bn | F_bz | F_bp | F_bod | F_bnn | F_bnz | F_bnp | F_bev | F_csn | F_csz
| F_csp | F_csod | F_csnn | F_csnz | F_csnp | F_csev | F_zsn | F_zsz | F_zsp | F_zsod
| F_zsnn | F_zsnz | F_zsnp | F_zsev | F_ldb | F_ldbu | F_ldw | F_ldwu | F_ldt | F_ldtu
| F_ldo | F_ldou | F_ldsf | F_ldht | F_cswap | F_ldunc | F_ldvts | F_preld | F_prego | F_go
| F_stb | F_stbu | F_stw | F_stwu | F_stt | F_sttu | F_sto | F_stou | F_stsf | F_stht
| F_stco | F_stunc | F_syncd | F_prest | F_syncid | F_push | F_or | F_orn | F_nor | F_xor
| F_and | F_andn | F_nand | F_nxor | F_bdif | F_wdif | F_tdif | F_odif | F_mux | F_sadd
| F_mor | F_mxor | F_seth | F_setmh | F_setml | F_setl | F_inch | F_incmh | F_incml
| F_incl | F_orh | F_ormh | F_orml | F_orl | F_andnh | F_andnmh | F_andnml | F_andnl
| F_jmp | F_geta | F_put | F_pop | F_resume | F_save | F_unsave | F_sync | F_swym | F_get
| F_trip.

Record sInstr := mk_sInstr { in_execute : fInstr; in_format : format; in_args : args }.

(** The table, in the order of the opcodes. *)
Definition instructions : list sInstr :=
  let i := mk_sInstr in
  [
   (* 00 *) i F_trap I_I8I8I8 A_III; (* 01 *) i F_fcmp I_RRR A_DSS;
   (* 02 *) i F_fun I_RRR A_DSS; (* 03 *) i F_feql I_RRR A_DSS;
   (* 04 *) i F_fadd I_RRR A_DSS; (* 05 *) i F_fix I_RI8R A_DS;
   (* 06 *) i F_fsub I_RRR A_DSS; (* 07 *) i F_fixu I_RI8R A_DS;
   (* 08 *) i F_flot I_RI8R A_DS; (* 09 *) i F_flot I_RI8I8 A_DS;
   (* 0A *) i F_flotu I_RI8R A_DS; (* 0B *) i F_flotu I_RI8I8 A_DS;
   (* 0C *) i F_sflot I_RI8R A_DS; (* 0D *) i F_sflot I_RI8I8 A_DS;
   (* 0E *) i F_sflotu I_RI8R A_DS; (* 0F *) i F_sflotu I_RI8I8 A_DS;
   (* 10 *) i F_fmul I_RRR A_DSS; (* 11 *) i F_fcmpe I_RRR A_DSS;
   (* 12 *) i F_fune I_RRR A_DSS; (* 13 *) i F_feqle I_RRR A_DSS;
   (* 14 *) i F_fdiv I_RRR A_DSS; (* 15 *) i F_fsqrt I_RI8R A_DS;
   (* 16 *) i F_frem I_RRR A_DSS; (* 17 *) i F_fint I_RI8R A_DS;
   (* 18 *) i F_mul I_RRR A_DSS; (* 19 *) i F_mul I_RRI8 A_DSS;
   (* 1A *) i F_mulu I_RRR A_DSS; (* 1B *) i F_mulu I_RRI8 A_DSS;
   (* 1C *) i F_div I_RRR A_DSS; (* 1D *) i F_div I_RRI8 A_DSS;
   (* 1E *) i F_divu I_RRR A_DSS; (* 1F *) i F_divu I_RRI8 A_DSS;
   (* 20 *) i F_add I_RRR A_DSS; (* 21 *) i F_add I_RRI8 A_DSS;
   (* 22 *) i F_addu I_RRR A_DSS; (* 23 *) i F_addu I_RRI8 A_DSS;
   (* 24 *) i F_sub I_RRR A_DSS; (* 25 *) i F_sub I_RRI8 A_DSS;
   (* 26 *) i F_subu I_RRR A_DSS; (* 27 *) i F_subu I_RRI8 A_DSS;
   (* 28 *) i F_2addu I_RRR A_DSS; (* 29 *) i F_2addu I_RRI8 A_DSS;
   (* 2A *) i F_4addu I_RRR A_DSS; (* 2B *) i F_4addu I_RRI8 A_DSS;
   (* 2C *) i F_8addu I_RRR A_DSS; (* 2D *) i F_8addu I_RRI8 A_DSS;
   (* 2E *) i F_16addu I_RRR A_DSS; (* 2F *) i F_16addu I_RRI8 A_DSS;
   (* 30 *) i F_cmp I_RRR A_DSS; (* 31 *) i F_cmp I_RRI8 A_DSS;
   (* 32 *) i F_cmpu I_RRR A_DSS; (* 33 *) i F_cmpu I_RRI8 A_DSS;
   (* 34 *) i F_neg I_RI8R A_DSS; (* 35 *) i F_neg I_RI8I8 A_DSS;
   (* 36 *) i F_negu I_RI8R A_DSS; (* 37 *) i F_negu I_RI8I8 A_DSS;
   (* 38 *) i F_sl I_RRR A_DSS; (* 39 *) i F_sl I_RRI8 A_DSS;
   (* 3A *) i F_slu I_RRR A_DSS; (* 3B *) i F_slu I_RRI8 A_DSS;
   (* 3C *) i F_sr I_RRR A_DSS; (* 3D *) i F_sr I_RRI8 A_DSS;
   (* 3E *) i F_sru I_RRR A_DSS; (* 3F *) i F_sru I_RRI8 A_DSS;
   (* 40 *) i F_bn I_RF16 A_CT; (* 41 *) i F_bn I_RB16 A_CT;
   (* 42 *) i F_bz I_RF16 A_CT; (* 43 *) i F_bz I_RB16 A_CT;
   (* 44 *) i F_bp I_RF16 A_CT; (* 45 *) i F_bp I_RB16 A_CT;
   (* 46 *) i F_bod I_RF16 A_CT; (* 47 *) i F_bod I_RB16 A_CT;
   (* 48 *) i F_bnn I_RF16 A_CT; (* 49 *) i F_bnn I_RB16 A_CT;
   (* 4A *) i F_bnz I_RF16 A_CT; (* 4B *) i F_bnz I_RB16 A_CT;
   (* 4C *) i F_bnp I_RF16 A_CT; (* 4D *) i F_bnp I_RB16 A_CT;
   (* 4E *) i F_bev I_RF16 A_CT; (* 4F *) i F_bev I_RB16 A_CT;
   (* 50 *) i F_bn I_RF16 A_CT; (* 51 *) i F_bn I_RB16 A_CT;
   (* 52 *) i F_bz I_RF16 A_CT; (* 53 *) i F_bz I_RB16 A_CT;
   (* 54 *) i F_bp I_RF16 A_CT; (* 55 *) i F_bp I_RB16 A_CT;
   (* 56 *) i F_bod I_RF16 A_CT; (* 57 *) i F_bod I_RB16 A_CT;
   (* 58 *) i F_bnn I_RF16 A_CT; (* 59 *) i F_bnn I_RB16 A_CT;
   (* 5A *) i F_bnz I_RF16 A_CT; (* 5B *) i F_bnz I_RB16 A_CT;
   (* 5C *) i F_bnp I_RF16 A_CT; (* 5D *) i F_bnp I_RB16 A_CT;
   (* 5E *) i F_bev I_RF16 A_CT; (* 5F *) i F_bev I_RB16 A_CT;
   (* 60 *) i F_csn I_RRR A_DSS; (* 61 *) i F_csn I_RRI8 A_DSS;
   (* 62 *) i F_csz I_RRR A_DSS; (* 63 *) i F_csz I_RRI8 A_DSS;
   (* 64 *) i F_csp I_RRR A_DSS; (* 65 *) i F_csp I_RRI8 A_DSS;
   (* 66 *) i F_csod I_RRR A_DSS; (* 67 *) i F_csod I_RRI8 A_DSS;
   (* 68 *) i F_csnn I_RRR A_DSS; (* 69 *) i F_csnn I_RRI8 A_DSS;
   (* 6A *) i F_csnz I_RRR A_DSS; (* 6B *) i F_csnz I_RRI8 A_DSS;
   (* 6C *) i F_csnp I_RRR A_DSS; (* 6D *) i F_csnp I_RRI8 A_DSS;
   (* 6E *) i F_csev I_RRR A_DSS; (* 6F *) i F_csev I_RRI8 A_DSS;
   (* 70 *) i F_zsn I_RRR A_DSS; (* 71 *) i F_zsn I_RRI8 A_DSS;
   (* 72 *) i F_zsz I_RRR A_DSS; (* 73 *) i F_zsz I_RRI8 A_DSS;
   (* 74 *) i F_zsp I_RRR A_DSS; (* 75 *) i F_zsp I_RRI8 A_DSS;
   (* 76 *) i F_zsod I_RRR A_DSS; (* 77 *) i F_zsod I_RRI8 A_DSS;
   (* 78 *) i F_zsnn I_RRR A_DSS; (* 79 *) i F_zsnn I_RRI8 A_DSS;
   (* 7A *) i F_zsnz I_RRR A_DSS; (* 7B *) i F_zsnz I_RRI8 A_DSS;
   (* 7C *) i F_zsnp I_RRR A_DSS; (* 7D *) i F_zsnp I_RRI8 A_DSS;
   (* 7E *) i F_zsev I_RRR A_DSS; (* 7F *) i F_zsev I_RRI8 A_DSS;
   (* 80 *) i F_ldb I_RRR A_DA; (* 81 *) i F_ldb I_RRI8 A_DA;
   (* 82 *) i F_ldbu I_RRR A_DA; (* 83 *) i F_ldbu I_RRI8 A_DA;
   (* 84 *) i F_ldw I_RRR A_DA; (* 85 *) i F_ldw I_RRI8 A_DA;
   (* 86 *) i F_ldwu I_RRR A_DA; (* 87 *) i F_ldwu I_RRI8 A_DA;
   (* 88 *) i F_ldt I_RRR A_DA; (* 89 *) i F_ldt I_RRI8 A_DA;
   (* 8A *) i F_ldtu I_RRR A_DA; (* 8B *) i F_ldtu I_RRI8 A_DA;
   (* 8C *) i F_ldo I_RRR A_DA; (* 8D *) i F_ldo I_RRI8 A_DA;
   (* 8E *) i F_ldou I_RRR A_DA; (* 8F *) i F_ldou I_RRI8 A_DA;
   (* 90 *) i F_ldsf I_RRR A_DA; (* 91 *) i F_ldsf I_RRI8 A_DA;
   (* 92 *) i F_ldht I_RRR A_DA; (* 93 *) i F_ldht I_RRI8 A_DA;
   (* 94 *) i F_cswap I_RRR A_DSS; (* 95 *) i F_cswap I_RRI8 A_DSS;
   (* 96 *) i F_ldunc I_RRR A_DA; (* 97 *) i F_ldunc I_RRI8 A_DA;
   (* 98 *) i F_ldvts I_RRR A_DSS; (* 99 *) i F_ldvts I_RRI8 A_DSS;
   (* 9A *) i F_preld I_I8RR A_LA; (* 9B *) i F_preld I_I8RI8 A_LA;
   (* 9C *) i F_prego I_I8RR A_LA; (* 9D *) i F_prego I_I8RI8 A_LA;
   (* 9E *) i F_go I_RRR A_DSS; (* 9F *) i F_go I_RRI8 A_DSS;
   (* A0 *) i F_stb I_RRR A_SA; (* A1 *) i F_stb I_RRI8 A_SA;
   (* A2 *) i F_stbu I_RRR A_SA; (* A3 *) i F_stbu I_RRI8 A_SA;
   (* A4 *) i F_stw I_RRR A_SA; (* A5 *) i F_stw I_RRI8 A_SA;
   (* A6 *) i F_stwu I_RRR A_SA; (* A7 *) i F_stwu I_RRI8 A_SA;
   (* A8 *) i F_stt I_RRR A_SA; (* A9 *) i F_stt I_RRI8 A_SA;
   (* AA *) i F_sttu I_RRR A_SA; (* AB *) i F_sttu I_RRI8 A_SA;
   (* AC *) i F_sto I_RRR A_SA; (* AD *) i F_sto I_RRI8 A_SA;
   (* AE *) i F_stou I_RRR A_SA; (* AF *) i F_stou I_RRI8 A_SA;
   (* B0 *) i F_stsf I_RRR A_SA; (* B1 *) i F_stsf I_RRI8 A_SA;
   (* B2 *) i F_stht I_RRR A_SA; (* B3 *) i F_stht I_RRI8 A_SA;
   (* B4 *) i F_stco I_I8RR A_SA; (* B5 *) i F_stco I_I8RI8 A_SA;
   (* B6 *) i F_stunc I_RRR A_SA; (* B7 *) i F_stunc I_RRI8 A_SA;
   (* B8 *) i F_syncd I_I8RR A_LA; (* B9 *) i F_syncd I_I8RI8 A_LA;
   (* BA *) i F_prest I_I8RR A_LA; (* BB *) i F_prest I_I8RI8 A_LA;
   (* BC *) i F_syncid I_I8RR A_LA; (* BD *) i F_syncid I_I8RI8 A_LA;
   (* BE *) i F_push I_RRR A_MA; (* BF *) i F_push I_RRI8 A_MA;
   (* C0 *) i F_or I_RRR A_DSS; (* C1 *) i F_or I_RRI8 A_DSS;
   (* C2 *) i F_orn I_RRR A_DSS; (* C3 *) i F_orn I_RRI8 A_DSS;
   (* C4 *) i F_nor I_RRR A_DSS; (* C5 *) i F_nor I_RRI8 A_DSS;
   (* C6 *) i F_xor I_RRR A_DSS; (* C7 *) i F_xor I_RRI8 A_DSS;
   (* C8 *) i F_and I_RRR A_DSS; (* C9 *) i F_and I_RRI8 A_DSS;
   (* CA *) i F_andn I_RRR A_DSS; (* CB *) i F_andn I_RRI8 A_DSS;
   (* CC *) i F_nand I_RRR A_DSS; (* CD *) i F_nand I_RRI8 A_DSS;
   (* CE *) i F_nxor I_RRR A_DSS; (* CF *) i F_nxor I_RRI8 A_DSS;
   (* D0 *) i F_bdif I_RRR A_DSS; (* D1 *) i F_bdif I_RRI8 A_DSS;
   (* D2 *) i F_wdif I_RRR A_DSS; (* D3 *) i F_wdif I_RRI8 A_DSS;
   (* D4 *) i F_tdif I_RRR A_DSS; (* D5 *) i F_tdif I_RRI8 A_DSS;
   (* D6 *) i F_odif I_RRR A_DSS; (* D7 *) i F_odif I_RRI8 A_DSS;
   (* D8 *) i F_mux I_RRR A_DSS; (* D9 *) i F_mux I_RRI8 A_DSS;
   (* DA *) i F_sadd I_RRR A_DSS; (* DB *) i F_sadd I_RRI8 A_DSS;
   (* DC *) i F_mor I_RRR A_DSS; (* DD *) i F_mor I_RRI8 A_DSS;
   (* DE *) i F_mxor I_RRR A_DSS; (* DF *) i F_mxor I_RRI8 A_DSS;
   (* E0 *) i F_seth I_RI16 A_DS; (* E1 *) i F_setmh I_RI16 A_DS;
   (* E2 *) i F_setml I_RI16 A_DS; (* E3 *) i F_setl I_RI16 A_DS;
   (* E4 *) i F_inch I_RI16 A_DS; (* E5 *) i F_incmh I_RI16 A_DS;
   (* E6 *) i F_incml I_RI16 A_DS; (* E7 *) i F_incl I_RI16 A_DS;
   (* E8 *) i F_orh I_RI16 A_DS; (* E9 *) i F_ormh I_RI16 A_DS;
   (* EA *) i F_orml I_RI16 A_DS; (* EB *) i F_orl I_RI16 A_DS;
   (* EC *) i F_andnh I_RI16 A_DS; (* ED *) i F_andnmh I_RI16 A_DS;
   (* EE *) i F_andnml I_RI16 A_DS; (* EF *) i F_andnl I_RI16 A_DS;
   (* F0 *) i F_jmp I_F24 A_A; (* F1 *) i F_jmp I_B24 A_A;
   (* F2 *) i F_push I_RF16 A_MA; (* F3 *) i F_push I_RB16 A_MA;
   (* F4 *) i F_geta I_RF16 A_DA; (* F5 *) i F_geta I_RB16 A_DA;
   (* F6 *) i F_put I_S80R A_DS; (* F7 *) i F_put I_S80I8 A_DS;
   (* F8 *) i F_pop I_I8I16 A_MA; (* F9 *) i F_resume I_00I8 A_S;
   (* FA *) i F_save I_R0I8 A_SAVE; (* FB *) i F_unsave I_I80R A_UNSAVE;
   (* FC *) i F_sync I_I24 A_S; (* FD *) i F_swym I_I8I8I8 A_III;
   (* FE *) i F_get I_R0S8 A_DS; (* FF *) i F_trip I_I8I8I8 A_III
  ].

Definition dec_getInstr (no : Z) : sInstr :=
  nth (Z.to_nat no) instructions (mk_sInstr F_trap I_I8I8I8 A_III).

(** [x], [y] and [z] of the operands; the others stay 0. *)
Definition mk_x (x : Z) : sInstrArgs := mk_sInstrArgs x 0 0.

Definition fmt_in (fmt : format) (l : list format) : bool := bool_decide (fmt ∈ l).

Definition fwd (lit pc : Z) : Z := wrap64 (pc + lit * 4).
Definition bwd (lit span pc : Z) : Z := wrap64 (pc + (lit - span) * 4).

Definition dec_toDSS (t : Z) (fmt : format) : M sInstrArgs :=
  assert (fmt_in fmt [I_RI8I8; I_RI8R; I_RRR; I_RRI8]);;
  y ← (if fmt_in fmt [I_RI8I8; I_RI8R] then mret (ZEXT (SRC1 t) 8) else reg_get (SRC1 t));
  z ← (if fmt_in fmt [I_RRI8; I_RI8I8] then mret (ZEXT (SRC2 t) 8) else reg_get (SRC2 t));
  mret (mk_sInstrArgs (DST t) y z).

(** Throws after [iargs->x] has been assigned through the pointer [out]. *)
Definition dec_toDS (out : sInstrArgs -> M unit) (t : Z) (fmt : format) : M sInstrArgs :=
  assert (fmt_in fmt [I_RI16; I_RI8R; I_RI8I8; I_R0S8; I_S80I8; I_S80R]);;
  out (mk_x (DST t));;
  when (fmt_in fmt [I_R0S8; I_S80I8; I_S80R] && negb (SRC1 t =? 0))
    (ex_throw EX_DYNAMIC_TRAP TRAP_BREAKS_RULES);;
  match fmt with
  | I_RI16 => mret (mk_sInstrArgs (DST t) 0 (ZEXT (LIT16 t) 16))
  | I_RI8R => z ← reg_get (SRC2 t); mret (mk_sInstrArgs (DST t) (ZEXT (SRC1 t) 8) z)
  | I_RI8I8 => mret (mk_sInstrArgs (DST t) (ZEXT (SRC1 t) 8) (ZEXT (SRC2 t) 8))
  | I_S80I8 | I_R0S8 => mret (mk_sInstrArgs (DST t) 0 (ZEXT (SRC2 t) 8))
  | I_S80R => z ← reg_get (SRC2 t); mret (mk_sInstrArgs (DST t) 0 z)
  | _ => mret (mk_x (DST t))
  end.

(** The assertion of this function tests the constants [I_RF16] and [I_RB16], which
    are not zero: it always holds. *)
Definition dec_toDA (t : Z) (fmt : format) : M sInstrArgs :=
  y1 ← reg_get (SRC1 t);
  y2 ← reg_get (SRC2 t);
  pc ← cpu_getPC;
  let y := if bool_decide (fmt = I_RRR) then y1 +o y2
           else if bool_decide (fmt = I_RRI8) then y1 +o ZEXT (SRC2 t) 8
           else if bool_decide (fmt = I_RF16) then fwd (LIT16 t) pc
           else bwd (LIT16 t) 0x10000 pc in
  mret (mk_sInstrArgs (DST t) y 0).

Definition dec_toSA (t : Z) (fmt : format) : M sInstrArgs :=
  assert (fmt_in fmt [I_RRR; I_RRI8; I_I8RR; I_I8RI8]);;
  x ← (if fmt_in fmt [I_RRR; I_RRI8] then reg_get (DST t) else mret (ZEXT (DST t) 8));
  y1 ← reg_get (SRC1 t);
  y2 ← (if fmt_in fmt [I_RRR; I_I8RR] then reg_get (SRC2 t) else mret (ZEXT (SRC2 t) 8));
  mret (mk_sInstrArgs x (y1 +o y2) 0).

Definition dec_toCT (t : Z) (fmt : format) : M sInstrArgs :=
  assert (fmt_in fmt [I_RF16; I_RB16]);;
  x ← reg_get (DST t);
  pc ← cpu_getPC;
  mret (mk_sInstrArgs x 0 (if bool_decide (fmt = I_RF16) then fwd (LIT16 t) pc
                           else bwd (LIT16 t) 0x10000 pc)).

Definition dec_toA (t : Z) (fmt : format) : M sInstrArgs :=
  assert (fmt_in fmt [I_F24; I_B24]);;
  pc ← cpu_getPC;
  mret (mk_sInstrArgs 0 0 (if bool_decide (fmt = I_F24) then fwd (LIT24 t) pc
                           else bwd (LIT24 t) 0x1000000 pc)).

Definition dec_toIII (t : Z) (fmt : format) : M sInstrArgs :=
  assert (bool_decide (fmt = I_I8I8I8));;
  mret (mk_sInstrArgs (DST t) (SRC1 t) (SRC2 t)).

Definition dec_toLA (t : Z) (fmt : format) : M sInstrArgs :=
  assert (fmt_in fmt [I_I8RI8; I_I8RR]);;
  z1 ← reg_get (SRC1 t);
  z2 ← (if bool_decide (fmt = I_I8RI8) then mret (ZEXT (SRC2 t) 8) else reg_get (SRC2 t));
  mret (mk_sInstrArgs (DST t) 0 (z1 +o z2)).

Definition dec_toMA (t : Z) (fmt : format) : M sInstrArgs :=
  assert (fmt_in fmt [I_RRR; I_RRI8; I_RF16; I_RB16; I_I8I16]);;
  z1 ← reg_get (SRC1 t);
  z2 ← reg_get (SRC2 t);
  pc ← cpu_getPC;
  j ← reg_getSpecial rJ;
  let z := match fmt with
           | I_RRI8 => z1 +o ZEXT (SRC2 t) 8
           | I_RRR => z1 +o z2
           | I_RF16 => fwd (LIT16 t) pc
           | I_RB16 => bwd (LIT16 t) 0x10000 pc
           | I_I8I16 => wrap64 (LIT16 t * 4 + j)
           | _ => 0
           end in
  mret (mk_sInstrArgs (DST t) 0 z).

Definition dec_toSave (t : Z) (fmt : format) : M sInstrArgs :=
  assert (bool_decide (fmt = I_R0I8));;
  when (negb (SRC1 t =? 0)) (ex_throw EX_DYNAMIC_TRAP TRAP_BREAKS_RULES);;
  mret (mk_sInstrArgs (DST t) 0 (ZEXT (SRC2 t) 8)).

Definition dec_toUnsave (t : Z) (fmt : format) : M sInstrArgs :=
  assert (bool_decide (fmt = I_I80R));;
  when (negb (SRC1 t =? 0)) (ex_throw EX_DYNAMIC_TRAP TRAP_BREAKS_RULES);;
  y ← reg_get (SRC2 t);
  mret (mk_sInstrArgs (ZEXT (DST t) 8) y 0).

Definition dec_toS (t : Z) (fmt : format) : M sInstrArgs :=
  assert (fmt_in fmt [I_00I8; I_I24]);;
  when (bool_decide (fmt = I_00I8) && (truth (DST t) || truth (SRC1 t)))
    (ex_throw EX_DYNAMIC_TRAP TRAP_BREAKS_RULES);;
  mret (mk_sInstrArgs 0 (if bool_decide (fmt = I_00I8) then SRC2 t else LIT24 t) 0).

Definition decoder (a : args) (out : sInstrArgs -> M unit) : Z -> format -> M sInstrArgs :=
  match a with
  | A_DSS => dec_toDSS | A_DS => dec_toDS out | A_S => dec_toS | A_A => dec_toA
  | A_CT => dec_toCT | A_DA => dec_toDA | A_SA => dec_toSA | A_MA => dec_toMA
  | A_III => dec_toIII | A_LA => dec_toLA | A_SAVE => dec_toSave | A_UNSAVE => dec_toUnsave
  end.

(** [dec_decode(t,iargs)]: the operands are assigned through [out], and returned. *)
Definition dec_decode (out : sInstrArgs -> M unit) (t : Z) : M sInstrArgs :=
  let desc := dec_getInstr (OPCODE t) in
  out (mk_x 0);;
  a ← decoder (in_args desc) out t (in_format desc);
  out a;;
  mret a.

(** A local variable as the destination. *)
Definition to_local : sInstrArgs -> M unit := fun _ => mret tt.

(** ** The decoder is total *)

(** The argument kinds and formats that the assertions of the decoding functions admit. *)
Definition compatible (a : args) (fmt : format) : bool :=
  match a with
  | A_DSS => fmt_in fmt [I_RI8I8; I_RI8R; I_RRR; I_RRI8]
  | A_DS => fmt_in fmt [I_RI16; I_RI8R; I_RI8I8; I_R0S8; I_S80I8; I_S80R]
  | A_DA => fmt_in fmt [I_RRR; I_RRI8; I_RF16; I_RB16]
  | A_SA => fmt_in fmt [I_RRR; I_RRI8; I_I8RR; I_I8RI8]
  | A_CT => fmt_in fmt [I_RF16; I_RB16]
  | A_A => fmt_in fmt [I_F24; I_B24]
  | A_III => fmt_in fmt [I_I8I8I8]
  | A_LA => fmt_in fmt [I_I8RI8; I_I8RR]
  | A_MA => fmt_in fmt [I_RRR; I_RRI8; I_RF16; I_RB16; I_I8I16]
  | A_SAVE => fmt_in fmt [I_R0I8]
  | A_UNSAVE => fmt_in fmt [I_I80R]
  | A_S => fmt_in fmt [I_00I8; I_I24]
  end.

(** The fields of an instruction that have to be zero. *)
Definition reserved (t : Z) : bool :=
  match in_format (dec_getInstr (OPCODE t)) with
  | I_R0S8 | I_S80R | I_S80I8 | I_R0I8 | I_I80R => negb (SRC1 t =? 0)
  | I_00I8 => truth (DST t) || truth (SRC1 t)
  | _ => false
  end.

Lemma table_compatible op :
  is_byte op -> compatible (in_args (dec_getInstr op)) (in_format (dec_getInstr op)) = true.
Proof.
  intros H. apply (byte_cases (fun op => compatible (in_args (dec_getInstr op)) (in_format (dec_getInstr op))));
    [vm_compute; reflexivity|trivial].
Qed.

Lemma opcode_byte t : is_byte (OPCODE t).
Proof. unfold OPCODE, MASK. rewrite land_mask by lia. apply Z.mod_pos_bound. lia. Qed.

(** [iargs] of cpu.c as the destination. *)
Abbreviation to_iargs := (fun a => on_cpu (set_c_iargs a)).

Definition operands_ok (a : sInstrArgs) : Prop :=
  is_octa (ia_x a) /\ is_octa (ia_y a) /\ is_octa (ia_z a).

Lemma mask_octa x n : 0 <= n <= 64 -> is_octa (x .& MASK n).
Proof.
  intros Hn. unfold MASK. rewrite land_mask by lia. apply (is_word_mono n); [lia|].
  apply Z.mod_pos_bound, pow2_pos. lia.
Qed.

(** Every operand is a field of the instruction, a register or a sum modulo 2^64. *)
Ltac operand_octa :=
  lazymatch goal with
  | |- is_octa 0 => wordlia
  | |- is_octa (if ?b then _ else _) => destruct b; operand_octa
  | |- is_octa (wrap64 _) => apply wrap_range; lia
  | |- is_octa (fwd _ _) => apply wrap_range; lia
  | |- is_octa (bwd _ _ _) => apply wrap_range; lia
  | |- _ => first [apply mask_octa; lia | solve [auto]]
  end.

Lemma decoder_total a fmt t m :
  compatible a fmt = true -> (forall r, is_octa (reg_val (m_reg m) r)) ->
  let bad := match fmt with
             | I_R0S8 | I_S80R | I_S80I8 | I_R0I8 | I_I80R => negb (SRC1 t =? 0)
             | I_00I8 => truth (DST t) || truth (SRC1 t)
             | _ => false
             end in
  if bad then exists m', decoder a to_iargs t fmt m = (Throw EX_DYNAMIC_TRAP TRAP_BREAKS_RULES, m')
  else exists r m', decoder a to_iargs t fmt m = (Ret r, m') /\ m_reg m' = m_reg m /\ operands_ok r.
Proof.
  intros H Hreg bad. subst bad.
  destruct a, fmt; try discriminate H; cbn [decoder];
    unfold dec_toDSS, dec_toDS, dec_toDA, dec_toSA, dec_toCT, dec_toA, dec_toIII, dec_toLA,
      dec_toMA, dec_toSave, dec_toUnsave, dec_toS.
  all: cbv iota beta in *.
  all: lazymatch goal with
       | |- ex _ => do 2 eexists; split; [reflexivity|split; [reflexivity|]]
       | |- if ?b then _ else _ =>
         destruct b eqn:E;
           [eexists; reflexivity|do 2 eexists; split; [reflexivity|split; [reflexivity|]]]
       end.
  all: unfold operands_ok; cbn [ia_x ia_y ia_z]; csplit; operand_octa.
Qed.

(** C36: Decoding never fails an assertion.  For every instruction word it raises
    TRAP_BREAKS_RULES if a field that has to be zero is not, and otherwise assigns
    operands that are octas to [iargs], without changing a register. *)
Theorem decode_total t m :
  (forall r, is_octa (reg_val (m_reg m) r)) ->
  let d := dec_decode (fun a => on_cpu (set_c_iargs a)) t m in
  if reserved t then fst d = Throw EX_DYNAMIC_TRAP TRAP_BREAKS_RULES
  else exists a, fst d = Ret a /\ c_iargs (m_cpu (snd d)) = a /\ m_reg (snd d) = m_reg m /\
         operands_ok a.
Proof.
  intros Hreg. cbv zeta. unfold dec_decode, reserved. cbv beta.
  set (m1 := set_m_cpu (set_c_iargs (mk_x 0) (m_cpu m)) m). set (ins := dec_getInstr (OPCODE t)).
  assert (E0 : on_cpu (set_c_iargs (mk_x 0)) m = (Ret tt, m1)) by reflexivity.
  rewrite (bind_ret _ _ _ _ _ E0).
  pose proof (decoder_total (in_args ins) (in_format ins) t m1
    (table_compatible _ (opcode_byte t)) Hreg) as H. cbv zeta in H.
  destruct (match in_format ins with
            | I_R0S8 | I_S80R | I_S80I8 | I_R0I8 | I_I80R => negb (SRC1 t =? 0)
            | I_00I8 => truth (DST t) || truth (SRC1 t)
            | _ => false
            end).
  - destruct H as (m2 & E). rewrite (bind_throw _ _ _ _ _ _ E). reflexivity.
  - destruct H as (a & m2 & E & Er & Ha). rewrite (bind_ret _ _ _ _ _ E). exists a.
    unfold on_cpu. rewrite bind_modify. csplit; try reflexivity; trivial.
Qed.

Lemma decode_total_witness :
  let m := power_on default_config in
  let d := dec_decode (fun a => on_cpu (set_c_iargs a)) 0x20010203 m in
  (forall r, is_octa (reg_val (m_reg m) r)) /\ reserved 0x20010203 = false /\
  exists a, fst d = Ret a /\ c_iargs (m_cpu (snd d)) = a.
Proof.
  cbv zeta. assert (H : forall r, is_octa (reg_val (m_reg (power_on default_config)) r)).
  { intros r. unfold reg_val. cbn. repeat case_match; wordlia. }
  split; [exact H|]. split; [vm_compute; reflexivity|].
  pose proof (decode_total 0x20010203 (power_on default_config) H) as D. cbv zeta in D.
  replace (reserved 0x20010203) with false in D by (vm_compute; reflexivity).
  destruct D as (a & E1 & E2 & _). exists a. split; [exact E1|exact E2].
Defined.
