(* ===== verification/Intrpts.v ===== *)
(** * TRAP, TRIP, RESUME and the dispatch (gimmix/src/core/instr/intrpts.c)

    RESUME executes an inserted instruction, which RESUME_TRANS lets be a RESUME
    again: the nesting is bounded by the fuel of [execute]. *)

From Stdlib Require Import ZArith Lia Bool.
From stdpp Require Import base list numbers option.
From S2P Require Import Prelude IntArith Ram Machine Registers Devices Bus Tc Cache Mmu.
From S2P Require Import RegStack Float InstrArith InstrMem Decoder.

Implicit Types (i : sInstrArgs).

Abbreviation OP_RESUME := 0xF9.
Abbreviation OP_SWYM := 0xFD.
Abbreviation OP_GET := 0xFE.
Abbreviation RESUME_AGAIN := 0.
Abbreviation RESUME_CONT := 1.
Abbreviation RESUME_SET := 2.
Abbreviation RESUME_TRANS := 3.

(** ** The code *)

Definition cpu_instr_trap i : M unit :=
  test ← gets (fun m => cfg_testMode (m_cfg m));
  if test && (ia_x i =? 0) && (ia_y i =? 0) && (ia_z i =? 0) then cpu_halt
  else ex_throw EX_FORCED_TRAP 0.

Definition cpu_instr_trip i : M unit :=
  p ← cpu_isPriv;
  when (negb p) (ex_throw EX_FORCED_TRIP 0).

Definition resumeSet (isPriv : bool) (x rz : Z) : M unit :=
  let dst := (x .>> 16) .& 0xFF in
  cpu_setResumeInstr (shl32 OP_GET 24 .| (dst * 2 ^ 16) .| rz);;
  pc ← cpu_getPC;
  when (negb isPriv && priv pc) (ex_throw EX_DYNAMIC_TRAP TRAP_PRIVILEGED_PC);;
  l ← reg_getSpecial rL;
  g ← reg_getSpecial rG;
  when ((to_int l <=? dst) && (dst <? to_int g)) (ex_throw EX_DYNAMIC_TRAP TRAP_BREAKS_RULES);;
  z ← reg_getSpecial rz;
  reg_set dst z;;
  when (truth (x .& 0xFF0000000000)) (cpu_setArithEx ((x .>> 40) .& 0xFF)).

(** The check of the instruction in rX before RESUME changes anything. *)
Definition resume_check (x y : Z) : M unit :=
  let raw := x .& 0xFFFFFFFF in
  let ropcode := x .>> 56 in
  let bad := ex_throw EX_DYNAMIC_TRAP TRAP_BREAKS_RULES in
  if ropcode =? RESUME_SET then mret tt
  else if ropcode =? RESUME_CONT then
    when (negb ((OPCODE raw .& 0xFA) =? 0xB8) && truth (2 ^ (raw .>> 28) .& 0x8F30)) bad
  else if ropcode =? RESUME_AGAIN then when (OPCODE raw =? OP_RESUME) bad
  else if ropcode =? RESUME_TRANS then when (negb (y =? 1)) bad
  else bad.

Section Resume.
(** [instr->execute(&iargs)] *)
Context (exec : fInstr -> sInstrArgs -> M unit).

Definition resumeContinue (isPriv : bool) (raw ry rz : Z) : M unit :=
  when (negb ((OPCODE raw .& 0xFA) =? 0xB8))
    (cpu_setResumeInstr raw;;
     pc ← cpu_getPC;
     when (negb isPriv && priv pc) (ex_throw EX_DYNAMIC_TRAP TRAP_PRIVILEGED_PC);;
     let instr := dec_getInstr (OPCODE raw) in
     a ← dec_decode to_local raw;
     l ← reg_getSpecial rL;
     g ← reg_getSpecial rG;
     when ((l <=? ia_x a) && (ia_x a <? g)) (ex_throw EX_DYNAMIC_TRAP TRAP_BREAKS_RULES);;
     y ← reg_getSpecial ry;
     z ← reg_getSpecial rz;
     let a := match in_args instr with
              | A_DSS => mk_sInstrArgs (ia_x a) y z
              | A_III => a
              | _ => mk_sInstrArgs (ia_x a) (ia_y a) z
              end in
     cpu_setResumeInstrArgs a;;
     exec (in_execute instr) a).

Definition resumeAgain (isPriv : bool) (raw : Z) : M unit :=
  a ← dec_decode to_local raw;
  let instr := dec_getInstr (OPCODE raw) in
  cpu_setResumeInstr raw;;
  cpu_setResumeInstrArgs a;;
  pc ← cpu_getPC;
  when (negb isPriv && priv pc) (ex_throw EX_DYNAMIC_TRAP TRAP_PRIVILEGED_PC);;
  exec (in_execute instr) a.

Definition resumeTrans (isPriv : bool) (raw : Z) : M unit :=
  virt ← reg_getSpecial rYY;
  pte ← reg_getSpecial rZZ;
  rv ← reg_getSpecial rV;
  let vtr := mmu_unpackrV rv in
  let tc := if OPCODE raw =? OP_SWYM then TC_INSTR else TC_DATA in
  key ← tc_addrToKey virt (vt_s vtr) (vt_n vtr);
  trans ← tc_pteToTrans pte (vt_s vtr);
  _ ← tc_set tc key trans;
  if negb (OPCODE raw =? OP_SWYM) then resumeAgain isPriv raw
  else
    a ← dec_decode to_local raw;
    cpu_setResumeInstr raw;;
    cpu_setResumeInstrArgs a.

Definition cpu_instr_resume i : M unit :=
  when (1 <? ia_y i) (ex_throw EX_DYNAMIC_TRAP TRAP_BREAKS_RULES);;
  isPriv ← cpu_isPriv;
  let kernel := (ia_y i =? 1) && isPriv in
  let rx := if kernel then rXX else rX in
  let ry := if kernel then rYY else rY in
  let rz := if kernel then rZZ else rZ in
  let rw := if kernel then rWW else rW in
  when (negb isPriv)
    (when (negb (ia_y i =? 0)) (ex_throw EX_DYNAMIC_TRAP TRAP_PRIVILEGED_INSTR);;
     w ← reg_getSpecial rw;
     when (truth (w .& MSB 64)) (ex_throw EX_DYNAMIC_TRAP TRAP_PRIVILEGED_PC));;
  x ← reg_getSpecial rx;
  when (negb (truth (x .& MSB 64))) (resume_check x (ia_y i));;
  when kernel
    (v255 ← reg_get 255;
     reg_setSpecial rK v255;;
     bb ← reg_getSpecial rBB;
     reg_set 255 bb);;
  w ← reg_getSpecial rw;
  cpu_setPC (w -o 4);;
  when (negb (truth (x .& MSB 64)))
    (let raw := x .& 0xFFFFFFFF in
     let ropcode := x .>> 56 in
     if ropcode =? RESUME_SET then resumeSet isPriv x rz
     else if ropcode =? RESUME_CONT then resumeContinue isPriv raw ry rz
     else if ropcode =? RESUME_AGAIN then resumeAgain isPriv raw
     else if ropcode =? RESUME_TRANS then resumeTrans isPriv raw
     else mret tt).
End Resume.

(** The instruction functions that do not execute another instruction. *)
Definition exec_plain (f : fInstr) : sInstrArgs -> M unit :=
  match f with
  | F_trap => cpu_instr_trap | F_trip => cpu_instr_trip
  | F_resume => fun _ => stop OutOfFuel
  | F_fcmp => cpu_instr_fcmp | F_fun => cpu_instr_fun | F_feql => cpu_instr_feql
  | F_fadd => cpu_instr_fadd | F_fix => cpu_instr_fix | F_fsub => cpu_instr_fsub
  | F_fixu => cpu_instr_fixu | F_flot => cpu_instr_flot | F_flotu => cpu_instr_flotu
  | F_sflot => cpu_instr_sflot | F_sflotu => cpu_instr_sflotu | F_fmul => cpu_instr_fmul
  | F_fcmpe => cpu_instr_fcmpe | F_fune => cpu_instr_fune | F_feqle => cpu_instr_feqle
  | F_fdiv => cpu_instr_fdiv | F_fsqrt => cpu_instr_fsqrt | F_frem => cpu_instr_frem
  | F_fint => cpu_instr_fint | F_mul => cpu_instr_mul | F_mulu => cpu_instr_mulu
  | F_div => cpu_instr_div | F_divu => cpu_instr_divu | F_add => cpu_instr_add
  | F_addu => cpu_instr_addu | F_sub => cpu_instr_sub | F_subu => cpu_instr_subu
  | F_2addu => cpu_instr_2addu | F_4addu => cpu_instr_4addu | F_8addu => cpu_instr_8addu
  | F_16addu => cpu_instr_16addu | F_cmp => cpu_instr_cmp | F_cmpu => cpu_instr_cmpu
  | F_neg => cpu_instr_neg | F_negu => cpu_instr_negu | F_sl => cpu_instr_sl
  | F_slu => cpu_instr_slu | F_sr => cpu_instr_sr | F_sru => cpu_instr_sru
  | F_bn => cpu_instr_bn | F_bz => cpu_instr_bz | F_bp => cpu_instr_bp | F_bod => cpu_instr_bod
  | F_bnn => cpu_instr_bnn | F_bnz => cpu_instr_bnz | F_bnp => cpu_instr_bnp
  | F_bev => cpu_instr_bev | F_csn => cpu_instr_csn | F_csz => cpu_instr_csz
  | F_csp => cpu_instr_csp | F_csod => cpu_instr_csod | F_csnn => cpu_instr_csnn
  | F_csnz => cpu_instr_csnz | F_csnp => cpu_instr_csnp | F_csev => cpu_instr_csev
  | F_zsn => cpu_instr_zsn | F_zsz => cpu_instr_zsz | F_zsp => cpu_instr_zsp
  | F_zsod => cpu_instr_zsod | F_zsnn => cpu_instr_zsnn | F_zsnz => cpu_instr_zsnz
  | F_zsnp => cpu_instr_zsnp | F_zsev => cpu_instr_zsev | F_ldb => cpu_instr_ldb
  | F_ldbu => cpu_instr_ldbu | F_ldw => cpu_instr_ldw | F_ldwu => cpu_instr_ldwu
  | F_ldt => cpu_instr_ldt | F_ldtu => cpu_instr_ldtu | F_ldo => cpu_instr_ldo
  | F_ldou => cpu_instr_ldou | F_ldsf => cpu_instr_ldsf | F_ldht => cpu_instr_ldht
  | F_cswap => cpu_instr_cswap | F_ldunc => cpu_instr_ldunc | F_ldvts => cpu_instr_ldvts
  | F_preld => cpu_instr_preld | F_prego => cpu_instr_prego | F_go => cpu_instr_go
  | F_stb => cpu_instr_stb | F_stbu => cpu_instr_stbu | F_stw => cpu_instr_stw
  | F_stwu => cpu_instr_stwu | F_stt => cpu_instr_stt | F_sttu => cpu_instr_sttu
  | F_sto => cpu_instr_sto | F_stou => cpu_instr_stou | F_stsf => cpu_instr_stsf
  | F_stht => cpu_instr_stht | F_stco => cpu_instr_stco | F_stunc => cpu_instr_stunc
  | F_syncd => cpu_instr_syncd | F_prest => cpu_instr_prest | F_syncid => cpu_instr_syncid
  | F_push => cpu_instr_push | F_or => cpu_instr_or | F_orn => cpu_instr_orn
  | F_nor => cpu_instr_nor | F_xor => cpu_instr_xor | F_and => cpu_instr_and
  | F_andn => cpu_instr_andn | F_nand => cpu_instr_nand | F_nxor => cpu_instr_nxor
  | F_bdif => cpu_instr_bdif | F_wdif => cpu_instr_wdif | F_tdif => cpu_instr_tdif
  | F_odif => cpu_instr_odif | F_mux => cpu_instr_mux | F_sadd => cpu_instr_sadd
  | F_mor => cpu_instr_mor | F_mxor => cpu_instr_mxor | F_seth => cpu_instr_seth
  | F_setmh => cpu_instr_setmh | F_setml => cpu_instr_setml | F_setl => cpu_instr_setl
  | F_inch => cpu_instr_inch | F_incmh => cpu_instr_incmh | F_incml => cpu_instr_incml
  | F_incl => cpu_instr_incl | F_orh => cpu_instr_orh | F_ormh => cpu_instr_ormh
  | F_orml => cpu_instr_orml | F_orl => cpu_instr_orl | F_andnh => cpu_instr_andnh
  | F_andnmh => cpu_instr_andnmh | F_andnml => cpu_instr_andnml | F_andnl => cpu_instr_andnl
  | F_jmp => cpu_instr_jmp | F_geta => cpu_instr_geta | F_put => cpu_instr_put
  | F_pop => cpu_instr_pop | F_save => cpu_instr_save | F_unsave => cpu_instr_unsave
  | F_sync => cpu_instr_sync | F_swym => cpu_instr_swym | F_get => cpu_instr_get
  end.

Fixpoint execute (fuel : nat) (f : fInstr) : sInstrArgs -> M unit :=
  match fuel, f with
  | S fuel, F_resume => cpu_instr_resume (execute fuel)
  | _, _ => exec_plain f
  end.
