(* ===== verification/Cpu.v ===== *)
(** * The CPU (gimmix/src/core/cpu.c)

    The fetch-decode-execute cycle, interrupts and the delivery of exceptions. *)

From Stdlib Require Import ZArith Lia Bool.
From stdpp Require Import base list numbers option.
From S2P Require Import Prelude IntArith Ram Machine Registers Devices Peripherals Bus Tc Cache Mmu.
From S2P Require Import RegStack Float InstrArith InstrMem Decoder Intrpts.

(** ** The code *)

Definition cpu_reset : M unit :=
  on_cpu (fun c =>
    set_c_useResume false (set_c_pcChanged false (set_c_pc 0 (set_c_instrCount 0
      (set_c_oldrU 0 (set_c_pagefaultValue 0 (set_c_pagefaultAddr (MSB 64)
        (set_c_arithEx 0 (set_c_halted false (set_c_run true c)))))))))).

Definition cpu_checkSecurity : M unit :=
  pc ← cpu_getPC;
  k ← reg_getSpecial rK;
  if priv pc then
    when (truth (k .& TRAP_PRIVILEGED_PC)) (ex_throw EX_DYNAMIC_TRAP TRAP_PRIVILEGED_PC)
  else
    when (negb (((k .>> 32) .& 0xFF) =? 0xFF))
      (reg_setSpecial rK (k .| 0xFF00000000);;
       ex_throw EX_DYNAMIC_TRAP TRAP_SECURITY_VIOLATION).

Definition cpu_checkForInterrupt : M unit :=
  i ← reg_getSpecial rI;
  let ri := i -o 1 in
  reg_setSpecial rI ri;;
  when (ri =? 0) (q ← reg_getSpecial rQ; reg_setSpecial rQ (q .| TRAP_INTERVAL));;
  q ← reg_getSpecial rQ;
  k ← reg_getSpecial rK;
  let irqs := q .& k in
  if negb (irqs =? 0) then ex_throw EX_DYNAMIC_TRAP (irqs .& not64 0xFF00000000)
  else
    pc ← cpu_getPC;
    a ← gets (fun m => c_arithEx (m_cpu m));
    if negb (priv pc) && truth a then
      on_cpu (set_c_arithEx 0);; ex_throw EX_DYNAMIC_TRIP a
    else mret tt.

Definition cpu_counterTick : M unit :=
  usage ← reg_getSpecial rU;
  c ← gets m_cpu;
  let upattern := c_oldrU c .>> 56 in
  let umask := (c_oldrU c .>> 48) .& 0xFF in
  usage ← (if ((OPCODE (c_instrRaw c) .& umask) =? upattern)
              && (negb (priv (c_instrLoc c)) || truth (c_oldrU c .& 0x800000000000)) then
             let usage := if (usage .& 0x7FFFFFFFFFFF) =? 0x7FFFFFFFFFFF
                          then usage -o 0x7FFFFFFFFFFF else usage +o 1 in
             reg_setSpecial rU usage;; mret usage
           else mret usage);
  on_cpu (set_c_oldrU usage).

Definition cpu_finishInstr : M unit :=
  c ← reg_getSpecial rC;
  reg_setSpecial rC (c +o 1);;
  ev_fire EV_AFTER_EXEC;;
  on_cpu (fun c => set_c_pc (c_pc c +o 4) c).

(** [for(k = 128; k > 0 && !(bits & k); k >>= 1) pc += 16;] *)
Fixpoint trip_offset (fuel : nat) (k bits : Z) : Z :=
  match fuel with
  | O => 0
  | S fuel =>
    if (0 <? k) && negb (truth (bits .& k)) then 16 + trip_offset fuel (k .>> 1) bits else 0
  end.

(** [ex == EX_DYNAMIC_TRAP || ex == EX_FORCED_TRAP] *)
Definition is_trap (ex : exn) : bool :=
  match ex with EX_DYNAMIC_TRAP | EX_FORCED_TRAP => true | _ => false end.

(** The value of rX: the ropcode and the instruction. *)
Definition trigger_rx (ex : exn) (bits : Z) (c : cpu_state) : Z * Z :=
  let '(bits, rxVal) :=
    if bool_decide (ex = EX_FORCED_TRAP) && truth (bits .& TRAP_SOFT_TRANS) then (bits, 3 * 2 ^ 56)
    else if bool_decide (ex = EX_DYNAMIC_TRAP) && truth (bits .& TRAP_REPEAT)
    then (bits .& not64 TRAP_REPEAT, 0)
    else (bits, MSB 64) in
  let rxVal :=
    if truth (bits .& TRAP_PROT_EXEC) then rxVal .| shl64 OP_SWYM 24
    else rxVal .| (if c_useResume c then c_instrRawResume c else c_instrRaw c) in
  (bits, rxVal).

(** The operands of the interrupted instruction go to rY and rZ. *)
Definition trigger_operands (ex : exn) (ry rz : Z) : M unit :=
  c ← gets m_cpu;
  let a := if c_useResume c then c_iargsResume c else c_iargs c in
  match ex with
  | EX_DYNAMIC_TRAP | EX_DYNAMIC_TRIP =>
    if negb (priv (c_pagefaultAddr c)) then
      reg_setSpecial ry (c_pagefaultAddr c);;
      reg_setSpecial rz (c_pagefaultValue c);;
      on_cpu (fun c => set_c_pagefaultValue 0 (set_c_pagefaultAddr (MSB 64) c))
    else
      reg_setSpecial ry (ia_y a);;
      reg_setSpecial rz (ia_z a)
  | EX_FORCED_TRAP | EX_FORCED_TRIP =>
    y ← reg_get (ia_y a);
    reg_setSpecial ry y;;
    z ← reg_get (ia_z a);
    reg_setSpecial rz z
  | _ => mret tt
  end.

(** The new pc; it is increased by 4 afterwards. *)
Definition trigger_pc (ex : exn) (bits rt : Z) : M unit :=
  match ex with
  | EX_DYNAMIC_TRAP | EX_FORCED_TRAP =>
    t ← reg_getSpecial rt; on_cpu (set_c_pc (t -o 4))
  | EX_DYNAMIC_TRIP | EX_FORCED_TRIP =>
    on_cpu (set_c_pc (wrap64 (-4 + (if truth bits then 16 + trip_offset 9 128 bits else 0))))
  | _ => mret tt
  end.

Definition cpu_triggerException (ex : exn) (bits : Z) : M unit :=
  when (truth (bits .& TRAP_PROT_EXEC)) (on_cpu (fun c => set_c_pc (c_pc c -o 4) c));;
  c ← gets m_cpu;
  let '(bits, rxVal) := trigger_rx ex bits c in
  let reason := bits .& 0xFF00000000 in
  let dynamic := truth reason && bool_decide (ex = EX_DYNAMIC_TRAP) in
  when dynamic (q ← reg_getSpecial rQ; reg_setSpecial rQ (q .| bits));;
  q ← reg_getSpecial rQ;
  k ← reg_getSpecial rK;
  if dynamic && negb (truth (q .& k)) then mret tt
  else
    let rxVal := if dynamic then rxVal .| reason else rxVal in
    ev_fire (EV_EXCEPTION ex bits);;
    let trap := is_trap ex in
    let rx := if trap then rXX else rX in
    let ry := if trap then rYY else rY in
    let rz := if trap then rZZ else rZ in
    let rb := if trap then rBB else rB in
    let rw := if trap then rWW else rW in
    let rt := if bool_decide (ex = EX_DYNAMIC_TRAP) then rTT else rT in
    let ex := if truth (bits .& TRAP_SOFT_TRANS) then EX_DYNAMIC_TRAP else ex in
    reg_setSpecial rx rxVal;;
    pc ← cpu_getPC;
    reg_setSpecial rw (pc +o 4);;
    trigger_operands ex ry rz;;
    v255 ← reg_get 255;
    reg_setSpecial rb v255;;
    j ← reg_getSpecial rJ;
    reg_set 255 j;;
    when (is_trap ex) (reg_setSpecial rK 0);;
    trigger_pc ex bits rt.

Definition cpu_handleException (ex : exn) (bits : Z) : M bool :=
  if decide (ex = EX_BREAKPOINT) then on_cpu (set_c_run false);; mret false
  else cpu_triggerException ex bits;; mret true.

Section Run.
(** The bounds for the timers that expire
    in a tick and for nested RESUMEs. *)
Context (tick_fuel resume_fuel : nat).

Definition cpu_execInstr : M unit :=
  ev_fire EV_BEFORE_FETCH;;
  on_cpu (fun c => set_c_instrLoc (c_pc c) (set_c_useResume false (set_c_pcChanged false c)));;
  pc ← cpu_getPC;
  raw ← mmu_readInstr pc MEM_SIDE_EFFECTS;
  on_cpu (set_c_instrRaw raw);;
  let instr := dec_getInstr (OPCODE raw) in
  cpu_checkSecurity;;
  a ← dec_decode (fun a => on_cpu (set_c_iargs a)) raw;
  ev_fire EV_BEFORE_EXEC;;
  execute resume_fuel (in_execute instr) a;;
  on_cpu (fun c => set_c_instrCount (c_instrCount c + 1) c);;
  n ← cpu_getInstrsSinceTick;
  when (n =? INSTRS_PER_TICK)
    (cpu_setInstrsSinceTick 0;; timer_tick dev_callback tick_fuel);;
  cpu_checkForInterrupt;;
  cpu_counterTick.

Definition cpu_step : M unit :=
  h ← gets (fun m => c_halted (m_cpu m));
  when (negb h)
    (on_cpu (set_c_run true);;
     catch (cpu_execInstr;; cpu_finishInstr)
           (fun ex bits =>
              b ← cpu_handleException ex bits;
              when b cpu_finishInstr);;
     ev_fire EV_CPU_PAUSE).

(** The inner loop of [cpu_run]: [do { ... } while(run)]. *)
Fixpoint run_inner (fuel : nat) : M unit :=
  match fuel with
  | O => stop OutOfFuel
  | S fuel =>
    cpu_execInstr;; cpu_finishInstr;;
    r ← gets (fun m => c_run (m_cpu m));
    when r (run_inner fuel)
  end.

(** The outer loop, entered again after each exception. *)
Fixpoint run_outer (fuel : nat) : M unit :=
  match fuel with
  | O => stop OutOfFuel
  | S fuel' =>
    b ← catch (run_inner fuel;; mret true)
              (fun ex bits =>
                 b ← cpu_handleException ex bits;
                 when b cpu_finishInstr;; mret b);
    r ← gets (fun m => c_run (m_cpu m));
    when (b && r) (run_outer fuel')
  end.

Definition cpu_run (fuel : nat) : M unit :=
  h ← gets (fun m => c_halted (m_cpu m));
  when (negb h)
    (on_cpu (set_c_run true);;
     run_outer fuel;;
     ev_fire EV_CPU_PAUSE).
End Run.

(** ** sim.c: reset and set-up *)

(** [cpu_setPC(cfg_getStartAddr())] and the environment of a user program. *)
Definition sim_setup : M unit :=
  start ← gets (fun m => cfg_startAddr (m_cfg m));
  cpu_setPC start;;
  user ← gets (fun m => cfg_userMode (m_cfg m));
  when user
    (reg_setSpecial rS 0x6000000000000000;;
     reg_setSpecial rO 0x6000000000000000;;
     reg_setSpecial rK 0xFFFFFFFFFFFFFFFF;;
     reg_setSpecial rT 0x8000000500000000;;
     reg_setSpecial rTT 0x8000000600000000;;
     reg_setSpecial rV 0x369c200400000000;;
     bus_write 0x400000000 0x0000000000000007 false;;
     bus_write 0x400006000 0x0000000100000006 false;;
     bus_write 0x40000C000 0x0000000200000006 false;;
     bus_write 0x400012000 0x0000000300000006 false).

Definition sim_init (image : option (Z * arr)) (abstime : Z) : M unit :=
  bus_init image;; cache_init;; cpu_reset;; reg_reset abstime;; tc_init;; sim_setup.

Definition sim_reset (image : option (Z * arr)) (abstime : Z) : M unit :=
  bus_reset image;; cache_reset;; cpu_reset;; reg_reset abstime;; tc_reset;; sim_setup.

(** The simulator after [sim_init] in the default configuration. *)
Definition boot (cfg : config) : machine := snd (sim_init None 0 (power_on cfg)).
