(* ===== verification/Frames.v ===== *)
(** * What the instructions leave alone

    The privileged special registers are kept by every operation of the machine but
    PUT, RESUME and UNSAVE: one lemma per operation, for the database [keeps], and
    their sum over the dispatch table. *)

From Stdlib Require Import ZArith Lia Bool.
From stdpp Require Import base list numbers option.
From S2P Require Import Prelude IntArith Ram Machine Registers Devices Peripherals Bus.
From S2P Require Import Tc Cache Mmu RegStack Float InstrArith InstrMem Decoder.
From S2P Require Import Intrpts Cpu.

Implicit Types (i : sInstrArgs) (m : machine).

(** ** The privileged registers *)

(** The special registers that PUT does not let a user program change. *)
Definition kernel_regs : list Z := [rC; rN; rO; rS; rI; rT; rTT; rK; rQ; rU; rV; rSS].

(** Those of them that no instruction of a user program may change at all: the others
    count (rC, rU), move with the register stack (rO, rS) or collect interrupts (rQ). *)
Definition kregs m : list Z := map (r_special (m_reg m)) [rN; rI; rT; rTT; rK; rU; rV; rSS].

Abbreviation kept := (keeps (same kregs)).
Abbreviation pc_kept := (keeps (same (fun m => c_pc (m_cpu m)))).

(** The privileged registers and the program counter. *)
Definition kobs m : list Z * Z := (kregs m, c_pc (m_cpu m)).

Abbreviation still := (keeps (same kobs)).

Lemma still_kept {A} (c : M A) : still c -> kept c.
Proof. intros H m. exact (f_equal fst (H m)). Qed.

Lemma still_pc {A} (c : M A) : still c -> pc_kept c.
Proof. intros H m. exact (f_equal snd (H m)). Qed.

(** Reduces a goal on an operation to goals on the operations of its definition. *)
Ltac keeps_open :=
  match goal with
  | |- keeps _ ?c =>
    let rec head t := match t with ?f _ => head f | _ => t end in
    let h := head c in unfold h; cbv beta zeta
  end.
Ltac kept_tac := repeat (keeps_tac; try (keeps_open; keeps_tac)).

Lemma kept_setSpecial rno v :
  Forall (fun k => k <> rno) [rN; rI; rT; rTT; rK; rU; rV; rSS] -> kept (reg_setSpecial rno v).
Proof.
  intros H m. destruct (Z.ltb_spec rno SPECIAL_NUM) as [L|L].
  - rewrite setSpecial_eq by trivial. unfold same, kregs. cbn [snd].
    apply map_ext_Forall, Forall_lookup. intros k x Hx. rewrite Forall_lookup in H.
    apply put_special_other. eauto.
  - unfold reg_setSpecial, assert. apply Z.ltb_ge in L. rewrite L. reflexivity.
Qed.

Lemma still_setSpecial rno v :
  Forall (fun k => k <> rno) [rN; rI; rT; rTT; rK; rU; rV; rSS] -> still (reg_setSpecial rno v).
Proof.
  intros H m. unfold same, kobs. f_equal; [apply kept_setSpecial, H|].
  assert (K : pc_kept (reg_setSpecial rno v)); [|apply K]. keeps_tac.
Qed.

#[export] Hint Extern 1 (keeps (same kregs) (reg_setSpecial _ _)) =>
  apply kept_setSpecial; repeat constructor; discriminate : keeps.
#[export] Hint Extern 1 (keeps (same kobs) (reg_setSpecial _ _)) =>
  apply still_setSpecial; repeat constructor; discriminate : keeps.

Lemma still_get_reg {A} (f : regs -> A) : still (get_reg f).
Proof. keeps_open. keeps_tac. Qed.
#[export] Hint Resolve still_get_reg : keeps.

Lemma still_setMemEx ex bits addr value se : still (cpu_setMemEx ex bits addr value se).
Proof. keeps_open. keeps_tac. Qed.
#[export] Hint Resolve still_setMemEx : keeps.

Lemma still_setArithEx bits : still (cpu_setArithEx bits).
Proof. keeps_open. unfold cpu_isPriv. keeps_tac. Qed.
#[export] Hint Resolve still_setArithEx : keeps.

(** *** The bus, the caches and the translation caches *)

Lemma still_timer_start msec d c p : still (timer_start msec d c p).
Proof. keeps_open. keeps_tac. Qed.
Lemma still_update_irq ctrl ien flag irq : still (update_irq ctrl ien flag irq).
Proof. keeps_open. unfold cpu_setInterrupt, cpu_resetInterrupt. keeps_tac. Qed.
Lemma still_resetInterrupt irq : still (cpu_resetInterrupt irq).
Proof. keeps_open. keeps_tac. Qed.
#[export] Hint Resolve still_timer_start still_update_irq still_resetInterrupt : keeps.

(** Opens the accessors of the devices. *)
Ltac io_open := unfold throw_nonex, get_disk, on_disk, get_term, on_term, get_kbd, on_kbd, on_dsp, disk_distance.

Lemma still_disk_start : still disk_start.
Proof. keeps_open. io_open. keeps_tac. Qed.
#[export] Hint Resolve still_disk_start : keeps.

Lemma still_dev_read d addr se : still (dev_read d addr se).
Proof.
  unfold dev_read. destruct (dev_id d); keeps_open; io_open; keeps_tac.
  intros m. destruct (ram_doRead addr (m_ram m)). reflexivity.
Qed.

Lemma still_dev_write d addr v : still (dev_write d addr v).
Proof.
  unfold dev_write. destruct (dev_id d); keeps_open; io_open; keeps_tac.
  all: keeps_open; keeps_tac.
Qed.
#[export] Hint Resolve still_dev_read still_dev_write : keeps.

Lemma still_bus_read addr se : still (bus_read addr se).
Proof. keeps_open. unfold bus_getDevByAddr. keeps_tac. Qed.

Lemma still_bus_write addr v se : still (bus_write addr v se).
Proof. keeps_open. unfold bus_getDevByAddr. keeps_tac. Qed.
#[export] Hint Resolve still_bus_read still_bus_write : keeps.

Lemma still_on_cache c f : still (on_cache c f).
Proof. intros m. reflexivity. Qed.
Lemma still_on_block c b f : still (on_block c b f).
Proof. intros m. reflexivity. Qed.
Lemma still_on_tc c f : still (on_tc c f).
Proof. intros m. reflexivity. Qed.
#[export] Hint Resolve still_on_cache still_on_block still_on_tc : keeps.

Lemma still_cache_find c addr : still (cache_find c addr).
Proof. keeps_open. unfold get_cache. keeps_tac. Qed.

Lemma still_flushBlock c b flags : still (cache_flushBlock c b flags).
Proof. keeps_open. unfold get_cache. keeps_tac. Qed.

Lemma still_cache_fill c b addr flags : still (cache_fill c b addr flags).
Proof. keeps_open. unfold get_cache. keeps_tac. Qed.

Lemma still_findVictim c : still (cache_findVictim c).
Proof. keeps_open. unfold get_cache. keeps_tac. Qed.
#[export] Hint Resolve still_cache_find still_flushBlock still_cache_fill still_findVictim : keeps.

Lemma still_cache_get c addr flags w : still (cache_get c addr flags w).
Proof. keeps_open. unfold cache_load, get_cache, get_block. keeps_tac. Qed.
#[export] Hint Resolve still_cache_get : keeps.

Lemma still_cache_read c addr flags : still (cache_read c addr flags).
Proof. keeps_open. unfold get_cache. keeps_tac. Qed.

Lemma still_cache_write c addr v flags : still (cache_write c addr v flags).
Proof. keeps_open. unfold get_cache. keeps_tac. Qed.

Lemma still_cache_flush c addr : still (cache_flush c addr).
Proof. keeps_open. keeps_tac. Qed.

Lemma still_cache_flushAll c : still (cache_flushAll c).
Proof. keeps_open. unfold get_cache. keeps_tac. Qed.

Lemma still_cache_remove c addr : still (cache_remove c addr).
Proof. keeps_open. unfold cache_invalidateBlock. keeps_tac. Qed.

Lemma still_cache_removeAll c : still (cache_removeAll c).
Proof. keeps_open. unfold get_cache, cache_invalidateBlock. keeps_tac. Qed.
#[export] Hint Resolve still_cache_read still_cache_write still_cache_flush still_cache_flushAll
  still_cache_remove still_cache_removeAll : keeps.

Lemma still_tc_getByKey tc key : still (tc_getByKey tc key).
Proof. keeps_open. keeps_tac. Qed.

Lemma still_tc_set tc key trans : still (tc_set tc key trans).
Proof. keeps_open. keeps_tac. Qed.

Lemma still_tc_removeAll tc : still (tc_removeAll tc).
Proof. keeps_open. unfold tc_remove. keeps_tac. Qed.
#[export] Hint Resolve still_tc_getByKey still_tc_set still_tc_removeAll : keeps.

(** *** The MMU *)

Lemma still_resolve_ptps j c pageNo n mode flags : still (resolve_ptps j c pageNo n mode flags).
Proof.
  revert c. induction j as [|j IH]; intros c; cbn [resolve_ptps]; unfold page_fault; keeps_tac.
Qed.
#[export] Hint Resolve still_resolve_ptps : keeps.

Lemma still_translate addr mode expected se : still (mmu_translate addr mode expected se).
Proof.
  keeps_open. unfold cpu_isPriv, mmu_getVtr, tc_addrToKey, tc_entry, mmu_walk, page_fault,
    tc_pteToTrans. keeps_tac.
Qed.
#[export] Hint Resolve still_translate : keeps.

Lemma still_handleMemEx ex bits addr v flags : still (mmu_handleMemEx ex bits addr v flags).
Proof. keeps_open. keeps_tac. Qed.
#[export] Hint Resolve still_handleMemEx : keeps.

Lemma still_doRead addr mode flags : still (mmu_doRead addr mode flags).
Proof. keeps_open. keeps_tac. Qed.

Lemma still_doWrite addr v flags : still (mmu_doWrite addr v flags).
Proof. keeps_open. keeps_tac. Qed.
#[export] Hint Resolve still_doRead still_doWrite : keeps.

Lemma still_readOcta addr flags : still (mmu_readOcta addr flags).
Proof. apply still_doRead. Qed.
Lemma still_writeOcta addr v flags : still (mmu_writeOcta addr v flags).
Proof. apply still_doWrite. Qed.
#[export] Hint Resolve still_readOcta still_writeOcta : keeps.

Lemma still_syncd addr radical : still (mmu_syncdOcta addr radical).
Proof. keeps_open. unfold sync_handler. keeps_tac. Qed.
Lemma still_syncid addr radical : still (mmu_syncidOcta addr radical).
Proof. keeps_open. unfold sync_handler. keeps_tac. Qed.
#[export] Hint Resolve still_syncd still_syncid : keeps.

(** *** The register stack *)

Lemma still_stackStoreVal v type index : still (reg_stackStoreVal v type index).
Proof. keeps_open. keeps_tac. Qed.
Lemma still_stackLoad : still reg_stackLoad.
Proof. keeps_open. unfold reg_stackLoadVal. keeps_tac. Qed.
#[export] Hint Resolve still_stackStoreVal still_stackLoad : keeps.

Lemma still_stackStore : still reg_stackStore.
Proof. keeps_open. unfold reg_getLocal. keeps_tac. Qed.
#[export] Hint Resolve still_stackStore : keeps.

Lemma still_reg_set rno v : still (reg_set rno v).
Proof. keeps_open. unfold reg_grow. keeps_tac. Qed.
#[export] Hint Resolve still_reg_set : keeps.

Lemma still_reg_push rno : still (reg_push rno).
Proof. keeps_open. keeps_tac. Qed.

Lemma still_reg_pop rno : still (reg_pop rno).
Proof. keeps_open. unfold reg_reload. keeps_tac. Qed.

Lemma still_check_pages fuel b e p : still (check_pages fuel b e p).
Proof. revert b. induction fuel as [|fuel IH]; intros b; cbn [check_pages]; keeps_tac. Qed.

Lemma still_save_regs fuel k c : still (save_regs fuel k c).
Proof. revert k. induction fuel as [|fuel IH]; intros k; cbn [save_regs]; keeps_tac. Qed.
#[export] Hint Resolve still_reg_push still_reg_pop still_check_pages still_save_regs : keeps.

Lemma still_reg_save dst c : still (reg_save dst c).
Proof. keeps_open. unfold reg_checkAccessibility. keeps_tac. Qed.
#[export] Hint Resolve still_reg_save : keeps.

#[export] Hint Extern 4 (keeps (same kregs) _) =>
  apply still_kept; solve [auto 2 with keeps nocore] : keeps.
#[export] Hint Extern 4 (keeps (same (fun m => c_pc (m_cpu m))) _) =>
  apply still_pc; solve [auto 2 with keeps nocore] : keeps.

(** ** Every instruction *)

Lemma kept_range_loop fuel a e s f : (forall x, kept (f x)) -> kept (range_loop fuel a e s f).
Proof.
  intros Hf. revert a. induction fuel as [|fuel IH]; intros a; cbn [range_loop]; keeps_tac.
Qed.
#[export] Hint Resolve kept_range_loop : keeps.

Lemma kept_setPC a : kept (cpu_setPC a).
Proof. intros m. reflexivity. Qed.
Lemma kept_halt : kept cpu_halt.
Proof. intros m. reflexivity. Qed.
Lemma kept_setInstrs n : kept (cpu_setInstrsSinceTick n).
Proof. intros m. reflexivity. Qed.
Lemma kept_getRoundMode : kept fl_getRoundMode.
Proof. keeps_open. keeps_tac. Qed.
#[export] Hint Resolve kept_setPC kept_halt kept_setInstrs kept_getRoundMode : keeps.

Lemma kept_jumpTo a : kept (jumpTo a).
Proof. keeps_open. unfold cpu_isPCOk. keeps_tac. Qed.
#[export] Hint Resolve kept_jumpTo : keeps.

Lemma kept_float_result x r : kept (float_result x r).
Proof. destruct r. keeps_open. keeps_tac. Qed.
Lemma kept_check_rounding r : kept (check_rounding r).
Proof. keeps_open. keeps_tac. Qed.
#[export] Hint Resolve kept_float_result kept_check_rounding : keeps.

Lemma kept_doFix z r u : kept (cpu_instr_doFix z r u).
Proof. keeps_open. keeps_tac. Qed.
Lemma kept_doFlot z y u s : kept (cpu_instr_doFlot z y u s).
Proof. keeps_open. keeps_tac. Qed.
#[export] Hint Resolve kept_doFix kept_doFlot : keeps.

(** *** Loads and stores *)

Lemma kept_readByte a flags : kept (mmu_readByte a flags).
Proof. keeps_open. keeps_tac. Qed.
Lemma kept_readWyde a flags : kept (mmu_readWyde a flags).
Proof. keeps_open. keeps_tac. Qed.
Lemma kept_readTetra a flags : kept (mmu_readTetra a flags).
Proof. keeps_open. keeps_tac. Qed.
Lemma kept_readInstr a flags : kept (mmu_readInstr a flags).
Proof. keeps_open. keeps_tac. Qed.
Lemma kept_writeByte a v flags : kept (mmu_writeByte a v flags).
Proof. keeps_open. keeps_tac. Qed.
Lemma kept_writeWyde a v flags : kept (mmu_writeWyde a v flags).
Proof. keeps_open. keeps_tac. Qed.
Lemma kept_writeTetra a v flags : kept (mmu_writeTetra a v flags).
Proof. keeps_open. keeps_tac. Qed.
#[export] Hint Resolve kept_readByte kept_readWyde kept_readTetra kept_readInstr
  kept_writeByte kept_writeWyde kept_writeTetra : keeps.

Lemma kept_loadRange a n flags b : kept (loadRange a n flags b).
Proof. keeps_open. apply kept_range_loop. intros x. destruct b; keeps_tac. Qed.
Lemma kept_ldvts_step tc key prot bit res : kept (ldvts_step tc key prot bit res).
Proof. keeps_open. unfold tc_remove. keeps_tac. Qed.
#[export] Hint Resolve kept_loadRange kept_ldvts_step : keeps.

Lemma kept_plain f i : f <> F_unsave -> f <> F_put -> kept (exec_plain f i).
Proof.
  intros H1 H2. destruct f; try congruence; cbn [exec_plain]; try (keeps_open; keeps_tac).
  all: keeps_tac; repeat (keeps_open; keeps_tac).
Qed.
