(* ===== verification/Isolation.v ===== *)
(** * User code and the privileged part of the machine

    What the instructions of user code can change in the part of the machine that
    belongs to the operating system: the privileged special registers, the mode, and
    the program counter.  The theorems are about the dispatch [execute], that is about
    every instruction of the table. *)

From Stdlib Require Import ZArith Lia Bool.
From stdpp Require Import base list numbers option.
From S2P Require Import Prelude IntArith Ram Machine Registers Devices Bus.
From S2P Require Import Tc Cache Mmu RegStack Float InstrArith InstrMem Decoder.
From S2P Require Import Intrpts Cpu Frames.

Implicit Types (i : sInstrArgs) (m : machine).

(** ** PUT and RESUME in user mode *)

Definition ukept {A} (c : M A) : Prop := forall m, user m -> kregs (snd (c m)) = kregs m.

Lemma ukept_kept {A} (c : M A) : kept c -> ukept c.
Proof. intros H m _. apply H. Qed.

Lemma ukept_bind {A B} (c : M A) (f : A -> M B) :
  kept c -> pc_kept c -> (forall a, ukept (f a)) -> ukept (c ≫= f).
Proof.
  intros H1 H2 Hf m Hm. specialize (H1 m). specialize (H2 m). unfold same in *.
  unfold mbind, M_bind. destruct (c m) as [[a| |] m']; trivial. cbn [snd] in *.
  rewrite Hf; [trivial|]. unfold user in *. rewrite H2. exact Hm.
Qed.

(** The check before an inserted instruction is executed. *)
Lemma kept_guarded {A} (c : M A) :
  ukept c -> kept (pc ← cpu_getPC; when (negb false && priv pc)
                                     (ex_throw EX_DYNAMIC_TRAP TRAP_PRIVILEGED_PC);; c).
Proof.
  intros H m. unfold cpu_getPC. rewrite bind_gets. cbn [negb andb].
  destruct (priv (c_pc (m_cpu m))) eqn:E; [reflexivity|]. apply H, E.
Qed.

Lemma put_denied i m :
  user m -> rC <= ia_x i <= rV \/ ia_x i = rSS ->
  put_checks i m = (Throw EX_DYNAMIC_TRAP (if ia_x i <=? rS then TRAP_BREAKS_RULES
                                           else TRAP_PRIVILEGED_INSTR), m).
Proof.
  intros Hm Hx. unfold user in Hm. unfold put_checks.
  destruct (Z.leb_spec SPECIAL_NUM (ia_x i)); [lia|]. destruct (Z.leb_spec rC (ia_x i)); [|lia].
  cbn [when]. destruct (Z.leb_spec (ia_x i) rS); [reflexivity|].
  assert (E : (ia_x i <=? rV) || (ia_x i =? rSS) = true) by (apply orb_true_iff; lia).
  rewrite bind_mret. apply bind_throw. cbn [when]. rewrite bind_mret, E. unfold cpu_isPriv.
  rewrite bind_gets, Hm. reflexivity.
Qed.

Lemma ukept_put i : ukept (cpu_instr_put i).
Proof.
  intros m Hm. unfold cpu_instr_put.
  destruct (decide (rC <= ia_x i <= rV \/ ia_x i = rSS)) as [H|H].
  - rewrite (bind_throw _ _ _ _ _ _ (put_denied i m Hm H)). reflexivity.
  - assert (K : kept (cpu_instr_put i)); [|apply K]. unfold cpu_instr_put, put_checks, cpu_isPriv.
    unfold bus_getIntrptBits. keeps_tac.
    apply kept_setSpecial. repeat constructor; lia.
Qed.

Lemma execute_plain fuel f : f <> F_resume -> execute fuel f = exec_plain f.
Proof. intros H. destruct fuel as [|fuel], f; try reflexivity. congruence. Qed.

Lemma put_dec f : f = F_put \/ f <> F_put.
Proof. destruct f; (left; reflexivity) || (right; discriminate). Qed.

Lemma ukept_execute fuel f i : f <> F_resume -> f <> F_unsave -> ukept (execute fuel f i).
Proof.
  intros H1 H2. rewrite execute_plain by trivial.
  destruct (put_dec f) as [->|]; [apply ukept_put|]. apply ukept_kept, kept_plain; trivial.
Qed.

Lemma opcode_unsave op : is_byte op -> in_execute (dec_getInstr op) = F_unsave -> op = 0xFB.
Proof.
  intros Hop E. apply Z.eqb_eq.
  pose (P op := match in_execute (dec_getInstr op) with F_unsave => op =? 0xFB | _ => true end).
  assert (H : P op = true) by (apply byte_cases; [vm_compute; reflexivity|trivial]).
  unfold P in H. rewrite E in H. exact H.
Qed.

Lemma opcode_resume op : is_byte op -> in_execute (dec_getInstr op) = F_resume -> op = 0xF9.
Proof.
  intros Hop E. apply Z.eqb_eq.
  pose (P op := match in_execute (dec_getInstr op) with F_resume => op =? 0xF9 | _ => true end).
  assert (H : P op = true) by (apply byte_cases; [vm_compute; reflexivity|trivial]).
  unfold P in H. rewrite E in H. exact H.
Qed.

(** Decoding into a local variable does not change the machine. *)
Lemma decoder_pure a t fmt : keeps eq (decoder a to_local t fmt).
Proof.
  destruct a; cbn [decoder]; keeps_open; unfold to_local, reg_get, cpu_getPC; keeps_tac.
Qed.

Lemma decode_pure raw : keeps eq (dec_decode to_local raw).
Proof. unfold dec_decode. unfold to_local at 1 3. keeps_tac. apply decoder_pure. Qed.

Lemma keeps_eq (R : relation machine) `{!PreOrder R} {A} (c : M A) : keeps eq c -> keeps R c.
Proof. intros H m. rewrite <- (H m). reflexivity. Qed.

Lemma kept_decode raw : kept (dec_decode to_local raw).
Proof. apply keeps_eq; [typeclasses eauto|apply decode_pure]. Qed.
Lemma pc_kept_decode raw : pc_kept (dec_decode to_local raw).
Proof. apply keeps_eq; [typeclasses eauto|apply decode_pure]. Qed.
#[export] Hint Resolve kept_decode pc_kept_decode : keeps.

Section Resume.
Context (exec : fInstr -> sInstrArgs -> M unit) (raw : Z).
(** The inserted instruction is neither RESUME nor UNSAVE. *)
Context (exec_ukept : forall a, ukept (exec (in_execute (dec_getInstr (OPCODE raw))) a)).

Lemma kept_resumeAgain : kept (resumeAgain exec false raw).
Proof.
  unfold resumeAgain, cpu_setResumeInstr, cpu_setResumeInstrArgs.
  do 3 (apply keeps_bind; [typeclasses eauto|keeps_tac|intros ?]).
  apply kept_guarded, exec_ukept.
Qed.

Lemma kept_resumeContinue ry rz : kept (resumeContinue exec false raw ry rz).
Proof.
  unfold resumeContinue, cpu_setResumeInstr, cpu_setResumeInstrArgs.
  apply keeps_when; [typeclasses eauto|]. apply keeps_bind; [typeclasses eauto|keeps_tac|intros _].
  apply kept_guarded.
  repeat (apply ukept_bind; [keeps_tac|keeps_tac|intros ?]). apply exec_ukept.
Qed.
End Resume.

(** A computation that does not change the machine, and what follows it. *)
Lemma pure_bind {A B} (c : M A) (f : A -> M B) m :
  keeps eq c -> (forall a, c m = (Ret a, m) -> kregs (snd (f a m)) = kregs m) ->
  kregs (snd ((c ≫= f) m)) = kregs m.
Proof.
  intros Hc Hf. specialize (Hc m). unfold mbind, M_bind.
  destruct (c m) as [[a| |] m'] eqn:E; cbn in Hc; subst m'; [|reflexivity..].
  apply Hf. reflexivity.
Qed.

(** RESUME in user mode inserts neither RESUME nor, by its check, an instruction other
    than the one in rX with ropcode 0, 1 or 2. *)
Lemma resume_check_user x y m :
  y <> 1 -> resume_check x y m = (Ret tt, m) ->
  x .>> 56 = RESUME_SET \/
  x .>> 56 = RESUME_AGAIN /\ OPCODE (x .& 0xFFFFFFFF) <> OP_RESUME \/
  x .>> 56 = RESUME_CONT /\
    ((OPCODE (x .& 0xFFFFFFFF) .& 0xFA) = 0xB8 \/
     truth (2 ^ ((x .& 0xFFFFFFFF) .>> 28) .& 0x8F30) = false).
Proof.
  intros Hy. unfold resume_check.
  destruct (Z.eqb_spec (x .>> 56) RESUME_SET); [auto|].
  destruct (Z.eqb_spec (x .>> 56) RESUME_CONT).
  { destruct (Z.eqb_spec (OPCODE (x .& 0xFFFFFFFF) .& 0xFA) 0xB8); [auto|].
    destruct (truth _) eqn:E; [discriminate|auto 6]. }
  destruct (Z.eqb_spec (x .>> 56) RESUME_AGAIN).
  { destruct (Z.eqb_spec (OPCODE (x .& 0xFFFFFFFF)) OP_RESUME); [discriminate|auto]. }
  destruct (Z.eqb_spec (x .>> 56) RESUME_TRANS); [|discriminate].
  destruct (Z.eqb_spec y 1); [contradiction|discriminate].
Qed.

Lemma opcode_div raw : is_tetra raw -> OPCODE raw = raw / 2 ^ 24.
Proof.
  intros H. unfold OPCODE, MASK. rewrite land_mask, shiftr_div by lia.
  apply Z.mod_small. unfold is_word in H. Z.div_mod_to_equations; lia.
Qed.

(** Instructions that RESUME_CONT admits are below 0xF0. *)
Lemma cont_opcode raw :
  is_tetra raw -> truth (2 ^ (raw .>> 28) .& 0x8F30) = false -> OPCODE raw < 0xF0.
Proof.
  intros Hr H. destruct (Z.lt_ge_cases (OPCODE raw) 0xF0) as [|G]; [trivial|exfalso].
  rewrite opcode_div in G by trivial. rewrite shiftr_div in H by lia.
  replace (raw / 2 ^ 28) with 15 in H; [discriminate|].
  unfold is_word in Hr. Z.div_mod_to_equations; lia.
Qed.

Lemma low_tetra x : is_tetra (x .& 0xFFFFFFFF).
Proof. rewrite (land_mask_eq x 32) by lia. apply Z.mod_pos_bound. lia. Qed.

Lemma ukept_inserted fuel raw a :
  OPCODE raw <> 0xFB -> OPCODE raw <> 0xF9 ->
  ukept (execute fuel (in_execute (dec_getInstr (OPCODE raw))) a).
Proof.
  intros H1 H2. apply ukept_execute; intros E.
  - apply H2, opcode_resume; [apply opcode_byte|trivial].
  - apply H1, opcode_unsave; [apply opcode_byte|trivial].
Qed.

Lemma kept_resumeSet x rz : kept (resumeSet false x rz).
Proof.
  unfold resumeSet, cpu_setResumeInstr, cpu_getPC. keeps_tac.
Qed.

Lemma ukept_resume fuel i m :
  user m -> OPCODE (r_special (m_reg m) rX .& 0xFFFFFFFF) <> 0xFB ->
  kregs (snd (cpu_instr_resume (execute fuel) i m)) = kregs m.
Proof.
  intros Hm Hop. unfold cpu_instr_resume.
  apply pure_bind; [keeps_tac|intros _ _]. unfold cpu_isPriv. rewrite bind_gets, Hm, andb_false_r.
  cbn [negb]. destruct (Z.eqb_spec (ia_y i) 0) as [Hy|Hy]; [|reflexivity].
  apply pure_bind; [keeps_tac|intros _ _].
  rewrite (bind_ret _ _ _ _ _ (getSpecial_eq rX m eq_refl)). set (x := r_special _ rX) in *.
  destruct (truth (x .& MSB 64)); cbn [negb].
  { cbn [when]. rewrite !bind_mret. assert (K : kept (w ← reg_getSpecial rW; cpu_setPC (w -o 4);; mret ()));
      [keeps_tac|apply K]. }
  apply pure_bind; [unfold when, resume_check; keeps_tac|]. intros [] Hc.
  apply resume_check_user in Hc; [|lia]. cbn [when]. rewrite bind_mret.
  match goal with |- kregs (snd (?c m)) = _ => assert (K : kept c); [|apply K] end.
  apply keeps_bind; [typeclasses eauto|keeps_tac|intros w].
  apply keeps_bind; [typeclasses eauto|keeps_tac|intros _].
  destruct Hc as [->|[[-> H]|[-> H]]]; cbn [Z.eqb Pos.eqb].
  - apply kept_resumeSet.
  - apply kept_resumeAgain. intros a. apply ukept_inserted; trivial.
  - destruct H as [H|H].
    + unfold resumeContinue. rewrite H. keeps_tac.
    + apply kept_resumeContinue. intros a. apply cont_opcode in H; [|apply low_tetra].
      apply ukept_inserted; lia.
Qed.

(** ** The program counter *)

(** The targets that [cpu_isPCOk] refuses in user mode.  It tests [npc + 4], although
    its callers pass the target itself and not the value of the pc before the increment. *)
Definition denied (a : Z) : bool := (2 ^ 63 - 4 <=? a) && (a <? 2 ^ 64 - 4).

Lemma isPCOk_user a m : user m -> is_octa a -> cpu_isPCOk a m = (Ret (negb (denied a)), m).
Proof.
  intros Hm Ha. unfold cpu_isPCOk, gets. rewrite Hm. cbn [negb andb].
  rewrite priv_spec by (apply wrap_range; lia). do 3 f_equal. unfold denied.
  unfold wrap, is_word in *.
  destruct (Z.ltb_spec a (2 ^ 64 - 4)).
  - rewrite Z.mod_small by lia. rewrite andb_true_r.
    destruct (Z.ltb_spec (a + 4) (2 ^ 63)), (Z.leb_spec (2 ^ 63 - 4) a); lia || reflexivity.
  - replace ((a + 4) mod 2 ^ 64) with (a + 4 - 2 ^ 64) by (Z.div_mod_to_equations; lia).
    rewrite andb_false_r. destruct (Z.ltb_spec (a + 4 - 2 ^ 64) (2 ^ 63)); lia || reflexivity.
Qed.

Lemma finish_eq m :
  exists m', cpu_finishInstr m = (Ret tt, m') /\ c_pc (m_cpu m') = c_pc (m_cpu m) +o 4.
Proof. eexists. split; reflexivity. Qed.

Lemma jump_ok a m :
  user m -> is_octa a -> denied a = false ->
  exists m', (jumpTo a;; cpu_finishInstr) m = (Ret tt, m') /\ c_pc (m_cpu m') = a.
Proof.
  intros Hm Ha Hd. unfold jumpTo.
  rewrite bind_assoc, (bind_ret _ _ _ _ _ (isPCOk_user a m Hm Ha)), Hd. cbn [negb when].
  rewrite bind_assoc, bind_mret. unfold cpu_setPC, on_cpu. rewrite bind_modify.
  destruct (finish_eq (set_m_cpu (set_c_pcChanged true (set_c_halted false (set_c_pc (a -o 4) (m_cpu m)))) m))
    as (m' & E & Epc).
  exists m'. split; [exact E|]. rewrite Epc. cbn. rewrite wrap_add_l.
  replace (a - 4 + 4) with a by lia. apply wrap_small, Ha.
Qed.

Lemma priv_allowed a : is_octa a -> denied a = false -> priv a = (2 ^ 64 - 4 <=? a).
Proof.
  intros Ha Hd. rewrite priv_spec by trivial. unfold denied, is_word in *.
  apply andb_false_iff in Hd. rewrite Z.leb_gt, Z.ltb_ge in Hd.
  destruct (Z.leb_spec (2 ^ 64 - 4) a), (Z.ltb_spec a (2 ^ 63)); lia || reflexivity.
Qed.

(** ** The security check *)

(** What [cpu_checkSecurity] demands of rK: no P bit in kernel mode, all program bits in
    user mode. *)
Definition secure m : bool :=
  let k := r_special (m_reg m) rK in
  if priv (c_pc (m_cpu m)) then negb (truth (k .& TRAP_PRIVILEGED_PC))
  else ((k .>> 32) .& 0xFF) =? 0xFF.

Lemma still_readInstr a flags : still (mmu_readInstr a flags).
Proof. keeps_open. keeps_tac. Qed.

Lemma kobs_secure m m' : kobs m' = kobs m -> secure m' = secure m.
Proof.
  intros E. unfold secure. pose proof (f_equal snd E) as Epc. pose proof (f_equal fst E) as Ek.
  cbn in Epc, Ek. injection Ek as _ _ _ _ Ek _ _ _. rewrite Epc, Ek. reflexivity.
Qed.

Lemma bind_inv {A B} (c : M A) (f : A -> M B) m b m' :
  (c ≫= f) m = (Ret b, m') -> exists a m1, c m = (Ret a, m1) /\ f a m1 = (Ret b, m').
Proof. unfold mbind, M_bind. destruct (c m) as [[a| |] m1]; [eauto|discriminate..]. Qed.

Lemma checkSecurity_throws m :
  secure m = false ->
  exists bits m', cpu_checkSecurity m = (Throw EX_DYNAMIC_TRAP bits, m').
Proof.
  intros H. unfold secure in H. unfold cpu_checkSecurity, cpu_getPC. rewrite bind_gets.
  rewrite (bind_ret _ _ _ _ _ (getSpecial_eq rK m eq_refl)).
  destruct (priv (c_pc (m_cpu m))).
  - apply negb_false_iff in H. rewrite H. do 2 eexists. reflexivity.
  - rewrite H. cbn [negb when]. rewrite (bind_ret _ _ _ _ _ (setSpecial_eq rK _ m eq_refl)).
    do 2 eexists. reflexivity.
Qed.

(** ** Properties *)

(** C19: No instruction of a user program changes a privileged register: rN, rI, rT, rTT,
    rK, rU, rV and rSS are kept by every instruction of the table, whatever its operands
    and its outcome, loads and stores that hit devices and instructions inserted by
    RESUME included.  Only UNSAVE is excepted, executed or inserted. *)
Theorem user_keeps_kernel_registers fuel f i m :
  user m -> f <> F_unsave ->
  (f = F_resume -> OPCODE (r_special (m_reg m) rX .& 0xFFFFFFFF) <> 0xFB) ->
  kregs (snd (execute fuel f i m)) = kregs m.
Proof.
  intros Hm Hu Hr. destruct f; try (apply ukept_execute; trivial; discriminate); [].
  destruct fuel as [|fuel]; [reflexivity|]. apply ukept_resume; auto.
Qed.

(** A simulated user program: one page of 2^32 bytes in each segment. *)
Definition user_config : config := mk_config (2 ^ 36) false true 0x1000.

Lemma user_keeps_kernel_registers_witness :
  user (boot user_config) /\
  r_special (m_reg (boot user_config)) rK = 0xFFFFFFFFFFFFFFFF /\
  kregs (snd (execute 1 F_resume (mk_sInstrArgs 0 0 0) (boot user_config))) = kregs (boot user_config).
Proof.
  split; [vm_compute; reflexivity|]. split; [vm_compute; reflexivity|].
  apply (user_keeps_kernel_registers 1 F_resume (mk_sInstrArgs 0 0 0) (boot user_config));
    [vm_compute; reflexivity|discriminate|intros _; vm_compute; discriminate].
Defined.

(** The user program has stored a frame of the register stack whose last octa says
    rG = 32; the octa that UNSAVE loads for register 32 is 0x1234. *)
Definition unsave_frame : machine :=
  snd ((mmu_writeOcta 0x10000 (shl64 32 56) MEM_SIDE_EFFECTS;;
        mmu_writeOcta (0x10000 - 8 * 236) 0x1234 MEM_SIDE_EFFECTS) (boot user_config)).

(** A user program can set rSS, the kernel's stack location: UNSAVE of a frame with
    rG = 32 loads it from the program's own memory, even with an address outside of the
    privileged space. *)
Theorem user_unsave_sets_rSS :
  exists m', user unsave_frame /\ r_special (m_reg unsave_frame) rSS = 0 /\
    cpu_instr_unsave (mk_sInstrArgs 0 0x10000 0) unsave_frame = (Ret tt, m') /\
    user m' /\ r_special (m_reg m') rSS = 0x1234.
Proof.
  exists (snd (cpu_instr_unsave (mk_sInstrArgs 0 0x10000 0) unsave_frame)).
  assert (E : fst (cpu_instr_unsave (mk_sInstrArgs 0 0x10000 0) unsave_frame) = Ret tt)
    by (vm_compute; reflexivity).
  do 2 (split; [vm_compute; reflexivity|]).
  split; [rewrite <- E; apply surjective_pairing|]. split; vm_compute; reflexivity.
Qed.

(** The page of the second segment is read-only, and has been read. *)
Definition read_only_page : machine :=
  snd ((bus_write 0x400006000 0x0000000100000004 false;;
        mmu_readOcta 0x2000000000000000 MEM_SIDE_EFFECTS) (boot user_config)).

(** LDVTS is not privileged: a user program that has no permission to write to a page
    takes it by changing the entry of the page in the translation cache. *)
Theorem user_ldvts_grants :
  let a := 0x2000000000000000 in
  exists m1 m2, user read_only_page /\
    fst (mmu_writeOcta a 77 MEM_SIDE_EFFECTS read_only_page)
    = Throw EX_DYNAMIC_TRAP (TRAP_REPEAT .| TRAP_PROT_WRITE) /\
    cpu_instr_ldvts (mk_sInstrArgs 0 a 7) read_only_page = (Ret tt, m1) /\ user m1 /\
    mmu_writeOcta a 77 MEM_SIDE_EFFECTS m1 = (Ret tt, m2) /\
    fst (mmu_readOcta a MEM_SIDE_EFFECTS m2) = Ret 77.
Proof.
  cbv zeta.
  set (m1 := snd (cpu_instr_ldvts (mk_sInstrArgs 0 0x2000000000000000 7) read_only_page)).
  exists m1, (snd (mmu_writeOcta 0x2000000000000000 77 MEM_SIDE_EFFECTS m1)).
  assert (E1 : fst (cpu_instr_ldvts (mk_sInstrArgs 0 0x2000000000000000 7) read_only_page) = Ret tt)
    by (vm_compute; reflexivity).
  assert (E2 : fst (mmu_writeOcta 0x2000000000000000 77 MEM_SIDE_EFFECTS m1) = Ret tt)
    by (vm_compute; reflexivity).
  do 2 (split; [vm_compute; reflexivity|]).
  split; [rewrite <- E1; apply surjective_pairing|]. split; [vm_compute; reflexivity|].
  split; [rewrite <- E2; apply surjective_pairing|]. vm_compute; reflexivity.
Qed.

(** Jumps from user code.  JMP, GO, PUSH and POP to a target from 2^63 - 4 to 2^64 - 5
    trap before anything is changed; a jump to any other target is completed, and leaves
    user mode exactly for the targets from 2^64 - 4, which the check lets pass because
    it looks 4 bytes ahead of the target. *)
Theorem user_jumps_guarded i m :
  user m -> is_octa (ia_y i) -> is_octa (ia_z i) ->
  let trap := (Throw EX_DYNAMIC_TRAP TRAP_PRIVILEGED_PC, m) in
  (denied (ia_z i) = true ->
     cpu_instr_jmp i m = trap /\ cpu_instr_push i m = trap /\ cpu_instr_pop i m = trap) /\
  (denied (ia_y i +o ia_z i) = true -> cpu_instr_go i m = trap) /\
  (denied (ia_z i) = false ->
     exists m', (cpu_instr_jmp i;; cpu_finishInstr) m = (Ret tt, m') /\ c_pc (m_cpu m') = ia_z i /\
       (user m' <-> ia_z i < 2 ^ 64 - 4)).
Proof.
  intros Hm Hy Hz. cbv zeta. csplit.
  - intros Hd. pose proof (isPCOk_user (ia_z i) m Hm Hz) as E. rewrite Hd in E.
    unfold cpu_instr_jmp, jumpTo, cpu_instr_push, cpu_instr_pop.
    rewrite !(bind_ret _ _ _ _ _ E). csplit; reflexivity.
  - intros Hd. pose proof (isPCOk_user (ia_y i +o ia_z i) m Hm (wrap_range 64 _ ltac:(lia))) as E.
    rewrite Hd in E. unfold cpu_instr_go. cbv zeta. rewrite (bind_ret _ _ _ _ _ E). reflexivity.
  - intros Hd. destruct (jump_ok (ia_z i) m Hm Hz Hd) as (m' & E & Epc).
    exists m'. csplit; [exact E|exact Epc|]. unfold user.
    rewrite Epc, priv_allowed, Z.leb_gt by trivial. reflexivity.
Qed.

Lemma user_jumps_guarded_witness :
  let i := mk_sInstrArgs 0 0 (2 ^ 64 - 4) in
  user (boot user_config) /\
  exists m', (cpu_instr_jmp i;; cpu_finishInstr) (boot user_config) = (Ret tt, m') /\
    c_pc (m_cpu m') = 2 ^ 64 - 4 /\ ~ user m'.
Proof.
  cbv zeta. assert (Hu : user (boot user_config)) by (vm_compute; reflexivity).
  split; [exact Hu|].
  destruct (user_jumps_guarded (mk_sInstrArgs 0 0 (2 ^ 64 - 4)) (boot user_config))
    as (_ & _ & H); [exact Hu|concrete_word|concrete_word|].
  destruct (H eq_refl) as (m' & E & Epc & Hm'). exists m'. split; [exact E|]. split; [exact Epc|].
  intros K. apply Hm' in K. cbn in K. lia.
Defined.

(** No instruction completes while the mode and rK contradict each other: at a
    privileged address with the P bit of rK set (where a user program is that has left
    user mode on its own), and in user mode without all program bits, [cpu_execInstr]
    never returns: the fetch or the security check throws. *)
Theorem insecure_traps tick_fuel resume_fuel m :
  secure m = false ->
  forall m', cpu_execInstr tick_fuel resume_fuel m <> (Ret tt, m').
Proof.
  intros H m' E. unfold cpu_execInstr in E. unfold ev_fire, on_cpu, cpu_getPC in E.
  rewrite !bind_modify, bind_gets in E.
  destruct (bind_inv _ _ _ _ _ E) as (raw & m3 & R & E3). clear E.
  match type of R with mmu_readInstr ?a ?f ?m1 = _ =>
    pose proof (still_readInstr a f m1) as K; rewrite R in K end.
  rewrite bind_modify in E3.
  match type of E3 with (_ ≫= _) ?m4 = _ => assert (S4 : secure m4 = false) end.
  { rewrite <- H. apply kobs_secure. exact K. }
  destruct (checkSecurity_throws _ S4) as (bits & m5 & T).
  rewrite (bind_throw _ _ _ _ _ _ T) in E3. discriminate E3.
Qed.

Lemma insecure_traps_witness :
  let m := set_m_cpu (set_c_pc (2 ^ 64 - 4) (m_cpu (boot user_config))) (boot user_config) in
  secure m = false /\ forall m', cpu_execInstr 1 1 m <> (Ret tt, m').
Proof.
  cbv zeta. split; [vm_compute; reflexivity|]. apply (insecure_traps 1 1).
  vm_compute. reflexivity.
Defined.
