(* ===== verification/Exceptions.v ===== *)
(** * Exceptions and the instruction loop

    How a trap enters the kernel and RESUME leaves it again, when interrupts are
    taken, which RESUMEs never end, and that [cpu_run] repeats the cycle of
    [cpu_step]. *)

From Stdlib Require Import ZArith Lia Bool.
From stdpp Require Import base list numbers option.
From S2P Require Import Prelude IntArith Ram Machine Registers Devices Bus Tc Cache Mmu.
From S2P Require Import RegStack Float InstrArith InstrMem Decoder Intrpts Cpu Frames Isolation.

Implicit Types (i : sInstrArgs) (m : machine).

(** What [cpu_step] does with an exception. *)
Definition deliver (ex : exn) (bits : Z) : M unit :=
  b ← cpu_handleException ex bits;
  when b cpu_finishInstr.

(** ** Sequences of register accesses *)

Abbreviation special m rno := (r_special (m_reg m) rno).

(** $255 is a global register. *)
Definition global255 m : Prop := r_G (m_reg m) <= 255.

Definition set_global255 (v : Z) (r : regs) : regs :=
  set_r_global (upd (r_global r) 255 v) r.

Lemma get255 m : global255 m -> reg_get 255 m = (Ret (r_global (m_reg m) 255), m).
Proof.
  intros H. apply Z.leb_le in H. unfold reg_get, gets, reg_val. rewrite H. reflexivity.
Qed.

Lemma set255 v m :
  global255 m -> reg_set 255 v m = (Ret tt, set_m_reg (set_global255 v (m_reg m)) m).
Proof.
  intros H. apply Z.leb_le in H. unfold reg_set, get_reg. rewrite bind_gets, H. reflexivity.
Qed.

Lemma reg_val_global255 m : global255 m -> reg_val (m_reg m) 255 = r_global (m_reg m) 255.
Proof. intros H. apply Z.leb_le in H. unfold reg_val. rewrite H. reflexivity. Qed.

Lemma reg_val_255 r r' v :
  r_local r' = r_local r -> r_G r' = r_G r -> r_L r' = r_L r -> r_O r' = r_O r ->
  r_global r' = upd (r_global r) 255 v ->
  forall rno, 0 <= rno < 255 -> reg_val r' rno = reg_val r rno.
Proof.
  intros El EG EL EO Eg rno H. unfold reg_val. rewrite El, EG, EL, EO, Eg.
  rewrite upd_other; [reflexivity|]. rewrite (land_mask_eq rno 8 GREG_MASK) by (lia || reflexivity).
  rewrite Z.mod_small; lia.
Qed.

(** Runs the register accesses at the head of a computation. *)
Ltac run_step :=
  match goal with
  | |- context [(reg_getSpecial ?r ≫= ?f) ?m] =>
    rewrite (bind_ret _ f _ _ _ (getSpecial_eq r m eq_refl))
  | |- context [(reg_setSpecial ?r ?v ≫= ?f) ?m] =>
    rewrite (bind_ret _ f _ _ _ (setSpecial_eq r v m eq_refl))
  | |- context [(gets ?g ≫= ?f) ?m] => rewrite (bind_gets g f m)
  | |- context [(modify ?g ≫= ?f) ?m] => rewrite (bind_modify g f m)
  | |- context [(mret ?a ≫= ?f) ?m] => rewrite (bind_mret a f m)
  | |- context [((?c ≫= ?f) ≫= ?g) ?m] => rewrite (bind_assoc c f g m)
  | |- context [(reg_get 255 ≫= ?f) ?m] =>
    rewrite (bind_ret _ f _ _ _ (get255 m ltac:(assumption)))
  | |- context [(reg_set 255 ?v ≫= ?f) ?m] =>
    rewrite (bind_ret _ f _ _ _ (set255 v m ltac:(assumption)))
  end.

(** ** Entering a trap *)

(** The bits that change how the trap is entered: a fault of the fetch, an instruction
    to be repeated, a translation by software. *)
Definition plain_trap (bits : Z) : bool :=
  negb (truth (bits .& (TRAP_PROT_EXEC .| TRAP_REPEAT .| TRAP_SOFT_TRANS))).

(** A dynamic trap with program bits is taken when one of the bits of rQ, these among
    them, is enabled in rK. *)
Definition enabled (bits : Z) m : bool :=
  negb (truth (bits .& 0xFF00000000)) || truth ((special m rQ .| bits) .& special m rK).

Lemma plain_bits bits b :
  plain_trap bits = true -> (TRAP_PROT_EXEC .| TRAP_REPEAT .| TRAP_SOFT_TRANS) .& b = b ->
  truth (bits .& b) = false.
Proof.
  unfold plain_trap, truth. intros H <-. rewrite negb_involutive in H. apply Z.eqb_eq in H.
  rewrite Z.land_assoc, H. reflexivity.
Qed.

Lemma truth_lor_msb x y : truth ((MSB 64 .| x .| y) .& MSB 64) = true.
Proof.
  unfold truth. apply negb_true_iff, Z.eqb_neq. intros H.
  apply (f_equal (fun z => Z.testbit z 63)) in H.
  rewrite Z.land_spec, !Z.lor_spec in H. discriminate H.
Qed.

(** [m'] differs from [m] in the registers [r] and in the CPU state [c] at most. *)
Definition with_state (r : regs) (c : cpu_state) m : machine := set_m_cpu c (set_m_reg r m).

Lemma with_reg r m : set_m_reg r m = with_state r (m_cpu m) m.
Proof. destruct m. reflexivity. Qed.

Lemma set_reg_same m : set_m_reg (m_reg m) m = m.
Proof. destruct m. reflexivity. Qed.

Lemma operands_frame ex ry rz m :
  ry < SPECIAL_NUM -> rz < SPECIAL_NUM -> is_trap ex = true ->
  exists a b c, trigger_operands ex ry rz m
    = (Ret tt, with_state (put_special rz b (put_special ry a (m_reg m))) c m) /\
    c_pc c = c_pc (m_cpu m).
Proof.
  intros Hy Hz Hex. destruct ex; try discriminate Hex; unfold trigger_operands, reg_get, on_cpu.
  all: rewrite bind_gets; cbv zeta; try case_match.
  all: repeat first [rewrite bind_gets | rewrite bind_modify | rewrite setSpecial_eq by trivial
    | match goal with |- context [(reg_setSpecial ?r ?v ≫= ?f) ?m] =>
        rewrite (bind_ret _ f _ _ _ (setSpecial_eq r v m ltac:(assumption))) end].
  all: eexists _, _, _; split; [|]; first [reflexivity|apply f_equal, with_reg|reflexivity].
Qed.

(** The memory and the ways to it. *)
Definition memory m := (m_ram m, m_caches m, m_tcs m).

(** The instruction that is interrupted, and rXX for it: RESUME skips the instruction. *)
Definition interrupted m : Z :=
  if c_useResume (m_cpu m) then c_instrRawResume (m_cpu m) else c_instrRaw (m_cpu m).
Definition skip_rx (ex : exn) (bits : Z) m : Z :=
  MSB 64 .| interrupted m .| (if bool_decide (ex = EX_DYNAMIC_TRAP) then bits .& 0xFF00000000 else 0).

(** rQ collects the program bits of a dynamic trap. *)
Definition new_rQ (ex : exn) (bits : Z) m : Z :=
  if bool_decide (ex = EX_DYNAMIC_TRAP) && truth (bits .& 0xFF00000000)
  then special m rQ .| bits else special m rQ.

(** The machine at the entry of the handler of a trap: where to continue and what with
    is in rWW and rXX, $255 in rBB; the other registers are as they were, but for the
    operands in rYY and rZZ, the reason in rQ and the counter rC. *)
Definition entered (ex : exn) (bits : Z) m m1 : Prop :=
  c_pc (m_cpu m1) = (special m (if bool_decide (ex = EX_DYNAMIC_TRAP) then rTT else rT) -o 4) +o 4 /\
  special m1 rK = 0 /\ special m1 rQ = new_rQ ex bits m /\ special m1 rXX = skip_rx ex bits m /\
  special m1 rWW = c_pc (m_cpu m) +o 4 /\ special m1 rBB = r_global (m_reg m) 255 /\
  r_global (m_reg m1) = upd (r_global (m_reg m)) 255 (special m rJ) /\
  (r_local (m_reg m1), r_G (m_reg m1), r_L (m_reg m1), r_O (m_reg m1), r_S (m_reg m1))
  = (r_local (m_reg m), r_G (m_reg m), r_L (m_reg m), r_O (m_reg m), r_S (m_reg m)) /\
  (forall k, k <> rK -> k <> rQ -> k <> rC -> ~ (rWW <= k <= rZZ \/ k = rBB) ->
     special m1 k = special m k) /\
  memory m1 = memory m.

(** The part of [cpu_triggerException] behind the decision to take the trap. *)
Definition enter (ex : exn) (bits rxVal : Z) : M unit :=
  ev_fire (EV_EXCEPTION ex bits);;
  reg_setSpecial rXX rxVal;;
  pc ← cpu_getPC;
  reg_setSpecial rWW (pc +o 4);;
  trigger_operands ex rYY rZZ;;
  v255 ← reg_get 255;
  reg_setSpecial rBB v255;;
  j ← reg_getSpecial rJ;
  reg_set 255 j;;
  reg_setSpecial rK 0;;
  trigger_pc ex bits (if bool_decide (ex = EX_DYNAMIC_TRAP) then rTT else rT).

Lemma dyn_dyn : bool_decide (EX_DYNAMIC_TRAP = EX_DYNAMIC_TRAP) = true.
Proof. reflexivity. Qed.
Lemma forced_dyn : bool_decide (EX_FORCED_TRAP = EX_DYNAMIC_TRAP) = false.
Proof. reflexivity. Qed.

Lemma trigger_enter ex bits m :
  is_trap ex = true -> plain_trap bits = true ->
  (ex = EX_DYNAMIC_TRAP -> enabled bits m = true) ->
  exists r, cpu_triggerException ex bits m = enter ex bits (skip_rx ex bits m) (set_m_reg r m) /\
    (r = m_reg m /\ special m rQ = new_rQ ex bits m \/
     r = put_special rQ (new_rQ ex bits m) (m_reg m)).
Proof.
  intros Hex Hp He. pose proof (fun b H => plain_bits bits b Hp H) as Hb.
  unfold cpu_triggerException, trigger_rx, skip_rx, interrupted, enabled, new_rQ in *.
  rewrite !(Hb TRAP_PROT_EXEC), !(Hb TRAP_SOFT_TRANS), !(Hb TRAP_REPEAT), !andb_false_r by reflexivity.
  cbn [when]. rewrite bind_mret, bind_gets. rewrite (Hb TRAP_PROT_EXEC) by reflexivity. cbv zeta.
  destruct (truth (bits .& 0xFF00000000)) eqn:R; destruct ex; try discriminate Hex;
    rewrite ?dyn_dyn, ?forced_dyn; cbn [andb when is_trap];
    rewrite ?(Hb TRAP_SOFT_TRANS) by reflexivity.
  2: {
    specialize (He eq_refl). cbn in He. eexists. split; [|right; reflexivity].
    repeat run_step.
    cbn [m_reg set_m_reg]. rewrite put_special_same, put_special_other by discriminate.
    rewrite He. cbn [negb]. unfold enter. rewrite dyn_dyn. reflexivity. }
  all: exists (m_reg m); split; [|left; split; reflexivity]; repeat run_step; rewrite set_reg_same.
  all: cbn [is_trap when]; unfold enter; rewrite ?dyn_dyn, ?forced_dyn.
  - rewrite Z.lor_0_r. reflexivity.
  - rewrite Z.lor_0_r. reflexivity.
  - apply negb_false_iff, Z.eqb_eq in R. rewrite R, Z.lor_0_r. reflexivity.
Qed.

Lemma finish_step m :
  cpu_finishInstr m
  = (Ret tt, let m := set_m_reg (put_special rC (special m rC +o 1) (m_reg m)) m in
             let m := set_m_log (EV_AFTER_EXEC :: m_log m) m in
             set_m_cpu (set_c_pc (c_pc (m_cpu m) +o 4) (m_cpu m)) m).
Proof. reflexivity. Qed.

Lemma trigger_pc_trap ex bits rt m :
  is_trap ex = true -> rt < SPECIAL_NUM ->
  trigger_pc ex bits rt m = (Ret tt, set_m_cpu (set_c_pc (special m rt -o 4) (m_cpu m)) m).
Proof.
  intros Hex Hrt. destruct ex; try discriminate Hex; cbn [trigger_pc];
    rewrite (bind_ret _ _ _ _ _ (getSpecial_eq rt m Hrt)); reflexivity.
Qed.

Lemma enter_spec ex bits m m0 r :
  is_trap ex = true -> global255 m ->
  m0 = set_m_reg r m ->
  r = m_reg m /\ special m rQ = new_rQ ex bits m \/ r = put_special rQ (new_rQ ex bits m) (m_reg m) ->
  exists m1, (enter ex bits (skip_rx ex bits m);; cpu_finishInstr) m0 = (Ret tt, m1) /\
    entered ex bits m m1.
Proof.
  intros Hex Hg E0 Hr.
  assert (Hg0 : global255 m0).
  { subst m0. destruct Hr as [[-> _]| ->]; [rewrite set_reg_same|]; exact Hg. }
  unfold enter, ev_fire, cpu_getPC. repeat run_step.
  match goal with |- context [(trigger_operands _ _ _ ≫= _) ?m1] =>
    destruct (operands_frame ex rYY rZZ m1 eq_refl eq_refl Hex) as (a & b & c & E & Hc) end.
  rewrite (bind_ret _ _ _ _ _ E). repeat run_step.
  assert (Hrt : (if bool_decide (ex = EX_DYNAMIC_TRAP) then rTT else rT) < SPECIAL_NUM)
    by (destruct (bool_decide _); reflexivity).
  rewrite (bind_ret _ _ _ _ _ (trigger_pc_trap ex bits _ _ Hex Hrt)).
  rewrite finish_step. eexists. split; [reflexivity|]. clear E Hg0.
  assert (Hs : forall k, k <> rQ -> special m0 k = special m k).
  { intros k Hk. subst m0. destruct Hr as [[-> _]| ->]; [reflexivity|]. apply put_special_other, Hk. }
  assert (Hq : special m0 rQ = new_rQ ex bits m).
  { subst m0. destruct Hr as [[-> E1]| ->]; [exact E1|]. apply put_special_same. }
  assert (Hm : (c_pc (m_cpu m0), r_global (m_reg m0), r_local (m_reg m0), r_G (m_reg m0), r_L (m_reg m0),
                r_O (m_reg m0), r_S (m_reg m0), memory m0)
             = (c_pc (m_cpu m), r_global (m_reg m), r_local (m_reg m), r_G (m_reg m), r_L (m_reg m),
                r_O (m_reg m), r_S (m_reg m), memory m)).
  { subst m0. destruct Hr as [[-> _]| ->]; [rewrite set_reg_same|]; reflexivity. }
  clear E0 Hr. injection Hm as Epc Eg El EG EL EO ES Em Ec Et.
  unfold entered, memory. cbn. csplit; try congruence.
  - rewrite <- Hs by (destruct (bool_decide _); discriminate).
    rewrite !upd_other by (destruct (bool_decide _); discriminate). reflexivity.
  - rewrite (Hs rJ) by discriminate. congruence.
  - intros k H1 H2 H3 H4. rewrite !upd_other by lia. apply Hs, H2.
Qed.

Lemma deliver_trap ex bits m :
  is_trap ex = true -> plain_trap bits = true -> global255 m ->
  (ex = EX_DYNAMIC_TRAP -> enabled bits m = true) ->
  exists m1, deliver ex bits m = (Ret tt, m1) /\ entered ex bits m m1.
Proof.
  intros Hex Hp Hg He. unfold deliver, cpu_handleException.
  rewrite decide_False by (intros ->; discriminate Hex). rewrite bind_assoc.
  destruct (trigger_enter ex bits m Hex Hp He) as (r & Et & Hr).
  destruct (enter_spec ex bits m _ r Hex Hg eq_refl Hr) as (m1 & E1 & H1).
  exists m1. split; [|exact H1]. rewrite <- E1. unfold mbind, M_bind. rewrite Et. reflexivity.
Qed.

(** ** Leaving it again *)

Lemma resume_skip exec m :
  priv (c_pc (m_cpu m)) = true -> global255 m -> truth (special m rXX .& MSB 64) = true ->
  exists m2, (cpu_instr_resume exec (mk_sInstrArgs 0 1 0);; cpu_finishInstr) m = (Ret tt, m2) /\
    c_pc (m_cpu m2) = (special m rWW -o 4) +o 4 /\ special m2 rK = r_global (m_reg m) 255 /\
    r_global (m_reg m2) = upd (r_global (m_reg m)) 255 (special m rBB) /\
    (r_local (m_reg m2), r_G (m_reg m2), r_L (m_reg m2), r_O (m_reg m2))
    = (r_local (m_reg m), r_G (m_reg m), r_L (m_reg m), r_O (m_reg m)) /\
    memory m2 = memory m.
Proof.
  intros Hp Hg Hx. unfold cpu_instr_resume, cpu_isPriv.
  cbn [ia_y Z.ltb Z.eqb Z.compare Pos.compare Pos.compare_cont Pos.eqb when].
  repeat run_step. rewrite Hp. cbn [andb negb when]. repeat run_step. rewrite Hx. cbn [negb when].
  unfold cpu_setPC, on_cpu. repeat run_step. rewrite finish_step.
  eexists. split; [reflexivity|]. unfold memory. cbn. csplit; reflexivity.
Qed.

Lemma octa_back w : is_octa w -> (w -o 4) +o 4 = w.
Proof. intros H. rewrite wrap_add_l, Z.sub_add. apply wrap_small, H. Qed.

(** C11: A trap that does not repeat its instruction, and the RESUME 1 that ends its handler.
    The trap is a forced one, or a dynamic one that is enabled and whose bits contain neither
    TRAP_REPEAT nor TRAP_SOFT_TRANS nor TRAP_PROT_EXEC: page faults, translations by software and
    faults of the fetch, after which RESUME repeats the instruction or inserts a translation, are
    not meant.  $255 is a global register, rT and rTT are words.  The trap enters the handler at rT
    or rTT with all interrupts disabled and the general registers but $255 as they were.
    Whatever the handler does then: as long as it stays in kernel mode and keeps rWW, rXX
    and rBB, RESUME 1 continues behind the interrupted instruction, takes rK from $255,
    restores $255 and changes no other general register and no memory. *)
Theorem trap_resume_roundtrip ex bits m :
  is_trap ex = true -> plain_trap bits = true -> global255 m ->
  (ex = EX_DYNAMIC_TRAP -> enabled bits m = true) ->
  is_octa (special m rT) -> is_octa (special m rTT) ->
  exists m1, deliver ex bits m = (Ret tt, m1) /\
    c_pc (m_cpu m1) = special m (if bool_decide (ex = EX_DYNAMIC_TRAP) then rTT else rT) /\
    special m1 rK = 0 /\ memory m1 = memory m /\
    (forall rno, 0 <= rno < 255 -> reg_val (m_reg m1) rno = reg_val (m_reg m) rno) /\
    forall exec mh,
      priv (c_pc (m_cpu mh)) = true -> global255 mh ->
      Forall (fun k => special mh k = special m1 k) [rWW; rXX; rBB] ->
      exists m2,
        (cpu_instr_resume exec (mk_sInstrArgs 0 1 0);; cpu_finishInstr) mh = (Ret tt, m2) /\
        c_pc (m_cpu m2) = c_pc (m_cpu m) +o 4 /\
        special m2 rK = reg_val (m_reg mh) 255 /\
        reg_val (m_reg m2) 255 = reg_val (m_reg m) 255 /\ memory m2 = memory mh /\
        (forall rno, 0 <= rno < 255 -> reg_val (m_reg m2) rno = reg_val (m_reg mh) rno).
Proof.
  intros Hex Hp Hg He HT HTT.
  destruct (deliver_trap ex bits m Hex Hp Hg He) as (m1 & E1 & Epc & Ek & _ & Ex & Ew & Eb & Eg & El & _ & Em).
  exists m1. csplit; trivial.
  { rewrite Epc. apply octa_back. destruct (bool_decide _); trivial. }
  { injection El as E2 E3 E4 E5 E6. apply (reg_val_255 _ _ (special m rJ)); trivial. }
  intros exec mh Hpriv Hg2 Hk. inversion_clear Hk as [|? ? Kw K2]. inversion_clear K2 as [|? ? Kx K3].
  inversion_clear K3 as [|? ? Kb _]. rewrite Ew in Kw. rewrite Ex in Kx. rewrite Eb in Kb.
  destruct (resume_skip exec mh Hpriv Hg2) as (m2 & E2 & Epc2 & Ek2 & Eg2 & El2 & Em2).
  { rewrite Kx. apply truth_lor_msb. }
  injection El2 as F1 F2 F3 F4. exists m2. csplit; trivial.
  - rewrite Epc2, Kw. apply octa_back, wrap_range. lia.
  - rewrite Ek2. symmetry. apply reg_val_global255, Hg2.
  - rewrite !reg_val_global255 by (unfold global255 in *; congruence). rewrite Eg2, Kb. apply upd_same.
  - apply (reg_val_255 _ _ (special mh rBB)); trivial.
Qed.

Lemma trap_resume_roundtrip_witness :
  exists m1, deliver EX_FORCED_TRAP 0 (boot user_config) = (Ret tt, m1) /\
    c_pc (m_cpu m1) = 0x8000000500000000 /\
    exists m2, (cpu_instr_resume (fun _ _ => mret tt) (mk_sInstrArgs 0 1 0);; cpu_finishInstr) m1
               = (Ret tt, m2) /\ c_pc (m_cpu m2) = 0x1004.
Proof.
  destruct (trap_resume_roundtrip EX_FORCED_TRAP 0 (boot user_config))
    as (m1 & E & Epc & _ & _ & _ & H);
    [reflexivity|reflexivity|vm_compute; discriminate|discriminate|concrete_word|concrete_word|].
  change (bool_decide (EX_FORCED_TRAP = EX_DYNAMIC_TRAP)) with false in Epc.
  exists m1. split; [exact E|]. split; [rewrite Epc; vm_compute; reflexivity|].
  destruct (H (fun _ _ => mret tt) m1) as (m2 & E2 & Epc2 & _).
  - rewrite Epc. vm_compute. reflexivity.
  - replace m1 with (snd (deliver EX_FORCED_TRAP 0 (boot user_config))) by (rewrite E; reflexivity).
    vm_compute. congruence.
  - repeat constructor.
  - exists m2. split; [exact E2|]. rewrite Epc2. vm_compute. reflexivity.
Defined.

(** ** RESUMEs that never end *)

(** RESUME 1, as the instruction to be inserted after a translation by software. *)
Abbreviation nested_resume := 0x03000000F9000001.

Record looping m : Prop := {
  lo_priv : priv (c_pc (m_cpu m)) = true;
  lo_back : priv (special m rWW -o 4) = true;
  lo_instr : special m rXX = nested_resume;
  lo_page : 0 <= vt_s (mmu_unpackrV (special m rV)) < 64;
  lo_global : global255 m
}.

Lemma tc_set_reg tc key trans : keeps (same m_reg) (tc_set tc key trans).
Proof. keeps_open. unfold on_tc. keeps_tac. Qed.

Lemma tc_set_pc tc key trans : pc_kept (tc_set tc key trans).
Proof. apply still_pc, still_tc_set. Qed.

Lemma tc_set_ret tc key trans m : exists r m', tc_set tc key trans m = (Ret r, m').
Proof. unfold tc_set. rewrite bind_gets. case_match; eexists _, _; reflexivity. Qed.

Lemma decode_resume m : dec_decode to_local 0xF9000001 m = (Ret (mk_sInstrArgs 0 1 0), m).
Proof. reflexivity. Qed.

Lemma looping_same m m' :
  m_reg m' = m_reg m -> c_pc (m_cpu m') = c_pc (m_cpu m) -> looping m -> looping m'.
Proof. intros E1 E2 [? ? ? ? ?]. split; unfold global255 in *; rewrite ?E1, ?E2; trivial. Qed.

Lemma looping_trans exec m :
  looping m ->
  exists m', resumeTrans exec true 0xF9000001 m = exec F_resume (mk_sInstrArgs 0 1 0) m' /\
    looping m'.
Proof.
  intros H. pose proof (lo_page _ H) as Hs. unfold resumeTrans, tc_addrToKey, tc_pteToTrans.
  repeat run_step. change (OPCODE 0xF9000001 =? OP_SWYM) with false. cbn [negb].
  do 2 (rewrite (bind_ret _ _ _ _ _ (c_shl64_eq 1 _ m Hs)); repeat run_step).
  match goal with |- context [(tc_set ?t ?k ?v ≫= _) _] =>
    destruct (tc_set_ret t k v m) as (o & m1 & E);
    pose proof (tc_set_reg t k v m) as Er; pose proof (tc_set_pc t k v m) as Ep end.
  rewrite (bind_ret _ _ _ _ _ E). rewrite E in Er, Ep. unfold same in Er, Ep. cbn [snd] in Er, Ep.
  unfold resumeAgain. rewrite (bind_ret _ _ _ _ _ (decode_resume m1)).
  unfold cpu_setResumeInstr, cpu_setResumeInstrArgs, on_cpu, cpu_getPC. repeat run_step. cbn [negb andb when].
  rewrite bind_mret. eexists. split; [reflexivity|]. apply (looping_same m); trivial.
Qed.

(** One RESUME of the chain hands the machine on to the next one. *)
Lemma looping_step exec m :
  looping m ->
  exists m', cpu_instr_resume exec (mk_sInstrArgs 0 1 0) m = exec F_resume (mk_sInstrArgs 0 1 0) m' /\
    looping m'.
Proof.
  intros [Hp Hw Hx Hs Hg]. unfold cpu_instr_resume, cpu_isPriv.
  cbn [ia_y Z.ltb Z.eqb Z.compare Pos.compare Pos.compare_cont Pos.eqb when].
  repeat run_step. rewrite Hp. cbn [andb negb when]. repeat run_step. rewrite Hx.
  change (nested_resume .& 0xFFFFFFFF) with 0xF9000001. change (nested_resume .>> 56) with 3.
  change (negb (truth (nested_resume .& MSB 64))) with true.
  change (resume_check nested_resume 1) with (mret tt : M unit). cbn [Z.eqb Pos.eqb when].
  repeat run_step.
  unfold cpu_setPC, on_cpu. repeat run_step.
  apply looping_trans. split; trivial.
Qed.

(** RESUME_TRANS does not refuse to insert a RESUME: with [nested_resume] in rXX and a
    privileged continuation in rWW, RESUME 1 executes itself again and again; no bound on
    the nesting is enough. *)
Theorem nested_resume_diverges fuel m :
  looping m -> fst (execute fuel F_resume (mk_sInstrArgs 0 1 0) m) = Stop OutOfFuel.
Proof.
  revert m; induction fuel as [|fuel IH]; intros m H; [reflexivity|]. cbn [execute].
  destruct (looping_step (execute fuel) m H) as (m' & -> & H'). apply IH, H'.
Qed.

Lemma nested_resume_diverges_witness :
  let m := snd ((cpu_setPC (2 ^ 63);; reg_setSpecial rWW (2 ^ 63 + 4);;
                 reg_setSpecial rXX nested_resume) (boot user_config)) in
  looping m /\ fst (execute 1000 F_resume (mk_sInstrArgs 0 1 0) m) = Stop OutOfFuel.
Proof.
  cbv zeta. match goal with |- ?P /\ _ => assert (H : P) end.
  { split; first [reflexivity|vm_compute; reflexivity|split; vm_compute; congruence|vm_compute; discriminate]. }
  split; [exact H|]. apply nested_resume_diverges, H.
Defined.

(** ** Interrupts *)

(** The machine after the interval counter has been decreased. *)
Definition counted m : machine :=
  let ri := special m rI -o 1 in
  let r := put_special rI ri (m_reg m) in
  set_m_reg (if ri =? 0 then put_special rQ (r_special r rQ .| TRAP_INTERVAL) r else r) m.

(** The interrupts that are requested and enabled. *)
Definition pending m : Z := special m rQ .& special m rK.

Lemma checkForInterrupt_eq m :
  cpu_checkForInterrupt m
  = let m := counted m in
    if truth (pending m) then (Throw EX_DYNAMIC_TRAP (pending m .& not64 0xFF00000000), m)
    else if negb (priv (c_pc (m_cpu m))) && truth (c_arithEx (m_cpu m))
    then (Throw EX_DYNAMIC_TRIP (c_arithEx (m_cpu m)), set_m_cpu (set_c_arithEx 0 (m_cpu m)) m)
    else (Ret tt, m).
Proof.
  unfold cpu_checkForInterrupt, counted, cpu_getPC. repeat run_step.
  destruct (special m rI -o 1 =? 0); cbn [when]; repeat run_step; unfold pending, truth.
  all: destruct (negb _); [reflexivity|]; repeat run_step.
  all: destruct (_ && _); reflexivity.
Qed.

(** C21: A requested and enabled interrupt is taken at the end of the instruction, before
    anything else is done: the next instruction is the first of the handler at rTT, with
    all interrupts disabled, the request still in rQ and the continuation behind the
    finished instruction in rWW.  The request can be the interval counter that reaches 0
    with this instruction. *)
Theorem interrupts_taken rest m :
  truth (pending (counted m)) = true ->
  truth (pending (counted m) .& (TRAP_REPEAT .| TRAP_SOFT_TRANS)) = false ->
  global255 m -> is_octa (special m rTT) ->
  exists m1, catch (cpu_checkForInterrupt;; rest) deliver m = (Ret tt, m1) /\
    c_pc (m_cpu m1) = special m rTT /\ special m1 rK = 0 /\
    special m1 rQ = special (counted m) rQ /\ special m1 rWW = c_pc (m_cpu m) +o 4 /\
    special m1 rXX .& 2 ^ 63 <> 0 /\ memory m1 = memory m.
Proof.
  intros Hp Hb Hg HT. set (mc := counted m) in *. set (bits := pending mc .& not64 0xFF00000000).
  assert (E : catch (cpu_checkForInterrupt;; rest) deliver m = deliver EX_DYNAMIC_TRAP bits mc).
  { apply catch_throw, bind_throw. rewrite checkForInterrupt_eq. cbv zeta. fold mc. rewrite Hp. reflexivity. }
  assert (Hs : special mc rTT = special m rTT) by (unfold mc, counted; case_match; reflexivity).
  assert (Hf : truth (bits .& 0xFF00000000) = false).
  { unfold bits. rewrite <- Z.land_assoc. apply negb_false_iff, Z.eqb_eq, Z.land_0_r. }
  destruct (deliver_trap EX_DYNAMIC_TRAP bits mc) as (m1 & E1 & Epc & Ek & Eq & Ex & Ew & _ & _ & _ & _ & Em).
  - reflexivity.
  - unfold plain_trap, bits. rewrite <- Z.land_assoc. apply negb_true_iff. exact Hb.
  - unfold mc, counted, global255. case_match; exact Hg.
  - intros _. unfold enabled. rewrite Hf. reflexivity.
  - rewrite E. exists m1. csplit; trivial.
    + rewrite Epc, dyn_dyn, Hs. apply octa_back, HT.
    + rewrite Eq. unfold new_rQ. rewrite Hf, andb_false_r. reflexivity.
    + rewrite Ex. apply Z.eqb_neq, negb_true_iff. apply truth_lor_msb.
Qed.

(** The interval counter of a user program that reaches 0. *)
Definition last_interval : machine :=
  snd (reg_setSpecial rI 1 (boot user_config)).

Lemma interrupts_taken_witness :
  truth (pending (counted last_interval)) = true /\
  exists m1, catch (cpu_checkForInterrupt;; cpu_finishInstr) deliver last_interval = (Ret tt, m1) /\
    c_pc (m_cpu m1) = 0x8000000600000000 /\ special m1 rQ = 0x80.
Proof.
  split; [vm_compute; reflexivity|].
  destruct (interrupts_taken cpu_finishInstr last_interval) as (m1 & E & Epc & _ & Eq & _);
    [vm_compute; reflexivity|vm_compute; reflexivity|vm_compute; discriminate|concrete_word|].
  exists m1. split; [exact E|]. rewrite Epc, Eq. split; vm_compute; reflexivity.
Defined.

(** ** The instruction loop *)

Section Loop.
Context (tick_fuel resume_fuel : nat).

Abbreviation exec := (cpu_execInstr tick_fuel resume_fuel).
Abbreviation inner := (run_inner tick_fuel resume_fuel).
Abbreviation outer := (run_outer tick_fuel resume_fuel).

(** One instruction with the exception it may end in; false at a breakpoint. *)
Definition handled (ex : exn) (bits : Z) : M bool :=
  b ← cpu_handleException ex bits;
  when b cpu_finishInstr;; mret b.
Definition cycle : M bool := catch (exec;; cpu_finishInstr;; mret true) handled.

(** Cycles until a breakpoint, or until the CPU has been paused or halted. *)
Fixpoint cycles (n : nat) : M unit :=
  match n with
  | O => stop OutOfFuel
  | S n =>
    b ← cycle;
    r ← gets (fun m => c_run (m_cpu m));
    when (b && r) (cycles n)
  end.

(** The loops of [cpu_run] with separate bounds. *)
Definition loops (i o : nat) : M unit :=
  b ← catch (inner i;; mret true) handled;
  r ← gets (fun m => c_run (m_cpu m));
  when (b && r) (outer o).

Lemma outer_loops o : outer (S o) = loops (S o) o.
Proof. reflexivity. Qed.

(** An instruction that returns stays in the inner loop, any other leaves it. *)
Lemma loops_step (i o : nat) m :
  loops (S i) o m =
    match (exec;; cpu_finishInstr) m with
    | (Ret _, m1) => if c_run (m_cpu m1) then loops i o m1 else (Ret tt, m1)
    | (Throw ex bits, m1) =>
      (b ← handled ex bits; r ← gets (fun m => c_run (m_cpu m)); when (b && r) (outer o)) m1
    | (Stop h, m1) => (Stop h, m1)
    end.
Proof.
  unfold loops. cbn [run_inner]. unfold catch, mbind, M_bind, gets, when, mret, M_ret.
  destruct (exec m) as [[[]| |] m1]; try reflexivity.
  destruct (cpu_finishInstr m1) as [[[]| |] m2]; try reflexivity.
  destruct (c_run (m_cpu m2)) eqn:E; [reflexivity|]. cbn. rewrite E. reflexivity.
Qed.

Lemma cycles_step n m :
  cycles (S n) m =
    match (exec;; cpu_finishInstr) m with
    | (Ret _, m1) => if c_run (m_cpu m1) then cycles n m1 else (Ret tt, m1)
    | (Throw ex bits, m1) =>
      (b ← handled ex bits; r ← gets (fun m => c_run (m_cpu m)); when (b && r) (cycles n)) m1
    | (Stop h, m1) => (Stop h, m1)
    end.
Proof.
  cbn [cycles]. unfold cycle, catch, mbind, M_bind, gets, when, mret, M_ret.
  destruct (exec m) as [[[]| |] m1]; try reflexivity.
  destruct (cpu_finishInstr m1) as [[[]| |] m2]; try reflexivity.
  cbn. destruct (c_run (m_cpu m2)) eqn:E; reflexivity.
Qed.

Lemma loops_complete (n i o : nat) m m' :
  cycles n m = (Ret tt, m') -> (n <= i)%nat -> (n <= S o)%nat -> loops i o m = (Ret tt, m').
Proof.
  revert i o m; induction n as [|n IH]; intros i o m H Hi Ho; [discriminate H|].
  destruct i as [|i]; [lia|]. rewrite loops_step. rewrite cycles_step in H.
  destruct ((exec;; cpu_finishInstr) m) as [[[]|ex bits|] m1]; [|revert H|discriminate H].
  - destruct (c_run (m_cpu m1)); [apply IH; [exact H|lia|lia]|exact H].
  - unfold mbind, M_bind, gets. destruct (handled ex bits m1) as [[b| |] m2]; trivial.
    destruct (b && c_run (m_cpu m2)); [|trivial]. cbn [when]. intros H.
    destruct n as [|n]; [discriminate H|]. destruct o as [|o]; [lia|].
    rewrite outer_loops. apply IH; [exact H|lia|lia].
Qed.

Lemma loops_sound (o i : nat) m m' :
  loops i o m = (Ret tt, m') -> exists n, cycles n m = (Ret tt, m').
Proof.
  revert i m; induction o as [|o IHo]; intros i; induction i as [|i IHi]; intros m H;
    try discriminate H; rewrite loops_step in H.
  all: destruct ((exec;; cpu_finishInstr) m) as [[[]|ex bits|] m1] eqn:E; [| |discriminate H].
  1, 3: destruct (c_run (m_cpu m1)) eqn:Er;
    [destruct (IHi m1 H) as [n Hn]; exists (S n)|exists 1%nat]; rewrite cycles_step, E, Er; trivial.
  all: revert H; unfold mbind, M_bind, gets; destruct (handled ex bits m1) as [[b| |] m2] eqn:Eh;
    try discriminate; destruct (b && c_run (m_cpu m2)) eqn:Eb; cbn [when]; intros H.
  1: discriminate H.
  2: rewrite outer_loops in H; destruct (IHo _ _ H) as [n Hn]; exists (S n).
  1, 3: exists 1%nat.
  all: rewrite cycles_step, E; unfold mbind, M_bind, gets; rewrite Eh, Eb; trivial.
Qed.

(** C20: [cpu_run] is [cpu_step] repeated: both execute the same cycle of an instruction and
    the exception it may end in, and [cpu_run] repeats it until a breakpoint, or until the
    CPU has been paused or halted, even though its two loops leave the inner one only for
    an exception.  A run that ends after [n] cycles ends with the fuel [n]. *)
Theorem run_is_cycles m :
  c_halted (m_cpu m) = false ->
  let go c := on_cpu (set_c_run true);; c;; ev_fire EV_CPU_PAUSE in
  cpu_step tick_fuel resume_fuel m = go (cycle ≫= fun _ => mret tt) m /\
  (forall n m', go (cycles n) m = (Ret tt, m') ->
     cpu_run tick_fuel resume_fuel n m = (Ret tt, m')) /\
  (forall fuel m', cpu_run tick_fuel resume_fuel fuel m = (Ret tt, m') ->
     exists n, go (cycles n) m = (Ret tt, m')).
Proof.
  intros Hh. cbv zeta. set (m1 := set_m_cpu (set_c_run true (m_cpu m)) m).
  assert (Hr : forall n, cpu_run tick_fuel resume_fuel n m
                         = (outer n;; ev_fire EV_CPU_PAUSE) m1).
  { intros n. unfold cpu_run. rewrite bind_gets, Hh. reflexivity. }
  csplit; [|intros n m' H; rewrite Hr|intros fuel m' H; rewrite Hr in H].
  - unfold cpu_step, on_cpu. rewrite bind_gets, Hh. cbn [negb when]. rewrite !bind_modify. fold m1.
    unfold cycle, catch, handled, mbind, M_bind, when, mret, M_ret.
    destruct (exec m1) as [[[]|ex bits|] m2]; try reflexivity.
    destruct (cpu_handleException ex bits m2) as [[[]| |] m4]; reflexivity.
  - change ((cycles n;; ev_fire EV_CPU_PAUSE) m1 = (Ret tt, m')) in H.
    destruct (bind_inv _ _ _ _ _ H) as ([] & m2 & E & E2). destruct n as [|n]; [discriminate E|].
    rewrite outer_loops.
    rewrite (bind_ret _ _ _ _ _ (loops_complete (S n) (S n) n _ _ E ltac:(lia) ltac:(lia))).
    exact E2.
  - destruct (bind_inv _ _ _ _ _ H) as ([] & m2 & E & E2).
    destruct fuel as [|fuel]; [discriminate E|]. rewrite outer_loops in E.
    destruct (loops_sound _ _ _ _ E) as [n Hn]. exists n. unfold on_cpu. rewrite bind_modify. fold m1.
    rewrite (bind_ret _ _ _ _ _ Hn). exact E2.
Qed.
End Loop.

(** A program of one instruction, TRAP 0, which halts the CPU in the test mode. *)
Definition halting : machine := boot (mk_config (2 ^ 36) true true 0x1000).

Lemma run_is_cycles_witness :
  c_halted (m_cpu halting) = false /\
  exists m', cpu_run 1 1 1 halting = (Ret tt, m') /\ c_halted (m_cpu m') = true.
Proof.
  assert (Hh : c_halted (m_cpu halting) = false) by (vm_compute; reflexivity).
  split; [exact Hh|].
  destruct (run_is_cycles 1 1 halting Hh) as (_ & H & _).
  set (c := on_cpu (set_c_run true);; cycles 1 1 1;; ev_fire EV_CPU_PAUSE).
  exists (snd (c halting)). split.
  - apply H. change (c halting = (Ret tt, snd (c halting))).
    assert (E : fst (c halting) = Ret tt) by (vm_compute; reflexivity).
    rewrite <- E. apply surjective_pairing.
  - vm_compute. reflexivity.
Defined.
