(* ===== verification/CMem.v ===== *)
(** * A process of Escape and the C that runs in it

    The state of a process as the C library sees it: its memory, byte by byte, the part of it
    that is mapped, and the static variables of the modeled modules.  A C function is a value
    of the monad [C]: it returns ([Done]), or the process ends badly ([Bad]): an access to
    memory that is not mapped, a failed assertion, a call of exit, a semaphore nobody will ever
    raise, a loop that runs for more than 2^64 rounds.  The widths are those of x86_64: pointers,
    [size_t] and [ulong] have 8 bytes, stored with the least significant byte first. *)

From Stdlib Require Import ZArith Lia Bool.
From stdpp Require Import base list numbers option gmap.
From S2P Require Import Prelude.

(** ** The state of a process *)

(** A user semaphore (include/sys/sync.h): [sem] is the value of the semaphore in the kernel. *)
Record tUserSem := mkUserSem { sem : Z; value : Z }.

(** The static variables of lib/c/stdlib/heap.c. *)
Record heap := mkheap {
  usableList : Z;
  freeList : Z;
  heapstart : Z;
  pageCount : Z;
  heapSem : tUserSem;
  initialized : bool
}.

(** Streams (lib/c/stdio/iobuf.h).  A stream lies outside of the byte memory, under its pointer
    in the table [io_files]; its buffers lie in the memory. *)
Record sIOBuf := mkiobuf {
  io_fd : Z;
  io_pos : Z;
  io_max : Z;
  io_dynamic : bool;
  io_buffer : Z
}.

Record FILE := mkfile {
  f_flags : Z;
  f_eof : bool;
  f_istty : Z;
  f_error : Z;
  f_in : sIOBuf;
  f_out : sIOBuf;
  f_prev : Z;
  f_next : Z
}.

(** The static variables of lib/c/stdio/streams.c, and what the kernel does with a descriptor:
    [io_accept] is its answer to [write] (given what it has received and what it is offered),
    [io_received] what it has received, [io_incoming] its next answers to [read]: bytes or an
    error. *)
Record stdio := mkstdio {
  io_files : gmap Z FILE;
  io_streams : Z;
  io_accept : Z -> list Z -> list Z -> Z;
  io_received : Z -> list Z;
  io_incoming : Z -> list (list Z + Z)
}.

Definition no_stdio : stdio := mkstdio ∅ 0 (fun _ _ l => Z.of_nat (length l)) (fun _ => []) (fun _ => []).

(** The kernel decides by [p_grant] whether a data area that ends at a given address grows by
    a given number of pages. *)
Record process := mkprocess {
  p_mem : arr;
  p_mapped : Z -> bool;
  p_end : Z;
  p_grant : Z -> Z -> bool;
  p_heap : heap;
  p_last : Z;
  p_io : stdio
}.

Definition set_mem (v : arr) (s : process) : process :=
  mkprocess v (p_mapped s) (p_end s) (p_grant s) (p_heap s) (p_last s) (p_io s).
Definition set_mapped (v : Z -> bool) (s : process) : process :=
  mkprocess (p_mem s) v (p_end s) (p_grant s) (p_heap s) (p_last s) (p_io s).
Definition set_end (v : Z) (s : process) : process :=
  mkprocess (p_mem s) (p_mapped s) v (p_grant s) (p_heap s) (p_last s) (p_io s).
Definition set_heap (v : heap) (s : process) : process :=
  mkprocess (p_mem s) (p_mapped s) (p_end s) (p_grant s) v (p_last s) (p_io s).
Definition set_last (v : Z) (s : process) : process :=
  mkprocess (p_mem s) (p_mapped s) (p_end s) (p_grant s) (p_heap s) v (p_io s).
Definition set_io (v : stdio) (s : process) : process :=
  mkprocess (p_mem s) (p_mapped s) (p_end s) (p_grant s) (p_heap s) (p_last s) v.

(** ** The monad *)

Inductive why := Fault | AssertFail | Exited | Deadlock | OutOfFuel.
#[export] Instance why_eq_dec : EqDecision why.
Proof. solve_decision. Defined.

Inductive fate (A : Type) := Done (a : A) (s : process) | Bad (w : why).
Arguments Done {A} a s.
Arguments Bad {A} w.

Definition C (A : Type) : Type := process -> fate A.

#[export] Instance C_ret : MRet C := fun A a s => Done a s.
#[export] Instance C_bind : MBind C := fun A B f c s =>
  match c s with
  | Done a s' => f a s'
  | Bad w => Bad w
  end.

Definition bad {A} (w : why) : C A := fun _ => Bad w.
Definition gets {A} (f : process -> A) : C A := fun s => Done (f s) s.
Definition modify (f : process -> process) : C unit := fun s => Done tt (f s).

(** [assert] and [vassert] of include/assert.h, which end the process. *)
Definition vassert (cond : bool) : C unit := if cond then mret tt else bad AssertFail.

(** ** Memory *)

Definition byte_at (m : arr) (a : Z) : Z := wrap8 (m a).

(** The number stored in [n] bytes, and its storing. *)
Fixpoint num_at (n : nat) (m : arr) (a : Z) : Z :=
  match n with
  | O => 0
  | S n' => byte_at m a + 256 * num_at n' m (a + 1)
  end.

Definition put (n : nat) (a v : Z) (m : arr) : arr :=
  fun y => if (a <=? y) && (y <? a + Z.of_nat n) then v .>> (8 * (y - a)) else m y.

Abbreviation word_at := (num_at 8).

Fixpoint all_mapped (mapped : Z -> bool) (a : Z) (n : nat) : bool :=
  match n with
  | O => true
  | S n' => mapped a && all_mapped mapped (a + 1) n'
  end.

Definition load (n : nat) (a : Z) : C Z := fun s =>
  if all_mapped (p_mapped s) a n then Done (num_at n (p_mem s) a) s else Bad Fault.
Definition store (n : nat) (a v : Z) : C unit := fun s =>
  if all_mapped (p_mapped s) a n then Done tt (set_mem (put n a v (p_mem s)) s) else Bad Fault.

(** [ulong], [size_t] and pointers; [uchar]; and [char], which is signed. *)
Abbreviation load64 := (load 8).
Abbreviation store64 := (store 8).
Abbreviation load8 := (load 1).
Abbreviation store8 := (store 1).
Definition load_char (a : Z) : C Z := c ← load8 a; mret (signed 8 c).

(** ** Loops

    A loop repeats its body until that says [Break].  [loop] allows 2^64 rounds, more than
    any loop over the memory of a process needs; the body is iterated by doubling, so that
    the bound costs nothing. *)

Inductive ctl (L R : Type) := Next (l : L) | Break (r : R).
Arguments Next {L R} l.
Arguments Break {L R} r.

Fixpoint loopk {L R} (k : nat) (body : L -> C (ctl L R)) (l : L) : C (ctl L R) :=
  match k with
  | O => body l
  | S k' => c ← loopk k' body l;
            match c with
            | Next l' => loopk k' body l'
            | Break r => mret (Break r)
            end
  end.

Definition loop {L R} (body : L -> C (ctl L R)) (l : L) : C R :=
  c ← loopk 64 body l;
  match c with
  | Next _ => bad OutOfFuel
  | Break r => mret r
  end.

(** [iter body n l s o]: the loop ends in its [n]-th round with [o]. *)
Inductive iter {L R} (body : L -> C (ctl L R)) : nat -> L -> process -> fate R -> Prop :=
| iter_break l s r s' : body l s = Done (Break r) s' -> iter body 1 l s (Done r s')
| iter_bad l s w : body l s = Bad w -> iter body 1 l s (Bad w)
| iter_next n l s l' s' o :
    body l s = Done (Next l') s' -> iter body n l' s' o -> iter body (S n) l s o.

Definition broken {L R} (o : fate R) : fate (ctl L R) :=
  match o with Done r s => Done (Break r) s | Bad w => Bad w end.

Section Loops.
Context {L R : Type} (body : L -> C (ctl L R)).

Lemma iter_pos n l s o : iter body n l s o -> (1 <= n)%nat.
Proof. destruct 1; lia. Qed.

(** [loopk k] runs up to 2^k rounds. *)
Lemma loopk_iter k : forall n l s o,
  iter body n l s o ->
  if Z.of_nat n <=? 2 ^ Z.of_nat k then loopk k body l s = broken o
  else exists l' s' n', loopk k body l s = Done (Next l') s' /\ iter body n' l' s' o /\
       Z.of_nat n = Z.of_nat n' + 2 ^ Z.of_nat k.
Proof.
  induction k as [|k IH]; intros n l s o Hi.
  - change (2 ^ Z.of_nat 0) with 1. pose proof (iter_pos _ _ _ _ Hi). destruct (Z.leb_spec (Z.of_nat n) 1).
    + destruct Hi as [l s r s' E|l s w E|n l s l' s' o E Hi]; simpl; trivial.
      apply iter_pos in Hi. lia.
    + destruct Hi as [l s r s' E|l s w E|n l s l' s' o E Hi]; [lia..|].
      exists l', s', n. split; [trivial|]. split; [trivial|]. lia.
  - pose proof (pow2_pos (Z.of_nat k)). pose proof (IH n l s o Hi) as H1.
    assert (E2 : 2 ^ Z.of_nat (S k) = 2 * 2 ^ Z.of_nat k)
      by (rewrite Nat2Z.inj_succ, Z.pow_succ_r by lia; lia).
    simpl loopk. unfold mbind, C_bind.
    destruct (Z.leb_spec (Z.of_nat n) (2 ^ Z.of_nat k)).
    + destruct (Z.leb_spec (Z.of_nat n) (2 ^ Z.of_nat (S k))); [|lia].
      rewrite H1. destruct o; reflexivity.
    + destruct H1 as (l' & s' & n' & -> & Hi' & Hn). pose proof (IH n' l' s' o Hi') as H2.
      destruct (Z.leb_spec (Z.of_nat n') (2 ^ Z.of_nat k)),
        (Z.leb_spec (Z.of_nat n) (2 ^ Z.of_nat (S k))); try lia; [exact H2|].
      destruct H2 as (l2 & s2 & n2 & E & Hi2 & Hn2). exists l2, s2, n2. split; [exact E|].
      split; [exact Hi2|]. lia.
Qed.

Lemma loop_iter n l s o : iter body n l s o -> Z.of_nat n <= 2 ^ 64 -> loop body l s = o.
Proof.
  intros Hi Hn. apply (loopk_iter 64) in Hi. change (Z.of_nat 64) with 64 in Hi.
  rewrite (proj2 (Z.leb_le _ _) Hn) in Hi. unfold loop, mbind, C_bind. rewrite Hi.
  destruct o; reflexivity.
Qed.

(** The rule for loops: an invariant [P] with a bound for the rounds that are left, and what
    holds at the end. *)
Lemma loop_bounded (P : Z -> L -> process -> Prop) (Q : R -> process -> Prop) n l s :
  (forall n l s, P n l s -> 0 <= n /\
     ((exists l' s' n', body l s = Done (Next l') s' /\ P n' l' s' /\ n' < n) \/
      (exists r s', body l s = Done (Break r) s' /\ Q r s'))) ->
  P n l s -> n < 2 ^ 64 -> exists r s', loop body l s = Done r s' /\ Q r s'.
Proof.
  intros Hb Hl Hf.
  assert (H : forall k n l s, P n l s -> n < Z.of_nat k ->
    exists i r s', iter body i l s (Done r s') /\ Z.of_nat i <= n + 1 /\ Q r s').
  { clear l s n Hl Hf. induction k as [|k IH]; intros n l s Hl Hf.
    - destruct (Hb n l s Hl); lia.
    - destruct (Hb n l s Hl) as [H0 [(l' & s' & n' & E & Hl' & Hd)|(r & s' & E & HQ)]].
      + destruct (IH n' l' s' Hl') as (i & r & s2 & Hi & Hn & HQ); [lia|].
        exists (S i), r, s2. split; [eapply iter_next; eauto|]. split; [lia|trivial].
      + exists 1%nat, r, s'. split; [apply iter_break, E|]. split; [lia|trivial]. }
  destruct (H (Z.to_nat (n + 1)) n l s Hl) as (i & r & s' & Hi & Hn & HQ).
  { destruct (Hb n l s Hl). lia. }
  exists r, s'. split; [apply (loop_iter i); [trivial|lia]|trivial].
Qed.

(** The same for a loop whose body may end the process with [w], for the reason [X]. *)
Lemma loop_bounded_or (w : why) (X : Prop) (P : Z -> L -> process -> Prop) (Q : R -> process -> Prop) n l s :
  (forall n l s, P n l s -> 0 <= n /\
     ((exists l' s' n', body l s = Done (Next l') s' /\ P n' l' s' /\ n' < n) \/
      (exists r s', body l s = Done (Break r) s' /\ Q r s') \/ body l s = Bad w /\ X)) ->
  P n l s -> n < 2 ^ 64 -> (exists r s', loop body l s = Done r s' /\ Q r s') \/ loop body l s = Bad w /\ X.
Proof.
  intros Hb Hl Hf.
  assert (H : forall k n l s, P n l s -> n < Z.of_nat k ->
    exists i o, iter body i l s o /\ Z.of_nat i <= n + 1 /\ (o = Bad w /\ X \/ exists r s', o = Done r s' /\ Q r s')).
  { clear l s n Hl Hf. induction k as [|k IH]; intros n l s Hl Hf.
    - destruct (Hb n l s Hl); lia.
    - destruct (Hb n l s Hl) as [H0 [(l' & s' & n' & E & Hl' & Hd)|[(r & s' & E & HQ)|[E HX]]]].
      + destruct (IH n' l' s' Hl') as (i & o & Hi & Hn & HQ); [lia|].
        exists (S i), o. split; [eapply iter_next; eauto|]. split; [lia|trivial].
      + exists 1%nat, (Done r s'). split; [apply iter_break, E|]. split; [lia|eauto].
      + exists 1%nat, (Bad w). split; [apply iter_bad, E|]. split; [lia|auto]. }
  destruct (H (Z.to_nat (n + 1)) n l s Hl) as (i & o & Hi & Hn & HQ).
  { destruct (Hb n l s Hl). lia. }
  pose proof (loop_iter i l s o Hi ltac:(lia)) as E. destruct HQ as [[-> HX]|(r & s' & -> & HQ)]; eauto.
Qed.

(** The same with a measure of the loop's variables. *)
Lemma loop_rule (P : L -> process -> Prop) (Q : R -> process -> Prop) (f : L -> Z) l s :
  (forall l s, P l s -> 0 <= f l /\
     ((exists l' s', body l s = Done (Next l') s' /\ P l' s' /\ f l' < f l) \/
      (exists r s', body l s = Done (Break r) s' /\ Q r s'))) ->
  P l s -> f l < 2 ^ 64 -> exists r s', loop body l s = Done r s' /\ Q r s'.
Proof.
  intros Hb Hl Hf. apply (loop_bounded (fun n l s => n = f l /\ P l s) Q (f l)); auto.
  intros n l1 s1 [-> H1]. destruct (Hb l1 s1 H1) as [H0 [(l' & s' & E & Hl' & Hd)|H]]; eauto 10.
Qed.

(** A loop that goes on forever uses up every bound. *)
Lemma loopk_next k (I : L -> process -> Prop) :
  (forall l s, I l s -> exists l' s', body l s = Done (Next l') s' /\ I l' s') ->
  forall l s, I l s -> exists l' s', loopk k body l s = Done (Next l') s' /\ I l' s'.
Proof.
  intros Hs. induction k as [|k IH]; intros l s Hl; simpl; [auto|].
  destruct (IH l s Hl) as (l1 & s1 & E1 & H1). destruct (IH l1 s1 H1) as (l2 & s2 & E2 & H2).
  exists l2, s2. unfold mbind, C_bind. rewrite E1. auto.
Qed.

Lemma loop_forever (I : L -> process -> Prop) l s :
  (forall l s, I l s -> exists l' s', body l s = Done (Next l') s' /\ I l' s') ->
  I l s -> loop body l s = Bad OutOfFuel.
Proof.
  intros Hs Hl. destruct (loopk_next 64 I Hs l s Hl) as (l' & s' & E & _).
  unfold loop, mbind, C_bind. rewrite E. reflexivity.
Qed.
End Loops.

(** ** Lemmas on memory *)

Lemma byte_range m a : is_byte (byte_at m a).
Proof. apply wrap_range; lia. Qed.

Lemma num_range n m a : is_word (8 * Z.of_nat n) (num_at n m a).
Proof.
  revert a; induction n as [|n IH]; intros a; [split; reflexivity|].
  simpl num_at. pose proof (byte_range m a). specialize (IH (a + 1)).
  unfold is_word in *. replace (8 * Z.of_nat (S n)) with (8 + 8 * Z.of_nat n) by lia.
  rewrite Z.pow_add_r by lia. lia.
Qed.
#[export] Hint Resolve byte_range num_range : word.

Lemma word_range m a : is_octa (word_at m a).
Proof. exact (num_range 8 m a). Qed.
#[export] Hint Resolve word_range : word.

(** A number depends on its bytes only. *)
Lemma num_ext n m m' a :
  (forall y, a <= y < a + Z.of_nat n -> byte_at m y = byte_at m' y) ->
  num_at n m a = num_at n m' a.
Proof.
  revert a; induction n as [|n IH]; intros a H; [reflexivity|].
  simpl. rewrite (H a) by lia. f_equal. f_equal. apply IH. intros; apply H; lia.
Qed.

Lemma byte_put n a v m y :
  byte_at (put n a v m) y =
  if (a <=? y) && (y <? a + Z.of_nat n) then wrap8 (v .>> (8 * (y - a))) else byte_at m y.
Proof. unfold byte_at, put. destruct (_ && _); reflexivity. Qed.

Lemma byte_put_other n a v m y :
  y < a \/ a + Z.of_nat n <= y -> byte_at (put n a v m) y = byte_at m y.
Proof. intros H. rewrite byte_put. destruct (Z.leb_spec a y), (Z.ltb_spec y (a + Z.of_nat n)); trivial; lia. Qed.

Lemma num_of_bytes n m a v :
  (forall i, 0 <= i < Z.of_nat n -> byte_at m (a + i) = wrap8 (v .>> (8 * i))) ->
  num_at n m a = wrap (8 * Z.of_nat n) v.
Proof.
  revert a v; induction n as [|n IH]; intros a v H.
  { simpl. unfold wrap. rewrite Z.mod_1_r. reflexivity. }
  simpl num_at. rewrite (IH (a + 1) (v .>> 8)).
  - rewrite <- (Z.add_0_r a), (H 0) by lia. change (8 * 0) with 0. rewrite Z.shiftr_0_r.
    rewrite shiftr_div by lia. unfold wrap.
    replace (8 * Z.of_nat (S n)) with (8 + 8 * Z.of_nat n) by lia.
    rewrite Z.pow_add_r, Z.rem_mul_r by (try apply Z.pow_nonzero; lia || apply pow2_pos; lia).
    reflexivity.
  - intros i Hi. replace (a + 1 + i) with (a + (i + 1)) by lia. rewrite (H (i + 1)) by lia.
    rewrite Z.shiftr_shiftr by lia. f_equal. f_equal. lia.
Qed.

Lemma num_put_same n a v m : num_at n (put n a v m) a = wrap (8 * Z.of_nat n) v.
Proof.
  apply num_of_bytes. intros i Hi. rewrite byte_put.
  destruct (Z.leb_spec a (a + i)), (Z.ltb_spec (a + i) (a + Z.of_nat n)); try lia.
  simpl. do 2 f_equal. lia.
Qed.

Lemma num_put_other n a v n' m b :
  b + Z.of_nat n' <= a \/ a + Z.of_nat n <= b -> num_at n' (put n a v m) b = num_at n' m b.
Proof. intros H. apply num_ext. intros y Hy. apply byte_put_other. lia. Qed.

Lemma word_put_same a v m : is_octa v -> word_at (put 8 a v m) a = v.
Proof. intros H. rewrite (num_put_same 8). apply wrap_small, H. Qed.

Lemma word_put_other a v m b : b + 8 <= a \/ a + 8 <= b -> word_at (put 8 a v m) b = word_at m b.
Proof. intros H. apply num_put_other. exact H. Qed.

Lemma all_mapped_spec f a n :
  all_mapped f a n = true <-> forall y, a <= y < a + Z.of_nat n -> f y = true.
Proof.
  revert a; induction n as [|n IH]; intros a.
  - split; [intros _ y Hy; lia|reflexivity].
  - simpl. rewrite andb_true_iff, IH. split.
    + intros [H0 H] y Hy. destruct (Z.eq_dec y a) as [->|]; [exact H0|apply H; lia].
    + intros H. split; [apply H; lia|intros y Hy; apply H; lia].
Qed.

Lemma load_done n a s :
  (forall y, a <= y < a + Z.of_nat n -> p_mapped s y = true) ->
  load n a s = Done (num_at n (p_mem s) a) s.
Proof. intros H. unfold load. rewrite (proj2 (all_mapped_spec _ _ _) H). reflexivity. Qed.

Lemma store_done n a v s :
  (forall y, a <= y < a + Z.of_nat n -> p_mapped s y = true) ->
  store n a v s = Done tt (set_mem (put n a v (p_mem s)) s).
Proof. intros H. unfold store. rewrite (proj2 (all_mapped_spec _ _ _) H). reflexivity. Qed.

(** Membership in concatenations. *)
Ltac in_list := repeat (rewrite elem_of_app || rewrite elem_of_cons || rewrite elem_of_nil); auto 10.

(** ** Reasoning about sequences of statements *)

Lemma bind_done {A B} (c : C A) (f : A -> C B) s a s' :
  c s = Done a s' -> (c ≫= f) s = f a s'.
Proof. intros H. unfold mbind, C_bind. rewrite H. reflexivity. Qed.

Lemma bind_bad {A B} (c : C A) (f : A -> C B) s w : c s = Bad w -> (c ≫= f) s = Bad w.
Proof. intros H. unfold mbind, C_bind. rewrite H. reflexivity. Qed.

Lemma bind_load {B} n a (f : Z -> C B) s :
  (forall y, a <= y < a + Z.of_nat n -> p_mapped s y = true) ->
  (load n a ≫= f) s = f (num_at n (p_mem s) a) s.
Proof. intros H. apply bind_done, load_done, H. Qed.

Lemma bind_store {B} n a v (f : unit -> C B) s :
  (forall y, a <= y < a + Z.of_nat n -> p_mapped s y = true) ->
  (store n a v ≫= f) s = f tt (set_mem (put n a v (p_mem s)) s).
Proof. intros H. apply bind_done, store_done, H. Qed.

Lemma bind_vassert {B} cond (f : unit -> C B) s : cond = true -> (vassert cond ≫= f) s = f tt s.
Proof. intros ->. reflexivity. Qed.

(** Two states that differ at most in memory. *)
Lemma set_mem_mem s : set_mem (p_mem s) s = s.
Proof. destruct s; reflexivity. Qed.

Lemma set_mem_set_mem m m' s : set_mem m (set_mem m' s) = set_mem m s.
Proof. reflexivity. Qed.

(** A loop is reasoned about with its rule; its 2^64 rounds are never unfolded. *)
#[global] Opaque loop.

(** A process whose only memory is a page at 4096 that starts with the given bytes. *)
Definition page_process (l : list Z) : process :=
  mkprocess (fun y => nth (Z.to_nat (y - 4096)) l 0) (fun y => (4096 <=? y) && (y <? 8192)) 8192
    (fun _ _ => false) (mkheap 0 0 0 0 (mkUserSem 0 1) true) 0 no_stdio.
