(* ===== verification/MemOps.v ===== *)
(** * Blocks of memory

    The routines on blocks of bytes of lib/basic: [memset], [memcpy] and [memmove] of
    arch/x86, which move words of eight bytes where they can, [memcmp], [memchr] and
    [memswp] of string/, and [memclear] of include/string.h. *)

From Stdlib Require Import ZArith Lia Bool Btauto.
From stdpp Require Import base list numbers option.
From S2P Require Import Prelude CMem.

(** ** The routines *)

(** The unrolled loop bodies: [n] words, one after the other. *)
Fixpoint set_words (n : nat) (addr v : Z) : C unit :=
  match n with
  | O => mret tt
  | S n' => store64 addr v;; set_words n' (addr + 8) v
  end.

(** [*dest = *src], for a type of [n] bytes. *)
Definition assign (n : nat) (dest src : Z) : C unit := v ← load n src; store n dest v.

Fixpoint copy_words (n : nat) (dest src : Z) : C unit :=
  match n with
  | O => mret tt
  | S n' => assign 8 dest src;; copy_words n' (dest + 8) (src + 8)
  end.

(** The word that [memset] stores: [value] is an [int], its shifts too, so the first
    conversion to [ulong] extends the sign. *)
Definition set_pattern (value : Z) : Z :=
  let int x := signed 32 (wrap32 x) in
  let dwval := wrap64 (int (int (Z.shiftl value 24) .| int (Z.shiftl value 16)
                            .| int (Z.shiftl value 8) .| value)) in
  let v := wrap64 value in
  let dwval := dwval .| (shl64 v 56 .| shl64 v 48) in
  dwval .| (shl64 v 40 .| shl64 v 32).

Definition memset (addr value count : Z) : C Z :=
  '(baddr, count) ← loop (fun '(baddr, count) =>
    if (0 <? count) && negb (baddr mod 8 =? 0) then
      store8 baddr value;; mret (Next (baddr + 1, count - 1))
    else mret (Break (baddr, count))) (addr, count);
  let dwval := set_pattern value in
  '(dwaddr, count) ← loop (fun '(dwaddr, count) =>
    if 128 <=? count then
      set_words 16 dwaddr dwval;; mret (Next (dwaddr + 128, count - 128))
    else mret (Break (dwaddr, count))) (baddr, count);
  '(baddr, count) ← loop (fun '(dwaddr, count) =>
    if 8 <=? count then
      store64 dwaddr dwval;; mret (Next (dwaddr + 8, count - 8))
    else mret (Break (dwaddr, count))) (dwaddr, count);
  loop (fun '(baddr, count) =>
    if 0 <? count then store8 baddr value;; mret (Next (baddr + 1, count - 1))
    else mret (Break tt)) (baddr, count);;
  mret addr.

Definition memclear (addr count : Z) : C unit := memset addr 0 count;; mret tt.

Definition memcpy (dest src len : Z) : C Z :=
  '(bdest, bsrc, len) ← (if dest mod 8 =? src mod 8 then
      loop (fun '(bdest, bsrc, len) =>
        if (0 <? len) && negb (bdest mod 8 =? 0) then
          assign 1 bdest bsrc;;
          mret (Next (bdest + 1, bsrc + 1, len - 1))
        else mret (Break (bdest, bsrc, len))) (dest, src, len)
    else mret (dest, src, len));
  '(ddest, dsrc, len) ← loop (fun '(ddest, dsrc, len) =>
    if 128 <=? len then
      copy_words 16 ddest dsrc;; mret (Next (ddest + 128, dsrc + 128, len - 128))
    else mret (Break (ddest, dsrc, len))) (bdest, bsrc, len);
  '(bdest, bsrc, len) ← loop (fun '(ddest, dsrc, len) =>
    if 8 <=? len then
      assign 8 ddest dsrc;;
      mret (Next (ddest + 8, dsrc + 8, len - 8))
    else mret (Break (ddest, dsrc, len))) (ddest, dsrc, len);
  loop (fun '(bdest, bsrc, len) =>
    if 0 <? len then
      assign 1 bdest bsrc;;
      mret (Next (bdest + 1, bsrc + 1, len - 1))
    else mret (Break tt)) (bdest, bsrc, len);;
  mret dest.

Definition memmove (dest src count : Z) : C Z :=
  if (dest =? src) || (count =? 0) then mret dest else
  if src <? dest then
    '(ddest, dsrc, count) ← loop (fun '(ddest, dsrc, count) =>
      if 8 <=? count then
        assign 8 ddest dsrc;;
        mret (Next (ddest - 8, dsrc - 8, count - 8))
      else mret (Break (ddest, dsrc, count))) (dest + count - 8, src + count - 8, count);
    loop (fun '(d, s, count) =>
      if 0 <? count then
        assign 1 d s;;
        mret (Next (d - 1, s - 1, count - 1))
      else mret (Break tt)) (ddest + 7, dsrc + 7, count);;
    mret dest
  else memcpy dest src count.

Definition memcmp (str1 str2 count : Z) : C Z :=
  loop (fun '(s1, s2, count) =>
    if 0 <? count then
      c1 ← load8 s1;
      c2 ← load8 s2;
      if negb (c1 =? c2) then mret (Break (if c1 <? c2 then -1 else 1))
      else mret (Next (s1 + 1, s2 + 1, count - 1))
    else mret (Break 0)) (str1, str2, count).

Definition memchr (buffer c count : Z) : C Z :=
  loop (fun '(str, count) =>
    b ← load_char str;
    if truth b && (0 <? count) then
      if b =? c then mret (Break str) else mret (Next (str + 1, count - 1))
    else mret (Break 0)) (buffer, count).

(** [*i ^= *j] *)
Definition xor_byte (i j : Z) : C unit :=
  x ← load8 i;
  y ← load8 j;
  store8 i (x .^ y).

Definition memswp (a b n : Z) : C unit :=
  c ← memcmp a b n;
  if c =? 0 then mret tt else
  loop (fun '(iptr, jptr, x) =>
    if x <? n then
      xor_byte iptr jptr;;
      xor_byte jptr iptr;;
      xor_byte iptr jptr;;
      mret (Next (iptr + 1, jptr + 1, x + 1))
    else mret (Break tt)) (a, b, 0).

(** ** What the routines do to memory *)

(** The process may access the bytes from [a] up to [e]. *)
Definition mapped (s : process) (a e : Z) : Prop := forall y, a <= y < e -> p_mapped s y = true.

(** From [a] up to [e] the bytes are those of [b], elsewhere those of [m]. *)
Definition filled (b : arr) (m : arr) (a e : Z) (m' : arr) : Prop :=
  forall y, byte_at m' y = if (a <=? y) && (y <? e) then b y else byte_at m y.

Lemma filled_in b m a e m' y : filled b m a e m' -> a <= y < e -> byte_at m' y = b y.
Proof.
  intros H Hy. rewrite H. destruct (Z.leb_spec a y), (Z.ltb_spec y e); reflexivity || lia.
Qed.

Lemma filled_out b m a e m' y : filled b m a e m' -> y < a \/ e <= y -> byte_at m' y = byte_at m y.
Proof.
  intros H Hy. rewrite H. destruct (Z.leb_spec a y), (Z.ltb_spec y e); reflexivity || lia.
Qed.

Lemma filled_refl b m a : filled b m a a m.
Proof. intros y. destruct (Z.leb_spec a y), (Z.ltb_spec y a); reflexivity || lia. Qed.

(** One store enlarges the filled region, upwards or downwards. *)
Lemma filled_up b m a e m' n v :
  filled b m a e m' -> a <= e ->
  (forall i, 0 <= i < Z.of_nat n -> wrap8 (v .>> (8 * i)) = b (e + i)) ->
  filled b m a (e + Z.of_nat n) (put n e v m').
Proof.
  intros Hf Ha Hb y. rewrite byte_put, Hf. specialize (Hb (y - e)).
  replace (e + (y - e)) with y in Hb by lia.
  destruct (Z.leb_spec e y), (Z.ltb_spec y (e + Z.of_nat n)), (Z.leb_spec a y), (Z.ltb_spec y e);
    simpl; try lia; auto with lia.
Qed.

Lemma filled_down b m a e m' n v :
  filled b m (a + Z.of_nat n) e m' -> a + Z.of_nat n <= e ->
  (forall i, 0 <= i < Z.of_nat n -> wrap8 (v .>> (8 * i)) = b (a + i)) ->
  filled b m a e (put n a v m').
Proof.
  intros Hf Ha Hb y. rewrite byte_put, Hf. specialize (Hb (y - a)).
  replace (a + (y - a)) with y in Hb by lia.
  destruct (Z.leb_spec a y), (Z.ltb_spec y (a + Z.of_nat n)), (Z.leb_spec (a + Z.of_nat n) y),
    (Z.ltb_spec y e); simpl; try lia; auto with lia.
Qed.

(** The bytes of a number read from memory. *)
Lemma num_byte n m a i :
  0 <= i < Z.of_nat n -> wrap8 (num_at n m a .>> (8 * i)) = byte_at m (a + i).
Proof.
  revert a i; induction n as [|n IH]; intros a i Hi; [lia|]. simpl num_at.
  pose proof (byte_range m a). destruct (Z.eq_dec i 0) as [->|Hn].
  - rewrite Z.shiftr_0_r, Z.add_0_r. unfold wrap. rewrite Z.mul_comm, Z.mod_add by lia.
    apply wrap_small; trivial.
  - replace (8 * i) with (8 + 8 * (i - 1)) by lia. rewrite <- Z.shiftr_shiftr by lia.
    replace (_ .>> 8) with (num_at n m (a + 1)).
    + rewrite IH by lia. f_equal. lia.
    + rewrite shiftr_div by lia. apply Z.div_unique with (byte_at m a); [wordlia|lia].
Qed.

(** ** [memset] *)

(** In the middle of a routine that fills [a] up to [e]: [cur] is the next address, [count]
    bytes are left. *)
Definition setting (b : arr) (s0 : process) (a e : Z) (l : Z * Z) (s : process) : Prop :=
  exists m, s = set_mem m s0 /\ filled b (p_mem s0) a l.1 m /\ a <= l.1 /\ 0 <= l.2 /\ l.1 + l.2 = e.

Lemma setting_store b s0 a e cur count s n v :
  mapped s0 a e -> setting b s0 a e (cur, count) s -> Z.of_nat n <= count ->
  (forall i, 0 <= i < Z.of_nat n -> wrap8 (v .>> (8 * i)) = b (cur + i)) ->
  exists s1, store n cur v s = Done tt s1 /\
    setting b s0 a e (cur + Z.of_nat n, count - Z.of_nat n) s1.
Proof.
  intros Hm (m & -> & Hf & Ha & Hc & He) Hn Hb. simpl in *. eexists. split.
  - apply store_done. intros y Hy. apply Hm. lia.
  - exists (put n cur v m). csplit; simpl; try lia; [reflexivity|]. apply filled_up; trivial.
Qed.

Lemma setting_words b s0 a e v n : forall cur count s,
  mapped s0 a e -> setting b s0 a e (cur, count) s -> 8 * Z.of_nat n <= count ->
  (forall y i, 0 <= i < 8 -> wrap8 (v .>> (8 * i)) = b y) ->
  exists s1, set_words n cur v s = Done tt s1 /\
    setting b s0 a e (cur + 8 * Z.of_nat n, count - 8 * Z.of_nat n) s1.
Proof.
  induction n as [|n IH]; intros cur count s Hm Hs Hn Hb.
  - exists s. split; [reflexivity|]. rewrite Z.mul_0_r, Z.add_0_r, Z.sub_0_r. trivial.
  - destruct (setting_store b s0 a e cur count s 8 v Hm Hs) as (s1 & E1 & H1); [lia|auto|].
    destruct (IH _ _ _ Hm H1) as (s2 & E2 & H2); [lia|trivial|].
    exists s2. simpl set_words. rewrite (bind_done _ _ _ _ _ E1). split; [exact E2|].
    replace (cur + _) with (cur + Z.of_nat 8 + 8 * Z.of_nat n) by lia.
    replace (count - _) with (count - Z.of_nat 8 - 8 * Z.of_nat n) by lia. exact H2.
Qed.

Lemma set_pattern_bytes value i :
  0 <= value < 128 -> 0 <= i < 8 -> wrap8 (set_pattern value .>> (8 * i)) = value.
Proof.
  intros Hv Hi.
  assert (H : forallb (fun v => forallb (fun i => wrap8 (set_pattern v .>> (8 * i)) =? v)
            (seqZ 0 8)) (seqZ 0 128) = true) by (vm_compute; reflexivity).
  rewrite forallb_forall in H. specialize (H value). rewrite forallb_forall in H.
  apply Z.eqb_eq, H; apply list_elem_of_In, elem_of_seqZ; lia.
Qed.

(** A loop that fills [k] bytes in each round. *)
Lemma setting_loop {R} b s0 a e k (test : Z -> Z -> bool) (step : Z -> C unit) (out : Z -> Z -> R) cur count s :
  mapped s0 a e -> setting b s0 a e (cur, count) s -> count < 2 ^ 64 ->
  (forall cur c s, setting b s0 a e (cur, c) s -> test cur c = true -> 0 < k /\
     exists s1, step cur s = Done tt s1 /\ setting b s0 a e (cur + k, c - k) s1) ->
  exists cur' c' s', loop (fun '(cur, c) =>
      if test cur c then step cur;; mret (Next (cur + k, c - k)) else mret (Break (out cur c)))
      (cur, count) s = Done (out cur' c') s' /\
    setting b s0 a e (cur', c') s' /\ test cur' c' = false /\ c' < 2 ^ 64.
Proof.
  intros Hm Hs Hc Hstep.
  edestruct (fun body => loop_rule body (fun l s => setting b s0 a e l s /\ l.2 < 2 ^ 64)
    (fun r s' => exists cur' c', r = out cur' c' /\ setting b s0 a e (cur', c') s' /\
       test cur' c' = false /\ c' < 2 ^ 64) snd (cur, count) s)
    as (r & s' & E & cur' & c' & -> & H); [|split; [exact Hs|exact Hc]|exact Hc|eauto 8].
  intros [x c] s1 [H Hb]. split; [destruct H as (? & ? & ? & ? & ? & ?); trivial|].
  destruct (test x c) eqn:Et.
  - left. destruct (Hstep x c s1 H Et) as (Hk & s2 & E2 & H2). eexists _, s2.
    rewrite (bind_done _ _ _ _ _ E2). csplit; [reflexivity|exact H2|simpl in *; lia..].
  - right. eexists _, s1. split; [reflexivity|]. eauto 8.
Qed.

Lemma memset_filled s addr value count :
  0 <= value < 128 -> is_octa count -> mapped s addr (addr + count) ->
  exists m, memset addr value count s = Done addr (set_mem m s) /\
    filled (fun _ => value) (p_mem s) addr (addr + count) m.
Proof.
  intros Hv Hc Hm. set (e := addr + count) in *. set (b := fun _ : Z => value).
  assert (Hb8 : forall y i, 0 <= i < 8 -> wrap8 (set_pattern value .>> (8 * i)) = b y)
    by (intros; apply set_pattern_bytes; trivial).
  assert (Hb1 : forall y i, 0 <= i < Z.of_nat 1 -> wrap8 (value .>> (8 * i)) = b y).
  { intros y i Hi. replace i with 0 by lia. rewrite Z.shiftr_0_r. unfold b. apply wrap_small. wordlia. }
  assert (H0 : setting b s addr e (addr, count) s).
  { exists (p_mem s). simpl. csplit; try wordlia; [symmetry; apply set_mem_mem|apply filled_refl]. }
  assert (Hbyte : forall cur c s', setting b s addr e (cur, c) s' -> (0 <? c) = true ->
    0 < 1 /\ exists s1, store8 cur value s' = Done tt s1 /\ setting b s addr e (cur + 1, c - 1) s1).
  { intros cur c s' Hi Hc'%Z.ltb_lt. split; [lia|].
    apply (setting_store b s addr e cur c s' 1 value); trivial; [lia|auto]. }
  unfold memset.
  destruct (setting_loop b s addr e 1 (fun cur c => (0 <? c) && negb (cur mod 8 =? 0))
    (fun cur => store8 cur value) (fun cur c => (cur, c)) addr count s Hm H0)
    as (a1 & c1 & s1 & E1 & H1 & _ & L1); [wordlia| |rewrite (bind_done _ _ _ _ _ E1)].
  { intros cur c s' Hi [Ht _]%andb_true_iff. auto. }
  destruct (setting_loop b s addr e 128 (fun cur c => 128 <=? c)
    (fun cur => set_words 16 cur (set_pattern value)) (fun cur c => (cur, c)) a1 c1 s1 Hm H1 L1)
    as (a2 & c2 & s2 & E2 & H2 & _ & L2); [|rewrite (bind_done _ _ _ _ _ E2)].
  { intros cur c s' Hi Ht%Z.leb_le. split; [lia|].
    apply (setting_words b s addr e (set_pattern value) 16); trivial. }
  destruct (setting_loop b s addr e 8 (fun cur c => 8 <=? c)
    (fun cur => store64 cur (set_pattern value)) (fun cur c => (cur, c)) a2 c2 s2 Hm H2 L2)
    as (a3 & c3 & s3 & E3 & H3 & _ & L3); [|rewrite (bind_done _ _ _ _ _ E3)].
  { intros cur c s' Hi Ht%Z.leb_le. split; [lia|].
    apply (setting_store b s addr e cur c s' 8); auto. }
  destruct (setting_loop b s addr e 1 (fun cur c => 0 <? c)
    (fun cur => store8 cur value) (fun cur c => tt) a3 c3 s3 Hm H3 L3)
    as (a4 & c4 & s4 & E4 & H4 & T4 & _); [trivial|rewrite (bind_done _ _ _ _ _ E4)].
  destruct H4 as (m & -> & Hf & Ha & H4 & He). exists m. split; [reflexivity|]. simpl in *.
  apply Z.ltb_ge in T4. replace e with a4 by lia. exact Hf.
Qed.

(** ** [memcpy] and [memmove] *)

(** The bytes of a block at [src], moved to [dest]. *)
Definition moved (m : arr) (dest src : Z) : arr := fun y => byte_at m (y - dest + src).

Definition copying (s0 : process) (dest src len : Z) (l : Z * Z * Z) (s : process) : Prop :=
  let '(d, sr, c) := l in
  setting (moved (p_mem s0) dest src) s0 dest (dest + len) (d, c) s /\ sr = d - dest + src.

(** The destination does not overwrite what is still to be copied. *)
Definition copy_ok (s0 : process) (dest src len : Z) : Prop :=
  mapped s0 dest (dest + len) /\ mapped s0 src (src + len) /\ (dest <= src \/ src + len <= dest).

Lemma copying_step s0 dest src len d sr c s n :
  copy_ok s0 dest src len -> copying s0 dest src len (d, sr, c) s -> Z.of_nat n <= c ->
  exists s1, assign n d sr s = Done tt s1 /\
    copying s0 dest src len (d + Z.of_nat n, sr + Z.of_nat n, c - Z.of_nat n) s1.
Proof.
  intros (Hd & Hs & Ho) [Hset ->] Hn. pose proof Hset as (m & -> & Hf & Ha & Hc & He).
  simpl in *. edestruct setting_store as (s1 & E1 & H1); [exact Hd|exact Hset|exact Hn| |].
  2: { exists s1. unfold assign. rewrite bind_load by (intros y Hy; apply Hs; lia).
       split; [exact E1|]. split; [exact H1|]. lia. }
  intros i Hi. simpl. rewrite num_byte by lia. unfold moved.
  rewrite (filled_out _ _ _ _ _ _ Hf) by lia. f_equal. lia.
Qed.

Lemma copying_words s0 dest src len n : forall d sr c s,
  copy_ok s0 dest src len -> copying s0 dest src len (d, sr, c) s -> 8 * Z.of_nat n <= c ->
  exists s1, copy_words n d sr s = Done tt s1 /\
    copying s0 dest src len (d + 8 * Z.of_nat n, sr + 8 * Z.of_nat n, c - 8 * Z.of_nat n) s1.
Proof.
  induction n as [|n IH]; intros d sr c s Hok Hs Hn.
  - exists s. split; [reflexivity|]. rewrite Z.mul_0_r, !Z.add_0_r, Z.sub_0_r. trivial.
  - destruct (copying_step s0 dest src len d sr c s 8 Hok Hs) as (s1 & E1 & H1); [lia|].
    destruct (IH _ _ _ _ Hok H1) as (s2 & E2 & H2); [lia|]. exists s2. split.
    + simpl copy_words. rewrite (bind_done _ _ _ _ _ E1). exact E2.
    + replace (d + _) with (d + Z.of_nat 8 + 8 * Z.of_nat n) by lia.
      replace (sr + _) with (sr + Z.of_nat 8 + 8 * Z.of_nat n) by lia.
      replace (c - _) with (c - Z.of_nat 8 - 8 * Z.of_nat n) by lia. exact H2.
Qed.

(** A loop that copies [k] bytes in each round. *)
Lemma copying_loop {R} s0 dest src len k (test : Z -> Z -> Z -> bool) (step : Z -> Z -> C unit)
    (out : Z -> Z -> Z -> R) d sr c s :
  copying s0 dest src len (d, sr, c) s -> c < 2 ^ 64 ->
  (forall d sr c s, copying s0 dest src len (d, sr, c) s -> test d sr c = true -> 0 < k /\
     exists s1, step d sr s = Done tt s1 /\ copying s0 dest src len (d + k, sr + k, c - k) s1) ->
  exists d' sr' c' s', loop (fun '(d, sr, c) => if test d sr c then
      step d sr;; mret (Next (d + k, sr + k, c - k)) else mret (Break (out d sr c)))
      (d, sr, c) s = Done (out d' sr' c') s' /\
    copying s0 dest src len (d', sr', c') s' /\ test d' sr' c' = false /\ c' < 2 ^ 64.
Proof.
  intros Hs Hc Hstep.
  edestruct (fun body => loop_rule body (fun l s => copying s0 dest src len l s /\ l.2 < 2 ^ 64)
    (fun r s' => exists d' sr' c', r = out d' sr' c' /\ copying s0 dest src len (d', sr', c') s' /\
       test d' sr' c' = false /\ c' < 2 ^ 64) snd (d, sr, c) s)
    as (r & s' & E & d' & sr' & c' & -> & H); [|split; [exact Hs|exact Hc]|exact Hc|eauto 10].
  intros [[x z] n] s1 [H Hb]. split; [destruct H as [(? & ? & ? & ? & ? & ?) ?]; trivial|].
  destruct (test x z n) eqn:Et.
  - left. destruct (Hstep x z n s1 H Et) as (Hk & s2 & E2 & H2). eexists _, s2.
    rewrite (bind_done _ _ _ _ _ E2). csplit; [reflexivity|exact H2|simpl in *; lia..].
  - right. eexists _, s1. split; [reflexivity|]. eauto 10.
Qed.

Lemma memcpy_filled s dest src len :
  is_octa len -> copy_ok s dest src len ->
  exists m, memcpy dest src len s = Done dest (set_mem m s) /\
    filled (moved (p_mem s) dest src) (p_mem s) dest (dest + len) m.
Proof.
  intros Hl Hok.
  assert (H0 : copying s dest src len (dest, src, len) s).
  { split; [|lia]. exists (p_mem s). simpl.
    csplit; try wordlia; [symmetry; apply set_mem_mem|apply filled_refl]. }
  assert (Hcp : forall n d sr c s', copying s dest src len (d, sr, c) s' -> Z.of_nat n <= c ->
    exists s1, assign n d sr s' = Done tt s1 /\
      copying s dest src len (d + Z.of_nat n, sr + Z.of_nat n, c - Z.of_nat n) s1)
    by (intros; apply copying_step; trivial).
  unfold memcpy.
  assert (H1 : exists d1 s1 c1 t1, (if dest mod 8 =? src mod 8 then
      loop (fun '(bdest, bsrc, len) =>
        if (0 <? len) && negb (bdest mod 8 =? 0) then
          assign 1 bdest bsrc;; mret (Next (bdest + 1, bsrc + 1, len - 1))
        else mret (Break (bdest, bsrc, len))) (dest, src, len)
    else mret (dest, src, len)) s = Done (d1, s1, c1) t1 /\
    copying s dest src len (d1, s1, c1) t1 /\ c1 < 2 ^ 64).
  { destruct (_ =? _); [|eexists _, _, _, _; split; [reflexivity|]; split; [exact H0|wordlia]].
    destruct (copying_loop s dest src len 1 (fun d _ c => (0 <? c) && negb (d mod 8 =? 0))
      (assign 1) (fun d sr c => (d, sr, c)) _ _ _ _ H0) as (d1 & s1 & c1 & t1 & E & H & _ & L);
      [wordlia| |eexists _, _, _, _; split; [exact E|]; auto].
    intros d sr c s' H [Ht%Z.ltb_lt _]%andb_true_iff. split; [lia|]. apply (Hcp 1%nat); trivial; lia. }
  destruct H1 as (d1 & s1 & c1 & t1 & E1 & H1 & L1). rewrite (bind_done _ _ _ _ _ E1). clear E1.
  destruct (copying_loop s dest src len 128 (fun _ _ c => 128 <=? c) (copy_words 16) (fun d sr c => (d, sr, c))
    _ _ _ _ H1 L1) as (d2 & s2 & c2 & t2 & E2 & H2 & _ & L2); [|rewrite (bind_done _ _ _ _ _ E2)].
  { intros d sr c s' H Ht%Z.leb_le. split; [lia|]. apply (copying_words s dest src len 16); trivial. }
  destruct (copying_loop s dest src len 8 (fun _ _ c => 8 <=? c) (assign 8) (fun d sr c => (d, sr, c))
    _ _ _ _ H2 L2) as (d3 & s3 & c3 & t3 & E3 & H3 & _ & L3); [|rewrite (bind_done _ _ _ _ _ E3)].
  { intros d sr c s' H Ht%Z.leb_le. split; [lia|]. apply (Hcp 8%nat); trivial. }
  destruct (copying_loop s dest src len 1 (fun _ _ c => 0 <? c) (assign 1) (fun _ _ _ => tt)
    _ _ _ _ H3 L3) as (d4 & s4 & c4 & t4 & E4 & H4 & T4 & _); [|rewrite (bind_done _ _ _ _ _ E4)].
  { intros d sr c s' H Ht%Z.ltb_lt. split; [lia|]. apply (Hcp 1%nat); trivial; lia. }
  destruct H4 as [(m & -> & Hf & Ha & H4 & He) _]. exists m. split; [reflexivity|]. simpl in *.
  apply Z.ltb_ge in T4. replace (dest + len) with d4 by lia. exact Hf.
Qed.

(** One step of the loops that copy downwards: [c] bytes are left. *)
Definition sinking (s0 : process) (dest src len c : Z) (s : process) : Prop :=
  exists m, s = set_mem m s0 /\
    filled (moved (p_mem s0) dest src) (p_mem s0) (dest + c) (dest + len) m /\ 0 <= c <= len.

Lemma sinking_step s0 dest src len c s n :
  mapped s0 dest (dest + len) -> mapped s0 src (src + len) -> src <= dest ->
  sinking s0 dest src len c s -> Z.of_nat n <= c ->
  exists s1, assign n (dest + c - Z.of_nat n) (src + c - Z.of_nat n) s = Done tt s1 /\
    sinking s0 dest src len (c - Z.of_nat n) s1.
Proof.
  intros Hd Hs Ho (m & -> & Hf & Hc) Hn. eexists. split.
  - unfold assign. rewrite bind_load by (intros y Hy; apply Hs; lia).
    apply store_done. intros y Hy. apply Hd. lia.
  - eexists. split; [reflexivity|]. split; [|lia].
    replace (dest + (c - Z.of_nat n)) with (dest + c - Z.of_nat n) by lia. apply filled_down.
    + replace (_ - _ + _) with (dest + c) by lia. exact Hf.
    + lia.
    + intros i Hi. simpl. rewrite num_byte by lia. unfold moved.
      rewrite (filled_out _ _ _ _ _ _ Hf) by lia. f_equal. lia.
Qed.

(** A loop that copies [n] bytes downwards in each round. *)
Lemma sinking_loop {R} s0 dest src len (n : nat) (test : Z -> bool) (out : Z -> Z -> Z -> R) c s :
  mapped s0 dest (dest + len) -> mapped s0 src (src + len) -> src <= dest ->
  len < 2 ^ 64 -> sinking s0 dest src len c s ->
  0 < Z.of_nat n -> (forall c, reflect (Z.of_nat n <= c) (test c)) ->
  exists c' s', loop (fun '(d, sr, c) => if test c then assign n d sr;;
      mret (Next (d - Z.of_nat n, sr - Z.of_nat n, c - Z.of_nat n))
    else mret (Break (out d sr c))) (dest + c - Z.of_nat n, src + c - Z.of_nat n, c) s =
    Done (out (dest + c' - Z.of_nat n) (src + c' - Z.of_nat n) c') s' /\
    sinking s0 dest src len c' s' /\ c' < Z.of_nat n.
Proof.
  intros Hd Hs Ho Hl Hi Hn Ht.
  edestruct (fun body => loop_rule body
    (fun l s => l = (dest + l.2 - Z.of_nat n, src + l.2 - Z.of_nat n, l.2) /\ sinking s0 dest src len l.2 s)
    (fun r s' => exists c', r = out (dest + c' - Z.of_nat n) (src + c' - Z.of_nat n) c' /\
       sinking s0 dest src len c' s' /\ c' < Z.of_nat n) snd (dest + c - Z.of_nat n, src + c - Z.of_nat n, c) s)
    as (r & s' & E & c' & -> & H).
  4: { exists c', s'. split; [exact E|exact H]. }
  2: { split; [reflexivity|exact Hi]. }
  2: { destruct Hi as (? & _ & _ & ?). simpl. lia. }
  intros [[x z] c1] s1 [El H]. simpl in El. injection El as -> ->. simpl in H.
  split; [destruct H as (? & _ & _ & ?); simpl; lia|].
  destruct (Ht c1).
  - left. destruct (sinking_step s0 dest src len c1 s1 n Hd Hs Ho H) as (s2 & E2 & H2); [lia|].
    eexists _, s2. rewrite (bind_done _ _ _ _ _ E2). csplit; [reflexivity| |exact H2|simpl; lia].
    simpl. do 2 f_equal; lia.
  - right. eexists _, s1. split; [reflexivity|]. exists c1. csplit; trivial; lia.
Qed.

(** C35: [memmove] moves a block wherever it goes: afterwards the destination holds the bytes
    the source had before, also where the two overlap, and no other byte has changed. *)
Theorem memmove_moves s dest src count :
  is_octa count -> mapped s dest (dest + count) -> mapped s src (src + count) ->
  exists m, memmove dest src count s = Done dest (set_mem m s) /\
    filled (moved (p_mem s) dest src) (p_mem s) dest (dest + count) m.
Proof.
  intros Hc Hd Hs. unfold memmove. destruct (Z.eqb_spec dest src) as [->|Hne]; simpl.
  { exists (p_mem s). rewrite set_mem_mem. split; [reflexivity|]. intros y. unfold moved.
    replace (y - src + src) with y by lia. destruct (_ && _); reflexivity. }
  destruct (Z.eqb_spec count 0) as [->|Hc0]; simpl.
  { exists (p_mem s). rewrite set_mem_mem, Z.add_0_r. split; [reflexivity|apply filled_refl]. }
  destruct (Z.ltb_spec src dest).
  2: { apply memcpy_filled; [trivial|]. split; [trivial|]. split; [trivial|]. lia. }
  assert (H0 : sinking s dest src count count s).
  { exists (p_mem s). split; [symmetry; apply set_mem_mem|]. split; [apply filled_refl|wordlia]. }
  destruct (sinking_loop s dest src count 8 (Z.leb 8) (fun d sr c => (d, sr, c)) count s Hd Hs)
    as (c1 & s1 & E1 & H1 & L1); [lia|wordlia|trivial|lia|intros; apply Z.leb_spec0|].
  change (Z.of_nat 8) with 8 in *. rewrite (bind_done _ _ _ _ _ E1). clear E1.
  replace (dest + c1 - 8 + 7) with (dest + c1 - 1) by lia.
  replace (src + c1 - 8 + 7) with (src + c1 - 1) by lia.
  destruct (sinking_loop s dest src count 1 (Z.ltb 0) (fun _ _ _ => tt) c1 s1 Hd Hs)
    as (c2 & s2 & E2 & H2 & L2); [lia|wordlia|trivial|lia|..].
  { intros c. apply iff_reflect. rewrite Z.ltb_lt. lia. }
  change (Z.of_nat 1) with 1 in *. rewrite (bind_done _ _ _ _ _ E2). destruct H2 as (m & -> & Hf & Hb).
  exists m. split; [reflexivity|]. replace c2 with 0 in Hf by lia. rewrite Z.add_0_r in Hf. exact Hf.
Qed.

(** ** [memcmp] and [memswp] *)

(** The result of [memcmp] is decided by the first byte that differs. *)
Definition compares (m : arr) (a b n r : Z) : Prop :=
  (r = 0 /\ forall i, 0 <= i < n -> byte_at m (a + i) = byte_at m (b + i)) \/
  (exists i, 0 <= i < n /\ (forall j, 0 <= j < i -> byte_at m (a + j) = byte_at m (b + j)) /\
     byte_at m (a + i) <> byte_at m (b + i) /\
     r = if byte_at m (a + i) <? byte_at m (b + i) then -1 else 1).

Lemma load8_byte s a e y :
  mapped s a e -> a <= y < e -> load8 y s = Done (byte_at (p_mem s) y) s.
Proof.
  intros Hm Hy. rewrite load_done by (intros z Hz; apply Hm; lia). simpl.
  rewrite Z.add_0_r. reflexivity.
Qed.

Lemma memcmp_compares s a b n :
  is_octa n -> mapped s a (a + n) -> mapped s b (b + n) ->
  exists r, memcmp a b n s = Done r s /\ compares (p_mem s) a b n r.
Proof.
  intros Hn Ha Hb. set (m := p_mem s). unfold memcmp.
  edestruct (fun body => loop_rule body (fun '(x, y, c) s' => s' = s /\ 0 <= c <= n /\
      x = a + (n - c) /\ y = b + (n - c) /\
      forall i, 0 <= i < n - c -> byte_at m (a + i) = byte_at m (b + i))
    (fun r s' => s' = s /\ compares m a b n r) snd (a, b, n) s) as (r & s' & E & -> & H).
  4: { exists r. split; [exact E|exact H]. }
  - intros [[x y] c] s' (-> & Hc & -> & -> & Heq). split; [simpl; lia|].
    destruct (Z.ltb_spec 0 c).
    2: { right. eexists _, _. split; [reflexivity|]. split; [reflexivity|]. left.
         split; [trivial|]. intros i Hi. apply Heq. lia. }
    rewrite (bind_done _ _ _ _ _ (load8_byte s _ _ (a + (n - c)) Ha ltac:(lia))).
    rewrite (bind_done _ _ _ _ _ (load8_byte s _ _ (b + (n - c)) Hb ltac:(lia))). fold m.
    destruct (Z.eqb_spec (byte_at m (a + (n - c))) (byte_at m (b + (n - c)))) as [Ee|Ee]; simpl.
    + left. eexists _, _. split; [reflexivity|]. split; [|simpl; lia].
      csplit; try lia; [trivial|]. intros i Hi. destruct (Z.eq_dec i (n - c)) as [->|]; [trivial|].
      apply Heq. lia.
    + right. eexists _, _. split; [reflexivity|]. split; [trivial|]. right. exists (n - c).
      csplit; trivial; lia.
  - csplit; trivial; try wordlia.
  - simpl. wordlia.
Qed.

Lemma compares_zero m a b n r :
  compares m a b n r -> r = 0 <-> forall i, 0 <= i < n -> byte_at m (a + i) = byte_at m (b + i).
Proof.
  intros [[-> H]|(i & Hi & _ & Hne & ->)]; [tauto|].
  split; [destruct (_ <? _); discriminate|]. intros H. destruct Hne. auto.
Qed.

(** The memory after [memswp]: the blocks of [n] bytes at [a] and [b] are exchanged. *)
Definition swapped (m : arr) (a b n : Z) (m' : arr) : Prop :=
  forall y, byte_at m' y =
    if (a <=? y) && (y <? a + n) then byte_at m (y - a + b)
    else if (b <=? y) && (y <? b + n) then byte_at m (y - b + a) else byte_at m y.

Lemma xor_byte_done s i j :
  p_mapped s i = true -> p_mapped s j = true ->
  xor_byte i j s = Done tt (set_mem (put 1 i (byte_at (p_mem s) i .^ byte_at (p_mem s) j) (p_mem s)) s).
Proof.
  intros Hi Hj. assert (M : forall k, p_mapped s k = true -> mapped s k (k + 1)).
  { intros k Hk y Hy. replace y with k by lia. trivial. }
  unfold xor_byte. rewrite (bind_done _ _ _ _ _ (load8_byte s _ _ i (M i Hi) ltac:(lia))).
  rewrite (bind_done _ _ _ _ _ (load8_byte s _ _ j (M j Hj) ltac:(lia))).
  apply store_done. intros y Hy. replace y with i by lia. trivial.
Qed.

Lemma byte_put1 a v m y : byte_at (put 1 a v m) y = if y =? a then wrap8 v else byte_at m y.
Proof.
  rewrite byte_put. destruct (Z.eqb_spec y a) as [->|].
  - rewrite Z.sub_diag, Z.shiftr_0_r.
    destruct (Z.leb_spec a a), (Z.ltb_spec a (a + Z.of_nat 1)); reflexivity || lia.
  - destruct (Z.leb_spec a y), (Z.ltb_spec y (a + Z.of_nat 1)); reflexivity || lia.
Qed.

(** Three exclusive ors exchange two different bytes of memory. *)
Lemma xor_swap s i j :
  p_mapped s i = true -> p_mapped s j = true -> i <> j ->
  exists m, (xor_byte i j;; xor_byte j i;; xor_byte i j) s = Done tt (set_mem m s) /\
    forall y, byte_at m y = if y =? i then byte_at (p_mem s) j
                            else if y =? j then byte_at (p_mem s) i else byte_at (p_mem s) y.
Proof.
  intros Hi Hj Hne. pose proof (byte_range (p_mem s) i). pose proof (byte_range (p_mem s) j).
  assert (Hx : forall a b, is_byte a -> is_byte b -> wrap8 (a .^ b) = a .^ b)
    by (intros; apply wrap_small; auto with word).
  rewrite (bind_done _ _ _ _ _ (xor_byte_done s i j Hi Hj)).
  rewrite (bind_done _ _ _ _ _ (xor_byte_done (set_mem _ s) j i Hj Hi)).
  rewrite xor_byte_done by trivial. eexists. split; [reflexivity|]. intros y. simpl p_mem.
  repeat rewrite ?byte_put1, ?Z.eqb_refl.
  rewrite (proj2 (Z.eqb_neq i j)), (proj2 (Z.eqb_neq j i)) by lia.
  destruct (Z.eqb_spec y i) as [->|]; [|destruct (Z.eqb_spec y j) as [->|]; [|reflexivity]];
    rewrite !Hx by auto with word.
  all: apply Z.bits_inj'; intros k _; rewrite !Z.lxor_spec; btauto.
Qed.

Lemma memswp_swaps s a b n :
  is_octa n -> mapped s a (a + n) -> mapped s b (b + n) -> a = b \/ a + n <= b \/ b + n <= a ->
  exists m, memswp a b n s = Done tt (set_mem m s) /\ swapped (p_mem s) a b n m.
Proof.
  intros Hn Ha Hb Hd. destruct (memcmp_compares s a b n Hn Ha Hb) as (r & Er & Hr).
  apply compares_zero in Hr. unfold memswp. rewrite (bind_done _ _ _ _ _ Er).
  destruct (Z.eqb_spec r 0) as [H0|H0].
  { exists (p_mem s). rewrite set_mem_mem. split; [reflexivity|]. intros y. pose proof (proj1 Hr H0) as Heq.
    destruct ((a <=? y) && (y <? a + n)) eqn:Ea; [|destruct ((b <=? y) && (y <? b + n)) eqn:Eb; [|reflexivity]].
    - apply andb_true_iff in Ea as [?%Z.leb_le ?%Z.ltb_lt].
      replace (y - a + b) with (b + (y - a)) by lia. rewrite <- Heq by lia. f_equal. lia.
    - apply andb_true_iff in Eb as [?%Z.leb_le ?%Z.ltb_lt].
      replace (y - b + a) with (a + (y - b)) by lia. rewrite Heq by lia. f_equal. lia. }
  destruct Hd as [->|Hd]; [destruct H0; apply (proj2 Hr); reflexivity|].
  edestruct (fun body => loop_rule body (fun '(i, j, x) s' => 0 <= x <= n /\ i = a + x /\ j = b + x /\
      exists m, s' = set_mem m s /\ swapped (p_mem s) a b x m)
    (fun (_ : unit) s' => exists m, s' = set_mem m s /\ swapped (p_mem s) a b n m) (fun l => n - l.2) (a, b, 0) s)
    as ([] & s' & E & m & -> & H).
  4: { exists m. split; [exact E|exact H]. }
  - intros [[i j] x] s' (Hx & -> & -> & m & -> & H). split; [simpl; lia|].
    destruct (Z.ltb_spec x n).
    2: { right. eexists _, _. split; [reflexivity|]. exists m. split; [trivial|].
         replace n with x by lia. exact H. }
    left. destruct (xor_swap (set_mem m s) (a + x) (b + x)) as (m' & E & Hm');
      [apply Ha; lia|apply Hb; lia|lia|].
    eexists (_, _, _), (set_mem m' s). split.
    { revert E. unfold mbind, C_bind.
      destruct (xor_byte _ _ _) as [[] s1|]; [|discriminate].
      destruct (xor_byte _ _ s1) as [[] s2|]; [|discriminate]. intros ->. reflexivity. }
    split; [|simpl; lia]. csplit; try lia. exists m'. split; [reflexivity|]. intros y.
    simpl in Hm'. rewrite Hm', !H. clear - Hd Hx H1 Hn.
    repeat match goal with |- context [?p =? ?q] => destruct (Z.eqb_spec p q) end;
    repeat match goal with |- context [?p <=? ?q] => destruct (Z.leb_spec p q) end;
    repeat match goal with |- context [?p <? ?q] => destruct (Z.ltb_spec p q) end;
      simpl; try lia; f_equal; lia.
  - csplit; try wordlia. exists (p_mem s). split; [symmetry; apply set_mem_mem|].
    intros y. rewrite !Z.add_0_r.
    destruct (Z.leb_spec a y), (Z.ltb_spec y a), (Z.leb_spec b y), (Z.ltb_spec y b); reflexivity || lia.
  - simpl. wordlia.
Qed.

(** ** Theorems *)

(** [memset] sets a block to a value of at most seven bits: every byte of the block, no
    other byte. *)
Theorem memset_sets s addr value count :
  0 <= value < 128 -> is_octa count -> mapped s addr (addr + count) ->
  exists m, memset addr value count s = Done addr (set_mem m s) /\
    (forall y, addr <= y < addr + count -> byte_at m y = value) /\
    (forall y, y < addr \/ addr + count <= y -> byte_at m y = byte_at (p_mem s) y).
Proof.
  intros Hv Hc Hm. destruct (memset_filled s addr value count Hv Hc Hm) as (m & E & Hf).
  exists m. split; [exact E|]. split; intros y Hy.
  - apply (filled_in _ _ _ _ _ _ Hf Hy).
  - apply (filled_out _ _ _ _ _ _ Hf Hy).
Qed.

Lemma page_mapped l a e : 4096 <= a -> e <= 8192 -> mapped (page_process l) a e.
Proof. intros Ha He y Hy. simpl. apply andb_true_iff. rewrite Z.leb_le, Z.ltb_lt. lia. Qed.

Lemma memset_sets_witness :
  exists m, memset 4099 7 300 (page_process []) = Done 4099 (set_mem m (page_process [])) /\
    (forall y, 4099 <= y < 4099 + 300 -> byte_at m y = 7) /\
    (forall y, y < 4099 \/ 4099 + 300 <= y -> byte_at m y = byte_at (p_mem (page_process [])) y).
Proof. apply (memset_sets (page_process []) 4099 7 300); [lia|wordlia|apply page_mapped; lia]. Defined.

Lemma memmove_moves_witness :
  exists m, memmove 4101 4099 20 (page_process [1; 2; 3; 4; 5; 6; 7; 8; 9; 10]) =
      Done 4101 (set_mem m (page_process [1; 2; 3; 4; 5; 6; 7; 8; 9; 10])) /\
    filled (moved (p_mem (page_process [1; 2; 3; 4; 5; 6; 7; 8; 9; 10])) 4101 4099)
      (p_mem (page_process [1; 2; 3; 4; 5; 6; 7; 8; 9; 10])) 4101 (4101 + 20) m.
Proof.
  apply (memmove_moves (page_process [1; 2; 3; 4; 5; 6; 7; 8; 9; 10]) 4101 4099 20);
    [wordlia|apply page_mapped; lia..].
Defined.

(** [memset] is wrong for values with the high bit: 128 is shifted into the sign bit of an
    [int], whose extension to eight bytes sets the upper half of each word to 255. *)
Theorem memset_extends_sign s addr :
  addr mod 8 = 0 -> mapped s addr (addr + 8) ->
  exists m, memset addr 128 8 s = Done addr (set_mem m s) /\
    byte_at m addr = 128 /\ byte_at m (addr + 4) = 255.
Proof.
  intros Ha Hm. exists (put 8 addr (set_pattern 128) (p_mem s)). split.
  - unfold memset. rewrite (bind_done _ _ _ (addr, 8) s).
    2: { apply (loop_iter _ 1); [apply iter_break; rewrite Ha; reflexivity|lia]. }
    rewrite (bind_done _ _ _ (addr, 8) s).
    2: { apply (loop_iter _ 1); [apply iter_break; reflexivity|lia]. }
    erewrite bind_done.
    2: { apply (loop_iter _ 2); [|lia]. eapply iter_next.
         - simpl. rewrite bind_store; [reflexivity|]. intros y Hy. apply Hm. lia.
         - apply iter_break. reflexivity. }
    cbv beta iota. erewrite bind_done; [reflexivity|].
    apply (loop_iter _ 1); [apply iter_break; reflexivity|lia].
  - rewrite !byte_put, Z.sub_diag. replace (addr + 4 - addr) with 4 by lia.
    destruct (Z.leb_spec addr addr), (Z.ltb_spec addr (addr + Z.of_nat 8)),
      (Z.leb_spec addr (addr + 4)), (Z.ltb_spec (addr + 4) (addr + Z.of_nat 8)); try lia.
    split; reflexivity.
Qed.

Lemma memset_extends_sign_witness :
  exists m, memset 4096 128 8 (page_process []) = Done 4096 (set_mem m (page_process [])) /\
    byte_at m 4096 = 128 /\ byte_at m (4096 + 4) = 255.
Proof. apply (memset_extends_sign (page_process []) 4096); [reflexivity|apply page_mapped; lia]. Defined.

#[global] Arguments num_at : simpl never.
#[global] Arguments put : simpl never.
