(* ===== verification/Heap.v ===== *)
(** * The heap of the C library

    lib/c/stdlib/heap.c: [malloc], [calloc], [realloc], [free] over areas of memory.  An area
    structure (24 bytes: [size], [address], [next]) describes a block; it hangs in the list of
    usable areas, or belongs to an allocated block, or is free for further use.  An allocated
    block starts with three words (the area, the size, a magic number) and ends with one.
    The blocks are cleared and copied by the routines of MemOps.v. *)

From Stdlib Require Import ZArith Lia Bool.
From stdpp Require Import base list numbers option gmap.
From S2P Require Import Prelude CMem MemOps.

(** ** Constants and macros *)

Definition PAGE_SIZE : Z := 4096.
Definition GUARD_MAGIC : Z := 0xDEADBEEF.
Definition FREE_MAGIC : Z := 0xFEEEFEEE.
Definition SIZEOF_AREA : Z := 24.

(** [ROUND_UP] of include/sys/defines.h. *)
Definition ROUND_UP (count align : Z) : Z := (count +o align -o 1) .& not64 (align -o 1).

(** ** The environment: semaphores and the data area *)

(** [semdown] and [semup]; no other thread exists that could raise a semaphore later. *)
Definition semdown (u : tUserSem) : option tUserSem :=
  if 0 <? sem u then Some (mkUserSem (sem u - 1) (value u)) else None.
Definition semup (u : tUserSem) : tUserSem := mkUserSem (sem u + 1) (value u).

Definition on_heapSem (f : heap -> tUserSem) (s : process) : process :=
  let h := p_heap s in
  set_heap (mkheap (usableList h) (freeList h) (heapstart h) (pageCount h) (f h) (initialized h)) s.

Definition usemdown : C unit := fun s =>
  let u := heapSem (p_heap s) in
  let u' := mkUserSem (sem u) (value u - 1) in
  if value u <=? 0 then
    match semdown u' with
    | Some u'' => Done tt (on_heapSem (fun _ => u'') s)
    | None => Bad Deadlock
    end
  else Done tt (on_heapSem (fun _ => u') s).

Definition usemup : C unit := fun s =>
  let u := heapSem (p_heap s) in
  let u' := mkUserSem (sem u) (value u + 1) in
  Done tt (on_heapSem (fun _ => if value u <? 0 then semup u' else u') s).

(** Adds pages at the end of the data area and returns the old end, or NULL; the system call
    is documented in include/sys/mman.h, [p_grant] is the kernel's decision.  The variable
    [errno], set to -ENOMEM for NULL, is not part of the state. *)
Definition chgsize (count : Z) : C Z := fun s =>
  if p_grant s (p_end s) count then
    let e := p_end s in let e' := e + PAGE_SIZE * count in
    Done e (set_end e' (set_mapped (fun y => p_mapped s y || (e <=? y) && (y <? e')) s))
  else Done 0 s.

(** Accesses to the static variables. *)
Definition get_usable : C Z := gets (fun s => usableList (p_heap s)).
Definition get_free : C Z := gets (fun s => freeList (p_heap s)).
Definition set_usable (v : Z) : C unit := modify (fun s => let h := p_heap s in
  set_heap (mkheap v (freeList h) (heapstart h) (pageCount h) (heapSem h) (initialized h)) s).
Definition set_free (v : Z) : C unit := modify (fun s => let h := p_heap s in
  set_heap (mkheap (usableList h) v (heapstart h) (pageCount h) (heapSem h) (initialized h)) s).
Definition add_pages (oldEnd count : Z) : C unit := modify (fun s => let h := p_heap s in
  set_heap (mkheap (usableList h) (freeList h)
    (if pageCount h =? 0 then oldEnd else heapstart h) (pageCount h +o count)
    (heapSem h) (initialized h)) s).

(** The fields of an area structure. *)
Definition get_size (a : Z) : C Z := load64 a.
Definition get_address (a : Z) : C Z := load64 (a + 8).
Definition get_next (a : Z) : C Z := load64 (a + 16).
Definition set_size (a v : Z) : C unit := store64 a v.
Definition set_address (a v : Z) : C unit := store64 (a + 8) v.
Definition set_next (a v : Z) : C unit := store64 (a + 16) v.

(** ** The operations *)

(** [usemcrt] creates the kernel's semaphore; it fails when there is none left, given by
    [ok]. *)
Definition initHeap (ok : bool) : C unit :=
  h ← gets p_heap;
  if initialized h then mret tt
  else if ok then
    modify (fun s => let h := p_heap s in set_heap (mkheap (usableList h) (freeList h)
      (heapstart h) (pageCount h) (mkUserSem 0 1) true) s)
  else bad Exited.

Definition loadNewAreas : C bool :=
  oldEnd ← chgsize 1;
  if oldEnd =? 0 then mret false else
  add_pages oldEnd 1;;
  let fin := oldEnd + PAGE_SIZE / SIZEOF_AREA * SIZEOF_AREA in
  set_free oldEnd;;
  set_next oldEnd 0;;
  loop (fun area =>
    if area <? fin then
      f ← get_free;
      set_next area f;;
      set_free area;;
      mret (Next (area + SIZEOF_AREA))
    else mret (Break tt)) (oldEnd + SIZEOF_AREA);;
  mret true.

(** The structures a caller needs: [if(freeList == NULL) ... loadNewAreas()]. *)
Definition ensure_areas : C bool :=
  f ← get_free;
  if f =? 0 then loadNewAreas else mret true.

Definition loadNewSpace (size : Z) : C bool :=
  ok ← ensure_areas;
  if negb ok then mret false else
  if size +o PAGE_SIZE <? PAGE_SIZE then mret false else
  let count := (size +o PAGE_SIZE -o 1) / PAGE_SIZE in
  oldEnd ← chgsize count;
  if oldEnd =? 0 then mret false else
  add_pages oldEnd count;;
  area ← get_free;
  n ← get_next area;
  set_free n;;
  set_address area oldEnd;;
  set_size area (PAGE_SIZE *o count);;
  u ← get_usable;
  set_next area u;;
  set_usable area;;
  mret true.

(** The search for an area of at least [size] bytes: the area before it and the area. *)
Definition find_fit (size : Z) : C (Z * Z) :=
  u ← get_usable;
  loop (fun '(prev, area) =>
    if area =? 0 then mret (Break (prev, area)) else
    sz ← get_size area;
    if size <=? sz then mret (Break (prev, area)) else
    n ← get_next area;
    mret (Next (area, n))) (0, u).

(** [prev->next = v], or [usableList = v] without [prev]. *)
Definition set_link (prev v : Z) : C unit :=
  if prev =? 0 then set_usable v else set_next prev v.

(** The search and the removal from the usable list. *)
Definition take_area (size : Z) : C Z :=
  '(prev, area) ← find_fit size;
  (if area =? 0 then
     ok ← loadNewSpace size;
     if negb ok then mret 0 else
     area ← get_usable;
     n ← get_next area;
     set_usable n;;
     mret area
   else
     n ← get_next area;
     set_link prev n;;
     mret area).

(** The remainder of an area goes back to the usable list; false if no structure is left. *)
Definition split_area (area size : Z) : C bool :=
  asize ← get_size area;
  if negb (size <? asize) then mret true else
  ok ← ensure_areas;
  if negb ok then mret false else
  narea ← get_free;
  n ← get_next narea;
  set_free n;;
  addr ← get_address area;
  set_address narea (addr +o size);;
  set_size narea (asize -o size);;
  set_size area size;;
  u ← get_usable;
  set_next narea u;;
  set_usable narea;;
  mret true.

Definition set_guards (begin area size : Z) : C unit :=
  store64 begin area;;
  store64 (begin + 8) (size -o 32);;
  store64 (begin + 16) GUARD_MAGIC;;
  store64 (begin + 8 * (size / 8 -o 1)) GUARD_MAGIC.

Definition malloc (size : Z) : C Z :=
  if size =? 0 then mret 0 else
  usemdown;;
  let size := ROUND_UP size 8 +o 32 in
  area ← take_area size;
  if area =? 0 then usemup;; mret 0 else
  ok ← split_area area size;
  if negb ok then usemup;; mret 0 else
  begin ← get_address area;
  set_guards begin area size;;
  usemup;;
  mret (begin + 24).

Definition calloc (num size : Z) : C Z :=
  a ← malloc (num *o size);
  if a =? 0 then mret 0 else
  memclear a (num *o size);;
  mret a.

(** The checks of the words around a block. *)
Definition check_guards (begin : Z) : C unit :=
  b0 ← load64 begin;
  vassert (negb (b0 =? FREE_MAGIC));;
  b2 ← load64 (begin + 16);
  vassert (b2 =? GUARD_MAGIC);;
  b1 ← load64 (begin + 8);
  b3 ← load64 (begin + 8 * (b1 / 8 +o 3));
  vassert (b3 =? GUARD_MAGIC).

(** The neighbours of a block in the usable list, each with the area before it. *)
Record neighbours := mknb { prev : Z; pprev : Z; next : Z; nprev : Z }.

Definition find_neighbours (begin area : Z) : C neighbours :=
  a ← get_usable;
  loop (fun '(tprev, a, nb) =>
    if a =? 0 then mret (Break nb) else
    addr ← get_address a;
    size ← get_size a;
    let nb := if addr +o size =? begin then mknb a tprev (next nb) (nprev nb) else nb in
    asize ← get_size area;
    let nb := if addr =? begin +o asize then mknb (prev nb) (pprev nb) a tprev else nb in
    if truth (prev nb) && truth (next nb) then mret (Break nb) else
    n ← get_next a;
    mret (Next (a, n, nb))) (0, a, mknb 0 0 0 0).

(** The area between two usable ones. *)
Definition merge_both (area : Z) (nb : neighbours) : C unit :=
  psize ← get_size (prev nb);
  nsize ← get_size (next nb);
  asize ← get_size area;
  set_size area (asize +o (psize +o nsize));;
  paddr ← get_address (prev nb);
  set_address area paddr;;
  nn ← get_next (next nb);
  set_link (nprev nb) nn;;
  pn ← get_next (prev nb);
  (if pprev nb =? next nb then set_link (nprev nb) pn else set_link (pprev nb) pn);;
  u ← get_usable;
  set_next area u;;
  set_usable area;;
  set_next (prev nb) (next nb);;
  f ← get_free;
  set_next (next nb) f;;
  set_free (prev nb).

Definition release_area (area : Z) : C unit :=
  f ← get_free;
  set_next area f;;
  set_free area.

Definition merge_prev (area prev : Z) : C unit :=
  psize ← get_size prev;
  asize ← get_size area;
  set_size prev (psize +o asize);;
  release_area area.

Definition merge_next (area next : Z) : C unit :=
  addr ← get_address area;
  set_address next addr;;
  nsize ← get_size next;
  asize ← get_size area;
  set_size next (nsize +o asize);;
  release_area area.

Definition insert_area (area : Z) : C unit :=
  u ← get_usable;
  set_next area u;;
  set_usable area.

(** What has to be merged. *)
Definition merge_area (area : Z) (nb : neighbours) : C unit :=
  if truth (prev nb) && truth (next nb) then merge_both area nb
  else if truth (prev nb) then merge_prev area (prev nb)
  else if truth (next nb) then merge_next area (next nb)
  else insert_area area.

Definition free (addr : Z) : C unit :=
  if addr =? 0 then mret tt else
  let begin := addr - 24 in
  area ← load64 begin;
  check_guards begin;;
  usemdown;;
  store64 begin FREE_MAGIC;;
  nb ← find_neighbours begin area;
  merge_area area nb;;
  usemup.

(** The area behind a block, when both together are large enough; otherwise NULL. *)
Definition find_behind (area size : Z) : C (Z * Z) :=
  u ← get_usable;
  loop (fun '(prev, a) =>
    if a =? 0 then mret (Break (prev, 0)) else
    addr ← get_address a;
    aaddr ← get_address area;
    asize ← get_size area;
    if addr =? aaddr +o asize then
      sz ← get_size a;
      if size <=? asize +o sz then mret (Break (prev, a)) else mret (Break (prev, 0))
    else
      n ← get_next a;
      mret (Next (a, n))) (0, u).

(** [area] grows into [a], the usable area behind it. *)
Definition grow_area (begin area size prev a : Z) : C unit :=
  asize ← get_size area;
  sz ← get_size a;
  (if size <? asize +o sz then
     aaddr ← get_address area;
     set_address a (aaddr +o size);;
     set_size a (asize +o sz -o size)
   else
     n ← get_next a;
     set_link prev n;;
     f ← get_free;
     set_next a f;;
     set_free a);;
  set_size area size;;
  set_guards begin area size.

(** A block of [size] bytes moves: allocate, copy, free. *)
Definition move_block (addr area size : Z) : C Z :=
  a ← malloc size;
  if a =? 0 then mret 0 else
  asize ← get_size area;
  memcpy a addr (asize -o 32);;
  free addr;;
  mret a.

Definition realloc (addr size : Z) : C Z :=
  if addr =? 0 then malloc size else
  let begin := addr - 24 in
  area ← load64 begin;
  check_guards begin;;
  usemdown;;
  let size := ROUND_UP size 8 +o 32 in
  asize ← get_size area;
  if size <? asize then usemup;; mret addr else
  '(prev, a) ← find_behind area size;
  if negb (a =? 0) then
    grow_area begin area size prev a;;
    usemup;;
    mret (begin + 24)
  else
  usemup;;
  move_block addr area size.

Definition isOnHeap (ptr : Z) : C bool :=
  h ← gets p_heap;
  mret ((heapstart h <=? ptr) && (ptr <? heapstart h +o pageCount h *o PAGE_SIZE)).

Definition heapspace : C Z :=
  u ← get_usable;
  loop (fun '(area, c) =>
    if area =? 0 then mret (Break c) else
    sz ← get_size area;
    n ← get_next area;
    mret (Next (n, c +o sz))) (u, 0).
