(* ===== verification/HeapInv.v ===== *)
(** * The invariant of the heap

    Who owns each byte of the heap, and how the lists of Heap.v lie in memory.  Every byte
    belongs to an area structure, to a block, or to nobody; the ownership makes the
    structures and blocks disjoint, and a store to one of them leaves the others alone. *)

From Stdlib Require Import ZArith Lia Bool.
From stdpp Require Import base list numbers option gmap.
From S2P Require Import Prelude CMem MemOps Heap.

(** ** Ownership *)

(** An area structure at [ar_p] that describes a block. *)
Record area := mkarea { ar_p : Z; ar_addr : Z; ar_size : Z }.

(** The owner of a byte: the structure at an address, or the block it describes. *)
Inductive owner := Nobody | TheArea (p : Z) | TheBlock (p : Z).
#[export] Instance owner_eq_dec : EqDecision owner.
Proof. solve_decision. Defined.

Definition owns (o : Z -> owner) (a n : Z) (w : owner) : Prop := forall y, a <= y < a + n -> o y = w.

Lemma owns_sub o a n w a' n' : owns o a n w -> a <= a' -> a' + n' <= a + n -> owns o a' n' w.
Proof. intros H ? ? y Hy. apply H. lia. Qed.

(** Only bytes of the owners in [W] may differ between [m] and [m']. *)
Definition changes (o : Z -> owner) (W : list owner) (m m' : arr) : Prop :=
  forall y, o y ∉ W -> byte_at m' y = byte_at m y.

Lemma changes_refl o W m : changes o W m m.
Proof. intros y _. reflexivity. Qed.

Lemma changes_trans o W m1 m2 m3 : changes o W m1 m2 -> changes o W m2 m3 -> changes o W m1 m3.
Proof. intros H1 H2 y Hy. rewrite H2, H1; trivial. Qed.

Lemma changes_weaken o W W' m m' : W ⊆ W' -> changes o W m m' -> changes o W' m m'.
Proof. intros HW H y Hy. apply H. set_solver. Qed.

Lemma changes_put o W a v m w n : owns o a (Z.of_nat n) w -> w ∈ W -> changes o W m (put n a v m).
Proof.
  intros Ho Hw y Hy. apply byte_put_other.
  destruct (Z_lt_le_dec y a); [auto|]. destruct (Z_lt_le_dec y (a + Z.of_nat n)); [|auto].
  destruct Hy. rewrite (Ho y); trivial. lia.
Qed.

Lemma changes_word o W m m' a w :
  changes o W m m' -> owns o a 8 w -> w ∉ W -> word_at m' a = word_at m a.
Proof. intros Hc Ho Hw. apply num_ext. intros y Hy. apply Hc. rewrite Ho; trivial. Qed.

Lemma word_other o a v m b w w' :
  owns o a 8 w -> owns o b 8 w' -> w <> w' -> word_at (put 8 a v m) b = word_at m b.
Proof.
  intros Ha Hb Hw. eapply (changes_word o [w]); [|exact Hb|set_solver].
  apply (changes_put _ _ _ _ _ w 8); [exact Ha|set_solver].
Qed.

(** ** Structures in memory *)

(** The structure and its block, apart from the link. *)
Record area_in (m : arr) (o : Z -> owner) (a : area) : Prop := {
  ai_size : word_at m (ar_p a) = ar_size a;
  ai_addr : word_at m (ar_p a + 8) = ar_addr a;
  ai_own : owns o (ar_p a) 24 (TheArea (ar_p a));
  ai_block : owns o (ar_addr a) (ar_size a) (TheBlock (ar_p a));
  ai_min : 8 <= ar_size a;
  ai_align : ar_addr a mod 8 = 0;
  ai_round : ar_size a mod 8 = 0
}.

(** The words around an allocated block. *)
Record guarded (m : arr) (a : area) : Prop := {
  g_area : word_at m (ar_addr a) = ar_p a;
  g_size : word_at m (ar_addr a + 8) = ar_size a - 32;
  g_magic : word_at m (ar_addr a + 16) = GUARD_MAGIC;
  g_end : word_at m (ar_addr a + ar_size a - 8) = GUARD_MAGIC;
  g_min : 32 <= ar_size a
}.

(** The list that starts at [q] consists of the structures [l]. *)
Fixpoint chain (m : arr) (q : Z) (l : list Z) : Prop :=
  match l with
  | [] => q = 0
  | p :: l' => q = p /\ chain m (word_at m (p + 16)) l'
  end.

Lemma area_in_changes o W m m' a :
  changes o W m m' -> TheArea (ar_p a) ∉ W -> area_in m o a -> area_in m' o a.
Proof.
  intros Hc Hw [H1 H2 H3 H4 H5 H6 H7]. split; trivial.
  - rewrite <- H1. apply (changes_word o W m m' _ (TheArea (ar_p a))); trivial.
    eapply owns_sub; [exact H3|lia..].
  - rewrite <- H2. apply (changes_word o W m m' _ (TheArea (ar_p a))); trivial.
    eapply owns_sub; [exact H3|lia..].
Qed.

Lemma guarded_changes o W m m' a :
  changes o W m m' -> TheBlock (ar_p a) ∉ W -> area_in m o a -> guarded m a -> guarded m' a.
Proof.
  intros Hc Hw [_ _ _ Hb _ _ _] [H1 H2 H3 H4 H5].
  assert (F : forall x, ar_addr a <= x -> x + 8 <= ar_addr a + ar_size a ->
    word_at m' x = word_at m x).
  { intros x ? ?. eapply changes_word; [exact Hc|eapply owns_sub; [exact Hb|lia..]|trivial]. }
  split; trivial; rewrite F; trivial; lia.
Qed.

Lemma chain_ext m m' q l :
  (forall p, p ∈ l -> word_at m' (p + 16) = word_at m (p + 16)) -> chain m q l -> chain m' q l.
Proof.
  revert q; induction l as [|p l IH]; intros q H; [trivial|]. intros [-> Hc].
  split; [reflexivity|]. rewrite H by set_solver. apply IH; set_solver.
Qed.

Lemma chain_changes o W m m' q l :
  changes o W m m' -> (forall p, p ∈ l -> owns o p 24 (TheArea p) /\ TheArea p ∉ W) ->
  chain m q l -> chain m' q l.
Proof.
  intros Hc H. apply chain_ext. intros p Hp. destruct (H p Hp) as [Ho Hw].
  eapply changes_word; [exact Hc|eapply owns_sub; [exact Ho|lia..]|exact Hw].
Qed.

(** A part of a list, up to the structure at [r]. *)
Fixpoint segment (m : arr) (q : Z) (l : list Z) (r : Z) : Prop :=
  match l with
  | [] => q = r
  | p :: l' => q = p /\ segment m (word_at m (p + 16)) l' r
  end.

Lemma chain_app m q l1 l2 : chain m q (l1 ++ l2) <-> exists r, segment m q l1 r /\ chain m r l2.
Proof.
  revert q; induction l1 as [|p l1 IH]; intros q; simpl.
  - split; [eauto|]. intros (r & -> & H). exact H.
  - rewrite IH. split.
    + intros [-> (r & H1 & H2)]. eauto.
    + intros (r & [-> H1] & H2). eauto.
Qed.

(** Redirecting the last link of a segment. *)
Lemma segment_last m m' q l p r r' :
  segment m q (l ++ [p]) r -> (forall x, x ∈ l -> word_at m' (x + 16) = word_at m (x + 16)) ->
  word_at m' (p + 16) = r' -> segment m' q (l ++ [p]) r'.
Proof.
  revert q; induction l as [|x l IH]; intros q; simpl.
  - intros [-> _] _ H. auto.
  - intros [-> Hs] H He. split; [reflexivity|]. rewrite H by set_solver.
    apply IH; trivial. intros; apply H; set_solver.
Qed.

Lemma segment_ext m m' q l r :
  (forall p, p ∈ l -> word_at m' (p + 16) = word_at m (p + 16)) -> segment m q l r -> segment m' q l r.
Proof.
  revert q; induction l as [|p l IH]; intros q H; [trivial|]. intros [-> Hc].
  split; [reflexivity|]. rewrite H by set_solver. apply IH; set_solver.
Qed.

(** ** The invariant *)

(** The areas of the usable list, the areas of the allocated blocks, the unused structures,
    and those in the hands of the operation that runs (or lost by one that failed). *)
Record view := mkview {
  usable : list area;
  live : list area;
  spare : list Z;
  limbo : list Z;
  own : Z -> owner
}.

Definition structs (v : view) : list Z :=
  (ar_p <$> usable v) ++ (ar_p <$> live v) ++ spare v ++ limbo v.

Record mem_inv (m : arr) (ul fl : Z) (v : view) : Prop := {
  mi_usable : chain m ul (ar_p <$> usable v);
  mi_spare : chain m fl (spare v);
  mi_areas : forall a, a ∈ usable v ++ live v -> area_in m (own v) a;
  mi_unused : forall p, p ∈ spare v ++ limbo v -> owns (own v) p 24 (TheArea p);
  mi_guards : forall a, a ∈ live v -> guarded m a;
  mi_nodup : NoDup (structs v)
}.

(** What the kernel and the number of pages have to do with it. *)
Record env_inv (s : process) (o : Z -> owner) : Prop := {
  ei_owned : forall y, o y <> Nobody -> p_mapped s y = true /\ heapstart (p_heap s) <= y < p_end s;
  ei_align : forall y p, o y = TheArea p -> p mod 8 = 0;
  ei_end : 0 < p_end s <= 2 ^ 47 /\ p_end s mod PAGE_SIZE = 0;
  ei_pages : 0 <= pageCount (p_heap s) /\ 0 <= heapstart (p_heap s) /\
    (pageCount (p_heap s) = 0 /\ (forall y, o y = Nobody) \/
     0 < heapstart (p_heap s) /\
     heapstart (p_heap s) + PAGE_SIZE * pageCount (p_heap s) = p_end s);
  ei_grant : forall e n, p_end s <= e -> 0 <= n -> p_grant s e n = true ->
    e + PAGE_SIZE * n <= 2 ^ 47 /\ forall y, e <= y < e + PAGE_SIZE * n -> p_mapped s y = false
}.

Definition heap_inv (s : process) (v : view) : Prop :=
  mem_inv (p_mem s) (usableList (p_heap s)) (freeList (p_heap s)) v /\ env_inv s (own v).

(** ** Structures are distinct *)

(** Whether a list has no duplicates depends on how often each element occurs. *)
Lemma nodup_count (l : list Z) : NoDup l <-> forall x, (count_occ Z.eq_dec l x <= 1)%nat.
Proof. rewrite NoDup_ListNoDup. apply NoDup_count_occ. Qed.

Lemma elem_count (l : list Z) x : x ∈ l <-> (0 < count_occ Z.eq_dec l x)%nat.
Proof. rewrite list_elem_of_In. apply count_occ_In. Qed.

Ltac count_open H := unfold structs in H |- *; cbn [usable live spare limbo own] in H |- *;
  repeat (progress (rewrite ?fmap_app, ?fmap_cons, ?count_occ_app in H); simpl in H);
  repeat (progress (rewrite ?fmap_app, ?fmap_cons, ?count_occ_app); simpl).

Ltac count_cases :=
  repeat match goal with
    | |- context [Z.eq_dec ?a ?b] => destruct (Z.eq_dec a b)
    | H : context [Z.eq_dec ?a ?b] |- _ => destruct (Z.eq_dec a b)
    end; lia.

(** [NoDup] of a list from that of a list with the same elements. *)
Ltac nodup_from H :=
  apply nodup_count; intros ?x; apply (proj1 (nodup_count _)) with (x := x) in H; count_open H;
  count_cases.

Lemma in_structs v a : a ∈ usable v ++ live v -> ar_p a ∈ structs v.
Proof.
  unfold structs. rewrite elem_of_app. intros [H|H]; rewrite !elem_of_app, !list_elem_of_fmap; eauto 6.
Qed.

(** ** Changes of the view *)

Section Views.
Context (m : arr) (ul fl : Z) (v : view).
Context (I : mem_inv m ul fl v).

Lemma struct_owned p : p ∈ structs v -> owns (own v) p 24 (TheArea p).
Proof.
  unfold structs. rewrite !elem_of_app, !list_elem_of_fmap.
  intros [(a & -> & H)|[(a & -> & H)|H]].
  - apply (ai_own m), (mi_areas m ul fl v I). set_solver.
  - apply (ai_own m), (mi_areas m ul fl v I). set_solver.
  - apply (mi_unused m ul fl v I). set_solver.
Qed.

(** The structures in limbo are none of the others. *)
Lemma limbo_not p q : p ∈ limbo v -> q ∈ (ar_p <$> usable v) ++ (ar_p <$> live v) ++ spare v -> p <> q.
Proof.
  intros Hp Hq <-. pose proof (mi_nodup m ul fl v I) as Hn.
  apply (proj1 (nodup_count _)) with (x := p) in Hn. apply elem_count in Hp, Hq. count_open Hn. count_open Hq. lia.
Qed.

(** Changes outside of the structures in use and of allocated blocks are not noticed. *)
Lemma mem_changes W m' :
  changes (own v) W m m' ->
  (forall q, q ∈ (ar_p <$> usable v) ++ (ar_p <$> live v) ++ spare v -> TheArea q ∉ W) ->
  (forall b, b ∈ live v -> TheBlock (ar_p b) ∉ W) ->
  mem_inv m' ul fl v.
Proof.
  intros Hc Hq Hb. pose proof struct_owned as Hs. unfold structs in Hs.
  destruct I as [H1 H2 H3 H4 H5 H6]. split; trivial.
  - eapply chain_changes; [exact Hc| |exact H1]. intros q Hin. split; [apply Hs|apply Hq]; in_list.
  - eapply chain_changes; [exact Hc| |exact H2]. intros q Hin. split; [apply Hs|apply Hq]; in_list.
  - intros b Hin. eapply area_in_changes; [exact Hc| |auto]. apply Hq.
    apply elem_of_app in Hin as [Hin|Hin]; apply (list_elem_of_fmap_2 ar_p) in Hin; in_list.
  - intros b Hin. eapply guarded_changes; [exact Hc|auto|apply H3; in_list|auto].
Qed.

(** Such as stores to a structure in limbo or to its block. *)
Lemma mem_put p a n x w :
  p ∈ limbo v -> owns (own v) a (Z.of_nat n) w -> w = TheArea p \/ w = TheBlock p ->
  mem_inv (put n a x m) ul fl v.
Proof.
  intros Hp Ho Hw. apply (mem_changes [w]).
  - eapply changes_put; [exact Ho|set_solver].
  - intros q Hq ?%list_elem_of_singleton. pose proof (limbo_not p q Hp Hq). destruct Hw; congruence.
  - intros b Hb ?%list_elem_of_singleton. apply (list_elem_of_fmap_2 ar_p) in Hb.
    pose proof (limbo_not p (ar_p b) Hp ltac:(in_list)). destruct Hw; congruence.
Qed.

(** The head of the unused structures is taken. *)
Lemma mem_pop p F :
  spare v = p :: F ->
  mem_inv m ul (word_at m (p + 16)) (mkview (usable v) (live v) F (p :: limbo v) (own v)).
Proof.
  intros E. destruct I as [H1 H2 H3 H4 H5 H6]. rewrite E in *. split; cbn [usable live spare limbo own]; trivial.
  - apply H2.
  - intros q Hq. apply H4. set_solver.
  - unfold structs in H6. rewrite E in H6. nodup_from H6.
Qed.

(** A structure from limbo becomes an unused one. *)
Lemma mem_push_spare p L :
  limbo v = p :: L -> word_at m (p + 16) = fl ->
  mem_inv m ul p (mkview (usable v) (live v) (p :: spare v) L (own v)).
Proof.
  intros E En. destruct I as [H1 H2 H3 H4 H5 H6]. rewrite E in *. split; cbn [usable live spare limbo own]; trivial.
  - simpl. rewrite En. auto.
  - intros q Hq. apply H4. set_solver.
  - unfold structs in H6. rewrite E in H6. nodup_from H6.
Qed.

(** A structure from limbo becomes usable. *)
Lemma mem_push_usable a L :
  limbo v = ar_p a :: L -> area_in m (own v) a -> word_at m (ar_p a + 16) = ul ->
  mem_inv m (ar_p a) fl (mkview (a :: usable v) (live v) (spare v) L (own v)).
Proof.
  intros E Ha En. destruct I as [H1 H2 H3 H4 H5 H6]. rewrite E in *. split; cbn [usable live spare limbo own]; trivial.
  - simpl. rewrite En. auto.
  - intros b Hb. apply elem_of_cons in Hb as [->|Hb]; auto.
  - intros q Hq. apply H4. set_solver.
  - unfold structs in H6. rewrite E in H6. nodup_from H6.
Qed.

(** A structure from limbo becomes the one of an allocated block, and back. *)
Lemma mem_push_live a L :
  limbo v = ar_p a :: L -> area_in m (own v) a -> guarded m a ->
  mem_inv m ul fl (mkview (usable v) (a :: live v) (spare v) L (own v)).
Proof.
  intros E Ha Hg. destruct I as [H1 H2 H3 H4 H5 H6]. rewrite E in *. split; cbn [usable live spare limbo own]; trivial.
  - intros b Hb. apply elem_of_app in Hb as [Hb|[->|Hb]%elem_of_cons]; [|trivial|]; apply H3; set_solver.
  - intros q Hq. apply H4. set_solver.
  - intros b [->|Hb]%elem_of_cons; auto.
  - unfold structs in H6. rewrite E in H6. nodup_from H6.
Qed.

Lemma mem_unlive A1 a A2 :
  live v = A1 ++ a :: A2 ->
  mem_inv m ul fl (mkview (usable v) (A1 ++ A2) (spare v) (ar_p a :: limbo v) (own v)).
Proof.
  intros E. pose proof (struct_owned (ar_p a)) as Hs. destruct I as [H1 H2 H3 H4 H5 H6].
  assert (Ha : ar_p a ∈ structs v) by (apply in_structs; rewrite E; set_solver).
  rewrite E in *. split; cbn [usable live spare limbo own]; trivial.
  - intros b Hb. apply H3. set_solver.
  - intros q Hq. destruct (decide (q = ar_p a)) as [->|]; [auto|]. apply H4. set_solver.
  - intros b Hb. apply H5. set_solver.
  - unfold structs in H6. rewrite E in H6. nodup_from H6.
Qed.

(** The order in limbo does not matter. *)
Lemma mem_limbo L :
  limbo v ≡ₚ L -> mem_inv m ul fl (mkview (usable v) (live v) (spare v) L (own v)).
Proof.
  intros E. destruct I as [H1 H2 H3 H4 H5 H6]. split; cbn [usable live spare limbo own]; trivial.
  - intros p Hp. apply H4. rewrite E. exact Hp.
  - revert H6. unfold structs. cbn [usable live spare limbo own]. rewrite E. trivial.
Qed.

(** Bytes outside of all areas may get a new owner. *)
Lemma mem_transfer o :
  (forall y, o y = own v y \/ own v y = Nobody \/ exists p, own v y = TheBlock p /\
     forall a, a ∈ usable v ++ live v -> ar_p a = p -> y < ar_addr a \/ ar_addr a + ar_size a <= y) ->
  mem_inv m ul fl (mkview (usable v) (live v) (spare v) (limbo v) o).
Proof.
  intros Ho.
  assert (Hs : forall p, p ∈ structs v -> owns o p 24 (TheArea p)).
  { intros p Hp y Hy. pose proof (struct_owned p Hp y Hy) as E.
    destruct (Ho y) as [->|[En|(q & En & _)]]; [trivial|congruence..]. }
  destruct I as [H1 H2 H3 H4 H5 H6]. split; cbn [usable live spare limbo own]; trivial.
  - intros a Ha. pose proof (H3 a Ha) as [A1 A2 A3 A4 A5 A6 A7]. split; trivial.
    + apply Hs, in_structs, Ha.
    + intros y Hy. pose proof (A4 y Hy) as E.
      destruct (Ho y) as [->|[En|(q & En & Hq)]]; [trivial|congruence|].
      destruct (Hq a Ha); [congruence|lia..].
  - intros p Hp. apply Hs. unfold structs. set_solver.
Qed.

(** In particular bytes of nobody and of blocks whose structure is in limbo. *)
Lemma mem_reown o :
  (forall y, o y = own v y \/ own v y = Nobody \/ exists p, p ∈ limbo v /\ own v y = TheBlock p) ->
  mem_inv m ul fl (mkview (usable v) (live v) (spare v) (limbo v) o).
Proof.
  intros Ho. apply mem_transfer. intros y. destruct (Ho y) as [?|[?|(p & Hp & ?)]]; [auto..|].
  right. right. exists p. split; [trivial|]. intros a Ha Ep. destruct (limbo_not p (ar_p a) Hp); [|congruence].
  apply elem_of_app in Ha as [Ha|Ha]; apply (list_elem_of_fmap_2 ar_p) in Ha; set_solver.
Qed.

(** New structures in memory of nobody. *)
Lemma mem_add_limbo o ps :
  (forall y, o y = own v y \/ own v y = Nobody) -> NoDup ps ->
  (forall p, p ∈ ps -> owns o p 24 (TheArea p) /\ own v p = Nobody) ->
  mem_inv m ul fl (mkview (usable v) (live v) (spare v) (ps ++ limbo v) o).
Proof.
  intros Ho Hps Hp. destruct (mem_reown o) as [H1 H2 H3 H4 H5 H6].
  { intros y. destruct (Ho y); auto. }
  split; cbn [usable live spare limbo own] in *; trivial.
  - intros p Hin. destruct (decide (p ∈ ps)) as [Hd|Hd]; [apply Hp, Hd|apply H4; set_solver].
  - assert (Hperm : structs (mkview (usable v) (live v) (spare v) (ps ++ limbo v) o) ≡ₚ ps ++ structs v).
    { unfold structs. cbn [usable live spare limbo own].
      rewrite 3!(Permutation_app_swap_app ps). reflexivity. }
    rewrite Hperm. apply NoDup_app. split; [trivial|]. split; [|exact H6].
    intros p Hin Hs. destruct (Hp p Hin) as [_ En].
    rewrite (struct_owned p Hs p) in En by lia. discriminate.
Qed.

(** The structures of usable areas are distinct. *)
Lemma usable_distinct X a Y b : usable v = X ++ a :: Y -> b ∈ X ++ Y -> ar_p b <> ar_p a.
Proof.
  intros E Hb Hp. pose proof (mi_nodup m ul fl v I) as Hn. unfold structs in Hn. rewrite E in Hn.
  apply (proj1 (nodup_count _)) with (x := ar_p a) in Hn.
  apply (list_elem_of_fmap_2 ar_p) in Hb. rewrite Hp in Hb. apply elem_count in Hb.
  count_open Hn. count_open Hb. destruct (Z.eq_dec (ar_p a) (ar_p a)); [|contradiction]. lia.
Qed.

(** Nor do they coincide with those of allocated blocks or unused ones. *)
Lemma usable_not a q : a ∈ usable v -> q ∈ (ar_p <$> live v) ++ spare v ++ limbo v -> q <> ar_p a.
Proof.
  intros Ha Hq ->. pose proof (mi_nodup m ul fl v I) as Hn.
  apply (proj1 (nodup_count _)) with (x := ar_p a) in Hn.
  apply (list_elem_of_fmap_2 ar_p) in Ha. apply elem_count in Ha, Hq. count_open Hn. count_open Hq. lia.
Qed.

(** A usable area gets a new size or address in place; its link stays. *)
Lemma mem_modify X a Y a' m' :
  usable v = X ++ a :: Y -> ar_p a' = ar_p a -> changes (own v) [TheArea (ar_p a)] m m' ->
  word_at m' (ar_p a + 16) = word_at m (ar_p a + 16) -> area_in m' (own v) a' ->
  mem_inv m' ul fl (mkview (X ++ a' :: Y) (live v) (spare v) (limbo v) (own v)).
Proof.
  intros E Ep Hc Hn Ha'. pose proof (usable_distinct X a Y) as Hd. pose proof (usable_not a) as Hu.
  assert (Hin : a ∈ usable v) by (rewrite E; set_solver).
  pose proof struct_owned as Hs.
  assert (Hl : forall b, b ∈ live v -> ar_p b <> ar_p a).
  { intros b Hb. apply Hu; [trivial|]. apply (list_elem_of_fmap_2 ar_p) in Hb. set_solver. }
  destruct I as [H1 H2 H3 H4 H5 H6]. split; cbn [usable live spare limbo own]; trivial.
  - replace (ar_p <$> X ++ a' :: Y) with (ar_p <$> usable v) by (rewrite E, !fmap_app, !fmap_cons, Ep; reflexivity).
    eapply chain_ext; [|exact H1]. intros p (b & -> & Hb)%list_elem_of_fmap.
    destruct (decide (ar_p b = ar_p a)) as [->|Hne]; [trivial|].
    apply (changes_word (own v) [TheArea (ar_p a)] m m' _ (TheArea (ar_p b))); [trivial| |set_solver].
    apply (owns_sub _ (ar_p b) 24); [apply Hs, in_structs; set_solver|lia..].
  - eapply chain_changes; [exact Hc| |exact H2]. intros q Hq. split; [apply Hs; unfold structs; set_solver|].
    intros Eq%list_elem_of_singleton. apply (Hu q Hin); [set_solver|congruence].
  - intros b Hb. rewrite <- app_assoc in Hb. simpl in Hb.
    rewrite elem_of_app, elem_of_cons in Hb. destruct Hb as [Hb|[->|Hb]]; [|trivial|].
    + eapply area_in_changes; [exact Hc| |apply H3; rewrite E; set_solver].
      intros Eq%list_elem_of_singleton. apply (Hd b E); [set_solver|congruence].
    + eapply area_in_changes; [exact Hc| |apply H3; rewrite E; set_solver].
      intros Eq%list_elem_of_singleton. apply elem_of_app in Hb as [Hb|Hb];
        [apply (Hd b E); [set_solver|congruence]|apply (Hl b Hb); congruence].
  - intros b Hb. eapply guarded_changes; [exact Hc| |apply H3; set_solver|auto].
    intros Eq%list_elem_of_singleton. congruence.
  - revert H6. unfold structs. cbn [usable live spare limbo own].
    rewrite E, !fmap_app, !fmap_cons, Ep. trivial.
Qed.
End Views.

(** ** Unlinking *)

(** The structure before the rest of a list, as the code keeps it. *)
Definition prev_of (X : list area) : Z := match last X with Some x => ar_p x | None => 0 end.

Lemma prev_of_snoc X x : prev_of (X ++ [x]) = ar_p x.
Proof. unfold prev_of. rewrite last_snoc. reflexivity. Qed.

Lemma snoc_cases {A} (l : list A) : l = [] \/ exists l' x, l = l' ++ [x].
Proof. induction l as [|x l _] using rev_ind; eauto. Qed.

(** The link of a structure is not part of its area. *)
Lemma area_in_link m o a x : area_in m o a -> area_in (put 8 (ar_p a + 16) x m) o a.
Proof.
  intros [H1 H2 H3 H4 H5 H6 H7]. split; trivial.
  - rewrite word_put_other by lia. trivial.
  - rewrite word_put_other by lia. trivial.
Qed.

Section Unlink.
Context (m : arr) (ul fl : Z) (v : view) (X : list area) (a : area) (Y : list area).
Context (I : mem_inv m ul fl v) (E : usable v = X ++ a :: Y).

(** The view without [a]. *)
Definition unlinked : view := mkview (X ++ Y) (live v) (spare v) (ar_p a :: limbo v) (own v).

Lemma unlinked_nodup : NoDup (structs unlinked).
Proof.
  pose proof (mi_nodup m ul fl v I) as Hn. unfold structs in Hn. rewrite E in Hn.
  unfold unlinked. nodup_from Hn.
Qed.

Lemma unlinked_unused p : p ∈ spare v ++ ar_p a :: limbo v -> owns (own v) p 24 (TheArea p).
Proof.
  intros Hp. apply (struct_owned m ul fl v I). unfold structs. rewrite E, fmap_app, fmap_cons.
  set_solver.
Qed.

Lemma mem_unlink_head :
  X = [] -> mem_inv m (word_at m (ar_p a + 16)) fl unlinked.
Proof.
  intros EX. pose proof unlinked_nodup. pose proof unlinked_unused.
  destruct I as [H1 H2 H3 H4 H5 H6]. unfold unlinked in *. rewrite E, EX in *. split; cbn [usable live spare limbo own unlinked app]; trivial.
  - apply H1.
  - intros b Hb. apply H3. set_solver.
Qed.

Lemma mem_unlink_after X' x :
  X = X' ++ [x] ->
  mem_inv (put 8 (ar_p x + 16) (word_at m (ar_p a + 16)) m) ul fl unlinked.
Proof.
  intros EX. set (n := word_at m (ar_p a + 16)). set (m' := put 8 _ n m).
  pose proof unlinked_nodup as Hnd. pose proof unlinked_unused as Hun.
  pose proof (struct_owned m ul fl v I) as Hs.
  assert (Hx : x ∈ usable v) by (rewrite E, EX; set_solver).
  assert (Hox : owns (own v) (ar_p x + 16) 8 (TheArea (ar_p x))).
  { apply (owns_sub _ (ar_p x) 24); [apply Hs, in_structs; set_solver|lia..]. }
  assert (Hc : changes (own v) [TheArea (ar_p x)] m m') by (apply (changes_put _ _ _ _ _ (TheArea (ar_p x)) 8); [trivial|set_solver]).
  assert (Hne : forall q, q ∈ structs v -> q <> ar_p x -> word_at m' (q + 16) = word_at m (q + 16)).
  { intros q Hq Hd. eapply (changes_word _ _ _ _ _ (TheArea q)); [exact Hc| |set_solver].
    apply (owns_sub _ q 24); [auto|lia..]. }
  assert (Hd : forall b, b ∈ X' ++ a :: Y -> ar_p b <> ar_p x).
  { intros b Hb. apply (usable_distinct m ul fl v I X' x (a :: Y) b); [|exact Hb].
    rewrite E, EX, <- app_assoc. reflexivity. }
  pose proof (usable_not m ul fl v I x) as Hu.
  destruct I as [H1 H2 H3 H4 H5 H6]. split; cbn [usable live spare limbo own unlinked]; trivial.
  - rewrite E, EX, !fmap_app in H1. rewrite EX, !fmap_app.
    change (ar_p <$> [x]) with [ar_p x] in *.
    apply chain_app in H1 as (r & Hseg & Hch). rewrite fmap_cons in Hch. destruct Hch as [-> Hch].
    apply chain_app. exists n. split.
    + eapply segment_last; [exact Hseg| |apply word_put_same, word_range].
      intros q (b & -> & Hb)%list_elem_of_fmap. apply Hne; [|apply Hd; set_solver].
      apply in_structs. rewrite E, EX. set_solver.
    + eapply chain_ext; [|exact Hch]. intros q (b & -> & Hb)%list_elem_of_fmap.
      apply Hne; [|apply Hd; set_solver]. apply in_structs. rewrite E. set_solver.
  - eapply chain_ext; [|exact H2]. intros q Hq. apply Hne; [unfold structs; set_solver|].
    apply Hu; [trivial|set_solver].
  - intros b Hb. assert (Hb' : b ∈ usable v ++ live v) by (rewrite E; set_solver).
    destruct (decide (ar_p b = ar_p x)) as [Ep|Ep].
    + unfold m'. rewrite <- Ep. apply area_in_link. auto.
    + eapply area_in_changes; [exact Hc|set_solver|auto].
  - intros b Hb. eapply guarded_changes; [exact Hc|set_solver|apply H3; set_solver|auto].
Qed.

(** The state after [set_link]. *)
Lemma mem_unlink :
  (forall x, x ∈ X -> ar_p x <> 0) ->
  mem_inv (if prev_of X =? 0 then m else put 8 (prev_of X + 16) (word_at m (ar_p a + 16)) m)
    (if prev_of X =? 0 then word_at m (ar_p a + 16) else ul) fl unlinked.
Proof.
  intros Hz. destruct (snoc_cases X) as [EX|(X' & x & EX)].
  - rewrite EX at 1 2. apply mem_unlink_head, EX.
  - assert (Hp : prev_of X = ar_p x) by (rewrite EX; apply prev_of_snoc).
    rewrite Hp, (proj2 (Z.eqb_neq _ _)) by (apply Hz; rewrite EX; set_solver).
    eapply mem_unlink_after, EX.
Qed.
End Unlink.
