(* ===== verification/HeapSpec.v ===== *)
(** * What the heap does

    The operations of Heap.v keep the invariant of HeapInv.v, and what they do to the lists
    of areas, to the blocks and to the rest of memory. *)

From Stdlib Require Import ZArith Lia Bool.
From stdpp Require Import base list numbers option gmap.
From S2P Require Import Prelude CMem MemOps Heap HeapInv.

(** ** Accesses *)

(** The part of the state that only [chgsize] and the lock change. *)
Definition frame_of (s : process) :=
  (p_mapped s, p_end s, p_grant s, p_last s,
   (heapstart (p_heap s), pageCount (p_heap s), heapSem (p_heap s), initialized (p_heap s))).
Definition still (s s' : process) : Prop := frame_of s' = frame_of s.

Lemma still_trans s1 s2 s3 : still s1 s2 -> still s2 s3 -> still s1 s3.
Proof. unfold still. congruence. Qed.

Lemma env_still s s' o : still s s' -> env_inv s o -> env_inv s' o.
Proof.
  unfold still, frame_of. intros E [H1 Hal H2 H3 H4].
  injection E as E1 E2 E3 E4 E5 E6 E7 E8. split; rewrite ?E1, ?E2, ?E3, ?E5, ?E6; trivial.
Qed.

(** Owned memory may change hands. *)
Lemma env_reown s o o' :
  (forall y, o y = Nobody -> o' y = Nobody) -> (forall y p, o' y = TheArea p -> o y = TheArea p) ->
  env_inv s o -> env_inv s o'.
Proof.
  intros Ho Hp [H1 Hal H2 H3 H4]. split; trivial.
  - intros y Hy. apply H1. intros E. apply Hy, Ho, E.
  - intros y p Hy. apply (Hal y), Hp, Hy.
  - destruct H3 as (? & ? & [[? ?]|?]); csplit; auto.
Qed.

(** The state with other lists. *)
Definition with_lists (m : arr) (ul fl : Z) (s : process) : process :=
  set_mem m (set_heap (mkheap ul fl (heapstart (p_heap s)) (pageCount (p_heap s))
    (heapSem (p_heap s)) (initialized (p_heap s))) s).

Lemma with_lists_still m ul fl s : still s (with_lists m ul fl s).
Proof. reflexivity. Qed.

Lemma with_lists_self s : with_lists (p_mem s) (usableList (p_heap s)) (freeList (p_heap s)) s = s.
Proof. destruct s as [? ? ? ? [] ?]. reflexivity. Qed.

Section Accesses.
Context (s : process) (v : view) (I : heap_inv s v).

Lemma owned_mapped a n w : owns (own v) a n w -> w <> Nobody -> forall y, a <= y < a + n -> p_mapped s y = true.
Proof. intros Ho Hw y Hy. apply (ei_owned s (own v) (proj2 I)). rewrite Ho; trivial. Qed.

Lemma struct_mapped p k : p ∈ structs v -> 0 <= k <= 16 -> forall y, p + k <= y < p + k + Z.of_nat 8 -> p_mapped s y = true.
Proof.
  intros Hp Hk y Hy. pose proof (struct_owned _ _ _ _ (proj1 I) p Hp) as Ho.
  apply (owned_mapped p 24 (TheArea p) Ho); [discriminate|lia].
Qed.

(** Owned memory has addresses of less than 48 bits, none of them zero. *)
Lemma owned_bounds a n w : owns (own v) a n w -> w <> Nobody -> 0 < n -> 0 < a /\ a + n <= p_end s /\ p_end s <= 2 ^ 47.
Proof.
  intros Ho Hw Hn. destruct (proj2 I) as [H1 _ H2 H3 H4].
  destruct (H1 a) as [_ Ha]; [rewrite Ho by lia; trivial|].
  destruct (H1 (a + n - 1)) as [_ He]; [rewrite Ho by lia; trivial|].
  destruct H3 as (_ & _ & [[_ H3]|H3]); [specialize (H3 a); rewrite Ho in H3 by lia; contradiction|]. lia.
Qed.

Lemma struct_bounds p : p ∈ structs v -> 0 < p /\ p + 24 <= p_end s.
Proof.
  intros Hp. pose proof (struct_owned _ _ _ _ (proj1 I) p Hp) as Ho.
  destruct (owned_bounds p 24 (TheArea p) Ho); [discriminate|lia|]. tauto.
Qed.

Lemma get_size_done p : p ∈ structs v -> get_size p s = Done (word_at (p_mem s) p) s.
Proof. intros Hp. apply load_done. intros y Hy. apply (struct_mapped p 0 Hp); lia. Qed.

Lemma get_address_done p : p ∈ structs v -> get_address p s = Done (word_at (p_mem s) (p + 8)) s.
Proof. intros Hp. apply load_done, (struct_mapped p 8 Hp); lia. Qed.

Lemma get_next_done p : p ∈ structs v -> get_next p s = Done (word_at (p_mem s) (p + 16)) s.
Proof. intros Hp. apply load_done, (struct_mapped p 16 Hp); lia. Qed.

Lemma set_size_done p x : p ∈ structs v -> set_size p x s = Done tt (set_mem (put 8 p x (p_mem s)) s).
Proof. intros Hp. apply store_done. intros y Hy. apply (struct_mapped p 0 Hp); lia. Qed.

Lemma set_address_done p x : p ∈ structs v -> set_address p x s = Done tt (set_mem (put 8 (p + 8) x (p_mem s)) s).
Proof. intros Hp. apply store_done, (struct_mapped p 8 Hp); lia. Qed.

Lemma set_next_done p x : p ∈ structs v -> set_next p x s = Done tt (set_mem (put 8 (p + 16) x (p_mem s)) s).
Proof. intros Hp. apply store_done, (struct_mapped p 16 Hp); lia. Qed.
End Accesses.

(** Accesses to the static variables. *)
Lemma bind_get_usable {B} (f : Z -> C B) s : (get_usable ≫= f) s = f (usableList (p_heap s)) s.
Proof. reflexivity. Qed.

Lemma bind_get_free {B} (f : Z -> C B) s : (get_free ≫= f) s = f (freeList (p_heap s)) s.
Proof. reflexivity. Qed.

Lemma set_usable_done x s : set_usable x s = Done tt (with_lists (p_mem s) x (freeList (p_heap s)) s).
Proof. destruct s. reflexivity. Qed.

Lemma set_free_done x s : set_free x s = Done tt (with_lists (p_mem s) (usableList (p_heap s)) x s).
Proof. destruct s. reflexivity. Qed.

Lemma set_mem_lists m s : set_mem m s = with_lists m (usableList (p_heap s)) (freeList (p_heap s)) s.
Proof. destruct s as [? ? ? ? [] ?]. reflexivity. Qed.

(** ** Walking along the usable list *)

Definition head_of (l : list area) : Z := match l with [] => 0 | a :: _ => ar_p a end.

Lemma chain_head m q l : chain m q (ar_p <$> l) -> q = head_of l.
Proof. destruct l as [|a l]; [trivial|]. intros [-> _]. reflexivity. Qed.

Lemma chain_next m q X a Y :
  chain m q (ar_p <$> X ++ a :: Y) -> word_at m (ar_p a + 16) = head_of Y.
Proof.
  rewrite fmap_app. intros (r & _ & H)%chain_app. rewrite fmap_cons in H. destruct H as [_ H].
  apply chain_head in H. exact H.
Qed.

(** A position in the usable list, as the loops keep it: the area before it, and the area. *)
Definition at_position (U X Y : list area) (prev area : Z) : Prop :=
  U = X ++ Y /\ prev = prev_of X /\ area = head_of Y.

Section Walk.
Context (s : process) (v : view) (I : heap_inv s v).

Lemma walk_start : at_position (usable v) [] (usable v) 0 (usableList (p_heap s)).
Proof. split; [reflexivity|]. split; [reflexivity|]. apply (chain_head (p_mem s)), (mi_usable _ _ _ _ (proj1 I)). Qed.

Lemma walk_next X a Y prev :
  at_position (usable v) X (a :: Y) prev (ar_p a) ->
  at_position (usable v) (X ++ [a]) Y (ar_p a) (word_at (p_mem s) (ar_p a + 16)).
Proof.
  intros (E & _ & _). split; [rewrite <- app_assoc; exact E|]. split; [symmetry; apply prev_of_snoc|].
  eapply chain_next. rewrite <- E. apply (mi_usable _ _ _ _ (proj1 I)).
Qed.

(** The area at a position is NULL exactly at the end. *)
Lemma walk_end X Y prev area :
  at_position (usable v) X Y prev area ->
  if area =? 0 then Y = [] /\ prev = prev_of (usable v)
  else exists a Y', Y = a :: Y' /\ area = ar_p a /\ a ∈ usable v /\ ar_p a ∈ structs v.
Proof.
  intros (E & -> & ->). destruct Y as [|a Y]; simpl.
  - rewrite app_nil_r in E. subst X. auto.
  - assert (Ha : a ∈ usable v) by (rewrite E; set_solver).
    assert (Hs : ar_p a ∈ structs v) by (apply in_structs; set_solver).
    rewrite (proj2 (Z.eqb_neq _ _)) by (apply (struct_bounds s v I) in Hs; lia). eauto 8.
Qed.

Lemma usable_area a : a ∈ usable v -> area_in (p_mem s) (own v) a.
Proof. intros H. apply (mi_areas _ _ _ _ (proj1 I)). set_solver. Qed.

(** The first fit. *)
Lemma find_fit_done size :
  Z.of_nat (length (usable v)) < 2 ^ 64 ->
  exists pr q, find_fit size s = Done (pr, q) s /\
    (if q =? 0 then Forall (fun a => ar_size a < size) (usable v)
     else exists X a Y, usable v = X ++ a :: Y /\ pr = prev_of X /\ q = ar_p a /\ size <= ar_size a /\
            Forall (fun a => ar_size a < size) X).
Proof.
  intros Hlen. unfold find_fit. rewrite bind_get_usable.
  edestruct (fun body => loop_bounded body
    (fun n l s' => s' = s /\ exists X Y, at_position (usable v) X Y l.1 l.2 /\
       Forall (fun a => ar_size a < size) X /\ n = Z.of_nat (length Y))
    (fun r s' => s' = s /\ if r.2 =? 0 then Forall (fun a => ar_size a < size) (usable v)
     else exists X a Y, usable v = X ++ a :: Y /\ r.1 = prev_of X /\ r.2 = ar_p a /\ size <= ar_size a /\
            Forall (fun a => ar_size a < size) X)
    (Z.of_nat (length (usable v))) (0, usableList (p_heap s)) s) as ([pr q] & s' & E & -> & H).
  4: { exists pr, q. split; [exact E|exact H]. }
  - intros n [prev area] s' (-> & X & Y & Hp & HX & ->). simpl in Hp. split; [lia|].
    pose proof (walk_end X Y prev area Hp) as He. destruct (area =? 0) eqn:Ez.
    + destruct He as [-> ->]. right. eexists (_, _), s. split; [reflexivity|]. split; [reflexivity|].
      simpl. rewrite Ez. destruct Hp as (-> & _ & _). rewrite app_nil_r. exact HX.
    + destruct He as (a & Y' & -> & -> & Ha & Hs). rewrite (bind_done _ _ _ _ _ (get_size_done s v I _ Hs)).
      rewrite (ai_size _ _ _ (usable_area a Ha)). destruct (Z.leb_spec size (ar_size a)).
      * right. eexists (_, _), s. split; [reflexivity|]. split; [reflexivity|]. simpl. rewrite Ez.
        destruct Hp as (E & -> & _). eauto 10.
      * left. rewrite (bind_done _ _ _ _ _ (get_next_done s v I _ Hs)).
        eexists (_, _), s, (Z.of_nat (length Y')). split; [reflexivity|]. split; [|simpl; lia].
        split; [reflexivity|]. exists (X ++ [a]), Y'. simpl. split; [eapply walk_next, Hp|].
        split; [apply Forall_app; auto|reflexivity].
  - split; [reflexivity|]. exists [], (usable v). split; [exact walk_start|]. auto.
  - exact Hlen.
Qed.
End Walk.

(** ** Statements in a state with given lists *)

Lemma heap_lists m ul fl v s :
  mem_inv m ul fl v -> env_inv s (own v) -> heap_inv (with_lists m ul fl s) v.
Proof. intros Hm He. split; [exact Hm|exact (env_still s (with_lists m ul fl s) _ eq_refl He)]. Qed.

Section Statements.
Context (s : process) (m : arr) (ul fl : Z) (v : view).
Context (Im : mem_inv m ul fl v) (Ie : env_inv s (own v)).
Context {B : Type}.

Let t := with_lists m ul fl s.
Let It := heap_lists m ul fl v s Im Ie.

Lemma bind_get_size p (k : Z -> C B) : p ∈ structs v -> (get_size p ≫= k) t = k (word_at m p) t.
Proof. intros Hp. exact (bind_done _ _ _ _ _ (get_size_done t v It p Hp)). Qed.

Lemma bind_get_address p (k : Z -> C B) : p ∈ structs v -> (get_address p ≫= k) t = k (word_at m (p + 8)) t.
Proof. intros Hp. exact (bind_done _ _ _ _ _ (get_address_done t v It p Hp)). Qed.

Lemma bind_get_next p (k : Z -> C B) : p ∈ structs v -> (get_next p ≫= k) t = k (word_at m (p + 16)) t.
Proof. intros Hp. exact (bind_done _ _ _ _ _ (get_next_done t v It p Hp)). Qed.

Lemma bind_set_size p x (k : unit -> C B) :
  p ∈ structs v -> (set_size p x ≫= k) t = k tt (with_lists (put 8 p x m) ul fl s).
Proof. intros Hp. exact (bind_done _ _ _ _ _ (set_size_done t v It p x Hp)). Qed.

Lemma bind_set_address p x (k : unit -> C B) :
  p ∈ structs v -> (set_address p x ≫= k) t = k tt (with_lists (put 8 (p + 8) x m) ul fl s).
Proof. intros Hp. exact (bind_done _ _ _ _ _ (set_address_done t v It p x Hp)). Qed.

Lemma bind_set_next p x (k : unit -> C B) :
  p ∈ structs v -> (set_next p x ≫= k) t = k tt (with_lists (put 8 (p + 16) x m) ul fl s).
Proof. intros Hp. exact (bind_done _ _ _ _ _ (set_next_done t v It p x Hp)). Qed.

Lemma struct_pos p : p ∈ structs v -> 0 < p < 2 ^ 47.
Proof. intros Hp. pose proof (struct_bounds t v It p Hp). pose proof (ei_end s (own v) Ie). simpl in *. lia. Qed.

Lemma block_mapped a n w : owns (own v) a n w -> w <> Nobody -> forall y, a <= y < a + n -> p_mapped s y = true.
Proof. apply (owned_mapped t v It). Qed.
End Statements.

(** The heads of the lists are words. *)
Lemma spare_octa s m ul fl v : mem_inv m ul fl v -> env_inv s (own v) -> is_octa fl.
Proof.
  intros Im Ie. pose proof (mi_spare _ _ _ _ Im) as H. destruct (spare v) as [|p F] eqn:E; simpl in H.
  - subst fl. split; lia.
  - destruct H as [-> _]. assert (Hp : p ∈ structs v) by (unfold structs; rewrite E; set_solver).
    pose proof (struct_pos s m _ _ v Im Ie p Hp). unfold is_word. lia.
Qed.

Lemma usable_octa s m ul fl v : mem_inv m ul fl v -> env_inv s (own v) -> is_octa ul.
Proof.
  intros Im Ie. pose proof (mi_usable _ _ _ _ Im) as H. destruct (usable v) as [|a U] eqn:E; simpl in H.
  - subst ul. split; lia.
  - destruct H as [-> _]. assert (Hp : ar_p a ∈ structs v) by (apply in_structs; rewrite E; set_solver).
    pose proof (struct_pos s m _ _ v Im Ie _ Hp). unfold is_word. lia.
Qed.

(** An area is unlinked by the area before it. *)
Lemma unlink_done s m ul fl v X a Y :
  mem_inv m ul fl v -> env_inv s (own v) -> usable v = X ++ a :: Y ->
  exists m' ul', set_link (prev_of X) (word_at m (ar_p a + 16)) (with_lists m ul fl s) =
      Done tt (with_lists m' ul' fl s) /\
    mem_inv m' ul' fl (unlinked v X a Y) /\
    (forall y, own v y ∉ TheArea <$> (ar_p <$> X) -> byte_at m' y = byte_at m y) /\
    (forall p, p ∈ structs v -> word_at m' p = word_at m p /\ word_at m' (p + 8) = word_at m (p + 8)) /\
    word_at m' (ar_p a + 16) = word_at m (ar_p a + 16).
Proof.
  intros Im Ie E.
  assert (Hz : forall x, x ∈ X -> ar_p x <> 0).
  { intros x Hx. assert (Hp : ar_p x ∈ structs v) by (apply in_structs; rewrite E; set_solver).
    pose proof (struct_pos s m ul fl v Im Ie _ Hp). lia. }
  eexists _, _. split; [|split; [exact (mem_unlink m ul fl v X a Y Im E Hz)|]].
  - unfold set_link. destruct (Z.eqb_spec (prev_of X) 0) as [_|Hn]; [reflexivity|].
    refine (set_next_done _ v (heap_lists _ _ _ _ _ Im Ie) _ _ _).
    destruct (snoc_cases X) as [->|(X' & x & ->)]; [contradiction|].
    rewrite prev_of_snoc. apply in_structs. rewrite E. set_solver.
  - destruct (Z.eqb_spec (prev_of X) 0) as [_|Hn]; [auto|].
    destruct (snoc_cases X) as [->|(X' & x & ->)]; [contradiction|]. rewrite prev_of_snoc in *.
    assert (Hx : ar_p x ∈ structs v) by (apply in_structs; rewrite E; set_solver).
    assert (Ho : forall p, p ∈ structs v -> owns (own v) p 24 (TheArea p)) by apply (struct_owned m ul fl v Im).
    assert (Hw : forall p k, p ∈ structs v -> 0 <= k <= 16 -> p <> ar_p x \/ k <= 8 ->
      word_at (put 8 (ar_p x + 16) (word_at m (ar_p a + 16)) m) (p + k) = word_at m (p + k)).
    { intros p k Hp Hk Hd. destruct (Z.eq_dec p (ar_p x)) as [->|Hne].
      - apply word_put_other. lia.
      - apply (word_other (own v) _ _ _ _ (TheArea (ar_p x)) (TheArea p)); [..|congruence];
          (eapply owns_sub; [apply Ho; eassumption|lia..]). }
    split; [|split].
    + intros y Hy. apply (changes_put (own v) [TheArea (ar_p x)] _ _ _ (TheArea (ar_p x)) 8).
      * eapply owns_sub; [apply Ho, Hx|lia..].
      * set_solver.
      * rewrite !fmap_app in Hy. set_solver.
    + intros p Hp. rewrite <- (Z.add_0_r p) at 1 2. split; apply Hw; trivial; lia.
    + apply Hw; [apply in_structs; rewrite E; set_solver|lia|]. left.
      intros Ep. apply (usable_distinct m ul fl v Im X' x (a :: Y) a); [|set_solver|exact Ep].
      rewrite E, <- app_assoc. reflexivity.
Qed.

(** ** More memory *)

(** The state after [n] more pages. *)
Definition grown (n : Z) (s : process) : process :=
  let e := p_end s in let e' := e + PAGE_SIZE * n in let h := p_heap s in
  set_heap (mkheap (usableList h) (freeList h) (if pageCount h =? 0 then e else heapstart h)
      (pageCount h + n) (heapSem h) (initialized h))
    (set_end e' (set_mapped (fun y => p_mapped s y || (e <=? y) && (y <? e')) s)).

Lemma grow_env s o o' n :
  env_inv s o -> 0 < n -> p_grant s (p_end s) n = true ->
  (forall y, o' y = o y \/ o y = Nobody /\ p_end s <= y < p_end s + PAGE_SIZE * n) ->
  (forall y p, o' y = TheArea p -> o y = Nobody -> p mod 8 = 0) ->
  env_inv (grown n s) o'.
Proof.
  intros [H1 Hal [H2 H2'] H3 H4] Hn Hg Ho Hp. unfold PAGE_SIZE in *.
  destruct (H4 (p_end s) n ltac:(lia) ltac:(lia) Hg) as [Hb Hm].
  split; simpl; unfold PAGE_SIZE.
  - intros y Hy. destruct (Ho y) as [Ey|[Ey Hr]].
    + rewrite Ey in Hy. destruct (H1 y Hy) as [-> Hy']. split; [reflexivity|].
      destruct H3 as (_ & _ & [[_ H3]|H3]); [congruence|].
      destruct (Z.eqb_spec (pageCount (p_heap s)) 0); lia.
    + split; [apply orb_true_iff; right; apply andb_true_iff; rewrite Z.leb_le, Z.ltb_lt; lia|].
      destruct H3 as (Hpc & _ & [[-> _]|H3]); [simpl; lia|].
      destruct (Z.eqb_spec (pageCount (p_heap s)) 0); lia.
  - intros y p Hy. destruct (Ho y) as [Ey|[Ey _]]; [apply (Hal y); congruence|eauto].
  - split; [lia|]. rewrite Z.mul_comm, Z.mod_add; [trivial|lia].
  - destruct H3 as (Ha & Hb' & [[-> _]|H3]); [simpl; csplit; try lia|].
    destruct (Z.eqb_spec (pageCount (p_heap s)) 0); csplit; try lia.
  - intros e k He Hk Hgk. destruct (H4 e k ltac:(lia) Hk Hgk) as [? Hf]. split; [lia|].
    intros y Hy. rewrite Hf by lia. destruct (Z.leb_spec (p_end s) y), (Z.ltb_spec y (p_end s + 4096 * n)); trivial; lia.
Qed.

(** What the code does with the kernel's answer. *)
Lemma chgsize_denied n s : p_grant s (p_end s) n = false -> chgsize n s = Done 0 s.
Proof. intros H. unfold chgsize. rewrite H. reflexivity. Qed.

Lemma chgsize_granted {B} (k : Z -> C B) (b : C B) n s o :
  env_inv s o -> 0 < n -> p_grant s (p_end s) n = true ->
  (oldEnd ← chgsize n; if oldEnd =? 0 then b else add_pages oldEnd n;; k oldEnd) s =
  k (p_end s) (grown n s).
Proof.
  intros [H1 _ [H2 H2'] H3 H4] Hn Hg. unfold chgsize, mbind, C_bind. rewrite Hg.
  rewrite (proj2 (Z.eqb_neq _ _)) by lia. unfold add_pages, modify, grown. simpl.
  do 2 f_equal. f_equal. apply wrap_small. destruct (H4 (p_end s) n ltac:(lia) ltac:(lia) Hg) as [Hb _].
  unfold PAGE_SIZE in *. unfold is_word. lia.
Qed.

(** The structures of a new page, from the [i]-th on. *)
Definition page_structs (e : Z) (i k : nat) : list Z := (fun j => e + 24 * Z.of_nat j) <$> seq i k.

(** The ownership with a page of structures at [e]. *)
Definition own_page (e : Z) (o : Z -> owner) : Z -> owner := fun y =>
  if (e <=? y) && (y <? e + 4080) then TheArea (e + 24 * ((y - e) / 24)) else o y.

Lemma own_page_struct e o i : (i < 170)%nat -> owns (own_page e o) (e + 24 * Z.of_nat i) 24 (TheArea (e + 24 * Z.of_nat i)).
Proof.
  intros Hi y Hy. unfold own_page. destruct (Z.leb_spec e y), (Z.ltb_spec y (e + 4080)); try lia.
  simpl. replace ((y - e) / 24) with (Z.of_nat i); [reflexivity|].
  apply Z.div_unique with (y - e - 24 * Z.of_nat i); lia.
Qed.

Lemma page_structs_nodup e i k : NoDup (page_structs e i k).
Proof. apply NoDup_fmap_2; [intros x y Hxy; lia|apply NoDup_seq]. Qed.

Lemma own_above s v y : heap_inv s v -> p_end s <= y -> own v y = Nobody.
Proof.
  intros [_ Ie] Hy. destruct (decide (own v y = Nobody)) as [|Hn]; [trivial|].
  destruct (ei_owned _ _ Ie y Hn). lia.
Qed.

Lemma own_page_below s v y : heap_inv s v -> own_page (p_end s) (own v) y = own v y \/ own v y = Nobody /\ p_end s <= y < p_end s + PAGE_SIZE * 1.
Proof.
  intros I. unfold own_page, PAGE_SIZE. destruct (Z.leb_spec (p_end s) y), (Z.ltb_spec y (p_end s + 4080)); simpl; auto.
  right. split; [apply (own_above s); trivial; lia|lia].
Qed.

Lemma grow_page s v :
  heap_inv s v -> p_grant s (p_end s) 1 = true -> env_inv (grown 1 s) (own_page (p_end s) (own v)).
Proof.
  intros I Hg. apply (grow_env s (own v)); [apply I|lia|trivial|intros; apply own_page_below, I|].
  intros y p Hy Hn. unfold own_page in Hy. destruct (_ && _); [|congruence].
  injection Hy as <-. destruct (ei_end _ _ (proj2 I)) as [_ He]. unfold PAGE_SIZE in He.
  Z.div_mod_to_equations. lia.
Qed.

(** In the middle of [loadNewAreas]: the first [i] structures of the page are in the list. *)
Definition loading (s : process) (v : view) (i : nat) (t : process) : Prop :=
  let e := p_end s in exists m fl F,
    t = with_lists m (usableList (p_heap s)) fl (grown 1 s) /\
    mem_inv m (usableList (p_heap s)) fl
      (mkview (usable v) (live v) F (page_structs e i (170 - i) ++ limbo v) (own_page e (own v))) /\
    length F = i /\ forall y, y < e \/ e + PAGE_SIZE <= y -> byte_at m y = byte_at (p_mem s) y.

Lemma loading_step s v i t :
  heap_inv s v -> p_grant s (p_end s) 1 = true -> (i < 170)%nat -> loading s v i t ->
  exists t', (f ← get_free; set_next (p_end s + 24 * Z.of_nat i) f;; set_free (p_end s + 24 * Z.of_nat i)) t = Done tt t' /\
    loading s v (S i) t'.
Proof.
  intros I Hg Hi (m & fl & F & -> & Im & HF & Hb). set (p := p_end s + 24 * Z.of_nat i) in *.
  assert (Ie : env_inv (grown 1 s) (own_page (p_end s) (own v))).
  { apply grow_page; trivial. }
  replace (170 - i)%nat with (S (170 - S i)) in Im by lia.
  assert (El : page_structs (p_end s) i (S (170 - S i)) = p :: page_structs (p_end s) (S i) (170 - S i)) by reflexivity.
  rewrite El in Im.
  assert (Hp : p ∈ structs (mkview (usable v) (live v) F ((p :: page_structs (p_end s) (S i) (170 - S i)) ++ limbo v) (own_page (p_end s) (own v)))).
  { unfold structs. simpl. rewrite !elem_of_app. set_solver. }
  rewrite bind_get_free. rewrite (bind_set_next _ _ _ _ _ Im Ie) by exact Hp.
  eexists. split; [apply set_free_done|]. eexists _, _, (p :: F). split; [reflexivity|].
  pose proof (struct_owned _ _ _ _ Im p Hp) as Ho.
  assert (Im' := mem_put _ _ _ _ Im p (p + 16) 8 fl (TheArea p) ltac:(set_solver) ltac:(eapply owns_sub; [exact Ho|lia..]) ltac:(auto)).
  split; [|split].
  - apply (mem_push_spare _ _ _ _ Im' p); [reflexivity|]. apply word_put_same.
    exact (spare_octa _ _ _ _ _ Im Ie).
  - simpl. lia.
  - intros y Hy. unfold PAGE_SIZE in Hy. simpl. rewrite byte_put_other; [apply Hb; unfold PAGE_SIZE; lia|]. lia.
Qed.

(** The code treats the first structure of the page in another order. *)
Lemma first_area {B} e s (k : C B) :
  freeList (p_heap s) = 0 ->
  (set_free e;; set_next e 0;; k) s = ((f ← get_free; set_next e f;; set_free e);; k) s.
Proof.
  intros H. unfold set_free, set_next, get_free, gets, store, modify, mbind, C_bind.
  rewrite H. cbn [p_mapped set_heap]. destruct (all_mapped (p_mapped s) (e + 16) 8); reflexivity.
Qed.

Lemma loadNewAreas_done s v :
  heap_inv s v -> spare v = [] ->
  (loadNewAreas s = Done false s) \/
  exists s' F, loadNewAreas s = Done true s' /\ still (grown 1 s) s' /\
    p_grant s (p_end s) 1 = true /\
    heap_inv s' (mkview (usable v) (live v) F (limbo v) (own_page (p_end s) (own v))) /\
    length F = 170%nat /\
    (forall y, y < p_end s \/ p_end s + PAGE_SIZE <= y -> byte_at (p_mem s') y = byte_at (p_mem s) y).
Proof.
  intros I Es. set (e := p_end s). unfold loadNewAreas.
  destruct (p_grant s e 1) eqn:Hg; [right|left; rewrite (bind_done _ _ _ _ _ (chgsize_denied 1 s Hg)); reflexivity].
  rewrite (chgsize_granted _ _ 1 s (own v) (proj2 I) ltac:(lia) Hg).
  assert (Hfl : freeList (p_heap s) = 0)
    by (pose proof (mi_spare _ _ _ _ (proj1 I)) as H; rewrite Es in H; exact H).
  assert (H0 : loading s v 0 (grown 1 s)).
  { eexists _, _, []. split; [symmetry; apply (with_lists_self (grown 1 s))|].
    split; [|split; [reflexivity|reflexivity]].
    rewrite <- Es. apply mem_add_limbo; [apply I|..].
    - intros y. destruct (own_page_below s v y I) as [?|[? _]]; auto.
    - apply page_structs_nodup.
    - intros p (j & -> & Hj%elem_of_seq)%list_elem_of_fmap. split; [apply own_page_struct; lia|].
      apply (own_above s); trivial. lia. }
  destruct (loading_step s v 0 _ I Hg ltac:(lia) H0) as (t1 & E1 & H1).
  rewrite Z.mul_0_r, Z.add_0_r in E1. fold e in E1 |- *.
  rewrite first_area by exact Hfl. rewrite (bind_done _ _ _ _ _ E1). clear E1 H0.
  edestruct (fun body => loop_rule body
    (fun area t => exists i, area = e + 24 * Z.of_nat i /\ (i <= 170)%nat /\ loading s v i t)
    (fun (_ : unit) t => loading s v 170 t) (fun area => e + 4080 - area) (e + SIZEOF_AREA) t1)
    as ([] & t2 & E2 & H2); [| | |rewrite (bind_done _ _ _ _ _ E2)].
  - intros area t (i & -> & Hi & Hl). split; [lia|].
    change (PAGE_SIZE / SIZEOF_AREA * SIZEOF_AREA) with 4080.
    destruct (Z.ltb_spec (e + 24 * Z.of_nat i) (e + 4080)).
    + left. destruct (loading_step s v i t I Hg ltac:(lia) Hl) as (t' & E & Hl'). fold e in E.
      eexists _, t'. split; [|split; [exists (S i); split; [reflexivity|split; [lia|exact Hl']]|]].
      * revert E. rewrite !bind_get_free. unfold mbind, C_bind. destruct (set_next _ _ t); [|discriminate].
        intros ->. unfold mret, C_ret, SIZEOF_AREA. do 2 f_equal. lia.
      * lia.
    + right. exists tt, t. split; [reflexivity|]. replace 170%nat with i by lia. exact Hl.
  - exists 1%nat. split; [unfold SIZEOF_AREA; lia|]. split; [lia|exact H1].
  - unfold SIZEOF_AREA. lia.
  - destruct H2 as (m & fl & F & -> & Im & HF & Hb). eexists _, F.
    split; [reflexivity|]. split; [reflexivity|]. split; [trivial|]. split; [|auto].
    apply heap_lists; [exact Im|]. apply grow_page; trivial.
Qed.

(** The heap got more memory and structures; the blocks and the memory of others are as
    before. *)
Record extends (s : process) (v : view) (s' : process) (v' : view) : Prop := {
  ex_live : live v' = live v;
  ex_limbo : limbo v' = limbo v;
  ex_own : forall y, own v y <> Nobody -> own v' y = own v y;
  ex_nobody : forall y, p_mapped s y = true -> own v y = Nobody -> own v' y = Nobody;
  ex_data : forall y, p_mapped s y = true -> (forall p, own v y <> TheArea p) ->
    byte_at (p_mem s') y = byte_at (p_mem s) y;
  ex_mapped : forall y, p_mapped s y = true -> p_mapped s' y = true;
  ex_pages : pageCount (p_heap s) <= pageCount (p_heap s');
  ex_rest : (p_grant s', p_last s', heapSem (p_heap s'), initialized (p_heap s')) =
            (p_grant s, p_last s, heapSem (p_heap s), initialized (p_heap s))
}.

Lemma extends_refl s v : extends s v s v.
Proof. split; trivial. lia. Qed.

Lemma extends_trans s1 v1 s2 v2 s3 v3 :
  extends s1 v1 s2 v2 -> extends s2 v2 s3 v3 -> extends s1 v1 s3 v3.
Proof.
  intros [A1 A2 A3 A4 A5 A6 A7 A8] [B1 B2 B3 B4 B5 B6 B7 B8].
  split; try congruence; try lia.
  - intros y Hy. rewrite B3, A3; trivial. rewrite A3; trivial.
  - auto.
  - intros y Hm Hy. rewrite B5, A5; trivial; [auto|]. intros p.
    destruct (decide (own v1 y = Nobody)) as [En|En]; [rewrite A4; congruence|rewrite A3; auto].
  - auto.
Qed.

(** Memory that is mapped is not what the kernel adds. *)
Lemma fresh_unmapped s v n y :
  heap_inv s v -> 0 < n -> p_grant s (p_end s) n = true -> p_mapped s y = true ->
  y < p_end s \/ p_end s + PAGE_SIZE * n <= y.
Proof.
  intros [_ Ie] Hn Hg Hy. destruct (ei_grant _ _ Ie (p_end s) n ltac:(lia) ltac:(lia) Hg) as [_ Hf].
  destruct (Z_lt_le_dec y (p_end s)); [auto|].
  destruct (Z_lt_le_dec y (p_end s + PAGE_SIZE * n)); [rewrite Hf in Hy by lia; discriminate|auto].
Qed.

(** Afterwards there is an unused structure, unless the kernel refuses. *)
Lemma ensure_areas_done s v :
  heap_inv s v ->
  exists (ok : bool) s' v', ensure_areas s = Done ok s' /\ heap_inv s' v' /\ extends s v s' v' /\
    usable v' = usable v /\ (ok = true -> spare v' <> []) /\
    (forall y, p_mapped s y = true -> byte_at (p_mem s') y = byte_at (p_mem s) y).
Proof.
  intros I. unfold ensure_areas. rewrite bind_get_free. destruct (Z.eqb_spec (freeList (p_heap s)) 0) as [E|E].
  2: { exists true, s, v. csplit; auto using extends_refl. intros _ Es.
       pose proof (mi_spare _ _ _ _ (proj1 I)) as H. rewrite Es in H. contradiction. }
  assert (Es : spare v = []).
  { destruct (spare v) as [|p F] eqn:Es; [reflexivity|].
    pose proof (mi_spare _ _ _ _ (proj1 I)) as H. rewrite Es in H. destruct H as [H _].
    assert (Hp : p ∈ structs v) by (unfold structs; rewrite Es; set_solver).
    pose proof (struct_bounds s v I p Hp). lia. }
  destruct (loadNewAreas_done s v I Es) as [El|(s' & F & El & St & Hg & I' & HF & Hb)].
  { exists false, s, v. csplit; auto using extends_refl. }
  eexists true, s', _. csplit; [exact El|exact I'| |reflexivity|simpl; intros _ ->; discriminate|].
  2: { intros y Hm. apply Hb. destruct (fresh_unmapped s v 1 y I ltac:(lia) Hg Hm); lia. }
  unfold still, frame_of in St. injection St as S1 S2 S3 S4 S5 S6 S7 S8.
  split; trivial; cbn [live limbo own].
  - intros y Hy. destruct (own_page_below s v y I) as [|[? _]]; [trivial|contradiction].
  - intros y Hm Hy. destruct (own_page_below s v y I) as [->|[_ Hr]]; [trivial|].
    destruct (fresh_unmapped s v 1 y I ltac:(lia) Hg Hm); lia.
  - intros y Hm _. apply Hb. destruct (fresh_unmapped s v 1 y I ltac:(lia) Hg Hm); lia.
  - intros y Hm. rewrite S1. simpl. rewrite Hm. reflexivity.
  - rewrite S6. simpl. lia.
  - rewrite S3, S4, S7, S8. reflexivity.
Qed.

(** An unused structure becomes a usable area: the common end of [loadNewSpace] and of the
    splitting of an area. *)
Lemma use_struct s m ul fl v a L :
  mem_inv m ul fl v -> env_inv s (own v) -> limbo v = ar_p a :: L ->
  owns (own v) (ar_addr a) (ar_size a) (TheBlock (ar_p a)) -> 8 <= ar_size a ->
  ar_addr a mod 8 = 0 -> ar_size a mod 8 = 0 ->
  word_at m (ar_p a) = ar_size a -> word_at m (ar_p a + 8) = ar_addr a ->
  exists m', (u ← get_usable; set_next (ar_p a) u;; set_usable (ar_p a)) (with_lists m ul fl s) =
      Done tt (with_lists m' (ar_p a) fl s) /\
    mem_inv m' (ar_p a) fl (mkview (a :: usable v) (live v) (spare v) L (own v)) /\
    changes (own v) [TheArea (ar_p a)] m m'.
Proof.
  intros Im Ie El Hb H8 Ha Hr Hs Had.
  assert (Hp : ar_p a ∈ structs v) by (unfold structs; rewrite El; set_solver).
  pose proof (struct_owned m ul fl v Im _ Hp) as Ho.
  assert (Ho' : owns (own v) (ar_p a + 16) 8 (TheArea (ar_p a))) by (eapply owns_sub; [exact Ho|lia..]).
  exists (put 8 (ar_p a + 16) ul m). split; [|split].
  - rewrite bind_get_usable. rewrite (bind_set_next _ _ _ _ _ Im Ie) by exact Hp. reflexivity.
  - assert (Im' : mem_inv (put 8 (ar_p a + 16) ul m) ul fl v).
    { apply (mem_put _ _ _ _ Im (ar_p a) _ 8 _ (TheArea (ar_p a))); [rewrite El; set_solver|exact Ho'|auto]. }
    apply (mem_push_usable _ _ _ _ Im' a L El).
    + apply area_in_link. split; trivial.
    + apply word_put_same, (usable_octa s m ul fl v Im Ie).
  - apply (changes_put _ _ _ _ _ (TheArea (ar_p a)) 8); [exact Ho'|set_solver].
Qed.

(** The same before further statements. *)
Lemma use_struct_then {B} s m ul fl p m' (k : C B) :
  (u ← get_usable; set_next p u;; set_usable p) (with_lists m ul fl s) = Done tt (with_lists m' p fl s) ->
  (u ← get_usable; set_next p u;; set_usable p;; k) (with_lists m ul fl s) = k (with_lists m' p fl s).
Proof.
  rewrite !bind_get_usable. unfold mbind, C_bind. destruct (set_next _ _ _); [|discriminate].
  intros ->. reflexivity.
Qed.

(** The two fields of a structure in limbo. *)
Lemma fill_struct s m ul fl v p a n {B} (k : C B) :
  mem_inv m ul fl v -> env_inv s (own v) -> p ∈ limbo v -> is_octa a -> is_octa n ->
  exists m', (set_address p a;; set_size p n;; k) (with_lists m ul fl s) = k (with_lists m' ul fl s) /\
    mem_inv m' ul fl v /\ changes (own v) [TheArea p] m m' /\
    word_at m' p = n /\ word_at m' (p + 8) = a.
Proof.
  intros Im Ie Hl Ha Hn. assert (Hp : p ∈ structs v) by (unfold structs; set_solver).
  pose proof (struct_owned m ul fl v Im _ Hp) as Ho.
  assert (O8 : owns (own v) (p + 8) 8 (TheArea p)) by (eapply owns_sub; [exact Ho|lia..]).
  assert (O0 : owns (own v) p 8 (TheArea p)) by (eapply owns_sub; [exact Ho|lia..]).
  assert (Im1 := mem_put _ _ _ _ Im p _ 8 a _ Hl O8 (or_introl eq_refl)).
  assert (Im2 := mem_put _ _ _ _ Im1 p _ 8 n _ Hl O0 (or_introl eq_refl)).
  exists (put 8 p n (put 8 (p + 8) a m)). split; [|split; [exact Im2|split; [|split]]].
  - rewrite (bind_set_address _ _ _ _ _ Im Ie), (bind_set_size _ _ _ _ _ Im1 Ie) by exact Hp. reflexivity.
  - eapply changes_trans; eapply (changes_put _ _ _ _ _ (TheArea p) 8); [exact O8| |exact O0|]; set_solver.
  - apply word_put_same, Hn.
  - rewrite word_put_other by lia. apply word_put_same, Ha.
Qed.

(** The ownership with a block for the structure [p]. *)
Definition own_block (a n p : Z) (o : Z -> owner) : Z -> owner := fun y =>
  if (a <=? y) && (y <? a + n) then TheBlock p else o y.

Lemma own_block_in a n p o : owns (own_block a n p o) a n (TheBlock p).
Proof.
  intros y Hy. unfold own_block. destruct (Z.leb_spec a y), (Z.ltb_spec y (a + n)); reflexivity || lia.
Qed.

Lemma own_block_out a n p o y : y < a \/ a + n <= y -> own_block a n p o y = o y.
Proof.
  intros Hy. unfold own_block. destruct (Z.leb_spec a y), (Z.ltb_spec y (a + n)); reflexivity || lia.
Qed.

Lemma own_block_no_area a n p o y q : own_block a n p o y = TheArea q -> o y = Nobody -> q mod 8 = 0.
Proof. unfold own_block. destruct (_ && _); congruence. Qed.

Lemma own_block_area a n p o y q : own_block a n p o y = TheArea q -> o y = TheArea q.
Proof. unfold own_block. destruct (_ && _); congruence. Qed.

Lemma page_aligned x : x mod PAGE_SIZE = 0 -> x mod 8 = 0.
Proof. unfold PAGE_SIZE. intros H. Z.div_mod_to_equations. lia. Qed.

(** The second half of [loadNewSpace]: new pages become a usable area. *)
Lemma add_space s v count f F :
  heap_inv s v -> spare v = f :: F -> 0 < count -> p_grant s (p_end s) count = true ->
  exists s' v' a,
    (area ← get_free;
     n ← get_next area;
     set_free n;;
     set_address area (p_end s);;
     set_size area (PAGE_SIZE *o count);;
     u ← get_usable;
     set_next area u;;
     set_usable area;;
     mret true) (grown count s) = Done true s' /\
    heap_inv s' v' /\ extends s v s' v' /\ usable v' = a :: usable v /\
    ar_size a = PAGE_SIZE * count /\ pageCount (p_heap s') = pageCount (p_heap s) + count.
Proof.
  intros I Es Hc Hg. set (e := p_end s) in *. set (o := own_block e (PAGE_SIZE * count) f (own v)).
  pose proof (ei_grant _ _ (proj2 I) e count ltac:(subst e; lia) ltac:(lia) Hg) as [Hlim Hfresh].
  pose proof (ei_end _ _ (proj2 I)) as [He Hem]. fold e in He, Hem.
  assert (Hr : forall y, o y = own v y \/ own v y = Nobody /\ e <= y < e + PAGE_SIZE * count).
  { intros y. destruct (Z_lt_le_dec y e); [left; apply own_block_out; auto|].
    destruct (Z_lt_le_dec y (e + PAGE_SIZE * count)); [|left; apply own_block_out; auto].
    right. split; [apply (own_above s); trivial|lia]. }
  assert (Im0 := mem_pop _ _ _ _ (proj1 I) f F Es). set (fl := word_at (p_mem s) (f + 16)) in *.
  assert (Im1 := mem_reown _ _ _ _ Im0 o). cbn [own usable live spare limbo] in Im1.
  specialize (Im1 ltac:(intros y; destruct (Hr y) as [?|[? _]]; auto)).
  set (v1 := mkview (usable v) (live v) F (f :: limbo v) o) in *.
  assert (Ie : env_inv (grown count s) (own v1)) by (apply (grow_env s (own v)); [apply I|trivial..|apply own_block_no_area]).
  assert (Hf : freeList (p_heap s) = f) by (pose proof (mi_spare _ _ _ _ (proj1 I)) as H; rewrite Es in H; apply H).
  assert (Hfs : f ∈ structs v1) by (unfold structs; simpl; set_solver).
  rewrite bind_get_free. change (freeList (p_heap (grown count s))) with (freeList (p_heap s)). rewrite Hf.
  assert (Ige : heap_inv (grown count s) (mkview (usable v) (live v) (f :: F) (limbo v) o)).
  { split; [|exact Ie]. simpl. rewrite <- Es. apply mem_reown; [apply I|].
    intros y. destruct (Hr y) as [?|[? _]]; auto. }
  rewrite (bind_done _ _ _ _ _ (get_next_done _ _ Ige f ltac:(unfold structs; simpl; set_solver))).
  rewrite (bind_done _ _ _ _ _ (set_free_done _ _)). cbn [p_mem grown set_heap set_end set_mapped]. fold fl.
  destruct (fill_struct (grown count s) (p_mem s) (usableList (p_heap s)) fl v1 f e (PAGE_SIZE *o count)
    (u ← get_usable; set_next f u;; set_usable f;; mret true) Im1 Ie) as (m1 & E1 & Im2 & C1 & W1 & W2).
  { subst v1. simpl. set_solver. }
  { unfold is_word. lia. }
  { apply wrap_range. lia. }
  rewrite (wrap_small 64) in W1 by (unfold is_word, PAGE_SIZE in *; lia).
  set (a := mkarea f e (PAGE_SIZE * count)).
  destruct (use_struct (grown count s) m1 (usableList (p_heap s)) fl v1 a (limbo v) Im2 Ie eq_refl) as (m2 & E2 & Im3 & C2);
    [apply own_block_in|unfold a, PAGE_SIZE; simpl; lia|..|exact W1|exact W2|].
  { apply page_aligned, Hem. }
  { apply page_aligned. unfold a. simpl. rewrite Z.mul_comm. apply Z.mod_mul. discriminate. }
  eexists _, _, a. split; [|split; [apply heap_lists; [exact Im3|exact Ie]|]].
  - etransitivity; [exact E1|]. apply (use_struct_then _ _ _ _ _ _ (mret true) E2).
  - split; [|auto]. assert (Cm : changes o [TheArea f] (p_mem s) m2) by (eapply changes_trans; eassumption).
    split; trivial; cbn [live limbo own v1 p_mem with_lists set_mem p_mapped set_heap p_heap heapSem].
    + intros y Hy. destruct (Hr y) as [|[? _]]; [trivial|contradiction].
    + intros y Hm Hy. destruct (Hr y) as [->|[_ Hy']]; [trivial|]. rewrite Hfresh in Hm by lia. discriminate.
    + intros y Hm Hy. apply Cm. destruct (Hr y) as [->|[_ Hy']].
      * intros Hin%list_elem_of_singleton. apply (Hy f Hin).
      * rewrite Hfresh in Hm by lia. discriminate.
    + intros y Hm. simpl. rewrite Hm. reflexivity.
    + simpl. lia.
Qed.

Lemma loadNewSpace_done s v size :
  heap_inv s v -> 0 < size < 2 ^ 64 ->
  exists (ok : bool) s' v', loadNewSpace size s = Done ok s' /\ heap_inv s' v' /\ extends s v s' v' /\
    if ok then exists a, usable v' = a :: usable v /\ size <= ar_size a /\
      PAGE_SIZE * pageCount (p_heap s) + ar_size a <= PAGE_SIZE * pageCount (p_heap s')
    else usable v' = usable v.
Proof.
  intros I Hs. destruct (ensure_areas_done s v I) as (ok & s1 & v1 & E1 & I1 & X1 & U1 & Hsp & Hmem).
  unfold loadNewSpace. rewrite (bind_done _ _ _ _ _ E1).
  destruct ok; [|exists false, s1, v1; auto]. cbn [negb].
  destruct (Z.ltb_spec (size +o PAGE_SIZE) PAGE_SIZE) as [Hw|Hw]; [exists false, s1, v1; auto|].
  assert (Hsz : size + PAGE_SIZE < 2 ^ 64).
  { unfold PAGE_SIZE, wrap in *. destruct (Z_lt_le_dec (size + 4096) (2 ^ 64)); [trivial|].
    rewrite <- (Z.mod_add _ (-1)), Z.mod_small in Hw by lia. lia. }
  rewrite (wrap_small 64 (size + PAGE_SIZE)) by (unfold is_word, PAGE_SIZE in *; lia).
  rewrite (wrap_small 64 (_ - 1)) by (unfold is_word, PAGE_SIZE in *; lia).
  set (count := (size + PAGE_SIZE - 1) / PAGE_SIZE). cbv zeta.
  assert (Hc : 0 < count /\ size <= PAGE_SIZE * count).
  { unfold count, PAGE_SIZE in *. Z.div_mod_to_equations. lia. }
  destruct (p_grant s1 (p_end s1) count) eqn:Hg.
  - rewrite (chgsize_granted _ _ count s1 (own v1) (proj2 I1) ltac:(lia) Hg).
    destruct (spare v1) as [|f F] eqn:Es; [destruct (Hsp eq_refl); trivial|].
    destruct (add_space s1 v1 count f F I1 Es ltac:(lia) Hg) as (s2 & v2 & a & E2 & I2 & X2 & U2 & Ha & Hpc).
    exists true, s2, v2. split; [exact E2|]. split; [exact I2|]. split; [eapply extends_trans; eassumption|].
    exists a. rewrite U2, U1, Hpc. pose proof (ex_pages _ _ _ _ X1). unfold PAGE_SIZE in *. split; [trivial|]. lia.
  - rewrite (bind_done _ _ _ _ _ (chgsize_denied count s1 Hg)). exists false, s1, v1. auto.
Qed.

(** ** Splitting an area *)

(** What is left of an area when it is cut to [size] bytes. *)
Definition rest_of (a : area) (size f : Z) : area := mkarea f (ar_addr a + size) (ar_size a - size).
Definition own_rest (a : area) (size f : Z) (o : Z -> owner) : Z -> owner :=
  own_block (ar_addr a + size) (ar_size a - size) f o.

Lemma own_rest_cases m a size f o y :
  area_in m o a -> 0 <= size -> own_rest a size f o y = o y \/ o y = TheBlock (ar_p a).
Proof.
  intros Ha Hs. unfold own_rest. destruct (Z_lt_le_dec y (ar_addr a + size)); [left; apply own_block_out; auto|].
  destruct (Z_lt_le_dec y (ar_addr a + ar_size a)); [|left; apply own_block_out; lia].
  right. apply (ai_block _ _ _ Ha). lia.
Qed.

Lemma own_rest_env s m a size f o : area_in m o a -> 0 <= size -> env_inv s o -> env_inv s (own_rest a size f o).
Proof.
  intros Ha Hs. apply env_reown; [|apply own_block_area].
  intros y Hy. destruct (own_rest_cases m a size f o y Ha Hs); congruence.
Qed.

(** An area in limbo can be divided. *)
Lemma mem_own_rest m ul fl v a size f :
  mem_inv m ul fl v -> area_in m (own v) a -> ar_p a ∈ limbo v -> 0 <= size ->
  mem_inv m ul fl (mkview (usable v) (live v) (spare v) (limbo v) (own_rest a size f (own v))).
Proof.
  intros Im Ha Hl Hs. apply mem_reown; [trivial|]. intros y.
  destruct (own_rest_cases m a size f (own v) y Ha Hs) as [?|?]; [auto|]. right. right. eauto.
Qed.

(** The first part of a divided area. *)
Lemma cut_area m m' a size f o :
  area_in m o a -> 0 < size < ar_size a -> size mod 8 = 0 ->
  owns (own_rest a size f o) (ar_p a) 24 (TheArea (ar_p a)) ->
  word_at m' (ar_p a) = size -> word_at m' (ar_p a + 8) = ar_addr a ->
  area_in m' (own_rest a size f o) (mkarea (ar_p a) (ar_addr a) size).
Proof.
  intros [A1 A2 A3 A4 A5 A6 A7] Hs H8 Ho W1 W2. split; simpl; trivial.
  - intros y Hy. unfold own_rest. rewrite own_block_out by lia. apply A4. lia.
  - Z.div_mod_to_equations. lia.
Qed.

(** Changes of structures do not depend on the owner of the rest. *)
Lemma changes_own_rest a size f o W m m' :
  (forall p, TheBlock p ∉ W) -> changes (own_rest a size f o) W m m' -> changes o W m m'.
Proof.
  intros HW C y Hy. apply C. revert Hy. unfold own_rest, own_block. destruct (_ && _); [intros _; apply HW|trivial].
Qed.

(** An area in limbo is cut to [size] bytes; the rest becomes usable. *)
Lemma split_rest s m ul fl v a size f L :
  mem_inv m ul fl v -> env_inv s (own v) -> limbo v = f :: ar_p a :: L -> area_in m (own v) a ->
  0 < size < ar_size a -> size mod 8 = 0 ->
  exists m',
    (addr ← get_address (ar_p a);
     set_address f (addr +o size);;
     set_size f (ar_size a -o size);;
     set_size (ar_p a) size;;
     u ← get_usable;
     set_next f u;;
     set_usable f;;
     mret true) (with_lists m ul fl s) = Done true (with_lists m' f fl s) /\
    let o := own_rest a size f (own v) in
    mem_inv m' f fl (mkview (rest_of a size f :: usable v) (live v) (spare v) (ar_p a :: L) o) /\
    area_in m' o (mkarea (ar_p a) (ar_addr a) size) /\
    changes (own v) [TheArea f; TheArea (ar_p a)] m m'.
Proof.
  intros Im Ie El Ha Hsz H8. set (o := own_rest a size f (own v)).
  destruct (owned_bounds _ v (heap_lists _ _ _ _ _ Im Ie) _ _ _ (ai_block _ _ _ Ha)) as (B1 & B2 & B3); [discriminate|lia|].
  simpl in B2, B3.
  assert (Hpa : ar_p a ∈ structs v) by (unfold structs; rewrite El; set_solver).
  assert (Hne : ar_p a <> f).
  { intros Ef. pose proof (mi_nodup _ _ _ _ Im) as Hn. unfold structs in Hn. rewrite El, Ef in Hn.
    rewrite !NoDup_app in Hn. destruct Hn as (_ & _ & _ & _ & _ & _ & Hn). apply NoDup_cons_1_1 in Hn. set_solver. }
  assert (Im1 := mem_own_rest m ul fl v a size f Im Ha ltac:(rewrite El; set_solver) ltac:(lia)).
  assert (Ie1 : env_inv s o) by (apply (own_rest_env s m); trivial; lia).
  set (v1 := mkview (usable v) (live v) (spare v) (limbo v) o) in *.
  rewrite (bind_get_address _ _ _ _ _ Im Ie) by exact Hpa. rewrite (ai_addr _ _ _ Ha).
  rewrite (wrap_small 64 (_ + size)), (wrap_small 64 (ar_size a - size)) by (unfold is_word; lia).
  destruct (fill_struct s m ul fl v1 f (ar_addr a + size) (ar_size a - size)
    (set_size (ar_p a) size;; u ← get_usable; set_next f u;; set_usable f;; mret true) Im1 Ie1)
    as (m1 & -> & Im2 & C1 & W1 & W2).
  { unfold v1. simpl. rewrite El. set_solver. }
  1, 2: unfold is_word; lia.
  rewrite (bind_set_size _ _ _ _ _ Im2 Ie1) by exact Hpa.
  assert (Ho : owns o (ar_p a) 24 (TheArea (ar_p a))) by (apply (struct_owned _ _ _ _ Im1); exact Hpa).
  assert (Hof : owns o f 24 (TheArea f)) by (apply (struct_owned _ _ _ _ Im1); unfold structs, v1; simpl; rewrite El; set_solver).
  assert (Ho0 : owns o (ar_p a) 8 (TheArea (ar_p a))) by (eapply owns_sub; [exact Ho|lia..]).
  assert (Im3 := mem_put _ _ _ _ Im2 (ar_p a) (ar_p a) 8 size (TheArea (ar_p a))
    ltac:(unfold v1; simpl; rewrite El; set_solver) Ho0 (or_introl eq_refl)).
  assert (C2 : changes o [TheArea (ar_p a)] m1 (put 8 (ar_p a) size m1)) by (eapply (changes_put _ _ _ _ _ _ 8); [exact Ho0|set_solver]).
  destruct (use_struct s (put 8 (ar_p a) size m1) ul fl v1 (rest_of a size f) (ar_p a :: L) Im3 Ie1 El)
    as (m2 & E2 & Im4 & C3); try (unfold rest_of; simpl; lia).
  { apply own_block_in. }
  1, 2, 3: pose proof (ai_align _ _ _ Ha); pose proof (ai_round _ _ _ Ha); unfold rest_of; simpl;
    Z.div_mod_to_equations; lia.
  1, 2: etransitivity; [eapply (changes_word _ _ _ _ _ (TheArea f) C2); [eapply owns_sub; [exact Hof|simpl; lia..]|set_solver]|trivial].
  assert (Wa : forall k W m m', changes o W m m' -> 0 <= k <= 16 -> TheArea (ar_p a) ∉ W -> word_at m' (ar_p a + k) = word_at m (ar_p a + k)).
  { intros k W m3 m4 C Hk. apply (changes_word o _ _ _ _ _ C). eapply owns_sub; [exact Ho|lia..]. }
  exists m2. split; [apply (use_struct_then _ _ _ _ _ _ (mret true) E2)|]. split; [exact Im4|]. split.
  - apply (cut_area m); trivial.
    + pose proof (Wa 0 _ _ _ C3 ltac:(lia)) as Q. rewrite Z.add_0_r in Q. rewrite Q by set_solver.
      apply word_put_same. unfold is_word. lia.
    + rewrite (Wa 8 _ _ _ C3), word_put_other, (Wa 8 _ _ _ C1) by (lia || set_solver). apply Ha.
  - apply (changes_own_rest a size f); [set_solver|].
    apply (changes_trans _ _ _ m1); [|apply (changes_trans _ _ _ (put 8 (ar_p a) size m1))];
      (eapply changes_weaken; [|eassumption]); set_solver.
Qed.

(** ** What is preserved *)

(** The blocks of the areas [A] and the memory that does not belong to the heap. *)
Definition protected (A : list area) (v : view) (y : Z) : Prop :=
  own v y = Nobody \/ exists b, b ∈ A /\ own v y = TheBlock (ar_p b).

Record preserves (A : list area) (s : process) (v : view) (s' : process) (v' : view) : Prop := {
  pr_own : forall y, p_mapped s y = true -> protected A v y -> own v' y = own v y;
  pr_data : forall y, p_mapped s y = true -> protected A v y -> byte_at (p_mem s') y = byte_at (p_mem s) y;
  pr_mapped : forall y, p_mapped s y = true -> p_mapped s' y = true;
  pr_rest : (p_grant s', p_last s', heapSem (p_heap s'), initialized (p_heap s')) =
            (p_grant s, p_last s, heapSem (p_heap s), initialized (p_heap s))
}.

Lemma preserves_trans A s1 v1 s2 v2 s3 v3 :
  preserves A s1 v1 s2 v2 -> preserves A s2 v2 s3 v3 -> preserves A s1 v1 s3 v3.
Proof.
  intros [A1 A2 A3 A4] [B1 B2 B3 B4].
  assert (P : forall y, p_mapped s1 y = true -> protected A v1 y -> protected A v2 y).
  { intros y Hm Hy. unfold protected. rewrite (A1 y Hm Hy). exact Hy. }
  split; [..|congruence].
  - intros y Hm Hy. rewrite B1, A1; auto.
  - intros y Hm Hy. rewrite B2, A2; auto.
  - auto.
Qed.

Lemma preserves_sub A B s v s' v' : A ⊆ B -> preserves B s v s' v' -> preserves A s v s' v'.
Proof.
  intros HA [H1 H2 H3 H4].
  assert (P : forall y, protected A v y -> protected B v y).
  { intros y [Hy|(b & Hb & Hy)]; [left; exact Hy|right; eauto]. }
  split; auto.
Qed.

Lemma extends_preserves A s v s' v' : extends s v s' v' -> preserves A s v s' v'.
Proof.
  intros [H1 H2 H3 H4 H5 H6 H7 H8]. split; trivial.
  - intros y Hm [Hy|(b & _ & Hy)]; [rewrite H4; auto|apply H3; congruence].
  - intros y Hm [Hy|(b & _ & Hy)]; apply H5; trivial; congruence.
Qed.

(** Steps that leave the pages alone and change only the memory of some structures and
    blocks. *)
Lemma changes_preserves A W s v s' v' :
  still s s' -> changes (own v) W (p_mem s) (p_mem s') -> Nobody ∉ W ->
  (forall b, b ∈ A -> TheBlock (ar_p b) ∉ W) ->
  (forall y, protected A v y -> own v' y = own v y) -> preserves A s v s' v'.
Proof.
  unfold still, frame_of. intros E Hc Hn HA Ho. injection E as E1 E2 E3 E4 E5 E6 E7 E8. split.
  - auto.
  - intros y _ [Hy|(b & Hb & Hy)]; apply Hc; rewrite Hy; auto.
  - rewrite E1. trivial.
  - congruence.
Qed.

Definition total (l : list area) : Z := foldr (fun a n => ar_size a + n) 0 l.

Lemma total_app l1 l2 : total (l1 ++ l2) = total l1 + total l2.
Proof. induction l1 as [|a l1 IH]; simpl; [lia|]. unfold total in *. lia. Qed.

(** Structures in limbo are not those of allocated blocks. *)
Lemma limbo_not_live m ul fl v p b : mem_inv m ul fl v -> p ∈ limbo v -> b ∈ live v -> ar_p b <> p.
Proof.
  intros Im Hp Hb E. apply (limbo_not m ul fl v Im p (ar_p b)); [trivial| |congruence].
  apply (list_elem_of_fmap_2 ar_p) in Hb. set_solver.
Qed.

(** An area is described by its structure wherever the bytes of that are the same. *)
Lemma area_in_moved m o m' o' a :
  area_in m o a -> (forall y, o y <> Nobody -> o' y = o y) ->
  (forall y, o y = TheArea (ar_p a) -> byte_at m' y = byte_at m y) -> area_in m' o' a.
Proof.
  intros [A1 A2 A3 A4 A5 A6 A7] Ho Hb. split; trivial.
  - rewrite <- A1. apply num_ext. intros y Hy. apply Hb, A3. lia.
  - rewrite <- A2. apply num_ext. intros y Hy. apply Hb, A3. lia.
  - intros y Hy. rewrite Ho; [auto|]. rewrite A3; congruence.
  - intros y Hy. rewrite Ho; [auto|]. rewrite A4; congruence.
Qed.

Lemma split_area_done s v a size L :
  heap_inv s v -> limbo v = ar_p a :: L -> area_in (p_mem s) (own v) a ->
  0 < size <= ar_size a -> size mod 8 = 0 ->
  exists (ok : bool) s' v', split_area (ar_p a) size s = Done ok s' /\ heap_inv s' v' /\
    preserves (live v) s v s' v' /\ live v' = live v /\ limbo v' = ar_p a :: L /\
    pageCount (p_heap s) <= pageCount (p_heap s') /\
    if ok then area_in (p_mem s') (own v') (mkarea (ar_p a) (ar_addr a) size) /\
      total (usable v') = total (usable v) + (ar_size a - size)
    else usable v' = usable v.
Proof.
  intros I El Ha Hsz H8. assert (Hp : ar_p a ∈ structs v) by (unfold structs; rewrite El; set_solver).
  unfold split_area. rewrite (bind_done _ _ _ _ _ (get_size_done s v I _ Hp)).
  rewrite (ai_size _ _ _ Ha). destruct (Z.ltb_spec size (ar_size a)); cbn [negb].
  2: { exists true, s, v. csplit; trivial; try lia.
       - apply extends_preserves, extends_refl.
       - replace size with (ar_size a) by lia. destruct a; exact Ha. }
  destruct (ensure_areas_done s v I) as (ok & s1 & v1 & E1 & I1 & X1 & U1 & Hsp & Hmem).
  rewrite (bind_done _ _ _ _ _ E1).
  assert (Xp := extends_preserves (live v) s v s1 v1 X1). destruct X1 as [X1 X2 X3 X4 X5 X6 X7 X8].
  destruct ok; cbn [negb].
  2: { exists false, s1, v1. csplit; trivial; congruence. }
  destruct (spare v1) as [|f F] eqn:Es; [destruct (Hsp eq_refl); trivial|].
  assert (Hf : freeList (p_heap s1) = f) by (pose proof (mi_spare _ _ _ _ (proj1 I1)) as H0; rewrite Es in H0; apply H0).
  assert (Hfs : f ∈ structs v1) by (unfold structs; rewrite Es; set_solver).
  rewrite bind_get_free, Hf, (bind_done _ _ _ _ _ (get_next_done s1 v1 I1 f Hfs)).
  rewrite (bind_done _ _ _ _ _ (set_free_done _ s1)).
  assert (Ha1 : area_in (p_mem s1) (own v1) a).
  { apply (area_in_moved (p_mem s) (own v)); trivial.
    intros y Hy. apply Hmem. apply (ei_owned _ _ (proj2 I)). congruence. }
  assert (Im1 := mem_pop _ _ _ _ (proj1 I1) f F Es).
  destruct (split_rest s1 _ _ _ _ a size f L Im1 (proj2 I1)) as (m2 & E2 & Im2 & Ha2 & C2);
    [cbn [limbo]; congruence|exact Ha1|lia|trivial|].
  cbn [usable live spare limbo own] in Im2, Ha2, C2.
  eexists true, _, _. split; [exact E2|]. split.
  { apply heap_lists; [exact Im2|]. apply (env_reown s1 (own v1)); [|apply own_block_area|apply I1].
    intros y Hy. cbn [own]. destruct (own_rest_cases _ a size f (own v1) y Ha1); [lia|congruence..]. }
  csplit; trivial; cbn [usable live limbo total foldr rest_of ar_size].
  - eapply preserves_trans; [exact Xp|].
    eapply changes_preserves; [reflexivity|exact C2|set_solver|set_solver|].
    intros y Hy. destruct (own_rest_cases _ a size f (own v1) y Ha1) as [|Hb]; [lia|trivial|].
    destruct Hy as [Hy|(b & Hb1 & Hb2)]; [congruence|].
    destruct (limbo_not_live _ _ _ v1 (ar_p a) b (proj1 I1)); [rewrite X2, El; set_solver|rewrite X1; trivial|congruence].
  - rewrite <- U1. unfold total. lia.
Qed.

(** ** Guards *)

Lemma set_guards_done s v a L :
  heap_inv s v -> limbo v = ar_p a :: L -> area_in (p_mem s) (own v) a -> 32 <= ar_size a ->
  exists s', set_guards (ar_addr a) (ar_p a) (ar_size a) s = Done tt s' /\ still s s' /\
    changes (own v) [TheBlock (ar_p a)] (p_mem s) (p_mem s') /\
    (forall y, ar_addr a + 24 <= y < ar_addr a + ar_size a - 8 -> byte_at (p_mem s') y = byte_at (p_mem s) y) /\
    heap_inv s' (mkview (usable v) (a :: live v) (spare v) L (own v)).
Proof.
  intros I El Ha H32. pose proof (ai_block _ _ _ Ha) as Hb.
  assert (Hp : ar_p a ∈ structs v) by (unfold structs; rewrite El; set_solver).
  destruct (owned_bounds s v I _ _ _ Hb) as (B1 & B2 & B3); [discriminate|lia|].
  pose proof (struct_bounds s v I _ Hp) as Hpb.
  pose proof (ai_round _ _ _ Ha) as Hr.
  assert (E8 : 8 * (ar_size a / 8 -o 1) = ar_size a - 8).
  { rewrite wrap_small by (unfold is_word; Z.div_mod_to_equations; lia). Z.div_mod_to_equations. lia. }
  set (w1 := ar_size a - 32).
  assert (Hput : forall x k t, heap_inv t v -> area_in (p_mem t) (own v) a -> still s t ->
    0 <= k -> k + 8 <= ar_size a ->
    store64 (ar_addr a + k) x t = Done tt (set_mem (put 8 (ar_addr a + k) x (p_mem t)) t) /\
    heap_inv (set_mem (put 8 (ar_addr a + k) x (p_mem t)) t) v /\
    area_in (put 8 (ar_addr a + k) x (p_mem t)) (own v) a /\
    changes (own v) [TheBlock (ar_p a)] (p_mem t) (put 8 (ar_addr a + k) x (p_mem t))).
  { intros x k t It Hat St Hk1 Hk2.
    assert (Ho : owns (own v) (ar_addr a + k) 8 (TheBlock (ar_p a))) by (eapply owns_sub; [exact Hb|lia..]).
    assert (Hc : changes (own v) [TheBlock (ar_p a)] (p_mem t) (put 8 (ar_addr a + k) x (p_mem t)))
      by (apply (changes_put _ _ _ _ _ (TheBlock (ar_p a)) 8); [exact Ho|set_solver]).
    csplit; trivial.
    - apply store_done. intros y Hy. apply (owned_mapped t v It _ _ _ Ho); [discriminate|lia].
    - split; [|apply (env_still t); [reflexivity|apply It]].
      apply (mem_put _ _ _ _ (proj1 It) (ar_p a) _ 8 _ (TheBlock (ar_p a))); [rewrite El; set_solver|exact Ho|auto].
    - eapply area_in_changes; [exact Hc|set_solver|exact Hat]. }
  unfold set_guards. rewrite E8, (wrap_small 64 (ar_size a - 32)) by (unfold is_word; lia). fold w1.
  destruct (Hput (ar_p a) 0 s I Ha eq_refl) as (F1 & I1 & A1 & C1); [lia..|].
  rewrite Z.add_0_r in F1, I1, A1, C1. rewrite (bind_done _ _ _ _ _ F1).
  destruct (Hput w1 8 _ I1 A1 eq_refl) as (F2 & I2 & A2 & C2); [lia..|]. rewrite (bind_done _ _ _ _ _ F2).
  destruct (Hput GUARD_MAGIC 16 _ I2 A2 eq_refl) as (F3 & I3 & A3 & C3); [lia..|]. rewrite (bind_done _ _ _ _ _ F3).
  destruct (Hput GUARD_MAGIC (ar_size a - 8) _ I3 A3 eq_refl) as (F4 & I4 & A4 & C4); [lia..|]. rewrite F4.
  eexists. split; [reflexivity|]. split; [reflexivity|]. split.
  { eapply changes_trans; [exact C1|]. eapply changes_trans; [exact C2|]. eapply changes_trans; [exact C3|exact C4]. }
  split; [intros y Hy; simpl; rewrite !byte_put_other by lia; reflexivity|].
  split; [|apply (env_still s); [reflexivity|apply I]]. simpl.
  apply (mem_push_live _ _ _ _ (proj1 I4) a L El); [exact A4|]. simpl.
  rewrite Z.add_sub_assoc. split; trivial; repeat first [rewrite word_put_same by (unfold is_word, w1, GUARD_MAGIC; lia)|
    rewrite word_put_other by lia]; trivial.
Qed.

(** ** The lock *)

Definition unlocked : tUserSem := mkUserSem 0 1.
Definition locked : tUserSem := mkUserSem 0 0.

Lemma heap_inv_sem s v f : heap_inv s v -> heap_inv (on_heapSem f s) v.
Proof. intros [Hm [H1 Hal H2 H3 H4]]. split; [exact Hm|]. split; trivial. Qed.

Lemma usemdown_done s :
  heapSem (p_heap s) = unlocked -> usemdown s = Done tt (on_heapSem (fun _ => locked) s).
Proof. intros H. unfold usemdown. rewrite H. reflexivity. Qed.

Lemma usemup_done s :
  heapSem (p_heap s) = locked -> usemup s = Done tt (on_heapSem (fun _ => unlocked) s).
Proof. intros H. unfold usemup. rewrite H. reflexivity. Qed.

Lemma preserves_lock A s s' v v' :
  heapSem (p_heap s) = unlocked -> preserves A (on_heapSem (fun _ => locked) s) v s' v' ->
  preserves A s v (on_heapSem (fun _ => unlocked) s') v' /\ heapSem (p_heap s') = locked.
Proof.
  intros Hs [H1 H2 H3 H4]. injection H4 as R1 R2 R3 R4. split; [|exact R3].
  split; trivial. simpl in *. congruence.
Qed.

(** The heap between two calls: the lock is free, and the areas fit into the pages. *)
Record heap_ready (s : process) (v : view) : Prop := {
  hr_inv : heap_inv s v;
  hr_lock : heapSem (p_heap s) = unlocked;
  hr_fits : total (usable v) + total (live v) <= PAGE_SIZE * pageCount (p_heap s)
}.

Lemma length_total l : (forall a, a ∈ l -> 8 <= ar_size a) -> 8 * Z.of_nat (length l) <= total l.
Proof.
  induction l as [|a l IH]; intros H; simpl; [lia|].
  specialize (IH ltac:(set_solver)). pose proof (H a ltac:(set_solver)). unfold total in *. simpl. lia.
Qed.

Lemma areas_min s v a : heap_inv s v -> a ∈ usable v ++ live v -> 8 <= ar_size a.
Proof. intros [Im _] Ha. apply (ai_min _ _ _ (mi_areas _ _ _ _ Im a Ha)). Qed.

(** The lists are shorter than the bound of the loops. *)
Lemma usable_length s v :
  heap_inv s v -> total (usable v) + total (live v) <= PAGE_SIZE * pageCount (p_heap s) ->
  Z.of_nat (length (usable v)) < 2 ^ 64.
Proof.
  intros I Hf. pose proof (length_total (usable v) ltac:(intros; eapply areas_min; set_solver)).
  pose proof (length_total (live v) ltac:(intros; eapply areas_min; set_solver)).
  destruct (proj2 I) as [_ _ [H1 _] (H2 & H3 & [[H4 _]|H4]) _]; unfold PAGE_SIZE in *; lia.
Qed.

(** The size with the words around the block, when it does not overflow. *)
Definition block_size (size : Z) : Z := (size + 7) / 8 * 8 + 32.

Lemma round_up_8 size : 0 < size <= 2 ^ 64 - 40 -> ROUND_UP size 8 +o 32 = block_size size.
Proof.
  intros Hs. unfold ROUND_UP. rewrite (wrap_small 64 (size + 8)), (wrap_small 64 (size + 8 - 1)) by (unfold is_word; lia).
  change (not64 (8 -o 1)) with (wnot 64 (2 ^ 3 - 1)). rewrite land_not_mask by (unfold is_word; lia).
  unfold block_size. change (2 ^ 3) with 8. rewrite wrap_small.
  - replace (size + 8 - 1) with (size + 7) by lia. rewrite (Z.div_mod (size + 7) 8) at 1 by lia. lia.
  - unfold is_word. Z.div_mod_to_equations. lia.
Qed.

Lemma block_size_spec size :
  0 < size <= 2 ^ 64 - 40 ->
  32 + size <= block_size size < size + 40 /\ block_size size mod 8 = 0 /\ block_size size < 2 ^ 64.
Proof. intros H. unfold block_size. Z.div_mod_to_equations. lia. Qed.

(** ** [malloc] *)

(** The result of [malloc]: NULL, or a new block for which [size] bytes suffice. *)
Definition allocated (v v' : view) (size r : Z) : Prop :=
  r = 0 /\ live v' = live v \/
  exists a, live v' = a :: live v /\ r = ar_addr a + 24 /\ ar_size a = size.

(** The end of [malloc], with the lock held and the area taken out of the usable list. *)
Lemma malloc_finish s v a L size :
  heap_inv s v -> heapSem (p_heap s) = locked -> limbo v = ar_p a :: L ->
  area_in (p_mem s) (own v) a -> 32 <= size <= ar_size a -> size mod 8 = 0 ->
  total (usable v) + ar_size a + total (live v) <= PAGE_SIZE * pageCount (p_heap s) ->
  exists r s' v',
    (ok ← split_area (ar_p a) size;
     if negb ok then usemup;; mret 0 else
     begin ← get_address (ar_p a);
     set_guards begin (ar_p a) size;;
     usemup;;
     mret (begin + 24)) s = Done r (on_heapSem (fun _ => unlocked) s') /\
    heap_inv s' v' /\ preserves (live v) s v s' v' /\ allocated v v' size r /\
    total (usable v') + total (live v') <= PAGE_SIZE * pageCount (p_heap s').
Proof.
  intros I Hl El Ha Hs H8 Hf.
  destruct (split_area_done s v a size L I El Ha ltac:(lia) H8)
    as (ok & s1 & v1 & E1 & I1 & P1 & L1 & Lb1 & Pc & H1).
  rewrite (bind_done _ _ _ _ _ E1). pose proof (pr_rest _ _ _ _ _ P1) as R1. injection R1 as _ _ R1 _.
  destruct ok; cbn [negb].
  2: { exists 0, s1, v1. rewrite (bind_done _ _ _ _ _ (usemup_done s1 ltac:(congruence))).
       csplit; trivial; [left; auto|]. rewrite H1, L1. pose proof (ai_min _ _ _ Ha). unfold PAGE_SIZE in *. lia. }
  destruct H1 as [Ha1 Ht]. set (b := mkarea (ar_p a) (ar_addr a) size) in *.
  assert (Hp : ar_p a ∈ structs v1) by (unfold structs; rewrite Lb1; set_solver).
  rewrite (bind_done _ _ _ _ _ (get_address_done s1 v1 I1 _ Hp)), (ai_addr _ _ _ Ha1 : word_at _ (ar_p a + 8) = _).
  destruct (set_guards_done s1 v1 b L I1 Lb1 Ha1 ltac:(simpl; lia)) as (s2 & E2 & S2 & C2 & _ & I2).
  simpl in E2 |- *. rewrite (bind_done _ _ _ _ _ E2).
  assert (Hk : heapSem (p_heap s2) = locked /\ pageCount (p_heap s2) = pageCount (p_heap s1)).
  { unfold still, frame_of in S2. injection S2 as _ _ _ _ _ Q6 Q7 _. split; congruence. }
  destruct Hk as [Hk1 Hk2]. rewrite (bind_done _ _ _ _ _ (usemup_done s2 Hk1)).
  eexists _, s2, _. split; [reflexivity|]. split; [exact I2|]. split; [|split].
  - eapply preserves_trans; [exact P1|]. eapply changes_preserves; [exact S2|exact C2|set_solver| |trivial].
    intros c Hc Hin%list_elem_of_singleton. injection Hin as Hin.
    apply (limbo_not_live _ _ _ _ (ar_p a) c (proj1 I)); [rewrite El; set_solver|exact Hc|exact Hin].
  - right. exists b. simpl. rewrite L1. auto.
  - cbn [usable live]. simpl total. rewrite Hk2, Ht, L1. simpl. unfold total in *. unfold PAGE_SIZE in *. lia.
Qed.

(** The head of the usable list is taken out. *)
Lemma take_head s v a U :
  heap_inv s v -> usable v = a :: U ->
  exists s', (area ← get_usable; n ← get_next area; set_usable n;; mret area) s = Done (ar_p a) s' /\
    still s s' /\ p_mem s' = p_mem s /\
    heap_inv s' (mkview U (live v) (spare v) (ar_p a :: limbo v) (own v)).
Proof.
  intros I Eu. assert (Hh : usableList (p_heap s) = ar_p a).
  { pose proof (mi_usable _ _ _ _ (proj1 I)) as H. rewrite Eu in H. apply H. }
  assert (Hp : ar_p a ∈ structs v) by (apply in_structs; rewrite Eu; set_solver).
  rewrite bind_get_usable, Hh, (bind_done _ _ _ _ _ (get_next_done s v I _ Hp)).
  rewrite (bind_done _ _ _ _ _ (set_usable_done _ s)). eexists. csplit; try reflexivity.
  apply heap_lists; [|apply I]. exact (mem_unlink_head _ _ _ v [] a U (proj1 I) Eu eq_refl).
Qed.

Lemma take_area_done s v size :
  heap_inv s v -> total (usable v) + total (live v) <= PAGE_SIZE * pageCount (p_heap s) ->
  0 < size < 2 ^ 64 ->
  exists q s' v', take_area size s = Done q s' /\ heap_inv s' v' /\ preserves (live v) s v s' v' /\
    live v' = live v /\
    if q =? 0 then total (usable v') + total (live v') <= PAGE_SIZE * pageCount (p_heap s')
    else exists a, q = ar_p a /\ limbo v' = ar_p a :: limbo v /\ area_in (p_mem s') (own v') a /\
      size <= ar_size a /\
      total (usable v') + ar_size a + total (live v') <= PAGE_SIZE * pageCount (p_heap s').
Proof.
  intros I Hf Hs. destruct (find_fit_done s v I size (usable_length s v I Hf)) as (pr & q & E & H).
  unfold take_area. rewrite (bind_done _ _ _ _ _ E). destruct (q =? 0) eqn:Eq.
  - destruct (loadNewSpace_done s v size I Hs) as (ok & s1 & v1 & E1 & I1 & X1 & H1).
    rewrite (bind_done _ _ _ _ _ E1). pose proof (extends_preserves (live v) _ _ _ _ X1) as P1.
    pose proof (ex_pages _ _ _ _ X1). pose proof (ex_live _ _ _ _ X1) as Hlv. pose proof (ex_limbo _ _ _ _ X1) as Hlb.
    destruct ok; cbn [negb].
    2: { exists 0, s1, v1. csplit; trivial. simpl. rewrite H1, Hlv. unfold PAGE_SIZE in *. lia. }
    destruct H1 as (a & U1 & Ha & Hpc).
    destruct (take_head s1 v1 a (usable v) I1 U1) as (s2 & E2 & S2 & M2 & I2).
    assert (Hz : ar_p a <> 0).
    { assert (Hp : ar_p a ∈ structs v1) by (apply in_structs; rewrite U1; set_solver).
      pose proof (struct_bounds s1 v1 I1 _ Hp). lia. }
    exists (ar_p a), s2, (mkview (usable v) (live v1) (spare v1) (ar_p a :: limbo v1) (own v1)).
    split; [exact E2|]. split; [exact I2|]. split; [|split; [exact Hlv|]].
    + eapply preserves_trans; [exact P1|].
      eapply changes_preserves; [exact S2|rewrite M2; apply (changes_refl _ [])|set_solver..].
    + rewrite (proj2 (Z.eqb_neq _ _) Hz). exists a. cbn [limbo usable live own]. rewrite Hlb, Hlv, M2.
      csplit; trivial.
      * apply (usable_area s1 v1 I1). rewrite U1. set_solver.
      * unfold still, frame_of in S2. injection S2 as _ _ _ _ _ Q6 _ _. rewrite Q6. unfold PAGE_SIZE in *. lia.
  - destruct H as (X & a & Y & Eu & -> & -> & Ha & _).
    assert (Hin : a ∈ usable v) by (rewrite Eu; set_solver).
    assert (Hp : ar_p a ∈ structs v) by (apply in_structs; set_solver).
    rewrite (bind_done _ _ _ _ _ (get_next_done s v I _ Hp)).
    destruct (unlink_done s _ _ _ v X a Y (proj1 I) (proj2 I) Eu) as (m1 & ul1 & E1 & Im1 & B1 & W1 & _).
    rewrite with_lists_self in E1. rewrite (bind_done _ _ _ _ _ E1).
    eexists _, _, _. split; [reflexivity|]. split; [apply heap_lists; [exact Im1|apply I]|].
    split; [|split; [reflexivity|]].
    + eapply changes_preserves; [reflexivity|exact B1|set_solver..].
    + rewrite Eq. exists a. csplit; trivial; cbn [usable live unlinked].
      * pose proof (usable_area s v I a Hin) as [A1 A2 A3 A4 A5 A6 A7]. destruct (W1 _ Hp) as [W1' W2'].
        split; trivial; simpl; congruence.
      * rewrite Eu, total_app in Hf. simpl in Hf. rewrite total_app. unfold total in *. simpl. lia.
Qed.

(** [malloc] for a request that is rounded to [sz] bytes, guards included. *)
Lemma malloc_rounded s v size sz :
  heap_ready s v -> size <> 0 -> ROUND_UP size 8 +o 32 = sz -> 32 <= sz < 2 ^ 64 -> sz mod 8 = 0 ->
  exists r s' v', malloc size s = Done r s' /\ heap_ready s' v' /\ preserves (live v) s v s' v' /\
    allocated v v' sz r.
Proof.
  intros [I Hl Hf] Hs Hsz Hb1 Hb2. unfold malloc. rewrite (proj2 (Z.eqb_neq size 0)) by exact Hs.
  rewrite (bind_done _ _ _ _ _ (usemdown_done s Hl)), Hsz. cbv zeta.
  set (s0 := on_heapSem (fun _ => locked) s).
  destruct (take_area_done s0 v sz) as (q & s1 & v1 & E1 & I1 & P1 & L1 & H1);
    [apply heap_inv_sem, I|exact Hf|lia|]. rewrite (bind_done _ _ _ _ _ E1).
  destruct (preserves_lock (live v) s s1 v v1 Hl P1) as [P1' Hk1]. destruct (q =? 0) eqn:Eq.
  - rewrite (bind_done _ _ _ _ _ (usemup_done s1 Hk1)). eexists _, _, v1. split; [reflexivity|].
    split; [split; [apply heap_inv_sem, I1|reflexivity|exact H1]|]. split; [exact P1'|]. left. auto.
  - destruct H1 as (a & -> & Lb & Ha & Hasz & Hf1).
    destruct (malloc_finish s1 v1 a (limbo v) sz I1 Hk1 Lb Ha ltac:(lia) Hb2 Hf1)
      as (r & s2 & v2 & E2 & I2 & P2 & A2 & Hf2). rewrite E2. rewrite L1 in P2.
    destruct (preserves_lock (live v) s s2 v v2 Hl (preserves_trans _ _ _ _ _ _ _ P1 P2)) as [P2' Hk2].
    eexists _, _, v2. split; [reflexivity|].
    split; [split; [apply heap_inv_sem, I2|reflexivity|exact Hf2]|]. split; [exact P2'|].
    unfold allocated in *. rewrite L1 in A2. exact A2.
Qed.

Lemma malloc_done s v size :
  heap_ready s v -> 0 < size <= 2 ^ 64 - 40 ->
  exists r s' v', malloc size s = Done r s' /\ heap_ready s' v' /\ preserves (live v) s v s' v' /\
    allocated v v' (block_size size) r.
Proof.
  intros R Hs. destruct (block_size_spec size Hs) as (Hb1 & Hb2 & Hb3).
  apply malloc_rounded; trivial; [lia|apply round_up_8, Hs|lia].
Qed.
