(* ===== verification/HeapFree.v ===== *)
(** * Freeing blocks

    [free] and [realloc] of lib/c/stdlib/heap.c on the invariant of HeapInv.v: a freed block
    is merged with the usable areas before and behind it, and nothing else changes. *)

From Stdlib Require Import ZArith Lia Bool.
From stdpp Require Import base list numbers option gmap.
From S2P Require Import Prelude CMem MemOps Heap HeapInv HeapSpec.

Lemma area_bounds s v a :
  heap_inv s v -> area_in (p_mem s) (own v) a ->
  0 < ar_addr a /\ ar_addr a + ar_size a <= 2 ^ 47 /\ 8 <= ar_size a.
Proof.
  intros I Ha. pose proof (ai_min _ _ _ Ha).
  destruct (owned_bounds s v I _ _ _ (ai_block _ _ _ Ha)) as (B1 & B2 & B3); [discriminate|lia|]. lia.
Qed.

(** ** Guards *)

Section Guards.
Context (s : process) (v : view) (I : heap_inv s v) (a : area) (Ha : a ∈ live v).

Lemma live_area : area_in (p_mem s) (own v) a.
Proof. apply (mi_areas _ _ _ _ (proj1 I)). set_solver. Qed.

Lemma live_guarded : guarded (p_mem s) a.
Proof. apply (mi_guards _ _ _ _ (proj1 I)), Ha. Qed.

Lemma live_struct : ar_p a ∈ structs v.
Proof. apply in_structs. set_solver. Qed.

Lemma live_bounds : 0 < ar_addr a /\ ar_addr a + ar_size a <= 2 ^ 47 /\ 32 <= ar_size a.
Proof.
  pose proof (g_min _ _ live_guarded). pose proof (area_bounds s v a I live_area). lia.
Qed.

Lemma live_load k : 0 <= k -> k + 8 <= ar_size a -> load64 (ar_addr a + k) s = Done (word_at (p_mem s) (ar_addr a + k)) s.
Proof.
  intros H1 H2. apply load_done. intros y Hy.
  apply (owned_mapped s v I _ _ _ (ai_block _ _ _ live_area)); [discriminate|lia].
Qed.

(** The area of an allocated block is not the mark of a freed one. *)
Lemma live_not_freed : ar_p a <> FREE_MAGIC.
Proof.
  intros E. pose proof (ei_align _ _ (proj2 I) (ar_p a) (ar_p a)) as Hal.
  rewrite (ai_own _ _ _ live_area (ar_p a)) in Hal by lia. specialize (Hal eq_refl).
  rewrite E in Hal. discriminate.
Qed.

Lemma check_guards_done : check_guards (ar_addr a) s = Done tt s.
Proof.
  destruct live_guarded as [G1 G2 G3 G4 G5]. destruct live_bounds as (B1 & B2 & B3).
  pose proof (ai_round _ _ _ live_area) as Hr. unfold check_guards.
  pose proof (live_load 0 ltac:(lia) ltac:(lia)) as L0. rewrite Z.add_0_r in L0.
  rewrite (bind_done _ _ _ _ _ L0), G1, (proj2 (Z.eqb_neq _ _) live_not_freed), bind_vassert by reflexivity.
  rewrite (bind_done _ _ _ _ _ (live_load 16 ltac:(lia) ltac:(lia))), G3, Z.eqb_refl, bind_vassert by reflexivity.
  rewrite (bind_done _ _ _ _ _ (live_load 8 ltac:(lia) ltac:(lia))), G2.
  replace (8 * ((ar_size a - 32) / 8 +o 3)) with (ar_size a - 8).
  2: { rewrite wrap_small by (unfold is_word; Z.div_mod_to_equations; lia). Z.div_mod_to_equations. lia. }
  rewrite (bind_done _ _ _ _ _ (live_load (ar_size a - 8) ltac:(lia) ltac:(lia))).
  rewrite Z.add_sub_assoc, G4, Z.eqb_refl. reflexivity.
Qed.
End Guards.

(** ** Neighbours *)

(** Where the code found a neighbour in the usable list: nowhere, or behind the area
    [before]. *)
Definition found (U : list area) (P : area -> Prop) (nb before : Z) : Prop :=
  nb = 0 \/ exists X b Y, U = X ++ b :: Y /\ P b /\ nb = ar_p b /\ before = prev_of X.

Definition ends_at (x : Z) (b : area) : Prop := ar_addr b + ar_size b = x.
Definition starts_at (x : Z) (b : area) : Prop := ar_addr b = x.

(** An area among [U] that touches the block of [a] has been found. *)
Definition missed (U : list area) (a : area) (nb : neighbours) : Prop :=
  (prev nb = 0 -> Forall (fun b => ~ ends_at (ar_addr a) b) U) /\
  (next nb = 0 -> Forall (fun b => ~ starts_at (ar_addr a + ar_size a) b) U).

Lemma find_neighbours_done s v a :
  heap_inv s v -> Z.of_nat (length (usable v)) < 2 ^ 64 -> ar_p a ∈ structs v ->
  area_in (p_mem s) (own v) a ->
  exists nb, find_neighbours (ar_addr a) (ar_p a) s = Done nb s /\
    found (usable v) (ends_at (ar_addr a)) (prev nb) (pprev nb) /\
    found (usable v) (starts_at (ar_addr a + ar_size a)) (next nb) (nprev nb) /\
    missed (usable v) a nb.
Proof.
  intros I Hlen Hps Ha. unfold find_neighbours. rewrite bind_get_usable.
  set (Q := fun nb => found (usable v) (ends_at (ar_addr a)) (prev nb) (pprev nb) /\
    found (usable v) (starts_at (ar_addr a + ar_size a)) (next nb) (nprev nb)).
  destruct (area_bounds s v a I Ha) as (A1 & A2 & A3).
  edestruct (fun body => loop_bounded body
    (fun n '(tprev, c, nb) s' => s' = s /\ Q nb /\ exists X Y, at_position (usable v) X Y tprev c /\ n = Z.of_nat (length Y) /\ missed X a nb)
    (fun nb s' => s' = s /\ Q nb /\ missed (usable v) a nb) (Z.of_nat (length (usable v))) (0, usableList (p_heap s), mknb 0 0 0 0) s)
    as (nb & s' & E & -> & HQ & HM).
  4: { exists nb. split; [exact E|]. unfold Q in HQ. tauto. }
  - intros n [[tprev c] nb] s' (-> & HQ & X & Y & Hp & -> & HM). split; [lia|].
    pose proof (walk_end s v I X Y tprev c Hp) as He. destruct (c =? 0) eqn:Ez.
    { right. eexists _, s. split; [reflexivity|]. destruct Hp as (Eu & _). rewrite (proj1 He), app_nil_r in Eu. rewrite Eu. auto. }
    destruct He as (b & Y' & -> & -> & Hb & Hs). pose proof Hp as (Eu & Et & _).
    pose proof (usable_area s v I b Hb) as Hab.
    destruct (area_bounds s v b I Hab) as (B1 & B2 & B3).
    rewrite (bind_done _ _ _ _ _ (get_address_done s v I _ Hs)), (bind_done _ _ _ _ _ (get_size_done s v I _ Hs)).
    rewrite (ai_addr _ _ _ Hab), (ai_size _ _ _ Hab), (bind_done _ _ _ _ _ (get_size_done s v I _ Hps)), (ai_size _ _ _ Ha).
    rewrite !(wrap_small 64) by (unfold is_word; lia).
    set (nb1 := if _ =? ar_addr a then _ else nb).
    set (nb2 := if _ =? _ then mknb (prev nb1) (pprev nb1) _ _ else nb1).
    assert (HQ2 : Q nb2).
    { destruct HQ as [HQ1 HQ2]. unfold nb2, nb1.
      destruct (Z.eqb_spec (ar_addr b + ar_size b) (ar_addr a)), (Z.eqb_spec (ar_addr b) (ar_addr a + ar_size a));
        split; trivial; simpl; right; exists X, b, Y'; auto. }
    assert (HM2 : missed (X ++ [b]) a nb2).
    { pose proof (struct_bounds s v I (ar_p b) Hs). destruct HM as [HM1 HM2]. unfold nb2, nb1.
      destruct (Z.eqb_spec (ar_addr b + ar_size b) (ar_addr a)), (Z.eqb_spec (ar_addr b) (ar_addr a + ar_size a));
        split; cbn [prev next]; intros H0; try lia; (apply Forall_app; split; [auto|apply Forall_singleton; assumption]). }
    cbv zeta. fold nb1. fold nb2. destruct (truth (prev nb2) && truth (next nb2)) eqn:Et2.
    + right. eexists _, s. split; [reflexivity|]. split; [reflexivity|]. split; [exact HQ2|].
      apply andb_true_iff in Et2 as [T1%negb_true_iff%Z.eqb_neq T2%negb_true_iff%Z.eqb_neq]. split; intros; contradiction.
    + left. rewrite (bind_done _ _ _ _ _ (get_next_done s v I _ Hs)).
      eexists (_, _, _), s, (Z.of_nat (length Y')). split; [reflexivity|]. split; [|simpl; lia].
      split; [reflexivity|]. split; [exact HQ2|]. exists (X ++ [b]), Y'. split; [eapply walk_next; eassumption|auto].
  - split; [reflexivity|]. split; [split; left; reflexivity|]. exists [], (usable v). split; [apply walk_start, I|]. split; [reflexivity|].
    split; constructor.
  - exact Hlen.
Qed.

(** ** Merging

    In the following an area [a] without a list (the freed one) is the first in limbo. *)

(** The structure of a goes to the unused ones. *)
Lemma release_done s m ul fl v p L :
  mem_inv m ul fl v -> env_inv s (own v) -> limbo v = p :: L ->
  exists m', release_area p (with_lists m ul fl s) = Done tt (with_lists m' ul p s) /\
    mem_inv m' ul p (mkview (usable v) (live v) (p :: spare v) L (own v)) /\
    changes (own v) [TheArea p] m m'.
Proof.
  intros Im Ie El. assert (Hp : p ∈ structs v) by (unfold structs; rewrite El; set_solver).
  pose proof (struct_owned m ul fl v Im _ Hp) as Ho.
  assert (Ho' : owns (own v) (p + 16) 8 (TheArea p)) by (eapply owns_sub; [exact Ho|lia..]).
  exists (put 8 (p + 16) fl m). split; [|split].
  - unfold release_area. rewrite bind_get_free. rewrite (bind_set_next _ _ _ _ _ Im Ie) by exact Hp. reflexivity.
  - assert (Im' : mem_inv (put 8 (p + 16) fl m) ul fl v).
    { apply (mem_put _ _ _ _ Im p _ 8 _ (TheArea p)); [rewrite El; set_solver|exact Ho'|auto]. }
    apply (mem_push_spare _ _ _ _ Im' p L El). apply word_put_same, (spare_octa s m ul fl v Im Ie).
  - apply (changes_put _ _ _ _ _ (TheArea p) 8); [exact Ho'|set_solver].
Qed.

(** Accesses to a structure whose area is being changed. *)
Section Raw.
Context (s : process) (m : arr) (ul fl : Z) (o : Z -> owner) (p : Z).
Context (Ie : env_inv s o) (Ho : owns o p 24 (TheArea p)).

Lemma raw_mapped k n : 0 <= k -> k + Z.of_nat n <= 24 -> forall y, p + k <= y < p + k + Z.of_nat n -> p_mapped s y = true.
Proof. intros H1 H2 y Hy. apply (ei_owned _ _ Ie). rewrite Ho by lia. discriminate. Qed.

Lemma raw_get_size {B} (k : Z -> C B) :
  (get_size p ≫= k) (with_lists m ul fl s) = k (word_at m p) (with_lists m ul fl s).
Proof. apply bind_load. intros y Hy. apply (raw_mapped 0 8); lia. Qed.

Lemma raw_set_size x : set_size p x (with_lists m ul fl s) = Done tt (with_lists (put 8 p x m) ul fl s).
Proof. apply (store_done 8 p x). intros y Hy. apply (raw_mapped 0 8); lia. Qed.
End Raw.

(** The block of [a], the areas [B] before it and [N] behind it have become one usable area. *)
Definition joins (U : list area) (a : area) (B N U' : list area) : Prop :=
  exists R a', U ≡ₚ B ++ N ++ R /\ U' ≡ₚ a' :: R /\
    ar_addr a' = ar_addr a - total B /\ ar_size a' = total B + ar_size a + total N.

#[export] Instance total_proper : Proper ((≡ₚ) ==> (=)) total.
Proof. induction 1; unfold total in *; simpl; lia. Qed.

Lemma joins_total U a B N U' : joins U a B N U' -> total U' = total U + ar_size a.
Proof. intros (R & a' & -> & -> & _ & Hs). rewrite !total_app. unfold total in *. simpl. lia. Qed.

(** What the cases of [free] have in common: the block is usable again, and only structures have
    changed. *)
Record merged (s : process) (m : arr) (v : view) (L : list Z) (a : area) (B N : list area) (m' : arr) (v' : view) : Prop := {
  mg_env : env_inv s (own v');
  mg_live : live v' = live v;
  mg_limbo : limbo v' = L;
  mg_joins : joins (usable v) a B N (usable v');
  mg_data : forall y, (forall p, own v y <> TheArea p) -> byte_at m' y = byte_at m y;
  mg_own : forall y, protected (live v) v y -> own v' y = own v y
}.

Section Merge.
Context (s : process) (m : arr) (ul fl : Z) (v : view) (a : area) (L : list Z).
Context (Im : mem_inv m ul fl v) (Ie : env_inv s (own v)).
Context (El : limbo v = ar_p a :: L) (Ha : area_in m (own v) a).

Let It : heap_inv (with_lists m ul fl s) v := heap_lists m ul fl v s Im Ie.

Lemma limbo_struct : ar_p a ∈ structs v.
Proof. unfold structs. rewrite El. set_solver. Qed.

(** The block changes hands. *)
Definition own_given (q : Z) : Z -> owner := own_block (ar_addr a) (ar_size a) q (own v).

Lemma own_given_cases q y : own_given q y = own v y \/ own v y = TheBlock (ar_p a).
Proof.
  unfold own_given. destruct (Z_lt_le_dec y (ar_addr a)); [left; apply own_block_out; auto|].
  destruct (Z_lt_le_dec y (ar_addr a + ar_size a)); [|left; apply own_block_out; auto].
  right. apply (ai_block _ _ _ Ha). lia.
Qed.

Lemma given_inv q :
  mem_inv m ul fl (mkview (usable v) (live v) (spare v) (limbo v) (own_given q)) /\ env_inv s (own_given q).
Proof.
  split.
  - apply mem_reown; [exact Im|]. intros y. destruct (own_given_cases q y) as [?|?]; [auto|].
    right. right. exists (ar_p a). rewrite El. split; [set_solver|trivial].
  - apply (env_reown s (own v)); [|apply own_block_area|exact Ie].
    intros y Hy. destruct (own_given_cases q y); congruence.
Qed.

Lemma given_protected q A y :
  (forall b, b ∈ A -> b ∈ live v) -> protected A v y -> own_given q y = own v y.
Proof.
  intros HA Hy. destruct (own_given_cases q y) as [|Hb]; [trivial|].
  destruct Hy as [Hy|(b & Hb1 & Hb2)]; [congruence|].
  destruct (limbo_not_live _ _ _ v (ar_p a) b Im); [rewrite El; set_solver|auto|congruence].
Qed.

(** Bytes of structures and of protected blocks keep their owner. *)
Lemma given_changes q W m' :
  changes (own_given q) W m m' -> (forall p, TheBlock p ∉ W) -> changes (own v) W m m'.
Proof.
  intros Hc HW y Hy. apply Hc. destruct (own_given_cases q y) as [->|Hb]; [trivial|].
  unfold own_given, own_block. destruct (_ && _); auto.
Qed.

Lemma given_data q W m' :
  changes (own_given q) W m m' -> (forall w, w ∈ W -> exists p, w = TheArea p) ->
  forall y, (forall p, own v y <> TheArea p) -> byte_at m' y = byte_at m y.
Proof.
  intros Hc HW y Hy. apply (given_changes q W m' Hc); [intros p Hp; destruct (HW _ Hp); congruence|].
  intros Hin. destruct (HW _ Hin) as [p Hp]. apply (Hy p Hp).
Qed.

(** Without a neighbour the area joins the usable list. *)
Lemma insert_done :
  exists m' ul' fl' v', insert_area (ar_p a) (with_lists m ul fl s) = Done tt (with_lists m' ul' fl' s) /\
    mem_inv m' ul' fl' v' /\ merged s m v L a [] [] m' v'.
Proof.
  destruct Ha as [A1 A2 A3 A4 A5 A6 A7].
  destruct (use_struct s m ul fl v a L Im Ie El A4 A5 A6 A7 A1 A2) as (m' & E & Im' & C).
  eexists m', _, _, _. split; [exact E|]. split; [exact Im'|]. split; trivial.
  - exists (usable v), a. csplit; [reflexivity..|unfold total; simpl; lia|unfold total; simpl; lia].
  - intros y Hy. apply C. intros Hin%list_elem_of_singleton. apply (Hy _ Hin).
Qed.

(** The usable area before the block grows. *)
Lemma merge_prev_done X b Y :
  usable v = X ++ b :: Y -> ends_at (ar_addr a) b ->
  exists m' ul' fl' v', merge_prev (ar_p a) (ar_p b) (with_lists m ul fl s) = Done tt (with_lists m' ul' fl' s) /\
    mem_inv m' ul' fl' v' /\ merged s m v L a [b] [] m' v'.
Proof.
  intros Eu Hb. assert (Hin : b ∈ usable v) by (rewrite Eu; set_solver).
  assert (Hab : area_in m (own v) b) by (apply (mi_areas _ _ _ _ Im); set_solver).
  assert (Hps : ar_p b ∈ structs v) by (apply in_structs; set_solver).
  destruct (area_bounds _ v a It Ha) as (A1 & A2 & A3). destruct (area_bounds _ v b It Hab) as (B1 & B2 & B3).
  destruct (given_inv (ar_p b)) as [Im1 Ie1].
  set (v1 := mkview _ _ _ _ _) in Im1. set (b' := mkarea (ar_p b) (ar_addr b) (ar_size b + ar_size a)).
  unfold merge_prev. rewrite (bind_get_size _ _ _ _ _ Im Ie) by exact Hps.
  rewrite (bind_get_size _ _ _ _ _ Im Ie) by exact limbo_struct. rewrite (ai_size _ _ _ Ha), (ai_size _ _ _ Hab).
  rewrite (bind_set_size _ _ _ _ _ Im Ie) by exact Hps. rewrite wrap_small by (unfold is_word; lia).
  set (m1 := put 8 (ar_p b) (ar_size b + ar_size a) m).
  assert (Ho : owns (own v1) (ar_p b) 24 (TheArea (ar_p b))) by (apply (struct_owned _ _ _ _ Im1); exact Hps).
  assert (C1 : changes (own v1) [TheArea (ar_p b)] m m1).
  { apply (changes_put _ _ _ _ _ (TheArea (ar_p b)) 8); [eapply owns_sub; [exact Ho|lia..]|set_solver]. }
  assert (Im2 : mem_inv m1 ul fl (mkview (X ++ b' :: Y) (live v1) (spare v1) (limbo v1) (own v1))).
  { apply (mem_modify _ _ _ _ Im1 X b Y b' m1 Eu eq_refl C1); [apply word_put_other; lia|].
    destruct Hab as [H1 H2 H3 H4 H5 H6 H7]. pose proof (ai_round _ _ _ Ha). split; simpl; trivial; try lia.
    - apply word_put_same. unfold is_word. lia.
    - unfold m1. rewrite word_put_other by lia. trivial.
    - unfold ends_at in Hb. intros y Hy. unfold own_given.
      destruct (Z_lt_le_dec y (ar_addr a)); [rewrite own_block_out by lia; apply H4; lia|apply own_block_in; lia].
    - Z.div_mod_to_equations. lia. }
  destruct (release_done s m1 ul fl _ (ar_p a) L Im2 Ie1 El) as (m2 & E2 & Im3 & C2).
  eexists m2, _, _, _. split; [exact E2|]. split; [exact Im3|]. split; trivial.
  - exists (X ++ Y), b'. unfold ends_at, total in *. rewrite Eu. simpl. csplit; try lia; symmetry; apply Permutation_middle.
  - apply (given_data (ar_p b) [TheArea (ar_p b); TheArea (ar_p a)] m2).
    + eapply changes_trans; [eapply changes_weaken; [|exact C1]|eapply changes_weaken; [|exact C2]]; set_solver.
    + intros w Hw. set_solver.
  - intros y Hy. apply (given_protected (ar_p b) (live v)); auto.
Qed.

(** The usable area behind the block grows downwards. *)
Lemma merge_next_done X b Y :
  usable v = X ++ b :: Y -> starts_at (ar_addr a + ar_size a) b ->
  exists m' ul' fl' v', merge_next (ar_p a) (ar_p b) (with_lists m ul fl s) = Done tt (with_lists m' ul' fl' s) /\
    mem_inv m' ul' fl' v' /\ merged s m v L a [] [b] m' v'.
Proof.
  intros Eu Hb. assert (Hin : b ∈ usable v) by (rewrite Eu; set_solver).
  assert (Hab : area_in m (own v) b) by (apply (mi_areas _ _ _ _ Im); set_solver).
  assert (Hps : ar_p b ∈ structs v) by (apply in_structs; set_solver).
  destruct (area_bounds _ v a It Ha) as (A1 & A2 & A3). destruct (area_bounds _ v b It Hab) as (B1 & B2 & B3).
  destruct (given_inv (ar_p b)) as [Im1 Ie1].
  set (v1 := mkview _ _ _ _ _) in Im1. set (b' := mkarea (ar_p b) (ar_addr a) (ar_size b + ar_size a)).
  pose proof (struct_owned _ _ _ _ Im _ Hps) as Hob. pose proof (struct_owned _ _ _ _ Im _ limbo_struct) as Hoa.
  assert (Hne : ar_p a <> ar_p b) by (apply (usable_not _ _ _ _ Im b); [trivial|rewrite El; set_solver]).
  unfold merge_next. rewrite (bind_get_address _ _ _ _ _ Im Ie) by exact limbo_struct.
  rewrite (ai_addr _ _ _ Ha), (bind_set_address _ _ _ _ _ Im Ie) by exact Hps.
  rewrite (raw_get_size s _ ul fl (own v) _ Ie Hob), (raw_get_size s _ ul fl (own v) _ Ie Hoa).
  rewrite word_put_other, (ai_size _ _ _ Hab) by lia.
  rewrite (word_other (own v) _ _ _ _ (TheArea (ar_p b)) (TheArea (ar_p a))), (ai_size _ _ _ Ha);
    [|eapply owns_sub; [eassumption|lia..]|eapply owns_sub; [eassumption|lia..]|congruence].
  rewrite (bind_done _ _ _ _ _ (raw_set_size s _ ul fl (own v) _ Ie Hob _)), wrap_small by (unfold is_word; lia).
  set (m1 := put 8 (ar_p b) (ar_size b + ar_size a) _).
  assert (Ho : owns (own v1) (ar_p b) 24 (TheArea (ar_p b))) by (apply (struct_owned _ _ _ _ Im1); exact Hps).
  assert (C1 : changes (own v1) [TheArea (ar_p b)] m m1).
  { apply (changes_trans _ _ _ (put 8 (ar_p b + 8) (ar_addr a) m));
      apply (changes_put _ _ _ _ _ (TheArea (ar_p b)) 8); try set_solver; (eapply owns_sub; [exact Ho|lia..]). }
  assert (Im2 : mem_inv m1 ul fl (mkview (X ++ b' :: Y) (live v1) (spare v1) (limbo v1) (own v1))).
  { apply (mem_modify _ _ _ _ Im1 X b Y b' m1 Eu eq_refl C1); [unfold m1; rewrite !word_put_other by lia; trivial|].
    destruct Hab as [H1 H2 H3 H4 H5 H6 H7]. pose proof (ai_round _ _ _ Ha). pose proof (ai_align _ _ _ Ha).
    split; simpl; trivial; try lia.
    - apply word_put_same. unfold is_word. lia.
    - unfold m1. rewrite word_put_other by lia. apply word_put_same. unfold is_word. lia.
    - unfold starts_at in Hb. intros y Hy. unfold own_given.
      destruct (Z_lt_le_dec y (ar_addr b)); [apply own_block_in; lia|rewrite own_block_out by lia; apply H4; lia].
    - Z.div_mod_to_equations. lia. }
  destruct (release_done s m1 ul fl _ (ar_p a) L Im2 Ie1 El) as (m2 & E2 & Im3 & C2).
  eexists m2, _, _, _. split; [exact E2|]. split; [exact Im3|]. split; trivial.
  - exists (X ++ Y), b'. unfold total. rewrite Eu. simpl. csplit; try lia; symmetry; apply Permutation_middle.
  - apply (given_data (ar_p b) [TheArea (ar_p b); TheArea (ar_p a)] m2).
    + eapply changes_trans; [eapply changes_weaken; [|exact C1]|eapply changes_weaken; [|exact C2]]; set_solver.
    + intros w Hw. set_solver.
  - intros y Hy. apply (given_protected (ar_p b) (live v)); auto.
Qed.
End Merge.

(** ** Merging with both neighbours *)

Lemma prev_of_in X : prev_of X = 0 \/ exists x, x ∈ X /\ prev_of X = ar_p x.
Proof.
  destruct (snoc_cases X) as [->|(X' & x & ->)]; [left; reflexivity|].
  right. exists x. rewrite prev_of_snoc. set_solver.
Qed.

(** After [c] has been unlinked, the area before [b] is the one the code computes. *)
Lemma unlink_twice X b Y X' c Y' :
  X ++ b :: Y = X' ++ c :: Y' -> NoDup (ar_p <$> X ++ b :: Y) -> ar_p b <> ar_p c -> ar_p c <> 0 ->
  exists X1 Y1, X' ++ Y' = X1 ++ b :: Y1 /\
    prev_of X1 = if prev_of X =? ar_p c then prev_of X' else prev_of X.
Proof.
  intros E Hn Hbc Hz. pose proof E as E'. apply app_eq_app in E' as [l [[EX El]|[EX El]]].
  - destruct l as [|c' M]; [injection El as -> ->; contradiction|]. injection El as <- ->. exists (X' ++ M), Y.
    split; [rewrite <- app_assoc; reflexivity|]. destruct (snoc_cases M) as [->|(M' & x & ->)].
    + rewrite EX, prev_of_snoc, Z.eqb_refl, app_nil_r. reflexivity.
    + rewrite EX. change (c :: M' ++ [x]) with ((c :: M') ++ [x]). rewrite !app_assoc, !prev_of_snoc.
      rewrite (proj2 (Z.eqb_neq _ _)); [reflexivity|]. intros Ex. rewrite EX in Hn.
      rewrite !fmap_app, !fmap_cons, !fmap_app in Hn. change (ar_p <$> [x]) with [ar_p x] in Hn.
      rewrite Ex in Hn. apply nodup_count with (x := ar_p c) in Hn. count_open Hn. count_cases.
  - destruct l as [|b' M]; [injection El as <- <-; contradiction|]. injection El as <- ->. exists X, (M ++ Y').
    split; [rewrite EX, <- app_assoc; reflexivity|].
    rewrite (proj2 (Z.eqb_neq _ _)); [reflexivity|]. intros Ex.
    destruct (prev_of_in X) as [H0|(x & Hx & H0)]; [congruence|].
    apply (list_elem_of_fmap_2 ar_p), elem_count in Hx. rewrite <- H0, Ex in Hx.
    apply nodup_count with (x := ar_p c) in Hn. count_open Hn. count_cases.
Qed.

(** The structures of the usable areas occur once. *)
Lemma usable_nodup m ul fl v : mem_inv m ul fl v -> NoDup (ar_p <$> usable v).
Proof. intros Im. pose proof (mi_nodup _ _ _ _ Im) as H. apply NoDup_app in H. apply H. Qed.

(** Both neighbours leave the usable list. *)
Lemma unlink_both s m ul fl v X b Y X' c Y' :
  mem_inv m ul fl v -> env_inv s (own v) -> usable v = X ++ b :: Y -> usable v = X' ++ c :: Y' ->
  ar_p b <> ar_p c ->
  exists m' ul' U, (forall B (k : C B),
      (nn ← get_next (ar_p c);
       set_link (prev_of X') nn;;
       pn ← get_next (ar_p b);
       (if prev_of X =? ar_p c then set_link (prev_of X') pn else set_link (prev_of X) pn);;
       k) (with_lists m ul fl s) = k (with_lists m' ul' fl s)) /\
    mem_inv m' ul' fl (mkview U (live v) (spare v) (ar_p b :: ar_p c :: limbo v) (own v)) /\
    usable v ≡ₚ b :: c :: U /\
    (forall y, (forall p, own v y <> TheArea p) -> byte_at m' y = byte_at m y) /\
    (forall p, p ∈ structs v -> word_at m' p = word_at m p /\ word_at m' (p + 8) = word_at m (p + 8)).
Proof.
  intros Im Ie Eb Ec Hne.
  assert (Hbs : ar_p b ∈ structs v) by (apply in_structs; rewrite Eb; set_solver).
  assert (Hcs : ar_p c ∈ structs v) by (apply in_structs; rewrite Ec; set_solver).
  destruct (unlink_twice X b Y X' c Y') as (X1 & Y1 & E1 & Hpr); [congruence| |trivial| |].
  { rewrite <- Eb. exact (usable_nodup _ _ _ _ Im). }
  { pose proof (struct_pos _ _ _ _ _ Im Ie _ Hcs). lia. }
  destruct (unlink_done s m ul fl v X' c Y' Im Ie Ec) as (m1 & ul1 & L1 & Im1 & B1 & W1 & _).
  assert (Hbs1 : ar_p b ∈ structs (unlinked v X' c Y')) by (apply in_structs; simpl; rewrite E1; set_solver).
  destruct (unlink_done s m1 ul1 fl (unlinked v X' c Y') X1 b Y1 Im1 Ie E1) as (m2 & ul2 & L2 & Im2 & B2 & W2 & _).
  exists m2, ul2, (X1 ++ Y1). split; [|split; [exact Im2|]].
  { intros B k. rewrite (bind_get_next _ _ _ _ _ Im Ie) by exact Hcs. rewrite (bind_done _ _ _ _ _ L1).
    rewrite (bind_get_next _ _ _ _ _ Im1 Ie) by exact Hbs1.
    replace (if prev_of X =? ar_p c then set_link (prev_of X') _ else set_link (prev_of X) _)
      with (set_link (prev_of X1) (word_at m1 (ar_p b + 16))) by (rewrite Hpr; destruct (_ =? _); reflexivity).
    rewrite (bind_done _ _ _ _ _ L2). reflexivity. }
  split; [|split].
  - rewrite Ec, <- Permutation_middle, E1, <- Permutation_middle. apply Permutation_swap.
  - intros y Hy. rewrite B2, B1; [reflexivity|..]; intros (p & Hp & _)%list_elem_of_fmap; apply (Hy p Hp).
  - intros p Hp. destruct (W1 p Hp) as [<- <-]. apply W2.
    unfold structs, unlinked in *. cbn [usable live spare limbo]. rewrite Ec in Hp.
    rewrite elem_count in *. count_open Hp. count_cases.
Qed.

(** The end of the merge: the structure [p] describes the area [a], those of the neighbours
    [q] and [r] are unused. *)
Lemma merge_end s m ul fl v a q r L :
  mem_inv m ul fl v -> env_inv s (own v) -> limbo v = ar_p a :: q :: r :: L -> area_in m (own v) a ->
  exists m',
    (u ← get_usable;
     set_next (ar_p a) u;;
     set_usable (ar_p a);;
     set_next q r;;
     f ← get_free;
     set_next r f;;
     set_free q) (with_lists m ul fl s) = Done tt (with_lists m' (ar_p a) q s) /\
    mem_inv m' (ar_p a) q (mkview (a :: usable v) (live v) (q :: r :: spare v) L (own v)) /\
    changes (own v) [TheArea (ar_p a); TheArea q; TheArea r] m m'.
Proof.
  intros Im Ie El Ha. destruct Ha as [A1 A2 A3 A4 A5 A6 A7].
  destruct (use_struct s m ul fl v a (q :: r :: L) Im Ie El A4 A5 A6 A7 A1 A2) as (m1 & E1 & Im1 & C1).
  rewrite (use_struct_then _ _ _ _ _ _ _ E1). set (v1 := mkview _ _ _ _ _) in Im1.
  assert (Hq : q ∈ structs v1) by (unfold structs; simpl; set_solver).
  assert (Hr : r ∈ structs v1) by (unfold structs; simpl; set_solver).
  assert (Oq : owns (own v1) (q + 16) 8 (TheArea q)) by (apply (owns_sub _ q 24); [apply (struct_owned _ _ _ _ Im1 _ Hq)|lia..]).
  assert (Or : owns (own v1) (r + 16) 8 (TheArea r)) by (apply (owns_sub _ r 24); [apply (struct_owned _ _ _ _ Im1 _ Hr)|lia..]).
  assert (Hqr : q <> r).
  { intros ->. pose proof (mi_nodup _ _ _ _ Im1) as Hn. apply nodup_count with (x := r) in Hn.
    unfold v1 in Hn. count_open Hn. count_cases. }
  rewrite (bind_set_next _ _ _ _ _ Im1 Ie) by exact Hq.
  assert (Im2 := mem_put _ _ _ _ Im1 q (q + 16) 8 r _ ltac:(unfold v1; simpl; set_solver) Oq (or_introl eq_refl)).
  rewrite bind_get_free. cbn [freeList p_heap with_lists set_mem set_heap].
  rewrite (bind_set_next _ _ _ _ _ Im2 Ie) by exact Hr.
  assert (Im3 := mem_put _ _ _ _ Im2 r (r + 16) 8 fl _ ltac:(unfold v1; simpl; set_solver) Or (or_introl eq_refl)).
  exists (put 8 (r + 16) fl (put 8 (q + 16) r m1)). split; [reflexivity|]. split.
  - assert (Im4 := mem_limbo _ _ _ _ Im3 (r :: q :: L) ltac:(apply Permutation_swap)).
    assert (Im5 := mem_push_spare _ _ _ _ Im4 r (q :: L) eq_refl).
    rewrite word_put_same in Im5 by exact (spare_octa _ _ _ _ _ Im Ie). specialize (Im5 eq_refl).
    apply (mem_push_spare _ _ _ _ Im5 q L eq_refl).
    rewrite (word_other (own v1) _ _ _ _ _ _ Or Oq) by congruence. apply word_put_same.
    pose proof (struct_pos _ _ _ _ _ Im1 Ie _ Hr). unfold is_word. lia.
  - eapply changes_trans; [eapply changes_weaken; [|exact C1]; set_solver|].
    apply (changes_trans _ _ _ (put 8 (q + 16) r m1));
      [apply (changes_put _ _ _ _ _ _ 8 Oq)|apply (changes_put _ _ _ _ _ _ 8 Or)]; set_solver.
Qed.

(** Three areas side by side as one: [b], [a] and [c] in the order of their addresses. *)
Section Joined.
Context (m : arr) (o : Z -> owner) (a b c : area).
Context (Ha : area_in m o a) (Hb : area_in m o b) (Hc : area_in m o c).
Context (Eb : ar_addr b + ar_size b = ar_addr a) (Ec : ar_addr c = ar_addr a + ar_size a).

Definition joined : area := mkarea (ar_p a) (ar_addr b) (ar_size a + (ar_size b + ar_size c)).
Definition own_joined : Z -> owner := own_block (ar_addr b) (ar_size joined) (ar_p a) o.

Lemma own_joined_cases y :
  own_joined y = o y \/ exists p, p ∈ [ar_p b; ar_p c; ar_p a] /\ o y = TheBlock p.
Proof.
  pose proof (ai_min _ _ _ Ha). unfold own_joined, joined. cbn [ar_size].
  destruct (Z_lt_le_dec y (ar_addr b)); [left; apply own_block_out; auto|].
  destruct (Z_lt_le_dec y (ar_addr c + ar_size c)); [right|left; apply own_block_out; lia].
  destruct (Z_lt_le_dec y (ar_addr a)); [exists (ar_p b); split; [in_list|apply (ai_block _ _ _ Hb); lia]|].
  destruct (Z_lt_le_dec y (ar_addr c)); [exists (ar_p a); split; [in_list|apply (ai_block _ _ _ Ha); lia]|].
  exists (ar_p c); split; [in_list|apply (ai_block _ _ _ Hc); lia].
Qed.

Lemma own_joined_env s : env_inv s o -> env_inv s own_joined.
Proof.
  apply env_reown; [|apply own_block_area].
  intros y Hy. destruct (own_joined_cases y) as [?|(p & _ & ?)]; congruence.
Qed.

Lemma joined_area m' :
  owns own_joined (ar_p a) 24 (TheArea (ar_p a)) ->
  word_at m' (ar_p a) = ar_size joined -> word_at m' (ar_p a + 8) = ar_addr b -> area_in m' own_joined joined.
Proof.
  intros Ho W1 W2. destruct Ha, Hb, Hc. split; trivial.
  - apply own_block_in.
  - unfold joined. simpl. lia.
  - unfold joined. simpl. Z.div_mod_to_equations. lia.
Qed.

(** The neighbours differ. *)
Lemma joined_apart : 0 < ar_size a -> 0 < ar_size b -> ar_p b <> ar_p c.
Proof.
  intros H1 H2 Ep. pose proof (ai_addr _ _ _ Hb) as Q1. pose proof (ai_addr _ _ _ Hc) as Q2.
  rewrite Ep in Q1. lia.
Qed.
End Joined.

(** The first half of [merge_both]: the structure gets the size and the address of the joined
    area, and the neighbours leave the usable list. *)
Lemma resize_merged s m ul fl v a L X b Y X' c Y' :
  mem_inv m ul fl v -> env_inv s (own v) -> limbo v = ar_p a :: L -> area_in m (own v) a ->
  usable v = X ++ b :: Y -> usable v = X' ++ c :: Y' -> ar_p b <> ar_p c ->
  ar_addr b + ar_size b = ar_addr a -> ar_addr c = ar_addr a + ar_size a ->
  exists m' ul' U,
    merge_both (ar_p a) (mknb (ar_p b) (prev_of X) (ar_p c) (prev_of X')) (with_lists m ul fl s) =
      (u ← get_usable;
       set_next (ar_p a) u;;
       set_usable (ar_p a);;
       set_next (ar_p b) (ar_p c);;
       f ← get_free;
       set_next (ar_p c) f;;
       set_free (ar_p b)) (with_lists m' ul' fl s) /\
    mem_inv m' ul' fl (mkview U (live v) (spare v) (ar_p b :: ar_p c :: ar_p a :: L) (own v)) /\
    usable v ≡ₚ b :: c :: U /\
    (forall y, (forall p, own v y <> TheArea p) -> byte_at m' y = byte_at m y) /\
    word_at m' (ar_p a) = ar_size (joined a b c) /\ word_at m' (ar_p a + 8) = ar_addr b.
Proof.
  intros Im Ie El Ha Eb Ec Hne Hb Hc.
  assert (Has : ar_p a ∈ structs v) by (unfold structs; rewrite El; in_list).
  assert (Hbs : ar_p b ∈ structs v) by (apply in_structs; rewrite Eb; in_list).
  assert (Hcs : ar_p c ∈ structs v) by (apply in_structs; rewrite Ec; in_list).
  assert (Hab : area_in m (own v) b) by (apply (mi_areas _ _ _ _ Im); rewrite Eb; in_list).
  assert (Hac : area_in m (own v) c) by (apply (mi_areas _ _ _ _ Im); rewrite Ec; in_list).
  pose proof (heap_lists m ul fl v s Im Ie) as It.
  destruct (area_bounds _ v a It Ha) as (A1 & A2 & A3). destruct (area_bounds _ v b It Hab) as (B1 & B2 & B3).
  destruct (area_bounds _ v c It Hac) as (C1 & C2 & C3).
  assert (Oa : forall k, 0 <= k <= 16 -> owns (own v) (ar_p a + k) 8 (TheArea (ar_p a)))
    by (intros k Hk; eapply owns_sub; [exact (struct_owned _ _ _ _ Im _ Has)|lia..]).
  pose proof (Oa 0 ltac:(lia)) as O0. rewrite Z.add_0_r in O0. pose proof (Oa 8 ltac:(lia)) as O8.
  assert (Hl : ar_p a ∈ limbo v) by (rewrite El; in_list).
  unfold merge_both. cbn [prev next pprev nprev].
  rewrite !(bind_get_size _ _ _ _ _ Im Ie) by assumption.
  rewrite (ai_size _ _ _ Ha), (ai_size _ _ _ Hab), (ai_size _ _ _ Hac).
  rewrite (bind_set_size _ _ _ _ _ Im Ie) by assumption.
  rewrite (wrap_small 64 (ar_size b + ar_size c)), wrap_small by (unfold is_word; lia).
  change (ar_size a + (ar_size b + ar_size c)) with (ar_size (joined a b c)).
  assert (Im1 := mem_put _ _ _ _ Im (ar_p a) (ar_p a) 8 (ar_size (joined a b c)) _ Hl O0 (or_introl eq_refl)).
  rewrite (bind_get_address _ _ _ _ _ Im1 Ie) by assumption.
  rewrite (ai_addr _ _ b) by (apply (mi_areas _ _ _ _ Im1); rewrite Eb; in_list).
  rewrite (bind_set_address _ _ _ _ _ Im1 Ie) by assumption.
  assert (Im2 := mem_put _ _ _ _ Im1 (ar_p a) (ar_p a + 8) 8 (ar_addr b) _ Hl O8 (or_introl eq_refl)).
  destruct (unlink_both s _ ul fl v X b Y X' c Y' Im2 Ie Eb Ec Hne) as (m3 & ul3 & U & E3 & Im3 & Ht & D3 & W3).
  rewrite E3, El in *. exists m3, ul3, U. split; [reflexivity|]. split; [exact Im3|]. split; [exact Ht|].
  destruct (W3 _ Has) as [-> ->]. split; [|split].
  - intros y Hy. rewrite D3 by exact Hy.
    rewrite (changes_put (own v) [TheArea (ar_p a)] _ _ _ _ 8 O8), (changes_put (own v) [TheArea (ar_p a)] _ _ _ _ 8 O0);
      set_solver.
  - rewrite word_put_other by lia. apply word_put_same. unfold joined, is_word. simpl. lia.
  - apply word_put_same. unfold is_word. lia.
Qed.

(** The prev, the freed and the next area become one. *)
Lemma merge_both_done s m ul fl v a L X b Y X' c Y' :
  mem_inv m ul fl v -> env_inv s (own v) -> limbo v = ar_p a :: L -> area_in m (own v) a ->
  usable v = X ++ b :: Y -> ends_at (ar_addr a) b ->
  usable v = X' ++ c :: Y' -> starts_at (ar_addr a + ar_size a) c ->
  exists m' ul' fl' v',
    merge_both (ar_p a) (mknb (ar_p b) (prev_of X) (ar_p c) (prev_of X')) (with_lists m ul fl s) =
      Done tt (with_lists m' ul' fl' s) /\
    mem_inv m' ul' fl' v' /\ merged s m v L a [b] [c] m' v'.
Proof.
  intros Im Ie El Ha Eb Hb Ec Hc. unfold ends_at, starts_at in *.
  assert (Has : ar_p a ∈ structs v) by (unfold structs; rewrite El; in_list).
  assert (Hbs : ar_p b ∈ structs v) by (apply in_structs; rewrite Eb; in_list).
  assert (Hcs : ar_p c ∈ structs v) by (apply in_structs; rewrite Ec; in_list).
  assert (Hab : area_in m (own v) b) by (apply (mi_areas _ _ _ _ Im); rewrite Eb; in_list).
  assert (Hac : area_in m (own v) c) by (apply (mi_areas _ _ _ _ Im); rewrite Ec; in_list).
  pose proof (heap_lists m ul fl v s Im Ie) as It.
  destruct (area_bounds _ v a It Ha) as (A1 & A2 & A3). destruct (area_bounds _ v b It Hab) as (B1 & B2 & B3).
  destruct (area_bounds _ v c It Hac) as (C1 & C2 & C3).
  pose proof (joined_apart m (own v) a b c Hab Hac Hb Hc ltac:(lia) ltac:(lia)) as Hne.
  pose proof (struct_owned _ _ _ _ Im _ Has) as Ho.
  destruct (resize_merged s m ul fl v a L X b Y X' c Y') as (m3 & ul3 & U & E3 & Im3 & Ht & D3 & W3 & W4); trivial.
  rewrite E3. clear E3.
  pose proof (own_joined_cases m (own v) a b c Ha Hab Hac Hb Hc) as Hr.
  set (o := own_joined (own v) a b c) in *.
  assert (Im4 := mem_reown _ _ _ _ Im3 o). cbn [usable live spare limbo own] in Im4.
  specialize (Im4 ltac:(intros y; destruct (Hr y) as [?|(p & Hp & ?)]; [auto|right; right; exists p; split; [revert Hp; in_list; tauto|trivial]])).
  assert (Im5 := mem_limbo _ _ _ _ Im4 (ar_p a :: ar_p b :: ar_p c :: L)). cbn [usable live spare limbo own] in Im5.
  specialize (Im5 ltac:(symmetry; exact (Permutation_middle [ar_p b; ar_p c] L (ar_p a)))).
  assert (Ie5 : env_inv s o) by exact (own_joined_env m (own v) a b c Ha Hab Hac Hb Hc s Ie).
  assert (Had : area_in m3 o (joined a b c))
    by (apply (joined_area m); trivial; exact (struct_owned _ _ _ _ Im5 (ar_p a) ltac:(unfold structs; simpl; in_list))).
  destruct (merge_end s m3 ul3 fl _ (joined a b c) (ar_p b) (ar_p c) L Im5 Ie5 eq_refl Had) as (m4 & E4 & Im6 & C6).
  eexists m4, _, _, _. split; [exact E4|]. split; [exact Im6|]. split; trivial.
  - exists U, (joined a b c). unfold total. simpl. csplit; trivial; lia.
  - intros y Hy. rewrite C6, D3; [reflexivity|exact Hy|].
    cbn [own]. intros Hin. rewrite !elem_of_cons, elem_of_nil in Hin.
    destruct Hin as [Hw|[Hw|[Hw|[]]]]; apply own_block_area in Hw; apply (Hy _ Hw).
  - intros y Hy. cbn [own]. destruct (Hr y) as [|(p & Hp & Hb')]; [trivial|].
    destruct Hy as [Hy|(e & He & Hy)]; [congruence|]. exfalso.
    apply (limbo_not_live _ _ _ _ p e Im3); [|exact He|congruence].
    revert Hp. cbn [limbo]. in_list. tauto.
Qed.

(** ** [free] *)

Lemma truth_struct s v p : heap_inv s v -> p ∈ structs v -> truth p = true.
Proof.
  intros I Hp. pose proof (struct_bounds s v I p Hp). unfold truth.
  rewrite (proj2 (Z.eqb_neq p 0)) by lia. reflexivity.
Qed.

(** A usable area is the only one with that end, and the only one with that start. *)
Lemma touches_once m ul fl v b R x :
  mem_inv m ul fl v -> usable v ≡ₚ b :: R ->
  (ends_at x b -> Forall (fun c => ~ ends_at x c) R) /\ (starts_at x b -> Forall (fun c => ~ starts_at x c) R).
Proof.
  intros Im Eu. pose proof (usable_nodup _ _ _ _ Im) as Hn. rewrite Eu in Hn. apply NoDup_cons in Hn as [Hn _].
  assert (Hin : forall c, c ∈ b :: R -> area_in m (own v) c) by (intros c Hc; apply (mi_areas _ _ _ _ Im); rewrite Eu; set_solver).
  assert (K : forall c y, c ∈ R -> own v y = TheBlock (ar_p b) -> own v y = TheBlock (ar_p c) -> False).
  { intros c y Hc H1 H2. apply Hn. assert (ar_p b = ar_p c) as -> by congruence. apply list_elem_of_fmap_2, Hc. }
  pose proof (Hin b ltac:(set_solver)) as Hb.
  split; intros Ex; apply Forall_forall; intros c Hc Ec; pose proof (Hin c ltac:(set_solver)) as Hac;
    pose proof (ai_min _ _ _ Hb); pose proof (ai_min _ _ _ Hac); unfold ends_at, starts_at in *;
    [apply (K c (x - 1) Hc)|apply (K c x Hc)]; [apply (ai_block _ _ _ Hb)|apply (ai_block _ _ _ Hac)|apply (ai_block _ _ _ Hb)|apply (ai_block _ _ _ Hac)]; lia.
Qed.

(** The freed block and the usable areas that touch it are one usable area, the others are as
    before. *)
Definition merges (U : list area) (a : area) (U' : list area) : Prop :=
  exists B N R a', U ≡ₚ B ++ N ++ R /\ U' ≡ₚ a' :: R /\
    ar_addr a' = ar_addr a - total B /\ ar_size a' = total B + ar_size a + total N /\
    Forall (ends_at (ar_addr a)) B /\ Forall (starts_at (ar_addr a + ar_size a)) N /\
    Forall (fun b => ~ ends_at (ar_addr a) b /\ ~ starts_at (ar_addr a + ar_size a) b) R.

(** All of [U] with the property [P] is in [B]. *)
Definition only (U : list area) (P : area -> Prop) (B : list area) : Prop :=
  B = [] /\ Forall (fun b => ~ P b) U \/ exists b, B = [b] /\ P b.

Lemma joins_merges m ul fl v a B N U' :
  mem_inv m ul fl v -> joins (usable v) a B N U' ->
  only (usable v) (ends_at (ar_addr a)) B -> only (usable v) (starts_at (ar_addr a + ar_size a)) N ->
  merges (usable v) a U'.
Proof.
  intros Im (R & a' & Eu & Eu' & Ead & Es) HB HN. exists B, N, R, a'.
  assert (HR1 : Forall (fun b => ~ ends_at (ar_addr a) b) R).
  { destruct HB as [[-> H]|(b & -> & Hb)].
    - rewrite Eu in H. simpl in H. apply Forall_app in H. apply H.
    - apply (touches_once _ _ _ _ b (N ++ R) _ Im) in Hb; [|exact Eu]. apply Forall_app in Hb. apply Hb. }
  assert (HR2 : Forall (fun b => ~ starts_at (ar_addr a + ar_size a) b) R).
  { destruct HN as [[-> H]|(b & -> & Hb)].
    - rewrite Eu in H. apply Forall_app in H as [_ H]. exact H.
    - apply (touches_once _ _ _ _ b (B ++ R) _ Im) in Hb; [apply Forall_app in Hb; apply Hb|].
      rewrite Eu. symmetry. apply Permutation_middle. }
  csplit; trivial.
  - destruct HB as [[-> _]|(b & -> & Hb)]; auto.
  - destruct HN as [[-> _]|(b & -> & Hb)]; auto.
  - rewrite !Forall_forall in *. intros b Hb. auto.
Qed.

Lemma merge_area_done s v a L nb :
  heap_inv s v -> limbo v = ar_p a :: L -> area_in (p_mem s) (own v) a ->
  found (usable v) (ends_at (ar_addr a)) (prev nb) (pprev nb) ->
  found (usable v) (starts_at (ar_addr a + ar_size a)) (next nb) (nprev nb) ->
  missed (usable v) a nb ->
  exists s' v' B N, merge_area (ar_p a) nb s = Done tt s' /\ heap_inv s' v' /\ still s s' /\
    merged s (p_mem s) v L a B N (p_mem s') v' /\ merges (usable v) a (usable v').
Proof.
  intros I El Ha Hp Hn [M1 M2]. destruct I as [Im Ie]. rewrite <- (with_lists_self s).
  set (m := p_mem s) in *. set (ul := usableList (p_heap s)) in *. set (fl := freeList (p_heap s)) in *.
  pose proof (heap_lists m ul fl v s Im Ie) as It.
  assert (K : forall B N (c : C unit),
    (exists m' ul' fl' v', c (with_lists m ul fl s) = Done tt (with_lists m' ul' fl' s) /\
       mem_inv m' ul' fl' v' /\ merged s m v L a B N m' v') ->
    only (usable v) (ends_at (ar_addr a)) B -> only (usable v) (starts_at (ar_addr a + ar_size a)) N ->
    exists s' v' B N, c (with_lists m ul fl s) = Done tt s' /\ heap_inv s' v' /\ still (with_lists m ul fl s) s' /\
      merged (with_lists m ul fl s) m v L a B N (p_mem s') v' /\ merges (usable v) a (usable v')).
  { intros B N c (m' & ul' & fl' & v' & E & Im' & Hm) HB HN. eexists _, v', B, N. split; [exact E|].
    destruct Hm as [G1 G2 G3 G4 G5 G6].
    split; [apply heap_lists; trivial|]. split; [reflexivity|]. split; [|exact (joins_merges _ _ _ v a B N _ Im G4 HB HN)].
    split; trivial. apply (env_still s); [reflexivity|trivial]. }
  unfold merge_area. destruct nb as [p pp n np]. cbn [prev pprev next nprev] in *.
  destruct Hp as [->|(X & b & Y & Eb & Hb & -> & ->)]; destruct Hn as [->|(X' & c & Y' & Ec & Hc & -> & ->)];
    change (truth 0) with false;
    rewrite ?(truth_struct _ v _ It) by (apply in_structs; first [solve [rewrite Eb; in_list]|solve [rewrite Ec; in_list]]);
    simpl.
  - apply (K [] []); [apply insert_done; trivial|left; auto|left; auto].
  - apply (K [] [c]); [eapply merge_next_done; eauto|left; auto|right; eauto].
  - apply (K [b] []); [eapply merge_prev_done; eauto|right; eauto|left; auto].
  - apply (K [b] [c]); [eapply merge_both_done; eauto|right; eauto|right; eauto].
Qed.

Lemma free_done s v A1 a A2 :
  heap_ready s v -> live v = A1 ++ a :: A2 ->
  exists s' v', free (ar_addr a + 24) s = Done tt s' /\ heap_ready s' v' /\
    preserves (A1 ++ A2) s v s' v' /\ live v' = A1 ++ A2 /\
    total (usable v') = total (usable v) + ar_size a /\ word_at (p_mem s') (ar_addr a) = FREE_MAGIC /\
    merges (usable v) a (usable v').
Proof.
  intros [I Hl Hf] Ea. assert (Hin : a ∈ live v) by (rewrite Ea; in_list).
  pose proof (live_area s v I a Hin) as Ha. pose proof (live_guarded s v I a Hin) as Hg.
  destruct (live_bounds s v I a Hin) as (B1 & B2 & B3).
  unfold free. rewrite (proj2 (Z.eqb_neq _ 0)) by lia.
  replace (ar_addr a + 24 - 24) with (ar_addr a) by lia. cbv zeta.
  pose proof (live_load s v I a Hin 0 ltac:(lia) ltac:(lia)) as L0. rewrite Z.add_0_r in L0.
  rewrite (bind_done _ _ _ _ _ L0), (g_area _ _ Hg), (bind_done _ _ _ _ _ (check_guards_done s v I a Hin)).
  rewrite (bind_done _ _ _ _ _ (usemdown_done s Hl)). set (s0 := on_heapSem (fun _ => locked) s).
  assert (I0 : heap_inv s0 v) by apply heap_inv_sem, I.
  assert (Hown : owns (own v) (ar_addr a) 8 (TheBlock (ar_p a))) by (eapply owns_sub; [apply Ha|lia..]).
  rewrite (bind_store 8 (ar_addr a)).
  2: { intros y Hy. apply (owned_mapped s0 v I0 _ _ _ Hown); [discriminate|lia]. }
  set (s1 := set_mem _ s0). set (v1 := mkview (usable v) (A1 ++ A2) (spare v) (ar_p a :: limbo v) (own v)).
  assert (C1 : changes (own v) [TheBlock (ar_p a)] (p_mem s0) (p_mem s1))
    by (apply (changes_put _ _ _ _ _ (TheBlock (ar_p a)) 8); [exact Hown|set_solver]).
  assert (I1 : heap_inv s1 v1).
  { split; [|apply (env_still s0); [reflexivity|apply I0]].
    apply (mem_put _ _ _ v1 (mem_unlive _ _ _ _ (proj1 I0) A1 a A2 Ea) (ar_p a) _ 8 _ (TheBlock (ar_p a))); [simpl; in_list|exact Hown|auto]. }
  assert (Ha1 : area_in (p_mem s1) (own v1) a) by (eapply area_in_changes; [exact C1|set_solver|exact Ha]).
  assert (Hlen : Z.of_nat (length (usable v1)) < 2 ^ 64) by exact (usable_length s v I Hf).
  destruct (find_neighbours_done s1 v1 a I1 Hlen ltac:(unfold structs; simpl; in_list) Ha1) as (nb & En & Hp & Hn & Hm).
  rewrite (bind_done _ _ _ _ _ En).
  destruct (merge_area_done s1 v1 a (limbo v) nb I1 eq_refl Ha1 Hp Hn Hm) as (s2 & v2 & B & N & E2 & I2 & S2 & M2 & Mg).
  rewrite (bind_done _ _ _ _ _ E2). destruct M2 as [G1 G2 G3 G4%joins_total G5 G6].
  assert (P2 : preserves (A1 ++ A2) s0 v s2 v2).
  { apply (preserves_trans _ _ _ s1 v1).
    - eapply changes_preserves; [reflexivity|exact C1|set_solver| |trivial]. intros b Hb Hw%list_elem_of_singleton.
      apply (limbo_not_live _ _ _ v1 (ar_p a) b (proj1 I1)); [simpl; in_list|exact Hb|congruence].
    - unfold still, frame_of in S2. injection S2 as Q1 Q2 Q3 Q4 Q5 Q6 Q7 Q8. split; [..|rewrite Q3, Q4, Q7, Q8; reflexivity].
      + auto.
      + intros y _ Hy. apply G5. intros p. destruct Hy as [Hy|(b & _ & Hy)]; congruence.
      + rewrite Q1. trivial. }
  destruct (preserves_lock _ s s2 v v2 Hl P2) as [P3 Hk]. rewrite (usemup_done s2 Hk).
  assert (Hw : word_at (p_mem s2) (ar_addr a) = FREE_MAGIC).
  { rewrite <- (word_put_same (ar_addr a) FREE_MAGIC (p_mem s0)) by (unfold is_word, FREE_MAGIC; lia).
    apply num_ext. intros y Hy. apply G5. intros p. cbn [own v1]. rewrite Hown by lia. discriminate. }
  eexists _, v2. split; [reflexivity|]. split; [|auto].
  split; [apply heap_inv_sem, I2|reflexivity|]. cbn [p_heap on_heapSem set_heap pageCount].
  rewrite G4, G2. unfold still, frame_of in S2. injection S2 as _ _ _ _ _ Q6 _ _. rewrite Q6.
  simpl. rewrite Ea in Hf. rewrite !total_app in *. unfold total in *. simpl in Hf. lia.
Qed.
