(* ===== verification/HeapRealloc.v ===== *)
(** * Resizing blocks

    [realloc] and [calloc] of lib/c/stdlib/heap.c: a block grows into the usable area behind
    it or moves, and its contents stay the same. *)

From Stdlib Require Import ZArith Lia Bool.
From stdpp Require Import base list numbers option gmap.
From S2P Require Import Prelude CMem MemOps Heap HeapInv HeapSpec HeapFree.

(** ** Contents of blocks *)

(** The bytes between the guards belong to the owner of the block. *)
Definition payload (a : area) (y : Z) : Prop := ar_addr a + 24 <= y < ar_addr a + ar_size a - 8.

(** Only bytes between the guards of [a] differ. *)
Definition writes (a : area) (m m' : arr) : Prop := forall y, ~ payload a y -> byte_at m' y = byte_at m y.

(** A structure describes one area. *)
Lemma area_unique m o a b : area_in m o a -> area_in m o b -> ar_p a = ar_p b -> a = b.
Proof.
  intros [A1 A2 _ _ _ _ _] [B1 B2 _ _ _ _ _] E. rewrite E in *. destruct a, b. simpl in *. congruence.
Qed.

Lemma writes_inv s v a m' :
  heap_inv s v -> a ∈ live v -> writes a (p_mem s) m' -> heap_inv (set_mem m' s) v.
Proof.
  intros I Ha Hw. pose proof (live_area s v I a Ha) as Haa.
  assert (Hc : changes (own v) [TheBlock (ar_p a)] (p_mem s) m').
  { intros y Hy. apply Hw. intros [H1 H2]. apply Hy, list_elem_of_singleton.
    apply (ai_block _ _ _ Haa). lia. }
  assert (Hs : forall p, p ∈ structs v -> owns (own v) p 24 (TheArea p) /\ TheArea p ∉ [TheBlock (ar_p a)]).
  { intros p Hp. split; [apply (struct_owned _ _ _ v (proj1 I)), Hp|set_solver]. }
  destruct I as [[H1 H2 H3 H4 H5 H6] Ie]. split; [|apply (env_still s); [reflexivity|exact Ie]].
  split; trivial.
  - apply (chain_changes _ _ _ _ _ _ Hc); [|exact H1]. intros p Hp. apply Hs. unfold structs. in_list.
  - apply (chain_changes _ _ _ _ _ _ Hc); [|exact H2]. intros p Hp. apply Hs. unfold structs. in_list.
  - intros b Hb. apply (area_in_changes _ _ _ _ _ Hc); [set_solver|auto].
  - intros b Hb. destruct (decide (ar_p b = ar_p a)) as [Ep|Ep].
    + assert (Eb : b = a).
      { apply (area_unique (p_mem s) (own v)); trivial. apply H3. in_list. }
      subst b. destruct (H5 a Hb) as [G1 G2 G3 G4 G5].
      assert (F : forall x, x + 8 <= ar_addr a + 24 \/ ar_addr a + ar_size a - 8 <= x -> word_at m' x = word_at (p_mem s) x).
      { intros x Hx. apply num_ext. intros y Hy. apply Hw. unfold payload. lia. }
      split; trivial; simpl; rewrite F by lia; trivial.
    + apply (guarded_changes _ _ _ _ _ Hc); [intros Hin%list_elem_of_singleton; congruence|apply H3; in_list|auto].
Qed.

Lemma writes_ready s v a m' : heap_ready s v -> a ∈ live v -> writes a (p_mem s) m' -> heap_ready (set_mem m' s) v.
Proof. intros [I Hl Hf] Ha Hw. split; [eapply writes_inv; eassumption|exact Hl|exact Hf]. Qed.

(** Two live blocks are the same or apart. *)
Lemma live_disjoint s v a b y :
  heap_inv s v -> a ∈ live v -> b ∈ live v -> ar_addr a <= y < ar_addr a + ar_size a ->
  ar_addr b <= y < ar_addr b + ar_size b -> ar_p a = ar_p b.
Proof.
  intros I Ha Hb H1 H2. pose proof (ai_block _ _ _ (live_area s v I a Ha) y H1).
  pose proof (ai_block _ _ _ (live_area s v I b Hb) y H2). congruence.
Qed.

(** ** Growing in place *)

Lemma find_behind_done s v a size :
  heap_inv s v -> Z.of_nat (length (usable v)) < 2 ^ 64 -> ar_p a ∈ structs v ->
  area_in (p_mem s) (own v) a ->
  exists pr q, find_behind (ar_p a) size s = Done (pr, q) s /\
    found (usable v) (fun b => starts_at (ar_addr a + ar_size a) b /\ size <= ar_size a + ar_size b) q pr.
Proof.
  intros I Hlen Hps Ha. unfold find_behind. rewrite bind_get_usable.
  set (P := fun b => starts_at (ar_addr a + ar_size a) b /\ size <= ar_size a + ar_size b).
  destruct (area_bounds s v a I Ha) as (A1 & A2 & A3).
  edestruct (fun body => loop_bounded body
    (fun n '(pr, c) s' => s' = s /\ exists X Y, at_position (usable v) X Y pr c /\ n = Z.of_nat (length Y))
    (fun r s' => s' = s /\ found (usable v) P r.2 r.1) (Z.of_nat (length (usable v))) (0, usableList (p_heap s)) s)
    as ([pr q] & s' & E & -> & HQ).
  4: { exists pr, q. split; [exact E|exact HQ]. }
  - intros n [pr c] s' (-> & X & Y & Hp & ->). split; [lia|].
    pose proof (walk_end s v I X Y pr c Hp) as He. destruct (c =? 0) eqn:Ez.
    { right. eexists (_, _), s. split; [reflexivity|]. split; [reflexivity|left; reflexivity]. }
    destruct He as (b & Y' & -> & -> & Hb & Hs). pose proof Hp as (Eu & Et & _).
    pose proof (usable_area s v I b Hb) as Hab. destruct (area_bounds s v b I Hab) as (B1 & B2 & B3).
    rewrite (bind_done _ _ _ _ _ (get_address_done s v I _ Hs)), (bind_done _ _ _ _ _ (get_address_done s v I _ Hps)).
    rewrite (bind_done _ _ _ _ _ (get_size_done s v I _ Hps)), (ai_addr _ _ _ Hab), (ai_addr _ _ _ Ha), (ai_size _ _ _ Ha).
    rewrite (wrap_small 64 (_ + _)) by (unfold is_word; lia).
    destruct (Z.eqb_spec (ar_addr b) (ar_addr a + ar_size a)) as [Eb|Eb].
    + right. rewrite (bind_done _ _ _ _ _ (get_size_done s v I _ Hs)), (ai_size _ _ _ Hab).
      rewrite (wrap_small 64 (_ + _)) by (unfold is_word; lia).
      destruct (Z.leb_spec size (ar_size a + ar_size b)); eexists (_, _), s; (split; [reflexivity|split; [reflexivity|]]).
      * right. exists X, b, Y'. unfold P. auto.
      * left. reflexivity.
    + left. rewrite (bind_done _ _ _ _ _ (get_next_done s v I _ Hs)).
      eexists (_, _), s, (Z.of_nat (length Y')). split; [reflexivity|]. split; [|simpl; lia].
      split; [reflexivity|]. exists (X ++ [b]), Y'. split; [eapply walk_next; eassumption|reflexivity].
  - split; [reflexivity|]. exists [], (usable v). split; [apply walk_start, I|reflexivity].
  - exact Hlen.
Qed.

(** What both ways of growing have in common: [a] has got the bytes up to [size] from the
    usable area behind it. *)
Record grown_into (s : process) (m : arr) (v : view) (a : area) (size : Z) (m' : arr) (v' : view) : Prop := {
  gi_env : env_inv s (own v');
  gi_live : live v' = live v;
  gi_limbo : limbo v' = limbo v;
  gi_area : area_in m' (own v') a;
  gi_block : owns (own v') (ar_addr a) size (TheBlock (ar_p a));
  gi_total : total (usable v') + size = total (usable v) + ar_size a;
  gi_data : forall y, (forall p, own v y <> TheArea p) -> byte_at m' y = byte_at m y;
  gi_own : forall y, protected (live v) v y -> own v' y = own v y
}.

Section Grow.
Context (s : process) (m : arr) (ul fl : Z) (v : view) (a : area) (L : list Z) (X : list area) (b : area) (Y : list area).
Context (Im : mem_inv m ul fl v) (Ie : env_inv s (own v)).
Context (El : limbo v = ar_p a :: L) (Ha : area_in m (own v) a).
Context (Eu : usable v = X ++ b :: Y) (Hb : ar_addr b = ar_addr a + ar_size a).
Context (size : Z) (Hs : ar_size a <= size <= ar_size a + ar_size b) (H8 : size mod 8 = 0).

Lemma behind_area : area_in m (own v) b.
Proof. apply (mi_areas _ _ _ _ Im). rewrite Eu. in_list. Qed.

Lemma behind_struct : ar_p b ∈ structs v /\ ar_p a ∈ structs v /\ ar_p a <> ar_p b.
Proof.
  split; [apply in_structs; rewrite Eu; in_list|]. split; [unfold structs; rewrite El; in_list|].
  apply (usable_not _ _ _ _ Im b); [rewrite Eu; in_list|rewrite El; in_list].
Qed.

Lemma behind_bounds : 0 < ar_addr a /\ ar_addr a + ar_size a + ar_size b <= 2 ^ 47 /\ 8 <= ar_size a /\ 8 <= ar_size b.
Proof.
  pose proof (heap_lists m ul fl v s Im Ie) as It.
  destruct (area_bounds _ v a It Ha) as (A1 & A2 & A3). destruct (area_bounds _ v b It behind_area) as (B1 & B2 & B3). lia.
Qed.

Definition own_grown : Z -> owner := own_block (ar_addr a) size (ar_p a) (own v).

Lemma own_grown_cases y :
  own_grown y = own v y \/ own v y = TheBlock (ar_p b) /\ ar_addr b <= y < ar_addr a + size.
Proof.
  unfold own_grown, own_block. destruct (Z.leb_spec (ar_addr a) y), (Z.ltb_spec y (ar_addr a + size)); simpl; auto.
  destruct (Z_lt_le_dec y (ar_addr b)).
  - left. symmetry. apply (ai_block _ _ _ Ha). lia.
  - right. split; [apply (ai_block _ _ _ behind_area)|]; lia.
Qed.

Lemma own_grown_env : env_inv s own_grown.
Proof.
  apply (env_reown s (own v)); [|apply own_block_area|exact Ie].
  intros y Hy. destruct (own_grown_cases y) as [?|[? _]]; congruence.
Qed.

Lemma own_grown_protected y : protected (live v) v y -> own_grown y = own v y.
Proof.
  intros Hy. destruct (own_grown_cases y) as [|[Hy' _]]; [trivial|]. exfalso.
  destruct Hy as [Hy|(e & He & Hy)]; [congruence|].
  assert (ar_p e <> ar_p b); [|congruence]. apply (usable_not _ _ _ _ Im b); [rewrite Eu; in_list|].
  apply (list_elem_of_fmap_2 ar_p) in He. in_list.
Qed.

Lemma own_grown_area m' :
  word_at m' (ar_p a) = word_at m (ar_p a) -> word_at m' (ar_p a + 8) = word_at m (ar_p a + 8) ->
  area_in m' own_grown a.
Proof.
  intros W1 W2. pose proof own_grown_cases as Hc. destruct Ha as [A1 A2 A3 A4 A5 A6 A7].
  split; trivial; [congruence..| |].
  - intros y Hy. destruct (Hc y) as [->|[Hy' _]]; [auto|]. rewrite A3 in Hy' by exact Hy. discriminate.
  - intros y Hy. apply own_block_in. lia.
Qed.

(** The area behind starts later. *)
Lemma grow_shift :
  size < ar_size a + ar_size b ->
  exists m' ul' fl' v',
    (aaddr ← get_address (ar_p a);
     set_address (ar_p b) (aaddr +o size);;
     set_size (ar_p b) (ar_size a + ar_size b -o size)) (with_lists m ul fl s) = Done tt (with_lists m' ul' fl' s) /\
    mem_inv m' ul' fl' v' /\ grown_into s m v a size m' v'.
Proof.
  intros Hlt. destruct behind_struct as (Hbs & Has & Hne). destruct behind_bounds as (A1 & A2 & A3 & A4).
  pose proof behind_area as Hab. pose proof (struct_owned _ _ _ _ Im _ Hbs) as Ob.
  pose proof (struct_owned _ _ _ _ Im _ Has) as Oa.
  rewrite (bind_get_address _ _ _ _ _ Im Ie) by exact Has. rewrite (ai_addr _ _ _ Ha).
  rewrite (wrap_small 64 (ar_addr a + size)), (wrap_small 64 (_ - size)) by (unfold is_word; lia).
  rewrite (bind_set_address _ _ _ _ _ Im Ie) by exact Hbs.
  rewrite (raw_set_size s _ ul fl (own v) _ Ie Ob).
  set (m1 := put 8 (ar_p b) _ _). set (b' := mkarea (ar_p b) (ar_addr a + size) (ar_size a + ar_size b - size)).
  assert (C1 : changes (own v) [TheArea (ar_p b)] m m1).
  { apply (changes_trans _ _ _ (put 8 (ar_p b + 8) (ar_addr a + size) m));
      apply (changes_put _ _ _ _ _ (TheArea (ar_p b)) 8); try set_solver; (eapply owns_sub; [exact Ob|lia..]). }
  assert (Hab' : area_in m1 (own v) b').
  { pose proof (ai_round _ _ _ Ha). pose proof (ai_round _ _ _ Hab). pose proof (ai_align _ _ _ Ha).
    split; simpl; trivial.
    - apply word_put_same. unfold is_word. lia.
    - unfold m1. rewrite word_put_other by lia. apply word_put_same. unfold is_word. lia.
    - apply (owns_sub _ _ _ _ _ _ (ai_block _ _ _ Hab)); lia.
    - Z.div_mod_to_equations. lia.
    - Z.div_mod_to_equations. lia.
    - Z.div_mod_to_equations. lia. }
  assert (Im1 := mem_modify _ _ _ _ Im X b Y b' m1 Eu eq_refl C1 ltac:(unfold m1; rewrite !word_put_other by lia; trivial) Hab').
  assert (Im2 := mem_transfer _ _ _ _ Im1 own_grown). cbn [usable live spare limbo own] in Im2.
  eexists m1, ul, fl, _. split; [reflexivity|]. split.
  { apply Im2. intros y. destruct (own_grown_cases y) as [|[Hy Hr]]; [auto|]. right. right. exists (ar_p b).
    split; [exact Hy|]. intros c Hc Ep.
    assert (c = b') as ->; [|simpl; lia].
    apply (area_unique m1 (own v)); [apply (mi_areas _ _ _ _ Im1), Hc|exact Hab'|exact Ep]. }
  split; trivial.
  - exact own_grown_env.
  - apply own_grown_area; apply (changes_word _ _ _ _ _ (TheArea (ar_p a)) C1);
      try (intros Hin%list_elem_of_singleton; congruence); (eapply owns_sub; [exact Oa|lia..]).
  - apply own_block_in.
  - cbn [usable]. rewrite Eu, !total_app. unfold total, b'. simpl. lia.
  - intros y Hy. apply C1. intros Hin%list_elem_of_singleton. apply (Hy _ Hin).
  - exact own_grown_protected.
Qed.

(** The area behind is used up; its structure becomes unused. *)
Lemma grow_whole :
  size = ar_size a + ar_size b ->
  exists m' ul' fl' v',
    (n ← get_next (ar_p b);
     set_link (prev_of X) n;;
     f ← get_free;
     set_next (ar_p b) f;;
     set_free (ar_p b)) (with_lists m ul fl s) = Done tt (with_lists m' ul' fl' s) /\
    mem_inv m' ul' fl' v' /\ grown_into s m v a size m' v'.
Proof.
  intros Hsz. destruct behind_struct as (Hbs & Has & Hne). destruct behind_bounds as (A1 & A2 & A3 & A4).
  pose proof behind_area as Hab. pose proof (struct_owned _ _ _ _ Im _ Has) as Oa.
  destruct (unlink_done s m ul fl v X b Y Im Ie Eu) as (m1 & ul1 & E1 & Im1 & D1 & W1 & _).
  destruct (release_done s m1 ul1 fl (unlinked v X b Y) (ar_p b) (limbo v) Im1 Ie eq_refl) as (m2 & E2 & Im2 & C2).
  cbn [unlinked own usable live spare limbo] in Im2, C2.
  assert (Wa : forall k, 0 <= k <= 16 -> word_at m2 (ar_p a + k) = word_at m1 (ar_p a + k)).
  { intros j Hj. apply (changes_word _ _ _ _ _ (TheArea (ar_p a)) C2); [eapply owns_sub; [exact Oa|lia..]|].
    intros Hin%list_elem_of_singleton. congruence. }
  destruct (W1 _ Has) as [Wa1 Wa2].
  eexists m2, ul1, (ar_p b), _. split; [|split].
  - rewrite (bind_get_next _ _ _ _ _ Im Ie) by exact Hbs.
    rewrite (bind_done _ _ _ _ _ E1). exact E2.
  - apply (mem_transfer _ _ _ _ Im2 own_grown). cbn [own usable live].
    intros y. destruct (own_grown_cases y) as [|[Hy Hr]]; [auto|]. right. right. exists (ar_p b).
    split; [exact Hy|]. intros c Hc Ep. exfalso.
    pose proof (mi_nodup _ _ _ _ Im2) as Hn. apply nodup_count with (x := ar_p b) in Hn.
    apply (list_elem_of_fmap_2 ar_p), elem_count in Hc. rewrite Ep in Hc. count_open Hn. count_open Hc. count_cases.
  - split; trivial.
    + exact own_grown_env.
    + apply own_grown_area; [|rewrite Wa by lia; exact Wa2].
      rewrite <- (Z.add_0_r (ar_p a)), Wa, Z.add_0_r by lia. exact Wa1.
    + apply own_block_in.
    + cbn [usable]. rewrite Eu, !total_app. unfold total. simpl. lia.
    + intros y Hy. rewrite C2, D1; [reflexivity|intros (p & Hp & _)%list_elem_of_fmap; apply (Hy p Hp)|].
      intros Hin%list_elem_of_singleton. apply (Hy _ Hin).
    + exact own_grown_protected.
Qed.
(** The first half of [grow_area]. *)
Lemma grow_step :
  exists m' ul' fl' v', (if size <? ar_size a + ar_size b then
       aaddr ← get_address (ar_p a);
       set_address (ar_p b) (aaddr +o size);;
       set_size (ar_p b) (ar_size a + ar_size b -o size)
     else
       n ← get_next (ar_p b);
       set_link (prev_of X) n;;
       f ← get_free;
       set_next (ar_p b) f;;
       set_free (ar_p b)) (with_lists m ul fl s) = Done tt (with_lists m' ul' fl' s) /\
    mem_inv m' ul' fl' v' /\ grown_into s m v a size m' v'.
Proof.
  destruct (Z.ltb_spec size (ar_size a + ar_size b)).
  - apply grow_shift; lia.
  - apply grow_whole; lia.
Qed.
End Grow.

(** The second half: the structure gets the new size and the block its guards. *)
Lemma grow_finish s m ul fl v a L size :
  mem_inv m ul fl v -> env_inv s (own v) -> limbo v = ar_p a :: L -> area_in m (own v) a ->
  owns (own v) (ar_addr a) size (TheBlock (ar_p a)) -> ar_size a <= size -> 32 <= size < 2 ^ 64 -> size mod 8 = 0 ->
  exists s',
    (set_size (ar_p a) size;; set_guards (ar_addr a) (ar_p a) size) (with_lists m ul fl s) = Done tt s' /\
    heap_inv s' (mkview (usable v) (mkarea (ar_p a) (ar_addr a) size :: live v) (spare v) L (own v)) /\ still s s' /\
    (forall y, own v y <> TheArea (ar_p a) -> own v y <> TheBlock (ar_p a) \/ payload a y ->
      byte_at (p_mem s') y = byte_at m y).
Proof.
  intros Im Ie El Ha Hb Hle Hs H8.
  assert (Has : ar_p a ∈ structs v) by (unfold structs; rewrite El; in_list).
  rewrite (bind_set_size _ _ _ _ _ Im Ie) by exact Has.
  assert (Oa : owns (own v) (ar_p a) 8 (TheArea (ar_p a))) by (eapply owns_sub; [apply Ha|lia..]).
  assert (Im2 := mem_put _ _ _ _ Im (ar_p a) (ar_p a) 8 size _ ltac:(rewrite El; in_list) Oa (or_introl eq_refl)).
  set (a' := mkarea (ar_p a) (ar_addr a) size). set (m2 := put 8 (ar_p a) size m) in *.
  assert (C2 : changes (own v) [TheArea (ar_p a)] m m2) by (apply (changes_put _ _ _ _ _ _ 8 Oa); set_solver).
  assert (Ha' : area_in m2 (own v) a').
  { destruct Ha as [Q1 Q2 Q3 Q4 Q5 Q6 Q7]. split; simpl; trivial; try lia.
    - apply word_put_same. unfold is_word. lia.
    - unfold m2. rewrite word_put_other by lia. exact Q2. }
  destruct (set_guards_done (with_lists m2 ul fl s) v a' L (heap_lists _ _ _ _ _ Im2 Ie))
    as (s3 & E3 & S3 & C3 & D3 & I3); [simpl; congruence|exact Ha'|simpl; lia|].
  exists s3. split; [exact E3|]. split; [exact I3|]. split; [exact S3|].
  intros y Hy Hp. rewrite <- (C2 y) by (rewrite list_elem_of_singleton; exact Hy). destruct Hp as [Hp|Hp].
  - apply C3. rewrite list_elem_of_singleton. exact Hp.
  - apply D3. unfold payload in Hp. simpl. lia.
Qed.

(** [a] in limbo, [b] the usable area behind it: afterwards [a] is allocated with [size] bytes. *)
Lemma grow_area_done s v a L X b Y size :
  heap_inv s v -> limbo v = ar_p a :: L -> area_in (p_mem s) (own v) a ->
  usable v = X ++ b :: Y -> ar_addr b = ar_addr a + ar_size a ->
  32 <= ar_size a <= size -> size <= ar_size a + ar_size b -> size mod 8 = 0 ->
  exists s' v', grow_area (ar_addr a) (ar_p a) size (prev_of X) (ar_p b) s = Done tt s' /\
    heap_inv s' v' /\ still s s' /\ live v' = mkarea (ar_p a) (ar_addr a) size :: live v /\
    total (usable v') + size = total (usable v) + ar_size a /\
    (forall y, protected (live v) v y -> own v' y = own v y) /\
    (forall y, protected (live v) v y \/ payload a y -> byte_at (p_mem s') y = byte_at (p_mem s) y).
Proof.
  intros I El Ha Eu Hb Hs1 Hs2 H8. pose proof I as [Im Ie].
  destruct (behind_struct _ _ _ v a L X b Y Im El Eu) as (Hbs & Has & Hne).
  destruct (behind_bounds s _ _ _ v a X b Y Im Ie Ha Eu Hb) as (A1 & A2 & A3 & A4).
  pose proof (behind_area _ _ _ v X b Y Im Eu) as Hab.
  unfold grow_area. rewrite (bind_done _ _ _ _ _ (get_size_done s v I _ Has)), (bind_done _ _ _ _ _ (get_size_done s v I _ Hbs)).
  rewrite (ai_size _ _ _ Ha), (ai_size _ _ _ Hab), (wrap_small 64 (_ + _)) by (unfold is_word; lia).
  destruct (grow_step s _ _ _ v a L X b Y Im Ie El Ha Eu Hb size) as (m1 & ul1 & fl1 & v1 & E1 & Im1 & [G1 G2 G3 G4 G5 G6 G7 G8]);
    trivial; try lia.
  rewrite with_lists_self in E1. rewrite (bind_done _ _ _ _ _ E1).
  destruct (grow_finish s m1 ul1 fl1 v1 a L size Im1 G1) as (s3 & E3 & I3 & S3 & D3); [congruence|trivial..|lia|lia|trivial|].
  eexists s3, _. split; [exact E3|]. split; [exact I3|]. split; [exact S3|]. cbn [live usable own].
  split; [rewrite G2; reflexivity|]. split; [exact G6|]. split; [exact G8|].
  intros y [Hy|Hy].
  - assert (Hn : forall p, own v y <> TheArea p) by (intros p; destruct Hy as [Hy|(e & _ & Hy)]; congruence).
    rewrite D3; [apply G7, Hn|rewrite G8 by exact Hy; apply Hn|left]. rewrite G8 by exact Hy.
    destruct Hy as [Hy|(e & He & Hy)]; rewrite Hy; [discriminate|]. intros Ep.
    apply (limbo_not_live _ _ _ v (ar_p a) e Im); [rewrite El; in_list|exact He|congruence].
  - rewrite D3; [|rewrite (G5 y) by (unfold payload in Hy; lia); discriminate|auto].
    apply G7. intros p. rewrite (ai_block _ _ _ Ha) by (unfold payload in Hy; lia). discriminate.
Qed.

(** ** [realloc] *)

Lemma relock s f : heapSem (p_heap s) = unlocked -> on_heapSem (fun _ => unlocked) (on_heapSem f s) = s.
Proof. destruct s as [? ? ? ? [] ?]. simpl. intros ->. reflexivity. Qed.

(** The contents of a block, also when the block has moved. *)
Definition same_contents (m : arr) (a : area) (m' : arr) (r : Z) : Prop :=
  forall i, 0 <= i < ar_size a - 32 -> byte_at m' (r + i) = byte_at m (ar_addr a + 24 + i).

(** Allocated areas occur once, by their structures. *)
Lemma live_nodup s v : heap_inv s v -> NoDup (ar_p <$> live v).
Proof.
  intros I. pose proof (mi_nodup _ _ _ _ (proj1 I)) as H. unfold structs in H.
  rewrite !NoDup_app in H. apply H.
Qed.

(** Copying the contents of the block [a] to the larger block [b]. *)
Lemma copy_block s v a b n :
  heap_inv s v -> a ∈ live v -> b ∈ live v -> ar_p a <> ar_p b -> n = ar_size a - 32 -> ar_size a <= ar_size b ->
  exists m', memcpy (ar_addr b + 24) (ar_addr a + 24) n s = Done (ar_addr b + 24) (set_mem m' s) /\
    writes b (p_mem s) m' /\ same_contents (p_mem s) a m' (ar_addr b + 24).
Proof.
  intros I Ha Hb Hne -> Hs. destruct (live_bounds s v I a Ha) as (A1 & A2 & A3).
  destruct (live_bounds s v I b Hb) as (B1 & B2 & B3).
  assert (Hm : forall c, c ∈ live v -> ar_size a <= ar_size c -> mapped s (ar_addr c + 24) (ar_addr c + 24 + (ar_size a - 32))).
  { intros c Hc Hn y Hy. apply (owned_mapped s v I _ _ _ (ai_block _ _ _ (live_area s v I c Hc))); [discriminate|lia]. }
  destruct (memcpy_filled s (ar_addr b + 24) (ar_addr a + 24) (ar_size a - 32)) as (m2 & E2 & F2).
  { unfold is_word. lia. }
  { split; [apply Hm; trivial|]. split; [apply Hm; trivial; lia|].
    destruct (Z_le_gt_dec (ar_addr b + 24) (ar_addr a + 24)); [auto|].
    destruct (Z_le_gt_dec (ar_addr a + 24 + (ar_size a - 32)) (ar_addr b + 24)); [auto|].
    destruct Hne. apply (live_disjoint s v a b (ar_addr b + 24) I Ha Hb); lia. }
  exists m2. split; [exact E2|]. split.
  - intros y Hy. apply (filled_out _ _ _ _ _ _ F2). unfold payload in Hy. lia.
  - intros i Hi. rewrite (filled_in _ _ _ _ _ _ F2) by lia. unfold moved. f_equal. lia.
Qed.

(** Writing into one block preserves the others. *)
Lemma writes_preserves A s v a m' :
  heap_inv s v -> a ∈ live v -> writes a (p_mem s) m' -> (forall b, b ∈ A -> ar_p b <> ar_p a) ->
  preserves A s v (set_mem m' s) v.
Proof.
  intros I Ha Hw HA. split; trivial. intros y Hm Hp. apply Hw. intros Hpay. unfold payload in Hpay.
  pose proof (ai_block _ _ _ (live_area s v I a Ha) y ltac:(lia)) as Hb.
  destruct Hp as [Hp|(e & He & Hp)]; [congruence|]. apply (HA e He). congruence.
Qed.

(** The contents of a live block survive whatever preserves it. *)
Lemma preserves_contents A s v s' v' a :
  preserves A s v s' v' -> heap_inv s v -> a ∈ live v -> a ∈ A -> same_contents (p_mem s) a (p_mem s') (ar_addr a + 24).
Proof.
  intros P I Hl Ha i Hi. pose proof (ai_block _ _ _ (live_area s v I a Hl)) as Hb. apply (pr_data _ _ _ _ _ P).
  - apply (owned_mapped s v I _ _ _ Hb); [discriminate|lia].
  - right. exists a. split; [exact Ha|]. apply Hb. lia.
Qed.

Lemma move_block_done s v A1 a A2 size :
  heap_ready s v -> live v = A1 ++ a :: A2 -> ar_size a <= size <= 2 ^ 64 - 40 ->
  exists r s' v', move_block (ar_addr a + 24) (ar_p a) size s = Done r s' /\ heap_ready s' v' /\
    preserves (A1 ++ A2) s v s' v' /\
    (r = 0 /\ live v' = live v /\ same_contents (p_mem s) a (p_mem s') (ar_addr a + 24) \/
     exists a', live v' = a' :: A1 ++ A2 /\ r = ar_addr a' + 24 /\ ar_size a' = block_size size /\
       same_contents (p_mem s) a (p_mem s') r).
Proof.
  intros Hr Ea Hs. assert (Hin : a ∈ live v) by (rewrite Ea; in_list).
  destruct (live_bounds s v (hr_inv _ _ Hr) a Hin) as (B1 & B2 & B3).
  destruct (malloc_done s v size Hr ltac:(lia)) as (r & s1 & v1 & E1 & R1 & P1 & Hal).
  destruct (block_size_spec size ltac:(lia)) as (S1 & S2 & S3).
  pose proof (preserves_contents _ _ _ _ _ a P1 (hr_inv _ _ Hr) Hin Hin) as Hold.
  assert (P1' : preserves (A1 ++ A2) s v s1 v1) by (eapply preserves_sub; [|exact P1]; rewrite Ea; set_solver).
  unfold move_block. rewrite (bind_done _ _ _ _ _ E1).
  destruct Hal as [[-> Hl]|(a' & Hl & -> & Hsz)]; [exists 0, s1, v1; split; [reflexivity|]; csplit; auto|].
  pose proof (hr_inv _ _ R1) as I1.
  assert (Hin1 : a ∈ live v1) by (rewrite Hl, Ea; in_list). assert (Hin' : a' ∈ live v1) by (rewrite Hl; in_list).
  destruct (live_bounds s1 v1 I1 a' Hin') as (D1 & D2 & D3). rewrite (proj2 (Z.eqb_neq _ 0)) by lia.
  assert (Hsa : ar_p a ∈ structs v1) by (apply in_structs; in_list).
  rewrite (bind_done _ _ _ _ _ (get_size_done s1 v1 I1 _ Hsa)), (ai_size _ _ _ (live_area s1 v1 I1 a Hin1)).
  rewrite (wrap_small 64 (_ - 32)) by (unfold is_word; lia).
  pose proof (live_nodup s1 v1 I1) as Hn. rewrite Hl, Ea, fmap_cons, NoDup_cons in Hn. destruct Hn as [Hn _].
  assert (Hne : forall b, b ∈ A1 ++ a :: A2 -> ar_p b <> ar_p a')
    by (intros b Hb Ep; apply Hn; rewrite <- Ep; apply list_elem_of_fmap_2, Hb).
  destruct (copy_block s1 v1 a a' (ar_size a - 32) I1 Hin1 Hin') as (m2 & E2 & Hw & Hc); [apply Hne; in_list|trivial|lia|].
  rewrite (bind_done _ _ _ _ _ E2).
  pose proof (writes_ready _ _ _ _ R1 Hin' Hw) as R2.
  destruct (free_done (set_mem m2 s1) v1 (a' :: A1) a A2 R2) as (s3 & v3 & E3 & R3 & P3 & L3 & _ & _ & _);
    [rewrite Hl, Ea; reflexivity|].
  rewrite (bind_done _ _ _ _ _ E3). exists (ar_addr a' + 24), s3, v3. split; [reflexivity|]. split; [exact R3|]. split.
  - apply (preserves_trans _ _ _ s1 v1); [exact P1'|]. apply (preserves_trans _ _ _ (set_mem m2 s1) v1).
    + apply (writes_preserves _ _ _ a'); trivial. intros b Hb. apply Hne. set_solver.
    + eapply preserves_sub; [|exact P3]. set_solver.
  - right. exists a'. split; [exact L3|]. split; [reflexivity|]. split; [exact Hsz|]. intros i Hi.
    rewrite (preserves_contents _ _ _ _ _ a' P3 (hr_inv _ _ R2) Hin' ltac:(in_list)) by lia.
    change (p_mem (set_mem m2 s1)) with m2. rewrite (Hc i Hi). apply Hold, Hi.
Qed.

(** Growing an allocated block into the usable area behind it, under the lock. *)
Lemma grow_block_done s v A1 a A2 X b Y size :
  heap_ready s v -> live v = A1 ++ a :: A2 -> usable v = X ++ b :: Y -> ar_addr b = ar_addr a + ar_size a ->
  32 <= ar_size a <= size -> size <= ar_size a + ar_size b -> size mod 8 = 0 ->
  exists s' v',
    grow_area (ar_addr a) (ar_p a) size (prev_of X) (ar_p b) (on_heapSem (fun _ => locked) s) = Done tt s' /\
    heapSem (p_heap s') = locked /\ heap_ready (on_heapSem (fun _ => unlocked) s') v' /\
    preserves (A1 ++ A2) s v (on_heapSem (fun _ => unlocked) s') v' /\
    live v' = mkarea (ar_p a) (ar_addr a) size :: A1 ++ A2 /\ same_contents (p_mem s) a (p_mem s') (ar_addr a + 24).
Proof.
  intros [I Hl Hf] Ea Eu Hb Hs1 Hs2 H8. set (s0 := on_heapSem (fun _ => locked) s).
  pose proof (live_area s v I a ltac:(rewrite Ea; in_list)) as Ha.
  set (v1 := mkview (usable v) (A1 ++ A2) (spare v) (ar_p a :: limbo v) (own v)).
  assert (I1 : heap_inv s0 v1)
    by (apply heap_inv_sem; split; [exact (mem_unlive _ _ _ _ (proj1 I) A1 a A2 Ea)|apply I]).
  destruct (grow_area_done s0 v1 a (limbo v) X b Y size I1 eq_refl Ha Eu Hb Hs1 Hs2 H8)
    as (s2 & v2 & E2 & I2 & St & L2 & T2 & O2 & D2).
  unfold still, frame_of in St. injection St as Q1 Q2 Q3 Q4 Q5 Q6 Q7 Q8.
  assert (P2 : preserves (A1 ++ A2) s0 v s2 v2)
    by (split; [auto|auto|rewrite Q1; trivial|rewrite Q3, Q4, Q7, Q8; reflexivity]).
  destruct (preserves_lock _ s s2 v v2 Hl P2) as [P3 Hk].
  exists s2, v2. csplit; trivial.
  - split; [apply heap_inv_sem, I2|reflexivity|].
    cbn [p_heap on_heapSem set_heap pageCount]. rewrite Q6, L2, Ea in *.
    change (live v1) with (A1 ++ A2). change (usable v1) with (usable v) in T2.
    rewrite (total_app A1 (a :: A2)) in Hf. rewrite (total_app [_] (A1 ++ A2) : total (_ :: A1 ++ A2) = _), total_app.
    simpl in *. lia.
  - intros i Hi. apply D2. right. unfold payload. lia.
Qed.

(** The block after [realloc]: the old one if there is no memory, or one that is large enough
    and has the old contents. *)
Definition reallocated (m : arr) (v : view) (A : list area) (a : area) (size : Z) (m' : arr) (v' : view) (r : Z) : Prop :=
  r = 0 /\ live v' = live v /\ same_contents m a m' (ar_addr a + 24) \/
  exists a', live v' ≡ₚ a' :: A /\ r = ar_addr a' + 24 /\ block_size size <= ar_size a' /\
    same_contents m a m' r.

Lemma realloc_done s v A1 a A2 size :
  heap_ready s v -> live v = A1 ++ a :: A2 -> 0 < size <= 2 ^ 64 - 80 ->
  exists r s' v', realloc (ar_addr a + 24) size s = Done r s' /\ heap_ready s' v' /\
    preserves (A1 ++ A2) s v s' v' /\ reallocated (p_mem s) v (A1 ++ A2) a size (p_mem s') v' r.
Proof.
  intros Hr Ea Hs. pose proof Hr as [I Hl Hf]. assert (Hin : a ∈ live v) by (rewrite Ea; in_list).
  pose proof (live_area s v I a Hin) as Ha. pose proof (live_guarded s v I a Hin) as Hg.
  destruct (live_bounds s v I a Hin) as (B1 & B2 & B3). destruct (block_size_spec size ltac:(lia)) as (S1 & S2 & S3).
  unfold realloc. rewrite (proj2 (Z.eqb_neq _ 0)) by lia.
  replace (ar_addr a + 24 - 24) with (ar_addr a) by lia. cbv zeta.
  pose proof (live_load s v I a Hin 0 ltac:(lia) ltac:(lia)) as L0. rewrite Z.add_0_r in L0.
  rewrite (bind_done _ _ _ _ _ L0), (g_area _ _ Hg), (bind_done _ _ _ _ _ (check_guards_done s v I a Hin)).
  rewrite (bind_done _ _ _ _ _ (usemdown_done s Hl)). set (s0 := on_heapSem (fun _ => locked) s).
  assert (I0 : heap_inv s0 v) by apply heap_inv_sem, I.
  assert (Hsa : ar_p a ∈ structs v) by (apply in_structs; in_list).
  rewrite (bind_done _ _ _ _ _ (get_size_done s0 v I0 _ Hsa)), (ai_size _ _ _ Ha : word_at (p_mem s0) _ = _).
  rewrite (round_up_8 size ltac:(lia)).
  assert (Eself : on_heapSem (fun _ => unlocked) s0 = s) by (apply relock, Hl).
  assert (Prefl : preserves (A1 ++ A2) s v s v) by apply extends_preserves, extends_refl.
  destruct (Z.ltb_spec (block_size size) (ar_size a)).
  { rewrite (bind_done _ _ _ _ _ (usemup_done s0 eq_refl)), Eself. eexists _, s, v. split; [reflexivity|].
    split; [trivial|]. split; [trivial|]. right. exists a. rewrite Ea. csplit; try lia.
    - symmetry. apply Permutation_middle.
    - intros i Hi. reflexivity. }
  destruct (find_behind_done s0 v a (block_size size) I0 (usable_length s v I Hf) Hsa Ha) as (pr & q & E1 & Hq).
  rewrite (bind_done _ _ _ _ _ E1). destruct Hq as [->|(X & b & Y & Eu & [Hb Hsz] & -> & ->)].
  - cbn [negb Z.eqb]. rewrite (bind_done _ _ _ _ _ (usemup_done s0 eq_refl)), Eself.
    destruct (move_block_done s v A1 a A2 (block_size size) Hr Ea ltac:(lia)) as (r & s1 & v1 & E2 & R2 & P2 & H2).
    exists r, s1, v1. split; [exact E2|]. split; [exact R2|]. split; [exact P2|].
    destruct H2 as [H2|(a' & L2 & -> & Z2 & C2)]; [left; exact H2|right]. exists a'. rewrite L2, Z2.
    destruct (block_size_spec (block_size size) ltac:(lia)). csplit; trivial. lia.
  - assert (Hz : ar_p b <> 0).
    { assert (Hbs : ar_p b ∈ structs v) by (apply in_structs; rewrite Eu; in_list).
      pose proof (struct_bounds s v I _ Hbs). lia. }
    rewrite (proj2 (Z.eqb_neq _ _) Hz). cbn [negb].
    destruct (grow_block_done s v A1 a A2 X b Y (block_size size) Hr Ea Eu Hb ltac:(lia) Hsz S2)
      as (s2 & v2 & E2 & Hk & R2 & P2 & L2 & C2).
    rewrite (bind_done _ _ _ _ _ E2), (bind_done _ _ _ _ _ (usemup_done s2 Hk)).
    eexists _, _, v2. split; [reflexivity|]. split; [exact R2|]. split; [exact P2|].
    right. exists (mkarea (ar_p a) (ar_addr a) (block_size size)). rewrite L2. csplit; trivial. simpl. lia.
Qed.
