(* ===== verification/Alloc.v ===== *)
(** * The contract of the allocator

    What [malloc] and [free] promise to the modules that use them: blocks that are mapped and
    apart from each other, and that only their owner changes.  The class states the contract
    for a set of live blocks; the heap of lib/c/stdlib/heap.c implements it. *)

From Stdlib Require Import ZArith Lia Bool.
From stdpp Require Import base list numbers option gmap.
From S2P Require Import Prelude CMem MemOps Heap HeapInv HeapSpec HeapFree HeapRealloc.

(** The bytes of the live blocks [B] (address and size) and of foreign memory are the same. *)
Definition keeps (F : Z -> Prop) (B : gmap Z Z) (s s' : process) : Prop :=
  (forall p n y, B !! p = Some n -> p <= y < p + n -> byte_at (p_mem s') y = byte_at (p_mem s) y) /\
  (forall y, F y -> byte_at (p_mem s') y = byte_at (p_mem s) y).

Lemma keeps_trans F B s1 s2 s3 : keeps F B s1 s2 -> keeps F B s2 s3 -> keeps F B s1 s3.
Proof.
  intros [H1 H2] [H3 H4]. split; [intros p n y Hp Hy; rewrite (H3 p n), (H1 p n)|intros y Hy; rewrite H4, H2]; trivial.
Qed.

Lemma keeps_sub F B B' s s' : B ⊆ B' -> keeps F B' s s' -> keeps F B s s'.
Proof. intros H [A1 A2]. split; [|exact A2]. intros p n y Hp. apply A1. eapply lookup_weaken; eassumption. Qed.

(** [F] is memory that does not belong to the heap: static data and the stack. *)
Class Allocator (F : Z -> Prop) (inv : process -> gmap Z Z -> Prop) : Prop := {
  al_live s B p n : inv s B -> B !! p = Some n -> 0 < p /\ 0 < n /\ p + n <= 2 ^ 47 /\ mapped s p (p + n);
  al_disjoint s B p n q k :
    inv s B -> B !! p = Some n -> B !! q = Some k -> p <> q -> p + n <= q \/ q + k <= p;
  al_foreign s B y : inv s B -> F y -> p_mapped s y = true /\ forall p n, B !! p = Some n -> y < p \/ p + n <= y;
  al_store s B p n m :
    inv s B -> B !! p = Some n ->
    (forall y, y < p \/ p + n <= y -> byte_at m y = byte_at (p_mem s) y) -> inv (set_mem m s) B;
  al_foreign_store s B m :
    inv s B -> (forall y, ~ F y -> byte_at m y = byte_at (p_mem s) y) -> inv (set_mem m s) B;
  al_malloc s B n :
    inv s B -> 0 < n <= 2 ^ 64 - 40 ->
    exists r s', malloc n s = Done r s' /\ keeps F B s s' /\
      (r = 0 /\ inv s' B \/ r <> 0 /\ B !! r = None /\ inv s' (<[r := n]> B));
  al_free s B p n :
    inv s B -> B !! p = Some n ->
    exists s', free p s = Done tt s' /\ keeps F (delete p B) s s' /\ inv s' (delete p B)
}.

(** ** The heap implements the contract *)

Definition heap_blocks (F : Z -> Prop) (s : process) (B : gmap Z Z) : Prop :=
  exists v, heap_ready s v /\
    (forall p n, B !! p = Some n -> exists a, a ∈ live v /\ p = ar_addr a + 24 /\ 0 < n <= ar_size a - 32) /\
    (forall y, F y -> p_mapped s y = true /\ own v y = Nobody).

Section Instance.
Context (F : Z -> Prop).

Lemma block_area s v a y :
  heap_ready s v -> a ∈ live v -> ar_addr a <= y < ar_addr a + ar_size a ->
  own v y = TheBlock (ar_p a) /\ p_mapped s y = true.
Proof.
  intros [I _ _] Ha Hy. pose proof (live_area s v I a Ha) as Haa.
  split; [apply (ai_block _ _ _ Haa), Hy|].
  apply (owned_mapped s v I _ _ _ (ai_block _ _ _ Haa)); [discriminate|exact Hy].
Qed.

(** Different blocks have different areas. *)
Lemma block_same s v a b :
  heap_ready s v -> a ∈ live v -> b ∈ live v -> ar_p a = ar_p b -> a = b.
Proof.
  intros [I _ _] Ha Hb. apply (area_unique (p_mem s) (own v)); apply live_area; trivial.
Qed.

Lemma blocks_apart s v a b :
  heap_ready s v -> a ∈ live v -> b ∈ live v -> a <> b ->
  ar_addr a + ar_size a <= ar_addr b \/ ar_addr b + ar_size b <= ar_addr a.
Proof.
  intros R Ha Hb Hne. pose proof (live_bounds s v (hr_inv _ _ R) a Ha). pose proof (live_bounds s v (hr_inv _ _ R) b Hb).
  destruct (Z_le_gt_dec (ar_addr a + ar_size a) (ar_addr b)); [auto|].
  destruct (Z_le_gt_dec (ar_addr b + ar_size b) (ar_addr a)); [auto|].
  destruct Hne. apply (block_same s v); trivial.
  apply (live_disjoint s v a b (Z.max (ar_addr a) (ar_addr b)) (hr_inv _ _ R) Ha Hb); lia.
Qed.

(** What the heap preserves is what the contract asks for. *)
Lemma preserves_keeps A s v s' v' B :
  heap_ready s v -> preserves A s v s' v' -> (forall y, F y -> p_mapped s y = true /\ own v y = Nobody) ->
  (forall p n, B !! p = Some n -> exists a, a ∈ A /\ a ∈ live v /\ p = ar_addr a + 24 /\ 0 < n <= ar_size a - 32) ->
  keeps F B s s' /\ (forall y, F y -> p_mapped s' y = true /\ own v' y = Nobody).
Proof.
  intros R [P1 P2 P3 P4] HF HB. split; [split|].
  - intros p n y Hp Hy. destruct (HB p n Hp) as (a & HA & Ha & -> & Hn).
    destruct (block_area s v a y R Ha ltac:(lia)) as [Ho Hm]. apply P2; [trivial|]. right. eauto.
  - intros y Hy. destruct (HF y Hy) as [Hm Ho]. apply P2; [trivial|left; trivial].
  - intros y Hy. destruct (HF y Hy) as [Hm Ho]. rewrite P1; auto. left. trivial.
Qed.

Lemma heap_malloc s v B n :
  heap_ready s v ->
  (forall p n, B !! p = Some n -> exists a, a ∈ live v /\ p = ar_addr a + 24 /\ 0 < n <= ar_size a - 32) ->
  (forall y, F y -> p_mapped s y = true /\ own v y = Nobody) -> 0 < n <= 2 ^ 64 - 40 ->
  exists r s', malloc n s = Done r s' /\ keeps F B s s' /\
    (r = 0 /\ heap_blocks F s' B \/ r <> 0 /\ B !! r = None /\ heap_blocks F s' (<[r := n]> B)).
Proof.
  intros R HB HF Hn. destruct (malloc_done s v n R Hn) as (r & s' & v' & E & R' & P & Hal).
  destruct (preserves_keeps (live v) s v s' v' B R P HF) as [Hk HF'].
  { intros p k Hp. destruct (HB p k Hp) as (a & Ha & ? & ?). eauto 6. }
  exists r, s'. split; [exact E|]. split; [exact Hk|]. destruct (block_size_spec n Hn) as (S1 & S2 & S3).
  destruct Hal as [[-> Hl]|(a & Hl & -> & Hsz)].
  - left. split; [reflexivity|]. exists v'. rewrite Hl. auto.
  - right. assert (Hin : a ∈ live v') by (rewrite Hl; in_list).
    destruct (live_bounds s' v' (hr_inv _ _ R') a Hin) as (B1 & B2 & B3). split; [lia|]. split.
    + destruct (B !! (ar_addr a + 24)) as [k|] eqn:Eb; [|reflexivity]. exfalso.
      destruct (HB _ _ Eb) as (b & Hb & Eab & Hk').
      assert (Hb' : b ∈ live v') by (rewrite Hl; in_list).
      assert (Eba : a = b).
      { apply (block_same s' v'); trivial.
        apply (live_disjoint s' v' a b (ar_addr a) (hr_inv _ _ R') Hin Hb'); lia. }
      subst b. pose proof (mi_nodup _ _ _ _ (proj1 (hr_inv _ _ R'))) as Hd. unfold structs in Hd. rewrite Hl in Hd.
      apply nodup_count with (x := ar_p a) in Hd. apply (list_elem_of_fmap_2 ar_p), elem_count in Hb.
      count_open Hd. count_cases.
    + exists v'. split; [exact R'|]. split; [|exact HF']. intros p k Hp. destruct (decide (p = ar_addr a + 24)) as [->|Hne].
      * rewrite lookup_insert_eq in Hp. injection Hp as <-. exists a. csplit; trivial; lia.
      * rewrite lookup_insert_ne in Hp by congruence. destruct (HB p k Hp) as (b & Hb & ? & ?).
        exists b. rewrite Hl. csplit; trivial; try lia. in_list.
Qed.

Lemma heap_free s v B p n :
  heap_ready s v ->
  (forall p n, B !! p = Some n -> exists a, a ∈ live v /\ p = ar_addr a + 24 /\ 0 < n <= ar_size a - 32) ->
  (forall y, F y -> p_mapped s y = true /\ own v y = Nobody) -> B !! p = Some n ->
  exists s', free p s = Done tt s' /\ keeps F (delete p B) s s' /\ heap_blocks F s' (delete p B).
Proof.
  intros R HB HF Hp. destruct (HB p n Hp) as (a & Ha & -> & Hn).
  destruct (list_elem_of_split _ _ Ha) as (A1 & A2 & Ea).
  destruct (free_done s v A1 a A2 R Ea) as (s' & v' & E & R' & P & Hl & _ & _ & _).
  assert (HB' : forall q k, delete (ar_addr a + 24) B !! q = Some k ->
    exists b, b ∈ A1 ++ A2 /\ b ∈ live v /\ q = ar_addr b + 24 /\ 0 < k <= ar_size b - 32).
  { intros q k (Hne & Hq)%lookup_delete_Some. destruct (HB q k Hq) as (b & Hb & -> & Hk).
    exists b. csplit; trivial; try lia. rewrite Ea, elem_of_app, elem_of_cons in Hb.
    rewrite elem_of_app. destruct Hb as [?|[->|?]]; auto. contradiction. }
  destruct (preserves_keeps (A1 ++ A2) s v s' v' _ R P HF HB') as [Hk HF'].
  exists s'. split; [exact E|]. split; [exact Hk|]. exists v'. split; [exact R'|]. split; [|exact HF'].
  intros q k Hq. destruct (HB' q k Hq) as (b & Hb & _ & ? & ?). exists b. rewrite Hl. auto.
Qed.

#[export] Instance heap_allocator : Allocator F (heap_blocks F).
Proof.
  split.
  - intros s B p n (v & R & HB & HF) Hp. destruct (HB p n Hp) as (a & Ha & -> & Hn).
    destruct (live_bounds s v (hr_inv _ _ R) a Ha) as (B1 & B2 & B3). csplit; try lia.
    intros y Hy. apply (block_area s v a y R Ha). lia.
  - intros s B p n q k (v & R & HB & HF) Hp Hq Hne.
    destruct (HB p n Hp) as (a & Ha & -> & Hn). destruct (HB q k Hq) as (b & Hb & -> & Hk).
    destruct (blocks_apart s v a b R Ha Hb ltac:(congruence)); lia.
  - intros s B y (v & R & HB & HF) Hy. destruct (HF y Hy) as [Hm Ho]. split; [trivial|].
    intros p n Hp. destruct (HB p n Hp) as (a & Ha & -> & Hn).
    destruct (Z_lt_le_dec y (ar_addr a + 24)); [auto|]. destruct (Z_lt_le_dec y (ar_addr a + 24 + n)); [|auto].
    destruct (block_area s v a y R Ha ltac:(lia)). congruence.
  - intros s B p n m (v & R & HB & HF) Hp Hm. destruct (HB p n Hp) as (a & Ha & -> & Hn).
    exists v. split; [|auto]. apply (writes_ready s v a); trivial. intros y Hy. apply Hm. unfold payload in Hy. lia.
  - intros s B m (v & R & HB & HF) Hm. exists v. split; [|auto]. destruct R as [I Hl Hf].
    split; [|exact Hl|exact Hf]. split; [|apply (env_still s); [reflexivity|apply I]].
    apply (mem_changes _ _ _ _ (proj1 I) [Nobody]); [|intros q _ ?%list_elem_of_singleton; discriminate..].
    intros y Hy. apply Hm. intros HFy. apply Hy, list_elem_of_singleton, HF, HFy.
  - intros s B n (v & R & HB & HF) Hn. apply (heap_malloc s v B n); trivial.
  - intros s B p n (v & R & HB & HF) Hp. apply (heap_free s v B p n); trivial.
Qed.
End Instance.
