(* ===== verification/HeapProps.v ===== *)
(** * Theorems about the heap

    What a program may rely on when it calls [malloc], [free], [realloc] and [calloc], where
    the guards catch a mistake, and where the code fails. *)

From Stdlib Require Import ZArith Lia Bool.
From stdpp Require Import base list numbers option gmap.
From S2P Require Import Prelude CMem MemOps Heap HeapInv HeapSpec HeapFree HeapRealloc Alloc.

(** ** The start of a process *)

Definition no_view : view := mkview [] [] [] [] (fun _ => Nobody).

(** Before the first call: no areas, the data area ends at a page boundary, and the kernel adds
    only memory below 2^47 that is not yet in use. *)
Definition start_ok (s : process) : Prop :=
  p_heap s = mkheap 0 0 0 0 unlocked true /\ 0 < p_end s <= 2 ^ 47 /\ p_end s mod PAGE_SIZE = 0 /\
  forall e n, p_end s <= e -> 0 <= n -> p_grant s e n = true ->
    e + PAGE_SIZE * n <= 2 ^ 47 /\ forall y, e <= y < e + PAGE_SIZE * n -> p_mapped s y = false.

Lemma start_ready s : start_ok s -> heap_ready s no_view.
Proof.
  intros (Hh & He & Hm & Hg). split; [|rewrite Hh; reflexivity|rewrite Hh; simpl; lia].
  split; split; rewrite ?Hh; simpl; trivial; try (intros ? []%not_elem_of_nil).
  - apply NoDup_nil_2.
  - intros y []. reflexivity.
  - discriminate.
  - auto.
  - csplit; try lia. left. auto.
Qed.

(** A process whose data area starts out empty at 2^16 and may grow to the given end. *)
Definition example_process (limit : Z) : process :=
  mkprocess (fun _ => 0) (fun _ => false) 65536 (fun e n => (0 <=? n) && (e + PAGE_SIZE * n <=? limit))
    (mkheap 0 0 0 0 unlocked true) 0 no_stdio.

Lemma example_start limit : limit <= 2 ^ 47 -> start_ok (example_process limit).
Proof.
  intros Hl. split; [reflexivity|]. split; [simpl; lia|]. split; [reflexivity|].
  intros e n He Hn Hg. simpl in Hg. apply andb_true_iff in Hg as [_ Hg%Z.leb_le].
  split; [lia|reflexivity].
Qed.

(** ** Blocks *)

(** C3: [malloc] returns NULL or a new block: aligned, mapped, large enough, apart from every
    live block, and taken from memory that was unused.  Live blocks and the memory outside of
    the heap keep their contents, the lock is free again, and the heap stays well-formed. *)
Theorem malloc_gives_block s v size :
  heap_ready s v -> 0 < size <= 2 ^ 64 - 40 ->
  exists r s' v', malloc size s = Done r s' /\ heap_ready s' v' /\
    (forall y, p_mapped s y = true -> protected (live v) v y -> byte_at (p_mem s') y = byte_at (p_mem s) y) /\
    (r = 0 /\ live v' = live v \/
     exists a, live v' = a :: live v /\ r = ar_addr a + 24 /\ r mod 8 = 0 /\ size <= ar_size a - 32 /\
       forall y, r <= y < r + size -> p_mapped s' y = true /\ (p_mapped s y = true -> ~ protected (live v) v y)).
Proof.
  intros R Hs. destruct (malloc_done s v size R Hs) as (r & s' & v' & E & R' & P & Hal).
  destruct (block_size_spec size Hs) as (S1 & S2 & S3).
  exists r, s', v'. split; [exact E|]. split; [exact R'|]. split; [apply P|].
  destruct Hal as [Hal|(a & Hl & -> & Hsz)]; [left; exact Hal|right].
  assert (Ha : a ∈ live v') by (rewrite Hl; in_list).
  exists a. split; [exact Hl|]. split; [reflexivity|].
  pose proof (ai_align _ _ _ (live_area s' v' (hr_inv _ _ R') a Ha)) as Hal.
  split; [Z.div_mod_to_equations; lia|]. split; [lia|]. intros y Hy.
  destruct (block_area s' v' a y R' Ha ltac:(lia)) as [Ho Hm]. split; [exact Hm|].
  intros Hm' Hp. rewrite (pr_own _ _ _ _ _ P y Hm' Hp) in Ho. destruct Hp as [Hp|(b & Hb & Hp)]; [congruence|].
  assert (Eb : ar_p b = ar_p a) by congruence.
  pose proof (mi_nodup _ _ _ _ (proj1 (hr_inv _ _ R'))) as Hd. unfold structs in Hd. rewrite Hl in Hd.
  apply nodup_count with (x := ar_p a) in Hd. apply (list_elem_of_fmap_2 ar_p), elem_count in Hb.
  rewrite Eb in Hb. count_open Hd. count_cases.
Qed.

Lemma malloc_gives_block_witness :
  exists r s' v', malloc 100 (example_process (2 ^ 20)) = Done r s' /\ heap_ready s' v' /\
    (forall y, p_mapped (example_process (2 ^ 20)) y = true -> protected [] no_view y ->
      byte_at (p_mem s') y = byte_at (p_mem (example_process (2 ^ 20))) y) /\
    (r = 0 /\ live v' = [] \/
     exists a, live v' = [a] /\ r = ar_addr a + 24 /\ r mod 8 = 0 /\ 100 <= ar_size a - 32 /\
       forall y, r <= y < r + 100 -> p_mapped s' y = true /\
         (p_mapped (example_process (2 ^ 20)) y = true -> ~ protected [] no_view y)).
Proof.
  apply (malloc_gives_block (example_process (2 ^ 20)) no_view 100); [|lia].
  apply start_ready, example_start. lia.
Defined.

(** ** An example

    A heap of two pages: three structures in the first; in the second an allocated block of 32
    bytes, and behind it a usable area. *)

Definition sample_mem : arr := fold_right (fun '(a, x) m => put 8 a x m) (fun _ => 0)
  [(65536, 64); (65544, 69632);
   (65560, 4032); (65568, 69696); (65576, 0); (65600, 0);
   (69632, 65536); (69640, 32); (69648, GUARD_MAGIC); (69688, GUARD_MAGIC)].

Definition sample_heap (limit : Z) : process :=
  mkprocess sample_mem (fun y => (65536 <=? y) && (y <? 73728)) 73728
    (fun e n => e + PAGE_SIZE * n <=? limit)
    (mkheap 65560 65584 65536 2 unlocked true) 0 no_stdio.

Definition sample_block : area := mkarea 65536 69632 64.
Definition sample_rest : area := mkarea 65560 69696 4032.
Definition sample_own : Z -> owner := fun y =>
  if (65536 <=? y) && (y <? 65560) then TheArea 65536
  else if (65560 <=? y) && (y <? 65584) then TheArea 65560
  else if (65584 <=? y) && (y <? 65608) then TheArea 65584
  else if (69632 <=? y) && (y <? 69696) then TheBlock 65536
  else if (69696 <=? y) && (y <? 73728) then TheBlock 65560 else Nobody.
Definition sample_view : view := mkview [sample_rest] [sample_block] [65584] [] sample_own.

Lemma range_in lo hi y : lo <= y < hi -> (lo <=? y) && (y <? hi) = true.
Proof. intros. apply andb_true_iff. rewrite Z.leb_le, Z.ltb_lt. lia. Qed.

Lemma range_out lo hi y : y < lo \/ hi <= y -> (lo <=? y) && (y <? hi) = false.
Proof. intros. apply andb_false_iff. rewrite Z.leb_gt, Z.ltb_ge. lia. Qed.

Ltac sample_range := intros y Hy; simpl in Hy |- *; unfold sample_own;
  repeat (rewrite range_out by lia); rewrite ?range_in by lia; reflexivity.

Lemma sample_area a : a ∈ [sample_rest; sample_block] -> area_in sample_mem sample_own a.
Proof.
  intros [->|[->|[]%not_elem_of_nil]%elem_of_cons]%elem_of_cons;
    (split; [reflexivity|reflexivity|sample_range|sample_range|simpl; lia|reflexivity|reflexivity]).
Qed.

Lemma sample_ready limit : limit <= 2 ^ 47 -> heap_ready (sample_heap limit) sample_view.
Proof.
  intros Hl. split; [split|reflexivity|simpl; unfold PAGE_SIZE; lia].
  - split.
    + simpl. repeat split; reflexivity.
    + simpl. repeat split; reflexivity.
    + exact sample_area.
    + intros p [->|[]%not_elem_of_nil]%elem_of_cons. sample_range.
    + intros a [->|[]%not_elem_of_nil]%elem_of_cons. split; try reflexivity. simpl. lia.
    + refine (bool_decide_unpack _ _). vm_compute. exact I.
  - split; simpl.
    + intros y Hy. destruct (Z_lt_le_dec y 65536); [|destruct (Z_lt_le_dec y 73728)].
      * destruct Hy. unfold sample_own. rewrite !range_out by lia. reflexivity.
      * split; [apply range_in; lia|lia].
      * destruct Hy. unfold sample_own. rewrite !range_out by lia. reflexivity.
    + intros y p. unfold sample_own.
      repeat match goal with |- context [if ?b then _ else _] => destruct b end; intros [=<-]; reflexivity.
    + split; [lia|reflexivity].
    + csplit; try lia. right. split; [lia|reflexivity].
    + intros e n He Hn Hg%Z.leb_le. split; [lia|]. intros y Hy. apply andb_false_iff. right. apply Z.ltb_ge. lia.
Qed.

(** C4: [free] gives a live block back: its bytes, guards included, and the usable areas that end
    where it starts or start where it ends become one usable area, from the first byte of these to the
    last; all other usable areas stay as they are and none of them touches the block.  The other
    live blocks and the memory outside of the heap keep their contents, and the heap stays
    well-formed. *)
Theorem free_returns_block s v A1 a A2 :
  heap_ready s v -> live v = A1 ++ a :: A2 ->
  exists s' v', free (ar_addr a + 24) s = Done tt s' /\ heap_ready s' v' /\ live v' = A1 ++ A2 /\
    merges (usable v) a (usable v') /\
    (forall y, p_mapped s y = true -> protected (A1 ++ A2) v y -> byte_at (p_mem s') y = byte_at (p_mem s) y).
Proof.
  intros R Ea. destruct (free_done s v A1 a A2 R Ea) as (s' & v' & E & R' & P & Hl & _ & _ & Hm).
  exists s', v'. csplit; trivial. apply P.
Qed.

(** The block and the area behind it become the whole page. *)
Lemma free_returns_block_witness :
  exists s' v' a', free (69632 + 24) (sample_heap 73728) = Done tt s' /\ heap_ready s' v' /\ live v' = [] /\
    usable v' = [a'] /\ ar_addr a' = 69632 /\ ar_size a' = 4096 /\
    (forall y, p_mapped (sample_heap 73728) y = true -> protected [] sample_view y ->
      byte_at (p_mem s') y = byte_at sample_mem y).
Proof.
  destruct (free_returns_block (sample_heap 73728) sample_view [] sample_block []) as (s' & v' & E & R & L & M & D);
    [apply sample_ready; lia|reflexivity|].
  destruct M as (B & N & U & a' & Eu & Eu' & Ha & Hs & HB & HN & HU). apply Permutation_length_1_inv in Eu.
  destruct B as [|b B]; [|injection Eu as -> _; apply Forall_cons in HB as [HB _]; discriminate].
  destruct N as [|c N].
  { rewrite !app_nil_l in Eu. subst U. apply Forall_cons in HU as [[_ HU] _]. destruct HU. reflexivity. }
  injection Eu as -> Eu. apply app_eq_nil in Eu as [-> ->]. apply symmetry, Permutation_length_1_inv in Eu'.
  exists s', v', a'. csplit; trivial.
Defined.

(** C12: [realloc] keeps the contents: unless it returns NULL and leaves the block alone, the
    block it returns has room for the new size and starts with the bytes of the old one; all
    other blocks and the memory outside of the heap are unchanged. *)
Theorem realloc_keeps_contents s v A1 a A2 size :
  heap_ready s v -> live v = A1 ++ a :: A2 -> 0 < size <= 2 ^ 64 - 80 ->
  exists r s' v', realloc (ar_addr a + 24) size s = Done r s' /\ heap_ready s' v' /\
    (forall y, p_mapped s y = true -> protected (A1 ++ A2) v y -> byte_at (p_mem s') y = byte_at (p_mem s) y) /\
    (r = 0 /\ live v' = live v /\ same_contents (p_mem s) a (p_mem s') (ar_addr a + 24) \/
     exists a', live v' ≡ₚ a' :: A1 ++ A2 /\ r = ar_addr a' + 24 /\ size <= ar_size a' - 32 /\
       same_contents (p_mem s) a (p_mem s') r).
Proof.
  intros R Ea Hs. destruct (realloc_done s v A1 a A2 size R Ea Hs) as (r & s' & v' & E & R' & P & Hr).
  exists r, s', v'. split; [exact E|]. split; [exact R'|]. split; [apply P|].
  destruct Hr as [Hr|(a' & Hl & -> & Hb & Hc)]; [left; exact Hr|right]. exists a'.
  destruct (block_size_spec size ltac:(lia)) as (S1 & _ & _). csplit; trivial. lia.
Qed.

Lemma realloc_keeps_contents_witness :
  exists r s' v', realloc (69632 + 24) 5000 (sample_heap 90112) = Done r s' /\ heap_ready s' v' /\
    (forall y, p_mapped (sample_heap 90112) y = true -> protected [] sample_view y ->
      byte_at (p_mem s') y = byte_at sample_mem y) /\
    (r = 0 /\ live v' = [sample_block] /\ same_contents sample_mem sample_block (p_mem s') (69632 + 24) \/
     exists a', live v' ≡ₚ [a'] /\ r = ar_addr a' + 24 /\ 5000 <= ar_size a' - 32 /\
       same_contents sample_mem sample_block (p_mem s') r).
Proof.
  apply (realloc_keeps_contents (sample_heap 90112) sample_view [] sample_block []);
    [apply sample_ready; lia|reflexivity|lia].
Defined.

(** [calloc] clears the block. *)
Theorem calloc_clears s v num size :
  heap_ready s v -> 0 < num -> 0 < size -> num * size <= 2 ^ 64 - 40 ->
  exists r s' v', calloc num size s = Done r s' /\ heap_ready s' v' /\
    (r = 0 /\ live v' = live v \/
     exists a, live v' = a :: live v /\ r = ar_addr a + 24 /\ num * size <= ar_size a - 32 /\
       forall y, r <= y < r + num * size -> byte_at (p_mem s') y = 0).
Proof.
  intros R Hn Hs Hns. set (n := num * size) in *. assert (Hpos : 0 < n) by (unfold n; nia).
  destruct (malloc_done s v n R ltac:(lia)) as (r & s1 & v1 & E1 & R1 & _ & Hal).
  destruct (block_size_spec n ltac:(lia)) as (S1 & _ & _).
  unfold calloc. fold n. rewrite (wrap_small 64 n) by (unfold is_word; lia). rewrite (bind_done _ _ _ _ _ E1).
  destruct Hal as [[-> Hl]|(a & Hl & -> & Hsz)].
  { exists 0, s1, v1. auto. }
  assert (Ha : a ∈ live v1) by (rewrite Hl; in_list).
  destruct (live_bounds s1 v1 (hr_inv _ _ R1) a Ha) as (B1 & B2 & B3). rewrite (proj2 (Z.eqb_neq _ 0)) by lia.
  destruct (memset_filled s1 (ar_addr a + 24) 0 n) as (m & E2 & Hf); [lia|unfold is_word; lia| |].
  { intros y Hy. apply (block_area s1 v1 a y R1 Ha). lia. }
  unfold memclear. erewrite bind_done by (rewrite (bind_done _ _ _ _ _ E2); reflexivity).
  eexists _, _, v1. split; [reflexivity|]. split.
  - apply (writes_ready s1 v1 a); trivial. intros y Hy. apply (filled_out _ _ _ _ _ _ Hf). unfold payload in Hy. lia.
  - right. exists a. csplit; trivial; [lia|]. intros y Hy. apply (filled_in _ _ _ _ _ _ Hf Hy).
Qed.

(** A second [free] of the same block is caught: the word before the block marks it as
    freed, and the assertion ends the process. *)
Theorem double_free_caught s v a :
  heap_ready s v -> a ∈ live v ->
  exists s', free (ar_addr a + 24) s = Done tt s' /\ free (ar_addr a + 24) s' = Bad AssertFail.
Proof.
  intros R Ha. destruct (list_elem_of_split _ _ Ha) as (A1 & A2 & Ea).
  destruct (free_done s v A1 a A2 R Ea) as (s' & v' & E & _ & P & _ & _ & Hw & _). exists s'. split; [exact E|].
  destruct (live_bounds s v (hr_inv _ _ R) a Ha) as (B1 & B2 & B3).
  assert (Hm : forall y, ar_addr a <= y < ar_addr a + Z.of_nat 8 -> p_mapped s' y = true).
  { intros y Hy. apply (pr_mapped _ _ _ _ _ P), (block_area s v a y R Ha). lia. }
  unfold free. rewrite (proj2 (Z.eqb_neq _ 0)) by lia. replace (ar_addr a + 24 - 24) with (ar_addr a) by lia.
  cbv zeta. rewrite bind_load by exact Hm. apply bind_bad. unfold check_guards.
  rewrite bind_load, Hw by exact Hm. reflexivity.
Qed.

Lemma double_free_caught_witness :
  exists s', free (69632 + 24) (sample_heap 73728) = Done tt s' /\ free (69632 + 24) s' = Bad AssertFail.
Proof.
  apply (double_free_caught (sample_heap 73728) sample_view sample_block); [apply sample_ready; lia|].
  apply list_elem_of_here.
Defined.

(** ** Requests that overflow *)

(** A request of more than 2^64 - 8 bytes is rounded to zero: [malloc] does not fail, as
    the check in [loadNewSpace] intends, but hands out a block with room for no byte at all. *)
Theorem malloc_huge_overflows s v size :
  heap_ready s v -> 2 ^ 64 - 8 < size < 2 ^ 64 ->
  exists r s' v', malloc size s = Done r s' /\ heap_ready s' v' /\
    (r = 0 /\ live v' = live v \/
     exists a, live v' = a :: live v /\ r = ar_addr a + 24 /\ forall y, ~ payload a y).
Proof.
  intros R Hs. destruct (malloc_rounded s v size 32 R ltac:(lia)) as (r & s' & v' & E & R' & _ & Hal).
  - unfold ROUND_UP. change (not64 (8 -o 1)) with (wnot 64 (2 ^ 3 - 1)).
    replace (size +o 8) with (size + 8 - 2 ^ 64).
    2: { unfold wrap. rewrite <- (Z.mod_add _ (-1)), Z.mod_small by lia. lia. }
    rewrite (wrap_small 64 (_ - 1)) by (unfold is_word; lia). rewrite land_not_mask by (unfold is_word; lia).
    rewrite Z.mod_small by lia. rewrite Z.sub_diag. reflexivity.
  - lia.
  - reflexivity.
  - exists r, s', v'. split; [exact E|]. split; [exact R'|]. destruct Hal as [Hal|(a & Hl & -> & Hsz)]; [auto|].
    right. exists a. csplit; trivial. intros y. unfold payload. lia.
Qed.

Lemma malloc_huge_overflows_witness :
  exists r s' v', malloc (2 ^ 64 - 1) (sample_heap 73728) = Done r s' /\ heap_ready s' v' /\
    (r = 0 /\ live v' = [sample_block] \/
     exists a, live v' = [a; sample_block] /\ r = ar_addr a + 24 /\ forall y, ~ payload a y).
Proof.
  apply (malloc_huge_overflows (sample_heap 73728) sample_view (2 ^ 64 - 1)); [apply sample_ready; lia|lia].
Defined.

(** It happens: the pointer is not NULL. *)
Example malloc_huge_returns :
  match malloc (2 ^ 64 - 1) (sample_heap 73728) with Done r _ => r = 69720 | Bad _ => False end.
Proof. vm_compute. reflexivity. Qed.

(** ** Free space *)

Lemma heapspace_done s v :
  heap_ready s v -> heapspace s = Done (total (usable v)) s.
Proof.
  intros [I Hl Hf]. unfold heapspace. rewrite bind_get_usable.
  assert (Hmax : forall l, (forall a, a ∈ l -> a ∈ usable v ++ live v) -> 0 <= total l).
  { intros l Hin. pose proof (length_total l ltac:(intros; eapply areas_min; eauto)). lia. }
  pose proof (Hmax (live v) ltac:(intros; in_list)) as Hlv.
  assert (Hb : total (usable v) <= 2 ^ 47).
  { destruct (proj2 I) as [_ _ [H1 _] (H2 & H3 & [[H4 _]|H4]) _]; unfold PAGE_SIZE in *; lia. }
  edestruct (fun body => loop_bounded body
    (fun n '(q, c) s' => s' = s /\ exists X Y, at_position (usable v) X Y (prev_of X) q /\ c = total X /\ n = Z.of_nat (length Y))
    (fun c s' => s' = s /\ c = total (usable v)) (Z.of_nat (length (usable v))) (usableList (p_heap s), 0) s)
    as (c & s' & E & -> & ->); [| | |exact E].
  - intros n [q c] s' (-> & X & Y & Hp & -> & ->). split; [lia|].
    pose proof (walk_end s v I X Y _ q Hp) as He. destruct (q =? 0) eqn:Ez.
    + right. eexists _, s. split; [reflexivity|]. split; [reflexivity|]. destruct He as [-> _].
      destruct Hp as (-> & _ & _). rewrite app_nil_r. reflexivity.
    + left. destruct He as (b & Y' & -> & -> & Hb' & Hs).
      rewrite (bind_done _ _ _ _ _ (get_size_done s v I _ Hs)), (bind_done _ _ _ _ _ (get_next_done s v I _ Hs)).
      rewrite (ai_size _ _ _ (usable_area s v I b Hb')).
      eexists (_, _), s, (Z.of_nat (length Y')). split; [reflexivity|]. split; [|simpl; lia].
      split; [reflexivity|]. exists (X ++ [b]), Y'. pose proof (walk_next s v I X b Y' _ Hp) as Hn.
      rewrite prev_of_snoc. split; [exact Hn|]. split; [|reflexivity].
      destruct Hp as (Eu & _ & _). rewrite total_app. simpl. rewrite Z.add_0_r. apply wrap_small.
      pose proof (Hmax X ltac:(intros; rewrite Eu; in_list)). pose proof (Hmax Y' ltac:(intros; rewrite Eu; in_list)).
      rewrite Eu, total_app in Hb. simpl in Hb. pose proof (areas_min s v b I ltac:(in_list)).
      unfold total in *. unfold is_word. lia.
  - split; [reflexivity|]. exists [], (usable v). split; [apply walk_start, I|auto].
  - exact (usable_length s v I Hf).
Qed.

(** [heapspace] is the sum of the usable areas; a block lowers it by its size with the
    guards, and [free] raises it again by the same amount. *)
Theorem free_restores_space s v A1 a A2 :
  heap_ready s v -> live v = A1 ++ a :: A2 ->
  exists n s', heapspace s = Done n s /\ free (ar_addr a + 24) s = Done tt s' /\
    heapspace s' = Done (n + ar_size a) s'.
Proof.
  intros R Ea. destruct (free_done s v A1 a A2 R Ea) as (s' & v' & E & R' & _ & _ & Ht & _).
  exists (total (usable v)), s'. rewrite <- Ht. csplit; auto using heapspace_done.
Qed.

Lemma free_restores_space_witness :
  exists n s', heapspace (sample_heap 73728) = Done n (sample_heap 73728) /\
    free (69632 + 24) (sample_heap 73728) = Done tt s' /\ heapspace s' = Done (n + 64) s'.
Proof.
  apply (free_restores_space (sample_heap 73728) sample_view [] sample_block []); [apply sample_ready; lia|reflexivity].
Defined.

(** A block of the heap is on the heap. *)
Lemma isOnHeap_live s v a y :
  heap_ready s v -> a ∈ live v -> ar_addr a <= y < ar_addr a + ar_size a -> isOnHeap y s = Done true s.
Proof.
  intros R Ha Hy. destruct (block_area s v a y R Ha Hy) as [Ho _].
  destruct (proj2 (hr_inv _ _ R)) as [E1 _ [E2 _] (E3 & E4 & E5) _].
  destruct (E1 y ltac:(congruence)) as [_ Hr]. unfold isOnHeap. unfold gets, mbind, C_bind, mret, C_ret.
  destruct E5 as [[_ E5]|[E5 E6]]; [congruence|]. unfold PAGE_SIZE in *.
  rewrite (wrap_small 64 (_ * 4096)), (wrap_small 64 (_ + _)) by (unfold is_word; lia).
  rewrite (proj2 (Z.leb_le _ _)), (proj2 (Z.ltb_lt _ _)) by lia. reflexivity.
Qed.

(** An area can be lost: when an area has to be split, no structure is left and the kernel
    grants no more memory, [malloc] returns NULL but has already taken the area out of the list;
    the whole free space is gone although nothing was allocated. *)
Theorem malloc_loses_area s v a size :
  heap_ready s v -> usable v = [a] -> spare v = [] -> 0 < size <= 2 ^ 64 - 40 ->
  block_size size < ar_size a -> p_grant s (p_end s) 1 = false ->
  exists s', heapspace s = Done (ar_size a) s /\ malloc size s = Done 0 s' /\ heapspace s' = Done 0 s'.
Proof.
  intros R Eu Es Hs Hlt Hg. destruct (block_size_spec size Hs) as (S1 & S2 & S3).
  pose proof (heapspace_done s v R) as H0. rewrite Eu in H0. simpl in H0. rewrite Z.add_0_r in H0.
  pose proof R as [I Hl Hf]. unfold malloc. rewrite (proj2 (Z.eqb_neq size 0)) by lia.
  rewrite (bind_done _ _ _ _ _ (usemdown_done s Hl)), (round_up_8 size Hs). cbv zeta.
  set (s0 := on_heapSem (fun _ => locked) s). assert (I0 : heap_inv s0 v) by apply heap_inv_sem, I.
  destruct (find_fit_done s0 v I0 (block_size size) (usable_length s v I Hf)) as (pr & q & E & H).
  destruct (q =? 0) eqn:Eq.
  { rewrite Eu in H. apply Forall_cons_1 in H as [H _]. lia. }
  destruct H as (X & b & Y & Eu' & -> & -> & Hb & _). rewrite Eu in Eu'. symmetry in Eu'.
  apply app_singleton in Eu' as [[-> Eu']|[_ Eu']]; [|discriminate]. injection Eu' as -> ->.
  assert (Hp : ar_p a ∈ structs v) by (apply in_structs; rewrite Eu; in_list).
  set (s1 := with_lists (p_mem s0) (word_at (p_mem s0) (ar_p a + 16)) (freeList (p_heap s0)) s0).
  assert (I1 : heap_inv s1 (unlinked v [] a [])) by (apply heap_lists; [exact (mem_unlink_head _ _ _ v [] a [] (proj1 I0) Eu eq_refl)|apply I0]).
  assert (Et : take_area (block_size size) s0 = Done (ar_p a) s1).
  { unfold take_area. rewrite (bind_done _ _ _ _ _ E), Eq, (bind_done _ _ _ _ _ (get_next_done s0 v I0 _ Hp)). reflexivity. }
  rewrite (bind_done _ _ _ _ _ Et), Eq.
  assert (Ha : area_in (p_mem s1) (own v) a) by (apply (usable_area s0 v I0); rewrite Eu; in_list).
  assert (Esp : split_area (ar_p a) (block_size size) s1 = Done false s1).
  { unfold split_area.
    rewrite (bind_done _ _ _ _ _ (get_size_done s1 _ I1 (ar_p a) ltac:(unfold structs; simpl; in_list))), (ai_size _ _ _ Ha).
    rewrite (proj2 (Z.ltb_lt _ _) Hlt). cbn [negb].
    assert (Efl : freeList (p_heap s1) = 0) by (pose proof (mi_spare _ _ _ _ (proj1 I1)) as Hm; simpl in Hm; rewrite Es in Hm; exact Hm).
    assert (Een : ensure_areas s1 = Done false s1).
    { unfold ensure_areas, loadNewAreas. rewrite bind_get_free, Efl, Z.eqb_refl.
      rewrite (bind_done _ _ _ _ _ (chgsize_denied 1 s1 Hg)). reflexivity. }
    rewrite (bind_done _ _ _ _ _ Een). reflexivity. }
  rewrite (bind_done _ _ _ _ _ Esp). cbn [negb]. rewrite (bind_done _ _ _ _ _ (usemup_done s1 eq_refl)).
  eexists. split; [exact H0|]. split; [reflexivity|].
  apply (heapspace_done _ (unlinked v [] a [])). split; [apply heap_inv_sem, I1|reflexivity|].
  simpl. rewrite Eu in Hf. simpl in Hf. pose proof (ai_min _ _ _ Ha). unfold total in *. lia.
Qed.

(** The example with no structure left. *)
Definition sample_full : process := with_lists sample_mem 65560 0 (sample_heap 73728).

Lemma sample_full_ready : heap_ready sample_full (mkview [sample_rest] [sample_block] [] [65584] sample_own).
Proof.
  destruct (sample_ready 73728 ltac:(lia)) as [[Im Ie] Hl Hf]. split; [|exact Hl|exact Hf].
  apply heap_lists; [|exact Ie]. exact (mem_pop _ _ _ _ Im 65584 [] eq_refl).
Qed.

Lemma malloc_loses_area_witness :
  exists s', heapspace sample_full = Done 4032 sample_full /\ malloc 100 sample_full = Done 0 s' /\
    heapspace s' = Done 0 s'.
Proof.
  apply (malloc_loses_area sample_full (mkview [sample_rest] [sample_block] [] [65584] sample_own) sample_rest 100);
    [exact sample_full_ready|reflexivity|reflexivity|lia|reflexivity|reflexivity].
Defined.
