(* ===== verification/Sll.v ===== *)
(** * Singly linked lists

    lib/basic/sllist.c as it is compiled into the C library: the list structure (40 bytes:
    [falloc], [ffree], [first], [last], [length]) and its nodes (16 bytes: [next], [data]) are
    blocks of the allocator.  The list keeps pointers to the functions for its nodes; those of
    [sll_create] are [malloc] and [free], others are given from outside. *)

From Stdlib Require Import ZArith Lia Bool.
From stdpp Require Import base list numbers option gmap.
From S2P Require Import Prelude CMem MemOps Heap Alloc.

(** ** The operations *)

(** The addresses of [malloc] and [free] in the code. *)
Definition MALLOC : Z := 1.
Definition FREE : Z := 2.

Definition get_falloc (l : Z) : C Z := load64 l.
Definition get_ffree (l : Z) : C Z := load64 (l + 8).
Definition get_first (l : Z) : C Z := load64 (l + 16).
Definition get_last (l : Z) : C Z := load64 (l + 24).
Definition get_length (l : Z) : C Z := load64 (l + 32).
Definition set_first (l v : Z) : C unit := store64 (l + 16) v.
Definition set_last (l v : Z) : C unit := store64 (l + 24) v.
Definition set_length (l v : Z) : C unit := store64 (l + 32) v.
Definition node_next (n : Z) : C Z := load64 n.
Definition node_data (n : Z) : C Z := load64 (n + 8).
Definition set_node_next (n v : Z) : C unit := store64 n v.
Definition set_node_data (n v : Z) : C unit := store64 (n + 8) v.

(** A new node [n] becomes the successor of [prev], or the first node. *)
Definition link_node (l prev n : Z) : C unit :=
  if negb (prev =? 0) then
    pn ← node_next prev;
    set_node_next n pn;;
    set_node_next prev n
  else
    f ← get_first l;
    set_node_next n f;;
    set_first l n.

Section Sll.
Context (extern_alloc : Z -> Z -> C Z) (extern_free : Z -> Z -> C unit).

(** Calls through the pointers of the list. *)
Definition falloc (fp size : Z) : C Z := if fp =? MALLOC then malloc size else extern_alloc fp size.
Definition ffree (fp n : Z) : C unit := if fp =? FREE then free n else extern_free fp n.

Definition sll_init (l fa ff : Z) : C unit :=
  set_first l 0;;
  set_last l 0;;
  set_length l 0;;
  store64 l fa;;
  store64 (l + 8) ff.

Definition sll_createExtern (fa ff : Z) : C Z :=
  l ← malloc 40;
  if l =? 0 then mret 0 else
  sll_init l fa ff;;
  mret l.

Definition sll_create : C Z := sll_createExtern MALLOC FREE.

Definition sll_begin (l : Z) : C Z := get_first l.

Definition sll_length (l : Z) : C Z := if l =? 0 then mret 0 else get_length l.

(** [while(index-- > 0) n = n->next] *)
Definition walk (n index : Z) : C Z :=
  loop (fun '(n, index) =>
    if 0 <? index then
      n' ← node_next n;
      mret (Next (n', index - 1))
    else mret (Break n)) (n, index).

Definition sll_getNode (l index : Z) : C Z :=
  vassert (negb (l =? 0));;
  len ← get_length l;
  vassert (index <=? len);;
  if index =? len -o 1 then get_last l else
  n ← get_first l;
  walk n index.

Definition sll_nodeAt (l index : Z) : C Z := sll_getNode l index.

Definition sll_get (l index : Z) : C Z :=
  n ← sll_getNode l index;
  if n =? 0 then mret 0 else node_data n.

Definition sll_set (l data index : Z) : C unit :=
  n ← sll_getNode l index;
  set_node_data n data.

(** The index of the first node with [data], and the node; -1 and NULL if there is none. *)
Definition sll_indexOf (l data : Z) : C Z :=
  n ← get_first l;
  loop (fun '(n, i) =>
    if n =? 0 then mret (Break (-1)) else
    d ← node_data n;
    if d =? data then mret (Break i) else
    n' ← node_next n;
    mret (Next (n', i + 1))) (n, 0).

Definition sll_nodeWith (l data : Z) : C Z :=
  n ← get_first l;
  loop (fun n : Z =>
    if n =? 0 then mret (Break 0) else
    d ← node_data n;
    if d =? data then mret (Break n) else
    n' ← node_next n;
    mret (Next n')) n.

Definition sll_insertAfter (l prev data : Z) : C bool :=
  vassert (negb (l =? 0));;
  fa ← get_falloc l;
  nn ← falloc fa 16;
  if nn =? 0 then mret false else
  set_node_data nn data;;
  link_node l prev nn;;
  nx ← node_next nn;
  (if nx =? 0 then set_last l nn else mret tt);;
  len ← get_length l;
  set_length l (len +o 1);;
  mret true.

(** The node behind which an element with the given index is inserted. *)
Definition insert_position (l index : Z) : C Z :=
  len ← get_length l;
  if index =? len then get_last l else
  n ← get_first l;
  loop (fun '(ln, n, index) =>
    if negb (n =? 0) && (0 <? index) then
      n' ← node_next n;
      mret (Next (n, n', index - 1))
    else mret (Break ln)) (0, n, index).

Definition sll_insert (l data index : Z) : C bool :=
  vassert (negb (l =? 0));;
  ln ← insert_position l index;
  sll_insertAfter l ln data.

Definition sll_append (l data : Z) : C bool :=
  len ← get_length l;
  sll_insert l data len.

Definition sll_removeNode (l n ln : Z) : C unit :=
  vassert (negb (l =? 0));;
  vassert (negb (n =? 0));;
  (if ln =? 0 then mret tt else x ← node_next ln; vassert (x =? n));;
  nx ← node_next n;
  (if negb (ln =? 0) then set_node_next ln nx else set_first l nx);;
  (if nx =? 0 then set_last l ln else mret tt);;
  len ← get_length l;
  set_length l (len -o 1);;
  ff ← get_ffree l;
  ffree ff n.

Definition sll_removeFirst (l : Z) : C Z :=
  len ← get_length l;
  if len =? 0 then mret 0 else
  n ← get_first l;
  nx ← node_next n;
  set_first l nx;;
  (if nx =? 0 then set_last l 0 else mret tt);;
  len ← get_length l;
  set_length l (len -o 1);;
  res ← node_data n;
  ff ← get_ffree l;
  ffree ff n;;
  mret res.

(** The search of [sll_removeFirstWith]: the node before, the node, its index. *)
Definition find_data (n data : Z) : C (Z * Z * Z) :=
  loop (fun '(ln, n, i) =>
    if n =? 0 then mret (Break (ln, n, i)) else
    d ← node_data n;
    if d =? data then mret (Break (ln, n, i)) else
    n' ← node_next n;
    mret (Next (n, n', i + 1))) (0, n, 0).

Definition sll_removeFirstWith (l data : Z) : C Z :=
  n ← get_first l;
  vassert (negb (l =? 0));;
  '(ln, n, i) ← (if negb (data =? 0) then find_data n data else mret (0, n, 0));
  if n =? 0 then mret (-1) else
  sll_removeNode l n ln;;
  mret i.

Definition sll_removeIndex (l index : Z) : C Z :=
  n ← get_first l;
  vassert (negb (l =? 0));;
  '(ln, n) ← loop (fun '(ln, n, index) =>
    if 0 <? index then
      n' ← node_next n;
      mret (Next (n, n', index - 1))
    else mret (Break (ln, n))) (0, n, index);
  if n =? 0 then mret 0 else
  res ← node_data n;
  sll_removeNode l n ln;;
  mret res.

Definition sll_clear (l : Z) (freeData : bool) : C unit :=
  n ← get_first l;
  vassert (negb (l =? 0));;
  loop (fun n : Z =>
    if n =? 0 then mret (Break tt) else
    m ← node_next n;
    (if freeData then d ← node_data n; free d else mret tt);;
    ff ← get_ffree l;
    ffree ff n;;
    mret (Next m)) n;;
  set_length l 0;;
  set_first l 0;;
  set_last l 0.

Definition sll_destroy (l : Z) (freeData : bool) : C unit :=
  if l =? 0 then mret tt else
  sll_clear l freeData;;
  free l.

Definition sll_clone (l : Z) : C Z :=
  l' ← sll_create;
  if l' =? 0 then mret 0 else
  n ← sll_begin l;
  loop (fun n : Z =>
    if n =? 0 then mret (Break l') else
    d ← node_data n;
    ok ← sll_append l' d;
    if negb ok then sll_destroy l' false;; mret (Break 0) else
    n' ← node_next n;
    mret (Next n')) n.
End Sll.
