(* ===== verification/SllSpec.v ===== *)
(** * Linked lists are lists

    The operations of Sll.v on a list in memory do what the operations on the mathematical
    list of its elements do.  Everything is proved against the contract of the allocator
    (Alloc.v); no block but those of the list changes. *)

From Stdlib Require Import ZArith Lia Bool.
From stdpp Require Import base list numbers option gmap.
From S2P Require Import Prelude CMem MemOps Heap Alloc Sll.

(** ** Lists in memory *)

(** The nodes from [q] on, each with its element, up to the pointer [r]. *)
Fixpoint nseg (m : arr) (q : Z) (N : list (Z * Z)) (r : Z) : Prop :=
  match N with
  | [] => q = r
  | (n, d) :: N' => q = n /\ word_at m (n + 8) = d /\ nseg m (word_at m n) N' r
  end.

(** The node before a position, NULL at the start. *)
Definition last_node (N : list (Z * Z)) : Z := match last N with Some (n, _) => n | None => 0 end.

Record sll (B : gmap Z Z) (m : arr) (l : Z) (N : list (Z * Z)) : Prop := {
  sl_block : B !! l = Some 40;
  sl_nodes : forall n, n ∈ N.*1 -> B !! n = Some 16;
  sl_nodup : NoDup (l :: N.*1);
  sl_falloc : word_at m l = MALLOC;
  sl_ffree : word_at m (l + 8) = FREE;
  sl_chain : nseg m (word_at m (l + 16)) N 0;
  sl_last : word_at m (l + 24) = last_node N;
  sl_length : word_at m (l + 32) = Z.of_nat (length N)
}.

Lemma last_node_snoc N n d : last_node (N ++ [(n, d)]) = n.
Proof. unfold last_node. rewrite last_snoc. reflexivity. Qed.

Lemma nseg_app m q N1 N2 r : nseg m q (N1 ++ N2) r <-> exists p, nseg m q N1 p /\ nseg m p N2 r.
Proof.
  revert q; induction N1 as [|[n d] N1 IH]; intros q; simpl.
  - split; [eauto|]. intros (p & -> & H). exact H.
  - rewrite IH. split; [intros (-> & <- & p & H1 & H2)|intros (p & (-> & <- & H1) & H2)]; eauto 6.
Qed.

(** A segment depends on the words of its nodes only. *)
Lemma nseg_ext m m' q N r :
  (forall n, n ∈ N.*1 -> word_at m' n = word_at m n /\ word_at m' (n + 8) = word_at m (n + 8)) ->
  nseg m q N r -> nseg m' q N r.
Proof.
  revert q; induction N as [|[n d] N IH]; intros q H; [trivial|]. simpl. intros (-> & <- & Hs).
  destruct (H n) as [H1 H2]; [set_solver|]. split; [reflexivity|]. split; [exact H2|].
  rewrite H1. apply IH; [set_solver|exact Hs].
Qed.

(** Redirecting the last link. *)
Lemma nseg_last m m' q N n d r r' :
  nseg m q (N ++ [(n, d)]) r ->
  (forall x, x ∈ N.*1 -> word_at m' x = word_at m x /\ word_at m' (x + 8) = word_at m (x + 8)) ->
  word_at m' (n + 8) = word_at m (n + 8) -> word_at m' n = r' -> nseg m' q (N ++ [(n, d)]) r'.
Proof.
  intros (p & H1 & (-> & <- & _))%nseg_app Hx Hd Hn. apply nseg_app. exists n.
  split; [eapply nseg_ext; eassumption|]. simpl. auto.
Qed.

Lemma nseg_head m q N : nseg m q N 0 -> q = match N with [] => 0 | (n, _) :: _ => n end.
Proof. destruct N as [|[n d] N]; simpl; [trivial|]. intros (-> & _). reflexivity. Qed.

(** The first node of a rest. *)
Definition head_node (N : list (Z * Z)) : Z := match N with [] => 0 | (n, _) :: _ => n end.

Lemma nseg_node m q N1 n d N2 :
  nseg m q (N1 ++ (n, d) :: N2) 0 -> word_at m n = head_node N2 /\ word_at m (n + 8) = d.
Proof.
  intros (p & _ & (-> & Hd & H))%nseg_app. apply nseg_head in H. auto.
Qed.

Lemma last_node_in N : last_node N = 0 /\ N = [] \/ exists N' n d, N = N' ++ [(n, d)] /\ last_node N = n.
Proof.
  induction N as [|[n d] N _] using rev_ind; [left; auto|]. right. exists N, n, d.
  rewrite last_node_snoc. auto.
Qed.

(** Words through a sequence of stores, with the distances in the context. *)
Ltac wput := repeat first
  [rewrite word_put_same by first [assumption|unfold is_word; lia]|rewrite word_put_other by lia].

Section Spec.
Context {F : Z -> Prop} {inv : process -> gmap Z Z -> Prop} `{A : Allocator F inv}.

(** ** Accesses to blocks *)

Lemma block_load s B p n i :
  inv s B -> B !! p = Some n -> 0 <= i -> i + 8 <= n -> load64 (p + i) s = Done (word_at (p_mem s) (p + i)) s.
Proof.
  intros I Hp H1 H2. destruct (al_live s B p n I Hp) as (_ & _ & _ & Hm).
  apply load_done. intros y Hy. apply Hm. lia.
Qed.

Lemma block_store s B p n i x :
  inv s B -> B !! p = Some n -> 0 <= i -> i + 8 <= n ->
  store64 (p + i) x s = Done tt (set_mem (put 8 (p + i) x (p_mem s)) s) /\
  inv (set_mem (put 8 (p + i) x (p_mem s)) s) B.
Proof.
  intros I Hp H1 H2. destruct (al_live s B p n I Hp) as (_ & _ & _ & Hm). split.
  - apply store_done. intros y Hy. apply Hm. lia.
  - apply (al_store s B p n); trivial. intros y Hy. apply byte_put_other. lia.
Qed.

(** Stores to one block leave the words of the others alone. *)
Lemma block_word s B p n i q k j x m :
  inv s B -> B !! p = Some n -> B !! q = Some k -> p <> q ->
  0 <= i -> i + 8 <= n -> 0 <= j -> j + 8 <= k ->
  word_at (put 8 (p + i) x m) (q + j) = word_at m (q + j).
Proof.
  intros I Hp Hq Hne H1 H2 H3 H4. destruct (al_disjoint s B p n q k I Hp Hq Hne); apply word_put_other; lia.
Qed.

Lemma block_byte s B p n i q k x m y :
  inv s B -> B !! p = Some n -> B !! q = Some k -> p <> q -> 0 <= i -> i + 8 <= n -> q <= y < q + k ->
  byte_at (put 8 (p + i) x m) y = byte_at m y.
Proof.
  intros I Hp Hq Hne H1 H2 Hy. destruct (al_disjoint s B p n q k I Hp Hq Hne); apply byte_put_other; lia.
Qed.

Lemma foreign_byte s B p n i x m y :
  inv s B -> B !! p = Some n -> 0 <= i -> i + 8 <= n -> F y -> byte_at (put 8 (p + i) x m) y = byte_at m y.
Proof.
  intros I Hp H1 H2 Hy. destruct (al_foreign s B y I Hy) as [_ Ho]. destruct (Ho p n Hp); apply byte_put_other; lia.
Qed.

Lemma live_octa s B p n : inv s B -> B !! p = Some n -> is_octa p /\ p <> 0.
Proof. intros I Hp. destruct (al_live s B p n I Hp) as (H1 & H2 & H3 & _). unfold is_word. lia. Qed.

(** ** The list under the operations of the allocator *)

Lemma sll_mono B B' m l N : B ⊆ B' -> sll B m l N -> sll B' m l N.
Proof.
  intros HB [H1 H2 H3 H4 H5 H6 H7 H8]. split; trivial.
  - eapply lookup_weaken; eassumption.
  - intros n Hn. eapply lookup_weaken; [apply H2, Hn|exact HB].
Qed.

(** The words of a list are in its blocks. *)
Lemma sll_same B m m' l N :
  (forall p n y, B !! p = Some n -> p ∈ l :: N.*1 -> p <= y < p + n -> byte_at m' y = byte_at m y) ->
  sll B m l N -> sll B m' l N.
Proof.
  intros Hb [H1 H2 H3 H4 H5 H6 H7 H8].
  assert (W : forall p n i, B !! p = Some n -> p ∈ l :: N.*1 -> 0 <= i -> i + 8 <= n -> word_at m' (p + i) = word_at m (p + i)).
  { intros p n i Hp Hin Hi Hn. apply num_ext. intros y Hy. apply (Hb p n); trivial. lia. }
  assert (Wl : forall i, 0 <= i -> i + 8 <= 40 -> word_at m' (l + i) = word_at m (l + i))
    by (intros i ? ?; apply (W l 40); trivial; set_solver).
  split; trivial; rewrite ?Wl by lia; trivial.
  - rewrite <- (Z.add_0_r l), Wl, Z.add_0_r by lia. exact H4.
  - eapply nseg_ext; [|exact H6]. intros n Hn. split; [rewrite <- (Z.add_0_r n)|]; apply (W n 16); auto; try lia; set_solver.
Qed.

Lemma sll_keeps B s s' l N : keeps F B s s' -> sll B (p_mem s) l N -> sll B (p_mem s') l N.
Proof. intros [Hk _]. apply sll_same. intros p n y Hp _ Hy. apply (Hk p n); trivial. Qed.

(** The number of nodes is a word. *)
Lemma sll_short s B m l N : inv s B -> sll B m l N -> Z.of_nat (length N) <= 2 ^ 47.
Proof.
  intros I S. assert (Hn : NoDup N.*1) by (pose proof (sl_nodup _ _ _ _ S) as H; apply NoDup_cons_1_2 in H; exact H).
  assert (Hs : N.*1 ⊆+ seqZ 0 (2 ^ 47)).
  { apply NoDup_submseteq; [exact Hn|]. intros n Hin. apply elem_of_seqZ.
    destruct (al_live s B n 16 I (sl_nodes _ _ _ _ S n Hin)) as (? & ? & ? & _). lia. }
  apply submseteq_length in Hs. rewrite length_seqZ, length_fmap in Hs. lia.
Qed.

Section Access.
Context (s : process) (B : gmap Z Z) (l : Z) (N : list (Z * Z)).
Context (I : inv s B) (S : sll B (p_mem s) l N).

Lemma field_load i : 0 <= i -> i + 8 <= 40 -> load64 (l + i) s = Done (word_at (p_mem s) (l + i)) s.
Proof. intros H1 H2. apply (block_load s B l 40); trivial. apply S. Qed.

Lemma get_first_done : get_first l s = Done (head_node N) s.
Proof.
  unfold get_first. rewrite field_load by lia. do 2 f_equal.
  pose proof (sl_chain _ _ _ _ S) as H. apply nseg_head in H. exact H.
Qed.

Lemma get_last_done : get_last l s = Done (last_node N) s.
Proof. unfold get_last. rewrite field_load by lia. rewrite (sl_last _ _ _ _ S). reflexivity. Qed.

Lemma get_length_done : get_length l s = Done (Z.of_nat (length N)) s.
Proof. unfold get_length. rewrite field_load by lia. rewrite (sl_length _ _ _ _ S). reflexivity. Qed.

Lemma get_falloc_done : get_falloc l s = Done MALLOC s.
Proof.
  pose proof (field_load 0 ltac:(lia) ltac:(lia)) as L. rewrite Z.add_0_r, (sl_falloc _ _ _ _ S) in L. exact L.
Qed.

Lemma get_ffree_done : get_ffree l s = Done FREE s.
Proof. unfold get_ffree. rewrite field_load by lia. rewrite (sl_ffree _ _ _ _ S). reflexivity. Qed.

Lemma list_nonnull : negb (l =? 0) = true.
Proof.
  destruct (live_octa s B l 40 I (sl_block _ _ _ _ S)) as [_ Hz]. rewrite (proj2 (Z.eqb_neq _ _) Hz). reflexivity.
Qed.

Lemma node_block N1 n d N2 : N = N1 ++ (n, d) :: N2 -> B !! n = Some 16.
Proof. intros E. apply (sl_nodes _ _ _ _ S). rewrite E, fmap_app. set_solver. Qed.

Lemma node_nonnull N1 n d N2 : N = N1 ++ (n, d) :: N2 -> (n =? 0) = false.
Proof. intros E. apply Z.eqb_neq, (live_octa s B n 16 I (node_block _ _ _ _ E)). Qed.

Lemma node_next_done N1 n d N2 : N = N1 ++ (n, d) :: N2 -> node_next n s = Done (head_node N2) s.
Proof.
  intros E. pose proof (block_load s B n 16 0 I (node_block _ _ _ _ E) ltac:(lia) ltac:(lia)) as L.
  rewrite Z.add_0_r in L. unfold node_next. rewrite L. do 2 f_equal.
  pose proof (sl_chain _ _ _ _ S) as H. rewrite E in H. apply (nseg_node _ _ _ _ _ _ H).
Qed.

Lemma node_data_done N1 n d N2 : N = N1 ++ (n, d) :: N2 -> node_data n s = Done d s.
Proof.
  intros E. unfold node_data. rewrite (block_load s B n 16 8 I (node_block _ _ _ _ E)) by lia. do 2 f_equal.
  pose proof (sl_chain _ _ _ _ S) as H. rewrite E in H. apply (nseg_node _ _ _ _ _ _ H).
Qed.

(** ** Walking *)

Lemma walk_done N1 N2 : N = N1 ++ N2 -> walk (head_node N) (Z.of_nat (length N1)) s = Done (head_node N2) s.
Proof.
  intros E. unfold walk. pose proof (sll_short s B _ l N I S) as Hs. rewrite E, length_app in Hs.
  edestruct (fun body => loop_rule body
    (fun '(q, i) s' => s' = s /\ exists M1 K, N1 = M1 ++ K /\ q = head_node (K ++ N2) /\ i = Z.of_nat (length K))
    (fun q s' => s' = s /\ q = head_node N2) snd (head_node N, Z.of_nat (length N1)) s)
    as (q & s' & Eq & -> & ->); [| | |exact Eq].
  - intros [q i] s' (-> & M1 & K & EK & -> & ->). split; [simpl; lia|].
    destruct K as [|[n d] K]; cbn [length].
    + right. eexists _, s. split; [reflexivity|auto].
    + left. rewrite (proj2 (Z.ltb_lt _ _)) by lia. cbn [head_node].
      rewrite (bind_done _ _ _ _ _ (node_next_done M1 n d (K ++ N2) ltac:(rewrite E, EK, <- app_assoc; reflexivity))).
      eexists (_, _), s. split; [reflexivity|]. split; [|simpl; lia]. split; [reflexivity|].
      exists (M1 ++ [(n, d)]), K. split; [rewrite <- app_assoc; exact EK|]. split; [reflexivity|lia].
  - split; [reflexivity|]. exists [], N1. rewrite E. auto.
  - simpl. lia.
Qed.

(** The first element that is equal to [data]. *)
Definition finds (data : Z) (r : Z * Z * Z) : Prop :=
  let '(ln, n, i) := r in
  n = 0 /\ data ∉ N.*2 \/
  exists N1 N2, N = N1 ++ (n, data) :: N2 /\ data ∉ N1.*2 /\ ln = last_node N1 /\ i = Z.of_nat (length N1).

Lemma find_data_done data : exists r, find_data (head_node N) data s = Done r s /\ finds data r.
Proof.
  unfold find_data. pose proof (sll_short s B _ l N I S) as Hs.
  edestruct (fun body => loop_bounded body
    (fun k '(ln, n, i) s' => s' = s /\ exists N1 N2, N = N1 ++ N2 /\ data ∉ N1.*2 /\ ln = last_node N1 /\
       n = head_node N2 /\ i = Z.of_nat (length N1) /\ k = Z.of_nat (length N2))
    (fun r s' => s' = s /\ finds data r) (Z.of_nat (length N)) (0, head_node N, 0) s)
    as (r & s' & Eq & -> & H); [| | |eauto].
  - intros k [[ln n] i] s' (-> & N1 & N2 & E & Hd & -> & -> & -> & ->). split; [lia|].
    destruct N2 as [|[n d] N2]; cbn [head_node].
    + right. eexists _, s. split; [reflexivity|]. split; [reflexivity|]. left. rewrite app_nil_r in E. subst. auto.
    + rewrite (node_nonnull N1 n d N2 E), (bind_done _ _ _ _ _ (node_data_done N1 n d N2 E)).
      destruct (Z.eqb_spec d data) as [->|Hne].
      * right. eexists _, s. split; [reflexivity|]. split; [reflexivity|]. right. exists N1, N2. auto.
      * left. rewrite (bind_done _ _ _ _ _ (node_next_done N1 n d N2 E)).
        eexists (_, _, _), s, (Z.of_nat (length N2)). split; [reflexivity|]. split; [|simpl; lia].
        split; [reflexivity|]. exists (N1 ++ [(n, d)]), N2. rewrite <- app_assoc, fmap_app, last_node_snoc, length_app.
        csplit; trivial; [set_solver|simpl; lia].
  - split; [reflexivity|]. exists [], N. csplit; trivial. set_solver.
  - lia.
Qed.
End Access.

(** Blocks [p] and [q] of the given sizes do not overlap. *)
Definition apart (p n q k : Z) : Prop := p + n <= q \/ q + k <= p.

(** Nodes are apart from the list structure and from each other. *)
Lemma node_apart s B m l N x : inv s B -> sll B m l N -> x ∈ N.*1 -> apart l 40 x 16.
Proof.
  intros I S Hx. apply (al_disjoint s B l 40 x 16 I (sl_block _ _ _ _ S) (sl_nodes _ _ _ _ S x Hx)).
  intros <-. pose proof (sl_nodup _ _ _ _ S) as Hd. apply NoDup_cons_1_1 in Hd. contradiction.
Qed.

Lemma nodes_apart s B l N1 p e N2 x :
  inv s B -> sll B (p_mem s) l (N1 ++ (p, e) :: N2) -> x ∈ N1.*1 \/ x ∈ N2.*1 -> apart p 16 x 16.
Proof.
  intros I S Hx. pose proof (sl_nodup _ _ _ _ S) as Hd. pose proof (sl_nodes _ _ _ _ S) as Hb.
  rewrite fmap_app, fmap_cons in Hd, Hb. cbn [fst] in Hd, Hb. apply NoDup_cons_1_2, NoDup_app in Hd as (_ & H1 & H2).
  apply NoDup_cons_1_1 in H2. apply (al_disjoint s B p 16 x 16 I).
  - apply Hb. in_list.
  - apply Hb. in_list; tauto.
  - intros <-. destruct Hx as [Hx|Hx]; [apply (H1 _ Hx); in_list|contradiction].
Qed.

Lemma head_octa s B l N1 N2 : inv s B -> sll B (p_mem s) l (N1 ++ N2) -> is_octa (head_node N2).
Proof.
  intros I S. destruct N2 as [|[x f] N2]; [split; simpl; lia|].
  apply (live_octa s B x 16 I). apply (sl_nodes _ _ _ _ S). rewrite fmap_app, fmap_cons. in_list.
Qed.

(** Only bytes of the blocks [X] change. *)
Definition touches (B : gmap Z Z) (X : list Z) (s s' : process) : Prop :=
  (forall p k y, B !! p = Some k -> p ∉ X -> p <= y < p + k -> byte_at (p_mem s') y = byte_at (p_mem s) y) /\
  (forall y, F y -> byte_at (p_mem s') y = byte_at (p_mem s) y).

Lemma touches_refl B X s : touches B X s s.
Proof. split; reflexivity. Qed.

Lemma touches_trans B X s s' s'' : touches B X s s' -> touches B X s' s'' -> touches B X s s''.
Proof.
  intros [H1 H2] [H3 H4]. split; [intros p k y Hp Hx Hy|intros y Hy].
  - rewrite (H3 p k), (H1 p k); trivial.
  - rewrite H4, H2; trivial.
Qed.

Lemma touches_weaken B B' X X' s s' :
  touches B' X s s' -> (forall p k, B !! p = Some k -> p ∉ X' -> B' !! p = Some k /\ p ∉ X) -> touches B X' s s'.
Proof. intros [H1 H2] H. split; [|exact H2]. intros p k y Hp Hx. destruct (H p k Hp Hx). apply H1; trivial. Qed.

Lemma keeps_touches B X s s' : keeps F B s s' -> touches B X s s'.
Proof. intros [H1 H2]. split; [|exact H2]. intros p k y Hp _. apply H1, Hp. Qed.

Lemma put_touches s B X p n i x :
  inv s B -> B !! p = Some n -> p ∈ X -> 0 <= i -> i + 8 <= n ->
  touches B X s (set_mem (put 8 (p + i) x (p_mem s)) s).
Proof.
  intros I Hp HX H1 H2. split; [intros q k y Hq Hx Hy|intros y Hy]; simpl.
  - apply (block_byte s B p n i q k); trivial. intros <-. contradiction.
  - apply (foreign_byte s B p n); trivial.
Qed.

(** A store to a field of a block: the state after it, the invariant and what is untouched. *)
Lemma field_store s B X p n i x :
  inv s B -> B !! p = Some n -> p ∈ X -> 0 <= i -> i + 8 <= n ->
  let s' := set_mem (put 8 (p + i) x (p_mem s)) s in
  store64 (p + i) x s = Done tt s' /\ inv s' B /\ touches B X s s'.
Proof.
  intros I Hp HX H1 H2 s'. destruct (block_store s B p n i x I Hp H1 H2) as [E1 E2].
  split; [exact E1|]. split; [exact E2|]. apply (put_touches s B X p n); trivial.
Qed.

(** ** Inserting *)

(** The words of a list that a new node does not change. *)
Record linked (m m' : arr) (l n d : Z) (N1 N2 : list (Z * Z)) : Prop := {
  lk_chain : nseg m' (word_at m' (l + 16)) (N1 ++ (n, d) :: N2) 0;
  lk_next : word_at m' n = head_node N2;
  lk_fields : forall i, 0 <= i <= 8 \/ 24 <= i <= 32 -> word_at m' (l + i) = word_at m (l + i)
}.

Section Link.
Context (s : process) (B : gmap Z Z) (l n d : Z).
Context (I : inv s B) (Hn : B !! n = Some 16) (Hd : word_at (p_mem s) (n + 8) = d).

(** The first link: the field [next] of the new node. *)
Lemma link_next N1 N2 X :
  sll B (p_mem s) l (N1 ++ N2) -> n ∈ X ->
  let s' := set_mem (put 8 n (head_node N2) (p_mem s)) s in
  set_node_next n (head_node N2) s = Done tt s' /\ inv s' B /\ touches B X s s'.
Proof.
  intros S HX. pose proof (field_store s B X n 16 0 (head_node N2) I Hn HX ltac:(lia) ltac:(lia)) as H.
  rewrite Z.add_0_r in H. exact H.
Qed.

Lemma link_first_done N2 :
  sll B (p_mem s) l N2 -> n ∉ l :: N2.*1 ->
  exists s', link_node l 0 n s = Done tt s' /\ inv s' B /\
    linked (p_mem s) (p_mem s') l n d [] N2 /\ touches B (n :: l :: N2.*1) s s'.
Proof.
  intros S Hfresh. unfold link_node. cbn [negb Z.eqb]. rewrite (bind_done _ _ _ _ _ (get_first_done s B l _ I S)).
  destruct (link_next [] N2 (n :: l :: N2.*1) S ltac:(in_list)) as (E1 & I1 & T1). rewrite (bind_done _ _ _ _ _ E1).
  pose proof (sl_block _ _ _ _ S) as Hl. unfold set_first.
  destruct (field_store _ B (n :: l :: N2.*1) l 40 16 n I1 Hl ltac:(in_list) ltac:(lia) ltac:(lia)) as (E2 & I2 & T2).
  rewrite E2. eexists. split; [reflexivity|]. split; [exact I2|]. split; [|exact (touches_trans _ _ _ _ _ T1 T2)].
  destruct (live_octa s B n 16 I Hn) as [On _]. pose proof (head_octa s B l [] N2 I S) as Oh.
  assert (Dln : apart l 40 n 16) by (apply (al_disjoint s B l 40 n 16 I Hl Hn); set_solver). unfold apart in Dln.
  pose proof (sl_chain _ _ _ _ S) as Hc. split; simpl; wput; trivial.
  - split; [reflexivity|]. split; [exact Hd|]. 
    rewrite (nseg_head _ _ _ Hc : _ = head_node N2) in Hc. eapply nseg_ext; [|exact Hc].
    intros x Hx. pose proof (node_apart s B _ l N2 x I S Hx) as D1.
    assert (D2 : apart n 16 x 16) by (apply (al_disjoint s B n 16 x 16 I Hn (sl_nodes _ _ _ _ S x Hx)); set_solver).
    unfold apart in *. wput. auto.
  - intros i Hi. rewrite !word_put_other by lia. reflexivity.
Qed.

Lemma link_after_done M p e N2 :
  sll B (p_mem s) l (M ++ (p, e) :: N2) -> n ∉ l :: (M ++ (p, e) :: N2).*1 ->
  exists s', link_node l p n s = Done tt s' /\ inv s' B /\
    linked (p_mem s) (p_mem s') l n d (M ++ [(p, e)]) N2 /\ touches B (n :: l :: (M ++ (p, e) :: N2).*1) s s'.
Proof.
  intros S Hfresh. set (X := n :: l :: (M ++ (p, e) :: N2).*1).
  assert (Hpx : p ∈ (M ++ (p, e) :: N2).*1) by (rewrite fmap_app, fmap_cons; in_list).
  assert (S' : sll B (p_mem s) l ((M ++ [(p, e)]) ++ N2)) by (rewrite <- app_assoc; exact S).
  pose proof (sl_nodes _ _ _ _ S p Hpx) as Hp. destruct (live_octa s B p 16 I Hp) as [Op Zp].
  unfold link_node. rewrite (proj2 (Z.eqb_neq _ _) Zp). cbn [negb].
  rewrite (bind_done _ _ _ _ _ (node_next_done s B l _ I S M p e N2 eq_refl)).
  destruct (link_next _ N2 X S' ltac:(unfold X; in_list)) as (E1 & I1 & T1). rewrite (bind_done _ _ _ _ _ E1).
  pose proof (field_store _ B X p 16 0 n I1 Hp ltac:(unfold X; rewrite !elem_of_cons; auto) ltac:(lia) ltac:(lia)) as (E2 & I2 & T2).
  rewrite Z.add_0_r in E2, I2, T2. unfold set_node_next at 1. rewrite E2.
  eexists. split; [reflexivity|]. split; [exact I2|]. split; [|exact (touches_trans _ _ _ _ _ T1 T2)].
  destruct (live_octa s B n 16 I Hn) as [On _]. pose proof (head_octa s B l _ N2 I S') as Oh.
  assert (Dln : apart l 40 n 16) by (apply (al_disjoint s B l 40 n 16 I (sl_block _ _ _ _ S) Hn); set_solver).
  assert (Dn : forall x, x ∈ (M ++ (p, e) :: N2).*1 -> apart n 16 x 16 /\ apart l 40 x 16).
  { intros x Hx. split; [|apply (node_apart s B _ l _ x I S Hx)].
    apply (al_disjoint s B n 16 x 16 I Hn (sl_nodes _ _ _ _ S x Hx)). set_solver. }
  assert (W : forall x, x ∈ M.*1 \/ x ∈ N2.*1 -> let m' := put 8 p n (put 8 n (head_node N2) (p_mem s)) in
    word_at m' x = word_at (p_mem s) x /\ word_at m' (x + 8) = word_at (p_mem s) (x + 8)).
  { intros x Hx m'. subst m'. pose proof (nodes_apart s B l M p e N2 x I S Hx) as D1.
    destruct (Dn x) as [D2 D3]; [rewrite fmap_app, fmap_cons; in_list; tauto|]. unfold apart in *. wput. auto. }
  destruct (Dn p Hpx) as [Dp Dlp]. unfold apart in Dln, Dp, Dlp. split; simpl; wput; trivial.
  - pose proof (sl_chain _ _ _ _ S) as Hc. apply nseg_app in Hc as (r & Hc1 & (-> & Hpd & Hc2)).
    rewrite <- app_assoc. simpl. apply nseg_app. exists p. split; [eapply nseg_ext; [|exact Hc1]; auto|].
    simpl. wput. csplit; trivial.
    rewrite (nseg_head _ _ _ Hc2 : _ = head_node N2) in Hc2. eapply nseg_ext; [|exact Hc2]. auto.
  - intros i Hi. rewrite !word_put_other by lia. reflexivity.
Qed.

Lemma link_node_done N1 N2 :
  sll B (p_mem s) l (N1 ++ N2) -> n ∉ l :: (N1 ++ N2).*1 ->
  exists s', link_node l (last_node N1) n s = Done tt s' /\ inv s' B /\
    linked (p_mem s) (p_mem s') l n d N1 N2 /\ touches B (n :: l :: (N1 ++ N2).*1) s s'.
Proof.
  destruct (last_node_in N1) as [[-> ->]|(M & p & e & -> & Ep)]; intros S Hf.
  - apply link_first_done; trivial.
  - rewrite Ep. rewrite <- app_assoc in S, Hf |- *. apply link_after_done; trivial.
Qed.
End Link.

(** A list of nodes with one more in the middle. *)
Lemma sll_nodup_insert (l n d : Z) (N1 N2 : list (Z * Z)) :
  NoDup (l :: (N1 ++ N2).*1) -> n ∉ l :: (N1 ++ N2).*1 -> NoDup (l :: (N1 ++ (n, d) :: N2).*1).
Proof.
  intros Hd Hn. apply (NoDup_Permutation_proper (l :: (N1 ++ (n, d) :: N2).*1) (n :: l :: (N1 ++ N2).*1)).
  - rewrite !fmap_app, fmap_cons. cbn [fst]. rewrite <- Permutation_middle. apply perm_swap.
  - constructor; trivial.
Qed.

(** [if(nn->next == NULL) list->last = nn] *)
Lemma insert_last s B l n d N1 N2 m0 :
  inv s B -> sll B m0 l (N1 ++ N2) -> B !! n = Some 16 ->
  (forall i, 0 <= i <= 8 \/ 24 <= i <= 32 -> word_at (p_mem s) (l + i) = word_at m0 (l + i)) ->
  exists s1, (if head_node N2 =? 0 then set_last l n else mret tt) s = Done tt s1 /\ inv s1 B /\ touches B [l] s s1 /\
    word_at (p_mem s1) (l + 24) = last_node (N1 ++ (n, d) :: N2) /\
    forall a, a + 8 <= l + 24 \/ l + 32 <= a -> word_at (p_mem s1) a = word_at (p_mem s) a.
Proof.
  intros I S Hn K3. pose proof (sl_block _ _ _ _ S) as Hl. destruct (live_octa s B n 16 I Hn) as [On _].
  destruct N2 as [|[x f] N2]; cbn [head_node].
  - destruct (field_store s B [l] l 40 24 n I Hl ltac:(in_list) ltac:(lia) ltac:(lia)) as (E1 & I1 & T1).
    eexists. split; [exact E1|]. split; [exact I1|]. split; [exact T1|]. simpl. rewrite last_node_snoc. wput.
    split; [reflexivity|]. intros a Ha. wput. reflexivity.
  - rewrite (proj2 (Z.eqb_neq x 0)).
    2:{ apply (live_octa s B x 16 I), (sl_nodes _ _ _ _ S). rewrite fmap_app, fmap_cons. in_list. }
    eexists. split; [reflexivity|]. split; [exact I|]. split; [apply touches_refl|]. split; [|reflexivity].
    rewrite K3, (sl_last _ _ _ _ S) by lia. unfold last_node. rewrite !last_app, !last_cons. destruct (last N2) as [[? ?]|]; reflexivity.
Qed.

(** The fields [last] and [length] after a node has been linked. *)
Lemma insert_finish s B l n d N1 N2 m0 :
  inv s B -> sll B m0 l (N1 ++ N2) -> B !! n = Some 16 -> n ∉ l :: (N1 ++ N2).*1 ->
  linked m0 (p_mem s) l n d N1 N2 ->
  exists s', (nx ← node_next n;
    (if nx =? 0 then set_last l n else mret tt);;
    len ← get_length l;
    set_length l (len +o 1);;
    mret true) s = Done true s' /\ inv s' B /\ sll B (p_mem s') l (N1 ++ (n, d) :: N2) /\ touches B [l] s s'.
Proof.
  intros I S Hn Hf [K1 K2 K3]. pose proof (sl_block _ _ _ _ S) as Hl. destruct (live_octa s B n 16 I Hn) as [On Zn].
  assert (Dln : apart l 40 n 16) by (apply (al_disjoint s B l 40 n 16 I Hl Hn); set_solver).
  pose proof (block_load s B n 16 0 I Hn ltac:(lia) ltac:(lia)) as L. rewrite Z.add_0_r, K2 in L.
  unfold node_next. rewrite (bind_done _ _ _ _ _ L).
  destruct (insert_last s B l n d N1 N2 m0 I S Hn K3) as (s1 & E1 & I1 & T1 & W1 & W2). rewrite (bind_done _ _ _ _ _ E1). unfold get_length, set_length.
  rewrite (bind_done _ _ _ _ _ (block_load s1 B l 40 32 I1 Hl ltac:(lia) ltac:(lia))).
  rewrite W2, K3, (sl_length _ _ _ _ S) by lia.
  destruct (field_store s1 B [l] l 40 32 (Z.of_nat (length (N1 ++ N2)) +o 1) I1 Hl ltac:(in_list) ltac:(lia) ltac:(lia))
    as (E2 & I2 & T2). rewrite (bind_done _ _ _ _ _ E2).
  eexists. split; [reflexivity|]. split; [exact I2|]. split; [|exact (touches_trans _ _ _ _ _ T1 T2)].
  pose proof (sll_short s B m0 l _ I S) as Hs.
  assert (Hlen : Z.of_nat (length (N1 ++ N2)) +o 1 = Z.of_nat (length (N1 ++ (n, d) :: N2))).
  { rewrite wrap_small by (unfold is_word; lia). rewrite !length_app. simpl. lia. }
  rewrite Hlen. split; trivial; simpl; wput; trivial.
  - intros x Hx. rewrite fmap_app, fmap_cons, elem_of_app, elem_of_cons in Hx. cbn [fst] in Hx.
    destruct Hx as [Hx|[->|Hx]]; trivial; apply (sl_nodes _ _ _ _ S); rewrite fmap_app; in_list.
  - apply sll_nodup_insert; trivial. apply S.
  - rewrite W2 by lia. rewrite <- (Z.add_0_r l), K3, Z.add_0_r by lia. apply S.
  - rewrite W2, K3 by lia. apply S.
  - rewrite W2 by lia. eapply nseg_ext; [|exact K1]. intros x Hx.
    assert (Dx : apart l 40 x 16).
    { rewrite fmap_app, fmap_cons, elem_of_app, elem_of_cons in Hx. cbn [fst] in Hx.
      destruct Hx as [Hx|[->|Hx]]; trivial; apply (node_apart s B m0 l _ x I S); rewrite fmap_app; in_list. }
    unfold apart in Dx. wput. rewrite !W2 by lia. auto.
  - rewrite word_put_same; trivial. rewrite <- Hlen. apply wrap_range. lia.
Qed.

(** [sll_insert] looks for the node before the position; behind the end it is the last. *)
Lemma insert_position_done s B l N index :
  inv s B -> sll B (p_mem s) l N -> 0 <= index ->
  insert_position l index s = Done (last_node (take (Z.to_nat index) N)) s.
Proof.
  intros I S Hi. unfold insert_position. pose proof (sll_short s B _ l N I S) as Hs.
  rewrite (bind_done _ _ _ _ _ (get_length_done s B l N I S)). destruct (Z.eqb_spec index (Z.of_nat (length N))) as [->|Hne].
  { rewrite take_ge by lia. apply (get_last_done s B); trivial. }
  rewrite (bind_done _ _ _ _ _ (get_first_done s B l N I S)).
  edestruct (fun body => loop_bounded body
    (fun k '(ln, n, i) s' => s' = s /\ exists N1 N2, N = N1 ++ N2 /\ ln = last_node N1 /\ n = head_node N2 /\
       i = index - Z.of_nat (length N1) /\ 0 <= i /\ k = Z.of_nat (length N2))
    (fun ln s' => s' = s /\ ln = last_node (take (Z.to_nat index) N)) (Z.of_nat (length N)) (0, head_node N, index) s)
    as (r & s' & Eq & -> & ->); [| | |exact Eq].
  - intros k [[ln n] i] s' (-> & N1 & N2 & E & -> & -> & Ei & Hi' & ->). split; [lia|].
    destruct N2 as [|[n d] N2]; cbn [head_node].
    + right. eexists _, s. split; [reflexivity|]. split; [reflexivity|]. rewrite app_nil_r in E. subst N.
      rewrite take_ge by lia. reflexivity.
    + rewrite (node_nonnull s B l N I S N1 n d N2 E). cbn [negb andb]. destruct (Z.ltb_spec 0 i).
      * left. rewrite (bind_done _ _ _ _ _ (node_next_done s B l N I S N1 n d N2 E)).
        eexists (_, _, _), s, (Z.of_nat (length N2)). split; [reflexivity|]. split; [|simpl; lia].
        split; [reflexivity|]. exists (N1 ++ [(n, d)]), N2. rewrite <- app_assoc, last_node_snoc, length_app.
        csplit; trivial; simpl; lia.
      * right. eexists _, s. split; [reflexivity|]. split; [reflexivity|]. rewrite E.
        replace (Z.to_nat index) with (length N1) by lia. rewrite take_app_length. reflexivity.
  - split; [reflexivity|]. exists [], N. csplit; trivial. simpl. lia.
  - lia.
Qed.

Section Insert.
Context (ea : Z -> Z -> C Z).

(** Inserting behind a node: one block more, or nothing has changed. *)
Lemma sll_insertAfter_done s B l N1 N2 d :
  inv s B -> sll B (p_mem s) l (N1 ++ N2) -> is_octa d ->
  exists ok s', sll_insertAfter ea l (last_node N1) d s = Done ok s' /\ touches B (l :: (N1 ++ N2).*1) s s' /\
    (ok = false /\ inv s' B /\ sll B (p_mem s') l (N1 ++ N2) \/
     ok = true /\ exists n, B !! n = None /\ inv s' (<[n := 16]> B) /\
       sll (<[n := 16]> B) (p_mem s') l (N1 ++ (n, d) :: N2)).
Proof.
  intros I S Od. unfold sll_insertAfter. rewrite bind_vassert by (apply (list_nonnull s B l _ I S)).
  rewrite (bind_done _ _ _ _ _ (get_falloc_done s B l _ I S)).
  change (falloc ea MALLOC 16) with (malloc 16).
  destruct (al_malloc s B 16 I ltac:(lia)) as (n & s1 & E1 & K1 & Hr). rewrite (bind_done _ _ _ _ _ E1).
  pose proof (sll_keeps B s s1 l _ K1 S) as S1. pose proof (keeps_touches B (l :: (N1 ++ N2).*1) _ _ K1) as T1.
  destruct Hr as [[-> I1]|(Zn & Hn & I1)].
  { exists false, s1. auto 6. }
  rewrite (proj2 (Z.eqb_neq _ _) Zn). set (B1 := <[n := 16]> B) in *.
  assert (HB : B ⊆ B1) by (apply insert_subseteq, Hn). apply (sll_mono B B1) in S1; [|exact HB].
  assert (Hn1 : B1 !! n = Some 16) by apply lookup_insert_eq.
  assert (Hfr : n ∉ l :: (N1 ++ N2).*1).
  { rewrite elem_of_cons. intros [->|Hin]; [rewrite (sl_block _ _ _ _ S) in Hn|rewrite (sl_nodes _ _ _ _ S n Hin) in Hn]; discriminate. }
  destruct (field_store s1 B1 [n] n 16 8 d I1 Hn1 ltac:(in_list) ltac:(lia) ltac:(lia)) as (E2 & I2 & T2).
  unfold set_node_data. rewrite (bind_done _ _ _ _ _ E2). set (s2 := set_mem _ s1) in *.
  assert (S2 : sll B1 (p_mem s2) l (N1 ++ N2)).
  { eapply sll_same; [|exact S1]. intros p k y Hp Hin Hy. apply T2 with p k; trivial. intros ->%list_elem_of_singleton. contradiction. }
  destruct (link_node_done s2 B1 l n d I2 Hn1 (word_put_same _ _ _ Od) N1 N2 S2 Hfr) as (s3 & E3 & I3 & K3 & T3).
  rewrite (bind_done _ _ _ _ _ E3).
  destruct (insert_finish s3 B1 l n d N1 N2 (p_mem s2) I3 S2 Hn1 Hfr K3) as (s4 & E4 & I4 & S4 & T4).
  exists true, s4. split; [exact E4|]. split; [|right; eauto 6].
  apply (touches_trans _ _ _ s1); [exact T1|].
  assert (HT : forall X s s', touches B1 X s s' -> (forall x, x ∈ X -> x = n \/ x ∈ l :: (N1 ++ N2).*1) ->
    touches B (l :: (N1 ++ N2).*1) s s').
  { intros X t t' HT HX. apply (touches_weaken B B1 X); [exact HT|]. intros p k Hp Hx.
    split; [apply (lookup_weaken _ _ _ _ Hp HB)|]. intros [->|?]%HX; congruence. }
  apply (touches_trans _ _ _ s2); [apply (HT [n]); [exact T2|set_solver]|].
  apply (touches_trans _ _ _ s3); [apply (HT _ _ _ T3); intros x [->|?]%elem_of_cons; auto|apply (HT _ _ _ T4); set_solver].
Qed.

Lemma sll_insert_done s B l N d index :
  inv s B -> sll B (p_mem s) l N -> is_octa d -> 0 <= index ->
  let N1 := take (Z.to_nat index) N in let N2 := drop (Z.to_nat index) N in
  exists ok s', sll_insert ea l d index s = Done ok s' /\ touches B (l :: N.*1) s s' /\
    (ok = false /\ inv s' B /\ sll B (p_mem s') l N \/
     ok = true /\ exists n, B !! n = None /\ inv s' (<[n := 16]> B) /\
       sll (<[n := 16]> B) (p_mem s') l (N1 ++ (n, d) :: N2)).
Proof.
  intros I S Od Hi N1 N2. unfold sll_insert. rewrite bind_vassert by (apply (list_nonnull s B l _ I S)).
  rewrite (bind_done _ _ _ _ _ (insert_position_done s B l N index I S Hi)).
  assert (E : N = N1 ++ N2) by (symmetry; apply take_drop). fold N1. clearbody N1 N2. subst N.
  apply sll_insertAfter_done; trivial.
Qed.

Lemma sll_append_done s B l N d :
  inv s B -> sll B (p_mem s) l N -> is_octa d ->
  exists ok s', sll_append ea l d s = Done ok s' /\ touches B (l :: N.*1) s s' /\
    (ok = false /\ inv s' B /\ sll B (p_mem s') l N \/
     ok = true /\ exists n, B !! n = None /\ inv s' (<[n := 16]> B) /\
       sll (<[n := 16]> B) (p_mem s') l (N ++ [(n, d)])).
Proof.
  intros I S Od. unfold sll_append. rewrite (bind_done _ _ _ _ _ (get_length_done s B l N I S)).
  pose proof (sll_insert_done s B l N d (Z.of_nat (length N)) I S Od ltac:(lia)) as H.
  rewrite Nat2Z.id, firstn_all, drop_all in H. exact H.
Qed.

End Insert.

(** ** Removing *)

Section Unlink.
Context (s : process) (B : gmap Z Z) (l : Z) (N1 : list (Z * Z)) (n d : Z) (N2 : list (Z * Z)).
Context (I : inv s B) (S : sll B (p_mem s) l (N1 ++ (n, d) :: N2)).

(** The predecessor's link, or the first node, is redirected. *)
Lemma unlink_next :
  exists s', (if negb (last_node N1 =? 0) then set_node_next (last_node N1) (head_node N2) else set_first l (head_node N2)) s = Done tt s' /\
    inv s' B /\ touches B (l :: N1.*1) s s' /\ nseg (p_mem s') (word_at (p_mem s') (l + 16)) (N1 ++ N2) 0 /\
    word_at (p_mem s') (n + 8) = d /\
    forall i, 0 <= i <= 8 \/ 24 <= i <= 32 -> word_at (p_mem s') (l + i) = word_at (p_mem s) (l + i).
Proof.
  pose proof (sl_block _ _ _ _ S) as Hl. pose proof (sl_chain _ _ _ _ S) as Hc.
  assert (Oh : is_octa (head_node N2)).
  { apply (head_octa s B l (N1 ++ [(n, d)]) N2 I). rewrite <- app_assoc. exact S. }
  assert (Hnx : n ∈ (N1 ++ (n, d) :: N2).*1) by (rewrite fmap_app, fmap_cons; in_list).
  pose proof (node_apart s B _ l _ n I S Hnx) as Dn. apply nseg_app in Hc as (r & Hc1 & (-> & Hd & Hc2)).
  rewrite (nseg_head _ _ _ Hc2 : _ = head_node N2) in Hc2.
  assert (Dl : forall x, x ∈ N1.*1 \/ x ∈ N2.*1 -> apart l 40 x 16).
  { intros x Hx. apply (node_apart s B _ l _ x I S). rewrite fmap_app, fmap_cons. in_list; tauto. }
  destruct (last_node_in N1) as [[-> ->]|(M & p & e & EM & ->)].
  - cbn [negb Z.eqb]. destruct (field_store s B [l] l 40 16 (head_node N2) I Hl ltac:(in_list) ltac:(lia) ltac:(lia)) as (E1 & I1 & T1).
    eexists. split; [exact E1|]. split; [exact I1|]. split; [exact T1|]. unfold apart in Dn. simpl. wput. split.
    + eapply nseg_ext; [|exact Hc2]. intros x Hx. pose proof (Dl x ltac:(auto)) as D. unfold apart in D. wput. auto.
    + split; [exact Hd|]. intros i Hi. wput. reflexivity.
  - assert (S' : sll B (p_mem s) l (M ++ (p, e) :: (n, d) :: N2)).
    { pose proof S as S'. rewrite EM, <- app_assoc in S'. exact S'. }
    assert (Hp1 : p ∈ N1.*1) by (rewrite EM, fmap_app, fmap_cons; in_list). pose proof (Dl p ltac:(auto)) as Dp.
    pose proof (node_block s B l _ I S' M p e _ eq_refl) as Hp. destruct (live_octa s B p 16 I Hp) as [_ Zp].
    rewrite (proj2 (Z.eqb_neq _ _) Zp). cbn [negb].
    pose proof (field_store s B (l :: N1.*1) p 16 0 (head_node N2) I Hp ltac:(in_list) ltac:(lia) ltac:(lia)) as (E1 & I1 & T1).
    rewrite Z.add_0_r in E1, I1, T1. eexists. split; [exact E1|]. split; [exact I1|]. split; [exact T1|].
    assert (W : forall x, x ∈ M.*1 \/ x ∈ n :: N2.*1 -> apart p 16 x 16) by (intros x Hx; apply (nodes_apart s B l M p e _ x I S' Hx)).
    pose proof (W n ltac:(right; in_list)) as Wn. unfold apart in Dn, Dp, Wn. simpl. wput. split.
    + rewrite EM in Hc1. rewrite EM. apply nseg_app. exists (head_node N2). split.
      * eapply nseg_last; [exact Hc1| |wput; reflexivity..]. intros x Hx. pose proof (W x ltac:(auto)) as D. unfold apart in D. wput. auto.
      * eapply nseg_ext; [|exact Hc2]. intros x Hx. pose proof (W x ltac:(right; in_list)) as D. unfold apart in D. wput. auto.
    + split; [exact Hd|]. intros i Hi. wput. reflexivity.
Qed.

Lemma unlink_last s1 :
  inv s1 B -> word_at (p_mem s1) (l + 24) = word_at (p_mem s) (l + 24) ->
  exists s', (if head_node N2 =? 0 then set_last l (last_node N1) else mret tt) s1 = Done tt s' /\ inv s' B /\ touches B [l] s1 s' /\
    word_at (p_mem s') (l + 24) = last_node (N1 ++ N2) /\
    forall a, a + 8 <= l + 24 \/ l + 32 <= a -> word_at (p_mem s') a = word_at (p_mem s1) a.
Proof.
  intros I1 E24. pose proof (sl_block _ _ _ _ S) as Hl. destruct N2 as [|[x f] N2']; cbn [head_node].
  - destruct (field_store s1 B [l] l 40 24 (last_node N1) I1 Hl ltac:(in_list) ltac:(lia) ltac:(lia)) as (E & I2 & T).
    eexists. split; [exact E|]. split; [exact I2|]. split; [exact T|]. rewrite app_nil_r. simpl.
    assert (Oh : is_octa (last_node N1)).
    { destruct (last_node_in N1) as [[-> ->]|(M & p & e & -> & ->)]; [split; simpl; lia|].
      apply (live_octa s B p 16 I). apply (sl_nodes _ _ _ _ S). rewrite !fmap_app, fmap_cons. in_list. }
    wput. split; [reflexivity|]. intros a Ha. wput. reflexivity.
  - assert (Zx : (x =? 0) = false).
    { apply (node_nonnull s B l _ I S (N1 ++ [(n, d)]) x f N2'). rewrite <- app_assoc. reflexivity. }
    rewrite Zx. eexists. split; [reflexivity|]. split; [exact I1|]. split; [apply touches_refl|]. split; [|reflexivity].
    rewrite E24, (sl_last _ _ _ _ S). unfold last_node. rewrite !last_app, !last_cons. destruct (last N2') as [[? ?]|]; reflexivity.
Qed.
(** The node leaves the list; its block is still there. *)
Lemma node_unlink_done {R} (k : C R) :
  exists s', ((if negb (last_node N1 =? 0) then set_node_next (last_node N1) (head_node N2) else set_first l (head_node N2));;
    (if head_node N2 =? 0 then set_last l (last_node N1) else mret tt);;
    len ← get_length l;
    set_length l (len -o 1);;
    k) s = k s' /\ inv s' B /\ touches B (l :: N1.*1) s s' /\ sll (delete n B) (p_mem s') l (N1 ++ N2) /\
    word_at (p_mem s') (n + 8) = d /\ word_at (p_mem s') (l + 8) = FREE.
Proof.
  pose proof (sl_block _ _ _ _ S) as Hl. pose proof (sl_nodup _ _ _ _ S) as Hnd. pose proof (sl_nodes _ _ _ _ S) as Hb.
  assert (Hm : n ∉ l :: (N1 ++ N2).*1 /\ NoDup (l :: (N1 ++ N2).*1)).
  { apply NoDup_cons. apply (NoDup_Permutation_proper _ (l :: (N1 ++ (n, d) :: N2).*1)); [|exact Hnd].
    rewrite !fmap_app, fmap_cons. cbn [fst]. rewrite <- Permutation_middle. apply perm_swap. }
  destruct Hm as [Hn Hnd'].
  assert (HX : forall x, x ∈ (N1 ++ N2).*1 -> delete n B !! x = Some 16 /\ apart l 40 x 16).
  { intros x Hx. assert (Hx' : x ∈ (N1 ++ (n, d) :: N2).*1) by (rewrite !fmap_app in *; rewrite fmap_cons; set_solver).
    split; [|apply (node_apart s B _ l _ x I S Hx')]. rewrite lookup_delete_ne by set_solver. auto. }
  destruct unlink_next as (s1 & E1 & I1 & T1 & C1 & D1 & W1). rewrite (bind_done _ _ _ _ _ E1).
  destruct (unlink_last s1 I1 (W1 24 ltac:(lia))) as (s2 & E2 & I2 & T2 & L2 & W2). rewrite (bind_done _ _ _ _ _ E2).
  unfold get_length, set_length. rewrite (bind_done _ _ _ _ _ (block_load s2 B l 40 32 I2 Hl ltac:(lia) ltac:(lia))).
  rewrite W2, W1, (sl_length _ _ _ _ S) by lia.
  destruct (field_store s2 B [l] l 40 32 (Z.of_nat (length (N1 ++ (n, d) :: N2)) -o 1) I2 Hl ltac:(in_list) ltac:(lia) ltac:(lia))
    as (E3 & I3 & T3). rewrite (bind_done _ _ _ _ _ E3).
  eexists. split; [reflexivity|]. split; [exact I3|]. pose proof (sll_short s B _ l _ I S) as Hs.
  assert (HT : forall t t', touches B [l] t t' -> touches B (l :: N1.*1) t t').
  { intros t t' HT. apply (touches_weaken B B [l] _ _ _ HT). set_solver. }
  split; [eauto using touches_trans|].
  assert (Hlen : Z.of_nat (length (N1 ++ (n, d) :: N2)) -o 1 = Z.of_nat (length (N1 ++ N2))).
  { apply wrap_small_eq. rewrite !length_app in *. simpl in *. unfold is_word. lia. }
  assert (Dn : apart l 40 n 16) by (apply (node_apart s B _ l _ n I S); rewrite fmap_app, fmap_cons; in_list).
  unfold apart in Dn. rewrite Hlen. split; [|simpl; wput; rewrite !W2, W1 by lia; split; [exact D1|apply S]].
  split; simpl; trivial; wput; rewrite ?W2, ?W1 by lia; trivial; try apply S.
  - rewrite lookup_delete_ne by set_solver. exact Hl.
  - intros x Hx. apply HX, Hx.
  - rewrite <- (Z.add_0_r l), W1, Z.add_0_r by lia. apply S.
  - eapply nseg_ext; [|exact C1]. intros x Hx. destruct (HX x Hx) as [_ Dx]. unfold apart in Dx. wput. rewrite !W2 by lia. auto.
  - rewrite word_put_same; trivial. rewrite <- Hlen. apply wrap_range. lia.
Qed.
End Unlink.

(** The loop of [sll_removeIndex]. *)
Lemma remove_walk s B l N N1 N2 :
  inv s B -> sll B (p_mem s) l N -> N = N1 ++ N2 ->
  loop (fun '(ln, n, index) =>
    if 0 <? index then
      n' ← node_next n;
      mret (Next (n, n', index - 1))
    else mret (Break (ln, n))) (0, head_node N, Z.of_nat (length N1)) s = Done (last_node N1, head_node N2) s.
Proof.
  intros I S E. pose proof (sll_short s B _ l N I S) as Hs. rewrite E, length_app in Hs.
  edestruct (fun body => loop_rule body
    (fun '(ln, q, i) s' => s' = s /\ exists M1 K, N1 = M1 ++ K /\ ln = last_node M1 /\ q = head_node (K ++ N2) /\ i = Z.of_nat (length K))
    (fun r s' => s' = s /\ r = (last_node N1, head_node N2)) snd (0, head_node N, Z.of_nat (length N1)) s)
    as (q & s' & Eq & -> & ->); [| | |exact Eq].
  - intros [[ln q] i] s' (-> & M1 & K & EK & -> & -> & ->). split; [simpl; lia|].
    destruct K as [|[n d] K]; cbn [length].
    + right. eexists _, s. split; [reflexivity|]. rewrite app_nil_r in EK. subst. auto.
    + left. rewrite (proj2 (Z.ltb_lt _ _)) by lia. cbn [head_node app].
      rewrite (bind_done _ _ _ _ _ (node_next_done s B l N I S M1 n d (K ++ N2) ltac:(rewrite E, EK, <- app_assoc; reflexivity))).
      eexists (_, _, _), s. split; [reflexivity|]. split; [|simpl; lia]. split; [reflexivity|].
      exists (M1 ++ [(n, d)]), K. rewrite last_node_snoc. split; [rewrite <- app_assoc; exact EK|]. csplit; trivial. lia.
  - split; [reflexivity|]. exists [], N1. rewrite E. auto.
  - simpl. lia.
Qed.

Section Remove.
Context (ef : Z -> Z -> C unit).

(** Freeing a node that has left the list. *)
Lemma free_node_done s B l n N :
  inv s B -> B !! n = Some 16 -> sll (delete n B) (p_mem s) l N ->
  get_ffree l s = Done FREE s /\
  exists s', ffree ef FREE n s = Done tt s' /\ inv s' (delete n B) /\
    sll (delete n B) (p_mem s') l N /\ touches (delete n B) [] s s'.
Proof.
  intros I Hn S. destruct (al_free s B n 16 I Hn) as (s' & E & K & I').
  assert (Hl : B !! l = Some 40) by (pose proof (sl_block _ _ _ _ S) as H; apply lookup_delete_Some in H; apply H).
  unfold get_ffree. rewrite (block_load s B l 40 8 I Hl), (sl_ffree _ _ _ _ S) by lia.
  split; [reflexivity|]. exists s'. split; [exact E|]. split; [exact I'|]. split; [apply (sll_keeps _ s); trivial|apply keeps_touches, K].
Qed.

(** The rest of the memory over unlinking and freeing a node. *)
Lemma remove_touches B l (N1 : list (Z * Z)) n (N2 : list (Z * Z)) s s1 s2 :
  touches B (l :: N1.*1) s s1 -> touches (delete n B) [] s1 s2 -> touches (delete n B) (l :: (N1 ++ N2).*1) s s2.
Proof.
  intros T1 T2. apply (touches_trans _ _ _ s1).
  - apply (touches_weaken _ B (l :: N1.*1)); [exact T1|]. intros p k (? & ?)%lookup_delete_Some Hp. rewrite fmap_app in Hp. set_solver.
  - apply (touches_weaken _ (delete n B) []); [exact T2|]. intros p k ? ?. split; [trivial|apply not_elem_of_nil].
Qed.

(** What removing the node [n] between [N1] and [N2] leaves. *)
Definition removed (B : gmap Z Z) (l : Z) (N1 : list (Z * Z)) (n : Z) (N2 : list (Z * Z)) (s s' : process) : Prop :=
  inv s' (delete n B) /\ sll (delete n B) (p_mem s') l (N1 ++ N2) /\ touches (delete n B) (l :: (N1 ++ N2).*1) s s'.

Lemma sll_removeNode_done s B l N1 n d N2 :
  inv s B -> sll B (p_mem s) l (N1 ++ (n, d) :: N2) ->
  exists s', sll_removeNode ef l n (last_node N1) s = Done tt s' /\ removed B l N1 n N2 s s'.
Proof.
  intros I S. unfold sll_removeNode. rewrite bind_vassert by apply (list_nonnull s B l _ I S).
  rewrite bind_vassert by (rewrite (node_nonnull s B l _ I S N1 n d N2 eq_refl); reflexivity).
  assert (Hv : (if last_node N1 =? 0 then mret tt else x ← node_next (last_node N1); vassert (x =? n)) s = Done tt s).
  { destruct (last_node_in N1) as [[-> ->]|(M & p & e & EM & ->)]; [reflexivity|].
    rewrite EM, <- app_assoc in S. rewrite (node_nonnull s B l _ I S M p e _ eq_refl).
    rewrite (bind_done _ _ _ _ _ (node_next_done s B l _ I S M p e _ eq_refl)). cbn [head_node].
    unfold vassert. rewrite Z.eqb_refl. reflexivity. }
  rewrite (bind_done _ _ _ _ _ Hv), (bind_done _ _ _ _ _ (node_next_done s B l _ I S N1 n d N2 eq_refl)).
  destruct (node_unlink_done s B l N1 n d N2 I S (ff ← get_ffree l; ffree ef ff n)) as (s1 & -> & I1 & T1 & S1 & _).
  destruct (free_node_done s1 B l n _ I1 (node_block s B l _ I S N1 n d N2 eq_refl) S1) as (G & s2 & E2 & I2 & S2 & T2).
  exists s2. rewrite (bind_done _ _ _ _ _ G). split; [exact E2|]. split; [exact I2|]. split; [exact S2|]. eapply remove_touches; eassumption.
Qed.

(** [sll_removeFirst]: NULL for an empty list. *)
Lemma sll_removeFirst_done s B l N :
  inv s B -> sll B (p_mem s) l N ->
  exists r s', sll_removeFirst ef l s = Done r s' /\
    match N with
    | [] => r = 0 /\ s' = s
    | (n, d) :: N' => r = d /\ removed B l [] n N' s s'
    end.
Proof.
  intros I S. unfold sll_removeFirst. rewrite (bind_done _ _ _ _ _ (get_length_done s B l N I S)).
  destruct N as [|[n d] N']; [exists 0, s; auto|]. cbn [length]. rewrite (proj2 (Z.eqb_neq _ _)) by lia.
  rewrite (bind_done _ _ _ _ _ (get_first_done s B l _ I S)), (bind_done _ _ _ _ _ (node_next_done s B l _ I S [] n d N' eq_refl)).
  destruct (node_unlink_done s B l [] n d N' I S (res ← node_data n; ff ← get_ffree l; ffree ef ff n;; mret res)) as (s1 & E1 & I1 & T1 & S1 & D1 & _).
  pose proof (node_block s B l _ I S [] n d N' eq_refl) as Hn.
  destruct (free_node_done s1 B l n _ I1 Hn S1) as (G & s2 & E2 & I2 & S2 & T2).
  exists d, s2. split; [|split; [reflexivity|split; [exact I2|split; [exact S2|eapply remove_touches; eassumption]]]].
  refine (eq_trans E1 _). unfold node_data. rewrite (bind_done _ _ _ _ _ (block_load s1 B n 16 8 I1 Hn ltac:(lia) ltac:(lia))), D1.
  rewrite (bind_done _ _ _ _ _ G), (bind_done _ _ _ _ _ E2). reflexivity.
Qed.

(** [sll_removeFirstWith]: the first node with the data, for NULL the first node. *)
Lemma sll_removeFirstWith_done s B l N data :
  inv s B -> sll B (p_mem s) l N ->
  exists r s', sll_removeFirstWith ef l data s = Done r s' /\
    (r = -1 /\ s' = s /\ (if data =? 0 then N = [] else data ∉ N.*2) \/
     exists N1 n d N2, N = N1 ++ (n, d) :: N2 /\ r = Z.of_nat (length N1) /\
       (if data =? 0 then N1 = [] else d = data /\ data ∉ N1.*2) /\ removed B l N1 n N2 s s').
Proof.
  intros I S. unfold sll_removeFirstWith. rewrite (bind_done _ _ _ _ _ (get_first_done s B l N I S)).
  rewrite bind_vassert by apply (list_nonnull s B l _ I S). destruct (Z.eqb_spec data 0) as [->|Hd]; cbn [negb].
  - rewrite (bind_done (mret (0, head_node N, 0)) _ s _ s eq_refl). destruct N as [|[n d] N2].
    { exists (-1), s. auto. }
    cbn [head_node]. rewrite (node_nonnull s B l _ I S [] n d N2 eq_refl).
    destruct (sll_removeNode_done s B l [] n d N2 I S) as (s' & E & Hr).
    change (last_node []) with 0 in E. rewrite (bind_done _ _ _ _ _ E). exists 0, s'. split; [reflexivity|].
    right. exists [], n, d, N2. auto.
  - destruct (find_data_done s B l N I S data) as ([[ln n] i] & E & Hf). rewrite (bind_done _ _ _ _ _ E).
    destruct Hf as [[-> Hf]|(N1 & N2 & -> & Hf & -> & ->)].
    { exists (-1), s. auto. }
    rewrite (node_nonnull s B l _ I S N1 n data N2 eq_refl).
    destruct (sll_removeNode_done s B l N1 n data N2 I S) as (s' & E' & Hr). rewrite (bind_done _ _ _ _ _ E').
    eexists _, s'. split; [reflexivity|]. right. exists N1, n, data, N2. auto.
Qed.

(** [sll_removeIndex] for an index in the list, and one behind its end: NULL. *)
Lemma sll_removeIndex_done s B l N index :
  inv s B -> sll B (p_mem s) l N -> 0 <= index <= Z.of_nat (length N) ->
  exists r s', sll_removeIndex ef l index s = Done r s' /\
    (index = Z.of_nat (length N) /\ r = 0 /\ s' = s \/
     exists N1 n N2, N = N1 ++ (n, r) :: N2 /\ index = Z.of_nat (length N1) /\ removed B l N1 n N2 s s').
Proof.
  intros I S Hi. unfold sll_removeIndex. rewrite (bind_done _ _ _ _ _ (get_first_done s B l N I S)).
  rewrite bind_vassert by apply (list_nonnull s B l _ I S).
  set (N1 := take (Z.to_nat index) N). set (N2 := drop (Z.to_nat index) N).
  assert (E : N = N1 ++ N2) by (symmetry; apply take_drop).
  assert (H1 : index = Z.of_nat (length N1)) by (unfold N1; rewrite length_take; lia). clearbody N1 N2.
  pose proof (remove_walk s B l N N1 N2 I S E) as Hw. rewrite <- H1 in Hw. rewrite (bind_done _ _ _ _ _ Hw).
  destruct N2 as [|[n d] N2]; cbn [head_node].
  { exists 0, s. rewrite E, app_nil_r. auto. }
  subst N. rewrite (node_nonnull s B l _ I S N1 n d N2 eq_refl), (bind_done _ _ _ _ _ (node_data_done s B l _ I S N1 n d N2 eq_refl)).
  destruct (sll_removeNode_done s B l N1 n d N2 I S) as (s' & E' & Hr). rewrite (bind_done _ _ _ _ _ E').
  eexists _, s'. split; [reflexivity|]. right. exists N1, n, N2. auto.
Qed.
End Remove.
End Spec.
