(* ===== verification/SllProps.v ===== *)
(** * Linked lists: reading, creating, destroying, and clients

    The remaining operations of Sll.v and the theorem about clients: a program that creates a
    list, calls any operations and destroys the list sees the operations of a mathematical
    list and leaves the allocator as it was. *)

From Stdlib Require Import ZArith Lia Bool.
From stdpp Require Import base list numbers option gmap.
From S2P Require Import Prelude CMem MemOps Heap Alloc Sll SllSpec HeapInv HeapSpec HeapProps.

(** The data at an index; NULL at the end. *)
Definition data_at (xs : list Z) (index : Z) : Z := default 0 (xs !! Z.to_nat index).

(** The index of the first element equal to [data], or -1. *)
Fixpoint index_of (data : Z) (xs : list Z) : option nat :=
  match xs with
  | [] => None
  | x :: xs' => if x =? data then Some O else S <$> index_of data xs'
  end.

Definition index_of_z (data : Z) (xs : list Z) : Z := match index_of data xs with Some i => Z.of_nat i | None => -1 end.

Lemma index_of_app data xs ys :
  data ∉ xs -> index_of data (xs ++ ys) = (fun i => (length xs + i)%nat) <$> index_of data ys.
Proof.
  induction xs as [|x xs IH]; simpl; intros Hx; [destruct (index_of data ys); reflexivity|].
  apply not_elem_of_cons in Hx as [Hne Hx]. rewrite (proj2 (Z.eqb_neq x data)) by congruence.
  rewrite IH by trivial. destruct (index_of data ys); reflexivity.
Qed.

Lemma index_of_found data xs ys : data ∉ xs -> index_of_z data (xs ++ data :: ys) = Z.of_nat (length xs).
Proof.
  intros Hx. unfold index_of_z. rewrite index_of_app by trivial. simpl. rewrite Z.eqb_refl. simpl. lia.
Qed.

Lemma index_of_none data xs : data ∉ xs -> index_of_z data xs = -1.
Proof.
  intros Hx. unfold index_of_z. rewrite <- (app_nil_r xs), index_of_app by trivial. reflexivity.
Qed.

Lemma drop_split {X} (N : list X) index :
  0 <= index <= Z.of_nat (length N) ->
  exists N1 N2, N = N1 ++ N2 /\ index = Z.of_nat (length N1) /\ drop (Z.to_nat index) N = N2 /\ take (Z.to_nat index) N = N1.
Proof.
  intros Hi. exists (take (Z.to_nat index) N), (drop (Z.to_nat index) N). rewrite take_drop, length_take. csplit; trivial. lia.
Qed.

Lemma data_at_app (N N1 : list (Z * Z)) n d N2 : N = N1 ++ (n, d) :: N2 -> data_at N.*2 (Z.of_nat (length N1)) = d.
Proof.
  intros ->. unfold data_at. rewrite Nat2Z.id, fmap_app, lookup_app_r by (rewrite length_fmap; lia).
  rewrite length_fmap, Nat.sub_diag. reflexivity.
Qed.

Lemma data_at_end (N : list (Z * Z)) : data_at N.*2 (Z.of_nat (length N)) = 0.
Proof. unfold data_at. rewrite Nat2Z.id, lookup_ge_None_2 by (rewrite length_fmap; lia). reflexivity. Qed.

Section Props.
Context {F : Z -> Prop} {inv : process -> gmap Z Z -> Prop} `{A : Allocator F inv}.

(** ** Reading *)

Section Read.
Context (s : process) (B : gmap Z Z) (l : Z) (N : list (Z * Z)).
Context (I : inv s B) (S : sll B (p_mem s) l N).

Lemma sll_getNode_done index :
  0 <= index <= Z.of_nat (length N) -> sll_getNode l index s = Done (head_node (drop (Z.to_nat index) N)) s.
Proof.
  intros Hi. pose proof (sll_short s B _ l N I S) as Hs. unfold sll_getNode.
  rewrite bind_vassert by apply (list_nonnull s B l N I S). rewrite (bind_done _ _ _ _ _ (get_length_done s B l N I S)).
  rewrite bind_vassert by (apply Z.leb_le; lia). destruct (Z.eqb_spec index (Z.of_nat (length N) -o 1)) as [E|E].
  - rewrite (get_last_done s B l N I S). do 2 f_equal. destruct (last_node_in N) as [[_ EN]|(M & n & d & EN & ->)].
    + exfalso. rewrite EN in E, Hi. assert (E' : index = 2 ^ 64 - 1) by exact E. cbn [length] in Hi. lia.
    + rewrite wrap_small in E by (rewrite EN, length_app in *; simpl in *; unfold is_word; lia).
      replace (Z.to_nat index) with (length M) by (rewrite EN, length_app in E; simpl in E; lia).
      rewrite EN, drop_app_length. reflexivity.
  - rewrite (bind_done _ _ _ _ _ (get_first_done s B l N I S)).
    pose proof (walk_done s B l N I S (take (Z.to_nat index) N) (drop (Z.to_nat index) N) ltac:(symmetry; apply take_drop)) as H.
    rewrite length_take in H. replace (Z.of_nat _) with index in H by lia. exact H.
Qed.

(** An index behind the end stops the program. *)
Lemma sll_getNode_assert index : Z.of_nat (length N) < index -> sll_getNode l index s = Bad AssertFail.
Proof.
  intros Hi. unfold sll_getNode. rewrite bind_vassert by apply (list_nonnull s B l N I S).
  rewrite (bind_done _ _ _ _ _ (get_length_done s B l N I S)). apply bind_bad. unfold vassert.
  rewrite (proj2 (Z.leb_gt _ _)) by lia. reflexivity.
Qed.

Lemma sll_get_done index :
  0 <= index <= Z.of_nat (length N) -> sll_get l index s = Done (data_at N.*2 index) s.
Proof.
  intros Hi. unfold sll_get. rewrite (bind_done _ _ _ _ _ (sll_getNode_done index Hi)).
  destruct (drop_split N index Hi) as (N1 & N2 & E & -> & -> & _). destruct N2 as [|[n d] N2]; cbn [head_node].
  - rewrite app_nil_r in E. subst N1. rewrite data_at_end. reflexivity.
  - rewrite (node_nonnull s B l N I S N1 n d N2 E), (node_data_done s B l N I S N1 n d N2 E), (data_at_app N N1 n d N2 E). reflexivity.
Qed.

(** Both searches of the list follow [find_data]. *)
Lemma sll_indexOf_done data : sll_indexOf l data s = Done (index_of_z data N.*2) s.
Proof.
  unfold sll_indexOf. pose proof (sll_short s B _ l N I S) as Hs. rewrite (bind_done _ _ _ _ _ (get_first_done s B l N I S)).
  edestruct (fun body => loop_bounded body
    (fun k '(n, i) s' => s' = s /\ exists N1 N2, N = N1 ++ N2 /\ data ∉ N1.*2 /\
       n = head_node N2 /\ i = Z.of_nat (length N1) /\ k = Z.of_nat (length N2))
    (fun r s' => s' = s /\ r = index_of_z data N.*2) (Z.of_nat (length N)) (head_node N, 0) s)
    as (r & s' & Eq & -> & ->); [| | |exact Eq].
  - intros k [n i] s' (-> & N1 & N2 & E & Hd & -> & -> & ->). split; [lia|].
    destruct N2 as [|[n d] N2]; cbn [head_node].
    + right. eexists _, s. split; [reflexivity|]. split; [reflexivity|]. rewrite app_nil_r in E. subst.
      rewrite index_of_none; trivial.
    + rewrite (node_nonnull s B l N I S N1 n d N2 E), (bind_done _ _ _ _ _ (node_data_done s B l N I S N1 n d N2 E)).
      destruct (Z.eqb_spec d data) as [->|Hne].
      * right. eexists _, s. split; [reflexivity|]. split; [reflexivity|]. rewrite E, fmap_app. cbn [fmap list_fmap snd].
        rewrite index_of_found, length_fmap by trivial. reflexivity.
      * left. rewrite (bind_done _ _ _ _ _ (node_next_done s B l N I S N1 n d N2 E)).
        eexists (_, _), s, (Z.of_nat (length N2)). split; [reflexivity|]. split; [|simpl; lia].
        split; [reflexivity|]. exists (N1 ++ [(n, d)]), N2. rewrite <- app_assoc, fmap_app, length_app.
        csplit; trivial; [set_solver|simpl; lia].
  - split; [reflexivity|]. exists [], N. csplit; trivial. set_solver.
  - lia.
Qed.

Lemma sll_set_done data index :
  0 <= index < Z.of_nat (length N) -> is_octa data ->
  exists s' N', sll_set l data index s = Done tt s' /\ inv s' B /\ sll B (p_mem s') l N' /\
    N'.*1 = N.*1 /\ N'.*2 = <[Z.to_nat index := data]> N.*2 /\ touches (F := F) B (l :: N.*1) s s'.
Proof.
  intros Hi Od. unfold sll_set. rewrite (bind_done _ _ _ _ _ (sll_getNode_done index ltac:(lia))).
  destruct (drop_split N index ltac:(lia)) as (N1 & N2 & E & Ei & -> & _). destruct N2 as [|[n d] N2].
  { exfalso. rewrite app_nil_r in E. subst N1. lia. }
  cbn [head_node]. assert (Hin : n ∈ N.*1) by (rewrite E, fmap_app, fmap_cons; in_list).
  destruct (field_store s B (l :: N.*1) n 16 8 data I (sl_nodes _ _ _ _ S n Hin) ltac:(in_list) ltac:(lia) ltac:(lia)) as (E1 & I1 & T1).
  exists (set_mem (put 8 (n + 8) data (p_mem s)) s), (N1 ++ (n, data) :: N2).
  assert (EN : (N1 ++ (n, data) :: N2).*1 = N.*1) by (rewrite E, !fmap_app; reflexivity).
  split; [exact E1|]. split; [exact I1|]. split; [|split; [exact EN|split; [|exact T1]]].
  - pose proof (node_apart s B _ l N n I S Hin) as Dn. unfold apart in Dn. destruct S as [H1 H2 H3 H4 H5 H6 H7 H8].
    rewrite E in H6. apply nseg_app in H6 as (r & C1 & (-> & C2 & C3)).
    assert (W : forall x, x ∈ N1.*1 \/ x ∈ N2.*1 -> word_at (put 8 (n + 8) data (p_mem s)) x = word_at (p_mem s) x /\
      word_at (put 8 (n + 8) data (p_mem s)) (x + 8) = word_at (p_mem s) (x + 8)).
    { intros x Hx. rewrite E in S. pose proof (nodes_apart s B l N1 n d N2 x I S Hx) as Dx. unfold apart in Dx. wput. auto. }
    split; rewrite ?EN; trivial; simpl; wput; trivial.
    + apply nseg_app. exists n. split; [eapply nseg_ext; [|exact C1]; auto|]. simpl. wput. csplit; trivial.
      eapply nseg_ext; [|exact C3]; auto.
    + rewrite H7, E. unfold last_node. rewrite !last_app, !last_cons. destruct (last N2) as [[? ?]|]; reflexivity.
    + rewrite H8, E, !length_app. reflexivity.
  - rewrite Ei, Nat2Z.id, E, !fmap_app. replace (length N1) with (length N1.*2 + 0)%nat by (rewrite length_fmap; lia).
    rewrite insert_app_r. reflexivity.
Qed.

(** [sll_set] at the end of the list, an index that its check accepts, writes through NULL. *)
Lemma sll_set_end data : p_mapped s 8 = false -> sll_set l data (Z.of_nat (length N)) s = Bad Fault.
Proof.
  intros Hm. unfold sll_set. rewrite (bind_done _ _ _ _ _ (sll_getNode_done (Z.of_nat (length N)) ltac:(lia))), Nat2Z.id, drop_all.
  cbn [head_node]. unfold set_node_data, store64, store. change (0 + 8) with 8. simpl. rewrite Hm. reflexivity.
Qed.
End Read.

(** ** Creating and destroying *)

Lemma sll_init_done s B l :
  inv s B -> B !! l = Some 40 ->
  exists s', sll_init l MALLOC FREE s = Done tt s' /\ inv s' B /\ touches (F := F) B [l] s s' /\ sll B (p_mem s') l [].
Proof.
  intros I1 Hl. unfold sll_init, set_first, set_last, set_length.
  assert (Hs : forall t i x, inv t B -> 0 <= i -> i + 8 <= 40 ->
    let t' := set_mem (put 8 (l + i) x (p_mem t)) t in
    store64 (l + i) x t = Done tt t' /\ inv t' B /\ touches (F := F) B [l] t t').
  { intros t i x It Hi Hi'. apply (field_store t B [l] l 40 i x It Hl); trivial; in_list. }
  destruct (Hs s 16 0 I1 ltac:(lia) ltac:(lia)) as (E2 & I2 & T2). rewrite (bind_done _ _ _ _ _ E2).
  destruct (Hs _ 24 0 I2 ltac:(lia) ltac:(lia)) as (E3 & I3 & T3). rewrite (bind_done _ _ _ _ _ E3).
  destruct (Hs _ 32 0 I3 ltac:(lia) ltac:(lia)) as (E4 & I4 & T4). rewrite (bind_done _ _ _ _ _ E4).
  destruct (Hs _ 0 MALLOC I4 ltac:(lia) ltac:(lia)) as (E5 & I5 & T5). rewrite Z.add_0_r in E5, I5, T5.
  rewrite (bind_done _ _ _ _ _ E5). destruct (Hs _ 8 FREE I5 ltac:(lia) ltac:(lia)) as (E6 & I6 & T6).
  eexists. split; [exact E6|]. split; [exact I6|].
  split; [exact (touches_trans _ _ _ _ _ T2 (touches_trans _ _ _ _ _ T3 (touches_trans _ _ _ _ _ T4 (touches_trans _ _ _ _ _ T5 T6))))|].
  split; trivial; simpl; wput; trivial.
  - intros n []%elem_of_nil.
  - constructor; [apply not_elem_of_nil|constructor].
  - rewrite word_put_same; [reflexivity|split; reflexivity || discriminate].
  - rewrite word_put_same; [reflexivity|split; reflexivity || discriminate].
Qed.

(** Blocks that are not touched are kept. *)
Lemma touches_keeps B B' X s s' :
  touches (F := F) B' X s s' -> (forall p n, B !! p = Some n -> B' !! p = Some n /\ p ∉ X) -> keeps F B s s'.
Proof. intros [T1 T2] H. split; [|exact T2]. intros p n y Hp. destruct (H p n Hp). apply T1; trivial. Qed.

Lemma keeps_refl B s : keeps F B s s.
Proof. split; reflexivity. Qed.

Lemma sll_create_done s B :
  inv s B ->
  exists l s', sll_create s = Done l s' /\ keeps F B s s' /\
    (l = 0 /\ inv s' B \/ B !! l = None /\ inv s' (<[l := 40]> B) /\ sll (<[l := 40]> B) (p_mem s') l []).
Proof.
  intros I. unfold sll_create, sll_createExtern. destruct (al_malloc s B 40 I ltac:(lia)) as (l & s1 & E1 & K1 & Hr).
  rewrite (bind_done _ _ _ _ _ E1). destruct Hr as [[-> I1]|(Zl & Hl & I1)]; [exists 0, s1; auto|].
  rewrite (proj2 (Z.eqb_neq _ _) Zl).
  destruct (sll_init_done s1 _ l I1 (lookup_insert_eq _ _ _)) as (s2 & E2 & I2 & T2 & S2).
  rewrite (bind_done _ _ _ _ _ E2). exists l, s2. split; [reflexivity|]. split; [|right; auto].
  apply (keeps_trans _ _ _ s1); [exact K1|]. apply (touches_keeps _ _ _ _ _ T2). intros p n Hp.
  assert (p <> l) by congruence. rewrite lookup_insert_ne by congruence. set_solver.
Qed.

(** The blocks without those of [X]. *)
Definition without (X : list Z) (B : gmap Z Z) : gmap Z Z := foldr delete B X.

Lemma lookup_without X B p n : without X B !! p = Some n <-> p ∉ X /\ B !! p = Some n.
Proof.
  induction X as [|x X IH]; simpl; [split; [split; [apply not_elem_of_nil|trivial]|tauto]|].
  rewrite lookup_delete_Some, IH, not_elem_of_cons. intuition congruence.
Qed.

Lemma without_comm X Y B : without (X ++ Y) B = without Y (without X B).
Proof.
  apply map_eq. intros p. apply option_eq. intros n. rewrite !lookup_without, not_elem_of_app. tauto.
Qed.

Lemma keeps_delete B x s s' : keeps F B s s' -> keeps F (delete x B) s s'.
Proof. intros [H1 H2]. split; [|exact H2]. intros p n y (_ & Hp)%lookup_delete_Some. apply H1, Hp. Qed.

(** What [sll_clear] frees: the nodes and, if asked to, the elements, which are blocks too. *)
Definition victims (freeData : bool) (N : list (Z * Z)) : list Z :=
  match freeData with true => concat (map (fun '(n, d) => [n; d]) N) | false => N.*1 end.

Definition owns_data (freeData : bool) (B : gmap Z Z) (l : Z) (N : list (Z * Z)) : Prop :=
  NoDup (l :: victims freeData N) /\ (freeData = true -> forall d, d ∈ N.*2 -> is_Some (B !! d)).

Lemma victims_app fd N1 N2 : victims fd (N1 ++ N2) = victims fd N1 ++ victims fd N2.
Proof. destruct fd; simpl; [rewrite map_app, concat_app|rewrite fmap_app]; reflexivity. Qed.

Lemma victims_node fd N n : n ∈ N.*1 -> n ∈ victims fd N.
Proof.
  destruct fd; simpl; [|trivial]. induction N as [|[m d] N IH]; simpl; set_solver.
Qed.

Section Clear.
Context (ef : Z -> Z -> C unit).

(** One round: the element, if it is to be freed, then the node. *)
Lemma clear_step (fd : bool) s B n d :
  inv s B -> B !! n = Some 16 -> (fd = true -> is_Some (B !! d) /\ d <> n) ->
  word_at (p_mem s) (n + 8) = d ->
  forall l, B !! l = Some 40 -> word_at (p_mem s) (l + 8) = FREE -> l <> n -> (fd = true -> l <> d) ->
  exists s', (forall m, ((if fd then d ← node_data n; free d else mret tt);; ff ← get_ffree l; ffree ef ff n;; mret (Next (L := Z) (R := unit) m)) s
      = Done (Next m) s') /\
    inv s' (without (victims fd [(n, d)]) B) /\ keeps F (without (victims fd [(n, d)]) B) s s'.
Proof.
  intros I Hn Hd Hdata l Hl Hff Hln Hld.
  assert (H1 : exists s1, (if fd then d ← node_data n; free d else mret tt) s = Done tt s1 /\
    let B1 := if fd then delete d B else B in inv s1 B1 /\ keeps F B1 s s1 /\ B1 !! n = Some 16 /\ B1 !! l = Some 40).
  { destruct fd; [|exists s; eauto using keeps_refl].
    destruct (Hd eq_refl) as [[k Hk] Hne]. destruct (al_free s B d k I Hk) as (s1 & E1 & K1 & I1).
    exists s1. unfold node_data. rewrite (bind_done _ _ _ _ _ (block_load s B n 16 8 I Hn ltac:(lia) ltac:(lia))), Hdata.
    split; [exact E1|]. split; [exact I1|]. split; [exact K1|].
    rewrite !lookup_delete_ne by (try congruence; intros ->; apply Hld; reflexivity). auto. }
  destruct H1 as (s1 & E1 & H1). set (B1 := if fd then delete d B else B) in *. destruct H1 as (I1 & K1 & Hn1 & Hl1).
  destruct (al_free s1 B1 n 16 I1 Hn1) as (s2 & E2 & K2 & I2). exists s2. split.
  - intros m. rewrite (bind_done _ _ _ _ _ E1). unfold get_ffree.
    rewrite (bind_done _ _ _ _ _ (block_load s1 B1 l 40 8 I1 Hl1 ltac:(lia) ltac:(lia))).
    assert (W : word_at (p_mem s1) (l + 8) = FREE).
    { rewrite <- Hff. apply num_ext. intros y Hy. apply (proj1 K1 l 40); trivial. lia. }
    rewrite W. change (ffree ef FREE n) with (free n). rewrite (bind_done _ _ _ _ _ E2). reflexivity.
  - replace (without (victims fd [(n, d)]) B) with (delete n B1) by (unfold B1; destruct fd; reflexivity).
    split; [exact I2|]. exact (keeps_trans _ _ _ _ _ (keeps_delete _ _ _ _ K1) K2).
Qed.

(** The nodes of a list that is being cleared, from the state [s0] before. *)
Lemma clear_nodes s0 B l N1 n d N2 fd :
  sll B (p_mem s0) l (N1 ++ (n, d) :: N2) -> owns_data fd B l (N1 ++ (n, d) :: N2) ->
  let B1 := without (victims fd N1) B in
  B1 !! n = Some 16 /\ B1 !! l = Some 40 /\ l <> n /\ (fd = true -> (is_Some (B1 !! d) /\ d <> n) /\ l <> d).
Proof.
  intros S [Hd Hdata] B1. rewrite victims_app in Hd.
  assert (Ev : victims fd ((n, d) :: N2) = (if fd then [n; d] else [n]) ++ victims fd N2) by (destruct fd; reflexivity).
  rewrite Ev in Hd. apply NoDup_cons in Hd as [Hl Hd]. apply NoDup_app in Hd as (_ & Hx & Hd). apply NoDup_app in Hd as (Hd & _).
  assert (Hin : forall x, x ∈ (if fd then [n; d] else [n]) -> x ∉ victims fd N1 /\ l <> x).
  { intros x Hix. split; [intros H; apply (Hx x H); in_list|]. intros <-. apply Hl. in_list. }
  csplit.
  - apply lookup_without. split; [apply Hin; destruct fd; in_list|]. apply (sl_nodes _ _ _ _ S). rewrite fmap_app, fmap_cons. in_list.
  - apply lookup_without. split; [|apply S]. intros H. apply Hl. in_list.
  - apply Hin. destruct fd; in_list.
  - intros ->. destruct (Hin d ltac:(in_list)) as [H1 H2]. destruct (Hdata eq_refl d) as [k Hk].
    { rewrite fmap_app, fmap_cons. in_list. }
    csplit; trivial; [exists k; apply lookup_without; auto|]. apply NoDup_cons_1_1 in Hd. set_solver.
Qed.

Lemma clear_loop s B l N fd :
  inv s B -> sll B (p_mem s) l N -> owns_data fd B l N ->
  let B' := without (victims fd N) B in
  exists s', loop (fun n : Z =>
      if n =? 0 then mret (Break tt) else
      m ← node_next n;
      (if fd then d ← node_data n; free d else mret tt);;
      ff ← get_ffree l;
      ffree ef ff n;;
      mret (Next m)) (head_node N) s = Done tt s' /\ inv s' B' /\ keeps F B' s s'.
Proof.
  intros I S HD B'. pose proof (sll_short s B _ l N I S) as Hs.
  edestruct (fun body => loop_bounded body
    (fun k n s' => exists N1 N2, N = N1 ++ N2 /\ n = head_node N2 /\ k = Z.of_nat (length N2) /\
      inv s' (without (victims fd N1) B) /\ keeps F (without (victims fd N1) B) s s')
    (fun (_ : unit) s' => inv s' B' /\ keeps F B' s s') (Z.of_nat (length N)) (head_node N) s)
    as ([] & s1 & E1 & H1); [| | |eauto].
  - intros k q s' (N1 & N2 & E & -> & -> & I' & K'). split; [lia|]. destruct N2 as [|[n d] N2]; cbn [head_node].
    { right. eexists tt, s'. split; [reflexivity|]. rewrite app_nil_r in E. subst N1. auto. }
    left. rewrite E in S, HD. destruct (clear_nodes s B l N1 n d N2 fd S HD) as (Hn & Hl & Hln & Hd).
    rewrite (node_nonnull s B l _ I S N1 n d N2 eq_refl).
    assert (W : forall p k i, without (victims fd N1) B !! p = Some k -> 0 <= i -> i + 8 <= k ->
      word_at (p_mem s') (p + i) = word_at (p_mem s) (p + i)).
    { intros p k i Hp Hi Hk. apply num_ext. intros y Hy. apply (proj1 K' p k); trivial. lia. }
    destruct (nseg_node _ _ _ _ _ _ (sl_chain _ _ _ _ S)) as [Wn Wd].
    pose proof (block_load s' _ n 16 0 I' Hn ltac:(lia) ltac:(lia)) as L. rewrite (W n 16 0 Hn), Z.add_0_r, Wn in L by lia.
    unfold node_next. rewrite (bind_done _ _ _ _ _ L).
    destruct (clear_step fd s' _ n d I' Hn (fun H => proj1 (Hd H)) ltac:(rewrite (W n 16 8); trivial; lia) l Hl
      ltac:(rewrite (W l 40 8 Hl) by lia; apply S) Hln (fun H => proj2 (Hd H))) as (s2 & E2 & I2 & K2).
    eexists _, s2, (Z.of_nat (length N2)). split; [apply E2|]. split; [|simpl; lia].
    exists (N1 ++ [(n, d)]), N2. rewrite <- app_assoc, victims_app, without_comm. csplit; trivial.
    apply (keeps_trans _ _ _ s'); [|exact K2]. destruct K' as [K1 K1']. split; [|exact K1'].
    intros p k y (_ & Hp)%lookup_without. apply K1, Hp.
  - exists [], N. destruct fd; eauto 6 using keeps_refl.
  - lia.
Qed.

(** All nodes, and the elements with [freeData], are given back; nothing else changes. *)
Lemma sll_clear_done s B l N fd :
  inv s B -> sll B (p_mem s) l N -> owns_data fd B l N ->
  let B' := without (victims fd N) B in
  exists s', sll_clear ef l fd s = Done tt s' /\ inv s' B' /\ sll B' (p_mem s') l [] /\ touches (F := F) B' [l] s s'.
Proof.
  intros I S HD B'. unfold sll_clear. rewrite (bind_done _ _ _ _ _ (get_first_done s B l N I S)).
  rewrite bind_vassert by apply (list_nonnull s B l N I S).
  destruct (clear_loop s B l N fd I S HD) as (s1 & E1 & I1 & K1). rewrite (bind_done _ _ _ _ _ E1).
  fold B' in I1, K1. assert (Hl : B' !! l = Some 40).
  { apply lookup_without. destruct HD as [HD _]. apply NoDup_cons_1_1 in HD. split; [exact HD|apply S]. }
  assert (Hs : forall t i x, inv t B' -> 0 <= i -> i + 8 <= 40 ->
    let t' := set_mem (put 8 (l + i) x (p_mem t)) t in
    store64 (l + i) x t = Done tt t' /\ inv t' B' /\ touches (F := F) B' [l] t t').
  { intros t i x It Hi Hi'. apply (field_store t B' [l] l 40 i x It Hl); trivial; in_list. }
  unfold set_first, set_last, set_length.
  destruct (Hs s1 32 0 I1 ltac:(lia) ltac:(lia)) as (E2 & I2 & T2). rewrite (bind_done _ _ _ _ _ E2).
  destruct (Hs _ 16 0 I2 ltac:(lia) ltac:(lia)) as (E3 & I3 & T3). rewrite (bind_done _ _ _ _ _ E3).
  destruct (Hs _ 24 0 I3 ltac:(lia) ltac:(lia)) as (E4 & I4 & T4).
  eexists. split; [exact E4|]. split; [exact I4|].
  split; [|exact (touches_trans _ _ _ _ _ (keeps_touches B' [l] _ _ K1) (touches_trans _ _ _ _ _ T2 (touches_trans _ _ _ _ _ T3 T4)))].
  assert (W : forall i, 0 <= i <= 8 -> word_at (p_mem s1) (l + i) = word_at (p_mem s) (l + i)).
  { intros i Hi. apply num_ext. intros y Hy. apply (proj1 K1 l 40 y Hl). lia. }
  split; trivial; simpl; wput; trivial.
  - intros n []%elem_of_nil.
  - constructor; [apply not_elem_of_nil|constructor].
  - rewrite <- (Z.add_0_r l), W, Z.add_0_r by lia. apply S.
  - rewrite W by lia. apply S.
Qed.

(** Destroying a list gives every block of it back. *)
Lemma sll_destroy_done s B l N fd :
  inv s B -> sll B (p_mem s) l N -> owns_data fd B l N ->
  let B' := without (l :: victims fd N) B in
  exists s', sll_destroy ef l fd s = Done tt s' /\ inv s' B' /\ keeps F B' s s'.
Proof.
  intros I S HD B'. unfold sll_destroy. destruct (live_octa s B l 40 I (sl_block _ _ _ _ S)) as [_ Zl].
  rewrite (proj2 (Z.eqb_neq _ _) Zl). destruct (sll_clear_done s B l N fd I S HD) as (s1 & E1 & I1 & S1 & T1).
  rewrite (bind_done _ _ _ _ _ E1). destruct (al_free s1 _ l 40 I1 (sl_block _ _ _ _ S1)) as (s2 & E2 & K2 & I2).
  exists s2. split; [exact E2|]. split; [exact I2|]. apply (keeps_trans _ _ _ s1); [|exact K2].
  apply (touches_keeps _ _ _ _ _ T1). unfold B'. simpl.
  intros p n [? ?]%lookup_delete_Some. set_solver.
Qed.
End Clear.

(** ** Clients *)

Section Client.
Context (ea : Z -> Z -> C Z) (ef : Z -> Z -> C unit).

(** The calls of a client, with the arguments besides the list. *)
Inductive call :=
  | Append (data : Z)
  | Insert (data index : Z)
  | RemoveFirst
  | RemoveFirstWith (data : Z)
  | RemoveIndex (index : Z)
  | Get (index : Z)
  | Set_ (data index : Z)
  | IndexOf (data : Z)
  | Length
  | Clear.

Definition do_call (l : Z) (c : call) : C Z :=
  match c with
  | Append data => b ← sll_append ea l data; mret (Z.b2z b)
  | Insert data index => b ← sll_insert ea l data index; mret (Z.b2z b)
  | RemoveFirst => sll_removeFirst ef l
  | RemoveFirstWith data => sll_removeFirstWith ef l data
  | RemoveIndex index => sll_removeIndex ef l index
  | Get index => sll_get l index
  | Set_ data index => sll_set l data index;; mret 0
  | IndexOf data => sll_indexOf l data
  | Length => sll_length l
  | Clear => sll_clear ef l false;; mret 0
  end.

Fixpoint do_calls (l : Z) (cs : list call) : C (list Z) :=
  match cs with
  | [] => mret []
  | c :: cs' => r ← do_call l c; rs ← do_calls l cs'; mret (r :: rs)
  end.

(** A whole life of a list. *)
Definition client (cs : list call) : C (option (list Z)) :=
  l ← sll_create;
  if l =? 0 then mret None else
  rs ← do_calls l cs;
  sll_destroy ef l false;;
  mret (Some rs).
(** The same calls on a mathematical list; [mem] says whether there is memory for a node. *)
Definition spec_call (mem : bool) (xs : list Z) (c : call) : list Z * Z :=
  match c with
  | Append data => if mem then (xs ++ [data], 1) else (xs, 0)
  | Insert data index =>
      if mem then (take (Z.to_nat index) xs ++ data :: drop (Z.to_nat index) xs, 1) else (xs, 0)
  | RemoveFirst => (tail xs, data_at xs 0)
  | RemoveFirstWith data =>
      let i := if data =? 0 then match xs with [] => -1 | _ => 0 end else index_of_z data xs in
      (if i =? -1 then xs else delete (Z.to_nat i) xs, i)
  | RemoveIndex index => (delete (Z.to_nat index) xs, data_at xs index)
  | Get index => (xs, data_at xs index)
  | Set_ data index => (<[Z.to_nat index := data]> xs, 0)
  | IndexOf data => (xs, index_of_z data xs)
  | Length => (xs, Z.of_nat (length xs))
  | Clear => ([], 0)
  end.

(** The calls that the list allows: indices up to the end, for [sll_set] before it. *)
Definition legal (xs : list Z) (c : call) : Prop :=
  match c with
  | Append data => is_octa data
  | Insert data index => is_octa data /\ 0 <= index
  | RemoveIndex index | Get index => 0 <= index <= Z.of_nat (length xs)
  | Set_ data index => is_octa data /\ 0 <= index < Z.of_nat (length xs)
  | _ => True
  end.

(** Legal whatever memory there is. *)
Fixpoint safe (xs : list Z) (cs : list call) : Prop :=
  match cs with
  | [] => True
  | c :: cs' => legal xs c /\ forall mem, safe (spec_call mem xs c).1 cs'
  end.

(** The results [rs] of the calls on the mathematical list. *)
Fixpoint answers (xs : list Z) (cs : list call) (rs : list Z) : Prop :=
  match cs, rs with
  | [], [] => True
  | c :: cs', r :: rs' => exists mem, (spec_call mem xs c).2 = r /\ answers (spec_call mem xs c).1 cs' rs'
  | _, _ => False
  end.

(** After a call: the list is another one, all other blocks are live and unchanged. *)
Record after (B : gmap Z Z) (l : Z) (N : list (Z * Z)) (s : process)
  (B' : gmap Z Z) (N' : list (Z * Z)) (s' : process) : Prop := {
  af_inv : inv s' B';
  af_list : sll B' (p_mem s') l N';
  af_rest : without (l :: N'.*1) B' = without (l :: N.*1) B;
  af_kept : keeps F (without (l :: N.*1) B) s s'
}.

Lemma after_refl B l N s : inv s B -> sll B (p_mem s) l N -> after B l N s B N s.
Proof. intros I S. split; trivial. apply keeps_refl. Qed.

Lemma after_trans B l N s B1 N1 s1 B2 N2 s2 :
  after B l N s B1 N1 s1 -> after B1 l N1 s1 B2 N2 s2 -> after B l N s B2 N2 s2.
Proof.
  intros [I1 S1 R1 K1] [I2 S2 R2 K2]. split; trivial; [congruence|].
  apply (keeps_trans _ _ _ s1); [exact K1|]. rewrite <- R1. exact K2.
Qed.

Lemma touches_rest B X s s' : touches (F := F) B X s s' -> keeps F (without X B) s s'.
Proof. intros T. apply (touches_keeps _ _ _ _ _ T). intros p n (? & ?)%lookup_without. auto. Qed.

Lemma after_insert B l N1 N2 n d s s' :
  B !! n = None -> inv s' (<[n := 16]> B) -> sll (<[n := 16]> B) (p_mem s') l (N1 ++ (n, d) :: N2) ->
  touches (F := F) B (l :: (N1 ++ N2).*1) s s' -> after B l (N1 ++ N2) s (<[n := 16]> B) (N1 ++ (n, d) :: N2) s'.
Proof.
  intros Hn I S T. split; trivial; [|apply touches_rest, T].
  apply map_eq. intros p. apply option_eq. intros k. rewrite !lookup_without, !fmap_app, fmap_cons. cbn [fst].
  destruct (decide (p = n)) as [->|Hne]; [rewrite Hn; set_solver|]. rewrite lookup_insert_ne by congruence. set_solver.
Qed.

Lemma after_removed B l N1 n d N2 s s' :
  removed (F := F) (inv := inv) B l N1 n N2 s s' -> after B l (N1 ++ (n, d) :: N2) s (delete n B) (N1 ++ N2) s'.
Proof.
  intros (I & S & T).
  assert (E : without (l :: (N1 ++ N2).*1) (delete n B) = without (l :: (N1 ++ (n, d) :: N2).*1) B).
  { apply map_eq. intros p. apply option_eq. intros k. rewrite !lookup_without, !fmap_app, fmap_cons, lookup_delete_Some. cbn [fst].
    set_solver. }
  split; trivial. rewrite <- E. apply touches_rest, T.
Qed.

Lemma delete_end {X} (xs : list X) : delete (length xs) xs = xs.
Proof. induction xs as [|x xs IH]; [reflexivity|]. cbn. f_equal. exact IH. Qed.

(** A call on a list in memory does what it does on the mathematical list. *)
Definition simulates (c : call) (s : process) (B : gmap Z Z) (l : Z) (N : list (Z * Z)) : Prop :=
  exists r s' B' N' mem, do_call l c s = Done r s' /\ spec_call mem N.*2 c = (N'.*2, r) /\ after B l N s B' N' s'.

Section Simulation.
Context (s : process) (B : gmap Z Z) (l : Z) (N : list (Z * Z)).
Context (I : inv s B) (S : sll B (p_mem s) l N).

(** Calls that read. *)
Lemma simulates_read c r mem : do_call l c s = Done r s -> spec_call mem N.*2 c = (N.*2, r) -> simulates c s B l N.
Proof. intros E H. exists r, s, B, N, mem. auto using after_refl. Qed.

(** Calls that insert [data] between [N1] and [N2]. *)
Lemma simulates_insert c data N1 N2 (op : C bool) :
  N = N1 ++ N2 -> do_call l c = (b ← op; mret (Z.b2z b)) ->
  spec_call false N.*2 c = (N.*2, 0) -> spec_call true N.*2 c = (N1.*2 ++ data :: N2.*2, 1) ->
  (exists ok s', op s = Done ok s' /\ touches (F := F) B (l :: N.*1) s s' /\
    (ok = false /\ inv s' B /\ sll B (p_mem s') l N \/
     ok = true /\ exists n, B !! n = None /\ inv s' (<[n := 16]> B) /\ sll (<[n := 16]> B) (p_mem s') l (N1 ++ (n, data) :: N2))) ->
  simulates c s B l N.
Proof.
  intros EN Ec E0 E1 (ok & s' & E & T & H). unfold simulates. rewrite Ec, (bind_done _ _ _ _ _ E).
  destruct H as [(-> & I' & S')|(-> & n & Hn & I' & S')].
  - exists 0, s', B, N, false. csplit; trivial. split; trivial. apply touches_rest, T.
  - exists 1, s', (<[n := 16]> B), (N1 ++ (n, data) :: N2), true. rewrite fmap_app. csplit; trivial.
    rewrite EN in T |- *. apply after_insert; trivial.
Qed.

(** Calls that remove the node [n] between [N1] and [N2]. *)
Lemma simulates_remove c r N1 n d N2 s' :
  N = N1 ++ (n, d) :: N2 -> do_call l c s = Done r s' -> removed (F := F) (inv := inv) B l N1 n N2 s s' ->
  spec_call false N.*2 c = (delete (length N1) N.*2, r) -> simulates c s B l N.
Proof.
  intros EN E Hr Hs. exists r, s', (delete n B), (N1 ++ N2), false. split; [exact E|].
  rewrite Hs. subst N. split; [|apply after_removed, Hr].
  rewrite !fmap_app, fmap_cons, <- (length_fmap snd N1), delete_middle. reflexivity.
Qed.

Lemma removeFirst_simulates : simulates RemoveFirst s B l N.
Proof.
  destruct (sll_removeFirst_done ef s B l N I S) as (r & s' & E & H).
  assert (HN : N = [] \/ exists n d N', N = (n, d) :: N') by (destruct N as [|[n d] N']; eauto).
  destruct HN as [EN|(n & d & N' & EN)]; rewrite EN in H; [destruct H as [-> ->]|destruct H as [-> H]].
  - apply (simulates_read _ 0 false); rewrite ?EN; trivial.
  - apply (simulates_remove _ d [] n d N' s'); trivial. rewrite EN. reflexivity.
Qed.

Lemma removeFirstWith_simulates data : simulates (RemoveFirstWith data) s B l N.
Proof.
  destruct (sll_removeFirstWith_done ef s B l N data I S) as (r & s' & E & H).
  destruct H as [(-> & -> & H)|(N1 & n & d & N2 & EN & -> & H & Hr)].
  - apply (simulates_read _ (-1) false); trivial. simpl. destruct (data =? 0); [rewrite H|rewrite index_of_none by trivial]; reflexivity.
  - apply (simulates_remove _ (Z.of_nat (length N1)) N1 n d N2 s'); trivial. simpl.
    assert (Hi : (if data =? 0 then match N.*2 with [] => -1 | _ => 0 end else index_of_z data N.*2) = Z.of_nat (length N1)).
    { rewrite EN, fmap_app, fmap_cons. cbn [snd]. destruct (data =? 0); [subst N1; reflexivity|].
      destruct H as [-> H]. rewrite index_of_found, length_fmap by trivial. reflexivity. }
    rewrite Hi, (proj2 (Z.eqb_neq _ _)), Nat2Z.id by lia. reflexivity.
Qed.

Lemma removeIndex_simulates index : 0 <= index <= Z.of_nat (length N) -> simulates (RemoveIndex index) s B l N.
Proof.
  intros Hi. destruct (sll_removeIndex_done ef s B l N index I S Hi) as (r & s' & E & H).
  destruct H as [(Ei & -> & ->)|(N1 & n & N2 & EN & Ei & Hr)].
  - apply (simulates_read _ 0 false); trivial. simpl. subst index.
    rewrite Nat2Z.id, data_at_end, <- (length_fmap snd N), delete_end. reflexivity.
  - apply (simulates_remove _ r N1 n r N2 s'); trivial. simpl. subst index.
    rewrite Nat2Z.id, (data_at_app N N1 n r N2 EN). reflexivity.
Qed.

Lemma set_simulates data index : is_octa data -> 0 <= index < Z.of_nat (length N) -> simulates (Set_ data index) s B l N.
Proof.
  intros Od Hi. destruct (sll_set_done s B l N I S data index Hi Od) as (s' & N' & E & I' & S' & E1 & E2 & T).
  exists 0, s', B, N', false. simpl. rewrite (bind_done _ _ _ _ _ E), E2. csplit; trivial.
  split; trivial; [rewrite E1; reflexivity|apply touches_rest, T].
Qed.

Lemma clear_simulates : simulates Clear s B l N.
Proof.
  destruct (sll_clear_done ef s B l N false I S) as (s' & E & I' & S' & T).
  { split; [apply S|discriminate]. }
  exists 0, s', (without N.*1 B), [], false. simpl. rewrite (bind_done _ _ _ _ _ E). csplit; trivial.
  split; trivial. exact (touches_rest _ _ _ _ T).
Qed.

Lemma call_simulates c : legal N.*2 c -> simulates c s B l N.
Proof.
  intros L. destruct c as [data|data index| |data|index|index|data index|data| |]; simpl in L; rewrite ?length_fmap in L.
  - apply (simulates_insert _ data N [] (sll_append ea l data)); rewrite ?app_nil_r; trivial.
    apply sll_append_done; trivial.
  - destruct L as [Od Hi].
    apply (simulates_insert _ data (take (Z.to_nat index) N) (drop (Z.to_nat index) N) (sll_insert ea l data index)); trivial.
    + symmetry. apply take_drop.
    + rewrite fmap_take, fmap_drop. reflexivity.
    + apply (sll_insert_done ea s B l N data index); trivial.
  - apply removeFirst_simulates.
  - apply removeFirstWith_simulates.
  - apply removeIndex_simulates, L.
  - apply (simulates_read _ (data_at N.*2 index) false); [apply (sll_get_done s B l N I S), L|reflexivity].
  - destruct L. apply set_simulates; trivial.
  - apply (simulates_read _ (index_of_z data N.*2) false); [apply (sll_indexOf_done s B l N I S)|reflexivity].
  - apply (simulates_read _ (Z.of_nat (length N)) false); [|simpl; rewrite length_fmap; reflexivity].
    simpl. unfold sll_length. destruct (live_octa s B l 40 I (sl_block _ _ _ _ S)) as [_ Zl].
    rewrite (proj2 (Z.eqb_neq _ _) Zl). apply (get_length_done s B l N I S).
  - apply clear_simulates.
Qed.
End Simulation.

Lemma calls_simulate cs : forall s B l N,
  inv s B -> sll B (p_mem s) l N -> safe N.*2 cs ->
  exists rs s' B' N', do_calls l cs s = Done rs s' /\ answers N.*2 cs rs /\ after B l N s B' N' s'.
Proof.
  induction cs as [|c cs IH]; intros s B l N I S Hs.
  - exists [], s, B, N. csplit; trivial. apply after_refl; trivial.
  - destruct Hs as [Hl Hs]. destruct (call_simulates s B l N I S c Hl) as (r & s1 & B1 & N1 & mem & E1 & H1 & A1).
    specialize (Hs mem). rewrite H1 in Hs. cbn [fst] in Hs. destruct A1 as [I1 S1 R1 K1] eqn:EA.
    destruct (IH s1 B1 l N1 I1 S1 Hs) as (rs & s2 & B2 & N2 & E2 & H2 & A2).
    exists (r :: rs), s2, B2, N2. cbn [do_calls]. rewrite (bind_done _ _ _ _ _ E1), (bind_done _ _ _ _ _ E2).
    split; [reflexivity|]. split; [|apply (after_trans _ _ _ _ B1 N1 s1); trivial; split; trivial].
    exists mem. rewrite H1. auto.
Qed.

(** A program that creates a list, works with it and destroys it. *)
Lemma client_done cs s B :
  inv s B -> safe [] cs ->
  exists r s', client cs s = Done r s' /\ inv s' B /\ keeps F B s s' /\
    match r with Some rs => answers [] cs rs | None => True end.
Proof.
  intros I Hs. unfold client. destruct (sll_create_done s B I) as (l & s1 & E1 & K1 & H). rewrite (bind_done _ _ _ _ _ E1).
  destruct H as [[-> I1]|(Hl & I1 & S1)]; [exists None, s1; auto|].
  destruct (live_octa s1 _ l 40 I1 (lookup_insert_eq _ _ _)) as [_ Zl]. rewrite (proj2 (Z.eqb_neq _ _) Zl).
  destruct (calls_simulate cs s1 _ l [] I1 S1 Hs) as (rs & s2 & B2 & N2 & E2 & H2 & [I2 S2 R2 K2]).
  rewrite (bind_done _ _ _ _ _ E2). destruct (sll_destroy_done ef s2 B2 l N2 false I2 S2) as (s3 & E3 & I3 & K3).
  { split; [apply S2|discriminate]. }
  rewrite (bind_done _ _ _ _ _ E3). assert (EB : without [l] (<[l := 40]> B) = B) by apply delete_insert_id, Hl.
  change (victims false N2) with N2.*1 in I3, K3. change ([].*1) with (@nil Z) in R2, K2.
  rewrite R2, EB in I3, K3. rewrite EB in K2. exists (Some rs), s3. csplit; trivial.
  exact (keeps_trans _ _ _ _ _ K1 (keeps_trans _ _ _ _ _ K2 K3)).
Qed.
End Client.

(** Behind the end [sll_removeIndex] follows the NULL of the last node. *)
Lemma removeIndex_behind ef s B l N index :
  inv s B -> sll B (p_mem s) l N -> p_mapped s 0 = false -> Z.of_nat (length N) < index ->
  sll_removeIndex ef l index s = Bad Fault.
Proof.
  intros I S Hm Hi. unfold sll_removeIndex. rewrite (bind_done _ _ _ _ _ (get_first_done s B l N I S)).
  rewrite bind_vassert by apply (list_nonnull s B l N I S). apply bind_bad. pose proof (sll_short s B _ l N I S) as Hs.
  apply (loop_iter _ (Datatypes.S (length N))); [|lia]. change (negb true) with false.
  assert (H : forall K M ln i, N = M ++ K -> Z.of_nat (length K) < i ->
    iter (R := Z * Z) (fun '(ln, n, index) =>
      if 0 <? index then
        n' ← node_next n;
        mret (Next (n, n', index - 1))
      else mret (Break (ln, n))) (Datatypes.S (length K)) (ln, head_node K, i) s (Bad Fault)); [|apply (H N []); trivial].
  induction K as [|[n d] K IH]; intros M ln i E HK.
  - apply iter_bad. rewrite (proj2 (Z.ltb_lt _ _)) by (simpl in HK; lia). apply bind_bad.
    unfold node_next, load. simpl. rewrite Hm. reflexivity.
  - eapply iter_next; [|apply (IH (M ++ [(n, d)]) n (i - 1)); [rewrite <- app_assoc; exact E|simpl in HK; lia]].
    rewrite (proj2 (Z.ltb_lt _ _)) by (simpl in HK; lia). cbn [head_node].
    rewrite (bind_done _ _ _ _ _ (node_next_done s B l N I S M n d K E)). reflexivity.
Qed.
End Props.

(** ** The theorems *)

(** C7: A client that creates a list with [sll_create], performs any sequence of calls with legal
    indices and destroys the list runs to its end; its calls return what they return on a
    mathematical list (for some pattern of failed allocations), every block that was live before
    is live and unchanged, and no block of the list is left over. *)
Theorem sll_refines_list {F inv} `{!Allocator F inv} ea ef cs s B :
  inv s B -> safe [] cs ->
  exists r s', client ea ef cs s = Done r s' /\ inv s' B /\ keeps F B s s' /\
    match r with Some rs => answers [] cs rs | None => True end.
Proof. apply client_done. Qed.

Definition some_calls : list call := [Append 5; Insert 7 0; RemoveFirst; IndexOf 5; RemoveFirstWith 5; Clear].

Lemma example_blocks limit : limit <= 2 ^ 47 -> heap_blocks (fun _ => False) (example_process limit) ∅.
Proof.
  intros Hl. exists no_view. split; [apply start_ready, example_start, Hl|]. split; [discriminate 1|contradiction].
Qed.

Ltac split_calls := repeat match goal with |- _ /\ _ => split | |- forall _ : bool, _ => intros [] end; trivial; unfold is_word; lia.

Lemma sll_refines_list_witness :
  safe [] some_calls /\
  exists r s', client (fun _ _ => mret 0) (fun _ _ => mret tt) some_calls (example_process (2 ^ 20)) = Done r s' /\
    heap_blocks (fun _ => False) s' ∅ /\ keeps (fun _ => False) ∅ (example_process (2 ^ 20)) s' /\
    match r with Some rs => answers [] some_calls rs | None => True end.
Proof.
  assert (Hs : safe [] some_calls) by (simpl; split_calls).
  split; [exact Hs|].
  apply (sll_refines_list (fun _ _ => mret 0) (fun _ _ => mret tt) some_calls); [apply example_blocks; lia|exact Hs].
Defined.

(** What happens to indices behind the end: [sll_get] asserts, but the check accepts the
    index that is equal to the length, at which [sll_set] writes through NULL; [sll_removeIndex]
    has no check and follows the NULL at the end.  Both fault (the page at 0 is not mapped). *)
Theorem sll_behind_end {F inv} `{!Allocator F inv} ef s B l N data index :
  inv s B -> sll B (p_mem s) l N -> p_mapped s 0 = false -> p_mapped s 8 = false ->
  Z.of_nat (length N) < index ->
  sll_get l index s = Bad AssertFail /\ sll_set l data (Z.of_nat (length N)) s = Bad Fault /\
  sll_removeIndex ef l index s = Bad Fault.
Proof.
  intros I S H0 H8 Hi. split; [|split].
  - unfold sll_get. apply bind_bad, (sll_getNode_assert s B l N I S), Hi.
  - apply (sll_set_end s B l N I S data H8).
  - apply (removeIndex_behind ef s B l N index I S H0 Hi).
Qed.

(** An empty list at the start of the heap. *)
Definition new_list : option (Z * process) :=
  match sll_create (example_process (2 ^ 20)) with Done l s => Some (l, s) | Bad _ => None end.

Lemma new_list_done :
  exists l s, new_list = Some (l, s) /\ p_mapped s 0 = false /\ p_mapped s 8 = false /\
    exists B, heap_blocks (fun _ => False) s B /\ sll B (p_mem s) l [].
Proof.
  assert (E : match new_list with Some (l, s) => negb (l =? 0) && negb (p_mapped s 0) && negb (p_mapped s 8) | None => false end = true)
    by (vm_compute; reflexivity).
  destruct (sll_create_done (F := fun _ => False) _ _ (example_blocks (2 ^ 20) ltac:(lia))) as (l & s & Ec & _ & H).
  unfold new_list in *. rewrite Ec in E |- *. apply andb_true_iff in E as [[E1 E2]%andb_true_iff E3].
  apply negb_true_iff in E2, E3. exists l, s. csplit; trivial.
  destruct H as [[-> _]|(_ & I & S)]; [discriminate E1|eauto].
Qed.

Lemma sll_behind_end_witness :
  exists l s, new_list = Some (l, s) /\
    sll_get l 1 s = Bad AssertFail /\ sll_set l 5 (Z.of_nat (length (A := Z) [])) s = Bad Fault /\
    sll_removeIndex (fun _ _ => mret tt) l 1 s = Bad Fault.
Proof.
  destruct new_list_done as (l & s & E & H0 & H8 & B & I & S). exists l, s. split; [exact E|].
  apply (sll_behind_end (F := fun _ => False) (inv := heap_blocks (fun _ => False)) (fun _ _ => mret tt) s B l [] 5 1); trivial. reflexivity.
Defined.
