(* ===== verification/Sort.v ===== *)
(** * Sorting and searching

    [qsort] and [bsearch] of lib/c/stdlib, for any comparison function: the caller's function
    is a parameter that compares the contents of two elements and changes nothing. *)

From Stdlib Require Import ZArith Lia Bool.
From stdpp Require Import base list numbers option.
From S2P Require Import Prelude CMem MemOps.

(** The conversion of a number to [int]. *)
Definition int (x : Z) : Z := signed 32 (wrap32 x).

Lemma int_small x : - 2 ^ 31 <= x < 2 ^ 31 -> int x = x.
Proof. intros H. apply signed_wrap; lia. Qed.

Section Sort.
Context (cmp : Z -> Z -> C Z).

(** ** The functions *)

(** Moves the last element [piv] of the range to its place. *)
Definition divide (base size left right : Z) : C Z :=
  let pleft := base +o wrap64 left *o size in
  let piv := base +o wrap64 right *o size in
  i ← loop (fun '(i, j) =>
    i ← loop (fun i =>
      r ← cmp i piv;
      if (r <=? 0) && (i <? piv) then mret (Next (i + size)) else mret (Break i)) i;
    j ← loop (fun j =>
      r ← cmp j piv;
      if (0 <=? r) && (pleft <? j) then mret (Next (j - size)) else mret (Break j)) j;
    (if i <? j then memswp i j size else mret tt);;
    if i <? j then mret (Next (i, j)) else mret (Break i)) (pleft, piv - size);
  r ← cmp i piv;
  (if 0 <? r then memswp i piv size else mret tt);;
  mret (int (wrap32 (i - base) / size)).

(** The recursion ends after at most as many levels as there are elements; [fuel] bounds it. *)
Fixpoint qsort_range (fuel : nat) (base size left right : Z) : C unit :=
  match fuel with
  | O => bad OutOfFuel
  | S fuel' =>
      if left <? right then
        i ← divide base size left right;
        qsort_range fuel' base size left (int (i - 1));;
        qsort_range fuel' base size (int (i + 1)) right
      else mret tt
  end.

Definition qsort (base nmemb size : Z) : C unit :=
  qsort_range (S (Z.to_nat nmemb)) base size 0 (int (nmemb -o 1)).

Definition bsearch (key base num size : Z) : C Z :=
  loop (fun '(from, to) =>
    if from <=? to then
      let m := (from +o to) / 2 in
      let val := base +o m *o size in
      res ← cmp val key;
      if res =? 0 then mret (Break val) else
      if 0 <? res then mret (Next (from, m -o 1)) else mret (Next (m +o 1, to))
    else mret (Break 0)) (0, num -o 1).

(** ** Elements *)

(** The contents of the element at [p]. *)
Definition elem (m : arr) (size p : Z) : list Z := map (fun i => byte_at m (p + i)) (seqZ 0 size).

(** Positions after the exchange of [a] and [b]. *)
Definition swp (a b k : Z) : Z := if k =? a then b else if k =? b then a else k.

Lemma elem_ext m m' size p p' :
  (forall i, 0 <= i < size -> byte_at m' (p' + i) = byte_at m (p + i)) -> elem m' size p' = elem m size p.
Proof. intros H. apply map_ext_in. intros i Hi. apply H. apply list_elem_of_In, elem_of_seqZ in Hi. lia. Qed.

Lemma range_off lo hi y : ~ (lo <= y < hi) -> (lo <=? y) && (y <? hi) = false.
Proof. intros H. destruct (Z.leb_spec lo y), (Z.ltb_spec y hi); trivial. lia. Qed.

Lemma cell_eq size k a i : 0 <= i < size -> a * size <= k * size + i < a * size + size -> k = a.
Proof. intros Hi H. nia. Qed.

Lemma swapped_elem m m' base size a b k :
  a <> b -> swapped m (base + a * size) (base + b * size) size m' ->
  elem m' size (base + k * size) = elem m size (base + swp a b k * size).
Proof.
  intros Hab H. apply elem_ext. intros i Hi. rewrite H. unfold swp.
  destruct (Z.eqb_spec k a) as [->|Ha]; [|destruct (Z.eqb_spec k b) as [->|Hb]].
  - rewrite (proj2 (Z.leb_le _ _)), (proj2 (Z.ltb_lt _ _)) by lia. cbn [andb]. f_equal. lia.
  - rewrite range_off by (intros Hr; apply Hab; symmetry; apply (cell_eq size b a i); lia).
    rewrite (proj2 (Z.leb_le _ _)), (proj2 (Z.ltb_lt _ _)) by lia. cbn [andb]. f_equal. lia.
  - rewrite !range_off; trivial; intros Hr; [apply Hb|apply Ha]; apply (cell_eq size _ _ i); lia.
Qed.

(** What is asked of the comparison function: it reads the two elements and its result is that of
    a total preorder [le] on their contents. *)
Record comparison (size : Z) (le : list Z -> list Z -> bool) : Prop := {
  cmp_result s p q : mapped s p (p + size) -> mapped s q (q + size) ->
    exists r, cmp p q s = Done r s /\
      (r <=? 0) = le (elem (p_mem s) size p) (elem (p_mem s) size q) /\
      (0 <=? r) = le (elem (p_mem s) size q) (elem (p_mem s) size p);
  le_total x y : le x y = true \/ le y x = true;
  le_trans x y z : le x y = true -> le y z = true -> le x z = true
}.

Section Array.
Context (base size n : Z) (le : list Z -> list Z -> bool) (Hcmp : comparison size le).
Context (Hsize : 0 < size) (Hbase : 0 <= base) (Hend : base + n * size <= 2 ^ 64) (Hn : 0 <= n < 2 ^ 31) (Hbytes : n * size < 2 ^ 32).

Abbreviation addr k := (base + k * size).
Abbreviation E m k := (elem m size (addr k)).

(** An element of the array is mapped. *)
Lemma cell_mapped s k : mapped s base (addr n) -> 0 <= k < n -> mapped s (addr k) (addr k + size).
Proof. intros Hm Hk y Hy. apply Hm. nia. Qed.

Lemma cmp_cells s a b :
  mapped s base (addr n) -> 0 <= a < n -> 0 <= b < n ->
  exists r, cmp (addr a) (addr b) s = Done r s /\
    (r <=? 0) = le (E (p_mem s) a) (E (p_mem s) b) /\ (0 <=? r) = le (E (p_mem s) b) (E (p_mem s) a).
Proof. intros Hm Ha Hb. apply (cmp_result _ _ Hcmp); apply cell_mapped; trivial. Qed.

Lemma addr_ltb a b : (addr a <? addr b) = (a <? b).
Proof. destruct (Z.ltb_spec a b), (Z.ltb_spec (addr a) (addr b)); trivial; nia. Qed.

Lemma addr_small k : 0 <= k < n -> base +o wrap64 k *o size = addr k.
Proof.
  intros Hk. rewrite (wrap_small 64 k) by (unfold is_word; lia).
  rewrite (wrap_small 64 (k * size)) by (unfold is_word; nia). apply wrap_small. unfold is_word. nia.
Qed.

(** The index that [divide] computes from its pointer. *)
Lemma addr_index k : 0 <= k < n -> int (wrap32 (addr k - base) / size) = k.
Proof.
  intros Hk. replace (addr k - base) with (k * size) by lia.
  rewrite (wrap_small 32) by (unfold is_word; nia). rewrite Z.div_mul by lia.
  apply int_small. lia.
Qed.

Lemma swap_cells s a b :
  mapped s base (addr n) -> 0 <= a < n -> 0 <= b < n ->
  exists m, memswp (addr a) (addr b) size s = Done tt (set_mem m s) /\
    (a <> b -> forall k, E m k = E (p_mem s) (swp a b k)) /\
    (forall y, y < base \/ addr n <= y -> byte_at m y = byte_at (p_mem s) y).
Proof.
  intros Hm Ha Hb. destruct (memswp_swaps s (addr a) (addr b) size) as (m & Em & Hs).
  - unfold is_word. nia.
  - apply cell_mapped; trivial.
  - apply cell_mapped; trivial.
  - destruct (Z.lt_trichotomy a b) as [?|[->|?]]; [right; left; nia|left; reflexivity|right; right; nia].
  - exists m. split; [exact Em|]. split; [intros Hab k; apply swapped_elem; trivial|].
    intros y Hy. rewrite Hs, !range_off; [reflexivity|nia..].
Qed.

(** ** Partitioning *)

Lemma scan_up s a right :
  mapped s base (addr n) -> 0 <= a <= right -> right < n ->
  exists a', loop (fun i =>
      r ← cmp i (addr right);
      if (r <=? 0) && (i <? addr right) then mret (Next (i + size)) else mret (Break i)) (addr a) s = Done (addr a') s /\
    a <= a' <= right /\ (forall k, a <= k < a' -> le (E (p_mem s) k) (E (p_mem s) right) = true) /\
    (a' = right \/ le (E (p_mem s) a') (E (p_mem s) right) = false).
Proof.
  intros Hm Ha Hr. edestruct (fun body => loop_bounded body
    (fun k i s' => s' = s /\ exists b, i = addr b /\ k = right - b /\ a <= b <= right /\
       forall k, a <= k < b -> le (E (p_mem s) k) (E (p_mem s) right) = true)
    (fun i s' => s' = s /\ exists b, i = addr b /\ a <= b <= right /\
       (forall k, a <= k < b -> le (E (p_mem s) k) (E (p_mem s) right) = true) /\
       (b = right \/ le (E (p_mem s) b) (E (p_mem s) right) = false)) (right - a) (addr a) s)
    as (i & s' & El & -> & b & -> & H); [| | |eauto].
  - intros k i s' (-> & b & -> & -> & Hb & Hle). split; [lia|].
    destruct (cmp_cells s b right Hm ltac:(lia) ltac:(lia)) as (r & Er & H1 & _). rewrite (bind_done _ _ _ _ _ Er), H1, addr_ltb.
    destruct (le (E (p_mem s) b) (E (p_mem s) right)) eqn:Ele; cbn [andb].
    + destruct (Z.ltb_spec b right).
      * left. eexists _, s, (right - (b + 1)). split; [reflexivity|]. split; [|lia]. split; [reflexivity|].
        exists (b + 1). csplit; try lia. intros k Hk. destruct (Z.eq_dec k b) as [->|]; [exact Ele|apply Hle; lia].
      * right. eexists _, s. split; [reflexivity|]. split; [reflexivity|]. exists b. csplit; trivial; lia.
    + right. eexists _, s. split; [reflexivity|]. split; [reflexivity|]. exists b. csplit; trivial; try lia. auto.
  - split; [reflexivity|]. exists a. csplit; trivial; lia.
  - lia.
Qed.

Lemma scan_down s left b right :
  mapped s base (addr n) -> 0 <= left <= b -> b < right < n ->
  exists b', loop (fun j =>
      r ← cmp j (addr right);
      if (0 <=? r) && (addr left <? j) then mret (Next (j - size)) else mret (Break j)) (addr b) s = Done (addr b') s /\
    left <= b' <= b /\ (forall k, b' < k <= b -> le (E (p_mem s) right) (E (p_mem s) k) = true) /\
    (b' = left \/ le (E (p_mem s) right) (E (p_mem s) b') = false).
Proof.
  intros Hm Ha Hr. edestruct (fun body => loop_bounded body
    (fun k i s' => s' = s /\ exists c, i = addr c /\ k = c - left /\ left <= c <= b /\
       forall k, c < k <= b -> le (E (p_mem s) right) (E (p_mem s) k) = true)
    (fun i s' => s' = s /\ exists c, i = addr c /\ left <= c <= b /\
       (forall k, c < k <= b -> le (E (p_mem s) right) (E (p_mem s) k) = true) /\
       (c = left \/ le (E (p_mem s) right) (E (p_mem s) c) = false)) (b - left) (addr b) s)
    as (i & s' & El & -> & c & -> & H); [| | |eauto].
  - intros k i s' (-> & c & -> & -> & Hb & Hle). split; [lia|].
    destruct (cmp_cells s c right Hm ltac:(lia) ltac:(lia)) as (r & Er & _ & H1). rewrite (bind_done _ _ _ _ _ Er), H1, addr_ltb.
    destruct (le (E (p_mem s) right) (E (p_mem s) c)) eqn:Ele; cbn [andb].
    + destruct (Z.ltb_spec left c).
      * left. eexists _, s, (c - 1 - left). split; [reflexivity|]. split; [|lia]. split; [reflexivity|].
        exists (c - 1). csplit; try lia. intros k Hk. destruct (Z.eq_dec k c) as [->|]; [exact Ele|apply Hle; lia].
      * right. eexists _, s. split; [reflexivity|]. split; [reflexivity|]. exists c. csplit; trivial; lia.
    + right. eexists _, s. split; [reflexivity|]. split; [reflexivity|]. exists c. csplit; trivial; try lia. auto.
  - split; [reflexivity|]. exists b. csplit; trivial; lia.
  - lia.
Qed.

(** The elements from [lo] to [hi]. *)
Definition cells (m : arr) (lo hi : Z) : list (list Z) := map (fun k => E m k) (seqZ lo (hi - lo + 1)).

(** The elements from [lo] to [hi] are in another order, everything else is the same. *)
Record rearranged (m m' : arr) (lo hi : Z) : Prop := {
  ra_out k : k < lo \/ hi < k -> E m' k = E m k;
  ra_perm : cells m' lo hi ≡ₚ cells m lo hi;
  ra_bytes y : y < base \/ addr n <= y -> byte_at m' y = byte_at m y
}.

Lemma rearranged_refl m lo hi : rearranged m m lo hi.
Proof. split; reflexivity. Qed.

Lemma rearranged_trans m m' m'' lo hi : rearranged m m' lo hi -> rearranged m' m'' lo hi -> rearranged m m'' lo hi.
Proof.
  intros [O1 P1 B1] [O2 P2 B2]. split.
  - intros k Hk. rewrite O2, O1; trivial.
  - rewrite P2. exact P1.
  - intros y Hy. rewrite B2, B1; trivial.
Qed.

Lemma cells_split m lo mid hi : lo <= mid -> mid <= hi + 1 -> cells m lo hi = cells m lo (mid - 1) ++ cells m mid hi.
Proof.
  intros H1 H2. unfold cells. rewrite <- map_app. f_equal.
  replace (hi - lo + 1) with ((mid - 1 - lo + 1) + (hi - mid + 1)) by lia. rewrite seqZ_app by lia. do 2 f_equal. lia.
Qed.

Lemma cells_one m a : cells m a a = [E m a].
Proof. unfold cells. rewrite Z.sub_diag. reflexivity. Qed.

Lemma cells_ext m m' lo hi : (forall k, lo <= k <= hi -> E m' k = E m k) -> cells m' lo hi = cells m lo hi.
Proof. intros H. apply map_ext_in. intros k Hk. apply H. apply list_elem_of_In, elem_of_seqZ in Hk. lia. Qed.

Lemma rearranged_mono m m' lo hi lo' hi' :
  lo <= lo' -> lo' <= hi' + 1 -> hi' <= hi -> rearranged m m' lo' hi' -> rearranged m m' lo hi.
Proof.
  intros H1 H2 H3 [O P B]. split; [intros k Hk; apply O; lia| |exact B].
  rewrite !(cells_split _ lo lo' hi), !(cells_split _ lo' (hi' + 1) hi) by lia. replace (hi' + 1 - 1) with hi' by lia.
  rewrite P. rewrite (cells_ext m m' lo (lo' - 1)), (cells_ext m m' (hi' + 1) hi) by (intros k Hk; apply O; lia). reflexivity.
Qed.

Lemma rearranged_swap m m' lo hi a b :
  lo <= a -> a < b -> b <= hi -> (forall k, E m' k = E m (swp a b k)) ->
  (forall y, y < base \/ addr n <= y -> byte_at m' y = byte_at m y) -> rearranged m m' lo hi.
Proof.
  intros H1 H2 H3 Hs B.
  assert (O : forall k, k <> a -> k <> b -> E m' k = E m k).
  { intros k Ha Hb. rewrite Hs. unfold swp. rewrite !(proj2 (Z.eqb_neq _ _)) by trivial. reflexivity. }
  assert (Ea : E m' a = E m b) by (rewrite Hs; unfold swp; rewrite Z.eqb_refl; reflexivity).
  assert (Eb : E m' b = E m a) by (rewrite Hs; unfold swp; rewrite (proj2 (Z.eqb_neq b a)), Z.eqb_refl by lia; reflexivity).
  split; [intros k Hk; apply O; lia| |exact B].
  assert (Hc : forall m, cells m lo hi = cells m lo (a - 1) ++ E m a :: cells m (a + 1) (b - 1) ++ E m b :: cells m (b + 1) hi).
  { intros m0. rewrite (cells_split m0 lo a hi), (cells_split m0 a (a + 1) hi), (cells_split m0 (a + 1) b hi), (cells_split m0 b (b + 1) hi) by lia.
    replace (a + 1 - 1) with a by lia. replace (b + 1 - 1) with b by lia. rewrite !cells_one. reflexivity. }
  rewrite !Hc, Ea, Eb.
  rewrite (cells_ext m m' lo (a - 1)), (cells_ext m m' (a + 1) (b - 1)), (cells_ext m m' (b + 1) hi) by (intros k Hk; apply O; lia).
  apply Permutation_app_head. rewrite <- !Permutation_middle. apply perm_swap.
Qed.

(** The rounds of [divide]: what the pointers have passed is on the right side. *)
Definition parted (m : arr) (left a b right : Z) : Prop :=
  (forall k, left <= k < a -> le (E m k) (E m right) = true) /\
  (forall k, b < k < right -> le (E m right) (E m k) = true).

Lemma le_other x y : le x y = false -> le y x = true.
Proof. intros H. destruct (le_total _ _ Hcmp x y); congruence. Qed.

Lemma le_refl x : le x x = true.
Proof. destruct (le_total _ _ Hcmp x x); trivial. Qed.

Lemma divide_loop s left right :
  mapped s base (addr n) -> 0 <= left -> left < right -> right < n ->
  exists a m, loop (fun '(i, j) =>
    i ← loop (fun i =>
      r ← cmp i (addr right);
      if (r <=? 0) && (i <? addr right) then mret (Next (i + size)) else mret (Break i)) i;
    j ← loop (fun j =>
      r ← cmp j (addr right);
      if (0 <=? r) && (addr left <? j) then mret (Next (j - size)) else mret (Break j)) j;
    (if i <? j then memswp i j size else mret tt);;
    if i <? j then mret (Next (i, j)) else mret (Break i)) (addr left, addr right - size) s = Done (addr a) (set_mem m s) /\
  left <= a <= right /\ rearranged (p_mem s) m left right /\ parted m left a (a - 1) right.
Proof.
  intros Hm Hl Hlr Hr.
  edestruct (fun body => loop_bounded body
    (fun c '(i, j) s' => exists a b m, s' = set_mem m s /\ i = addr a /\ j = addr b /\ left <= a < right /\ left <= b < right /\
       rearranged (p_mem s) m left right /\ parted m left a b right /\
       c = 2 * (right - a) + (if le (E m a) (E m right) then 0 else 1))
    (fun i s' => exists a m, s' = set_mem m s /\ i = addr a /\ left <= a <= right /\
       rearranged (p_mem s) m left right /\ parted m left a (a - 1) right)
    (2 * (right - left) + (if le (E (p_mem s) left) (E (p_mem s) right) then 0 else 1)) (addr left, addr right - size) s)
    as (i & s' & El & a & m & -> & -> & H); [| | |eauto].
  - intros c [i j] s' (a & b & m & -> & -> & -> & Ha & Hb & Hra & [P1 P2] & ->).
    split; [destruct (le _ _); lia|].
    destruct (scan_up (set_mem m s) a right Hm ltac:(lia) Hr) as (a1 & E1 & Ha1 & Hu & Xu).
    destruct (scan_down (set_mem m s) left b right Hm ltac:(lia) ltac:(lia)) as (b1 & E2 & Hb1 & Hd & Xd).
    simpl in Hu, Xu, Hd, Xd. rewrite (bind_done _ _ _ _ _ E1), (bind_done _ _ _ _ _ E2), addr_ltb.
    assert (P : parted m left a1 b1 right).
    { split; intros k Hk; [destruct (Z_lt_le_dec k a); [apply P1|apply Hu]|destruct (Z_lt_le_dec b k); [apply P2|apply Hd]]; lia. }
    destruct (Z.ltb_spec a1 b1).
    + left. destruct (swap_cells (set_mem m s) a1 b1 Hm ltac:(lia) ltac:(lia)) as (m' & Em & Hs & Hy). simpl in Hs, Hy.
      rewrite (bind_done _ _ _ _ _ Em). specialize (Hs ltac:(lia)). destruct P as [P1' P2'].
      destruct Xu as [?|Xu]; [lia|]. destruct Xd as [?|Xd]; [lia|].
      assert (O : forall k, k <> a1 -> k <> b1 -> E m' k = E m k).
      { intros k H1 H2. rewrite Hs. unfold swp. rewrite !(proj2 (Z.eqb_neq _ _)) by trivial. reflexivity. }
      assert (Ea : E m' a1 = E m b1) by (rewrite Hs; unfold swp; rewrite Z.eqb_refl; reflexivity).
      eexists _, _, (2 * (right - a1)). split; [reflexivity|]. split.
      * exists a1, b1, m'. csplit; trivial; try lia.
        -- apply (rearranged_trans _ m); [exact Hra|]. apply (rearranged_swap m m' left right a1 b1); trivial; lia.
        -- split; intros k Hk; rewrite !O by lia; [apply P1'|apply P2']; lia.
        -- rewrite Ea, (O right), (le_other _ _ Xd) by lia. lia.
      * destruct (le (E m a) (E m right)) eqn:Ele; [|lia]. destruct (Z.eq_dec a a1) as [->|]; [congruence|lia].
    + right. eexists _, _. split; [reflexivity|]. exists a1, m. csplit; trivial; try lia. split; [apply P|].
      intros k Hk. destruct (Z_lt_le_dec b1 k); [apply P; lia|]. assert (k = a1) by lia. subst k.
      destruct Xu as [?|Xu]; [lia|]. apply le_other, Xu.
  - exists left, (right - 1), (p_mem s). rewrite set_mem_mem. csplit; trivial; try lia; try apply rearranged_refl.
    split; intros k Hk; lia.
  - destruct (le _ _); lia.
Qed.

Lemma divide_done s left right :
  mapped s base (addr n) -> 0 <= left -> left < right -> right < n ->
  exists a m, divide base size left right s = Done a (set_mem m s) /\ left <= a <= right /\
    rearranged (p_mem s) m left right /\
    (forall k, left <= k < a -> le (E m k) (E m a) = true) /\ (forall k, a < k <= right -> le (E m a) (E m k) = true).
Proof.
  intros Hm Hl Hlr Hr. unfold divide. rewrite !addr_small by lia.
  destruct (divide_loop s left right Hm Hl Hlr Hr) as (a & m & E1 & Ha & Hra & [P1 P2]).
  rewrite (bind_done _ _ _ _ _ E1).
  destruct (cmp_cells (set_mem m s) a right Hm ltac:(lia) ltac:(lia)) as (r & Er & Hle & _). simpl in Hle.
  rewrite (bind_done _ _ _ _ _ Er). replace (0 <? r) with (negb (r <=? 0)) by (rewrite Z.leb_antisym, negb_involutive; reflexivity).
  rewrite Hle. destruct (le (E m a) (E m right)) eqn:Ele; cbn [negb].
  - exists a, m. rewrite (bind_done (mret tt) _ (set_mem m s) tt (set_mem m s) eq_refl), addr_index by lia. csplit; trivial; try lia.
    + intros k Hk. apply (le_trans _ _ Hcmp _ (E m right)); [apply P1; lia|].
      destruct (Z.eq_dec a right) as [->|]; [apply le_refl|apply P2; lia].
    + intros k Hk. destruct (Z.eq_dec k right) as [->|]; [exact Ele|].
      apply (le_trans _ _ Hcmp _ (E m right)); [exact Ele|apply P2; lia].
  - assert (Har : a <> right) by (intros ->; rewrite le_refl in Ele; discriminate).
    destruct (swap_cells (set_mem m s) a right Hm ltac:(lia) ltac:(lia)) as (m' & Em & Hs & Hy). simpl in Hs, Hy. specialize (Hs Har).
    rewrite (bind_done _ _ _ _ _ Em), addr_index by lia. exists a, m'.
    assert (O : forall k, k <> a -> k <> right -> E m' k = E m k).
    { intros k H1 H2. rewrite Hs. unfold swp. rewrite !(proj2 (Z.eqb_neq _ _)) by trivial. reflexivity. }
    assert (Ea : E m' a = E m right) by (rewrite Hs; unfold swp; rewrite Z.eqb_refl; reflexivity).
    assert (Eb : E m' right = E m a) by (rewrite Hs; unfold swp; rewrite (proj2 (Z.eqb_neq right a)), Z.eqb_refl by lia; reflexivity).
    csplit; trivial; try lia.
    + apply (rearranged_trans _ m); [exact Hra|]. apply (rearranged_swap m m' left right a right); trivial; lia.
    + intros k Hk. rewrite Ea, O by lia. apply P1. lia.
    + intros k Hk. rewrite Ea. destruct (Z.eq_dec k right) as [->|]; [rewrite Eb; apply le_other, Ele|].
      rewrite O by lia. apply P2. lia.
Qed.

(** ** The sort *)

(** What holds for all elements of a range still does after they are rearranged. *)
Lemma rearranged_all (Q : list Z -> Prop) m m' lo hi :
  rearranged m m' lo hi -> (forall k, lo <= k <= hi -> Q (E m k)) -> forall k, lo <= k <= hi -> Q (E m' k).
Proof.
  intros [_ P _] HQ k Hk. assert (Hin : E m' k ∈ cells m' lo hi).
  { apply list_elem_of_In, (in_map (fun k => E m' k)), list_elem_of_In, elem_of_seqZ. lia. }
  rewrite P in Hin. apply list_elem_of_In, in_map_iff in Hin as (j & <- & Hj). apply HQ.
  apply list_elem_of_In, elem_of_seqZ in Hj. lia.
Qed.

Definition sorted_cells (m : arr) (lo hi : Z) : Prop := forall j k, lo <= j -> j <= k -> k <= hi -> le (E m j) (E m k) = true.

Lemma qsort_range_done fuel : forall s left right,
  mapped s base (addr n) -> 0 <= left -> -1 <= right < n -> left <= right + 1 -> right - left + 1 < Z.of_nat fuel ->
  exists m, qsort_range fuel base size left right s = Done tt (set_mem m s) /\
    rearranged (p_mem s) m left right /\ sorted_cells m left right.
Proof.
  induction fuel as [|fuel IH]; intros s left right Hm Hl Hr Hlr Hf; [simpl in Hf; lia|]. cbn [qsort_range].
  destruct (Z.ltb_spec left right).
  - destruct (divide_done s left right Hm Hl ltac:(lia) ltac:(lia)) as (a & m1 & E1 & Ha & R1 & L1 & G1).
    rewrite (bind_done _ _ _ _ _ E1), !int_small by lia.
    destruct (IH (set_mem m1 s) left (a - 1) Hm Hl ltac:(lia) ltac:(lia) ltac:(lia)) as (m2 & E2 & R2 & S2). simpl in R2.
    rewrite (bind_done _ _ _ _ _ E2).
    destruct (IH (set_mem m2 (set_mem m1 s)) (a + 1) right Hm ltac:(lia) ltac:(lia) ltac:(lia) ltac:(lia)) as (m3 & E3 & R3 & S3). simpl in R3.
    exists m3. split; [exact E3|]. split.
    { apply (rearranged_trans _ m1); [exact R1|]. apply (rearranged_trans _ m2).
      - apply (rearranged_mono _ _ _ _ left (a - 1)); trivial; lia.
      - apply (rearranged_mono _ _ _ _ (a + 1) right); trivial; lia. }
    assert (Ea : E m3 a = E m1 a) by (rewrite (ra_out _ _ _ _ R3), (ra_out _ _ _ _ R2) by lia; reflexivity).
    assert (L3 : forall k, left <= k < a -> le (E m3 k) (E m3 a) = true).
    { intros k Hk. rewrite Ea, (ra_out _ _ _ _ R3) by lia.
      apply (rearranged_all (fun x => le x (E m1 a) = true) m1 m2 left (a - 1) R2); [intros; apply L1|]; lia. }
    assert (G3 : forall k, a < k <= right -> le (E m3 a) (E m3 k) = true).
    { intros k Hk. rewrite Ea. apply (rearranged_all (fun x => le (E m1 a) x = true) m2 m3 (a + 1) right R3); [|lia].
      intros j Hj. rewrite (ra_out _ _ _ _ R2) by lia. apply G1. lia. }
    intros j k Hj Hjk Hk. destruct (Z_lt_le_dec k a).
    + rewrite !(ra_out _ _ _ _ R3) by lia. apply S2; lia.
    + destruct (Z_lt_le_dec a j); [apply S3; lia|].
      apply (le_trans _ _ Hcmp _ (E m3 a)).
      * destruct (Z.eq_dec j a) as [->|]; [apply le_refl|apply L3; lia].
      * destruct (Z.eq_dec k a) as [->|]; [apply le_refl|apply G3; lia].
  - exists (p_mem s). rewrite set_mem_mem. split; [reflexivity|]. split; [apply rearranged_refl|].
    intros j k Hj Hjk Hk. replace k with j by lia. apply le_refl.
Qed.

Lemma qsort_done s :
  mapped s base (addr n) ->
  exists m, qsort base n size s = Done tt (set_mem m s) /\ rearranged (p_mem s) m 0 (n - 1) /\ sorted_cells m 0 (n - 1).
Proof.
  intros Hm. unfold qsort.
  assert (Hi : int (n -o 1) = n - 1).
  { destruct (Z.eq_dec n 0) as [->|]; [reflexivity|]. rewrite wrap_small by (unfold is_word; lia). apply int_small. lia. }
  rewrite Hi. apply qsort_range_done; trivial; lia.
Qed.

(** ** The search *)

(** [bsearch] on a sorted array whose first element is not above the key. *)
Lemma bsearch_done s key :
  mapped s base (addr n) -> mapped s key (key + size) -> sorted_cells (p_mem s) 0 (n - 1) -> 0 < n ->
  let K := elem (p_mem s) size key in
  le (E (p_mem s) 0) K = true ->
  exists r, bsearch key base n size s = Done r s /\
    ((exists k, 0 <= k < n /\ r = addr k /\ le (E (p_mem s) k) K = true /\ le K (E (p_mem s) k) = true) \/
     r = 0 /\ forall k, 0 <= k < n -> ~ (le (E (p_mem s) k) K = true /\ le K (E (p_mem s) k) = true)).
Proof.
  intros Hm Hk Hs Hpos K H0. unfold bsearch. rewrite (wrap_small 64 (n - 1)) by (unfold is_word; lia).
  edestruct (fun body => loop_bounded body
    (fun c '(from, to) s' => s' = s /\ 0 <= from /\ 0 <= to < n /\ from <= to + 1 /\ c = to - from + 1 /\
       (forall k, 0 <= k < from -> le K (E (p_mem s) k) = false) /\ (forall k, to < k < n -> le (E (p_mem s) k) K = false))
    (fun r s' => s' = s /\
     ((exists k, 0 <= k < n /\ r = addr k /\ le (E (p_mem s) k) K = true /\ le K (E (p_mem s) k) = true) \/
      r = 0 /\ forall k, 0 <= k < n -> ~ (le (E (p_mem s) k) K = true /\ le K (E (p_mem s) k) = true)))
    (n - 1 - 0 + 1) (0, n - 1) s) as (r & s' & El & -> & H); [| | |eauto].
  - intros c [from to] s' (-> & Hf & Ht & Hft & -> & HL & HG). split; [lia|].
    destruct (Z.leb_spec from to) as [Hle|Hgt].
    + rewrite (wrap_small 64 (from + to)) by (unfold is_word; lia). set (m := (from + to) / 2).
      assert (Hmm : from <= m <= to) by (unfold m; Z.div_mod_to_equations; lia).
      assert (Ea : base +o m *o size = addr m).
      { rewrite (wrap_small 64 (m * size)) by (unfold is_word; nia). apply wrap_small. unfold is_word. nia. }
      rewrite Ea. destruct (cmp_result _ _ Hcmp s (addr m) key (cell_mapped s m Hm ltac:(lia)) Hk) as (r & Er & R1 & R2).
      rewrite (bind_done _ _ _ _ _ Er). fold K in R1, R2. destruct (Z.eqb_spec r 0) as [->|Hr0].
      * right. eexists _, s. split; [reflexivity|]. split; [reflexivity|]. left. exists m. csplit; trivial; try lia; symmetry; trivial.
      * left. destruct (Z.ltb_spec 0 r).
        -- rewrite (proj2 (Z.leb_gt r 0)) in R1 by lia.
           assert (Hm0 : m <> 0) by (intros E0; rewrite E0 in R1; congruence).
           rewrite (wrap_small 64 (m - 1)) by (unfold is_word; lia).
           eexists _, s, _. split; [reflexivity|]. split; [csplit; trivial; try lia|lia].
           intros k Hkk. destruct (le (E (p_mem s) k) K) eqn:Ek; [|reflexivity]. symmetry in R1. rewrite <- R1.
           symmetry. apply (le_trans _ _ Hcmp _ (E (p_mem s) k)); [apply Hs; lia|exact Ek].
        -- rewrite (proj2 (Z.leb_gt 0 r)) in R2 by lia. rewrite (wrap_small 64 (m + 1)) by (unfold is_word; lia).
           eexists _, s, _. split; [reflexivity|]. split; [csplit; trivial; try lia|lia].
           intros k Hkk. destruct (le K (E (p_mem s) k)) eqn:Ek; [|reflexivity]. symmetry in R2. rewrite <- R2.
           symmetry. apply (le_trans _ _ Hcmp _ (E (p_mem s) k)); [exact Ek|apply Hs; lia].
    + right. eexists _, s. split; [reflexivity|]. split; [reflexivity|]. right. split; [reflexivity|].
      intros k Hkk [X1 X2]. destruct (Z_lt_le_dec k from); [rewrite HL in X2 by lia|rewrite HG in X1 by lia]; discriminate.
  - csplit; trivial; try lia; intros k Hkk; lia.
  - lia.
Qed.

(** A key below the first element, or an empty array: [m - 1] (or [num - 1]) wraps around. *)
Lemma bsearch_below s key w :
  mapped s base (addr n) -> mapped s key (key + size) ->
  (forall k, 0 <= k < n -> le (E (p_mem s) k) (elem (p_mem s) size key) = false) ->
  cmp (base +o (2 ^ 63 - 1) *o size) key s = Bad w -> bsearch key base n size s = Bad w.
Proof.
  intros Hm Hk HL Hw. unfold bsearch.
  set (body := fun '(from, to) => if from <=? to then _ else _).
  assert (H1 : iter body 1 (0, 2 ^ 64 - 1) s (Bad w)) by (apply iter_bad; simpl; apply bind_bad; exact Hw).
  assert (H : forall c to, 0 <= to < n -> to < Z.of_nat c -> exists i, iter body i (0, to) s (Bad w) /\ Z.of_nat i <= to + 2).
  { induction c as [|c IH]; intros to Ht Hc; [lia|]. set (m := to / 2).
    assert (Hmm : 0 <= m <= to /\ (m = 0 \/ m - 1 < to)) by (unfold m; Z.div_mod_to_equations; lia).
    assert (Hb : body (0, to) s = Done (Next (0, m -o 1)) s).
    { unfold body. rewrite (proj2 (Z.leb_le 0 to)), (wrap_small 64 (0 + to)) by (unfold is_word; lia). rewrite Z.add_0_l. fold m.
      rewrite (wrap_small 64 (m * size)), (wrap_small 64 (addr m)) by (unfold is_word; nia).
      destruct (cmp_result _ _ Hcmp s (addr m) key (cell_mapped s m Hm ltac:(lia)) Hk) as (r & Er & R1 & _).
      rewrite (bind_done _ _ _ _ _ Er). rewrite HL in R1 by lia. apply Z.leb_gt in R1.
      rewrite (proj2 (Z.eqb_neq r 0)), (proj2 (Z.ltb_lt 0 r)) by lia. reflexivity. }
    destruct Hmm as [Hm1 [E0|Hm2]].
    - exists 2%nat. split; [|lia]. eapply iter_next; [exact Hb|]. rewrite E0. exact H1.
    - destruct (Z.eq_dec m 0) as [E0|Hm0].
      + exists 2%nat. split; [|lia]. eapply iter_next; [exact Hb|]. rewrite E0. exact H1.
      + destruct (IH (m - 1) ltac:(lia) ltac:(lia)) as (i & Hi & Hc').
        exists (S i). split; [|lia]. eapply iter_next; [exact Hb|]. rewrite wrap_small by (unfold is_word; lia). exact Hi. }
  destruct (Z.eq_dec n 0) as [->|Hn0].
  - apply (loop_iter _ 1%nat); [exact H1|lia].
  - rewrite wrap_small by (unfold is_word; lia).
    destruct (H (Z.to_nat n) (n - 1) ltac:(lia) ltac:(lia)) as (i & Hi & Hc). apply (loop_iter _ i); [exact Hi|lia].
Qed.
End Array.
End Sort.

(** ** The theorems *)

(** An array of [n] elements that fits into memory. *)
Definition fits (base size n : Z) : Prop :=
  0 < size /\ 0 <= base /\ base + n * size <= 2 ^ 64 /\ 0 <= n < 2 ^ 31 /\ n * size < 2 ^ 32.

(** C14: [qsort] sorts: for a comparison function that implements a total preorder it returns, the
    elements are a permutation of the elements before and are in order, and no byte outside of the
    array has changed.  The array has less than 2^31 elements and 2^32 bytes. *)
Theorem qsort_sorts cmp le base size n s :
  comparison cmp size le -> fits base size n -> mapped s base (base + n * size) ->
  exists m, qsort cmp base n size s = Done tt (set_mem m s) /\
    cells base size m 0 (n - 1) ≡ₚ cells base size (p_mem s) 0 (n - 1) /\
    (forall j k, 0 <= j -> j <= k -> k < n ->
      le (elem m size (base + j * size)) (elem m size (base + k * size)) = true) /\
    (forall y, y < base \/ base + n * size <= y -> byte_at m y = byte_at (p_mem s) y).
Proof.
  intros Hc (H1 & H2 & H3 & H4 & H5) Hm. destruct (qsort_done cmp base size n le Hc H1 H2 H3 H4 H5 s Hm) as (m & E & [_ P B] & S).
  exists m. csplit; trivial. intros j k Hj Hjk Hk. apply S; lia.
Qed.

(** Comparing bytes. *)
Definition cmp_byte (p q : Z) : C Z := x ← load8 p; y ← load8 q; mret (x - y).
Definition le_byte (x y : list Z) : bool := nth 0 x 0 <=? nth 0 y 0.

Lemma cmp_byte_comparison : comparison cmp_byte 1 le_byte.
Proof.
  split.
  - intros s p q Hp Hq. unfold cmp_byte.
    rewrite (bind_done _ _ _ _ _ (load8_byte s p (p + 1) p Hp ltac:(lia))), (bind_done _ _ _ _ _ (load8_byte s q (q + 1) q Hq ltac:(lia))).
    eexists. split; [reflexivity|]. unfold le_byte, elem. change (seqZ 0 1) with [0]. cbn [map nth]. rewrite !Z.add_0_r.
    split; apply eq_true_iff_eq; rewrite !Z.leb_le; lia.
  - intros x y. unfold le_byte. rewrite !Z.leb_le. lia.
  - intros x y z. unfold le_byte. rewrite !Z.leb_le. lia.
Qed.

Definition three : process := page_process [3; 1; 2].

Lemma qsort_sorts_witness :
  exists m, qsort cmp_byte 4096 3 1 three = Done tt (set_mem m three) /\
    cells 4096 1 m 0 2 ≡ₚ [[3]; [1]; [2]] /\
    (forall j k, 0 <= j -> j <= k -> k < 3 ->
      le_byte (elem m 1 (4096 + j * 1)) (elem m 1 (4096 + k * 1)) = true) /\
    (forall y, y < 4096 \/ 4096 + 3 * 1 <= y -> byte_at m y = byte_at (p_mem three) y).
Proof.
  apply (qsort_sorts cmp_byte le_byte 4096 1 3 three cmp_byte_comparison); [unfold fits; lia|apply page_mapped; lia].
Defined.

(** [bsearch] finds: in a sorted array whose first element is not above the key it returns the
    address of an element equal to the key, or NULL if there is none. *)
Theorem bsearch_finds cmp le base size n key s :
  comparison cmp size le -> fits base size n -> mapped s base (base + n * size) -> mapped s key (key + size) ->
  let at_ k := elem (p_mem s) size (base + k * size) in
  let K := elem (p_mem s) size key in
  (forall j k, 0 <= j -> j <= k -> k < n -> le (at_ j) (at_ k) = true) -> 0 < n -> le (at_ 0) K = true ->
  exists r, bsearch cmp key base n size s = Done r s /\
    ((exists k, 0 <= k < n /\ r = base + k * size /\ le (at_ k) K = true /\ le K (at_ k) = true) \/
     r = 0 /\ forall k, 0 <= k < n -> ~ (le (at_ k) K = true /\ le K (at_ k) = true)).
Proof.
  intros Hc (H1 & H2 & H3 & H4 & H5) Hm Hk at_ K Hs Hn H0.
  apply (bsearch_done cmp base size n le Hc H1 H2 H3 H4 H5 s key Hm Hk); trivial.
  intros j k Hj Hjk Hkn. apply Hs; lia.
Qed.

Definition sorted_three : process := page_process [2; 4; 6; 4].

Lemma bsearch_finds_witness :
  exists r, bsearch cmp_byte 4099 4096 3 1 sorted_three = Done r sorted_three /\
    let at_ k := elem (p_mem sorted_three) 1 (4096 + k * 1) in
    let K := elem (p_mem sorted_three) 1 4099 in
    ((exists k, 0 <= k < 3 /\ r = 4096 + k * 1 /\ le_byte (at_ k) K = true /\ le_byte K (at_ k) = true) \/
     r = 0 /\ forall k, 0 <= k < 3 -> ~ (le_byte (at_ k) K = true /\ le_byte K (at_ k) = true)).
Proof.
  apply (bsearch_finds cmp_byte le_byte 4096 1 3 4099 sorted_three cmp_byte_comparison);
    [unfold fits; lia|apply page_mapped; lia|apply page_mapped; lia| |lia|reflexivity].
  intros j k Hj Hjk Hk. assert (Hj' : j = 0 \/ j = 1 \/ j = 2) by lia. assert (Hk' : k = 0 \/ k = 1 \/ k = 2) by lia.
  destruct Hj' as [->|[->| ->]], Hk' as [->|[->| ->]]; reflexivity || lia.
Defined.

(** [bsearch] for a key below every element, and in an empty array, compares far outside of the
    array: the index [m - 1] wraps around and the next probe is at index 2^63 - 1, whose address
    is not in the array.  Whatever goes wrong in the comparison there goes wrong in [bsearch]. *)
Theorem bsearch_wraps cmp le base size n key s w :
  comparison cmp size le -> fits base size n -> mapped s base (base + n * size) -> mapped s key (key + size) ->
  (forall k, 0 <= k < n -> le (elem (p_mem s) size (base + k * size)) (elem (p_mem s) size key) = false) ->
  cmp (base +o (2 ^ 63 - 1) *o size) key s = Bad w ->
  bsearch cmp key base n size s = Bad w.
Proof.
  intros Hc (H1 & H2 & H3 & H4 & H5) Hm Hk HL. apply (bsearch_below cmp base size n le Hc H1 H2 H3 H4 H5 s key w Hm Hk HL).
Qed.

Lemma bsearch_wraps_witness : bsearch cmp_byte 4099 4096 2 1 (page_process [2; 4; 6; 1]) = Bad Fault.
Proof.
  apply (bsearch_wraps cmp_byte le_byte 4096 1 2 4099 (page_process [2; 4; 6; 1]) Fault cmp_byte_comparison);
    [unfold fits; lia|apply page_mapped; lia|apply page_mapped; lia| |reflexivity].
  intros k Hk. assert (Hk' : k = 0 \/ k = 1) by lia. destruct Hk' as [->| ->]; reflexivity.
Defined.
