(* ===== verification/Time.v ===== *)
(** * Calendar time

    [gmtime] and [mktime] of lib/basic/time and the functions of lib/c/time that only pass
    values on: seconds since 1970 as an unsigned 32-bit [time_t], and the fields of a date.
    [long] has 32 or 64 bits, depending on the machine; its width is a parameter. *)

From Stdlib Require Import ZArith Lia Bool.
From stdpp Require Import base list numbers option.
From S2P Require Import Prelude.

(** ** The data *)

(** The daylight saving flag [tm_isdst] is neither set nor read. *)
Record tm := mktm {
  tm_sec : Z;
  tm_min : Z;
  tm_hour : Z;
  tm_mday : Z;
  tm_mon : Z;
  tm_year : Z;
  tm_wday : Z;
  tm_yday : Z
}.

Definition SECS_PER_MIN : Z := 60.
Definition SECS_PER_HOUR : Z := 60 * SECS_PER_MIN.
Definition SECS_PER_DAY : Z := 24 * SECS_PER_HOUR.
Definition SECS_PER_YEAR : Z := 365 * SECS_PER_DAY.
Definition SECS_PER_LEAPYEAR : Z := 366 * SECS_PER_DAY.

Definition IS_LEAP_YEAR (y : Z) : bool :=
  (Z.rem y 4 =? 0) && (negb (Z.rem y 100 =? 0) || (Z.rem y 400 =? 0)).

Definition daysPerMonth (leap : bool) : list Z :=
  if leap then [31; 29; 31; 30; 31; 30; 31; 31; 30; 31; 30; 31]
  else [31; 28; 31; 30; 31; 30; 31; 31; 30; 31; 30; 31].

(** [int] and [long] values. *)
Definition as_int (x : Z) : Z := signed 32 (wrap32 x).
Definition as_long (w x : Z) : Z := signed w (wrap w x).

(** ** The functions *)

Section Gmtime.
Context (w : Z).

(** The first year that the seconds do not fill, and the seconds in it.  137 years have more than
    2^32 seconds, so that the [fuel] of [gmtime] is never used up. *)
Fixpoint find_year (fuel : nat) (year ts : Z) : option (Z * Z) :=
  match fuel with
  | O => None
  | S fuel' =>
      let nextSecs := as_long w (as_long w ts - (if IS_LEAP_YEAR year then SECS_PER_LEAPYEAR else SECS_PER_YEAR)) in
      if nextSecs <? 0 then Some (year, ts) else find_year fuel' (year + 1) (wrap32 nextSecs)
  end.

(** The month, from the months [days] that are left; [None] is a read behind the table. *)
Fixpoint find_month (days : list Z) (m ts : Z) : option (Z * Z) :=
  match days with
  | [] => None
  | d :: days' =>
      let nextSecs := as_long w (as_long w ts - d * SECS_PER_DAY) in
      if nextSecs <? 0 then Some (m, ts) else find_month days' (m + 1) (wrap32 nextSecs)
  end.

Definition gmtime (timer : Z) : option tm :=
  let sec := timer mod 60 in
  let timestamp := timer / 60 in
  let min := timestamp mod 60 in
  let timestamp := timestamp / 60 in
  let hour := timestamp mod 24 in
  let timestamp := timestamp / 24 in
  let days := as_int timestamp in
  '(year, ts) ← find_year 138 1970 timer;
  let yday := as_int (ts / SECS_PER_DAY) in
  '(m, ts) ← find_month (daysPerMonth (IS_LEAP_YEAR year)) 0 ts;
  Some (mktm sec min hour (as_int (ts / SECS_PER_DAY)) m (year - 1900) (Z.rem (4 + days) 7) yday).

Definition localtime (timer : Z) : option tm := gmtime timer.
End Gmtime.

(** The full years before [y + n]. *)
Fixpoint add_years (n : nat) (y ts : Z) : Z :=
  match n with
  | O => ts
  | S n' => add_years n' (y + 1) (wrap32 (ts + (if IS_LEAP_YEAR (y + 1900) then SECS_PER_LEAPYEAR else SECS_PER_YEAR)))
  end.

(** The full months, from the last to the first. *)
Fixpoint add_months (days : list Z) (m : nat) (ts : Z) : option Z :=
  match m with
  | O => Some ts
  | S m' => d ← days !! m'; add_months days m' (wrap32 (ts + d * SECS_PER_DAY))
  end.

Definition mktime (t : tm) : option Z :=
  let ts := add_years (Z.to_nat (tm_year t - 70)) 70 0 in
  ts ← add_months (daysPerMonth (IS_LEAP_YEAR (tm_year t + 1900))) (Z.to_nat (tm_mon t)) ts;
  let ts := wrap32 (ts + as_int (tm_mday t * SECS_PER_DAY)) in
  let ts := wrap32 (ts + as_int (tm_hour t * SECS_PER_HOUR)) in
  let ts := wrap32 (ts + as_int (tm_min t * SECS_PER_MIN)) in
  Some (wrap32 (ts + tm_sec t)).

(** The fields that [mktime] does not read stay unset. *)
Definition timeof (month day year hour min sec : Z) : option Z :=
  mktime (mktm sec min hour day month year 0 0).

(** ** The calendar *)

(** The days from the first day of 1970 to that of [y], with the leap days counted directly. *)
Definition days_before (y : Z) : Z :=
  365 * (y - 1970) + ((y - 1969) / 4 - (y - 1901) / 100 + (y - 1601) / 400).

Definition year_days (y : Z) : Z := if IS_LEAP_YEAR y then 366 else 365.

(** The days of the first [m] months. *)
Definition month_start (leap : bool) (m : Z) : Z := foldr Z.add 0 (take (Z.to_nat m) (daysPerMonth leap)).

Lemma days_before_next y : 0 <= y -> days_before (y + 1) = days_before y + year_days y.
Proof.
  intros Hy. unfold days_before, year_days, IS_LEAP_YEAR. rewrite !Z.rem_mod_nonneg by lia.
  destruct (Z.eqb_spec (y mod 4) 0), (Z.eqb_spec (y mod 100) 0), (Z.eqb_spec (y mod 400) 0); simpl;
    Z.div_mod_to_equations; lia.
Qed.

Lemma leap_secs y : (if IS_LEAP_YEAR y then SECS_PER_LEAPYEAR else SECS_PER_YEAR) = year_days y * 86400.
Proof. unfold year_days. destruct (IS_LEAP_YEAR y); reflexivity. Qed.

(** ** Correctness *)

(** A date from 1970 on.  The day of the month counts from 0. *)
Definition valid (t : tm) : Prop :=
  0 <= tm_sec t < 60 /\ 0 <= tm_min t < 60 /\ 0 <= tm_hour t < 24 /\ 70 <= tm_year t /\ 0 <= tm_mon t /\
  exists d, daysPerMonth (IS_LEAP_YEAR (tm_year t + 1900)) !! Z.to_nat (tm_mon t) = Some d /\ 0 <= tm_mday t < d.

(** The day of a date since the start of 1970, and its second. *)
Definition day_of (t : tm) : Z :=
  days_before (tm_year t + 1900) + month_start (IS_LEAP_YEAR (tm_year t + 1900)) (tm_mon t) + tm_mday t.
Definition second_of (t : tm) : Z := 86400 * day_of t + 3600 * tm_hour t + 60 * tm_min t + tm_sec t.

Lemma as_long_small w x : 1 <= w -> - 2 ^ (w - 1) <= x < 2 ^ (w - 1) -> as_long w x = x.
Proof. apply signed_wrap. Qed.

Lemma as_int_small x : - 2 ^ 31 <= x < 2 ^ 31 -> as_int x = x.
Proof. intros H. apply signed_wrap; lia. Qed.

Lemma year_days_range y : 365 <= year_days y <= 366.
Proof. unfold year_days. destruct (IS_LEAP_YEAR y); lia. Qed.

(** [long] is wide enough for the timestamp. *)
Definition long_holds (w ts : Z) : Prop := 32 <= w /\ 0 <= ts < 2 ^ (w - 1) /\ ts < 2 ^ 32.

Lemma long_holds_le w ts ts' : long_holds w ts -> 0 <= ts' <= ts -> long_holds w ts'.
Proof. unfold long_holds. lia. Qed.

Lemma long_sub w ts x : long_holds w ts -> 0 <= x <= 2 ^ 31 -> as_long w (as_long w ts - x) = ts - x.
Proof.
  intros (Hw & Ht & _) Hx. assert (2 ^ 31 <= 2 ^ (w - 1)) by (apply Z.pow_le_mono_r; lia).
  rewrite (as_long_small w ts), as_long_small by lia. reflexivity.
Qed.

Lemma find_year_done w fuel : forall year ts,
  long_holds w ts -> 0 <= year -> ts < Z.of_nat fuel * (365 * 86400) ->
  exists y r, find_year w fuel year ts = Some (y, r) /\ year <= y /\ 0 <= r < year_days y * 86400 /\
    ts = 86400 * (days_before y - days_before year) + r.
Proof.
  induction fuel as [|fuel IH]; intros year ts Hl Hy Hf; [destruct Hl; lia|]. cbn [find_year].
  pose proof (year_days_range year) as Hd. rewrite leap_secs, (long_sub w ts) by (trivial; lia).
  destruct (Z.ltb_spec (ts - year_days year * 86400) 0) as [Hlt|Hge].
  - exists year, ts. destruct Hl. csplit; trivial; lia.
  - rewrite wrap_small by (unfold is_word; destruct Hl; lia).
    destruct (IH (year + 1) (ts - year_days year * 86400)) as (y & r & E & H1 & H2 & H3);
      [apply (long_holds_le w ts); [trivial|lia]|lia|lia|].
    exists y, r. csplit; trivial; try lia. rewrite days_before_next in H3 by lia. lia.
Qed.

Lemma find_year_stop w fuel year ts :
  as_long w (as_long w ts - (if IS_LEAP_YEAR year then SECS_PER_LEAPYEAR else SECS_PER_YEAR)) <? 0 = true ->
  find_year w (S fuel) year ts = Some (year, ts).
Proof. intros H. cbn [find_year]. rewrite H. reflexivity. Qed.

Lemma find_month_done w days : forall m ts,
  long_holds w ts -> Forall (fun d => 0 <= d <= 31) days -> ts < 86400 * foldr Z.add 0 days ->
  exists k d r, find_month w days m ts = Some (m + Z.of_nat k, r) /\ days !! k = Some d /\ 0 <= r < d * 86400 /\
    ts = 86400 * foldr Z.add 0 (take k days) + r.
Proof.
  induction days as [|d days IH]; intros m ts Hl Hd Hs; [destruct Hl; simpl in Hs; lia|]. cbn [find_month].
  apply Forall_cons_1 in Hd as [Hd Hds]. change (d * SECS_PER_DAY) with (d * 86400). rewrite (long_sub w ts) by (trivial; lia).
  destruct (Z.ltb_spec (ts - d * 86400) 0) as [Hlt|Hge].
  - exists 0%nat, d, ts. destruct Hl. simpl. rewrite Z.add_0_r. csplit; trivial; lia.
  - rewrite wrap_small by (unfold is_word; destruct Hl; lia). simpl in Hs.
    destruct (IH (m + 1) (ts - d * 86400)) as (k & e & r & E & H1 & H2 & H3);
      [apply (long_holds_le w ts); [trivial|lia]|trivial|lia|].
    exists (S k), e, r. rewrite E. csplit; trivial; simpl; try lia. do 2 f_equal. lia.
Qed.

Lemma days_ok leap : Forall (fun d => 0 <= d <= 31) (daysPerMonth leap) /\ foldr Z.add 0 (daysPerMonth leap) = (if leap then 366 else 365).
Proof. destruct leap; split; trivial; repeat constructor; lia. Qed.

Lemma gmtime_done w ts :
  long_holds w ts ->
  exists t, gmtime w ts = Some t /\ valid t /\ second_of t = ts /\ tm_wday t = (4 + ts / 86400) mod 7 /\
    tm_yday t = month_start (IS_LEAP_YEAR (tm_year t + 1900)) (tm_mon t) + tm_mday t.
Proof.
  intros Hl. destruct (find_year_done w 138 1970 ts Hl ltac:(lia) ltac:(destruct Hl; lia)) as (y & r & E1 & H1 & H2 & H3).
  unfold gmtime. rewrite E1. cbn [mbind option_bind]. change (days_before 1970) with 0 in H3.
  destruct (days_ok (IS_LEAP_YEAR y)) as [Hd Hsum].
  assert (Hdb : 0 <= days_before y) by (unfold days_before; Z.div_mod_to_equations; lia).
  destruct (find_month_done w (daysPerMonth (IS_LEAP_YEAR y)) 0 r) as (k & d & r' & E2 & H4 & H5 & H6);
    [apply (long_holds_le w ts); [trivial|lia]|trivial|rewrite Hsum; unfold year_days in H2; lia|].
  rewrite E2, Z.add_0_l. cbn [mbind option_bind]. eexists. split; [reflexivity|].
  assert (Hd31 : 0 <= d <= 31) by (rewrite Forall_lookup in Hd; exact (Hd k d H4)).
  assert (Ht : 0 <= ts < 2 ^ 32) by (destruct Hl; lia). change SECS_PER_DAY with 86400.
  rewrite !as_int_small by (Z.div_mod_to_equations; lia).
  unfold valid, second_of, day_of, month_start.
  cbn [tm_sec tm_min tm_hour tm_mday tm_mon tm_year tm_wday tm_yday]. replace (y - 1900 + 1900) with y by lia.
  rewrite Nat2Z.id. split; [|split; [|split]].
  - csplit; try lia; try (Z.div_mod_to_equations; lia). exists d. split; [exact H4|]. Z.div_mod_to_equations; lia.
  - rewrite H3 at 1. Z.div_mod_to_equations; lia.
  - rewrite Z.rem_mod_nonneg by (Z.div_mod_to_equations; lia). f_equal. rewrite !Z.div_div by lia. reflexivity.
  - rewrite H6. Z.div_mod_to_equations; lia.
Qed.

Lemma days_before_mono y z : 0 <= y -> y <= z -> days_before y + 365 * (z - y) <= days_before z.
Proof.
  intros Hy Hyz. replace z with (y + Z.of_nat (Z.to_nat (z - y))) by lia. generalize (Z.to_nat (z - y)) as k.
  induction k as [|k IH]; [rewrite Z.add_0_r; lia|]. replace (y + Z.of_nat (S k)) with (y + Z.of_nat k + 1) by lia.
  rewrite days_before_next by lia. pose proof (year_days_range (y + Z.of_nat k)). lia.
Qed.

Lemma add_years_done n : forall y ts,
  0 <= y -> 0 <= ts -> ts + 86400 * (days_before (y + 1900 + Z.of_nat n) - days_before (y + 1900)) < 2 ^ 32 ->
  add_years n y ts = ts + 86400 * (days_before (y + 1900 + Z.of_nat n) - days_before (y + 1900)).
Proof.
  induction n as [|n IH]; intros y ts Hy Ht Hb; cbn [add_years]; [rewrite Z.add_0_r; lia|].
  rewrite leap_secs. pose proof (days_before_next (y + 1900) ltac:(lia)) as E1. pose proof (year_days_range (y + 1900)).
  replace (y + 1900 + Z.of_nat (S n)) with (y + 1 + 1900 + Z.of_nat n) in * by lia.
  replace (y + 1900 + 1) with (y + 1 + 1900) in E1 by lia.
  pose proof (days_before_mono (y + 1 + 1900) (y + 1 + 1900 + Z.of_nat n) ltac:(lia) ltac:(lia)).
  rewrite wrap_small by (unfold is_word; lia). rewrite IH by lia. lia.
Qed.

Lemma sum_app xs ys : foldr Z.add 0 (xs ++ ys) = foldr Z.add 0 xs + foldr Z.add 0 ys.
Proof. induction xs as [|x xs IH]; simpl; lia. Qed.

Lemma sum_take_next days m d : days !! m = Some d -> foldr Z.add 0 (take (S m) days) = foldr Z.add 0 (take m days) + d.
Proof. intros H. rewrite (take_S_r _ _ _ H), sum_app. simpl. lia. Qed.

Lemma sum_take_nonneg days m : Forall (fun d => 0 <= d <= 31) days -> 0 <= foldr Z.add 0 (take m days).
Proof.
  intros H. revert m. induction H as [|d days Hd _ IH]; intros [|m]; simpl; try lia. specialize (IH m). lia.
Qed.

Lemma add_months_done days m : forall ts,
  Forall (fun d => 0 <= d <= 31) days -> (m <= length days)%nat -> 0 <= ts ->
  ts + 86400 * foldr Z.add 0 (take m days) < 2 ^ 32 ->
  add_months days m ts = Some (ts + 86400 * foldr Z.add 0 (take m days)).
Proof.
  induction m as [|m IH]; intros ts Hd Hm Ht Hb; [simpl; f_equal; lia|]. cbn [add_months].
  destruct (lookup_lt_is_Some_2 days m ltac:(lia)) as [d Ed]. rewrite (sum_take_next _ _ _ Ed) in Hb |- *. rewrite Ed.
  cbn [mbind option_bind]. change SECS_PER_DAY with 86400. pose proof (sum_take_nonneg days m Hd).
  rewrite Forall_lookup in Hd. pose proof (Hd m d Ed). rewrite <- Forall_lookup in Hd.
  rewrite wrap_small by (unfold is_word; lia). rewrite IH by (trivial; lia). f_equal. lia.
Qed.

Lemma mktime_done t : valid t -> second_of t < 2 ^ 32 -> mktime t = Some (second_of t).
Proof.
  intros (H1 & H2 & H3 & H4 & H5 & d & H6 & H7) Hs. unfold second_of, day_of, month_start in *.
  set (leap := IS_LEAP_YEAR (tm_year t + 1900)) in *. destruct (days_ok leap) as [Hd _].
  pose proof (sum_take_nonneg (daysPerMonth leap) (Z.to_nat (tm_mon t)) Hd) as Hm.
  pose proof (days_before_mono 1970 (tm_year t + 1900) ltac:(lia) ltac:(lia)) as Hy. change (days_before 1970) with 0 in Hy.
  assert (Hy2 : 70 + 1900 + Z.of_nat (Z.to_nat (tm_year t - 70)) = tm_year t + 1900) by lia.
  assert (Hd31 : 0 <= d <= 31) by (rewrite Forall_lookup in Hd; exact (Hd _ d H6)).
  unfold mktime. fold leap. rewrite add_years_done; rewrite ?Hy2; change (days_before (70 + 1900)) with 0; try lia.
  rewrite add_months_done; trivial; try lia; [|apply lookup_lt_Some in H6; lia]. cbn [mbind option_bind].
  change SECS_PER_DAY with 86400. change SECS_PER_HOUR with 3600. change SECS_PER_MIN with 60.
  rewrite !as_int_small by lia. f_equal.
  rewrite (wrap_small 32 (_ + _ * 86400)), (wrap_small 32 (_ + _ * 3600)), (wrap_small 32 (_ + _ * 60)), wrap_small by (unfold is_word; lia). lia.
Qed.

(** A second belongs to one date only. *)
Lemma year_unique y z r r' :
  0 <= y -> 0 <= z -> 0 <= r < year_days y -> 0 <= r' < year_days z -> days_before y + r = days_before z + r' -> y = z /\ r = r'.
Proof.
  intros Hy Hz Hr Hr' E. destruct (Z.lt_trichotomy y z) as [H|[->|H]]; [|split; lia|].
  - pose proof (days_before_mono (y + 1) z ltac:(lia) ltac:(lia)). rewrite days_before_next in * by lia. lia.
  - pose proof (days_before_mono (z + 1) y ltac:(lia) ltac:(lia)). rewrite days_before_next in * by lia. lia.
Qed.

Lemma month_end leap m d :
  daysPerMonth leap !! Z.to_nat m = Some d -> month_start leap m + d <= (if leap then 366 else 365).
Proof.
  intros H. unfold month_start. rewrite <- (sum_take_next _ _ _ H). destruct (days_ok leap) as [Hd <-].
  rewrite <- (take_drop (S (Z.to_nat m)) (daysPerMonth leap)) at 2. rewrite sum_app.
  pose proof (sum_take_nonneg (drop (S (Z.to_nat m)) (daysPerMonth leap)) (length (daysPerMonth leap)) ltac:(apply Forall_drop, Hd)) as Hn.
  rewrite take_ge in Hn by (rewrite length_drop; lia). lia.
Qed.

Lemma month_unique leap m m' d d' r r' :
  daysPerMonth leap !! m = Some d -> daysPerMonth leap !! m' = Some d' -> 0 <= r < d -> 0 <= r' < d' ->
  foldr Z.add 0 (take m (daysPerMonth leap)) + r = foldr Z.add 0 (take m' (daysPerMonth leap)) + r' -> m = m' /\ r = r'.
Proof.
  generalize (daysPerMonth leap), (proj1 (days_ok leap)). clear leap. intros days Hd. revert m m'.
  induction Hd as [|x days Hx Hd IH]; intros [|m] [|m'] E1 E2 H1 H2 E; try discriminate E1; simpl in *.
  - injection E1 as ->. injection E2 as ->. split; [reflexivity|lia].
  - injection E1 as ->. pose proof (sum_take_nonneg days m' Hd). lia.
  - injection E2 as ->. pose proof (sum_take_nonneg days m Hd). lia.
  - destruct (IH m m' E1 E2 H1 H2 ltac:(lia)) as [-> ->]. auto.
Qed.

Lemma valid_yday t :
  valid t -> 0 <= month_start (IS_LEAP_YEAR (tm_year t + 1900)) (tm_mon t) + tm_mday t < year_days (tm_year t + 1900).
Proof.
  intros (_ & _ & _ & _ & _ & d & H6 & H7). pose proof (month_end _ _ _ H6) as He. unfold year_days, month_start in *.
  pose proof (sum_take_nonneg _ (Z.to_nat (tm_mon t)) (proj1 (days_ok (IS_LEAP_YEAR (tm_year t + 1900))))). lia.
Qed.

Lemma date_unique t t' :
  valid t -> valid t' -> second_of t = second_of t' ->
  tm_sec t = tm_sec t' /\ tm_min t = tm_min t' /\ tm_hour t = tm_hour t' /\ tm_mday t = tm_mday t' /\
  tm_mon t = tm_mon t' /\ tm_year t = tm_year t'.
Proof.
  intros V V' E. pose proof (valid_yday t V) as Y. pose proof (valid_yday t' V') as Y'.
  destruct V as (H1 & H2 & H3 & H4 & H5 & d & H6 & H7), V' as (H1' & H2' & H3' & H4' & H5' & d' & H6' & H7').
  unfold second_of, day_of in E.
  assert (Ed : days_before (tm_year t + 1900) + (month_start (IS_LEAP_YEAR (tm_year t + 1900)) (tm_mon t) + tm_mday t) =
    days_before (tm_year t' + 1900) + (month_start (IS_LEAP_YEAR (tm_year t' + 1900)) (tm_mon t') + tm_mday t')) by lia.
  apply year_unique in Ed as [Ey Er]; trivial; try lia. rewrite Ey in *.
  destruct (month_unique _ _ _ _ _ _ _ H6 H6' H7 H7' Er) as [Em Emd]. csplit; lia.
Qed.

(** ** The theorems *)

(** C27: [gmtime] computes the date: for every timestamp that [long] can hold (every timestamp, where
    [long] has 64 bits) the second, minute, hour, day of the year and year are in range, and the
    timestamp is their distance from the start of 1970, with leap days counted directly; the month is
    the one that day of the year is in, and the day of the week is right.  Nothing is said here of the
    day of the month, which the code counts from 0 and include/time.h from 1. *)
Theorem gmtime_correct w ts :
  long_holds w ts ->
  exists t, gmtime w ts = Some t /\
    0 <= tm_sec t < 60 /\ 0 <= tm_min t < 60 /\ 0 <= tm_hour t < 24 /\ 0 <= tm_mon t < 12 /\ 70 <= tm_year t /\
    (let year := tm_year t + 1900 in
     0 <= tm_yday t < year_days year /\
     ts = 86400 * (days_before year + tm_yday t) + 3600 * tm_hour t + 60 * tm_min t + tm_sec t /\
     month_start (IS_LEAP_YEAR year) (tm_mon t) <= tm_yday t < month_start (IS_LEAP_YEAR year) (tm_mon t + 1)) /\
    tm_wday t = (4 + ts / 86400) mod 7.
Proof.
  intros H. destruct (gmtime_done w ts H) as (t & E & V & S & Ew & Ey). exists t. pose proof (valid_yday t V) as Hy.
  destruct V as (H1 & H2 & H3 & H4 & H5 & d & H6 & H7). pose proof (lookup_lt_Some _ _ _ H6) as Hm.
  unfold second_of, day_of in S. cbv zeta. set (leap := IS_LEAP_YEAR _) in *.
  assert (Hl : length (daysPerMonth leap) = 12%nat) by (destruct leap; reflexivity).
  assert (Hn : month_start leap (tm_mon t + 1) = month_start leap (tm_mon t) + d).
  { unfold month_start. rewrite Z2Nat.inj_add, Nat.add_1_r by lia. apply sum_take_next, H6. }
  csplit; trivial; lia.
Qed.

Lemma gmtime_correct_witness :
  gmtime 64 1000000000 = Some (mktm 40 46 1 8 8 101 0 251) /\
  exists t, gmtime 64 1000000000 = Some t /\ 70 <= tm_year t /\ tm_wday t = (4 + 1000000000 / 86400) mod 7.
Proof.
  split; [reflexivity|]. destruct (gmtime_correct 64 1000000000) as (t & E & _ & _ & _ & _ & Hy & _ & Hw); [unfold long_holds; lia|].
  exists t. auto.
Defined.

(** C28: [mktime] undoes [gmtime]: for every timestamp that [long] can hold (every
    timestamp, where [long] has 64 bits), [mktime] of the date that [gmtime] computes for it is the timestamp. *)
Theorem time_roundtrip w ts :
  long_holds w ts -> exists d, gmtime w ts = Some d /\ mktime d = Some ts.
Proof.
  intros H. destruct (gmtime_done w ts H) as (d & E & V & S & _). exists d. split; [exact E|].
  rewrite mktime_done, S; trivial. rewrite S. apply H.
Qed.

Lemma time_roundtrip_witness : exists d, gmtime 64 4294967295 = Some d /\ mktime d = Some 4294967295.
Proof. apply (time_roundtrip 64 4294967295). unfold long_holds. lia. Defined.

(** The other way round: a date from 1970 on, with the day of the month counted from 0, whose second
    fits into [time_t] is the date of its timestamp. *)
Lemma date_roundtrip w t :
  valid t -> long_holds w (second_of t) ->
  exists x d, mktime t = Some x /\ gmtime w x = Some d /\
    tm_sec d = tm_sec t /\ tm_min d = tm_min t /\ tm_hour d = tm_hour t /\ tm_mday d = tm_mday t /\
    tm_mon d = tm_mon t /\ tm_year d = tm_year t.
Proof.
  intros V H. exists (second_of t). destruct (gmtime_done w (second_of t) H) as (d & E & Vd & Sd & _). exists d.
  split; [apply mktime_done; [exact V|apply H]|]. split; [exact E|]. apply date_unique; trivial.
Qed.

(** Where [long] has 32 bits, [gmtime] is wrong from 2039 on: the timestamp is negative as a
    [long], so that the search for the year stops at once in 1970 and the day of the month is the
    number of all days since 1970. *)
Theorem gmtime_long32 ts :
  2 ^ 31 + SECS_PER_YEAR <= ts < 2 ^ 32 ->
  exists t, gmtime 32 ts = Some t /\ tm_year t = 70 /\ tm_mon t = 0 /\ tm_mday t = ts / 86400.
Proof.
  intros Ht. change SECS_PER_YEAR with 31536000 in Ht.
  assert (E : forall x, 0 <= x <= 31536000 -> as_long 32 (as_long 32 ts - x) <? 0 = true).
  { intros x Hx. assert (E1 : as_long 32 ts = ts - 2 ^ 32).
    { unfold as_long. replace (wrap 32 ts) with (wrap 32 (ts - 2 ^ 32)).
      - apply signed_wrap; lia.
      - rewrite <- (wrap_add_mult 32 (ts - 2 ^ 32) 1) by lia. f_equal. lia. }
    rewrite E1, as_long_small by lia. apply Z.ltb_lt. lia. }
  unfold gmtime. rewrite (find_year_stop 32 137 1970 ts) by (apply (E SECS_PER_YEAR); vm_compute; split; discriminate).
  cbn [mbind option_bind]. change (daysPerMonth (IS_LEAP_YEAR 1970)) with (daysPerMonth false). cbn [find_month daysPerMonth].
  rewrite (E (31 * SECS_PER_DAY)) by (vm_compute; split; discriminate). cbn [mbind option_bind].
  eexists. split; [reflexivity|]. cbn [tm_year tm_mon tm_mday]. change SECS_PER_DAY with 86400.
  rewrite as_int_small by (Z.div_mod_to_equations; lia). auto.
Qed.

Lemma gmtime_long32_witness :
  exists t, gmtime 32 2200000000 = Some t /\ tm_year t = 70 /\ tm_mon t = 0 /\ tm_mday t = 2200000000 / 86400.
Proof. apply (gmtime_long32 2200000000). split; [vm_compute; discriminate|reflexivity]. Defined.
