(* ===== verification/CString.v ===== *)
(** * Strings

    The string functions of lib/basic/string, the character classes of lib/basic/ctype and the
    widths of numbers of lib/basic/width.  Characters are signed; a string ends with its first
    zero byte. *)

From Stdlib Require Import ZArith Lia Bool.
From stdpp Require Import base list numbers option.
From S2P Require Import Prelude CMem MemOps Heap.

(** [vassert(p != NULL)] *)
Definition nonnull (p : Z) : C unit := vassert (negb (p =? 0)).

(** ** Characters *)

Definition CT_NUMERIC : Z := 1.
Definition CT_LOWER : Z := 2.
Definition CT_UPPER : Z := 4.
Definition CT_SPACE : Z := 8.
Definition CT_HEX : Z := 16.
Definition CT_PUNCT : Z := 32.
Definition CT_CTRL : Z := 64.
Definition CT_BLANK : Z := 128.

Definition ctypetbl : list Z :=
  replicate 9 CT_CTRL ++ [CT_CTRL .| CT_BLANK] ++ replicate 4 (CT_CTRL .| CT_SPACE) ++ replicate 18 CT_CTRL ++
  [CT_BLANK] ++ replicate 15 CT_PUNCT ++ replicate 10 CT_NUMERIC ++ replicate 7 CT_PUNCT ++
  replicate 6 (CT_UPPER .| CT_HEX) ++ replicate 20 CT_UPPER ++ replicate 6 CT_PUNCT ++
  replicate 6 (CT_LOWER .| CT_HEX) ++ replicate 20 CT_LOWER ++ replicate 4 CT_PUNCT ++ [CT_CTRL] ++
  replicate 127 0 ++ [CT_CTRL].

(** [ctypetbl[c]]; the table has no entries for negative characters. *)
Definition ctype (c : Z) : C Z :=
  if (0 <=? c) && (c <? 256) then mret (nth (Z.to_nat c) ctypetbl 0) else bad Fault.

Definition isalnum (c : Z) : C bool := t ← ctype c; mret (truth (t .& (CT_NUMERIC .| CT_LOWER .| CT_UPPER))).
Definition isalpha (c : Z) : C bool := t ← ctype c; mret (truth (t .& (CT_LOWER .| CT_UPPER))).
Definition isblank (c : Z) : C bool := t ← ctype c; mret (truth (t .& CT_BLANK)).
Definition iscntrl (c : Z) : C bool := t ← ctype c; mret (truth (t .& CT_CTRL)).
Definition isdigit (c : Z) : C bool := t ← ctype c; mret (truth (t .& CT_NUMERIC)).
Definition isgraph (c : Z) : C bool := t ← ctype c; mret (t .& (CT_CTRL .| CT_SPACE .| CT_BLANK) =? 0).
Definition islower (c : Z) : C bool := t ← ctype c; mret (truth (t .& CT_LOWER)).
Definition isprint (c : Z) : C bool := t ← ctype c; mret (t .& CT_CTRL =? 0).
Definition ispunct (c : Z) : C bool := t ← ctype c; mret (truth (t .& CT_PUNCT)).
Definition isspace (c : Z) : C bool := t ← ctype c; mret (truth (t .& (CT_BLANK .| CT_SPACE))).
Definition isupper (c : Z) : C bool := t ← ctype c; mret (truth (t .& CT_UPPER)).
Definition isxdigit (c : Z) : C bool := t ← ctype c; mret (truth (t .& (CT_NUMERIC .| CT_HEX))).

Definition tolower (ch : Z) : Z := if (65 <=? ch) && (ch <=? 90) then ch - (65 - 97) else ch.
Definition toupper (ch : Z) : Z := if (97 <=? ch) && (ch <=? 122) then ch + (65 - 97) else ch.

(** ** Lengths and copies *)

Definition strlen (str : Z) : C Z :=
  nonnull str;;
  loop (fun '(str, len) =>
    c ← load_char str;
    if truth c then mret (Next (str + 1, len + 1)) else mret (Break len)) (str, 0).

Definition strnlen (str max : Z) : C Z :=
  vassert (0 <=? max);;
  len ← loop (fun '(str, len) =>
    c ← load_char str;
    if truth c && (len <=? max) then mret (Next (str + 1, len + 1)) else mret (Break len)) (str, 0);
  mret (if max <? len then -1 else len).

(** [while( *from) *to++ = *from++]; the result is the end of the copy. *)
Definition copy_chars (to from : Z) : C Z :=
  loop (fun '(to, from) =>
    c ← load_char from;
    if truth c then store8 to c;; mret (Next (to + 1, from + 1)) else mret (Break to)) (to, from).

(** [while( *str) str++] *)
Definition to_end (str : Z) : C Z :=
  loop (fun str => c ← load_char str; if truth c then mret (Next (str + 1)) else mret (Break str)) str.

Definition strcpy (to from : Z) : C Z :=
  nonnull from;;
  nonnull to;;
  e ← copy_chars to from;
  store8 e 0;;
  mret to.

Definition strncpy (to from count : Z) : C Z :=
  nonnull from;;
  nonnull to;;
  '(e, count) ← loop (fun '(to, from, count) =>
    c ← load_char from;
    if truth c && (0 <? count) then store8 to c;; mret (Next (to + 1, from + 1, count - 1))
    else mret (Break (to, count))) (to, from, count);
  loop (fun '(e, count) =>
    if 0 <? count then store8 e 0;; mret (Next (e + 1, count - 1)) else mret (Break tt)) (e, count);;
  mret to.

Definition strnzcpy (to from size : Z) : C Z :=
  nonnull from;;
  nonnull to;;
  e ← loop (fun '(to, from, size) =>
    c ← load_char from;
    if truth c && (1 <? size) then store8 to c;; mret (Next (to + 1, from + 1, size - 1))
    else mret (Break to)) (to, from, size);
  store8 e 0;;
  mret (e - to).

Definition strcat (str1 str2 : Z) : C Z :=
  nonnull str1;;
  nonnull str2;;
  e ← to_end str1;
  e ← copy_chars e str2;
  store8 e 0;;
  mret str1.

Definition strncat (str1 str2 count : Z) : C Z :=
  nonnull str1;;
  nonnull str2;;
  e ← to_end str1;
  e ← loop (fun '(to, from, count) =>
    c ← load_char from;
    if truth c && (0 <? count) then store8 to c;; mret (Next (to + 1, from + 1, count - 1))
    else mret (Break to)) (e, str2, count);
  store8 e 0;;
  mret str1.

Definition strcut (str count : Z) : C Z :=
  nonnull str;;
  (if 0 <? count then
    e ← loop (fun p =>
      c ← load_char p;
      if truth c then store8 (p - count) c;; mret (Next (p + 1)) else mret (Break p)) (str + count);
    store8 (e - count) 0
  else mret tt);;
  mret str.

Definition strdup (s : Z) : C Z :=
  len ← strlen s;
  res ← malloc (len +o 1);
  (if truth res then strcpy res s;; mret tt else mret tt);;
  mret res.

Definition strndup (s n : Z) : C Z :=
  len ← strlen s;
  let len := Z.min len n in
  res ← malloc (len +o 1);
  (if truth res then strncpy res s len;; store8 (res + len) 0 else mret tt);;
  mret res.

(** ** Comparisons *)

(** The loop of [strcmp] and [strcasecmp]; [f] is [tolower] in the latter. *)
Definition compare_chars (f : Z -> Z) (str1 str2 : Z) : C Z :=
  c1 ← load_char str1;
  c2 ← load_char str2;
  nonnull str1;;
  nonnull str2;;
  loop (fun '(str1, str2, c1, c2) =>
    if truth c1 && truth c2 then
      if negb (c1 =? c2) then mret (Break (if c2 <? c1 then 1 else -1)) else
      c1 ← load_char (str1 + 1);
      c2 ← load_char (str2 + 1);
      mret (Next (str1 + 1, str2 + 1, f c1, f c2))
    else mret (Break (if negb (truth c1) && negb (truth c2) then 0
                      else if negb (truth c1) && truth c2 then -1 else 1))) (str1, str2, f c1, f c2).

Definition strcmp (str1 str2 : Z) : C Z := compare_chars (fun c => c) str1 str2.
Definition strcasecmp (str1 str2 : Z) : C Z := compare_chars tolower str1 str2.

Definition strncmp (str1 str2 count : Z) : C Z :=
  nonnull str1;;
  nonnull str2;;
  loop (fun '(str1, str2, rem) =>
    c1 ← load_char str1;
    (* [*str2] is read only if [*str1] is not zero, [rem] decremented only if both are not *)
    c2 ← (if truth c1 then load_char str2 else mret 0);
    if truth c1 && truth c2 then
      if 0 <? rem then
        if negb (c1 =? c2) then mret (Break (if c1 <? c2 then -1 else 1))
        else mret (Next (str1 + 1, str2 + 1, rem - 1))
      else mret (Break 0)
    else if rem <=? 0 then mret (Break 0) else
    if truth c1 && negb (truth c2) then mret (Break 1) else mret (Break (-1))) (str1, str2, signed 64 count).

Definition strncasecmp (str1 str2 count : Z) : C Z :=
  nonnull str1;;
  nonnull str2;;
  loop (fun '(str1, str2, rem, c1, c2) =>
    '(go, c1, c2) ← (if 0 <? rem then
        x ← load_char str1;
        if truth (tolower x) then
          y ← load_char str2;
          mret (truth (tolower y), tolower x, tolower y)
        else mret (false, tolower x, c2)
      else mret (false, c1, c2));
    if go : bool then
      if negb (c1 =? c2) then mret (Break (if c1 <? c2 then -1 else 1))
      else mret (Next (str1 + 1, str2 + 1, rem - 1, c1, c2))
    else if rem <=? 0 then mret (Break 0) else
    if truth c1 && negb (truth c2) then mret (Break 1) else mret (Break (-1)))
    (str1, str2, signed 64 count, 0, 0).

(** ** Searching *)

Definition strchr (str ch : Z) : C Z :=
  nonnull str;;
  loop (fun str =>
    c ← load_char str;
    if truth c then if c =? ch then mret (Break str) else mret (Next (str + 1)) else mret (Break 0)) str.

Definition strchri (str ch : Z) : C Z :=
  nonnull str;;
  loop (fun p =>
    c ← load_char p;
    if truth c then if c =? ch then mret (Break (signed 32 (wrap32 (p - str)))) else mret (Next (p + 1))
    else mret (Break (signed 32 (wrap32 (p - str))))) str.

Definition strrchr (str ch : Z) : C Z :=
  nonnull str;;
  loop (fun '(str, pos) =>
    c ← load_char str;
    if truth c then mret (Next (str + 1, if c =? ch then str else pos)) else mret (Break pos)) (str, 0).

(** [strstr] and [strcasestr]: after a partial match the search goes on behind it. *)
Definition find_sub (f : Z -> Z) (str1 str2 : Z) : C Z :=
  nonnull str1;;
  nonnull str2;;
  c ← load_char str2;
  if negb (truth c) then mret str1 else
  loop (fun p =>
    c1 ← load_char p;
    if negb (truth c1) then mret (Break 0) else
    c2 ← load_char str2;
    if f c1 =? f c2 then
      '(q, sub) ← loop (fun '(q, sub) =>
        c ← load_char sub;
        if negb (truth c) then mret (Break (q, sub)) else
        d ← load_char q;
        if f d =? f c then mret (Next (q + 1, sub + 1)) else mret (Break (q, sub))) (p, str2);
      c ← load_char sub;
      if negb (truth c) then mret (Break p) else mret (Next q)
    else mret (Next (p + 1))) str1.

Definition strstr (str1 str2 : Z) : C Z := find_sub (fun c => c) str1 str2.
Definition strcasestr (str1 str2 : Z) : C Z := find_sub tolower str1 str2.

(** [strspn] counts the leading characters that are in [str2], [strcspn] those that are not. *)
Definition span (inside : bool) (str1 str2 : Z) : C Z :=
  nonnull str1;;
  nonnull str2;;
  loop (fun '(str1, count) =>
    c ← load_char str1;
    if negb (truth c) then mret (Break count) else
    r ← strchr str2 c;
    if Bool.eqb (negb (r =? 0)) inside then mret (Next (str1 + 1, count + 1)) else mret (Break count)) (str1, 0).

Definition strspn (str1 str2 : Z) : C Z := span true str1 str2.
Definition strcspn (str1 str2 : Z) : C Z := span false str1 str2.

Definition strpbrk (str1 str2 : Z) : C Z :=
  nonnull str1;;
  nonnull str2;;
  loop (fun p =>
    c ← load_char p;
    if negb (truth c) then mret (Break 0) else
    found ← loop (fun s2 =>
      d ← load_char s2;
      if negb (truth d) then mret (Break false) else
      c ← load_char p;
      if d =? c then mret (Break true) else mret (Next (s2 + 1))) str2;
    if found : bool then mret (Break p) else mret (Next (p + 1))) str1.

(** [last] is the static variable of [strtok]. *)
Definition set_tok (v : Z) : C unit := modify (set_last v).

Definition strtok (str delimiters : Z) : C Z :=
  (if truth str then set_tok str else mret tt);;
  last ← gets p_last;
  if last =? 0 then mret 0 else
  start ← strspn last delimiters;
  set_tok (last + start);;
  let last := last + start in
  c ← load_char last;
  if c =? 0 then set_tok 0;; mret 0 else
  end_ ← strcspn last delimiters;
  c ← load_char (last + end_);
  if c =? 0 then
    set_tok 0;;
    mret last
  else
    store8 (last + end_) 0;;
    set_tok (last + (end_ + 1));;
    mret last.

Definition isalnumstr (str : Z) : C bool :=
  loop (fun str =>
    c ← load_char str;
    if truth c then
      b ← isalnum c;
      if b : bool then mret (Next (str + 1)) else mret (Break false)
    else mret (Break true)) str.

(** Patterns with stars. *)
Definition strmatch (pattern str : Z) : C bool :=
  firstStar ← strchr pattern 42;
  if firstStar =? 0 then r ← strcmp pattern str; mret (r =? 0) else
  lastStar ← strrchr pattern 42;
  b ← (if firstStar =? pattern then mret true else
    r ← strncmp str pattern (firstStar - pattern); mret (r =? 0));
  if negb b then mret false else
  c ← load_char (lastStar + 1);
  e ← (if c =? 0 then mret true else
    plen ← strlen pattern;
    slen ← strlen str;
    let cmplen := wrap64 (pattern + plen - lastStar - 1) in
    r ← strncmp (lastStar + 1) (str + slen - cmplen) cmplen; mret (r =? 0));
  if negb e then mret false else
  loop (fun '(firstStar, str) =>
    let start := firstStar + 1 in
    firstStar ← strchr start 42;
    if firstStar =? 0 then mret (Break true) else
    store8 firstStar 0;;
    match_ ← strstr str start;
    store8 firstStar 42;;
    if match_ =? 0 then mret (Break false) else
    mret (Next (firstStar, match_ + (firstStar - start)))) (firstStar, str + (firstStar - pattern)).
