(* ===== verification/Stdio.v ===== *)
(** * Streams

    The buffered streams of lib/c/stdio: opening on a string or a descriptor ([binit]), characters
    out ([bputc], [bflush]) and in ([bgetc], [bback]), strings and lines.  A stream with a
    descriptor passes its buffer to the kernel; one without writes to a string, which may grow.
    The functions return a negative number on failure, as in C; [RETERR] returns it to the
    caller. *)

From Stdlib Require Import ZArith Lia Bool.
From stdpp Require Import base list numbers option gmap.
From S2P Require Import Prelude CMem MemOps Heap CString.

(** ** Results *)

Definition EOF : Z := -1.

(** [RETERR(expr)]: goes on with the value of [expr] unless that is negative. *)
Definition reterr {X} (out : Z -> X) (c : C Z) (k : Z -> C X) : C X :=
  r ← c; if r <? 0 then mret (out r) else k r.

Notation "'RETERR' x := c 'in' k" := (reterr id c (fun x => k))
  (at level 10, x name, k at level 200).
(** The same in the body of a loop, which the error leaves. *)
Notation "'RETLOOP' x := c 'in' k" := (reterr Break c (fun x => k))
  (at level 10, x name, k at level 200).

(** ** The streams and the kernel *)

(** [stdBufs], and a stream on the stack. *)
Definition stdin : Z := 1.
Definition stdout : Z := 2.
Definition stderr : Z := 3.
Definition sbuf : Z := 4.

Definition O_READ : Z := 1.
Definition O_WRITE : Z := 2.
Definition O_RDWR : Z := O_READ .| O_WRITE.
Definition O_SIGNALS : Z := 2 ^ 30.
Definition IN_BUFFER_SIZE : Z := 1024.
Definition DYN_BUFFER_SIZE : Z := 128.
Definition SIZEOF_FILE : Z := 112.
Definition EINTR : Z := 7.

Definition set_files (v : gmap Z FILE) (t : stdio) : stdio :=
  mkstdio v (io_streams t) (io_accept t) (io_received t) (io_incoming t).
Definition set_streams (v : Z) (t : stdio) : stdio :=
  mkstdio (io_files t) v (io_accept t) (io_received t) (io_incoming t).
Definition set_received (v : Z -> list Z) (t : stdio) : stdio :=
  mkstdio (io_files t) (io_streams t) (io_accept t) v (io_incoming t).
Definition set_incoming (v : Z -> list (list Z + Z)) (t : stdio) : stdio :=
  mkstdio (io_files t) (io_streams t) (io_accept t) (io_received t) v.

Definition with_file (f : Z) (F : FILE) (s : process) : process :=
  set_io (set_files (<[f := F]> (io_files (p_io s))) (p_io s)) s.

Definition get_file (f : Z) : C FILE := fun s =>
  match io_files (p_io s) !! f with Some F => Done F s | None => Bad Fault end.
Definition put_file (f : Z) (F : FILE) : C unit := modify (with_file f F).
Definition drop_file (f : Z) : C unit := modify (fun s =>
  set_io (set_files (delete f (io_files (p_io s))) (p_io s)) s).

Definition set_in (v : sIOBuf) (F : FILE) : FILE :=
  mkfile (f_flags F) (f_eof F) (f_istty F) (f_error F) v (f_out F) (f_prev F) (f_next F).
Definition set_out (v : sIOBuf) (F : FILE) : FILE :=
  mkfile (f_flags F) (f_eof F) (f_istty F) (f_error F) (f_in F) v (f_prev F) (f_next F).
Definition set_eof (v : bool) (F : FILE) : FILE :=
  mkfile (f_flags F) v (f_istty F) (f_error F) (f_in F) (f_out F) (f_prev F) (f_next F).
Definition set_error (v : Z) (F : FILE) : FILE :=
  mkfile (f_flags F) (f_eof F) (f_istty F) v (f_in F) (f_out F) (f_prev F) (f_next F).
Definition set_prev (v : Z) (F : FILE) : FILE :=
  mkfile (f_flags F) (f_eof F) (f_istty F) (f_error F) (f_in F) (f_out F) v (f_next F).
Definition set_fnext (v : Z) (F : FILE) : FILE :=
  mkfile (f_flags F) (f_eof F) (f_istty F) (f_error F) (f_in F) (f_out F) (f_prev F) v.
Definition set_pos (v : Z) (b : sIOBuf) : sIOBuf :=
  mkiobuf (io_fd b) v (io_max b) (io_dynamic b) (io_buffer b).

(** The bytes of a block. *)
Fixpoint bytes_at (n : nat) (m : arr) (a : Z) : list Z :=
  match n with
  | O => []
  | S n' => byte_at m a :: bytes_at n' m (a + 1)
  end.

(** The system call [write]: the kernel takes as many bytes as it says. *)
Definition write (fd buffer count : Z) : C Z := fun s =>
  if all_mapped (p_mapped s) buffer (Z.to_nat count) then
    let t := p_io s in
    let l := bytes_at (Z.to_nat count) (p_mem s) buffer in
    let res := io_accept t fd (io_received t fd) l in
    Done res (set_io (set_received (upd (io_received t) fd
      (io_received t fd ++ take (Z.to_nat res) l)) t) s)
  else Bad Fault.

(** Stores bytes one after the other. *)
Fixpoint put_chars (m : arr) (a : Z) (l : list Z) : arr :=
  match l with
  | [] => m
  | c :: l' => put_chars (put 1 a c m) (a + 1) l'
  end.

(** The system call [read]: the next bytes, at most [count], or an error; nothing at the end. *)
Definition read (fd buffer count : Z) : C Z := fun s =>
  let t := p_io s in
  match io_incoming t fd with
  | [] => Done 0 s
  | inl l :: rest =>
      let l1 := take (Z.to_nat count) l in
      let l2 := drop (Z.to_nat count) l in
      let s' := set_io (set_incoming (upd (io_incoming t) fd
                  (if l2 is [] then rest else inl l2 :: rest)) t) s in
      if all_mapped (p_mapped s) buffer (length l1) then
        Done (Z.of_nat (length l1)) (set_mem (put_chars (p_mem s) buffer l1) s')
      else Bad Fault
  | inr e :: rest => Done e (set_io (set_incoming (upd (io_incoming t) fd rest) t) s)
  end.

(** [IGNSIGS(expr)] *)
Definition ignsigs (c : C Z) : C Z :=
  loop (fun _ => r ← c; if r =? - EINTR then mret (Next tt) else mret (Break r)) tt.

(** ** Opening *)

Definition no_buffer : sIOBuf := mkiobuf (-1) 0 0 false 0.

(** The part of [binit] for one direction: the buffer that is given, or a new one. *)
Definition init_buffer (buffer size : Z) : C Z :=
  if truth buffer then mret buffer else malloc (size +o 1).

Definition binit (f fd flags buffer insize outsize : Z) (dynamic : bool) : C bool :=
  vassert ((buffer =? 0) || negb (flags .& O_RDWR =? O_RDWR));;
  vassert (negb (truth (flags .& O_WRITE)) || (0 <? outsize));;
  inb ← (if truth (flags .& O_READ) then init_buffer buffer insize else mret 0);
  if truth (flags .& O_READ) && (inb =? 0) then
    mret false
  else
  (if truth (flags .& O_WRITE) && truth buffer then vassert (negb dynamic) else mret tt);;
  outb ← (if truth (flags .& O_WRITE) then init_buffer buffer outsize else mret 0);
  if truth (flags .& O_WRITE) && (outb =? 0) then
    (if truth buffer then mret tt else free inb);;
    mret false
  else
  put_file f (mkfile flags false 0 0
    (if truth (flags .& O_READ)
     then mkiobuf fd 0 (if truth buffer then insize else 0) false inb else no_buffer)
    (if truth (flags .& O_WRITE) then mkiobuf fd 0 outsize dynamic outb else no_buffer) 0 0);;
  mret true.

Definition bcreate (fd flags buffer insize outsize : Z) (dynamic : bool) : C Z :=
  f ← malloc SIZEOF_FILE;
  if f =? 0 then mret 0 else
  ok ← binit f fd flags buffer insize outsize dynamic;
  if negb ok then free f;; mret 0 else mret f.

Definition benqueue (f : Z) : C unit :=
  first ← gets (fun s => io_streams (p_io s));
  (if truth first then F ← get_file first; put_file first (set_prev f F) else mret tt);;
  F ← get_file f;
  put_file f (set_fnext first (set_prev 0 F));;
  modify (fun s => set_io (set_streams f (p_io s)) s).

(** A stream that writes to a string which grows. *)
Definition fopendyn : C Z :=
  f ← bcreate (-1) O_WRITE 0 0 DYN_BUFFER_SIZE true;
  if f =? 0 then free f;; mret 0 else
  benqueue f;;
  mret f.

Definition fopenstr (buf size mode : Z) : C Z :=
  c ← load_char mode;
  let '(flags, rsize, wsize) :=
    if c =? 114 then (O_READ, size, 0) else if c =? 119 then (O_WRITE, 0, size) else (0, 0, 0) in
  bad_mode ← (if flags =? 0 then mret true else c1 ← load_char (mode + 1); mret (truth c1));
  if bad_mode : bool then mret 0 else
  f ← bcreate (-1) flags buf rsize wsize false;
  if f =? 0 then free f;; mret 0 else
  benqueue f;;
  mret f.

(** ** Output *)

(** There is something that the kernel should get. *)
Definition needs_flush (F : FILE) : bool := (0 <=? io_fd (f_out F)) && (0 <? io_pos (f_out F)).

Definition flush_out (f : Z) : C Z :=
  F ← get_file f;
  let buf := f_out F in
  put_file f (set_out (set_pos 0 buf) F);;
  res ← write (io_fd buf) (io_buffer buf) (io_pos buf);
  if res <? 0 then
    F ← get_file f;
    put_file f (set_error res F);;
    mret EOF
  else mret 0.

(** [fflush(stdout)]; [stdout] is not [stderr], so that nothing else is flushed before it. *)
Definition flush_stdout : C unit :=
  F ← get_file stdout;
  if needs_flush F then flush_out stdout;; mret tt else mret tt.

Definition bflush (f : Z) : C Z :=
  F ← get_file f;
  if needs_flush F then
    (if f =? stderr then flush_stdout else mret tt);;
    flush_out f
  else mret 0.

(** [buf->buffer[buf->pos++] = c] *)
Definition append (f c : Z) : C unit :=
  F ← get_file f;
  let buf := f_out F in
  put_file f (set_out (set_pos (io_pos buf +o 1) buf) F);;
  store8 (io_buffer buf + io_pos buf) c.

(** The string of a stream without descriptor is full: it grows, if it may. *)
Definition grow_buffer (f : Z) : C Z :=
  F ← get_file f;
  let buf := f_out F in
  if negb (io_dynamic buf) then mret EOF else
  b ← realloc (io_buffer buf) (io_max buf *o 2);
  if b =? 0 then mret EOF else
  put_file f (set_out (mkiobuf (io_fd buf) (io_pos buf) (io_max buf *o 2) (io_dynamic buf) b) F);;
  mret 0.

Definition bputc (f c : Z) : C Z :=
  F ← get_file f;
  let buf := f_out F in
  if io_buffer buf =? 0 then mret EOF else
  if 0 <=? io_fd buf then
    RETERR _ := (if io_max buf <=? io_pos buf then bflush f else mret 0) in
    (append f c;;
     RETERR _ := (if (f =? stderr) && (c =? 10) then bflush f else mret 0) in
     mret (wrap8 c))
  else
    RETERR _ := (if io_max buf <=? io_pos buf then grow_buffer f else mret 0) in
    (append f c;;
     mret (wrap8 c)).

Definition bputs (f str precision : Z) : C Z :=
  if negb (precision =? -1) then
    loop (fun '(p, precision) =>
      c ← load_char p;
      if truth c && (0 <? precision) then
        RETLOOP _ := bputc f c in mret (Next (p + 1, precision - 1))
      else mret (Break (signed 32 (wrap32 (p - str))))) (str, precision)
  else
    loop (fun p =>
      c ← load_char p;
      if truth c then RETLOOP _ := bputc f c in mret (Next (p + 1)) else mret (Break (signed 32 (wrap32 (p - str))))) str.

Definition fputc (c file : Z) : C Z := bputc file c.
Definition fputs (str file : Z) : C Z := bputs file str (-1).
Definition fflush (stream : Z) : C Z := bflush stream.

Definition puts (str : Z) : C Z :=
  res ← fputs str stdout;
  if res =? EOF then mret res else
  r ← fputc 10 stdout;
  mret (if r =? EOF then res else res + 1).

Definition fwrite (ptr size count file : Z) : C Z :=
  res ← fflush file;
  F ← get_file file;
  if (io_fd (f_out F) <? 0) || (res <? 0) then mret 0 else
  res ← write (io_fd (f_out F)) ptr (count *o size);
  if res <? 0 then
    F ← get_file file;
    put_file file (set_error res F);;
    mret 0
  else mret (res / size).

Definition fgetbuf (stream length : Z) : C Z :=
  F ← get_file stream;
  (if truth length then store64 length (io_pos (f_out F)) else mret tt);;
  (if truth (io_buffer (f_out F)) then store8 (io_buffer (f_out F) + io_pos (f_out F)) 0 else mret tt);;
  mret (io_buffer (f_out F)).

(** ** Input *)

(** Fills the buffer from the descriptor: zero, or EOF. *)
Definition refill (f : Z) : C Z :=
  F ← get_file f;
  let buf := f_in F in
  count ← (if truth (f_flags F .& O_SIGNALS) then read (io_fd buf) (io_buffer buf) IN_BUFFER_SIZE
           else ignsigs (read (io_fd buf) (io_buffer buf) IN_BUFFER_SIZE));
  F ← get_file f;
  if count <? 0 then put_file f (set_error count F);; mret EOF
  else if count =? 0 then put_file f (set_eof true F);; mret EOF
  else put_file f (set_in (mkiobuf (io_fd buf) 0 count (io_dynamic buf) (io_buffer buf)) F);; mret 0.

Definition bgetc (f : Z) : C Z :=
  F ← get_file f;
  let buf := f_in F in
  if f_eof F || (io_buffer buf =? 0) then mret EOF else
  r ← (if 0 <=? io_fd buf then
         (if (f =? stdin) && (f_istty F =? 1) then flush_stdout else mret tt);;
         (if io_max buf <=? io_pos buf then refill f else mret 0)
       else if io_max buf <=? io_pos buf then mret EOF else mret 0);
  if r <? 0 then mret EOF else
  F ← get_file f;
  let buf := f_in F in
  put_file f (set_in (set_pos (io_pos buf + 1) buf) F);;
  load_char (io_buffer buf + io_pos buf).

Definition bback (f : Z) : C Z :=
  F ← get_file f;
  if (io_buffer (f_in F) =? 0) || (io_pos (f_in F) =? 0) then mret EOF else
  put_file f (set_eof false (set_in (set_pos (io_pos (f_in F) - 1) (f_in F)) F));;
  mret 0.

Definition ungetc (c file : Z) : C Z :=
  F ← get_file file;
  if (io_buffer (f_in F) =? 0) || (io_pos (f_in F) =? 0) then mret EOF else
  put_file file (set_eof false (set_in (set_pos (io_pos (f_in F) - 1) (f_in F)) F));;
  store8 (io_buffer (f_in F) + (io_pos (f_in F) - 1)) c;;
  mret c.

Definition bgets (f str size : Z) : C Z :=
  '(p, res) ← loop (fun '(p, size) =>
    if 1 <? size then
      c ← bgetc f;
      if c =? EOF then mret (Break (p, if p =? str then 0 else str)) else
      store8 p c;;
      if c =? 10 then mret (Break (p + 1, str)) else mret (Next (p + 1, size - 1))
    else mret (Break (p, str))) (str, size);
  store8 p 0;;
  mret res.

(** A line without its end. *)
Definition fgetl (str max f : Z) : C Z :=
  '(p, res) ← loop (fun '(p, max) =>
    if 1 <? max then
      c ← bgetc f;
      if c =? EOF then mret (Break (p, if p =? str then 0 else str)) else
      if c =? 10 then mret (Break (p, str)) else
      store8 p c;;
      mret (Next (p + 1, max - 1))
    else mret (Break (p, str))) (str, max);
  store8 p 0;;
  mret res.

Definition fgetc (stream : Z) : C Z := bgetc stream.
Definition fgets (str max file : Z) : C Z := bgets file str max.

Definition feof (stream : Z) : C bool := F ← get_file stream; mret (f_eof F).
Definition ferror (stream : Z) : C Z := F ← get_file stream; mret (f_error F).
Definition clearerr (stream : Z) : C unit :=
  F ← get_file stream;
  put_file stream (set_eof false (set_error 0 F)).
Definition favail (stream : Z) : C Z :=
  F ← get_file stream;
  mret (if f_eof F || (io_buffer (f_in F) =? 0) then 0 else io_max (f_in F) -o io_pos (f_in F)).

(** ** Closing *)

(** The stream leaves the list of streams, if it is in it. *)
Definition dequeue (f : Z) : C unit :=
  F ← get_file f;
  first ← gets (fun s => io_streams (p_io s));
  if (first =? f) || truth (f_prev F) || truth (f_next F) then
    (if truth (f_prev F) then P ← get_file (f_prev F); put_file (f_prev F) (set_fnext (f_next F) P)
     else modify (fun s => set_io (set_streams (f_next F) (p_io s)) s));;
    (if truth (f_next F) then N ← get_file (f_next F); put_file (f_next F) (set_prev (f_prev F) N)
     else mret tt)
  else mret tt.

(** The kernel closes the descriptors. *)
Definition fclose (stream : Z) : C Z :=
  fflush stream;;
  F ← get_file stream;
  (if 0 <=? io_fd (f_in F) then free (io_buffer (f_in F)) else mret tt);;
  (if (0 <=? io_fd (f_out F)) || io_dynamic (f_out F) then free (io_buffer (f_out F)) else mret tt);;
  dequeue stream;;
  drop_file stream;;
  free stream;;
  mret 0.
