(* ===== verification/CStringSpec.v ===== *)
(** * What the string functions do

    Strings in memory, the behaviour of the functions of CString.v on them, and [strtok] against
    the list of tokens of a string. *)

From Stdlib Require Import ZArith Lia Bool.
From stdpp Require Import base list numbers option sets.
From S2P Require Import Prelude CMem MemOps Heap CString.

(** ** Strings in memory *)

(** The characters [l] (as bytes) and a zero behind them are at [a]. *)
Record cstr (s : process) (a : Z) (l : list Z) : Prop := {
  cs_pos : 0 < a;
  cs_end : a + Z.of_nat (length l) < 2 ^ 64;
  cs_mapped : mapped s a (a + Z.of_nat (length l) + 1);
  cs_range : Forall (fun c => 1 <= c < 256) l;
  cs_chars i c : l !! i = Some c -> byte_at (p_mem s) (a + Z.of_nat i) = c;
  cs_zero : byte_at (p_mem s) (a + Z.of_nat (length l)) = 0
}.

(** A byte as a [char]. *)
Definition schar (b : Z) : Z := signed 8 b.

(** The first character, zero at the end. *)
Definition first (l : list Z) : Z := match l with [] => 0 | c :: _ => c end.

Lemma schar_truth c : 1 <= c < 256 -> truth (schar c) = true.
Proof. intros H. unfold truth, schar, signed. destruct (Z.ltb_spec c (2 ^ (8 - 1))); apply negb_true_iff, Z.eqb_neq; lia. Qed.

Lemma schar_inj c d : 0 <= c < 256 -> 0 <= d < 256 -> (schar c =? schar d) = (c =? d).
Proof.
  intros Hc Hd. unfold schar, signed.
  destruct (Z.ltb_spec c (2 ^ (8 - 1))), (Z.ltb_spec d (2 ^ (8 - 1))), (Z.eqb_spec c d); lia.
Qed.

Lemma schar_byte c : 0 <= c < 256 -> wrap8 (schar c) = c.
Proof. intros H. apply wrap_signed; [lia|exact H]. Qed.

Lemma cstr_tail s a l1 l2 : cstr s a (l1 ++ l2) -> cstr s (a + Z.of_nat (length l1)) l2.
Proof.
  intros [H1 H2 H3 H4 H5 H6]. rewrite length_app in *. split; try lia.
  - intros y Hy. apply H3. lia.
  - apply Forall_app in H4. apply H4.
  - intros i c Hi. rewrite <- (H5 (length l1 + i)%nat c); [f_equal; lia|].
    rewrite lookup_app_r by lia. rewrite <- Hi. f_equal. lia.
  - rewrite <- H6. f_equal. lia.
Qed.

Lemma cstr_first s a l : cstr s a l -> byte_at (p_mem s) a = first l.
Proof.
  intros [_ _ _ _ H5 H6]. destruct l as [|c l]; simpl.
  - rewrite Z.add_0_r in H6. exact H6.
  - rewrite <- (H5 0%nat c eq_refl). f_equal. lia.
Qed.

Lemma load_char_done s a : p_mapped s a = true -> load_char a s = Done (schar (byte_at (p_mem s) a)) s.
Proof.
  intros H. unfold load_char.
  rewrite (bind_done _ _ _ _ _ (load8_byte s a (a + 1) a ltac:(intros y Hy; replace y with a by lia; exact H) ltac:(lia))).
  reflexivity.
Qed.

Lemma cstr_char s a l : cstr s a l -> load_char a s = Done (schar (first l)) s.
Proof.
  intros S. rewrite load_char_done by (apply (cs_mapped _ _ _ S); lia). rewrite (cstr_first s a l S). reflexivity.
Qed.

Lemma cstr_next s a c l : cstr s a (c :: l) -> cstr s (a + 1) l /\ truth (schar c) = true.
Proof.
  intros S. split; [apply (cstr_tail s a [c] l S)|]. apply schar_truth.
  pose proof (cs_range _ _ _ S) as H. apply Forall_cons_1 in H. apply H.
Qed.

Lemma nonnull_done a s {B} (f : unit -> C B) : 0 < a -> (nonnull a ≫= f) s = f tt s.
Proof. intros H. apply bind_vassert, negb_true_iff, Z.eqb_neq. lia. Qed.

Lemma cstr_nonnull s a l {B} (f : unit -> C B) : cstr s a l -> (nonnull a ≫= f) s = f tt s.
Proof. intros S. apply nonnull_done, S. Qed.

(** ** A rule for loops over a string

    [st l1] is the loop's state when [l1] has been read. *)
Lemma string_loop {L R} (body : L -> C (ctl L R)) (st : list Z -> L) (I : list Z -> Prop)
  (Q : R -> Prop) s a l x0 :
  cstr s a l -> st [] = x0 -> I [] ->
  (I l -> cstr s (a + Z.of_nat (length l)) [] -> exists r, body (st l) s = Done (Break r) s /\ Q r) ->
  (forall l1 c l2, l = l1 ++ c :: l2 -> I l1 -> cstr s (a + Z.of_nat (length l1)) (c :: l2) ->
     (exists r, body (st l1) s = Done (Break r) s /\ Q r) \/
     (body (st l1) s = Done (Next (st (l1 ++ [c]))) s /\ I (l1 ++ [c]))) ->
  exists r, loop body x0 s = Done r s /\ Q r.
Proof.
  intros S <- Hi He Hb. pose proof (cs_end _ _ _ S) as Hend. pose proof (cs_pos _ _ _ S) as Hp.
  destruct (loop_bounded body
    (fun k x s' => s' = s /\ exists l1 l2, l = l1 ++ l2 /\ x = st l1 /\ I l1 /\ k = Z.of_nat (length l2))
    (fun r s' => s' = s /\ Q r) (Z.of_nat (length l)) (st []) s) as (r & s' & E & -> & H); [| |lia|eauto].
  - intros k x s' (-> & l1 & l2 & E & -> & Hi' & ->). split; [lia|]. rewrite E in S. pose proof (cstr_tail s a l1 l2 S) as S2.
    destruct l2 as [|c l2].
    + right. rewrite app_nil_r in E. subst l1. destruct (He Hi' S2) as (r & Er & Hq). eauto.
    + destruct (Hb l1 c l2 E Hi' S2) as [(r & Er & Hq)|[En Hn]]; [right; eauto|].
      left. eexists _, s, (Z.of_nat (length l2)). split; [exact En|]. split; [|simpl; lia].
      split; [reflexivity|]. exists (l1 ++ [c]), l2. rewrite <- app_assoc. auto.
  - split; [reflexivity|]. exists [], l. auto.
Qed.

(** Read the character at the head of a string and decide the test for zero. *)
Ltac read_char S := cbn beta iota; rewrite (bind_done _ _ _ _ _ (cstr_char _ _ _ S)); cbn [first];
  rewrite ?(proj2 (cstr_next _ _ _ _ S)); change (truth (schar 0)) with false; cbn [negb andb].
Ltac use_string_loop st I Q s a l x0 S :=
  edestruct (fun body => string_loop body st I Q s a l x0 S) as (?r & ?E & ?HQ).

(** ** Length, search, spans *)

Lemma next_pos a (l1 : list Z) c : a + Z.of_nat (length (l1 ++ [c])) = a + Z.of_nat (length l1) + 1.
Proof. rewrite length_app. simpl. lia. Qed.

Lemma strlen_done s a l : cstr s a l -> strlen a s = Done (Z.of_nat (length l)) s.
Proof.
  intros S. unfold strlen. rewrite (cstr_nonnull s a l _ S).
  use_string_loop (fun l1 : list Z => (a + Z.of_nat (length l1), 0 + Z.of_nat (length l1))) (fun _ : list Z => True)
    (fun r => r = Z.of_nat (length l)) s a l (a, 0) S; [| | | |rewrite E, HQ; reflexivity].
  - rewrite Z.add_0_r. reflexivity.
  - exact Logic.I.
  - intros _ S2. read_char S2. eauto.
  - intros l1 c l2 E _ S2. right. split; [|exact Logic.I]. read_char S2. rewrite !next_pos. reflexivity.
Qed.

Lemma to_end_done s a l : cstr s a l -> to_end a s = Done (a + Z.of_nat (length l)) s.
Proof.
  intros S. unfold to_end.
  use_string_loop (fun l1 : list Z => a + Z.of_nat (length l1)) (fun _ : list Z => True)
    (fun r => r = a + Z.of_nat (length l)) s a l a S; [| | | |rewrite E, HQ; reflexivity].
  - apply Z.add_0_r.
  - exact Logic.I.
  - intros _ S2. read_char S2. eauto.
  - intros l1 c l2 E _ S2. right. split; [|exact Logic.I]. read_char S2. rewrite !next_pos. reflexivity.
Qed.

(** [strchr] finds the first occurrence of a byte; never the zero at the end. *)
Lemma strchr_done s a l ch :
  cstr s a l -> 0 <= ch < 256 ->
  exists r, strchr a (schar ch) s = Done r s /\
    (r = 0 /\ ch ∉ l \/ exists l1 l2, l = l1 ++ ch :: l2 /\ ch ∉ l1 /\ r = a + Z.of_nat (length l1)).
Proof.
  intros S Hc. unfold strchr. rewrite (cstr_nonnull s a l _ S).
  use_string_loop (fun l1 : list Z => a + Z.of_nat (length l1)) (fun l1 : list Z => ch ∉ l1)
    (fun r => r = 0 /\ ch ∉ l \/ exists l1 l2, l = l1 ++ ch :: l2 /\ ch ∉ l1 /\ r = a + Z.of_nat (length l1))
    s a l a S; [| | | |eauto].
  - apply Z.add_0_r.
  - apply not_elem_of_nil.
  - intros Hn S2. read_char S2. eauto 6.
  - intros l1 c l2 E Hn S2. pose proof (cs_range _ _ _ S2) as Hr. apply Forall_cons_1 in Hr as [Hr _].
    read_char S2. rewrite schar_inj by lia. destruct (Z.eqb_spec c ch) as [->|Hne].
    + left. eexists. split; [reflexivity|]. right. eauto.
    + right. rewrite next_pos. split; [reflexivity|]. set_solver.
Qed.

(** The longest prefix of characters that satisfy [p]. *)
Fixpoint prefix_of (p : Z -> bool) (l : list Z) : list Z :=
  match l with
  | [] => []
  | c :: l' => if p c then c :: prefix_of p l' else []
  end.

Lemma prefix_of_app p l1 l2 : forallb p l1 = true -> prefix_of p (l1 ++ l2) = l1 ++ prefix_of p l2.
Proof. induction l1 as [|c l1 IH]; simpl; intros H; [reflexivity|]. apply andb_true_iff in H as [-> H]. f_equal. auto. Qed.

Definition is_in (ds : list Z) (c : Z) : bool := existsb (Z.eqb c) ds.

Lemma is_in_spec ds c : is_in ds c = true <-> c ∈ ds.
Proof.
  unfold is_in. rewrite existsb_exists, list_elem_of_In. split.
  - intros (x & Hx & ->%Z.eqb_eq). exact Hx.
  - intros H. exists c. rewrite Z.eqb_refl. auto.
Qed.

Lemma span_done inside s a l d ds :
  cstr s a l -> cstr s d ds ->
  span inside a d s = Done (Z.of_nat (length (prefix_of (fun c => Bool.eqb (is_in ds c) inside) l))) s.
Proof.
  intros S D. unfold span. rewrite (cstr_nonnull s a l _ S), (cstr_nonnull s d ds _ D). set (p := fun c : Z => Bool.eqb (is_in ds c) inside).
  use_string_loop (fun l1 : list Z => (a + Z.of_nat (length l1), 0 + Z.of_nat (length l1))) (fun l1 => forallb p l1 = true)
    (fun r => r = Z.of_nat (length (prefix_of p l))) s a l (a, 0) S; [| | | |rewrite E, HQ; reflexivity].
  - rewrite Z.add_0_r. reflexivity.
  - reflexivity.
  - intros Hp S2. read_char S2. eexists. split; [reflexivity|]. pose proof (prefix_of_app p l [] Hp) as H.
    rewrite !app_nil_r in H. rewrite H. reflexivity.
  - intros l1 c l2 E Hp S2. pose proof (cs_range _ _ _ S2) as Hr. apply Forall_cons_1 in Hr as [Hr _]. read_char S2.
    destruct (strchr_done s d ds c D ltac:(lia)) as (r & Er & Hf). rewrite (bind_done _ _ _ _ _ Er).
    assert (Ep : Bool.eqb (negb (r =? 0)) inside = p c).
    { unfold p. f_equal. destruct Hf as [[-> Hf]|(d1 & d2 & Ed & _ & ->)].
      - symmetry. apply not_true_iff_false. rewrite is_in_spec. exact Hf.
      - rewrite (proj2 (Z.eqb_neq _ _)) by (pose proof (cs_pos _ _ _ D); lia). symmetry. apply is_in_spec. rewrite Ed. in_list. }
    rewrite Ep. destruct (p c) eqn:Epc.
    + right. rewrite !next_pos. split; [reflexivity|]. rewrite forallb_app, Hp. simpl. rewrite Epc. reflexivity.
    + left. eexists. split; [reflexivity|]. rewrite E, prefix_of_app by trivial. simpl. rewrite Epc, app_nil_r. reflexivity.
Qed.

Lemma prefix_of_ext p q l : (forall c, p c = q c) -> prefix_of p l = prefix_of q l.
Proof. intros H. induction l as [|c l IH]; simpl; [reflexivity|]. rewrite H, IH. reflexivity. Qed.

Lemma strspn_done s a l d ds :
  cstr s a l -> cstr s d ds -> strspn a d s = Done (Z.of_nat (length (prefix_of (is_in ds) l))) s.
Proof.
  intros S D. unfold strspn. rewrite (span_done true s a l d ds S D).
  rewrite (prefix_of_ext _ (is_in ds)); [reflexivity|]. intros c. destruct (is_in ds c); reflexivity.
Qed.

Lemma strcspn_done s a l d ds :
  cstr s a l -> cstr s d ds -> strcspn a d s = Done (Z.of_nat (length (prefix_of (fun c => negb (is_in ds c)) l))) s.
Proof.
  intros S D. unfold strcspn. rewrite (span_done false s a l d ds S D).
  rewrite (prefix_of_ext _ (fun c => negb (is_in ds c))); [reflexivity|]. intros c. destruct (is_in ds c); reflexivity.
Qed.

(** ** Tokens *)

(** The tokens of a string: the longest pieces without delimiters. *)
Fixpoint tokens_from (ds cur l : list Z) : list (list Z) :=
  match l with
  | [] => match cur with [] => [] | _ => [cur] end
  | c :: l' =>
      if is_in ds c then match cur with [] => tokens_from ds [] l' | _ => cur :: tokens_from ds [] l' end
      else tokens_from ds (cur ++ [c]) l'
  end.

Definition tokens (ds l : list Z) : list (list Z) := tokens_from ds [] l.

(** The next token: delimiters, the token, and what is behind it. *)
Lemma tokens_skip ds l1 l2 : forallb (is_in ds) l1 = true -> tokens ds (l1 ++ l2) = tokens ds l2.
Proof.
  unfold tokens. induction l1 as [|c l1 IH]; simpl; intros H; [reflexivity|].
  apply andb_true_iff in H as [-> H]. auto.
Qed.

Lemma tokens_take ds t : forall cur l2,
  forallb (fun c => negb (is_in ds c)) t = true -> tokens_from ds cur (t ++ l2) = tokens_from ds (cur ++ t) l2.
Proof.
  induction t as [|c t IH]; simpl; intros cur l2 H; [rewrite app_nil_r; reflexivity|].
  apply andb_true_iff in H as [Hc%negb_true_iff H]. rewrite Hc, IH by trivial. rewrite <- app_assoc. reflexivity.
Qed.

Lemma prefix_of_split p l :
  exists l2, l = prefix_of p l ++ l2 /\ forallb p (prefix_of p l) = true /\ (l2 = [] \/ exists c l3, l2 = c :: l3 /\ p c = false).
Proof.
  induction l as [|c l (l2 & E & H1 & H2)]; simpl; [exists []; auto|]. destruct (p c) eqn:Ep.
  - exists l2. simpl. split; [f_equal; exact E|]. rewrite Ep, H1. auto.
  - exists (c :: l). split; [reflexivity|]. split; [reflexivity|]. right. exists c, l. auto.
Qed.

(** Zeroing the byte behind a token makes it a string; other strings are not affected. *)
Lemma cstr_cut s a l1 d l2 :
  cstr s a (l1 ++ d :: l2) -> cstr (set_mem (put 1 (a + Z.of_nat (length l1)) 0 (p_mem s)) s) a l1.
Proof.
  intros [H1 H2 H3 H4 H5 H6]. rewrite length_app in *. simpl in *. split; simpl; try lia.
  - intros y Hy. apply H3. lia.
  - apply Forall_app in H4. apply H4.
  - intros i c Hi. rewrite byte_put_other by (apply lookup_lt_Some in Hi; lia). apply H5. rewrite lookup_app_l by (apply lookup_lt_Some in Hi; lia). exact Hi.
  - rewrite byte_put1, Z.eqb_refl. reflexivity.
Qed.

Lemma cstr_other s a l x v :
  cstr s a l -> x < a \/ a + Z.of_nat (length l) < x -> cstr (set_mem (put 1 x v (p_mem s)) s) a l.
Proof.
  intros [H1 H2 H3 H4 H5 H6] Hx. split; simpl; trivial.
  - intros i c Hi. rewrite byte_put_other by (apply lookup_lt_Some in Hi; lia). auto.
  - rewrite byte_put_other by lia. exact H6.
Qed.

(** The static variable does not matter for strings. *)
Definition with_tok (v : Z) (s : process) : process := set_last v s.

Lemma cstr_tok s a l v : cstr (with_tok v s) a l <-> cstr s a l.
Proof. split; intros [H1 H2 H3 H4 H5 H6]; split; trivial. Qed.

(** Two strings in different places. *)
Definition away (a : Z) (l : list Z) (b : Z) (k : list Z) : Prop :=
  a + Z.of_nat (length l) < b \/ b + Z.of_nat (length k) < a.

Lemma set_tok_done v s : set_tok v s = Done tt (with_tok v s).
Proof. reflexivity. Qed.

(** The end of a token that starts at [q]. *)
Lemma strtok_token s q t l2 d ds :
  cstr s q (t ++ l2) -> cstr s d ds -> away q (t ++ l2) d ds -> t <> [] ->
  prefix_of (fun c => negb (is_in ds c)) (t ++ l2) = t ->
  exists s', (end_ ← strcspn q d;
    c ← load_char (q + end_);
    if c =? 0 then
      set_tok 0;;
      mret q
    else
      store8 (q + end_) 0;;
      set_tok (q + (end_ + 1));;
      mret q) s = Done q s' /\ cstr s' q t /\ cstr s' d ds /\ p_mapped s' = p_mapped s /\
    (l2 = [] /\ p_last s' = 0 /\ p_mem s' = p_mem s \/
     exists c l3, l2 = c :: l3 /\ p_last s' = q + Z.of_nat (length t) + 1 /\ cstr s' (p_last s') l3 /\
       p_mem s' = put 1 (q + Z.of_nat (length t)) 0 (p_mem s)).
Proof.
  intros S D Haw Ht Hpre. rewrite (bind_done _ _ _ _ _ (strcspn_done s q (t ++ l2) d ds S D)), Hpre.
  pose proof (cstr_tail s q t l2 S) as S2. rewrite (bind_done _ _ _ _ _ (cstr_char _ _ _ S2)). unfold away in Haw. rewrite length_app in Haw.
  destruct l2 as [|c l3]; cbn [first].
  - change (schar 0 =? 0) with true. cbn [negb]. exists (with_tok 0 s). rewrite app_nil_r in S. split; [reflexivity|].
    split; [apply cstr_tok, S|]. split; [apply cstr_tok, D|]. split; [reflexivity|]. left. auto.
  - destruct (cstr_next _ _ _ _ S2) as [_ Hc]. unfold truth in Hc. apply negb_true_iff in Hc. rewrite Hc.
    assert (Hm : forall y, q + Z.of_nat (length t) <= y < q + Z.of_nat (length t) + Z.of_nat 1 -> p_mapped s y = true).
    { intros y Hy. apply (cs_mapped _ _ _ S). rewrite length_app. simpl. lia. }
    rewrite (bind_store _ _ _ _ _ Hm). eexists. split; [reflexivity|]. set (s1 := set_mem _ s).
    split; [apply cstr_tok, (cstr_cut s q t c l3 S)|]. split; [apply cstr_tok, cstr_other; [exact D|simpl in Haw; lia]|].
    split; [reflexivity|]. right. exists c, l3. simpl p_last. replace (q + (Z.of_nat (length t) + 1)) with (q + Z.of_nat (length t) + 1) by lia.
    split; [reflexivity|]. split; [reflexivity|]. split; [|reflexivity].
    apply cstr_tok. apply (cstr_other s _ l3 _ 0); [apply (cstr_next _ _ _ _ S2)|lia].
Qed.

(** The position is the argument, or what the last call has left. *)
Lemma strtok_start s str p {R} (f : unit -> C R) :
  0 < p -> str = p \/ str = 0 /\ p_last s = p ->
  ((if truth str then set_tok str else mret tt) ≫= f) s = f tt (with_tok p s).
Proof.
  intros Hp [->|[-> Hl]].
  - unfold truth. rewrite (proj2 (Z.eqb_neq p 0)) by lia. reflexivity.
  - apply bind_done. unfold with_tok. rewrite <- Hl. destruct s; reflexivity.
Qed.

Lemma tokens_cons ds t l2 :
  t <> [] -> forallb (fun c => negb (is_in ds c)) t = true -> (l2 = [] \/ exists c l3, l2 = c :: l3 /\ is_in ds c = true) ->
  tokens ds (t ++ l2) = t :: tokens ds (tail l2).
Proof.
  intros Ht Hn Hl. unfold tokens. rewrite tokens_take by trivial. simpl app.
  destruct t as [|x t]; [contradiction|]. destruct Hl as [->|(c & l3 & -> & Hc)]; [reflexivity|]. simpl. rewrite Hc. reflexivity.
Qed.

(** One call of [strtok] from the position [p] of the string [l]. *)
Lemma strtok_done s str p l d ds :
  str = p \/ str = 0 /\ p_last s = p -> cstr s p l -> cstr s d ds -> away p l d ds ->
  exists r s', strtok str d s = Done r s' /\ cstr s' d ds /\ p_mapped s' = p_mapped s /\
    match tokens ds l with
    | [] => r = 0 /\ p_mem s' = p_mem s
    | t :: ts => p <= r /\ cstr s' r t /\ r + Z.of_nat (length t) <= p + Z.of_nat (length l) /\
        (ts = [] /\ p_last s' = 0 /\ p_mem s' = p_mem s \/
         exists l2, p_last s' = r + Z.of_nat (length t) + 1 /\ cstr s' (p_last s') l2 /\ tokens ds l2 = ts /\
           p_last s' + Z.of_nat (length l2) = p + Z.of_nat (length l) /\
           p_mem s' = put 1 (r + Z.of_nat (length t)) 0 (p_mem s))
    end.
Proof.
  intros Hstr S D Haw. pose proof (cs_pos _ _ _ S) as Hp. unfold strtok. rewrite (strtok_start s str p _ Hp Hstr).
  set (s0 := with_tok p s). assert (S0 : cstr s0 p l) by apply cstr_tok, S. assert (D0 : cstr s0 d ds) by apply cstr_tok, D.
  rewrite (bind_done (gets p_last) _ s0 p s0 eq_refl), (proj2 (Z.eqb_neq p 0)) by lia.
  rewrite (bind_done _ _ _ _ _ (strspn_done s0 p l d ds S0 D0)), (bind_done _ _ _ _ _ (set_tok_done _ s0)). cbv zeta.
  destruct (prefix_of_split (is_in ds) l) as (l2 & El & Hd & Hl2). set (ds1 := prefix_of _ l) in *.
  set (q := p + Z.of_nat (length ds1)). set (s1 := with_tok q s0).
  rewrite El, (tokens_skip ds ds1 l2 Hd). rewrite El in S. pose proof (cstr_tail s p ds1 l2 S) as S2. fold q in S2.
  rewrite (bind_done _ _ _ _ _ (cstr_char s1 q l2 ltac:(apply cstr_tok, cstr_tok, S2))).
  destruct Hl2 as [->|(c & l3 & -> & Hc)]; cbn [first].
  { change (schar 0 =? 0) with true. eexists 0, _. split; [reflexivity|]. split; [apply cstr_tok, cstr_tok, D0|].
    split; [reflexivity|]. split; reflexivity. }
  destruct (cstr_next _ _ _ _ S2) as [_ Ht]. unfold truth in Ht. apply negb_true_iff in Ht. rewrite Ht.
  destruct (prefix_of_split (fun c => negb (is_in ds c)) (c :: l3)) as (l4 & E4 & Hn & Hl4). set (t := prefix_of _ (c :: l3)) in *.
  assert (Htn : t <> []) by (unfold t; simpl; rewrite Hc; discriminate).
  assert (Hlen : Z.of_nat (length l) = Z.of_nat (length ds1) + (Z.of_nat (length t) + Z.of_nat (length l4))) by (rewrite El, E4, !length_app; lia).
  rewrite E4 in S2 |- *.
  destruct (strtok_token s1 q t l4 d ds) as (s' & E & St & D' & Hm & H); trivial.
  { apply cstr_tok, cstr_tok, S2. }
  { apply cstr_tok, D0. }
  { unfold away, q in *. rewrite length_app. lia. }
  { rewrite <- E4. reflexivity. }
  exists q, s'. split; [exact E|]. split; [exact D'|]. split; [exact Hm|]. rewrite tokens_cons; trivial.
  2:{ destruct Hl4 as [?|(x & l5 & ? & Hx%negb_false_iff)]; eauto. }
  split; [unfold q; lia|]. split; [exact St|]. split; [rewrite <- E4, <- El; unfold q; lia|].
  destruct H as [(-> & H)|(x & l5 & -> & H1 & H2 & H3)]; [left; auto|right]. exists l5. csplit; trivial.
  rewrite H1, <- E4, <- El. unfold q. simpl in Hlen. lia.
Qed.

(** A program that collects all tokens of a string. *)
Definition all_tokens (str delimiters : Z) : C (list Z) :=
  loop (fun '(str, acc) =>
    r ← strtok str delimiters;
    if r =? 0 then mret (Break (rev acc)) else mret (Next (0, r :: acc))) (str, []).

(** Once [last] is NULL there are no more tokens. *)
Lemma strtok_over s d : p_last s = 0 -> strtok 0 d s = Done 0 s.
Proof. intros H. unfold strtok. cbn [truth negb Z.eqb]. unfold mbind, C_bind, gets, mret, C_ret. rewrite H. reflexivity. Qed.

(** The tokens found so far, all before the position [q]. *)
Definition found (s : process) (q : Z) (r : Z) (t : list Z) : Prop := cstr s r t /\ r + Z.of_nat (length t) < q.

Lemma found_put s s' q x v r t :
  found s q r t -> q <= x -> p_mem s' = put 1 x v (p_mem s) -> p_mapped s' = p_mapped s -> cstr s' r t.
Proof.
  intros [S Hq] Hx Em Ep. destruct (cstr_other s r t x v S ltac:(lia)) as [H1 H2 H3 H4 H5 H6].
  unfold mapped in H3. simpl in *. rewrite <- Em in H5, H6. split; trivial. unfold mapped. rewrite Ep. exact H3.
Qed.

Lemma found_same s s' q r t : found s q r t -> p_mem s' = p_mem s -> p_mapped s' = p_mapped s -> cstr s' r t.
Proof.
  intros [[H1 H2 H3 H4 H5 H6] _] Em Ep. rewrite <- Em in H5, H6. split; trivial. unfold mapped. rewrite Ep. exact H3.
Qed.

(** Between the calls: the position [q] with the rest [l] of the string, or the end. *)
Definition token_state (s0 : process) (e : Z) (ds : list Z) (all : list (list Z)) (d k str : Z) (acc : list Z) (s : process) : Prop :=
  cstr s d ds /\ p_mapped s = p_mapped s0 /\
  (k = 0 /\ str = 0 /\ p_last s = 0 /\ Forall2 (cstr s) (rev acc) all \/
   exists q l ts1, (str = q \/ str = 0 /\ p_last s = q) /\ cstr s q l /\ q + Z.of_nat (length l) = e /\ away q l d ds /\
     k = Z.of_nat (length l) + 1 /\ all = ts1 ++ tokens ds l /\ Forall2 (found s q) (rev acc) ts1).

Lemma token_step s0 e ds all d k str acc s :
  token_state s0 e ds all d k str acc s ->
  exists r s', strtok str d s = Done r s' /\
    (r = 0 /\ cstr s' d ds /\ Forall2 (cstr s') (rev acc) all \/
     r <> 0 /\ exists k', 0 <= k' < k /\ token_state s0 e ds all d k' 0 (r :: acc) s').
Proof.
  intros (D & Hm & [(-> & -> & Hl & HF)|(q & l & ts1 & Hq & S & He & Haw & -> & -> & HF)]).
  { exists 0, s. split; [apply strtok_over, Hl|]. auto. }
  destruct (strtok_done s str q l d ds Hq S D Haw) as (r & s' & E & D' & Hm' & H). exists r, s'. split; [exact E|].
  destruct (tokens ds l) as [|t ts].
  { destruct H as [-> Hme]. left. rewrite app_nil_r. split; [reflexivity|]. split; [exact D'|].
    eapply Forall2_impl; [exact HF|]. intros x y Hf. apply (found_same s s' q x y Hf Hme Hm'). }
  destruct H as (Hr & St & Hrl & H). pose proof (cs_pos _ _ _ S). right. split; [lia|].
  destruct H as [(-> & Hl & Hme)|(l2 & Hl & S2 & <- & Hend & Hme)].
  - exists 0. split; [lia|]. split; [exact D'|]. split; [congruence|]. left. csplit; trivial. simpl.
    apply Forall2_app; [|constructor; [exact St|constructor]].
    eapply Forall2_impl; [exact HF|]. intros x y Hf. apply (found_same s s' q x y Hf Hme Hm').
  - exists (Z.of_nat (length l2) + 1). split; [lia|]. split; [exact D'|]. split; [congruence|]. right.
    exists (p_last s'), l2, (ts1 ++ [t]). rewrite <- app_assoc. csplit; trivial; try lia; auto.
    + unfold away in *. lia.
    + simpl. apply Forall2_app; [|constructor; [split; [exact St|lia]|constructor]].
      eapply Forall2_impl; [exact HF|]. intros x y Hf. split; [|destruct Hf; lia].
      apply (found_put s s' q (r + Z.of_nat (length t)) 0 x y Hf); trivial. lia.
Qed.

Lemma all_tokens_done s a l d ds :
  cstr s a l -> cstr s d ds -> away a l d ds ->
  exists rs s', all_tokens a d s = Done rs s' /\ cstr s' d ds /\ Forall2 (cstr s') rs (tokens ds l).
Proof.
  intros S D Haw. pose proof (cs_end _ _ _ S). pose proof (cs_pos _ _ _ S).
  edestruct (fun body => loop_bounded body
    (fun k '(str, acc) s' => 0 <= k /\ token_state s (a + Z.of_nat (length l)) ds (tokens ds l) d k str acc s')
    (fun rs s' => cstr s' d ds /\ Forall2 (cstr s') rs (tokens ds l)) (Z.of_nat (length l) + 1) (a, []) s)
    as (rs & s' & E & D' & H1); [| | |eauto].
  - intros k [str acc] s1 [Hk Hst]. split; [exact Hk|]. destruct (token_step _ _ _ _ _ _ _ _ _ Hst) as (r & s2 & E & H1).
    rewrite (bind_done _ _ _ _ _ E). destruct H1 as [(-> & D2 & HF)|(Hr & k' & Hk' & Hst')].
    + right. eexists _, s2. split; [reflexivity|]. auto.
    + left. rewrite (proj2 (Z.eqb_neq _ _) Hr). eexists _, s2, k'. split; [reflexivity|]. split; [|lia]. split; [lia|exact Hst'].
  - split; [lia|]. split; [exact D|]. split; [reflexivity|]. right. exists a, l, []. csplit; trivial; auto.
  - lia.
Qed.

(** ** Comparing *)

(** The order of strings by the values [f c] of their characters. *)
Fixpoint lex (f : Z -> Z) (l k : list Z) : Z :=
  match l, k with
  | [], [] => 0
  | [], _ => -1
  | _, [] => 1
  | c :: l', d :: k' => if f (schar c) =? f (schar d) then lex f l' k' else if f (schar d) <? f (schar c) then 1 else -1
  end.

Lemma compare_done f s a l b k :
  (forall c, truth (f c) = truth c) -> cstr s a l -> cstr s b k -> compare_chars f a b s = Done (lex f l k) s.
Proof.
  intros Hf S T. unfold compare_chars. rewrite (bind_done _ _ _ _ _ (cstr_char _ _ _ S)), (bind_done _ _ _ _ _ (cstr_char _ _ _ T)).
  rewrite (cstr_nonnull s a l _ S), (cstr_nonnull s b k _ T). pose proof (cs_end _ _ _ S). pose proof (cs_pos _ _ _ S).
  edestruct (fun body => loop_bounded body
    (fun n '(p, q, c, d) s' => s' = s /\ exists l2 k2, cstr s p l2 /\ cstr s q k2 /\ c = f (schar (first l2)) /\ d = f (schar (first k2)) /\
       n = Z.of_nat (length l2) /\ lex f l2 k2 = lex f l k)
    (fun r s' => s' = s /\ r = lex f l k) (Z.of_nat (length l)) (a, b, f (schar (first l)), f (schar (first k))) s)
    as (r & s' & E & -> & ->); [| | |exact E].
  - intros n [[[p q] c] d] s' (-> & l2 & k2 & S2 & T2 & -> & -> & -> & El). split; [lia|]. rewrite !Hf. rewrite <- El.
    destruct l2 as [|x l2], k2 as [|y k2]; cbn [first]; change (truth (schar 0)) with false;
      rewrite ?(proj2 (cstr_next _ _ _ _ S2)), ?(proj2 (cstr_next _ _ _ _ T2)); cbn [andb negb].
    + right. eexists _, s. split; reflexivity || auto.
    + right. eexists _, s. split; reflexivity || auto.
    + right. eexists _, s. split; reflexivity || auto.
    + cbn [lex] in El |- *. destruct (f (schar x) =? f (schar y)); cbn [negb].
      * left. destruct (cstr_next _ _ _ _ S2) as [S3 _], (cstr_next _ _ _ _ T2) as [T3 _].
        rewrite (bind_done _ _ _ _ _ (cstr_char _ _ _ S3)), (bind_done _ _ _ _ _ (cstr_char _ _ _ T3)).
        eexists _, s, (Z.of_nat (length l2)). split; [reflexivity|]. split; [|simpl; lia]. split; [reflexivity|]. eauto 10.
      * right. eexists _, s. split; reflexivity || auto.
  - split; [reflexivity|]. eauto 10.
  - lia.
Qed.

Lemma strcmp_done s a l b k : cstr s a l -> cstr s b k -> strcmp a b s = Done (lex (fun c => c) l k) s.
Proof. apply compare_done. reflexivity. Qed.

Lemma tolower_truth c : truth (tolower c) = truth c.
Proof.
  unfold tolower, truth. destruct (Z.leb_spec 65 c), (Z.leb_spec c 90); simpl; trivial.
  destruct (Z.eqb_spec (c - (65 - 97)) 0), (Z.eqb_spec c 0); trivial; lia.
Qed.

Lemma strcasecmp_done s a l b k : cstr s a l -> cstr s b k -> strcasecmp a b s = Done (lex tolower l k) s.
Proof. apply compare_done. exact tolower_truth. Qed.

(** The order is total, and equal means the same string. *)
Lemma lex_zero l k :
  Forall (fun c => 1 <= c < 256) l -> Forall (fun c => 1 <= c < 256) k -> lex (fun c => c) l k = 0 <-> l = k.
Proof.
  intros Hl. revert k. induction Hl as [|c l Hc _ IH]; intros [|d k] Hk; simpl; try (split; [lia|discriminate]); [split; trivial|].
  apply Forall_cons_1 in Hk as [Hd Hk]. rewrite schar_inj by lia. destruct (Z.eqb_spec c d) as [->|Hne].
  - rewrite IH by trivial. split; [intros ->; reflexivity|intros [=]; trivial].
  - split; [|congruence]. destruct (schar d <? schar c); lia.
Qed.

Lemma lex_sym f l k : lex f k l = - lex f l k.
Proof.
  revert k. induction l as [|c l IH]; intros [|d k]; simpl; try lia. rewrite (Z.eqb_sym (f (schar d))).
  destruct (Z.eqb_spec (f (schar c)) (f (schar d))) as [_|Hne]; [apply IH|].
  destruct (Z.ltb_spec (f (schar c)) (f (schar d))), (Z.ltb_spec (f (schar d)) (f (schar c))); lia.
Qed.

(** [strncmp] on equal strings that are shorter than [count]. *)
Lemma strncmp_equal s a b l count :
  cstr s a l -> cstr s b l -> Z.of_nat (length l) < count < 2 ^ 63 -> strncmp a b count s = Done (-1) s.
Proof.
  intros S T Hc. unfold strncmp. rewrite (cstr_nonnull s a l _ S), (cstr_nonnull s b l _ T).
  replace (signed 64 count) with count by (unfold signed; rewrite (proj2 (Z.ltb_lt _ _)) by lia; reflexivity).
  use_string_loop (fun l1 : list Z => (a + Z.of_nat (length l1), b + Z.of_nat (length l1), count - Z.of_nat (length l1)))
    (fun l1 => exists l2, l = l1 ++ l2) (fun r => r = -1) s a l (a, b, count) S; [| | | |rewrite E, HQ; reflexivity].
  - rewrite !Z.add_0_r, Z.sub_0_r. reflexivity.
  - exists l. reflexivity.
  - intros _ S2. read_char S2. cbn [mbind C_bind mret C_ret]. eexists. split; [|reflexivity]. unfold mbind, C_bind, mret, C_ret.
    rewrite (proj2 (Z.leb_gt _ _)) by lia. reflexivity.
  - intros l1 c l2 E _ S2. right. pose proof T as T1. rewrite E in T1. apply cstr_tail in T1. read_char S2.
    rewrite (bind_done _ _ _ _ _ (cstr_char _ _ _ T1)). cbn [first]. rewrite (proj2 (cstr_next _ _ _ _ T1)), Z.eqb_refl.
    cbn [negb andb]. rewrite E in Hc. rewrite length_app in Hc. simpl in Hc. rewrite (proj2 (Z.ltb_lt _ _)) by lia.
    rewrite !next_pos. replace (count - Z.of_nat (length (l1 ++ [c]))) with (count - Z.of_nat (length l1) - 1) by (rewrite length_app; simpl; lia).
    split; [reflexivity|]. exists l2. rewrite <- app_assoc. exact E.
Qed.

(** ** Copying *)

(** A string is copied byte by byte; source and target are apart. *)
Lemma copy_chars_done s from l to :
  cstr s from l -> 0 < to -> mapped s to (to + Z.of_nat (length l)) ->
  to + Z.of_nat (length l) <= from \/ from + Z.of_nat (length l) < to ->
  exists m, copy_chars to from s = Done (to + Z.of_nat (length l)) (set_mem m s) /\
    filled (fun y => byte_at (p_mem s) (y - to + from)) (p_mem s) to (to + Z.of_nat (length l)) m.
Proof.
  intros S Ht Hm Hd. unfold copy_chars. pose proof (cs_end _ _ _ S). pose proof (cs_pos _ _ _ S). set (b := fun y => byte_at (p_mem s) (y - to + from)).
  edestruct (fun body => loop_bounded body
    (fun n '(p, q) s' => exists l1 l2 m, l = l1 ++ l2 /\ n = Z.of_nat (length l2) /\ p = to + Z.of_nat (length l1) /\
       q = from + Z.of_nat (length l1) /\ s' = set_mem m s /\ filled b (p_mem s) to p m)
    (fun e s' => exists m, e = to + Z.of_nat (length l) /\ s' = set_mem m s /\ filled b (p_mem s) to (to + Z.of_nat (length l)) m)
    (Z.of_nat (length l)) (to, from) s) as (e & s' & E & m & -> & -> & H1); [| | |eauto].
  - intros n [p q] s' (l1 & l2 & m & El & -> & Ep & -> & -> & Hf). split; [lia|].
    pose proof S as S1. rewrite El in S1. apply cstr_tail in S1.
    assert (Hlen : Z.of_nat (length l) = Z.of_nat (length l1) + Z.of_nat (length l2)) by (rewrite El, length_app; lia).
    assert (Hq : byte_at m (from + Z.of_nat (length l1)) = first l2).
    { rewrite (filled_out b _ _ _ _ _ Hf) by lia. apply (cstr_first _ _ _ S1). }
    pose proof (load_char_done (set_mem m s) (from + Z.of_nat (length l1)) ltac:(apply (cs_mapped _ _ _ S1); lia)) as L.
    simpl in L. rewrite Hq in L. rewrite (bind_done _ _ _ _ _ L). destruct l2 as [|c l2]; cbn [first].
    + right. change (truth (schar 0)) with false. eexists _, _. split; [reflexivity|]. exists m. rewrite app_nil_r in El. subst l1 p. auto.
    + destruct (cstr_next _ _ _ _ S1) as [S2 Hc]. rewrite Hc. left. simpl in Hlen.
      rewrite (bind_done _ _ _ _ _ (store_done 1 p (schar c) (set_mem m s) ltac:(intros y Hy; apply Hm; lia))).
      eexists _, _, (Z.of_nat (length l2)). split; [reflexivity|]. split; [|simpl; lia].
      exists (l1 ++ [c]), l2, (put 1 p (schar c) m). rewrite <- app_assoc, !next_pos. csplit; trivial; try lia.
      apply (filled_up b _ _ _ _ 1); [exact Hf|lia|]. intros i Hi. replace i with 0 by lia. unfold b.
      pose proof (cs_range _ _ _ S1) as Hr. apply Forall_cons_1 in Hr as [Hr _].
      change (8 * 0) with 0. rewrite Z.shiftr_0_r, schar_byte by lia. symmetry. etransitivity; [|exact (cstr_first _ _ _ S1)]. f_equal. lia.
  - exists [], l, (p_mem s). simpl. rewrite !Z.add_0_r, set_mem_mem. csplit; trivial. apply filled_refl.
  - lia.
Qed.

(** The copied characters and the zero behind them are a string, behind what is there already. *)
Lemma copied_string s from l to m pre :
  cstr s from l -> filled (fun y => byte_at (p_mem s) (y - to + from)) (p_mem s) to (to + Z.of_nat (length l)) m ->
  to + Z.of_nat (length l) + 1 <= 2 ^ 64 -> mapped s to (to + Z.of_nat (length l) + 1) ->
  cstr s (to - Z.of_nat (length pre)) pre \/ pre = [] /\ 0 < to ->
  cstr (set_mem (put 1 (to + Z.of_nat (length l)) 0 m) s) (to - Z.of_nat (length pre)) (pre ++ l).
Proof.
  intros S Hf He Hm Hpre.
  assert (Hp : 0 < to - Z.of_nat (length pre) /\ Forall (fun c => 1 <= c < 256) pre /\
    mapped s (to - Z.of_nat (length pre)) to /\
    forall i c, pre !! i = Some c -> byte_at (p_mem s) (to - Z.of_nat (length pre) + Z.of_nat i) = c).
  { destruct Hpre as [[H1 H2 H3 H4 H5 H6]|[-> H]].
    - csplit; trivial. intros y Hy. apply H3. lia.
    - simpl. rewrite Z.sub_0_r. split; [exact H|]. split; [constructor|]. split; [intros y Hy; lia|discriminate 1]. }
  destruct Hp as (P1 & P2 & P3 & P4). split; simpl; rewrite ?length_app; try lia.
  - intros y Hy. destruct (Z_lt_le_dec y to); [apply P3|apply Hm]; lia.
  - apply Forall_app. split; [exact P2|apply S].
  - intros i c Hi. assert (Hlt := lookup_lt_Some _ _ _ Hi). rewrite length_app in Hlt. rewrite byte_put_other by lia.
    destruct (decide (i < length pre)%nat).
    + rewrite lookup_app_l in Hi by lia. rewrite (filled_out _ _ _ _ _ _ Hf) by lia. apply P4, Hi.
    + rewrite lookup_app_r in Hi by lia. rewrite (filled_in _ _ _ _ _ _ Hf) by lia.
      rewrite <- (cs_chars _ _ _ S _ _ Hi). f_equal. lia.
  - replace (to - Z.of_nat (length pre) + Z.of_nat (length pre + length l)) with (to + Z.of_nat (length l)) by lia.
    rewrite byte_put1, Z.eqb_refl. reflexivity.
Qed.

Lemma strcpy_done s from l to :
  cstr s from l -> 0 < to -> to + Z.of_nat (length l) + 1 <= 2 ^ 64 -> mapped s to (to + Z.of_nat (length l) + 1) ->
  to + Z.of_nat (length l) <= from \/ from + Z.of_nat (length l) < to ->
  exists m, strcpy to from s = Done to (set_mem m s) /\ cstr (set_mem m s) to l /\
    forall y, y < to \/ to + Z.of_nat (length l) < y -> byte_at m y = byte_at (p_mem s) y.
Proof.
  intros S Ht He Hm Hd. unfold strcpy. rewrite (cstr_nonnull s from l _ S).
  rewrite nonnull_done by exact Ht.
  destruct (copy_chars_done s from l to S Ht ltac:(intros y Hy; apply Hm; lia) Hd) as (m & E & Hf).
  rewrite (bind_done _ _ _ _ _ E), (bind_done _ _ _ _ _ (store_done 1 (to + Z.of_nat (length l)) 0 (set_mem m s) ltac:(intros y Hy; apply Hm; lia))).
  eexists. split; [reflexivity|]. split.
  - pose proof (copied_string s from l to m [] S Hf He Hm (or_intror (conj eq_refl Ht))) as H.
    simpl in H. rewrite Z.sub_0_r in H. exact H.
  - intros y Hy. simpl. rewrite byte_put_other by lia. apply (filled_out _ _ _ _ _ _ Hf). lia.
Qed.

Lemma strcat_done s a l b k :
  cstr s a l -> cstr s b k -> a + Z.of_nat (length l + length k) + 1 <= 2 ^ 64 ->
  mapped s a (a + Z.of_nat (length l + length k) + 1) -> away a (l ++ k) b k ->
  exists m, strcat a b s = Done a (set_mem m s) /\ cstr (set_mem m s) a (l ++ k) /\
    forall y, y < a \/ a + Z.of_nat (length l + length k) < y -> byte_at m y = byte_at (p_mem s) y.
Proof.
  intros S T He Hm Haw. unfold away in Haw. rewrite length_app in Haw. unfold strcat.
  rewrite (cstr_nonnull s a l _ S), (cstr_nonnull s b k _ T), (bind_done _ _ _ _ _ (to_end_done s a l S)).
  set (e := a + Z.of_nat (length l)). pose proof (cs_pos _ _ _ S).
  destruct (copy_chars_done s b k e T ltac:(lia) ltac:(intros y Hy; apply Hm; lia) ltac:(lia)) as (m & E & Hf).
  rewrite (bind_done _ _ _ _ _ E), (bind_done _ _ _ _ _ (store_done 1 (e + Z.of_nat (length k)) 0 (set_mem m s) ltac:(intros y Hy; apply Hm; lia))).
  eexists. split; [reflexivity|]. split.
  - pose proof (copied_string s b k e m l T Hf ltac:(lia) ltac:(intros y Hy; apply Hm; lia)) as Hc.
    replace (e - Z.of_nat (length l)) with a in Hc by lia. apply Hc. left. exact S.
  - intros y Hy. simpl. rewrite byte_put_other by lia. apply (filled_out _ _ _ _ _ _ Hf). lia.
Qed.

(** ** Substrings *)

(** The inner loop of [strstr] runs over the common prefix. *)
Lemma match_done s p l q k :
  cstr s p l -> cstr s q k ->
  exists x l2 k2, l = x ++ l2 /\ k = x ++ k2 /\ (k2 = [] \/ first l2 <> first k2) /\
    loop (fun '(q, sub) =>
      c ← load_char sub;
      if negb (truth c) then mret (Break (q, sub)) else
      d ← load_char q;
      if d =? c then mret (Next (q + 1, sub + 1)) else mret (Break (q, sub))) (p, q) s
    = Done (p + Z.of_nat (length x), q + Z.of_nat (length x)) s.
Proof.
  intros S T. pose proof (cs_end _ _ _ T). pose proof (cs_pos _ _ _ T).
  edestruct (fun body => loop_bounded body
    (fun n '(p', q') s' => s' = s /\ exists x l2 k2, l = x ++ l2 /\ k = x ++ k2 /\ p' = p + Z.of_nat (length x) /\
       q' = q + Z.of_nat (length x) /\ n = Z.of_nat (length k2))
    (fun r s' => s' = s /\ exists x l2 k2, l = x ++ l2 /\ k = x ++ k2 /\ (k2 = [] \/ first l2 <> first k2) /\
       r = (p + Z.of_nat (length x), q + Z.of_nat (length x)))
    (Z.of_nat (length k)) (p, q) s) as (r & s' & E & -> & x & l2 & k2 & H1 & H2 & H3 & ->); [| | |eauto 10].
  - intros n [p' q'] s' (-> & x & l2 & k2 & El & Ek & -> & -> & ->). split; [lia|].
    pose proof S as S1. rewrite El in S1. apply cstr_tail in S1. pose proof T as T1. rewrite Ek in T1. apply cstr_tail in T1.
    rewrite (bind_done _ _ _ _ _ (cstr_char _ _ _ T1)). destruct k2 as [|d k2]; cbn [first].
    { right. eexists _, s. split; [reflexivity|]. split; [reflexivity|]. exists x, l2, []. auto. }
    rewrite (proj2 (cstr_next _ _ _ _ T1)). cbn [negb]. rewrite (bind_done _ _ _ _ _ (cstr_char _ _ _ S1)).
    assert (Hd : 1 <= d < 256) by (pose proof (cs_range _ _ _ T1) as H1; apply Forall_cons_1 in H1; apply H1).
    assert (Hc : 0 <= first l2 < 256).
    { destruct l2 as [|c l2]; [simpl; lia|]. pose proof (cs_range _ _ _ S1) as H1. apply Forall_cons_1 in H1. simpl. lia. }
    rewrite schar_inj by lia. destruct (Z.eqb_spec (first l2) d) as [Heq|Hne].
    + left. destruct l2 as [|c l2]; [simpl in Heq; lia|]. simpl in Heq. subst c.
      eexists _, s, (Z.of_nat (length k2)). split; [reflexivity|]. split; [|simpl; lia]. split; [reflexivity|].
      exists (x ++ [d]), l2, k2. rewrite <- !app_assoc, !next_pos. auto.
    + right. eexists _, s. split; [reflexivity|]. split; [reflexivity|]. exists x, l2, (d :: k2). auto.
  - split; [reflexivity|]. exists [], l, k. simpl. rewrite !Z.add_0_r. auto.
  - lia.
Qed.

(** [k] occurs in [l] behind [l1]. *)
Definition occurs (l k l1 : list Z) : Prop := exists l3, l = l1 ++ k ++ l3.

(** Where the first character of the pattern occurs in it only once, no occurrence starts inside
    of a partial match [x]. *)
Lemma occurs_after l1 x l2 c k0 k2 m1 :
  c ∉ k0 -> c :: k0 = x ++ k2 -> k2 <> [] -> first l2 <> first k2 -> x <> [] ->
  occurs (l1 ++ x ++ l2) (c :: k0) m1 -> (length l1 <= length m1)%nat -> (length (l1 ++ x) <= length m1)%nat.
Proof.
  intros Hc Ek Hk2 Hf Hx (m3 & E) Hm. rewrite length_app.
  assert (El : exists y, m1 = l1 ++ y).
  { exists (drop (length l1) m1). rewrite <- (take_drop (length l1) m1) at 1. f_equal.
    assert (H : take (length l1) (l1 ++ x ++ l2) = take (length l1) (m1 ++ (c :: k0) ++ m3)) by (rewrite E; reflexivity).
    rewrite take_app_length, take_app_le in H by lia. symmetry. exact H. }
  destruct El as [y ->]. rewrite length_app. rewrite <- app_assoc in E. apply app_inv_head in E.
  destruct (decide (length x <= length y)%nat); [lia|]. exfalso.
  assert (Ey : exists z, x = y ++ z /\ z <> []).
  { exists (drop (length y) x). split.
    - rewrite <- (take_drop (length y) x) at 1. f_equal.
      assert (H : take (length y) (x ++ l2) = take (length y) (y ++ (c :: k0) ++ m3)) by (rewrite E; reflexivity).
      rewrite take_app_length, take_app_le in H by lia. exact H.
    - intros H. apply (f_equal length) in H. rewrite length_drop in H. simpl in H. lia. }
  destruct Ey as (z & -> & Hz). rewrite <- app_assoc in E. apply app_inv_head in E.
  destruct y as [|y0 y].
  - simpl in Ek. rewrite Ek, <- app_assoc in E. apply app_inv_head in E. destruct k2 as [|d k2]; [contradiction|].
    apply Hf. rewrite E. reflexivity.
  - destruct z as [|z0 z]; [contradiction|]. simpl in E, Ek. injection E as -> E. injection Ek as -> Ek.
    apply Hc. rewrite Ek. in_list.
Qed.

(** [strstr] returns an occurrence; if the first character of the pattern is not repeated in it,
    the first one, and NULL only if there is none. *)
Lemma strstr_done s a l b k :
  cstr s a l -> cstr s b k ->
  exists r, strstr a b s = Done r s /\
    ((exists l1, r = a + Z.of_nat (length l1) /\ occurs l k l1 /\
       (first k ∉ tail k -> forall m1, occurs l k m1 -> (length l1 <= length m1)%nat)) \/
     r = 0 /\ (first k ∉ tail k -> forall m1, ~ occurs l k m1)).
Proof.
  intros S T. unfold strstr, find_sub. rewrite (cstr_nonnull s a l _ S), (cstr_nonnull s b k _ T), (bind_done _ _ _ _ _ (cstr_char _ _ _ T)).
  destruct k as [|c k0]; cbn [first tail].
  { exists a. split; [reflexivity|]. left. exists []. split; [simpl; lia|]. split; [exists l; reflexivity|]. intros _ m1 _. simpl. lia. }
  rewrite (proj2 (cstr_next _ _ _ _ T)). cbn [negb]. pose proof (cs_end _ _ _ S). pose proof (cs_pos _ _ _ S).
  set (before := fun l1 : list Z => c ∉ k0 -> forall m1, occurs l (c :: k0) m1 -> (length l1 <= length m1)%nat).
  edestruct (fun body => loop_bounded body
    (fun n p s' => s' = s /\ exists l1 l2, l = l1 ++ l2 /\ p = a + Z.of_nat (length l1) /\ n = Z.of_nat (length l2) /\ before l1)
    (fun r s' => s' = s /\ ((exists l1, r = a + Z.of_nat (length l1) /\ occurs l (c :: k0) l1 /\ before l1) \/
       r = 0 /\ (c ∉ k0 -> forall m1, ~ occurs l (c :: k0) m1)))
    (Z.of_nat (length l)) a s) as (r & s' & E & -> & H1); [| | |eauto].
  - intros n p s' (-> & l1 & l2 & El & -> & -> & Hb). split; [lia|]. pose proof S as S1. rewrite El in S1. apply cstr_tail in S1.
    rewrite (bind_done _ _ _ _ _ (cstr_char _ _ _ S1)). destruct l2 as [|d l2]; cbn [first].
    { right. eexists 0, s. split; [reflexivity|]. split; [reflexivity|]. right. split; [reflexivity|]. intros Hc m1 Ho.
      pose proof (Hb Hc m1 Ho) as Hlen. destruct Ho as [m3 Ho]. apply (f_equal length) in Ho. rewrite El, app_nil_r, !length_app in Ho. simpl in Ho. lia. }
    rewrite (proj2 (cstr_next _ _ _ _ S1)). cbn [negb]. rewrite (bind_done _ _ _ _ _ (cstr_char _ _ _ T)). cbn [first].
    assert (Hr : (1 <= c < 256) /\ 1 <= d < 256).
    { pose proof (cs_range _ _ _ S1) as R1. pose proof (cs_range _ _ _ T) as R2. apply Forall_cons_1 in R1, R2. tauto. }
    rewrite schar_inj by lia. destruct (Z.eqb_spec d c) as [->|Hne].
    + destruct (match_done s _ _ b _ S1 T) as (x & l3 & k2 & E1 & E2 & H3 & Em). rewrite (bind_done _ _ _ _ _ Em).
      pose proof T as T1. rewrite E2 in T1. apply cstr_tail in T1. rewrite (bind_done _ _ _ _ _ (cstr_char _ _ _ T1)).
      destruct k2 as [|e k2]; cbn [first].
      * right. eexists _, s. split; [reflexivity|]. split; [reflexivity|]. left. exists l1. split; [reflexivity|]. split; [|exact Hb].
        exists l3. rewrite app_nil_r in E2. rewrite E2, El, E1. reflexivity.
      * left. rewrite (proj2 (cstr_next _ _ _ _ T1)). cbn [negb]. destruct H3 as [?|H3]; [discriminate|].
        assert (Hx : x <> []).
        { intros ->. simpl in E1, E2. injection E2 as -> _. rewrite <- E1 in H3. simpl in H3. contradiction. }
        eexists _, s, (Z.of_nat (length l3)). split; [reflexivity|].
        assert (Hxl : (0 < length x)%nat) by (destruct x; [contradiction|simpl; lia]).
        apply (f_equal length) in E1 as Elen. rewrite length_app in Elen. split; [|rewrite Elen; lia].
        split; [reflexivity|]. exists (l1 ++ x), l3. rewrite <- app_assoc, length_app, El, E1. csplit; trivial; try lia.
        intros Hc m1 Ho. apply (occurs_after l1 x l3 c k0 (e :: k2) m1); trivial; [discriminate| |apply Hb; trivial].
        rewrite <- E1, <- El. exact Ho.
    + left. eexists _, s, (Z.of_nat (length l2)). split; [reflexivity|]. split; [|simpl; lia]. split; [reflexivity|].
      exists (l1 ++ [d]), l2. rewrite <- app_assoc, next_pos. csplit; trivial. intros Hc m1 Ho. pose proof (Hb Hc m1 Ho) as Hlen.
      rewrite length_app. simpl. destruct (decide (length l1 = length m1)) as [Eq|]; [|lia]. exfalso. destruct Ho as [m3 Ho].
      rewrite El in Ho. apply app_inj_1 in Ho as [_ Ho]; [|exact Eq]. simpl in Ho. congruence.
  - split; [reflexivity|]. exists [], l. simpl. rewrite Z.add_0_r. csplit; trivial. intros _ m1 _. simpl. lia.
  - lia.
Qed.
