(* ===== verification/StdioProps.v ===== *)
(** * What streams deliver

    A stream with a descriptor is buffered: what the kernel has received, followed by what is in
    the buffer, is exactly what has been written, in order.  Streams that grow. *)

From Stdlib Require Import ZArith Lia Bool.
From stdpp Require Import base list numbers option gmap.
From S2P Require Import Prelude CMem MemOps Heap HeapProps CString CStringSpec Stdio.

Lemma bytes_snoc n m a : bytes_at (S n) m a = bytes_at n m a ++ [byte_at m (a + Z.of_nat n)].
Proof.
  revert a. induction n as [|n IH]; intros a; [cbn; rewrite Z.add_0_r; reflexivity|].
  change (bytes_at (S (S n)) m a) with (byte_at m a :: bytes_at (S n) m (a + 1)). rewrite IH. cbn [bytes_at app].
  replace (a + Z.of_nat (S n)) with (a + 1 + Z.of_nat n) by lia. reflexivity.
Qed.

Lemma bytes_length n m a : length (bytes_at n m a) = n.
Proof. revert a. induction n as [|n IH]; intros a; [reflexivity|]. cbn [bytes_at length]. rewrite IH. reflexivity. Qed.

Lemma bytes_ext n m m' a : (forall y, a <= y < a + Z.of_nat n -> byte_at m y = byte_at m' y) -> bytes_at n m a = bytes_at n m' a.
Proof.
  revert a. induction n as [|n IH]; intros a H; [reflexivity|]. cbn [bytes_at]. rewrite (H a) by lia. f_equal. apply IH. intros. apply H. lia.
Qed.

(** ** A stream with a descriptor *)

(** The stream [f] writes to the descriptor [fd] by a buffer of [mx] bytes at [b]; the kernel takes what it gets. *)
Record dev_stream (s : process) (f fd b mx p : Z) : Prop := {
  ds_file : exists F, io_files (p_io s) !! f = Some F /\ f_out F = mkiobuf fd p mx false b;
  ds_fd : 0 <= fd;
  ds_other : f <> stderr;
  ds_buffer : 0 < b;
  ds_pos : 0 <= p <= mx;
  ds_max : 0 < mx;
  ds_end : b + mx < 2 ^ 64;
  ds_mapped : mapped s b (b + mx);
  ds_accept : forall r l, io_accept (p_io s) fd r l = Z.of_nat (length l)
}.

(** What has been written: what the kernel has, then what waits in the buffer. *)
Definition written (s : process) (fd b p : Z) : list Z :=
  io_received (p_io s) fd ++ bytes_at (Z.to_nat p) (p_mem s) b.

(** Memory outside of the buffer is as before. *)
Definition apart (b mx : Z) (s s' : process) : Prop :=
  p_mapped s' = p_mapped s /\ forall y, y < b \/ b + mx <= y -> byte_at (p_mem s') y = byte_at (p_mem s) y.

Lemma apart_trans b mx s1 s2 s3 : apart b mx s1 s2 -> apart b mx s2 s3 -> apart b mx s1 s3.
Proof. intros [H1 H2] [H3 H4]. split; [congruence|]. intros y Hy. rewrite H4, H2 by exact Hy. reflexivity. Qed.

Section Device.
Context (f fd b mx : Z).

Lemma flush_dev s p : dev_stream s f fd b mx p -> exists s', bflush f s = Done 0 s' /\ dev_stream s' f fd b mx 0 /\
  io_received (p_io s') fd = written s fd b p /\ apart b mx s s'.
Proof.
  intros [(F & HF & HB) H1 H2 H3 H4 H5 H6 H7 H8]. unfold bflush.
  assert (G : forall B (k : FILE -> C B), (get_file f ≫= k) s = k F s) by (intros B k; apply bind_done; unfold get_file; rewrite HF; reflexivity).
  rewrite G. unfold needs_flush. rewrite HB. cbn [io_fd io_pos]. rewrite (proj2 (Z.leb_le 0 fd) H1). cbn [andb].
  destruct (Z.ltb_spec 0 p) as [Hp|Hp].
  - rewrite (proj2 (Z.eqb_neq _ _) H2). rewrite (bind_done (mret tt : C unit) _ _ tt _ eq_refl). unfold flush_out. rewrite G. rewrite HB.
    cbn [io_fd io_pos io_buffer set_pos io_max io_dynamic]. unfold put_file.
    rewrite (bind_done (modify _) _ _ tt (with_file f (set_out (mkiobuf fd 0 mx false b) F) s)) by reflexivity.
    set (s1 := with_file f _ s). unfold write.
    assert (Hall : all_mapped (p_mapped s1) b (Z.to_nat p) = true) by (apply all_mapped_spec; intros y Hy; apply H7; lia).
    assert (Hacc : forall r l, io_accept (p_io s1) fd r l = Z.of_nat (length l)) by exact H8.
    unfold mbind, C_bind. cbv zeta. rewrite Hall, Hacc, bytes_length, (proj2 (Z.ltb_ge _ 0)) by lia.
    eexists. split; [reflexivity|]. split; [|split].
    + split; trivial; try lia. eexists. split; [apply lookup_insert_eq|reflexivity].
    + cbn [p_io set_io io_received set_received]. rewrite upd_same, take_ge by (rewrite bytes_length; lia). reflexivity.
    + split; reflexivity.
  - assert (p = 0) as -> by lia. eexists. split; [reflexivity|]. split; [split; trivial; eauto|]. split; [|split; reflexivity].
    unfold written. cbn. rewrite app_nil_r. reflexivity.
Qed.

(** Room in the buffer for a character. *)
Lemma append_dev s p c : dev_stream s f fd b mx p -> p < mx -> exists s', append f c s = Done tt s' /\ dev_stream s' f fd b mx (p + 1) /\
  written s' fd b (p + 1) = written s fd b p ++ [wrap8 c] /\ apart b mx s s'.
Proof.
  intros [(F & HF & HB) H1 H2 H3 H4 H5 H6 H7 H8] Hp. unfold append.
  rewrite (bind_done (get_file f) _ s F s) by (unfold get_file; rewrite HF; reflexivity). rewrite HB.
  cbn [io_fd io_pos io_buffer set_pos io_max io_dynamic]. unfold put_file. rewrite wrap_small by (unfold is_word; lia).
  rewrite (bind_done (modify _) _ _ tt (with_file f (set_out (mkiobuf fd (p + 1) mx false b) F) s)) by reflexivity.
  rewrite store_done by (intros y Hy; apply H7; lia). eexists. split; [reflexivity|]. split; [|split].
  - split; trivial; try lia. eexists. split; [apply lookup_insert_eq|reflexivity].
  - unfold written. cbn [p_mem p_io set_mem with_file set_io]. replace (Z.to_nat (p + 1)) with (S (Z.to_nat p)) by lia.
    rewrite bytes_snoc, app_assoc, Z2Nat.id by lia. f_equal.
    + f_equal. apply bytes_ext. intros y Hy. apply byte_put_other. lia.
    + rewrite byte_put1, Z.eqb_refl. reflexivity.
  - split; [reflexivity|]. intros y Hy. apply byte_put_other. lia.
Qed.

Lemma bputc_dev s p c : dev_stream s f fd b mx p -> exists s' p', bputc f c s = Done (wrap8 c) s' /\ dev_stream s' f fd b mx p' /\
  written s' fd b p' = written s fd b p ++ [wrap8 c] /\ apart b mx s s'.
Proof.
  intros D. pose proof D as [(F & HF & HB) H1 H2 H3 H4 H5 H6 H7 H8]. unfold bputc.
  rewrite (bind_done (get_file f) _ s F s) by (unfold get_file; rewrite HF; reflexivity). rewrite HB. cbn [io_fd io_pos io_buffer io_max].
  rewrite (proj2 (Z.eqb_neq b 0)), (proj2 (Z.leb_le 0 fd) H1) by lia. unfold reterr.
  assert (R : exists s1 p1, (if mx <=? p then bflush f else mret 0) s = Done 0 s1 /\ dev_stream s1 f fd b mx p1 /\ p1 < mx /\
    written s1 fd b p1 = written s fd b p /\ apart b mx s s1).
  { destruct (Z.leb_spec mx p).
    - destruct (flush_dev s p D) as (s1 & E1 & D1 & W1 & A1). exists s1, 0. csplit; trivial.
      unfold written at 1. cbn [Z.to_nat bytes_at]. rewrite app_nil_r. exact W1.
    - exists s, p. csplit; trivial. split; reflexivity. }
  destruct R as (s1 & p1 & E1 & D1 & Hp1 & W1 & A1). rewrite (bind_done _ _ _ _ _ E1). change (0 <? 0) with false. cbv iota.
  destruct (append_dev s1 p1 c D1 Hp1) as (s2 & E2 & D2 & W2 & A2). rewrite (bind_done _ _ _ _ _ E2).
  rewrite (proj2 (Z.eqb_neq _ _) H2). cbn [andb]. exists s2, (p1 + 1). split; [reflexivity|]. split; [exact D2|].
  split; [rewrite W2, W1; reflexivity|apply (apart_trans _ _ _ s1); trivial].
Qed.

Lemma apart_cstr s s' a l : apart b mx s s' -> cstr s a l -> a + Z.of_nat (length l) < b \/ b + mx <= a -> cstr s' a l.
Proof.
  intros [M A] [C1 C2 C3 C4 C5 C6] Ha. split; trivial.
  - intros y Hy. rewrite M. apply C3, Hy.
  - intros i c Hi. pose proof (lookup_lt_Some _ _ _ Hi). rewrite A by lia. apply C5, Hi.
  - rewrite A by lia. exact C6.
Qed.

Lemma fputs_dev s p str l : dev_stream s f fd b mx p -> cstr s str l -> str + Z.of_nat (length l) < b \/ b + mx <= str ->
  exists s' p', fputs str f s = Done (signed 32 (wrap32 (Z.of_nat (length l)))) s' /\ dev_stream s' f fd b mx p' /\
    written s' fd b p' = written s fd b p ++ l /\ apart b mx s s'.
Proof.
  intros D Sl Ho. unfold fputs, bputs. change (negb (-1 =? -1)) with false. cbv iota.
  pose proof (cs_end _ _ _ Sl). pose proof (cs_pos _ _ _ Sl).
  edestruct (fun body => loop_bounded body
    (fun n q s1 => exists l1 l2 p1, l = l1 ++ l2 /\ q = str + Z.of_nat (length l1) /\ n = Z.of_nat (length l2) /\
       dev_stream s1 f fd b mx p1 /\ written s1 fd b p1 = written s fd b p ++ l1 /\ apart b mx s s1)
    (fun r s1 => r = signed 32 (wrap32 (Z.of_nat (length l))) /\ exists p1, dev_stream s1 f fd b mx p1 /\ written s1 fd b p1 = written s fd b p ++ l /\ apart b mx s s1)
    (Z.of_nat (length l)) str s) as (r & s' & E & -> & p' & D' & W' & A'); [| |lia|eauto 10].
  - intros n q s1 (l1 & l2 & p1 & El & -> & -> & D1 & W1 & A1). split; [lia|].
    pose proof (apart_cstr s s1 str l A1 Sl Ho) as S1. rewrite El in S1. apply cstr_tail in S1.
    destruct l2 as [|c l2]; read_char S1.
    + right. eexists _, s1. split; [reflexivity|]. rewrite app_nil_r in El. subst l1. split; [rewrite Z.add_simpl_l; reflexivity|eauto].
    + left. destruct (bputc_dev s1 p1 (schar c) D1) as (s2 & p2 & E2 & D2 & W2 & A2). unfold reterr. rewrite (bind_done _ _ _ _ _ E2).
      pose proof (wrap_range 8 (schar c) ltac:(lia)) as Hr. unfold is_word in Hr. rewrite (proj2 (Z.ltb_ge _ 0)) by lia.
      eexists _, s2, (Z.of_nat (length l2)). split; [reflexivity|]. split; [|cbn [length]; lia].
      exists (l1 ++ [c]), l2, p2. csplit; trivial.
      * rewrite <- app_assoc. exact El.
      * rewrite next_pos. reflexivity.
      * rewrite W2, W1, <- app_assoc. do 2 f_equal. f_equal. apply schar_byte.
        pose proof (cs_range _ _ _ S1) as Hc. apply Forall_cons_1 in Hc as [Hc _]. lia.
      * apply (apart_trans _ _ _ s1); trivial.
  - exists [], l, p. rewrite app_nil_r. csplit; trivial; [cbn [length]; lia|split; reflexivity].
Qed.
End Device.

(** C34: Buffering is invisible: [fputs] on a stream with a descriptor and then [fflush] make the kernel receive
    exactly what was in the buffer before, followed by the characters of the string, whatever the size of the buffer
    and its filling, provided that the kernel accepts what it is given.  No other memory changes. *)
Theorem fputs_delivers s f fd b mx p str l :
  dev_stream s f fd b mx p -> cstr s str l -> (str + Z.of_nat (length l) < b \/ b + mx <= str) ->
  exists s1 s2, fputs str f s = Done (signed 32 (wrap32 (Z.of_nat (length l)))) s1 /\ fflush f s1 = Done 0 s2 /\
    io_received (p_io s2) fd = io_received (p_io s) fd ++ bytes_at (Z.to_nat p) (p_mem s) b ++ l /\ apart b mx s s2.
Proof.
  intros D Sl Ho. destruct (fputs_dev f fd b mx s p str l D Sl Ho) as (s1 & p1 & E1 & D1 & W1 & A1).
  destruct (flush_dev f fd b mx s1 p1 D1) as (s2 & E2 & D2 & W2 & A2). exists s1, s2. csplit; trivial.
  - rewrite W2, W1. unfold written. rewrite app_assoc. reflexivity.
  - apply (apart_trans _ _ _ s1); trivial.
Qed.

(** The standard output with a buffer of four bytes, one of which is in use. *)
Definition sample_stdout : process :=
  with_file stdout (mkfile O_WRITE false 0 0 no_buffer (mkiobuf 1 1 4 false 7000) 0 0) (page_process [104; 101; 108; 108; 111; 0]).

Lemma fputs_delivers_witness :
  exists s1 s2, fputs 4096 stdout sample_stdout = Done 5 s1 /\ fflush stdout s1 = Done 0 s2 /\
    io_received (p_io s2) 1 = [0; 104; 101; 108; 108; 111] /\ apart 7000 4 sample_stdout s2.
Proof.
  apply (fputs_delivers sample_stdout stdout 1 7000 4 1 4096 [104; 101; 108; 108; 111]).
  - split; try lia; try discriminate; [|intros y Hy; apply (page_mapped [] 4096 8192); lia|reflexivity].
    eexists. split; [reflexivity|reflexivity].
  - split; try lia; try reflexivity.
    + intros y Hy. apply (page_mapped [] 4096 8192); cbn [length] in *; lia.
    + repeat constructor; lia.
    + intros i c Hi. repeat (destruct i as [|i]; [injection Hi as <-; reflexivity|]). discriminate.
  - left. cbn [length]. lia.
Defined.

(** A string stream that grows: after [n] characters its text is taken, and its buffer is freed. *)
Definition grow_and_free (n : nat) : C unit :=
  f ← fopendyn;
  loop (fun k => if 0 <? k then fputc 97 f;; mret (Next (k - 1)) else mret (Break tt)) (Z.of_nat n);;
  buf ← fgetbuf f 0;
  free buf.

(** [fgetbuf] terminates a text that fills the buffer behind its end: with 256 characters it overwrites the word that
    guards the block, and the next [free] ends the program; 255 characters are fine. *)
Theorem fgetbuf_overruns :
  match grow_and_free 255 (example_process (2 ^ 20)) with Done _ _ => True | Bad _ => False end /\
  grow_and_free 256 (example_process (2 ^ 20)) = Bad AssertFail.
Proof. split; vm_compute; [exact I|reflexivity]. Qed.
