(* ===== verification/Number.v ===== *)
(** * Numbers as strings

    [itoa] and the [strto*] and [ato*] functions of lib/basic/string and the widths of
    lib/basic/width: writing a number in decimal and reading it back. *)

From Stdlib Require Import ZArith Lia Bool.
From stdpp Require Import base list numbers option sets.
From S2P Require Import Prelude CMem MemOps Heap CString CStringSpec.

Definition to_int (x : Z) : Z := signed 32 (wrap32 x).
Definition to_long (x : Z) : Z := signed 64 (wrap64 x).

(** ** The functions *)

Definition getnwidth (n : Z) : C Z :=
  let '(width, n) := if n <? 0 then (2, to_int (- n)) else (1, n) in
  loop (fun '(n, width) =>
    if 10 <=? n then mret (Next (Z.quot n 10, width + 1)) else mret (Break width)) (n, width).

Definition getllwidth (l : Z) : C Z :=
  let '(c, l) := if l <? 0 then (1, to_long (- l)) else (0, l) in
  c ← loop (fun '(l, c) =>
    if 10 <=? l then mret (Next (Z.quot l 10, c + 1)) else mret (Break c)) (l, c);
  mret (c + 1).

Definition getuwidth (n base : Z) : C Z :=
  loop (fun '(n, width) =>
    if base <=? n then mret (Next (n / base, width + 1)) else mret (Break width)) (n, 1).

(** The same loop on 64-bit numbers. *)
Definition getullwidth (n base : Z) : C Z :=
  loop (fun '(n, width) =>
    if base <=? n then mret (Next (n / base, width + 1)) else mret (Break width)) (n, 1).

Definition itoa (target targetSize n : Z) : C Z :=
  nonnull target;;
  vassert (12 <=? targetSize);;
  '(s, a, n) ← (if n <? 0 then store8 target 45;; mret (target + 1, target + 1, n)
    else if n =? 0 then store8 target 48;; mret (target + 1, target, n)
    else mret (target, target, - n));
  s ← loop (fun '(s, n) =>
    if n <? 0 then
      store8 s (- Z.rem n 10 + 48);;
      mret (Next (s + 1, Z.quot n 10))
    else mret (Break s)) (s, n);
  store8 s 0;;
  loop (fun '(a, b) =>
    if a <? b then
      t ← load_char a;
      u ← load_char b;
      store8 a u;;
      store8 b t;;
      mret (Next (a + 1, b - 1))
    else mret (Break tt)) (a, s - 1);;
  mret (s - target).

(** The value of the character [c], if it is a digit in the given base. *)
Definition digit_in (base c : Z) : C (option Z) :=
  let lc := tolower c in
  dig ← isdigit c;
  aln ← isalnum c;
  mret (if (base <=? 10) && (negb dig || (base <=? c - 48)) then None
        else if (10 <? base) && (negb aln || (negb dig && (base - 10 <=? lc - 97))) then None
        else if 97 <=? lc then Some (lc - 97 + 10) else Some (c - 48)).

(** Sign and prefix of a number. *)
Definition read_sign (nptr : Z) : C (bool * Z) :=
  c ← load_char nptr;
  mret (if c =? 45 then (true, nptr + 1) else if c =? 43 then (false, nptr + 1) else (false, nptr)).

Definition read_base (nptr base : Z) : C (Z * Z) :=
  '(nptr, base) ← (if (base =? 16) || (base =? 0) then
      c0 ← load_char nptr;
      if c0 =? 48 then
        c1 ← load_char (nptr + 1);
        if c1 =? 120 then mret (nptr + 2, 16)
        else if base =? 0 then mret (nptr + 1, 8) else mret (nptr, base)
      else mret (nptr, base)
    else mret (nptr, base));
  mret (nptr, if base =? 0 then 10 else base).

Definition strtol (nptr endptr base : Z) : C Z :=
  nonnull nptr;;
  vassert ((base =? 0) || ((2 <=? base) && (base <=? 36)));;
  nptr ← loop (fun p =>
    c ← load_char p;
    b ← isspace c;
    if b : bool then mret (Next (p + 1)) else mret (Break p)) nptr;
  '(neg, nptr) ← read_sign nptr;
  '(nptr, base) ← read_base nptr base;
  '(nptr, i) ← loop (fun '(p, i) =>
    c ← load_char p;
    if negb (truth c) then mret (Break (p, i)) else
    d ← digit_in base c;
    match d with
    | Some d => mret (Next (p + 1, to_long (i * base + d)))
    | None => mret (Break (p, i))
    end) (nptr, 0);
  let i := if neg : bool then to_long (- i) else i in
  (if truth endptr then store64 endptr nptr else mret tt);;
  mret i.

(** [llong] is as wide as [long]. *)
Definition strtoll (nptr endptr base : Z) : C Z := strtol nptr endptr base.
Definition strtoul (nptr endptr base : Z) : C Z := i ← strtol nptr endptr base; mret (wrap64 i).
Definition strtoull (nptr endptr base : Z) : C Z := i ← strtoll nptr endptr base; mret (wrap64 i).
Definition atoi (nptr : Z) : C Z := i ← strtol nptr 0 10; mret (to_int i).
Definition atol (nptr : Z) : C Z := atoi nptr.
Definition atoll (nptr : Z) : C Z := strtoll nptr 0 10.

(** ** Decimal numbers *)

(** The value of digits, the most significant first. *)
Definition value (ds : list Z) : Z := fold_left (fun x d => 10 * x + d) ds 0.

Lemma value_snoc ds d : value (ds ++ [d]) = 10 * value ds + d.
Proof. unfold value. rewrite fold_left_app. reflexivity. Qed.

(** [ds] are the digits of [n], without leading zeros. *)
Record decimal (n : Z) (ds : list Z) : Prop := {
  dc_digits : Forall (fun d => 0 <= d <= 9) ds;
  dc_value : value ds = n;
  dc_lead : first ds <> 0 \/ ds = [0]
}.

(** The characters of a number. *)
Definition numeral (n : Z) (ds : list Z) : list Z := (if n <? 0 then [45] else []) ++ (Z.add 48 <$> ds).

Lemma value_cons d ds : value (d :: ds) = d * 10 ^ Z.of_nat (length ds) + value ds.
Proof.
  induction ds as [|e ds IH] using rev_ind; [simpl; unfold value; simpl; lia|].
  rewrite app_comm_cons, !value_snoc, IH, length_app. simpl length.
  replace (Z.of_nat (length ds + 1)) with (Z.of_nat (length ds) + 1) by lia. rewrite Z.pow_add_r by lia. lia.
Qed.

(** ** Writing *)

(** From [st] on the bytes [l] have been written. *)
Definition wrote (m0 m : arr) (st : Z) (l : list Z) : Prop :=
  (forall i c, l !! i = Some c -> byte_at m (st + Z.of_nat i) = c) /\
  (forall y, y < st \/ st + Z.of_nat (length l) <= y -> byte_at m y = byte_at m0 y).

Lemma wrote_nil m st : wrote m m st [].
Proof. split; [discriminate 1|reflexivity]. Qed.

Lemma wrote_snoc m0 m st l c : wrote m0 m st l -> 0 <= c < 256 -> wrote m0 (put 1 (st + Z.of_nat (length l)) c m) st (l ++ [c]).
Proof.
  intros [H1 H2] Hc. split.
  - intros i d Hi. rewrite byte_put1. destruct (Z.eqb_spec (st + Z.of_nat i) (st + Z.of_nat (length l))) as [E|E].
    + replace i with (length l) in Hi by lia. rewrite lookup_app_r, Nat.sub_diag in Hi by lia. injection Hi as <-. apply wrap_small. exact Hc.
    + apply H1. rewrite lookup_app_l in Hi; [exact Hi|]. apply lookup_lt_Some in Hi. rewrite length_app in Hi. simpl in Hi. lia.
  - intros y Hy. rewrite length_app in Hy. simpl in Hy. rewrite byte_put_other by lia. apply H2. lia.
Qed.

Lemma wrote_one m st c : 0 <= c < 256 -> wrote m (put 1 st c m) st [c].
Proof. intros Hc. pose proof (wrote_snoc m m st [] c (wrote_nil m st) Hc) as H. simpl in H. rewrite Z.add_0_r in H. exact H. Qed.

Lemma wrote_trans m0 m1 m2 st l l' : wrote m0 m1 st l -> wrote m1 m2 (st + Z.of_nat (length l)) l' -> wrote m0 m2 st (l ++ l').
Proof.
  intros [H1 H2] [H3 H4]. split.
  - intros i c Hi. destruct (decide (i < length l)%nat).
    + rewrite lookup_app_l in Hi by lia. rewrite H4 by lia. apply H1, Hi.
    + rewrite lookup_app_r in Hi by lia. rewrite <- (H3 _ _ Hi). f_equal. lia.
  - intros y Hy. rewrite length_app in Hy. rewrite H4, H2 by lia. reflexivity.
Qed.

(** The digits, the last one first. *)
Lemma digits_loop s st N :
  0 < N <= 2 ^ 31 -> mapped s st (st + 10) ->
  exists ds m, loop (fun '(s, n) =>
      if n <? 0 then
        store8 s (- Z.rem n 10 + 48);;
        mret (Next (s + 1, Z.quot n 10))
      else mret (Break s)) (st, - N) s = Done (st + Z.of_nat (length ds)) (set_mem m s) /\
    decimal N ds /\ (length ds <= 10)%nat /\ wrote (p_mem s) m st ((Z.add 48 <$> reverse ds)).
Proof.
  intros HN Hm. edestruct (fun body => loop_bounded body
    (fun k '(p, n) s' => exists ds m, s' = set_mem m s /\ p = st + Z.of_nat (length ds) /\ k = - n /\ 0 <= - n /\
       Forall (fun d => 0 <= d <= 9) ds /\ N = - n * 10 ^ Z.of_nat (length ds) + value ds /\ 0 <= value ds /\
       (n = 0 -> first ds <> 0) /\ (length ds <= 10)%nat /\ wrote (p_mem s) m st ((Z.add 48 <$> reverse ds)))
    (fun p s' => exists ds m, s' = set_mem m s /\ p = st + Z.of_nat (length ds) /\ decimal N ds /\ (length ds <= 10)%nat /\
       wrote (p_mem s) m st ((Z.add 48 <$> reverse ds)))
    N (st, - N) s) as (p & s' & E & ds & m & -> & -> & H1 & H2 & H3); [| | |eauto 10].
  - intros k [p n] s' (ds & m & -> & -> & -> & Hn & Hd & HV & Hv & Hf & Hlen & Hw). split; [exact Hn|].
    destruct (Z.ltb_spec n 0) as [Hneg|Hz].
    + left. pose proof (Z.pow_pos_nonneg 10 (Z.of_nat (length ds)) ltac:(lia) ltac:(lia)) as Hp.
      assert (Hl9 : (length ds <= 9)%nat).
      { destruct (decide (length ds <= 9)%nat); [trivial|]. exfalso.
        assert (10 ^ 10 <= 10 ^ Z.of_nat (length ds)) by (apply Z.pow_le_mono_r; lia). nia. }
      set (d := (- n) mod 10). assert (Hdd : 0 <= d <= 9) by (unfold d; Z.div_mod_to_equations; lia).
      assert (Er : - Z.rem n 10 + 48 = 48 + d).
      { unfold d. rewrite <- (Z.opp_involutive n) at 1. rewrite Z.rem_opp_l, Z.opp_involutive, Z.rem_mod_nonneg by lia. lia. }
      assert (Eq : Z.quot n 10 = - ((- n) / 10)).
      { rewrite <- (Z.opp_involutive n) at 1. rewrite Z.quot_opp_l, Z.quot_div_nonneg by lia. reflexivity. }
      rewrite Er, Eq, (bind_done _ _ _ _ _ (store_done 1 (st + Z.of_nat (length ds)) (48 + d) (set_mem m s) ltac:(intros y Hy; apply Hm; lia))).
      eexists _, _, ((- n) / 10). split; [reflexivity|]. split; [|Z.div_mod_to_equations; lia].
      exists (d :: ds), (put 1 (st + Z.of_nat (length ds)) (48 + d) m). split; [reflexivity|]. cbn [length].
      rewrite value_cons. replace (Z.of_nat (S (length ds))) with (Z.of_nat (length ds) + 1) by lia.
      rewrite Z.pow_add_r by lia. csplit; try lia.
      * Z.div_mod_to_equations; lia.
      * constructor; trivial.
      * rewrite HV. unfold d. replace (- n) with (10 * (- n / 10) + - n mod 10) at 1 by (Z.div_mod_to_equations; lia). rewrite Z.opp_involutive. nia.
      * intros H0. simpl. unfold d. Z.div_mod_to_equations; lia.
      * rewrite reverse_cons, fmap_app. change (Z.add 48 <$> [d]) with [48 + d].
        rewrite <- (length_reverse ds), <- (length_fmap (Z.add 48)). apply wrote_snoc; [exact Hw|lia].
    + right. assert (n = 0) by lia. subst n. eexists _, _. split; [reflexivity|]. exists ds, m. csplit; trivial.
      split; trivial; [lia|left; auto].
  - exists [], (p_mem s). rewrite set_mem_mem. simpl. unfold value. simpl. csplit; trivial; try lia. apply wrote_nil.
  - lia.
Qed.

(** Reversing the bytes from [a] to [b]. *)
Lemma reverse_done s a b :
  a <= b + 1 -> b + 1 < 2 ^ 64 -> 0 <= a -> mapped s a (b + 1) ->
  exists m, loop (fun '(a, b) =>
      if a <? b then
        t ← load_char a;
        u ← load_char b;
        store8 a u;;
        store8 b t;;
        mret (Next (a + 1, b - 1))
      else mret (Break tt)) (a, b) s = Done tt (set_mem m s) /\
    forall y, byte_at m y = if (a <=? y) && (y <=? b) then byte_at (p_mem s) (a + b - y) else byte_at (p_mem s) y.
Proof.
  intros Hab Hb64 Ha Hm.
  edestruct (fun body => loop_bounded body
    (fun k '(p, q) s' => exists m, s' = set_mem m s /\ p + q = a + b /\ a <= p /\ p <= q + 1 /\ k = q - p + 1 /\
       forall y, byte_at m y = if (a <=? y) && (y <=? b) && negb ((p <=? y) && (y <=? q)) then byte_at (p_mem s) (a + b - y) else byte_at (p_mem s) y)
    (fun (_ : unit) s' => exists m, s' = set_mem m s /\
       forall y, byte_at m y = if (a <=? y) && (y <=? b) then byte_at (p_mem s) (a + b - y) else byte_at (p_mem s) y)
    (b - a + 1) (a, b) s) as ([] & s' & E & m & -> & H); [| | |eauto].
  - intros k [p q] s' (m & -> & Hpq & Hp & Hle & -> & Hy). split; [lia|]. destruct (Z.ltb_spec p q) as [Hlt|Hge].
    + left. pose proof (load_char_done (set_mem m s) p ltac:(apply Hm; lia)) as L1. pose proof (load_char_done (set_mem m s) q ltac:(apply Hm; lia)) as L2.
      simpl in L1, L2. rewrite (bind_done _ _ _ _ _ L1), (bind_done _ _ _ _ _ L2).
      rewrite (bind_store 1 p) by (intros y Hy'; apply Hm; lia). rewrite (bind_store 1 q) by (intros y Hy'; apply Hm; lia).
      eexists _, _, (q - 1 - (p + 1) + 1). split; [reflexivity|]. split; [|lia]. eexists. split; [reflexivity|]. csplit; try lia; try reflexivity.
      intros y. simpl. rewrite !byte_put1, !schar_byte by apply byte_range.
      rewrite (Hy p), (Hy q), (Hy y).
      destruct (Z.eqb_spec y q), (Z.eqb_spec y p); try lia.
      all: repeat match goal with |- context [?x <=? ?y] => destruct (Z.leb_spec x y); try lia end; cbn [andb negb]; trivial; f_equal; lia.
    + right. eexists tt, _. split; [reflexivity|]. exists m. split; [reflexivity|]. intros y. rewrite Hy.
      repeat match goal with |- context [?x <=? ?y] => destruct (Z.leb_spec x y); try lia end; cbn [andb negb]; trivial; f_equal; lia.
  - exists (p_mem s). rewrite set_mem_mem. csplit; trivial; try lia. intros y.
    destruct ((a <=? y) && (y <=? b)); reflexivity.
  - lia.
Qed.

(** The end of [itoa]: the zero, and the digits in their order. *)
Lemma itoa_finish s m0 target (pre ds : list Z) :
  0 < target -> target + 12 <= 2 ^ 64 -> mapped s target (target + 12) -> (length pre <= 1)%nat -> (1 <= length ds <= 10)%nat ->
  Forall (fun c => 1 <= c < 256) pre -> Forall (fun d => 0 <= d <= 9) ds ->
  wrote m0 (p_mem s) target (pre ++ (Z.add 48 <$> reverse ds)) ->
  let a := target + Z.of_nat (length pre) in
  let e := a + Z.of_nat (length ds) in
  exists m, (store8 e 0;;
    loop (fun '(a, b) =>
      if a <? b then
        t ← load_char a;
        u ← load_char b;
        store8 a u;;
        store8 b t;;
        mret (Next (a + 1, b - 1))
      else mret (Break tt)) (a, e - 1);;
    mret (e - target)) s = Done (e - target) (set_mem m s) /\
    cstr (set_mem m s) target (pre ++ (Z.add 48 <$> ds)) /\
    forall y, y < target \/ target + 12 <= y -> byte_at m y = byte_at m0 y.
Proof.
  intros Ht He Hm Hp Hd HP HD [W1 W2] a e.
  assert (Ea : a = target + Z.of_nat (length pre)) by reflexivity. assert (Ee : e = a + Z.of_nat (length ds)) by reflexivity. clearbody a e.
  rewrite length_app, length_fmap, length_reverse in W2.
  rewrite (bind_store 1 e) by (intros y Hy; apply Hm; lia). set (s1 := set_mem (put 1 e 0 (p_mem s)) s).
  destruct (reverse_done s1 a (e - 1) ltac:(lia) ltac:(lia) ltac:(lia) ltac:(intros y Hy; apply Hm; lia)) as (m & E & Hy).
  rewrite (bind_done _ _ _ _ _ E). exists m. split; [reflexivity|]. simpl in Hy.
  assert (Hin : forall y, a <= y < e -> byte_at m y = byte_at (p_mem s) (a + (e - 1) - y)).
  { intros y Hr. rewrite Hy, (proj2 (Z.leb_le a y)), (proj2 (Z.leb_le y (e - 1))) by lia. simpl. apply byte_put_other. lia. }
  assert (Hout : forall y, y < a \/ e < y -> byte_at m y = byte_at (p_mem s) y).
  { intros y Hr. rewrite Hy. destruct (Z.leb_spec a y), (Z.leb_spec y (e - 1)); simpl; try lia; apply byte_put_other; lia. }
  split; [split; simpl; rewrite ?length_app, ?length_fmap; try lia|].
  - intros y Hr. apply Hm. lia.
  - apply Forall_app. split; [exact HP|]. apply Forall_fmap. eapply Forall_impl; [exact HD|]. intros d Hdd. unfold compose. cbv beta in *. lia.
  - intros i c Hi. pose proof (lookup_lt_Some _ _ _ Hi) as Hl. rewrite length_app, length_fmap in Hl.
    destruct (decide (i < length pre)%nat) as [Hlt|Hge].
    + rewrite Hout by lia. apply W1. rewrite lookup_app_l in Hi |- * by lia. exact Hi.
    + rewrite Hin by lia. set (j := (length ds - S (i - length pre))%nat).
      replace (a + (e - 1) - (target + Z.of_nat i)) with (target + Z.of_nat (length pre + j)) by lia.
      apply W1. rewrite lookup_app_r in Hi |- * by lia. replace (length pre + j - length pre)%nat with j by lia.
      rewrite list_lookup_fmap in Hi |- *. rewrite reverse_lookup by lia.
      replace (length ds - S j)%nat with (i - length pre)%nat by lia. exact Hi.
  - replace (target + Z.of_nat (length pre + length ds)) with e by lia. rewrite Hy.
    rewrite (proj2 (Z.leb_gt e (e - 1))), andb_false_r by lia. rewrite byte_put1, Z.eqb_refl. reflexivity.
  - intros y Hr. rewrite Hout by lia. apply W2. lia.
Qed.

Lemma itoa_done s target size n :
  - 2 ^ 31 <= n < 2 ^ 31 -> 0 < target -> target + 12 <= 2 ^ 64 -> 12 <= size -> mapped s target (target + 12) ->
  exists ds m, itoa target size n s = Done (Z.of_nat (length (numeral n ds))) (set_mem m s) /\ decimal (Z.abs n) ds /\
    cstr (set_mem m s) target (numeral n ds) /\ (length ds <= 10)%nat /\
    forall y, y < target \/ target + 12 <= y -> byte_at m y = byte_at (p_mem s) y.
Proof.
  intros Hn Ht He Hs Hm. unfold itoa. rewrite nonnull_done by exact Ht. rewrite bind_vassert by (apply Z.leb_le; exact Hs).
  unfold numeral. destruct (Z.ltb_spec n 0) as [Hneg|Hpos]; [|destruct (Z.eqb_spec n 0) as [->|Hnz]].
  - assert (E0 : (store8 target 45;; mret (target + 1, target + 1, n)) s = Done (target + 1, target + 1, n) (set_mem (put 1 target 45 (p_mem s)) s)).
    { rewrite (bind_store 1 target) by (intros y Hy; apply Hm; lia). reflexivity. }
    rewrite (bind_done _ _ _ _ _ E0). set (s1 := set_mem _ s).
    destruct (digits_loop s1 (target + 1) (- n) ltac:(lia) ltac:(intros y Hy; apply Hm; lia)) as (ds & m & E & Hd & Hl & Hw).
    rewrite Z.opp_involutive in E. rewrite (bind_done _ _ _ _ _ E).
    assert (W : wrote (p_mem s) m target ([45] ++ (Z.add 48 <$> reverse ds))).
    { apply (wrote_trans _ (p_mem s1)); [|exact Hw]. apply wrote_one. lia. }
    destruct (itoa_finish (set_mem m s) (p_mem s) target [45] ds) as (m' & E' & Hc & Ho); trivial; simpl length; try lia.
    { destruct Hd as [_ _ [Hf| ->]]; [|simpl; lia]. destruct ds; [contradiction|simpl in *; lia]. }
    { constructor; [lia|constructor]. }
    { apply Hd. }
    exists ds, m'. replace (Z.abs n) with (- n) by lia. split; [|auto].
    refine (eq_trans E' _). rewrite length_fmap. simpl length. f_equal. lia.
  - assert (E0 : (store8 target 48;; mret (target + 1, target, 0)) s = Done (target + 1, target, 0) (set_mem (put 1 target 48 (p_mem s)) s)).
    { rewrite (bind_store 1 target) by (intros y Hy; apply Hm; lia). reflexivity. }
    rewrite (bind_done _ _ _ _ _ E0). set (s1 := set_mem _ s).
    rewrite (bind_done _ _ s1 (target + 1) s1).
    2:{ apply (loop_iter _ 1%nat); [|lia]. apply iter_break. reflexivity. }
    assert (W : wrote (p_mem s) (p_mem s1) target ([] ++ (Z.add 48 <$> reverse [0]))).
    { apply wrote_one. lia. }
    destruct (itoa_finish s1 (p_mem s) target [] [0]) as (m' & E' & Hc & Ho); trivial; simpl length; try lia.
    { constructor; [lia|constructor]. }
    simpl in E', Hc. rewrite Z.add_0_r in E'. exists [0], m'. split; [refine (eq_trans E' _); simpl; f_equal; lia|].
    split; [split; [constructor; [lia|constructor]|reflexivity|auto]|]. split; [exact Hc|]. split; [simpl; lia|exact Ho].
  - rewrite (bind_done (mret (target, target, - n)) _ s _ s eq_refl).
    destruct (digits_loop s target n ltac:(lia) ltac:(intros y Hy; apply Hm; lia)) as (ds & m & E & Hd & Hl & Hw).
    rewrite (bind_done _ _ _ _ _ E).
    destruct (itoa_finish (set_mem m s) (p_mem s) target [] ds) as (m' & E' & Hc & Ho); trivial; simpl length; try lia.
    { destruct Hd as [_ _ [Hf| ->]]; [|simpl; lia]. destruct ds; [contradiction|simpl in *; lia]. }
    { apply Hd. }
    simpl in E', Hc. rewrite Z.add_0_r in E'. exists ds, m'. replace (Z.abs n) with n by lia. split; [|auto].
    refine (eq_trans E' _). simpl. rewrite length_fmap. f_equal. lia.
Qed.

(** ** Reading *)

Lemma value_nonneg ds : Forall (fun d => 0 <= d <= 9) ds -> 0 <= value ds.
Proof.
  induction ds as [|d ds IH] using rev_ind; intros H; [reflexivity|].
  apply Forall_app in H as [H1 H2]. apply Forall_cons_1 in H2 as [H2 _]. rewrite value_snoc. specialize (IH H1). lia.
Qed.

(** The value of a prefix is not larger. *)
Lemma value_prefix ds es : Forall (fun d => 0 <= d <= 9) (ds ++ es) -> value ds <= value (ds ++ es).
Proof.
  induction es as [|e es IH] using rev_ind; intros H; [rewrite app_nil_r; lia|]. rewrite app_assoc in H |- *.
  rewrite value_snoc. apply Forall_app in H as [H1 H2]. apply Forall_cons_1 in H2 as [H2 _]. specialize (IH H1).
  pose proof (value_nonneg _ H1). lia.
Qed.

(** The digits are digits, and neither they nor a sign are blank. *)
Lemma digit_class d s : 0 <= d <= 9 ->
  schar (48 + d) = 48 + d /\ digit_in 10 (48 + d) s = Done (Some d) s /\ isspace (48 + d) s = Done false s.
Proof.
  intros H. assert (Hd : d = 0 \/ d = 1 \/ d = 2 \/ d = 3 \/ d = 4 \/ d = 5 \/ d = 6 \/ d = 7 \/ d = 8 \/ d = 9) by lia.
  repeat destruct Hd as [->|Hd]; [..|subst d]; auto.
Qed.

Lemma to_long_small x : - 2 ^ 63 <= x < 2 ^ 63 -> to_long x = x.
Proof. intros H. apply signed_wrap; lia. Qed.

Lemma read_digits s a ds :
  cstr s a (Z.add 48 <$> ds) -> Forall (fun d => 0 <= d <= 9) ds -> value ds < 2 ^ 63 ->
  loop (fun '(p, i) =>
    c ← load_char p;
    if negb (truth c) then mret (Break (p, i)) else
    d ← digit_in 10 c;
    match d with
    | Some d => mret (Next (p + 1, to_long (i * 10 + d)))
    | None => mret (Break (p, i))
    end) (a, 0) s = Done (a + Z.of_nat (length ds), value ds) s.
Proof.
  intros S Hd Hv.
  use_string_loop (fun l1 : list Z => (a + Z.of_nat (length l1), value (take (length l1) ds))) (fun l1 => exists l2, Z.add 48 <$> ds = l1 ++ l2)
    (fun r => r = (a + Z.of_nat (length ds), value ds)) s a (Z.add 48 <$> ds) (a, 0) S; [| | | |rewrite E, HQ; reflexivity].
  - simpl. rewrite Z.add_0_r. reflexivity.
  - eexists. reflexivity.
  - intros _ S2. rewrite length_fmap, firstn_all in *. read_char S2. eauto.
  - intros l1 c l2 E _ S2. right. rewrite next_pos. pose proof (f_equal length E) as Elen. rewrite length_fmap, length_app in Elen. simpl in Elen.
    assert (Hc : exists d, ds !! length l1 = Some d /\ c = 48 + d).
    { assert (Hl : (Z.add 48 <$> ds) !! length l1 = Some c) by (rewrite E, lookup_app_r, Nat.sub_diag by lia; reflexivity).
      rewrite list_lookup_fmap in Hl. destruct (ds !! length l1) as [d|]; [|discriminate]. injection Hl as <-. eauto. }
    destruct Hc as (d & Ed & ->). assert (Hdd : 0 <= d <= 9) by (rewrite Forall_lookup in Hd; exact (Hd _ _ Ed)).
    destruct (digit_class d s Hdd) as (D1 & D2 & _). read_char S2. rewrite D1, (bind_done _ _ _ _ _ D2).
    assert (Ev : value (take (length (l1 ++ [48 + d])) ds) = 10 * value (take (length l1) ds) + d).
    { rewrite length_app. simpl. rewrite Nat.add_1_r, (take_S_r _ _ _ Ed). apply value_snoc. }
    pose proof (value_prefix (take (length (l1 ++ [48 + d])) ds) (drop (length (l1 ++ [48 + d])) ds)) as Hp. rewrite take_drop in Hp.
    pose proof (value_nonneg (take (length l1) ds) ltac:(apply Forall_take, Hd)). specialize (Hp Hd).
    rewrite to_long_small by lia. split; [do 3 f_equal; lia|]. exists l2. rewrite <- app_assoc. exact E.
Qed.

Lemma strtol_done s a n ds :
  - 2 ^ 63 < n < 2 ^ 63 -> decimal (Z.abs n) ds -> cstr s a (numeral n ds) -> strtol a 0 10 s = Done n s.
Proof.
  intros Hn [D1 D2 D3] S. unfold strtol. rewrite (cstr_nonnull s a _ _ S), bind_vassert by reflexivity.
  assert (Hne : exists d ds', ds = d :: ds' /\ 0 <= d <= 9).
  { destruct ds as [|d ds']; [destruct D3 as [D3|D3]; [contradiction|discriminate]|]. apply Forall_cons_1 in D1 as [D1 _]. eauto. }
  destruct Hne as (d & ds' & Eds & Hd). destruct (digit_class d s Hd) as (C1 & _ & C3).
  assert (Hspace : forall c, load_char a s = Done c s -> isspace c s = Done false s ->
    loop (fun p => c ← load_char p; b ← isspace c; if b : bool then mret (Next (p + 1)) else mret (Break p)) a s = Done a s).
  { intros c Ec Es. apply (loop_iter _ 1%nat); [|lia]. apply iter_break. rewrite (bind_done _ _ _ _ _ Ec), (bind_done _ _ _ _ _ Es). reflexivity. }
  unfold numeral in S. destruct (Z.ltb_spec n 0) as [Hneg|Hpos].
  - assert (L : load_char a s = Done 45 s) by exact (cstr_char _ _ _ S). rewrite (bind_done _ _ _ _ _ (Hspace 45 L eq_refl)). unfold read_sign at 1.
    rewrite (bind_done _ _ s (true, a + 1) s) by (rewrite (bind_done _ _ _ _ _ L); reflexivity).
    rewrite (bind_done (read_base (a + 1) 10) _ s (a + 1, 10) s eq_refl).
    rewrite (bind_done _ _ _ _ _ (read_digits s (a + 1) ds (cstr_tail s a [45] _ S) D1 ltac:(lia))).
    cbv zeta. change (truth 0) with false. cbn [mbind C_bind mret C_ret]. unfold mbind, C_bind, mret, C_ret.
    rewrite to_long_small by lia. f_equal. lia.
  - assert (L : load_char a s = Done (48 + d) s).
    { rewrite <- C1. rewrite Eds in S. exact (cstr_char _ _ _ S). }
    rewrite (bind_done _ _ _ _ _ (Hspace (48 + d) L C3)). unfold read_sign at 1.
    rewrite (bind_done _ _ s (false, a) s).
    2:{ rewrite (bind_done _ _ _ _ _ L). rewrite (proj2 (Z.eqb_neq (48 + d) 45)), (proj2 (Z.eqb_neq (48 + d) 43)) by lia. reflexivity. }
    rewrite (bind_done (read_base a 10) _ s (a, 10) s eq_refl).
    rewrite (bind_done _ _ _ _ _ (read_digits s a ds S D1 ltac:(lia))).
    cbv zeta. change (truth 0) with false. unfold mbind, C_bind, mret, C_ret. f_equal. lia.
Qed.

(** ** Widths *)

Lemma value_bound ds : Forall (fun d => 0 <= d <= 9) ds -> value ds < 10 ^ Z.of_nat (length ds).
Proof.
  induction 1 as [|d ds Hd _ IH]; [reflexivity|]. rewrite value_cons. cbn [length].
  rewrite Nat2Z.inj_succ, Z.pow_succ_r by lia. nia.
Qed.

(** A number has [w] digits. *)
Definition has_width (n w : Z) : Prop := 1 <= w /\ n < 10 ^ w /\ (w = 1 \/ 10 ^ (w - 1) <= n).

Lemma decimal_width n ds : decimal n ds -> has_width n (Z.of_nat (length ds)).
Proof.
  intros [D1 <- D3]. unfold has_width. pose proof (value_bound ds D1) as Hb. destruct D3 as [D3|D3].
  - destruct ds as [|d ds]; [contradiction|]. apply Forall_cons_1 in D1 as [Hd D1]. simpl first in D3. pose proof (value_nonneg ds D1).
    cbn [length] in *. rewrite value_cons in *. split; [lia|]. split; [exact Hb|]. right.
    replace (Z.of_nat (S (length ds)) - 1) with (Z.of_nat (length ds)) by lia.
    pose proof (Z.pow_pos_nonneg 10 (Z.of_nat (length ds)) ltac:(lia) ltac:(lia)). nia.
  - subst ds. simpl in *. split; [lia|]. split; [exact Hb|auto].
Qed.

Lemma width_unique n w w' : has_width n w -> has_width n w' -> w = w'.
Proof.
  intros (H1 & H2 & H3) (H1' & H2' & H3'). destruct (Z.lt_trichotomy w w') as [H|[H|H]]; [|exact H|]; exfalso.
  - destruct H3' as [?|H3']; [lia|]. pose proof (Z.pow_le_mono_r 10 w (w' - 1) ltac:(lia) ltac:(lia)). lia.
  - destruct H3 as [?|H3]; [lia|]. pose proof (Z.pow_le_mono_r 10 w' (w - 1) ltac:(lia) ltac:(lia)). lia.
Qed.

(** The loop of the width functions for base 10. *)
Lemma width_loop s n k :
  0 <= n < 2 ^ 63 ->
  exists w, loop (fun '(n, width) =>
      if 10 <=? n then mret (Next (Z.quot n 10, width + 1)) else mret (Break width)) (n, k) s = Done (k + w - 1) s /\ has_width n w.
Proof.
  intros Hn. edestruct (fun body => loop_bounded body
    (fun c '(x, width) s' => s' = s /\ exists w, width = k + w - 1 /\ 1 <= w /\ 0 <= x /\ c = x /\
       x * 10 ^ (w - 1) <= n < (x + 1) * 10 ^ (w - 1) /\ (w = 1 \/ 1 <= x))
    (fun r s' => s' = s /\ exists w, r = k + w - 1 /\ has_width n w) n (n, k) s) as (r & s' & E & -> & w & -> & Hw); [| | |eauto].
  - intros c [x width] s' (-> & w & -> & Hw & Hx & -> & Hb & H1). split; [lia|].
    pose proof (Z.pow_pos_nonneg 10 (w - 1) ltac:(lia) ltac:(lia)) as Hp. destruct (Z.leb_spec 10 x).
    + left. rewrite Z.quot_div_nonneg by lia. eexists _, s, (x / 10). split; [reflexivity|]. split; [|Z.div_mod_to_equations; lia].
      split; [reflexivity|]. exists (w + 1). assert (Ep : 10 ^ (w + 1 - 1) = 10 * 10 ^ (w - 1)).
      { replace (w + 1 - 1) with (w - 1 + 1) by lia. rewrite Z.pow_add_r by lia. lia. }
      rewrite Ep. assert (Hdiv : 10 * (x / 10) <= x < 10 * (x / 10) + 10) by (Z.div_mod_to_equations; lia). csplit; try lia; nia.
    + right. eexists _, s. split; [reflexivity|]. split; [reflexivity|]. exists w. split; [reflexivity|]. split; [lia|].
      assert (Ep : 10 ^ w = 10 * 10 ^ (w - 1)).
      { replace w with (w - 1 + 1) at 1 by lia. rewrite Z.pow_add_r by lia. lia. }
      rewrite Ep. split; [nia|]. destruct H1 as [?|H1]; [auto|right; nia].
  - split; [reflexivity|]. exists 1. change (1 - 1) with 0. rewrite Z.pow_0_r. csplit; lia.
  - lia.
Qed.

(** The width of an [int] is the length of its numeral. *)
Lemma getnwidth_done s n ds :
  - 2 ^ 31 < n < 2 ^ 31 -> decimal (Z.abs n) ds -> getnwidth n s = Done (Z.of_nat (length (numeral n ds))) s.
Proof.
  intros Hn Hd. pose proof (decimal_width _ _ Hd) as Hw. unfold getnwidth, numeral.
  destruct (Z.ltb_spec n 0); rewrite length_app, length_fmap; simpl (length _ + _)%nat.
  - assert (E : to_int (- n) = - n) by (apply signed_wrap; lia). rewrite E.
    destruct (width_loop s (- n) 2 ltac:(lia)) as (w & Ew & H1). rewrite Ew. f_equal.
    replace (Z.abs n) with (- n) in Hw by lia. rewrite (width_unique _ _ _ H1 Hw). lia.
  - destruct (width_loop s n 1 ltac:(lia)) as (w & Ew & H1). rewrite Ew. f_equal.
    replace (Z.abs n) with n in Hw by lia. rewrite (width_unique _ _ _ H1 Hw). lia.
Qed.
