(* ===== verification/Printf.v ===== *)
(** * Formatted output

    [vbprintf] of lib/c/stdio and the functions it prints numbers with; [vsnprintf] on top.  The
    argument list is a list of machine words, which [va_arg] converts to the type that is asked
    for.  Floating point numbers ([bprintdblpad]) are a parameter. *)

From Stdlib Require Import ZArith Lia Bool.
From stdpp Require Import base list numbers option gmap.
From S2P Require Import Prelude CMem MemOps Heap CString Stdio Number.

(** ** Numbers *)

Definition FFL_PADRIGHT : Z := 1.
Definition FFL_FORCESIGN : Z := 2.
Definition FFL_SPACESIGN : Z := 4.
Definition FFL_PRINTBASE : Z := 8.
Definition FFL_PADZEROS : Z := 16.
Definition FFL_CAPHEX : Z := 32.
Definition FFL_SHORT : Z := 64.
Definition FFL_LONG : Z := 128.
Definition FFL_LONGLONG : Z := 256.
Definition FFL_SIZE : Z := 512.

Abbreviation has flags x := (truth (flags .& x)).

Definition hexCharsBig : list Z := [48; 49; 50; 51; 52; 53; 54; 55; 56; 57; 65; 66; 67; 68; 69; 70].
Definition hexCharsSmall : list Z := [48; 49; 50; 51; 52; 53; 54; 55; 56; 57; 97; 98; 99; 100; 101; 102].

(** A statement that adds the result of a call to a counter. *)
Notation "'COUNT' x += c 'in' k" := (reterr id c (fun r => let x := x + r in k))
  (at level 10, x name, k at level 200).

(** [bprintn] and [bprintl], which differ in their type: [conv] converts to it.  A level of the
    recursion prints a digit, so that [fuel] is the number of digits. *)
Fixpoint print_signed (conv : Z -> Z) (fuel : nat) (f n : Z) : C Z :=
  match fuel with
  | O => bad OutOfFuel
  | S fuel' =>
      let digits c n :=
        COUNT c += (if 10 <=? n then print_signed conv fuel' f (Z.quot n 10) else mret 0) in
        RETERR _ := bputc f (48 + Z.rem n 10) in
        mret (c + 1) in
      if n <? 0 then RETERR _ := bputc f 45 in digits 1 (conv (- n)) else digits 0 n
  end.

Definition bprintn (f n : Z) : C Z := print_signed to_int 10 f n.
Definition bprintl (f l : Z) : C Z := print_signed to_long 19 f l.

(** [bprintu] and [bprintul] *)
Fixpoint print_unsigned (fuel : nat) (f u base : Z) (hexchars : list Z) : C Z :=
  match fuel with
  | O => bad OutOfFuel
  | S fuel' =>
      let c := 0 in
      COUNT c += (if base <=? u then print_unsigned fuel' f (u / base) base hexchars else mret 0) in
      RETERR _ := bputc f (nth (Z.to_nat (u mod base)) hexchars 0) in
      mret (c + 1)
  end.

Definition bprintu (f u base : Z) (hexchars : list Z) : C Z := print_unsigned 32 f u base hexchars.
Definition bprintul (f u base : Z) (hexchars : list Z) : C Z := print_unsigned 64 f u base hexchars.

Definition bprintpad (f count flags : Z) : C Z :=
  let c := if has flags FFL_PADZEROS then 48 else 32 in
  loop (fun '(count, x) =>
    if 0 <? count then RETLOOP _ := bputc f c in mret (Next (count - 1, x + 1))
    else mret (Break x)) (count, 0).

(** [PRINT_SIGNED_PREFIX] and [PRINT_UNSIGNED_PREFIX]: the number of characters. *)
Definition signed_prefix (f n flags : Z) : C Z :=
  if 0 <? n then
    if has flags FFL_FORCESIGN then RETERR _ := bputc f 43 in mret 1
    else if has flags FFL_SPACESIGN then RETERR _ := bputc f 32 in mret 1
    else mret 0
  else mret 0.

Definition unsigned_prefix (f base flags : Z) : C Z :=
  if has flags FFL_PRINTBASE then
    let count := 0 in
    COUNT count += (if (base =? 16) || (base =? 8) then RETERR _ := bputc f 48 in mret 1 else mret 0) in
    COUNT count += (if base =? 16 then
        RETERR _ := bputc f (if has flags FFL_CAPHEX then 88 else 120) in mret 1
      else mret 0) in
    mret count
  else mret 0.

(** The padding at the right of [count] characters; [pad] is unsigned. *)
Definition pad_right (f pad flags count : Z) : C Z :=
  if has flags FFL_PADRIGHT && (count <? to_int pad) then bprintpad f (wrap32 (pad - count)) flags
  else mret 0.

(** [bprintnpad] and [bprintlpad], given the function for the width and for the number. *)
Definition print_npad (getwidth : Z -> C Z) (print : Z -> Z -> C Z) (f n pad flags : Z) : C Z :=
  let count := 0 in
  COUNT count += (if negb (has flags FFL_PADRIGHT) && (0 <? pad) then
      width ← getwidth n;
      let width := if (0 <? n) && has flags (FFL_FORCESIGN .| FFL_SPACESIGN) then width + 1 else width in
      if width <? pad then bprintpad f (pad - width) flags else mret 0
    else mret 0) in
  COUNT count += signed_prefix f n flags in
  COUNT count += print f n in
  COUNT count += pad_right f pad flags count in
  mret count.

Definition bprintnpad (f n pad flags : Z) : C Z := print_npad getnwidth bprintn f n pad flags.
Definition bprintlpad (f n pad flags : Z) : C Z := print_npad getllwidth bprintl f n pad flags.

(** [bprintupad] and [bprintulpad] *)
Definition print_upad (getwidth : Z -> Z -> C Z) (print : Z -> Z -> Z -> list Z -> C Z)
  (f u base pad flags : Z) : C Z :=
  let pad_left (zeros : bool) :=
    if negb (has flags FFL_PADRIGHT) && Bool.eqb (has flags FFL_PADZEROS) zeros && (0 <? pad) then
      width ← getwidth u base;
      if width <? pad then bprintpad f (pad - width) flags else mret 0
    else mret 0 in
  let count := 0 in
  COUNT count += pad_left false in
  COUNT count += unsigned_prefix f base flags in
  COUNT count += pad_left true in
  COUNT count += print f u base (if has flags FFL_CAPHEX then hexCharsBig else hexCharsSmall) in
  COUNT count += pad_right f pad flags count in
  mret count.

Definition bprintupad (f u base pad flags : Z) : C Z := print_upad getuwidth bprintu f u base pad flags.
Definition bprintulpad (f u base pad flags : Z) : C Z := print_upad getullwidth bprintul f u base pad flags.

(** ** Formats *)

Definition to_char (x : Z) : Z := signed 8 (wrap8 x).

(** [va_arg]: the next argument as a word, and the rest. *)
Definition va_arg (ap : list Z) : C (Z * list Z) :=
  match ap with [] => bad Fault | x :: ap' => mret (x, ap') end.

(** The flags of a conversion: their bits, the width given by a star, the position behind them. *)
Definition read_flags (fmt : Z) (ap : list Z) : C (Z * Z * Z * list Z) :=
  loop (fun '(fmt, flags, pad, ap) =>
    c ← load_char fmt;
    let go flag := mret (Next (fmt + 1, flags .| flag, pad, ap)) in
    if c =? 45 then go FFL_PADRIGHT
    else if c =? 43 then go FFL_FORCESIGN
    else if c =? 32 then go FFL_SPACESIGN
    else if c =? 35 then go FFL_PRINTBASE
    else if c =? 48 then go FFL_PADZEROS
    else if c =? 42 then
      '(x, ap) ← va_arg ap;
      mret (Next (fmt + 1, flags, to_char x, ap))
    else mret (Break (fmt, flags, pad, ap))) (fmt, 0, 0, ap).

(** Decimal digits; [conv] converts to the type of the variable. *)
Definition read_decimal (conv : Z -> Z) (fmt : Z) : C (Z * Z) :=
  loop (fun '(fmt, x) =>
    c ← load_char fmt;
    if (48 <=? c) && (c <=? 57) then mret (Next (fmt + 1, conv (x * 10 + (c - 48))))
    else mret (Break (fmt, x))) (fmt, 0).

Definition read_precision (fmt : Z) (ap : list Z) : C (Z * Z * list Z) :=
  c ← load_char fmt;
  if c =? 46 then
    c ← load_char (fmt + 1);
    if c =? 42 then
      '(x, ap) ← va_arg ap;
      mret (fmt + 2, to_int x, ap)
    else
      '(fmt, x) ← read_decimal to_int (fmt + 1);
      mret (fmt, x, ap)
  else mret (fmt, -1, ap).

Definition read_length (fmt flags : Z) : C (Z * Z) :=
  c ← load_char fmt;
  mret (if c =? 108 then (fmt + 1, flags .| FFL_LONG)
        else if c =? 76 then (fmt + 1, flags .| FFL_LONGLONG)
        else if c =? 122 then (fmt + 1, flags .| FFL_SIZE)
        else if c =? 104 then (fmt + 1, flags .| FFL_SHORT)
        else (fmt, flags)).

(** [static char nullbuf[] = "(null)"], written by [bputs] where a string is NULL. *)
Definition nullbuf : list Z := [40; 110; 117; 108; 108; 41].

(** [bputs] on a string that is not in the memory. *)
Fixpoint put_list (f : Z) (l : list Z) : C Z :=
  match l with
  | [] => mret 0
  | c :: l' => RETERR _ := bputc f c in RETERR r := put_list f l' in mret (r + 1)
  end.

(** The conversions of integers: the argument with the width that the flags give. *)
Definition convert_signed (f x pad flags : Z) : C Z :=
  if has flags FFL_LONGLONG || has flags FFL_LONG || has flags FFL_SIZE
  then bprintlpad f (to_long x) (wrap32 pad) flags
  else
    let n := to_int x in
    bprintnpad f (if has flags FFL_SHORT then n .& 0xFFFF else n) (wrap32 pad) flags.

Definition convert_unsigned (f c x pad flags : Z) : C Z :=
  let base := if c =? 111 then 8 else if (c =? 120) || (c =? 88) then 16 else if c =? 98 then 2 else 10 in
  let flags := if c =? 88 then flags .| FFL_CAPHEX else flags in
  if has flags FFL_LONGLONG || has flags FFL_LONG || has flags FFL_SIZE
  then bprintulpad f (wrap64 x) base (wrap32 pad) flags
  else
    let u := wrap32 x in
    bprintupad f (if has flags FFL_SHORT then u .& 0xFFFF else u) base (wrap32 pad) flags.

(** A pointer: four groups of four hexadecimal digits. *)
Definition convert_pointer (f x flags : Z) : C Z :=
  loop (fun '(size, count) =>
    if 0 <? size then
      RETLOOP r := bprintupad f (Z.shiftr (wrap64 x) (size * 8 - 16) .& 0xFFFF) 16 4 (flags .| FFL_PADZEROS) in
      if 0 <? size - 2 then RETLOOP _ := bputc f 58 in mret (Next (size - 2, count + r + 1))
      else mret (Next (size - 2, count + r))
    else mret (Break count)) (8, 0).

(** A string, or [nullbuf]. *)
Definition convert_string (f x pad flags precision : Z) : C Z :=
  let count := 0 in
  COUNT count += (if (0 <? pad) && negb (has flags FFL_PADRIGHT) then
      len ← (if x =? 0 then mret (Z.of_nat (length nullbuf)) else strlen x);
      let width := wrap32 (if precision =? -1 then len else Z.min len (wrap64 precision)) in
      if to_int width <? pad then bprintpad f (wrap32 (pad - width)) flags else mret 0
    else mret 0) in
  RETERR n := (if x =? 0 then
      put_list f (if precision =? -1 then nullbuf else take (Z.to_nat precision) nullbuf)
    else bputs f x precision) in
  COUNT count += (if (n <? pad) && has flags FFL_PADRIGHT then bprintpad f (pad - n) flags else mret 0) in
  mret (count + n).

Section Printf.
(** [bprintdblpad]: the stream, the number as a word, whether it is a [double], the width, the flags and
    the precision. *)
Context (bprintdblpad : Z -> Z -> bool -> Z -> Z -> Z -> C Z).

(** One conversion: the characters written (or an error) and the arguments that are left.  [count] is
    the number of characters before it. *)
Definition convert (f c flags pad precision count : Z) (ap : list Z) : C (Z * list Z) :=
  let with_arg (print : Z -> C Z) :=
    '(x, ap) ← va_arg ap;
    r ← print x;
    mret (r, ap) in
  if (c =? 100) || (c =? 105) then with_arg (fun x => convert_signed f x pad flags)
  else if c =? 112 then with_arg (fun x => convert_pointer f x flags)
  else if c =? 110 then with_arg (fun x => store 4 x count;; mret 0)
  else if c =? 102 then
    with_arg (fun x => bprintdblpad f x (has flags FFL_LONG) (wrap32 pad) flags
                         (wrap32 (if precision =? -1 then 6 else precision)))
  else if (c =? 98) || (c =? 117) || (c =? 111) || (c =? 120) || (c =? 88) then
    with_arg (fun x => convert_unsigned f c x pad flags)
  else if c =? 115 then with_arg (fun x => convert_string f (wrap64 x) pad flags precision)
  else if c =? 99 then with_arg (fun x => RETERR _ := bputc f (to_char x) in mret 1)
  else (r ← (RETERR _ := bputc f c in mret 1); mret (r, ap)).

(** The part of a format behind a percent sign: the position behind it, the result of its conversion, and
    the arguments that are left. *)
Definition directive (f fmt count : Z) (ap : list Z) : C (Z * Z * list Z) :=
  '(fmt, flags, pad, ap) ← read_flags fmt ap;
  '(fmt, pad) ← (if pad =? 0 then read_decimal to_char fmt else mret (fmt, pad));
  '(fmt, precision, ap) ← read_precision fmt ap;
  '(fmt, flags) ← read_length fmt flags;
  c ← load_char fmt;
  '(r, ap) ← convert f c flags pad precision count ap;
  mret (fmt + 1, r, ap).

Definition vbprintf (f fmt : Z) (ap : list Z) : C Z :=
  loop (fun '(fmt, ap, count) =>
    c ← load_char fmt;
    if c =? 37 then
      '(fmt, r, ap) ← directive f (fmt + 1) count ap;
      if r <? 0 then mret (Break r) else mret (Next (fmt, ap, to_int (count + r)))
    else if c =? 0 then mret (Break count)
    else RETLOOP _ := bputc f c in mret (Next (fmt + 1, ap, to_int (count + 1)))) (fmt, ap, 0).

Definition vsnprintf (str n fmt : Z) (ap : list Z) : C Z :=
  ok ← binit sbuf (-1) O_WRITE str 0 (n -o 1) false;
  if negb ok then mret EOF else
  res ← vbprintf sbuf fmt ap;
  F ← get_file sbuf;
  store8 (str + io_pos (f_out F)) 0;;
  drop_file sbuf;;
  mret res.

Definition snprintf (str n fmt : Z) (args : list Z) : C Z := vsnprintf str n fmt args.
Definition vfprintf (file fmt : Z) (ap : list Z) : C Z := vbprintf file fmt ap.
Definition fprintf (file fmt : Z) (args : list Z) : C Z := vfprintf file fmt args.
Definition vprintf (fmt : Z) (ap : list Z) : C Z := vfprintf stdout fmt ap.
Definition printf (fmt : Z) (args : list Z) : C Z := vfprintf stdout fmt args.
End Printf.
