(* ===== verification/PrintfSpec.v ===== *)
(** * What formatted output prints

    Output to a string without descriptor, as [vsnprintf] uses it: [emits] says that a computation
    appends given characters as far as they fit.  It composes along [RETERR] and loops, so that the
    text of each conversion is the concatenation of its parts. *)

From Stdlib Require Import ZArith Lia Bool.
From stdpp Require Import base list numbers option gmap.
From S2P Require Import Prelude CMem MemOps Heap CString CStringSpec Stdio Number Printf.

(** ** Characters in memory *)

Lemma put_chars_app m a xs ys :
  put_chars m a (xs ++ ys) = put_chars (put_chars m a xs) (a + Z.of_nat (length xs)) ys.
Proof.
  revert m a. induction xs as [|x xs IH]; intros m a; simpl app; [cbn [put_chars length]; f_equal; lia|].
  cbn [put_chars length]. rewrite IH. f_equal. lia.
Qed.

Lemma put_chars_other m a xs y :
  y < a \/ a + Z.of_nat (length xs) <= y -> byte_at (put_chars m a xs) y = byte_at m y.
Proof.
  revert m a. induction xs as [|x xs IH]; intros m a Hy; cbn [put_chars length] in *; [reflexivity|].
  rewrite IH by lia. apply byte_put_other. lia.
Qed.

Lemma put_chars_at m a xs i x :
  xs !! i = Some x -> byte_at (put_chars m a xs) (a + Z.of_nat i) = wrap8 x.
Proof.
  revert m a i. induction xs as [|c xs IH]; intros m a [|i] Hi; cbn [put_chars]; [discriminate..| |].
  - injection Hi as ->. rewrite put_chars_other, byte_put1 by lia.
    destruct (Z.eqb_spec (a + Z.of_nat 0) a); [reflexivity|lia].
  - replace (a + Z.of_nat (S i)) with (a + 1 + Z.of_nat i) by lia. apply IH, Hi.
Qed.

(** ** Emission *)

Section Emits.
Context (s0 : process) (f : Z) (F : FILE).
Abbreviation buf := (f_out F).

(** The stream writes to a string without growing; the characters before its position stay. *)
Record str_stream : Prop := {
  ss_file : io_files (p_io s0) !! f = Some F;
  ss_fd : io_fd buf = -1;
  ss_dynamic : io_dynamic buf = false;
  ss_buffer : 0 < io_buffer buf;
  ss_pos : 0 <= io_pos buf <= io_max buf;
  ss_end : io_buffer buf + io_max buf < 2 ^ 64;
  ss_mapped : mapped s0 (io_buffer buf) (io_buffer buf + io_max buf)
}.

(** How many characters fit, and where they go. *)
Definition room : Z := io_max buf - io_pos buf.
Definition start : Z := io_buffer buf + io_pos buf.

(** The state when the characters [xs] have been written. *)
Definition out_state (xs : list Z) : process :=
  with_file f (set_out (set_pos (io_pos buf + Z.of_nat (length xs)) buf) F)
    (set_mem (put_chars (p_mem s0) start xs) s0).

Definition fits (xs : list Z) : Prop := Z.of_nat (length xs) <= room.

(** The computation [c] appends [cs] and returns [a]; if they do not all fit, it appends those that do and
    returns [e]. *)
Definition emits {A} (c : C A) (a e : A) (cs : list Z) : Prop := forall xs, fits xs ->
  c (out_state xs) =
    if Z.of_nat (length xs) + Z.of_nat (length cs) <=? room then Done a (out_state (xs ++ cs))
    else Done e (out_state (take (Z.to_nat room) (xs ++ cs))).

(** The computation [c] only looks. *)
Definition looks {A} (c : C A) (a : A) : Prop := forall xs, fits xs -> c (out_state xs) = Done a (out_state xs).

Abbreviation prints c r cs := (emits c r EOF cs).

Lemma emits_ret {A} (a e : A) : emits (mret a) a e [].
Proof.
  intros xs Hx. rewrite app_nil_r. unfold fits in Hx. cbn [length]. rewrite (proj2 (Z.leb_le _ _)) by lia. reflexivity.
Qed.

Lemma emits_looks {A B} (c : C A) (k : A -> C B) a b e cs :
  looks c a -> emits (k a) b e cs -> emits (c ≫= k) b e cs.
Proof. intros Hc Hk xs Hx. rewrite (bind_done _ _ _ _ _ (Hc xs Hx)). apply Hk, Hx. Qed.

Lemma looks_bind {A B} (c : C A) (k : A -> C B) a b : looks c a -> looks (k a) b -> looks (c ≫= k) b.
Proof. intros Hc Hk xs Hx. rewrite (bind_done _ _ _ _ _ (Hc xs Hx)). apply Hk, Hx. Qed.

Lemma looks_ret {A} (a : A) : looks (mret a) a.
Proof. intros xs _. reflexivity. Qed.

Lemma looks_emits {A} (c : C A) a e : looks c a -> emits c a e [].
Proof. intros Hc xs Hx. rewrite (Hc xs Hx). apply (emits_ret a e xs Hx). Qed.

(** One after the other: what does not fit ends the first or the second. *)
Lemma emits_bind {A B} (c : C A) (k : A -> C B) a e b e' xs ys :
  emits c a e xs -> emits (k a) b e' ys -> (forall s, k e s = Done e' s) -> emits (c ≫= k) b e' (xs ++ ys).
Proof.
  intros Hc Hk He ws Hw. unfold mbind, C_bind. rewrite (Hc ws Hw), app_assoc. rewrite (length_app xs ys).
  destruct (Z.leb_spec (Z.of_nat (length ws) + Z.of_nat (length xs)) room) as [H1|H1].
  - rewrite (Hk (ws ++ xs)) by (unfold fits; rewrite length_app; lia). rewrite (length_app ws xs).
    replace (Z.of_nat (length ws + length xs) + Z.of_nat (length ys))
      with (Z.of_nat (length ws) + Z.of_nat (length xs + length ys)) by lia. reflexivity.
  - rewrite (proj2 (Z.leb_gt _ _)) by lia. rewrite He, (take_app_le (ws ++ xs) ys); [reflexivity|].
    rewrite length_app. unfold fits in Hw. lia.
Qed.

Lemma prints_reterr {X} (out : Z -> X) c k r b xs ys :
  prints c r xs -> 0 <= r -> emits (k r) b (out EOF) ys -> emits (reterr out c k) b (out EOF) (xs ++ ys).
Proof.
  intros Hc Hr Hk. apply (emits_bind c _ r EOF b (out EOF) xs ys Hc).
  - rewrite (proj2 (Z.ltb_ge _ _) Hr). exact Hk.
  - reflexivity.
Qed.

Lemma emits_eq {A} (c : C A) a e cs a' cs' : emits c a e cs -> a = a' -> cs = cs' -> emits c a' e cs'.
Proof. intros H <- <-. exact H. Qed.

(** Loops: some rounds, each of which appends something. *)
Inductive rounds {L R} (body : L -> C (ctl L R)) (e : R) : nat -> L -> R -> list Z -> Prop :=
  | rounds_break l r cs : emits (body l) (Break r) (Break e) cs -> rounds body e 1 l r cs
  | rounds_next n l l' r cs cs' :
      emits (body l) (Next l') (Break e) cs -> rounds body e n l' r cs' -> rounds body e (S n) l r (cs ++ cs').

Lemma rounds_iter {L R} (body : L -> C (ctl L R)) e n l r cs : rounds body e n l r cs ->
  forall xs, fits xs -> exists k, (k <= n)%nat /\ iter body k l (out_state xs)
    (if Z.of_nat (length xs) + Z.of_nat (length cs) <=? room then Done r (out_state (xs ++ cs))
     else Done e (out_state (take (Z.to_nat room) (xs ++ cs)))).
Proof.
  induction 1 as [l r cs H|n l l' r cs cs' H _ IH]; intros xs Hx; pose proof (H xs Hx) as E.
  - exists 1%nat. split; [lia|]. destruct (_ <=? _); apply iter_break, E.
  - rewrite app_assoc, (length_app cs cs').
    destruct (Z.leb_spec (Z.of_nat (length xs) + Z.of_nat (length cs)) room) as [H1|H1].
    + destruct (IH (xs ++ cs)) as (k & Hk & Hi); [unfold fits; rewrite length_app; lia|].
      exists (S k). split; [lia|]. apply (iter_next _ _ _ _ _ _ _ E). rewrite (length_app xs cs) in Hi.
      replace (Z.of_nat (length xs) + Z.of_nat (length cs + length cs'))
        with (Z.of_nat (length xs + length cs) + Z.of_nat (length cs')) by lia. exact Hi.
    + rewrite (proj2 (Z.leb_gt _ _)) by lia. exists 1%nat. split; [lia|].
      rewrite (take_app_le (xs ++ cs)) by (rewrite length_app; unfold fits in Hx; lia). apply iter_break, E.
Qed.

Lemma emits_loop {L R} (body : L -> C (ctl L R)) e n l r cs :
  rounds body e n l r cs -> Z.of_nat n <= 2 ^ 64 -> emits (loop body l) r e cs.
Proof.
  intros H Hn xs Hx. destruct (rounds_iter body e n l r cs H xs Hx) as (k & Hk & Hi).
  apply (loop_iter body k); [exact Hi|lia].
Qed.

(** ** The stream *)

Context (HS : str_stream).

Lemma out_state_nil : out_state [] = s0.
Proof.
  unfold out_state, with_file. cbn [length put_chars]. rewrite Z.add_0_r. rewrite set_mem_mem. unfold set_out, set_pos.
  rewrite insert_id; [destruct s0 as [? ? ? ? ? ? []]; reflexivity|]. rewrite (ss_file HS). f_equal. destruct F as [? ? ? ? ? [] ? ?].
  reflexivity.
Qed.

Lemma out_file xs : io_files (p_io (out_state xs)) !! f =
  Some (set_out (set_pos (io_pos buf + Z.of_nat (length xs)) buf) F).
Proof. apply lookup_insert_eq. Qed.

Lemma out_snoc xs c :
  with_file f (set_out (set_pos (io_pos buf + Z.of_nat (length (xs ++ [c]))) buf) F)
    (set_mem (put 1 (start + Z.of_nat (length xs)) c (p_mem (out_state xs))) (out_state xs)) = out_state (xs ++ [c]).
Proof.
  unfold out_state, with_file. cbn [p_io set_mem set_io io_files set_files p_mem]. rewrite put_chars_app.
  unfold set_io, set_mem, set_files. cbn. rewrite insert_insert_eq. reflexivity.
Qed.

Lemma prints_bputc c : prints (bputc f c) (wrap8 c) [c].
Proof.
  pose proof HS as [H1 H2 H3 H4 H5 H6 H7]. intros xs Hx. unfold fits, room in *. unfold bputc.
  assert (G : forall B (k : FILE -> C B), (get_file f ≫= k) (out_state xs) =
    k (set_out (set_pos (io_pos buf + Z.of_nat (length xs)) buf) F) (out_state xs)).
  { intros B k. apply bind_done. unfold get_file. rewrite out_file. reflexivity. }
  rewrite G. cbn [f_out set_out set_pos io_buffer io_fd io_max io_pos]. rewrite H2. cbn [Z.leb Z.compare].
  destruct (Z.eqb_spec (io_buffer buf) 0); [lia|]. unfold reterr, mbind, C_bind. cbn [length].
  destruct (Z.leb_spec (io_max buf) (io_pos buf + Z.of_nat (length xs))) as [Hm|Hm].
  - unfold grow_buffer. rewrite G. cbn [f_out set_out set_pos io_dynamic]. rewrite H3. cbn [negb]. unfold mret, C_ret. cbn [Z.ltb Z.compare id].
    rewrite (proj2 (Z.leb_gt _ _)) by (unfold room; lia). rewrite take_app_le by (unfold room; lia). rewrite take_ge by (unfold room; lia). reflexivity.
  - cbn [mret C_ret Z.ltb Z.compare]. rewrite (proj2 (Z.leb_le _ _)) by (unfold room; lia). unfold append. rewrite G.
    cbn [f_out set_out set_pos io_pos io_buffer]. unfold put_file, mbind, C_bind, modify.
    rewrite store_done by (intros y Hy; apply H7; lia). cbn [mret C_ret]. f_equal. rewrite <- out_snoc, length_app. cbn [length].
    rewrite wrap_small by (unfold is_word; lia).
    replace (io_pos buf + Z.of_nat (length xs) + 1) with (io_pos buf + Z.of_nat (length xs + 1)) by lia.
    replace (start + Z.of_nat (length xs)) with (io_buffer buf + (io_pos buf + Z.of_nat (length xs))) by (unfold start; lia).
    reflexivity.
Qed.

(** Memory outside of the string is as before. *)
Lemma looks_char a : p_mapped s0 a = true -> a < start \/ start + room <= a ->
  looks (load_char a) (schar (byte_at (p_mem s0) a)).
Proof.
  intros Hm Ha xs Hx. rewrite load_char_done by exact Hm. f_equal. f_equal. unfold out_state. cbn.
  apply put_chars_other. unfold fits in Hx. lia.
Qed.

Lemma out_cstr a l xs : fits xs -> cstr s0 a l -> a + Z.of_nat (length l) < start \/ start + room <= a ->
  cstr (out_state xs) a l.
Proof.
  intros Hx [C1 C2 C3 C4 C5 C6] Ha. unfold fits in Hx. split; trivial.
  - intros i c Hi. pose proof (lookup_lt_Some _ _ _ Hi). unfold out_state. cbn. rewrite put_chars_other by lia. apply C5, Hi.
  - unfold out_state. cbn. rewrite put_chars_other by lia. exact C6.
Qed.
End Emits.

(** ** Numbers as text *)

(** The digits of [u] to a base, at most [k] of them. *)
Fixpoint digits_of (k : nat) (base u : Z) : list Z :=
  match k with
  | O => []
  | S k' => (if base <=? u then digits_of k' base (u / base) else []) ++ [u mod base]
  end.

(** The digits of a number of 64 bits. *)
Definition digits (base u : Z) : list Z := digits_of 64 base u.

Lemma digits_more k base u : 2 <= base -> 0 <= u < base ^ Z.of_nat k ->
  forall k', (k <= k')%nat -> (0 < k)%nat -> digits_of k' base u = digits_of k base u.
Proof.
  intros Hb. revert u. induction k as [|k IH]; intros u Hu [|k'] Hk Hp; [lia..|]. cbn [digits_of].
  destruct (Z.leb_spec base u); [|reflexivity]. f_equal.
  destruct k as [|k]; [change (Z.of_nat 1) with 1 in Hu; lia|].
  apply IH; [|lia..]. rewrite Nat2Z.inj_succ, Z.pow_succ_r in Hu by lia.
  split; [apply Z.div_pos; lia|apply Z.div_lt_upper_bound; lia].
Qed.

Lemma digits_enough k base u : 2 <= base -> 0 <= u < base ^ Z.of_nat k -> u < 2 ^ 64 -> (0 < k)%nat ->
  digits_of k base u = digits base u.
Proof.
  intros Hb Hu H64 Hk. destruct (decide (k <= 64)%nat); [symmetry; apply digits_more; trivial; lia|].
  apply digits_more; [lia| |lia..]. split; [lia|]. change (Z.of_nat 64) with 64.
  pose proof (Z.pow_le_mono_l 2 base 64 ltac:(lia)). lia.
Qed.

Lemma digits_pos k base u : (0 < k)%nat -> (0 < length (digits_of k base u))%nat.
Proof. destruct k; [lia|]. intros _. cbn [digits_of]. rewrite length_app. cbn [length]. lia. Qed.

Lemma digits_length k base u : (length (digits_of k base u) <= k)%nat.
Proof.
  revert u. induction k as [|k IH]; intros u; cbn [digits_of]; [reflexivity|]. rewrite length_app. cbn [length].
  specialize (IH (u / base)). destruct (base <=? u); cbn [length]; lia.
Qed.

Lemma digits_range k base u : 2 <= base -> Forall (fun d => 0 <= d < base) (digits_of k base u).
Proof.
  intros Hb. revert u. induction k as [|k IH]; intros u; cbn [digits_of]; [constructor|].
  apply Forall_app. split; [destruct (base <=? u); [apply IH|constructor]|]. constructor; [apply Z.mod_pos_bound; lia|constructor].
Qed.

(** Decimal digits are those that are read back. *)
Lemma digits_decimal k n : 0 <= n < 10 ^ Z.of_nat k -> (0 < k)%nat -> decimal n (digits_of k 10 n).
Proof.
  revert n. induction k as [|k IH]; intros n Hn Hk; [lia|]. split.
  - eapply Forall_impl; [apply digits_range; lia|]. intros d Hd. simpl in Hd. lia.
  - cbn [digits_of]. rewrite value_snoc. destruct (Z.leb_spec 10 n) as [H|H].
    + destruct k as [|k]; [change (Z.of_nat 1) with 1 in Hn; lia|]. rewrite Nat2Z.inj_succ, Z.pow_succ_r in Hn by lia.
      rewrite (dc_value _ _ (IH (n / 10) ltac:(split; [apply Z.div_pos; lia|apply Z.div_lt_upper_bound; lia]) ltac:(lia))).
      pose proof (Z.div_mod n 10). lia.
    + change (value []) with 0. rewrite Z.mod_small; lia.
  - cbn [digits_of]. destruct (Z.leb_spec 10 n) as [H|H].
    + left. destruct k as [|k]; [change (Z.of_nat 1) with 1 in Hn; lia|]. rewrite Nat2Z.inj_succ, Z.pow_succ_r in Hn by lia.
      assert (Hd : 0 <= n / 10 < 10 ^ Z.of_nat (S k)) by (split; [apply Z.div_pos; lia|apply Z.div_lt_upper_bound; lia]).
      pose proof (digits_pos (S k) 10 (n / 10) ltac:(lia)) as Hp. pose proof (IH (n / 10) Hd ltac:(lia)) as [_ Hv [Hl|Hl]].
      * destruct (digits_of (S k) 10 (n / 10)) as [|d l]; [cbn [length] in Hp; lia|exact Hl].
      * rewrite Hl in Hv. change (value [0]) with 0 in Hv. pose proof (Z.div_mod n 10). pose proof (Z.mod_pos_bound n 10). lia.
    + rewrite Z.mod_small by lia. destruct (Z.eq_dec n 0) as [->|]; [right; reflexivity|left; exact n0].
Qed.

(** A signed number in decimal.  The negation of the smallest number [- lim] overflows, and the digit that is
    printed for it is the character before zero by eight. *)
Definition signed_text (lim n : Z) : list Z :=
  if n =? - lim then [45; 40]
  else if n <? 0 then 45 :: (Z.add 48 <$> digits 10 (- n)) else Z.add 48 <$> digits 10 n.

Definition unsigned_text (hexchars : list Z) (base u : Z) : list Z :=
  (fun d => nth (Z.to_nat d) hexchars 0) <$> digits base u.

(** The loop of the width functions counts the digits. *)
Lemma width_iter k base u w (div : Z -> Z) s :
  2 <= base -> 0 <= u < base ^ Z.of_nat k -> (0 < k)%nat -> (forall x, 0 <= x -> div x = x / base) ->
  iter (fun '(n, width) => if base <=? n then mret (Next (div n, width + 1)) else mret (Break width))
    (length (digits_of k base u)) (u, w) s (Done (w + Z.of_nat (length (digits_of k base u)) - 1) s).
Proof.
  intros Hb Hu Hk Hd. revert u w Hu Hk. induction k as [|k IH]; intros u w Hu Hk; [lia|]. cbn [digits_of].
  destruct (Z.leb_spec base u) as [H|H]; rewrite length_app; cbn [length].
  - destruct k as [|k]; [change (Z.of_nat 1) with 1 in Hu; lia|]. rewrite Nat2Z.inj_succ, Z.pow_succ_r in Hu by lia.
    rewrite Nat.add_1_r. eapply iter_next.
    + cbv beta iota. rewrite (proj2 (Z.leb_le _ _) H), Hd by lia. reflexivity.
    + assert (Hq : 0 <= u / base < base ^ Z.of_nat (S k)) by (split; [apply Z.div_pos; lia|apply Z.div_lt_upper_bound; lia]).
      pose proof (IH (u / base) (w + 1) Hq ltac:(lia)) as Hi.
      replace (w + Z.of_nat (S (length (digits_of (S k) base (u / base)))) - 1)
        with (w + 1 + Z.of_nat (length (digits_of (S k) base (u / base))) - 1) by lia. exact Hi.
  - replace (w + Z.of_nat (0 + 1) - 1) with w by lia. apply iter_break. cbv beta iota. rewrite (proj2 (Z.leb_gt _ _) H). reflexivity.
Qed.

Lemma width_digits base u w (div : Z -> Z) s :
  2 <= base -> 0 <= u < 2 ^ 64 -> (forall x, 0 <= x -> div x = x / base) ->
  loop (fun '(n, width) => if base <=? n then mret (Next (div n, width + 1)) else mret (Break width)) (u, w) s =
    Done (w + Z.of_nat (length (digits base u)) - 1) s.
Proof.
  intros Hb Hu Hd. eapply loop_iter; [apply (width_iter 64 base u w div); trivial; [|lia]|].
  - change (Z.of_nat 64) with 64. pose proof (Z.pow_le_mono_l 2 base 64 ltac:(lia)). lia.
  - pose proof (digits_length 64 base u). lia.
Qed.

Lemma getuwidth_text s u base hex : 2 <= base -> 0 <= u < 2 ^ 64 ->
  getuwidth u base s = Done (Z.of_nat (length (unsigned_text hex base u))) s.
Proof.
  intros Hb Hu. unfold getuwidth, unsigned_text. rewrite length_fmap. rewrite (width_digits base u 1 (fun n => n / base)); trivial.
  f_equal. lia.
Qed.

Lemma signed_text_length lim n : (length (signed_text lim n) <= 65)%nat.
Proof.
  unfold signed_text. pose proof (digits_length 64 10 n). pose proof (digits_length 64 10 (- n)).
  destruct (n =? - lim); [cbn [length]; lia|]. destruct (n <? 0); cbn [length]; rewrite length_fmap; unfold digits; lia.
Qed.

Lemma getnwidth_text s n : - 2 ^ 31 <= n < 2 ^ 31 -> getnwidth n s = Done (Z.of_nat (length (signed_text (2 ^ 31) n))) s.
Proof.
  intros Hn. unfold getnwidth, signed_text. destruct (Z.eqb_spec n (- 2 ^ 31)) as [->|Hm].
  - change (- 2 ^ 31 <? 0) with true. cbv beta iota. change (to_int (- - 2 ^ 31)) with (- 2 ^ 31).
    apply (loop_iter _ 1); [|lia]. apply iter_break. reflexivity.
  - destruct (Z.ltb_spec n 0).
    + replace (to_int (- n)) with (- n) by (symmetry; apply signed_wrap; lia).
      rewrite (width_digits 10 (- n) 2 (fun x => Z.quot x 10)); [|lia..|intros; apply Z.quot_div_nonneg; lia].
      cbn [length]. rewrite length_fmap. f_equal. lia.
    + rewrite (width_digits 10 n 1 (fun x => Z.quot x 10)); [|lia..|intros; apply Z.quot_div_nonneg; lia].
      rewrite length_fmap. f_equal. lia.
Qed.

Lemma getllwidth_text s n : - 2 ^ 63 <= n < 2 ^ 63 -> getllwidth n s = Done (Z.of_nat (length (signed_text (2 ^ 63) n))) s.
Proof.
  intros Hn. unfold getllwidth, signed_text, mbind, C_bind. destruct (Z.eqb_spec n (- 2 ^ 63)) as [->|Hm].
  - change (- 2 ^ 63 <? 0) with true. cbv beta iota. change (to_long (- - 2 ^ 63)) with (- 2 ^ 63).
    rewrite (loop_iter _ 1 _ _ (Done 1 s)); [reflexivity| |lia]. apply iter_break. reflexivity.
  - destruct (Z.ltb_spec n 0).
    + rewrite (to_long_small (- n)) by lia.
      rewrite (width_digits 10 (- n) 1 (fun x => Z.quot x 10)); [|lia..|intros; apply Z.quot_div_nonneg; lia].
      cbn [length]. rewrite length_fmap. unfold mret, C_ret. f_equal. lia.
    + rewrite (width_digits 10 n 0 (fun x => Z.quot x 10)); [|lia..|intros; apply Z.quot_div_nonneg; lia].
      rewrite length_fmap. unfold mret, C_ret. f_equal. lia.
Qed.

(** ** The functions that print numbers *)

Section Numbers.
Context (s0 : process) (f : Z) (F : FILE) (HS : str_stream s0 f F).

Abbreviation prints c r cs := (emits s0 f F c r EOF cs).

Lemma wrap8_nonneg c : 0 <= wrap8 c.
Proof. apply (wrap_range 8 c). lia. Qed.

(** A character and then something else. *)
Lemma prints_char {X} (out : Z -> X) c (k : Z -> C X) b ys :
  emits s0 f F (k (wrap8 c)) b (out EOF) ys -> emits s0 f F (reterr out (bputc f c) k) b (out EOF) (c :: ys).
Proof. intros H. apply (prints_reterr s0 f F out _ k (wrap8 c) b [c] ys); [apply prints_bputc, HS|apply wrap8_nonneg|exact H]. Qed.

Lemma prints_one c : prints (RETERR _ := bputc f c in mret 1) 1 [c].
Proof. apply (prints_char id). apply emits_ret. Qed.

(** The end of [print_signed], with [c] characters before it. *)
Lemma print_digits_step conv k c n :
  (forall m, 0 <= m < 10 ^ Z.of_nat k -> (0 < k)%nat ->
    prints (print_signed conv k f m) (Z.of_nat (length (digits_of k 10 m))) (Z.add 48 <$> digits_of k 10 m)) ->
  0 <= n < 10 ^ Z.of_nat (S k) ->
  prints (COUNT c += (if 10 <=? n then print_signed conv k f (Z.quot n 10) else mret 0) in
          RETERR _ := bputc f (48 + Z.rem n 10) in mret (c + 1))
    (c + Z.of_nat (length (digits_of (S k) 10 n))) (Z.add 48 <$> digits_of (S k) 10 n).
Proof.
  intros IH Hn. cbn [digits_of]. rewrite Z.rem_mod_nonneg, fmap_app, length_app by lia. cbv zeta.
  destruct (Z.leb_spec 10 n) as [H|H].
  - destruct k as [|k]; [change (Z.of_nat 1) with 1 in Hn; lia|]. rewrite Nat2Z.inj_succ, Z.pow_succ_r in Hn by lia.
    rewrite Z.quot_div_nonneg by lia.
    apply (prints_reterr s0 f F id _ _ (Z.of_nat (length (digits_of (S k) 10 (n / 10))))); [|lia|].
    + apply IH; [split; [apply Z.div_pos; lia|apply Z.div_lt_upper_bound; lia]|lia].
    + apply (prints_char id). eapply emits_eq; [apply emits_ret| |reflexivity]. cbn [length]. lia.
  - apply (prints_reterr s0 f F id _ _ 0); [apply emits_ret|lia|]. apply (prints_char id).
    eapply emits_eq; [apply emits_ret| |reflexivity]. cbn [length]. lia.
Qed.

Lemma print_digits conv k n :
  0 <= n < 10 ^ Z.of_nat k -> (0 < k)%nat ->
  prints (print_signed conv k f n) (Z.of_nat (length (digits_of k 10 n))) (Z.add 48 <$> digits_of k 10 n).
Proof.
  revert n. induction k as [|k IH]; intros n Hn Hk; [lia|]. cbn [print_signed].
  rewrite (proj2 (Z.ltb_ge _ _)) by lia. apply (print_digits_step conv k 0 n IH Hn).
Qed.

Lemma prints_signed conv k lim n :
  lim <= 10 ^ Z.of_nat k -> (0 < k)%nat -> lim < 2 ^ 64 -> lim mod 10 = 8 ->
  (forall x, 0 <= x < lim -> conv x = x) -> conv lim = - lim -> - lim <= n < lim ->
  prints (print_signed conv k f n) (Z.of_nat (length (signed_text lim n))) (signed_text lim n).
Proof.
  intros Hl Hk H64 H8 Hc Hm Hn. unfold signed_text. destruct k as [|k]; [lia|].
  destruct (Z.eqb_spec n (- lim)) as [->|Hne].
  - cbn [print_signed]. rewrite (proj2 (Z.ltb_lt _ _)) by lia. apply (prints_char id). cbv zeta. rewrite Z.opp_involutive, Hm.
    rewrite (proj2 (Z.leb_gt _ _)) by lia. apply (prints_reterr s0 f F id _ _ 0 _ []); [apply emits_ret|lia|].
    rewrite Z.rem_opp_l, Z.rem_mod_nonneg, H8 by lia. apply (prints_char id). apply emits_ret.
  - destruct (Z.ltb_spec n 0).
    + rewrite <- (digits_enough (S k) 10 (- n)) by lia. cbn [print_signed]. rewrite (proj2 (Z.ltb_lt _ _)) by lia. apply (prints_char id).
      rewrite Hc by lia. eapply emits_eq; [apply (print_digits_step conv k 1 (- n)); [intros; apply print_digits; trivial|lia]| |reflexivity].
      cbn [length]. rewrite length_fmap. lia.
    + rewrite <- (digits_enough (S k) 10 n), length_fmap by lia. apply print_digits; lia.
Qed.

Lemma prints_bprintn n : - 2 ^ 31 <= n < 2 ^ 31 ->
  prints (bprintn f n) (Z.of_nat (length (signed_text (2 ^ 31) n))) (signed_text (2 ^ 31) n).
Proof.
  intros Hn. apply prints_signed; [vm_compute; discriminate|lia|lia|reflexivity| |reflexivity|exact Hn].
  intros x Hx. apply signed_wrap; lia.
Qed.

Lemma prints_bprintl n : - 2 ^ 63 <= n < 2 ^ 63 ->
  prints (bprintl f n) (Z.of_nat (length (signed_text (2 ^ 63) n))) (signed_text (2 ^ 63) n).
Proof.
  intros Hn. apply prints_signed; [vm_compute; discriminate|lia|lia|reflexivity| |reflexivity|exact Hn].
  intros x Hx. apply to_long_small; lia.
Qed.

Lemma prints_unsigned k u base hex :
  2 <= base -> 0 <= u < base ^ Z.of_nat k -> (0 < k)%nat ->
  prints (print_unsigned k f u base hex) (Z.of_nat (length (digits_of k base u)))
    ((fun d => nth (Z.to_nat d) hex 0) <$> digits_of k base u).
Proof.
  intros Hb. revert u. induction k as [|k IH]; intros u Hu Hk; [lia|]. cbn [print_unsigned digits_of]. cbv zeta.
  rewrite fmap_app, length_app. destruct (Z.leb_spec base u) as [H|H].
  - destruct k as [|k]; [change (Z.of_nat 1) with 1 in Hu; lia|]. rewrite Nat2Z.inj_succ, Z.pow_succ_r in Hu by lia.
    apply (prints_reterr s0 f F id _ _ (Z.of_nat (length (digits_of (S k) base (u / base))))); [|lia|].
    + apply IH; [split; [apply Z.div_pos; lia|apply Z.div_lt_upper_bound; lia]|lia].
    + apply (prints_char id). eapply emits_eq; [apply emits_ret| |reflexivity]. cbn [length]. lia.
  - apply (prints_reterr s0 f F id _ _ 0); [apply emits_ret|lia|]. apply (prints_char id).
    eapply emits_eq; [apply emits_ret| |reflexivity]. cbn [length]. lia.
Qed.

Lemma prints_bprintul u base hex : 2 <= base -> 0 <= u < 2 ^ 64 ->
  prints (bprintul f u base hex) (Z.of_nat (length (unsigned_text hex base u))) (unsigned_text hex base u).
Proof.
  intros Hb Hu. unfold unsigned_text. rewrite length_fmap. apply prints_unsigned; [exact Hb| |lia].
  change (Z.of_nat 64) with 64. pose proof (Z.pow_le_mono_l 2 base 64 ltac:(lia)). lia.
Qed.

Lemma prints_bprintu u base hex : 2 <= base -> 0 <= u < 2 ^ 32 ->
  prints (bprintu f u base hex) (Z.of_nat (length (unsigned_text hex base u))) (unsigned_text hex base u).
Proof.
  intros Hb Hu. unfold unsigned_text. rewrite length_fmap. pose proof (Z.pow_le_mono_l 2 base 32 ltac:(lia)).
  rewrite <- (digits_enough 32 base u) by (change (Z.of_nat 32) with 32; lia). apply prints_unsigned; [exact Hb| |lia].
  change (Z.of_nat 32) with 32. lia.
Qed.

(** Padding *)
Definition pad_char (flags : Z) : Z := if has flags FFL_PADZEROS then 48 else 32.
Definition padding (flags n : Z) : list Z := replicate (Z.to_nat n) (pad_char flags).

Lemma padding_length flags n : 0 <= n -> Z.of_nat (length (padding flags n)) = n.
Proof. intros Hn. unfold padding. rewrite length_replicate. lia. Qed.

Lemma prints_bprintpad count flags : 0 <= count < 2 ^ 64 -> prints (bprintpad f count flags) count (padding flags count).
Proof.
  intros Hc. unfold bprintpad, padding. cbv zeta. fold (pad_char flags). set (c := pad_char flags).
  apply (emits_loop s0 f F _ EOF (S (Z.to_nat count))); [|lia].
  assert (H : forall k x, rounds s0 f F (fun '(count, x) =>
      if 0 <? count then RETLOOP _ := bputc f c in mret (Next (count - 1, x + 1)) else mret (Break x)) EOF
      (S k) (Z.of_nat k, x) (x + Z.of_nat k) (replicate k c)).
  { induction k as [|k IH]; intros x.
    - apply rounds_break. cbn. rewrite Z.add_0_r. apply emits_ret.
    - apply (rounds_next s0 f F _ EOF (S k) _ (Z.of_nat (S k) - 1, x + 1) _ [c]).
      + cbv beta iota. rewrite (proj2 (Z.ltb_lt _ _)) by lia. apply (prints_char Break). apply emits_ret.
      + replace (Z.of_nat (S k) - 1) with (Z.of_nat k) by lia. replace (x + Z.of_nat (S k)) with (x + 1 + Z.of_nat k) by lia.
        apply IH. }
  specialize (H (Z.to_nat count) 0). rewrite Z2Nat.id in H by lia. exact H.
Qed.
End Numbers.

(** ** Fields: numbers with their prefix and padding *)

Definition sign_prefix (n flags : Z) : list Z :=
  if 0 <? n then
    if has flags FFL_FORCESIGN then [43] else if has flags FFL_SPACESIGN then [32] else []
  else [].

Definition base_prefix (base flags : Z) : list Z :=
  if has flags FFL_PRINTBASE then
    (if (base =? 16) || (base =? 8) then [48] else []) ++
    (if base =? 16 then [if has flags FFL_CAPHEX then 88 else 120] else [])
  else [].

(** A field of at least [pad] characters. *)
Definition signed_field (text : list Z) (n pad flags : Z) : list Z :=
  let body := sign_prefix n flags ++ text in
  let fill := padding flags (pad - Z.of_nat (length body)) in
  if has flags FFL_PADRIGHT then body ++ fill else fill ++ body.

(** The prefix of an unsigned number counts at the left only. *)
Definition unsigned_field (text : list Z) (base pad flags : Z) : list Z :=
  let pre := base_prefix base flags in
  let fill := padding flags (pad - Z.of_nat (length text)) in
  if has flags FFL_PADRIGHT then pre ++ text ++ padding flags (pad - Z.of_nat (length (pre ++ text)))
  else if has flags FFL_PADZEROS then pre ++ fill ++ text
  else fill ++ pre ++ text.

Lemma has_lor flags x y : has flags (x .| y) = has flags x || has flags y.
Proof.
  unfold truth. rewrite Z.land_lor_distr_r. rewrite <- negb_andb. f_equal. apply eq_iff_eq_true.
  rewrite andb_true_iff, !Z.eqb_eq. apply Z.lor_eq_0_iff.
Qed.

Section Fields.
Context (s0 : process) (f : Z) (F : FILE) (HS : str_stream s0 f F).

Abbreviation prints c r cs := (emits s0 f F c r EOF cs).

(** [count += RETERR(c)] *)
Lemma prints_count c (k : Z -> C Z) xs r ys :
  prints c (Z.of_nat (length xs)) xs -> prints (k (Z.of_nat (length xs))) r ys -> prints (reterr id c k) r (xs ++ ys).
Proof. intros Hc Hk. apply (prints_reterr s0 f F id c k (Z.of_nat (length xs))); [exact Hc|lia|exact Hk]. Qed.

Lemma prints_nothing : prints (mret 0) (Z.of_nat (length (@nil Z))) [].
Proof. apply emits_ret. Qed.

Lemma prints_sign n flags : prints (signed_prefix f n flags) (Z.of_nat (length (sign_prefix n flags))) (sign_prefix n flags).
Proof.
  unfold signed_prefix, sign_prefix. destruct (0 <? n); [|apply prints_nothing].
  destruct (has flags FFL_FORCESIGN); [apply prints_one, HS|]. destruct (has flags FFL_SPACESIGN); [apply prints_one, HS|apply prints_nothing].
Qed.

Lemma prints_base base flags : prints (unsigned_prefix f base flags) (Z.of_nat (length (base_prefix base flags))) (base_prefix base flags).
Proof.
  unfold unsigned_prefix, base_prefix. destruct (has flags FFL_PRINTBASE); [|apply prints_nothing]. cbv zeta.
  apply (prints_count _ _ (if (base =? 16) || (base =? 8) then [48] else [])).
  - destruct (_ || _); [apply prints_one, HS|apply prints_nothing].
  - rewrite <- (app_nil_r (if base =? 16 then _ else _)).
    apply (prints_count _ _ (if base =? 16 then [if has flags FFL_CAPHEX then 88 else 120] else [])).
    + destruct (base =? 16); [apply prints_one, HS|apply prints_nothing].
    + eapply emits_eq; [apply emits_ret| |reflexivity]. rewrite app_nil_r, length_app. lia.
Qed.

Lemma prints_fill flags n width (c : C Z) :
  0 <= n < 2 ^ 32 -> 0 <= width ->
  (width < n -> c = bprintpad f (n - width) flags) -> (n <= width -> c = mret 0) ->
  prints c (Z.of_nat (length (padding flags (n - width)))) (padding flags (n - width)).
Proof.
  intros Hn Hw H1 H2. destruct (Z.ltb_spec width n) as [H|H].
  - rewrite H1, padding_length by lia. apply prints_bprintpad; [exact HS|lia].
  - rewrite H2 by lia. unfold padding. replace (Z.to_nat (n - width)) with 0%nat by lia. apply prints_nothing.
Qed.

(** Decide whether there is something to fill. *)
Ltac fill_or_not := let H := fresh in apply prints_fill; [lia..|intros H; rewrite (proj2 (Z.ltb_lt _ _) H)|
  intros H; rewrite (proj2 (Z.ltb_ge _ _) H)]; reflexivity.

Lemma prints_right flags pad count : 0 <= pad < 2 ^ 31 -> 0 <= count < 2 ^ 31 ->
  let fill := if has flags FFL_PADRIGHT then padding flags (pad - count) else [] in
  prints (pad_right f pad flags count) (Z.of_nat (length fill)) fill.
Proof.
  intros Hp Hc fill. unfold fill, pad_right. destruct (has flags FFL_PADRIGHT); [|apply prints_nothing].
  replace (to_int pad) with pad by (symmetry; apply signed_wrap; lia). cbn [andb].
  apply prints_fill; [lia..| |]; intros H.
  - rewrite (proj2 (Z.ltb_lt _ _) H), wrap_small by (unfold is_word; lia). reflexivity.
  - rewrite (proj2 (Z.ltb_ge _ _) H). reflexivity.
Qed.

Lemma prints_npad getwidth print text n pad flags :
  (forall s, getwidth n s = Done (Z.of_nat (length text)) s) -> prints (print f n) (Z.of_nat (length text)) text ->
  (length text <= 65)%nat -> 0 <= pad < 2 ^ 31 ->
  prints (print_npad getwidth print f n pad flags) (Z.of_nat (length (signed_field text n pad flags))) (signed_field text n pad flags).
Proof.
  intros Hw Hp Ht Hpad. unfold print_npad, signed_field. set (pre := sign_prefix n flags).
  assert (Hl : Z.of_nat (length pre) = if (0 <? n) && has flags (FFL_FORCESIGN .| FFL_SPACESIGN) then 1 else 0).
  { unfold pre, sign_prefix. rewrite has_lor. destruct (0 <? n); [|reflexivity].
    destruct (has flags FFL_FORCESIGN), (has flags FFL_SPACESIGN); reflexivity. }
  assert (Hlen : Z.of_nat (length (pre ++ text)) = Z.of_nat (length pre) + Z.of_nat (length text)) by (rewrite length_app; lia).
  assert (Hl1 : 0 <= Z.of_nat (length pre) <= 1) by (rewrite Hl; destruct (_ && _); lia).
  set (left := if has flags FFL_PADRIGHT then [] else padding flags (pad - Z.of_nat (length (pre ++ text)))).
  set (right := if has flags FFL_PADRIGHT then padding flags (pad - Z.of_nat (length (pre ++ text))) else []).
  assert (HL : Z.of_nat (length left) = 0 \/ has flags FFL_PADRIGHT = false).
  { unfold left. destruct (has flags FFL_PADRIGHT); auto. }
  eapply emits_eq; [apply (prints_count _ _ left _ (pre ++ text ++ right))| |].
  - unfold left. destruct (has flags FFL_PADRIGHT); [apply prints_nothing|]. cbn [negb andb].
    destruct (Z.ltb_spec 0 pad) as [H0|H0].
    + eapply emits_looks; [intros xs _; apply Hw|]. cbv zeta. rewrite Hlen, Hl.
      destruct ((0 <? n) && has flags (FFL_FORCESIGN .| FFL_SPACESIGN)).
      * rewrite (Z.add_comm 1). fill_or_not.
      * rewrite Z.add_0_l. fill_or_not.
    + unfold padding. replace (Z.to_nat _) with 0%nat by lia. apply prints_nothing.
  - cbv zeta. apply prints_count; [apply prints_sign|]. apply prints_count; [exact Hp|]. rewrite <- (app_nil_r right). apply prints_count.
    + unfold right. destruct HL as [HL|HL].
      * replace (0 + Z.of_nat (length left) + Z.of_nat (length pre) + Z.of_nat (length text))
          with (Z.of_nat (length (pre ++ text))) by lia. apply prints_right; lia.
      * unfold pad_right. rewrite HL. apply prints_nothing.
    + apply emits_ret.
  - unfold right, left, pre. destruct (has flags FFL_PADRIGHT); rewrite !length_app; cbn [length]; lia.
  - unfold left, right. destruct (has flags FFL_PADRIGHT); rewrite ?app_nil_r, ?app_assoc; reflexivity.
Qed.

Lemma prints_upad getwidth print text u base pad flags hex :
  hex = (if has flags FFL_CAPHEX then hexCharsBig else hexCharsSmall) ->
  (forall s, getwidth u base s = Done (Z.of_nat (length text)) s) -> prints (print f u base hex) (Z.of_nat (length text)) text ->
  (length text <= 65)%nat -> 0 <= pad < 2 ^ 31 ->
  prints (print_upad getwidth print f u base pad flags) (Z.of_nat (length (unsigned_field text base pad flags))) (unsigned_field text base pad flags).
Proof.
  intros Hh Hw Hp Ht Hpad. unfold print_upad, unsigned_field. set (pre := base_prefix base flags). rewrite <- Hh.
  assert (Hl2 : (length pre <= 2)%nat).
  { unfold pre, base_prefix. destruct (has flags FFL_PRINTBASE), (base =? 16), (base =? 8); cbn [length app orb]; lia. }
  set (fill := padding flags (pad - Z.of_nat (length text))).
  set (left b := if negb (has flags FFL_PADRIGHT) && Bool.eqb (has flags FFL_PADZEROS) b then fill else []).
  set (right := if has flags FFL_PADRIGHT then padding flags (pad - Z.of_nat (length (pre ++ text))) else []).
  assert (HL : forall b, Z.of_nat (length (left b)) = 0 \/ has flags FFL_PADRIGHT = false).
  { intros b. unfold left. destruct (has flags FFL_PADRIGHT); auto. }
  assert (Hleft : forall b, prints (if negb (has flags FFL_PADRIGHT) && Bool.eqb (has flags FFL_PADZEROS) b && (0 <? pad) then
      width ← getwidth u base; if width <? pad then bprintpad f (pad - width) flags else mret 0 else mret 0)
      (Z.of_nat (length (left b))) (left b)).
  { intros b. unfold left. destruct (negb _ && _); [|apply prints_nothing]. cbn [andb]. unfold fill. destruct (Z.ltb_spec 0 pad).
    - eapply emits_looks; [intros xs _; apply Hw|].
      fill_or_not.
    - unfold padding. replace (Z.to_nat _) with 0%nat by lia. apply prints_nothing. }
  eapply emits_eq; [apply (prints_count _ _ (left false) _ (pre ++ left true ++ text ++ right)); [apply Hleft|]| |].
  - cbv zeta. apply prints_count; [apply prints_base|]. apply prints_count; [apply Hleft|]. apply prints_count; [exact Hp|].
    rewrite <- (app_nil_r right). apply prints_count; [|apply emits_ret].
    unfold right. destruct (HL false) as [HF|HF]; [destruct (HL true) as [HT|HT]|].
    + replace (0 + Z.of_nat (length (left false)) + Z.of_nat (length pre) + Z.of_nat (length (left true)) + Z.of_nat (length text))
        with (Z.of_nat (length (pre ++ text))) by (rewrite length_app; lia).
      apply prints_right; [exact Hpad|rewrite length_app; lia].
    + unfold pad_right. rewrite HT. apply prints_nothing.
    + unfold pad_right. rewrite HF. apply prints_nothing.
  - unfold right, left. fold pre. destruct (has flags FFL_PADRIGHT), (has flags FFL_PADZEROS); cbn [negb andb Bool.eqb]; rewrite !length_app; cbn [length]; lia.
  - unfold left, right. destruct (has flags FFL_PADRIGHT), (has flags FFL_PADZEROS); cbn [negb andb Bool.eqb app]; rewrite ?app_nil_r, ?app_assoc; reflexivity.
Qed.
End Fields.
