(* ===== verification/PrintfProps.v ===== *)
(** * Formats

    The formats that [vbprintf] understands as a data type, the text that a format and its arguments
    stand for, and the theorems that [vsnprintf] writes this text. *)

From Stdlib Require Import ZArith Lia Bool.
From stdpp Require Import base list numbers option gmap.
From S2P Require Import Prelude CMem MemOps Heap CString CStringSpec Stdio Number Printf PrintfSpec.

(** ** The syntax of formats *)

Inductive flag := Minus | Plus | Space | Hash | Zero.
Inductive len := Short | Long | LongLong | Size.
Inductive conv := ConvD | ConvI | ConvU | ConvO | ConvHex | ConvHEX | ConvB | ConvS | ConvC | ConvPercent.

#[export] Instance conv_eq_dec : EqDecision conv.
Proof. solve_decision. Defined.

(** A conversion: flags, the digits of the width and of the precision, the length, the kind. *)
Record spec := mkspec {
  sp_flags : list flag;
  sp_width : list Z;
  sp_prec : option (list Z);
  sp_len : option len;
  sp_conv : conv
}.

Inductive piece := Lit (c : Z) | Conv (sp : spec).

Definition flag_char (x : flag) : Z :=
  match x with Minus => 45 | Plus => 43 | Space => 32 | Hash => 35 | Zero => 48 end.
Definition flag_bit (x : flag) : Z :=
  match x with
  | Minus => FFL_PADRIGHT | Plus => FFL_FORCESIGN | Space => FFL_SPACESIGN | Hash => FFL_PRINTBASE | Zero => FFL_PADZEROS
  end.
Definition len_char (x : len) : Z := match x with Short => 104 | Long => 108 | LongLong => 76 | Size => 122 end.
Definition len_bit (x : len) : Z :=
  match x with Short => FFL_SHORT | Long => FFL_LONG | LongLong => FFL_LONGLONG | Size => FFL_SIZE end.
Definition conv_char (x : conv) : Z :=
  match x with
  | ConvD => 100 | ConvI => 105 | ConvU => 117 | ConvO => 111 | ConvHex => 120 | ConvHEX => 88 | ConvB => 98
  | ConvS => 115 | ConvC => 99 | ConvPercent => 37
  end.

Definition set_flags (x : Z) (l : list flag) : Z := foldl (fun a y => a .| flag_bit y) x l.
Definition spec_flags (sp : spec) : Z :=
  match sp_len sp with None => set_flags 0 (sp_flags sp) | Some x => set_flags 0 (sp_flags sp) .| len_bit x end.
Definition spec_prec (sp : spec) : Z := match sp_prec sp with None => -1 | Some ds => value ds end.

(** The characters of a format. *)
Definition render_tail (sp : spec) : list Z :=
  match sp_len sp with None => [] | Some x => [len_char x] end ++ [conv_char (sp_conv sp)].
Definition render_prec (sp : spec) : list Z :=
  match sp_prec sp with None => [] | Some ds => 46 :: (Z.add 48 <$> ds) end.
Definition render_spec (sp : spec) : list Z :=
  (flag_char <$> sp_flags sp) ++ (Z.add 48 <$> sp_width sp) ++ render_prec sp ++ render_tail sp.
Definition render_piece (p : piece) : list Z := match p with Lit c => [c] | Conv sp => 37 :: render_spec sp end.
Definition render (ps : list piece) : list Z := ps ≫= render_piece.

(** Digits, the first of the width not being zero (which is a flag); the width fits in a [char]. *)
Definition is_digits (ds : list Z) : Prop := Forall (fun d => 0 <= d <= 9) ds.
Record spec_ok (sp : spec) : Prop := {
  so_width : is_digits (sp_width sp);
  so_lead : sp_width sp = [] \/ first (sp_width sp) <> 0;
  so_small : value (sp_width sp) <= 127;
  so_prec ds : sp_prec sp = Some ds -> is_digits ds /\ value ds < 2 ^ 31
}.
Definition piece_ok (p : piece) : Prop := match p with Lit c => 1 <= c < 256 /\ c <> 37 | Conv sp => spec_ok sp end.

(** ** The text of a format *)

Section Text.
(** The strings that arguments point to. *)
Context (str_at : Z -> list Z).

Definition string_text (x : Z) (sp : spec) : list Z :=
  let l := if x =? 0 then nullbuf else schar <$> str_at x in
  match sp_prec sp with None => l | Some ds => take (Z.to_nat (value ds)) l end.

Definition string_field (text : list Z) (pad flags : Z) : list Z :=
  let fill := padding flags (pad - Z.of_nat (length text)) in
  if has flags FFL_PADRIGHT then text ++ fill else fill ++ text.

Definition is_long (sp : spec) : bool :=
  match sp_len sp with Some Long | Some LongLong | Some Size => true | _ => false end.
Definition is_short (sp : spec) : bool := match sp_len sp with Some Short => true | _ => false end.

Definition signed_conv (sp : spec) (x : Z) : list Z :=
  let pad := value (sp_width sp) in
  if is_long sp then signed_field (signed_text (2 ^ 63) (to_long x)) (to_long x) pad (spec_flags sp)
  else
    let n := if is_short sp then to_int x .& 0xFFFF else to_int x in
    signed_field (signed_text (2 ^ 31) n) n pad (spec_flags sp).

Definition unsigned_conv (sp : spec) (base : Z) (big : bool) (x : Z) : list Z :=
  let flags := if big then spec_flags sp .| FFL_CAPHEX else spec_flags sp in
  let u := if is_long sp then wrap64 x else if is_short sp then wrap32 x .& 0xFFFF else wrap32 x in
  unsigned_field (unsigned_text (if big then hexCharsBig else hexCharsSmall) base u) base (value (sp_width sp)) flags.

Definition conv_text (sp : spec) (x : Z) : list Z :=
  match sp_conv sp with
  | ConvD | ConvI => signed_conv sp x
  | ConvU => unsigned_conv sp 10 false x
  | ConvO => unsigned_conv sp 8 false x
  | ConvHex => unsigned_conv sp 16 false x
  | ConvHEX => unsigned_conv sp 16 true x
  | ConvB => unsigned_conv sp 2 false x
  | ConvS => string_field (string_text (wrap64 x) sp) (value (sp_width sp)) (spec_flags sp)
  | ConvC => [to_char x]
  | ConvPercent => [37]
  end.

(** The text and the arguments that are not used. *)
Fixpoint output (ps : list piece) (args : list Z) : option (list Z) :=
  match ps with
  | [] => Some []
  | Lit c :: ps' => (cons (schar c)) <$> output ps' args
  | Conv sp :: ps' =>
      match sp_conv sp, args with
      | ConvPercent, _ => (app (conv_text sp 0)) <$> output ps' args
      | _, x :: args' => (app (conv_text sp x)) <$> output ps' args'
      | _, [] => None
      end
  end.

(** Every conversion finds an argument that satisfies [P]. *)
Fixpoint args_sat (P : spec -> Z -> Prop) (ps : list piece) (args : list Z) : Prop :=
  match ps with
  | [] => True
  | Lit _ :: ps' => args_sat P ps' args
  | Conv sp :: ps' =>
      match sp_conv sp, args with
      | ConvPercent, _ => args_sat P ps' args
      | _, x :: args' => P sp x /\ args_sat P ps' args'
      | _, [] => False
      end
  end.

(** A string argument is NULL or a string in memory, outside of the bytes from [lo] to [hi]. *)
Definition printable (s : process) (lo hi : Z) (sp : spec) (x : Z) : Prop :=
  sp_conv sp = ConvS ->
  (wrap64 x = 0 \/ wrap64 x <> 0 /\ cstr s (wrap64 x) (str_at (wrap64 x)) /\
     (wrap64 x + Z.of_nat (length (str_at (wrap64 x))) < lo \/ hi <= wrap64 x)) /\
  Z.of_nat (length (str_at (wrap64 x))) < 2 ^ 31.
End Text.

(** ** Reading a format *)

Lemma read_flags_done s a fl rest ap :
  cstr s a ((flag_char <$> fl) ++ rest) -> schar (first rest) ∉ [45; 43; 32; 35; 48; 42] ->
  read_flags a ap s = Done (a + Z.of_nat (length fl), set_flags 0 fl, 0, ap) s.
Proof.
  intros Sa Hr. unfold read_flags. eapply (loop_iter _ (S (length fl))).
  2: { pose proof (cs_end _ _ _ Sa) as H. rewrite length_app, length_fmap in H. pose proof (cs_pos _ _ _ Sa). lia. }
  assert (HR : forall c, c ∈ [45; 43; 32; 35; 48; 42] -> (schar (first rest) =? c) = false).
  { intros c Hc. apply Z.eqb_neq. intros E. apply Hr. rewrite E. exact Hc. }
  match goal with |- iter ?B _ _ _ _ => set (body := B) end.
  enough (G : forall x, iter body (S (length fl)) (a, x, 0, ap) s (Done (a + Z.of_nat (length fl), set_flags x fl, 0, ap) s)) by apply G.
  revert a Sa. induction fl as [|y fl IH]; intros a Sa x.
  - cbn [fmap list_fmap app length] in *. apply iter_break. unfold body. rewrite (bind_done _ _ _ _ _ (cstr_char _ _ _ Sa)).
    rewrite !HR by in_list. rewrite Z.add_0_r. reflexivity.
  - rewrite fmap_cons in Sa. cbn [app] in Sa. pose proof (cstr_next _ _ _ _ Sa) as [S' _].
    eapply (iter_next _ _ _ _ (a + 1, x .| flag_bit y, 0, ap)).
    + unfold body. rewrite (bind_done _ _ _ _ _ (cstr_char _ _ _ Sa)). destruct y; reflexivity.
    + specialize (IH (a + 1) S' (x .| flag_bit y)). cbn [set_flags foldl length] in *.
      replace (a + Z.of_nat (S (length fl))) with (a + 1 + Z.of_nat (length fl)) by lia. exact IH.
Qed.

(** A digit as a character. *)
Lemma schar_digit d : 0 <= d <= 9 -> schar (48 + d) = 48 + d.
Proof. intros H. unfold schar, signed. destruct (Z.ltb_spec (48 + d) (2 ^ (8 - 1))); lia. Qed.

Lemma read_decimal_done s a ds rest conv bound :
  cstr s a ((Z.add 48 <$> ds) ++ rest) -> is_digits ds -> value ds <= bound -> (forall x, 0 <= x <= bound -> conv x = x) ->
  (schar (first rest) < 48 \/ 57 < schar (first rest)) ->
  read_decimal conv a s = Done (a + Z.of_nat (length ds), value ds) s.
Proof.
  intros Sa Hd Hb Hc Hr. unfold read_decimal. eapply (loop_iter _ (S (length ds))).
  2: { pose proof (cs_end _ _ _ Sa) as H. rewrite length_app, length_fmap in H. pose proof (cs_pos _ _ _ Sa). lia. }
  assert (G : forall ds2 ds1 p, ds = ds1 ++ ds2 -> cstr s p ((Z.add 48 <$> ds2) ++ rest) ->
    iter (fun '(fmt, x) => c ← load_char fmt;
      if (48 <=? c) && (c <=? 57) then mret (Next (fmt + 1, conv (x * 10 + (c - 48)))) else mret (Break (fmt, x)))
      (S (length ds2)) (p, value ds1) s (Done (p + Z.of_nat (length ds2), value ds) s)).
  { induction ds2 as [|d ds2 IH]; intros ds1 p E Sp.
    - cbn [fmap list_fmap app length] in *. rewrite app_nil_r in E. subst ds1. apply iter_break. cbv beta iota.
      rewrite (bind_done _ _ _ _ _ (cstr_char _ _ _ Sp)). rewrite Z.add_0_r.
      destruct (Z.leb_spec 48 (schar (first rest))), (Z.leb_spec (schar (first rest)) 57); try reflexivity. lia.
    - rewrite fmap_cons in Sp. cbn [app] in Sp. pose proof (cstr_next _ _ _ _ Sp) as [Sp' _].
      assert (Hd' : 0 <= d <= 9 /\ is_digits (ds1 ++ [d])).
      { unfold is_digits in *. rewrite E, Forall_app, Forall_cons in Hd. rewrite Forall_app, Forall_cons. intuition. }
      destruct Hd' as [Hd1 Hd2].
      assert (Hv : value (ds1 ++ [d]) <= value ds).
      { rewrite E. change (d :: ds2) with ([d] ++ ds2). rewrite app_assoc. apply value_prefix.
        rewrite <- app_assoc. cbn [app]. rewrite <- E. exact Hd. }
      pose proof (value_nonneg _ Hd2) as Hn.
      eapply (iter_next _ _ _ _ (p + 1, value (ds1 ++ [d]))).
      + cbv beta iota. rewrite (bind_done _ _ _ _ _ (cstr_char _ _ _ Sp)). cbn [first]. rewrite schar_digit by lia.
        rewrite (proj2 (Z.leb_le 48 _)), (proj2 (Z.leb_le _ 57)) by lia. cbn [andb].
        replace (value ds1 * 10 + (48 + d - 48)) with (value (ds1 ++ [d])) by (rewrite value_snoc; lia). rewrite Hc by lia. reflexivity.
      + cbn [length]. replace (p + Z.of_nat (S (length ds2))) with (p + 1 + Z.of_nat (length ds2)) by lia.
        apply IH; [rewrite E, <- app_assoc; reflexivity|exact Sp']. }
  exact (G ds [] a eq_refl Sa).
Qed.

Lemma tail_first sp rest : let c := schar (first (render_tail sp ++ rest)) in
  (c < 48 \/ 57 < c) /\ c <> 46 /\ (c = 37 \/ 57 < c).
Proof. unfold render_tail. destruct (sp_len sp) as [[]|], (sp_conv sp); vm_compute; repeat split; first [left; reflexivity|right; reflexivity|discriminate]. Qed.

Lemma read_precision_done s a sp rest ap :
  cstr s a (render_prec sp ++ render_tail sp ++ rest) -> spec_ok sp ->
  read_precision a ap s = Done (a + Z.of_nat (length (render_prec sp)), spec_prec sp, ap) s.
Proof.
  intros Sa Hok. pose proof (tail_first sp rest) as (H1 & H2 & H3). unfold read_precision, render_prec, spec_prec in *.
  rewrite (bind_done _ _ _ _ _ (cstr_char _ _ _ Sa)). destruct (sp_prec sp) as [ds|] eqn:E; cbn [app first] in *.
  - pose proof (so_prec sp Hok ds E) as [Hd Hv]. change (schar 46 =? 46) with true. cbv iota.
    pose proof (cstr_next _ _ _ _ Sa) as [S' _]. rewrite (bind_done _ _ _ _ _ (cstr_char _ _ _ S')).
    assert (H42 : (schar (first ((Z.add 48 <$> ds) ++ render_tail sp ++ rest)) =? 42) = false).
    { apply Z.eqb_neq. destruct ds as [|d ds]; cbn [fmap list_fmap app first]; [lia|].
      apply Forall_cons_1 in Hd as [Hd _]. rewrite schar_digit; lia. }
    rewrite H42. rewrite (bind_done _ _ _ _ _ (read_decimal_done s (a + 1) ds _ to_int (2 ^ 31 - 1) S' Hd ltac:(lia)
      ltac:(intros; apply signed_wrap; lia) H1)).
    cbn [length]. rewrite length_fmap. unfold mret, C_ret. f_equal. f_equal. f_equal. lia.
  - rewrite (proj2 (Z.eqb_neq _ _) H2). cbn [length]. rewrite Z.add_0_r. reflexivity.
Qed.

Lemma read_length_done s a sp flags rest :
  cstr s a (render_tail sp ++ rest) ->
  read_length a flags s =
    Done (match sp_len sp with None => (a, flags) | Some x => (a + 1, flags .| len_bit x) end) s.
Proof.
  intros Sa. unfold read_length. rewrite (bind_done _ _ _ _ _ (cstr_char _ _ _ Sa)). unfold render_tail.
  destruct (sp_len sp) as [[]|]; [reflexivity..|]. destruct (sp_conv sp); reflexivity.
Qed.

(** ** Conversions *)

Lemma set_flags_land m x l : (forall y, flag_bit y .& m = 0) -> set_flags x l .& m = x .& m.
Proof.
  intros H. revert x. induction l as [|y l IH]; intros x; [reflexivity|]. cbn [set_flags foldl]. fold (set_flags (x .| flag_bit y) l).
  rewrite IH, Z.land_lor_distr_l, H, Z.lor_0_r. reflexivity.
Qed.

Lemma spec_flags_land m sp : (forall y, flag_bit y .& m = 0) ->
  spec_flags sp .& m = match sp_len sp with None => 0 | Some x => len_bit x .& m end.
Proof.
  intros H. unfold spec_flags. destruct (sp_len sp); rewrite ?Z.land_lor_distr_l, set_flags_land by exact H; reflexivity.
Qed.

Lemma spec_long sp : has (spec_flags sp) FFL_LONGLONG || has (spec_flags sp) FFL_LONG || has (spec_flags sp) FFL_SIZE = is_long sp.
Proof. unfold is_long. rewrite !spec_flags_land by (intros []; reflexivity). destruct (sp_len sp) as [[]|]; reflexivity. Qed.
Lemma spec_short sp : has (spec_flags sp) FFL_SHORT = is_short sp.
Proof. unfold is_short. rewrite !spec_flags_land by (intros []; reflexivity). destruct (sp_len sp) as [[]|]; reflexivity. Qed.
Lemma spec_caphex sp : has (spec_flags sp) FFL_CAPHEX = false.
Proof. rewrite !spec_flags_land by (intros []; reflexivity). destruct (sp_len sp) as [[]|]; reflexivity. Qed.

(** The bit for capital digits does not change the others. *)
Lemma caphex_land flags m : FFL_CAPHEX .& m = 0 -> (flags .| FFL_CAPHEX) .& m = flags .& m.
Proof. intros H. rewrite Z.land_lor_distr_l, H, Z.lor_0_r. reflexivity. Qed.

Lemma to_int_range x : - 2 ^ 31 <= to_int x < 2 ^ 31.
Proof. apply (signed_range 32); [lia|apply wrap_range; lia]. Qed.
Lemma to_long_range x : - 2 ^ 63 <= to_long x < 2 ^ 63.
Proof. apply (signed_range 64); [lia|apply wrap_range; lia]. Qed.
Lemma low_short x : 0 <= x .& 0xFFFF < 2 ^ 16.
Proof. change 0xFFFF with (Z.ones 16). rewrite Z.land_ones by lia. apply Z.mod_pos_bound. lia. Qed.

Section Conversions.
Context (s0 : process) (f : Z) (F : FILE) (HS : str_stream s0 f F).

Abbreviation prints c r cs := (emits s0 f F c r EOF cs).
Abbreviation text c cs := (emits s0 f F c (Z.of_nat (length cs)) EOF cs).
(** A string lies outside of the buffer. *)
Abbreviation outside a l := (a + Z.of_nat (length l) < start F \/ start F + room F <= a).

Lemma looks_first a l : cstr s0 a l -> outside a l -> looks s0 f F (load_char a) (schar (first l)).
Proof. intros Sa Ha xs Hx. apply cstr_char. apply out_cstr; trivial. Qed.

Lemma text_signed sp x : 0 <= value (sp_width sp) <= 127 ->
  text (convert_signed f x (value (sp_width sp)) (spec_flags sp)) (signed_conv sp x).
Proof.
  intros Hv. unfold convert_signed, signed_conv. rewrite spec_long, spec_short, wrap_small by (unfold is_word; lia).
  destruct (is_long sp).
  - pose proof (to_long_range x). apply prints_npad; [exact HS|intros; apply getllwidth_text; trivial|apply prints_bprintl; trivial|apply signed_text_length|lia].
  - cbv zeta. set (n := if is_short sp then to_int x .& 0xFFFF else to_int x).
    assert (Hn : - 2 ^ 31 <= n < 2 ^ 31) by (unfold n; destruct (is_short sp); [pose proof (low_short (to_int x)); lia|apply to_int_range]).
    apply prints_npad; [exact HS|intros; apply getnwidth_text; trivial|apply prints_bprintn; trivial|apply signed_text_length|lia].
Qed.

Lemma unsigned_text_length hex base u : (length (unsigned_text hex base u) <= 65)%nat.
Proof. unfold unsigned_text. rewrite length_fmap. pose proof (digits_length 64 base u). unfold digits. lia. Qed.

Lemma text_unsigned sp x c base big :
  base = (if c =? 111 then 8 else if (c =? 120) || (c =? 88) then 16 else if c =? 98 then 2 else 10) ->
  big = (c =? 88) -> 0 <= value (sp_width sp) <= 127 ->
  text (convert_unsigned f c x (value (sp_width sp)) (spec_flags sp)) (unsigned_conv sp base big x).
Proof.
  intros Hbase Hbig Hv. unfold convert_unsigned, unsigned_conv. cbv zeta. rewrite <- Hbase, <- Hbig.
  assert (Hb : 2 <= base) by (rewrite Hbase; destruct (c =? 111), ((c =? 120) || (c =? 88)), (c =? 98); lia).
  set (flags := if big then spec_flags sp .| FFL_CAPHEX else spec_flags sp).
  assert (Hl : has flags FFL_LONGLONG || has flags FFL_LONG || has flags FFL_SIZE = is_long sp).
  { unfold flags. destruct big; rewrite ?caphex_land by reflexivity; apply spec_long. }
  assert (Hs : has flags FFL_SHORT = is_short sp).
  { unfold flags. destruct big; rewrite ?caphex_land by reflexivity; apply spec_short. }
  assert (Hh : (if big then hexCharsBig else hexCharsSmall) = (if has flags FFL_CAPHEX then hexCharsBig else hexCharsSmall)).
  { unfold flags. destruct big; [|rewrite spec_caphex; reflexivity]. unfold truth. rewrite Z.land_lor_distr_l.
    change (FFL_CAPHEX .& FFL_CAPHEX) with 32. destruct (Z.eqb_spec (Z.lor (spec_flags sp .& FFL_CAPHEX) 32) 0) as [E|E]; [|reflexivity].
    apply Z.lor_eq_0_iff in E as [_ E]. discriminate. }
  rewrite Hl, Hs, (wrap_small 32 (value _)) by (unfold is_word; lia). rewrite Hh. destruct (is_long sp).
  - pose proof (wrap_range 64 x ltac:(lia)) as Hr. eapply prints_upad; [exact HS|reflexivity| | |apply unsigned_text_length|lia].
    + intros s. apply (getuwidth_text s); trivial.
    + apply prints_bprintul; trivial.
  - set (u := if is_short sp then wrap32 x .& 0xFFFF else wrap32 x).
    assert (Hr : 0 <= u < 2 ^ 32).
    { unfold u. destruct (is_short sp); [pose proof (low_short (wrap32 x)); lia|apply (wrap_range 32 x); lia]. }
    eapply prints_upad; [exact HS|reflexivity| | |apply unsigned_text_length|lia].
    + intros s. apply getuwidth_text; lia.
    + apply prints_bprintu; trivial.
Qed.

(** Strings: [bputs] stops at the end of the string or of the precision. *)
Lemma text_list l : text (put_list f l) l.
Proof.
  induction l as [|c l IH]; [apply prints_nothing|]. cbn [put_list]. apply (prints_char s0 f F HS id).
  eapply emits_eq; [apply (prints_reterr s0 f F id _ _ (Z.of_nat (length l)) _ l []); [exact IH|lia|apply emits_ret]| |apply app_nil_r].
  cbn [length]. lia.
Qed.

Lemma text_bputs a l p : cstr s0 a l -> outside a l -> 0 <= p < 2 ^ 31 ->
  text (bputs f a p) (schar <$> take (Z.to_nat p) l).
Proof.
  intros Sa Ha Hp. unfold bputs. rewrite (proj2 (Z.eqb_neq p (-1))) by lia. cbn [negb].
  pose proof (cs_end _ _ _ Sa) as He. pose proof (cs_pos _ _ _ Sa) as Hpos.
  apply (emits_loop s0 f F _ EOF (S (length (take (Z.to_nat p) l)))); [|rewrite length_take; lia].
  assert (G : forall l2 l1 q, l = l1 ++ l2 -> 0 <= q /\ Z.of_nat (length l1) + q < 2 ^ 31 ->
    rounds s0 f F (fun '(p, precision) => c ← load_char p;
      if truth c && (0 <? precision) then RETLOOP _ := bputc f c in mret (Next (p + 1, precision - 1))
      else mret (Break (signed 32 (wrap32 (p - a))))) EOF (S (length (take (Z.to_nat q) l2))) (a + Z.of_nat (length l1), q)
      (Z.of_nat (length l1) + Z.of_nat (length (take (Z.to_nat q) l2))) (schar <$> take (Z.to_nat q) l2)).
  { induction l2 as [|c l2 IH]; intros l1 q E Hq; rewrite E in Sa; pose proof (cstr_tail s0 a l1 _ Sa) as S2.
    - rewrite take_nil. apply rounds_break. eapply emits_looks; [apply (looks_first _ _ S2); rewrite E, length_app in Ha; cbn [length] in *; lia|].
      cbn [first]. change (truth (schar 0)) with false. cbn [andb]. eapply emits_eq; [apply emits_ret| |reflexivity]. f_equal. cbn [length].
      rewrite Z.add_simpl_l, (signed_wrap 32) by lia. lia.
    - assert (Hl : looks s0 f F (load_char (a + Z.of_nat (length l1))) (schar c)).
      { apply (looks_first _ _ S2). rewrite E, length_app in Ha. cbn [length] in *. lia. }
      destruct (Z.eq_dec q 0) as [->|Hq0].
      + change (Z.to_nat 0) with 0%nat. cbn [take]. apply rounds_break. eapply emits_looks; [exact Hl|]. rewrite andb_false_r.
        eapply emits_eq; [apply emits_ret| |reflexivity]. f_equal. cbn [length]. rewrite Z.add_simpl_l, (signed_wrap 32) by lia. lia.
      + replace (Z.to_nat q) with (S (Z.to_nat (q - 1))) by lia. cbn [take].
        apply (rounds_next s0 f F _ EOF _ _ (a + Z.of_nat (length (l1 ++ [c])), q - 1) _ [schar c]).
        * cbv beta iota. eapply emits_looks; [exact Hl|]. rewrite (proj2 (cstr_next _ _ _ _ S2)), (proj2 (Z.ltb_lt 0 q)) by lia. cbn [andb].
          apply (prints_char s0 f F HS Break). eapply emits_eq; [apply emits_ret| |reflexivity]. rewrite next_pos. reflexivity.
        * cbn [length]. replace (Z.of_nat (length l1) + Z.of_nat (S (length (take (Z.to_nat (q - 1)) l2))))
            with (Z.of_nat (length (l1 ++ [c])) + Z.of_nat (length (take (Z.to_nat (q - 1)) l2))) by (rewrite length_app; cbn [length]; lia).
          apply IH; [rewrite <- app_assoc; exact E|rewrite length_app; cbn [length]; lia]. }
  specialize (G l [] p eq_refl ltac:(simpl; lia)). cbn [length] in G. rewrite Z.add_0_r, Z.add_0_l in G. rewrite length_fmap. exact G.
Qed.

Lemma text_bputs_all a l : cstr s0 a l -> outside a l -> Z.of_nat (length l) < 2 ^ 31 -> text (bputs f a (-1)) (schar <$> l).
Proof.
  intros Sa Ha Hi. unfold bputs. change (negb (-1 =? -1)) with false. cbv iota.
  pose proof (cs_end _ _ _ Sa) as He. pose proof (cs_pos _ _ _ Sa) as Hpos.
  apply (emits_loop s0 f F _ EOF (S (length l))); [|lia].
  assert (G : forall l2 l1, l = l1 ++ l2 ->
    rounds s0 f F (fun p => c ← load_char p;
      if truth c then RETLOOP _ := bputc f c in mret (Next (p + 1)) else mret (Break (signed 32 (wrap32 (p - a))))) EOF
      (S (length l2)) (a + Z.of_nat (length l1)) (Z.of_nat (length l1) + Z.of_nat (length l2)) (schar <$> l2)).
  { induction l2 as [|c l2 IH]; intros l1 E; rewrite E in Sa; pose proof (cstr_tail s0 a l1 _ Sa) as S2.
    - apply rounds_break. eapply emits_looks; [apply (looks_first _ _ S2); rewrite E, length_app in Ha; cbn [length] in *; lia|].
      change (truth (schar (first []))) with false. eapply emits_eq; [apply emits_ret| |reflexivity]. f_equal. cbn [length].
      rewrite E, length_app in Hi. rewrite Z.add_simpl_l, (signed_wrap 32) by lia. lia.
    - apply (rounds_next s0 f F _ EOF _ _ (a + Z.of_nat (length (l1 ++ [c]))) _ [schar c]).
      + eapply emits_looks; [apply (looks_first _ _ S2); rewrite E, length_app in Ha; cbn [length] in *; lia|].
        cbn [first]. rewrite (proj2 (cstr_next _ _ _ _ S2)).
        apply (prints_char s0 f F HS Break). eapply emits_eq; [apply emits_ret| |reflexivity]. rewrite next_pos. reflexivity.
      + cbn [length]. replace (Z.of_nat (length l1) + Z.of_nat (S (length l2)))
          with (Z.of_nat (length (l1 ++ [c])) + Z.of_nat (length l2)) by (rewrite length_app; cbn [length]; lia).
        apply IH. rewrite <- app_assoc. exact E. }
  specialize (G l [] eq_refl). cbn [length] in G. rewrite Z.add_0_r, Z.add_0_l in G. rewrite length_fmap. exact G.
Qed.

Context (str_at : Z -> list Z).

(** The argument is NULL or points to a string. *)
Definition string_arg (x : Z) : Prop :=
  x = 0 \/ x <> 0 /\ cstr s0 x (str_at x) /\ outside x (str_at x).

Lemma spec_prec_cases sp : spec_ok sp ->
  (sp_prec sp = None /\ spec_prec sp = -1) \/
  (exists ds, sp_prec sp = Some ds /\ spec_prec sp = value ds /\ 0 <= value ds < 2 ^ 31).
Proof.
  intros Hok. unfold spec_prec. destruct (sp_prec sp) as [ds|] eqn:E; [right|left; auto].
  destruct (so_prec sp Hok ds E) as [Hd Hv]. exists ds. pose proof (value_nonneg ds Hd). auto.
Qed.

Lemma text_put x sp : spec_ok sp -> string_arg x -> Z.of_nat (length (str_at x)) < 2 ^ 31 ->
  text (if x =? 0 then put_list f (if spec_prec sp =? -1 then nullbuf else take (Z.to_nat (spec_prec sp)) nullbuf)
        else bputs f x (spec_prec sp)) (string_text str_at x sp).
Proof.
  intros Hok Hx Hi. unfold string_text.
  destruct (spec_prec_cases sp Hok) as [[E ->]|(ds & E & -> & Hv)]; rewrite E; destruct Hx as [->|(Hx & Sx & Ho)].
  - apply text_list.
  - rewrite (proj2 (Z.eqb_neq _ _) Hx). apply text_bputs_all; trivial.
  - rewrite (proj2 (Z.eqb_neq (value ds) (-1))) by lia. apply text_list.
  - rewrite (proj2 (Z.eqb_neq _ _) Hx), <- fmap_take. apply text_bputs; trivial; lia.
Qed.

Lemma string_width x sp : spec_ok sp -> string_arg x -> Z.of_nat (length (str_at x)) < 2 ^ 31 ->
  looks s0 f F (if x =? 0 then mret (Z.of_nat (length nullbuf)) else strlen x)
    (if x =? 0 then Z.of_nat (length nullbuf) else Z.of_nat (length (str_at x))) /\
  wrap32 (if spec_prec sp =? -1 then (if x =? 0 then Z.of_nat (length nullbuf) else Z.of_nat (length (str_at x)))
          else Z.min (if x =? 0 then Z.of_nat (length nullbuf) else Z.of_nat (length (str_at x))) (wrap64 (spec_prec sp)))
    = Z.of_nat (length (string_text str_at x sp)).
Proof.
  intros Hok Hx Hl. split.
  - destruct Hx as [->|(Hx & Sx & Ho)]; [apply looks_ret|]. rewrite (proj2 (Z.eqb_neq _ _) Hx). intros xs Hf.
    apply strlen_done. apply out_cstr; trivial.
  - unfold string_text. assert (Hn : forall l : list Z, (if x =? 0 then Z.of_nat (length nullbuf) else Z.of_nat (length (str_at x))) =
      Z.of_nat (length (if x =? 0 then nullbuf else schar <$> str_at x))) by (intros _; destruct (x =? 0); rewrite ?length_fmap; reflexivity).
    rewrite (Hn []). set (l := if x =? 0 then nullbuf else schar <$> str_at x).
    assert (Hb : Z.of_nat (length l) < 2 ^ 31) by (unfold l; destruct (x =? 0); rewrite ?length_fmap; [cbn; lia|exact Hl]).
    destruct (spec_prec_cases sp Hok) as [[E ->]|(ds & E & -> & Hv)]; rewrite E.
    + change (-1 =? -1) with true. cbv iota. apply wrap_small. unfold is_word. lia.
    + rewrite (proj2 (Z.eqb_neq (value ds) (-1))), (wrap_small 64), (wrap_small 32), length_take by (unfold is_word; lia). lia.
Qed.

Lemma text_string sp x : spec_ok sp -> string_arg x -> Z.of_nat (length (str_at x)) < 2 ^ 31 -> 0 <= value (sp_width sp) <= 127 ->
  text (convert_string f x (value (sp_width sp)) (spec_flags sp) (spec_prec sp))
    (string_field (string_text str_at x sp) (value (sp_width sp)) (spec_flags sp)).
Proof.
  intros Hok Hx Hl Hv. destruct (string_width x sp Hok Hx Hl) as [Hw Hwidth]. unfold convert_string, string_field.
  set (T := string_text str_at x sp) in *. set (pad := value (sp_width sp)) in *. set (flags := spec_flags sp).
  assert (HT : Z.of_nat (length T) < 2 ^ 31).
  { unfold T, string_text. destruct (sp_prec sp); rewrite ?length_take; destruct (x =? 0); rewrite ?length_fmap; cbn [length nullbuf]; lia. }
  set (left := if has flags FFL_PADRIGHT then [] else padding flags (pad - Z.of_nat (length T))).
  set (right := if has flags FFL_PADRIGHT then padding flags (pad - Z.of_nat (length T)) else []).
  eapply emits_eq; [apply (prints_count s0 f F _ _ left _ (T ++ right))| |].
  - unfold left. destruct (has flags FFL_PADRIGHT); [rewrite andb_false_r; apply prints_nothing|]. rewrite andb_true_r.
    destruct (Z.ltb_spec 0 pad) as [H0|H0].
    + eapply emits_looks; [exact Hw|]. cbv zeta. rewrite Hwidth.
      replace (to_int (Z.of_nat (length T))) with (Z.of_nat (length T)) by (symmetry; apply signed_wrap; lia).
      apply (prints_fill s0 f F HS); [lia..| |]; intros H1.
      * rewrite (proj2 (Z.ltb_lt _ _) H1), wrap_small by (unfold is_word; lia). reflexivity.
      * rewrite (proj2 (Z.ltb_ge _ _) H1). reflexivity.
    + unfold padding. replace (Z.to_nat _) with 0%nat by lia. apply prints_nothing.
  - cbv zeta. apply (prints_count s0 f F); [apply text_put; trivial|]. rewrite <- (app_nil_r right). apply (prints_count s0 f F); [|apply emits_ret].
    unfold right. destruct (has flags FFL_PADRIGHT); [|rewrite andb_false_r; apply prints_nothing]. rewrite andb_true_r.
    apply (prints_fill s0 f F HS); [lia..| |]; intros H1.
    + rewrite (proj2 (Z.ltb_lt _ _) H1). reflexivity.
    + rewrite (proj2 (Z.ltb_ge _ _) H1). reflexivity.
  - unfold left, right. destruct (has flags FFL_PADRIGHT); rewrite !length_app; cbn [length]; lia.
  - unfold left, right. destruct (has flags FFL_PADRIGHT); rewrite ?app_nil_r; reflexivity.
Qed.

Context (bprintdblpad : Z -> Z -> bool -> Z -> Z -> Z -> C Z).

(** What an argument of a conversion has to be. *)
Abbreviation arg_ok := (printable str_at s0 (start F) (start F + room F)).

Lemma emits_with_arg x ap (print : Z -> C Z) T : text (print x) T ->
  emits s0 f F ('(x, ap) ← va_arg (x :: ap); r ← print x; mret (r, ap)) (Z.of_nat (length T), ap) (EOF, ap) T.
Proof.
  intros H. eapply emits_looks; [intros xs _; reflexivity|]. cbv beta iota. rewrite <- (app_nil_r T) at 2.
  eapply emits_bind; [exact H|apply emits_ret|reflexivity].
Qed.

Lemma emits_convert sp count x ap :
  spec_ok sp -> arg_ok sp x -> sp_conv sp <> ConvPercent ->
  emits s0 f F (convert bprintdblpad f (conv_char (sp_conv sp)) (spec_flags sp) (value (sp_width sp)) (spec_prec sp) count (x :: ap))
    (Z.of_nat (length (conv_text str_at sp x)), ap) (EOF, ap) (conv_text str_at sp x).
Proof.
  intros Hok Hx Hc. pose proof (value_nonneg _ (so_width sp Hok)) as Hv. pose proof (so_small sp Hok) as Hs.
  unfold convert, conv_text, printable in *. destruct (sp_conv sp); cbn -[convert_signed convert_unsigned convert_string va_arg mbind mret]; try contradiction;
    apply emits_with_arg.
  1, 2: apply text_signed; lia.
  1-5: apply text_unsigned; [reflexivity..|lia].
  - destruct (Hx eq_refl) as [H1 H2]. apply text_string; trivial; lia.
  - apply prints_one, HS.
Qed.

Lemma emits_percent sp count ap : spec_ok sp -> sp_conv sp = ConvPercent ->
  emits s0 f F (convert bprintdblpad f (conv_char (sp_conv sp)) (spec_flags sp) (value (sp_width sp)) (spec_prec sp) count ap)
    (1, ap) (EOF, ap) [37].
Proof.
  intros Hok ->. unfold convert. cbn -[mbind mret bputc reterr]. rewrite <- (app_nil_r [37]).
  eapply emits_bind; [apply prints_one, HS|apply emits_ret|reflexivity].
Qed.

(** No digit follows the width. *)
Lemma prec_first sp rest : let c := schar (first (render_prec sp ++ render_tail sp ++ rest)) in c < 48 \/ 57 < c.
Proof. unfold render_prec. destruct (sp_prec sp); [left; reflexivity|apply tail_first]. Qed.

(** What follows the flags is no flag. *)
Lemma width_first sp rest : spec_ok sp ->
  schar (first ((Z.add 48 <$> sp_width sp) ++ render_prec sp ++ render_tail sp ++ rest)) ∉ [45; 43; 32; 35; 48; 42].
Proof.
  intros Hok Hin. assert (HI : forall c, c ∈ [45; 43; 32; 35; 48; 42] -> c <= 48 /\ c <> 37 /\ c <> 46).
  { intros c Hc. repeat (apply elem_of_cons in Hc as [->|Hc]; [lia|]). inversion Hc. }
  apply HI in Hin. pose proof (tail_first sp rest) as (T1 & T2 & T3). destruct (so_lead sp Hok) as [E|E].
  - rewrite E in Hin. cbn [fmap list_fmap app] in Hin. unfold render_prec in Hin.
    destruct (sp_prec sp); cbn [app first] in Hin; [change (schar 46) with 46 in Hin; lia|lia].
  - pose proof (so_width sp Hok) as Hd. destruct (sp_width sp) as [|d ds]; [contradiction|]. apply Forall_cons_1 in Hd as [Hd _].
    cbn [fmap list_fmap app first] in Hin, E. rewrite schar_digit in Hin by lia. lia.
Qed.

Lemma after_length sp rest a : cstr s0 a (render_tail sp ++ rest) ->
  cstr s0 (match sp_len sp with None => a | Some _ => a + 1 end) (conv_char (sp_conv sp) :: rest).
Proof.
  unfold render_tail. destruct (sp_len sp); cbn [app]; intros Sa; [apply (cstr_next _ _ _ _ Sa)|exact Sa].
Qed.

(** The part of a format that is read before the conversion. *)
Lemma emits_directive sp a count ap rest r ap' T :
  spec_ok sp -> cstr s0 a (render_spec sp ++ rest) -> outside a (render_spec sp ++ rest) ->
  emits s0 f F (convert bprintdblpad f (conv_char (sp_conv sp)) (spec_flags sp) (value (sp_width sp)) (spec_prec sp) count ap) (r, ap') (EOF, ap') T ->
  let e := a + Z.of_nat (length (render_spec sp)) in
  emits s0 f F (directive bprintdblpad f a count ap) (e, r, ap') (e, EOF, ap') T.
Proof.
  intros Hok Sa Ha Hc. unfold directive. unfold render_spec in Sa, Ha. rewrite <- !app_assoc in Sa, Ha.
  pose proof (tail_first sp rest) as (T1 & T2 & T3).
  set (a1 := a + Z.of_nat (length (sp_flags sp))). set (a2 := a1 + Z.of_nat (length (sp_width sp))).
  set (a3 := a2 + Z.of_nat (length (render_prec sp))).
  assert (E1 : a1 = a + Z.of_nat (length (sp_flags sp))) by reflexivity.
  assert (E2 : a2 = a1 + Z.of_nat (length (sp_width sp))) by reflexivity.
  assert (E3 : a3 = a2 + Z.of_nat (length (render_prec sp))) by reflexivity.
  pose proof (cstr_tail s0 a _ _ Sa) as S1. rewrite length_fmap in S1. fold a1 in S1.
  pose proof (cstr_tail s0 a1 _ _ S1) as S2. rewrite length_fmap in S2. fold a2 in S2.
  pose proof (cstr_tail s0 a2 _ _ S2) as S3. fold a3 in S3.
  rewrite !length_app, !length_fmap in Ha. rewrite !Nat2Z.inj_add in Ha.
  assert (Hout : forall xs, fits F xs -> cstr (out_state s0 f F xs) a ((flag_char <$> sp_flags sp) ++ (Z.add 48 <$> sp_width sp) ++ render_prec sp ++ render_tail sp ++ rest) /\
    cstr (out_state s0 f F xs) a1 ((Z.add 48 <$> sp_width sp) ++ render_prec sp ++ render_tail sp ++ rest) /\
    cstr (out_state s0 f F xs) a2 (render_prec sp ++ render_tail sp ++ rest) /\ cstr (out_state s0 f F xs) a3 (render_tail sp ++ rest)).
  { intros xs Hx. split; [|split; [|split]]; apply out_cstr; trivial; rewrite ?length_app, ?length_fmap; lia. }
  pose proof (prec_first sp rest) as HP. pose proof (width_first sp rest Hok) as HW.
  eapply emits_looks; [intros xs Hx; apply (read_flags_done _ a (sp_flags sp) _ ap (proj1 (Hout xs Hx)) HW)|]. cbv beta iota. fold a1.
  eapply emits_looks.
  { intros xs Hx. change (0 =? 0) with true. cbv iota.
    apply (read_decimal_done _ a1 (sp_width sp) _ to_char 127 (proj1 (proj2 (Hout xs Hx))) (so_width sp Hok) (so_small sp Hok)); [|exact HP].
    intros y Hy. apply signed_wrap; lia. }
  cbv beta iota. fold a2. eapply emits_looks; [intros xs Hx; apply (read_precision_done _ a2 sp rest ap); [apply Hout, Hx|exact Hok]|]. cbv beta iota. fold a3.
  eapply emits_looks; [intros xs Hx; apply (read_length_done _ a3 sp _ rest); apply Hout, Hx|].
  set (a4 := match sp_len sp with None => a3 | Some _ => a3 + 1 end).
  assert (E4 : match sp_len sp with None => (a3, set_flags 0 (sp_flags sp)) | Some x => (a3 + 1, set_flags 0 (sp_flags sp) .| len_bit x) end = (a4, spec_flags sp))
    by (unfold a4, spec_flags; destruct (sp_len sp); reflexivity).
  rewrite E4. cbv beta iota.
  assert (S4 : cstr s0 a4 (conv_char (sp_conv sp) :: rest) /\ a4 + 1 = a + Z.of_nat (length (render_spec sp)) /\ outside a4 (conv_char (sp_conv sp) :: rest)).
  { split; [apply after_length, S3|]. unfold a4, render_spec, render_tail in *.
    destruct (sp_len sp); rewrite ?length_app in Ha; rewrite !length_app, !length_fmap; cbn [length] in *; lia. }
  destruct S4 as (S4 & E & H4). rewrite <- E. eapply emits_looks; [apply (looks_first _ _ S4 H4)|]. cbn [first].
  replace (schar (conv_char (sp_conv sp))) with (conv_char (sp_conv sp)) by (destruct (sp_conv sp); reflexivity).
  rewrite <- (app_nil_r T). eapply emits_bind; [exact Hc|apply emits_ret|reflexivity].
Qed.

Lemma conv_step ps sp args T : output str_at (Conv sp :: ps) args = Some T -> args_sat arg_ok (Conv sp :: ps) args -> spec_ok sp ->
  exists args' T1 T2, T = T1 ++ T2 /\ output str_at ps args' = Some T2 /\ args_sat arg_ok ps args' /\
    forall count, emits s0 f F (convert bprintdblpad f (conv_char (sp_conv sp)) (spec_flags sp) (value (sp_width sp)) (spec_prec sp) count args)
      (Z.of_nat (length T1), args') (EOF, args') T1.
Proof.
  intros HT Ha Hok. cbn [output args_sat] in HT, Ha. destruct (decide (sp_conv sp = ConvPercent)) as [E|E].
  - rewrite E in HT, Ha. unfold conv_text in HT. rewrite E in HT. apply fmap_Some in HT as (T2 & HT & ->).
    exists args, [37], T2. repeat (split; [trivial|]). intros count. apply emits_percent; trivial.
  - assert (H : exists x args', args = x :: args' /\ arg_ok sp x /\ args_sat arg_ok ps args' /\
      (app (conv_text str_at sp x)) <$> output str_at ps args' = Some T).
    { destruct args as [|x args']; [destruct (sp_conv sp); contradiction|].
      exists x, args'. split; [reflexivity|]. destruct (sp_conv sp); try contradiction; destruct Ha; auto. }
    destruct H as (x & args' & -> & Hx & Ha' & HT'). apply fmap_Some in HT' as (T2 & HT' & ->).
    exists args', (conv_text str_at sp x), T2. repeat (split; [trivial|]). intros count. apply emits_convert; trivial.
Qed.

Lemma text_vbprintf ps a args T :
  Forall piece_ok ps -> cstr s0 a (render ps) -> outside a (render ps) -> args_sat arg_ok ps args -> output str_at ps args = Some T ->
  Z.of_nat (length T) < 2 ^ 31 -> text (vbprintf bprintdblpad f a args) T.
Proof.
  intros Hok Sa Ha Hargs HT HI. unfold vbprintf.
  assert (Hint : forall x, 0 <= x < 2 ^ 31 -> to_int x = x) by (intros x Hx; apply signed_wrap; lia).
  assert (HL : forall l : list piece, (length l <= length (render l))%nat).
  { induction l as [|p l IH]; [reflexivity|]. unfold render in *. cbn [mbind list_bind length]. rewrite length_app. destruct p; cbn [render_piece length]; lia. }
  apply (emits_loop s0 f F _ EOF (S (length ps))); [|specialize (HL ps); pose proof (cs_end _ _ _ Sa); pose proof (cs_pos _ _ _ Sa); lia].
  match goal with |- rounds _ _ _ ?B _ _ _ _ _ => set (body := B) end.
  enough (G : forall count, 0 <= count -> count + Z.of_nat (length T) < 2 ^ 31 ->
    rounds s0 f F body EOF (S (length ps)) (a, args, count) (count + Z.of_nat (length T)) T) by (apply (G 0); lia).
  clear HL HI. revert a args T Sa Ha Hargs HT. induction Hok as [|p ps Hp _ IH]; intros a args T Sa Ha Hargs HT count Hc0 Hc1.
  - injection HT as <-. apply rounds_break. unfold body. eapply emits_looks; [apply (looks_first _ _ Sa Ha)|].
    eapply emits_eq; [apply emits_ret| |reflexivity]. cbn [length]. rewrite Z.add_0_r. reflexivity.
  - unfold render in Sa, Ha. cbn [mbind list_bind] in Sa, Ha. fold (render ps) in Sa, Ha. destruct p as [c|sp]; cbn [render_piece app] in Sa, Ha.
    + destruct Hp as [Hc H37]. cbn [output args_sat] in HT, Hargs. apply fmap_Some in HT as (T2 & HT & ->).
      pose proof (cstr_next _ _ _ _ Sa) as [S1 Ht]. cbn [length].
      apply (rounds_next s0 f F _ EOF _ _ (a + 1, args, count + 1) _ [schar c]).
      * unfold body. eapply emits_looks; [apply (looks_first _ _ Sa Ha)|]. cbn [first].
        change 37 with (schar 37) at 1. rewrite schar_inj, (proj2 (Z.eqb_neq _ _) H37) by lia. apply negb_true_iff in Ht. rewrite Ht.
        apply (prints_char s0 f F HS Break). rewrite Hint by (cbn [length] in Hc1; lia). apply emits_ret.
      * replace (count + Z.of_nat (S (length T2))) with (count + 1 + Z.of_nat (length T2)) by lia.
        apply IH; trivial; [cbn [length] in Ha; lia|lia|cbn [length] in Hc1; lia].
    + pose proof (cstr_next _ _ _ _ Sa) as [S1 _]. destruct (conv_step ps sp args T HT Hargs Hp) as (args' & T1 & T2 & -> & HT' & Ha' & Hconv).
      assert (S2 : cstr s0 (a + 1 + Z.of_nat (length (render_spec sp))) (render ps)) by apply (cstr_tail s0 (a + 1) _ _ S1).
      cbn [length] in Ha |- *. rewrite length_app in Ha |- *.
      apply (rounds_next s0 f F _ EOF _ _ (a + 1 + Z.of_nat (length (render_spec sp)), args', count + Z.of_nat (length T1))).
      * unfold body. eapply emits_looks; [apply (looks_first _ _ Sa); cbn [length]; rewrite length_app; lia|].
        cbn [first]. change (schar 37 =? 37) with true. cbv iota. eapply emits_eq; [eapply emits_bind| |apply app_nil_r].
        -- apply (emits_directive sp (a + 1) count args (render ps)); [exact Hp|exact S1|rewrite length_app; lia|apply Hconv].
        -- cbv beta iota. rewrite (proj2 (Z.ltb_ge _ _)) by lia. rewrite length_app in Hc1. rewrite Hint by lia. apply emits_ret.
        -- reflexivity.
        -- reflexivity.
      * replace (count + Z.of_nat (length T1 + length T2)) with (count + Z.of_nat (length T1) + Z.of_nat (length T2)) by lia.
        rewrite length_app in Hc1. apply IH; trivial; lia.
Qed.
End Conversions.

(** ** [snprintf] *)

Lemma args_sat_mono (P Q : spec -> Z -> Prop) ps args :
  (forall sp x, P sp x -> Q sp x) -> args_sat P ps args -> args_sat Q ps args.
Proof.
  intros H. revert args. induction ps as [|[c|sp] ps IH]; intros args; cbn [args_sat]; [trivial|apply IH|].
  destruct (sp_conv sp), args; firstorder.
Qed.

Lemma wrote_chars m a xs : wrote m (put_chars m a xs) a (wrap8 <$> xs).
Proof.
  split.
  - intros i c Hi. rewrite list_lookup_fmap in Hi. apply fmap_Some in Hi as (x & Hx & ->). apply put_chars_at, Hx.
  - intros y Hy. rewrite length_fmap in Hy. apply put_chars_other, Hy.
Qed.

(** The stream of [vsnprintf]. *)
Definition sprint_file (str n : Z) : FILE := mkfile O_WRITE false 0 0 no_buffer (mkiobuf (-1) 0 (n -o 1) false str) 0 0.

Lemma vsnprintf_run bprintdblpad s str n fmt args xs r :
  io_files (p_io s) !! sbuf = None -> 0 < str -> 2 <= n -> str + n <= 2 ^ 64 -> mapped s str (str + n) ->
  Z.of_nat (length xs) <= n - 1 ->
  vbprintf bprintdblpad sbuf fmt args (with_file sbuf (sprint_file str n) s) =
    Done r (out_state (with_file sbuf (sprint_file str n) s) sbuf (sprint_file str n) xs) ->
  exists m, vsnprintf bprintdblpad str n fmt args s = Done r (set_mem m s) /\ wrote (p_mem s) m str ((wrap8 <$> xs) ++ [0]).
Proof.
  intros Hf Hs Hn He Hm Hx Hr. set (F := sprint_file str n) in *. set (s0 := with_file sbuf F s) in *.
  exists (put 1 (str + Z.of_nat (length xs)) 0 (put_chars (p_mem s) str xs)). split.
  - unfold vsnprintf. assert (Hb : binit sbuf (-1) O_WRITE str 0 (n -o 1) false s = Done true s0).
    { unfold binit, init_buffer. change (O_WRITE .& O_RDWR =? O_RDWR) with false. change (truth (O_WRITE .& O_WRITE)) with true.
      change (truth (O_WRITE .& O_READ)) with false. rewrite orb_true_r. cbn [negb orb andb].
      rewrite (wrap_small 64 (n - 1)) by (unfold is_word; lia). rewrite (proj2 (Z.ltb_lt 0 (n - 1))) by lia.
      assert (Ht : truth str = true) by (apply negb_true_iff, Z.eqb_neq; lia). rewrite Ht. unfold vassert, mbind, C_bind, mret, C_ret. cbv beta iota.
      rewrite (proj2 (Z.eqb_neq str 0)) by lia. unfold s0, F, sprint_file. rewrite (wrap_small 64 (n - 1)) by (unfold is_word; lia). reflexivity. }
    rewrite (bind_done _ _ _ _ _ Hb). cbn [negb]. rewrite (bind_done _ _ _ _ _ Hr).
    assert (Hg : get_file sbuf (out_state s0 sbuf F xs) =
      Done (set_out (set_pos (io_pos (f_out F) + Z.of_nat (length xs)) (f_out F)) F) (out_state s0 sbuf F xs))
      by (unfold get_file; rewrite out_file; reflexivity).
    rewrite (bind_done _ _ _ _ _ Hg).
    cbn [f_out set_out set_pos io_pos F sprint_file].
    rewrite bind_store by (intros y Hy; apply Hm; lia). unfold drop_file, modify, mbind, C_bind, mret, C_ret. f_equal.
    destruct s as [pm pmp pe pg ph pl [fi st ac re inc]]. unfold out_state, s0, with_file, set_io, set_mem, set_files, start. cbn in Hf |- *.
    rewrite insert_insert_eq, delete_insert_eq, delete_id by exact Hf. rewrite Z.add_0_r. reflexivity.
  - pose proof (wrote_snoc _ _ _ _ 0 (wrote_chars (p_mem s) str xs) ltac:(lia)) as H. rewrite length_fmap in H. exact H.
Qed.

Lemma snprintf_text bprintdblpad str_at s str n fmt ps args T :
  io_files (p_io s) !! sbuf = None -> 0 < str -> 2 <= n -> str + n <= 2 ^ 64 -> mapped s str (str + n) ->
  Forall piece_ok ps -> cstr s fmt (render ps) -> (fmt + Z.of_nat (length (render ps)) < str \/ str + n <= fmt) ->
  args_sat (printable str_at s str (str + n)) ps args -> output str_at ps args = Some T ->
  Z.of_nat (length T) < 2 ^ 31 ->
  exists m, snprintf bprintdblpad str n fmt args s =
      Done (if Z.of_nat (length T) <=? n - 1 then Z.of_nat (length T) else EOF) (set_mem m s) /\
    wrote (p_mem s) m str ((wrap8 <$> take (Z.to_nat (n - 1)) T) ++ [0]).
Proof.
  intros Hf Hs Hn He Hm Hok Hfmt Hout Hargs HT HI. unfold snprintf.
  set (F := sprint_file str n). set (s0 := with_file sbuf F s).
  assert (Hn1 : n -o 1 = n - 1) by (apply wrap_small; unfold is_word; lia).
  assert (HS : str_stream s0 sbuf F).
  { split; cbn; rewrite ?Hn1; trivial; try lia; [apply lookup_insert_eq|]. intros y Hy. apply Hm. lia. }
  assert (HR : room F = n - 1) by (unfold room; cbn; rewrite Hn1; lia). assert (HB : start F = str) by (unfold start; cbn; lia).
  assert (HC : forall a l, cstr s a l -> cstr s0 a l) by (intros a l [C1 C2 C3 C4 C5 C6]; split; trivial).
  assert (Hrun : emits s0 sbuf F (vbprintf bprintdblpad sbuf fmt args) (Z.of_nat (length T)) EOF T).
  { apply (text_vbprintf s0 sbuf F HS str_at bprintdblpad ps); trivial; [apply HC, Hfmt|lia|].
    eapply args_sat_mono; [|exact Hargs]. intros sp x Hp HcS. destruct (Hp HcS) as [[H|(H0 & H1 & H2)] Hl]; split; auto.
    right. split; [exact H0|]. split; [apply HC, H1|]. lia. }
  specialize (Hrun [] ltac:(unfold fits; cbn [length]; lia)). rewrite (out_state_nil s0 sbuf F HS), HR in Hrun. cbn [length app] in Hrun.
  rewrite Z.add_0_l in Hrun. destruct (Z.leb_spec (Z.of_nat (length T)) (n - 1)) as [H|H].
  - rewrite take_ge by lia. apply vsnprintf_run; trivial.
  - apply vsnprintf_run; trivial. rewrite length_take. lia.
Qed.

(** ** What the documentation promises

    The text of a conversion in the words of include/stdio.h: a sign or a prefix, the digits, and
    blanks or zeros up to the width. *)

#[export] Instance flag_eq_dec : EqDecision flag.
Proof. solve_decision. Defined.

Definition flagged (x : flag) (sp : spec) : bool := bool_decide (x ∈ sp_flags sp).

Section Documented.
Context (str_at : Z -> list Z).

(** Left-justified with [-], right-justified otherwise; [0] pads the number with zeros. *)
Definition field (sp : spec) (prefix text : list Z) : list Z :=
  let n := Z.to_nat (value (sp_width sp) - Z.of_nat (length (prefix ++ text))) in
  if flagged Minus sp then prefix ++ text ++ replicate n 32
  else if flagged Zero sp then prefix ++ replicate n 48 ++ text
  else replicate n 32 ++ prefix ++ text.

Definition signed_arg (sp : spec) (x : Z) : Z := if is_long sp then to_long x else to_int x.

Definition doc_signed (sp : spec) (x : Z) : list Z :=
  let n := signed_arg sp x in
  field sp (if n <? 0 then [45] else if flagged Plus sp then [43] else if flagged Space sp then [32] else [])
    (Z.add 48 <$> digits 10 (Z.abs n)).

Definition doc_unsigned (sp : spec) (base : Z) (prefix hexchars : list Z) (x : Z) : list Z :=
  let u := if is_long sp then x mod 2 ^ 64 else if is_short sp then x mod 2 ^ 16 else x mod 2 ^ 32 in
  field sp (if flagged Hash sp then prefix else []) ((fun d => nth (Z.to_nat d) hexchars 0) <$> digits base u).

Definition doc_text (sp : spec) (x : Z) : list Z :=
  match sp_conv sp with
  | ConvD | ConvI => doc_signed sp x
  | ConvU => doc_unsigned sp 10 [] hexCharsSmall x
  | ConvO => doc_unsigned sp 8 [48] hexCharsSmall x
  | ConvHex => doc_unsigned sp 16 [48; 120] hexCharsSmall x
  | ConvHEX => doc_unsigned sp 16 [48; 88] hexCharsBig x
  | ConvB => doc_unsigned sp 2 [] hexCharsSmall x
  | ConvS => field sp [] (string_text str_at (wrap64 x) sp)
  | ConvC => [to_char x]
  | ConvPercent => [37]
  end.

Fixpoint doc_output (ps : list piece) (args : list Z) : option (list Z) :=
  match ps with
  | [] => Some []
  | Lit c :: ps' => (cons (schar c)) <$> doc_output ps' args
  | Conv sp :: ps' =>
      match sp_conv sp, args with
      | ConvPercent, _ => (app (doc_text sp 0)) <$> doc_output ps' args
      | _, x :: args' => (app (doc_text sp x)) <$> doc_output ps' args'
      | _, [] => None
      end
  end.

(** The conversions for which the code keeps to it.  Integers: no precision, zeros only at the left, d and i without h, a
    prefix only without a width or left-justified. *)
Record doc_spec (sp : spec) : Prop := {
  ds_int : sp_conv sp <> ConvS -> sp_prec sp = None;
  ds_zero : Zero ∈ sp_flags sp -> Minus ∉ sp_flags sp /\ sp_conv sp <> ConvS;
  ds_short : sp_conv sp ∈ [ConvD; ConvI] -> sp_len sp <> Some Short;
  ds_sign : Plus ∈ sp_flags sp \/ Space ∈ sp_flags sp -> sp_conv sp ∈ [ConvD; ConvI];
  ds_hash : Hash ∈ sp_flags sp -> sp_conv sp ∈ [ConvO; ConvHex; ConvHEX] /\ (Minus ∈ sp_flags sp \/ sp_width sp = []);
  ds_char : sp_conv sp ∈ [ConvC; ConvPercent] -> sp_width sp = []
}.
Definition doc_piece (p : piece) : Prop := match p with Lit _ => True | Conv sp => doc_spec sp end.

(** The arguments for which it does: not the smallest number, no zeros before a sign, no sign of 0. *)
Definition doc_arg (sp : spec) (x : Z) : Prop := sp_conv sp ∈ [ConvD; ConvI] ->
  let n := signed_arg sp x in
  n <> - 2 ^ (if is_long sp then 63 else 31) /\
  (Zero ∈ sp_flags sp -> 0 <= n /\ Plus ∉ sp_flags sp /\ Space ∉ sp_flags sp) /\
  (Plus ∈ sp_flags sp \/ Space ∈ sp_flags sp -> n <> 0).

Lemma has_lor_l a b m : has (a .| b) m = has a m || has b m.
Proof. rewrite Z.land_comm, has_lor, (Z.land_comm m a), (Z.land_comm m b). reflexivity. Qed.

Lemma set_flags_has x l y : has (set_flags x l) (flag_bit y) = has x (flag_bit y) || bool_decide (y ∈ l).
Proof.
  revert x. induction l as [|z l IH]; intros x; [rewrite orb_false_r; reflexivity|].
  change (set_flags x (z :: l)) with (set_flags (x .| flag_bit z) l). rewrite IH, has_lor_l, <- orb_assoc. f_equal.
  replace (has (flag_bit z) (flag_bit y)) with (bool_decide (y = z)) by (destruct y, z; reflexivity).
  destruct (decide (y = z)) as [->|Hne]; [rewrite (bool_decide_true (z = z)), (bool_decide_true (z ∈ z :: l)) by set_solver; reflexivity|].
  rewrite (bool_decide_false (y = z)) by exact Hne. apply bool_decide_ext. set_solver.
Qed.

Lemma spec_has sp y : has (spec_flags sp) (flag_bit y) = flagged y sp.
Proof.
  unfold spec_flags, flagged. destruct (sp_len sp) as [x|]; rewrite ?has_lor_l, set_flags_has; [|reflexivity].
  replace (has (len_bit x) (flag_bit y)) with false by (destruct x, y; reflexivity). apply orb_false_r.
Qed.

Lemma flagged_iff y sp : flagged y sp = true <-> y ∈ sp_flags sp.
Proof. apply bool_decide_eq_true. Qed.

Lemma flagged_not y sp : y ∉ sp_flags sp -> flagged y sp = false.
Proof. apply bool_decide_eq_false. Qed.

(** The fields of the code, where they are those of the documentation. *)
Lemma padding_flags sp flags n : has flags FFL_PADZEROS = flagged Zero sp ->
  padding flags n = replicate (Z.to_nat n) (if flagged Zero sp then 48 else 32).
Proof. intros E. unfold padding, pad_char. rewrite E. reflexivity. Qed.

Lemma string_field_doc sp text : flagged Zero sp = false ->
  string_field text (value (sp_width sp)) (spec_flags sp) = field sp [] text.
Proof.
  intros Hz. unfold string_field, field. rewrite (padding_flags sp) by apply (spec_has sp Zero).
  rewrite (spec_has sp Minus : has (spec_flags sp) FFL_PADRIGHT = _), Hz. reflexivity.
Qed.

Lemma signed_field_doc sp lim n :
  n <> - lim -> (flagged Zero sp = true -> flagged Minus sp = false /\ 0 <= n /\ flagged Plus sp = false /\ flagged Space sp = false) ->
  (flagged Plus sp = true \/ flagged Space sp = true -> n <> 0) ->
  signed_field (signed_text lim n) n (value (sp_width sp)) (spec_flags sp) =
  field sp (if n <? 0 then [45] else if flagged Plus sp then [43] else if flagged Space sp then [32] else [])
    (Z.add 48 <$> digits 10 (Z.abs n)).
Proof.
  intros Hl Hz Hn. set (sg := if n <? 0 then _ else _). set (ds := Z.add 48 <$> _).
  assert (Eb : sign_prefix n (spec_flags sp) ++ signed_text lim n = sg ++ ds).
  { unfold sign_prefix, signed_text, sg, ds. rewrite (spec_has sp Plus : has (spec_flags sp) FFL_FORCESIGN = _), (spec_has sp Space : has (spec_flags sp) FFL_SPACESIGN = _), (proj2 (Z.eqb_neq _ _) Hl).
    destruct (Z.ltb_spec n 0) as [H|H].
    - rewrite (proj2 (Z.ltb_ge 0 n)), Z.abs_neq by lia. reflexivity.
    - rewrite Z.abs_eq by lia. destruct (Z.ltb_spec 0 n) as [H'|H']; [destruct (flagged Plus sp), (flagged Space sp); reflexivity|].
      destruct (flagged Plus sp), (flagged Space sp); try reflexivity; exfalso; apply Hn; auto; lia. }
  unfold signed_field, field. rewrite Eb, (padding_flags sp) by apply (spec_has sp Zero). rewrite (spec_has sp Minus : has (spec_flags sp) FFL_PADRIGHT = _).
  destruct (flagged Zero sp).
  - destruct (Hz eq_refl) as (-> & H0 & Hp & Hs). unfold sg. rewrite Hp, Hs, (proj2 (Z.ltb_ge n 0)) by lia. reflexivity.
  - destruct (flagged Minus sp); [rewrite <- app_assoc|]; reflexivity.
Qed.

Lemma unsigned_field_doc sp flags text base pre :
  (forall y, has flags (flag_bit y) = flagged y sp) -> (flagged Zero sp = true -> flagged Minus sp = false) ->
  (flagged Hash sp = true -> flagged Minus sp = true \/ sp_width sp = []) -> base_prefix base flags = (if flagged Hash sp then pre else []) ->
  unsigned_field text base (value (sp_width sp)) flags = field sp (if flagged Hash sp then pre else []) text.
Proof.
  intros Hf Hz Hh Hb. unfold unsigned_field, field. rewrite Hb, !(padding_flags sp flags) by apply (Hf Zero).
  rewrite (Hf Minus : has flags FFL_PADRIGHT = _), (Hf Zero : has flags FFL_PADZEROS = _).
  destruct (flagged Minus sp).
  - destruct (flagged Zero sp); [discriminate (Hz eq_refl)|reflexivity].
  - assert (En : (if flagged Hash sp then pre else []) = [] \/ sp_width sp = []) by (destruct (flagged Hash sp); [destruct (Hh eq_refl); [discriminate|auto]|auto]).
    assert (Er : forall k : Z, replicate (Z.to_nat (value (sp_width sp) - Z.of_nat (length text))) k =
      replicate (Z.to_nat (value (sp_width sp) - Z.of_nat (length ((if flagged Hash sp then pre else []) ++ text)))) k).
    { intros k. destruct En as [->| ->]; [reflexivity|]. change (value []) with 0. f_equal. lia. }
    rewrite !Er. destruct (flagged Zero sp); reflexivity.
Qed.
Lemma signed_doc sp x : sp_conv sp ∈ [ConvD; ConvI] -> doc_spec sp -> doc_arg sp x -> signed_conv sp x = doc_signed sp x.
Proof.
  intros Hc Hd Ha. destruct (Ha Hc) as (Hl & Hz & Hs). pose proof (ds_short sp Hd Hc) as Hsh.
  assert (En : signed_conv sp x = signed_field (signed_text (2 ^ (if is_long sp then 63 else 31)) (signed_arg sp x)) (signed_arg sp x)
    (value (sp_width sp)) (spec_flags sp)).
  { unfold signed_conv, signed_arg, is_long, is_short. destruct (sp_len sp) as [[]|]; try reflexivity. contradiction. }
  rewrite En. apply signed_field_doc; [exact Hl| |].
  - intros H%flagged_iff. destruct (ds_zero sp Hd H) as [Hm _]. destruct (Hz H) as (H1 & H2 & H3). auto using flagged_not.
  - rewrite !flagged_iff. exact Hs.
Qed.

Lemma unsigned_doc sp x base big pre :
  sp_conv sp <> ConvS -> doc_spec sp ->
  (flagged Hash sp = true -> pre = (if (base =? 16) || (base =? 8) then [48] else []) ++ (if base =? 16 then [if big : bool then 88 else 120] else [])) ->
  unsigned_conv sp base big x = doc_unsigned sp base pre (if big then hexCharsBig else hexCharsSmall) x.
Proof.
  intros Hc Hd Hp. unfold unsigned_conv, doc_unsigned. cbv zeta.
  assert (Eu : (if is_long sp then wrap64 x else if is_short sp then wrap32 x .& 0xFFFF else wrap32 x) =
    (if is_long sp then x mod 2 ^ 64 else if is_short sp then x mod 2 ^ 16 else x mod 2 ^ 32)).
  { destruct (is_long sp); [reflexivity|]. destruct (is_short sp); [|reflexivity].
    change 0xFFFF with (Z.ones 16). rewrite Z.land_ones by lia. apply (Z.mod_mod_divide x (2 ^ 32) (2 ^ 16)). exists (2 ^ 16). reflexivity. }
  rewrite Eu. set (flags := if big then _ .| FFL_CAPHEX else _).
  assert (Hf : forall y, has flags (flag_bit y) = flagged y sp).
  { intros y. unfold flags. rewrite <- spec_has. destruct big; [|reflexivity]. rewrite caphex_land; [reflexivity|destruct y; reflexivity]. }
  apply unsigned_field_doc; [exact Hf| | |].
  - intros H%flagged_iff. destruct (ds_zero sp Hd H) as [Hm _]. apply flagged_not, Hm.
  - rewrite !flagged_iff. intros H. apply (ds_hash sp Hd H).
  - unfold base_prefix. rewrite (Hf Hash : has flags FFL_PRINTBASE = _). destruct (flagged Hash sp); [|reflexivity]. rewrite (Hp eq_refl).
    replace (has flags FFL_CAPHEX) with big; [reflexivity|]. unfold flags. destruct big; [|symmetry; apply spec_caphex].
    rewrite has_lor_l. symmetry. apply orb_true_r.
Qed.

Lemma conv_text_doc sp x : doc_spec sp -> doc_arg sp x -> conv_text str_at sp x = doc_text sp x.
Proof.
  intros Hd Ha. pose proof (ds_hash sp Hd) as Hh. unfold conv_text, doc_text. destruct (sp_conv sp) eqn:Ec; try reflexivity.
  - apply signed_doc; trivial. rewrite Ec. set_solver.
  - apply signed_doc; trivial. rewrite Ec. set_solver.
  - apply (unsigned_doc sp x 10 false); [congruence|exact Hd|reflexivity].
  - apply (unsigned_doc sp x 8 false); [congruence|exact Hd|reflexivity].
  - apply (unsigned_doc sp x 16 false); [congruence|exact Hd|reflexivity].
  - apply (unsigned_doc sp x 16 true); [congruence|exact Hd|reflexivity].
  - apply (unsigned_doc sp x 2 false); [congruence|exact Hd|reflexivity].
  - apply string_field_doc, flagged_not. intros H. destruct (ds_zero sp Hd H). contradiction.
Qed.

Lemma output_doc ps args : Forall doc_piece ps -> args_sat doc_arg ps args -> output str_at ps args = doc_output ps args.
Proof.
  intros Hd. revert args. induction Hd as [|[c|sp] ps Hp _ IH]; intros args Ha; cbn [output doc_output args_sat] in *.
  - reflexivity.
  - rewrite IH by exact Ha. reflexivity.
  - destruct (decide (sp_conv sp = ConvPercent)) as [E|E].
    + rewrite E in *. rewrite IH by exact Ha. unfold conv_text, doc_text. rewrite E. reflexivity.
    + destruct args as [|x args]; [destruct (sp_conv sp); trivial; contradiction|].
      assert (H : doc_arg sp x /\ args_sat doc_arg ps args) by (destruct (sp_conv sp); trivial; contradiction).
      destruct H as [Hx H]. rewrite (conv_text_doc sp x Hp Hx), (IH args H). destruct (sp_conv sp); first [reflexivity|contradiction].
Qed.
End Documented.

(** C13: [snprintf] writes what include/stdio.h documents, if the text fits.  The format has literal characters and
    the conversions d, i, u, o, x, X, b, s, c and %% with flags, a width below 128 and a length, and a precision
    for s; no star.  Left out is what the code does differently from the documentation: a precision
    for numbers, h for d and i, zeros with the flag -, zeros before a sign, a sign of the number
    0, the smallest int and long, the flag # with a width unless left-justified, a width for c, flags on
    conversions that they do not apply to.  For a buffer of at least 2 bytes and a text that is shorter than
    the buffer and than 2^31, the text and its terminator are written and its length is
    returned; no other byte of memory changes. *)
Theorem snprintf_formats bprintdblpad str_at s str n fmt ps args T :
  io_files (p_io s) !! sbuf = None -> 0 < str -> 2 <= n -> str + n <= 2 ^ 64 -> mapped s str (str + n) ->
  Forall piece_ok ps -> Forall doc_piece ps ->
  cstr s fmt (render ps) -> (fmt + Z.of_nat (length (render ps)) < str \/ str + n <= fmt) ->
  args_sat (printable str_at s str (str + n)) ps args -> args_sat doc_arg ps args ->
  doc_output str_at ps args = Some T -> Z.of_nat (length T) < n -> Z.of_nat (length T) < 2 ^ 31 ->
  exists m, snprintf bprintdblpad str n fmt args s = Done (Z.of_nat (length T)) (set_mem m s) /\
    wrote (p_mem s) m str ((wrap8 <$> T) ++ [0]).
Proof.
  intros Hf Hs Hn He Hm Hok Hd Hfmt Hout Hargs Hda HT Hl HI. rewrite <- (output_doc str_at ps args Hd Hda) in HT.
  destruct (snprintf_text bprintdblpad str_at s str n fmt ps args T) as (m & E & W); trivial.
  rewrite (proj2 (Z.leb_le _ _)) in E by lia. rewrite take_ge in W by lia. eauto.
Qed.

Lemma cstr_page l1 l rest : Forall (fun c => 1 <= c < 256) l -> Z.of_nat (length (l1 ++ l)) < 4096 ->
  cstr (page_process (l1 ++ l ++ 0 :: rest)) (4096 + Z.of_nat (length l1)) l.
Proof.
  intros Hl Hn. rewrite length_app in Hn. split; trivial; try lia.
  - apply page_mapped; lia.
  - intros i c Hi. pose proof (lookup_lt_Some _ _ _ Hi). unfold byte_at. cbn [p_mem page_process].
    replace (Z.to_nat (4096 + Z.of_nat (length l1) + Z.of_nat i - 4096)) with (length l1 + i)%nat by lia.
    rewrite app_nth2_plus, app_nth1 by lia. rewrite (nth_lookup_Some l i 0 c Hi). apply wrap_small.
    rewrite Forall_lookup in Hl. pose proof (Hl i c Hi). unfold is_word. lia.
  - unfold byte_at. cbn [p_mem page_process].
    replace (Z.to_nat (4096 + Z.of_nat (length l1) + Z.of_nat (length l) - 4096)) with (length l1 + (length l + 0))%nat by lia.
    rewrite !app_nth2_plus. reflexivity.
Qed.

(** The format "x=%+5d %-4s|" with the arguments 42 and a string. *)
Definition sample_format : list piece :=
  [Lit 120; Lit 61; Conv (mkspec [Plus] [5] None None ConvD); Lit 32; Conv (mkspec [Minus] [4] None None ConvS); Lit 124].
Definition sample_text : list Z := [120; 61; 32; 32; 43; 52; 50; 32; 111; 107; 32; 32; 124].
Definition sample_page : process := page_process ((render sample_format ++ [0]) ++ [111; 107] ++ 0 :: []).

Lemma snprintf_formats_witness :
  exists m, snprintf (fun _ _ _ _ _ _ => mret 0) 6000 32 4096 [42; 4109] sample_page = Done 13 (set_mem m sample_page) /\
    wrote (p_mem sample_page) m 6000 (sample_text ++ [0]).
Proof.
  apply (snprintf_formats (fun _ _ _ _ _ _ => mret 0) (fun _ => [111; 107]) sample_page 6000 32 4096 sample_format [42; 4109] sample_text);
    [reflexivity|lia|lia|lia|apply page_mapped; lia| | | |left; reflexivity| | |reflexivity|reflexivity|reflexivity].
  - repeat (apply Forall_cons; split; [first [cbn; lia|split; cbn; [repeat constructor; lia|right; lia|lia|discriminate]]|]). apply Forall_nil_2.
  - repeat (apply Forall_cons; split; [first [exact I|split; cbn; set_solver]|]). apply Forall_nil_2.
  - apply (cstr_page [] (render sample_format) ([111; 107] ++ [0])); [cbn; repeat (apply Forall_cons; split; [lia|]); apply Forall_nil_2|reflexivity].
  - split; [discriminate 1|]. split; [|exact I]. intros _. split; [|reflexivity]. right. split; [discriminate|]. split; [|left; reflexivity].
    apply (cstr_page (render sample_format ++ [0]) [111; 107] []); [repeat constructor; lia|reflexivity].
  - split; [|split; [|exact I]]; intros H; cbn in *; [|set_solver]. split; [discriminate|]. split; [set_solver|discriminate].
Defined.

(** What [snprintf] returns and writes, for a format at 4096 and a buffer of the given size at 6000. *)
Definition printed bprintdblpad (n : Z) (fmt args : list Z) : option (Z * list Z) :=
  match snprintf bprintdblpad 6000 n 4096 args (page_process (fmt ++ [0])) with
  | Done r s => Some (r, take 8 (bytes_at 16 (p_mem s) 6000))
  | Bad _ => None
  end.

(** Special cases that [snprintf] gets wrong.  The width is kept in a [char]: with %200d nothing but blanks
    is printed, until the buffer is full.  The smallest [int] is printed as a minus sign and a parenthesis.  Zeros
    are put before the sign (00-42), and the short number -1 is printed as 65535.  A buffer of size 0 is taken to be
    unlimited and written to, one of size 1 ends the program. *)
Theorem snprintf_special_cases bprintdblpad :
  printed bprintdblpad 8 [37; 50; 48; 48; 100] [42] = Some (EOF, [32; 32; 32; 32; 32; 32; 32; 0]) /\
  printed bprintdblpad 8 [37; 100] [- 2 ^ 31] = Some (2, [45; 40; 0; 0; 0; 0; 0; 0]) /\
  printed bprintdblpad 8 [37; 48; 53; 100] [-42] = Some (5, [48; 48; 45; 52; 50; 0; 0; 0]) /\
  printed bprintdblpad 8 [37; 104; 100] [-1] = Some (5, [54; 53; 53; 51; 53; 0; 0; 0]) /\
  printed bprintdblpad 0 [97; 98] [] = Some (2, [97; 98; 0; 0; 0; 0; 0; 0]) /\
  printed bprintdblpad 1 [97; 98] [] = None.
Proof. repeat split; vm_compute; reflexivity. Qed.

(** A text that is too long is cut, and the result is EOF, not the length that it would have had. *)
Example snprintf_truncates bprintdblpad :
  printed bprintdblpad 4 [97; 98; 99; 100; 101] [] = Some (EOF, [97; 98; 99; 0; 0; 0; 0; 0]).
Proof. vm_compute. reflexivity. Qed.
