(* ===== verification/Scanf.v ===== *)
(** * Formatted input

    [vbscanf] of lib/c/stdio with [breadn] and [breads], [vsscanf] on top, and the theorem that a
    number that has been printed is read back. *)

From Stdlib Require Import ZArith Lia Bool.
From stdpp Require Import base list numbers option gmap.
From S2P Require Import Prelude CMem MemOps Heap CString CStringSpec Stdio Number Printf PrintfSpec PrintfProps.

(** ** Numbers and words *)

(** The base of a conversion. *)
Definition scan_base (c : Z) : Z :=
  if c =? 98 then 2 else if c =? 111 then 8 else if (c =? 120) || (c =? 88) then 16 else 10.

(** The result and the number that is stored through [num]; [length] is unsigned. *)
Definition breadn (f length c : Z) : C (Z * Z) :=
  '(err, neg, length) ← (if c =? 100 then
      rc ← bgetc f;
      if rc <? 0 then mret (rc, false, length)
      else if rc =? 45 then mret (0, true, length -o 1)
      else bback f;; mret (0, false, length)
    else mret (0, false, length));
  if err <? 0 then mret (err, 0) else
  let base := scan_base c in
  '(val, digits) ← loop (fun '(length, val, digits) =>
    if length =? 0 then mret (Break (val, digits)) else
    tc ← bgetc f;
    if tc =? EOF then mret (Break (val, digits)) else
    let tc := tolower tc in
    if (48 <=? tc) && (tc <=? nth (Z.to_nat (base - 1)) hexCharsSmall 0) then
      let d := if (10 <? base) && (97 <=? tc) then 10 + tc - 97 else tc - 48 in
      mret (Next (length - 1, to_long (val * base + d), digits + 1))
    else bback f;; mret (Break (val, digits))) (length, 0, 0);
  let val := if neg : bool then to_long (- val) else val in
  mret (if 0 <? digits then 0 else EOF, val).

Definition breads (f length str : Z) : C Z :=
  p ← loop (fun '(length, p) =>
    if length =? 0 then mret (Break p) else
    rc ← bgetc f;
    if rc =? EOF then mret (Break p) else
    sp ← isspace rc;
    if sp : bool then bback f;; mret (Break p) else
    (if truth str then store8 p rc else mret tt);;
    mret (Next (length - 1, p + 1))) (length, str);
  if truth str then store8 p 0;; mret 1 else mret 0.

(** ** Formats *)

(** Skips blanks; the last character read, or an error. *)
Definition skip_space (f : Z) : C Z :=
  loop (fun _ =>
    rc ← bgetc f;
    if rc <? 0 then mret (Break rc) else
    sp ← isspace rc;
    if sp : bool then mret (Next tt) else mret (Break rc)) tt.

(** The flags of a conversion: the position behind them, their bits, and whether the result is discarded. *)
Definition scan_flags (fmt : Z) : C (Z * Z * bool) :=
  loop (fun '(fmt, flags, discard) =>
    c ← load_char fmt;
    if c =? 42 then mret (Next (fmt + 1, flags, true))
    else if c =? 104 then mret (Next (fmt + 1, flags .| FFL_SHORT, discard))
    else if c =? 108 then mret (Next (fmt + 1, flags .| FFL_LONG, discard))
    else if c =? 76 then mret (Next (fmt + 1, flags .| FFL_LONGLONG, discard))
    else mret (Break (fmt, flags, discard))) (fmt, 0, false).

(** The bytes of the number that is stored. *)
Definition scan_size (flags : Z) : nat :=
  if has flags FFL_SHORT then 2 else if has flags FFL_LONG || has flags FFL_LONGLONG then 8 else 4.

(** One conversion: nothing if the scan ends here, otherwise the results stored and the arguments left. *)
Definition scan_convert (f c flags length : Z) (discard : bool) (ap : list Z) : C (option (Z * list Z)) :=
  if (c =? 98) || (c =? 111) || (c =? 120) || (c =? 88) || (c =? 117) || (c =? 100) then
    '(r, val) ← breadn f (wrap64 length) c;
    if r <? 0 then mret None else
    if discard then mret (Some (0, ap)) else
    '(n, ap) ← va_arg ap;
    store (scan_size flags) n val;;
    mret (Some (1, ap))
  else if c =? 115 then
    '(str, ap) ← (if discard then mret (0, ap) else va_arg ap);
    r ← breads f (wrap64 length) str;
    mret (Some (r, ap))
  else if c =? 99 then
    '(str, ap) ← (if discard then mret (0, ap) else va_arg ap);
    rc ← bgetc f;
    if rc <? 0 then mret None else
    if discard then mret (Some (0, ap)) else
    store8 str rc;;
    mret (Some (1, ap))
  else mret None.

Definition vbscanf (f fmt : Z) (ap : list Z) : C Z :=
  loop (fun '(fmt, ap, count) =>
    c ← load_char fmt;
    if c =? 37 then
      rc ← skip_space f;
      if rc <? 0 then mret (Break count) else
      r ← bback f;
      if r <? 0 then mret (Break count) else
      '(fmt, flags, discard) ← scan_flags (fmt + 1);
      '(fmt, length) ← read_decimal to_int fmt;
      c ← load_char fmt;
      o ← scan_convert f c flags (if length =? 0 then -1 else length) discard ap;
      match o with
      | None => mret (Break count)
      | Some (r, ap) => mret (Next (fmt + 1, ap, count + r))
      end
    else if c =? 0 then mret (Break count)
    else
      rc ← bgetc f;
      if rc <? 0 then mret (Break count) else
      if negb (rc =? c) then mret (Break count) else mret (Next (fmt + 1, ap, count))) (fmt, ap, 0).

Definition vsscanf (str fmt : Z) (ap : list Z) : C Z :=
  len ← strlen str;
  f ← bcreate (-1) O_READ str len 0 false;
  if f =? 0 then mret EOF else
  res ← vbscanf f fmt ap;
  fclose f;;
  mret res.

Definition sscanf (str fmt : Z) (args : list Z) : C Z := vsscanf str fmt args.
Definition vfscanf (file fmt : Z) (ap : list Z) : C Z := vbscanf file fmt ap.
Definition fscanf (file fmt : Z) (args : list Z) : C Z := vfscanf file fmt args.

(** ** Reading from a string *)

(** The stream that reads the [max] bytes at [b], at position [p]. *)
Definition scan_file (b max p : Z) : FILE := mkfile O_READ false 0 0 (mkiobuf (-1) p max false b) no_buffer 0 0.

Section Input.
Context (s : process) (f b : Z) (l : list Z).
Abbreviation max := (Z.of_nat (length l)).

(** The bytes [l] are at [b]. *)
Record in_string : Prop := {
  is_pos : 0 < b;
  is_mapped : mapped s b (b + max);
  is_chars i c : l !! i = Some c -> byte_at (p_mem s) (b + Z.of_nat i) = c
}.

Definition in_state (p : nat) : process := with_file f (scan_file b max (Z.of_nat p)) s.

Context (HI : in_string).

Lemma get_in {B} (k : FILE -> C B) p : (get_file f ≫= k) (in_state p) = k (scan_file b max (Z.of_nat p)) (in_state p).
Proof.
  apply bind_done. unfold get_file, in_state, with_file. cbn [p_io set_io io_files set_files]. rewrite lookup_insert_eq. reflexivity.
Qed.

Lemma put_in F p : put_file f F (in_state p) = Done tt (with_file f F s).
Proof.
  unfold put_file, modify, in_state, with_file, set_io, set_files. cbn. rewrite insert_insert_eq. reflexivity.
Qed.

Lemma bgetc_end p : (length l <= p)%nat -> bgetc f (in_state p) = Done EOF (in_state p).
Proof.
  intros Hp. unfold bgetc. rewrite get_in. cbn [scan_file f_in f_eof io_buffer io_fd io_max io_pos orb].
  pose proof (is_pos HI). rewrite (proj2 (Z.eqb_neq b 0)), (proj2 (Z.leb_le max _)) by lia. reflexivity.
Qed.

Lemma bgetc_char p c : l !! p = Some c -> bgetc f (in_state p) = Done (schar c) (in_state (S p)).
Proof.
  intros Hc. pose proof (lookup_lt_Some _ _ _ Hc). unfold bgetc. rewrite get_in. cbn [scan_file f_in f_eof io_buffer io_fd io_max io_pos orb].
  pose proof (is_pos HI). rewrite (proj2 (Z.eqb_neq b 0)), (proj2 (Z.leb_gt max _)) by lia. change (0 <=? -1) with false. cbv iota.
  rewrite (bind_done (mret 0 : C Z) _ _ 0 _ eq_refl). change (0 <? 0) with false. cbv iota.
  rewrite get_in. rewrite (bind_done _ _ _ _ _ (put_in _ p)).
  replace (with_file f _ s) with (in_state (S p)) by (unfold in_state, scan_file; rewrite Nat2Z.inj_succ; reflexivity).
  cbn [scan_file f_in io_buffer io_pos]. rewrite load_char_done by (apply (is_mapped HI); lia).
  rewrite (is_chars HI p c Hc : byte_at (p_mem (in_state (S p))) _ = c). reflexivity.
Qed.

Lemma bback_done p : bback f (in_state (S p)) = Done 0 (in_state p).
Proof.
  unfold bback. rewrite get_in. cbn [scan_file f_in io_buffer io_pos]. pose proof (is_pos HI).
  rewrite (proj2 (Z.eqb_neq b 0)), (proj2 (Z.eqb_neq (Z.of_nat (S p)) 0)) by lia. cbn [orb].
  rewrite (bind_done _ _ _ _ _ (put_in _ (S p))). unfold mret, C_ret. f_equal.
  unfold in_state, scan_file. cbn [set_eof set_in set_pos f_flags f_istty f_error f_in f_out f_prev f_next io_fd io_max io_dynamic io_buffer].
  rewrite Nat2Z.inj_succ. replace (Z.succ (Z.of_nat p) - 1) with (Z.of_nat p) by lia. reflexivity.
Qed.

(** The loop of [breadn] reads the digits up to the end. *)
Lemma breadn_loop p0 ds k :
  (forall i d, ds !! i = Some d -> l !! (p0 + i)%nat = Some (48 + d)) -> length l = (p0 + length ds)%nat ->
  Forall (fun d => 0 <= d <= 9) ds -> value ds < 2 ^ 63 -> Z.of_nat (length ds) < k < 2 ^ 64 ->
  loop (fun '(length, val, digits) =>
    if length =? 0 then mret (Break (val, digits)) else
    tc ← bgetc f;
    if tc =? EOF then mret (Break (val, digits)) else
    let tc := tolower tc in
    if (48 <=? tc) && (tc <=? nth (Z.to_nat (10 - 1)) hexCharsSmall 0) then
      let d := if (10 <? 10) && (97 <=? tc) then 10 + tc - 97 else tc - 48 in
      mret (Next (length - 1, to_long (val * 10 + d), digits + 1))
    else bback f;; mret (Break (val, digits))) (k, 0, 0) (in_state p0) = Done (value ds, Z.of_nat (length ds)) (in_state (length l)).
Proof.
  intros Hl Hlen Hd Hv Hk. eapply (loop_iter _ (S (length ds))); [|lia].
  match goal with |- iter ?B _ _ _ _ => set (body := B) end.
  enough (G : forall ds2 ds1, ds = ds1 ++ ds2 -> iter body (S (length ds2))
      (k - Z.of_nat (length ds1), value ds1, Z.of_nat (length ds1)) (in_state (p0 + length ds1))
      (Done (value ds, Z.of_nat (length ds)) (in_state (length l)))).
  { specialize (G ds [] eq_refl). cbn [length] in G. rewrite Z.sub_0_r, Nat.add_0_r in G. exact G. }
  induction ds2 as [|d ds2 IH]; intros ds1 E.
  - rewrite app_nil_r in E. subst ds1. apply iter_break. unfold body. rewrite (proj2 (Z.eqb_neq _ 0)) by lia.
    rewrite (bind_done _ _ _ _ _ (bgetc_end (p0 + length ds) ltac:(lia))). change (EOF =? EOF) with true. cbv iota. rewrite Hlen. reflexivity.
  - assert (Hd' : 0 <= d <= 9 /\ Forall (fun d => 0 <= d <= 9) (ds1 ++ [d])).
    { rewrite E, Forall_app, Forall_cons in Hd. rewrite Forall_app, Forall_cons. intuition. }
    destruct Hd' as [Hd1 Hd2]. pose proof (value_nonneg _ Hd2) as Hn.
    assert (Hv' : value (ds1 ++ [d]) <= value ds).
    { rewrite E. change (d :: ds2) with ([d] ++ ds2). rewrite app_assoc. apply value_prefix. rewrite <- app_assoc. cbn [app]. rewrite <- E. exact Hd. }
    assert (Hc : l !! (p0 + length ds1)%nat = Some (48 + d)).
    { apply Hl. rewrite E, lookup_app_r, Nat.sub_diag by lia. reflexivity. }
    assert (Hlen1 : length ds = (length ds1 + S (length ds2))%nat) by (rewrite E, length_app; reflexivity).
    eapply (iter_next _ _ _ _ (k - Z.of_nat (length (ds1 ++ [d])), value (ds1 ++ [d]), Z.of_nat (length (ds1 ++ [d])))).
    + unfold body. rewrite (proj2 (Z.eqb_neq _ 0)) by lia. rewrite (bind_done _ _ _ _ _ (bgetc_char _ _ Hc)).
      rewrite schar_digit by lia. rewrite (proj2 (Z.eqb_neq _ EOF)) by (unfold EOF; lia).
      assert (Ht : tolower (48 + d) = 48 + d) by (unfold tolower; destruct (Z.leb_spec 65 (48 + d)); [lia|reflexivity]).
      cbv zeta. rewrite Ht. change (nth (Z.to_nat (10 - 1)) hexCharsSmall 0) with 57.
      rewrite (proj2 (Z.leb_le 48 _)), (proj2 (Z.leb_le _ 57)) by lia. change (10 <? 10) with false. cbn [andb].
      replace (value ds1 * 10 + (48 + d - 48)) with (value (ds1 ++ [d])) by (rewrite value_snoc; lia). rewrite to_long_small by lia.
      rewrite length_app. cbn [length]. unfold mret, C_ret.
      replace (k - Z.of_nat (length ds1) - 1) with (k - Z.of_nat (length ds1 + 1)) by lia.
      replace (Z.of_nat (length ds1) + 1) with (Z.of_nat (length ds1 + 1)) by lia. reflexivity.
    + replace (S (p0 + length ds1)) with (p0 + length (ds1 ++ [d]))%nat by (rewrite length_app; cbn [length]; lia).
      apply IH. rewrite <- app_assoc. exact E.
Qed.

Lemma breadn_done n ds : l = numeral n ds -> decimal (Z.abs n) ds -> - 2 ^ 31 < n < 2 ^ 31 -> length ds <> 0%nat -> (length ds <= 64)%nat ->
  breadn f (wrap64 (-1)) 100 (in_state 0) = Done (0, n) (in_state (length l)).
Proof.
  intros El [Hd Hv _] Hn H0 H64. unfold breadn. change (100 =? 100) with true. change (scan_base 100) with 10. cbv iota zeta.
  destruct ds as [|d ds]; [contradiction|]. pose proof (Forall_cons_1 _ _ _ Hd) as [Hd0 _]. unfold numeral in El.
  assert (Hdig : forall p0, (forall i e, (d :: ds) !! i = Some e -> l !! (p0 + i)%nat = Some (48 + e)) -> length l = (p0 + length (d :: ds))%nat ->
    forall k, 100 < k < 2 ^ 64 -> _) by (intros p0 H1 H2 k Hk; apply (breadn_loop p0 (d :: ds) k H1 H2 Hd); lia).
  destruct (Z.ltb_spec n 0).
  - assert (E0 : l !! 0%nat = Some 45) by (rewrite El; reflexivity). cbn [app] in El.
    rewrite (bind_done _ _ _ (0, true, wrap64 (-1) -o 1) (in_state 1)).
    2: { rewrite (bind_done _ _ _ _ _ (bgetc_char 0 45 E0)). reflexivity. }
    cbv beta iota. change (0 <? 0) with false. cbv iota.
    rewrite (bind_done _ _ _ _ _ (Hdig 1%nat ltac:(intros i e Hi; rewrite El; change ((Z.add 48 <$> d :: ds) !! i = Some (48 + e)); rewrite list_lookup_fmap, Hi; reflexivity)
      ltac:(rewrite El; cbn [length]; rewrite length_fmap; reflexivity) (wrap64 (-1) -o 1) ltac:(vm_compute; split; reflexivity))).
    cbv beta iota. rewrite Hv, to_long_small by lia. cbn [length]. rewrite (proj2 (Z.ltb_lt 0 _)) by lia. unfold mret, C_ret. do 2 f_equal. lia.
  - assert (E0 : l !! 0%nat = Some (48 + d)) by (rewrite El; reflexivity). cbn [app] in El.
    rewrite (bind_done _ _ _ (0, false, wrap64 (-1)) (in_state 0)).
    2: { rewrite (bind_done _ _ _ _ _ (bgetc_char 0 _ E0)). rewrite schar_digit, (proj2 (Z.ltb_ge _ 0)), (proj2 (Z.eqb_neq _ 45)) by lia.
         rewrite (bind_done _ _ _ _ _ (bback_done 0)). reflexivity. }
    cbv beta iota. change (0 <? 0) with false. cbv iota.
    rewrite (bind_done _ _ _ _ _ (Hdig 0%nat ltac:(intros i e Hi; rewrite El; change ((Z.add 48 <$> d :: ds) !! i = Some (48 + e)); rewrite list_lookup_fmap, Hi; reflexivity)
      ltac:(rewrite El; rewrite length_fmap; reflexivity) (wrap64 (-1)) ltac:(vm_compute; split; reflexivity))).
    cbv beta iota. rewrite Hv. cbn [length]. rewrite (proj2 (Z.ltb_lt 0 _)) by lia. unfold mret, C_ret. do 2 f_equal. lia.
Qed.
End Input.

(** ** Printing and reading back *)

Lemma in_state_cstr s f b l p a k : cstr s a k -> cstr (in_state s f b l p) a k.
Proof. intros [C1 C2 C3 C4 C5 C6]. split; trivial. Qed.

(** Blanks are skipped: there are none before a number. *)
Lemma skip_number s f b l n ds : in_string s b l -> l = numeral n ds -> Forall (fun d => 0 <= d <= 9) ds -> length ds <> 0%nat ->
  exists rc, skip_space f (in_state s f b l 0) = Done rc (in_state s f b l 1) /\ 0 <= rc.
Proof.
  intros HI El Hd H0. destruct ds as [|d ds]; [contradiction|]. apply Forall_cons_1 in Hd as [Hd _].
  assert (E0 : exists c, l !! 0%nat = Some c /\ (c = 45 \/ c = 48 + d)).
  { rewrite El. unfold numeral. destruct (n <? 0); eexists; split; [reflexivity|auto|reflexivity|auto]. }
  destruct E0 as (c & E0 & Hc).
  assert (Hs : schar c = c /\ 0 <= c /\ forall s, isspace c s = Done false s).
  { destruct Hc as [-> | ->]; [split; [reflexivity|split; [lia|reflexivity]]|]. split; [apply schar_digit, Hd|]. split; [lia|]. intros s'. apply (digit_class d s' Hd). }
  destruct Hs as (Hs1 & Hs2 & Hs3). exists c. split; [|exact Hs2]. unfold skip_space. apply (loop_iter _ 1); [|lia]. apply iter_break.
  rewrite (bind_done _ _ _ _ _ (bgetc_char s f b l HI 0 c E0)), Hs1, (proj2 (Z.ltb_ge c 0) Hs2).
  rewrite (bind_done _ _ _ _ _ (Hs3 _)). reflexivity.
Qed.

(** The format "%d" reads a number. *)
Lemma vbscanf_number s f b l n ds fmt ptr :
  in_string s b l -> l = numeral n ds -> decimal (Z.abs n) ds -> - 2 ^ 31 < n < 2 ^ 31 -> length ds <> 0%nat -> (length ds <= 64)%nat ->
  cstr s fmt [37; 100] -> mapped s ptr (ptr + 4) -> (ptr + 4 <= fmt \/ fmt + 2 < ptr) ->
  vbscanf f fmt [ptr] (in_state s f b l 0) = Done 1 (set_mem (put 4 ptr n (p_mem s)) (in_state s f b l (length l))).
Proof.
  intros HI El Hdec Hn H0 H64 Sf Hm Hout. unfold vbscanf. eapply (loop_iter _ 2); [|lia].
  set (s1 := in_state s f b l 0). pose proof (cstr_next _ _ _ _ Sf) as [Sf1 _]. pose proof (cstr_next _ _ _ _ Sf1) as [Sf2 _].
  destruct (skip_number s f b l n ds HI El (dc_digits _ _ Hdec) H0) as (rc & Hskip & Hrc).
  eapply (iter_next _ _ _ _ (fmt + 1 + 1, [], 0 + 1)).
  - rewrite (bind_done _ _ _ _ _ (cstr_char _ _ _ (in_state_cstr s f b l 0 _ _ Sf))). cbn [first].
    change (schar 37 =? 37) with true. cbv iota. rewrite (bind_done _ _ _ _ _ Hskip), (proj2 (Z.ltb_ge rc 0) Hrc).
    rewrite (bind_done _ _ _ _ _ (bback_done s f b l HI 0)). change (0 <? 0) with false. cbv iota. fold s1.
    pose proof (cstr_char _ _ _ (in_state_cstr s f b l 0 _ _ Sf1)) as Hc. fold s1 in Hc. cbn [first] in Hc. change (schar 100) with 100 in Hc.
    assert (Hsf : scan_flags (fmt + 1) s1 = Done (fmt + 1, 0, false) s1).
    { unfold scan_flags. apply (loop_iter _ 1); [|lia]. apply iter_break. cbv beta iota. rewrite (bind_done _ _ _ _ _ Hc). reflexivity. }
    assert (Hrd : read_decimal to_int (fmt + 1) s1 = Done (fmt + 1, 0) s1).
    { unfold read_decimal. apply (loop_iter _ 1); [|lia]. apply iter_break. cbv beta iota. rewrite (bind_done _ _ _ _ _ Hc). reflexivity. }
    rewrite (bind_done _ _ _ _ _ Hsf). cbv beta iota. rewrite (bind_done _ _ _ _ _ Hrd). cbv beta iota. rewrite (bind_done _ _ _ _ _ Hc).
    change (0 =? 0) with true. cbv iota.
    assert (Hcv : scan_convert f 100 0 (-1) false [ptr] s1 =
      Done (Some (1, [])) (set_mem (put 4 ptr n (p_mem s)) (in_state s f b l (length l)))).
    { unfold scan_convert. cbn [Z.eqb Pos.eqb orb]. unfold s1. rewrite (bind_done _ _ _ _ _ (breadn_done s f b l HI n ds El Hdec Hn H0 H64)).
      cbv beta iota. change (0 <? 0) with false. cbv iota. cbn [va_arg]. rewrite (bind_done (mret _ : C (Z * list Z)) _ _ _ _ eq_refl). cbv beta iota.
      change (scan_size 0) with 4%nat. rewrite bind_store by exact Hm. reflexivity. }
    rewrite (bind_done _ _ _ _ _ Hcv). reflexivity.
  - apply iter_break. rewrite (bind_done _ _ _ 0 (set_mem (put 4 ptr n (p_mem s)) (in_state s f b l (length l)))); [reflexivity|].
    rewrite load_char_done by (apply (cs_mapped _ _ _ Sf2); cbn [length]; lia). cbn [p_mem set_mem]. rewrite byte_put_other by lia.
    rewrite (cstr_first _ _ _ Sf2). reflexivity.
Qed.

(** C31: What [snprintf] prints with %d, [scanf] reads back: for every [int] but the smallest, the text that the one
    writes into a buffer of at least 12 bytes makes the other, on a stream that reads this text, store the number and
    report one conversion. *)
Theorem printf_scanf_roundtrip bprintdblpad s str size fmt n f ptr :
  - 2 ^ 31 < n < 2 ^ 31 -> io_files (p_io s) !! sbuf = None -> 0 < str -> 12 <= size -> str + size <= 2 ^ 64 -> mapped s str (str + size) ->
  cstr s fmt [37; 100] -> (fmt + 2 < str \/ str + size <= fmt) -> mapped s ptr (ptr + 4) -> (ptr + 4 <= fmt \/ fmt + 2 < ptr) ->
  exists k m, snprintf bprintdblpad str size fmt [n] s = Done k (set_mem m s) /\
    exists s', vbscanf f fmt [ptr] (with_file f (scan_file str k 0) (set_mem m s)) = Done 1 s' /\ to_int (num_at 4 (p_mem s') ptr) = n.
Proof.
  intros Hn Hf Hs Hsz He Hm Hfmt Hout Hp Hpf.
  assert (Hint : to_int n = n) by (apply signed_wrap; lia).
  set (ds := digits 10 (Z.abs n)).
  assert (Hdec : decimal (Z.abs n) ds) by (apply digits_decimal; [change (Z.of_nat 64) with 64; lia|lia]).
  assert (Hlen : (0 < length ds <= 10)%nat).
  { unfold ds. rewrite <- (digits_enough 10) by (change (Z.of_nat 10) with 10; lia). split; [apply digits_pos; lia|apply digits_length]. }
  assert (HT : output (fun _ => []) [Conv (mkspec [] [] None None ConvD)] [n] = Some (numeral n ds)).
  { cbn [output sp_conv fmap option_fmap option_map]. f_equal. rewrite app_nil_r. unfold conv_text, signed_conv. cbn [sp_conv is_long is_short sp_len sp_width].
    rewrite Hint. unfold signed_field. replace (sign_prefix n _) with (@nil Z) by (unfold sign_prefix; destruct (0 <? n); reflexivity).
    change (has (spec_flags _) FFL_PADRIGHT) with false. cbv iota. cbn [app].
    assert (Hst : signed_text (2 ^ 31) n = numeral n ds).
    { unfold signed_text, numeral, ds. rewrite (proj2 (Z.eqb_neq n (- 2 ^ 31))) by lia. destruct (Z.ltb_spec n 0); cbn [app]; [|f_equal; f_equal; lia].
      replace (Z.abs n) with (- n) by lia. reflexivity. }
    rewrite Hst. change (value []) with 0. unfold padding. replace (Z.to_nat (0 - _)) with 0%nat by lia. reflexivity. }
  assert (HL : (length (numeral n ds) <= 11)%nat).
  { unfold numeral. rewrite length_app, length_fmap. destruct (n <? 0); cbn [length]; lia. }
  assert (Hok : Forall piece_ok [Conv (mkspec [] [] None None ConvD)]).
  { apply Forall_singleton. split; cbn; [apply Forall_nil_2|auto|vm_compute; discriminate|discriminate]. }
  assert (Hsat : args_sat (printable (fun _ => []) s str (str + size)) [Conv (mkspec [] [] None None ConvD)] [n]) by (split; [discriminate 1|exact I]).
  destruct (snprintf_text bprintdblpad (fun _ => []) s str size fmt _ [n] (numeral n ds) Hf Hs ltac:(lia) He Hm Hok Hfmt Hout Hsat HT ltac:(lia)) as (m & Hr & [Hw1 Hw2]).
  rewrite (proj2 (Z.leb_le _ _)) in Hr by lia. rewrite take_ge in Hw1, Hw2 by lia.
  assert (Hb : (wrap8 <$> numeral n ds) = numeral n ds).
  { apply list_eq. intros i. rewrite list_lookup_fmap. destruct (numeral n ds !! i) as [c|] eqn:E; [|reflexivity]. cbn. f_equal. apply wrap_small.
    apply list_elem_of_lookup_2 in E. unfold numeral in E. apply elem_of_app in E as [E|E].
    - destruct (n <? 0); [|inversion E]. apply list_elem_of_singleton in E as ->. split; lia.
    - apply list_elem_of_fmap in E as (d & -> & Hd). pose proof (dc_digits _ _ Hdec) as HD. rewrite Forall_forall in HD. specialize (HD d Hd). unfold is_word. simpl in HD. lia. }
  rewrite Hb in Hw1, Hw2. rewrite length_app in Hw2. cbn [length] in Hw2.
  exists (Z.of_nat (length (numeral n ds))), m. split; [exact Hr|].
  assert (HI : in_string (set_mem m s) str (numeral n ds)).
  { split; [exact Hs|intros y Hy; apply Hm; lia|]. intros i c Hi. apply Hw1. rewrite lookup_app_l; [exact Hi|]. eapply lookup_lt_Some, Hi. }
  assert (Sf : cstr (set_mem m s) fmt [37; 100]).
  { destruct Hfmt as [C1 C2 C3 C4 C5 C6]. cbn [length] in *. split; trivial; cbn [p_mem set_mem length].
    - intros i c Hi. pose proof (lookup_lt_Some _ _ _ Hi) as Hl. cbn [length] in Hl. rewrite Hw2 by lia. apply C5, Hi.
    - rewrite Hw2 by lia. exact C6. }
  eexists. split.
  - apply (vbscanf_number (set_mem m s) f str (numeral n ds) n ds fmt ptr); trivial; lia.
  - cbn [p_mem set_mem]. rewrite num_put_same. change (8 * Z.of_nat 4) with 32. unfold to_int. rewrite wrap_wrap by lia. exact Hint.
Qed.

Lemma printf_scanf_roundtrip_witness :
  exists k m, snprintf (fun _ _ _ _ _ _ => mret 0) 6000 16 4096 [-42] (page_process [37; 100; 0]) = Done k (set_mem m (page_process [37; 100; 0])) /\
    exists s', vbscanf 5 4096 [5000] (with_file 5 (scan_file 6000 k 0) (set_mem m (page_process [37; 100; 0]))) = Done 1 s' /\
      to_int (num_at 4 (p_mem s') 5000) = -42.
Proof.
  apply (printf_scanf_roundtrip (fun _ _ _ _ _ _ => mret 0) (page_process [37; 100; 0]) 6000 16 4096 (-42) 5 5000);
    [lia|reflexivity|lia|lia|lia|apply page_mapped; lia| |left; lia|apply page_mapped; lia|right; lia].
  apply (cstr_page [] [37; 100] []); [repeat constructor; lia|reflexivity].
Defined.

(** [scanf] takes every character between the digits and the letters for a hexadecimal digit: from a colon it reads 10. *)
Theorem scanf_hex_accepts_colon :
  match vbscanf 5 4096 [5000] (with_file 5 (scan_file 4099 1 0) (page_process [37; 120; 0; 58])) with
  | Done r s => r = 1 /\ num_at 4 (p_mem s) 5000 = 10
  | Bad _ => False
  end.
Proof. vm_compute. split; reflexivity. Qed.
