(* ===== verification/CStringProps.v ===== *)
(** * Theorems about strings

    The properties of the functions of CString.v and Number.v, with examples on a page of
    memory. *)

From Stdlib Require Import ZArith Lia Bool.
From stdpp Require Import base list numbers option sets.
From S2P Require Import Prelude CMem MemOps Heap CString CStringSpec Number.

(** A string in the example page. *)
Ltac page_string :=
  split; [lia|simpl; lia|apply page_mapped; simpl; lia|repeat constructor; lia| |reflexivity];
  let i := fresh "i" in let c := fresh "c" in let Hi := fresh "Hi" in
  intros i c Hi; do 20 (destruct i as [|i]; [first [discriminate Hi|injection Hi as <-; reflexivity]|]); discriminate Hi.

(** What a call returns, and the bytes that are in memory at the places [ys] then. *)
Definition leaves (p : C Z) (s : process) (ys : list Z) : option (Z * list Z) :=
  match p s with Done r s' => Some (r, byte_at (p_mem s') <$> ys) | _ => None end.

(** ** Numbers *)

(** C30: [itoa] writes the decimal digits of every [int], without leading zeros and with a sign if it
    is negative, changes nothing outside of the 12 bytes of its target, and returns the
    length; [atoi] reads the number back. *)
Theorem itoa_roundtrip s target size n :
  - 2 ^ 31 <= n < 2 ^ 31 -> 0 < target -> target + 12 <= 2 ^ 64 -> 12 <= size -> mapped s target (target + 12) ->
  exists ds m, itoa target size n s = Done (Z.of_nat (length (numeral n ds))) (set_mem m s) /\
    decimal (Z.abs n) ds /\ cstr (set_mem m s) target (numeral n ds) /\
    (forall y, y < target \/ target + 12 <= y -> byte_at m y = byte_at (p_mem s) y) /\
    atoi target (set_mem m s) = Done n (set_mem m s).
Proof.
  intros Hn Ht He Hs Hm. destruct (itoa_done s target size n Hn Ht He Hs Hm) as (ds & m & E & Hd & Hc & _ & Ho).
  exists ds, m. csplit; trivial. unfold atoi. rewrite (bind_done _ _ _ _ _ (strtol_done _ target n ds ltac:(lia) Hd Hc)).
  unfold mret, C_ret. f_equal. apply signed_wrap; lia.
Qed.

Lemma itoa_roundtrip_witness :
  exists ds m, itoa 4096 12 (-2147483648) (page_process []) = Done (Z.of_nat (length (numeral (-2147483648) ds))) (set_mem m (page_process [])) /\
    decimal 2147483648 ds /\ cstr (set_mem m (page_process [])) 4096 (numeral (-2147483648) ds) /\
    (forall y, y < 4096 \/ 4096 + 12 <= y -> byte_at m y = byte_at (p_mem (page_process [])) y) /\
    atoi 4096 (set_mem m (page_process [])) = Done (-2147483648) (set_mem m (page_process [])).
Proof. apply (itoa_roundtrip (page_process []) 4096 12 (-2147483648)); try lia. apply page_mapped; lia. Defined.

(** C38: [getnwidth] predicts how many characters [itoa] writes, for every [int] except the smallest:
    there the negation overflows and it says 2 instead of 11. *)
Theorem getnwidth_predicts s target size n :
  - 2 ^ 31 < n < 2 ^ 31 -> 0 < target -> target + 12 <= 2 ^ 64 -> 12 <= size -> mapped s target (target + 12) ->
  (exists w m, itoa target size n s = Done w (set_mem m s) /\ getnwidth n s = Done w s) /\
  (exists m, itoa target size (- 2 ^ 31) s = Done 11 (set_mem m s)) /\ getnwidth (- 2 ^ 31) s = Done 2 s.
Proof.
  intros Hn Ht He Hs Hm. split; [|split].
  - destruct (itoa_done s target size n ltac:(lia) Ht He Hs Hm) as (ds & m & E & Hd & _).
    eexists _, m. split; [exact E|]. apply (getnwidth_done s n ds Hn Hd).
  - destruct (itoa_done s target size (- 2 ^ 31) ltac:(lia) Ht He Hs Hm) as (ds & m & E & Hd & _).
    assert (Hw : has_width (Z.abs (- 2 ^ 31)) 10) by (split; [lia|split; [reflexivity|right; vm_compute; discriminate]]).
    pose proof (width_unique _ _ _ (decimal_width _ _ Hd) Hw) as El.
    exists m. rewrite E. unfold numeral. rewrite length_app, length_fmap. simpl (length [45] + _)%nat. f_equal. simpl length. lia.
  - unfold getnwidth. change (- 2 ^ 31 <? 0) with true. cbv iota beta zeta. change (to_int (- - 2 ^ 31)) with (- 2 ^ 31).
    apply (loop_iter _ 1%nat); [|lia]. apply iter_break. reflexivity.
Qed.

Lemma getnwidth_predicts_witness :
  (exists w m, itoa 4096 12 (-1000) (page_process []) = Done w (set_mem m (page_process [])) /\ getnwidth (-1000) (page_process []) = Done w (page_process [])) /\
  (exists m, itoa 4096 12 (- 2 ^ 31) (page_process []) = Done 11 (set_mem m (page_process []))) /\
  getnwidth (- 2 ^ 31) (page_process []) = Done 2 (page_process []).
Proof. apply (getnwidth_predicts (page_process []) 4096 12 (-1000)); try lia. apply page_mapped; lia. Defined.

(** ** Tokens *)

(** C32: A program that calls [strtok] with a string and then with NULL until it returns NULL gets
    the tokens of the string, in order: the i-th pointer it got points at the end to the i-th
    longest piece without delimiters, as a string of its own. *)
Theorem strtok_splits s a l d ds :
  cstr s a l -> cstr s d ds -> away a l d ds ->
  exists rs s', all_tokens a d s = Done rs s' /\ cstr s' d ds /\ Forall2 (cstr s') rs (tokens ds l).
Proof. apply all_tokens_done. Qed.

(** The string [,a,,bc] and the delimiters [,;]. *)
Definition token_page : process := page_process [44; 97; 44; 44; 98; 99; 0; 44; 59; 0].

Lemma strtok_splits_witness :
  tokens [44; 59] [44; 97; 44; 44; 98; 99] = [[97]; [98; 99]] /\
  exists rs s', all_tokens 4096 4103 token_page = Done rs s' /\ cstr s' 4103 [44; 59] /\
    Forall2 (cstr s') rs (tokens [44; 59] [44; 97; 44; 44; 98; 99]).
Proof.
  split; [reflexivity|]. apply (strtok_splits token_page 4096 [44; 97; 44; 44; 98; 99] 4103 [44; 59]).
  - page_string.
  - page_string.
  - left. simpl. lia.
Defined.

(** ** Comparing and searching *)

(** [strcmp] is the lexicographic order on signed characters: 0 for equal strings and only for
    them, and the opposite sign if the arguments are exchanged. *)
Theorem strcmp_orders s a l b k :
  cstr s a l -> cstr s b k ->
  strcmp a b s = Done (lex (fun c => c) l k) s /\ strcmp b a s = Done (- lex (fun c => c) l k) s /\
  (lex (fun c => c) l k = 0 <-> l = k).
Proof.
  intros S T. rewrite (strcmp_done s a l b k S T), (strcmp_done s b k a l T S), (lex_sym _ l k). split; [reflexivity|].
  split; [reflexivity|]. apply lex_zero; [apply S|apply T].
Qed.

Lemma strcmp_orders_witness :
  let s := page_process [97; 98; 0; 97; 200; 0] in
  strcmp 4096 4099 s = Done 1 s /\ strcmp 4099 4096 s = Done (-1) s /\ (1 = 0 <-> [97; 98] = [97; 200]).
Proof.
  apply (strcmp_orders (page_process [97; 98; 0; 97; 200; 0]) 4096 [97; 98] 4099 [97; 200]); page_string.
Defined.

(** [strncmp] of two equal strings that are shorter than [count] is negative: its loop ends at the
    ends of both strings, which the code behind it takes for the end of the first one only. *)
Theorem strncmp_equal_negative s a b l count :
  cstr s a l -> cstr s b l -> Z.of_nat (length l) < count < 2 ^ 63 -> strncmp a b count s = Done (-1) s.
Proof. apply strncmp_equal. Qed.

Lemma strncmp_equal_negative_witness :
  strncmp 4096 4099 5 (page_process [97; 98; 0; 97; 98; 0]) = Done (-1) (page_process [97; 98; 0; 97; 98; 0]).
Proof.
  apply (strncmp_equal_negative (page_process [97; 98; 0; 97; 98; 0]) 4096 4099 [97; 98] 5); [page_string|page_string|simpl; lia].
Defined.

(** [strstr] returns only occurrences of the pattern; if the first character of the pattern is
    not repeated in it, it returns the first occurrence, and NULL only if there is none. *)
Theorem strstr_finds s a l b k :
  cstr s a l -> cstr s b k ->
  exists r, strstr a b s = Done r s /\
    ((exists l1, r = a + Z.of_nat (length l1) /\ occurs l k l1 /\
       (first k ∉ tail k -> forall m1, occurs l k m1 -> (length l1 <= length m1)%nat)) \/
     r = 0 /\ (first k ∉ tail k -> forall m1, ~ occurs l k m1)).
Proof. apply strstr_done. Qed.

Lemma strstr_finds_witness :
  let s := page_process [97; 98; 99; 0; 98; 99; 0] in
  exists r, strstr 4096 4100 s = Done r s /\
    ((exists l1, r = 4096 + Z.of_nat (length l1) /\ occurs [97; 98; 99] [98; 99] l1 /\
       (first [98; 99] ∉ tail [98; 99] -> forall m1, occurs [97; 98; 99] [98; 99] m1 -> (length l1 <= length m1)%nat)) \/
     r = 0 /\ (first [98; 99] ∉ tail [98; 99] -> forall m1, ~ occurs [97; 98; 99] [98; 99] m1)).
Proof.
  apply (strstr_finds (page_process [97; 98; 99; 0; 98; 99; 0]) 4096 [97; 98; 99] 4100 [98; 99]); page_string.
Defined.

(** The result of a function. *)
Definition returns {A} (c : C A) (s : process) : option A := match c s with Done a _ => Some a | Bad _ => None end.

(** [strstr] misses occurrences: after a partial match it goes on behind it, so that it does
    not find [abac] in [ababac]; and [strmatch] lets the beginning and the end of a pattern
    overlap, so that [a*a] matches [a]. *)
Theorem strstr_misses :
  let text := [97; 98; 97; 98; 97; 99] in
  let pattern := [97; 98; 97; 99] in
  let s := page_process (text ++ [0] ++ pattern ++ [0]) in
  occurs text pattern [97; 98] /\ returns (strstr 4096 4103) s = Some 0 /\
  returns (strmatch 4096 4100) (page_process [97; 42; 97; 0; 97; 0]) = Some true.
Proof.
  split; [exists []; reflexivity|]. split; vm_compute; reflexivity.
Qed.
