(* ===== verification/CopySpec.v ===== *)
(** * Bounded copies

    What [strncpy], [strnzcpy] and [strchri] do, in terms of the bytes they write. *)

From Stdlib Require Import ZArith Lia Bool.
From stdpp Require Import base list numbers option.
From S2P Require Import Prelude CMem MemOps CString CStringSpec Number.

(** A character is written as a byte. *)
Lemma wrote_char a l c m m' x :
  wrote m m' a l -> wrap8 c = x -> wrote m (put 1 (a + Z.of_nat (length l)) c m') a (l ++ [x]).
Proof.
  intros H <-. eapply wrote_trans; [exact H|]. split.
  - intros [|i] d Hd; [|discriminate]. injection Hd as <-. rewrite Z.add_0_r, byte_put1, Z.eqb_refl. reflexivity.
  - intros y Hy. apply byte_put_other. simpl in *. lia.
Qed.

(** A later write covers the end of an earlier one. *)
Lemma wrote_over m m1 m2 a l1 x l2 :
  wrote m m1 a (l1 ++ x) -> wrote m1 m2 (a + Z.of_nat (length l1)) l2 -> (length x <= length l2)%nat -> wrote m m2 a (l1 ++ l2).
Proof.
  intros [A1 A2] [B1 B2] Hl. rewrite length_app in A2. split.
  - intros i c Hi. destruct (decide (i < length l1)%nat).
    + rewrite lookup_app_l in Hi by lia. rewrite B2 by lia. apply A1. rewrite lookup_app_l by lia. exact Hi.
    + rewrite lookup_app_r in Hi by lia. rewrite <- (B1 _ _ Hi). f_equal. lia.
  - intros y Hy. rewrite length_app in Hy. rewrite B2, A2 by lia. reflexivity.
Qed.

(** A written string. *)
Lemma wrote_cstr s a l m' :
  wrote (p_mem s) m' a (l ++ [0]) -> 0 < a -> a + Z.of_nat (length l) < 2 ^ 64 ->
  mapped s a (a + Z.of_nat (length l) + 1) -> Forall (fun c => 1 <= c < 256) l -> cstr (set_mem m' s) a l.
Proof.
  intros [H _] Ha He Hm Hl. split; simpl; trivial.
  - intros i c Hi. apply H. rewrite lookup_app_l by (eapply lookup_lt_Some, Hi). exact Hi.
  - apply H. rewrite lookup_app_r, Nat.sub_diag by lia. reflexivity.
Qed.

(** A string elsewhere. *)
Lemma wrote_away s b k m' a l :
  wrote (p_mem s) m' a l -> cstr s b k ->
  a + Z.of_nat (length l) <= b \/ b + Z.of_nat (length k) < a -> cstr (set_mem m' s) b k.
Proof.
  intros [_ H] [H1 H2 H3 H4 H5 H6] Hd. split; simpl; trivial.
  - intros i c Hi. pose proof (lookup_lt_Some _ _ _ Hi). rewrite H by lia. auto.
  - rewrite H by lia. exact H6.
Qed.

(** There is one string at an address. *)
Lemma cstr_unique s a l k : cstr s a l -> cstr s a k -> l = k.
Proof.
  revert a k. induction l as [|c l IH]; intros a k S T; pose proof (cstr_first _ _ _ S) as E; rewrite (cstr_first _ _ _ T) in E;
    pose proof (cs_range _ _ _ S) as R1; pose proof (cs_range _ _ _ T) as R2; destruct k as [|d k]; simpl in E.
  - reflexivity.
  - apply Forall_cons_1 in R2 as [R2 _]. lia.
  - apply Forall_cons_1 in R1 as [R1 _]. lia.
  - f_equal; [congruence|]. apply (IH (a + 1)); eapply cstr_next; eassumption.
Qed.

Lemma take_min n (l : list Z) : take (Nat.min n (length l)) l = take n l.
Proof.
  destruct (decide (n <= length l)%nat); [f_equal; lia|]. rewrite !take_ge by lia. reflexivity.
Qed.

(** ** The loop of the copies *)

(** [k] characters of the string at [from] have been copied to [to]. *)
Lemma copy_step s from l to k m c :
  cstr s from l -> wrote (p_mem s) m to (take k l) -> l !! k = Some c ->
  to + Z.of_nat k <= from \/ from + Z.of_nat (length l) < to ->
  load_char (from + Z.of_nat k) (set_mem m s) = Done (schar c) (set_mem m s) /\ truth (schar c) = true /\
  wrote (p_mem s) (put 1 (to + Z.of_nat k) (schar c) m) to (take (S k) l).
Proof.
  intros S Hw Hc Hd. pose proof (lookup_lt_Some _ _ _ Hc) as Hk.
  assert (Hr : 1 <= c < 256) by (pose proof (cs_range _ _ _ S) as H; rewrite Forall_lookup in H; apply (H k c Hc)).
  split; [|split; [apply schar_truth, Hr|]].
  - rewrite load_char_done by (apply (cs_mapped _ _ _ S); lia). simpl.
    rewrite (proj2 Hw) by (rewrite length_take; lia). rewrite (cs_chars _ _ _ S _ _ Hc). reflexivity.
  - rewrite (take_S_r l k c Hc). pose proof (wrote_char to (take k l) (schar c) _ _ c Hw (schar_byte c ltac:(lia))) as H.
    rewrite length_take_le in H by lia. exact H.
Qed.

Lemma copy_end s from l to m :
  cstr s from l -> wrote (p_mem s) m to l ->
  to + Z.of_nat (length l) <= from \/ from + Z.of_nat (length l) < to ->
  load_char (from + Z.of_nat (length l)) (set_mem m s) = Done 0 (set_mem m s).
Proof.
  intros S Hw Hd. rewrite load_char_done by (apply (cs_mapped _ _ _ S); lia). simpl.
  rewrite (proj2 Hw) by lia. rewrite (cs_zero _ _ _ S). reflexivity.
Qed.

(** ** [strncpy] *)

Lemma strncpy_zeros s e count :
  0 <= count < 2 ^ 64 -> mapped s e (e + count) ->
  exists m, loop (fun '(e, count) =>
      if 0 <? count then store8 e 0;; mret (Next (e + 1, count - 1)) else mret (Break tt)) (e, count) s =
      Done tt (set_mem m s) /\ wrote (p_mem s) m e (replicate (Z.to_nat count) 0).
Proof.
  intros Hc Hm.
  edestruct (fun body => loop_bounded body
    (fun n '(x, rem) s' => exists k m, x = e + Z.of_nat k /\ rem = n /\ 0 <= n /\ Z.of_nat k + n = count /\
       s' = set_mem m s /\ wrote (p_mem s) m e (replicate k 0))
    (fun (_ : unit) s' => exists m, s' = set_mem m s /\ wrote (p_mem s) m e (replicate (Z.to_nat count) 0))
    count (e, count) s) as ([] & s' & E & m & -> & Hw); [| | |eauto].
  - intros n [x rem] s' (k & m & -> & -> & Hn & Hk & -> & Hw). split; [lia|].
    destruct (Z.ltb_spec 0 n).
    + left. rewrite (bind_store 1) by (intros y Hy; apply Hm; lia).
      eexists _, _, (n - 1). split; [reflexivity|]. split; [|lia].
      exists (S k), (put 1 (e + Z.of_nat k) 0 m). csplit; try lia; trivial.
      rewrite replicate_S_end. pose proof (wrote_char e _ 0 _ _ 0 Hw eq_refl) as H1. rewrite length_replicate in H1. exact H1.
    + right. eexists _, _. split; [reflexivity|]. exists m. split; [reflexivity|].
      replace (Z.to_nat count) with k by lia. exact Hw.
  - exists 0%nat, (p_mem s). rewrite set_mem_mem, Z.add_0_r. csplit; try lia; trivial. apply wrote_nil.
  - lia.
Qed.

(** The first [n] characters, with zeros if there are not as many. *)
Lemma strncpy_done s from l to n :
  cstr s from l -> 0 < to -> 0 <= n < 2 ^ 64 -> mapped s to (to + n) ->
  to + n <= from \/ from + Z.of_nat (length l) < to ->
  exists m, strncpy to from n s = Done to (set_mem m s) /\
    wrote (p_mem s) m to (take (Z.to_nat n) l ++ replicate (Z.to_nat n - length l) 0).
Proof.
  intros S Ht Hn Hm Hd. unfold strncpy. rewrite (cstr_nonnull s from l _ S), nonnull_done by exact Ht.
  set (k0 := Nat.min (Z.to_nat n) (length l)).
  edestruct (fun body => loop_bounded body
    (fun i '(p, q, rem) s' => exists k m, p = to + Z.of_nat k /\ q = from + Z.of_nat k /\ rem = n - Z.of_nat k /\
       i = Z.of_nat k0 - Z.of_nat k /\ (k <= k0)%nat /\ s' = set_mem m s /\ wrote (p_mem s) m to (take k l))
    (fun '(p, rem) s' => exists m, p = to + Z.of_nat k0 /\ rem = n - Z.of_nat k0 /\ s' = set_mem m s /\
       wrote (p_mem s) m to (take k0 l))
    (Z.of_nat k0) (to, from, n) s) as ([p rem] & s' & E & m & -> & -> & -> & Hw);
    [| | |rewrite (bind_done _ _ _ _ _ E); clear E; cbv beta iota].
  - intros i [[p q] rem] s' (k & m & -> & -> & -> & -> & Hk & -> & Hw). split; [lia|]. cbv beta iota.
    destruct (decide (k < length l)%nat) as [Hl|Hl].
    + destruct (lookup_lt_is_Some_2 l k Hl) as [c Hc].
      destruct (copy_step s from l to k m c S Hw Hc) as (L & Hc' & Hw'); [lia|].
      rewrite (bind_done _ _ _ _ _ L), Hc'. destruct (Z.ltb_spec 0 (n - Z.of_nat k)); cbn [andb].
      * left. rewrite (bind_store 1) by (intros y Hy; apply Hm; lia).
        eexists _, _, _. split; [reflexivity|]. split; [exists (Datatypes.S k); eexists; csplit; try reflexivity; try lia; exact Hw'|lia].
      * right. eexists _, _. split; [reflexivity|]. exists m. replace k with k0 in * by lia. csplit; trivial; lia.
    + assert (Ek : k = length l) by lia. subst k. rewrite firstn_all in Hw.
      rewrite (bind_done _ _ _ _ _ (copy_end s from l to m S Hw ltac:(lia))). change (truth 0) with false. cbn [andb].
      right. eexists _, _. split; [reflexivity|]. exists m. replace k0 with (length l) by lia. rewrite firstn_all.
      csplit; trivial; lia.
  - exists 0%nat, (p_mem s). rewrite set_mem_mem, !Z.add_0_r, !Z.sub_0_r. csplit; trivial; try lia. apply wrote_nil.
  - lia.
  - destruct (strncpy_zeros (set_mem m s) (to + Z.of_nat k0) (n - Z.of_nat k0)) as (m2 & E2 & Hw2);
      [lia|intros y Hy; apply Hm; lia|].
    rewrite (bind_done _ _ _ _ _ E2). exists m2. split; [reflexivity|].
    replace (take (Z.to_nat n) l) with (take k0 l).
    + eapply wrote_trans; [exact Hw|]. rewrite length_take_le by lia.
      replace (Z.to_nat n - length l)%nat with (Z.to_nat (n - Z.of_nat k0)) by lia. exact Hw2.
    + apply take_min.
Qed.

(** A prefix is copied without a zero. *)
Lemma strncpy_prefix s from l to n :
  cstr s from l -> 0 < to -> 0 <= n <= Z.of_nat (length l) -> mapped s to (to + n) ->
  to + n <= from \/ from + Z.of_nat (length l) < to ->
  exists m, strncpy to from n s = Done to (set_mem m s) /\ wrote (p_mem s) m to (take (Z.to_nat n) l).
Proof.
  intros S Ht Hn Hm Hd. pose proof (cs_end _ _ _ S). pose proof (cs_pos _ _ _ S).
  destruct (strncpy_done s from l to n S Ht ltac:(lia) Hm Hd) as (m & E & Hw). exists m. split; [exact E|].
  replace (Z.to_nat n - length l)%nat with 0%nat in Hw by lia. simpl in Hw. rewrite app_nil_r in Hw. exact Hw.
Qed.

(** ** [strnzcpy] *)

(** At most [size - 1] characters, and a zero. *)
Lemma strnzcpy_done s from l to size :
  cstr s from l -> 0 < to -> 0 < size < 2 ^ 64 ->
  let k := take (Z.to_nat (size - 1)) l in
  mapped s to (to + Z.of_nat (length k) + 1) ->
  to + Z.of_nat (length k) < from \/ from + Z.of_nat (length l) < to ->
  exists m, strnzcpy to from size s = Done (Z.of_nat (length k)) (set_mem m s) /\ wrote (p_mem s) m to (k ++ [0]).
Proof.
  intros S Ht Hs k Hm Hd. unfold strnzcpy. rewrite (cstr_nonnull s from l _ S), nonnull_done by exact Ht.
  set (k0 := length k). assert (Ek0 : k0 = Nat.min (Z.to_nat (size - 1)) (length l)) by apply length_take.
  assert (Ek : k = take k0 l).
  { rewrite Ek0. symmetry. apply take_min. }
  fold k0 in Hm, Hd. rewrite Ek. clearbody k0. subst k. pose proof (cs_end _ _ _ S). pose proof (cs_pos _ _ _ S).
  edestruct (fun body => loop_bounded body
    (fun i '(p, q, rem) s' => exists k m, p = to + Z.of_nat k /\ q = from + Z.of_nat k /\ rem = size - Z.of_nat k /\
       i = Z.of_nat k0 - Z.of_nat k /\ (k <= k0)%nat /\ s' = set_mem m s /\ wrote (p_mem s) m to (take k l))
    (fun p s' => exists m, p = to + Z.of_nat k0 /\ s' = set_mem m s /\ wrote (p_mem s) m to (take k0 l))
    (Z.of_nat k0) (to, from, size) s) as (p & s' & E & m & -> & -> & Hw);
    [| | |rewrite (bind_done _ _ _ _ _ E); clear E; cbv beta iota].
  - intros i [[p q] rem] s' (k & m & -> & -> & -> & -> & Hk & -> & Hw). split; [lia|]. cbv beta iota.
    destruct (decide (k < length l)%nat) as [Hl|Hl].
    + destruct (lookup_lt_is_Some_2 l k Hl) as [c Hc].
      destruct (copy_step s from l to k m c S Hw Hc) as (L & Hc' & Hw'); [lia|].
      rewrite (bind_done _ _ _ _ _ L), Hc'. destruct (Z.ltb_spec 1 (size - Z.of_nat k)); cbn [andb].
      * left. rewrite (bind_store 1) by (intros y Hy; apply Hm; lia).
        eexists _, _, _. split; [reflexivity|]. split; [exists (Datatypes.S k); eexists; csplit; try reflexivity; try lia; exact Hw'|lia].
      * right. eexists _, _. split; [reflexivity|]. exists m. replace k with k0 in * by lia. auto.
    + assert (Ek' : k = length l) by lia. subst k. rewrite firstn_all in Hw.
      rewrite (bind_done _ _ _ _ _ (copy_end s from l to m S Hw ltac:(lia))). change (truth 0) with false. cbn [andb].
      right. eexists _, _. split; [reflexivity|]. exists m. replace k0 with (length l) by lia. rewrite firstn_all. auto.
  - exists 0%nat, (p_mem s). rewrite set_mem_mem, !Z.add_0_r, !Z.sub_0_r. csplit; trivial; try lia. apply wrote_nil.
  - lia.
  - rewrite (bind_store 1) by (intros y Hy; apply Hm; lia). eexists. split; [unfold mret, C_ret; f_equal; lia|].
    pose proof (wrote_char to (take k0 l) 0 _ _ 0 Hw eq_refl) as H1. rewrite length_take_le in H1 by lia. exact H1.
Qed.

(** The whole string, if there is room. *)
Lemma strnzcpy_all s from l to size :
  cstr s from l -> 0 < to -> Z.of_nat (length l) < size < 2 ^ 64 -> mapped s to (to + Z.of_nat (length l) + 1) ->
  to + Z.of_nat (length l) < from \/ from + Z.of_nat (length l) < to ->
  exists m, strnzcpy to from size s = Done (Z.of_nat (length l)) (set_mem m s) /\ wrote (p_mem s) m to (l ++ [0]).
Proof.
  intros S Ht Hs Hm Hd. pose proof (strnzcpy_done s from l to size S Ht ltac:(lia)) as H. cbv zeta in H.
  rewrite (take_ge l) in H by lia. auto.
Qed.

(** ** [strchri] *)

(** The position of the first [ch], or the length. *)
Lemma strchri_done s a l ch :
  cstr s a l -> 0 <= ch < 256 -> Z.of_nat (length l) < 2 ^ 31 ->
  strchri a (schar ch) s = Done (Z.of_nat (length (prefix_of (fun c => negb (c =? ch)) l))) s.
Proof.
  intros S Hch Hl. unfold strchri. rewrite (cstr_nonnull s a l _ S).
  assert (Hi : forall p, 0 <= p < 2 ^ 31 -> signed 32 (wrap32 p) = p).
  { intros p Hp. rewrite wrap_small by (unfold is_word; lia). unfold signed. rewrite (proj2 (Z.ltb_lt _ _)); lia. }
  use_string_loop (fun l1 : list Z => a + Z.of_nat (length l1)) (fun l1 : list Z => forallb (fun c => negb (c =? ch)) l1 = true)
    (fun r => r = Z.of_nat (length (prefix_of (fun c => negb (c =? ch)) l))) s a l a S; [| | | |rewrite E, HQ; reflexivity].
  - apply Z.add_0_r.
  - reflexivity.
  - intros Hall S2. read_char S2. eexists. split; [reflexivity|]. rewrite Z.add_simpl_l, Hi by lia.
    rewrite <- (app_nil_r l) at 2. rewrite prefix_of_app by exact Hall. simpl. rewrite app_nil_r. reflexivity.
  - intros l1 c l2 El Hall S2. read_char S2. pose proof (cs_range _ _ _ S2) as Hr. apply Forall_cons_1 in Hr as [Hr _].
    assert (Hlen : Z.of_nat (length l1) < 2 ^ 31) by (rewrite El, length_app in Hl; lia).
    rewrite schar_inj by lia. destruct (Z.eqb_spec c ch) as [->|Hne].
    + left. eexists. split; [reflexivity|]. rewrite Z.add_simpl_l, Hi by lia.
      rewrite El, prefix_of_app by exact Hall. simpl. rewrite Z.eqb_refl. simpl. rewrite app_nil_r. reflexivity.
    + right. rewrite next_pos. split; [reflexivity|]. rewrite forallb_app, Hall. simpl.
      rewrite (proj2 (Z.eqb_neq _ _) Hne). reflexivity.
Qed.

Lemma schar_is c d : 1 <= c < 256 -> 0 <= d < 128 -> (schar c =? d) = (c =? d).
Proof.
  intros Hc Hd. replace d with (schar d) at 1 by (unfold schar, signed; rewrite (proj2 (Z.ltb_lt _ _)); lia). apply schar_inj; lia.
Qed.

(** [strcpy] in terms of what it writes. *)
Lemma strcpy_wrote s from l to :
  cstr s from l -> 0 < to -> to + Z.of_nat (length l) + 1 <= 2 ^ 64 -> mapped s to (to + Z.of_nat (length l) + 1) ->
  to + Z.of_nat (length l) <= from \/ from + Z.of_nat (length l) < to ->
  exists m, strcpy to from s = Done to (set_mem m s) /\ wrote (p_mem s) m to (l ++ [0]).
Proof.
  intros S Ht He Hm Hd. destruct (strcpy_done s from l to S Ht He Hm Hd) as (m & E & S1 & Ho). exists m.
  split; [exact E|]. split.
  - intros i c Hi. destruct (decide (i < length l)%nat).
    + rewrite lookup_app_l in Hi by lia. exact (cs_chars _ _ _ S1 _ _ Hi).
    + pose proof (lookup_lt_Some _ _ _ Hi) as Hl. rewrite length_app in Hl. simpl in Hl. assert (i = length l) as -> by lia.
      rewrite lookup_app_r, Nat.sub_diag in Hi by lia. injection Hi as <-. exact (cs_zero _ _ _ S1).
  - intros y Hy. rewrite length_app in Hy. simpl in Hy. apply Ho. lia.
Qed.

Lemma to_int_small x : 0 <= x < 2 ^ 31 -> to_int x = x.
Proof. intros H. unfold to_int. rewrite wrap_small by (unfold is_word; lia). unfold signed. rewrite (proj2 (Z.ltb_lt _ _)); lia. Qed.
