(* ===== verification/Env.v ===== *)
(** * The environment of a process

    The environment variables of the C library (lib/c/stdlib): an array of strings of the form
    name=value that ends with a null pointer, all on the heap.  The variable [environ] and the
    static buffers of [getenv] and [getenvi] lie in the static data of the process; their
    addresses are parameters. *)

From Stdlib Require Import ZArith Lia Bool.
From stdpp Require Import base list numbers option.
From S2P Require Import Prelude CMem MemOps Heap CString Number.

Definition EFAULT : Z := 6.
Definition EINVAL : Z := 8.
Definition ENOMEM : Z := 20.
Definition ENOTFOUND : Z := 44.

Definition MAX_PATH_LEN : Z := 255.
Definition ENV_NAME_MAX : Z := 64.

(** [=] *)
Definition EQ : Z := 61.

Section Environ.
(** The address of [environ]. *)
Context (environ : Z).

(** [val && len == (size_t)(val - *var) && strncmp( *var,name,len) == 0], where [val] is the
    position of the first [=] in the variable [v]; the result is [val], or NULL. *)
Definition var_value (v name len : Z) : C Z :=
  val ← strchr v EQ;
  if truth val then
    if len =? (val -o v) then
      c ← strncmp v name len;
      mret (if c =? 0 then val else 0)
    else mret 0
  else mret 0.

Definition getenvto (value valSize name : Z) : C Z :=
  var ← load64 environ;
  len ← strlen name;
  loop (fun var =>
    v ← load64 var;
    if truth v then
      val ← var_value v name len;
      if truth val then r ← strnzcpy value (val + 1) valSize; mret (Break (signed 64 r))
      else mret (Next (var + 8))
    else mret (Break (- ENOTFOUND))) var.

(** [value] is the static buffer. *)
Definition getenv (value name : Z) : C Z :=
  r ← getenvto value MAX_PATH_LEN name;
  if 0 <=? r then mret value else mret 0.

Definition envcount : C Z :=
  env ← load64 environ;
  loop (fun i =>
    v ← load64 (env + 8 * i);
    if v =? 0 then mret (Break i) else mret (Next (i + 1))) 0.

Definition getenvito (name nameSize index : Z) : C Z :=
  n ← envcount;
  if n <=? index then mret (- EINVAL) else
  env ← load64 environ;
  v ← load64 (env + 8 * index);
  val ← strchr v EQ;
  if negb (truth val) then mret (- EFAULT) else
  store8 val 0;;
  env ← load64 environ;
  v ← load64 (env + 8 * index);
  len ← strnzcpy name v nameSize;
  store8 val EQ;;
  mret (signed 64 len).

(** [name] is the static buffer. *)
Definition getenvi (name index : Z) : C Z :=
  r ← getenvito name ENV_NAME_MAX index;
  if 0 <=? r then mret name else mret 0.

Definition genvar (name value namelen : Z) : C Z :=
  vlen ← strlen value;
  nvar ← malloc (namelen +o vlen +o 2);
  if negb (truth nvar) then mret 0 else
  strncpy nvar name namelen;;
  store8 (nvar + namelen) EQ;;
  strcpy (nvar + namelen + 1) value;;
  mret nvar.

(** The first loop of [setenv]: the result of the call if the variable exists, or the number of
    variables. *)
Definition replace_var (name value len var : Z) : C (Z + Z) :=
  loop (fun '(var, count) =>
    v ← load64 var;
    if truth v then
      val ← var_value v name len;
      if truth val then
        nvar ← genvar name value len;
        if negb (truth nvar) then mret (Break (inl (- ENOMEM))) else
        old ← load64 var;
        free old;;
        store64 var nvar;;
        mret (Break (inl 0))
      else mret (Next (var + 8, count + 1))
    else mret (Break (inr count))) (var, 0).

(** The last part: the array [nenv] with the variable [nvar] at its end takes the place of the
    old one. *)
Definition install (nenv nvar count : Z) : C Z :=
  i ← loop (fun i =>
    if i <? count then
      env ← load64 environ;
      v ← load64 (env + 8 * i);
      store64 (nenv + 8 * i) v;;
      mret (Next (i + 1))
    else mret (Break i)) 0;
  store64 (nenv + 8 * i) nvar;;
  store64 (nenv + 8 * (i + 1)) 0;;
  env ← load64 environ;
  free env;;
  store64 environ nenv;;
  mret 0.

(** The second part: a larger array, with the new variable at its end. *)
Definition add_var (name value len count : Z) : C Z :=
  nenv ← malloc ((count +o 2) *o 8);
  if negb (truth nenv) then mret (- ENOMEM) else
  nvar ← genvar name value len;
  if negb (truth nvar) then free nenv;; mret (- ENOMEM) else
  install nenv nvar count.

Definition setenv (name value : Z) : C Z :=
  var ← load64 environ;
  len ← strlen name;
  r ← replace_var name value len var;
  match r with
  | inl res => mret res
  | inr count => add_var name value len count
  end.

(** [error] prints a message and ends the process. *)
Definition initenv (envc envv : Z) : C unit :=
  env ← malloc (to_int (envc + 1) *o 8);
  store64 environ env;;
  if env =? 0 then bad Exited else
  i ← loop (fun i =>
    if i <? envc then
      v ← load64 (envv + 8 * i);
      d ← strdup v;
      env ← load64 environ;
      store64 (env + 8 * i) d;;
      env ← load64 environ;
      d ← load64 (env + 8 * i);
      if d =? 0 then bad Exited else mret (Next (i + 1))
    else mret (Break i)) 0;
  env ← load64 environ;
  store64 (env + 8 * i) 0.
End Environ.
