(* ===== verification/EnvSpec.v ===== *)
(** * The environment as a list of variables

    The environment in memory is the list of its strings.  [env_get] and [env_set] are the
    look-up and the update on that list; the routines of Env.v do the same in memory, on top of
    the contract of the allocator. *)

From Stdlib Require Import ZArith Lia Bool.
From stdpp Require Import base list numbers option gmap.
From S2P Require Import Prelude CMem MemOps Heap Alloc CString CStringSpec Number CopySpec Env SllSpec.

(** ** The list of variables *)

Definition no_eq (c : Z) : bool := negb (c =? EQ).

(** The value of the variable [nm], if that is the one the string [e] defines. *)
Definition var_of (nm e : list Z) : option (list Z) :=
  if decide (prefix_of no_eq e = nm) then
    match drop (length nm) e with [] => None | _ :: v => Some v end
  else None.

Fixpoint env_get (nm : list Z) (E : list (list Z)) : option (list Z) :=
  match E with
  | [] => None
  | e :: E' => match var_of nm e with Some v => Some v | None => env_get nm E' end
  end.

Fixpoint env_set (nm v : list Z) (E : list (list Z)) : list (list Z) :=
  match E with
  | [] => [nm ++ EQ :: v]
  | e :: E' => match var_of nm e with Some _ => (nm ++ EQ :: v) :: E' | None => e :: env_set nm v E' end
  end.

Lemma var_of_spec nm e v : var_of nm e = Some v <-> e = nm ++ EQ :: v /\ EQ ∉ nm.
Proof.
  unfold var_of. destruct (prefix_of_split no_eq e) as (l2 & El & Hp & Hl2).
  assert (Hin : EQ ∉ prefix_of no_eq e).
  { intros Hin. rewrite forallb_forall in Hp. apply list_elem_of_In, Hp in Hin. discriminate. }
  destruct (decide (prefix_of no_eq e = nm)) as [E|E].
  - rewrite E in *. rewrite El, drop_app_length. destruct Hl2 as [->|(c & l3 & -> & Hc)].
    + split; [discriminate|]. intros [H _]. apply app_inv_head in H. discriminate.
    + unfold no_eq in Hc. apply negb_false_iff, Z.eqb_eq in Hc as ->. split.
      * intros H. injection H as ->. auto.
      * intros [H _]. apply app_inv_head in H. congruence.
  - split; [discriminate|]. intros [-> Hn]. destruct E. rewrite prefix_of_app.
    + simpl. apply app_nil_r.
    + apply forallb_forall. intros c Hc. apply negb_true_iff, Z.eqb_neq. intros ->. apply Hn, list_elem_of_In, Hc.
Qed.

(** The first [=] divides a string in one way. *)
Lemma eq_split nm v nm' v' :
  nm ++ EQ :: v = nm' ++ EQ :: v' -> EQ ∉ nm -> EQ ∉ nm' -> nm = nm' /\ v = v'.
Proof.
  revert nm'. induction nm as [|c nm IH]; intros [|d nm'] E H1 H2.
  - injection E as ->. auto.
  - injection E as <- _. destruct H2. left.
  - injection E as -> _. destruct H1. left.
  - injection E as -> E. rewrite not_elem_of_cons in H1, H2. destruct (IH nm' E) as [-> ->]; tauto.
Qed.

Lemma var_of_none_nm nm e : EQ ∈ nm -> var_of nm e = None.
Proof. intros H. destruct (var_of nm e) eqn:E; [|reflexivity]. apply var_of_spec in E as [_ E]. contradiction. Qed.

(** Reading back: a name is found with its new value, the others keep theirs. *)
Lemma env_get_set nm v E nm' :
  EQ ∉ nm -> env_get nm' (env_set nm v E) = if decide (nm' = nm) then Some v else env_get nm' E.
Proof.
  intros Hn.
  assert (Hnew : forall E', env_get nm' ((nm ++ EQ :: v) :: E') = if decide (nm' = nm) then Some v else env_get nm' E').
  { intros E'. simpl. destruct (decide (nm' = nm)) as [->|Hne].
    - rewrite (proj2 (var_of_spec nm (nm ++ EQ :: v) v) (conj eq_refl Hn)). reflexivity.
    - destruct (var_of nm' (nm ++ EQ :: v)) as [w|] eqn:Ew; [|reflexivity]. apply var_of_spec in Ew as [Ew Hn'].
      destruct Hne. symmetry. apply (eq_split _ _ _ _ Ew Hn Hn'). }
  induction E as [|e E IH]; [apply (Hnew [])|]. cbn [env_set].
  destruct (var_of nm e) as [w|] eqn:Ew.
  - rewrite Hnew. destruct (decide (nm' = nm)) as [|Hne]; [reflexivity|]. cbn [env_get].
    destruct (var_of nm' e) as [w'|] eqn:Ew'; [|reflexivity]. destruct Hne.
    apply var_of_spec in Ew as [-> _]. apply var_of_spec in Ew' as [Ew' Hn']. symmetry. apply (eq_split _ _ _ _ Ew' Hn Hn').
  - cbn [env_get]. rewrite IH. destruct (var_of nm' e) as [w'|] eqn:Ew'; [|reflexivity].
    destruct (decide (nm' = nm)) as [->|]; [congruence|reflexivity].
Qed.

(** ** Memory that is refused *)

(** The allocator refuses one of the requests for the sizes, which are made one after the other
    from a state on.  In between the program writes to the blocks it has got and to the bytes [W]
    only. *)
Inductive refuses : (Z -> Prop) -> process -> list Z -> Prop :=
| refuses_now W s n ns s' : malloc n s = Done 0 s' -> refuses W s (n :: ns)
| refuses_later W s n ns p s1 m : malloc n s = Done p s1 -> p <> 0 ->
    (forall y, ~ (W y \/ p <= y < p + n) -> byte_at m y = byte_at (p_mem s1) y) ->
    refuses (fun y => W y \/ p <= y < p + n) (set_mem m s1) ns -> refuses W s (n :: ns).

(** The string of a variable, and the blocks that setting it takes. *)
Definition var_size (nm v : list Z) : Z := Z.of_nat (length (nm ++ EQ :: v)) + 1.
Definition needed (nm v : list Z) (E : list (list Z)) : list Z :=
  match env_get nm E with Some _ => [var_size nm v] | None => [8 * (Z.of_nat (length E) + 2); var_size nm v] end.

(** ** Looking at one variable *)

(** Comparing a prefix that is shorter than the string. *)
Lemma strncmp_prefix s a l b k :
  cstr s a l -> cstr s b k -> (length k < length l)%nat -> Z.of_nat (length k) < 2 ^ 63 ->
  exists r, strncmp a b (Z.of_nat (length k)) s = Done r s /\ (r = 0 <-> take (length k) l = k).
Proof.
  intros S T Hlt Hk. unfold strncmp. rewrite (cstr_nonnull s a l _ S), (cstr_nonnull s b k _ T).
  set (n := Z.of_nat (length k)) in *.
  assert (En : signed 64 n = n) by (unfold signed; rewrite (proj2 (Z.ltb_lt _ _)); lia). rewrite En.
  use_string_loop (fun k1 : list Z => (a + Z.of_nat (length k1), b + Z.of_nat (length k1), n - Z.of_nat (length k1)))
    (fun k1 : list Z => take (length k1) l = k1)
    (fun r => r = 0 <-> take (length k) l = k) s b k (a, b, n) T; [| | | |eauto].
  - rewrite !Z.add_0_r, Z.sub_0_r. reflexivity.
  - reflexivity.
  - intros Hi T2. pose proof S as S1. rewrite <- (take_drop (length k) l), Hi in S1. apply cstr_tail in S1.
    destruct (drop (length k) l) as [|c l2] eqn:Ed.
    { apply (f_equal length) in Ed. rewrite length_drop in Ed. simpl in Ed. lia. }
    read_char S1. read_char T2. unfold n. rewrite Z.sub_diag. eexists. split; [reflexivity|]. tauto.
  - intros k1 d k2 Ek Hi T2. pose proof S as S1. rewrite <- (take_drop (length k1) l), Hi in S1. apply cstr_tail in S1.
    destruct (drop (length k1) l) as [|c l2] eqn:Ed.
    { apply (f_equal length) in Ed. rewrite length_drop in Ed. rewrite Ek, length_app in Hlt. simpl in *. lia. }
    read_char S1. read_char T2. rewrite (proj2 (Z.ltb_lt _ _)) by (unfold n; rewrite Ek, length_app; simpl; lia).
    pose proof (cs_range _ _ _ S1) as R1. pose proof (cs_range _ _ _ T2) as R2.
    apply Forall_cons_1 in R1 as [R1 _]. apply Forall_cons_1 in R2 as [R2 _].
    rewrite schar_inj by lia. destruct (Z.eqb_spec c d) as [->|Hne]; cbn [negb].
    + right. rewrite !next_pos. split; [do 3 f_equal; rewrite length_app; simpl; lia|].
      rewrite length_app. simpl. rewrite Nat.add_1_r. rewrite (take_S_r l _ d); [rewrite Hi; reflexivity|].
      rewrite <- (take_drop (length k1) l), Ed, lookup_app_r; rewrite Hi; [rewrite Nat.sub_diag; reflexivity|lia].
    + left. eexists. split; [reflexivity|]. split; [destruct (_ <? _); discriminate|]. intros H. exfalso. apply Hne.
      assert (Hc : l !! length k1 = Some c).
      { rewrite <- (take_drop (length k1) l), Ed, lookup_app_r; rewrite Hi; [rewrite Nat.sub_diag; reflexivity|lia]. }
      assert (Hd : k !! length k1 = Some d) by (rewrite Ek, lookup_app_r, Nat.sub_diag by lia; reflexivity).
      rewrite <- H, lookup_take in Hd. destruct (decide (length k1 < length k)%nat); congruence.
Qed.

Lemma var_value_done s v e name nm :
  cstr s v e -> cstr s name nm -> Z.of_nat (length nm) < 2 ^ 63 ->
  var_value v name (Z.of_nat (length nm)) s =
  Done (match var_of nm e with Some _ => v + Z.of_nat (length nm) | None => 0 end) s.
Proof.
  intros Sv Sn Hl. unfold var_value. pose proof (cs_pos _ _ _ Sv) as Hp. pose proof (cs_end _ _ _ Sv) as He.
  destruct (strchr_done s v e EQ Sv ltac:(unfold EQ; lia)) as (r & E & Hr). change (schar EQ) with EQ in E.
  rewrite (bind_done _ _ _ _ _ E). clear E. destruct Hr as [[-> Hn]|(l1 & l2 & -> & Hn & ->)].
  - change (truth 0) with false. cbv iota. destruct (var_of nm e) as [w|] eqn:Ew; [|reflexivity].
    apply var_of_spec in Ew as [-> _]. set_solver.
  - rewrite length_app in He. simpl in He.
    assert (Ht : truth (v + Z.of_nat (length l1)) = true) by (apply negb_true_iff, Z.eqb_neq; lia). rewrite Ht.
    rewrite Z.add_simpl_l, wrap_small by (unfold is_word; lia).
    destruct (Z.eqb_spec (Z.of_nat (length nm)) (Z.of_nat (length l1))) as [El|El].
    + assert (Hlen : length nm = length l1) by lia.
      destruct (strncmp_prefix s v (l1 ++ EQ :: l2) name nm Sv Sn) as (r & E & Hr); [rewrite length_app; simpl; lia|exact Hl|].
      rewrite (bind_done _ _ _ _ _ E). rewrite Hlen, take_app_length in Hr. destruct (Z.eqb_spec r 0) as [Hz|Hz].
      * apply Hr in Hz. subst l1. rewrite (proj2 (var_of_spec nm (nm ++ EQ :: l2) l2) (conj eq_refl Hn)). reflexivity.
      * destruct (var_of nm _) as [w|] eqn:Ew; [|reflexivity]. apply var_of_spec in Ew as [Ew _]. destruct Hz.
        apply Hr. apply (f_equal (take (length l1))) in Ew. rewrite take_app_length, <- Hlen, take_app_length in Ew. exact Ew.
    + destruct (var_of nm _) as [w|] eqn:Ew; [|reflexivity]. apply var_of_spec in Ew as [Ew Hn2]. exfalso.
      destruct (eq_split _ _ _ _ Ew Hn Hn2) as [-> _]. lia.
Qed.

(** ** The environment in memory *)

(** The array [ps] of pointers at [a], to the strings [E]. *)
Record env_at (s : process) (a : Z) (ps : list Z) (E : list (list Z)) : Prop := {
  ea_pos : 0 < a;
  ea_end : a + 8 * Z.of_nat (length ps) + 8 <= 2 ^ 64;
  ea_mapped : mapped s a (a + 8 * Z.of_nat (length ps) + 8);
  ea_word i p : ps !! i = Some p -> word_at (p_mem s) (a + 8 * Z.of_nat i) = p;
  ea_null : word_at (p_mem s) (a + 8 * Z.of_nat (length ps)) = 0;
  ea_vars : Forall2 (cstr s) ps E
}.

(** None of the first [i] strings defines [nm]. *)
Definition skipped (nm : list Z) (E : list (list Z)) (i : nat) : Prop :=
  forall j e, (j < i)%nat -> E !! j = Some e -> var_of nm e = None.

Lemma skipped_next nm E i e : skipped nm E i -> E !! i = Some e -> var_of nm e = None -> skipped nm E (S i).
Proof.
  intros H He Hv j x Hj Hx. destruct (decide (j = i)) as [->|]; [congruence|]. apply (H j); [lia|exact Hx].
Qed.

Lemma env_hit nm E i e v x : skipped nm E i -> E !! i = Some e -> var_of nm e = Some v ->
  env_get nm E = Some v /\ env_set nm x E = <[i := nm ++ EQ :: x]> E.
Proof.
  revert i. induction E as [|e0 E IH]; intros i Hs He Hv; [discriminate|]. destruct i as [|i]; cbn [env_get env_set].
  - injection He as ->. rewrite Hv. auto.
  - rewrite (Hs 0%nat e0) by (lia || reflexivity). destruct (IH i) as [-> ->]; trivial; [|auto].
    intros j y Hj Hy. apply (Hs (S j)); [lia|exact Hy].
Qed.

Lemma env_miss nm E x : skipped nm E (length E) -> env_get nm E = None /\ env_set nm x E = E ++ [nm ++ EQ :: x].
Proof.
  induction E as [|e E IH]; intros Hs; [auto|]. cbn [env_get env_set].
  rewrite (Hs 0%nat e) by (simpl; lia || reflexivity). destruct IH as [-> ->]; [|auto].
  intros j y Hj Hy. apply (Hs (S j)); [simpl; lia|exact Hy].
Qed.

Section Read.
Context (s : process) (a : Z) (ps : list Z) (E : list (list Z)) (A : env_at s a ps E).

Lemma env_length : length ps = length E.
Proof. exact (Forall2_length _ _ _ (ea_vars _ _ _ _ A)). Qed.

(** One round of the loops over the environment: a variable, or the end. *)
Lemma env_var i p e : ps !! i = Some p -> E !! i = Some e ->
  load64 (a + 8 * Z.of_nat i) s = Done p s /\ truth p = true /\ cstr s p e.
Proof.
  intros Hp He. pose proof (lookup_lt_Some _ _ _ Hp). pose proof (Forall2_lookup_lr _ _ _ _ _ _ (ea_vars _ _ _ _ A) Hp He) as S1.
  split; [|split; [apply negb_true_iff, Z.eqb_neq; pose proof (cs_pos _ _ _ S1); lia|exact S1]].
  rewrite load_done by (intros y Hy; apply (ea_mapped _ _ _ _ A); lia). rewrite (ea_word _ _ _ _ A i p Hp). reflexivity.
Qed.

Lemma env_end : load64 (a + 8 * Z.of_nat (length ps)) s = Done 0 s.
Proof.
  rewrite load_done by (intros y Hy; apply (ea_mapped _ _ _ _ A); lia). rewrite (ea_null _ _ _ _ A). reflexivity.
Qed.

Lemma env_lookup i : (i < length ps)%nat -> exists p e, ps !! i = Some p /\ E !! i = Some e.
Proof.
  intros Hi. destruct (lookup_lt_is_Some_2 ps i Hi) as [p Hp].
  destruct (lookup_lt_is_Some_2 E i ltac:(rewrite <- env_length; exact Hi)) as [e He]. eauto.
Qed.
End Read.

(** [getenvto] copies the value of the variable into the buffer, as far as there is room. *)
Lemma getenvto_done environ s a ps E name nm value valSize :
  env_at s a ps E -> mapped s environ (environ + 8) -> word_at (p_mem s) environ = a ->
  cstr s name nm -> Z.of_nat (length nm) < 2 ^ 63 ->
  0 < value -> 0 < valSize < 2 ^ 63 -> mapped s value (value + valSize) ->
  (forall p e, p ∈ ps -> cstr s p e -> value + valSize <= p \/ p + Z.of_nat (length e) < value) ->
  match env_get nm E with
  | Some v => let k := take (Z.to_nat (valSize - 1)) v in
      exists m, getenvto environ value valSize name s = Done (Z.of_nat (length k)) (set_mem m s) /\
        wrote (p_mem s) m value (k ++ [0])
  | None => getenvto environ value valSize name s = Done (- ENOTFOUND) s
  end.
Proof.
  intros A Hen Ha Sn Hnm Hv Hs Hm Hd. unfold getenvto.
  rewrite (bind_load 8) by (intros y Hy; apply Hen; lia). rewrite Ha, (bind_done _ _ _ _ _ (strlen_done s name nm Sn)).
  pose proof (ea_end _ _ _ _ A) as Hae. pose proof (ea_pos _ _ _ _ A) as Hap.
  edestruct (fun body => loop_bounded body
    (fun n var s' => s' = s /\ exists i, var = a + 8 * Z.of_nat i /\ n = Z.of_nat (length ps) - Z.of_nat i /\ (i <= length ps)%nat /\ skipped nm E i)
    (fun r s' => match env_get nm E with
       | Some v => let k := take (Z.to_nat (valSize - 1)) v in exists m, r = Z.of_nat (length k) /\ s' = set_mem m s /\
           wrote (p_mem s) m value (k ++ [0])
       | None => r = - ENOTFOUND /\ s' = s end)
    (Z.of_nat (length ps)) a s) as (r & s' & El & Hr); [| | |rewrite El; clear El].
  4: { destruct (env_get nm E) as [v|]; [destruct Hr as (m & -> & -> & Hw); eauto|destruct Hr as [-> ->]; reflexivity]. }
  - intros n var s' (-> & i & -> & -> & Hi & Hsk). split; [lia|]. cbv beta.
    destruct (decide (i < length ps)%nat) as [Hlt|Hge].
    + destruct (env_lookup s a ps E A i Hlt) as (p & e & Hp & He). destruct (env_var s a ps E A i p e Hp He) as (L & Ht & Sp).
      rewrite (bind_done _ _ _ _ _ L), Ht, (bind_done _ _ _ _ _ (var_value_done s p e name nm Sp Sn Hnm)).
      destruct (var_of nm e) as [v|] eqn:Ev.
      * right. destruct (env_hit nm E i e v [] Hsk He Ev) as [-> _]. apply var_of_spec in Ev as [-> Hn].
        pose proof (cs_pos _ _ _ Sp).
        assert (Ht' : truth (p + Z.of_nat (length nm)) = true) by (apply negb_true_iff, Z.eqb_neq; lia). rewrite Ht'.
        pose proof (cstr_tail s p (nm ++ [EQ]) v) as Sv. rewrite <- app_assoc in Sv. specialize (Sv Sp).
        rewrite length_app in Sv. simpl in Sv. replace (p + Z.of_nat (length nm + 1)) with (p + Z.of_nat (length nm) + 1) in Sv by lia.
        pose proof (Hd p _ (list_elem_of_lookup_2 _ _ _ Hp) Sp) as Hdp. rewrite length_app in Hdp. simpl in Hdp.
        set (k := take (Z.to_nat (valSize - 1)) v). assert (Hk : Z.of_nat (length k) < valSize) by (unfold k; rewrite length_take; lia).
        destruct (strnzcpy_done s _ v value valSize Sv Hv ltac:(lia)) as (m & Em & Hw); fold k;
          [intros y Hy; apply Hm; lia|lia|]. rewrite (bind_done _ _ _ _ _ Em). eexists _, _. split; [reflexivity|].
        cbv zeta. exists m. csplit; trivial. fold k. unfold signed. rewrite (proj2 (Z.ltb_lt _ _)) by lia. reflexivity.
      * left. change (truth 0) with false. eexists _, s, _. split; [reflexivity|]. split.
        -- split; [reflexivity|]. exists (S i). csplit; try lia; [reflexivity|]. eapply skipped_next; eassumption.
        -- lia.
    + right. assert (i = length ps) as -> by lia. rewrite (bind_done _ _ _ _ _ (env_end s a ps E A)).
      change (truth 0) with false. eexists _, s. split; [reflexivity|]. rewrite (env_length s a ps E A) in Hsk.
      destruct (env_miss nm E [] Hsk) as [-> _]. auto.
  - split; [reflexivity|]. exists 0%nat. csplit; try lia. intros j e Hj. lia.
  - lia.
Qed.

(** ** Memory that is not the heap's to give away *)

Section Steady.
Context {F : Z -> Prop} {inv : process -> gmap Z Z -> Prop} `{Al : Allocator F inv}.

(** The bytes from [x] on are foreign or in live blocks. *)
Definition steady (B : gmap Z Z) (x n : Z) : Prop :=
  forall y, x <= y < x + n -> F y \/ exists p k, B !! p = Some k /\ p <= y < p + k.

Lemma steady_sub B B' x n : B ⊆ B' -> steady B x n -> steady B' x n.
Proof.
  intros HB H y Hy. destruct (H y Hy) as [?|(p & k & Hp & ?)]; [auto|].
  right. exists p, k. split; [eapply lookup_weaken; eassumption|trivial].
Qed.

Lemma steady_byte B s s' x n y : keeps F B s s' -> steady B x n -> x <= y < x + n ->
  byte_at (p_mem s') y = byte_at (p_mem s) y.
Proof. intros [K1 K2] H Hy. destruct (H y Hy) as [?|(p & k & Hp & Hy')]; [auto|]. apply (K1 p k); trivial. Qed.

(** Strings in such memory last. *)
Lemma steady_cstr B s s' B' x l :
  keeps F B s s' -> inv s' B' -> B ⊆ B' -> steady B x (Z.of_nat (length l) + 1) -> cstr s x l -> cstr s' x l.
Proof.
  intros K I HB H [H1 H2 H3 H4 H5 H6]. split; trivial.
  - intros y Hy. destruct (H y ltac:(lia)) as [Hf|(p & k & Hp & Hy')].
    + apply (al_foreign s' B' y I Hf).
    + apply (al_live s' B' p k I (lookup_weaken _ _ _ _ Hp HB)), Hy'.
  - intros i c Hi. pose proof (lookup_lt_Some _ _ _ Hi). rewrite (steady_byte B s s' x _ _ K H) by lia. auto.
  - rewrite (steady_byte B s s' x _ _ K H) by lia. exact H6.
Qed.

(** A new block is apart from it. *)
Lemma steady_apart B s B' r n x k :
  inv s B' -> B ⊆ B' -> B' !! r = Some n -> B !! r = None -> 0 < k -> steady B x k -> x + k <= r \/ r + n <= x.
Proof.
  intros I HB Hr Hn Hk H. destruct (Z_le_gt_dec (x + k) r); [auto|]. destruct (Z_le_gt_dec (r + n) x); [auto|]. exfalso.
  destruct (al_live s B' r n I Hr) as (_ & Hn0 & _).
  destruct (H (Z.max x r) ltac:(lia)) as [Hf|(p & j & Hp & Hy)].
  - destruct (al_foreign s B' _ I Hf) as [_ Ho]. destruct (Ho r n Hr); lia.
  - assert (Hpr : p <> r) by congruence. pose proof (lookup_weaken _ _ _ _ Hp HB) as Hp'.
    destruct (al_disjoint s B' p j r n I Hp' Hr Hpr); lia.
Qed.

(** Writing into a new block. *)
Lemma fresh_write B s B' r n l m :
  inv s B' -> B ⊆ B' -> B' !! r = Some n -> B !! r = None -> wrote (p_mem s) m r l -> Z.of_nat (length l) <= n ->
  inv (set_mem m s) B' /\ keeps F B s (set_mem m s).
Proof.
  intros I HB Hr Hn Hw Hl. split.
  - apply (al_store s B' r n m I Hr). intros y Hy. apply (proj2 Hw). lia.
  - split; simpl.
    + intros p k y Hp Hy. apply (proj2 Hw). assert (Hpr : p <> r) by congruence.
      destruct (al_disjoint s B' p k r n I (lookup_weaken _ _ _ _ Hp HB) Hr Hpr); lia.
    + intros y Hy. apply (proj2 Hw). destruct (al_foreign s B' y I Hy) as [_ Ho]. destruct (Ho r n Hr); lia.
Qed.

(** ** A new variable *)

Lemma genvar_done s B name nm value vl :
  inv s B -> cstr s name nm -> cstr s value vl ->
  steady B name (Z.of_nat (length nm) + 1) -> steady B value (Z.of_nat (length vl) + 1) ->
  Z.of_nat (length nm) + Z.of_nat (length vl) <= 2 ^ 63 ->
  exists r s', genvar name value (Z.of_nat (length nm)) s = Done r s' /\ keeps F B s s' /\
    (r = 0 /\ inv s' B /\ malloc (var_size nm vl) s = Done 0 s' \/
     r <> 0 /\ B !! r = None /\ cstr s' r (nm ++ EQ :: vl) /\
     inv s' (<[r := Z.of_nat (length (nm ++ EQ :: vl)) + 1]> B)).
Proof.
  intros I Sn Sv Tn Tv Hl. unfold genvar. rewrite (bind_done _ _ _ _ _ (strlen_done s value vl Sv)).
  rewrite (wrap_small 64 (_ + Z.of_nat (length vl))), (wrap_small 64 (_ + 2)) by (unfold is_word; lia).
  set (n := Z.of_nat (length nm) + Z.of_nat (length vl) + 2).
  unfold var_size. assert (En : Z.of_nat (length (nm ++ EQ :: vl)) + 1 = n) by (unfold n; rewrite length_app; simpl; lia). rewrite En.
  assert (Hn : n = Z.of_nat (length nm) + Z.of_nat (length vl) + 2) by reflexivity. clearbody n.
  destruct (al_malloc s B n I ltac:(lia)) as (r & s1 & E & K1 & [[-> I1]|(Hr & Hf & I1)]).
  { rewrite (bind_done _ _ _ _ _ E). exists 0, s1. split; [reflexivity|]. split; [exact K1|]. left. auto. }
  rewrite (bind_done _ _ _ _ _ E). assert (Ht : truth r = true) by (apply negb_true_iff, Z.eqb_neq, Hr). rewrite Ht. cbn [negb].
  assert (HB : B ⊆ <[r := n]> B) by (apply insert_subseteq, Hf). set (B' := <[r := n]> B) in *.
  assert (Hb : B' !! r = Some n) by apply lookup_insert_eq. destruct (al_live s1 B' r n I1 Hb) as (R1 & _ & R2 & R3).
  pose proof (steady_apart B s1 B' r n name (Z.of_nat (length nm) + 1) I1 HB Hb Hf ltac:(lia) Tn) as Dn.
  pose proof (steady_apart B s1 B' r n value (Z.of_nat (length vl) + 1) I1 HB Hb Hf ltac:(lia) Tv) as Dv.
  destruct (strncpy_prefix s1 name nm r (Z.of_nat (length nm))) as (m1 & E1 & W1);
    [exact (steady_cstr B s s1 B' name nm K1 I1 HB Tn Sn)|lia|lia|intros y Hy; apply R3; lia|lia|].
  rewrite Nat2Z.id, firstn_all in W1. rewrite (bind_done _ _ _ _ _ E1). clear E1.
  rewrite (bind_store 1) by (intros y Hy; apply R3; lia).
  pose proof (wrote_char r nm EQ _ _ EQ W1 eq_refl) as W2. set (m2 := put 1 _ _ m1) in *.
  change (set_mem (put 1 _ _ _) _) with (set_mem m2 s1).
  destruct (fresh_write B s1 B' r n _ m2 I1 HB Hb Hf W2) as [I2 K2]; [rewrite length_app; simpl; lia|].
  pose proof (keeps_trans _ _ _ _ _ K1 K2) as K12.
  destruct (strcpy_wrote (set_mem m2 s1) value vl (r + Z.of_nat (length nm) + 1)) as (m3 & E3 & W3);
    [exact (steady_cstr B s _ B' value vl K12 I2 HB Tv Sv)|lia|lia|intros y Hy; apply R3; lia|lia|].
  rewrite (bind_done _ _ _ _ _ E3). exists r, (set_mem m3 s1). split; [reflexivity|].
  assert (W : wrote (p_mem s1) m3 r ((nm ++ EQ :: vl) ++ [0])).
  { change (EQ :: vl) with ([EQ] ++ vl). rewrite app_assoc, <- app_assoc. eapply wrote_trans; [exact W2|].
    rewrite length_app. simpl. rewrite Nat2Z.inj_add, Z.add_assoc. exact W3. }
  destruct (fresh_write B s1 B' r n _ m3 I1 HB Hb Hf W) as [I3 K3]; [rewrite length_app; simpl length; lia|].
  split; [exact (keeps_trans _ _ _ _ _ K1 K3)|]. right. csplit; trivial.
  apply wrote_cstr; trivial; [lia|intros y Hy; apply R3; lia|].
  apply Forall_app. split; [apply Sn|]. apply Forall_cons. split; [unfold EQ; lia|apply Sv].
Qed.
End Steady.
Arguments steady F B x n : clear implicits.

Lemma nodup_insert (l : list Z) i x : NoDup l -> x ∉ l -> NoDup (<[i := x]> l).
Proof.
  intros Hl Hx. apply NoDup_alt. intros j k y Hj Hk.
  apply list_lookup_insert_Some in Hj as [(? & ? & _)|[? Hj]]; apply list_lookup_insert_Some in Hk as [(? & ? & _)|[? Hk]];
    [congruence|subst; destruct Hx; eapply list_elem_of_lookup_2; eassumption..|].
  eapply NoDup_lookup; eassumption.
Qed.

(** A string depends on its bytes only. *)
Lemma cstr_ext s s' a l :
  cstr s a l -> mapped s' a (a + Z.of_nat (length l) + 1) ->
  (forall y, a <= y < a + Z.of_nat (length l) + 1 -> byte_at (p_mem s') y = byte_at (p_mem s) y) -> cstr s' a l.
Proof.
  intros [H1 H2 H3 H4 H5 H6] Hm Hb. split; trivial.
  - intros i c Hi. pose proof (lookup_lt_Some _ _ _ Hi). rewrite Hb by lia. auto.
  - rewrite Hb by lia. exact H6.
Qed.

(** ** Strings on the heap *)

Section Vars.
Context {F : Z -> Prop} {inv : process -> gmap Z Z -> Prop} `{Al : Allocator F inv}.

(** The strings [E] at [ps], in blocks of just the right sizes that differ from each other and
    from the block [a]. *)
Record vars (B : gmap Z Z) (s : process) (a : Z) (ps : list Z) (E : list (list Z)) : Prop := {
  va_strs : Forall2 (cstr s) ps E;
  va_blocks : Forall2 (fun p e => B !! p = Some (Z.of_nat (length e) + 1)) ps E;
  va_nodup : NoDup (a :: ps)
}.

Lemma vars_block B s a ps E p : vars B s a ps E -> p ∈ ps ->
  exists e, B !! p = Some (Z.of_nat (length e) + 1) /\ cstr s p e /\ p <> a.
Proof.
  intros [H1 H2 H3] (i & Hp)%list_elem_of_lookup_1. destruct (Forall2_lookup_l _ _ _ _ _ H1 Hp) as (e & He & Hc).
  exists e. csplit; [exact (Forall2_lookup_lr _ _ _ _ _ _ H2 Hp He)|exact Hc|].
  intros ->. apply NoDup_cons in H3 as [H3 _]. apply H3. eapply list_elem_of_lookup_2, Hp.
Qed.

(** The strings lie in their blocks. *)
Lemma vars_ext B s B' s' a ps E :
  vars B s a ps E -> inv s' B' -> (forall p n, p ∈ ps -> B !! p = Some n -> B' !! p = Some n) ->
  (forall p n y, p ∈ ps -> B !! p = Some n -> p <= y < p + n -> byte_at (p_mem s') y = byte_at (p_mem s) y) ->
  vars B' s' a ps E.
Proof.
  intros [H1 H2 H3] I HB Hb. split; trivial; apply Forall2_same_length_lookup_2; try exact (Forall2_length _ _ _ H1);
    intros i p e Hp He; pose proof (list_elem_of_lookup_2 _ _ _ Hp) as Hin;
    pose proof (Forall2_lookup_lr _ _ _ _ _ _ H2 Hp He) as Hpb; cbv beta in Hpb.
  - apply (cstr_ext s); [exact (Forall2_lookup_lr _ _ _ _ _ _ H1 Hp He)|..]; intros y Hy.
    + apply (al_live s' B' p _ I (HB p _ Hin Hpb)). lia.
    + apply (Hb p _ y Hin Hpb). lia.
  - exact (HB p _ Hin Hpb).
Qed.

Lemma vars_snoc B s a ps E r e :
  vars B s a ps E -> B !! r = Some (Z.of_nat (length e) + 1) -> cstr s r e -> r ∉ a :: ps -> vars B s a (ps ++ [r]) (E ++ [e]).
Proof.
  intros [H1 H2 H3] Hr Sr Hn. apply not_elem_of_cons in Hn as [Hna Hn]. apply NoDup_cons in H3 as [H3 H4]. split.
  - apply Forall2_app; [exact H1|]. constructor; [exact Sr|constructor].
  - apply Forall2_app; [exact H2|]. constructor; [exact Hr|constructor].
  - apply NoDup_cons. split; [set_solver|]. apply NoDup_app. split; [exact H4|]. split; [set_solver|apply NoDup_singleton].
Qed.

(** The [i]-th string is replaced and its block given back. *)
Lemma vars_replace B s a ps E i p r e :
  vars B s a ps E -> ps !! i = Some p -> B !! r = Some (Z.of_nat (length e) + 1) -> cstr s r e -> r ∉ a :: ps ->
  vars (delete p B) s a (<[i := r]> ps) (<[i := e]> E).
Proof.
  intros [H1 H2 H3] Hp Hr Sr Hn. apply not_elem_of_cons in Hn as [Hna Hn]. apply NoDup_cons in H3 as [H3 H4].
  split; [apply Forall2_insert; assumption| |].
  - apply Forall2_same_length_lookup_2; [rewrite !length_insert; exact (Forall2_length _ _ _ H1)|]. intros j q l Hq Hl.
    destruct (decide (j = i)) as [->|Hj].
    + pose proof (lookup_lt_Some _ _ _ Hq) as Hi1. pose proof (lookup_lt_Some _ _ _ Hl) as Hi2. rewrite length_insert in Hi1. rewrite length_insert in Hi2.
      rewrite list_lookup_insert_eq in Hq by exact Hi1. rewrite list_lookup_insert_eq in Hl by exact Hi2.
      injection Hq as <-. injection Hl as <-. rewrite lookup_delete_ne; [exact Hr|].
      intros ->. apply Hn. eapply list_elem_of_lookup_2, Hp.
    + rewrite list_lookup_insert_ne in Hq by congruence. rewrite list_lookup_insert_ne in Hl by congruence.
      rewrite lookup_delete_ne; [exact (Forall2_lookup_lr _ _ _ _ _ _ H2 Hq Hl)|]. intros ->. apply Hj. eapply NoDup_lookup; eassumption.
  - apply NoDup_cons. split; [|apply nodup_insert; trivial].
    intros (j & Hj)%list_elem_of_lookup_1. apply list_lookup_insert_Some in Hj as [(_ & ? & _)|[_ Hj]]; [congruence|].
    apply H3. eapply list_elem_of_lookup_2, Hj.
Qed.

Lemma vars_array B s a q ps E : vars B s a ps E -> q ∉ ps -> vars B s q ps E.
Proof. intros [H1 H2 H3] Hq. split; trivial. apply NoDup_cons in H3 as [_ H3]. apply NoDup_cons. auto. Qed.
End Vars.

(** ** The environment on the heap *)

(** The array of pointers at [a], as it is in the memory [m]. *)
Definition pointers (m : arr) (a : Z) (ps : list Z) : Prop :=
  forall i p, ps !! i = Some p -> word_at m (a + 8 * Z.of_nat i) = p.

Lemma pointers_ext m m' a ps : pointers m a ps ->
  (forall y, a <= y < a + 8 * Z.of_nat (length ps) -> byte_at m' y = byte_at m y) -> pointers m' a ps.
Proof.
  intros H Hb i p Hp. pose proof (lookup_lt_Some _ _ _ Hp). rewrite <- (H i p Hp). apply num_ext. intros y Hy. apply Hb. lia.
Qed.

Section Own.
Context {F : Z -> Prop} {inv : process -> gmap Z Z -> Prop} `{Al : Allocator F inv}.
Context (environ : Z) (HF : forall y, environ <= y < environ + 8 -> F y).

Record env_own (B : gmap Z Z) (s : process) (a : Z) (ps : list Z) (E : list (list Z)) : Prop := {
  eo_inv : inv s B;
  eo_var : word_at (p_mem s) environ = a;
  eo_array : B !! a = Some (8 * Z.of_nat (length ps) + 8);
  eo_ptrs : pointers (p_mem s) a ps;
  eo_null : word_at (p_mem s) (a + 8 * Z.of_nat (length ps)) = 0;
  eo_vars : vars B s a ps E
}.

Lemma eo_at B s a ps E : env_own B s a ps E -> env_at s a ps E.
Proof.
  intros [I V Ha P N [H1 H2 H3]]. destruct (al_live s B a _ I Ha) as (A1 & _ & A2 & A3). split; trivial; [lia|].
  intros y Hy. apply A3. lia.
Qed.

Lemma environ_word B s s' : keeps F B s s' -> word_at (p_mem s') environ = word_at (p_mem s) environ.
Proof. intros [_ K]. apply num_ext. intros y Hy. apply K, HF. lia. Qed.

Lemma environ_mapped B s : inv s B -> mapped s environ (environ + 8).
Proof. intros I y Hy. apply (al_foreign s B y I), HF, Hy. Qed.

(** The variable [environ] is in no block. *)
Lemma environ_apart B s p n y : inv s B -> B !! p = Some n -> p <= y < p + n -> y < environ \/ environ + 8 <= y.
Proof.
  intros I Hp Hy. destruct (Z_lt_le_dec y environ); [auto|]. destruct (Z_lt_le_dec y (environ + 8)); [|auto].
  destruct (al_foreign s B y I (HF y ltac:(lia))) as [_ Ho]. destruct (Ho p n Hp); lia.
Qed.

(** The environment survives the calls of the allocator. *)
Lemma own_keeps B s B' s' a ps E :
  env_own B s a ps E -> inv s' B' -> B ⊆ B' -> keeps F B s s' -> env_own B' s' a ps E.
Proof.
  intros [I V Ha P N Hv] I' HB K. split; trivial.
  - rewrite (environ_word B s s' K). exact V.
  - eapply lookup_weaken; eassumption.
  - apply (pointers_ext (p_mem s)); [exact P|]. intros y Hy. apply (proj1 K a _ y Ha). lia.
  - rewrite <- N. apply num_ext. intros y Hy. apply (proj1 K a _ y Ha). lia.
  - apply (vars_ext B s); trivial.
    + intros p n _ Hp. eapply lookup_weaken; eassumption.
    + intros p n y _ Hp Hy. apply (proj1 K p n y Hp Hy).
Qed.

(** What a change of the environment leaves alone: the other blocks and foreign memory.  The
    blocks [a'] and [ps'] of the new environment are old ones or were free. *)
Record env_frame (B : gmap Z Z) (s : process) (a : Z) (ps : list Z) (B' : gmap Z Z) (s' : process) (a' : Z) (ps' : list Z) : Prop := {
  ef_new p : p ∈ a' :: ps' -> p ∈ a :: ps \/ B !! p = None;
  ef_blocks p n : B !! p = Some n -> p ∉ a :: ps -> B' !! p = Some n /\
    forall y, p <= y < p + n -> byte_at (p_mem s') y = byte_at (p_mem s) y;
  ef_foreign y : F y -> y < environ \/ environ + 8 <= y -> byte_at (p_mem s') y = byte_at (p_mem s) y
}.

(** ** Replacing a variable *)

(** The string [p] is replaced by the new string [r]; [s1] is the state before [p] is freed,
    [s2] the one after. *)
Lemma replace_own B s1 s2 a ps E i p r e' :
  env_own B s1 a ps E -> ps !! i = Some p -> r ∉ a :: ps -> B !! r = Some (Z.of_nat (length e') + 1) -> cstr s1 r e' ->
  inv s2 (delete p B) -> keeps F (delete p B) s1 s2 ->
  exists s3, store64 (a + 8 * Z.of_nat i) r s2 = Done tt s3 /\
    env_own (delete p B) s3 a (<[i := r]> ps) (<[i := e']> E) /\
    (forall y, y < a \/ a + 8 * Z.of_nat (length ps) + 8 <= y -> byte_at (p_mem s3) y = byte_at (p_mem s2) y).
Proof.
  intros [I1 V Ha P N Hv] Hp Hrn Hr Sr I K. pose proof (lookup_lt_Some _ _ _ Hp) as Hi.
  destruct (vars_block B s1 a ps E p Hv (list_elem_of_lookup_2 _ _ _ Hp)) as (e & _ & _ & Hpa).
  assert (Ha2 : delete p B !! a = Some (8 * Z.of_nat (length ps) + 8)) by (rewrite lookup_delete_ne by congruence; exact Ha).
  destruct (block_store s2 _ a _ (8 * Z.of_nat i) r I Ha2) as [E3 I3]; [lia|lia|].
  set (m3 := put 8 (a + 8 * Z.of_nat i) r (p_mem s2)) in *. exists (set_mem m3 s2). split; [exact E3|].
  assert (Hout : forall y, y < a \/ a + 8 * Z.of_nat (length ps) + 8 <= y -> byte_at m3 y = byte_at (p_mem s2) y)
    by (intros y Hy; apply byte_put_other; lia).
  assert (Hw : forall j, j <> i -> (j <= length ps)%nat -> word_at m3 (a + 8 * Z.of_nat j) = word_at (p_mem s1) (a + 8 * Z.of_nat j)).
  { intros j Hj Hjl. unfold m3. rewrite word_put_other by lia. apply num_ext. intros y Hy. apply (proj1 K a _ y Ha2). lia. }
  split; [|exact Hout]. split; trivial; rewrite ?length_insert; trivial.
  - simpl. etransitivity; [|exact V]. rewrite <- (environ_word _ _ _ K). apply num_ext. intros y Hy.
    apply Hout. destruct (al_foreign s2 _ y I (HF y ltac:(lia))) as [_ Ho]. destruct (Ho a _ Ha2); lia.
  - intros j q Hq. destruct (decide (j = i)) as [->|Hj].
    + rewrite list_lookup_insert_eq in Hq by lia. injection Hq as <-. apply word_put_same, (live_octa s1 B r _ I1 Hr).
    + rewrite list_lookup_insert_ne in Hq by congruence. pose proof (lookup_lt_Some _ _ _ Hq). simpl. rewrite Hw by lia. auto.
  - simpl. rewrite Hw by lia. exact N.
  - pose proof (vars_replace B s1 a ps E i p r e' Hv Hp Hr Sr Hrn) as Hv'. apply (vars_ext (delete p B) s1); trivial.
    intros q n y Hq Hqb Hy. simpl. rewrite Hout; [apply (proj1 K q n y Hqb Hy)|].
    destruct (vars_block _ _ _ _ _ q Hv' Hq) as (_ & _ & _ & Hqa). destruct (al_disjoint s2 _ q n a _ I Hqb Ha2 Hqa); lia.
Qed.

(** ** A larger array *)

Lemma copy_pointers B s a q ps :
  inv s B -> B !! a = Some (8 * Z.of_nat (length ps) + 8) -> B !! q = Some (8 * Z.of_nat (length ps) + 16) -> a <> q ->
  pointers (p_mem s) a ps -> word_at (p_mem s) environ = a ->
  exists m, loop (fun i =>
      if i <? Z.of_nat (length ps) then
        env ← load64 environ;
        v ← load64 (env + 8 * i);
        store64 (q + 8 * i) v;;
        mret (Next (i + 1))
      else mret (Break i)) 0 s = Done (Z.of_nat (length ps)) (set_mem m s) /\
    pointers m q ps /\ (forall y, y < q \/ q + 8 * Z.of_nat (length ps) + 16 <= y -> byte_at m y = byte_at (p_mem s) y).
Proof.
  intros I Ha Hq Hne Hp Hv. pose proof (environ_mapped B s I) as Hen. destruct (al_live s B a _ I Ha) as (A1 & _ & A2 & A3). destruct (al_live s B q _ I Hq) as (Q1 & _ & Q2 & Q3).
  pose proof (al_disjoint s B a _ q _ I Ha Hq Hne) as Hd. set (n := Z.of_nat (length ps)) in *.
  assert (En : n = Z.of_nat (length ps)) by reflexivity.
  edestruct (fun body => loop_bounded body
    (fun k i s' => exists j m, i = Z.of_nat j /\ k = n - i /\ (j <= length ps)%nat /\ s' = set_mem m s /\ pointers m q (take j ps) /\
       forall y, y < q \/ q + 8 * n + 16 <= y -> byte_at m y = byte_at (p_mem s) y)
    (fun i s' => exists m, i = n /\ s' = set_mem m s /\ pointers m q ps /\
       forall y, y < q \/ q + 8 * n + 16 <= y -> byte_at m y = byte_at (p_mem s) y)
    n 0 s) as (i & s' & El & m & -> & -> & Hm & Ho); [| | |eauto].
  - intros k i s' (j & m & -> & -> & Hj & -> & Hm & Ho). split; [lia|]. cbv beta.
    destruct (Z.ltb_spec (Z.of_nat j) n) as [Hlt|Hge].
    + left. destruct (lookup_lt_is_Some_2 ps j ltac:(lia)) as [p Hpj].
      rewrite (bind_load 8) by (intros y Hy; apply Hen; lia).
      replace (word_at (p_mem (set_mem m s)) environ) with a.
      2: { rewrite <- Hv. apply num_ext. intros y Hy. symmetry. apply Ho. destruct (al_foreign s B y I (HF y ltac:(lia))) as [_ Hf].
           destruct (Hf q _ Hq); lia. }
      rewrite (bind_load 8) by (intros y Hy; apply A3; lia). rewrite (bind_store 8) by (intros y Hy; apply Q3; lia).
      eexists _, _, (n - Z.of_nat (S j)). split; [reflexivity|]. split; [|lia].
      exists (S j), (put 8 (q + 8 * Z.of_nat j) p m). csplit; try lia.
      * replace (word_at (p_mem (set_mem m s)) (a + 8 * Z.of_nat j)) with p; [reflexivity|].
        rewrite <- (Hp j p Hpj). apply num_ext. intros y Hy. symmetry. apply Ho. lia.
      * intros i x Hx. rewrite (take_S_r ps j p Hpj) in Hx. destruct (decide (i < j)%nat).
        -- rewrite lookup_app_l in Hx by (rewrite length_take; lia). rewrite word_put_other by lia. auto.
        -- pose proof (lookup_lt_Some _ _ _ Hx) as Hl. rewrite length_app, length_take in Hl. simpl in Hl.
           assert (i = j) as -> by lia. rewrite lookup_app_r, length_take in Hx by (rewrite length_take; lia).
           replace (j - _)%nat with 0%nat in Hx by lia. injection Hx as <-. apply word_put_same.
           rewrite <- (Hp j p Hpj). apply word_range.
      * intros y Hy. rewrite byte_put_other by lia. apply Ho, Hy.
    + right. assert (j = length ps) as -> by lia. rewrite firstn_all in Hm. eexists _, _. split; [reflexivity|]. eauto 6.
  - exists 0%nat, (p_mem s). rewrite set_mem_mem. csplit; try lia; trivial. intros i p Hi. discriminate.
  - lia.
Qed.

(** The new array is complete. *)
Lemma extend_pointers m q ps r : 0 <= r < 2 ^ 64 -> pointers m q ps ->
  let n := Z.of_nat (length ps) in
  let m' := put 8 (q + 8 * (n + 1)) 0 (put 8 (q + 8 * n) r m) in
  pointers m' q (ps ++ [r]) /\ word_at m' (q + 8 * Z.of_nat (length (ps ++ [r]))) = 0 /\
  forall y, y < q \/ q + 8 * n + 16 <= y -> byte_at m' y = byte_at m y.
Proof.
  intros Hr Hp n m'. csplit.
  - intros i x Hx. destruct (decide (i < length ps)%nat).
    + rewrite lookup_app_l in Hx by lia. unfold m'. rewrite !word_put_other by lia. auto.
    + pose proof (lookup_lt_Some _ _ _ Hx) as Hl. rewrite length_app in Hl. simpl in Hl. assert (i = length ps) as -> by lia.
      rewrite lookup_app_r, Nat.sub_diag in Hx by lia. injection Hx as <-. unfold m'. rewrite word_put_other by lia.
      apply word_put_same. unfold is_word. lia.
  - rewrite length_app. simpl. replace (Z.of_nat (length ps + 1)) with (n + 1) by lia. apply word_put_same. unfold is_word. lia.
  - intros y Hy. unfold m'. rewrite !byte_put_other by lia. reflexivity.
Qed.

(** [s'] differs from [s] in the array [q] and in [environ]; the block [a] is gone. *)
Lemma install_mem B s a ps E q r :
  env_own B s a ps E -> B !! q = Some (8 * Z.of_nat (length ps) + 16) -> q <> a -> 0 <= r < 2 ^ 64 ->
  exists s', install environ q r (Z.of_nat (length ps)) s = Done 0 s' /\ inv s' (delete a B) /\
    pointers (p_mem s') q (ps ++ [r]) /\ word_at (p_mem s') (q + 8 * Z.of_nat (length (ps ++ [r]))) = 0 /\
    word_at (p_mem s') environ = q /\
    (forall p n y, delete a B !! p = Some n -> p <> q -> p <= y < p + n -> byte_at (p_mem s') y = byte_at (p_mem s) y) /\
    (forall y, F y -> y < environ \/ environ + 8 <= y -> byte_at (p_mem s') y = byte_at (p_mem s) y).
Proof.
  intros O Hq Hqa Hr. pose proof (eo_inv _ _ _ _ _ O) as I. pose proof (eo_array _ _ _ _ _ O) as Ha. unfold install.
  assert (Len : forall s', inv s' B -> load64 environ s' = Done (word_at (p_mem s') environ) s').
  { intros s' I'. apply load_done. intros y Hy. apply (environ_mapped B s' I'). lia. }
  destruct (copy_pointers B s a q ps I Ha Hq ltac:(congruence) (eo_ptrs _ _ _ _ _ O) (eo_var _ _ _ _ _ O)) as (m3 & E3 & P3 & D3).
  rewrite (bind_done _ _ _ _ _ E3). destruct (al_live s B q _ I Hq) as (Q1 & _ & Q2 & Q3).
  rewrite (bind_store 8) by (intros y Hy; apply Q3; lia). rewrite (bind_store 8) by (intros y Hy; apply Q3; lia).
  destruct (extend_pointers m3 q ps r Hr P3) as (P5 & N5 & D5). cbn [p_mem set_mem]. rewrite !set_mem_set_mem.
  set (m5 := put 8 _ 0 _) in *.
  assert (D : forall y, y < q \/ q + 8 * Z.of_nat (length ps) + 16 <= y -> byte_at m5 y = byte_at (p_mem s) y)
    by (intros y Hy; rewrite D5, D3 by lia; reflexivity).
  assert (I5 : inv (set_mem m5 s) B) by (apply (al_store s B q _ m5 I Hq); intros y Hy; apply D; lia).
  assert (DF : forall y, F y -> byte_at m5 y = byte_at (p_mem s) y).
  { intros y Hy. apply D. destruct (al_foreign s B y I Hy) as [_ Ho]. destruct (Ho q _ Hq); lia. }
  rewrite (bind_done _ _ _ _ _ (Len _ I5)).
  replace (word_at (p_mem (set_mem m5 s)) environ) with a
    by (rewrite <- (eo_var _ _ _ _ _ O); apply num_ext; intros y Hy; symmetry; apply DF, HF; lia).
  destruct (al_free _ B a _ I5 Ha) as (s6 & E6 & K6 & I6). rewrite (bind_done _ _ _ _ _ E6).
  rewrite (bind_store 8) by (intros y Hy; apply (environ_mapped _ s6 I6); lia).
  set (m7 := put 8 environ q (p_mem s6)).
  assert (Hq6 : delete a B !! q = Some (8 * Z.of_nat (length ps) + 16)) by (rewrite lookup_delete_ne by congruence; exact Hq).
  assert (D7 : forall p n y, delete a B !! p = Some n -> p <= y < p + n -> byte_at m7 y = byte_at m5 y).
  { intros p n y Hp Hy. unfold m7. rewrite byte_put_other; [exact (proj1 K6 p n y Hp Hy)|].
    destruct (Z_lt_le_dec y environ); [auto|]. destruct (Z_lt_le_dec y (environ + Z.of_nat 8)); [|auto].
    destruct (al_foreign s6 _ y I6 (HF y ltac:(lia))) as [_ Ho]. destruct (Ho p n Hp); lia. }
  assert (W7 : forall j, 0 <= j -> j + 8 <= 8 * Z.of_nat (length ps) + 16 -> word_at m7 (q + j) = word_at m5 (q + j))
    by (intros j H1 H2; apply num_ext; intros y Hy; apply (D7 q _ y Hq6); lia).
  eexists. split; [reflexivity|]. cbn [p_mem set_mem]. csplit.
  - apply (al_foreign_store s6 _ m7 I6). intros y Hy. unfold m7. apply byte_put_other.
    destruct (Z_lt_le_dec y environ); [auto|]. destruct (Z_lt_le_dec y (environ + Z.of_nat 8)); [|auto]. destruct Hy. apply HF. lia.
  - intros i p Hp. pose proof (lookup_lt_Some _ _ _ Hp) as Hl. rewrite length_app in Hl. simpl in Hl. rewrite W7 by lia. auto.
  - rewrite length_app in *. simpl in *. rewrite W7 by lia. exact N5.
  - apply word_put_same. unfold is_word. lia.
  - intros p n y Hp Hpq Hy. rewrite (D7 p n y Hp Hy). apply D. apply lookup_delete_Some in Hp as [_ Hp].
    destruct (al_disjoint s B p n q _ I Hp Hq Hpq); lia.
  - intros y Hy Hye. unfold m7. rewrite byte_put_other by lia. rewrite (proj2 K6 y Hy). apply DF, Hy.
Qed.

Lemma install_own B s a ps E q r e' :
  env_own B s a ps E -> B !! q = Some (8 * Z.of_nat (length ps) + 16) -> q ∉ a :: ps ->
  B !! r = Some (Z.of_nat (length e') + 1) -> r ∉ q :: a :: ps -> cstr s r e' ->
  exists s', install environ q r (Z.of_nat (length ps)) s = Done 0 s' /\ env_own (delete a B) s' q (ps ++ [r]) (E ++ [e']) /\
    (forall p n y, delete a B !! p = Some n -> p <> q -> p <= y < p + n -> byte_at (p_mem s') y = byte_at (p_mem s) y) /\
    (forall y, F y -> y < environ \/ environ + 8 <= y -> byte_at (p_mem s') y = byte_at (p_mem s) y).
Proof.
  intros O Hq Hqn Hr Hrn Sr. apply not_elem_of_cons in Hqn as [Hqa Hqp]. rewrite !not_elem_of_cons in Hrn. destruct Hrn as (Hrq & Hra & Hrp).
  pose proof (live_octa s B r _ (eo_inv _ _ _ _ _ O) Hr) as [R1 _].
  destruct (install_mem B s a ps E q r O Hq Hqa R1) as (s' & E' & I & P & N & V & D & DF).
  exists s'. split; [exact E'|]. split; [|auto]. pose proof (eo_vars _ _ _ _ _ O) as Hv.
  assert (Hv' : vars B s q (ps ++ [r]) (E ++ [e'])).
  { apply (vars_array B s a); [|set_solver]. apply vars_snoc; trivial. set_solver. }
  assert (Hna : a ∉ ps ++ [r]).
  { pose proof (va_nodup _ _ _ _ _ Hv) as Hn. apply NoDup_cons in Hn as [Hn _]. set_solver. }
  assert (Hb : forall p n, p ∈ ps ++ [r] -> B !! p = Some n -> delete a B !! p = Some n /\ p <> q).
  { intros p n Hp Hpb. split; [rewrite lookup_delete_ne; [exact Hpb|intros ->; contradiction]|set_solver]. }
  split; trivial.
  - rewrite lookup_delete_ne, Hq by congruence. f_equal. rewrite length_app. simpl. lia.
  - apply (vars_ext B s); trivial.
    + intros p n Hp Hpb. apply (Hb p n Hp Hpb).
    + intros p n y Hp Hpb Hy. destruct (Hb p n Hp Hpb) as [Hpb' Hpq]. apply (D p n y Hpb' Hpq Hy).
Qed.

(** ** [setenv] *)

Section Set_.
Context (B : gmap Z Z) (s : process) (a : Z) (ps : list Z) (E : list (list Z)).
Context (name : Z) (nm : list Z) (value : Z) (vl : list Z).
Context (O : env_own B s a ps E) (Sn : cstr s name nm) (Sv : cstr s value vl).
Context (Tn : steady F B name (Z.of_nat (length nm) + 1)) (Tv : steady F B value (Z.of_nat (length vl) + 1)).
Context (Hlen : Z.of_nat (length nm) + Z.of_nat (length vl) < 2 ^ 63).

(** Either the variable is set, or there is no memory and nothing has changed. *)
Definition set_result (r : Z) (s' : process) : Prop :=
  (r = 0 /\ exists B' a' ps', env_own B' s' a' ps' (env_set nm vl E) /\ env_frame B s a ps B' s' a' ps') \/
  (r = - ENOMEM /\ env_own B s' a ps E /\ keeps F B s s' /\ refuses (fun _ => False) s (needed nm vl E)).

(** A new block is none of the environment. *)
Lemma fresh_not_own B' r : B ⊆ B' -> B' !! r = None -> r ∉ a :: ps.
Proof.
  intros HB Hr Hin. assert (Hs : is_Some (B !! r)).
  { apply elem_of_cons in Hin as [->|Hin]; [rewrite (eo_array _ _ _ _ _ O); eauto|].
    destruct (vars_block B s a ps E r (eo_vars _ _ _ _ _ O) Hin) as (e & -> & _). eauto. }
  destruct Hs as [n Hs]. rewrite (lookup_weaken _ _ _ _ Hs HB) in Hr. discriminate.
Qed.

(** The variable exists, as the [i]-th. *)
Lemma replace_hit {X} i p e v (f : Z -> X) :
  ps !! i = Some p -> E !! i = Some e -> skipped nm E i -> var_of nm e = Some v ->
  exists r s', (nvar ← genvar name value (Z.of_nat (length nm));
     if negb (truth nvar) then mret (f (- ENOMEM)) else
     old ← load64 (a + 8 * Z.of_nat i);
     free old;;
     store64 (a + 8 * Z.of_nat i) nvar;;
     mret (f 0)) s = Done (f r) s' /\ set_result r s'.
Proof.
  intros Hp He Hsk Hv. destruct (genvar_done s B name nm value vl (eo_inv _ _ _ _ _ O) Sn Sv Tn Tv ltac:(lia)) as (r & s1 & E1 & K1 & H1).
  rewrite (bind_done _ _ _ _ _ E1). clear E1. destruct (env_hit nm E i e v vl Hsk He Hv) as [Eg _]. destruct H1 as [(-> & I1 & Em)|(Hr & Hf & S1 & I1)].
  { exists (- ENOMEM), s1. split; [reflexivity|]. right. split; [reflexivity|]. split; [apply (own_keeps B s); trivial|]. split; [exact K1|].
    unfold needed. rewrite Eg. eapply refuses_now, Em. }
  assert (Ht : truth r = true) by (apply negb_true_iff, Z.eqb_neq, Hr). rewrite Ht. cbn [negb].
  set (e' := nm ++ EQ :: vl) in *. set (B1 := <[r := Z.of_nat (length e') + 1]> B) in *.
  assert (HB : B ⊆ B1) by (apply insert_subseteq, Hf). pose proof (own_keeps B s B1 s1 a ps E O I1 HB K1) as O1.
  destruct (env_var s1 a ps E (eo_at _ _ _ _ _ O1) i p e Hp He) as (L1 & _ & _). rewrite (bind_done _ _ _ _ _ L1).
  destruct (al_free s1 B1 p _ I1 (Forall2_lookup_lr _ _ _ _ _ _ (va_blocks _ _ _ _ _ (eo_vars _ _ _ _ _ O1)) Hp He)) as (s2 & E2 & K2 & I2). rewrite (bind_done _ _ _ _ _ E2).
  pose proof (fresh_not_own B r ltac:(reflexivity) Hf) as Hrn.
  destruct (replace_own B1 s1 s2 a ps E i p r e' O1 Hp Hrn (lookup_insert_eq _ _ _) S1 I2 K2) as (s3 & E3 & O3 & D3).
  rewrite (bind_done _ _ _ _ _ E3). exists 0, s3. split; [reflexivity|]. left. split; [reflexivity|].
  exists (delete p B1), a, (<[i := r]> ps). destruct (env_hit nm E i e v vl Hsk He Hv) as [_ ->]. split; [exact O3|].
  pose proof (eo_array _ _ _ _ _ O) as Ha. pose proof (lookup_weaken _ _ _ _ Ha HB) as Ha1.
  assert (Hap : a <> p).
  { destruct (vars_block B s a ps E p (eo_vars _ _ _ _ _ O) (list_elem_of_lookup_2 _ _ _ Hp)) as (? & _ & _ & ?). congruence. }
  assert (Ha2 : delete p B1 !! a = Some (8 * Z.of_nat (length ps) + 8)) by (rewrite lookup_delete_ne by congruence; exact Ha1).
  split.
  - intros q [->|(j & Hj)%list_elem_of_lookup_1]%elem_of_cons; [left; left|].
    apply list_lookup_insert_Some in Hj as [(_ & <- & _)|[_ Hj]]; [auto|]. left. right. eapply list_elem_of_lookup_2, Hj.
  - intros q n Hq Hqn. apply not_elem_of_cons in Hqn as [Hqa Hqp].
    assert (Hq2 : delete p B1 !! q = Some n).
    { rewrite lookup_delete_ne by (intros ->; apply Hqp; eapply list_elem_of_lookup_2, Hp). eapply lookup_weaken; eassumption. }
    split; [exact Hq2|]. intros y Hy. rewrite D3.
    + rewrite (proj1 K2 q n y Hq2 Hy). apply (proj1 K1 q n y Hq Hy).
    + destruct (al_disjoint s2 _ q n a _ I2 Hq2 Ha2 Hqa); lia.
  - intros y Hy _. rewrite D3; [rewrite (proj2 K2 y Hy); apply K1, Hy|].
    destruct (al_foreign s2 _ y I2 Hy) as [_ Ho]. destruct (Ho a _ Ha2); lia.
Qed.

Lemma replace_var_done :
  exists o s', replace_var name value (Z.of_nat (length nm)) a s = Done o s' /\
    match o with
    | inl r => set_result r s'
    | inr count => count = Z.of_nat (length ps) /\ s' = s /\ skipped nm E (length E)
    end.
Proof.
  pose proof (eo_at _ _ _ _ _ O) as A. pose proof (ea_end _ _ _ _ A). pose proof (ea_pos _ _ _ _ A).
  unfold replace_var.
  edestruct (fun body => loop_bounded body
    (fun n '(var, count) s' => s' = s /\ exists i, var = a + 8 * Z.of_nat i /\ count = Z.of_nat i /\
       n = Z.of_nat (length ps) - Z.of_nat i /\ (i <= length ps)%nat /\ skipped nm E i)
    (fun (o : Z + Z) s' => match o with
       | inl r => set_result r s'
       | inr count => count = Z.of_nat (length ps) /\ s' = s /\ skipped nm E (length E) end)
    (Z.of_nat (length ps)) (a, 0) s) as (o & s' & El & Ho); [| | |eauto].
  - intros n [var count] s' (-> & i & -> & -> & -> & Hi & Hsk). split; [lia|]. cbv beta iota.
    destruct (decide (i < length ps)%nat) as [Hlt|Hge].
    + destruct (env_lookup s a ps E A i Hlt) as (p & e & Hp & He). destruct (env_var s a ps E A i p e Hp He) as (L & Ht & Sp).
      rewrite (bind_done _ _ _ _ _ L), Ht, (bind_done _ _ _ _ _ (var_value_done s p e name nm Sp Sn ltac:(lia))).
      destruct (var_of nm e) as [v|] eqn:Ev.
      * right. pose proof (cs_pos _ _ _ Sp).
        assert (Ht' : truth (p + Z.of_nat (length nm)) = true) by (apply negb_true_iff, Z.eqb_neq; lia). rewrite Ht'.
        destruct (replace_hit i p e v (fun r => Break (inl r) : ctl (Z * Z) (Z + Z)) Hp He Hsk Ev) as (r & s' & Er & Hr). eauto.
      * left. change (truth 0) with false. eexists _, s, (Z.of_nat (length ps) - Z.of_nat (S i)). split; [reflexivity|]. split; [|lia].
        split; [reflexivity|]. exists (S i). csplit; try lia. eapply skipped_next; eassumption.
    + right. assert (i = length ps) as -> by lia. rewrite (bind_done _ _ _ _ _ (env_end s a ps E A)).
      change (truth 0) with false. eexists _, s. split; [reflexivity|]. rewrite (env_length s a ps E A) in Hsk at 1. auto.
  - split; [reflexivity|]. exists 0%nat. csplit; try lia. intros j e Hj. lia.
  - lia.
Qed.

Lemma add_var_done : skipped nm E (length E) ->
  exists r s', add_var environ name value (Z.of_nat (length nm)) (Z.of_nat (length ps)) s = Done r s' /\ set_result r s'.
Proof.
  intros Hsk. pose proof (eo_inv _ _ _ _ _ O) as I. pose proof (eo_array _ _ _ _ _ O) as Ha.
  assert (Hneed : needed nm vl E = [8 * Z.of_nat (length ps) + 16; var_size nm vl]).
  { unfold needed. destruct (env_miss nm E vl Hsk) as [-> _]. rewrite <- (env_length s a ps E (eo_at _ _ _ _ _ O)). f_equal. lia. }
  destruct (al_live s B a _ I Ha) as (A1 & _ & A2 & _). unfold add_var.
  rewrite (wrap_small 64 (_ + 2)), (wrap_small 64 (_ * 8)) by (unfold is_word; lia).
  replace ((Z.of_nat (length ps) + 2) * 8) with (8 * Z.of_nat (length ps) + 16) by lia. set (n := 8 * Z.of_nat (length ps) + 16).
  destruct (al_malloc s B n I ltac:(unfold n; lia)) as (q & s1 & E1 & K1 & H1). rewrite (bind_done _ _ _ _ _ E1).
  destruct H1 as [[-> I1]|(Hq & Hqf & I1)].
  { exists (- ENOMEM), s1. split; [reflexivity|]. right. split; [reflexivity|]. split; [apply (own_keeps B s); trivial|]. split; [exact K1|].
    rewrite Hneed. eapply refuses_now, E1. }
  assert (Ht : truth q = true) by (apply negb_true_iff, Z.eqb_neq, Hq). rewrite Ht. cbn [negb]. clear Ht.
  set (B1 := <[q := n]> B) in *. assert (HB1 : B ⊆ B1) by (apply insert_subseteq, Hqf).
  destruct (genvar_done s1 B1 name nm value vl I1) as (r & s2 & E2 & K2 & H2);
    [exact (steady_cstr B s s1 B1 name nm K1 I1 HB1 Tn Sn)|exact (steady_cstr B s s1 B1 value vl K1 I1 HB1 Tv Sv)|
     exact (steady_sub B B1 _ _ HB1 Tn)|exact (steady_sub B B1 _ _ HB1 Tv)|lia|].
  rewrite (bind_done _ _ _ _ _ E2). clear E2. pose proof (keeps_trans F B s s1 s2 K1 (keeps_sub F B B1 s1 s2 HB1 K2)) as K12.
  destruct H2 as [(-> & I2 & Em)|(Hr & Hrf & Sr & I2)].
  { change (truth 0) with false. cbn [negb].
    destruct (al_free s2 B1 q n I2 (lookup_insert_eq _ _ _)) as (s3 & E3 & K3 & I3). rewrite (bind_done _ _ _ _ _ E3).
    unfold B1 in K3, I3. rewrite delete_insert_id in K3, I3 by exact Hqf.
    exists (- ENOMEM), s3. split; [reflexivity|]. right. pose proof (keeps_trans F B s s2 s3 K12 K3) as K13.
    split; [reflexivity|]. split; [apply (own_keeps B s); trivial|]. split; [exact K13|].
    rewrite Hneed. eapply (refuses_later _ _ _ _ q s1 (p_mem s1) E1 Hq); [trivial|]. rewrite set_mem_mem. eapply refuses_now, Em. }
  assert (Ht : truth r = true) by (apply negb_true_iff, Z.eqb_neq, Hr). rewrite Ht. cbn [negb].
  set (e' := nm ++ EQ :: vl) in *. set (B2 := <[r := Z.of_nat (length e') + 1]> B1) in *.
  assert (HB2 : B1 ⊆ B2) by (apply insert_subseteq, Hrf). assert (HB : B ⊆ B2) by (etransitivity; eassumption).
  pose proof (own_keeps B s B2 s2 a ps E O I2 HB K12) as O2.
  assert (Hqr : r <> q) by (intros ->; unfold B1 in Hrf; rewrite lookup_insert_eq in Hrf; discriminate).
  destruct (install_own B2 s2 a ps E q r e' O2) as (s3 & E3 & O3 & D3 & DF3); trivial.
  { unfold B2. rewrite lookup_insert_ne by congruence. apply lookup_insert_eq. }
  { exact (fresh_not_own B q ltac:(reflexivity) Hqf). }
  { apply lookup_insert_eq. }
  { apply not_elem_of_cons. split; [exact Hqr|]. exact (fresh_not_own B1 r HB1 Hrf). }
  rewrite E3. exists 0, s3. split; [reflexivity|]. left. split; [reflexivity|]. exists (delete a B2), q, (ps ++ [r]).
  destruct (env_miss nm E vl Hsk) as [_ ->]. split; [exact O3|]. split.
  - intros p [->|[Hp| ->%list_elem_of_singleton]%elem_of_app]%elem_of_cons; [auto|left; right; exact Hp|].
    right. destruct (B !! r) as [k|] eqn:Eb; [|reflexivity]. rewrite (lookup_weaken _ _ _ _ Eb HB1) in Hrf. discriminate.
  - intros p k Hp Hpn. apply not_elem_of_cons in Hpn as [Hpa _].
    assert (Hp2 : delete a B2 !! p = Some k) by (rewrite lookup_delete_ne by congruence; eapply lookup_weaken; eassumption).
    split; [exact Hp2|]. intros y Hy. rewrite (D3 p k y Hp2) by (trivial; congruence). apply (proj1 K12 p k y Hp Hy).
  - intros y Hy Hye. rewrite (DF3 y Hy Hye). apply K12, Hy.
Qed.

Lemma setenv_done : exists r s', setenv environ name value s = Done r s' /\ set_result r s'.
Proof.
  unfold setenv. pose proof (environ_mapped B s (eo_inv _ _ _ _ _ O)) as Hm.
  rewrite (bind_load 8) by (intros y Hy; apply Hm; lia).
  rewrite (eo_var _ _ _ _ _ O), (bind_done _ _ _ _ _ (strlen_done s name nm Sn)).
  destruct replace_var_done as (o & s' & Eo & Ho). rewrite (bind_done _ _ _ _ _ Eo). destruct o as [r|count].
  - exists r, s'. auto.
  - destruct Ho as (-> & -> & Hsk). exact (add_var_done Hsk).
Qed.
End Set_.
End Own.
Arguments env_own inv environ B s a ps E : clear implicits.
Arguments set_result F inv environ B s a ps E nm vl r s' : clear implicits.
