(* ===== verification/EnvNames.v ===== *)
(** * Counting and naming the variables

    [envcount], [getenvito] and [getenvi]: the names of the variables by their index. *)

From Stdlib Require Import ZArith Lia Bool.
From stdpp Require Import base list sets numbers option.
From S2P Require Import Prelude CMem MemOps CString CStringSpec Number CopySpec Env EnvSpec.

(** The name in a string of the environment: what is before the first [=]. *)
Fixpoint name_of (e : list Z) : option (list Z) :=
  match e with
  | [] => None
  | c :: e' => if c =? EQ then Some [] else cons c <$> name_of e'
  end.

Lemma name_of_none e : EQ ∉ e -> name_of e = None.
Proof.
  induction e as [|c e IH]; intros H; [reflexivity|]. cbn [name_of]. rewrite (proj2 (Z.eqb_neq c EQ)) by set_solver.
  rewrite IH by set_solver. reflexivity.
Qed.

Lemma name_of_split l1 l2 : EQ ∉ l1 -> name_of (l1 ++ EQ :: l2) = Some l1.
Proof.
  induction l1 as [|c l1 IH]; intros H; [reflexivity|]. cbn [name_of app]. rewrite (proj2 (Z.eqb_neq c EQ)) by set_solver.
  rewrite IH by set_solver. reflexivity.
Qed.

(** The name is the one the variable is found under. *)
Lemma name_of_var e nm : name_of e = Some nm <-> exists v, var_of nm e = Some v.
Proof.
  split.
  - intros H. destruct (decide (EQ ∈ e)) as [Hin|Hn]; [|rewrite name_of_none in H by exact Hn; discriminate].
    apply (list_elem_of_split_l e EQ) in Hin as (l1 & l2 & -> & Hn). rewrite name_of_split in H by exact Hn. injection H as <-.
    exists l2. apply var_of_spec. auto.
  - intros (v & [-> Hn]%var_of_spec). apply name_of_split, Hn.
Qed.

Section Names.
Context (environ : Z) (s : process) (a : Z) (ps : list Z) (E : list (list Z)).
Context (A : env_at s a ps E) (Hen : mapped s environ (environ + 8)) (Ha : word_at (p_mem s) environ = a).

Lemma envcount_done : envcount environ s = Done (Z.of_nat (length E)) s.
Proof.
  unfold envcount. rewrite (bind_load 8) by (intros y Hy; apply Hen; lia). rewrite Ha.
  edestruct (fun body => loop_bounded body
    (fun n i s' => s' = s /\ exists k, i = Z.of_nat k /\ n = Z.of_nat (length ps) - i /\ (k <= length ps)%nat)
    (fun r s' => r = Z.of_nat (length E) /\ s' = s) (Z.of_nat (length ps)) 0 s) as (r & s' & El & -> & ->); [| | |exact El].
  - intros n i s' (-> & k & -> & -> & Hk). split; [lia|]. cbv beta. destruct (decide (k < length ps)%nat) as [Hlt|Hge].
    + destruct (env_lookup s a ps E A k Hlt) as (p & e & Hp & He). destruct (env_var s a ps E A k p e Hp He) as (L & Ht & _).
      rewrite (bind_done _ _ _ _ _ L). apply negb_true_iff in Ht. rewrite Ht. left. eexists _, s, _. split; [reflexivity|].
      split; [split; [reflexivity|exists (S k); csplit; [lia|reflexivity|lia]]|lia].
    + assert (k = length ps) as -> by lia. rewrite (bind_done _ _ _ _ _ (env_end s a ps E A)). right. eexists _, s.
      split; [reflexivity|]. rewrite (env_length s a ps E A). auto.
  - split; [reflexivity|]. exists 0%nat. csplit; lia.
  - pose proof (ea_end _ _ _ _ A). pose proof (ea_pos _ _ _ _ A). lia.
Qed.

(** Where the string [e] at [p] may be: not in the array, nor in the variable [environ]. *)
Definition apart (p : Z) (e : list Z) : Prop :=
  (p + Z.of_nat (length e) < a \/ a + 8 * Z.of_nat (length ps) + 8 <= p) /\
  (p + Z.of_nat (length e) < environ \/ environ + 8 <= p).

(** The name is cut out of the string, copied, and the string is repaired. *)
Lemma name_copied i p nm v name nameSize : ps !! i = Some p -> cstr s p (nm ++ EQ :: v) -> apart p (nm ++ EQ :: v) ->
  0 < name -> 0 < nameSize < 2 ^ 63 -> mapped s name (name + nameSize) ->
  name + nameSize <= p \/ p + Z.of_nat (length (nm ++ EQ :: v)) < name ->
  let k := take (Z.to_nat (nameSize - 1)) nm in
  let val := p + Z.of_nat (length nm) in
  exists m, (store8 val 0;;
    env ← load64 environ;
    v ← load64 (env + 8 * Z.of_nat i);
    len ← strnzcpy name v nameSize;
    store8 val EQ;;
    mret (signed 64 len)) s = Done (Z.of_nat (length k)) (set_mem m s) /\ wrote (p_mem s) m name (k ++ [0]).
Proof.
  intros Hp Sp [D1 D2] Hn Hs Hm Hd k val. pose proof (lookup_lt_Some _ _ _ Hp) as Hi. rewrite length_app in D1, D2, Hd. simpl in D1, D2, Hd.
  assert (Mv : mapped s val (val + 1)) by (intros y Hy; apply (cs_mapped _ _ _ Sp); rewrite length_app; simpl; lia).
  rewrite (bind_store 1) by exact Mv. pose proof (cstr_cut s p nm EQ v Sp) as Sc. fold val in Sc |- *.
  set (s1 := set_mem (put 1 val 0 (p_mem s)) s) in *.
  assert (W : forall x, x + 8 <= val \/ val + 1 <= x -> word_at (p_mem s1) x = word_at (p_mem s) x).
  { intros x Hx. apply num_ext. intros y Hy. apply byte_put_other. lia. }
  rewrite (bind_load 8) by (intros y Hy; apply Hen; lia). rewrite W, Ha by lia.
  rewrite (bind_load 8) by (intros y Hy; apply (ea_mapped _ _ _ _ A); lia). rewrite W, (ea_word _ _ _ _ A i p Hp) by lia.
  assert (Hk : (length k <= length nm)%nat /\ Z.of_nat (length k) < nameSize) by (unfold k; rewrite length_take; lia).
  destruct (strnzcpy_done s1 p nm name nameSize Sc Hn ltac:(lia)) as (m & Em & [W1 W2]); fold k; [intros y Hy; apply Hm; lia|lia|].
  rewrite (bind_done _ _ _ _ _ Em). fold k in W1, W2. rewrite (bind_store 1) by exact Mv. cbn [p_mem set_mem].
  exists (put 1 val EQ m). split.
  - fold k. unfold signed. rewrite (proj2 (Z.ltb_lt _ _)) by lia. unfold s1. rewrite !set_mem_set_mem. reflexivity.
  - rewrite length_app in W2. simpl in W2. split.
    + intros j c Hj. pose proof (lookup_lt_Some _ _ _ Hj) as Hl. rewrite length_app in Hl. simpl in Hl. rewrite byte_put_other by lia. apply W1, Hj.
    + intros y Hy. rewrite length_app in Hy. simpl in Hy. rewrite byte_put1. destruct (Z.eqb_spec y val) as [->|Hne].
      * change (wrap8 EQ) with EQ. symmetry. apply (cs_chars _ _ _ Sp). rewrite lookup_app_r, Nat.sub_diag by lia. reflexivity.
      * rewrite W2 by lia. apply byte_put_other. lia.
Qed.

(** [getenvito] copies the name of the variable with that index, as far as there is room, and
    leaves the environment as it is; there are errors for an index that is too large and for a
    string without [=]. *)
Lemma getenvito_done name nameSize i : 0 <= i ->
  0 < name -> 0 < nameSize < 2 ^ 63 -> mapped s name (name + nameSize) ->
  (forall p e, p ∈ ps -> cstr s p e -> apart p e /\ (name + nameSize <= p \/ p + Z.of_nat (length e) < name)) ->
  match E !! Z.to_nat i with
  | None => getenvito environ name nameSize i s = Done (- EINVAL) s
  | Some e =>
      match name_of e with
      | None => getenvito environ name nameSize i s = Done (- EFAULT) s
      | Some nm => let k := take (Z.to_nat (nameSize - 1)) nm in
          exists m, getenvito environ name nameSize i s = Done (Z.of_nat (length k)) (set_mem m s) /\ wrote (p_mem s) m name (k ++ [0])
      end
  end.
Proof.
  intros Hi Hn Hs Hm Hd. unfold getenvito. rewrite (bind_done _ _ _ _ _ envcount_done).
  destruct (E !! Z.to_nat i) as [e|] eqn:Ee.
  2: { apply lookup_ge_None in Ee. rewrite (proj2 (Z.leb_le _ _)) by lia. reflexivity. }
  pose proof (lookup_lt_Some _ _ _ Ee) as Hlt. rewrite (proj2 (Z.leb_gt _ _)) by lia.
  rewrite <- (env_length s a ps E A) in Hlt. destruct (env_lookup s a ps E A _ Hlt) as (p & e' & Hp & He').
  assert (e' = e) as -> by congruence. destruct (env_var s a ps E A _ p e Hp Ee) as (L & _ & Sp). rewrite Z2Nat.id in L by exact Hi.
  rewrite (bind_load 8) by (intros y Hy; apply Hen; lia). rewrite Ha, (bind_done _ _ _ _ _ L).
  destruct (strchr_done s p e EQ Sp ltac:(unfold EQ; lia)) as (r & Er & Hr). change (schar EQ) with EQ in Er. rewrite (bind_done _ _ _ _ _ Er).
  destruct (Hd p e (list_elem_of_lookup_2 _ _ _ Hp) Sp) as [D1 D2]. destruct Hr as [[-> Hne]|(nm & v & -> & Hne & ->)].
  - rewrite name_of_none by exact Hne. reflexivity.
  - rewrite name_of_split by exact Hne. pose proof (cs_pos _ _ _ Sp).
    assert (Ht : truth (p + Z.of_nat (length nm)) = true) by (apply negb_true_iff, Z.eqb_neq; lia). rewrite Ht. cbn [negb].
    pose proof (name_copied (Z.to_nat i) p nm v name nameSize Hp Sp D1 Hn Hs Hm D2) as H'. rewrite Z2Nat.id in H' by exact Hi. exact H'.
Qed.

(** [getenv] and [getenvi] return their static buffer, with the value or the name, or NULL. *)
Lemma getenv_done value name nm : cstr s name nm -> Z.of_nat (length nm) < 2 ^ 63 ->
  0 < value -> mapped s value (value + MAX_PATH_LEN) ->
  (forall p e, p ∈ ps -> cstr s p e -> value + MAX_PATH_LEN <= p \/ p + Z.of_nat (length e) < value) ->
  match env_get nm E with
  | Some v => exists m, getenv environ value name s = Done value (set_mem m s) /\ wrote (p_mem s) m value (take 254 v ++ [0])
  | None => getenv environ value name s = Done 0 s
  end.
Proof.
  intros Sn Hnm Hv Hm Hd. pose proof (getenvto_done environ s a ps E name nm value MAX_PATH_LEN A Hen Ha Sn Hnm Hv ltac:(unfold MAX_PATH_LEN; lia) Hm Hd) as G.
  unfold getenv. destruct (env_get nm E) as [v|].
  - destruct G as (m & Em & W). exists m. rewrite (bind_done _ _ _ _ _ Em), (proj2 (Z.leb_le _ _)) by lia. split; [reflexivity|exact W].
  - rewrite (bind_done _ _ _ _ _ G). reflexivity.
Qed.

Lemma getenvi_done name i : 0 <= i -> 0 < name -> mapped s name (name + ENV_NAME_MAX) ->
  (forall p e, p ∈ ps -> cstr s p e -> apart p e /\ (name + ENV_NAME_MAX <= p \/ p + Z.of_nat (length e) < name)) ->
  match (e ← E !! Z.to_nat i; name_of e) with
  | Some nm => exists m, getenvi environ name i s = Done name (set_mem m s) /\ wrote (p_mem s) m name (take (Z.to_nat (ENV_NAME_MAX - 1)) nm ++ [0])
  | None => getenvi environ name i s = Done 0 s
  end.
Proof.
  intros Hi Hn Hm Hd. pose proof (getenvito_done name ENV_NAME_MAX i Hi Hn ltac:(unfold ENV_NAME_MAX; lia) Hm Hd) as G.
  unfold getenvi. destruct (E !! Z.to_nat i) as [e|]; cbn [mbind option_bind].
  - destruct (name_of e) as [nm|]; [|rewrite (bind_done _ _ _ _ _ G); reflexivity].
    destruct G as (m & Em & W). exists m. rewrite (bind_done _ _ _ _ _ Em), (proj2 (Z.leb_le _ _)) by lia. split; [reflexivity|exact W].
  - rewrite (bind_done _ _ _ _ _ G). reflexivity.
Qed.
End Names.
