(* ===== verification/EnvProps.v ===== *)
(** * Programs and their environment

    A program starts with [initenv], which copies the strings the kernel has passed to it, and
    then calls [setenv] and [getenvto].  What it reads is what the list of its variables says. *)

From Stdlib Require Import ZArith Lia Bool.
From stdpp Require Import base list numbers option gmap.
From S2P Require Import Prelude CMem MemOps Heap HeapInv HeapSpec Alloc CString CStringSpec Number CopySpec Env SllSpec EnvSpec HeapProps SllProps.

Section Start.
Context {F : Z -> Prop} {inv : process -> gmap Z Z -> Prop} `{Al : Allocator F inv}.
Context (environ : Z) (HF : forall y, environ <= y < environ + 8 -> F y).

(** Foreign memory but for the variable [environ]. *)
Definition static (y : Z) : Prop := F y /\ (y < environ \/ environ + 8 <= y).

Lemma keeps_static B s s' : keeps F B s s' -> keeps static B s s'.
Proof. intros [K1 K2]. split; [exact K1|]. intros y [Hy _]. auto. Qed.

Lemma steady_static B x n : steady static B x n -> steady F B x n.
Proof. intros H y Hy. destruct (H y Hy) as [[? _]|?]; auto. Qed.

Lemma static_cstr B s s' B' x l :
  keeps static B s s' -> inv s' B' -> B ⊆ B' -> steady static B x (Z.of_nat (length l) + 1) -> cstr s x l -> cstr s' x l.
Proof.
  intros [K1 K2] I HB H S. apply (cstr_ext s); [exact S|..]; intros y Hy; destruct (H y ltac:(lia)) as [Hf|(p & k & Hp & Hy')].
  - apply (al_foreign s' B' y I), Hf.
  - apply (al_live s' B' p k I (lookup_weaken _ _ _ _ Hp HB)), Hy'.
  - apply K2, Hf.
  - apply (K1 p k); trivial.
Qed.

Lemma set_environ B s v : inv s B -> is_octa v ->
  exists s', store64 environ v s = Done tt s' /\ inv s' B /\ keeps static B s s' /\ word_at (p_mem s') environ = v /\
    s' = set_mem (put 8 environ v (p_mem s)) s.
Proof.
  intros I Hv. pose proof (environ_mapped environ HF B s I) as Hm. eexists. csplit.
  - apply store_done. intros y Hy. apply Hm. lia.
  - apply al_foreign_store; [exact I|]. intros y Hy. apply byte_put_other.
    destruct (Z_lt_le_dec y environ); [auto|]. destruct (Z_lt_le_dec y (environ + Z.of_nat 8)); [|auto]. destruct Hy. apply HF. lia.
  - split; simpl.
    + intros p n y Hp Hy. apply byte_put_other. destruct (Z_lt_le_dec y environ); [auto|].
      destruct (Z_lt_le_dec y (environ + Z.of_nat 8)); [|auto].
      destruct (al_foreign s B y I (HF y ltac:(lia))) as [_ Ho]. destruct (Ho p n Hp); lia.
    + intros y [_ Hy]. apply byte_put_other. lia.
  - apply word_put_same, Hv.
  - reflexivity.
Qed.

(** The new block [r] of [n] bytes, which alone has been written since. *)
Definition obtained (s : process) (r n : Z) (s' : process) : Prop :=
  exists s1 m, malloc n s = Done r s1 /\ s' = set_mem m s1 /\
    forall y, ~ r <= y < r + n -> byte_at m y = byte_at (p_mem s1) y.

Lemma strdup_done s B x l :
  inv s B -> cstr s x l -> steady F B x (Z.of_nat (length l) + 1) -> Z.of_nat (length l) < 2 ^ 63 ->
  exists r s', strdup x s = Done r s' /\ keeps F B s s' /\
    (r = 0 /\ inv s' B /\ malloc (Z.of_nat (length l) + 1) s = Done 0 s' \/
     r <> 0 /\ B !! r = None /\ cstr s' r l /\ inv s' (<[r := Z.of_nat (length l) + 1]> B) /\ obtained s r (Z.of_nat (length l) + 1) s').
Proof.
  intros I S T Hl. unfold strdup. rewrite (bind_done _ _ _ _ _ (strlen_done s x l S)), wrap_small by (unfold is_word; lia).
  set (n := Z.of_nat (length l) + 1). assert (Hn : n = Z.of_nat (length l) + 1) by reflexivity.
  destruct (al_malloc s B n I ltac:(lia)) as (r & s1 & E1 & K1 & [[-> I1]|(Hr & Hf & I1)]); rewrite (bind_done _ _ _ _ _ E1).
  { exists 0, s1. split; [reflexivity|]. split; [exact K1|]. left. auto. }
  assert (Ht : truth r = true) by (apply negb_true_iff, Z.eqb_neq, Hr). rewrite Ht.
  assert (HB : B ⊆ <[r := n]> B) by (apply insert_subseteq, Hf). assert (Hb : <[r := n]> B !! r = Some n) by apply lookup_insert_eq.
  destruct (al_live s1 _ r n I1 Hb) as (R1 & _ & R2 & R3).
  pose proof (steady_apart B s1 _ r n x n I1 HB Hb Hf ltac:(lia) T) as D.
  destruct (strcpy_wrote s1 x l r) as (m & E2 & W);
    [exact (steady_cstr B s s1 _ x l K1 I1 HB T S)|lia|lia|intros y Hy; apply R3; lia|lia|].
  unfold mbind at 1, C_bind at 1. rewrite (bind_done _ _ _ _ _ E2).
  destruct (fresh_write B s1 _ r n _ m I1 HB Hb Hf W) as [I2 K2]; [rewrite length_app; simpl; lia|].
  exists r, (set_mem m s1). split; [reflexivity|]. split; [exact (keeps_trans _ _ _ _ _ K1 K2)|]. right. csplit; trivial.
  - apply wrote_cstr; trivial; [lia|intros y Hy; apply R3; lia|apply S].
  - exists s1, m. csplit; trivial. intros y Hy. apply (proj2 W). rewrite length_app. simpl. lia.
Qed.

(** ** [initenv] *)

(** In the middle of [initenv]: the array [a] has room for [n] pointers, the first of which are
    [ps], to copies of the strings [E]. *)
Record filling (B0 : gmap Z Z) (s0 : process) (a n : Z) (B : gmap Z Z) (s : process) (ps : list Z) (E : list (list Z)) : Prop := {
  fi_inv : inv s B;
  fi_sub : B0 ⊆ B;
  fi_keeps : keeps static B0 s0 s;
  fi_var : word_at (p_mem s) environ = a;
  fi_new : B0 !! a = None;
  fi_array : B !! a = Some (8 * n + 8);
  fi_fresh p : p ∈ ps -> B0 !! p = None;
  fi_ptrs : pointers (p_mem s) a ps;
  fi_vars : vars B s a ps E
}.

(** A store to the array. *)
Lemma filling_store B0 s0 a n B s ps E i v :
  filling B0 s0 a n B s ps E -> 0 <= i <= n ->
  let s' := set_mem (put 8 (a + 8 * i) v (p_mem s)) s in
  store64 (a + 8 * i) v s = Done tt s' /\ inv s' B /\ keeps static B0 s0 s' /\ word_at (p_mem s') environ = a /\ vars B s' a ps E.
Proof.
  intros [I HB K V Hn Ha Hfr P Hv] Hi s'. destruct (block_store s B a _ (8 * i) v I Ha) as [E1 I1]; [lia|lia|].
  assert (D : forall p k y, B !! p = Some k -> p <> a -> p <= y < p + k -> byte_at (p_mem s') y = byte_at (p_mem s) y).
  { intros p k y Hp Hpa Hy. apply byte_put_other. destruct (al_disjoint s B p k a _ I Hp Ha Hpa); lia. }
  assert (D' : forall y, F y -> byte_at (p_mem s') y = byte_at (p_mem s) y).
  { intros y Hy. apply byte_put_other. destruct (al_foreign s B y I Hy) as [_ Ho]. destruct (Ho a _ Ha); lia. }
  csplit; trivial.
  - apply (keeps_trans _ _ _ s); [exact K|]. split; [|intros y [Hy _]; auto]. intros p k y Hp Hy.
    apply (D p k y); [eapply lookup_weaken; eassumption|congruence|exact Hy].
  - etransitivity; [|exact V]. apply num_ext. intros y Hy. apply D', HF. lia.
  - apply (vars_ext B s); trivial. intros p k y Hp Hpb Hy. destruct (vars_block _ _ _ _ _ p Hv Hp) as (_ & _ & _ & Hpa).
    apply (D p k y Hpb Hpa Hy).
Qed.

(** What is refused from [s'] on is refused from [s] on, where the block [d] of [k] bytes has been
    got in between. *)
Definition later (a n : Z) (s : process) (d k : Z) (s' : process) : Prop :=
  forall W ns, (forall y, a <= y < a + (8 * n + 8) -> W y) ->
    refuses (fun y => W y \/ d <= y < d + k) s' ns -> refuses W s (k :: ns).

Lemma obtained_later a n s d k s1 i : obtained s d k s1 -> d <> 0 -> 0 <= i <= n ->
  later a n s d k (set_mem (put 8 (a + 8 * i) d (p_mem s1)) s1).
Proof.
  intros (s' & m & Em & -> & Hm) Hd Hi W ns HW R. eapply (refuses_later W s k ns d s' _ Em Hd); [|exact R].
  intros y Hy. simpl. rewrite byte_put_other; [apply Hm; tauto|].
  destruct (Z_lt_le_dec y (a + 8 * i)); [auto|]. destruct (Z_lt_le_dec y (a + 8 * i + Z.of_nat 8)); [|auto].
  destruct Hy. left. apply HW. lia.
Qed.

(** One more string. *)
Lemma filling_step B0 s0 a n B s ps E x e :
  filling B0 s0 a n B s ps E -> cstr s0 x e -> steady static B0 x (Z.of_nat (length e) + 1) -> Z.of_nat (length e) < 2 ^ 63 ->
  Z.of_nat (length ps) < n ->
  let i := Z.of_nat (length ps) in
  exists d s1, strdup x s = Done d s1 /\ word_at (p_mem s1) environ = a /\ mapped s1 environ (environ + 8) /\
    exists s2, store64 (a + 8 * i) d s1 = Done tt s2 /\
      (d = 0 /\ malloc (Z.of_nat (length e) + 1) s = Done 0 s1 \/
       (exists B2, filling B0 s0 a n B2 s2 (ps ++ [d]) (E ++ [e])) /\ d <> 0 /\ later a n s d (Z.of_nat (length e) + 1) s2) /\
      mapped s2 environ (environ + 8) /\ word_at (p_mem s2) environ = a /\ load64 (a + 8 * i) s2 = Done d s2.
Proof.
  intros Fi Sx Tx Hl Hi i. pose proof Fi as [I HB K V Hn Ha Hfr P Hv].
  pose proof (static_cstr B0 s0 s B x e K I HB Tx Sx) as Sx'.
  destruct (strdup_done s B x e I Sx' (steady_static _ _ _ (steady_sub B0 B _ _ HB Tx)) Hl) as (d & s1 & E1 & K1 & H1).
  exists d, s1. split; [exact E1|].
  assert (Fi1 : forall B1, inv s1 B1 -> B ⊆ B1 -> filling B0 s0 a n B1 s1 ps E).
  { intros B1 I1 HB1. split; trivial.
    - etransitivity; eassumption.
    - apply (keeps_trans _ _ _ s); [exact K|]. apply keeps_static, (keeps_sub F B0 B _ _ HB K1).
    - rewrite (environ_word environ HF B s s1 K1). exact V.
    - eapply lookup_weaken; eassumption.
    - apply (pointers_ext (p_mem s)); [exact P|]. intros y Hy. apply (proj1 K1 a _ y Ha). lia.
    - apply (vars_ext B s); trivial; [intros p k _ Hp; eapply lookup_weaken; eassumption|].
      intros p k y _ Hp Hy. apply (proj1 K1 p k y Hp Hy). }
  assert (H1' : exists B1, filling B0 s0 a n B1 s1 ps E /\ is_octa d /\
    (d = 0 /\ malloc (Z.of_nat (length e) + 1) s = Done 0 s1 \/
     (B1 !! d = Some (Z.of_nat (length e) + 1) /\ cstr s1 d e /\ d ∉ a :: ps /\ B0 !! d = None) /\
     d <> 0 /\ obtained s d (Z.of_nat (length e) + 1) s1)).
  { destruct H1 as [(-> & I1 & Em)|(Hd & Hf & Sd & I1 & Hob)].
    - exists B. csplit; [apply Fi1; trivial|split; reflexivity|auto].
    - eexists. csplit; [apply (Fi1 _ I1), insert_subseteq, Hf|apply (live_octa _ _ d _ I1 (lookup_insert_eq _ _ _))|].
      right. split; [|auto]. csplit; [apply lookup_insert_eq|exact Sd| |].
      + intros [->|Hin]%elem_of_cons; [congruence|]. destruct (vars_block _ _ _ _ _ d Hv Hin) as (? & ? & _). congruence.
      + destruct (B0 !! d) eqn:Eb; [|reflexivity]. rewrite (lookup_weaken _ _ _ _ Eb HB) in Hf. discriminate. }
  clear Fi1 H1. destruct H1' as (B1 & Fi1 & Ho & H1). split; [apply Fi1|]. split; [exact (environ_mapped environ HF B1 s1 (fi_inv _ _ _ _ _ _ _ _ Fi1))|].
  destruct (filling_store B0 s0 a n B1 s1 ps E i d Fi1 ltac:(lia)) as (E2 & I2 & K2 & V2 & Hv2).
  set (s2 := set_mem _ s1) in *. exists s2. split; [exact E2|].
  assert (W2 : word_at (p_mem s2) (a + 8 * i) = d) by (apply word_put_same, Ho).
  split; [|csplit; [exact (environ_mapped environ HF B1 s2 I2)|exact V2|]].
  - destruct H1 as [H1|((Hb & Sd & Hdn & Hd0) & Hdz & Hob)]; [auto|right].
    split; [|split; [exact Hdz|apply obtained_later; trivial; unfold i; lia]]. exists B1. destruct Fi1 as [J1 J2 J3 J4 J5 J6 J6' J7 J8]. split; trivial.
    + intros p [Hp| ->%list_elem_of_singleton]%elem_of_app; auto.
    + intros j p Hp. destruct (decide (j < length ps)%nat).
      * rewrite lookup_app_l in Hp by lia. simpl. rewrite word_put_other by lia. auto.
      * pose proof (lookup_lt_Some _ _ _ Hp) as Hj. rewrite length_app in Hj. simpl in Hj. assert (j = length ps) as -> by lia.
        rewrite lookup_app_r, Nat.sub_diag in Hp by lia. injection Hp as <-. exact W2.
    + apply vars_snoc; trivial. apply not_elem_of_cons in Hdn as [Hda _]. apply (cstr_ext s1); [exact Sd|apply Sd|].
      intros y Hy. apply byte_put_other. destruct (al_disjoint s1 B1 d _ a _ J1 Hb J6 Hda); lia.
  - rewrite load_done; [rewrite W2; reflexivity|]. intros y Hy. apply (al_live s2 B1 a _ I2 (fi_array _ _ _ _ _ _ _ _ Fi1)). lia.
Qed.

(** A word in static memory. *)
Lemma static_word B s s' B' x n j :
  keeps static B s s' -> inv s' B' -> B ⊆ B' -> steady static B x n -> 0 <= j -> j + 8 <= n ->
  load64 (x + j) s' = Done (word_at (p_mem s) (x + j)) s'.
Proof.
  intros [K1 K2] I HB T H1 H2.
  assert (Hm : forall y, x <= y < x + n -> p_mapped s' y = true /\ byte_at (p_mem s') y = byte_at (p_mem s) y).
  { intros y Hy. destruct (T y Hy) as [Hf|(p & k & Hp & Hy')].
    - split; [apply (al_foreign s' B' y I), Hf|apply K2, Hf].
    - split; [apply (al_live s' B' p k I (lookup_weaken _ _ _ _ Hp HB)), Hy'|apply (K1 p k y Hp Hy')]. }
  rewrite load_done by (intros y Hy; apply Hm; lia). f_equal. apply num_ext. intros y Hy. apply Hm. lia.
Qed.

(** The strings that the kernel passes. *)
Definition passed (B : gmap Z Z) (s : process) (envv : Z) (qs : list Z) (E : list (list Z)) : Prop :=
  steady static B envv (8 * Z.of_nat (length qs)) /\ pointers (p_mem s) envv qs /\ Z.of_nat (length qs) < 2 ^ 31 - 1 /\
  Forall2 (fun q e => cstr s q e /\ steady static B q (Z.of_nat (length e) + 1) /\ Z.of_nat (length e) < 2 ^ 63) qs E.

(** The requests of [initenv]: the array and the copies of the strings. *)
Definition copy_sizes (E : list (list Z)) : list Z := (fun e => Z.of_nat (length e) + 1) <$> E.
Definition env_sizes (E : list (list Z)) : list Z := 8 * (Z.of_nat (length E) + 1) :: copy_sizes E.

Lemma initenv_loop s B envv qs E a B2 s2 W X :
  (forall y, a <= y < a + (8 * Z.of_nat (length qs) + 8) -> W y) -> (refuses W s2 (copy_sizes E) -> X) ->
  passed B s envv qs E -> filling B s a (Z.of_nat (length qs)) B2 s2 [] [] ->
  let body := fun i =>
    if i <? Z.of_nat (length qs) then
      v ← load64 (envv + 8 * i);
      d ← strdup v;
      env ← load64 environ;
      store64 (env + 8 * i) d;;
      env ← load64 environ;
      d ← load64 (env + 8 * i);
      if d =? 0 then bad Exited else mret (Next (i + 1))
    else mret (Break i) in
  (exists i s', loop body 0 s2 = Done i s' /\ i = Z.of_nat (length qs) /\
     exists B' ps, length ps = length qs /\ filling B s a (Z.of_nat (length qs)) B' s' ps E) \/
  loop body 0 s2 = Bad Exited /\ X.
Proof.
  intros HW HX (Tv & Pq & Hn & Hq) Fi body. assert (El : length qs = length E) by exact (Forall2_length _ _ _ Hq).
  set (n := Z.of_nat (length qs)) in *. assert (En : n = Z.of_nat (length qs)) by reflexivity.
  apply (loop_bounded_or body Exited X
    (fun k i s' => exists j B' ps, i = Z.of_nat j /\ k = n - i /\ (j <= length qs)%nat /\ length ps = j /\
       filling B s a n B' s' ps (take j E) /\
       exists V : Z -> Prop, (forall y, a <= y < a + (8 * n + 8) -> V y) /\ (refuses V s' (copy_sizes (drop j E)) -> X)) _ n); [| |lia].
  - intros k i s' (j & B' & ps & -> & -> & Hj & Hps & Fi' & V & HV & HX'). split; [lia|]. unfold body.
    destruct (Z.ltb_spec (Z.of_nat j) n) as [Hlt|Hge].
    + destruct (lookup_lt_is_Some_2 qs j ltac:(lia)) as [q Hqj]. destruct (lookup_lt_is_Some_2 E j ltac:(lia)) as [e Hej].
      destruct (Forall2_lookup_lr _ _ _ _ _ _ Hq Hqj Hej) as (Sq & Tq & Hl). pose proof Fi' as [J1 J2 J3 _ _ _ _ _ _].
      pose proof (static_word B s s' B' envv (8 * n) (8 * Z.of_nat j) J3 J1 J2 Tv ltac:(lia) ltac:(lia)) as Lq.
      rewrite (Pq j q Hqj) in Lq. rewrite (bind_done _ _ _ _ _ Lq).
      destruct (filling_step B s a n B' s' ps (take j E) q e Fi' Sq Tq Hl ltac:(lia)) as (d & s4 & Ed & V4 & M4 & s5 & E5 & Hd & M5 & V5 & L5).
      rewrite (bind_done _ _ _ _ _ Ed), (bind_load 8) by (intros y Hy; apply M4; lia). rewrite V4, <- Hps, (bind_done _ _ _ _ _ E5).
      rewrite (bind_load 8) by (intros y Hy; apply M5; lia). rewrite V5, (bind_done _ _ _ _ _ L5).
      destruct (Z.eqb_spec d 0) as [Hz'|Hz']; [|left].
      { right. right. split; [reflexivity|]. apply HX'. unfold copy_sizes. rewrite (drop_S E e j Hej). destruct Hd as [[_ Em]|(_ & ? & _)]; [|contradiction].
        eapply refuses_now, Em. }
      destruct Hd as [[? _]|((B5 & Fi5) & _ & Hlt')]; [contradiction|].
      eexists _, s5, (n - Z.of_nat (S j)). split; [reflexivity|]. split; [|lia]. exists (S j), B5, (ps ++ [d]).
      rewrite (take_S_r E j e Hej), length_app. simpl. csplit; trivial; try lia.
      eexists. split; [|intros R; apply HX'; unfold copy_sizes; rewrite (drop_S E e j Hej); exact (Hlt' V _ HV R)].
      intros y Hy. left. auto.
    + right. left. assert (j = length qs) as -> by lia. eexists _, s'. split; [reflexivity|]. split; [reflexivity|].
      exists B', ps. rewrite El, firstn_all in Fi'. auto.
  - exists 0%nat, B2, []. csplit; try lia; trivial. exists W. auto.
Qed.

(** [initenv] copies the strings, or the process ends for want of memory. *)
Lemma initenv_done s B envv qs E :
  inv s B -> passed B s envv qs E ->
  initenv environ (Z.of_nat (length qs)) envv s = Bad Exited /\ refuses (fun y => environ <= y < environ + 8) s (env_sizes E) \/
  exists s' B' a ps, initenv environ (Z.of_nat (length qs)) envv s = Done tt s' /\
    env_own inv environ B' s' a ps E /\ B ⊆ B' /\ keeps static B s s' /\ (forall p, p ∈ a :: ps -> B !! p = None).
Proof.
  intros I Hp. pose proof Hp as (_ & _ & Hn & Hq). unfold initenv. set (n := Z.of_nat (length qs)) in *.
  assert (Ei : to_int (n + 1) = n + 1).
  { unfold to_int. rewrite wrap_small by (unfold is_word; lia). unfold signed. rewrite (proj2 (Z.ltb_lt _ _)); lia. }
  rewrite Ei, wrap_small by (unfold is_word; lia).
  destruct (al_malloc s B ((n + 1) * 8) I ltac:(lia)) as (a & s1 & E1 & K1 & H1). rewrite (bind_done _ _ _ _ _ E1).
  assert (H1' : exists B1, inv s1 B1 /\ is_octa a /\ (a = 0 \/ a <> 0 /\ B !! a = None /\ B1 = <[a := (n + 1) * 8]> B)).
  { destruct H1 as [[-> I1]|(Ha & Hf & I1)]; [exists B|eexists]; csplit; eauto; [split; reflexivity|].
    apply (live_octa _ _ a _ I1 (lookup_insert_eq _ _ _)). }
  clear H1. destruct H1' as (B1 & I1 & Ha & H1). destruct (set_environ B1 s1 a I1 Ha) as (s2 & E2 & I2 & K2 & V2 & M2).
  assert (Es : env_sizes E = (n + 1) * 8 :: copy_sizes E).
  { unfold env_sizes. f_equal. rewrite <- (Forall2_length _ _ _ Hq). fold n. lia. }
  rewrite (bind_done _ _ _ _ _ E2). destruct H1 as [->|(Hz & Hf & ->)].
  { left. split; [reflexivity|]. rewrite Es. eapply refuses_now, E1. }
  rewrite (proj2 (Z.eqb_neq _ _) Hz). assert (HB : B ⊆ <[a := (n + 1) * 8]> B) by (apply insert_subseteq, Hf).
  assert (Fi : filling B s a n (<[a := (n + 1) * 8]> B) s2 [] []).
  { split; trivial.
    - apply (keeps_trans _ _ _ s1); [apply keeps_static, K1|]. exact (keeps_sub _ _ _ _ _ HB K2).
    - rewrite lookup_insert_eq. f_equal. lia.
    - intros p []%elem_of_nil.
    - intros i p Hi. discriminate.
    - split; [constructor..|apply NoDup_singleton]. }
  set (W := fun y => environ <= y < environ + 8 \/ a <= y < a + (n + 1) * 8).
  assert (HX : refuses W s2 (copy_sizes E) -> refuses (fun y => environ <= y < environ + 8) s (env_sizes E)).
  { intros R. rewrite Es. rewrite M2 in R. eapply (refuses_later _ s _ _ a s1 _ E1 Hz); [|exact R].
    intros y Hy. apply byte_put_other. lia. }
  assert (HW : forall y, a <= y < a + (8 * n + 8) -> W y) by (intros y Hy; right; lia).
  destruct (initenv_loop s B envv qs E a _ s2 W _ HW HX Hp Fi) as [(i & s3 & L & -> & B3 & ps & Hps & Fi3)|[L HX']];
    [right|left; split; [apply bind_bad, L|exact HX']].
  rewrite (bind_done _ _ _ _ _ L). clear L.
  rewrite (bind_load 8) by (intros y Hy; apply (environ_mapped environ HF B3 s3 (fi_inv _ _ _ _ _ _ _ _ Fi3)); lia).
  fold n. rewrite (fi_var _ _ _ _ _ _ _ _ Fi3). destruct (filling_store B s a n B3 s3 ps E n 0 Fi3 ltac:(lia)) as (E4 & I4 & K4 & V4 & Hv4).
  eexists _, B3, a, ps. split; [exact E4|]. csplit; [|apply Fi3|exact K4|].
  - split; trivial; rewrite ?Hps.
    + apply Fi3.
    + apply (pointers_ext (p_mem s3)); [apply Fi3|]. intros y Hy. apply byte_put_other. lia.
    + apply word_put_same. split; reflexivity.
  - intros p [->|Hin]%elem_of_cons; [exact Hf|]. exact (fi_fresh _ _ _ _ _ _ _ _ Fi3 p Hin).
Qed.

(** ** Programs *)

(** A program that gets the strings of [envv] and sets variables. *)
Fixpoint set_all (calls : list (Z * Z)) : C (list Z) :=
  match calls with
  | [] => mret []
  | (name, value) :: calls' =>
      r ← setenv environ name value;
      rs ← set_all calls';
      mret (r :: rs)
  end.

Definition env_client (envc envv : Z) (calls : list (Z * Z)) : C (list Z) :=
  initenv environ envc envv;;
  set_all calls.

(** What the variables are after the calls that have succeeded. *)
Fixpoint assigned (sets : list (list Z * list Z)) (rs : list Z) (E : list (list Z)) : list (list Z) :=
  match sets, rs with
  | (nm, v) :: sets', r :: rs' => assigned sets' rs' (if r =? 0 then env_set nm v E else E)
  | _, _ => E
  end.

(** The calls one after the other, from the state [s] with the variables [E] to the state [s']:
    each of them sets its variable and returns 0, unless the memory for it is refused. *)
Fixpoint sets_vars (calls : list (Z * Z)) (sets : list (list Z * list Z)) (rs : list Z) (s : process) (E : list (list Z)) (s' : process) : Prop :=
  match calls, sets, rs with
  | [], [], [] => s' = s
  | (name, value) :: calls', (nm, v) :: sets', r :: rs' => exists s1, setenv environ name value s = Done r s1 /\
      (r = 0 \/ r = - ENOMEM /\ refuses (fun _ => False) s (needed nm v E)) /\
      sets_vars calls' sets' rs' s1 (if r =? 0 then env_set nm v E else E) s'
  | _, _, _ => False
  end.

(** A string in static memory or in a block of the program. *)
Definition given (B : gmap Z Z) (s : process) (x : Z) (l : list Z) : Prop :=
  cstr s x l /\ steady static B x (Z.of_nat (length l) + 1) /\ Z.of_nat (length l) < 2 ^ 62.

Definition calls_given (B : gmap Z Z) (s : process) (c : Z * Z) (x : list Z * list Z) : Prop :=
  given B s c.1 x.1 /\ given B s c.2 x.2.

(** The state of the program: its own blocks [B] and its static memory are as in [s0]. *)
Record running (B : gmap Z Z) (s0 s : process) (E : list (list Z)) : Prop := {
  run_env : exists B' a ps, env_own inv environ B' s a ps E /\ B ⊆ B' /\ (forall p, p ∈ a :: ps -> B !! p = None);
  run_keeps : keeps static B s0 s
}.

Lemma setenv_runs B s0 s E c x :
  running B s0 s E -> calls_given B s0 c x ->
  exists r s', setenv environ c.1 c.2 s = Done r s' /\ (r = 0 \/ r = - ENOMEM /\ refuses (fun _ => False) s (needed x.1 x.2 E)) /\
    running B s0 s' (if r =? 0 then env_set x.1 x.2 E else E).
Proof.
  intros [(B1 & a & ps & O & HB & Hfr) K] [(Sn & Tn & Hn) (Sv & Tv & Hv)]. pose proof (eo_inv _ _ _ _ _ _ O) as I.
  destruct (setenv_done environ HF B1 s a ps E c.1 x.1 c.2 x.2 O) as (r & s' & E1 & H1);
    [exact (static_cstr B s0 s B1 _ _ K I HB Tn Sn)|exact (static_cstr B s0 s B1 _ _ K I HB Tv Sv)|
     exact (steady_static _ _ _ (steady_sub B B1 _ _ HB Tn))|exact (steady_static _ _ _ (steady_sub B B1 _ _ HB Tv))|lia|].
  exists r, s'. split; [exact E1|]. destruct H1 as [[-> (B' & a' & ps' & O' & [F1 F2 F3])]|(-> & O' & K' & Rf)].
  - split; [auto|]. cbn [Z.eqb]. assert (Hk : forall p, is_Some (B !! p) -> p ∉ a :: ps).
    { intros p [k Hp] Hin. rewrite (Hfr p Hin) in Hp. discriminate. }
    split.
    + exists B', a', ps'. split; [exact O'|]. split.
      * apply map_subseteq_spec. intros p k Hp. apply (F2 p k); [eapply lookup_weaken; eassumption|eauto].
      * intros p Hp. destruct (F1 p Hp) as [Hin|Hnone]; [auto|].
        destruct (B !! p) eqn:Ep; [|reflexivity]. rewrite (lookup_weaken _ _ _ _ Ep HB) in Hnone. discriminate.
    + apply (keeps_trans _ _ _ s); [exact K|]. split; [|intros y [Hy Hye]; auto].
      intros p k y Hp Hy. apply (F2 p k); [eapply lookup_weaken; eassumption|eauto|exact Hy].
  - split; [auto|]. change (- ENOMEM =? 0) with false. cbv iota. split; [exists B1, a, ps; auto|].
    apply (keeps_trans _ _ _ s); [exact K|]. apply keeps_static, (keeps_sub F B B1 _ _ HB K').
Qed.

Lemma set_all_runs B s0 calls sets : Forall2 (calls_given B s0) calls sets ->
  forall s E, running B s0 s E ->
  exists rs s', set_all calls s = Done rs s' /\ sets_vars calls sets rs s E s' /\ running B s0 s' (assigned sets rs E).
Proof.
  induction 1 as [|[name value] [nm v] calls sets Hc _ IH]; intros s E R.
  - exists [], s. csplit; trivial. reflexivity.
  - destruct (setenv_runs B s0 s E _ _ R Hc) as (r & s1 & E1 & Hr & R1). destruct (IH s1 _ R1) as (rs & s2 & E2 & Hrs & R2).
    exists (r :: rs), s2. cbn [set_all]. rewrite (bind_done _ _ _ _ _ E1), (bind_done _ _ _ _ _ E2).
    split; [reflexivity|]. split; [exists s1; auto|exact R2].
Qed.

Lemma client_runs s B envv qs E calls sets :
  inv s B -> passed B s envv qs E -> Forall2 (calls_given B s) calls sets ->
  let c := env_client (Z.of_nat (length qs)) envv calls in
  c s = Bad Exited /\ refuses (fun y => environ <= y < environ + 8) s (env_sizes E) \/
  exists s1 rs s', c s = Done rs s' /\ initenv environ (Z.of_nat (length qs)) envv s = Done tt s1 /\
    sets_vars calls sets rs s1 E s' /\ running B s s' (assigned sets rs E).
Proof.
  intros I Hp Hc c. unfold c, env_client.
  destruct (initenv_done s B envv qs E I Hp) as [[Eb HX]|(s1 & B1 & a & ps & E1 & O & HB & K & Hfr)].
  - left. split; [apply bind_bad, Eb|exact HX].
  - right. rewrite (bind_done _ _ _ _ _ E1). destruct (set_all_runs B s calls sets Hc s1 E) as (rs & s' & H); [split; [eauto 6|exact K]|].
    exists s1, rs, s'. tauto.
Qed.

(** Reading a variable into a static buffer. *)
Lemma running_get B s0 s E name nm buf size :
  running B s0 s E -> given B s0 name nm -> 0 < buf -> 0 < size < 2 ^ 63 -> (forall y, buf <= y < buf + size -> static y) ->
  match env_get nm E with
  | Some v => let k := take (Z.to_nat (size - 1)) v in
      exists m, getenvto environ buf size name s = Done (Z.of_nat (length k)) (set_mem m s) /\
        wrote (p_mem s) m buf (k ++ [0])
  | None => getenvto environ buf size name s = Done (- ENOTFOUND) s
  end.
Proof.
  intros [(B1 & a & ps & O & HB & Hfr) K] (Sn & Tn & Hn) Hb Hs Hbuf. pose proof (eo_inv _ _ _ _ _ _ O) as I.
  apply (getenvto_done environ s a ps E); trivial; try lia.
  - exact (eo_at _ _ _ _ _ _ O).
  - exact (environ_mapped environ HF B1 s I).
  - apply O.
  - exact (static_cstr B s0 s B1 _ _ K I HB Tn Sn).
  - intros y Hy. apply (al_foreign s B1 y I), Hbuf, Hy.
  - intros p e Hp Sp. destruct (vars_block _ _ _ _ _ p (eo_vars _ _ _ _ _ _ O) Hp) as (e' & Hpb & Sp' & _).
    assert (Hl : length e = length e') by (rewrite (cstr_unique s p e e' Sp Sp'); reflexivity).
    destruct (Z_le_gt_dec (buf + size) p); [auto|]. destruct (Z_lt_le_dec (p + Z.of_nat (length e)) buf); [auto|]. exfalso.
    destruct (al_foreign s B1 (Z.max buf p) I) as [_ Ho]; [apply Hbuf; lia|]. destruct (Ho p _ Hpb); lia.
Qed.
End Start.

(** ** The theorem *)

(** C8: The environment is a list of variables.  A program starts with [initenv] and then calls
    [setenv] with any names and values, strings in its static memory or in its blocks.
    [initenv] ends the process only if the allocator refuses the array or one of the copies of
    the strings that were passed; otherwise every call returns 0 and has set its variable, or
    returns -ENOMEM because the allocator refuses a block it needs, and then the variables are
    as before.  The program's other memory is unchanged, and [getenvto] afterwards gives for every
    name what the list of the variables says: the value, cut to the size of the buffer, or
    -ENOTFOUND.  In that list setting a name without an equals sign gives it the new value and
    leaves all other names theirs. *)
Theorem environment_refines_list {F inv} `{!Allocator F inv} environ s B envv qs E calls sets :
  (forall y, environ <= y < environ + 8 -> F y) -> inv s B ->
  passed (F := F) environ B s envv qs E -> Forall2 (calls_given (F := F) environ B s) calls sets ->
  let c := env_client environ (Z.of_nat (length qs)) envv calls in
  (c s = Bad Exited /\ refuses (fun y => environ <= y < environ + 8) s (env_sizes E) \/
   exists s1 rs s', c s = Done rs s' /\ initenv environ (Z.of_nat (length qs)) envv s = Done tt s1 /\
     sets_vars environ calls sets rs s1 E s' /\ keeps (static (F := F) environ) B s s' /\
     forall name nm buf size, given (F := F) environ B s name nm -> 0 < buf -> 0 < size < 2 ^ 63 ->
       (forall y, buf <= y < buf + size -> static (F := F) environ y) ->
       match env_get nm (assigned sets rs E) with
       | Some v => let k := take (Z.to_nat (size - 1)) v in
           exists m, getenvto environ buf size name s' = Done (Z.of_nat (length k)) (set_mem m s') /\
             wrote (p_mem s') m buf (k ++ [0])
       | None => getenvto environ buf size name s' = Done (- ENOTFOUND) s'
       end) /\
  (forall nm v E nm', EQ ∉ nm -> env_get nm' (env_set nm v E) = if decide (nm' = nm) then Some v else env_get nm' E).
Proof.
  intros HF I Hp Hc c. split; [|intros; apply env_get_set; assumption].
  destruct (client_runs environ HF s B envv qs E calls sets I Hp Hc) as [Eb|(s1 & rs & s' & E' & E1 & Hs & R)]; [auto|right].
  exists s1, rs, s'. csplit; trivial; [apply R|]. intros name nm buf size Hg Hb Hsz Hbuf.
  exact (running_get environ HF B s s' _ name nm buf size R Hg Hb Hsz Hbuf).
Qed.

(** A page of static memory at 4096: the variable [environ], an array with one string, that
    string (A=b), a name (C) and a value (d). *)
Definition env_page : list Z := replicate 8 0 ++ [32; 16] ++ replicate 22 0 ++ [65; 61; 98; 0; 67; 0; 100; 0].

Definition env_process (limit : Z) : process :=
  mkprocess (fun y => nth (Z.to_nat (y - 4096)) env_page 0) (fun y => (4096 <=? y) && (y <? 8192)) 65536
    (fun e n => (0 <=? n) && (65536 <=? e) && (e + PAGE_SIZE * n <=? limit)) (mkheap 0 0 0 0 unlocked true) 0 no_stdio.

Definition in_page (y : Z) : Prop := 4096 <= y < 8192.

Lemma env_process_blocks : heap_blocks in_page (env_process (2 ^ 20)) ∅.
Proof.
  exists no_view. split; [|split; [discriminate 1|]].
  - apply start_ready. split; [reflexivity|]. split; [simpl; lia|]. split; [reflexivity|].
    intros e n He Hn Hg. cbn [p_grant env_process] in Hg. apply andb_true_iff in Hg as [[_ H1%Z.leb_le]%andb_true_iff H2%Z.leb_le].
    split; [lia|]. intros y Hy. cbn. rewrite (proj2 (Z.ltb_ge y 8192)) by lia. apply andb_false_r.
  - intros y Hy. split; [|reflexivity]. cbn. unfold in_page in Hy.
    rewrite (proj2 (Z.leb_le _ _)), (proj2 (Z.ltb_lt _ _)) by lia. reflexivity.
Qed.

Lemma env_mapped a e : 4096 <= a -> e <= 8192 -> mapped (env_process (2 ^ 20)) a e.
Proof. intros H1 H2 y Hy. cbn. rewrite (proj2 (Z.leb_le _ _)), (proj2 (Z.ltb_lt _ _)) by lia. reflexivity. Qed.

(** A string in that page. *)
Ltac env_string :=
  split; [lia|simpl; lia|apply env_mapped; simpl; lia|repeat constructor; lia| |reflexivity];
  let i := fresh "i" in let c := fresh "c" in let Hi := fresh "Hi" in
  intros i c Hi; do 4 (destruct i as [|i]; [first [discriminate Hi|injection Hi as <-; reflexivity]|]); discriminate Hi.

Lemma page_steady x n : 4104 <= x -> x + n <= 8192 -> steady (static (F := in_page) 4096) ∅ x n.
Proof. intros H1 H2 y Hy. left. unfold static, in_page. lia. Qed.

Definition env_succeeds (o : fate (list Z)) : bool := match o with Done rs _ => bool_decide (rs = [0]) | Bad _ => false end.

Lemma env_client_succeeds : env_succeeds (env_client 4096 (Z.of_nat (length [4128])) 4104 [(4132, 4134)] (env_process (2 ^ 20))) = true.
Proof. vm_compute. reflexivity. Qed.

(** The program sets C to d, which is then read into a buffer. *)
Lemma environment_refines_list_witness :
  exists s', env_client 4096 1 4104 [(4132, 4134)] (env_process (2 ^ 20)) = Done [0] s' /\
    exists m, getenvto 4096 4200 16 4132 s' = Done 1 (set_mem m s') /\ wrote (p_mem s') m 4200 [100; 0].
Proof.
  destruct (environment_refines_list (F := in_page) (inv := heap_blocks in_page) 4096 (env_process (2 ^ 20)) ∅ 4104 [4128] [[65; 61; 98]]
    [(4132, 4134)] [([67], [100])]) as [[[E _]|(s1 & rs & s' & E & _ & _ & _ & G)] _].
  - intros y Hy. unfold in_page. lia.
  - apply env_process_blocks.
  - split; [apply page_steady; simpl; lia|]. split; [|split; [reflexivity|]].
    + intros [|i] p Hp; [|discriminate]. injection Hp as <-. reflexivity.
    + constructor; [|constructor]. split; [env_string|]. split; [apply page_steady; simpl; lia|reflexivity].
  - constructor; [|constructor]. split; cbn [fst snd]; (split; [env_string|]); (split; [apply page_steady; simpl; lia|reflexivity]).
  - exfalso. pose proof env_client_succeeds as H. unfold env_succeeds in H. rewrite E in H. discriminate.
  - assert (rs = [0]) as ->.
    { pose proof env_client_succeeds as H. unfold env_succeeds in H. rewrite E in H. exact (proj1 (bool_decide_eq_true _) H). }
    exists s'. split; [exact E|]. apply (G 4132 [67] 4200 16); [|lia|lia|intros y Hy; unfold static, in_page; lia].
    split; [env_string|]. split; [apply page_steady; simpl; lia|reflexivity].
Defined.
