(* ===== verification/Path.v ===== *)
(** * Paths

    The functions on paths of lib/c/dirent.  The addresses of the string literals, of the static
    string that [basename] and [dirname] may return, and of the local array of [cleanpath] are
    parameters. *)

From Stdlib Require Import ZArith Lia Bool.
From stdpp Require Import base list numbers option.
From S2P Require Import Prelude CMem MemOps CString Number Env.

(** The slash, the dot and the colon. *)
Definition SLASH : Z := 47.
Definition DOT : Z := 46.
Definition COLON : Z := 58.

Section Paths.
(** [environ], and the literals for /dev/ and CWD. *)
Context (environ dev cwd : Z).

(** [p[0] == ':' && p[1] == '/' && p[2] == '/'], where [c0] is [p[0]]. *)
Definition scheme_end (p c0 : Z) : C bool :=
  if c0 =? COLON then
    c1 ← load_char (p + 1);
    if c1 =? SLASH then
      c2 ← load_char (p + 2);
      mret (c2 =? SLASH)
    else mret false
  else mret false.

(** Translate abc://def to /dev/abc/def; the result says whether there was something to translate. *)
Definition scheme_path (dst dstSize path : Z) : C bool :=
  loop (fun p =>
    c ← load_char p;
    if truth c then
      b ← scheme_end p c;
      if b : bool then
        let slen := p -o path in
        strncpy dst dev 5;;
        strncpy (dst + 5) path slen;;
        strnzcpy (dst + 5 + slen) (p + 2) (dstSize -o (5 +o slen));;
        mret (Break true)
      else mret (Next (p + 1))
    else mret (Break false)) path.

Definition abspath (dst dstSize path : Z) : C Z :=
  c ← load_char path;
  if negb (c =? SLASH) then
    r ← scheme_path dst dstSize path;
    if r : bool then mret dst else
    (* prepend CWD *)
    l ← getenvto environ dst dstSize cwd;
    let len := wrap64 l in
    len ← (if len <? dstSize -o 1 then
             c ← load_char (dst +o (len -o 1));
             if negb (c =? SLASH) then
               store8 (dst +o len) SLASH;;
               store8 (dst +o (len +o 1)) 0;;
               mret (len +o 1)
             else mret len
           else mret len);
    strnzcpy (dst +o len) path (dstSize -o len);;
    mret dst
  else mret path.

(** [while( *p == '/') p++] *)
Definition skip_slashes (p : Z) : C Z :=
  loop (fun p => c ← load_char p; if c =? SLASH then mret (Next (p + 1)) else mret (Break p)) p.

(** One layer back: to the last slash. *)
Definition layer_back (pathtemp count layer : Z) : C (Z * Z * Z) :=
  if 0 <? layer then
    e ← loop (fun q => c ← load_char q; if negb (c =? SLASH) then mret (Next (q - 1)) else mret (Break q)) pathtemp;
    store8 e 0;;
    mret (e, count -o (pathtemp - e), layer - 1)
  else mret (pathtemp, count, layer).

(** One component of the path at [p]: the position behind it and the new [pathtemp], [count]
    and [layer], or [None] if [dst] is too small. *)
Definition component (dstSize p pathtemp count layer : Z) : C (option (Z * (Z * Z * Z))) :=
  pos ← strchri p SLASH;
  c0 ← load_char p;
  if (pos =? 1) && (c0 =? DOT) then mret (Some (p + 2, (pathtemp, count, layer))) else
  c1 ← (if (pos =? 2) && (c0 =? DOT) then load_char (p + 1) else mret 0);
  if (pos =? 2) && (c0 =? DOT) && (c1 =? DOT) then
    st ← layer_back pathtemp count layer;
    mret (Some (p + 3, st))
  else if (dstSize -o count) <? wrap64 (to_int (pos + 2)) then mret None else
  store8 pathtemp SLASH;;
  strncpy (pathtemp + 1) p (wrap64 pos);;
  store8 (pathtemp + (pos + 1)) 0;;
  mret (Some (p + (pos + 1), (pathtemp + (pos + 1), count +o (pos + 1), to_int (layer + 1)))).

(** The loop over the components; [inl]: [cleanpath] returns. *)
Definition components (dstSize p pathtemp : Z) : C (Z + Z * Z) :=
  loop (fun '(p, (pathtemp, count, layer)) =>
    c ← load_char p;
    if truth c then
      r ← component dstSize p pathtemp count layer;
      match r with
      | None => mret (Break (inl count))
      | Some (p, (pathtemp, count, layer)) =>
          (* one step too far? *)
          c ← load_char (p - 1);
          if c =? 0 then mret (Break (inr (pathtemp, count))) else
          p ← skip_slashes p;
          mret (Next (p, (pathtemp, count, layer)))
      end
    else mret (Break (inr (pathtemp, count)))) (p, (pathtemp, 0, 0)).

(** [tmp] is the local array of MAX_PATH_LEN bytes. *)
Definition cleanpath (tmp dst dstSize src : Z) : C Z :=
  p ← abspath tmp MAX_PATH_LEN src;
  p ← skip_slashes p;
  r ← components dstSize p dst;
  match r with
  | inl count => mret count
  | inr (pathtemp, count) =>
      (* terminate *)
      if (dstSize -o count) <? 2 then mret count else
      (* root? *)
      '(pathtemp, count) ← (if pathtemp =? dst then store8 pathtemp SLASH;; mret (pathtemp + 1, count +o 1)
                            else mret (pathtemp, count));
      store8 pathtemp 0;;
      mret count
  end.

(** [while(len > 0 && path[len - 1] == '/') len--], or up to a slash. *)
Definition back_while (slash : bool) (path len : Z) : C Z :=
  loop (fun len =>
    if 0 <? len then
      c ← load_char (path + (len - 1));
      if Bool.eqb (c =? SLASH) slash then mret (Next (len - 1)) else mret (Break len)
    else mret (Break len)) len.

(** [path[0] == '.' && path[1] == '.' && path[2] == '\0'], where [c0] is [path[0]]. *)
Definition is_dotdot (path c0 : Z) : C bool :=
  if c0 =? DOT then
    c1 ← load_char (path + 1);
    if c1 =? DOT then
      c2 ← load_char (path + 2);
      mret (c2 =? 0)
    else mret false
  else mret false.

(** [(path[0] == '.' || path[0] == '/') && path[1] == '\0'] *)
Definition is_dot_or_root (path c0 : Z) : C bool :=
  if (c0 =? DOT) || (c0 =? SLASH) then
    c1 ← load_char (path + 1);
    mret (c1 =? 0)
  else mret false.

(** [dot] is the static string. *)
Definition basename (dot path : Z) : C Z :=
  if path =? 0 then mret dot else
  c0 ← load_char path;
  if c0 =? 0 then mret dot else
  b ← is_dot_or_root path c0;
  if b : bool then mret path else
  b ← is_dotdot path c0;
  if b : bool then mret path else
  len ← strlen path;
  len ← loop (fun len =>
    if 0 <? len then
      c ← load_char (path + (len - 1));
      if c =? SLASH then store8 (path + (len - 1)) 0;; mret (Next (len - 1)) else mret (Break len)
    else mret (Break len)) len;
  len ← back_while false path len;
  mret (path + len).

Definition dirname (dot path : Z) : C Z :=
  if path =? 0 then mret dot else
  c0 ← load_char path;
  if c0 =? 0 then mret dot else
  b ← is_dot_or_root path c0;
  if b : bool then mret path else
  b ← is_dotdot path c0;
  if b : bool then store8 (path + 1) 0;; mret path else
  len ← strlen path;
  len ← back_while true path len;
  len ← back_while false path len;
  len ← back_while true path len;
  c ← load_char (path + len);
  (if c =? SLASH then store8 (path + (if 0 <? len then len else 1)) 0
   else store8 path DOT;; store8 (path + 1) 0);;
  mret path.
End Paths.
