(* ===== verification/PathSpec.v ===== *)
(** * Cleaning a path

    A path is the list of its components.  [walk] goes through them as [cleanpath] does: a dot
    is skipped, two dots remove the last component, any other component is added if there is
    room for it.  The loop of [cleanpath] does this in memory. *)

From Stdlib Require Import ZArith Lia Bool.
From stdpp Require Import base list numbers option.
From S2P Require Import Prelude CMem MemOps CString CStringSpec Number CopySpec Env EnvSpec Path.

(** ** The components *)

Definition rendered (st : list (list Z)) : list Z := concat ((fun c => SLASH :: c) <$> st).

Definition parts (l : list Z) : list (list Z) := tokens [SLASH] l.

Definition add_part (room : Z) (st : list (list Z)) (c : list Z) : option (list (list Z)) :=
  if decide (c = [DOT]) then Some st
  else if decide (c = [DOT; DOT]) then Some (removelast st)
  else if room <? Z.of_nat (length (rendered st) + length c) + 2 then None
  else Some (st ++ [c]).

Fixpoint walk (room : Z) (st cs : list (list Z)) : list (list Z) * bool :=
  match cs with
  | [] => (st, true)
  | c :: cs' => match add_part room st c with Some st' => walk room st' cs' | None => (st, false) end
  end.

Lemma rendered_cons c st : rendered (c :: st) = SLASH :: c ++ rendered st.
Proof. reflexivity. Qed.

Lemma rendered_snoc st c : rendered (st ++ [c]) = rendered st ++ SLASH :: c.
Proof. unfold rendered. rewrite fmap_app, concat_app. simpl. rewrite app_nil_r. reflexivity. Qed.

(** A component: characters other than slashes. *)
Definition is_part (c : list Z) : Prop := c <> [] /\ SLASH ∉ c.

Lemma no_slash c : SLASH ∉ c -> forallb (fun x => negb (is_in [SLASH] x)) c = true.
Proof.
  intros H. apply forallb_forall. intros x Hx. apply negb_true_iff. destruct (is_in [SLASH] x) eqn:Ei; [|reflexivity].
  apply is_in_spec, list_elem_of_singleton in Ei as ->. destruct H. apply list_elem_of_In, Hx.
Qed.

(** The first component of a path that does not start with a slash. *)
Lemma part_split l : l <> [] -> first l <> SLASH ->
  exists c rest, l = c ++ rest /\ is_part c /\ prefix_of (fun x => negb (x =? SLASH)) l = c /\
    (rest = [] \/ exists rest', rest = SLASH :: rest') /\ parts l = c :: parts (tail rest).
Proof.
  intros Hne Hf. destruct (prefix_of_split (fun x => negb (x =? SLASH)) l) as (rest & El & Hp & Hr).
  set (c := prefix_of _ l) in *. exists c, rest.
  assert (Hs : SLASH ∉ c). { intros Hin. rewrite forallb_forall in Hp. apply list_elem_of_In, Hp in Hin. discriminate. }
  assert (Hc : c <> []).
  { unfold c. destruct l as [|x l]; [contradiction|]. simpl in *. rewrite (proj2 (Z.eqb_neq _ _) Hf). discriminate. }
  assert (Hr' : rest = [] \/ exists rest', rest = SLASH :: rest').
  { destruct Hr as [|(x & l3 & -> & Hx)]; [auto|right]. apply negb_false_iff, Z.eqb_eq in Hx as ->. eauto. }
  csplit; trivial; [split; trivial|]. rewrite El at 1. apply tokens_cons; [exact Hc|exact (no_slash c Hs)|].
  destruct Hr' as [|(rest' & ->)]; [auto|right; eauto].
Qed.

Lemma parts_slashes l1 l2 : Forall (eq SLASH) l1 -> parts (l1 ++ l2) = parts l2.
Proof. intros H. apply tokens_skip. induction H as [|x l <- _ IH]; [reflexivity|]. exact IH. Qed.

(** ** [skip_slashes] *)

Lemma skip_slashes_done s a l : cstr s a l ->
  exists l1 l2, l = l1 ++ l2 /\ Forall (eq SLASH) l1 /\ first l2 <> SLASH /\
    skip_slashes a s = Done (a + Z.of_nat (length l1)) s.
Proof.
  intros S. destruct (prefix_of_split (Z.eqb SLASH) l) as (l2 & El & Hp & Hr). set (l1 := prefix_of _ l) in *.
  assert (H1 : Forall (eq SLASH) l1).
  { apply Forall_forall. intros x Hx. rewrite forallb_forall in Hp. apply Z.eqb_eq, Hp, Hx. }
  assert (H2 : first l2 <> SLASH).
  { destruct Hr as [->|(x & l3 & -> & Hx)]; [discriminate|]. apply Z.eqb_neq in Hx. simpl. congruence. }
  exists l1, l2. csplit; trivial. unfold skip_slashes. pose proof (cs_end _ _ _ S) as He. pose proof (cs_pos _ _ _ S) as Hpos.
  edestruct (fun body => loop_bounded body
    (fun n p s' => s' = s /\ exists k1 k2, l1 = k1 ++ k2 /\ p = a + Z.of_nat (length k1) /\ n = Z.of_nat (length k2))
    (fun r s' => s' = s /\ r = a + Z.of_nat (length l1)) (Z.of_nat (length l1)) a s) as (r & s' & E & -> & ->); [| | |exact E].
  - intros n p s' (-> & k1 & k2 & Ek & -> & ->). split; [lia|]. pose proof S as S1. rewrite El, Ek, <- app_assoc in S1.
    apply cstr_tail in S1. rewrite (bind_done _ _ _ _ _ (cstr_char _ _ _ S1)). destruct k2 as [|x k2].
    + right. cbn [app]. assert (Hx : (schar (first l2) =? SLASH) = false).
      { apply Z.eqb_neq. intros Hx. apply H2. pose proof (cs_range _ _ _ S1) as R. destruct l2 as [|d l2]; [discriminate|].
        simpl in *. apply Forall_cons_1 in R as [R _]. change SLASH with (schar 47) in Hx.
        apply Z.eqb_eq in Hx. rewrite schar_inj in Hx by lia. apply Z.eqb_eq in Hx. exact Hx. }
      rewrite Hx. rewrite app_nil_r in Ek. subst k1. eexists _, s. auto.
    + left. cbn [app first]. rewrite Ek in H1. apply Forall_app in H1 as [_ H1]. apply Forall_cons_1 in H1 as [<- _].
      change (schar SLASH =? SLASH) with true. eexists _, s, (Z.of_nat (length k2)). split; [reflexivity|]. split; [|simpl; lia].
      split; [reflexivity|]. exists (k1 ++ [SLASH]), k2. rewrite <- app_assoc, next_pos. auto.
  - split; [reflexivity|]. exists [], l1. rewrite Z.add_0_r. auto.
  - rewrite El, length_app in He. lia.
Qed.

(** ** The target in memory *)

Section Walk.
Context (s : process) (dst dstSize : Z).
Context (Hdst : 0 < dst) (Hsize : 2 <= dstSize) (Hend : dst + dstSize < 2 ^ 63) (Hmap : mapped s dst (dst + dstSize)).

(** The memory [m] holds the components [st] at [dst], and only [dst] has changed. *)
Record holds (m : arr) (st : list (list Z)) : Prop := {
  ho_bytes i c : rendered st !! i = Some c -> byte_at m (dst + Z.of_nat i) = c;
  ho_end : st <> [] -> byte_at m (dst + Z.of_nat (length (rendered st))) = 0;
  ho_room : st <> [] -> Z.of_nat (length (rendered st)) + 1 <= dstSize;
  ho_other y : y < dst \/ dst + dstSize <= y -> byte_at m y = byte_at (p_mem s) y;
  ho_parts : Forall is_part st
}.

Lemma holds_nil : holds (p_mem s) [].
Proof. split; trivial; try contradiction. discriminate 1. Qed.

Lemma rendered_room m st : holds m st -> Z.of_nat (length (rendered st)) < dstSize.
Proof. intros H. destruct st as [|c st]; [simpl; lia|]. pose proof (ho_room _ _ H ltac:(discriminate)). lia. Qed.

(** There are not more layers than bytes. *)
Lemma layers_short st : (length st <= length (rendered st))%nat.
Proof. induction st as [|c st IH]; [simpl; lia|]. rewrite rendered_cons. simpl. rewrite length_app. lia. Qed.

(** A source string that is apart from the target. *)
Definition off_target (a : Z) (l : list Z) : Prop := a + Z.of_nat (length l) < dst \/ dst + dstSize <= a.

Lemma source_cstr m a l :
  (forall y, y < dst \/ dst + dstSize <= y -> byte_at m y = byte_at (p_mem s) y) -> cstr s a l -> off_target a l -> cstr (set_mem m s) a l.
Proof.
  intros H S Hd. apply (cstr_ext s); [exact S|apply S|]. intros y Hy. apply H. unfold off_target in Hd. lia.
Qed.

(** *** One layer back *)

Lemma layer_back_done m st : holds m st -> Z.of_nat (length st) < 2 ^ 31 ->
  exists m', layer_back (dst + Z.of_nat (length (rendered st))) (Z.of_nat (length (rendered st))) (Z.of_nat (length st)) (set_mem m s) =
    Done (dst + Z.of_nat (length (rendered (removelast st))), Z.of_nat (length (rendered (removelast st))),
          Z.of_nat (length (removelast st))) (set_mem m' s) /\ holds m' (removelast st).
Proof.
  intros H Hl. unfold layer_back. destruct (Z.ltb_spec 0 (Z.of_nat (length st))) as [Hlt|Hge].
  2: { destruct st as [|c st]; [|simpl in Hge; lia]. exists m. auto. }
  assert (Hne : st <> []) by (intros ->; simpl in Hlt; lia).
  destruct (exists_last Hne) as (st' & c & ->). rewrite removelast_last. pose proof H as [H1 H2 H3 H4 H5].
  specialize (H2 ltac:(destruct st'; discriminate)). specialize (H3 ltac:(destruct st'; discriminate)).
  rewrite rendered_snoc in *. rewrite length_app in *. cbn [length] in *.
  set (n := Z.of_nat (length (rendered st'))) in *. assert (En : n = Z.of_nat (length (rendered st'))) by reflexivity.
  replace (Z.of_nat (length (rendered st') + S (length c))) with (n + Z.of_nat (length c) + 1) in * by lia.
  assert (Hb : forall k, (k <= length c)%nat -> byte_at m (dst + n + 1 + Z.of_nat k) = nth k c 0).
  { intros k Hk. destruct (decide (k = length c)) as [->|Hkc].
    - rewrite nth_overflow by lia. rewrite <- H2. f_equal. lia.
    - rewrite <- (H1 (length (rendered st') + S k)%nat); [f_equal; lia|]. rewrite lookup_app_r by lia.
      replace (_ + S k - _)%nat with (S k) by lia. cbn.
      destruct (lookup_lt_is_Some_2 c k ltac:(lia)) as [x Hx]. rewrite (nth_lookup_Some c k 0 x Hx). exact Hx. }
  apply Forall_app in H5 as [H5 Hc]. apply Forall_cons_1 in Hc as [[_ Hc] _].
  edestruct (fun body => loop_bounded body
    (fun k q s' => s' = set_mem m s /\ q = dst + n + k /\ 0 <= k <= Z.of_nat (length c) + 1)
    (fun q s' => s' = set_mem m s /\ q = dst + n) (Z.of_nat (length c) + 1) (dst + (n + Z.of_nat (length c) + 1)) (set_mem m s))
    as (q & s' & El & -> & ->); [| | |rewrite (bind_done _ _ _ _ _ El)].
  4: { rewrite (bind_store 1) by (intros y Hy; apply Hmap; lia). eexists. split.
    - unfold mret, C_ret. replace (n + Z.of_nat (length c) + 1 -o (dst + (n + Z.of_nat (length c) + 1) - (dst + n))) with n
        by (rewrite wrap_small by (unfold is_word; lia); lia).
      replace (Z.of_nat (length (st' ++ [c])) - 1) with (Z.of_nat (length st')) by (rewrite length_app; simpl; lia).
      cbn [p_mem set_mem]. reflexivity.
    - split; trivial; try lia.
      + intros i x Hi. pose proof (lookup_lt_Some _ _ _ Hi). simpl. rewrite byte_put_other by lia. apply H1. rewrite lookup_app_l by lia. exact Hi.
      + intros _. fold n. rewrite byte_put1, Z.eqb_refl. reflexivity.
      + intros y Hy. rewrite byte_put_other by lia. auto. }
  - intros k q s' (-> & -> & Hk). split; [lia|].
    rewrite (bind_done _ _ _ _ _ (load_char_done (set_mem m s) (dst + n + k) ltac:(apply Hmap; lia))). cbn [p_mem set_mem].
    destruct (Z.eq_dec k 0) as [->|Hk0].
    + right. rewrite Z.add_0_r. replace (byte_at m (dst + n)) with SLASH; [eexists _, _; split; [reflexivity|auto]|].
      symmetry. rewrite En. apply H1. rewrite lookup_app_r, Nat.sub_diag by lia. reflexivity.
    + left. pose proof (Hb (Z.to_nat (k - 1)) ltac:(lia)) as Hk'. replace (dst + n + 1 + _) with (dst + n + k) in Hk' by lia.
      assert (Hx : (schar (byte_at m (dst + n + k)) =? SLASH) = false).
      { change SLASH with (schar SLASH). rewrite schar_inj; [|apply byte_range|unfold SLASH; lia].
        rewrite Hk'. apply Z.eqb_neq. intros Hx. destruct (decide (Z.to_nat (k - 1) < length c)%nat).
        - apply Hc. rewrite <- Hx. apply list_elem_of_In, nth_In. lia.
        - rewrite nth_overflow in Hx by lia. discriminate. }
      rewrite Hx. cbn [negb]. eexists _, _, (k - 1). split; [reflexivity|]. split; [|lia]. split; [reflexivity|]. lia.
  - split; [reflexivity|]. lia.
  - lia.
Qed.

(** *** One more component *)

Lemma push_done {R} m st c rest p (f : unit -> C R) : holds m st -> is_part c -> cstr s p (c ++ rest) -> off_target p (c ++ rest) ->
  let n := Z.of_nat (length (rendered st)) in let pos := Z.of_nat (length c) in
  n + pos + 2 <= dstSize ->
  exists m', (store8 (dst + n) SLASH;; strncpy (dst + n + 1) p pos;; store8 (dst + n + (pos + 1)) 0 ≫= f) (set_mem m s) =
    f tt (set_mem m' s) /\ holds m' (st ++ [c]).
Proof.
  intros H Hc Sp Hd n pos Hr. pose proof (ho_other _ _ H) as Ho. assert (En : n = Z.of_nat (length (rendered st))) by reflexivity.
  assert (Ep : pos = Z.of_nat (length c)) by reflexivity.
  rewrite (bind_store 1) by (intros y Hy; apply Hmap; lia). cbn [p_mem set_mem]. rewrite set_mem_set_mem.
  pose proof (wrote_char (dst + n) [] SLASH m m SLASH (wrote_nil m _) eq_refl) as W1. rewrite Z.add_0_r in W1.
  set (m1 := put 1 (dst + n) SLASH m) in *.
  assert (Ho1 : forall y, y < dst \/ dst + dstSize <= y -> byte_at m1 y = byte_at (p_mem s) y)
    by (intros y Hy; rewrite (proj2 W1) by (simpl; lia); auto).
  destruct (strncpy_prefix (set_mem m1 s) p (c ++ rest) (dst + n + 1) pos) as (m2 & E2 & W2);
    [exact (source_cstr m1 p _ Ho1 Sp Hd)|lia|rewrite length_app; lia|intros y Hy; apply Hmap; lia|unfold off_target in Hd; lia|].
  rewrite (bind_done _ _ _ _ _ E2). rewrite (bind_store 1) by (intros y Hy; apply Hmap; lia). cbn [p_mem set_mem]. rewrite !set_mem_set_mem.
  rewrite Ep, Nat2Z.id, take_app_length in W2. cbn [p_mem set_mem] in W2. pose proof (wrote_trans _ _ _ _ _ _ W1 W2) as W12. cbn [app] in W12.
  pose proof (wrote_char _ _ 0 _ _ 0 W12 eq_refl) as W3. cbn [length] in W3.
  replace (dst + n + Z.of_nat (S (length c))) with (dst + n + (pos + 1)) in W3 by lia.
  eexists. split; [reflexivity|]. set (m3 := put 1 _ 0 m2) in *. destruct W3 as [W3 W4].
  rewrite length_app in W4. cbn [length] in W4. split.
  - intros i x Hi. rewrite rendered_snoc in Hi. destruct (decide (i < length (rendered st))%nat).
    + rewrite lookup_app_l in Hi by lia. rewrite W4 by lia. apply (ho_bytes _ _ H _ _ Hi).
    + rewrite lookup_app_r in Hi by lia. pose proof (lookup_lt_Some _ _ _ Hi) as Hlt.
      rewrite <- (W3 (i - length (rendered st))%nat x); [f_equal; lia|]. rewrite lookup_app_l by exact Hlt. exact Hi.
  - intros _. rewrite rendered_snoc, length_app. cbn [length]. rewrite <- (W3 (S (length c)) 0); [f_equal; lia|].
    rewrite lookup_app_r by (simpl; lia). simpl. rewrite Nat.sub_diag. reflexivity.
  - intros _. rewrite rendered_snoc, length_app. cbn [length]. lia.
  - intros y Hy. rewrite W4 by lia. auto.
  - apply Forall_app. split; [apply H|]. constructor; [exact Hc|constructor].
Qed.

(** The tests for one and two dots. *)
Lemma dots_test c rest : Forall (fun x => 1 <= x < 256) (c ++ rest) -> c <> [] ->
  let pos := Z.of_nat (length c) in let c0 := schar (first (c ++ rest)) in
  ((pos =? 1) && (c0 =? DOT) = true <-> c = [DOT]) /\
  ((pos =? 2) && (c0 =? DOT) = true -> (schar (first (tail c ++ rest)) =? DOT) = true <-> c = [DOT; DOT]).
Proof.
  intros Hr Hne pos c0. assert (Hd : forall x, 1 <= x < 256 -> (schar x =? DOT) = true <-> x = DOT).
  { intros x Hx. change DOT with (schar DOT) at 1. rewrite schar_inj by (unfold DOT; lia). apply Z.eqb_eq. }
  unfold pos, c0. destruct c as [|x c]; [contradiction|]. cbn [app first tail] in *. apply Forall_cons_1 in Hr as [Hx Hr].
  rewrite !andb_true_iff, !Z.eqb_eq. rewrite <- (Z.eqb_eq (schar x)), (Hd x Hx). split.
  - split; [|intros E; injection E as -> ->; auto]. intros [Hl ->]. destruct c; [reflexivity|simpl in Hl; lia].
  - intros [Hl ->]. destruct c as [|y [|z c]]; [simpl in Hl; lia| |simpl in Hl; lia]. cbn [app first] in *.
    apply Forall_cons_1 in Hr as [Hy _]. rewrite <- (Z.eqb_eq (schar y)), (Hd y Hy). split; [intros ->; reflexivity|congruence].
Qed.

(** What [component] does, for the first component [c] of the source string at [p]. *)
Lemma component_done m st c rest p :
  holds m st -> is_part c -> cstr s p (c ++ rest) -> off_target p (c ++ rest) ->
  prefix_of (fun x => negb (x =? SLASH)) (c ++ rest) = c ->
  Z.of_nat (length (c ++ rest)) < 2 ^ 31 - 2 -> dstSize < 2 ^ 31 ->
  let r := fun st => Z.of_nat (length (rendered st)) in
  exists o m', component dstSize p (dst + r st) (r st) (Z.of_nat (length st)) (set_mem m s) = Done o (set_mem m' s) /\
    match add_part dstSize st c with
    | Some st' => o = Some (p + (Z.of_nat (length c) + 1), (dst + r st', r st', Z.of_nat (length st'))) /\ holds m' st'
    | None => o = None /\ m' = m
    end.
Proof.
  intros H Hc Sp Hd Hp Hlen Hsz r. unfold component, add_part.
  pose proof (source_cstr m p _ (ho_other _ _ H) Sp Hd) as S1. pose proof (rendered_room m st H) as Hroom. pose proof (layers_short st) as Hlay.
  assert (Hl : Z.of_nat (length c) <= Z.of_nat (length (c ++ rest))) by (rewrite length_app; lia).
  change SLASH with (schar SLASH) at 1.
  rewrite (bind_done _ _ _ _ _ (strchri_done (set_mem m s) p _ SLASH S1 ltac:(unfold SLASH; lia) ltac:(lia))), Hp.
  rewrite (bind_done _ _ _ _ _ (cstr_char _ _ _ S1)).
  destruct (dots_test c rest (cs_range _ _ _ Sp) (proj1 Hc)) as [T1 T2]. set (pos := Z.of_nat (length c)) in *.
  destruct (decide (c = [DOT])) as [->|Hn1].
  { rewrite (proj2 T1 eq_refl). eexists _, m. split; [reflexivity|]. split; [|exact H]. unfold pos. simpl length. repeat f_equal; lia. }
  assert (E1 : (pos =? 1) && (schar (first (c ++ rest)) =? DOT) = false) by (apply not_true_iff_false; rewrite T1; exact Hn1).
  rewrite E1.
  assert (Hc1 : exists c1, (if (pos =? 2) && (schar (first (c ++ rest)) =? DOT) then load_char (p + 1) else mret 0) (set_mem m s) =
    Done c1 (set_mem m s) /\ ((pos =? 2) && (schar (first (c ++ rest)) =? DOT) && (c1 =? DOT) = true <-> c = [DOT; DOT])).
  { destruct ((pos =? 2) && _) eqn:E2.
    - destruct c as [|x c]; [destruct (proj1 Hc); reflexivity|]. cbn [app] in S1. destruct (cstr_next _ _ _ _ S1) as [S2 _].
      eexists. split; [exact (cstr_char _ _ _ S2)|]. cbn [andb]. exact (T2 eq_refl).
    - exists 0. split; [reflexivity|]. split; [discriminate|]. intros ->. discriminate E2. }
  destruct Hc1 as (c1 & E3 & Hc1). rewrite (bind_done _ _ _ _ _ E3).
  destruct (decide (c = [DOT; DOT])) as [->|Hn2].
  { rewrite (proj2 Hc1 eq_refl). destruct (layer_back_done m st H ltac:(lia)) as (m' & E4 & H4). fold (r st) in E4.
    rewrite (bind_done _ _ _ _ _ E4). eexists _, m'. split; [reflexivity|]. split; [|exact H4]. unfold pos. simpl length. repeat f_equal; lia. }
  assert (E2 : (pos =? 2) && (schar (first (c ++ rest)) =? DOT) && (c1 =? DOT) = false) by (apply not_true_iff_false; rewrite Hc1; exact Hn2).
  rewrite E2, (to_int_small (pos + 2)), !(wrap_small 64 (pos + 2)), (wrap_small 64 (dstSize - _)), (wrap_small 64 pos) by (unfold is_word, pos, r in *; lia).
  replace (dstSize - r st <? pos + 2) with (dstSize <? Z.of_nat (length (rendered st) + length c) + 2)
    by (unfold r, pos; apply Bool.eq_iff_eq_true; rewrite !Z.ltb_lt; lia).
  destruct (Z.ltb_spec dstSize (Z.of_nat (length (rendered st) + length c) + 2)) as [Hlt|Hge]; [exists None, m; auto|].
  edestruct (fun R f => push_done (R := R) m st c rest p f H Hc Sp Hd) as (m' & E4 & H4); [lia|].
  eexists _, m'. split; [exact E4|]. split; [|exact H4]. unfold r. rewrite rendered_snoc, !length_app. cbn [length].
  rewrite to_int_small, wrap_small by (unfold is_word, pos; lia). unfold pos.
  replace (dst + Z.of_nat (length (rendered st)) + (Z.of_nat (length c) + 1)) with (dst + Z.of_nat (length (rendered st) + S (length c))) by lia.
  do 4 f_equal; lia.
Qed.

(** *** All components *)

(** What is behind a component: the end, or slashes and another component. *)
Lemma behind_part {A B} m st p c rest (k : Z -> C (ctl A B)) (e : ctl A B) :
  holds m st -> cstr s p (c ++ rest) -> off_target p (c ++ rest) -> rest = [] \/ (exists rest', rest = SLASH :: rest') ->
  let p' := p + (Z.of_nat (length c) + 1) in
  let code := (x ← load_char (p' - 1); if x =? 0 then mret e else p ← skip_slashes p'; k p) (set_mem m s) in
  (rest = [] /\ code = Done e (set_mem m s)) \/
  (exists l1 l2, rest = l1 ++ l2 /\ (0 < length l1)%nat /\ first l2 <> SLASH /\ parts (tail rest) = parts l2 /\
     code = k (p + Z.of_nat (length c) + Z.of_nat (length l1)) (set_mem m s)).
Proof.
  intros H Sp Hd Hr p' code. pose proof (source_cstr m p _ (ho_other _ _ H) Sp Hd) as S1. apply cstr_tail in S1.
  unfold code, p'. replace (p + (Z.of_nat (length c) + 1) - 1) with (p + Z.of_nat (length c)) by lia.
  rewrite (bind_done _ _ _ _ _ (cstr_char _ _ _ S1)). destruct Hr as [->|(rest' & ->)]; [left; auto|right].
  change (schar (first (SLASH :: rest')) =? 0) with false. cbv iota. destruct (cstr_next _ _ _ _ S1) as [S2 _].
  destruct (skip_slashes_done _ _ _ S2) as (l1 & l2 & -> & Hl1 & Hl2 & E). exists (SLASH :: l1), l2. csplit; trivial.
  - simpl. lia.
  - simpl. apply parts_slashes, Hl1.
  - replace (p + (Z.of_nat (length c) + 1)) with (p + Z.of_nat (length c) + 1) by lia. rewrite (bind_done _ _ _ _ _ E).
    f_equal. simpl length. lia.
Qed.

Lemma components_done q l :
  cstr s q l -> off_target q l -> first l <> SLASH -> Z.of_nat (length l) < 2 ^ 31 - 2 -> dstSize < 2 ^ 31 ->
  let r := fun st => Z.of_nat (length (rendered st)) in
  exists o m, components dstSize q dst s = Done o (set_mem m s) /\
    let '(st, full) := walk dstSize [] (parts l) in
    holds m st /\ o = if full : bool then inr (dst + r st, r st) else inl (r st).
Proof.
  intros Sq Hd Hf Hl Hsz r. unfold components.
  edestruct (fun body => loop_bounded body
    (fun n '(p, (pt, count, layer)) s' => exists m st l1 l2, l = l1 ++ l2 /\ p = q + Z.of_nat (length l1) /\ n = Z.of_nat (length l2) /\
       first l2 <> SLASH /\ s' = set_mem m s /\ holds m st /\ pt = dst + r st /\ count = r st /\ layer = Z.of_nat (length st) /\
       walk dstSize st (parts l2) = walk dstSize [] (parts l))
    (fun o s' => exists m, s' = set_mem m s /\ let '(st, full) := walk dstSize [] (parts l) in
       holds m st /\ o = if full : bool then inr (dst + r st, r st) else inl (r st))
    (Z.of_nat (length l)) (q, (dst, 0, 0)) s) as (o & s' & E & m & -> & Ho); [| | |eauto].
  - intros n [p [[pt count] layer]] s' (m & st & l1 & l2 & El & -> & -> & Hf2 & -> & H & -> & -> & -> & Ew). split; [lia|].
    pose proof Sq as Sp. rewrite El in Sp. apply cstr_tail in Sp.
    assert (Hd2 : off_target (q + Z.of_nat (length l1)) l2) by (unfold off_target in *; rewrite El, length_app in Hd; lia).
    rewrite (bind_done _ _ _ _ _ (cstr_char _ _ _ (source_cstr m _ _ (ho_other _ _ H) Sp Hd2))).
    destruct (decide (l2 = [])) as [->|Hne].
    { right. eexists _, _. split; [reflexivity|]. exists m. split; [reflexivity|]. rewrite <- Ew. simpl. auto. }
    destruct (part_split l2 Hne Hf2) as (c & rest & E2 & Hc & Hp & Hr & Ep). rewrite Ep in Ew. rewrite E2 in Sp, Hd2, Hp.
    assert (Ht : truth (schar (first l2)) = true).
    { destruct l2 as [|x l2]; [contradiction|]. rewrite E2 in Hne. pose proof (cs_range _ _ _ Sp) as R. rewrite <- E2 in R.
      apply Forall_cons_1 in R as [R _]. apply schar_truth, R. }
    rewrite Ht. destruct (component_done m st c rest _ H Hc Sp Hd2 Hp) as (o & m' & Eo & Ho);
      [rewrite <- E2; rewrite El, length_app in Hl; lia|exact Hsz|]. fold (r st) in Eo. rewrite (bind_done _ _ _ _ _ Eo).
    cbn [walk] in Ew. destruct (add_part dstSize st c) as [st'|].
    + destruct Ho as [-> H']. cbv iota beta. unfold r in *. set (n' := Z.of_nat (length (rendered st'))) in *.
      destruct (behind_part m' st' _ c rest (fun p => mret (Next (p, (dst + n', n', Z.of_nat (length st')))))
        (Break (inr (dst + n', n')) : ctl (Z * (Z * Z * Z)) (Z + Z * Z)) H' Sp Hd2 Hr)
        as [(-> & Ec)|(k1 & k2 & Ek & Hk & Hk2 & Eq & Ec)]; rewrite Ec.
      * right. eexists _, _. split; [reflexivity|]. exists m'. split; [reflexivity|]. rewrite <- Ew. simpl. auto.
      * left. eexists _, _, (Z.of_nat (length k2)). split; [reflexivity|]. rewrite Eq in Ew. split.
        -- exists m', st', (l1 ++ c ++ k1), k2. csplit; trivial; [rewrite El, E2, Ek, <- !app_assoc; reflexivity|rewrite !length_app; lia].
        -- rewrite E2, Ek, !length_app. lia.
    + destruct Ho as [-> ->]. right. eexists _, _. split; [reflexivity|]. exists m. rewrite <- Ew. auto.
  - exists (p_mem s), [], [], l. rewrite set_mem_mem. unfold r. simpl. rewrite !Z.add_0_r. csplit; trivial. apply holds_nil.
  - pose proof (cs_end _ _ _ Sq). pose proof (cs_pos _ _ _ Sq). lia.
Qed.
End Walk.

(** ** Absolute paths *)

Definition starts_scheme (l : list Z) : bool :=
  match l with c0 :: c1 :: c2 :: _ => (c0 =? COLON) && (c1 =? SLASH) && (c2 =? SLASH) | _ => false end.

(** The first colon with two slashes behind it: what is before and what is behind them. *)
Fixpoint scheme_of (l : list Z) : option (list Z * list Z) :=
  match l with
  | [] => None
  | c :: l' => if starts_scheme l then Some ([], drop 2 l') else '(n, rest) ← scheme_of l'; Some (c :: n, rest)
  end.

Definition DEV : list Z := [47; 100; 101; 118; 47].
Definition CWD : list Z := [67; 87; 68].

(** The path [l] as an absolute path, for the working directory [w]. *)
Definition absolute (w l : list Z) : list Z :=
  if first l =? SLASH then l else
  match scheme_of l with
  | Some (n, rest) => DEV ++ n ++ SLASH :: rest
  | None => w ++ (if List.last w 0 =? SLASH then [] else [SLASH]) ++ l
  end.

(** A colon and two slashes. *)
Definition MARK : list Z := [COLON; SLASH; SLASH].

Lemma starts_scheme_spec l : starts_scheme l = true -> exists rest, l = MARK ++ rest.
Proof.
  destruct l as [|c0 [|c1 [|c2 l]]]; try discriminate. simpl. rewrite !andb_true_iff, !Z.eqb_eq. intros [[-> ->] ->]. exists l. reflexivity.
Qed.

(** Where the mark is, and that it is the first one. *)
Lemma scheme_found l n rest : scheme_of l = Some (n, rest) ->
  l = n ++ MARK ++ rest /\ forall k1 k2, n = k1 ++ k2 -> k2 <> [] -> starts_scheme (k2 ++ MARK ++ rest) = false.
Proof.
  revert n. induction l as [|c l IH]; intros n E; [discriminate|]. cbn [scheme_of] in E. destruct (starts_scheme (c :: l)) eqn:Es.
  - injection E as <- <-. apply starts_scheme_spec in Es as (r & Er). injection Er as -> ->. split; [reflexivity|].
    intros k1 k2 Ek Hk. symmetry in Ek. apply app_eq_nil in Ek as [_ ->]. contradiction.
  - destruct (scheme_of l) as [[n' rest']|]; [|discriminate]. injection E as <- <-. destruct (IH n' eq_refl) as [-> Hn].
    split; [reflexivity|]. intros [|x k1] k2 Ek Hk.
    + simpl in Ek. subst k2. exact Es.
    + injection Ek as -> ->. apply (Hn k1 k2); trivial.
Qed.

Lemma scheme_none l : scheme_of l = None -> forall k1 k2, l = k1 ++ k2 -> starts_scheme k2 = false.
Proof.
  induction l as [|c l IH]; intros E k1 k2 Ek.
  - symmetry in Ek. apply app_eq_nil in Ek as [_ ->]. reflexivity.
  - cbn [scheme_of] in E. destruct (starts_scheme (c :: l)) eqn:Es; [discriminate|].
    destruct (scheme_of l) as [[n' rest']|]; [discriminate|]. destruct k1 as [|x k1].
    + simpl in Ek. subst k2. exact Es.
    + injection Ek as -> ->. apply (IH eq_refl k1 k2). reflexivity.
Qed.

(** The test of the code. *)
Lemma scheme_end_done s p c l : cstr s p (c :: l) -> scheme_end p (schar c) s = Done (starts_scheme (c :: l)) s.
Proof.
  intros S0. unfold scheme_end. destruct (cstr_next _ _ _ _ S0) as [S1 _].
  assert (Hs : forall x d, 1 <= x < 256 -> 0 <= d < 128 -> (schar x =? d) = (x =? d)).
  { intros x d Hx Hd. replace d with (schar d) at 1 by (unfold schar, signed; rewrite (proj2 (Z.ltb_lt _ _)); lia). apply schar_inj; lia. }
  assert (R : forall x k q, cstr s q (x :: k) -> 1 <= x < 256) by (intros x k q Sq; pose proof (cs_range _ _ _ Sq) as R; apply Forall_cons_1 in R; apply R).
  rewrite Hs by (unfold COLON; eauto with lia). unfold starts_scheme. destruct (Z.eqb_spec c COLON) as [->|Hc]; [|destruct l as [|? [|? ?]]; reflexivity].
  rewrite (bind_done _ _ _ _ _ (cstr_char _ _ _ S1)). destruct l as [|c1 l]; [reflexivity|]. cbn [first].
  rewrite Hs by (unfold SLASH; eauto with lia). destruct (Z.eqb_spec c1 SLASH) as [->|Hc1]; [|destruct l; reflexivity].
  destruct (cstr_next _ _ _ _ S1) as [S2 _]. replace (p + 2) with (p + 1 + 1) by lia.
  rewrite (bind_done _ _ _ _ _ (cstr_char _ _ _ S2)). destruct l as [|c2 l]; [reflexivity|]. cbn [first].
  rewrite Hs by (unfold SLASH; eauto with lia). reflexivity.
Qed.

Section Abs.
Context (s : process) (environ dev cwd dst dstSize path : Z) (l w : list Z).
Context (Sd : cstr s dev DEV) (Sp : cstr s path l).
Context (Hdst : 0 < dst) (Hend : dst + dstSize < 2 ^ 63) (Hmap : mapped s dst (dst + dstSize)).
Context (Dd : off_target dst dstSize dev DEV) (Dp : off_target dst dstSize path l).


(** A string elsewhere is still there. *)
Lemma off_cstr m k a x : wrote (p_mem s) m dst k -> Z.of_nat (length k) <= dstSize -> cstr s a x -> off_target dst dstSize a x -> cstr (set_mem m s) a x.
Proof. intros Hw Hk Sx Hx. eapply wrote_away; [exact Hw|exact Sx|]. unfold off_target in Hx. lia. Qed.

(** The copies for a path with a scheme. *)
Lemma scheme_copied {R} n rest (f : C R) : l = n ++ MARK ++ rest -> Z.of_nat (length (DEV ++ n ++ SLASH :: rest)) < dstSize ->
  let slen := (path + Z.of_nat (length n)) -o path in
  exists m, (strncpy dst dev 5;; strncpy (dst + 5) path slen;;
    strnzcpy (dst + 5 + slen) (path + Z.of_nat (length n) + 2) (dstSize -o (5 +o slen));; f) s = f (set_mem m s) /\
    wrote (p_mem s) m dst ((DEV ++ n ++ SLASH :: rest) ++ [0]).
Proof.
  intros El Hr. rewrite !length_app in Hr. cbn [length] in Hr. change (Z.of_nat (length DEV + (length n + S (length rest)))) with
    (Z.of_nat (5 + (length n + S (length rest)))) in Hr.
  cbv zeta. rewrite Z.add_simpl_l. rewrite (wrap_small 64 (Z.of_nat (length n))) by (unfold is_word; lia).
  rewrite (wrap_small 64 (5 + _)), (wrap_small 64 (dstSize - _)) by (unfold is_word; lia).
  destruct (strncpy_prefix s dev DEV dst 5 Sd Hdst) as (m1 & E1 & W1);
    [simpl; lia|intros y Hy; apply Hmap; lia|unfold off_target in Dd; lia|].
  rewrite (bind_done _ _ _ _ _ E1). change (take (Z.to_nat 5) DEV) with DEV in W1.
  destruct (strncpy_prefix (set_mem m1 s) path l (dst + 5) (Z.of_nat (length n))) as (m2 & E2 & W2);
    [apply (off_cstr m1 DEV); trivial; simpl; lia|lia|rewrite El, length_app; lia|intros y Hy; apply Hmap; lia|unfold off_target in Dp; lia|].
  rewrite (bind_done _ _ _ _ _ E2). rewrite Nat2Z.id, El, take_app_length in W2.
  pose proof (wrote_trans (p_mem s) m1 m2 dst DEV n W1 W2) as W12.
  assert (Sr : cstr (set_mem m2 s) (path + Z.of_nat (length n) + 2) (SLASH :: rest)).
  { apply (off_cstr m2 (DEV ++ n)); [exact W12|rewrite length_app; simpl; lia| |].
    - pose proof (cstr_tail s path (n ++ [COLON; SLASH]) (SLASH :: rest)) as St. rewrite <- app_assoc in St. rewrite El in Sp. specialize (St Sp).
      rewrite length_app, Nat2Z.inj_add, Z.add_assoc in St. exact St.
    - unfold off_target in *. rewrite El, !length_app in Dp. simpl in *. lia. }
  destruct (strnzcpy_all (set_mem m2 s) _ (SLASH :: rest) (dst + 5 + Z.of_nat (length n)) (dstSize - (5 + Z.of_nat (length n))) Sr) as (m3 & E3 & W3);
    [lia|simpl length; lia|intros y Hy; simpl length in Hy; apply Hmap; lia| |].
  { unfold off_target in Dp. rewrite El, !length_app in Dp. simpl length in *. lia. }
  rewrite (bind_done _ _ _ _ _ E3). exists m3. split; [reflexivity|]. rewrite <- !app_assoc, app_assoc. eapply wrote_trans; [exact W12|].
  rewrite length_app, Nat2Z.inj_add, Z.add_assoc. exact W3.
Qed.

(** The slash between the working directory and the path. *)
Definition separator : list Z := if List.last w 0 =? SLASH then [] else [SLASH].

Lemma separated m1 : w <> [] -> Forall (fun c => 1 <= c < 256) w -> wrote (p_mem s) m1 dst (w ++ [0]) ->
  Z.of_nat (length (w ++ separator ++ l)) < dstSize ->
  let len := Z.of_nat (length w) in
  exists m2, (if len <? dstSize -o 1 then
      c ← load_char (dst +o (len -o 1));
      if negb (c =? SLASH) then
        store8 (dst +o len) SLASH;;
        store8 (dst +o (len +o 1)) 0;;
        mret (len +o 1)
      else mret len
    else mret len) (set_mem m1 s) = Done (Z.of_nat (length (w ++ separator))) (set_mem m2 s) /\
    wrote (p_mem s) m2 dst ((w ++ separator) ++ [0]).
Proof.
  intros Hne Hw W1 Hr len. destruct (exists_last Hne) as (w' & x & Ew). rewrite !length_app in Hr.
  assert (Hlw : length w = S (length w')) by (rewrite Ew, length_app; simpl; lia).
  assert (Hx : byte_at m1 (dst + (len - 1)) = x).
  { unfold len. rewrite Hlw. replace (dst + (Z.of_nat (S (length w')) - 1)) with (dst + Z.of_nat (length w')) by lia.
    apply (proj1 W1). rewrite Ew, <- app_assoc, lookup_app_r, Nat.sub_diag by lia. reflexivity. }
  assert (Hxr : 1 <= x < 256) by (rewrite Ew in Hw; apply Forall_app in Hw as [_ Hw]; apply Forall_cons_1 in Hw; apply Hw).
  assert (Hsep : separator = if x =? SLASH then [] else [SLASH]) by (unfold separator; rewrite Ew, last_last; reflexivity).
  unfold len in *. rewrite (wrap_small 64 (dstSize - 1)), !(wrap_small 64 (_ + 1)), (wrap_small 64 (_ - 1)) by (unfold is_word; lia).
  rewrite !(wrap_small 64 (dst + _)) by (unfold is_word; lia).
  destruct (Z.ltb_spec (Z.of_nat (length w)) (dstSize - 1)) as [Hlt|Hge].
  - rewrite (bind_done _ _ _ _ _ (load_char_done (set_mem m1 s) (dst + (Z.of_nat (length w) - 1)) ltac:(apply Hmap; lia))).
    cbn [p_mem set_mem]. rewrite Hx. change SLASH with (schar SLASH) at 1. rewrite schar_inj by (unfold SLASH; lia).
    destruct (x =? SLASH); rewrite Hsep; cbn [negb].
    + exists m1. rewrite app_nil_r. auto.
    + rewrite (bind_store 1) by (intros y Hy; apply Hmap; lia). rewrite (bind_store 1) by (intros y Hy; apply Hmap; lia).
      cbn [p_mem set_mem]. rewrite !set_mem_set_mem. eexists. split; [unfold mret, C_ret; f_equal; rewrite length_app; simpl; lia|].
      pose proof (wrote_char (dst + Z.of_nat (length w)) [] SLASH m1 m1 SLASH (wrote_nil _ _) eq_refl) as W2. rewrite Z.add_0_r in W2.
      pose proof (wrote_over _ _ _ _ w [0] _ W1 W2 ltac:(simpl; lia)) as W3. pose proof (wrote_char _ _ 0 _ _ 0 W3 eq_refl) as W4.
      rewrite length_app in W4. simpl length in W4. replace (dst + Z.of_nat (length w + 1)) with (dst + (Z.of_nat (length w) + 1)) in W4 by lia.
      exact W4.
  - exists m1. destruct (x =? SLASH); rewrite Hsep in *; [rewrite app_nil_r; auto|simpl length in Hr; lia].
Qed.

Lemma cwd_prepended m1 : w <> [] -> Forall (fun c => 1 <= c < 256) w ->
  getenvto environ dst dstSize cwd s = Done (Z.of_nat (length w)) (set_mem m1 s) -> wrote (p_mem s) m1 dst (w ++ [0]) ->
  Z.of_nat (length (w ++ separator ++ l)) < dstSize ->
  exists m, (n ← getenvto environ dst dstSize cwd;
    let len := wrap64 n in
    len ← (if len <? dstSize -o 1 then
             c ← load_char (dst +o (len -o 1));
             if negb (c =? SLASH) then
               store8 (dst +o len) SLASH;;
               store8 (dst +o (len +o 1)) 0;;
               mret (len +o 1)
             else mret len
           else mret len);
    strnzcpy (dst +o len) path (dstSize -o len);;
    mret dst) s = Done dst (set_mem m s) /\ wrote (p_mem s) m dst ((w ++ separator ++ l) ++ [0]).
Proof.
  intros Hne Hw E1 W1 Hr. rewrite (bind_done _ _ _ _ _ E1). cbv zeta.
  destruct (separated m1 Hne Hw W1 Hr) as (m2 & E2 & W2). rewrite app_assoc, length_app in Hr.
  rewrite (wrap_small 64 (Z.of_nat (length w))) by (rewrite length_app in Hr; unfold is_word; lia). rewrite (bind_done _ _ _ _ _ E2).
  set (k := w ++ separator) in *. rewrite (wrap_small 64 (dst + _)), (wrap_small 64 (dstSize - _)) by (unfold is_word; lia).
  destruct (strnzcpy_all (set_mem m2 s) path l (dst + Z.of_nat (length k)) (dstSize - Z.of_nat (length k))) as (m3 & E3 & W3);
    [|lia|lia|intros y Hy; apply Hmap; lia|unfold off_target in Dp; lia|].
  { apply (off_cstr m2 (k ++ [0])); trivial. rewrite length_app. simpl. lia. }
  rewrite (bind_done _ _ _ _ _ E3). exists m3. split; [reflexivity|]. rewrite (app_assoc w), <- app_assoc. fold k.
  eapply wrote_over; [exact W2|exact W3|rewrite length_app; simpl; lia].
Qed.

(** The working directory is known to the environment, where it is needed. *)
Definition cwd_known : Prop :=
  first l <> SLASH -> scheme_of l = None ->
  cstr s cwd CWD /\ w <> [] /\ exists a ps E, env_at s a ps E /\ mapped s environ (environ + 8) /\ word_at (p_mem s) environ = a /\
    env_get CWD E = Some w /\ (forall p e, p ∈ ps -> cstr s p e -> off_target dst dstSize p e).

Lemma env_get_chars a ps E v : env_at s a ps E -> env_get CWD E = Some v -> Forall (fun c => 1 <= c < 256) v.
Proof.
  intros A Hg. assert (H : exists e, e ∈ E /\ var_of CWD e = Some v).
  { clear -Hg. induction E as [|e E IH]; [discriminate|]. cbn [env_get] in Hg. destruct (var_of CWD e) as [x|] eqn:Ev.
    - injection Hg as ->. exists e. split; [left|exact Ev].
    - destruct (IH Hg) as (e' & He' & Hv). exists e'. split; [right; exact He'|exact Hv]. }
  destruct H as (e & (i & He)%list_elem_of_lookup_1 & [-> _]%var_of_spec).
  destruct (Forall2_lookup_r _ _ _ _ _ (ea_vars _ _ _ _ A) He) as (p & _ & Sp').
  pose proof (cs_range _ _ _ Sp') as R. apply Forall_app in R as [_ R]. apply Forall_cons_1 in R. apply R.
Qed.

(** The search for the scheme. *)
Lemma scheme_path_found n rest : scheme_of l = Some (n, rest) -> Z.of_nat (length (DEV ++ n ++ SLASH :: rest)) < dstSize ->
  exists m, scheme_path dev dst dstSize path s = Done true (set_mem m s) /\ wrote (p_mem s) m dst ((DEV ++ n ++ SLASH :: rest) ++ [0]).
Proof.
  intros Es Hr. destruct (scheme_found l n rest Es) as [El Hn]. unfold scheme_path.
  pose proof (cs_end _ _ _ Sp). pose proof (cs_pos _ _ _ Sp).
  edestruct (fun body => loop_bounded body
    (fun k p s' => s' = s /\ exists k1 k2, n = k1 ++ k2 /\ p = path + Z.of_nat (length k1) /\ k = Z.of_nat (length k2))
    (fun r s' => r = true /\ exists m, s' = set_mem m s /\ wrote (p_mem s) m dst ((DEV ++ n ++ SLASH :: rest) ++ [0]))
    (Z.of_nat (length n)) path s) as (r & s' & E & -> & m & -> & W); [| | |eauto].
  - intros k p s' (-> & k1 & k2 & Ek & -> & ->). split; [lia|]. pose proof Sp as S1. rewrite El, Ek, <- app_assoc in S1. apply cstr_tail in S1.
    destruct k2 as [|x k2].
    + right. rewrite app_nil_r in Ek. subst k1. change ([] ++ MARK ++ rest) with (COLON :: SLASH :: SLASH :: rest) in S1.
      rewrite (bind_done _ _ _ _ _ (cstr_char _ _ _ S1)). cbn [first].
      change (truth (schar COLON)) with true. cbv iota. rewrite (bind_done _ _ _ _ _ (scheme_end_done s _ _ _ S1)).
      change (starts_scheme (COLON :: SLASH :: SLASH :: rest)) with true. cbv iota.
      edestruct (fun R => scheme_copied (R := R) n rest) as (m & E & W); [exact El|exact Hr|]. cbv zeta in E. rewrite E.
      eexists _, _. split; [reflexivity|]. split; [reflexivity|]. exists m. auto.
    + left. cbn [app] in S1. rewrite (bind_done _ _ _ _ _ (cstr_char _ _ _ S1)). cbn [first]. rewrite (proj2 (cstr_next _ _ _ _ S1)).
      rewrite (bind_done _ _ _ _ _ (scheme_end_done s _ _ _ S1)). rewrite (Hn k1 (x :: k2) Ek ltac:(discriminate) : starts_scheme (x :: k2 ++ MARK ++ rest) = false).
      eexists _, s, (Z.of_nat (length k2)). split; [reflexivity|]. split; [|simpl; lia]. split; [reflexivity|].
      exists (k1 ++ [x]), k2. rewrite <- app_assoc, next_pos. auto.
  - split; [reflexivity|]. exists [], n. rewrite Z.add_0_r. auto.
  - rewrite El, length_app in *. lia.
Qed.

Lemma scheme_path_none : scheme_of l = None -> scheme_path dev dst dstSize path s = Done false s.
Proof.
  intros Es. unfold scheme_path.
  use_string_loop (fun l1 : list Z => path + Z.of_nat (length l1)) (fun _ : list Z => True) (fun r => r = false) s path l path Sp;
    [| | | |rewrite E, HQ; reflexivity].
  - apply Z.add_0_r.
  - exact Logic.I.
  - intros _ S2. read_char S2. eauto.
  - intros l1 c l2 E _ S2. right. split; [|exact Logic.I]. read_char S2. rewrite (bind_done _ _ _ _ _ (scheme_end_done s _ _ _ S2)).
    rewrite (scheme_none l Es l1 (c :: l2) E), next_pos. reflexivity.
Qed.

(** [abspath] returns the path itself if it is absolute, and otherwise builds the absolute path. *)
Lemma abspath_done : cwd_known -> Z.of_nat (length (absolute w l)) < dstSize \/ first l = SLASH ->
  if first l =? SLASH then abspath environ dev cwd dst dstSize path s = Done path s
  else exists m, abspath environ dev cwd dst dstSize path s = Done dst (set_mem m s) /\ wrote (p_mem s) m dst (absolute w l ++ [0]).
Proof.
  intros Hk Hroom. unfold abspath. rewrite (bind_done _ _ _ _ _ (cstr_char _ _ _ Sp)).
  assert (Hf : (schar (first l) =? SLASH) = (first l =? SLASH)).
  { destruct l as [|x l']; [reflexivity|]. pose proof (cs_range _ _ _ Sp) as R. apply Forall_cons_1 in R as [R _]. cbn [first].
    change SLASH with (schar SLASH) at 1. apply schar_inj; unfold SLASH; lia. }
  rewrite Hf. unfold absolute in *. destruct (Z.eqb_spec (first l) SLASH) as [|Hns]; [reflexivity|]. cbn [negb].
  destruct Hroom as [Hroom|]; [|contradiction].  destruct (scheme_of l) as [[n rest]|] eqn:Es.
  - destruct (scheme_path_found n rest Es Hroom) as (m & E & W). rewrite (bind_done _ _ _ _ _ E). exists m. auto.
  - rewrite (bind_done _ _ _ _ _ (scheme_path_none Es)). destruct (Hk Hns Es) as (Sc & Hw & a & ps & E & A & Me & Ve & Hg & Dps).
    fold separator in Hroom |- *. pose proof (env_get_chars a ps E w A Hg) as Hwc.
    pose proof (getenvto_done environ s a ps E cwd CWD dst dstSize A Me Ve Sc) as G. rewrite Hg in G.
    destruct G as (m1 & E1 & W1); [reflexivity|exact Hdst|lia|exact Hmap|intros p e Hp Se; specialize (Dps p e Hp Se); unfold off_target in Dps; lia|].
    rewrite !length_app in Hroom. rewrite take_ge in E1, W1 by lia.
    apply (cwd_prepended m1); trivial. rewrite !length_app. lia.
Qed.

(** The absolute path in memory. *)
Lemma abspath_string : cwd_known -> Z.of_nat (length (absolute w l)) < dstSize \/ first l = SLASH ->
  exists p m, abspath environ dev cwd dst dstSize path s = Done p (set_mem m s) /\ cstr (set_mem m s) p (absolute w l) /\
    (p = path /\ m = p_mem s /\ absolute w l = l \/ p = dst /\ Z.of_nat (length (absolute w l)) < dstSize) /\
    (forall y, y < dst \/ dst + dstSize <= y -> byte_at m y = byte_at (p_mem s) y).
Proof.
  intros Hk Hroom. pose proof (abspath_done Hk Hroom) as H. destruct (Z.eqb_spec (first l) SLASH) as [Hs|Hs].
  - exists path, (p_mem s). rewrite set_mem_mem. assert (E : absolute w l = l) by (unfold absolute; rewrite Hs; reflexivity).
    rewrite E. csplit; auto.
  - destruct Hroom as [Hroom|]; [|contradiction]. destruct H as (m & E & W). exists dst, m. csplit; auto.
    + apply wrote_cstr; trivial; [lia|intros y Hy; apply Hmap; lia|]. unfold absolute.
      rewrite (proj2 (Z.eqb_neq _ _) Hs). pose proof (cs_range _ _ _ Sp) as R. destruct (scheme_of l) as [[n rest]|] eqn:Es.
      * destruct (scheme_found l n rest Es) as [El _]. rewrite El in R. apply Forall_app in R as [R1 R]. apply Forall_app in R as [_ R2].
        apply Forall_app. split; [apply Sd|]. apply Forall_app. split; [exact R1|]. constructor; [unfold SLASH; lia|exact R2].
      * destruct (Hk Hs Es) as (_ & _ & a & ps & Ev & A & _ & _ & Hg & _). apply Forall_app. split; [exact (env_get_chars a ps Ev w A Hg)|].
        apply Forall_app. split; [|exact R]. destruct (_ =? _); repeat constructor; unfold SLASH; lia.
    + intros y Hy. apply (proj2 W). rewrite length_app. simpl. lia.
Qed.
End Abs.
