(* ===== verification/PathProps.v ===== *)
(** * Theorems about paths *)

From Stdlib Require Import ZArith Lia Bool.
From stdpp Require Import base list numbers option.
From S2P Require Import Prelude CMem MemOps CString CStringSpec Number CopySpec Env EnvSpec Path PathSpec CStringProps.

(** ** The components of a clean path *)

(** A component that stays. *)
Definition plain (c : list Z) : Prop := is_part c /\ c <> [DOT] /\ c <> [DOT; DOT].

(** The components that are left, if there is room for all. *)
Definition resolve_step (st : list (list Z)) (c : list Z) : list (list Z) :=
  if decide (c = [DOT]) then st else if decide (c = [DOT; DOT]) then removelast st else st ++ [c].

Definition resolve (cs : list (list Z)) : list (list Z) := fold_left resolve_step cs [].

(** The text that [cleanpath] writes. *)
Definition clean_text (st : list (list Z)) (full : bool) : list Z :=
  match st with [] => if full then [SLASH] else [] | _ => rendered st end.

Lemma forall_removelast {A} (P : A -> Prop) (l : list A) : Forall P l -> Forall P (removelast l).
Proof.
  intros H. destruct (decide (l = [])) as [->|Hne]; [constructor|]. destruct (exists_last Hne) as (l' & x & ->).
  rewrite removelast_last. apply Forall_app in H. apply H.
Qed.

Lemma parts_are_parts l : Forall is_part (parts l).
Proof.
  assert (H : forall n l, (length l <= n)%nat -> Forall is_part (parts l)); [|apply (H (length l)); lia].
  clear l. induction n as [|n IH]; intros l Hl.
  - destruct l; [constructor|simpl in Hl; lia].
  - destruct l as [|x l]; [constructor|]. destruct (decide (x = SLASH)) as [->|Hx].
    + change (SLASH :: l) with ([SLASH] ++ l). rewrite parts_slashes by (repeat constructor). apply IH. simpl in Hl. lia.
    + destruct (part_split (x :: l) ltac:(discriminate) Hx) as (c & rest & El & Hc & _ & _ & ->). constructor; [exact Hc|]. apply IH.
      destruct Hc as [Hc _]. apply (f_equal length) in El. rewrite length_app in El. destruct c; [contradiction|].
      destruct rest; simpl in *; lia.
Qed.

(** The components that are walked over stay plain. *)
Lemma walk_plain room cs : Forall is_part cs -> forall st, Forall plain st -> Forall plain (walk room st cs).1.
Proof.
  induction 1 as [|c cs Hc _ IH]; intros st Hst; [exact Hst|]. cbn [walk]. unfold add_part.
  destruct (decide (c = [DOT])); [auto|]. destruct (decide (c = [DOT; DOT])); [apply IH, forall_removelast, Hst|].
  destruct (_ <? _); [exact Hst|]. apply IH, Forall_app. split; [exact Hst|]. constructor; [|constructor]. split; auto.
Qed.

(** With enough room nothing is cut. *)
Lemma rendered_app st st' : rendered (st ++ st') = rendered st ++ rendered st'.
Proof. unfold rendered. rewrite fmap_app, concat_app. reflexivity. Qed.

Lemma rendered_removelast st : (length (rendered (removelast st)) <= length (rendered st))%nat.
Proof.
  destruct (decide (st = [])) as [->|Hne]; [simpl; lia|]. destruct (exists_last Hne) as (st' & x & ->).
  rewrite removelast_last, rendered_app, length_app. lia.
Qed.

Lemma walk_full room cs : forall st, Z.of_nat (length (rendered st) + length (rendered cs)) + 1 <= room ->
  walk room st cs = (fold_left resolve_step cs st, true).
Proof.
  induction cs as [|c cs IH]; intros st Hr; [reflexivity|]. cbn [walk fold_left]. rewrite rendered_cons in Hr. cbn [length] in Hr.
  rewrite length_app in Hr. unfold add_part, resolve_step at 2. destruct (decide (c = [DOT])); [apply IH; lia|].
  destruct (decide (c = [DOT; DOT])); [apply IH; pose proof (rendered_removelast st); lia|].
  rewrite (proj2 (Z.ltb_ge _ _)) by lia. apply IH. rewrite rendered_snoc, length_app. cbn [length]. lia.
Qed.

(** The components of a path are not longer than the path. *)
Lemma rendered_parts l : (length (rendered (parts l)) <= length l + 1)%nat.
Proof.
  assert (H : forall n l, (length l <= n)%nat -> (length (rendered (parts l)) <= length l + 1)%nat); [|apply (H (length l)); lia].
  clear l. induction n as [|n IH]; intros l Hl.
  - destruct l; [simpl; lia|simpl in Hl; lia].
  - destruct l as [|x l]; [simpl; lia|]. destruct (decide (x = SLASH)) as [->|Hx].
    + change (SLASH :: l) with ([SLASH] ++ l). rewrite parts_slashes by (repeat constructor). simpl in *. specialize (IH l). lia.
    + destruct (part_split (x :: l) ltac:(discriminate) Hx) as (c & rest & El & [Hc _] & _ & _ & ->). rewrite rendered_cons. cbn [length].
      rewrite length_app. apply (f_equal length) in El. rewrite length_app in El. destruct c as [|y c]; [contradiction|].
      destruct rest as [|z rest]; cbn [tail length] in *; [simpl; lia|]. specialize (IH rest). lia.
Qed.

(** A clean path is clean: its components are those it was made of, and they stay. *)
Lemma parts_rendered st : Forall is_part st -> parts (rendered st) = st.
Proof.
  induction st as [|c st IH]; intros H; [reflexivity|]. apply Forall_cons_1 in H as [[Hc Hs] H]. rewrite rendered_cons.
  change (SLASH :: c ++ rendered st) with ([SLASH] ++ (c ++ rendered st)). rewrite parts_slashes by (repeat constructor).
  unfold parts. rewrite tokens_cons; [f_equal|exact Hc|..].
  - destruct st as [|d st]; [reflexivity|]. specialize (IH H). rewrite rendered_cons in IH |- *. cbn [tail].
    change (SLASH :: d ++ rendered st) with ([SLASH] ++ (d ++ rendered st)) in IH. rewrite parts_slashes in IH by (repeat constructor). exact IH.
  - exact (no_slash c Hs).
  - destruct st as [|d st]; [auto|right]. rewrite rendered_cons. eauto.
Qed.

Lemma resolve_plain cs : Forall plain cs -> resolve cs = cs.
Proof.
  intros H. unfold resolve. assert (Hs : forall st, fold_left resolve_step cs st = st ++ cs); [|apply (Hs [])].
  induction H as [|c cs (Hc & H1 & H2) _ IH]; intros st; [rewrite app_nil_r; reflexivity|].
  cbn [fold_left]. rewrite IH. unfold resolve_step. rewrite decide_False, decide_False by assumption. rewrite <- app_assoc. reflexivity.
Qed.

Lemma clean_again st full : Forall plain st -> resolve (parts (clean_text st full)) = st.
Proof.
  intros H. destruct st as [|c st]; [destruct full; reflexivity|]. unfold clean_text. rewrite parts_rendered; [apply resolve_plain, H|].
  revert H. apply Forall_impl. intros x [Hx _]. exact Hx.
Qed.

(** ** [cleanpath] *)

Section Clean.
Context (s : process) (environ dev cwd tmp dst dstSize src : Z) (l w : list Z).

(** The strings and arrays that a call needs: where they are, and that they are apart. *)
Record clean_call : Prop := {
  cc_dev : cstr s dev DEV;
  cc_src : cstr s src l;
  cc_dst : 0 < dst /\ 2 <= dstSize < 2 ^ 31 /\ dst + dstSize < 2 ^ 63 /\ mapped s dst (dst + dstSize);
  cc_tmp : 0 < tmp /\ tmp + MAX_PATH_LEN < 2 ^ 63 /\ mapped s tmp (tmp + MAX_PATH_LEN);
  cc_apart : tmp + MAX_PATH_LEN <= dst \/ dst + dstSize <= tmp;
  cc_src_dst : off_target dst dstSize src l;
  cc_src_tmp : off_target tmp MAX_PATH_LEN src l;
  cc_dev_tmp : off_target tmp MAX_PATH_LEN dev DEV;
  cc_cwd : cwd_known s environ cwd tmp MAX_PATH_LEN l w;
  cc_fits : Z.of_nat (length (absolute w l)) < MAX_PATH_LEN \/ first l = SLASH;
  cc_length : Z.of_nat (length l) < 2 ^ 31 - 2
}.

(** The end of [cleanpath]. *)
Lemma finish_done s0 m st full :
  0 < dst -> 2 <= dstSize < 2 ^ 31 -> dst + dstSize < 2 ^ 63 -> mapped s0 dst (dst + dstSize) ->
  Forall (Forall (fun c => 1 <= c < 256)) st -> holds s0 dst dstSize m st ->
  let n := Z.of_nat (length (rendered st)) in
  exists m', (match (if full : bool then inr (dst + n, n) else inl n) : Z + Z * Z with
    | inl count => mret count
    | inr (pathtemp, count) =>
        if (dstSize -o count) <? 2 then mret count else
        '(pathtemp, count) ← (if pathtemp =? dst then store8 pathtemp SLASH;; mret (pathtemp + 1, count +o 1)
                              else mret (pathtemp, count));
        store8 pathtemp 0;;
        mret count
    end) (set_mem m s0) = Done (Z.of_nat (length (clean_text st full))) (set_mem m' s0) /\
    (clean_text st full <> [] -> cstr (set_mem m' s0) dst (clean_text st full)) /\
    (forall y, y < dst \/ dst + dstSize <= y -> byte_at m' y = byte_at (p_mem s0) y).
Proof.
  intros Hd Hs He Hm Hch H n. pose proof (rendered_room s0 dst dstSize ltac:(lia) m st H) as Hr.
  assert (Hc : st <> [] -> cstr (set_mem m s0) dst (rendered st)).
  { intros Hne. pose proof (ho_room _ _ _ _ _ H Hne). split; trivial; try lia.
    - intros y Hy. apply Hm. lia.
    - unfold rendered. clear -Hch. induction Hch as [|c st Hc _ IH]; [constructor|]. constructor; [unfold SLASH; lia|].
      apply Forall_app. split; [exact Hc|exact IH].
    - apply (ho_bytes _ _ _ _ _ H).
    - apply (ho_end _ _ _ _ _ H Hne). }
  assert (Ht : st <> [] -> clean_text st full = rendered st) by (destruct st; [contradiction|reflexivity]).
  pose proof (ho_other _ _ _ _ _ H) as Ho. destruct (decide (st = [])) as [->|Hne].
  - change n with 0. destruct full; [|exists m; csplit; trivial; contradiction].
    rewrite (wrap_small 64 (dstSize - 0)), (proj2 (Z.ltb_ge _ _)), Z.add_0_r, Z.eqb_refl by (unfold is_word; lia).
    unfold mbind at 1, C_bind at 1. rewrite (bind_store 1) by (intros y Hy; apply Hm; lia). cbn [mret C_ret].
    unfold mret, C_ret. rewrite (bind_store 1) by (intros y Hy; apply Hm; lia). cbn [p_mem set_mem]. rewrite !set_mem_set_mem.
    pose proof (wrote_char dst [] SLASH m m SLASH (wrote_nil m dst) eq_refl) as W1. rewrite Z.add_0_r in W1.
    pose proof (wrote_char dst [SLASH] 0 _ _ 0 W1 eq_refl) as W2. cbn [length app Z.of_nat Pos.of_succ_nat] in W2.
    eexists. split; [reflexivity|]. split.
    + intros _. apply (wrote_cstr (set_mem m s0) dst [SLASH]); [exact W2|lia|simpl; lia|intros y Hy; simpl in Hy; apply Hm; lia|repeat constructor; unfold SLASH; lia].
    + intros y Hy. rewrite (proj2 W2) by (simpl; lia). apply Ho, Hy.
  - rewrite (Ht Hne). fold n. destruct full; [|exists m; auto].
    assert (Hn : 0 < n) by (unfold n; destruct st; [contradiction|]; rewrite rendered_cons; simpl; lia).
    rewrite wrap_small by (unfold is_word; lia). destruct (Z.ltb_spec (dstSize - n) 2); [exists m; auto|].
    rewrite (proj2 (Z.eqb_neq (dst + n) dst)) by lia. unfold mbind at 1, C_bind at 1, mret at 1, C_ret at 1.
    rewrite (bind_store 1) by (intros y Hy; apply Hm; lia). eexists. split; [reflexivity|]. split.
    + intros _. apply (cstr_ext (set_mem m s0)); [exact (Hc Hne)|exact (cs_mapped _ _ _ (Hc Hne))|]. intros y Hy. simpl. rewrite byte_put1.
      destruct (Z.eqb_spec y (dst + n)) as [->|]; [|reflexivity]. symmetry. exact (ho_end _ _ _ _ _ H Hne).
    + intros y Hy. rewrite byte_put_other by lia. apply Ho, Hy.
Qed.

(** The characters of the components are those of the path. *)
Lemma parts_chars k : Forall (fun c => 1 <= c < 256) k -> Forall (Forall (fun c => 1 <= c < 256)) (parts k).
Proof.
  unfold parts, tokens. intros H. assert (Hs : forall cur, Forall (fun c => 1 <= c < 256) cur -> Forall (Forall (fun c => 1 <= c < 256)) (tokens_from [SLASH] cur k)); [|apply Hs; constructor].
  induction H as [|c k Hc _ IH]; intros cur Hcur; cbn [tokens_from].
  - destruct cur; repeat constructor; apply Forall_cons_1 in Hcur; apply Hcur.
  - assert (Hk : Forall (fun c => 1 <= c < 256) (cur ++ [c])) by (apply Forall_app; split; [exact Hcur|repeat constructor; lia]).
    destruct (is_in [SLASH] c); [|exact (IH _ Hk)]. destruct cur; [|constructor; [exact Hcur|]]; apply IH; constructor.
Qed.

Lemma walk_chars room cs : Forall (Forall (fun c => 1 <= c < 256)) cs ->
  forall st, Forall (Forall (fun c => 1 <= c < 256)) st -> Forall (Forall (fun c => 1 <= c < 256)) (walk room st cs).1.
Proof.
  induction 1 as [|c cs Hc _ IH]; intros st Hst; [exact Hst|]. cbn [walk]. unfold add_part.
  destruct (decide (c = [DOT])); [auto|]. destruct (decide (c = [DOT; DOT])); [apply IH, forall_removelast, Hst|].
  destruct (_ <? _); [exact Hst|]. apply IH, Forall_app. split; [exact Hst|]. constructor; [exact Hc|constructor].
Qed.

Lemma cleanpath_done : clean_call ->
  exists m, let '(st, full) := walk dstSize [] (parts (absolute w l)) in
    cleanpath environ dev cwd tmp dst dstSize src s = Done (Z.of_nat (length (clean_text st full))) (set_mem m s) /\
    (clean_text st full <> [] -> cstr (set_mem m s) dst (clean_text st full)) /\
    (forall y, y < dst \/ dst + dstSize <= y -> y < tmp \/ tmp + MAX_PATH_LEN <= y -> byte_at m y = byte_at (p_mem s) y).
Proof.
  intros [Sd Ss (D1 & D2 & D3 & D4) (T1 & T2 & T3) Hap Hsd Hst Hdt Hcwd Hfit Hlen]. unfold cleanpath.
  destruct (abspath_string s environ dev cwd tmp MAX_PATH_LEN src l w Sd Ss T1 T2 T3 Hdt Hst Hcwd Hfit) as (p & m0 & E0 & S0 & Hp & O0).
  rewrite (bind_done _ _ _ _ _ E0). set (k := absolute w l) in *. set (s0 := set_mem m0 s) in *.
  assert (Hk : Z.of_nat (length k) < 2 ^ 31 - 2 /\ off_target dst dstSize p k).
  { destruct Hp as [(-> & _ & Ek)|[-> Hl]]; [rewrite Ek; auto|]. unfold off_target, MAX_PATH_LEN in *. lia. }
  destruct Hk as [Hk1 Hk2]. destruct (skip_slashes_done s0 p k S0) as (l1 & l2 & Ek & Hl1 & Hl2 & E1). rewrite (bind_done _ _ _ _ _ E1).
  pose proof S0 as S1. rewrite Ek in S1. apply cstr_tail in S1. rewrite Ek, length_app in Hk1. unfold off_target in Hk2. rewrite Ek, length_app in Hk2.
  destruct (components_done s0 dst dstSize ltac:(lia) ltac:(lia) D3 D4 (p + Z.of_nat (length l1)) l2 S1 ltac:(unfold off_target; lia) Hl2 ltac:(lia) ltac:(lia))
    as (o & m & E2 & Ho). rewrite Ek, (parts_slashes l1 l2 Hl1).
  pose proof (walk_chars dstSize (parts l2) (parts_chars l2 (cs_range _ _ _ S1)) [] ltac:(constructor)) as Hch.
  destruct (walk dstSize [] (parts l2)) as [st full]. destruct Ho as [Hh ->]. rewrite (bind_done _ _ _ _ _ E2).
  destruct (finish_done s0 m st full D1 D2 D3 D4 Hch Hh) as (m' & E3 & C3 & O3). exists m'. split; [exact E3|]. split; [exact C3|].
  intros y Hy1 Hy2. rewrite O3 by exact Hy1. apply O0, Hy2.
Qed.
End Clean.

(** C9: [cleanpath] computes the clean form of a path.  The target has at least 2 bytes.  A path that
    does not start with a slash is made absolute, with its scheme as a device or behind the working
    directory of the environment; then the absolute path must be shorter than the local array,
    and without a scheme CWD must be set and not empty.  Dots are dropped, two dots take the
    component before them away, slashes are merged.  If the absolute path and two more bytes fit into
    the target, the result has exactly these components (the root is a slash), otherwise the components up to the
    first one that does not fit.  The result is the length of that text.  Unless it is 0, because
    nothing fits, the text is a string in the target; in that case nothing is said of the target.
    Only the target and the local array are written, and the text cleaned
    again has the same components. *)
Theorem cleanpath_resolves s environ dev cwd tmp dst dstSize src l w :
  clean_call s environ dev cwd tmp dst dstSize src l w ->
  exists m, let '(st, full) := walk dstSize [] (parts (absolute w l)) in
    cleanpath environ dev cwd tmp dst dstSize src s = Done (Z.of_nat (length (clean_text st full))) (set_mem m s) /\
    (clean_text st full <> [] -> cstr (set_mem m s) dst (clean_text st full)) /\
    (forall y, y < dst \/ dst + dstSize <= y -> y < tmp \/ tmp + MAX_PATH_LEN <= y -> byte_at m y = byte_at (p_mem s) y) /\
    Forall plain st /\ resolve (parts (clean_text st full)) = st /\
    (Z.of_nat (length (absolute w l)) + 2 <= dstSize -> st = resolve (parts (absolute w l)) /\ full = true).
Proof.
  intros H. destruct (cleanpath_done s environ dev cwd tmp dst dstSize src l w H) as (m & Hm). exists m.
  pose proof (walk_plain dstSize _ (parts_are_parts (absolute w l)) [] ltac:(constructor)) as Hp.
  pose proof (walk_full dstSize (parts (absolute w l)) []) as Hf. pose proof (rendered_parts (absolute w l)) as Hr.
  destruct (walk dstSize [] (parts (absolute w l))) as [st full]. cbn [fst] in Hp. destruct Hm as (E & C & O).
  csplit; trivial; [apply clean_again, Hp|intros Hl].
  assert (Ef : (st, full) = (resolve (parts (absolute w l)), true)) by (apply Hf; simpl; lia). injection Ef as -> ->. auto.
Qed.

(** A page with [environ] (an array of one string), the literals, that string (CWD=/h), and the
    path ../a. *)
Definition path_page (path : list Z) : list Z :=
  [8; 16] ++ replicate 6 0 ++ [40; 16] ++ replicate 14 0 ++ CWD ++ [0] ++ DEV ++ replicate 7 0 ++ CWD ++ [EQ; SLASH; 104; 0] ++ path ++ [0].

Definition up_a : list Z := [DOT; DOT; SLASH; 97].

Ltac path_string := unfold up_a, CWD, DEV, EQ, SLASH, DOT; cbn [app]; page_string.

Lemma page_env : env_at (page_process (path_page up_a)) 4104 [4136] [CWD ++ [EQ; SLASH; 104]].
Proof.
  split; [lia|simpl; lia|apply page_mapped; simpl; lia| |reflexivity|constructor; [path_string|constructor]].
  intros [|i] p Hp; [injection Hp as <-; reflexivity|discriminate Hp].
Qed.

Lemma page_cwd : cwd_known (page_process (path_page up_a)) 4096 4120 5000 MAX_PATH_LEN up_a [SLASH; 104].
Proof.
  intros _ _. split; [path_string|]. split; [discriminate|]. exists 4104, [4136], [CWD ++ [EQ; SLASH; 104]].
  split; [exact page_env|]. split; [apply page_mapped; lia|]. split; [reflexivity|]. split; [reflexivity|].
  intros p e ->%list_elem_of_singleton He. left. pose proof (ea_vars _ _ _ _ page_env) as V. inversion_clear V as [|? ? ? ? Hv _].
  rewrite (cstr_unique _ _ _ _ He Hv). reflexivity.
Qed.

Lemma cleanpath_resolves_witness :
  exists m, cleanpath 4096 4124 4120 5000 6000 20 4143 (page_process (path_page up_a)) = Done 2 (set_mem m (page_process (path_page up_a))) /\
    cstr (set_mem m (page_process (path_page up_a))) 6000 [SLASH; 97].
Proof.
  destruct (cleanpath_resolves (page_process (path_page up_a)) 4096 4124 4120 5000 6000 20 4143 up_a [SLASH; 104]) as (m & E & C & _).
  - split; try (unfold off_target, MAX_PATH_LEN; simpl; lia).
    + path_string.
    + path_string.
    + csplit; try lia. apply page_mapped; lia.
    + unfold MAX_PATH_LEN. csplit; try lia. apply page_mapped; lia.
    + exact page_cwd.
  - exists m. split; [exact E|]. apply C. discriminate.
Defined.

(** ** The errors of [abspath] *)

(** Without the variable CWD the error code is taken for a length: the path (here a) is written
    44 bytes before the buffer of 20 bytes, which stays empty. *)
Example abspath_without_cwd :
  let s := page_process ([8; 16] ++ replicate 22 0 ++ CWD ++ [0] ++ DEV ++ [0; 97; 0]) in
  getenvto 4096 5000 20 4120 s = Done (- ENOTFOUND) s /\
  byte_at (p_mem s) <$> [4956; 5000] = [0; 0] /\
  leaves (abspath 4096 4124 4120 5000 20 4130) s [5000 - ENOTFOUND; 5000] = Some (5000, [97; 0]).
Proof. intros s. csplit; vm_compute; reflexivity. Qed.

(** The length of the scheme is not compared with the size of the buffer: for abcdef://g the bytes
    behind a buffer of 8 bytes are written as well. *)
Example abspath_scheme_overruns :
  let s := page_process (path_page [97; 98; 99; 100; 101; 102; COLON; SLASH; SLASH; 103]) in
  byte_at (p_mem s) <$> [5008; 5009; 5010; 5011; 5012] = [0; 0; 0; 0; 0] /\
  leaves (abspath 4096 4124 4120 5000 8 4143) s [5008; 5009; 5010; 5011; 5012] = Some (5000, [100; 101; 102; SLASH; 103]).
Proof. intros s. csplit; vm_compute; reflexivity. Qed.

(** When not even the first component fits, the target is not made a string: for /abc a target of
    3 bytes keeps what it holds. *)
Example cleanpath_unterminated :
  let s := page_process [SLASH; 97; 98; 99; 0; 120; 120; 120] in
  leaves (cleanpath 4120 4120 4120 5000 4101 3 4096) s [4101; 4102; 4103] = Some (0, [120; 120; 120]).
Proof. vm_compute. reflexivity. Qed.
