(* ===== verification/DirName.v ===== *)
(** * [basename] and [dirname]

    The last component of a path and what is before it. *)

From Stdlib Require Import ZArith Lia Bool.
From stdpp Require Import base list numbers option.
From S2P Require Import Prelude CMem MemOps CString CStringSpec Number CopySpec Env EnvSpec Path PathSpec PathProps CStringProps.

(** ** The end of a path *)

Lemma tokens_from_sep ds cur x c y : is_in ds c = true -> tokens_from ds cur (x ++ c :: y) = tokens_from ds cur x ++ tokens ds y.
Proof.
  intros Hc. revert cur. induction x as [|a x IH]; intros cur; simpl.
  - rewrite Hc. destruct cur; reflexivity.
  - destruct (is_in ds a); [destruct cur; simpl; rewrite IH; reflexivity|apply IH].
Qed.

Lemma parts_sep x y : parts (x ++ SLASH :: y) = parts x ++ parts y.
Proof. apply tokens_from_sep. reflexivity. Qed.

Lemma parts_end x sl : Forall (eq SLASH) sl -> parts (x ++ sl) = parts x.
Proof.
  intros H. revert x. induction H as [|c sl <- _ IH]; intros x; [rewrite app_nil_r; reflexivity|].
  rewrite parts_sep. change sl with ([] ++ sl). rewrite IH. simpl. apply app_nil_r.
Qed.

Lemma parts_of_part c : is_part c -> parts c = [c].
Proof.
  intros [Hc Hs]. unfold parts. rewrite <- (app_nil_r c) at 1. rewrite tokens_cons; [reflexivity|exact Hc|exact (no_slash c Hs)|auto].
Qed.

(** The longest end of a list that satisfies [p]. *)
Lemma end_split (p : Z -> bool) l :
  exists l1 l2, l = l1 ++ l2 /\ Forall (fun c => p c = true) l2 /\ (l1 = [] \/ exists k x, l1 = k ++ [x] /\ p x = false).
Proof.
  induction l as [|x l (l1 & l2 & E & H1 & H2)] using rev_ind; [exists [], []; auto|]. destruct (p x) eqn:Ep.
  - exists l1, (l2 ++ [x]). rewrite E, app_assoc. csplit; trivial. apply Forall_app. auto.
  - exists (l ++ [x]), []. rewrite app_nil_r. csplit; trivial. right. eauto.
Qed.

Lemma all_slashes l : Forall (fun c => (SLASH =? c) = true) l -> Forall (eq SLASH) l.
Proof. induction 1 as [|c l H%Z.eqb_eq _ IH]; constructor; trivial. Qed.

(** A list that does not end with a slash, or ends with one. *)
Definition ends (slash : bool) (l : list Z) : Prop := l = [] \/ exists k x, l = k ++ [x] /\ (x =? SLASH) = slash.

(** A path with at least one component: [d] is what is before the last one, [c]. *)
Lemma path_split l st c : parts l = st ++ [c] ->
  exists d s1 s2, l = d ++ s1 ++ c ++ s2 /\ Forall (eq SLASH) s1 /\ Forall (eq SLASH) s2 /\ is_part c /\
    parts d = st /\ ends false d /\ (s1 = [] -> d = []).
Proof.
  intros Hp. destruct (end_split (Z.eqb SLASH) l) as (t & s2 & El & H2 & Ht).
  assert (Hs2 : Forall (eq SLASH) s2) by exact (all_slashes s2 H2).
  rewrite El, (parts_end t s2 Hs2) in Hp.
  destruct (end_split (fun x => negb (SLASH =? x)) t) as (t2 & b & Et & H3 & Ht2).
  assert (Hb : SLASH ∉ b) by (intros Hin; rewrite Forall_forall in H3; specialize (H3 _ (proj1 (list_elem_of_In _ _) Hin)); discriminate).
  assert (Hbn : b <> []).
  { intros ->. rewrite app_nil_r in Et. subst t2. destruct Ht as [->|(k & x & -> & Hx)]; [destruct st; discriminate|].
    destruct Ht2 as [E|(k' & x' & E & Hx')]; [destruct k; discriminate|]. apply app_inj_tail in E as [_ ->]. rewrite Hx in Hx'. discriminate. }
  destruct (end_split (Z.eqb SLASH) t2) as (d & s1 & Et2 & H1 & Hd).
  assert (Hs1 : Forall (eq SLASH) s1) by exact (all_slashes s1 H1).
  assert (Hd1 : s1 = [] -> d = []).
  { intros ->. rewrite app_nil_r in Et2. subst d. destruct Ht2 as [|(k & x & E & Hx)]; [trivial|]. destruct Hd as [|(k' & x' & E' & Hx')]; [trivial|].
    rewrite E in E'. apply app_inj_tail in E' as [_ ->]. rewrite Hx' in Hx. discriminate. }
  assert (Hpb : parts t = parts d ++ [b]).
  { rewrite Et, Et2. destruct (decide (s1 = [])) as [E|E].
    - rewrite (Hd1 E), E. simpl. rewrite <- (app_nil_r b). unfold parts. rewrite tokens_cons; [rewrite app_nil_r; reflexivity|exact Hbn|exact (no_slash b Hb)|auto].
    - destruct (exists_last E) as (s1' & x & Es1). rewrite Es1 in Hs1 |- *. apply Forall_app in Hs1 as [Hs1' Hx]. apply Forall_cons_1 in Hx as [<- _].
      rewrite <- !app_assoc. cbn [app]. rewrite app_assoc, parts_sep, (parts_end d s1' Hs1'). f_equal.
      pose proof (tokens_cons [SLASH] b []) as Hc. rewrite app_nil_r in Hc. apply Hc; [exact Hbn|exact (no_slash b Hb)|auto]. }
  rewrite Hpb in Hp. apply app_inj_tail in Hp as [<- <-]. exists d, s1, s2. csplit; trivial.
  - rewrite El, Et, Et2, <- !app_assoc. reflexivity.
  - split; trivial.
  - destruct Hd as [|(k & x & E & Hx)]; [left; trivial|right]. exists k, x. rewrite Z.eqb_sym. auto.
Qed.

(** ** The loops *)

Lemma cstr_at s a l i c : cstr s a l -> l !! i = Some c -> load_char (a + Z.of_nat i) s = Done (schar c) s /\ 1 <= c < 256.
Proof.
  intros Sa Hi. pose proof (lookup_lt_Some _ _ _ Hi). split.
  - rewrite load_char_done by (apply (cs_mapped _ _ _ Sa); lia). rewrite (cs_chars _ _ _ Sa _ _ Hi). reflexivity.
  - pose proof (cs_range _ _ _ Sa) as R. rewrite Forall_lookup in R. exact (R i c Hi).
Qed.

(** One round of the loops that go back, at the end of [k ++ [x]]. *)
Lemma last_char s a k x rest : cstr s a ((k ++ [x]) ++ rest) ->
  load_char (a + (Z.of_nat (length (k ++ [x])) - 1)) s = Done (schar x) s /\ (schar x =? SLASH) = (x =? SLASH).
Proof.
  intros Sa. assert (Hx : ((k ++ [x]) ++ rest) !! length k = Some x)
    by (rewrite <- app_assoc, lookup_app_r, Nat.sub_diag by lia; reflexivity).
  destruct (cstr_at s a _ _ _ Sa Hx) as [L R]. split; [|apply schar_is; [exact R|unfold SLASH; lia]].
  rewrite <- L. f_equal. rewrite length_app. simpl. lia.
Qed.

Lemma back_while_done s a slash k1 k2 rest :
  cstr s a ((k1 ++ k2) ++ rest) -> Forall (fun c => (c =? SLASH) = slash) k2 -> ends (negb slash) k1 ->
  back_while slash a (Z.of_nat (length (k1 ++ k2))) s = Done (Z.of_nat (length k1)) s.
Proof.
  intros Sa H2 H1. unfold back_while. pose proof (cs_end _ _ _ Sa) as He. pose proof (cs_pos _ _ _ Sa). rewrite !length_app in He.
  edestruct (fun body => loop_bounded body
    (fun n len s' => s' = s /\ exists j r', k2 = j ++ r' /\ len = Z.of_nat (length (k1 ++ j)) /\ n = Z.of_nat (length j))
    (fun len s' => s' = s /\ len = Z.of_nat (length k1)) (Z.of_nat (length k2)) (Z.of_nat (length (k1 ++ k2))) s) as (r & s' & E & -> & ->); [| | |exact E].
  - intros n len s' (-> & j & r' & Ej & -> & ->). split; [lia|]. destruct (decide (k1 ++ j = [])) as [Ek|Ek].
    { right. rewrite Ek. apply app_eq_nil in Ek as [-> ->]. eexists _, s. auto. }
    assert (Hpos : 0 < Z.of_nat (length (k1 ++ j))) by (destruct (k1 ++ j); [contradiction|simpl; lia]). rewrite (proj2 (Z.ltb_lt _ _) Hpos).
    destruct (decide (j = [])) as [->|Hj].
    + right. rewrite app_nil_r in *. destruct H1 as [->|(k & x & -> & Hx)]; [contradiction|]. rewrite <- app_assoc in Sa.
      destruct (last_char s a k x _ Sa) as [L Hs]. rewrite (bind_done _ _ _ _ _ L), Hs, Hx. destruct slash; cbn; eexists _, s; auto.
    + left. destruct (exists_last Hj) as (j' & x & ->). rewrite Ej, <- app_assoc in H2. apply Forall_app in H2 as [_ H2].
      apply Forall_cons_1 in H2 as [Hx _]. rewrite Ej in Sa.
      assert (Sx : cstr s a (((k1 ++ j') ++ [x]) ++ (r' ++ rest))) by (rewrite <- !app_assoc in *; exact Sa). rewrite (app_assoc k1 j').
      destruct (last_char s a (k1 ++ j') x _ Sx) as [L Hs]. rewrite (bind_done _ _ _ _ _ L), Hs, Hx, Bool.eqb_reflx.
      eexists _, s, (Z.of_nat (length j')). split; [reflexivity|]. split; [|rewrite length_app; simpl; lia]. split; [reflexivity|].
      exists j', ([x] ++ r'). csplit; [rewrite app_assoc; exact Ej|rewrite (length_app (k1 ++ j')); simpl; lia|reflexivity].
  - split; [reflexivity|]. exists k2, []. rewrite app_nil_r. auto.
  - lia.
Qed.

(** The slashes at the end of a path are overwritten. *)
Lemma strip_done s a t sl : cstr s a (t ++ sl) -> Forall (eq SLASH) sl -> ends false t ->
  exists m, loop (fun len =>
      if 0 <? len then
        c ← load_char (a + (len - 1));
        if c =? SLASH then store8 (a + (len - 1)) 0;; mret (Next (len - 1)) else mret (Break len)
      else mret (Break len)) (Z.of_nat (length (t ++ sl))) s = Done (Z.of_nat (length t)) (set_mem m s) /\
    filled (fun _ => 0) (p_mem s) (a + Z.of_nat (length t)) (a + Z.of_nat (length (t ++ sl))) m.
Proof.
  intros Sa H2 H1. pose proof (cs_end _ _ _ Sa) as He. pose proof (cs_pos _ _ _ Sa). pose proof (cs_mapped _ _ _ Sa) as Hm. rewrite length_app in *.
  edestruct (fun body => loop_bounded body
    (fun n len s' => exists j r' m, sl = j ++ r' /\ len = Z.of_nat (length (t ++ j)) /\ n = Z.of_nat (length j) /\ s' = set_mem m s /\
       filled (fun _ => 0) (p_mem s) (a + len) (a + Z.of_nat (length t + length sl)) m)
    (fun len s' => exists m, len = Z.of_nat (length t) /\ s' = set_mem m s /\
       filled (fun _ => 0) (p_mem s) (a + len) (a + Z.of_nat (length t + length sl)) m)
    (Z.of_nat (length sl)) (Z.of_nat (length t + length sl)) s) as (r & s' & E & m & -> & -> & Hf); [| | |eauto].
  - intros n len s' (j & r' & m & Ej & -> & -> & -> & Hf). split; [lia|].
    assert (Sj : cstr s a ((t ++ j) ++ r')) by (rewrite <- app_assoc, <- Ej; exact Sa).
    assert (Lm : forall k x, t ++ j = k ++ [x] -> load_char (a + (Z.of_nat (length (t ++ j)) - 1)) (set_mem m s) = Done (schar x) (set_mem m s) /\
      (schar x =? SLASH) = (x =? SLASH)).
    { intros k x Ek. pose proof Sj as S1. rewrite Ek in S1. destruct (last_char s a k x r' S1) as [L Hs]. split; [|exact Hs]. rewrite <- Ek in L.
      assert (Hl : (0 < length (t ++ j))%nat) by (rewrite Ek, length_app; simpl; lia).
      rewrite load_char_done in L |- * by (apply Hm; rewrite length_app in *; apply (f_equal length) in Ej; rewrite length_app in Ej; lia).
      injection L as L. simpl. rewrite (filled_out _ _ _ _ _ _ Hf) by lia. rewrite L. reflexivity. }
    destruct (decide (t ++ j = [])) as [Ek|Ek].
    { right. rewrite Ek in *. apply app_eq_nil in Ek as [-> ->]. eexists _, _. split; [reflexivity|]. exists m. auto. }
    assert (Hpos : 0 < Z.of_nat (length (t ++ j))) by (destruct (t ++ j); [contradiction|simpl; lia]). rewrite (proj2 (Z.ltb_lt _ _) Hpos).
    destruct (decide (j = [])) as [->|Hj].
    + right. rewrite app_nil_r in *. destruct H1 as [->|(k & x & -> & Hx)]; [contradiction|].
      destruct (Lm k x eq_refl) as [L Hs]. rewrite (bind_done _ _ _ _ _ L), Hs, Hx. eexists _, _. split; [reflexivity|]. exists m. auto.
    + left. destruct (exists_last Hj) as (j' & x & ->). rewrite Ej, <- app_assoc in H2. apply Forall_app in H2 as [_ H2]. apply Forall_cons_1 in H2 as [<- _].
      rewrite app_assoc in *. destruct (Lm (t ++ j') SLASH eq_refl) as [L Hs]. rewrite (bind_done _ _ _ _ _ L). change (schar SLASH =? SLASH) with true. cbv iota.
      set (n := Z.of_nat (length (t ++ j'))). assert (En : Z.of_nat (length ((t ++ j') ++ [SLASH])) - 1 = n) by (rewrite length_app; simpl; lia).
      assert (Hn : 0 <= n < Z.of_nat (length t + length sl)).
      { apply (f_equal length) in Ej. rewrite !length_app in Ej. simpl in Ej. unfold n. rewrite length_app. lia. }
      rewrite En. rewrite (bind_store 1) by (intros y Hy; apply Hm; lia).
      eexists _, _, (Z.of_nat (length j')). split; [reflexivity|]. split; [|rewrite length_app; simpl; lia].
      exists j', ([SLASH] ++ r'), (put 1 (a + n) 0 m). csplit; trivial; [rewrite app_assoc; exact Ej|].
      apply (filled_down _ _ _ _ _ 1); [|lia|intros i _; rewrite Z.shiftr_0_l; reflexivity].
      replace (a + n + Z.of_nat 1) with (a + Z.of_nat (length ((t ++ j') ++ [SLASH]))) by lia. exact Hf.
  - exists sl, [], (p_mem s). rewrite app_nil_r, length_app, set_mem_mem. csplit; trivial. apply filled_refl.
  - lia.
Qed.

(** ** The special cases *)

Lemma dot_or_root_done s a c l : cstr s a (c :: l) ->
  exists b, is_dot_or_root a (schar c) s = Done b s /\ (b = true <-> c :: l = [DOT] \/ c :: l = [SLASH]).
Proof.
  intros Sa. unfold is_dot_or_root. pose proof (cs_range _ _ _ Sa) as R. apply Forall_cons_1 in R as [R R'].
  rewrite !schar_is by (unfold DOT, SLASH; lia). destruct (cstr_next _ _ _ _ Sa) as [S1 _].
  destruct ((c =? DOT) || (c =? SLASH)) eqn:Ec.
  - rewrite orb_true_iff, !Z.eqb_eq in Ec. rewrite (bind_done _ _ _ _ _ (cstr_char _ _ _ S1)). eexists. split; [reflexivity|].
    destruct l as [|x l]; cbn [first]; [split; [intros _; destruct Ec as [->| ->]; auto|reflexivity]|].
    apply Forall_cons_1 in R' as [R' _]. rewrite schar_is, (proj2 (Z.eqb_neq x 0)) by lia. split; [discriminate|intros [?|?]; discriminate].
  - exists false. split; [reflexivity|]. rewrite orb_false_iff, !Z.eqb_neq in Ec. split; [discriminate|].
    intros [E|E]; injection E as -> ->; destruct Ec; contradiction.
Qed.

Lemma dotdot_done s a c l : cstr s a (c :: l) ->
  exists b, is_dotdot a (schar c) s = Done b s /\ (b = true <-> c :: l = [DOT; DOT]).
Proof.
  intros Sa. unfold is_dotdot. pose proof (cs_range _ _ _ Sa) as R. apply Forall_cons_1 in R as [R R'].
  rewrite schar_is by (unfold DOT; lia). destruct (cstr_next _ _ _ _ Sa) as [S1 _].
  destruct (Z.eqb_spec c DOT) as [->|H1]; [|exists false; split; [reflexivity|]; split; [discriminate|congruence]].
  rewrite (bind_done _ _ _ _ _ (cstr_char _ _ _ S1)). destruct l as [|x l]; cbn [first].
  { exists false. split; [reflexivity|]. split; discriminate. }
  apply Forall_cons_1 in R' as [Rx R']. rewrite schar_is by (unfold DOT; lia). destruct (cstr_next _ _ _ _ S1) as [S2 _].
  destruct (Z.eqb_spec x DOT) as [->|H2]; [|exists false; split; [reflexivity|]; split; [discriminate|congruence]].
  replace (a + 2) with (a + 1 + 1) by lia. rewrite (bind_done _ _ _ _ _ (cstr_char _ _ _ S2)). eexists. split; [reflexivity|].
  destruct l as [|y l]; cbn [first]; [split; reflexivity|]. apply Forall_cons_1 in R' as [Ry _].
  rewrite schar_is, (proj2 (Z.eqb_neq y 0)) by lia. split; discriminate.
Qed.

(** Both functions: what comes before the loops. *)
Lemma path_start {R} s a l (k1 k2 k3 k4 : C R) : cstr s a l -> l <> [] ->
  (if a =? 0 then k1 else
   c0 ← load_char a;
   if c0 =? 0 then k1 else
   b ← is_dot_or_root a c0;
   if b : bool then k2 else
   b ← is_dotdot a c0;
   if b : bool then k3 else k4) s =
  (if decide (l = [DOT] \/ l = [SLASH]) then k2 else if decide (l = [DOT; DOT]) then k3 else k4) s.
Proof.
  intros Sa Hne. destruct l as [|c l]; [contradiction|]. pose proof (cs_pos _ _ _ Sa). rewrite (proj2 (Z.eqb_neq a 0)) by lia.
  rewrite (bind_done _ _ _ _ _ (cstr_char _ _ _ Sa)). cbn [first]. pose proof (cs_range _ _ _ Sa) as Rg. apply Forall_cons_1 in Rg as [Rg _].
  rewrite schar_is, (proj2 (Z.eqb_neq c 0)) by lia. destruct (dot_or_root_done s a c l Sa) as (b & E & Hb). rewrite (bind_done _ _ _ _ _ E).
  destruct (dotdot_done s a c l Sa) as (b' & E' & Hb'). destruct (decide (_ \/ _)) as [H1|H1].
  - rewrite (proj2 Hb H1). reflexivity.
  - destruct b; [destruct H1; apply Hb; reflexivity|]. rewrite (bind_done _ _ _ _ _ E'). destruct (decide _) as [H2|H2].
    + rewrite (proj2 Hb' H2). reflexivity.
    + destruct b'; [destruct H2; apply Hb'; reflexivity|reflexivity].
Qed.

(** ** [basename] and [dirname] *)

Lemma no_slash_all c : SLASH ∉ c -> Forall (fun x => (x =? SLASH) = false) c.
Proof. intros H. apply Forall_forall. intros x Hx. apply Z.eqb_neq. intros ->. apply H, list_elem_of_In, Hx. Qed.

Lemma slash_all sl : Forall (eq SLASH) sl -> Forall (fun x => (x =? SLASH) = true) sl.
Proof. induction 1 as [|x sl <- _ IH]; constructor; trivial. Qed.

Lemma ends_slash d sl : Forall (eq SLASH) sl -> (sl = [] -> d = []) -> ends true (d ++ sl).
Proof.
  intros H Hd. destruct (decide (sl = [])) as [->|Hne]; [left; rewrite Hd; reflexivity|right].
  destruct (exists_last Hne) as (k & x & ->). apply Forall_app in H as [_ H]. apply Forall_cons_1 in H as [<- _].
  exists (d ++ k), SLASH. rewrite app_assoc. auto.
Qed.

Lemma ends_part d c : is_part c -> ends false (d ++ c).
Proof.
  intros [Hc Hs]. right. destruct (exists_last Hc) as (k & x & ->). exists (d ++ k), x. rewrite app_assoc. split; [reflexivity|].
  apply Z.eqb_neq. intros ->. apply Hs. apply elem_of_app. right. left.
Qed.

Lemma basename_done dot s a l st c : cstr s a l -> parts l = st ++ [c] ->
  exists r m, basename dot a s = Done r (set_mem m s) /\ cstr (set_mem m s) r c /\
    (forall y, y < a \/ a + Z.of_nat (length l) <= y -> byte_at m y = byte_at (p_mem s) y).
Proof.
  intros Sa Hp. assert (Hne : l <> []) by (intros ->; destruct st; discriminate).
  unfold basename. rewrite (path_start s a l _ _ _ _ Sa Hne).
  assert (Hsp : forall x, l = x -> parts x = [x] -> exists r m, (mret a : C Z) s = Done r (set_mem m s) /\ cstr (set_mem m s) r c /\
    (forall y, y < a \/ a + Z.of_nat (length l) <= y -> byte_at m y = byte_at (p_mem s) y)).
  { intros x -> Hx. rewrite Hx in Hp. change [x] with ([] ++ [x]) in Hp. apply app_inj_tail in Hp as [_ <-].
    exists a, (p_mem s). rewrite set_mem_mem. csplit; trivial. }
  destruct (decide _) as [[->| ->]|H1]; [apply (Hsp [DOT]); reflexivity|destruct st; discriminate Hp|].
  destruct (decide _) as [->|H2]; [apply (Hsp [DOT; DOT]); reflexivity|]. clear Hsp.
  destruct (path_split l st c Hp) as (d & s1 & s2 & El & Hs1 & Hs2 & Hc & _ & Hd & Hd1).
  rewrite (bind_done _ _ _ _ _ (strlen_done s a l Sa)). set (t := d ++ s1 ++ c).
  assert (El' : l = t ++ s2) by (rewrite El; unfold t; rewrite <- !app_assoc; reflexivity).
  assert (Het : ends false t) by (unfold t; rewrite app_assoc; apply ends_part, Hc).
  rewrite El' in Sa |- *. destruct (strip_done s a t s2 Sa Hs2 Het) as (m & E & Hf). rewrite (bind_done _ _ _ _ _ E).
  assert (St : cstr (set_mem m s) a t).
  { destruct Sa as [A1 A2 A3 A4 A5 A6]. rewrite length_app in *. split; simpl; try lia.
    - intros y Hy. apply A3. lia.
    - apply Forall_app in A4. apply A4.
    - intros i x Hi. pose proof (lookup_lt_Some _ _ _ Hi). rewrite (filled_out _ _ _ _ _ _ Hf) by lia. apply A5. rewrite lookup_app_l by lia. exact Hi.
    - destruct s2 as [|x s2]; [rewrite (filled_out _ _ _ _ _ _ Hf) by (simpl in *; lia); rewrite <- A6; f_equal; simpl; lia|].
      apply (filled_in _ _ _ _ _ _ Hf). simpl. lia. }
  assert (Et : t = (d ++ s1) ++ c) by (unfold t; apply app_assoc). rewrite Et in St |- *.
  pose proof (back_while_done (set_mem m s) a false (d ++ s1) c []) as Hb. rewrite app_nil_r in Hb.
  rewrite (bind_done _ _ _ _ _ (Hb St (no_slash_all c (proj2 Hc)) (ends_slash d s1 Hs1 Hd1))).
  eexists _, m. split; [reflexivity|]. split; [exact (cstr_tail _ _ _ _ St)|].
  intros y Hy. apply (filled_out _ _ _ _ _ _ Hf). rewrite Et in *. rewrite !length_app in *. lia.
Qed.

Lemma parts_nonempty d : d <> [] -> ends false d -> parts d <> [].
Proof.
  intros Hne [|(k & x & -> & Hx)]; [contradiction|]. unfold parts, tokens. clear Hne.
  enough (H : forall cur, tokens_from [SLASH] cur (k ++ [x]) <> []) by apply H.
  induction k as [|y k IH]; intros cur; cbn [app tokens_from].
  - unfold is_in. cbn [existsb]. rewrite Hx. cbn. destruct cur; discriminate.
  - destruct (is_in [SLASH] y); [destruct cur; [apply IH|discriminate]|apply IH].
Qed.

(** The end of [dirname], with [len] the length of [d]. *)
Lemma cut_dir s a d s1 rest : cstr s a (d ++ s1 ++ rest) -> Forall (eq SLASH) s1 -> rest <> [] -> first rest <> SLASH -> (s1 = [] -> d = []) -> ends false d ->
  let len := Z.of_nat (length d) in let l := d ++ s1 ++ rest in
  exists m t, (c ← load_char (a + len);
      (if c =? SLASH then store8 (a + (if 0 <? len then len else 1)) 0 else store8 a DOT;; store8 (a + 1) 0);;
      mret a) s = Done a (set_mem m s) /\ cstr (set_mem m s) a t /\
    (if decide (parts d = []) then t = [if first l =? SLASH then SLASH else DOT] else parts t = parts d /\ (first t =? SLASH) = (first l =? SLASH)) /\
    (forall y, y < a \/ a + Z.of_nat (length l) < y -> byte_at m y = byte_at (p_mem s) y).
Proof.
  intros Sa Hs1 Hr Hf Hd1 Hd len l. pose proof (cs_mapped _ _ _ Sa) as Hm. pose proof (cs_pos _ _ _ Sa) as Hpos. pose proof (cs_end _ _ _ Sa) as Hend.
  rewrite !length_app in Hm, Hend. assert (Hrl : (0 < length rest)%nat) by (destruct rest; [contradiction|simpl; lia]).
  rewrite (bind_done _ _ _ _ _ (cstr_char _ _ _ (cstr_tail _ _ _ _ Sa))). unfold l, len. destruct s1 as [|x s1].
  - specialize (Hd1 eq_refl). subst d. cbn [app] in *. destruct rest as [|y rest]; [contradiction|]. cbn [first] in *.
    pose proof (cs_range _ _ _ Sa) as R. apply Forall_cons_1 in R as [R _]. rewrite schar_is by (unfold SLASH; lia). rewrite (proj2 (Z.eqb_neq _ _) Hf).
    unfold mbind at 1, C_bind at 1. rewrite (bind_store 1) by (intros z Hz; apply Hm; simpl in *; lia).
    rewrite (store_done 1) by (intros z Hz; apply Hm; simpl in *; lia). cbn [p_mem set_mem]. rewrite set_mem_set_mem.
    pose proof (wrote_char a [] DOT (p_mem s) _ DOT (wrote_nil _ _) eq_refl) as W1. rewrite Z.add_0_r in W1.
    pose proof (wrote_char a [DOT] 0 _ _ 0 W1 eq_refl) as W2. cbn [length app] in W2. change (Z.of_nat 1) with 1 in W2.
    eexists _, [DOT]. split; [reflexivity|]. split; [|split; [reflexivity|]].
    + apply wrote_cstr; [exact W2|exact Hpos|simpl in *; lia|intros z Hz; simpl in Hz; apply Hm; simpl; lia|repeat constructor; unfold DOT; lia].
    + intros z Hz. apply (proj2 W2). simpl in *. lia.
  - apply Forall_cons_1 in Hs1 as [<- Hs1]. cbn [app first] in *. change (schar SLASH =? SLASH) with true. cbv iota. destruct d as [|y d].
    + change (0 <? Z.of_nat (length (@nil Z))) with false. cbv iota. rewrite (bind_store 1) by (intros z Hz; apply Hm; simpl in *; lia).
      eexists _, [SLASH]. split; [reflexivity|]. cbn [app length] in *. csplit; [|reflexivity|intros z Hz; apply byte_put_other; rewrite length_app in *; lia].
      destruct (s1 ++ rest) as [|z k] eqn:Ek; [apply app_eq_nil in Ek as [_ ->]; contradiction|]. apply (cstr_cut s a [SLASH] z k Sa).
    + rewrite (proj2 (Z.ltb_lt 0 _)) by (simpl; lia). rewrite (bind_store 1) by (intros z Hz; apply Hm; simpl in *; lia).
      eexists _, (y :: d). split; [reflexivity|]. split; [exact (cstr_cut s a (y :: d) SLASH (s1 ++ rest) Sa)|]. split.
      * rewrite decide_False by (apply parts_nonempty; [discriminate|exact Hd]). auto.
      * intros z Hz. apply byte_put_other. cbn [app length] in *. rewrite length_app in Hz. simpl in Hz. lia.
Qed.

Lemma dirname_done dot s a l st c : cstr s a l -> parts l = st ++ [c] ->
  exists m t, dirname dot a s = Done a (set_mem m s) /\ cstr (set_mem m s) a t /\
    (if decide (st = []) then t = [if first l =? SLASH then SLASH else DOT] else parts t = st /\ (first t =? SLASH) = (first l =? SLASH)) /\
    (forall y, y < a \/ a + Z.of_nat (length l) < y -> byte_at m y = byte_at (p_mem s) y).
Proof.
  intros Sa Hp. assert (Hne : l <> []) by (intros ->; destruct st; discriminate).
  unfold dirname. rewrite (path_start s a l _ _ _ _ Sa Hne).
  destruct (decide _) as [[->| ->]|H1]; [|destruct st; discriminate Hp|].
  { change (parts [DOT]) with ([] ++ [[DOT]]) in Hp. apply app_inj_tail in Hp as [<- _]. exists (p_mem s), [DOT]. rewrite set_mem_mem. csplit; trivial; reflexivity. }
  destruct (decide _) as [->|H2].
  { change (parts [DOT; DOT]) with ([] ++ [[DOT; DOT]]) in Hp. apply app_inj_tail in Hp as [<- _].
    rewrite (bind_store 1) by (intros y Hy; apply (cs_mapped _ _ _ Sa); simpl; lia). eexists _, [DOT]. split; [reflexivity|].
    split; [apply (cstr_cut s a [DOT] DOT []), Sa|]. split; [reflexivity|]. intros y Hy. simpl in Hy. apply byte_put_other. lia. }
  destruct (path_split l st c Hp) as (d & s1 & s2 & El & Hs1 & Hs2 & Hc & <- & Hd & Hd1).
  rewrite (bind_done _ _ _ _ _ (strlen_done s a l Sa)). rewrite El in Sa |- *.
  assert (L1 : back_while true a (Z.of_nat (length (d ++ s1 ++ c ++ s2))) s = Done (Z.of_nat (length ((d ++ s1) ++ c))) s).
  { replace (d ++ s1 ++ c ++ s2) with (((d ++ s1) ++ c) ++ s2) in * by (rewrite <- !app_assoc; reflexivity).
    apply (back_while_done s a true _ s2 []); [rewrite app_nil_r; exact Sa|apply slash_all, Hs2|apply ends_part, Hc]. }
  assert (L2 : back_while false a (Z.of_nat (length ((d ++ s1) ++ c))) s = Done (Z.of_nat (length (d ++ s1))) s).
  { apply (back_while_done s a false _ c s2); [rewrite <- !app_assoc; exact Sa|apply no_slash_all, Hc|apply ends_slash; trivial]. }
  assert (L3 : back_while true a (Z.of_nat (length (d ++ s1))) s = Done (Z.of_nat (length d)) s).
  { apply (back_while_done s a true _ s1 (c ++ s2)); [rewrite <- app_assoc; exact Sa|apply slash_all, Hs1|exact Hd]. }
  rewrite (bind_done _ _ _ _ _ L1), (bind_done _ _ _ _ _ L2), (bind_done _ _ _ _ _ L3).
  destruct Hc as [Hc Hcs]. apply (cut_dir s a d s1 (c ++ s2)); trivial.
  - destruct c; [contradiction|discriminate].
  - destruct c as [|x c]; [contradiction|]. simpl. intros ->. apply Hcs. left.
Qed.

(** C33: [basename] gives the last component: for a path with the components [st ++ [c]], whatever
    slashes are between, before and behind them, the result is a string with exactly the characters
    of [c], none of which is a slash; nothing outside of the characters of the path is written. *)
Theorem basename_last_component dot s a l st c : cstr s a l -> parts l = st ++ [c] ->
  exists r m, basename dot a s = Done r (set_mem m s) /\ cstr (set_mem m s) r c /\ SLASH ∉ c /\
    (forall y, y < a \/ a + Z.of_nat (length l) <= y -> byte_at m y = byte_at (p_mem s) y).
Proof.
  intros Sa Hp. destruct (basename_done dot s a l st c Sa Hp) as (r & m & E & Sr & D). exists r, m. csplit; trivial.
  destruct (path_split l st c Hp) as (_ & _ & _ & _ & _ & _ & Hc & _). apply Hc.
Qed.

(** The page holds ./ab//. *)
Lemma basename_last_component_witness :
  exists r m, let s := page_process [46; 47; 97; 98; 47; 47; 0] in
    basename 5000 4096 s = Done r (set_mem m s) /\ cstr (set_mem m s) r [97; 98].
Proof.
  destruct (basename_last_component 5000 (page_process [46; 47; 97; 98; 47; 47; 0]) 4096 [46; 47; 97; 98; 47; 47] [[46]] [97; 98])
    as (r & m & B1 & B2 & _).
  - page_string.
  - reflexivity.
  - exists r, m. auto.
Defined.

(** [dirname] gives a string with all components before the last one, which begins with a slash if
    the path does (a slash or a dot, if there are none).  The directory and the base name put together
    with a slash lead to where the path leads. *)
Theorem dirname_basename_joined dot s a l st c : cstr s a l -> parts l = st ++ [c] ->
  exists m t, dirname dot a s = Done a (set_mem m s) /\ cstr (set_mem m s) a t /\
    (if decide (st = []) then t = [if first l =? SLASH then SLASH else DOT] else parts t = st /\ (first t =? SLASH) = (first l =? SLASH)) /\
    (forall y, y < a \/ a + Z.of_nat (length l) < y -> byte_at m y = byte_at (p_mem s) y) /\
    resolve (parts (t ++ SLASH :: c)) = resolve (parts l).
Proof.
  intros Sa Hp. destruct (dirname_done dot s a l st c Sa Hp) as (m & t & E & St & Ht & D). exists m, t. csplit; trivial.
  assert (Hc : parts c = [c]).
  { destruct (path_split l st c Hp) as (_ & _ & _ & _ & _ & _ & Hc & _). exact (parts_of_part c Hc). }
  rewrite parts_sep, Hc, Hp. destruct (decide (st = [])) as [->|_]; [|destruct Ht as [-> _]; reflexivity].
  rewrite Ht. destruct (first l =? SLASH); reflexivity.
Qed.

(** For a path of slashes alone [dirname] gives the root, but [basename] gives the empty string
    if there is more than one. *)
Example basename_slashes :
  let s := page_process [47; 47; 47; 0] in
  (exists s', basename 5000 4096 s = Done 4096 s' /\ load_char 4096 s' = Done 0 s') /\
  (exists s', dirname 5000 4096 s = Done 4096 s' /\ load_char 4096 s' = Done SLASH s' /\ load_char 4097 s' = Done 0 s') /\
  basename 5000 4096 (page_process [47; 0]) = Done 4096 (page_process [47; 0]).
Proof.
  intros s. split; [|split].
  - eexists. split; [vm_compute; reflexivity|]. vm_compute. reflexivity.
  - eexists. split; [vm_compute; reflexivity|]. split; vm_compute; reflexivity.
  - vm_compute. reflexivity.
Qed.
