(* ===== verification/Strftime.v ===== *)
(** * Formatting dates

    [strftime], [asctime] and [ctime] of lib/c/time.  The string literals lie in the static data;
    the function [lit] gives the address of each of them. *)

From Stdlib Require Import ZArith Lia Bool Ascii.
From stdpp Require Import base list strings numbers option.
From S2P Require Import Prelude CMem MemOps CString Number Stdio Printf Time.

(** The code of a character, and the characters of a string. *)
Definition ch (c : ascii) : Z := Z.of_N (N_of_ascii c).
Definition text (s : string) : list Z := ch <$> String.list_ascii_of_string s.

Definition weekDays : list (list Z) :=
  text <$> ["Sunday"; "Monday"; "Tuesday"; "Wednesday"; "Thursday"; "Friday"; "Saturday"].
Definition abrWeekDays : list (list Z) := text <$> ["Sun"; "Mon"; "Tue"; "Wed"; "Thu"; "Fri"; "Sat"].
Definition monthNames : list (list Z) :=
  text <$> ["January"; "February"; "March"; "April"; "May"; "June"; "July"; "August"; "September"; "October"; "November"; "December"].
Definition abrMonthNames : list (list Z) :=
  text <$> ["Jan"; "Feb"; "Mar"; "Apr"; "May"; "Jun"; "Jul"; "Aug"; "Sep"; "Oct"; "Nov"; "Dec"].

Section Strftime.
Context (bprintdblpad : Z -> Z -> bool -> Z -> Z -> Z -> C Z) (lit : list Z -> Z).

(** The string that stands for a directive, or NULL. *)
Definition name_at (names : list (list Z)) (i : Z) : Z :=
  if (0 <=? i) && (i <? Z.of_nat (length names)) then lit (nth (Z.to_nat i) names []) else 0.

Definition string_of (c : Z) (t : tm) : Z :=
  if c =? ch "a" then name_at abrWeekDays (tm_wday t)
  else if c =? ch "A" then name_at weekDays (tm_wday t)
  else if c =? ch "b" then name_at abrMonthNames (tm_mon t)
  else if c =? ch "B" then name_at monthNames (tm_mon t)
  else 0.

(** The number of two digits that stands for a directive, or -1. *)
Definition number_of (c : Z) (t : tm) : Z :=
  if c =? ch "d" then to_int (tm_mday t + 1)
  else if c =? ch "H" then tm_hour t
  else if c =? ch "I" then
    if tm_hour t =? 0 then 12 else if 12 <? tm_hour t then tm_hour t - 12 else tm_hour t
  else if c =? ch "m" then to_int (tm_mon t + 1)
  else if c =? ch "M" then tm_min t
  else if c =? ch "S" then tm_sec t
  else if c =? ch "U" then Z.quot (to_int (to_int (tm_yday t + 7) - tm_wday t)) 7
  else if c =? ch "W" then
    Z.quot (to_int (to_int (tm_yday t + 7) - (if truth (tm_wday t) then to_int (tm_wday t - 1) else 6))) 7
  else -1.

(** [if(snprintf(str,end - str,fmt,x) < n) return 0; str += n] *)
Definition print_field (str end_ n : Z) (fmt : list Z) (x : Z) : C (option Z) :=
  r ← snprintf bprintdblpad str (end_ -o str) (lit fmt) [x];
  mret (if r <? n then None else Some (str + n)).

Section Once.
(** The recursive call. *)
Context (strftime' : Z -> Z -> Z -> tm -> C Z).

(** The third switch. *)
Definition other (str end_ c : Z) (t : tm) : C (option Z) :=
  if (c =? ch "x") || (c =? ch "X") || (c =? ch "c") then
    let cpy := if c =? ch "c" then text "%a %b %d %H:%M:%S %Y" else if c =? ch "x" then text "%m/%d/%y" else text "%H:%M:%S" in
    len ← strftime' str (end_ -o str) (lit cpy) t;
    mret (if len =? 0 then None else Some (str + len))
  else if c =? ch "j" then print_field str end_ 3 (text "%03d") (tm_yday t)
  else if c =? ch "p" then print_field str end_ 2 (text "%s") (lit (text (if tm_hour t <? 12 then "AM" else "PM")))
  else if c =? ch "w" then print_field str end_ 1 (text "%d") (tm_wday t)
  else if c =? ch "y" then print_field str end_ 3 (text "%03d") (tm_year t)
  else if c =? ch "Y" then print_field str end_ 4 (text "%04d") (to_int (tm_year t + 1900))
  else if c =? ch "Z" then mret (Some str)
  else if end_ <=? str + 1 then mret None
  else store8 str c;; mret (Some (str + 1)).

(** A directive with the character [c]: the new [str], or [None] if [strftime] returns 0. *)
Definition expand (str end_ c : Z) (t : tm) : C (option Z) :=
  let cpy := string_of c t in
  if truth cpy then
    len ← strlen cpy;
    if end_ <=? str + len then mret None else
    strcpy str cpy;;
    mret (Some (str + len))
  else
    let number := number_of c t in
    if negb (number =? -1) then print_field str end_ 2 (text "%02d") number
    else other str end_ c t.

(** A round of this loop is one of the inner loop, or the rest of one of the outer loop. *)
Definition strftime_once (start max fmt : Z) (t : tm) : C Z :=
  let end_ := start + max in
  loop (fun '(str, fmt) =>
    c ← load_char fmt;
    let fmt := fmt + 1 in
    if negb (c =? ch "%") then
      if c =? 0 then store8 str 0;; mret (Break (str - start))
      else if end_ <=? str then mret (Break 0)
      else store8 str c;; mret (Next (str + 1, fmt))
    else
      c ← load_char fmt;
      let fmt := fmt + 1 in
      r ← expand str end_ c t;
      match r with
      | None => mret (Break 0)
      | Some str => mret (Next (str, fmt))
      end) (start, fmt).
End Once.

(** The formats of the recursive calls have no directives that lead to further ones. *)
Definition strftime : Z -> Z -> Z -> tm -> C Z :=
  strftime_once (strftime_once (fun _ _ _ _ => bad OutOfFuel)).

Definition MAX_DATE_LEN : Z := 25.

(** [dateStr] is the static buffer. *)
Definition asctime (dateStr : Z) (timeptr : tm) : C Z :=
  strftime dateStr MAX_DATE_LEN (lit (text "%c")) timeptr;;
  mret dateStr.

(** If [gmtime] reads behind its table of months, this is a fault. *)
Definition ctime (w dateStr timer : Z) : C Z :=
  match localtime w timer with
  | Some t => asctime dateStr t
  | None => bad Fault
  end.
End Strftime.
