(* ===== verification/StrftimeSpec.v ===== *)
(** * The text of a date

    What the formats of [strftime] stand for, and that [strftime] writes it. *)

From Stdlib Require Import ZArith Lia Bool Ascii.
From stdpp Require Import base list strings numbers option.
From S2P Require Import Prelude CMem MemOps CString CStringSpec CopySpec Number Stdio Printf PrintfSpec PrintfProps Time Strftime.

(** ** The text of a format *)

(** Numbers with a fixed number of digits. *)
Definition one (n : Z) : list Z := [48 + n].
Fixpoint fixed (k : nat) (n : Z) : list Z :=
  match k with
  | O => []
  | S k' => fixed k' (n / 10) ++ [48 + n mod 10]
  end.
Definition two : Z -> list Z := fixed 2.
Definition three : Z -> list Z := fixed 3.
Definition four : Z -> list Z := fixed 4.

(** The hour on the dial, and the weeks that began before the day, which is [wday] days after
    the first day of its week. *)
Definition hour12 (h : Z) : Z := if h =? 0 then 12 else if 12 <? h then h - 12 else h.
Definition week (yday wday : Z) : Z := (yday + 7 - wday) / 7.

Section Text.
(** The text of the formats that a directive stands for. *)
Context (sub : list Z -> option (list Z)) (t : tm).

Definition dir_text (c : Z) : option (list Z) :=
  if c =? ch "a" then abrWeekDays !! Z.to_nat (tm_wday t)
  else if c =? ch "A" then weekDays !! Z.to_nat (tm_wday t)
  else if c =? ch "b" then abrMonthNames !! Z.to_nat (tm_mon t)
  else if c =? ch "B" then monthNames !! Z.to_nat (tm_mon t)
  else if c =? ch "c" then sub (text "%a %b %d %H:%M:%S %Y")
  else if c =? ch "d" then Some (two (tm_mday t + 1))
  else if c =? ch "H" then Some (two (tm_hour t))
  else if c =? ch "I" then Some (two (hour12 (tm_hour t)))
  else if c =? ch "j" then Some (three (tm_yday t))
  else if c =? ch "m" then Some (two (tm_mon t + 1))
  else if c =? ch "M" then Some (two (tm_min t))
  else if c =? ch "p" then Some (text (if tm_hour t <? 12 then "AM" else "PM"))
  else if c =? ch "S" then Some (two (tm_sec t))
  else if c =? ch "U" then Some (two (week (tm_yday t) (tm_wday t)))
  else if c =? ch "w" then Some (one (tm_wday t))
  else if c =? ch "W" then Some (two (week (tm_yday t) ((tm_wday t + 6) mod 7)))
  else if c =? ch "x" then sub (text "%m/%d/%y")
  else if c =? ch "X" then sub (text "%H:%M:%S")
  else if c =? ch "y" then Some (three (tm_year t))
  else if c =? ch "Y" then Some (four (tm_year t + 1900))
  else if c =? ch "Z" then Some []
  else Some [c].

Fixpoint text_with (fmt : list Z) : option (list Z) :=
  match fmt with
  | [] => Some []
  | c :: fmt' =>
      if c =? ch "%" then
        match fmt' with
        | [] => None
        | d :: fmt'' => x ← dir_text d; y ← text_with fmt''; Some (x ++ y)
        end
      else cons c <$> text_with fmt'
  end.
End Text.

Definition date_text (t : tm) (fmt : list Z) : option (list Z) := text_with (text_with (fun _ => None) t) t fmt.

(** A date whose fields have the sizes that the directives expect. *)
Record date_ok (t : tm) : Prop := {
  do_sec : 0 <= tm_sec t <= 61;
  do_min : 0 <= tm_min t < 60;
  do_hour : 0 <= tm_hour t < 24;
  do_mday : 0 <= tm_mday t < 31;
  do_mon : 0 <= tm_mon t < 12;
  do_year : 0 <= tm_year t < 1000;
  do_wday : 0 <= tm_wday t < 7;
  do_yday : 0 <= tm_yday t < 366
}.

(** ** Numbers that [snprintf] prints *)

Lemma map_wrap8 l : Forall (fun c => 0 <= c < 256) l -> wrap8 <$> l = l.
Proof. induction 1 as [|c l Hc _ IH]; [reflexivity|]. cbn. rewrite IH. f_equal. apply wrap_small. exact Hc. Qed.

Definition zeros (k : Z) : spec := mkspec [Zero] [k] None None ConvD.
Definition bare : spec := mkspec [] [] None None ConvD.

Lemma zeros_ok k : 1 <= k <= 9 -> spec_ok (zeros k).
Proof. intros H. split; cbn; [apply Forall_singleton; lia|right; lia|lia|discriminate]. Qed.

Lemma all_below (P : Z -> bool) k : forallb P (seqZ 0 k) = true -> forall n, 0 <= n < k -> P n = true.
Proof. intros H n Hn. rewrite forallb_forall in H. apply H, list_elem_of_In, elem_of_seqZ. lia. Qed.

Lemma signed_below sp (f : Z -> list Z) k : forallb (fun n => bool_decide (signed_conv sp n = f n)) (seqZ 0 k) = true ->
  forall n, 0 <= n < k -> signed_conv sp n = f n.
Proof. intros H n Hn. apply (bool_decide_unpack _), Is_true_eq_left, (all_below _ k H n Hn). Qed.

Lemma fixed_zero k : fixed k 0 = replicate k 48.
Proof. induction k as [|k IH]; [reflexivity|]. cbn [fixed]. change (0 / 10) with 0. rewrite IH. symmetry. apply replicate_S_end. Qed.

Lemma fixed_length k n : length (fixed k n) = k.
Proof. revert n. induction k as [|k IH]; intros n; [reflexivity|]. cbn [fixed]. rewrite length_app, IH. simpl. lia. Qed.

Lemma fixed_bytes k n : Forall (fun c => 0 <= c < 256) (fixed k n).
Proof.
  revert n. induction k as [|k IH]; intros n; [constructor|]. cbn [fixed]. apply Forall_app. split; [apply IH|].
  apply Forall_singleton. pose proof (Z.mod_pos_bound n 10 ltac:(lia)). lia.
Qed.

(** The digits of a number, filled up with zeros. *)
Lemma fixed_digits k n : 0 <= n < 10 ^ Z.of_nat k -> (0 < k)%nat ->
  replicate (k - length (digits_of k 10 n)) 48 ++ (Z.add 48 <$> digits_of k 10 n) = fixed k n.
Proof.
  revert n. induction k as [|k IH]; intros n Hn Hk; [lia|]. cbn [digits_of fixed]. destruct (Z.leb_spec 10 n) as [H|H].
  - rewrite Nat2Z.inj_succ, Z.pow_succ_r in Hn by lia.
    assert (Hd : 0 < n / 10 < 10 ^ Z.of_nat k) by (split; [apply Z.div_str_pos; lia|apply Z.div_lt_upper_bound; lia]).
    assert (Hk' : (0 < k)%nat) by (destruct k; [simpl in Hd; lia|lia]).
    rewrite <- (IH (n / 10)) by lia. rewrite fmap_app, length_app, app_assoc. cbn [length fmap list_fmap].
    replace (S k - (length (digits_of k 10 (n / 10)) + 1))%nat with (k - length (digits_of k 10 (n / 10)))%nat by lia. reflexivity.
  - rewrite (Z.div_small n 10), fixed_zero by lia. cbn [length fmap list_fmap app]. f_equal. f_equal. lia.
Qed.

Lemma prints_fixed k n : 0 <= n < 10 ^ Z.of_nat k -> (0 < k <= 9)%nat -> signed_conv (zeros (Z.of_nat k)) n = fixed k n.
Proof.
  intros Hn Hk. pose proof (Z.pow_le_mono_r 10 (Z.of_nat k) 9 ltac:(lia) ltac:(lia)). pose proof (digits_length k 10 n) as Hl.
  unfold signed_conv, signed_field. change (is_long (zeros (Z.of_nat k))) with false. change (is_short (zeros (Z.of_nat k))) with false. cbv iota zeta.
  change (spec_flags (zeros (Z.of_nat k))) with FFL_PADZEROS. rewrite to_int_small by lia. unfold signed_text, sign_prefix, padding.
  change (has FFL_PADZEROS FFL_PADRIGHT) with false. change (has FFL_PADZEROS FFL_FORCESIGN) with false.
  change (has FFL_PADZEROS FFL_SPACESIGN) with false. change (pad_char FFL_PADZEROS) with 48.
  rewrite (proj2 (Z.eqb_neq n (- 2 ^ 31))), (proj2 (Z.ltb_ge n 0)) by lia. rewrite <- (digits_enough k 10 n) by lia.
  replace (if 0 <? n then [] else []) with (@nil Z) by (destruct (0 <? n); reflexivity). cbn [app]. rewrite length_fmap.
  rewrite <- (fixed_digits k n) by lia. f_equal. f_equal. unfold value, zeros. cbn. lia.
Qed.

Lemma prints_digit n : 0 <= n < 10 -> signed_conv bare n = one n.
Proof. apply signed_below. vm_compute. reflexivity. Qed.

(** ** The memory of a call *)

(** A closed goal that is decided by computation. *)
Ltac computed := apply (bool_decide_unpack _); vm_compute; exact Logic.I.

Section Calls.
Context (bprintdblpad : Z -> Z -> bool -> Z -> Z -> Z -> C Z) (lit : list Z -> Z).

(** The formats of the recursive calls, and all literals. *)
Definition nested : list (list Z) := text <$> ["%a %b %d %H:%M:%S %Y"; "%m/%d/%y"; "%H:%M:%S"].

Definition literals : list (list Z) :=
  weekDays ++ abrWeekDays ++ monthNames ++ abrMonthNames ++
  nested ++ (text <$> ["%02d"; "%03d"; "%04d"; "%d"; "%s"; "AM"; "PM"; "%c"]).

(** A string that lies outside of the bytes from [lo] to [hi]. *)
Definition outside (s : process) (lo hi a : Z) (l : list Z) : Prop :=
  cstr s a l /\ (a + Z.of_nat (length l) < lo \/ hi <= a).

(** The buffer from [str] to [hi] and the literals. *)
Record ready (s : process) (str hi : Z) : Prop := {
  rd_io : io_files (p_io s) !! sbuf = None;
  rd_pos : 0 < str;
  rd_end : hi < 2 ^ 63;
  rd_mapped : mapped s str hi;
  rd_lits l : l ∈ literals -> outside s str hi (lit l) l
}.

(** Writing to the start of the buffer. *)
Lemma outside_wrote s lo hi a l m k : outside s lo hi a l -> wrote (p_mem s) m lo k -> lo + Z.of_nat (length k) <= hi ->
  forall lo', lo <= lo' -> outside (set_mem m s) lo' hi a l.
Proof. intros [Sa Ho] W Hk lo' Hlo. split; [apply (wrote_away s a l m lo k W Sa); lia|lia]. Qed.

Lemma ready_wrote s str hi m k : ready s str hi -> wrote (p_mem s) m str k -> str + Z.of_nat (length k) <= hi ->
  forall str', str <= str' -> ready (set_mem m s) str' hi.
Proof.
  intros [R1 R2 R3 R4 R5] W Hk str' Hs. split; trivial; try lia; [intros y Hy; apply R4; lia|].
  intros l Hl. exact (outside_wrote s str hi _ _ m k (R5 l Hl) W Hk str' Hs).
Qed.

(** A field that [snprintf] prints. *)
Lemma field_done str_at s str hi n sp x T :
  ready s str hi -> spec_ok sp -> sp_conv sp <> ConvPercent -> 37 :: render_spec sp ∈ literals -> printable str_at s str hi sp x ->
  conv_text str_at sp x = T -> Z.of_nat (length T) = n -> 0 < n < 2 ^ 31 -> str + n < hi -> Forall (fun c => 0 <= c < 256) T ->
  exists m, print_field bprintdblpad lit str hi n (37 :: render_spec sp) x s = Done (Some (str + n)) (set_mem m s) /\
    wrote (p_mem s) m str (T ++ [0]).
Proof.
  intros R Hok Hpc Hl Hp HT Hn Hn0 Hroom Hc. destruct R as [R1 R2 R3 R4 R5]. destruct (R5 _ Hl) as [Sf Hf].
  assert (Ho : output str_at [Conv sp] [x] = Some T).
  { cbn [output]. rewrite HT. destruct (sp_conv sp); cbn; rewrite ?app_nil_r; trivial. contradiction. }
  assert (Er : render [Conv sp] = 37 :: render_spec sp) by (cbn; rewrite app_nil_r; reflexivity).
  unfold print_field. rewrite (wrap_small 64 (hi - str)) by (unfold is_word; lia).
  destruct (snprintf_text bprintdblpad str_at s str (hi - str) (lit (37 :: render_spec sp)) [Conv sp] [x] T) as (m & E & W);
    rewrite ?Er; replace (str + (hi - str)) with hi by lia; trivial; try lia.
  - apply Forall_singleton, Hok.
  - cbn [args_sat]. destruct (sp_conv sp); auto.
  - rewrite (bind_done _ _ _ _ _ E), (proj2 (Z.leb_le _ _)) by lia. rewrite take_ge in W by lia. rewrite map_wrap8 in W by exact Hc.
    exists m. split; [|exact W]. rewrite Hn, (proj2 (Z.ltb_ge _ _)) by lia. reflexivity.
Qed.

(** ** Directives *)

(** What a directive does: it writes [T], and perhaps a zero behind it. *)
Definition expands (c : C (option Z)) (s : process) (str : Z) (T : list Z) : Prop :=
  exists m y, c s = Done (Some (str + Z.of_nat (length T))) (set_mem m s) /\ wrote (p_mem s) m str (T ++ y) /\
    (length y <= 1)%nat /\ (T = [] -> y = []).

Lemma expands_field str_at s str hi sp x T k :
  ready s str hi -> spec_ok sp -> sp_conv sp <> ConvPercent -> 37 :: render_spec sp ∈ literals -> printable str_at s str hi sp x ->
  conv_text str_at sp x = T -> length T = S k -> Z.of_nat (length T) < 2 ^ 31 -> str + Z.of_nat (length T) < hi -> Forall (fun c => 0 <= c < 256) T ->
  expands (print_field bprintdblpad lit str hi (Z.of_nat (S k)) (37 :: render_spec sp) x) s str T.
Proof.
  intros R H1 H2 H3 H4 H5 H6 HI H7 H8. destruct (field_done str_at s str hi (Z.of_nat (S k)) sp x T) as (m & E & W); trivial; try lia.
  exists m, [0]. rewrite H6. csplit; trivial. intros ->. discriminate.
Qed.

(** Numbers. *)
Lemma expands_number s str hi k n : ready s str hi -> 37 :: render_spec (zeros (Z.of_nat (S k))) ∈ literals -> (k < 9)%nat ->
  0 <= n < 10 ^ Z.of_nat (S k) -> str + Z.of_nat (length (fixed (S k) n)) < hi ->
  expands (print_field bprintdblpad lit str hi (Z.of_nat (S k)) (37 :: render_spec (zeros (Z.of_nat (S k)))) n) s str (fixed (S k) n).
Proof.
  intros R Hl Hk Hn Hr. apply (expands_field (fun _ => []) s str hi (zeros (Z.of_nat (S k))) n (fixed (S k) n) k); trivial.
  - apply zeros_ok. lia.
  - discriminate.
  - discriminate 1.
  - apply prints_fixed; [exact Hn|lia].
  - apply fixed_length.
  - rewrite fixed_length. lia.
  - apply fixed_bytes.
Qed.

Lemma expands_digit s str hi n : ready s str hi -> 0 <= n < 10 -> str + 1 < hi ->
  expands (print_field bprintdblpad lit str hi 1 (text "%d") n) s str (one n).
Proof.
  intros R Hn Hr. apply (expands_field (fun _ => []) s str hi bare n (one n) 0); trivial.
  - split; cbn; [constructor|auto|lia|discriminate].
  - discriminate.
  - computed.
  - discriminate 1.
  - apply prints_digit, Hn.
  - reflexivity.
  - repeat constructor; lia.
Qed.

(** A string argument. *)
Lemma expands_string s str hi n k : ready s str hi -> n ∈ literals -> length n = S k -> (k < 100)%nat -> Forall (fun c => 1 <= c < 128) n ->
  str + Z.of_nat (length n) < hi -> expands (print_field bprintdblpad lit str hi (Z.of_nat (S k)) (text "%s") (lit n)) s str n.
Proof.
  intros R Hl Hk Hk2 Hc Hr. destruct (rd_lits _ _ _ R n Hl) as [Sn Ho]. pose proof (cs_pos _ _ _ Sn). pose proof (cs_end _ _ _ Sn).
  assert (Ew : wrap64 (lit n) = lit n) by (apply wrap_small; unfold is_word; lia). pose proof (rd_end _ _ _ R).
  apply (expands_field (fun _ => n) s str hi (mkspec [] [] None None ConvS) (lit n) n k); trivial.
  - split; cbn; [constructor|auto|lia|discriminate].
  - discriminate.
  - computed.
  - intros _. rewrite Ew. split; [right; split; [lia|auto]|]. lia.
  - unfold conv_text. cbn [sp_conv sp_width]. rewrite Ew. unfold string_text. rewrite (proj2 (Z.eqb_neq _ _)) by lia. cbn [sp_prec].
    assert (Es : schar <$> n = n).
    { clear -Hc. induction Hc as [|c n Hc _ IH]; [reflexivity|]. cbn. rewrite IH. f_equal. unfold schar, signed. rewrite (proj2 (Z.ltb_lt _ _)); lia. }
    rewrite Es. unfold string_field, padding. change (value []) with 0. replace (Z.to_nat (0 - _)) with 0%nat by lia. destruct (has _ _); cbn; rewrite ?app_nil_r; reflexivity.
  - lia.
  - revert Hc. apply Forall_impl. lia.
Qed.

(** The string of a directive is copied. *)
Lemma expands_copy s str hi n : ready s str hi -> n ∈ literals -> n <> [] -> str + Z.of_nat (length n) < hi ->
  expands (len ← strlen (lit n);
    if hi <=? str + len then mret None else
    strcpy str (lit n);;
    mret (Some (str + len))) s str n.
Proof.
  intros R Hl Hn Hr. destruct (rd_lits _ _ _ R n Hl) as [Sn Ho]. destruct R as [_ R2 R3 R4 _].
  destruct (strcpy_wrote s (lit n) n str Sn) as (m & E & W); try lia; [intros y Hy; apply R4; lia|].
  exists m, [0]. rewrite (bind_done _ _ _ _ _ (strlen_done s (lit n) n Sn)), (proj2 (Z.leb_gt _ _)) by lia.
  rewrite (bind_done _ _ _ _ _ E). csplit; trivial. contradiction.
Qed.

Lemma expands_char s str hi c : ready s str hi -> 1 <= c < 256 -> str + 1 < hi ->
  expands (if hi <=? str + 1 then mret None else store8 str (schar c);; mret (Some (str + 1))) s str [c].
Proof.
  intros R Hc Hr. rewrite (proj2 (Z.leb_gt _ _)) by lia. pose proof (rd_mapped _ _ _ R) as Hm.
  pose proof (wrote_char str [] (schar c) (p_mem s) _ c (wrote_nil _ _) (schar_byte c ltac:(lia))) as W. rewrite Z.add_0_r in W.
  eexists _, []. rewrite (bind_store 1) by (intros y Hy; apply Hm; lia). split; [reflexivity|]. split; [exact W|]. split; [simpl; lia|trivial].
Qed.

(** A function that writes the text of a date. *)
Definition writes_date (f : Z -> Z -> Z -> tm -> C Z) (sub : tm -> list Z -> option (list Z)) : Prop :=
  forall s str max fmt l t T, date_ok t -> ready s str (str + max) -> outside s str (str + max) fmt l ->
    sub t l = Some T -> Z.of_nat (length T) < max ->
    exists m, f str max fmt t s = Done (Z.of_nat (length T)) (set_mem m s) /\ wrote (p_mem s) m str (T ++ [0]).

Section Once.
Context (strftime' : Z -> Z -> Z -> tm -> C Z) (sub : tm -> list Z -> option (list Z)) (Hsub : writes_date strftime' sub).
Context (t : tm) (Ht : date_ok t) (Hne : forall f, f ∈ nested -> sub t f <> Some []).

Lemma expands_sub s str hi f T : ready s str hi -> f ∈ nested -> sub t f = Some T -> str + Z.of_nat (length T) < hi ->
  expands (len ← strftime' str (hi -o str) (lit f) t; mret (if len =? 0 then None else Some (str + len))) s str T.
Proof.
  intros R Hf HT Hr. assert (Hl : f ∈ literals) by (unfold literals; rewrite !elem_of_app; tauto).
  pose proof (rd_end _ _ _ R). pose proof (rd_pos _ _ _ R). rewrite (wrap_small 64 (hi - str)) by (unfold is_word; lia).
  replace hi with (str + (hi - str)) in R by lia.
  destruct (Hsub s str (hi - str) (lit f) f t T Ht R (rd_lits _ _ _ R f Hl) HT ltac:(lia)) as (m & E & W).
  exists m, [0]. rewrite (bind_done _ _ _ _ _ E).
  assert (Hn : T <> []) by (intros ->; exact (Hne f Hf HT)). rewrite (proj2 (Z.eqb_neq _ _)) by (destruct T; [contradiction|simpl; lia]).
  csplit; trivial. contradiction.
Qed.

(** The tests are the same for a byte and for it as a [char]. *)
Ltac same_tests H := repeat (rewrite schar_is by (exact H || (split; vm_compute; congruence))).

Section Directive.
Context (s : process) (str hi c : Z) (R : ready s str hi) (Hc : 1 <= c < 256).

Lemma name_at_done names i n : names !! Z.to_nat i = Some n -> 0 <= i -> name_at lit names i = lit n.
Proof.
  intros Hn Hi. pose proof (lookup_lt_Some _ _ _ Hn). unfold name_at. rewrite (proj2 (Z.leb_le _ _)), (proj2 (Z.ltb_lt _ _)) by lia.
  cbn [andb]. rewrite (nth_lookup_Some _ _ _ _ Hn). reflexivity.
Qed.

Lemma string_char : string_of lit (schar c) t = string_of lit c t.
Proof. unfold string_of. same_tests Hc. reflexivity. Qed.

Lemma number_char : number_of (schar c) t = number_of c t.
Proof. unfold number_of. same_tests Hc. reflexivity. Qed.

Lemma expand_name n : string_of lit c t = lit n -> n ∈ literals -> n <> [] -> str + Z.of_nat (length n) < hi ->
  expands (expand bprintdblpad lit strftime' str hi (schar c) t) s str n.
Proof.
  intros E Hl Hn Hr. unfold expand. rewrite string_char, E. destruct (rd_lits _ _ _ R n Hl) as [Sn _].
  assert (Hp : truth (lit n) = true) by (apply negb_true_iff, Z.eqb_neq; pose proof (cs_pos _ _ _ Sn); lia).
  rewrite Hp. apply expands_copy; trivial.
Qed.

Lemma expand_number n : string_of lit c t = 0 -> number_of c t = n -> 0 <= n < 100 -> str + 2 < hi ->
  expands (expand bprintdblpad lit strftime' str hi (schar c) t) s str (two n).
Proof.
  intros E1 E2 Hn Hr. unfold expand. rewrite string_char, number_char, E1, E2. change (truth 0) with false. cbv iota.
  rewrite (proj2 (Z.eqb_neq _ _)) by lia. apply (expands_number s str hi 1 n R); [computed|lia|exact Hn|exact Hr].
Qed.

Lemma expand_other T : string_of lit c t = 0 -> number_of c t = -1 ->
  expands (other bprintdblpad lit strftime' str hi (schar c) t) s str T ->
  expands (expand bprintdblpad lit strftime' str hi (schar c) t) s str T.
Proof. intros E1 E2 H. unfold expand. rewrite string_char, number_char, E1, E2. exact H. Qed.
End Directive.

Lemma literals_nonempty n : n ∈ literals -> n <> [].
Proof.
  assert (H : forallb (fun n => negb (bool_decide (n = []))) literals = true) by (vm_compute; reflexivity).
  intros Hn ->. rewrite forallb_forall in H. specialize (H [] (proj1 (list_elem_of_In _ _) Hn)). discriminate.
Qed.

(** A directive with a name from a table. *)
Lemma expand_named s str hi c names i T : ready s str hi -> 1 <= c < 256 -> string_of lit c t = name_at lit names i ->
  (forall n, n ∈ names -> n ∈ literals) -> 0 <= i -> names !! Z.to_nat i = Some T -> str + Z.of_nat (length T) < hi ->
  expands (expand bprintdblpad lit strftime' str hi (schar c) t) s str T.
Proof.
  intros R Hc E Hl Hi HT Hr. pose proof (Hl T (list_elem_of_lookup_2 _ _ _ HT)) as HT'.
  apply (expand_name s str hi c R Hc T); [rewrite E; apply name_at_done; trivial|exact HT'|apply literals_nonempty, HT'|exact Hr].
Qed.

Ltac of_table := intros n Hn; unfold literals; rewrite !elem_of_app; tauto.
Ltac number_case R Hc e :=
  match goal with HT : Some _ = Some _ |- _ => injection HT as <- end;
  apply (expand_number _ _ _ _ R Hc _ eq_refl e); [|simpl in *; lia].

Lemma weeks : number_of (ch "U") t = week (tm_yday t) (tm_wday t) /\ number_of (ch "W") t = week (tm_yday t) ((tm_wday t + 6) mod 7) /\
  forall w, 0 <= w < 7 -> 0 <= week (tm_yday t) w < 100.
Proof.
  destruct Ht as [_ _ _ _ _ _ H7 H8]. split; [|split].
  - change (number_of (ch "U") t) with (Z.quot (to_int (to_int (tm_yday t + 7) - tm_wday t)) 7).
    rewrite (to_int_small (tm_yday t + 7)), to_int_small by lia. apply Z.quot_div_nonneg; lia.
  - change (number_of (ch "W") t) with (Z.quot (to_int (to_int (tm_yday t + 7) - (if truth (tm_wday t) then to_int (tm_wday t - 1) else 6))) 7).
    assert (E : (if truth (tm_wday t) then to_int (tm_wday t - 1) else 6) = (tm_wday t + 6) mod 7).
    { unfold truth. destruct (Z.eqb_spec (tm_wday t) 0) as [->|Hw]; [reflexivity|]. cbn [negb]. rewrite to_int_small by lia.
      apply (Z.mod_unique _ _ 1); lia. }
    pose proof (Z.mod_pos_bound (tm_wday t + 6) 7 ltac:(lia)). rewrite E, (to_int_small (tm_yday t + 7)), to_int_small by lia. apply Z.quot_div_nonneg; lia.
  - intros w Hw. unfold week. Z.div_mod_to_equations. lia.
Qed.

Lemma expand_done s str hi c T : ready s str hi -> 1 <= c < 256 -> dir_text (sub t) t c = Some T -> str + Z.of_nat (length T) < hi ->
  expands (expand bprintdblpad lit strftime' str hi (schar c) t) s str T.
Proof.
  intros R Hc HT Hr. destruct weeks as (HU & HW & Hw). destruct Ht as [H1 H2 H3 H4 H5 H6 H7 H8]. unfold dir_text in HT.
  pose proof (to_int_small (tm_mday t + 1) ltac:(lia)) as Hd. pose proof (to_int_small (tm_mon t + 1) ltac:(lia)) as Hm.
  destruct (Z.eqb_spec c (ch "a")) as [->|N1]; [apply (expand_named _ _ _ _ abrWeekDays (tm_wday t)); trivial; [of_table|lia]|].
  destruct (Z.eqb_spec c (ch "A")) as [->|N2]; [apply (expand_named _ _ _ _ weekDays (tm_wday t)); trivial; [of_table|lia]|].
  destruct (Z.eqb_spec c (ch "b")) as [->|N3]; [apply (expand_named _ _ _ _ abrMonthNames (tm_mon t)); trivial; [of_table|lia]|].
  destruct (Z.eqb_spec c (ch "B")) as [->|N4]; [apply (expand_named _ _ _ _ monthNames (tm_mon t)); trivial; [of_table|lia]|].
  destruct (Z.eqb_spec c (ch "c")) as [->|N5]; [apply (expand_other _ _ _ _ Hc); trivial; apply expands_sub; trivial; computed|].
  destruct (Z.eqb_spec c (ch "d")) as [->|N6]; [number_case R Hc Hd; lia|].
  destruct (Z.eqb_spec c (ch "H")) as [->|N7]; [number_case R Hc (eq_refl (tm_hour t)); lia|].
  destruct (Z.eqb_spec c (ch "I")) as [->|N8]; [number_case R Hc (eq_refl (hour12 (tm_hour t))); unfold hour12; repeat case_match; lia|].
  destruct (Z.eqb_spec c (ch "j")) as [->|N9].
  { injection HT as <-. apply (expand_other _ _ _ _ Hc); trivial. apply (expands_number s str hi 2 (tm_yday t) R); [computed|lia|cbn; lia|exact Hr]. }
  destruct (Z.eqb_spec c (ch "m")) as [->|N10]; [number_case R Hc Hm; lia|].
  destruct (Z.eqb_spec c (ch "M")) as [->|N11]; [number_case R Hc (eq_refl (tm_min t)); lia|].
  destruct (Z.eqb_spec c (ch "p")) as [->|N12].
  { injection HT as <-. apply (expand_other _ _ _ _ Hc); trivial.
    change (expands (print_field bprintdblpad lit str hi 2 (text "%s") (lit (text (if tm_hour t <? 12 then "AM" else "PM")))) s str
      (text (if tm_hour t <? 12 then "AM" else "PM"))).
    destruct (tm_hour t <? 12); apply (expands_string s str hi _ 1 R); [computed|reflexivity|lia|computed|exact Hr|computed|reflexivity|lia|computed|exact Hr]. }
  destruct (Z.eqb_spec c (ch "S")) as [->|N13]; [number_case R Hc (eq_refl (tm_sec t)); lia|].
  destruct (Z.eqb_spec c (ch "U")) as [->|N14]; [number_case R Hc HU; apply Hw; lia|].
  destruct (Z.eqb_spec c (ch "w")) as [->|N15].
  { injection HT as <-. apply (expand_other _ _ _ _ Hc); trivial. apply (expands_digit s str hi); trivial. lia. }
  destruct (Z.eqb_spec c (ch "W")) as [->|N16]; [number_case R Hc HW; apply Hw, Z.mod_pos_bound; lia|].
  destruct (Z.eqb_spec c (ch "x")) as [->|N17]; [apply (expand_other _ _ _ _ Hc); trivial; apply expands_sub; trivial; computed|].
  destruct (Z.eqb_spec c (ch "X")) as [->|N18]; [apply (expand_other _ _ _ _ Hc); trivial; apply expands_sub; trivial; computed|].
  destruct (Z.eqb_spec c (ch "y")) as [->|N19].
  { injection HT as <-. apply (expand_other _ _ _ _ Hc); trivial. apply (expands_number s str hi 2 (tm_year t) R); [computed|lia|cbn; lia|exact Hr]. }
  destruct (Z.eqb_spec c (ch "Y")) as [->|N20].
  { injection HT as <-. apply (expand_other _ _ _ _ Hc); trivial. rewrite <- (to_int_small (tm_year t + 1900)) by lia.
    apply (expands_number s str hi 3 (to_int (tm_year t + 1900)) R); [computed|lia|rewrite to_int_small by lia; cbn; lia|exact Hr]. }
  destruct (Z.eqb_spec c (ch "Z")) as [->|N21].
  { injection HT as <-. apply (expand_other _ _ _ _ Hc); trivial. exists (p_mem s), []. rewrite set_mem_mem, Z.add_0_r. csplit; trivial; [apply wrote_nil|simpl; lia]. }
  injection HT as <-. apply expand_other; trivial.
  - unfold string_of. rewrite !(proj2 (Z.eqb_neq _ _)) by assumption. reflexivity.
  - unfold number_of. rewrite !(proj2 (Z.eqb_neq _ _)) by assumption. reflexivity.
  - unfold other. same_tests Hc. rewrite !(proj2 (Z.eqb_neq _ _)) by assumption. apply expands_char; trivial.
Qed.
End Once.

(** Writing behind a text whose last character, if any, is to be overwritten. *)
Lemma wrote_more m m1 m2 a l1 x T y : wrote m m1 a (l1 ++ x) -> (length x <= 1)%nat -> wrote m1 m2 (a + Z.of_nat (length l1)) (T ++ y) ->
  (T = [] -> y = []) -> exists x', wrote m m2 a ((l1 ++ T) ++ x') /\ (length x' <= max 1 (length y))%nat.
Proof.
  intros W1 Hx W2 HT. destruct T as [|c T].
  - rewrite HT in W2 by reflexivity. exists x. rewrite app_nil_r. split; [|lia]. destruct W1 as [A1 A2], W2 as [_ B2].
    split; [intros i d Hd; rewrite B2 by (simpl; lia); auto|intros z Hz; rewrite B2 by (simpl; lia); auto].
  - exists y. rewrite <- app_assoc. split; [|lia]. eapply wrote_over; [exact W1|exact W2|]. simpl. lia.
Qed.

Section Loop.
Context (strftime' : Z -> Z -> Z -> tm -> C Z) (sub : tm -> list Z -> option (list Z)) (Hsub : writes_date strftime' sub).
Context (s : process) (str max fmt : Z) (l : list Z) (t : tm) (T : list Z).
Context (Ht : date_ok t) (Hne : forall f, f ∈ nested -> sub t f <> Some []).
Context (R : ready s str (str + max)) (Hf : outside s str (str + max) fmt l) (Hroom : Z.of_nat (length T) < max).

(** The state of the loop: [l1] has been read and [T1] written. *)
Definition written (n : Z) (pos : Z * Z) (s' : process) : Prop :=
  exists l1 l2 T1 T2 m x, l = l1 ++ l2 /\ T = T1 ++ T2 /\ text_with (sub t) t l2 = Some T2 /\
    pos = (str + Z.of_nat (length T1), fmt + Z.of_nat (length l1)) /\ s' = set_mem m s /\
    wrote (p_mem s) m str (T1 ++ x) /\ (length x <= 1)%nat /\ n = Z.of_nat (length l2).

(** A directive in that state. *)
Lemma directive_step l1 d l3 T1 Tx Ty m x : l = (l1 ++ [ch "%"; d]) ++ l3 -> T = T1 ++ Tx ++ Ty -> dir_text (sub t) t d = Some Tx ->
  text_with (sub t) t l3 = Some Ty -> wrote (p_mem s) m str (T1 ++ x) -> (length x <= 1)%nat -> 1 <= d < 256 ->
  exists p s', expand bprintdblpad lit strftime' (str + Z.of_nat (length T1)) (str + max) (schar d) t (set_mem m s) = Done (Some p) s' /\
    written (Z.of_nat (length l3)) (p, fmt + Z.of_nat (length (l1 ++ [ch "%"; d]))) s'.
Proof.
  intros El ET Hd Hl3 W Hx Hdr. rewrite ET, !length_app in Hroom.
  assert (R' : ready (set_mem m s) (str + Z.of_nat (length T1)) (str + max))
    by (apply (ready_wrote s str (str + max) m (T1 ++ x) R W); [rewrite length_app|]; lia).
  destruct (expand_done strftime' sub Hsub t Ht Hne _ _ (str + max) d Tx R' Hdr Hd ltac:(lia)) as (m' & y & E & W' & Hy & Hy0).
  destruct (wrote_more _ _ _ _ _ _ _ _ W Hx W' Hy0) as (x' & W2 & Hx'). eexists _, _. split; [exact E|].
  exists (l1 ++ [ch "%"; d]), l3, (T1 ++ Tx), Ty, m', x'. rewrite !length_app, set_mem_set_mem. csplit; trivial; try lia; [rewrite <- app_assoc; exact ET|f_equal; lia].
Qed.

(** A round of the loop. *)
Lemma round_done n pos s' : written n pos s' ->
  let body := fun '(p, q) =>
    c ← load_char q;
    let q := q + 1 in
    if negb (c =? ch "%") then
      if c =? 0 then store8 p 0;; mret (Break (p - str))
      else if str + max <=? p then mret (Break 0)
      else store8 p c;; mret (Next (p + 1, q))
    else
      c ← load_char q;
      let q := q + 1 in
      r ← expand bprintdblpad lit strftime' p (str + max) c t;
      match r with
      | None => mret (Break 0)
      | Some p => mret (Next (p, q))
      end in
  (exists pos' s2 n', body pos s' = Done (Next pos') s2 /\ written n' pos' s2 /\ n' < n) \/
  (exists m, body pos s' = Done (Break (Z.of_nat (length T))) (set_mem m s) /\ wrote (p_mem s) m str (T ++ [0])).
Proof.
  intros (l1 & l2 & T1 & T2 & m & x & El & ET & HT & -> & -> & W & Hx & ->) body. pose proof (rd_mapped _ _ _ R) as Hm.
  assert (Hlen : (length T = length T1 + length T2)%nat) by (rewrite ET; apply length_app).
  destruct (outside_wrote _ _ _ _ _ m _ Hf W ltac:(rewrite length_app; lia) str ltac:(lia)) as [S1 _]. rewrite El in S1. apply cstr_tail in S1.
  unfold body. destruct l2 as [|c l2].
  - injection HT as <-. right. rewrite app_nil_r in ET. subst T1. exists (put 1 (str + Z.of_nat (length T)) 0 m). rewrite (bind_done _ _ _ _ _ (cstr_char _ _ _ S1)).
    change (schar (first []) =? ch "%") with false. change (schar (first []) =? 0) with true. cbn [negb].
    rewrite (bind_store 1) by (intros y Hy; apply Hm; lia). cbn [p_mem set_mem]. rewrite set_mem_set_mem, Z.add_simpl_l. split; [reflexivity|].
    eapply wrote_over; [exact W|apply wrote_one; lia|exact Hx].
  - left. pose proof (cs_range _ _ _ S1) as Rc. apply Forall_cons_1 in Rc as [Rc Rl]. rewrite (bind_done _ _ _ _ _ (cstr_char _ _ _ S1)). cbn [first]. cbv zeta.
    rewrite schar_is by (exact Rc || (split; vm_compute; congruence)). cbn [text_with] in HT. destruct (Z.eqb_spec c (ch "%")) as [->|Hc]; cbn [negb].
    + destruct l2 as [|d l3]; [discriminate HT|]. destruct (dir_text (sub t) t d) as [Tx|] eqn:Hd; [|discriminate HT]. cbn in HT.
      destruct (text_with (sub t) t l3) as [Ty|] eqn:Hl3; [|discriminate HT]. injection HT as <-. apply Forall_cons_1 in Rl as [Rd _].
      rewrite (bind_done _ _ _ _ _ (cstr_char _ _ _ (proj1 (cstr_next _ _ _ _ S1)))). cbn [first]. cbv zeta.
      assert (El' : l = (l1 ++ [ch "%"; d]) ++ l3) by (rewrite El, <- app_assoc; reflexivity).
      destruct (directive_step l1 d l3 T1 Tx Ty m x El' ET Hd Hl3 W Hx Rd) as (p & s2 & E & Hw). rewrite (bind_done _ _ _ _ _ E).
      eexists _, _, (Z.of_nat (length l3)). split; [reflexivity|]. rewrite length_app in Hw. cbn [length] in Hw. split; [|simpl; lia].
      replace (fmt + Z.of_nat (length l1) + 1 + 1) with (fmt + Z.of_nat (length l1 + 2)) by lia. exact Hw.
    + destruct (text_with (sub t) t l2) as [T3|] eqn:Hl2; [|discriminate HT]. injection HT as <-. cbn [length] in Hlen.
      pose proof (proj2 (cstr_next _ _ _ _ S1)) as Htr. apply negb_true_iff in Htr. rewrite Htr, (proj2 (Z.leb_gt _ _)) by lia.
      rewrite (bind_store 1) by (intros y Hy; apply Hm; lia). cbn [p_mem set_mem]. eexists _, _, (Z.of_nat (length l2)). split; [reflexivity|]. split; [|simpl; lia].
      exists (l1 ++ [c]), l2, (T1 ++ [c]), T3, (put 1 (str + Z.of_nat (length T1)) (schar c) m), []. rewrite <- !app_assoc, !length_app, set_mem_set_mem.
      csplit; trivial; cbn [length]; try lia; [f_equal; lia|]. eapply wrote_over; [exact W| |simpl; lia].
      pose proof (wrote_char (str + Z.of_nat (length T1)) [] (schar c) m m c (wrote_nil _ _) (schar_byte c ltac:(lia))) as Wc.
      rewrite Z.add_0_r in Wc. exact Wc.
Qed.
End Loop.

Lemma once_done f sub : writes_date f sub -> (forall t g, date_ok t -> g ∈ nested -> sub t g <> Some []) ->
  writes_date (strftime_once bprintdblpad lit f) (fun t => text_with (sub t) t).
Proof.
  intros Hs Hne s str max fmt l t T Ht R Hf HT Hroom. unfold strftime_once.
  edestruct (fun body => loop_bounded body (fun n pos s' => 0 <= n /\ written sub s str fmt l t T n pos s')
    (fun r s' => exists m, r = Z.of_nat (length T) /\ s' = set_mem m s /\ wrote (p_mem s) m str (T ++ [0])) (Z.of_nat (length l)) (str, fmt) s)
    as (r & s' & E & m & -> & -> & W); [| | |rewrite E; eauto].
  - intros n pos s' [Hn Hw]. split; [exact Hn|].
    destruct (round_done f sub Hs s str max fmt l t T Ht (fun g => Hne t g Ht) R Hf Hroom n pos s' Hw) as [(pos' & s2 & n' & E & Hw' & Hlt)|(m & E & W)].
    + left. exists pos', s2, n'. csplit; trivial. destruct Hw' as (? & ? & ? & ? & ? & ? & _ & _ & _ & _ & _ & _ & _ & ->). lia.
    + right. eexists _, _. split; [exact E|]. eauto.
  - split; [lia|]. exists [], l, [], T, (p_mem s), []. rewrite set_mem_mem, !Z.add_0_r. csplit; trivial; [apply wrote_nil|simpl; lia].
  - destruct Hf as [[? Hl _ _ _ _] _]. lia.
Qed.

Lemma text_nonempty sub t d c l : c <> ch "%" -> text_with sub t (ch "%" :: d :: c :: l) <> Some [].
Proof.
  intros Hc H. cbn [text_with] in H. rewrite Z.eqb_refl, (proj2 (Z.eqb_neq _ _) Hc) in H.
  destruct (dir_text sub t d) as [x|]; [|discriminate H]. destruct (text_with sub t l) as [y|]; [|discriminate H].
  injection H as H. destruct x; discriminate H.
Qed.

Lemma nested_nonempty t g : g ∈ nested -> text_with (fun _ => None) t g <> Some [].
Proof.
  unfold nested. rewrite !fmap_cons, !elem_of_cons. intros [->|[->|[->|Hg]]]; [apply text_nonempty; discriminate..|inversion Hg].
Qed.

(** [strftime] writes the text of its format. *)
Lemma strftime_done : writes_date (strftime bprintdblpad lit) date_text.
Proof.
  assert (H0 : writes_date (fun _ _ _ _ => bad OutOfFuel) (fun _ _ => None)) by (intros s str max fmt l t T _ _ _ H; discriminate H).
  assert (H1 : writes_date (strftime_once bprintdblpad lit (fun _ _ _ _ => bad OutOfFuel)) (fun t => text_with (fun _ => None) t))
    by (apply (once_done _ (fun _ _ => None) H0); discriminate).
  exact (once_done _ _ H1 (fun t g _ => nested_nonempty t g)).
Qed.
End Calls.
