(* ===== verification/StrftimeProps.v ===== *)
(** * Theorems about the formatting of dates *)

From Stdlib Require Import ZArith Lia Bool Ascii.
From stdpp Require Import base list strings numbers option.
From S2P Require Import Prelude CMem MemOps CString CStringSpec CopySpec Number Stdio Printf PrintfSpec PrintfProps CStringProps Time Strftime StrftimeSpec.

(** ** Timestamps *)

(** The dates of timestamps. *)
Lemma gmtime_date_ok w ts : long_holds w ts ->
  exists t, gmtime w ts = Some t /\ date_ok t /\ valid t /\ second_of t = ts /\ tm_wday t = (4 + ts / 86400) mod 7.
Proof.
  intros H. destruct (gmtime_done w ts H) as (t & E & V & Es & Ew & Ey). exists t. csplit; trivial. pose proof (valid_yday t V) as Hy.
  pose proof (year_days_range (tm_year t + 1900)) as Hr. rewrite <- Ey in Hy.
  pose proof V as (V1 & V2 & V3 & V4 & V5 & d & Hd & Hmd). pose proof (lookup_lt_Some _ _ _ Hd) as Hm.
  assert (Hd31 : d <= 31) by (destruct (days_ok (IS_LEAP_YEAR (tm_year t + 1900))) as [Hf _]; rewrite Forall_lookup in Hf; apply (Hf _ _ Hd)).
  assert (H12 : length (daysPerMonth (IS_LEAP_YEAR (tm_year t + 1900))) = 12%nat) by (destruct (IS_LEAP_YEAR _); reflexivity).
  pose proof (days_before_mono 1970 (tm_year t + 1900) ltac:(lia) ltac:(lia)) as Hdb. change (days_before 1970) with 0 in Hdb.
  assert (Hy' : tm_year t < 1000) by (destruct H; unfold second_of, day_of in Es; lia).
  pose proof (Z.mod_pos_bound (4 + ts / 86400) 7 ltac:(lia)). split; lia.
Qed.

(** The text of the date and time format. *)
Definition date_string (t : tm) : list Z :=
  nth (Z.to_nat (tm_wday t)) abrWeekDays [] ++ [32] ++ nth (Z.to_nat (tm_mon t)) abrMonthNames [] ++ [32] ++ two (tm_mday t + 1) ++ [32] ++
  two (tm_hour t) ++ [58] ++ two (tm_min t) ++ [58] ++ two (tm_sec t) ++ [32] ++ four (tm_year t + 1900).

Lemma lookup_nth {A} (names : list (list A)) i : 0 <= i < Z.of_nat (length names) -> names !! Z.to_nat i = Some (nth (Z.to_nat i) names []).
Proof.
  intros Hi. destruct (lookup_lt_is_Some_2 names (Z.to_nat i) ltac:(lia)) as [n Hn]. rewrite Hn, (nth_lookup_Some _ _ _ _ Hn). reflexivity.
Qed.

Lemma names_length t : date_ok t -> length (nth (Z.to_nat (tm_wday t)) abrWeekDays []) = 3%nat /\
  length (nth (Z.to_nat (tm_mon t)) abrMonthNames []) = 3%nat.
Proof.
  intros [_ _ _ _ H5 _ H7 _].
  assert (E : forall names, Forall (fun n => length n = 3%nat) names -> forall i : Z, 0 <= i < Z.of_nat (length names) ->
    length (nth (Z.to_nat i) names (@nil Z)) = 3%nat).
  { intros names Hn i Hi. rewrite Forall_lookup in Hn. exact (Hn _ _ (lookup_nth names i Hi)). }
  split; apply E; try (simpl; lia); repeat constructor.
Qed.

Lemma nested_string t : date_ok t -> text_with (fun _ => None) t (text "%a %b %d %H:%M:%S %Y") = Some (date_string t).
Proof.
  intros Ht. pose proof (lookup_nth abrWeekDays (tm_wday t) ltac:(destruct Ht; simpl; lia)) as E1.
  pose proof (lookup_nth abrMonthNames (tm_mon t) ltac:(destruct Ht; simpl; lia)) as E2.
  change (text_with _ t _) with
    (x1 ← abrWeekDays !! Z.to_nat (tm_wday t); y ← (cons 32 <$> (x2 ← abrMonthNames !! Z.to_nat (tm_mon t);
      y ← Some ([32] ++ two (tm_mday t + 1) ++ [32] ++ two (tm_hour t) ++ [58] ++ two (tm_min t) ++ [58] ++ two (tm_sec t) ++ [32] ++ four (tm_year t + 1900));
      Some (x2 ++ y))); Some (x1 ++ y)).
  rewrite E1, E2. reflexivity.
Qed.

Lemma date_string_text t : date_ok t -> date_text t (text "%c") = Some (date_string t) /\ length (date_string t) = 24%nat.
Proof.
  intros Ht. destruct (names_length t Ht) as [L1 L2]. split; [|unfold date_string; rewrite !length_app, L1, L2; reflexivity].
  change (date_text t (text "%c")) with (x ← text_with (fun _ => None) t (text "%a %b %d %H:%M:%S %Y"); Some (x ++ [])).
  rewrite (nested_string t Ht). cbn [mbind option_bind]. rewrite app_nil_r. reflexivity.
Qed.

(** [ctime] shows the date of a timestamp: for every timestamp that a [long] holds, it returns
    its buffer with the day of the week, the month, the day, the time and the year of the one date
    from 1970 on that is as many seconds away.  The 24 characters and their terminating zero fill
    the buffer of 25 bytes, and nothing else is written; there is no newline. *)
Theorem ctime_correct bprintdblpad lit s w dateStr ts :
  long_holds w ts -> ready lit s dateStr (dateStr + MAX_DATE_LEN) ->
  exists t m, ctime bprintdblpad lit w dateStr ts s = Done dateStr (set_mem m s) /\
    valid t /\ second_of t = ts /\ tm_wday t = (4 + ts / 86400) mod 7 /\
    length (date_string t) = 24%nat /\ wrote (p_mem s) m dateStr (date_string t ++ [0]).
Proof.
  intros H R. destruct (gmtime_date_ok w ts H) as (t & E & Ht & V & Es & Ew). destruct (date_string_text t Ht) as [HT Hl].
  assert (Hc : text "%c" ∈ literals) by computed.
  destruct (strftime_done bprintdblpad lit s dateStr MAX_DATE_LEN _ _ t _ Ht R (rd_lits _ _ _ _ R _ Hc) HT) as (m & Em & W);
    [rewrite Hl; reflexivity|]. exists t, m. csplit; trivial. unfold ctime, localtime. rewrite E. unfold asctime.
  rewrite (bind_done _ _ _ _ _ Em). reflexivity.
Qed.

(** ** What the documentation promises *)

(** A time of the calendar: months and days count from 1. *)
Record moment := mkmoment { year : Z; month : Z; day : Z; hour : Z; minute : Z; second : Z }.

Definition in_calendar (d : moment) : Prop :=
  1970 <= year d /\ 1 <= month d /\ 0 <= hour d < 24 /\ 0 <= minute d < 60 /\ 0 <= second d < 60 /\
  exists n, daysPerMonth (IS_LEAP_YEAR (year d)) !! Z.to_nat (month d - 1) = Some n /\ 1 <= day d <= n.

(** The days since the first day of the year and since the first day of 1970, the day of the week, and the timestamp. *)
Definition day_in_year (d : moment) : Z := month_start (IS_LEAP_YEAR (year d)) (month d - 1) + (day d - 1).
Definition weekday (d : moment) : Z := (4 + days_before (year d) + day_in_year d) mod 7.
Definition timestamp (d : moment) : Z :=
  86400 * (days_before (year d) + day_in_year d) + 3600 * hour d + 60 * minute d + second d.

(** The days of the year up to [d] that are the weekday [first]. *)
Definition weeks (d : moment) (first : Z) : Z :=
  Z.of_nat (length (filter (fun j => (4 + days_before (year d) + j) mod 7 = first) (seqZ 0 (day_in_year d + 1)))).

Definition time_shown (d : moment) : list Z := two (hour d) ++ [58] ++ two (minute d) ++ [58] ++ two (second d).

(** The directives of include/time.h, without j, x, y and Z. *)
Definition doc_directive (d : moment) (c : Z) : option (list Z) :=
  if c =? ch "a" then abrWeekDays !! Z.to_nat (weekday d)
  else if c =? ch "A" then weekDays !! Z.to_nat (weekday d)
  else if c =? ch "b" then abrMonthNames !! Z.to_nat (month d - 1)
  else if c =? ch "B" then monthNames !! Z.to_nat (month d - 1)
  else if c =? ch "c" then
    Some (nth (Z.to_nat (weekday d)) abrWeekDays [] ++ [32] ++ nth (Z.to_nat (month d - 1)) abrMonthNames [] ++ [32] ++
      two (day d) ++ [32] ++ time_shown d ++ [32] ++ four (year d))
  else if c =? ch "d" then Some (two (day d))
  else if c =? ch "H" then Some (two (hour d))
  else if c =? ch "I" then Some (two ((hour d + 11) mod 12 + 1))
  else if c =? ch "m" then Some (two (month d))
  else if c =? ch "M" then Some (two (minute d))
  else if c =? ch "p" then Some (text (if hour d <? 12 then "AM" else "PM"))
  else if c =? ch "S" then Some (two (second d))
  else if c =? ch "U" then Some (two (weeks d 0))
  else if c =? ch "w" then Some (one (weekday d))
  else if c =? ch "W" then Some (two (weeks d 1))
  else if c =? ch "X" then Some (time_shown d)
  else if c =? ch "Y" then Some (four (year d))
  else if c =? ch "%" then Some [c]
  else None.

Fixpoint doc_date (d : moment) (fmt : list Z) : option (list Z) :=
  match fmt with
  | [] => Some []
  | c :: fmt' =>
      if c =? ch "%" then
        match fmt' with
        | [] => None
        | k :: fmt'' => x ← doc_directive d k; y ← doc_date d fmt''; Some (x ++ y)
        end
      else cons c <$> doc_date d fmt'
  end.

(** Counting the days that are a given weekday. *)
Lemma count_weekday w n : 0 <= w < 7 -> forall b, 0 <= b ->
  Z.of_nat (length (filter (fun j => (b + j) mod 7 = w) (seqZ 0 (Z.of_nat n)))) = (b + Z.of_nat n + 6 - w) / 7 - (b + 6 - w) / 7.
Proof.
  intros Hw b Hb. induction n as [|n IH]; [simpl; rewrite Z.add_0_r; lia|].
  rewrite seqZ_S, list.filter_app, length_app, Nat2Z.inj_add, IH, Nat2Z.inj_succ, list.filter_cons, list.filter_nil, Z.add_0_l.
  destruct (decide _) as [E|E]; cbn [length]; Z.div_mod_to_equations; lia.
Qed.

(** The fields of a date that [gmtime] has computed. *)
Record shows (t : tm) (d : moment) : Prop := {
  sh_sec : tm_sec t = second d;
  sh_min : tm_min t = minute d;
  sh_hour : tm_hour t = hour d;
  sh_mday : tm_mday t = day d - 1;
  sh_mon : tm_mon t = month d - 1;
  sh_year : tm_year t = year d - 1900;
  sh_wday : tm_wday t = weekday d;
  sh_yday : tm_yday t = day_in_year d;
  sh_ok : date_ok t
}.

Lemma gmtime_shows w d : in_calendar d -> long_holds w (timestamp d) -> exists t, gmtime w (timestamp d) = Some t /\ shows t d.
Proof.
  intros C H. destruct (gmtime_date_ok w _ H) as (t & E & Ht & V & Es & Ew). exists t. split; [exact E|].
  destruct (gmtime_done w _ H) as (t1 & E1 & _ & _ & _ & Ey). rewrite E in E1. injection E1 as <-.
  set (t' := mktm (second d) (minute d) (hour d) (day d - 1) (month d - 1) (year d - 1900) 0 0).
  assert (Hy : tm_year t' + 1900 = year d) by (simpl; lia). destruct C as (C1 & C2 & C3 & C4 & C5 & n & Hn & C6).
  assert (V' : valid t'). { unfold valid. rewrite Hy. simpl. csplit; try lia. exists n. split; [exact Hn|lia]. }
  assert (Es' : second_of t' = timestamp d).
  { unfold second_of, day_of, timestamp, day_in_year. rewrite Hy. simpl. lia. }
  destruct (date_unique t t' V V') as (U1 & U2 & U3 & U4 & U5 & U6); [congruence|]. cbn in U1, U2, U3, U4, U5, U6.
  split; trivial.
  - rewrite Ew. unfold weekday. f_equal. unfold timestamp. Z.div_mod_to_equations; lia.
  - rewrite Ey, U4, U5, U6. unfold day_in_year. replace (year d - 1900 + 1900) with (year d) by lia. reflexivity.
Qed.

(** The weeks that the code counts are those that begin with the given day. *)
Lemma week_weeks t d k : shows t d -> in_calendar d -> 0 <= k < 7 ->
  week (tm_yday t) ((tm_wday t + 7 - k) mod 7) = weeks d k.
Proof.
  intros S C Hk. rewrite (sh_wday _ _ S), (sh_yday _ _ S). unfold weeks, week, weekday.
  assert (H0 : 0 <= tm_yday t) by apply (sh_ok _ _ S). rewrite (sh_yday _ _ S) in H0.
  pose proof (days_before_mono 1970 (year d) ltac:(lia) ltac:(apply C)) as Hd. change (days_before 1970) with 0 in Hd.
  assert (Hb : 0 <= 4 + days_before (year d)) by (destruct C; lia). set (b := 4 + days_before (year d)) in *. set (y := day_in_year d) in *.
  rewrite <- (Z2Nat.id (y + 1)), count_weekday, Z2Nat.id by lia. clearbody b y. Z.div_mod_to_equations. lia.
Qed.

Lemma hour12_dial h : 0 <= h < 24 -> hour12 h = (h + 11) mod 12 + 1.
Proof.
  intros H. unfold hour12. destruct (Z.eqb_spec h 0) as [->|]; [reflexivity|]. destruct (Z.ltb_spec 12 h).
  - replace (h + 11) with (h - 13 + 2 * 12) by lia. rewrite Z.mod_add, Z.mod_small by lia. lia.
  - replace (h + 11) with (h - 1 + 1 * 12) by lia. rewrite Z.mod_add, Z.mod_small by lia. lia.
Qed.

Lemma directive_doc t d c x : shows t d -> in_calendar d -> doc_directive d c = Some x ->
  dir_text (text_with (fun _ => None) t) t c = Some x.
Proof.
  intros S C. pose proof (week_weeks t d 0 S C ltac:(lia)) as W0. pose proof (week_weeks t d 1 S C ltac:(lia)) as W1.
  pose proof (nested_string t (sh_ok _ _ S)) as N. pose proof (hour12_dial (tm_hour t) (do_hour _ (sh_ok _ _ S))) as D.
  assert (Hw : (tm_wday t + 7 - 0) mod 7 = tm_wday t).
  { replace (tm_wday t + 7 - 0) with (tm_wday t + 1 * 7) by lia. rewrite Z.mod_add by lia. apply Z.mod_small, (sh_ok _ _ S). }
  rewrite Hw in W0. replace (tm_wday t + 7 - 1) with (tm_wday t + 6) in W1 by lia.
  assert (X : text_with (fun _ => None) t (text "%H:%M:%S") = Some (time_shown d)).
  { unfold time_shown. rewrite <- (sh_sec _ _ S), <- (sh_min _ _ S), <- (sh_hour _ _ S). reflexivity. }
  assert (Q : date_string t = nth (Z.to_nat (weekday d)) abrWeekDays [] ++ [32] ++ nth (Z.to_nat (month d - 1)) abrMonthNames [] ++ [32] ++
      two (day d) ++ [32] ++ time_shown d ++ [32] ++ four (year d)).
  { unfold date_string, time_shown. destruct S as [-> -> -> -> -> -> -> _ _]. rewrite <- !app_assoc. rewrite !Z.sub_add. reflexivity. }
  rewrite Q in N. clear Q. unfold doc_directive, dir_text. rewrite W0, W1, N, X, D. clear N X D W0 W1 Hw.
  destruct S as [-> -> -> -> -> -> -> _ _]. rewrite !Z.sub_add.
  repeat (match goal with |- (if ?b then _ else _) = _ -> _ => destruct b eqn:?; [trivial|] end); try discriminate.
  all: match goal with H : (_ =? _) = true |- _ => apply Z.eqb_eq in H; rewrite H; intros Hx; exact Hx end.
Qed.

Lemma date_text_doc t d fmt T : shows t d -> in_calendar d -> doc_date d fmt = Some T -> date_text t fmt = Some T.
Proof.
  intros S C. unfold date_text. revert T. assert (H : forall n fmt T, (length fmt <= n)%nat -> doc_date d fmt = Some T ->
    text_with (text_with (fun _ => None) t) t fmt = Some T); [|intros T; apply (H (length fmt)); lia].
  clear fmt. induction n as [|n IH]; intros [|c fmt] T Hn HT; trivial; [simpl in Hn; lia|]. cbn [doc_date text_with length] in *.
  destruct (c =? ch "%").
  - destruct fmt as [|k fmt]; [discriminate|]. destruct (doc_directive d k) as [x|] eqn:Ek; [|discriminate].
    rewrite (directive_doc t d k x S C Ek). cbn [mbind option_bind length] in *.
    destruct (doc_date d fmt) as [y|] eqn:Ey; [|discriminate]. rewrite (IH fmt y) by (trivial; lia). exact HT.
  - destruct (doc_date d fmt) as [y|] eqn:Ey; [|discriminate]. rewrite (IH fmt y) by (trivial; lia). exact HT.
Qed.

(** C29: [strftime] writes the text that include/time.h documents.  The date is the one that [gmtime]
    computes for the timestamp of a time of the calendar, one that [long] can hold; the format consists of other
    characters and of the directives a, A, b, B, c, d, H, I, m, M, p, S, U, w, W, X, Y and %%, that is
    without j, x, y and Z, for which the code does not do what is documented.  Names, day, month, time, year, weekday
    and the numbers of the weeks are those of the calendar.  If the text and its terminating zero fit
    into the buffer, they are written and nothing else, and the result is the length of the text. *)
Theorem strftime_formats bprintdblpad lit s w str max fmt l d T :
  in_calendar d -> long_holds w (timestamp d) -> ready lit s str (str + max) -> outside s str (str + max) fmt l ->
  doc_date d l = Some T -> Z.of_nat (length T) < max ->
  exists t m, gmtime w (timestamp d) = Some t /\
    strftime bprintdblpad lit str max fmt t s = Done (Z.of_nat (length T)) (set_mem m s) /\ wrote (p_mem s) m str (T ++ [0]).
Proof.
  intros C H R O HT Hl. destruct (gmtime_shows w d C H) as (t & E & S). exists t.
  destruct (strftime_done bprintdblpad lit s str max fmt l t T (sh_ok _ _ S) R O (date_text_doc t d l T S C HT) Hl) as (m & Em & W). eauto.
Qed.

(** ** A page with the literals *)

(** Strings one after the other, and where each of them begins. *)
Definition pool (ls : list (list Z)) : list Z := concat ((fun l => l ++ [0]) <$> ls).

Fixpoint position (ls : list (list Z)) (l : list Z) : nat :=
  match ls with
  | [] => 0
  | x :: ls' => if decide (x = l) then 0 else length x + 1 + position ls' l
  end.

Lemma pool_split ls l : l ∈ ls -> exists l1 rest, pool ls = l1 ++ l ++ 0 :: rest /\ length l1 = position ls l.
Proof.
  induction ls as [|x ls IH]; intros H; [inversion H|]. cbn [position]. destruct (decide (x = l)) as [->|Hx].
  - exists [], (pool ls). split; [unfold pool; cbn; rewrite <- app_assoc; reflexivity|reflexivity].
  - apply elem_of_cons in H as [->|H]; [contradiction|]. destruct (IH H) as (l1 & rest & E & El).
    exists ((x ++ [0]) ++ l1), rest. split; [unfold pool in *; cbn; rewrite E, <- !app_assoc; reflexivity|]. rewrite !length_app, El. reflexivity.
Qed.

Definition place (ls : list (list Z)) (l : list Z) : Z := 4096 + Z.of_nat (position ls l).

Lemma pool_string ls l : l ∈ ls -> Forall (fun c => 1 <= c < 256) l -> (length (pool ls) < 4096)%nat ->
  cstr (page_process (pool ls)) (place ls l) l /\ place ls l + Z.of_nat (length l) < 4096 + Z.of_nat (length (pool ls)).
Proof.
  intros Hl Hc Hn. destruct (pool_split ls l Hl) as (l1 & rest & E & El). unfold place. rewrite <- El.
  assert (Hp : (length (pool ls) = length l1 + (length l + S (length rest)))%nat) by (rewrite E, !length_app; reflexivity).
  split; [|lia]. rewrite E. apply cstr_page; [exact Hc|]. rewrite length_app. lia.
Qed.

(** A page with the literals and a format. *)
Definition date_page (fmt : list Z) : process := page_process (pool (literals ++ [fmt])).
Definition date_lit (fmt : list Z) : list Z -> Z := place (literals ++ [fmt]).

Lemma page_ready fmt : (length fmt < 1000)%nat -> Forall (fun c => 1 <= c < 256) fmt ->
  ready (date_lit fmt) (date_page fmt) 6000 6060 /\ outside (date_page fmt) 6000 6060 (date_lit fmt fmt) fmt.
Proof.
  intros Hf Hc. assert (Hn : (length (pool (literals ++ [fmt])) < 1900)%nat).
  { assert (E : (length (pool literals) < 800)%nat) by computed. unfold pool in E |- *.
    rewrite fmap_app, concat_app, length_app, fmap_cons, concat_cons, !length_app. cbn [length fmap list_fmap concat]. lia. }
  assert (Hl : Forall (Forall (fun c => 1 <= c < 256)) literals) by computed.
  assert (Ho : forall l, l ∈ literals ++ [fmt] -> outside (date_page fmt) 6000 6060 (date_lit fmt l) l).
  { intros l Hin. destruct (pool_string (literals ++ [fmt]) l Hin) as [S1 S2]; [|lia|].
    - apply elem_of_app in Hin as [Hin|Hin%list_elem_of_singleton]; [|subst l; exact Hc].
      rewrite Forall_forall in Hl. apply Hl, list_elem_of_In, Hin.
    - split; [exact S1|]. left. unfold date_lit. lia. }
  split; [|apply Ho, elem_of_app; right; left]. split; [reflexivity|lia|lia|apply page_mapped; lia|].
  intros l Hin. apply Ho, elem_of_app. auto.
Qed.

Definition no_double : Z -> Z -> bool -> Z -> Z -> Z -> C Z := fun _ _ _ _ _ _ => mret 0.
Definition sample_date : tm := mktm 40 46 13 8 8 101 0 251.

(** The ninth of September 2001 at 1:46:40 in the morning. *)
Definition billion : moment := mkmoment 2001 9 9 1 46 40.

Lemma strftime_formats_witness :
  exists m, let f := text "%A, %d.%m.%Y %I:%M%p %U%%" in
    strftime no_double (date_lit f) 6000 60 (date_lit f f) (mktm 40 46 1 8 8 101 0 251) (date_page f) = Done 30 (set_mem m (date_page f)) /\
    wrote (p_mem (date_page f)) m 6000 (text "Sunday, 09.09.2001 01:46AM 36%" ++ [0]).
Proof.
  destruct (page_ready (text "%A, %d.%m.%Y %I:%M%p %U%%") ltac:(computed) ltac:(computed)) as [R O].
  destruct (strftime_formats no_double (date_lit (text "%A, %d.%m.%Y %I:%M%p %U%%")) (date_page (text "%A, %d.%m.%Y %I:%M%p %U%%")) 64 6000 60
    (date_lit (text "%A, %d.%m.%Y %I:%M%p %U%%") (text "%A, %d.%m.%Y %I:%M%p %U%%")) (text "%A, %d.%m.%Y %I:%M%p %U%%") billion (text "Sunday, 09.09.2001 01:46AM 36%")) as (t & m & E & Em & W).
  - repeat (split; [simpl; lia|]). exists 30. split; [reflexivity|simpl; lia].
  - change (timestamp billion) with 1000000000. unfold long_holds. lia.
  - exact R.
  - exact O.
  - vm_compute. reflexivity.
  - vm_compute. reflexivity.
  - change (gmtime 64 (timestamp billion)) with (Some (mktm 40 46 1 8 8 101 0 251)) in E. injection E as <-. exists m. auto.
Defined.

Lemma ctime_correct_witness :
  exists t m, ctime no_double (date_lit []) 64 6000 1000000000 (date_page []) = Done 6000 (set_mem m (date_page [])) /\
    valid t /\ second_of t = 1000000000 /\ tm_wday t = (4 + 1000000000 / 86400) mod 7 /\
    length (date_string t) = 24%nat /\ wrote (p_mem (date_page [])) m 6000 (date_string t ++ [0]).
Proof.
  apply (ctime_correct no_double (date_lit []) (date_page []) 64 6000 1000000000).
  - unfold long_holds. lia.
  - destruct (page_ready [] ltac:(computed) ltac:(computed)) as [[R1 R2 R3 R4 R5] _]. split; trivial; try lia; unfold MAX_DATE_LEN.
    + apply page_mapped; lia.
    + intros l Hl. destruct (R5 l Hl) as [S1 S2]. split; [exact S1|]. lia.
Defined.

(** ** The bounds of the buffer *)

(** A text that fills the buffer is terminated behind it; a number at the end of a buffer without
    room is printed as if there were no limit, and one at its last byte ends the process. *)
Example strftime_overruns :
  let call f max := leaves (strftime no_double (date_lit f) 6000 max (date_lit f f) sample_date)
    (set_mem (put 1 6002 1 (p_mem (date_page f))) (date_page f)) [6000; 6001; 6002] in
  call (text "ab") 2 = Some (2, text "ab" ++ [0]) /\
  call (text "%d") 0 = Some (2, text "09" ++ [0]) /\
  call (text "a%d") 2 = None.
Proof. vm_compute. repeat split. Qed.
