(* ===== verification/RwLock.v ===== *)
(** * The readers-writer lock

    [rwreq] and [rwrel] of lib/c/sys/sync.c on the user semaphores of
    include/sys/arch/x86/sync.h, for any number of threads that run in any interleaving.  A step
    is one access to shared memory or one system call; [pc] says which statement a thread
    executes next.  The semaphores of the kernel are counters on which [semdown] waits. *)

From Stdlib Require Import ZArith Lia Bool.
From stdpp Require Import base list numbers option sets.
From S2P Require Import Prelude.

(** ** The lock and the threads *)

(** [RW_READ] and [RW_WRITE] *)
Inductive op := RW_READ | RW_WRITE.

(** [tRWLock]: the semaphore [sem], [count], [waits], and the mutex with its value and semaphore. *)
Record tRWLock := mkrw {
  rw_sem : Z;
  rw_count : Z;
  rw_waits : Z;
  mutex_value : Z;
  mutex_sem : Z
}.

Inductive pc :=
  | Idle                     (* outside of the lock *)
  | ReqDown (o : op)         (* [rwreq]: [usemdown(&l->mutex)] *)
  | ReqSleep (o : op)        (* its [semdown] *)
  | ReqFair (o : op)         (* [if(l->waits)] *)
  | ReqTest (o : op)         (* the condition of the [while] loop *)
  | WaitInc (o : op)         (* [rwwait]: [l->waits++] *)
  | WaitUp (o : op)          (* [usemup(&l->mutex)] *)
  | WaitUpSem (o : op)       (* its [semup] *)
  | Asleep (o : op)          (* [semdown(l->sem)] *)
  | Woken (o : op)           (* [usemdown(&l->mutex)] *)
  | WokenSleep (o : op)      (* its [semdown] *)
  | WaitDec (o : op)         (* [l->waits--] *)
  | Enter (o : op)           (* [l->count++] or [l->count = -1] *)
  | ReqUp (o : op)           (* [usemup(&l->mutex)] *)
  | ReqUpSem (o : op)        (* its [semup] *)
  | Inside (o : op)          (* the caller has the lock *)
  | RelDown (o : op)         (* [rwrel]: [usemdown(&l->mutex)] *)
  | RelSleep (o : op)        (* its [semdown] *)
  | RelDec (o : op)          (* the assertion, and [--l->count] or [l->count = 0] *)
  | RelSem (o : op)          (* [semup(l->sem)] *)
  | RelUp (o : op)           (* [usemup(&l->mutex)] *)
  | RelUpSem (o : op)        (* its [semup] *)
  | Failed.                  (* an assertion failed *)

Definition set_sem (v : Z) (l : tRWLock) := mkrw v (rw_count l) (rw_waits l) (mutex_value l) (mutex_sem l).
Definition set_count (v : Z) (l : tRWLock) := mkrw (rw_sem l) v (rw_waits l) (mutex_value l) (mutex_sem l).
Definition set_waits (v : Z) (l : tRWLock) := mkrw (rw_sem l) (rw_count l) v (mutex_value l) (mutex_sem l).
Definition set_value (v : Z) (l : tRWLock) := mkrw (rw_sem l) (rw_count l) (rw_waits l) v (mutex_sem l).
Definition set_msem (v : Z) (l : tRWLock) := mkrw (rw_sem l) (rw_count l) (rw_waits l) (mutex_value l) v.

(** [rwcrt], given what its two calls of [semcrt] return: the id of a new semaphore of value 0,
    or a negative error code.  The result is that of the function, and the lock. *)
Definition new_lock : tRWLock := mkrw 0 0 0 1 0.
Definition rwcrt (msem sem : Z) : Z * option tRWLock :=
  if msem <? 0 then (msem, None)
  else if sem <? 0 then (sem, None)
  else (0, Some new_lock).

(** [usemdown]: [sleep] is where a thread goes that has to wait. *)
Definition usemdown_step (l : tRWLock) (sleep got : pc) : option (tRWLock * pc) :=
  Some (set_value (mutex_value l - 1) l, if mutex_value l <=? 0 then sleep else got).

Definition usemup_step (l : tRWLock) (wake done : pc) : option (tRWLock * pc) :=
  Some (set_value (mutex_value l + 1) l, if mutex_value l <? 0 then wake else done).

(** [semdown] and [semup] on the mutex's semaphore and on [l->sem]; [semdown] may block. *)
Definition msem_down (l : tRWLock) (got : pc) : option (tRWLock * pc) :=
  if 0 <? mutex_sem l then Some (set_msem (mutex_sem l - 1) l, got) else None.
Definition msem_up (l : tRWLock) (done : pc) : option (tRWLock * pc) := Some (set_msem (mutex_sem l + 1) l, done).
Definition sem_down (l : tRWLock) (got : pc) : option (tRWLock * pc) :=
  if 0 <? rw_sem l then Some (set_sem (rw_sem l - 1) l, got) else None.

(** The next step of a thread in [rwreq], [rwwait] or [rwrel]; [None] if it is blocked. *)
Definition next (l : tRWLock) (p : pc) : option (tRWLock * pc) :=
  match p with
  | Idle | Inside _ | Failed => None
  | ReqDown o => usemdown_step l (ReqSleep o) (ReqFair o)
  | ReqSleep o => msem_down l (ReqFair o)
  | ReqFair o => Some (l, if truth (rw_waits l) then WaitInc o else ReqTest o)
  | ReqTest RW_READ => Some (l, if rw_count l <? 0 then WaitInc RW_READ else Enter RW_READ)
  | ReqTest RW_WRITE => Some (l, if truth (rw_count l) then WaitInc RW_WRITE else Enter RW_WRITE)
  | WaitInc o => Some (set_waits (rw_waits l + 1) l, WaitUp o)
  | WaitUp o => usemup_step l (WaitUpSem o) (Asleep o)
  | WaitUpSem o => msem_up l (Asleep o)
  | Asleep o => sem_down l (Woken o)
  | Woken o => usemdown_step l (WokenSleep o) (WaitDec o)
  | WokenSleep o => msem_down l (WaitDec o)
  | WaitDec o => Some (set_waits (rw_waits l - 1) l, ReqTest o)
  | Enter RW_READ => Some (set_count (rw_count l + 1) l, ReqUp RW_READ)
  | Enter RW_WRITE => Some (set_count (-1) l, ReqUp RW_WRITE)
  | ReqUp o => usemup_step l (ReqUpSem o) (Inside o)
  | ReqUpSem o => msem_up l (Inside o)
  | RelDown o => usemdown_step l (RelSleep o) (RelDec o)
  | RelSleep o => msem_down l (RelDec o)
  | RelDec RW_READ =>
      if 0 <? rw_count l then
        Some (set_count (rw_count l - 1) l,
              if (rw_count l - 1 =? 0) && truth (rw_waits l) then RelSem RW_READ else RelUp RW_READ)
      else Some (l, Failed)
  | RelDec RW_WRITE =>
      if rw_count l =? -1 then Some (set_count 0 l, if truth (rw_waits l) then RelSem RW_WRITE else RelUp RW_WRITE)
      else Some (l, Failed)
  | RelSem o => Some (set_sem (rw_sem l + 1) l, RelUp o)
  | RelUp o => usemup_step l (RelUpSem o) Idle
  | RelUpSem o => msem_up l Idle
  end.

(** One step of the system: a thread starts a request, starts to release, or goes on. *)
Inductive step : tRWLock * list pc -> tRWLock * list pc -> Prop :=
  | step_request l ts i o : ts !! i = Some Idle -> step (l, ts) (l, <[i := ReqDown o]> ts)
  | step_release l ts i o : ts !! i = Some (Inside o) -> step (l, ts) (l, <[i := RelDown o]> ts)
  | step_next l ts i p l' p' : ts !! i = Some p -> next l p = Some (l', p') -> step (l, ts) (l', <[i := p']> ts).

Inductive reachable (n : nat) : tRWLock * list pc -> Prop :=
  | reach_start msem sem l : rwcrt msem sem = (0, Some l) -> reachable n (l, replicate n Idle)
  | reach_step s s' : reachable n s -> step s s' -> reachable n s'.

(** ** Counting threads *)

Definition headcount (f : pc -> Z) (ts : list pc) : Z := foldr (fun p x => f p + x) 0 ts.

Lemma headcount_insert f ts i p q : ts !! i = Some p -> headcount f (<[i := q]> ts) = headcount f ts - f p + f q.
Proof.
  revert i. induction ts as [|x ts IH]; intros [|i] H; simpl in *; try discriminate; [injection H as ->; lia|].
  rewrite (IH i H). lia.
Qed.

Lemma headcount_nonneg f ts : (forall p, 0 <= f p) -> 0 <= headcount f ts.
Proof. intros H. induction ts as [|p ts IH]; simpl; [lia|]. specialize (H p). lia. Qed.

Lemma headcount_le f g ts : (forall p, f p <= g p) -> headcount f ts <= headcount g ts.
Proof. intros H. induction ts as [|p ts IH]; simpl; [lia|]. specialize (H p). lia. Qed.

Lemma headcount_add f g ts : headcount (fun p => f p + g p) ts = headcount f ts + headcount g ts.
Proof. induction ts as [|p ts IH]; simpl; lia. Qed.

Lemma headcount_pos f ts i p : (forall p, 0 <= f p) -> ts !! i = Some p -> f p <= headcount f ts.
Proof.
  intros Hf. revert i. induction ts as [|x ts IH]; intros [|i] H; simpl in *; try discriminate.
  - injection H as ->. pose proof (headcount_nonneg f ts Hf). lia.
  - specialize (IH i H). specialize (Hf x). lia.
Qed.

Lemma headcount_zero f ts : (forall i p, ts !! i = Some p -> f p = 0) -> headcount f ts = 0.
Proof.
  induction ts as [|p ts IH]; intros H; simpl; [reflexivity|]. rewrite (H 0%nat p eq_refl), IH; [reflexivity|].
  intros i q Hq. apply (H (S i) q Hq).
Qed.

(** Groups of threads: in the critical section of the mutex, blocked on it, about to wake one up. *)
Definition crit (p : pc) : Z :=
  match p with
  | ReqFair _ | ReqTest _ | WaitInc _ | WaitUp _ | WaitDec _ | Enter _ | ReqUp _ | RelDec _ | RelSem _ | RelUp _ => 1
  | _ => 0
  end.
Definition queued (p : pc) : Z := match p with ReqSleep _ | WokenSleep _ | RelSleep _ => 1 | _ => 0 end.
Definition upping (p : pc) : Z := match p with WaitUpSem _ | ReqUpSem _ | RelUpSem _ => 1 | _ => 0 end.

(** Counted in [l->count]: from [Enter] to [RelDec]. *)
Definition reads (p : pc) : Z :=
  match p with
  | ReqUp RW_READ | ReqUpSem RW_READ | Inside RW_READ | RelDown RW_READ | RelSleep RW_READ | RelDec RW_READ => 1
  | _ => 0
  end.
Definition writes (p : pc) : Z :=
  match p with
  | ReqUp RW_WRITE | ReqUpSem RW_WRITE | Inside RW_WRITE | RelDown RW_WRITE | RelSleep RW_WRITE | RelDec RW_WRITE => 1
  | _ => 0
  end.

(** About to enter; about to change [l->count]; at [l->waits++]. *)
Definition entersR (p : pc) : Z := match p with Enter RW_READ => 1 | _ => 0 end.
Definition entersW (p : pc) : Z := match p with Enter RW_WRITE => 1 | _ => 0 end.
Definition leaves (p : pc) : Z := match p with RelDec _ => 1 | _ => 0 end.
Definition incs (p : pc) : Z := match p with WaitInc _ => 1 | _ => 0 end.

(** Counted in [l->waits]; going to sleep or asleep; awake and on the way to the lock, or about to wake. *)
Definition waiting (p : pc) : Z :=
  match p with WaitUp _ | WaitUpSem _ | Asleep _ | Woken _ | WokenSleep _ | WaitDec _ => 1 | _ => 0 end.
Definition sleepy (p : pc) : Z := match p with WaitInc _ | WaitUp _ | WaitUpSem _ | Asleep _ => 1 | _ => 0 end.
Definition helper (p : pc) : Z :=
  match p with Woken _ | WokenSleep _ | WaitDec _ | ReqTest _ | Enter _ | RelSem _ => 1 | _ => 0 end.
Definition failed (p : pc) : Z := match p with Failed => 1 | _ => 0 end.

(** ** The invariant *)

Record inv (l : tRWLock) (ts : list pc) : Prop := {
  in_sems : 0 <= mutex_sem l /\ 0 <= rw_sem l;
  in_mutex : headcount crit ts + mutex_sem l + headcount upping ts <= 1;
  in_blocked : mutex_sem l + headcount upping ts <= headcount queued ts;
  in_free : headcount crit ts + mutex_sem l + headcount upping ts = 0 -> headcount queued ts = 0;
  in_value : mutex_value l = 1 - headcount crit ts - headcount queued ts;
  in_waits : rw_waits l = headcount waiting ts;
  in_count : headcount writes ts = 0 /\ rw_count l = headcount reads ts \/
             headcount writes ts = 1 /\ headcount reads ts = 0 /\ rw_count l = -1;
  in_enterR : 0 < headcount entersR ts -> 0 <= rw_count l;
  in_enterW : 0 < headcount entersW ts -> rw_count l = 0;
  in_wake : rw_count l = 0 -> 0 < headcount sleepy ts -> 0 < rw_sem l + headcount helper ts;
  in_failed : headcount failed ts = 0
}.

(** How the groups are related. *)
Lemma groups ts :
  0 <= headcount crit ts /\ 0 <= headcount queued ts /\ 0 <= headcount upping ts /\ 0 <= headcount reads ts /\ 0 <= headcount writes ts /\
  0 <= headcount entersR ts /\ 0 <= headcount entersW ts /\ 0 <= headcount leaves ts /\ 0 <= headcount incs ts /\
  0 <= headcount waiting ts /\ 0 <= headcount sleepy ts /\ 0 <= headcount helper ts /\ 0 <= headcount failed ts /\
  headcount entersR ts + headcount entersW ts + headcount leaves ts + headcount incs ts <= headcount crit ts /\
  headcount sleepy ts <= headcount incs ts + headcount waiting ts /\
  headcount waiting ts <= headcount sleepy ts + headcount helper ts.
Proof.
  repeat (split; [apply headcount_nonneg; intros []; simpl; try destruct o; lia|]).
  split; [|split]; rewrite <- ?headcount_add; apply headcount_le; intros []; simpl; try destruct o; lia.
Qed.

(** The group of the thread that makes a step is not empty. *)
Lemma member ts i p :
  ts !! i = Some p ->
  crit p <= headcount crit ts /\ queued p <= headcount queued ts /\ reads p <= headcount reads ts /\ writes p <= headcount writes ts /\
  entersR p <= headcount entersR ts /\ entersW p <= headcount entersW ts /\ leaves p <= headcount leaves ts /\ incs p <= headcount incs ts /\
  waiting p <= headcount waiting ts /\ sleepy p <= headcount sleepy ts /\ helper p <= headcount helper ts /\ upping p <= headcount upping ts.
Proof.
  intros H. repeat (split; [apply (headcount_pos _ ts i p); [|exact H]; intros []; simpl; try destruct o; lia|]).
  apply (headcount_pos _ ts i p); [|exact H]. intros []; simpl; lia.
Qed.

Lemma inv_start n : inv new_lock (replicate n Idle).
Proof.
  assert (Hz : forall f, f Idle = 0 -> headcount f (replicate n Idle) = 0).
  { intros f Hf. apply headcount_zero. intros i p Hi. apply lookup_replicate in Hi as [-> _]. exact Hf. }
  split; simpl; rewrite ?Hz by reflexivity; lia.
Qed.

(** Decide the conditions of a step, then compute how the groups change. *)
Ltac settle H :=
  rewrite ?(headcount_insert _ _ _ _ _ H); simpl in *; lia.

Lemma inv_next l ts i p l' p' : inv l ts -> ts !! i = Some p -> next l p = Some (l', p') -> inv l' (<[i := p']> ts).
Proof.
  intros [I1 I2 I3 I4 I5 I6 I7 I8 I9 I10 I11] H E. pose proof (groups ts) as G. pose proof (member ts i p H) as M.
  destruct p as [|o|o|o|o|o|o|o|o|o|o|o|o|o|o|o|o|o|o|o|o|o|]; try discriminate E;
    try (destruct o); simpl in E; unfold usemdown_step, usemup_step, msem_down, msem_up, sem_down, truth in E;
    repeat match type of E with context [if ?b then _ else _] => let Eb := fresh "Eb" in destruct b eqn:Eb end;
    try discriminate E; injection E as <- <-;
    rewrite ?andb_true_iff, ?andb_false_iff, ?negb_true_iff, ?negb_false_iff, ?Z.eqb_eq, ?Z.eqb_neq, ?Z.leb_le, ?Z.leb_gt, ?Z.ltb_lt, ?Z.ltb_ge in *;
    split; settle H.
Qed.

Lemma inv_step l ts l' ts' : inv l ts -> step (l, ts) (l', ts') -> inv l' ts'.
Proof.
  intros I Hs. inversion Hs as [l0 ts0 i o H|l0 ts0 i o H|l0 ts0 i p l1 p' H E]; subst.
  - destruct I as [I1 I2 I3 I4 I5 I6 I7 I8 I9 I10 I11]. split; settle H.
  - destruct I as [I1 I2 I3 I4 I5 I6 I7 I8 I9 I10 I11]. destruct o; split; settle H.
  - apply (inv_next l ts i p); trivial.
Qed.

Lemma rwcrt_lock msem sem l : rwcrt msem sem = (0, Some l) -> l = new_lock.
Proof. unfold rwcrt. destruct (msem <? 0), (sem <? 0); congruence. Qed.

Lemma reachable_inv n s : reachable n s -> inv s.1 s.2.
Proof.
  induction 1 as [msem sem l Hl|[l ts] [l' ts'] _ IH Hs].
  - rewrite (rwcrt_lock _ _ _ Hl). apply inv_start.
  - apply (inv_step l ts); trivial.
Qed.

(** Runs by a schedule: which thread makes a step, and with which request it begins. *)
Definition run_one (s : tRWLock * list pc) (c : nat * op) : option (tRWLock * list pc) :=
  p ← s.2 !! c.1;
  match p with
  | Idle => Some (s.1, <[c.1 := ReqDown c.2]> s.2)
  | Inside o => Some (s.1, <[c.1 := RelDown o]> s.2)
  | _ => '(l', p') ← next s.1 p; Some (l', <[c.1 := p']> s.2)
  end.

Fixpoint run (cs : list (nat * op)) (s : tRWLock * list pc) : option (tRWLock * list pc) :=
  match cs with
  | [] => Some s
  | c :: cs' => s' ← run_one s c; run cs' s'
  end.

Lemma run_one_step s c s' : run_one s c = Some s' -> step s s'.
Proof.
  destruct s as [l ts], c as [i o]. unfold run_one. simpl. destruct (ts !! i) as [p|] eqn:H; [|discriminate]. simpl.
  assert (Hn : forall l' p', next l p = Some (l', p') -> Some (l', <[i := p']> ts) = Some s' -> step (l, ts) s').
  { intros l' p' En [= <-]. exact (step_next l ts i p l' p' H En). }
  destruct (next l p) as [[l' p']|] eqn:En; destruct p; simpl in *; try rewrite En; simpl; intros Hs;
    first [discriminate Hs|eapply Hn; [reflexivity|exact Hs]|injection Hs as <-; constructor; exact H|discriminate En].
Qed.

Lemma run_reachable n cs : forall s s', reachable n s -> run cs s = Some s' -> reachable n s'.
Proof.
  induction cs as [|c cs IH]; simpl; intros s s' Hr H; [injection H as <-; exact Hr|].
  destruct (run_one s c) as [s1|] eqn:E; [|discriminate H]. apply (IH s1); [|exact H].
  apply (reach_step n s); [exact Hr|apply (run_one_step _ _ _ E)].
Qed.

(** ** The theorems *)

Lemma headcount_two f ts i j p q :
  (forall p, 0 <= f p) -> i <> j -> ts !! i = Some p -> ts !! j = Some q -> f p + f q <= headcount f ts.
Proof.
  intros Hf. revert i j. induction ts as [|x ts IH]; intros [|i] [|j] Hij Hi Hj; simpl in *; try discriminate; try lia.
  - injection Hi as ->. pose proof (headcount_pos f ts j q Hf Hj). lia.
  - injection Hj as ->. pose proof (headcount_pos f ts i p Hf Hi). lia.
  - specialize (IH i j ltac:(lia) Hi Hj). specialize (Hf x). lia.
Qed.

(** C10: The lock excludes: whatever the interleaving of any number of threads, two threads that have the
    lock at the same time both read, and no assertion of [rwrel] ever fails. *)
Theorem rwlock_excludes n l ts :
  reachable n (l, ts) ->
  (forall i j o1 o2, i <> j -> ts !! i = Some (Inside o1) -> ts !! j = Some (Inside o2) -> o1 = RW_READ /\ o2 = RW_READ) /\
  (forall i, ts !! i <> Some Failed).
Proof.
  intros Hr. apply reachable_inv in Hr. simpl in Hr. destruct Hr as [_ _ _ _ _ _ I7 _ _ _ I11]. split.
  - intros i j o1 o2 Hij Hi Hj. pose proof (headcount_two writes ts i j _ _ ltac:(intros []; simpl; try destruct o; lia) Hij Hi Hj) as Hw.
    pose proof (headcount_two reads ts i j _ _ ltac:(intros []; simpl; try destruct o; lia) Hij Hi Hj) as Hd.
    destruct o1, o2; simpl in Hw, Hd; auto; lia.
  - intros i Hi. pose proof (headcount_pos failed ts i _ ltac:(intros []; simpl; lia) Hi) as Hf. simpl in Hf. lia.
Qed.

(** A schedule in which both threads read, and one in which a writer waits for a reader. *)
Definition two_readers : list (nat * op) := concat (replicate 6 [(0%nat, RW_READ)]) ++ concat (replicate 6 [(1%nat, RW_READ)]).

Definition after (cs : list (nat * op)) : tRWLock * list pc := default (new_lock, []) (run cs (new_lock, [Idle; Idle])).

Lemma rwlock_excludes_witness :
  after two_readers = (mkrw 0 2 0 1 0, [Inside RW_READ; Inside RW_READ]) /\
  (forall i j o1 o2, i <> j -> (after two_readers).2 !! i = Some (Inside o1) -> (after two_readers).2 !! j = Some (Inside o2) ->
     o1 = RW_READ /\ o2 = RW_READ) /\
  (forall i, (after two_readers).2 !! i <> Some Failed).
Proof.
  split; [reflexivity|]. apply (rwlock_excludes 2 (after two_readers).1 (after two_readers).2).
  apply (run_reachable 2 two_readers (new_lock, [Idle; Idle])); [apply (reach_start 2 1 2); reflexivity|reflexivity].
Defined.

(** C22: The lock does not deadlock: if no thread has the lock and some thread is in the middle of
    [rwreq] or [rwrel], then some thread can make a step.  No wake-up is lost. *)
Theorem rwlock_progresses n l ts i p :
  reachable n (l, ts) -> ts !! i = Some p -> p <> Idle -> (forall j o, ts !! j <> Some (Inside o)) ->
  exists j q l' q', ts !! j = Some q /\ next l q = Some (l', q').
Proof.
  intros Hr Hi Hp Hin. apply reachable_inv in Hr. simpl in Hr.
  destruct (decide (Exists (fun q => is_Some (next l q)) ts)) as [He|Hne].
  { apply Exists_exists in He as (q & Hq & [[l' q'] En]). apply list_elem_of_lookup in Hq as [j Hj]. eauto 6. }
  exfalso. assert (Hb : forall j q, ts !! j = Some q -> next l q = None).
  { intros j q Hj. destruct (next l q) as [x|] eqn:En; [|reflexivity]. destruct Hne. apply Exists_exists.
    exists q. split; [apply (list_elem_of_lookup_2 _ _ _ Hj)|eauto]. }
  destruct Hr as [I1 I2 I3 I4 I5 I6 I7 I8 I9 I10 I11].
  assert (Hq : forall j q, ts !! j = Some q -> q = Idle \/ queued q = 1 /\ mutex_sem l <= 0 \/ (exists o, q = Asleep o) /\ rw_sem l <= 0).
  { intros j q Hj. pose proof (Hb j q Hj) as En. pose proof (headcount_pos failed ts j q ltac:(intros []; simpl; lia) Hj) as Hf.
    destruct q as [|o|o|o|[]|o|o|o|o|o|o|o|[]|o|o|o|o|o|[]|o|o|o|]; simpl in *;
      unfold msem_down, sem_down in En; try discriminate En; auto; try lia.
    all: try (destruct (Z.ltb_spec 0 (mutex_sem l)); [discriminate En|auto]).
    - destruct (Z.ltb_spec 0 (rw_sem l)); [discriminate En|eauto].
    - destruct (Hin j o Hj).
    - destruct (0 <? rw_count l); discriminate En.
    - destruct (rw_count l =? -1); discriminate En. }
  pose proof (groups ts) as G.
  assert (Hz : forall f, f Idle = 0 -> (forall o, f (Asleep o) = 0) -> (forall q, queued q = 1 -> mutex_sem l <= 0 -> f q = 0) -> headcount f ts = 0).
  { intros f F1 F2 F3. apply headcount_zero. intros j q Hj. destruct (Hq j q Hj) as [->|[[Hqq Hm]|[[o ->] _]]]; auto. }
  assert (Hc : headcount crit ts = 0) by (apply Hz; trivial; intros []; simpl; intros; trivial; discriminate).
  assert (Hu : headcount upping ts = 0) by (apply Hz; trivial; intros []; simpl; intros; trivial; discriminate).
  assert (Hms : mutex_sem l = 0).
  { destruct (Z.eq_dec (mutex_sem l) 0); [trivial|]. assert (headcount queued ts = 0) by (apply Hz; trivial; intros; lia). lia. }
  assert (Hq0 : headcount queued ts = 0) by lia.
  assert (Hw : forall j q, ts !! j = Some q -> q = Idle \/ (exists o, q = Asleep o) /\ rw_sem l <= 0).
  { intros j q Hj. destruct (Hq j q Hj) as [?|[[Hqq _]|?]]; auto.
    pose proof (headcount_pos queued ts j q ltac:(intros []; simpl; lia) Hj). lia. }
  assert (Hz' : forall f, f Idle = 0 -> (forall o, f (Asleep o) = 0) -> headcount f ts = 0).
  { intros f F1 F2. apply headcount_zero. intros j q Hj. destruct (Hw j q Hj) as [->|[[o ->] _]]; trivial. }
  pose proof (Hz' reads eq_refl (fun _ => eq_refl)). pose proof (Hz' writes eq_refl (fun _ => eq_refl)).
  pose proof (Hz' helper eq_refl (fun _ => eq_refl)).
  destruct (Hw i p Hi) as [?|[[o ->] Hsem]]; [contradiction|].
  pose proof (headcount_pos sleepy ts i _ ltac:(intros []; simpl; lia) Hi) as Hsl. simpl in Hsl. lia.
Qed.

(** A writer that waits for a reader which is about to leave. *)
Definition writer_waits : list (nat * op) :=
  concat (replicate 6 [(0%nat, RW_READ)]) ++ concat (replicate 6 [(1%nat, RW_WRITE)]) ++ concat (replicate 1 [(0%nat, RW_READ)]).

Lemma rwlock_progresses_witness :
  after writer_waits = (mkrw 0 1 1 1 0, [RelDown RW_READ; Asleep RW_WRITE]) /\
  exists j q l' q', [RelDown RW_READ; Asleep RW_WRITE] !! j = Some q /\ next (mkrw 0 1 1 1 0) q = Some (l', q').
Proof.
  split; [reflexivity|].
  apply (rwlock_progresses 2 (mkrw 0 1 1 1 0) [RelDown RW_READ; Asleep RW_WRITE] 1%nat (Asleep RW_WRITE)); [|reflexivity|discriminate|].
  - apply (run_reachable 2 writer_waits (new_lock, [Idle; Idle])); [apply (reach_start 2 1 2); reflexivity|reflexivity].
  - intros [|[|j]] o; simpl; discriminate.
Defined.
